(* ===== verification/_CoqProject ===== *)
-Q . S2P
Prelude.v
Crypto.v
Types.v
Identity.v
Chain.v
Ledger.v
Catalog.v
Routing.v
Dht.v
Gossip.v
Content.v
Bitswap.v
Transfer.v
Fs.v
Manifest.v
Glob.v
Project.v
Retention.v
FsPlain.v
HistoryIndex.v
Tags.v
Rotation.v
HistoryStore.v
StoreInv.v
StoreOps.v
StoreGc.v
StoreRotate.v
LocalBackend.v
StoreProps.v
Hooks.v
Worktree.v
Exchange.v
Incoming.v
Checkout.v
Conflict.v
Presence.v
Publish.v
Wiring.v
IpcProtocol.v
Invite.v
Stun.v
Mesh.v
Tunnel.v
Quic.v
Conduit.v
IpcServer.v
Daemon.v
Links.v
Relay.v
Registry.v
Cloudflare.v
Control.v
AdminUi.v
Custody.v
CustodyProps.v
ContentHttp.v
Advertise.v
