(* ===== verification/Prelude.v ===== *)
(** * Synergos: a verification library

    Synergos synchronises project files between peers.  Every node has an ed25519
    identity; it finds peers through a Kademlia table, spreads signed announcements by
    gossip, keeps for every project a catalog of files with a hash chain of versions per
    file, transfers files and content-addressed blocks over QUIC streams, and keeps a
    manifest and a version history on disk.  This library models the Rust crates
    [synergos-net] (the network layer), [synergos-core] (the daemon) and its services as executable
    Rocq definitions and proves what makes them correct.

    ** The files

    - [Prelude] (this file): machine integers and bytes, results, iterator adapters,
      sorting, automation ([split_guard], [bool_to_prop], the hint database [synergos])
      and the lemmas the components share.
    - [Crypto]: BLAKE3, CRC-32, hex, ed25519, Argon2/AES-GCM and serde codecs.  They are
      third-party crates, so they are classes ([Blake3], [Ed25519], [Codec], ...) with the
      documented facts the code relies on as separate law classes; module [Toy] gives an
      instance of each, which the witnesses run.
    - [Types]: [synergos-net/src/types.rs] and [error.rs]; the XOR metric and its lemmas.
    - [Identity]: [identity.rs]: peer ids, signatures, both key file formats.
    - [Chain]: [chain/file_chain.rs]: blocks, [verify_block], the chain window.
    - [Ledger]: [chain/ledger.rs]: wants and offers.
    - [Catalog]: [catalog/types.rs], [catalog/manager.rs]: chunks, index, updates, diffs.
    - [Routing]: [dht/routing.rs]: the k-buckets.
    - [Dht]: [dht/node.rs], [dht/rpc.rs], [dht/transport.rs]: records, iterative lookup,
      framed requests.
    - [Gossip]: [gossip/message.rs], [gossip/node.rs], [gossip/transport.rs]: signing
      bytes, duplicate cache, mesh, delivery, frames.
    - [Content]: [content/block.rs], [content/store.rs], [content/chunker.rs]: blocks and
      files; the two stores implement the interface class [ContentStore] with laws, and
      the clients are proved against the interface.
    - [Bitswap]: [content/bitswap.rs], [content/session.rs]: the block exchange.
    - [Transfer]: [transfer/mod.rs]: file transfer frames, sender and receiver.
    - [Fs]: what the daemon uses of [std::fs] and [tokio::fs]: a tree with symbolic links,
      path resolution, and operations that may fail or stop half-way.
    - [Manifest]: [synergos-core/src/manifest.rs], [version_state.rs].
    - [Glob]: characters of UTF-8 text and [glob_match] of [synergos-net/src/config.rs].
    - [Project]: [synergos-core/src/project.rs]: open projects, version numbers, invites.
    - [Retention]: [history/index.rs] and [history/gc.rs]: the index and the policy.
    - [FsPlain]: rules for the operations of [Fs] on paths that meet no link.
    - [HistoryIndex]: [history/index.rs]: the index on disk, the sidecars, the rebuild.
    - [Tags]: [history/tags.rs].
    - [Rotation]: [history/rotation/mod.rs], [backend.rs], [local.rs]: the record
      [RotationBackend] of operations, [rotate], [fetch], the local directory backend.
    - [HistoryStore]: [history/store.rs]: [archive], [lookup], [gc], tags, rotation.
    - [StoreInv], [StoreOps], [StoreGc], [StoreRotate]: the invariant [store_inv] of a store,
      of whose objects any set may be damaged (the class [Damaged], by default none), and what
      each operation does to it, for every fault; [StoreRotate] proves rotation
      against the interface [BackendLaws], [LocalBackend] shows that the local directory
      backend keeps it; [StoreProps] has the operations as one alphabet and the theorems.
    - [Hooks]: [hooks/project_file.rs], [hooks/runner.rs] and the settings of hooks.
    - [Worktree]: [worktree_status.rs]: the scan of a working tree and its comparison with
      the manifest.
    - [Exchange], [Incoming], [Checkout]: [exchange.rs] and the receiving half of
      [daemon.rs]: shared files, wants, offers and requests; a received file on its way to
      the disk; checkout and restore.  [Conflict]: [conflict.rs].  [Presence]:
      [presence.rs].  [Publish]: publishing of files, with hooks, ignore rules and history.
    - [IpcProtocol]: [synergos-ipc]: commands and their validation, responses, frames.
      [IpcServer]: [ipc_server.rs]: the handlers of all commands and a client's session.
    - [Invite]: [invite.rs] and the bootstrap from an address.
    - [Stun]: [mesh/stun.rs]; [Mesh]: [mesh/mod.rs], probes and addresses; [Tunnel]:
      [tunnel/mod.rs], the [cloudflared] process; [Quic]: [quic/mod.rs], hello, pinned
      certificates, the table of connections; [Conduit]: [conduit/mod.rs], the choice and
      the change of routes.
    - [Daemon]: [daemon.rs], [catalog_sync.rs]: the streams a peer opens, the subscriber of
      announcements, pulls, transmissions, catalog synchronisation; [Links]: the tasks that
      serve connections and the periodic clean-up.
    - [Wiring]: [history/wiring.rs], [hooks/wiring.rs]: how the exchange gets an old version from
      the history store and how a received file reaches the hook runner.
    - [Relay]: [synergos-relay/src/server.rs] and [synergos-net/src/relay/mod.rs]: the rooms of
      the relay with the loops of its connections as interleaved steps, and a client's session.
    - [Registry], [Cloudflare], [Control], [AdminUi]: [synergos-control]: the registry of
      organisations and nodes in its file; the Cloudflare client and the comparison with what
      Cloudflare lists; the handlers and who may call them; the files of the administration pages.
    - [ContentHttp]: [synergos-core/src/content_http]: manifests, the block cache, pulling and
      pushing blocks with granted URLs, assembly.
    - [Custody], [CustodyProps]: [synergos-custody]: objects taken into custody for a server, with
      signed addresses and receipts; what holds of them.
    - [Advertise]: [promotion.rs], [mesh_ip.rs], [peer_info_server.rs], [control_heartbeat.rs]: the
      node's own addresses, the mode it starts in, the endpoint it advertises, its reports to the
      control server.

    ** How code becomes definitions

    A struct is a record, an enum an inductive type, both with the source's names where
    they do not clash.  A method that mutates [self] takes the record and returns the new
    one; [Result] is [result], [?] its bind, a panic the error value [Panicked] or [None].
    A [u64] is an [N] with its saturating or wrapping operation written out.  A [HashMap]
    or [DashMap] is a finite map, and code that depends on its iteration order takes the
    order as a parameter ([MapIter]) of which only the elements are known; a [BTreeMap] is
    iterated in key order.  A stream is the list of bytes it carries.  Clocks, random
    identifiers and the answers of other peers are arguments.  In [Fs] and the files on
    top of it computations are of type [ST S E A], state passing with errors, and the
    state holds the disk and a stream of faults, so that a theorem that quantifies over
    the stream covers a failure, a short write or a crash at every point.
    Operations of one component run one at a time: the code holds a lock during each.

    ** What is proved

    - Integrity of what is accepted: a received file has the announced length, hash and
      checksum and the sender's stream reproduces the file ([Transfer]); a verified block
      binds its author to all of its content, and the chain is a window of one history
      ([Chain]); a delivered gossip message was signed by its sender, and the signing
      bytes of wants and offers are injective ([Gossip]); files read back equal what was
      added, and blocks fetched from a peer are the blocks asked for ([Content],
      [Bitswap]).
    - Version numbers: a number issued for a file exceeds every number issued, seen or
      recorded for it before, across failures, crashes, restarts and checkouts
      ([Project]); a manifest is saved all or nothing and a received path is confined to
      its project ([Manifest]).
    - Invariants of the stateful components over all operation sequences: [Catalog],
      [Ledger], [Routing], [Dht], [Gossip]; bounds on their state and on the traffic of a
      lookup; the retention policy removes what it may and meets its limits
      ([Retention]).
    - The history store: whatever operations run and whatever fails in them, versions stay
      in the index and available, in the store or at the backend ([StoreProps]); a lookup
      returns the recorded version with the content of its hash or nothing, even if objects in
      the store or at the backend are damaged, a collection spares what is protected or pinned,
      [archive] refines the insertion into a map, nothing outside the store changes.
    - [glob_match] accepts the language its pattern denotes ([Glob]); the scan of a working
      tree ends after one step per entry with exactly the files that are not ignored, and the
      comparison is exact ([Worktree]); hooks run only when authorised and a publish stops at
      the first failing one ([Hooks]).
    - Files between nodes: an older version replaces a newer one only on request, a received
      file is placed whole or not at all ([Exchange], [Incoming]); a publish that fails
      announces nothing ([Publish]); the subscriber does with announcements exactly what a
      specification by message says, and a published file that a peer hears of is asked for
      and sent ([Daemon]).
    - Connections: every entry of the table was authenticated, both ends of a connection
      name each other, and every connection of the table has its task, but for dialled ones
      whose notification the dispatcher missed because it was too far behind ([Quic], [Links]);
      relay-only mode dials nothing else ([Conduit]); the STUN parser never reads out of
      bounds ([Stun]); one tunnel process at most is held ([Tunnel]).
    - Clients: a command runs only when it validates and is answered in order, until an answer
      cannot be written; as far as the frames on the socket are whole the client gives each
      command its own answer; invites reach the host that signed them ([IpcProtocol],
      [IpcServer], [Invite]).
    - An archived version is served to whoever asks for it later, and the commands for a received
      file are authorised and name the file as it was stored ([Wiring]).
    - Services: a frame of the relay reaches exactly the other members of its room, in order, and
      a connection that breaks keeps its place ([Relay]); without the administrator's token a
      request changes nothing but what a node says of itself, the registry on disk is the one in
      memory and a registration takes place as a whole ([Control]); a reconciliation removes nothing that
      is registered ([Cloudflare]); pages come from their directory only ([AdminUi]); objects in
      custody stay as they are until they are reclaimed, and receipts are true ([CustodyProps]);
      a pull over HTTP publishes the file its root stands for or nothing, and a push uploads
      the root last ([ContentHttp]).
    - The node key goes to the configured control server only, never in plain text outside the
      machine and the mesh, and a report of a registered node is accepted; the classes of addresses
      are the blocks they are meant to be ([Advertise]).
    - Round trips: key files, RPC frames, transfers, blocks, manifests, STUN addresses, IPC
      frames.
    - Some theorems record where the code departs from its comments or from what it
      should do (ambiguous signing bytes, repeated matches, a content hash that is never
      set, an identifier that leaves the store's directory).

    ** Bounds and fuel

    Recursion that is not structural takes fuel computed from its input, and lemmas show
    that it suffices: [chunks_fuel] the length of the list, the hops of a lookup its
    [max_hops], the loops over streams the length of the stream, the scan of a directory tree
    the number of its entries, [Stun.parse_attrs] and the reader of IPC frames the length of
    the message, a client's session one more than the length of its input.  A resolution follows at
    most [SYMLOOP_MAX] = 40 links, the limit of Linux.  Integers keep their width where
    the code depends on it ([is_u64], [is_u32], [sat_add], [wrapping_sub]).

    ** What is not modelled

    The command line, process start-up and the user interfaces only call the operations
    modelled here.  TLS, X.509, HTTP, DNS and Cloudflare are third-party services: their
    answers are arguments.  Operating-system randomness and clocks are arguments too.
    Concurrency inside one operation is not modelled, except where a file says so.  The S3
    and Google Drive backends are network clients: theorems about rotation hold for every
    backend with the laws of [BackendLaws]. *)

From Corelib Require Export ssreflect.
From Stdlib Require Export Strings.Byte.
From stdpp Require Export base list gmap strings numbers relations sorting fin_maps.

#[global] Open Scope general_if_scope.

(** ** Machine data

    A Rust [u8] is a [byte]; a [Vec<u8>], [&[u8]] or [[u8; n]] is a [list byte];
    a [u64] or [u32] is an [N] whose bound is written where it matters; a [usize]
    that counts elements is a [nat].  A Rust [String] is a [string]: its characters
    are the bytes of the UTF-8 encoding. *)

Abbreviation bytes := (list byte).

Global Instance byte_eq_decision : EqDecision byte := Byte.byte_eq_dec.

Global Program Instance byte_countable : Countable byte :=
  {| encode b := encode (Byte.to_N b); decode p := decode p ≫= Byte.of_N |}.
Next Obligation. intros b. cbn. rw decode_encode /=. apply Byte.of_to_N. Qed.

Definition u64_max : N := 18446744073709551615.
Definition u32_max : N := 4294967295.
(** [usize::MAX] of a 64-bit target. *)
Definition usize_max : N := 18446744073709551615.

(** [saturating_add] / [saturating_mul] of [u64]; [saturating_sub] is [N.sub]. *)
Definition sat_add (a b : N) : N := N.min (a + b) u64_max.
Definition sat_mul (a b : N) : N := N.min (a * b) u64_max.

(** [wrapping] reduction of the release-mode [+] and [-] on [u64]. *)
Definition wrap64 (x : Z) : N := Z.to_N (x mod 18446744073709551616).

(** [a - b] on [u64] with overflow checks disabled (the release profile). *)
Definition wrapping_sub (a b : N) : N := wrap64 (Z.of_N a - Z.of_N b).

Definition wrapping_add (a b : N) : N := wrap64 (Z.of_N a + Z.of_N b).

Definition byte_of_N (x : N) : byte := default x00 (Byte.of_N (x mod 256)).

Definition as_bytes (s : string) : bytes := String.list_byte_of_string s.

(** [to_le_bytes] of a [w]-byte integer, [to_be_bytes] and their inverses. *)
Fixpoint le_bytes (w : nat) (x : N) : bytes :=
  match w with
  | O => []
  | S w' => byte_of_N x :: le_bytes w' (x / 256)
  end.

Fixpoint of_le_bytes (l : bytes) : N :=
  match l with
  | [] => 0
  | b :: l' => Byte.to_N b + 256 * of_le_bytes l'
  end.

Definition be_bytes (w : nat) (x : N) : bytes := reverse (le_bytes w x).
Definition of_be_bytes (l : bytes) : N := of_le_bytes (reverse l).

(** [u64::div_ceil]. *)
Definition div_ceil (a b : N) : N := (a + b - 1) / b.

(** ** Results

    [Result<T, E>] with [?] as monadic bind. *)
Inductive result (E A : Type) : Type :=
| Ok (a : A)
| Err (e : E).
Arguments Ok {E A} a.
Arguments Err {E A} e.

Global Instance result_ret {E} : MRet (result E) := λ A, Ok.
Global Instance result_bind {E} : MBind (result E) := λ A B f m,
  match m with Ok a => f a | Err e => Err e end.
Global Instance result_fmap {E} : FMap (result E) := λ A B f m,
  match m with Ok a => Ok (f a) | Err e => Err e end.

Global Instance result_eq_decision {E A} `{EqDecision E, EqDecision A} :
  EqDecision (result E A).
Proof. solve_decision. Defined.

Definition ok_or {E A} (o : option A) (e : E) : result E A :=
  match o with Some a => Ok a | None => Err e end.

Definition map_err {E F A} (f : E → F) (r : result E A) : result F A :=
  match r with Ok a => Ok a | Err e => Err (f e) end.

Definition is_ok {E A} (r : result E A) : bool :=
  match r with Ok _ => true | Err _ => false end.

Definition result_to_option {E A} (r : result E A) : option A :=
  match r with Ok a => Some a | Err _ => None end.

(** [if c { return Err(e) }]. *)
Definition ensure {E} (c : bool) (e : E) : result E () :=
  if c then Ok () else Err e.

(** ** Iterator adapters *)

(** [iter().find(p)], [iter().any(p)], [iter().position(p)]. *)
Fixpoint find_first {A} (p : A → bool) (l : list A) : option A :=
  match l with
  | [] => None
  | x :: l' => if p x then Some x else find_first p l'
  end.

Fixpoint position {A} (p : A → bool) (l : list A) : option nat :=
  match l with
  | [] => None
  | x :: l' => if p x then Some 0 else S <$> position p l'
  end.

(** [if let Some(x) = v.iter_mut().find(p) { *x = g(x) }]. *)
Fixpoint update_first {A} (p : A → bool) (g : A → A) (l : list A) : list A :=
  match l with
  | [] => []
  | x :: l' => if p x then g x :: l' else x :: update_first p g l'
  end.

(** [min_by_key]: the first of the elements with the least key, with its index. *)
Fixpoint min_by_key {A} (key : A → N) (l : list A) : option (nat * A) :=
  match l with
  | [] => None
  | x :: l' =>
      match min_by_key key l' with
      | Some (i, y) => if key y <? key x then Some (S i, y) else Some (0%nat, x)
      | None => Some (0%nat, x)
      end
  end%N.

(** [slice::chunks(n)] for [0 < n]: fuel is the length of the list. *)
Fixpoint chunks_fuel {A} (fuel n : nat) (l : list A) : list (list A) :=
  match fuel, l with
  | O, _ | _, [] => []
  | S fuel', _ => take n l :: chunks_fuel fuel' n (drop n l)
  end.
Definition chunks {A} (n : nat) (l : list A) : list (list A) :=
  chunks_fuel (length l) n l.

(** A stable sort, as [Vec::sort_by] and [Vec::sort]. *)
Fixpoint insert_sorted {A} (le : A → A → bool) (x : A) (l : list A) : list A :=
  match l with
  | [] => [x]
  | y :: l' => if le x y then x :: l else y :: insert_sorted le x l'
  end.
Definition isort {A} (le : A → A → bool) (l : list A) : list A :=
  foldr (insert_sorted le) [] l.

(** Lexicographic order, as the [Ord] of arrays, [Vec], [String] and tuples. *)
Fixpoint lex_leb {A} (ltb eqb : A → A → bool) (l k : list A) : bool :=
  match l, k with
  | [], _ => true
  | _ :: _, [] => false
  | x :: l', y :: k' => ltb x y || (eqb x y && lex_leb ltb eqb l' k')
  end.

Definition byte_ltb (a b : byte) : bool := (Byte.to_N a <? Byte.to_N b)%N.
Definition byte_eqb (a b : byte) : bool := bool_decide (a = b).
Definition bytes_leb (a b : bytes) : bool := lex_leb byte_ltb byte_eqb a b.
Definition string_leb (a b : string) : bool := bytes_leb (as_bytes a) (as_bytes b).

(** The iteration order of a [DashMap] or [HashMap] is not specified: code that depends
    on it takes the order as a parameter, of which only the elements are known. *)
Class MapIter (K A : Type) `{Countable K} := map_iter : gmap K A → list (K * A).
Class MapIterLaws (K A : Type) `{MapIter K A} : Prop :=
  map_iter_perm : ∀ m : gmap K A, map_iter m ≡ₚ map_to_list m.

(** A list tested for membership with [contains]. *)
Definition contains {A} `{EqDecision A} (x : A) (l : list A) : bool :=
  bool_decide (x ∈ l).

(** ** Automation *)

Create HintDb synergos.

(** Case analysis on the guards of a translated function, innermost first. *)
Ltac split_guard :=
  match goal with
  | H : context [match ?c with _ => _ end] |- _ =>
      lazymatch c with context [match _ with _ => _ end] => fail | _ =>
      destruct c eqn:? end
  | |- context [match ?c with _ => _ end] =>
      lazymatch c with context [match _ with _ => _ end] => fail | _ =>
      destruct c eqn:? end
  end.

Ltac inv_result := repeat (split_guard; simplify_eq/=).

(** Turns boolean tests of the code into the propositions they decide. *)
Ltac bool_to_prop :=
  repeat match goal with
  | H : (_ && _) = true |- _ => apply andb_true_iff in H as [? ?]
  | H : (_ || _) = false |- _ => apply orb_false_iff in H as [? ?]
  | H : (_ && _) = false |- _ => apply andb_false_iff in H
  | H : (_ || _) = true |- _ => apply orb_true_iff in H
  | H : negb _ = true |- _ => apply negb_true_iff in H
  | H : negb _ = false |- _ => apply negb_false_iff in H
  | H : (_ <=? _)%N = true |- _ => apply N.leb_le in H
  | H : (_ <=? _)%N = false |- _ => apply N.leb_gt in H
  | H : (_ <? _)%N = true |- _ => apply N.ltb_lt in H
  | H : (_ <? _)%N = false |- _ => apply N.ltb_ge in H
  | H : (_ =? _)%N = true |- _ => apply N.eqb_eq in H
  | H : (_ =? _)%N = false |- _ => apply N.eqb_neq in H
  | H : (_ <=? _)%nat = true |- _ => apply Nat.leb_le in H
  | H : (_ <=? _)%nat = false |- _ => apply Nat.leb_gt in H
  | H : (_ <? _)%nat = true |- _ => apply Nat.ltb_lt in H
  | H : (_ <? _)%nat = false |- _ => apply Nat.ltb_ge in H
  | H : (_ =? _)%nat = true |- _ => apply Nat.eqb_eq in H
  | H : (_ =? _)%nat = false |- _ => apply Nat.eqb_neq in H
  | H : bool_decide _ = true |- _ => apply bool_decide_eq_true_1 in H
  | H : bool_decide _ = false |- _ => apply bool_decide_eq_false_1 in H
  end.

(** ** Lemmas on bytes and integers *)

Lemma byte_of_N_to_N (x : N) : Byte.to_N (byte_of_N x) = (x mod 256)%N.
Proof.
  unfold byte_of_N. assert (Hlt : (x mod 256 < 256)%N) by (apply N.mod_lt; lia).
  destruct (Byte.of_N (x mod 256)) as [b|] eqn:E.
  - by apply Byte.to_of_N in E.
  - apply Byte.of_N_None_iff in E. lia.
Qed.

Lemma byte_to_N_inj (a b : byte) : Byte.to_N a = Byte.to_N b → a = b.
Proof.
  intros H. apply (f_equal Byte.of_N) in H. rw !Byte.of_to_N in H. by injection H.
Qed.

Lemma byte_to_N_lt (b : byte) : (Byte.to_N b < 256)%N.
Proof. pose proof (Byte.to_N_bounded b). lia. Qed.

Lemma length_le_bytes w x : length (le_bytes w x) = w.
Proof. revert x. induction w as [|w IH]; intros x; [done|]. by rw /= IH. Qed.

Lemma length_be_bytes w x : length (be_bytes w x) = w.
Proof. unfold be_bytes. by rw length_reverse length_le_bytes. Qed.

Lemma of_le_bytes_le_bytes w x :
  of_le_bytes (le_bytes w x) = (x mod 256 ^ N.of_nat w)%N.
Proof.
  revert x. induction w as [|w IH]; intros x.
  - rw /= N.mod_1_r //.
  - cbn [le_bytes of_le_bytes]. rw IH byte_of_N_to_N.
    rw Nat2N.inj_succ N.pow_succ_r'.
    rw (N.Div0.mod_mul_r x 256). lia.
Qed.

Lemma le_bytes_inj w x y :
  (x < 256 ^ N.of_nat w)%N → (y < 256 ^ N.of_nat w)%N →
  le_bytes w x = le_bytes w y → x = y.
Proof.
  intros Hx Hy H. apply (f_equal of_le_bytes) in H.
  rw !of_le_bytes_le_bytes !N.mod_small // in H.
Qed.

Lemma of_be_bytes_be_bytes w x :
  (x < 256 ^ N.of_nat w)%N → of_be_bytes (be_bytes w x) = x.
Proof.
  intros Hx. unfold of_be_bytes, be_bytes.
  rw reverse_involutive of_le_bytes_le_bytes N.mod_small //.
Qed.

Global Opaque le_bytes of_le_bytes byte_of_N.

Lemma as_bytes_inj s t : as_bytes s = as_bytes t → s = t.
Proof.
  intros H. apply (f_equal String.string_of_list_byte) in H.
  unfold as_bytes in H. by rw !String.string_of_list_byte_of_string in H.
Qed.

Lemma string_app_assoc (s t u : string) : (s +:+ t) +:+ u = s +:+ (t +:+ u).
Proof.
  induction s as [|c s IH]; [done|].
  change (String.String c ((s +:+ t) +:+ u) = String.String c (s +:+ t +:+ u)). by f_equal.
Qed.

Lemma string_app_inj_l (s t u : string) : s +:+ t = s +:+ u → t = u.
Proof. apply (inj (String.app s)). Qed.

(** The bound of a [u64] or [u32] in the form [le_bytes_inj] needs. *)
Definition is_u64 (x : N) : Prop := (x ≤ u64_max)%N.
Definition is_u32 (x : N) : Prop := (x ≤ u32_max)%N.
Global Instance is_u64_dec x : Decision (is_u64 x).
Proof. unfold is_u64. apply _. Defined.
Global Instance is_u32_dec x : Decision (is_u32 x).
Proof. unfold is_u32. apply _. Defined.

Lemma le_bytes_inj64 x y : is_u64 x → is_u64 y → le_bytes 8 x = le_bytes 8 y → x = y.
Proof.
  intros Hx Hy. apply le_bytes_inj; unfold is_u64, u64_max in *; cbn; lia.
Qed.

Lemma le_bytes_inj32 x y : is_u32 x → is_u32 y → le_bytes 4 x = le_bytes 4 y → x = y.
Proof.
  intros Hx Hy. apply le_bytes_inj; unfold is_u32, u32_max in *; cbn; lia.
Qed.

Lemma sat_add_u64 a b : is_u64 (sat_add a b).
Proof. unfold is_u64, sat_add. lia. Qed.

Lemma sat_add_ge a b : is_u64 a → (a ≤ sat_add a b)%N.
Proof. unfold is_u64, sat_add. lia. Qed.

Lemma sat_add_lt a : (a < u64_max)%N → (a < sat_add a 1)%N.
Proof. unfold sat_add. lia. Qed.

#[export] Hint Resolve sat_add_u64 sat_add_ge sat_add_lt : synergos.
Create Rewrite HintDb synergos.
#[export] Hint Rewrite length_le_bytes length_be_bytes : synergos.

(** Concatenations whose first (or last) parts have equal lengths split. *)
Lemma app_split {A} (l1 l2 k1 k2 : list A) :
  length l1 = length k1 → l1 ++ l2 = k1 ++ k2 → l1 = k1 ∧ l2 = k2.
Proof. apply app_inj_1. Qed.

Lemma app_split_r {A} (l1 l2 k1 k2 : list A) :
  length l2 = length k2 → l1 ++ l2 = k1 ++ k2 → l1 = k1 ∧ l2 = k2.
Proof. apply app_inj_2. Qed.

(** ** Lemmas on the iterator adapters *)

Section adapters.
Context {A : Type}.
Implicit Types (p : A → bool) (l : list A).

Lemma find_first_Some p l x :
  find_first p l = Some x → x ∈ l ∧ p x = true.
Proof.
  induction l as [|y l IH]; simpl; [done|]. destruct (p y) eqn:E.
  - intros [= ->]. split; [left|done].
  - intros H. destruct (IH H). split; [by right|done].
Qed.

Lemma find_first_None p l :
  find_first p l = None ↔ ∀ x, x ∈ l → p x = false.
Proof.
  induction l as [|y l IH]; simpl; [set_solver|]. destruct (p y) eqn:E.
  - split; [done|]. intros H. rw (H y) in E; [left|done].
  - rw IH. split; [intros H x [->|]%elem_of_cons; auto|].
    intros H x Hx. apply H. by right.
Qed.

Lemma position_Some p l i :
  position p l = Some i → ∃ x, l !! i = Some x ∧ p x = true.
Proof.
  revert i. induction l as [|y l IH]; intros i; simpl; [done|].
  destruct (p y) eqn:E; [intros [= <-]; by exists y|].
  intros (j & Hj & ->)%fmap_Some. apply IH in Hj as (x & ? & ?). by exists x.
Qed.

Lemma position_None p l :
  position p l = None ↔ ∀ x, x ∈ l → p x = false.
Proof.
  induction l as [|y l IH]; simpl; [set_solver|]. destruct (p y) eqn:E.
  - split; [done|]. intros H. rw (H y) in E; [left|done].
  - rw fmap_None IH. split; [intros H x [->|]%elem_of_cons; auto|].
    intros H x Hx. apply H. by right.
Qed.

Lemma length_update_first p g l : length (update_first p g l) = length l.
Proof. induction l as [|y l IH]; simpl; [done|]. destruct (p y); simpl; lia. Qed.

(** An update that keeps a projection keeps the list of projections. *)
Lemma update_first_map {B} (f : A → B) p g l :
  (∀ x, f (g x) = f x) → f <$> update_first p g l = f <$> l.
Proof.
  intros Hg. induction l as [|y l IH]; simpl; [done|].
  destruct (p y); rw !fmap_cons; [by rw Hg|by rw IH].
Qed.

Lemma elem_of_update_first p g l x :
  x ∈ update_first p g l → x ∈ l ∨ ∃ y, y ∈ l ∧ p y = true ∧ x = g y.
Proof.
  induction l as [|y l IH]; simpl; [set_solver|].
  destruct (p y) eqn:E; intros [->|Hx]%elem_of_cons.
  - right. exists y. split; [left|done].
  - left. by right.
  - left. left.
  - destruct (IH Hx) as [?|(z & ? & ? & ?)]; [left; by right|].
    right. exists z. split; [by right|done].
Qed.

(** With distinct keys, the elements of an updated list are the untouched ones and
    the one updated element. *)
Lemma elem_of_update_first_key `{EqDecision B} (f : A → B) k g l x :
  NoDup (f <$> l) → (∀ y, f (g y) = f y) →
  x ∈ update_first (λ y, bool_decide (f y = k)) g l →
  (x ∈ l ∧ f x ≠ k) ∨ (∃ y, y ∈ l ∧ f y = k ∧ x = g y).
Proof.
  intros Hnd Hg. induction l as [|y l IH]; simpl; [set_solver|].
  rw fmap_cons in Hnd. apply NoDup_cons in Hnd as [Hy Hnd].
  case_bool_decide as Hk; intros [->|Hx]%elem_of_cons.
  - right. exists y. split; [left|done].
  - left. split; [by right|]. intros Hfx. apply Hy, list_elem_of_fmap. exists x. by rw Hfx Hk.
  - left. split; [left|done].
  - destruct (IH Hnd Hx) as [[? ?]|(z & ? & ? & ?)]; [left; split; [by right|done]|].
    right. exists z. split; [by right|done].
Qed.

Lemma Forall_update_first (P : A → Prop) p g l :
  Forall P l → (∀ x, x ∈ l → p x = true → P x → P (g x)) →
  Forall P (update_first p g l).
Proof.
  rw !Forall_forall. intros HP Hg x [?|(y & Hy & Hp & ->)]%elem_of_update_first; auto.
Qed.

Lemma update_first_none p g l :
  (∀ x, x ∈ l → p x = false) → update_first p g l = l.
Proof.
  induction l as [|y l IH]; simpl; intros H; [done|].
  rw (H y); [left|]. rw IH //. intros x Hx. apply H. by right.
Qed.

Lemma min_by_key_None (key : A → N) l : min_by_key key l = None ↔ l = [].
Proof.
  destruct l as [|x l]; simpl; [done|].
  destruct (min_by_key key l) as [[]|]; [destruct (_ <? _)%N|]; naive_solver.
Qed.

Lemma min_by_key_spec (key : A → N) l i x :
  min_by_key key l = Some (i, x) →
  l !! i = Some x ∧ ∀ y, y ∈ l → (key x ≤ key y)%N.
Proof.
  revert i x. induction l as [|z l IH]; intros i x; simpl; [done|].
  destruct (min_by_key key l) as [[j y]|] eqn:E.
  - destruct (IH _ _ eq_refl) as [Hj Hle].
    destruct (key y <? key z)%N eqn:Hlt; bool_to_prop; intros [= <- <-];
      (split; [done|]); intros w [->|Hw]%elem_of_cons; try specialize (Hle _ Hw); lia.
  - apply min_by_key_None in E as ->.
    intros [= <- <-]. split; [done|]. intros y ->%list_elem_of_singleton. lia.
Qed.
End adapters.

(** ** Chunks *)
Section chunks.
Context {A : Type}.
Implicit Types l : list A.

Lemma chunks_fuel_ge f1 f2 n l :
  0 < n → length l ≤ f1 → length l ≤ f2 → chunks_fuel f1 n l = chunks_fuel f2 n l.
Proof.
  intros Hn. revert f2 l. induction f1 as [|f1 IH]; intros [|f2] [|x l] H1 H2; simpl in *; try done; try lia.
  f_equal. apply IH; rw length_drop /=; lia.
Qed.

Lemma chunks_nil n : chunks n ([] : list A) = [].
Proof. done. Qed.

Lemma chunks_step n l : 0 < n → l ≠ [] → chunks n l = take n l :: chunks n (drop n l).
Proof.
  intros Hn Hl. destruct l as [|x l]; [done|]. unfold chunks at 1. cbn [length chunks_fuel].
  f_equal. apply chunks_fuel_ge; [done| |done]. rw length_drop /=. lia.
Qed.

(** Strong induction along the chunks of a list. *)
Lemma chunks_ind (P : list A → Prop) n :
  0 < n → P [] → (∀ l, l ≠ [] → P (drop n l) → P l) → ∀ l, P l.
Proof.
  intros Hn H0 HS l. remember (length l) as k eqn:E.
  assert (Hk : length l ≤ k) by lia. clear E. revert l Hk.
  induction k as [|k IH]; intros [|x l] Hk; [done|simpl in *; lia|done|].
  apply HS; [done|]. apply IH. rw length_drop /=. simpl in Hk. lia.
Qed.

Lemma chunks_join n l : 0 < n → mjoin (chunks n l) = l.
Proof.
  intros Hn. revert l. apply (chunks_ind _ n); [done|done|]. intros l Hl IH.
  rw chunks_step //= IH take_drop //.
Qed.

Lemma chunks_nonempty n l c : 0 < n → c ∈ chunks n l → c ≠ [] ∧ length c ≤ n.
Proof.
  intros Hn. revert l.
  apply (chunks_ind (λ l, c ∈ chunks n l → c ≠ [] ∧ length c ≤ n) n); [done|by intros ?%elem_of_nil|].
  intros l Hl IH. rw chunks_step //. intros [->|Hc]%elem_of_cons; [|auto].
  rw length_take. split; [|lia]. destruct l, n; simpl; [done|done|lia|done].
Qed.
End chunks.

(** ** The stable sort *)
Section sorting.
Context {A : Type} (le : A → A → bool).
Hypothesis le_total : ∀ x y, le x y = false → le y x = true.
Hypothesis le_trans : ∀ x y z, le x y = true → le y z = true → le x z = true.

Lemma insert_sorted_perm x l : insert_sorted le x l ≡ₚ x :: l.
Proof.
  induction l as [|y l IH]; simpl; [done|]. destruct (le x y); [done|].
  rw IH. constructor.
Qed.

Lemma isort_perm l : isort le l ≡ₚ l.
Proof. induction l as [|x l IH]; simpl; [done|]. by rw insert_sorted_perm IH. Qed.

Lemma insert_sorted_sorted x l :
  StronglySorted (λ a b, le a b = true) l →
  StronglySorted (λ a b, le a b = true) (insert_sorted le x l).
Proof.
  induction 1 as [|y l Hs IH Hall]; simpl; [repeat constructor|].
  destruct (le x y) eqn:E.
  - constructor; [by constructor|]. constructor; [done|].
    eapply Forall_impl; [done|]. intros z Hz. by eapply le_trans.
  - constructor; [done|]. apply Forall_forall. intros z.
    rw insert_sorted_perm. intros [->|Hz]%elem_of_cons; [by apply le_total|].
    by eapply Forall_forall in Hall.
Qed.

Lemma isort_sorted l : StronglySorted (λ a b, le a b = true) (isort le l).
Proof. induction l; simpl; [constructor|by apply insert_sorted_sorted]. Qed.

(** Taking the first [n] of a sorted list leaves out nothing smaller. *)
Lemma isort_take_least n l x y :
  x ∈ take n (isort le l) → y ∈ drop n (isort le l) → le x y = true.
Proof.
  intros Hx Hy. pose proof (isort_sorted l) as Hs.
  rw -(take_drop n (isort le l)) in Hs. revert Hx Hs.
  induction (take n (isort le l)) as [|z k IH]; simpl; [set_solver|].
  intros [->|Hx]%elem_of_cons Hs; inversion Hs as [|? ? Hs' Hall]; subst.
  - eapply Forall_forall in Hall; [done|]. set_solver.
  - auto.
Qed.
End sorting.

Lemma lex_leb_total {A} (ltb eqb : A → A → bool) :
  (∀ x y, ltb x y = false → eqb x y = false → ltb y x = true) →
  (∀ x y, eqb x y = eqb y x) →
  ∀ l k, lex_leb ltb eqb l k = false → lex_leb ltb eqb k l = true.
Proof.
  intros Htot Hsym l. induction l as [|x l IH]; intros [|y k]; simpl; try done.
  destruct (ltb x y) eqn:?; simpl; [done|]. destruct (eqb x y) eqn:E; simpl.
  - rw -Hsym E /=. intros ?. rw IH // orb_true_r //.
  - intros _. rw Htot //.
Qed.

Lemma lex_leb_trans {A} (ltb eqb : A → A → bool) :
  (∀ x y z, ltb x y = true → ltb y z = true → ltb x z = true) →
  (∀ x y, eqb x y = true ↔ x = y) →
  ∀ l k m, lex_leb ltb eqb l k = true → lex_leb ltb eqb k m = true → lex_leb ltb eqb l m = true.
Proof.
  intros Htr Heq l. induction l as [|x l IH]; intros [|y k] [|z m]; simpl; try done.
  rw !orb_true_iff !andb_true_iff !Heq. intros [?|[-> ?]] [?|[-> ?]]; eauto.
Qed.

Lemma bytes_leb_total a b : bytes_leb a b = false → bytes_leb b a = true.
Proof.
  apply lex_leb_total; unfold byte_ltb, byte_eqb.
  - intros x y ??. bool_to_prop. apply N.ltb_lt.
    assert (Byte.to_N x ≠ Byte.to_N y) by (by intros ?%byte_to_N_inj). lia.
  - intros x y. apply bool_decide_ext. naive_solver.
Qed.

Lemma bytes_leb_trans a b c :
  bytes_leb a b = true → bytes_leb b c = true → bytes_leb a c = true.
Proof.
  unfold bytes_leb. revert b c.
  induction a as [|x a IH]; intros [|y b] [|z c]; simpl; try done.
  unfold byte_ltb, byte_eqb. intros H1 H2. bool_to_prop. apply orb_true_iff.
  destruct H1 as [H1|H1], H2 as [H2|H2]; bool_to_prop; subst;
    rw ?andb_true_iff ?N.ltb_lt ?bool_decide_eq_true; [left; lia|by left|by left|].
  right. split; [done|]. by eapply IH.
Qed.

Lemma bytes_leb_antisymm a b : bytes_leb a b = true → bytes_leb b a = true → a = b.
Proof.
  unfold bytes_leb. revert b.
  induction a as [|x a IH]; intros [|y b]; simpl; try done.
  unfold byte_ltb, byte_eqb. intros H1 H2. bool_to_prop.
  destruct H1 as [H1|H1], H2 as [H2|H2]; bool_to_prop; subst; try lia.
  f_equal. auto.
Qed.

Lemma list_alter_Some {A} (f : A → A) i (l : list A) j y :
  alter f i l !! j = Some y →
  ∃ x, l !! j = Some x ∧ (i = j ∧ y = f x ∨ i ≠ j ∧ y = x).
Proof.
  rw list_lookup_alter. case_decide as E.
  - intros Hy. apply fmap_Some in Hy as (x & ? & ->). exists x. split; [congruence|by left].
  - intros Hy. exists y. split; [done|]. by right.
Qed.

(** ** Lemmas on unordered iteration *)
Section map_iter.
Context `{MapIter K A, !MapIterLaws K A}.
Implicit Types m : gmap K A.

Lemma elem_of_map_iter m k x : (k, x) ∈ map_iter m ↔ m !! k = Some x.
Proof. rw map_iter_perm. apply elem_of_map_to_list. Qed.

Lemma length_map_iter m : length (map_iter m) = size m.
Proof. rw map_iter_perm length_map_to_list //. Qed.

Lemma NoDup_map_iter m : NoDup (map_iter m).*1.
Proof. rw map_iter_perm. apply NoDup_fst_map_to_list. Qed.
End map_iter.

(** The order of [map_to_list], for concrete runs. *)
Definition toy_iter {K A} `{Countable K} : MapIter K A := map_to_list.
Lemma toy_iter_laws {K A} `{Countable K} : @MapIterLaws K A _ _ toy_iter.
Proof. intros m. reflexivity. Qed.
