(* ===== verification/Crypto.v ===== *)
(** * Third-party primitives

    The crates the sources call and do not contain: [blake3], [crc32fast], [hex],
    [ed25519-dalek], [argon2], [aes-gcm] and the serde codecs ([rmp_serde],
    [serde_json]).  Each is a class of operations, and a second class of laws that
    states only documented behaviour: lengths of digests and signatures, that a
    signature made with a key verifies under its public key, that decryption inverts
    encryption, that decoding inverts encoding.  Collision resistance is never a law
    (no fixed-length digest is injective): a theorem that needs it names the two
    messages that must not collide.

    The module [Toy] instantiates every class with small computable functions that
    satisfy the laws; the witnesses of the properties run on them. *)

From S2P Require Import Prelude.

(** [blake3::hash] and the streaming [blake3::Hasher] (one digest of the
    concatenation of the updates). *)
Class Blake3 := blake3 : bytes → bytes.
Class Blake3Laws `{Blake3} : Prop := blake3_length : ∀ m, length (blake3 m) = 32.

(** [crc32fast::hash] / [crc32fast::Hasher]. *)
Class Crc32 := crc32 : bytes → N.
Class Crc32Laws `{Crc32} : Prop := crc32_u32 : ∀ m, is_u32 (crc32 m).

(** [u8::is_ascii_hexdigit]. *)
Definition is_ascii_hexdigit (b : byte) : bool :=
  let x := Byte.to_N b in
  ((48 <=? x) && (x <=? 57) || (65 <=? x) && (x <=? 70) || (97 <=? x) && (x <=? 102))%N.

(** [hex::encode], [blake3::Hash::to_hex]. *)
Class Hex := hex_encode : bytes → string.
Class HexLaws `{Hex} : Prop := {
  hex_length : ∀ m, String.length (hex_encode m) = 2 * length m;
  hex_inj : ∀ m n, hex_encode m = hex_encode n → m = n;
  hex_digits : ∀ m, forallb is_ascii_hexdigit (as_bytes (hex_encode m)) = true;
}.

(** [ed25519_dalek]: [SigningKey::verifying_key], [Signer::sign] and
    [VerifyingKey::from_bytes] followed by [Verifier::verify]. *)
Class Ed25519 := {
  ed_public : bytes → bytes;
  ed_sign : bytes → bytes → bytes;
  ed_verify : bytes → bytes → bytes → bool;
}.
Class Ed25519Laws `{Ed25519} : Prop := {
  ed_public_length : ∀ sk, length sk = 32 → length (ed_public sk) = 32;
  ed_sign_length : ∀ sk m, length (ed_sign sk m) = 64;
  ed_verify_sign : ∀ sk m, length sk = 32 → ed_verify (ed_public sk) m (ed_sign sk m) = true;
}.

(** [Argon2::hash_password_into] (32-byte output) and AES-256-GCM with a detached
    key and nonce; [None] is the crate's error. *)
Class Sealing := {
  argon2 : bytes → bytes → option bytes;
  aes_gcm_encrypt : bytes → bytes → bytes → option bytes;
  aes_gcm_decrypt : bytes → bytes → bytes → option bytes;
}.
Class SealingLaws `{Sealing} : Prop := {
  aes_gcm_length : ∀ k n p c, aes_gcm_encrypt k n p = Some c → length c = length p + 16;
  aes_gcm_inverse : ∀ k n p c, aes_gcm_encrypt k n p = Some c → aes_gcm_decrypt k n c = Some p;
}.

(** A serde codec for one type: [to_vec] and [from_slice]. *)
Class Codec (A : Type) := {
  to_vec : A → option bytes;
  from_slice : bytes → option A;
}.
Class CodecLaws (A : Type) `{Codec A} : Prop :=
  from_slice_to_vec : ∀ (a : A) (b : bytes), to_vec a = Some b → from_slice b = Some a.

(** ** Instances for the witnesses *)
Module Toy.
(** The first 32 bytes, zero-padded. *)
Definition pad (n : nat) (m : bytes) : bytes := take n (m ++ replicate n x00).

Lemma length_pad n m : length (pad n m) = n.
Proof. unfold pad. rw length_take length_app length_replicate. lia. Qed.

(** A polynomial digest, written as eight little-endian bytes and padded. *)
Definition toy_blake3 : Blake3 := λ m,
  pad 32 (le_bytes 8 (foldl (λ acc b, (acc * 257 + Byte.to_N b + 1) mod 18446744073709551557) 7 m)%N).
Lemma toy_blake3_laws : @Blake3Laws toy_blake3.
Proof. intros m. apply length_pad. Qed.

Definition toy_crc32 : Crc32 := λ m, (foldr (λ b acc, Byte.to_N b + 31 * acc) 7 m mod 4294967296)%N.
Lemma toy_crc32_laws : @Crc32Laws toy_crc32.
Proof.
  intros m. unfold is_u32, crc32, toy_crc32.
  pose proof (N.mod_lt (foldr (λ b acc, Byte.to_N b + 31 * acc) 7 m)%N 4294967296).
  unfold u32_max. lia.
Qed.

Definition hex_digit (n : N) : Ascii.ascii :=
  Ascii.ascii_of_N (if n <? 10 then 48 + n else 87 + n)%N.

Fixpoint toy_hex_encode (m : bytes) : string :=
  match m with
  | [] => ""
  | b :: m' => String.String (hex_digit (Byte.to_N b / 16))
                 (String.String (hex_digit (Byte.to_N b mod 16)) (toy_hex_encode m'))
  end.
Definition toy_hex : Hex := toy_hex_encode.

Lemma hex_digit_inj a b : (a < 16)%N → (b < 16)%N → hex_digit a = hex_digit b → a = b.
Proof.
  intros Ha Hb. unfold hex_digit. intros H. apply (f_equal Ascii.N_of_ascii) in H.
  rw !Ascii.N_ascii_embedding in H; destruct (a <? 10)%N eqn:?, (b <? 10)%N eqn:?;
    bool_to_prop; lia.
Qed.

Lemma hex_digit_is_hex n : (n < 16)%N → is_ascii_hexdigit (Ascii.byte_of_ascii (hex_digit n)) = true.
Proof.
  intros Hn. assert (Hall : forallb (λ k, is_ascii_hexdigit (Ascii.byte_of_ascii (hex_digit (N.of_nat k))))
    (seq 0 16) = true) by by vm_compute.
  rw forallb_forall in Hall. rw -(N2Nat.id n). apply Hall, in_seq. lia.
Qed.

Lemma toy_hex_laws : @HexLaws toy_hex.
Proof.
  split; unfold hex_encode, toy_hex.
  - intros m. induction m as [|b m IH]; simpl; [done|]. rw IH. lia.
  - intros m. induction m as [|a m IH]; intros [|b n]; simpl; try done.
    intros [= H1 H2 H3]. f_equal; [|auto]. apply byte_to_N_inj.
    pose proof (byte_to_N_lt a). pose proof (byte_to_N_lt b).
    apply hex_digit_inj in H1; [|apply N.Div0.div_lt_upper_bound; lia..].
    apply hex_digit_inj in H2; [|apply N.mod_lt; lia..].
    rw (N.div_mod' (Byte.to_N a) 16) (N.div_mod' (Byte.to_N b) 16) H1 H2 //.
  - intros m. induction m as [|b m IH]; [done|]. cbn [toy_hex_encode].
    change (as_bytes (String.String ?c (String.String ?d ?s)))
      with (Ascii.byte_of_ascii c :: Ascii.byte_of_ascii d :: as_bytes s).
    cbn [forallb]. pose proof (byte_to_N_lt b).
    rw !hex_digit_is_hex //; [apply N.Div0.div_lt_upper_bound; lia|apply N.mod_lt; lia].
Qed.

Definition toy_ed25519 : Ed25519 := {|
  ed_public sk := sk;
  ed_sign sk m := pad 32 sk ++ pad 32 m;
  ed_verify pk m s := bool_decide (s = pad 32 pk ++ pad 32 m);
|}.
Lemma toy_ed25519_laws : @Ed25519Laws toy_ed25519.
Proof.
  split; simpl; [done| |].
  - intros sk m. by rw length_app !length_pad.
  - intros sk m _. by apply bool_decide_eq_true_2.
Qed.

Definition toy_sealing : Sealing := {|
  argon2 pw salt := Some (pad 32 (pw ++ salt));
  aes_gcm_encrypt k n p := Some (p ++ pad 16 k);
  aes_gcm_decrypt k n c :=
    if bool_decide (drop (length c - 16) c = pad 16 k) then Some (take (length c - 16) c) else None;
|}.
Lemma toy_sealing_laws : @SealingLaws toy_sealing.
Proof.
  split; simpl; intros k n p c [= <-]; rw length_app length_pad //.
  replace (length p + 16 - 16)%nat with (length p) by lia.
  rw drop_app_length take_app_length bool_decide_eq_true_2 //.
Qed.

(** A codec for any countable type: the little-endian bytes of its code. *)
Fixpoint n_bytes (fuel : nat) (n : N) : bytes :=
  match fuel with
  | O => []
  | S fuel => if (n =? 0)%N then [] else byte_of_N (N.land n 255) :: n_bytes fuel (N.shiftr n 8)
  end.
Definition pos_bytes (p : positive) : bytes := n_bytes (Pos.size_nat p) (N.pos p).
Definition bytes_pos (b : bytes) : positive :=
  match of_le_bytes b with N.pos p => p | N0 => 1%positive end.

Lemma of_le_bytes_cons b l : of_le_bytes (b :: l) = (Byte.to_N b + 256 * of_le_bytes l)%N.
Proof. reflexivity. Qed.

Lemma n_bytes_inv fuel n : (n < 2 ^ N.of_nat fuel)%N → of_le_bytes (n_bytes fuel n) = n.
Proof.
  revert n. induction fuel as [|fuel IH]; intros n Hn; cbn [n_bytes].
  { change (N.of_nat 0) with 0%N in Hn. rw N.pow_0_r in Hn. assert (n = 0%N) as -> by lia. reflexivity. }
  destruct (n =? 0)%N eqn:E; bool_to_prop; [by subst n|].
  rw of_le_bytes_cons byte_of_N_to_N IH.
  - rw N.shiftr_div_pow2. change (2 ^ 8)%N with 256%N.
    apply N.Div0.div_lt_upper_bound. rw Nat2N.inj_succ N.pow_succ_r' in Hn. lia.
  - rw N.shiftr_div_pow2 (N.land_ones n 8). change (2 ^ 8)%N with 256%N.
    rw N.Div0.mod_mod. pose proof (N.div_mod' n 256). lia.
Qed.

Lemma bytes_pos_bytes p : bytes_pos (pos_bytes p) = p.
Proof.
  unfold bytes_pos, pos_bytes. rw n_bytes_inv //.
  assert (Hs : (N.pos p < 2 ^ N.of_nat (Pos.size_nat p))%N); [|done].
  induction p as [p IH|p IH|]; cbn [Pos.size_nat]; [| |done];
    rw Nat2N.inj_succ N.pow_succ_r'; lia.
Qed.

Definition countable_codec {A} `{Countable A} : Codec A := {|
  to_vec a := Some (pos_bytes (encode a));
  from_slice b := decode (bytes_pos b);
|}.
Lemma countable_codec_laws {A} `{Countable A} : @CodecLaws A countable_codec.
Proof. intros a b. simpl. intros [= <-]. by rw bytes_pos_bytes decode_encode. Qed.

(** A codec for the values of a list: the position as one byte. *)
Fixpoint position {A} `{EqDecision A} (a : A) (l : list A) : option nat :=
  match l with
  | [] => None
  | x :: l' => if bool_decide (x = a) then Some 0 else S <$> position a l'
  end.
Definition table_codec {A} `{EqDecision A} (l : list A) : Codec A := {|
  to_vec a := n ← position a l; if (n <? 256)%nat then Some [byte_of_N (N.of_nat n)] else None;
  from_slice b := match b with [x] => l !! N.to_nat (Byte.to_N x) | _ => None end;
|}.

Lemma position_lookup {A} `{EqDecision A} (a : A) l n : position a l = Some n → l !! n = Some a.
Proof.
  revert n. induction l as [|x l IH]; intros n; cbn [position]; [done|]. case_bool_decide as E.
  - intros [= <-]. by rw E.
  - intros (m & Hm & ->)%fmap_Some. by apply IH.
Qed.

Lemma table_codec_laws {A} `{EqDecision A} (l : list A) : @CodecLaws A (table_codec l).
Proof.
  intros a b (n & Hn & Hb)%bind_Some. destruct (Nat.ltb_spec n 256); [|done]. injection Hb as <-.
  cbn [from_slice table_codec]. rw byte_of_N_to_N N.mod_small; [lia|]. rw Nat2N.id. by apply position_lookup.
Qed.
End Toy.

#[export] Hint Rewrite @blake3_length using typeclasses eauto : synergos.
