(* ===== verification/Types.v ===== *)
(** * Shared types of the network layer

    [synergos-net/src/types.rs] and [synergos-net/src/error.rs]: the identifier
    newtypes (strings), [NodeId] with the Kademlia XOR metric, routes and connection
    states, the file-size classes, and the error type.  The theorems give the metric
    its two characteristic properties: it separates points, and two identifiers that
    share a bucket of a third are strictly closer to each other than to it. *)

From S2P Require Import Prelude Crypto.

Abbreviation PeerId := string.
Abbreviation FileId := string.
Abbreviation ChunkId := string.
Abbreviation TransferId := string.
Abbreviation TopicId := string.
Abbreviation Cid := string.
Abbreviation ProjectId := string.

(** [[u8; 32]] newtypes. *)
Abbreviation NodeId := bytes.
Abbreviation Blake3Hash := bytes.
Abbreviation MessageId := bytes.

Definition zero_hash : Blake3Hash := replicate 32 x00.

(** [SynergosNetError]; a message keeps its static text, interpolated values are
    dropped.  [Panicked] is not a value of the Rust type: it stands for a panic, which
    unwinds through the callers as an error does through [?]. *)
Inductive NetError :=
| EQuic (msg : string)
| ETunnel (msg : string)
| EDnsResolution (msg : string)
| ETurn (msg : string)
| EChainFork (expected got : option Blake3Hash)
| EPeerNotFound (msg : string)
| ETransfer (msg : string)
| EConfig (msg : string)
| EIo
| ESerialization (msg : string)
| EGossip (msg : string)
| EIdentity (msg : string)
| Panicked.

Global Instance NetError_eq_dec : EqDecision NetError.
Proof. solve_decision. Defined.

(** [SocketAddrV6] is opaque to the code modelled here. *)
Record SocketAddrV6 := mk_SocketAddrV6 { sa_ip : bytes; sa_port : N }.

Inductive Route :=
| Direct (addr : SocketAddrV6) (fqdn : option string)
| Tunnel (tunnel_id hostname : string)
| Relay (server_url room_id : string).

Inductive RouteKind := KDirect | KTunnel | KRelay.

Definition route_kind (r : Route) : RouteKind :=
  match r with Direct _ _ => KDirect | Tunnel _ _ => KTunnel | Relay _ _ => KRelay end.

Inductive ConnectionState :=
| CsDiscovered
| CsConnecting
| CsConnected (rtt_ms : N) (route : RouteKind)
| CsDisconnected (reason : string).

Record PeerEndpoint := mk_PeerEndpoint {
  ep_peer_id : PeerId;
  ep_display_name : string;
  ep_routes : list Route;
  ep_state : ConnectionState;
}.

Global Instance SocketAddrV6_eq_dec : EqDecision SocketAddrV6.
Proof. solve_decision. Defined.
Global Instance Route_eq_dec : EqDecision Route.
Proof. solve_decision. Defined.
Global Instance RouteKind_eq_dec : EqDecision RouteKind.
Proof. solve_decision. Defined.
Global Instance ConnectionState_eq_dec : EqDecision ConnectionState.
Proof. solve_decision. Defined.

(** [TopicId::project]. *)
Definition topic_project (project_id : string) : TopicId := "project/" +:+ project_id.

Lemma topic_project_inj p q : topic_project p = topic_project q → p = q.
Proof. unfold topic_project. by intros [= ?]. Qed.

(** [MessageId::from_content], [Blake3Hash::compute], [NodeId::from_peer_id]. *)
Section hashed_ids.
Context `{Blake3}.
Definition message_id_from_content (content : bytes) : MessageId := blake3 content.
Definition blake3_hash_compute (data : bytes) : Blake3Hash := blake3 data.
Definition node_id_from_peer_id (p : PeerId) : NodeId := blake3 (as_bytes p).
End hashed_ids.

(** ** [FileSizeClass] *)
Inductive FileSizeClass := Large | Medium | Small.
Definition MB : N := 1024 * 1024.
Definition classify (size : N) : FileSizeClass :=
  if (100 * MB <=? size)%N then Large
  else if (MB <=? size)%N then Medium
  else Small.

(** ** [PeerId::short]

    [&self.0[..12]] panics when byte 12 is not a character boundary, i.e. when it is
    a UTF-8 continuation byte; [None] is the panic. *)
Definition is_continuation (b : byte) : bool :=
  (128 <=? Byte.to_N b)%N && (Byte.to_N b <? 192)%N.
Definition ellipsis : string :=
  String.string_of_list_byte [xe2; x80; xa6].
Definition short (p : PeerId) : option string :=
  if (12 <? length (as_bytes p))%nat then
    match as_bytes p !! 12 with
    | Some b => if is_continuation b then None
                else Some (String.string_of_list_byte (take 12 (as_bytes p)) +:+ ellipsis)
    | None => None
    end
  else Some p.

Definition is_ascii (s : string) : Prop :=
  Forall (λ b, (Byte.to_N b < 128)%N) (as_bytes s).

(** [PeerId::short] is total on ASCII identifiers, which the hex identifiers derived
    from public keys are. *)
Lemma short_ascii p : is_ascii p → is_Some (short p).
Proof.
  unfold is_ascii, short. intros Hp. destruct (12 <? _) eqn:E; [|done].
  bool_to_prop. destruct (lookup_lt_is_Some_2 (as_bytes p) 12 E) as [b Hb].
  rw Hb. eapply Forall_lookup_1 in Hp; [|done]. simpl in Hp. unfold is_continuation.
  destruct (128 <=? Byte.to_N b)%N eqn:?; simpl; bool_to_prop; [lia|done].
Qed.

(** ** The XOR metric *)
Definition byte_xor (a b : byte) : byte := byte_of_N (N.lxor (Byte.to_N a) (Byte.to_N b)).

Definition xor_distance (a b : NodeId) : bytes := zip_with byte_xor a b.

(** [u8::leading_zeros]. *)
Definition byte_leading_zeros (b : byte) : nat :=
  match Byte.to_N b with
  | 0%N => 8
  | n => 7 - N.to_nat (N.log2 n)
  end.

Fixpoint count_leading_zeros (dist : bytes) : nat :=
  match dist with
  | [] => 0
  | b :: rest =>
      if bool_decide (b = x00) then 8 + count_leading_zeros rest
      else byte_leading_zeros b
  end.

Definition leading_zeros (a b : NodeId) : nat := count_leading_zeros (xor_distance a b).

(** *** Bits

    The bit list of a byte string, most significant bit first: [leading_zeros] is the
    length of the longest common bit prefix. *)
Definition byte_bits (b : byte) : list bool :=
  map (λ i, N.testbit (Byte.to_N b) (N.of_nat (7 - i))) (seq 0 8).

Definition bits (l : bytes) : list bool := l ≫= byte_bits.

Fixpoint common_prefix (l k : list bool) : nat :=
  match l, k with
  | x :: l', y :: k' => if eqb x y then S (common_prefix l' k') else 0
  | _, _ => 0
  end.

Definition all_bytes : list byte :=
  omap (λ n, Byte.of_N (N.of_nat n)) (seq 0 256).

Lemma elem_of_all_bytes b : b ∈ all_bytes.
Proof.
  unfold all_bytes. apply list_elem_of_omap. exists (N.to_nat (Byte.to_N b)).
  pose proof (byte_to_N_lt b). split; [apply elem_of_seq; lia|].
  by rw N2Nat.id Byte.of_to_N.
Qed.

(** The byte-level test, checked on all pairs of bytes. *)
Definition byte_pair_ok (a b : byte) : bool :=
  if bool_decide (byte_xor a b = x00) then bool_decide (a = b)
  else (common_prefix (byte_bits a) (byte_bits b) =? byte_leading_zeros (byte_xor a b))
       && (byte_leading_zeros (byte_xor a b) <? 8) && negb (bool_decide (a = b)).

Lemma byte_pair_ok_all : forallb (λ a, forallb (byte_pair_ok a) all_bytes) all_bytes = true.
Proof. vm_compute. reflexivity. Qed.

Lemma byte_pair a b : byte_pair_ok a b = true.
Proof.
  pose proof byte_pair_ok_all as H.
  apply (proj1 (forallb_forall _ _)) with (x := a) in H;
    [|apply list_elem_of_In, elem_of_all_bytes].
  apply (proj1 (forallb_forall _ _)) with (x := b) in H;
    [done|apply list_elem_of_In, elem_of_all_bytes].
Qed.

Lemma length_byte_bits b : length (byte_bits b) = 8.
Proof. done. Qed.

Lemma length_bits l : length (bits l) = 8 * length l.
Proof.
  unfold bits. induction l as [|b l IH]; [done|].
  rw bind_cons length_app IH length_byte_bits /=. lia.
Qed.

Lemma common_prefix_le l k : common_prefix l k ≤ length l.
Proof.
  revert k. induction l as [|x l IH]; intros [|y k]; simpl; try lia.
  destruct (eqb x y); [|lia]. specialize (IH k). lia.
Qed.

Lemma common_prefix_refl l : common_prefix l l = length l.
Proof. induction l as [|x l IH]; simpl; [done|]. by rw eqb_reflx IH. Qed.

Lemma common_prefix_app_same p l k :
  common_prefix (p ++ l) (p ++ k) = length p + common_prefix l k.
Proof. induction p as [|x p IH]; simpl; [done|]. by rw eqb_reflx IH. Qed.

Lemma common_prefix_app_diff p q l k :
  length p = length q → common_prefix p q < length p →
  common_prefix (p ++ l) (q ++ k) = common_prefix p q.
Proof.
  revert q. induction p as [|x p IH]; intros [|y q]; simpl; try lia.
  intros Hlen. destruct (eqb x y); [|done]. intros Hlt. rw IH //; lia.
Qed.

Lemma leading_zeros_bits a b :
  length a = length b → leading_zeros a b = common_prefix (bits a) (bits b).
Proof.
  unfold leading_zeros, xor_distance, bits. revert b.
  induction a as [|x a IH]; intros [|y b]; try done. intros [= Hlen].
  cbn [zip_with count_leading_zeros].
  pose proof (byte_pair x y) as Hp. unfold byte_pair_ok in Hp.
  rw !bind_cons. case_bool_decide as Hx; bool_to_prop.
  - subst y. rw common_prefix_app_same length_byte_bits IH //.
  - rw common_prefix_app_diff //; rw H // length_byte_bits //. 
Qed.

Lemma common_prefix_sym l k : common_prefix l k = common_prefix k l.
Proof.
  revert k. induction l as [|x l IH]; intros [|y k]; simpl; try done.
  rw (IH k). by destruct x, y.
Qed.

(** Two bit strings that leave a third at the same position agree beyond it. *)
Lemma common_prefix_fork l a b :
  length a = length l → length b = length l →
  common_prefix l a = common_prefix l b → common_prefix l a < length l →
  common_prefix l a < common_prefix a b.
Proof.
  revert a b. induction l as [|x l IH]; intros [|y a] [|z b]; simpl; try lia.
  intros [= Ha] [= Hb]. destruct x, y, z; simpl; try lia; intros ??;
    apply -> Nat.succ_lt_mono; apply IH; lia.
Qed.

Lemma common_prefix_full l k :
  length l = length k → common_prefix l k = length l → l = k.
Proof.
  revert k. induction l as [|x l IH]; intros [|y k]; simpl; try done.
  intros [= Hlen]. destruct x, y; simpl; try lia; intros [= H]; f_equal; auto.
Qed.

Lemma byte_bits_inj a b : byte_bits a = byte_bits b → a = b.
Proof.
  intros E. pose proof (byte_pair a b) as Hp. unfold byte_pair_ok in Hp.
  case_bool_decide; bool_to_prop; [done|].
  rw E common_prefix_refl length_byte_bits in H0. lia.
Qed.

Lemma bits_inj a b : length a = length b → bits a = bits b → a = b.
Proof.
  unfold bits. revert b. induction a as [|x a IH]; intros [|y b]; try done.
  intros [= Hlen]. rw !bind_cons. intros [H1 H2]%app_split; [|done].
  f_equal; [by apply byte_bits_inj|auto].
Qed.
