(* ===== verification/Identity.v ===== *)
(** * Node identities

    [synergos-net/src/identity.rs]: the ed25519 key pair of a node, the peer
    identifier derived from its public key, signatures, and the two formats of the
    key file (32 raw bytes, or magic, salt, nonce and AES-GCM ciphertext when a
    passphrase is set).

    The environment variable is an argument ([env]), the OS random source gives the
    arguments [seed], [salt] and [nonce], and the file at [path] is an [option bytes]
    (absent or its content) that the operations thread; the write and the [chmod] are
    taken to succeed. *)

From S2P Require Import Prelude Crypto Types.

Definition PEER_ID_PREFIX_LEN : nat := 20.
Definition SECRET_KEY_LENGTH : nat := 32.
Definition ENC_MAGIC_V1 : bytes := as_bytes "SYNERGOS-ID-V1" ++ [x00].
Definition SALT_LEN : nat := 16.
Definition NONCE_LEN : nat := 12.
Definition TAG_LEN : nat := 16.

Inductive IdentityError :=
| IdIo
| InvalidKeyFile (reason : string)
| VerifyFailed
| PassphraseRequired
| DecryptFailed (reason : string)
| EncryptFailed (reason : string).

Global Instance IdentityError_eq_dec : EqDecision IdentityError.
Proof. solve_decision. Defined.

(** [slice::starts_with]. *)
Definition starts_with (p l : bytes) : bool := bool_decide (take (length p) l = p).

Lemma starts_with_app p l : starts_with p (p ++ l) = true.
Proof. unfold starts_with. rw take_app_length bool_decide_eq_true_2 //. Qed.

Record Identity := mk_Identity {
  signing : bytes;
  verifying : bytes;
  peer_id : PeerId;
}.

Section identity.
Context `{Blake3, Hex, Ed25519, Sealing}.

Definition peer_id_from_public_bytes (pk : bytes) : PeerId :=
  hex_encode (take PEER_ID_PREFIX_LEN (blake3 pk)).

Definition peer_id_from_verifying (key : bytes) : PeerId := peer_id_from_public_bytes key.

(** [SigningKey::from_bytes] and the two derivations after it. *)
Definition identity_of_secret (secret : bytes) : Identity :=
  let verifying := ed_public secret in
  mk_Identity secret verifying (peer_id_from_verifying verifying).

Definition generate (seed : bytes) : Identity := identity_of_secret seed.

Definition public_key_bytes (i : Identity) : bytes := verifying i.

Definition sign (i : Identity) (message : bytes) : bytes := ed_sign (signing i) message.

Definition verify (public_key message signature : bytes) : result IdentityError () :=
  if ed_verify public_key message signature then Ok () else Err VerifyFailed.

Definition passphrase_from_env (env : option string) : option string :=
  match env with
  | Some s => if bool_decide (s = "") then None else Some s
  | None => None
  end.

Definition derive_key (passphrase salt : bytes) : result IdentityError bytes :=
  ok_or (argon2 passphrase salt) (EncryptFailed "argon2").

Definition encode_encrypted (salt nonce secret passphrase : bytes) : result IdentityError bytes :=
  key ← derive_key passphrase salt;
  c ← ok_or (aes_gcm_encrypt key nonce secret) (EncryptFailed "aead");
  if negb (length c =? SECRET_KEY_LENGTH + TAG_LEN) then
    Err (EncryptFailed "unexpected ciphertext length")
  else Ok (ENC_MAGIC_V1 ++ salt ++ nonce ++ c).

Definition decode_encrypted (b passphrase : bytes) : result IdentityError bytes :=
  let expected_len :=
    length ENC_MAGIC_V1 + SALT_LEN + NONCE_LEN + SECRET_KEY_LENGTH + TAG_LEN in
  if negb (length b =? expected_len) then
    Err (InvalidKeyFile "encrypted V1 length")
  else
    let cursor := length ENC_MAGIC_V1 in
    let salt := take SALT_LEN (drop cursor b) in
    let cursor := cursor + SALT_LEN in
    let nonce := take NONCE_LEN (drop cursor b) in
    let cursor := cursor + NONCE_LEN in
    let ciphertext_with_tag := drop cursor b in
    key ← derive_key passphrase salt;
    plaintext ← ok_or (aes_gcm_decrypt key nonce ciphertext_with_tag) (DecryptFailed "aead");
    if negb (length plaintext =? SECRET_KEY_LENGTH) then
      Err (DecryptFailed "decrypted length")
    else Ok plaintext.

Definition decode_key_bytes (env : option string) (b : bytes) : result IdentityError bytes :=
  if starts_with ENC_MAGIC_V1 b then
    pw ← ok_or (passphrase_from_env env) PassphraseRequired;
    decode_encrypted b (as_bytes pw)
  else if negb (length b =? SECRET_KEY_LENGTH) then
    Err (InvalidKeyFile "expected 32-byte secret key (or encrypted V1 file)")
  else Ok b.

Definition load_from_file (env : option string) (file : option bytes) : result IdentityError Identity :=
  b ← ok_or file IdIo;
  secret ← decode_key_bytes env b;
  Ok (identity_of_secret secret).

(** The file's new content with the result. *)
Definition save_to_file (env : option string) (salt nonce : bytes) (i : Identity)
    (file : option bytes) : option bytes * result IdentityError () :=
  match (match passphrase_from_env env with
         | Some pw => encode_encrypted salt nonce (signing i) (as_bytes pw)
         | None => Ok (signing i)
         end) with
  | Ok payload => (Some payload, Ok ())
  | Err e => (file, Err e)
  end.

Definition load_or_generate (env : option string) (seed salt nonce : bytes)
    (file : option bytes) : option bytes * result IdentityError Identity :=
  match file with
  | Some _ => (file, load_from_file env file)
  | None =>
      let id := generate seed in
      match save_to_file env salt nonce id file with
      | (file', Ok _) => (file', Ok id)
      | (file', Err e) => (file', Err e)
      end
  end.

(** ** Lemmas *)

Lemma length_magic : length ENC_MAGIC_V1 = 15.
Proof. done. Qed.

#[local] Opaque ENC_MAGIC_V1.

Lemma decode_encode_encrypted `{!SealingLaws} salt nonce secret pw b :
  length salt = SALT_LEN → length nonce = NONCE_LEN → length secret = SECRET_KEY_LENGTH →
  encode_encrypted salt nonce secret pw = Ok b → decode_encrypted b pw = Ok secret.
Proof.
  unfold encode_encrypted, decode_encrypted. intros Hs Hn Hk Hb.
  unfold SALT_LEN, NONCE_LEN, SECRET_KEY_LENGTH, TAG_LEN in *.
  destruct (derive_key pw salt) as [key|] eqn:Hd; simpl in Hb; [|done].
  destruct (aes_gcm_encrypt key nonce secret) as [c|] eqn:Hc; simpl in Hb; [|done].
  destruct (length c =? 48) eqn:Hlc; simpl in Hb; [|done]. injection Hb as <-. bool_to_prop.
  rw !length_app Hs Hn Hlc ?length_magic /=.
  pose proof length_magic as Hm.
  rw (drop_app_length' ENC_MAGIC_V1 _ 15) // (take_app_length' salt) // Hd /=.
  rw (app_assoc ENC_MAGIC_V1 salt) (drop_app_length' (ENC_MAGIC_V1 ++ salt) _ 31);
    [rw length_app; lia|].
  rw (take_app_length' nonce) // app_assoc (drop_app_length' ((ENC_MAGIC_V1 ++ salt) ++ nonce) _ 43);
    [rw 2!length_app; lia|].
  rw (aes_gcm_inverse _ _ _ _ Hc) /= Hk //.
Qed.

Lemma load_saved `{!SealingLaws} env salt nonce secret file file' :
  length salt = SALT_LEN → length nonce = NONCE_LEN → length secret = SECRET_KEY_LENGTH →
  starts_with ENC_MAGIC_V1 secret = false →
  save_to_file env salt nonce (identity_of_secret secret) file = (file', Ok ()) →
  load_from_file env file' = Ok (identity_of_secret secret).
Proof.
  unfold save_to_file, load_from_file, decode_key_bytes. intros Hs Hn Hk Hmagic Hsave.
  destruct (passphrase_from_env env) as [pw|] eqn:Hpw.
  - destruct (encode_encrypted salt nonce (signing (identity_of_secret secret)) (as_bytes pw))
      as [b|] eqn:Hb; simplify_eq.
    pose proof (decode_encode_encrypted _ _ _ _ _ Hs Hn Hk Hb) as Hdec.
    unfold encode_encrypted in Hb. inv_result.
    destruct (derive_key _ _); simplify_eq/=.
    destruct (aes_gcm_encrypt _ _ _); simplify_eq/=. destruct (_ =? _); simplify_eq/=.
    rw starts_with_app /= Hdec //.
  - simplify_eq/=. rw Hmagic Hk //.
Qed.
End identity.

(** a node keeps its identity.  Whatever identity [load_or_generate] creates when
    the key file is absent, with or without a passphrase, every later call under the
    same environment reads the same identity back and leaves the file alone; its peer
    identifier is the one any receiver derives from its public key, and the signatures
    it makes verify under that key.  (A raw secret that happens to start with the
    15-byte magic is the one excluded case.) *)
Theorem load_or_generate_persists `{Blake3, Hex, Ed25519, Sealing, !Ed25519Laws, !SealingLaws}
    env seed salt nonce file' i seed' salt' nonce' m :
  length seed = SECRET_KEY_LENGTH → length salt = SALT_LEN → length nonce = NONCE_LEN →
  starts_with ENC_MAGIC_V1 seed = false →
  load_or_generate env seed salt nonce None = (file', Ok i) →
  load_or_generate env seed' salt' nonce' file' = (file', Ok i) ∧
  peer_id i = peer_id_from_public_bytes (public_key_bytes i) ∧
  verify (public_key_bytes i) m (sign i m) = Ok ().
Proof.
  intros Hseed Hsalt Hnonce Hmagic Hgen. unfold load_or_generate, generate in Hgen.
  destruct (save_to_file env salt nonce _ None) as [f [[]|]] eqn:Hsave; simplify_eq.
  split; [|split; [done|]].
  - pose proof (load_saved _ _ _ _ _ _ Hsalt Hnonce Hseed Hmagic Hsave) as Hl.
    destruct file' as [b|]; [by rw /load_or_generate Hl|done].
  - unfold verify. by rw ed_verify_sign.
Qed.

Lemma load_or_generate_persists_witness :
  ∃ file' i,
    @load_or_generate Toy.toy_blake3 Toy.toy_hex Toy.toy_ed25519 Toy.toy_sealing
      (Some "pw") (replicate 32 x07) (replicate 16 x01) (replicate 12 x02) None = (file', Ok i) ∧
    @load_or_generate Toy.toy_blake3 Toy.toy_hex Toy.toy_ed25519 Toy.toy_sealing
      (Some "pw") [] [] [] file' = (file', Ok i).
Proof.
  eexists _, _. split; [vm_compute; reflexivity|].
  eapply (@load_or_generate_persists Toy.toy_blake3 Toy.toy_hex Toy.toy_ed25519 Toy.toy_sealing
            Toy.toy_ed25519_laws Toy.toy_sealing_laws (Some "pw") (replicate 32 x07)
            (replicate 16 x01) (replicate 12 x02) _ _ [] [] [] []);
    vm_compute; reflexivity.
Defined.
