(* ===== verification/Chain.v ===== *)
(** * The per-file update chain

    [synergos-net/src/chain/file_chain.rs]: signed, hash-linked blocks and the bounded
    chain a node keeps of each file.  [append] accepts a block only on top of the
    current head and then drops the oldest blocks beyond [max_depth].

    The theorems: a verified block is bound by its signed message to every one of its
    fields; signing then verifying succeeds; the bounded chain is exactly the most
    recent window of the sequence of accepted blocks, which is hash-linked from the
    first block on; a block that does not extend the head changes nothing. *)

From S2P Require Import Prelude Crypto Types Identity.

Inductive ChainPayload :=
| TextDiff (patch : string) (result_crc : N)
| BinaryCid (cid : Cid) (file_size crc : N)
| FullSnapshot (cid : Cid) (file_size crc : N).

Record ChainBlock := mk_ChainBlock {
  hash : Blake3Hash;
  prev_hash : option Blake3Hash;
  version : N;
  author : PeerId;
  author_public_key : bytes;
  timestamp : N;
  payload : ChainPayload;
  signature : bytes;
}.

Global Instance ChainPayload_eq_dec : EqDecision ChainPayload.
Proof. solve_decision. Defined.
Global Instance ChainBlock_eq_dec : EqDecision ChainBlock.
Proof. solve_decision. Defined.

(** The tag and fields [compute_hash] feeds for a payload. *)
Definition payload_bytes (p : ChainPayload) : bytes :=
  match p with
  | TextDiff patch result_crc =>
      as_bytes "text_diff" ++ as_bytes patch ++ le_bytes 4 result_crc
  | BinaryCid cid file_size crc =>
      as_bytes "binary_cid" ++ as_bytes cid ++ le_bytes 8 file_size ++ le_bytes 4 crc
  | FullSnapshot cid file_size crc =>
      as_bytes "full_snapshot" ++ as_bytes cid ++ le_bytes 8 file_size ++ le_bytes 4 crc
  end.

(** Everything fed to the hasher, in order. *)
Definition hash_input (b : ChainBlock) : bytes :=
  default [] (prev_hash b) ++ le_bytes 8 (version b) ++ as_bytes (author b) ++
  author_public_key b ++ le_bytes 8 (timestamp b) ++ payload_bytes (payload b).

Definition signing_message (b : ChainBlock) : bytes :=
  hash b ++
  (match prev_hash b with Some prev => x01 :: prev | None => [x00] end) ++
  le_bytes 8 (version b) ++ author_public_key b ++ le_bytes 8 (timestamp b).

Definition is_signed (b : ChainBlock) : bool :=
  existsb (λ x, negb (bool_decide (x = x00))) (signature b).

Section blocks.
Context `{Blake3, Hex, Ed25519}.

Definition compute_hash (b : ChainBlock) : ChainBlock :=
  mk_ChainBlock (blake3 (hash_input b)) (prev_hash b) (version b) (author b)
    (author_public_key b) (timestamp b) (payload b) (signature b).

Definition sign_block (b : ChainBlock) (i : Identity) : ChainBlock :=
  let b := mk_ChainBlock (hash b) (prev_hash b) (version b) (peer_id i)
             (public_key_bytes i) (timestamp b) (payload b) (signature b) in
  let b := compute_hash b in
  mk_ChainBlock (hash b) (prev_hash b) (version b) (author b)
    (author_public_key b) (timestamp b) (payload b) (sign i (signing_message b)).

Definition verify_block (b : ChainBlock) : result NetError () :=
  if negb (bool_decide (peer_id_from_public_bytes (author_public_key b) = author b)) then
    Err (EIdentity "ChainBlock author does not match public key")
  else if negb (bool_decide (hash (compute_hash b) = hash b)) then
    Err (EIdentity "ChainBlock hash mismatch")
  else map_err (λ _, EIdentity "ChainBlock signature invalid")
         (verify (author_public_key b) (signing_message b) (signature b)).
End blocks.

(** ** [FileChain] *)
Record FileChain := mk_FileChain {
  file_id : FileId;
  blocks : list ChainBlock;
  max_depth : nat;
  head : option Blake3Hash;
}.

Definition new_chain (file_id : FileId) (max_depth : nat) : FileChain :=
  mk_FileChain file_id [] max_depth None.

(** [while self.blocks.len() > self.max_depth { pop_front }]. *)
Fixpoint pop_excess (max_depth : nat) (l : list ChainBlock) : list ChainBlock :=
  match l with
  | [] => []
  | _ :: l' => if max_depth <? length l then pop_excess max_depth l' else l
  end.

Definition append (c : FileChain) (b : ChainBlock) : FileChain * result NetError () :=
  if negb (bool_decide (prev_hash b = head c)) then
    (c, Err (EChainFork (head c) (prev_hash b)))
  else
    (mk_FileChain (file_id c) (pop_excess (max_depth c) (blocks c ++ [b]))
       (max_depth c) (Some (hash b)), Ok ()).

Definition blocks_since (c : FileChain) (v : N) : list ChainBlock :=
  filter (λ b, (v < version b)%N) (blocks c).

Definition head_block (c : FileChain) : option ChainBlock := last (blocks c).

Definition payload_crc (p : ChainPayload) : N :=
  match p with
  | TextDiff _ crc => crc
  | BinaryCid _ _ crc => crc
  | FullSnapshot _ _ crc => crc
  end.

Definition head_crc (c : FileChain) : option N :=
  (λ b, payload_crc (payload b)) <$> last (blocks c).

Definition head_version (c : FileChain) : N := default 0%N (version <$> last (blocks c)).

Definition find_block (c : FileChain) (h : Blake3Hash) : option ChainBlock :=
  find_first (λ b, bool_decide (hash b = h)) (blocks c).

Definition find_common_ancestor (c remote : FileChain) : option ChainBlock :=
  find_first (λ b, bool_decide (is_Some (find_block remote (hash b)))) (reverse (blocks c)).

(** ** Binding of a signed block to its fields *)

(** What the Rust types guarantee of a block: array lengths and integer widths. *)
Definition payload_typed (p : ChainPayload) : Prop :=
  match p with
  | TextDiff _ crc => is_u32 crc
  | BinaryCid _ size crc | FullSnapshot _ size crc => is_u64 size ∧ is_u32 crc
  end.

Record block_typed (b : ChainBlock) : Prop := {
  typed_hash : length (hash b) = 32;
  typed_prev : ∀ h, prev_hash b = Some h → length h = 32;
  typed_version : is_u64 (version b);
  typed_key : length (author_public_key b) = 32;
  typed_timestamp : is_u64 (timestamp b);
  typed_payload : payload_typed (payload b);
}.

(** A string followed by fixed-width fields determines both. *)
Lemma string_suffix_inj s t (x y : bytes) :
  length x = length y → as_bytes s ++ x = as_bytes t ++ y → s = t ∧ x = y.
Proof. intros Hlen [H1%as_bytes_inj H2]%app_split_r; done. Qed.

Lemma payload_bytes_inj p q :
  payload_typed p → payload_typed q → payload_bytes p = payload_bytes q → p = q.
Proof.
  destruct p, q; simpl; intros Hp Hq Heq; simplify_eq.
  - apply string_suffix_inj in Heq as [-> Hc%le_bytes_inj32]; [by subst|done..].
  - apply string_suffix_inj in Heq as [-> [Hs%le_bytes_inj64 Hc%le_bytes_inj32]%app_split];
      naive_solver.
  - apply string_suffix_inj in Heq as [-> [Hs%le_bytes_inj64 Hc%le_bytes_inj32]%app_split];
      naive_solver.
Qed.

(** The signed message determines every field it covers. *)
Lemma signing_message_inj b c :
  block_typed b → block_typed c → signing_message b = signing_message c →
  hash b = hash c ∧ prev_hash b = prev_hash c ∧ version b = version c ∧
  author_public_key b = author_public_key c ∧ timestamp b = timestamp c.
Proof.
  intros [Hh Hp Hv Hk Ht _] [Hh' Hp' Hv' Hk' Ht' _]. unfold signing_message.
  intros [Hhash Heq]%app_split; [|by rw Hh Hh'].
  assert (Htail : ∀ v k t v' k' t', is_u64 v → is_u64 v' → is_u64 t → is_u64 t' →
    length k = 32 → length k' = 32 →
    le_bytes 8 v ++ k ++ le_bytes 8 t = le_bytes 8 v' ++ k' ++ le_bytes 8 t' →
    v = v' ∧ k = k' ∧ t = t').
  { intros v k t v' k' t' ???? Hlk Hlk'.
    intros [?%le_bytes_inj64 [? ?%le_bytes_inj64]%app_split]%app_split;
      rw ?length_le_bytes ?Hlk ?Hlk' //. }
  destruct (prev_hash b) as [p|], (prev_hash c) as [q|]; simpl in Heq; try discriminate Heq.
  - apply (f_equal tail) in Heq. apply app_split in Heq as [-> Heq];
      [|rw (Hp p) // (Hp' q) //].
    apply Htail in Heq; naive_solver.
  - apply (f_equal tail), Htail in Heq; naive_solver.
Qed.

Section block_lemmas.
Context `{Blake3, Hex, Ed25519}.

Lemma verify_block_Ok b :
  verify_block b = Ok () ↔
  peer_id_from_public_bytes (author_public_key b) = author b ∧
  blake3 (hash_input b) = hash b ∧
  ed_verify (author_public_key b) (signing_message b) (signature b) = true.
Proof.
  unfold verify_block, verify. simpl.
  repeat case_bool_decide; simpl; [|naive_solver..].
  destruct (ed_verify _ _ _); naive_solver.
Qed.
End block_lemmas.

(** ** The bounded chain and the history it is a window of *)

(** The blocks of a list extend [prev] one after the other. *)
Fixpoint linked (prev : option Blake3Hash) (l : list ChainBlock) : Prop :=
  match l with
  | [] => True
  | b :: l' => prev_hash b = prev ∧ linked (Some (hash b)) l'
  end.

Definition tip (prev : option Blake3Hash) (l : list ChainBlock) : option Blake3Hash :=
  match last l with Some b => Some (hash b) | None => prev end.

Lemma tip_snoc prev l b : tip prev (l ++ [b]) = Some (hash b).
Proof. unfold tip. by rw last_snoc. Qed.

Lemma linked_snoc prev l b :
  linked prev (l ++ [b]) ↔ linked prev l ∧ prev_hash b = tip prev l.
Proof.
  revert prev. induction l as [|a l IH]; intros prev; simpl; [naive_solver|].
  rw IH. unfold tip. rw last_cons. destruct (last l); naive_solver.
Qed.

(** [last_n n l]: the [n] most recent elements. *)
Definition last_n {A} (n : nat) (l : list A) : list A := drop (length l - n) l.

Lemma pop_excess_last_n n l : pop_excess n l = last_n n l.
Proof.
  unfold last_n. induction l as [|b l IH]; [done|]. cbn [pop_excess].
  destruct (n <? length (b :: l)) eqn:E; bool_to_prop; simpl in *.
  - rw IH Nat.sub_succ_l; [lia|done].
  - by replace (S (length l) - n) with 0 by lia.
Qed.

Lemma last_n_snoc {A} n (l : list A) x : last_n n (last_n n l ++ [x]) = last_n n (l ++ [x]).
Proof.
  unfold last_n. rw !length_app !length_drop /=.
  destruct (decide (n = 0)) as [->|].
  { rw !drop_ge //; rw ?length_app ?length_drop /=; lia. }
  rw !drop_app_le; [rw ?length_drop; lia..|]. rw drop_drop. f_equal. f_equal. lia.
Qed.

(** Feeding blocks one by one; the accepted ones, in order. *)
Fixpoint append_all (c : FileChain) (l : list ChainBlock) : FileChain * list ChainBlock :=
  match l with
  | [] => (c, [])
  | b :: l' =>
      match append c b with
      | (c', Ok _) => let '(c'', acc) := append_all c' l' in (c'', b :: acc)
      | (c', Err _) => append_all c' l'
      end
  end.

(** [c] is the window of the history [h]. *)
Definition window_of (c : FileChain) (h : list ChainBlock) : Prop :=
  linked None h ∧ head c = tip None h ∧ blocks c = last_n (max_depth c) h.

Lemma append_window c h b c' r :
  window_of c h → append c b = (c', r) →
  max_depth c' = max_depth c ∧
  match r with
  | Ok _ => window_of c' (h ++ [b])
  | Err _ => c' = c ∧ prev_hash b ≠ tip None h
  end.
Proof.
  intros (Hl & Hh & Hb). unfold append. case_bool_decide as Hp; intros [= <- <-]; simpl.
  - split; [done|]. unfold window_of; simpl. rw linked_snoc tip_snoc pop_excess_last_n Hb.
    rw last_n_snoc Hp Hh //.
  - rw -Hh //.
Qed.

Lemma append_all_window c h l c' acc :
  window_of c h → append_all c l = (c', acc) →
  max_depth c' = max_depth c ∧ window_of c' (h ++ acc) ∧ acc `sublist_of` l.
Proof.
  revert c h acc. induction l as [|b l IH]; intros c h acc Hw; simpl.
  - intros [= <- <-]. rw app_nil_r //.
  - destruct (append c b) as [c1 r] eqn:Ha.
    apply (append_window _ h) in Ha as [Hd Hr]; [|done]. destruct r as [[]|e].
    + destruct (append_all c1 l) as [c2 acc'] eqn:E. intros [= <- <-].
      apply (IH _ (h ++ [b])) in E as (Hd' & Hw' & Hs); [|done].
      rw -app_assoc in Hw'. split_and!; [congruence|done|by constructor].
    + destruct Hr as [-> _]. intros E. apply (IH _ h) in E as (? & ? & ?); [|done].
      split_and!; [done..|by constructor].
Qed.

(** C3: signing binds a block to its contents.  If two blocks both verify and carry
    the same signed message, they agree on every field but the signature, the author
    and the payload included, provided BLAKE3 does not collide on their two hash
    inputs.  A signature can thus not be moved to a block with another payload. *)
Theorem verified_block_binding `{Blake3, Hex, Ed25519} b c :
  block_typed b → block_typed c →
  verify_block b = Ok () → verify_block c = Ok () →
  signing_message b = signing_message c →
  (blake3 (hash_input b) = blake3 (hash_input c) → hash_input b = hash_input c) →
  c = mk_ChainBlock (hash b) (prev_hash b) (version b) (author b)
        (author_public_key b) (timestamp b) (payload b) (signature c).
Proof.
  intros Tb Tc (Ab & Hb & _)%verify_block_Ok (Ac & Hc & _)%verify_block_Ok Hm Hcoll.
  destruct (signing_message_inj _ _ Tb Tc Hm) as (Eh & Ep & Ev & Ek & Et).
  assert (Ea : author b = author c) by congruence.
  assert (Epl : payload b = payload c).
  { apply payload_bytes_inj; [apply Tb|apply Tc|]. specialize (Hcoll ltac:(congruence)).
    unfold hash_input in Hcoll. rw Ep Ev Ek Et Ea in Hcoll. by simplify_list_eq. }
  destruct b, c; simpl in *; congruence.
Qed.

(** A block signed by an identity verifies, whatever its fields were before. *)
Theorem sign_then_verify `{Blake3, Hex, Ed25519, !Ed25519Laws} b secret :
  length secret = SECRET_KEY_LENGTH →
  verify_block (sign_block b (identity_of_secret secret)) = Ok ().
Proof.
  intros Hlen. apply verify_block_Ok. split_and!; [done|done|]. apply ed_verify_sign. done.
Qed.

(** C4: the bounded chain is exactly the most recent window of the accepted history.
    Whatever blocks arrive, in whatever order, the accepted ones form a hash-linked
    sequence from the first block on, the head is its last hash, the chain holds its
    [max_depth] most recent blocks in order, and a rejected block changed nothing. *)
Theorem chain_is_window_of_history fid depth incoming c acc :
  append_all (new_chain fid depth) incoming = (c, acc) →
  linked None acc ∧ acc `sublist_of` incoming ∧
  head c = tip None acc ∧ blocks c = last_n depth acc ∧ length (blocks c) ≤ depth.
Proof.
  intros E. eapply (append_all_window _ []) in E as (Hd & (Hl & Hh & Hb) & Hs); [|done].
  simpl in *. subst depth. rw Hb. split_and!; try done. unfold last_n. rw length_drop. lia.
Qed.

(** A block on another parent is refused with both hashes in the error, and the
    chain is unchanged; a block on the head is always accepted. *)
Theorem append_accepts_iff_on_head c b :
  append c b =
    (if decide (prev_hash b = head c)
     then (mk_FileChain (file_id c) (last_n (max_depth c) (blocks c ++ [b]))
             (max_depth c) (Some (hash b)), Ok ())
     else (c, Err (EChainFork (head c) (prev_hash b)))).
Proof. unfold append. rw pop_excess_last_n. by case_bool_decide; case_decide. Qed.

(** [find_common_ancestor] returns the newest local block the remote also has:
    the remote chain has a block of the same hash, and no newer local block does. *)
Theorem find_common_ancestor_newest c remote b :
  find_common_ancestor c remote = Some b →
  ∃ older newer, blocks c = older ++ b :: newer ∧
    (∃ r, r ∈ blocks remote ∧ hash r = hash b) ∧
    ∀ n r, n ∈ newer → r ∈ blocks remote → hash r ≠ hash n.
Proof.
  unfold find_common_ancestor. rw -{2}(reverse_involutive (blocks c)).
  induction (reverse (blocks c)) as [|x l IH]; simpl; [done|].
  rw reverse_cons. case_bool_decide as Hx.
  - intros [= ->]. exists (reverse l), []. split; [done|]. split; [|set_solver].
    destruct Hx as [r Hr]. apply find_first_Some in Hr as [? ?]. bool_to_prop. eauto.
  - intros Hb. destruct (IH Hb) as (o & n & -> & Hr & Hn).
    exists o, (n ++ [x]). rw -app_assoc /=. split; [done|]. split; [done|].
    intros m r [Hm| ->%list_elem_of_singleton]%elem_of_app Hin; [by apply Hn|].
    intros Heq. apply Hx. destruct (find_block remote (hash x)) eqn:E; [done|].
    unfold find_block in E. rw find_first_None in E.
    specialize (E r Hin). by bool_to_prop.
Qed.

(** ** Witnesses *)
Module Witness.
Definition secret : bytes := replicate 32 x07.
#[local] Existing Instances Toy.toy_blake3 Toy.toy_hex Toy.toy_ed25519.

Definition blank (prev : option Blake3Hash) (v : N) : ChainBlock :=
  mk_ChainBlock [] prev v "" [] (v * 1000) (TextDiff "patch" 7) [].
Definition signed (prev : option Blake3Hash) (v : N) : ChainBlock :=
  sign_block (blank prev v) (identity_of_secret secret).
Definition b1 : ChainBlock := signed None 1.
Definition b2 : ChainBlock := signed (Some (hash b1)) 2.
Definition b3 : ChainBlock := signed (Some (hash b2)) 3.
Definition stray : ChainBlock := signed (Some zero_hash) 2.
End Witness.

Lemma verified_block_binding_witness :
  Witness.b2 = mk_ChainBlock (hash Witness.b2) (prev_hash Witness.b2) (version Witness.b2)
    (author Witness.b2) (author_public_key Witness.b2) (timestamp Witness.b2)
    (payload Witness.b2) (signature Witness.b2).
Proof.
  assert (T : block_typed Witness.b2).
  { split; try (vm_compute; done). intros h E. vm_compute in E. by injection E as <-. }
  apply (@verified_block_binding Toy.toy_blake3 Toy.toy_hex Toy.toy_ed25519 Witness.b2 Witness.b2);
    [exact T|exact T|vm_compute; reflexivity|vm_compute; reflexivity|reflexivity|reflexivity].
Defined.

Lemma chain_is_window_of_history_witness :
  ∃ c, append_all (new_chain "f1" 2) [Witness.b1; Witness.stray; Witness.b2; Witness.b3]
       = (c, [Witness.b1; Witness.b2; Witness.b3]) ∧
    blocks c = [Witness.b2; Witness.b3].
Proof.
  eexists. split; [vm_compute; reflexivity|].
  apply (chain_is_window_of_history "f1" 2
           [Witness.b1; Witness.stray; Witness.b2; Witness.b3] _ [Witness.b1; Witness.b2; Witness.b3]).
  vm_compute. reflexivity.
Defined.

Lemma find_common_ancestor_newest_witness :
  ∃ older newer, [Witness.b1; Witness.b2; Witness.b3] = older ++ Witness.b2 :: newer ∧
    (∃ r, r ∈ [Witness.b1; Witness.b2] ∧ hash r = hash Witness.b2) ∧
    ∀ n r, n ∈ newer → r ∈ [Witness.b1; Witness.b2] → hash r ≠ hash n.
Proof.
  apply (find_common_ancestor_newest
           (mk_FileChain "f1" [Witness.b1; Witness.b2; Witness.b3] 5 None)
           (mk_FileChain "f1" [Witness.b1; Witness.b2] 5 None) Witness.b2).
  vm_compute. reflexivity.
Defined.
