(* ===== verification/Ledger.v ===== *)
(** * The want/offer transfer ledger

    [synergos-net/src/chain/ledger.rs]: wants and offers keyed by file and version.
    Each [DashMap] is a [gmap]; one call is one step.

    The theorems: over any sequence of calls each requester has at most one pending
    want per key and every want is filed under its own key; an offer is answered by
    one match per pending want, so a queued want is matched by the next offer of its
    key however many other calls come between; and, since no call ever moves an entry
    to [Matched], a repeated offer (or a repeated want against a standing offer)
    matches again. *)

From S2P Require Import Prelude Types.

Inductive LedgerEntryState := Pending | Matched | Fulfilled | Cancelled.
Global Instance LedgerEntryState_eq_dec : EqDecision LedgerEntryState.
Proof. solve_decision. Defined.

Record WantEntry := mk_WantEntry {
  requester : PeerId;
  want_file_id : FileId;
  want_version : N;
  requested_at : N;
  want_state : LedgerEntryState;
}.

Record OfferEntry := mk_OfferEntry {
  sender : PeerId;
  offer_file_id : FileId;
  offer_version : N;
  file_size : N;
  crc : N;
  offered_at : N;
  offer_state : LedgerEntryState;
}.

Inductive LedgerAction :=
| Queued
| Duplicate
| Match (sender : PeerId) (file_size : N).
Global Instance LedgerAction_eq_dec : EqDecision LedgerAction.
Proof. solve_decision. Defined.

Abbreviation LedgerKey := (FileId * N)%type.

Record TransferLedger := mk_TransferLedger {
  wants : gmap LedgerKey (list WantEntry);
  offers : gmap LedgerKey OfferEntry;
}.

Definition new_ledger : TransferLedger := mk_TransferLedger ∅ ∅.

Definition want_key (w : WantEntry) : LedgerKey := (want_file_id w, want_version w).
Definition offer_key (o : OfferEntry) : LedgerKey := (offer_file_id o, offer_version o).

Definition is_state (s t : LedgerEntryState) : bool := bool_decide (s = t).

(** The duplicate check: a live want of the same requester under the same key. *)
Definition already_wanted (l : TransferLedger) (w : WantEntry) : bool :=
  match wants l !! want_key w with
  | Some existing =>
      existsb (λ e, bool_decide (requester e = requester w) &&
                    negb (is_state (want_state e) Cancelled)) existing
  | None => false
  end.

Definition register_want (l : TransferLedger) (w : WantEntry) : TransferLedger * LedgerAction :=
  let key := want_key w in
  if already_wanted l w
  then (l, Duplicate)
  else
    let push :=
      (mk_TransferLedger (<[key := default [] (wants l !! key) ++ [w]]> (wants l)) (offers l),
       Queued) in
    match offers l !! key with
    | Some o => if is_state (offer_state o) Pending then (l, Match (sender o) (file_size o))
                else push
    | None => push
    end.

Definition pending_of (ws : list WantEntry) : list WantEntry :=
  filter (λ e, want_state e = Pending) ws.

Definition register_offer (l : TransferLedger) (o : OfferEntry) : TransferLedger * list LedgerAction :=
  let key := offer_key o in
  let actions :=
    match wants l !! key with
    | Some ws => (λ _, Match (sender o) (file_size o)) <$> pending_of ws
    | None => []
    end in
  (mk_TransferLedger (wants l) (<[key := o]> (offers l)),
   match actions with [] => [Queued] | _ => actions end).

Definition set_state (peer : PeerId) (s : LedgerEntryState) (e : WantEntry) : WantEntry :=
  if bool_decide (requester e = peer)
  then mk_WantEntry (requester e) (want_file_id e) (want_version e) (requested_at e) s
  else e.

Definition mark_fulfilled (l : TransferLedger) (f : FileId) (v : N) (peer : PeerId) : TransferLedger :=
  match wants l !! (f, v) with
  | Some ws => mk_TransferLedger (<[(f, v) := set_state peer Fulfilled <$> ws]> (wants l)) (offers l)
  | None => l
  end.

Definition cancel_want (l : TransferLedger) (f : FileId) (v : N) (req : PeerId) : TransferLedger :=
  match wants l !! (f, v) with
  | Some ws => mk_TransferLedger (<[(f, v) := set_state req Cancelled <$> ws]> (wants l)) (offers l)
  | None => l
  end.

Definition pending_want_count (l : TransferLedger) (f : FileId) (v : N) : nat :=
  match wants l !! (f, v) with Some ws => length (pending_of ws) | None => 0 end.

(** ** Calls and traces *)
Inductive call :=
| CWant (w : WantEntry)
| COffer (o : OfferEntry)
| CFulfilled (f : FileId) (v : N) (peer : PeerId)
| CCancel (f : FileId) (v : N) (peer : PeerId).

Definition exec (l : TransferLedger) (c : call) : TransferLedger :=
  match c with
  | CWant w => (register_want l w).1
  | COffer o => (register_offer l o).1
  | CFulfilled f v p => mark_fulfilled l f v p
  | CCancel f v p => cancel_want l f v p
  end.

Definition exec_all (l : TransferLedger) (cs : list call) : TransferLedger := foldl exec l cs.

(** ** The invariant *)
Definition wants_ok (k : LedgerKey) (ws : list WantEntry) : Prop :=
  NoDup (requester <$> pending_of ws) ∧ Forall (λ e, want_key e = k) ws.

Definition ledger_inv (l : TransferLedger) : Prop := map_Forall wants_ok (wants l).

Lemma pending_of_app ws w :
  pending_of (ws ++ [w]) = pending_of ws ++ (if decide (want_state w = Pending) then [w] else []).
Proof. unfold pending_of. rw filter_app filter_cons filter_nil //. Qed.

(** Retiring one requester only removes entries from the pending ones. *)
Lemma pending_of_set_state peer s ws :
  s ≠ Pending →
  pending_of (set_state peer s <$> ws) = filter (λ e, requester e ≠ peer) (pending_of ws).
Proof.
  intros Hs. unfold pending_of. induction ws as [|e ws IH]; [done|].
  rw fmap_cons !filter_cons IH. unfold set_state.
  case_bool_decide; simpl; repeat case_decide; try done; rw filter_cons;
    case_decide; done.
Qed.

Lemma wants_ok_set_state k peer s ws :
  s ≠ Pending → wants_ok k ws → wants_ok k (set_state peer s <$> ws).
Proof.
  intros Hs [Hnd Hk]. split.
  - rw pending_of_set_state //. eapply sublist_NoDup; [done|].
    apply fmap_sublist, sublist_filter.
  - apply Forall_fmap. eapply Forall_impl; [done|]. intros e. unfold set_state, compose.
    by case_bool_decide.
Qed.

Lemma register_want_inv l w : ledger_inv l → ledger_inv (register_want l w).1.
Proof.
  intros Hinv. unfold register_want. destruct (already_wanted l w) eqn:Hdup; [done|].
  unfold already_wanted in Hdup.
  assert (Hpush : ledger_inv
    (mk_TransferLedger (<[want_key w := default [] (wants l !! want_key w) ++ [w]]> (wants l)) (offers l))).
  { apply map_Forall_insert_2; [|done].
    destruct (wants l !! want_key w) as [ws|] eqn:Hws; simpl.
    - destruct (Hinv _ _ Hws) as [Hnd Hk]. split.
      + rw pending_of_app fmap_app. apply NoDup_app. split; [done|].
        case_decide as Hp; simpl; [|split; [set_solver|constructor]].
        split; [|apply NoDup_singleton]. intros r Hr ->%list_elem_of_singleton.
        apply list_elem_of_fmap in Hr as (e & Hr & [He Hin]%list_elem_of_filter).
        assert (existsb (λ e, bool_decide (requester e = requester w) &&
                  negb (is_state (want_state e) Cancelled)) ws = true) as Hex; [|congruence].
        apply existsb_exists. exists e. split; [by apply list_elem_of_In|].
        rw bool_decide_eq_true_2 // /is_state He //.
      + apply Forall_app. split; [done|by constructor].
    - split; [|by constructor]. unfold pending_of. rw filter_cons filter_nil.
      case_decide; simpl; [apply NoDup_singleton|constructor]. }
  destruct (offers l !! want_key w); [|done]. by destruct (is_state _ _).
Qed.

Lemma exec_inv l c : ledger_inv l → ledger_inv (exec l c).
Proof.
  intros Hinv. destruct c; simpl.
  - by apply register_want_inv.
  - done.
  - unfold mark_fulfilled. destruct (wants l !! _) as [ws|] eqn:E; [|done].
    apply map_Forall_insert_2; [|done]. apply wants_ok_set_state; [done|by eapply Hinv].
  - unfold cancel_want. destruct (wants l !! _) as [ws|] eqn:E; [|done].
    apply map_Forall_insert_2; [|done]. apply wants_ok_set_state; [done|by eapply Hinv].
Qed.

(** ** Queued wants survive *)

(** A pending want of requester [r] is filed under key [k]. *)
Definition waiting (l : TransferLedger) (k : LedgerKey) (r : PeerId) : Prop :=
  ∃ ws e, wants l !! k = Some ws ∧ e ∈ pending_of ws ∧ requester e = r.

(** The calls that may retire a want of [r] under [k]. *)
Definition retires (k : LedgerKey) (r : PeerId) (c : call) : bool :=
  match c with
  | CFulfilled f v p | CCancel f v p => bool_decide ((f, v) = k ∧ p = r)
  | _ => false
  end.

Lemma waiting_set_state l k r f v p s :
  waiting l k r → s ≠ Pending → bool_decide ((f, v) = k ∧ p = r) = false →
  ∀ ws, wants l !! (f, v) = Some ws →
  waiting (mk_TransferLedger (<[(f, v) := set_state p s <$> ws]> (wants l)) (offers l)) k r.
Proof.
  intros (ws' & e & Hk & He & Hr) Hs Hnr ws Hws. bool_to_prop. unfold waiting; simpl.
  destruct (decide ((f, v) = k)) as [<-|Hne].
  - rw lookup_insert_eq. exists (set_state p s <$> ws), e. simplify_eq. split_and!; [done| |done].
    rw pending_of_set_state //. apply list_elem_of_filter. naive_solver.
  - rw lookup_insert_ne //. eauto.
Qed.

Lemma waiting_exec l k r c : waiting l k r → retires k r c = false → waiting (exec l c) k r.
Proof.
  intros Hw Hret. destruct c as [w|o|f v p|f v p]; simpl in *.
  - unfold register_want. destruct (already_wanted l w); [done|].
    destruct Hw as (ws & e & Hk & He & Hr).
    assert (waiting (mk_TransferLedger
      (<[want_key w := default [] (wants l !! want_key w) ++ [w]]> (wants l)) (offers l)) k r).
    { unfold waiting; simpl. destruct (decide (want_key w = k)) as [<-|Hne].
      - rw lookup_insert_eq Hk /=. eexists _, e. split_and!; [done| |done].
        rw pending_of_app. apply elem_of_app. by left.
      - rw lookup_insert_ne //. by exists ws, e. }
    destruct (offers l !! want_key w); [destruct (is_state _ _)|]; try done.
    by exists ws, e.
  - done.
  - unfold mark_fulfilled. destruct (wants l !! _) eqn:E; [|done]. by apply waiting_set_state.
  - unfold cancel_want. destruct (wants l !! _) eqn:E; [|done]. by apply waiting_set_state.
Qed.

Lemma register_want_Queued_waiting l w l' :
  want_state w = Pending → register_want l w = (l', Queued) →
  waiting l' (want_key w) (requester w).
Proof.
  intros Hs. unfold register_want. destruct (already_wanted l w); [done|].
  assert (waiting (mk_TransferLedger
    (<[want_key w := default [] (wants l !! want_key w) ++ [w]]> (wants l)) (offers l))
    (want_key w) (requester w)).
  { unfold waiting; simpl. rw lookup_insert_eq. eexists _, w. split_and!; [done| |done].
    rw pending_of_app decide_True //. apply elem_of_app. right. left. }
  destruct (offers l !! want_key w); [destruct (is_state _ _)|]; by intros [= <-].
Qed.

(** The answer to an offer, by the number of pending wants. *)
Lemma register_offer_spec l o :
  (register_offer l o).2 =
    match pending_want_count l (offer_file_id o) (offer_version o) with
    | 0 => [Queued]
    | n => replicate n (Match (sender o) (file_size o))
    end.
Proof.
  unfold register_offer, pending_want_count, offer_key. simpl.
  destruct (wants l !! _) as [ws|]; [|done].
  rw (const_fmap _ _ (Match (sender o) (file_size o))) //.
  by destruct (pending_of ws).
Qed.

(** the ledger invariant.  After any sequence of calls on a new ledger, a
    requester has at most one pending want for a file and version, and every want is
    filed under its own file and version. *)
Theorem ledger_trace_inv cs : ledger_inv (exec_all new_ledger cs).
Proof.
  unfold exec_all. assert (Hinv : ledger_inv new_ledger) by apply map_Forall_empty.
  revert Hinv. generalize new_ledger. induction cs as [|c cs IH]; intros l Hl; simpl; [done|].
  apply IH, exec_inv, Hl.
Qed.

(** no queued want is lost.  Once [register_want] queued a want, and whatever calls
    follow that neither fulfil nor cancel it, the next offer of its file and version
    is answered by matches with the offer's sender, one for each pending want. *)
Theorem queued_want_is_matched l w l' cs o :
  want_state w = Pending → register_want l w = (l', Queued) →
  Forall (λ c, retires (want_key w) (requester w) c = false) cs →
  offer_key o = want_key w →
  ∃ n, 0 < n ∧ (register_offer (exec_all l' cs) o).2 = replicate n (Match (sender o) (file_size o)) ∧
    n = pending_want_count (exec_all l' cs) (want_file_id w) (want_version w).
Proof.
  intros Hs Hq Hcs Hko. apply register_want_Queued_waiting in Hq; [|done].
  assert (Hw : waiting (exec_all l' cs) (want_key w) (requester w)).
  { unfold exec_all. revert l' Hq Hcs.
    induction cs as [|c cs IH]; intros l' Hq Hcs; simpl; [done|].
    apply Forall_cons in Hcs as [Hc Hcs]. apply IH; [by apply waiting_exec|done]. }
  destruct Hw as (ws & e & Hk & He & _). rw register_offer_spec.
  unfold offer_key, want_key in Hko. injection Hko as -> ->.
  unfold pending_want_count. rw -/(want_key w) Hk.
  destruct (pending_of ws) as [|x xs]; [by apply elem_of_nil in He|].
  exists (length (x :: xs)). simpl. split_and!; [lia|done|done].
Qed.

Lemma queued_want_is_matched_witness :
  let w := mk_WantEntry "B" "f1" 3 1000 Pending in
  let o := mk_OfferEntry "A" "f1" 3 1024 57005 1000 Pending in
  let cs := [CWant (mk_WantEntry "C" "f1" 3 1001 Pending); CCancel "f1" 3 "C"] in
  ∃ n, 0 < n ∧
    (register_offer (exec_all (register_want new_ledger w).1 cs) o).2 = replicate n (Match "A" 1024) ∧
    n = pending_want_count (exec_all (register_want new_ledger w).1 cs) "f1" 3.
Proof.
  intros w o cs. apply (queued_want_is_matched new_ledger w (register_want new_ledger w).1 cs o);
    [reflexivity|vm_compute; reflexivity|repeat constructor|reflexivity].
Defined.

(** matching is not remembered.  Registering the same offer again gives the same
    matches again, and a want that was matched against a standing offer is matched
    again when it is registered again: no call of the ledger sets [Matched], and the
    second case records nothing that could make the repetition a [Duplicate]. *)
Theorem matches_repeat l :
  (∀ o, (register_offer (register_offer l o).1 o).2 = (register_offer l o).2) ∧
  (∀ w s n l', register_want l w = (l', Match s n) → register_want l' w = (l', Match s n)).
Proof.
  split.
  - intros o. rw !register_offer_spec //.
  - intros w s n l' H. assert (l' = l) as ->; [|done].
    unfold register_want in H. by inv_result.
Qed.
