(* ===== verification/Catalog.v ===== *)
(** * The project catalog

    [synergos-net/src/catalog/types.rs] and [catalog/manager.rs]: the root catalog with
    one index entry per chunk of files, the chunks, and the update chain of each file.
    The locks are released between the internal calls of one operation; the model runs
    one operation at a time.  Identifiers drawn at random and the clock are arguments.

    The theorems: in every reachable state the index, the chunks, the chains and the
    file-to-chunk map agree and every checksum is the one recomputed from the data it
    summarises; a refused update changes nothing; the diff against the own root is
    empty and the reported chunks are exactly those whose checksum differs. *)

From S2P Require Import Prelude Crypto Types Chain.

Record ChunkIndex := mk_ChunkIndex {
  idx_chunk_id : ChunkId;
  idx_crc : N;
  idx_content_hash : Blake3Hash;
  idx_last_updated : N;
}.

Record RootCatalog := mk_RootCatalog {
  project_id : string;
  update_count : N;
  root_chunks : list ChunkIndex;
  catalog_crc : N;
  last_updated : N;
}.

Inductive FileState := Synced | LocalModified | RemoteUpdated | Conflict | Deleted.
Global Instance FileState_eq_dec : EqDecision FileState.
Proof. solve_decision. Defined.

Record FileEntry := mk_FileEntry {
  fe_file_id : FileId;
  fe_path : string;
  fe_crc : N;
  fe_content_hash : Blake3Hash;
  fe_state : FileState;
  fe_size : N;
}.

Record Chunk := mk_Chunk {
  chunk_id : ChunkId;
  files : list FileEntry;
  max_files : nat;
}.

Inductive FileUpdateAction :=
| ApplyRemote (file_id : FileId)
| FetchNew (file_id : FileId)
| Remove (file_id : FileId).

Record CatalogDiff := mk_CatalogDiff {
  updates : list FileUpdateAction;
  conflicts : list FileId;
  changed_chunks : list ChunkId;
}.

Definition new_chunk (id : ChunkId) (max_files : nat) : Chunk := mk_Chunk id [] max_files.
Definition is_full (c : Chunk) : bool := max_files c <=? length (files c).

Record CatalogManager := mk_CatalogManager {
  root : RootCatalog;
  chunks : gmap ChunkId Chunk;
  chains : gmap FileId FileChain;
  file_to_chunk : gmap FileId ChunkId;
  chunk_max_files : nat;
  chain_max_depth : nat;
}.

(** Field updates. *)
Definition with_root (r : RootCatalog) (m : CatalogManager) : CatalogManager :=
  mk_CatalogManager r (chunks m) (chains m) (file_to_chunk m) (chunk_max_files m) (chain_max_depth m).
Definition with_chunks (cs : gmap ChunkId Chunk) (m : CatalogManager) : CatalogManager :=
  mk_CatalogManager (root m) cs (chains m) (file_to_chunk m) (chunk_max_files m) (chain_max_depth m).
Definition with_chains (cs : gmap FileId FileChain) (m : CatalogManager) : CatalogManager :=
  mk_CatalogManager (root m) (chunks m) cs (file_to_chunk m) (chunk_max_files m) (chain_max_depth m).
Definition with_file_to_chunk (f : gmap FileId ChunkId) (m : CatalogManager) : CatalogManager :=
  mk_CatalogManager (root m) (chunks m) (chains m) f (chunk_max_files m) (chain_max_depth m).

Definition with_index (l : list ChunkIndex) (r : RootCatalog) : RootCatalog :=
  mk_RootCatalog (project_id r) (update_count r) l (catalog_crc r) (last_updated r).

Definition new_manager (pid : string) (chunk_max chain_max : nat) (now : N) : CatalogManager :=
  mk_CatalogManager (mk_RootCatalog pid 0 [] 0 now) ∅ ∅ ∅ chunk_max chain_max.

(** [chunk.files.iter_mut().find(|f| f.file_id == id)] and an assignment. *)
Definition update_entry (f : FileId) (g : FileEntry → FileEntry) (c : Chunk) : Chunk :=
  mk_Chunk (chunk_id c) (update_first (λ e, bool_decide (fe_file_id e = f)) g (files c)) (max_files c).

Definition set_crc_synced (crc : N) (e : FileEntry) : FileEntry :=
  mk_FileEntry (fe_file_id e) (fe_path e) crc (fe_content_hash e) Synced (fe_size e).
Definition set_state (s : FileState) (e : FileEntry) : FileEntry :=
  mk_FileEntry (fe_file_id e) (fe_path e) (fe_crc e) (fe_content_hash e) s (fe_size e).

Definition find_or_create_chunk (fresh : ChunkId) (now : N) (m : CatalogManager) :
    CatalogManager * ChunkId :=
  let create :=
    (with_root (with_index (root_chunks (root m) ++ [mk_ChunkIndex fresh 0 zero_hash now]) (root m))
       (with_chunks (<[fresh := new_chunk fresh (chunk_max_files m)]> (chunks m)) m), fresh) in
  match last (root_chunks (root m)) with
  | Some l =>
      match chunks m !! idx_chunk_id l with
      | Some c => if is_full c then create else (m, idx_chunk_id l)
      | None => create
      end
  | None => create
  end.

(** [files.push(entry)] on the chunk, if it is there. *)
Definition push_entry (c : ChunkId) (e : FileEntry) (m : CatalogManager) : CatalogManager :=
  match chunks m !! c with
  | Some ch => with_chunks (<[c := mk_Chunk (chunk_id ch) (files ch ++ [e]) (max_files ch)]> (chunks m)) m
  | None => m
  end.

(** The assignment to the entry of [f] in its chunk, shared by [record_update] and
    [set_file_state]. *)
Definition modify_entry (c : ChunkId) (f : FileId) (g : FileEntry → FileEntry)
    (m : CatalogManager) : CatalogManager :=
  match chunks m !! c with
  | Some ch => with_chunks (<[c := update_entry f g ch]> (chunks m)) m
  | None => m
  end.

Definition set_file_state (f : FileId) (s : FileState) (m : CatalogManager) : CatalogManager :=
  match file_to_chunk m !! f with
  | Some c => modify_entry c f (set_state s) m
  | None => m
  end.

Definition diff_file (m : CatalogManager) (d : CatalogDiff) (e : FileEntry) : CatalogDiff :=
  match chains m !! fe_file_id e with
  | Some _ =>
      if bool_decide (fe_state e = LocalModified)
      then mk_CatalogDiff (updates d) (conflicts d ++ [fe_file_id e]) (changed_chunks d)
      else mk_CatalogDiff (updates d ++ [ApplyRemote (fe_file_id e)]) (conflicts d) (changed_chunks d)
  | None => mk_CatalogDiff (updates d ++ [FetchNew (fe_file_id e)]) (conflicts d) (changed_chunks d)
  end.

Definition diff_chunk_files (m : CatalogManager) (c : ChunkId) (d : CatalogDiff) : CatalogDiff :=
  match chunks m !! c with
  | Some ch => foldl (diff_file m) d (files ch)
  | None => d
  end.

Definition push_changed (c : ChunkId) (d : CatalogDiff) : CatalogDiff :=
  mk_CatalogDiff (updates d) (conflicts d) (changed_chunks d ++ [c]).

(** One turn of the loop over the remote index. *)
Definition diff_index (m : CatalogManager) (d : CatalogDiff) (r : ChunkIndex) : CatalogDiff :=
  match find_first (λ c, bool_decide (idx_chunk_id c = idx_chunk_id r)) (root_chunks (root m)) with
  | Some l =>
      if (idx_crc l =? idx_crc r)%N then d
      else diff_chunk_files m (idx_chunk_id r) (push_changed (idx_chunk_id r) d)
  | None => push_changed (idx_chunk_id r) d
  end.

Definition empty_diff : CatalogDiff := mk_CatalogDiff [] [] [].

Definition diff_catalog (m : CatalogManager) (remote : RootCatalog) : CatalogDiff :=
  if ((update_count (root m) =? update_count remote) &&
      (catalog_crc (root m) =? catalog_crc remote))%N
  then empty_diff
  else foldl (diff_index m) empty_diff (root_chunks remote).

Section catalog.
Context `{Crc32}.

Definition compute_crc (c : Chunk) : N := crc32 (files c ≫= λ f, le_bytes 4 (fe_crc f)).

Definition update_chunk_index (c : ChunkId) (now : N) (m : CatalogManager) : CatalogManager :=
  match chunks m !! c with
  | Some ch =>
      with_root (with_index
        (update_first (λ i, bool_decide (idx_chunk_id i = c))
           (λ i, mk_ChunkIndex (idx_chunk_id i) (compute_crc ch) (idx_content_hash i) now)
           (root_chunks (root m))) (root m)) m
  | None => m
  end.

Definition index_crc (l : list ChunkIndex) : N := crc32 (l ≫= λ i, le_bytes 4 (idx_crc i)).

Definition recompute_catalog_crc (m : CatalogManager) : CatalogManager :=
  let r := root m in
  with_root (mk_RootCatalog (project_id r) (update_count r) (root_chunks r)
               (index_crc (root_chunks r)) (last_updated r)) m.

Definition add_file (fid : FileId) (fresh_chunk : ChunkId) (now : N)
    (path : string) (crc size : N) (m : CatalogManager) : CatalogManager * FileId :=
  let entry := mk_FileEntry fid path crc zero_hash Synced size in
  let '(m, c) := find_or_create_chunk fresh_chunk now m in
  let m := push_entry c entry m in
  let m := with_chains (<[fid := new_chain fid (chain_max_depth m)]> (chains m)) m in
  let m := with_file_to_chunk (<[fid := c]> (file_to_chunk m)) m in
  (recompute_catalog_crc (update_chunk_index c now m), fid).

(** [root.update_count += 1; root.last_updated = now_ms()]. *)
Definition count_update (now : N) (m : CatalogManager) : CatalogManager :=
  let r := root m in
  with_root (mk_RootCatalog (project_id r) (wrapping_add (update_count r) 1) (root_chunks r)
               (catalog_crc r) now) m.

Definition record_update (f : FileId) (b : ChainBlock) (now : N) (m : CatalogManager) :
    CatalogManager * result NetError () :=
  match chains m !! f with
  | None => (m, Err (EPeerNotFound "File not found"))
  | Some chain =>
      match append chain b with
      | (_, Err e) => (m, Err e)
      | (chain', Ok _) =>
          let new_crc := default 0%N (head_crc chain') in
          let m := with_chains (<[f := chain']> (chains m)) m in
          let m :=
            match file_to_chunk m !! f with
            | Some c => update_chunk_index c now (modify_entry c f (set_crc_synced new_crc) m)
            | None => m
            end in
          (recompute_catalog_crc (count_update now m), Ok ())
      end
  end.
End catalog.

(** ** The invariant *)
Section invariant.
Context `{Crc32}.

Record cat_core (m : CatalogManager) : Prop := {
  core_ids : NoDup (idx_chunk_id <$> root_chunks (root m));
  core_chunks c : is_Some (chunks m !! c) ↔ c ∈ idx_chunk_id <$> root_chunks (root m);
  core_chunk c ch : chunks m !! c = Some ch →
    chunk_id ch = c ∧ max_files ch = chunk_max_files m ∧
    length (files ch) ≤ 1 `max` chunk_max_files m ∧ NoDup (fe_file_id <$> files ch);
  core_files f c : file_to_chunk m !! f = Some c ↔
    ∃ ch, chunks m !! c = Some ch ∧ f ∈ fe_file_id <$> files ch;
  core_chains f : is_Some (chains m !! f) ↔ is_Some (file_to_chunk m !! f);
  core_window f chain : chains m !! f = Some chain →
    file_id chain = f ∧ max_depth chain = chain_max_depth m ∧ ∃ h, window_of chain h;
  core_head c ch e chain : chunks m !! c = Some ch → e ∈ files ch →
    chains m !! fe_file_id e = Some chain → blocks chain ≠ [] →
    head_crc chain = Some (fe_crc e);
}.

Definition index_entry_ok (m : CatalogManager) (i : ChunkIndex) : Prop :=
  ∃ ch, chunks m !! idx_chunk_id i = Some ch ∧ idx_crc i = compute_crc ch.

(** Every index entry but those of chunk [c] is up to date. *)
Definition index_ok_except (c : option ChunkId) (m : CatalogManager) : Prop :=
  ∀ i, i ∈ root_chunks (root m) → Some (idx_chunk_id i) ≠ c → index_entry_ok m i.

Definition crc_ok (m : CatalogManager) : Prop :=
  root_chunks (root m) ≠ [] → catalog_crc (root m) = index_crc (root_chunks (root m)).

Definition catalog_inv (m : CatalogManager) : Prop :=
  cat_core m ∧ index_ok_except None m ∧ crc_ok m.

Lemma new_manager_inv pid a b now : catalog_inv (new_manager pid a b now).
Proof.
  split_and!; [split; simpl| |by intros Hne; destruct Hne].
  - constructor.
  - intros c. rw lookup_empty. set_solver.
  - intros c ch. by rw lookup_empty.
  - intros f c. rw lookup_empty. split; [done|]. intros (ch & H1 & _). by rw lookup_empty in H1.
  - intros f. by rw !lookup_empty.
  - intros f chain. by rw lookup_empty.
  - intros c ch e chain. by rw lookup_empty.
  - intros i. simpl. set_solver.
Qed.

(** Index maintenance touches nothing the core depends on. *)
Lemma cat_core_update_chunk_index c now m : cat_core m → cat_core (update_chunk_index c now m).
Proof.
  unfold update_chunk_index. intros Hc. destruct (chunks m !! c); [|done].
  assert (Hmap : ∀ g, (∀ i, idx_chunk_id (g i) = idx_chunk_id i) →
    idx_chunk_id <$> update_first (λ i, bool_decide (idx_chunk_id i = c)) g (root_chunks (root m))
    = idx_chunk_id <$> root_chunks (root m)) by (intros; by apply update_first_map).
  destruct Hc. split; simpl; rw ?Hmap //.
Qed.

Lemma cat_core_root r m :
  root_chunks r = root_chunks (root m) → cat_core m → cat_core (with_root r m).
Proof. intros Hr []. split; simpl; rw ?Hr //. Qed.

Lemma index_ok_update c now m :
  cat_core m → index_ok_except (Some c) m → is_Some (chunks m !! c) →
  index_ok_except None (update_chunk_index c now m).
Proof.
  intros Hc Hi [ch Hch]. unfold update_chunk_index. rw Hch. intros i Hin _.
  unfold index_entry_ok; simpl in *.
  apply elem_of_update_first_key in Hin as [[Hin Hne]|(j & Hj & <- & ->)]; [| |apply Hc|done].
  - apply Hi; [done|congruence].
  - by exists ch.
Qed.

Lemma recompute_inv m : cat_core m → index_ok_except None m → catalog_inv (recompute_catalog_crc m).
Proof.
  intros Hc Hi. split_and!.
  - by apply cat_core_root.
  - exact Hi.
  - by intros _.
Qed.

Lemma index_ok_except_chunks c m cs :
  (∀ c', c' ≠ c → cs !! c' = chunks m !! c') →
  index_ok_except (Some c) m → index_ok_except (Some c) (with_chunks cs m).
Proof.
  intros Hcs Hi i Hin Hne. destruct (Hi i Hin Hne) as (ch & ? & ?).
  exists ch. simpl. rw Hcs //. congruence.
Qed.

Lemma index_ok_weaken c m : index_ok_except None m → index_ok_except (Some c) m.
Proof. intros Hi i Hin _. by apply Hi. Qed.

(** *** [add_file] *)
Lemma find_or_create_chunk_spec fresh now m m' c :
  catalog_inv m → chunks m !! fresh = None →
  find_or_create_chunk fresh now m = (m', c) →
  cat_core m' ∧ index_ok_except (Some c) m' ∧
  chains m' = chains m ∧ file_to_chunk m' = file_to_chunk m ∧
  ∃ ch, chunks m' !! c = Some ch ∧ length (files ch) < 1 `max` chunk_max_files m'.
Proof.
  intros (Hc & Hi & _) Hfresh Hf.
  assert (Hcreate : (with_root (with_index
      (root_chunks (root m) ++ [mk_ChunkIndex fresh 0 zero_hash now]) (root m))
      (with_chunks (<[fresh := new_chunk fresh (chunk_max_files m)]> (chunks m)) m), fresh) = (m', c) →
    cat_core m' ∧ index_ok_except (Some c) m' ∧
    chains m' = chains m ∧ file_to_chunk m' = file_to_chunk m ∧
    ∃ ch, chunks m' !! c = Some ch ∧ length (files ch) < 1 `max` chunk_max_files m').
  { intros [= <- <-]. split_and!; try done.
    - assert (Hnf : fresh ∉ idx_chunk_id <$> root_chunks (root m)).
      { rw -(core_chunks _ Hc) Hfresh. by intros []. }
      destruct Hc. split; simpl; try done.
      + rw fmap_app. apply NoDup_app. split_and!; [done| |apply NoDup_singleton].
        intros x Hx ->%list_elem_of_singleton. done.
      + intros c. rw fmap_app elem_of_app list_elem_of_singleton /=.
        rw lookup_insert_is_Some core_chunks0. destruct (decide (fresh = c)); naive_solver.
      + intros c ch [[<- <-]|[? ?]]%lookup_insert_Some; [|by apply core_chunk0].
        split_and!; [done..|simpl; lia|constructor].
      + intros f c. rw core_files0. split; intros (ch & H1 & H2).
        * exists ch. rw lookup_insert_ne //. congruence.
        * apply lookup_insert_Some in H1 as [[<- <-]|[? ?]]; [by apply elem_of_nil in H2|eauto].
      + intros c ch e chain [[<- <-]|[? ?]]%lookup_insert_Some; simpl; [set_solver|eauto].
    - intros i. simpl. intros [Hin| ->%list_elem_of_singleton]%elem_of_app Hne; [|done].
      destruct (Hi i Hin) as (ch & ? & ?); [done|]. exists ch. simpl. rw lookup_insert_ne //. congruence.
    - simpl. rw lookup_insert_eq. eexists. split; [done|]. simpl. lia. }
  unfold find_or_create_chunk in Hf.
  destruct (last (root_chunks (root m))) as [l|] eqn:Hl; [|by apply Hcreate].
  destruct (chunks m !! idx_chunk_id l) as [ch|] eqn:Hch; [|by apply Hcreate].
  destruct (is_full ch) eqn:Hfull; [by apply Hcreate|]. injection Hf as <- <-.
  split_and!; [done|by apply index_ok_weaken|done..|]. exists ch. split; [done|].
  unfold is_full in Hfull. bool_to_prop.
  destruct (core_chunk _ Hc _ _ Hch) as (_ & Hmax & _). lia.
Qed.

(** The state after the entry is stored and registered, before the checksums. *)
Definition registered (e : FileEntry) (c : ChunkId) (ch : Chunk) (m : CatalogManager) : CatalogManager :=
  with_file_to_chunk (<[fe_file_id e := c]> (file_to_chunk m))
    (with_chains (<[fe_file_id e := new_chain (fe_file_id e) (chain_max_depth m)]> (chains m))
       (with_chunks (<[c := mk_Chunk (chunk_id ch) (files ch ++ [e]) (max_files ch)]> (chunks m)) m)).

Lemma registered_core e c ch m :
  cat_core m → chains m !! fe_file_id e = None → chunks m !! c = Some ch →
  length (files ch) < 1 `max` chunk_max_files m → cat_core (registered e c ch m).
Proof.
  intros Hc Hnew Hch Hlen.
  assert (Hf : file_to_chunk m !! fe_file_id e = None).
  { apply eq_None_not_Some. rw -(core_chains _ Hc) Hnew. by intros []. }
  assert (Hnin : ∀ c' ch', chunks m !! c' = Some ch' → fe_file_id e ∉ fe_file_id <$> files ch').
  { intros c' ch' Hc' Hin. assert (file_to_chunk m !! fe_file_id e = Some c'); [|congruence].
    apply (core_files _ Hc). eauto. }
  destruct Hc as [Hids Hdom Hchunk Hfiles Hchains Hwin Hhead]. split; simpl; try done.
  - intros c'. rw lookup_insert_is_Some -Hdom. destruct (decide (c = c')) as [<-|]; naive_solver.
  - intros c' ch' [[<- <-]|[? ?]]%lookup_insert_Some; [|by apply Hchunk].
    destruct (Hchunk _ _ Hch) as (? & ? & ? & ?). simpl. split_and!; [done..| |].
    + rw length_app /=. lia.
    + rw fmap_app. apply NoDup_app. split_and!; [done| |apply NoDup_singleton].
      intros x Hx ->%list_elem_of_singleton. by eapply Hnin.
  - intros f c'. rw lookup_insert_Some Hfiles. split.
    + intros [[<- <-]|[Hne (ch' & Hc' & Hin)]].
      * eexists. rw lookup_insert_eq. split; [done|]. simpl. rw fmap_app. set_solver.
      * destruct (decide (c = c')) as [<-|]; [|exists ch'; by rw lookup_insert_ne].
        eexists. rw lookup_insert_eq. split; [done|]. simplify_eq. simpl. rw fmap_app. set_solver.
    + intros (ch' & [[<- <-]|[Hne Hc']]%lookup_insert_Some & Hin); simpl in Hin.
      * rw fmap_app in Hin. apply elem_of_app in Hin as [Hin| ->%list_elem_of_singleton]; [|by left].
        right. split; [|eauto]. intros <-. by eapply Hnin.
      * right. split; [|eauto]. intros <-. by eapply Hnin.
  - intros f. rw !lookup_insert_is_Some Hchains. done.
  - intros f chain [[<- <-]|[? ?]]%lookup_insert_Some; [|by apply Hwin].
    split_and!; [done..|]. by exists [].
  - intros c' ch' x chain Hc' Hx [[Heq <-]|[Hne Hchain]]%lookup_insert_Some Hb; [done|].
    apply lookup_insert_Some in Hc' as [[<- <-]|[? ?]]; [|by eapply Hhead].
    apply elem_of_app in Hx as [Hx| ->%list_elem_of_singleton]; [by eapply Hhead|done].
Qed.

Lemma add_file_inv fid fresh now path crc size m :
  catalog_inv m → chains m !! fid = None → chunks m !! fresh = None →
  catalog_inv (add_file fid fresh now path crc size m).1.
Proof.
  intros Hinv Hfid Hfresh. unfold add_file.
  destruct (find_or_create_chunk fresh now m) as [m1 c] eqn:E.
  apply find_or_create_chunk_spec in E as (Hc & Hi & Hch1 & Hf1 & ch & Hch & Hlen); [|done..].
  set (e := mk_FileEntry fid path crc zero_hash Synced size). cbn [fst].
  unfold push_entry. rw Hch. rw -/(registered e c ch m1).
  assert (Hreg : cat_core (registered e c ch m1)) by (apply registered_core; rw ?Hch1 //).
  apply recompute_inv; [by apply cat_core_update_chunk_index|].
  apply index_ok_update; [done| |by rw /= lookup_insert_eq].
  eapply (index_ok_except_chunks c); [|exact Hi]. intros c' ?. by rw lookup_insert_ne.
Qed.

(** *** [record_update] and [set_file_state] *)
Lemma modify_core c f g chain ch m :
  cat_core m → file_to_chunk m !! f = Some c → chunks m !! c = Some ch →
  (∀ e, fe_file_id (g e) = fe_file_id e) →
  file_id chain = f → max_depth chain = chain_max_depth m → (∃ h, window_of chain h) →
  (∀ e, e ∈ files ch → fe_file_id e = f → blocks chain ≠ [] → head_crc chain = Some (fe_crc (g e))) →
  cat_core (with_chunks (<[c := update_entry f g ch]> (chunks m))
              (with_chains (<[f := chain]> (chains m)) m)).
Proof.
  intros Hc Hf Hch Hg Hid Hmax Hw Hcrc.
  assert (Hmap : fe_file_id <$> files (update_entry f g ch) = fe_file_id <$> files ch)
    by (by apply update_first_map).
  destruct Hc as [Hids Hdom Hchunk Hfiles Hchains Hwin Hhead]. split; simpl; try done.
  - intros c'. rw lookup_insert_is_Some -Hdom. destruct (decide (c = c')) as [<-|]; naive_solver.
  - intros c' ch' [[<- <-]|[? ?]]%lookup_insert_Some; [|by apply Hchunk].
    rw Hmap. destruct (Hchunk _ _ Hch) as (? & ? & ? & ?). simpl. by rw length_update_first.
  - intros f' c'. rw Hfiles. split; intros (ch' & Hc' & Hin).
    + destruct (decide (c = c')) as [<-|]; [|exists ch'; by rw lookup_insert_ne].
      eexists. rw lookup_insert_eq. split; [done|]. rw Hmap. by simplify_eq.
    + apply lookup_insert_Some in Hc' as [[<- <-]|[? ?]]; [|eauto]. rw Hmap in Hin. eauto.
  - intros f'. rw lookup_insert_is_Some Hchains. destruct (decide (f = f')) as [<-|]; naive_solver.
  - intros f' chain' [[<- <-]|[? ?]]%lookup_insert_Some; [done|by apply Hwin].
  - intros c' ch' e chain' Hc' He Hchain Hb.
    apply lookup_insert_Some in Hc' as [[<- <-]|[Hcne Hc']].
    + apply elem_of_update_first_key in He as [[He Hne]|(e0 & He0 & Hk & ->)];
        [| |by eapply Hchunk|done].
      * rw lookup_insert_ne // in Hchain. by eapply Hhead.
      * rw Hg Hk lookup_insert_eq in Hchain. simplify_eq. by apply Hcrc.
    + destruct (decide (f = fe_file_id e)) as [->|Hne]; [|rw lookup_insert_ne // in Hchain; by eapply Hhead].
      exfalso. apply Hcne. enough (Some c = Some c') by congruence. rw -Hf. apply Hfiles.
      exists ch'. split; [done|]. apply list_elem_of_fmap. eauto.
Qed.

(** The chunk a registered file lives in, with its entry. *)
Lemma core_lookup m f chain :
  cat_core m → chains m !! f = Some chain →
  ∃ c ch, file_to_chunk m !! f = Some c ∧ chunks m !! c = Some ch ∧ f ∈ fe_file_id <$> files ch.
Proof.
  intros Hc Hf. destruct (proj1 (core_chains _ Hc f) ltac:(eauto)) as [c Hfc].
  destruct (proj1 (core_files _ Hc f c) Hfc) as (ch & ? & ?). eauto.
Qed.

(** What an accepted update leaves behind. *)
Lemma record_update_Ok f b now m m' :
  catalog_inv m → record_update f b now m = (m', Ok ()) →
  ∃ chain chain' c ch,
    chains m !! f = Some chain ∧ append chain b = (chain', Ok ()) ∧
    file_to_chunk m !! f = Some c ∧ chunks m !! c = Some ch ∧
    m' = recompute_catalog_crc (count_update now (update_chunk_index c now
           (with_chunks (<[c := update_entry f (set_crc_synced (default 0%N (head_crc chain'))) ch]> (chunks m))
              (with_chains (<[f := chain']> (chains m)) m)))).
Proof.
  intros (Hc & _ & _) Hr. unfold record_update in Hr.
  destruct (chains m !! f) as [chain|] eqn:Hf; [|done].
  destruct (append chain b) as [chain' [[]|]] eqn:Ha; [|done].
  destruct (core_lookup _ _ _ Hc Hf) as (c & ch & Hfc & Hch & _).
  simpl in Hr. rw Hfc /modify_entry /= Hch in Hr. injection Hr as <-.
  exists chain, chain', c, ch. by rw Hch.
Qed.

Lemma record_update_inv f b now m : catalog_inv m → catalog_inv (record_update f b now m).1.
Proof.
  intros Hinv. destruct (record_update f b now m) as [m' [[]|e]] eqn:E; simpl.
  - destruct (record_update_Ok _ _ _ _ _ Hinv E) as (chain & chain' & c & ch & Hf & Ha & Hfc & Hch & ->).
    destruct Hinv as (Hc & Hi & _). destruct (core_window _ Hc _ _ Hf) as (Hid & Hmax & h & Hw).
    destruct (append_window _ _ _ _ _ Hw Ha) as [Hmax' Hw'].
    assert (Hid' : file_id chain' = file_id chain).
    { unfold append in Ha. case_bool_decide; simpl in Ha; [|done]. by injection Ha as <-. }
    assert (Hcore : cat_core (with_chunks
      (<[c := update_entry f (set_crc_synced (default 0%N (head_crc chain'))) ch]> (chunks m))
      (with_chains (<[f := chain']> (chains m)) m))).
    { apply modify_core; try done; [congruence..|eauto|]. intros e _ _ Hb. simpl.
      unfold head_crc. destruct (last (blocks chain')) eqn:Hl; [done|].
      apply last_None in Hl. done. }
    apply recompute_inv.
    + apply cat_core_root; [done|]. by apply cat_core_update_chunk_index.
    + assert (Hidx := index_ok_update c now _ Hcore). apply Hidx.
      * eapply (index_ok_except_chunks c (with_chains (<[f := chain']> (chains m)) m)).
        -- intros c' ?. by rw lookup_insert_ne.
        -- by apply index_ok_weaken.
      * rw /= lookup_insert_eq //.
  - unfold record_update in E. destruct (chains m !! f) as [chain|] eqn:Hf; [|by injection E as <-].
    destruct (append chain b) as [chain' [|]]; [done|by injection E as <-].
Qed.

Lemma compute_crc_ext c d : fe_crc <$> files c = fe_crc <$> files d → compute_crc c = compute_crc d.
Proof.
  unfold compute_crc. intros Heq. f_equal. revert Heq. generalize (files c), (files d).
  intros l. induction l as [|x l IH]; intros [|y k]; try done.
  rw !fmap_cons !bind_cons. intros [= Hx Hl]. by rw Hx (IH k).
Qed.

Lemma set_file_state_inv f s m : catalog_inv m → catalog_inv (set_file_state f s m).
Proof.
  intros (Hc & Hi & Hcrc). unfold set_file_state.
  destruct (file_to_chunk m !! f) as [c|] eqn:Hfc; [|done].
  destruct (proj2 (core_chains _ Hc f) ltac:(eauto)) as [chain Hf].
  destruct (core_lookup _ _ _ Hc Hf) as (c' & ch & Hfc' & Hch & _).
  assert (c' = c) as -> by congruence.
  unfold modify_entry. rw Hch. split_and!; [| |done].
  - destruct (core_window _ Hc _ _ Hf) as (? & ? & ?).
    assert (E : with_chunks (<[c:=update_entry f (set_state s) ch]> (chunks m)) m =
      with_chunks (<[c:=update_entry f (set_state s) ch]> (chunks m)) (with_chains (chains m) m))
      by by destruct m.
    rw E -(insert_id _ _ _ Hf). apply modify_core; try done.
    intros e He Hid Hb. simpl. eapply (core_head _ Hc); [done..| |done]. by rw Hid.
  - intros i Hin _. destruct (Hi i Hin) as (ch0 & Hch0 & Hcrc0); [done|].
    unfold index_entry_ok; simpl. destruct (decide (c = idx_chunk_id i)) as [->|Hne].
    + rw lookup_insert_eq. eexists. split; [done|]. simplify_eq. rw Hcrc0. apply compute_crc_ext.
      simpl. symmetry. by apply update_first_map.
    + rw lookup_insert_ne //. eauto.
Qed.
End invariant.

(** ** Reachable states *)

(** One public operation; the random identifiers are fresh. *)
Inductive step `{Crc32} (m : CatalogManager) : CatalogManager → Prop :=
| step_add fid fresh now path crc size :
    chains m !! fid = None → chunks m !! fresh = None →
    step m (add_file fid fresh now path crc size m).1
| step_update f b now : step m (record_update f b now m).1
| step_state f s : step m (set_file_state f s m).

Lemma step_inv `{Crc32} m m' : catalog_inv m → step m m' → catalog_inv m'.
Proof.
  intros Hinv []; [by apply add_file_inv|by apply record_update_inv|by apply set_file_state_inv].
Qed.

(** [content_hash] of the entries and of the index. *)
Definition hashes_unset (m : CatalogManager) : Prop :=
  Forall (λ i, idx_content_hash i = zero_hash) (root_chunks (root m)) ∧
  map_Forall (λ _ ch, Forall (λ e, fe_content_hash e = zero_hash) (files ch)) (chunks m).

Lemma hashes_unset_update_chunk_index `{Crc32} c now m :
  hashes_unset m → hashes_unset (update_chunk_index c now m).
Proof.
  intros [Hi Hc]. unfold update_chunk_index. destruct (chunks m !! c); [|done].
  split; [|done]. simpl. by apply Forall_update_first.
Qed.

Lemma hashes_unset_modify c f g m :
  (∀ e, fe_content_hash (g e) = fe_content_hash e) →
  hashes_unset m → hashes_unset (modify_entry c f g m).
Proof.
  intros Hg [Hi Hc]. unfold modify_entry. destruct (chunks m !! c) as [ch|] eqn:E; [|done].
  split; [done|]. simpl. apply map_Forall_insert_2; [|done].
  apply Forall_update_first; [by eapply Hc|]. intros e _ _ He. by rw Hg.
Qed.

Lemma step_hashes_unset `{Crc32} m m' : hashes_unset m → step m m' → hashes_unset m'.
Proof.
  intros Hu []; simpl.
  - unfold add_file. destruct (find_or_create_chunk fresh now m) as [m1 c] eqn:E.
    assert (Hu1 : hashes_unset m1).
    { unfold find_or_create_chunk in E. destruct Hu as [Hi Hc].
      assert (hashes_unset (with_root (with_index
        (root_chunks (root m) ++ [mk_ChunkIndex fresh 0 zero_hash now]) (root m))
        (with_chunks (<[fresh := new_chunk fresh (chunk_max_files m)]> (chunks m)) m))).
      { split; simpl; [apply Forall_app; split; [done|by constructor]|].
        apply map_Forall_insert_2; [by constructor|done]. }
      inv_result; done. }
    apply hashes_unset_update_chunk_index. unfold push_entry. destruct Hu1 as [Hi Hc].
    destruct (chunks m1 !! c) as [ch|] eqn:Hch; [|done]. split; [done|]. simpl.
    apply map_Forall_insert_2; [|done]. simpl. apply Forall_app.
    split; [by eapply Hc|by constructor].
  - unfold record_update. destruct (chains m !! f); [|done]. destruct (append f0 b) as [c' [|]]; [|done].
    simpl. destruct (file_to_chunk m !! f); [|done].
    by apply hashes_unset_update_chunk_index, hashes_unset_modify.
  - unfold set_file_state. destruct (file_to_chunk m !! f); [|done]. by apply hashes_unset_modify.
Qed.

(** ** The diff *)
Lemma diff_file_changed m d e : changed_chunks (diff_file m d e) = changed_chunks d.
Proof. unfold diff_file. by inv_result. Qed.

Lemma diff_chunk_files_changed m c d :
  changed_chunks (diff_chunk_files m c d) = changed_chunks d.
Proof.
  unfold diff_chunk_files. destruct (chunks m !! c) as [ch|]; [|done].
  revert d. induction (files ch) as [|e l IH]; intros d; simpl; [done|].
  by rw IH diff_file_changed.
Qed.

(** A remote index entry that the local index does not confirm. *)
Definition differs (m : CatalogManager) (r : ChunkIndex) : bool :=
  match find_first (λ c, bool_decide (idx_chunk_id c = idx_chunk_id r)) (root_chunks (root m)) with
  | Some l => negb (idx_crc l =? idx_crc r)%N
  | None => true
  end.

Lemma diff_index_changed m d r :
  changed_chunks (diff_index m d r) =
    changed_chunks d ++ (if differs m r then [idx_chunk_id r] else []).
Proof.
  unfold diff_index, differs. destruct (find_first _ _) as [l|]; [|done].
  destruct (idx_crc l =? idx_crc r)%N; [by rw app_nil_r|]. by rw diff_chunk_files_changed.
Qed.

Lemma diff_loop_changed m l d :
  changed_chunks (foldl (diff_index m) d l) =
    changed_chunks d ++ (idx_chunk_id <$> filter (λ r, differs m r = true) l).
Proof.
  revert d. induction l as [|r l IH]; intros d; simpl; [by rw app_nil_r|].
  rw IH diff_index_changed filter_cons -app_assoc. by destruct (differs m r).
Qed.

(** ** Properties *)

(** the catalog invariant.  In every state reachable from a new catalog by adding
    files, recording updates and changing file states: chunk identifiers are distinct
    and the index lists exactly the stored chunks; a chunk never exceeds its capacity
    (one file at least); a file is registered in exactly the chunk that holds its entry
    and has a chain exactly then; each chain is a window of a linked history; the
    entry's checksum is that of the chain's head; every index checksum is the one
    recomputed from the chunk, and the catalog checksum the one recomputed from the
    index. *)
Theorem catalog_reachable_inv `{Crc32} pid chunk_max chain_max now m :
  rtc step (new_manager pid chunk_max chain_max now) m → catalog_inv m.
Proof.
  intros Hr. remember (new_manager pid chunk_max chain_max now) as m0 eqn:E.
  assert (Hinv : catalog_inv m0) by (subst; apply new_manager_inv). clear E.
  induction Hr as [|x y z Hs _ IH]; [done|]. apply IH. by eapply step_inv.
Qed.

(** an update is all or nothing.  A refused update (unknown file, or a block that is
    not on the chain's head) leaves the catalog exactly as it was; an accepted one makes
    the block the head of its file's chain, counts one update, puts the chain's checksum
    in the file's entry, marks it synced and touches no other chain. *)
Theorem record_update_all_or_nothing `{Crc32} f b now m m' r :
  catalog_inv m → record_update f b now m = (m', r) →
  match r with
  | Err e => m' = m ∧
      (chains m !! f = None ∨ ∃ chain, chains m !! f = Some chain ∧ prev_hash b ≠ head chain)
  | Ok _ => ∃ chain' c ch e,
      chains m' !! f = Some chain' ∧ head chain' = Some (hash b) ∧
      (∀ g, g ≠ f → chains m' !! g = chains m !! g) ∧
      update_count (root m') = wrapping_add (update_count (root m)) 1 ∧
      chunks m' !! c = Some ch ∧ e ∈ files ch ∧ fe_file_id e = f ∧ fe_state e = Synced ∧
      fe_crc e = default 0%N (head_crc chain')
  end.
Proof.
  intros Hinv Hr. destruct r as [[]|e].
  - destruct (record_update_Ok _ _ _ _ _ Hinv Hr) as (chain & chain' & c & ch & Hf & Ha & Hfc & Hch & ->).
    destruct Hinv as (Hc & _ & _).
    destruct (core_lookup _ _ _ Hc Hf) as (c0 & ch0 & Hfc0 & Hch0 & Hin). simplify_eq.
    apply list_elem_of_fmap in Hin as (e0 & -> & He0).
    unfold update_chunk_index. rw /= lookup_insert_eq /=.
    exists chain', c, (update_entry (fe_file_id e0) (set_crc_synced (default 0%N (head_crc chain'))) ch).
    assert (Hex : ∃ e, e ∈ files ch ∧ fe_file_id e = fe_file_id e0 ∧
      set_crc_synced (default 0%N (head_crc chain')) e ∈
      update_first (λ e, bool_decide (fe_file_id e = fe_file_id e0))
        (set_crc_synced (default 0%N (head_crc chain'))) (files ch)).
    { clear -He0. induction (files ch) as [|x l IH]; [by apply elem_of_nil in He0|]. simpl.
      case_bool_decide as Hx; [exists x; split_and!; [left|done|left]|].
      apply elem_of_cons in He0 as [->|He0]; [done|].
      destruct (IH He0) as (e & ? & ? & ?). exists e. split_and!; [by right|done|by right]. }
    destruct Hex as (e & He & Hid & Hup). eexists. split_and!; [| | |done| |exact Hup|done|done|done].
    + apply lookup_insert_eq.
    + unfold append in Ha. case_bool_decide; simpl in Ha; [|done]. by injection Ha as <-.
    + intros g ?. by rw lookup_insert_ne.
    + apply lookup_insert_eq.
  - unfold record_update in Hr. destruct (chains m !! f) as [chain|]; [|injection Hr as <- <-; by auto].
    unfold append in Hr. case_bool_decide; simpl in Hr; [done|]. injection Hr as <- <-. eauto.
Qed.

(** the diff reports exactly the changed chunks.  Against the node's own root it is
    empty; against another root it is empty when update count and catalog checksum
    agree, and otherwise its changed chunks are, in the remote's order, the chunks the
    local index does not list or lists with another checksum. *)
Theorem diff_catalog_changed_chunks m remote :
  diff_catalog m (root m) = empty_diff ∧
  changed_chunks (diff_catalog m remote) =
    if decide (update_count (root m) = update_count remote ∧ catalog_crc (root m) = catalog_crc remote)
    then [] else idx_chunk_id <$> filter (λ r, differs m r = true) (root_chunks remote).
Proof.
  split; [unfold diff_catalog; by rw !N.eqb_refl|]. unfold diff_catalog.
  destruct (_ && _) eqn:E.
  - bool_to_prop. by rw decide_True.
  - rw decide_False; [|by rw diff_loop_changed]. intros [H1%N.eqb_eq H2%N.eqb_eq].
    by rw H1 H2 in E.
Qed.

(** the integrity hash is never filled in.  Although integrity checks are to use
    [content_hash] and not the checksum, no operation of the manager ever sets it: in
    every reachable state all entries and all index entries carry the zero hash. *)
Theorem content_hash_stays_zero `{Crc32} pid chunk_max chain_max now m :
  rtc step (new_manager pid chunk_max chain_max now) m → hashes_unset m.
Proof.
  intros Hr. remember (new_manager pid chunk_max chain_max now) as m0 eqn:E.
  assert (Hinv : hashes_unset m0) by (subst; split; [by constructor|apply map_Forall_empty]). clear E.
  induction Hr as [|x y z Hs _ IH]; [done|]. apply IH. by eapply step_hashes_unset.
Qed.

(** ** Witnesses *)
Module Witness.
#[local] Existing Instances Toy.toy_crc32.
Definition m0 : CatalogManager := new_manager "p" 2 10 0.
Definition m1 : CatalogManager := (add_file "f1" "c1" 1 "a.rs" 1 100 m0).1.
Definition b1 : ChainBlock := mk_ChainBlock [x01] None 1 "A" [] 1 (TextDiff "p" 7) [].
Definition m2 : CatalogManager := (record_update "f1" b1 2 m1).1.
Definition m3 : CatalogManager := set_file_state "f1" LocalModified m2.

Lemma catalog_example_run : rtc step m0 m3.
Proof.
  eapply rtc_l; [apply (step_add m0 "f1" "c1" 1 "a.rs" 1 100); reflexivity|].
  eapply rtc_l; [apply (step_update m1 "f1" b1 2)|].
  eapply rtc_l; [apply (step_state m2 "f1" LocalModified)|]. apply rtc_refl.
Qed.
End Witness.

Lemma catalog_reachable_inv_witness : @catalog_inv Toy.toy_crc32 Witness.m3.
Proof.
  apply (@catalog_reachable_inv Toy.toy_crc32 "p" 2 10 0 Witness.m3). exact Witness.catalog_example_run.
Defined.

Lemma record_update_all_or_nothing_witness :
  ∃ chain' c ch e,
      chains Witness.m2 !! "f1" = Some chain' ∧ head chain' = Some (hash Witness.b1) ∧
      (∀ g, g ≠ "f1" → chains Witness.m2 !! g = chains Witness.m1 !! g) ∧
      update_count (root Witness.m2) = wrapping_add (update_count (root Witness.m1)) 1 ∧
      chunks Witness.m2 !! c = Some ch ∧ e ∈ files ch ∧ fe_file_id e = "f1" ∧ fe_state e = Synced ∧
      fe_crc e = default 0%N (head_crc chain').
Proof.
  apply (@record_update_all_or_nothing Toy.toy_crc32 "f1" Witness.b1 2 Witness.m1 Witness.m2 (Ok ())).
  - apply (add_file_inv "f1" "c1" 1 "a.rs" 1 100 Witness.m0); [apply new_manager_inv|reflexivity..].
  - vm_compute. reflexivity.
Defined.

Lemma content_hash_stays_zero_witness : hashes_unset Witness.m3.
Proof.
  apply (@content_hash_stays_zero Toy.toy_crc32 "p" 2 10 0 Witness.m3). exact Witness.catalog_example_run.
Defined.
