(* ===== verification/Routing.v ===== *)
(** * The Kademlia routing table

    [synergos-net/src/dht/routing.rs]: 256 k-buckets indexed by the length of the
    common prefix with the local identifier.  [Instant]s are nanosecond counts; the
    current time is the argument [now].

    The theorems: over any sequence of insertions every bucket holds at most [k]
    entries with distinct identifiers, each in the bucket of its prefix length; an
    entry heard from within the staleness threshold is never evicted; [closest]
    returns the nearest entries in order; two entries of one bucket are closer to
    each other than to the local node. *)

From S2P Require Import Prelude Crypto Types.

Definition STALE_THRESHOLD : N := 15 * 60 * 1000000000.

Record BucketEntry := mk_BucketEntry {
  node_id : NodeId;
  entry_peer_id : PeerId;
  endpoints : list Route;
  last_seen : N;
  rtt_ms : option N;
}.

Global Instance BucketEntry_eq_dec : EqDecision BucketEntry.
Proof. solve_decision. Defined.

Record KBucket := mk_KBucket {
  entries : list BucketEntry;
  last_refreshed : N;
  bucket_k : nat;
}.

Definition new_bucket (now : N) (k : nat) : KBucket := mk_KBucket [] now k.

(** [Instant::elapsed], which saturates at zero. *)
Definition elapsed (now t : N) : N := now - t.

(** [Vec::remove(pos)] at a valid position. *)
Definition remove_at {A} (i : nat) (l : list A) : list A := delete i l.

Definition upsert (now : N) (b : KBucket) (e : BucketEntry) : KBucket :=
  match position (λ x, bool_decide (node_id x = node_id e)) (entries b) with
  | Some pos =>
      match entries b !! pos with
      | Some existing =>
          mk_KBucket (remove_at pos (entries b) ++
            [mk_BucketEntry (node_id existing) (entry_peer_id existing)
               (endpoints e) (last_seen e) (rtt_ms e)]) now (bucket_k b)
      | None => b
      end
  | None =>
      if length (entries b) <? bucket_k b then
        mk_KBucket (entries b ++ [e]) now (bucket_k b)
      else
        match min_by_key last_seen (entries b) with
        | Some (oldest_idx, oldest) =>
            if (STALE_THRESHOLD <=? elapsed now (last_seen oldest))%N
            then mk_KBucket (<[oldest_idx := e]> (entries b)) now (bucket_k b)
            else b
        | None => mk_KBucket (entries b) now (bucket_k b)
        end
  end.

Definition bucket_is_full (b : KBucket) : bool := bucket_k b <=? length (entries b).

Record RoutingTable := mk_RoutingTable {
  local_id : NodeId;
  buckets : list KBucket;
}.

Definition new_table (now : N) (local_id : NodeId) (k : nat) : RoutingTable :=
  mk_RoutingTable local_id (replicate 256 (new_bucket now k)).

Definition bucket_index (t : RoutingTable) (n : NodeId) : nat :=
  leading_zeros (local_id t) n `min` 255.

Definition insert_entry (now : N) (t : RoutingTable) (e : BucketEntry) : RoutingTable :=
  mk_RoutingTable (local_id t)
    (alter (λ b, upsert now b e) (bucket_index t (node_id e)) (buckets t)).

Definition all_entries (t : RoutingTable) : list BucketEntry := buckets t ≫= entries.

(** The comparison of the sort: [target.xor_distance(a) <= target.xor_distance(b)]. *)
Definition nearer (target : NodeId) (a b : BucketEntry) : bool :=
  bytes_leb (xor_distance target (node_id a)) (xor_distance target (node_id b)).

Definition closest (t : RoutingTable) (target : NodeId) (count : nat) : list BucketEntry :=
  take count (isort (nearer target) (all_entries t)).

Definition total_nodes (t : RoutingTable) : nat := sum_list (length ∘ entries <$> buckets t).

(** ** Buckets *)
Record bucket_ok (k : nat) (b : KBucket) : Prop := {
  bucket_ok_k : bucket_k b = k;
  bucket_ok_len : length (entries b) ≤ k;
  bucket_ok_nodup : NoDup (node_id <$> entries b);
}.

Lemma insert_perm_delete {A} (l : list A) i x y :
  l !! i = Some y → <[i := x]> l ≡ₚ x :: delete i l.
Proof.
  intros Hi. rw insert_take_drop; [by eapply lookup_lt_Some|].
  rw delete_take_drop. symmetry. apply Permutation_middle.
Qed.

(** The four outcomes of [upsert]. *)
Inductive upsert_outcome (now : N) (b : KBucket) (e : BucketEntry) (b' : KBucket) : Prop :=
| upsert_known y y' rest :
    entries b ≡ₚ y :: rest → node_id y = node_id e →
    y' = mk_BucketEntry (node_id y) (entry_peer_id y) (endpoints e) (last_seen e) (rtt_ms e) →
    entries b' ≡ₚ y' :: rest → upsert_outcome now b e b'
| upsert_room :
    node_id e ∉ node_id <$> entries b → length (entries b) < bucket_k b →
    entries b' ≡ₚ e :: entries b → upsert_outcome now b e b'
| upsert_evict old rest :
    node_id e ∉ node_id <$> entries b → entries b ≡ₚ old :: rest →
    (STALE_THRESHOLD ≤ elapsed now (last_seen old))%N →
    (∀ y, y ∈ entries b → last_seen old ≤ last_seen y)%N →
    entries b' ≡ₚ e :: rest → upsert_outcome now b e b'
| upsert_drop :
    entries b' = entries b → upsert_outcome now b e b'.

Lemma upsert_cases now b e : upsert_outcome now b e (upsert now b e).
Proof.
  unfold upsert. destruct (position _ _) as [pos|] eqn:Hp.
  - apply position_Some in Hp as (y & Hy & Hk). bool_to_prop. rw Hy.
    eapply (upsert_known _ _ _ _ y); [by apply delete_Permutation|done|done|].
    simpl. unfold remove_at. by rw Permutation_app_comm.
  - assert (Hnew : node_id e ∉ node_id <$> entries b).
    { intros (x & Heq & Hx)%list_elem_of_fmap. rw position_None in Hp.
      specialize (Hp x Hx). bool_to_prop. congruence. }
    destruct (_ <? _) eqn:Hl; bool_to_prop.
    + apply upsert_room; [done..|]. simpl. by rw Permutation_app_comm.
    + destruct (min_by_key _ _) as [[i y]|] eqn:Hm; [|by apply upsert_drop].
      apply min_by_key_spec in Hm as [Hi Hmin].
      destruct (_ <=? _)%N eqn:Hs; bool_to_prop; [|by apply upsert_drop].
      eapply upsert_evict; [done|by apply delete_Permutation|done|done|].
      by eapply insert_perm_delete.
Qed.

Lemma upsert_k now b e : bucket_k (upsert now b e) = bucket_k b.
Proof. unfold upsert. by inv_result. Qed.

(** No identifier but the new one can appear. *)
Lemma upsert_elem now b e x :
  x ∈ node_id <$> entries (upsert now b e) → x ∈ node_id <$> entries b ∨ x = node_id e.
Proof.
  destruct (upsert_cases now b e) as [y y' rest Hb Hk E E'|_ _ E'|old rest _ Hb _ _ E'|E'];
    rw E' ?Hb ?E; set_solver.
Qed.

Lemma upsert_ok k now b e : bucket_ok k b → bucket_ok k (upsert now b e).
Proof.
  intros [Hk Hlen Hnd]. split; [by rw upsert_k| |];
    destruct (upsert_cases now b e) as [y y' rest Hb Hy E Hb'|Hnew Hl Hb'|old rest Hnew Hb _ _ Hb'|Hb'].
  - rw Hb' /=. rw Hb /= in Hlen. lia.
  - rw Hb' /=. lia.
  - rw Hb' /=. rw Hb /= in Hlen. lia.
  - by rw Hb'.
  - rw Hb' fmap_cons E /=. by rw Hb fmap_cons in Hnd.
  - rw Hb' fmap_cons. by constructor.
  - rw Hb' fmap_cons. rw Hb fmap_cons in Hnd. apply NoDup_cons in Hnd as [_ Hnd].
    constructor; [|done]. rw Hb in Hnew. set_solver.
  - by rw Hb'.
Qed.

(** An entry heard from within the threshold keeps its place in the bucket. *)
Lemma upsert_keeps_fresh now b e x :
  x ∈ entries b → (elapsed now (last_seen x) < STALE_THRESHOLD)%N →
  node_id x ∈ node_id <$> entries (upsert now b e).
Proof.
  intros Hx Hfresh.
  destruct (upsert_cases now b e) as [y y' rest Hb Hy E E'|Hnew Hl E'|old rest Hnew Hb Hst _ E'|E']; rw E'.
  - rw Hb in Hx. apply elem_of_cons in Hx as [->|Hx]; set_solver.
  - set_solver.
  - rw Hb in Hx. apply elem_of_cons in Hx as [->|Hx]; [lia|set_solver].
  - set_solver.
Qed.

(** ** The table *)
Record table_ok (k : nat) (t : RoutingTable) : Prop := {
  table_ok_len : length (buckets t) = 256;
  table_ok_bucket i b : buckets t !! i = Some b → bucket_ok k b;
  table_ok_index i b e : buckets t !! i = Some b → e ∈ entries b → bucket_index t (node_id e) = i;
}.

Lemma bucket_index_lt t n : bucket_index t n < 256.
Proof. unfold bucket_index. lia. Qed.

Lemma new_table_ok now lid k : table_ok k (new_table now lid k).
Proof.
  split; cbn [buckets new_table].
  - apply length_replicate.
  - intros i b [-> _]%lookup_replicate. split; simpl; [done|lia|constructor].
  - intros i b e [-> _]%lookup_replicate. set_solver.
Qed.

Lemma insert_entry_ok k now t e : table_ok k t → table_ok k (insert_entry now t e).
Proof.
  intros [Hlen Hb Hi]. split; simpl.
  - by rw length_alter.
  - intros i b Hib. apply list_alter_Some in Hib as (b0 & Hb0 & [[? ->]|[? ->]]); [|by eapply Hb].
    apply upsert_ok. by eapply Hb.
  - intros i b x Hib Hx. change (bucket_index t (node_id x) = i).
    apply list_alter_Some in Hib as (b0 & Hb0 & [[Heqi ->]|[? ->]]); [|by eapply Hi].
    assert (Hid : node_id x ∈ node_id <$> entries (upsert now b0 e)) by set_solver.
    apply upsert_elem in Hid as [(y & -> & Hy)%list_elem_of_fmap|Heq]; [by eapply Hi|].
    by rw Heq.
Qed.

(** Identifiers are distinct across the whole table. *)
Lemma table_entry_bucket k t e :
  table_ok k t → e ∈ all_entries t ↔
  ∃ b, buckets t !! bucket_index t (node_id e) = Some b ∧ e ∈ entries b.
Proof.
  intros Hok. unfold all_entries. rw list_elem_of_bind. split.
  - intros (b & He & [i Hi]%list_elem_of_lookup). exists b. by rw (table_ok_index _ _ Hok i b e).
  - intros (b & Hb & He). exists b. split; [done|]. by eapply list_elem_of_lookup_2.
Qed.

Lemma NoDup_bind_indexed {A B C} (f : A → list B) (key : B → C) (idx : C → nat) (n : nat) (l : list A) :
  (∀ i a, l !! i = Some a → NoDup (key <$> f a)) →
  (∀ i a b, l !! i = Some a → b ∈ f a → idx (key b) = n + i) →
  NoDup (key <$> (l ≫= f)).
Proof.
  revert n. induction l as [|a l IH]; intros n Hnd Hidx; [constructor|].
  rw bind_cons fmap_app. apply NoDup_app. split_and!.
  - by apply (Hnd 0).
  - intros c (b & -> & Hb)%list_elem_of_fmap (b' & Heq & Hb')%list_elem_of_fmap.
    apply list_elem_of_bind in Hb' as (a' & Hb' & [i Hi]%list_elem_of_lookup).
    pose proof (Hidx 0 a b eq_refl Hb). pose proof (Hidx (S i) a' b' Hi Hb'). rw Heq in H. lia.
  - apply (IH (S n)); [intros i a' Ha; by apply (Hnd (S i))|].
    intros i a' b Ha Hb. rw (Hidx (S i) a' b Ha Hb). lia.
Qed.

Lemma table_NoDup k t : table_ok k t → NoDup (node_id <$> all_entries t).
Proof.
  intros Hok. apply (NoDup_bind_indexed _ _ (bucket_index t) 0).
  - intros i b Hb. by eapply bucket_ok_nodup, table_ok_bucket.
  - intros i b e Hb He. by eapply table_ok_index.
Qed.

Lemma nearer_total target a b : nearer target a b = false → nearer target b a = true.
Proof. apply bytes_leb_total. Qed.
Lemma nearer_trans target a b c :
  nearer target a b = true → nearer target b c = true → nearer target a c = true.
Proof. apply bytes_leb_trans. Qed.

Lemma closest_incl t target n e : e ∈ closest t target n → e ∈ all_entries t.
Proof. unfold closest. intros He%elem_of_take. destruct He as (i & Hi & _).
  rw -(isort_perm (nearer target) (all_entries t)). by eapply list_elem_of_lookup_2.
Qed.

(** ** Properties *)

(** The table after inserting entries one by one, each at its time. *)
Definition insert_all (t : RoutingTable) (l : list (N * BucketEntry)) : RoutingTable :=
  foldl (λ t te, insert_entry te.1 t te.2) t l.

Lemma insert_all_ok k t l : table_ok k t → table_ok k (insert_all t l).
Proof.
  revert t. induction l as [|[now e] l IH]; intros t Ht; simpl; [done|].
  apply IH. by apply insert_entry_ok.
Qed.

(** the routing-table invariant.  After any sequence of insertions each of the 256
    buckets holds at most [k] entries, every entry sits in the bucket of its common
    prefix with the local node, and no node identifier occurs twice in the table. *)
Theorem routing_table_inv start lid k l :
  let t := insert_all (new_table start lid k) l in
  table_ok k t ∧ NoDup (node_id <$> all_entries t).
Proof.
  intros t. assert (Hok : table_ok k t) by (apply insert_all_ok, new_table_ok).
  split; [done|]. by eapply table_NoDup.
Qed.

(** no eviction flooding.  Whatever entry is inserted, an entry heard from within
    the staleness threshold stays in the table; a bucket that is full of such entries
    drops the newcomer. *)
Theorem fresh_entry_survives now t e x :
  x ∈ all_entries t → (elapsed now (last_seen x) < STALE_THRESHOLD)%N →
  node_id x ∈ node_id <$> all_entries (insert_entry now t e).
Proof.
  intros Hx Hfresh. unfold all_entries in *. simpl.
  apply list_elem_of_bind in Hx as (b & Hx & [i Hi]%list_elem_of_lookup).
  assert (Hkeep : ∃ b' i', alter (λ b, upsert now b e) (bucket_index t (node_id e)) (buckets t) !! i'
      = Some b' ∧ node_id x ∈ node_id <$> entries b').
  { destruct (decide (bucket_index t (node_id e) = i)) as [<-|Hne].
    - exists (upsert now b e), (bucket_index t (node_id e)). rw list_lookup_alter_eq Hi.
      split; [done|]. by apply upsert_keeps_fresh.
    - exists b, i. rw list_lookup_alter_ne //. split; [done|]. set_solver. }
  destruct Hkeep as (b' & i' & Hb' & (y & Heq & Hy)%list_elem_of_fmap).
  apply list_elem_of_fmap. exists y. split; [done|]. apply list_elem_of_bind.
  exists b'. split; [done|]. by eapply list_elem_of_lookup_2.
Qed.

(** [closest] returns the nearest nodes.  The result has [count] entries (or all,
    when there are fewer), they are entries of the table in order of their XOR
    distance to the target, and no entry left out is strictly nearer than one
    returned. *)
Theorem closest_is_nearest t target count :
  length (closest t target count) = count `min` length (all_entries t) ∧
  StronglySorted (λ a b, nearer target a b = true) (closest t target count) ∧
  ∃ rest, closest t target count ++ rest ≡ₚ all_entries t ∧
    ∀ a b, a ∈ closest t target count → b ∈ rest → nearer target a b = true.
Proof.
  unfold closest. pose proof (isort_perm (nearer target) (all_entries t)) as Hperm.
  split_and!.
  - rw length_take -(Permutation_length Hperm). done.
  - pose proof (isort_sorted (nearer target) (nearer_total _) (nearer_trans _) (all_entries t)) as Hs.
    rw -(take_drop count (isort _ _)) in Hs. by apply StronglySorted_app in Hs as (_ & ? & _).
  - exists (drop count (isort (nearer target) (all_entries t))). rw take_drop. split; [done|].
    intros a b. apply isort_take_least; [apply nearer_total|apply nearer_trans].
Qed.

(** buckets are neighbourhoods.  Two nodes of the same bucket (the last, catch-all
    one excepted) share a strictly longer prefix with each other than either shares
    with the local node, so every hop of a lookup gets strictly nearer. *)
Theorem same_bucket_nearer_to_each_other t a b :
  length (local_id t) = 32 → length a = 32 → length b = 32 →
  bucket_index t a = bucket_index t b → bucket_index t a < 255 →
  leading_zeros (local_id t) a < leading_zeros a b.
Proof.
  unfold bucket_index. intros Hl Ha Hb Heq Hlt.
  assert (Hz : leading_zeros (local_id t) a = leading_zeros (local_id t) b) by lia.
  rw (leading_zeros_bits _ a) in Hz Hlt *; [congruence|].
  rw (leading_zeros_bits _ b) in Hz; [congruence|]. rw leading_zeros_bits; [congruence|].
  apply common_prefix_fork; rw ?length_bits; lia.
Qed.

(** ** Witnesses *)
Module Witness.
Definition lid : NodeId := replicate 32 x00.
Definition n (b : byte) : NodeId := b :: replicate 31 x00.
Definition entry (b : byte) (seen : N) : BucketEntry := mk_BucketEntry (n b) "p" [] seen None.
Definition t : RoutingTable :=
  insert_all (new_table 0 lid 1) [(5, entry x80 5); (6, entry xff 6); (7, entry x40 7)]%N.
End Witness.

Lemma fresh_entry_survives_witness :
  Witness.n x80 ∈ node_id <$> all_entries (insert_entry 9 Witness.t (Witness.entry xc0 9)).
Proof.
  apply (fresh_entry_survives 9 Witness.t (Witness.entry xc0 9) (Witness.entry x80 5)).
  - apply (bool_decide_unpack _). vm_compute. exact I.
  - vm_compute. reflexivity.
Defined.

Lemma same_bucket_nearer_to_each_other_witness :
  leading_zeros Witness.lid (Witness.n xff) < leading_zeros (Witness.n xff) (Witness.n x80).
Proof.
  apply (same_bucket_nearer_to_each_other Witness.t (Witness.n xff) (Witness.n x80));
    try reflexivity.
  vm_compute. lia.
Defined.
