(* ===== verification/Dht.v ===== *)
(** * The distributed hash table

    [synergos-net/src/dht/rpc.rs], [dht/node.rs] and [dht/transport.rs]: the wire
    records and their length-prefixed frames, the bounded record store, the server's
    request handler and the iterative lookup.

    The transport of the lookup is a parameter: what peer [p] answers at hop [h]
    ([None] is an error or a timeout).  The clock is read once per hop.  A QUIC stream
    is the list of bytes its peer sent before finishing it.

    The theorems: the store never exceeds its bound and files every record under the
    identifier of its peer, over any sequence of operations; a record evicted by an
    announcement was expired or the oldest; the lookup queries a peer at most once,
    never itself and at most [alpha * max_hops] peers in all, and what it returns was
    stored or was sent by a peer it queried; a request and its response survive the
    two framings. *)

From S2P Require Import Prelude Crypto Types Routing.

(** ** Wire format *)
Inductive RouteDto :=
| DDirect (addr : SocketAddrV6) (fqdn : option string)
| DTunnel (tunnel_id hostname : string)
| DRelay (server_url room_id : string).

Definition route_to_dto (r : Route) : RouteDto :=
  match r with
  | Direct addr fqdn => DDirect addr fqdn
  | Tunnel i h => DTunnel i h
  | Relay u i => DRelay u i
  end.

Definition route_from_dto (r : RouteDto) : Route :=
  match r with
  | DDirect addr fqdn => Direct addr fqdn
  | DTunnel i h => Tunnel i h
  | DRelay u i => Relay u i
  end.

Record PeerRecordDto := mk_PeerRecordDto {
  dto_peer_id : PeerId;
  dto_display_name : string;
  dto_endpoints : list RouteDto;
  dto_active_projects : list string;
  dto_ttl_secs : N;
}.

Inductive DhtRequest :=
| FindNode (target : PeerId)
| FindProjectPeers (project_id : string)
| Announce (record : PeerRecordDto)
| Ping.

Inductive DhtResponse :=
| Nodes (exact : option PeerRecordDto) (closest : list PeerRecordDto)
| ProjectPeers (peers : list PeerRecordDto)
| AnnounceAck
| Pong
| RError (message : string).

Definition MAX_FRAME_SIZE : N := 1024 * 1024.
Definition len {A} (l : list A) : N := N.of_nat (length l).

Definition encode {A} `{Codec A} (msg : A) : result NetError bytes :=
  body ← ok_or (to_vec msg) (ESerialization "encode");
  if (MAX_FRAME_SIZE <? len body)%N then Err (ESerialization "DHT frame too large")
  else Ok (be_bytes 4 (len body) ++ body).

Definition decode {A} `{Codec A} (b : bytes) : result NetError A :=
  if length b <? 4 then Err (ESerialization "DHT frame too short")
  else
    let n := of_be_bytes (take 4 b) in
    if (MAX_FRAME_SIZE <? n)%N || negb (len b =? 4 + n)%N then
      Err (ESerialization "DHT frame length mismatch")
    else ok_or (from_slice (drop 4 b)) (ESerialization "decode").

(** ** Streams *)
Definition DHT_STREAM_MAGIC : bytes := as_bytes "DHT1".

(** [read_exact]: the bytes and what is left of the stream. *)
Definition read_exact (n : nat) (s : bytes) : result NetError (bytes * bytes) :=
  if length s <? n then Err (EQuic "DHT IO") else Ok (take n s, drop n s).

(** The length, its bound, the body, and [rpc::decode] of the reassembled frame. *)
Definition read_frame {A} `{Codec A} (too_large : string) (s : bytes) : result NetError A :=
  '(len_buf, s) ← read_exact 4 s;
  let n := of_be_bytes len_buf in
  if (MAX_FRAME_SIZE <? n)%N then Err (ESerialization too_large)
  else
    '(body, s) ← read_exact (N.to_nat n) s;
    decode (len_buf ++ body).

Definition client_send (codec : Codec DhtRequest) (req : DhtRequest) : result NetError bytes :=
  payload ← encode req; Ok (DHT_STREAM_MAGIC ++ payload).

Definition client_receive (codec : Codec DhtResponse) (s : bytes) : result NetError DhtResponse :=
  '(magic, s) ← read_exact 4 s;
  if negb (bool_decide (magic = DHT_STREAM_MAGIC)) then
    Err (ESerialization "DHT response magic mismatch")
  else read_frame "DHT response too large" s.

(** ** The node *)
Record PeerRecord := mk_PeerRecord {
  peer_id : PeerId;
  display_name : string;
  rec_endpoints : list Route;
  active_projects : list string;
  published_at : N;
  ttl : N;
}.

Definition NANOS : N := 1000000000.

Definition is_expired (now : N) (r : PeerRecord) : bool := (ttl r <? elapsed now (published_at r))%N.

Definition to_dto (r : PeerRecord) : PeerRecordDto :=
  mk_PeerRecordDto (peer_id r) (display_name r) (route_to_dto <$> rec_endpoints r)
    (active_projects r) (ttl r / NANOS).

Definition from_dto (now : N) (d : PeerRecordDto) : PeerRecord :=
  mk_PeerRecord (dto_peer_id d) (dto_display_name d) (route_from_dto <$> dto_endpoints d)
    (dto_active_projects d) now (dto_ttl_secs d * NANOS).

Record FindNodeOptions := mk_FindNodeOptions {
  max_hops : nat;
  alpha : nat;
  opt_k : nat;
}.
Definition default_options : FindNodeOptions := mk_FindNodeOptions 4 3 20.

Definition DHT_STORE_MAX : nat := 10000.

Record DhtNode := mk_DhtNode {
  local_peer_id : PeerId;
  dht_node_id : NodeId;
  routing_table : RoutingTable;
  store : gmap NodeId PeerRecord;
}.

Definition with_store (s : gmap NodeId PeerRecord) (n : DhtNode) : DhtNode :=
  mk_DhtNode (local_peer_id n) (dht_node_id n) (routing_table n) s.

Section node.
Context `{Blake3, !MapIter NodeId PeerRecord}.

Definition new_node (now : N) (local : PeerId) (k_bucket_size : nat) : DhtNode :=
  let nid := node_id_from_peer_id local in
  mk_DhtNode local nid (new_table now nid k_bucket_size) ∅.

Definition find_peer_local (now : N) (n : DhtNode) (p : PeerId) : option PeerRecord :=
  match store n !! node_id_from_peer_id p with
  | Some r => if is_expired now r then None else Some r
  | None => None
  end.

Definition gc_expired (now : N) (n : DhtNode) : DhtNode :=
  with_store (filter (λ kr, is_expired now kr.2 = false) (store n)) n.

(** The eviction step of [announce]. *)
Definition make_room (now : N) (nid : NodeId) (n : DhtNode) : DhtNode :=
  if (DHT_STORE_MAX <=? size (store n)) && bool_decide (store n !! nid = None) then
    let n := gc_expired now n in
    if DHT_STORE_MAX <=? size (store n) then
      match min_by_key (λ kr, published_at kr.2) (map_iter (store n)) with
      | Some (_, (oldest_key, _)) => with_store (delete oldest_key (store n)) n
      | None => n
      end
    else n
  else n.

Definition announce (now : N) (n : DhtNode) (r : PeerRecord) : DhtNode :=
  let nid := node_id_from_peer_id (peer_id r) in
  let n := make_room now nid n in
  with_store (<[nid := r]> (store n)) n.

Definition add_peer (now : N) (n : DhtNode) (p : PeerId) (eps : list Route) (rtt : option N) : DhtNode :=
  let e := mk_BucketEntry (node_id_from_peer_id p) p eps now rtt in
  mk_DhtNode (local_peer_id n) (dht_node_id n) (insert_entry now (routing_table n) e) (store n).

Definition closest_peers (n : DhtNode) (target : NodeId) (count : nat) : list PeerId :=
  entry_peer_id <$> closest (routing_table n) target count.

Definition total_known_peers (n : DhtNode) : nat := total_nodes (routing_table n).

Definition find_project_peers (now : N) (n : DhtNode) (project : string) : list PeerRecord :=
  filter (λ r, is_expired now r = false ∧ project ∈ active_projects r) ((map_iter (store n)).*2).

Definition handle_request (now : N) (n : DhtNode) (req : DhtRequest) : DhtNode * DhtResponse :=
  match req with
  | Ping => (n, Pong)
  | FindNode target =>
      let exact := to_dto <$> find_peer_local now n target in
      let closest_ids := closest_peers n (node_id_from_peer_id target) 20 in
      let closest := omap (λ p, to_dto <$> store n !! node_id_from_peer_id p) closest_ids in
      (n, Nodes exact closest)
  | FindProjectPeers project => (n, ProjectPeers (to_dto <$> find_project_peers now n project))
  | Announce d =>
      let n := announce now n (from_dto now d) in
      (add_peer now n (dto_peer_id d) (route_from_dto <$> dto_endpoints d) None, AnnounceAck)
  end.

(** [handle_dht_stream], the magic already consumed by the dispatcher. *)
Definition handle_dht_stream (req_codec : Codec DhtRequest) (resp_codec : Codec DhtResponse)
    (now : N) (n : DhtNode) (s : bytes) : result NetError (DhtNode * bytes) :=
  req ← read_frame "DHT request too large" s;
  let '(n, resp) := handle_request now n req in
  out ← encode resp;
  Ok (n, DHT_STREAM_MAGIC ++ out).

(** *** The iterative lookup *)
Section lookup.
Variable transport : nat → PeerId → DhtRequest → option DhtResponse.
Variable clock : nat → N.
Variable target : PeerId.
Variable opts : FindNodeOptions.

(** The records of one [closest] answer: routing table and candidate list. *)
Fixpoint add_closest (now : N) (queried : gset PeerId) (n : DhtNode) (cands : list PeerId)
    (dtos : list PeerRecordDto) : DhtNode * list PeerId :=
  match dtos with
  | [] => (n, cands)
  | d :: dtos =>
      let r := from_dto now d in
      let pid := peer_id r in
      let n := add_peer now n pid (rec_endpoints r) None in
      let cands :=
        if negb (bool_decide (pid ∈ queried)) && negb (bool_decide (pid ∈ cands))
        then cands ++ [pid] else cands in
      add_closest now queried n cands dtos
  end.

(** The answers of one round; [Some] record is the early return. *)
Fixpoint process_responses (now : N) (queried : gset PeerId) (n : DhtNode) (cands : list PeerId)
    (rs : list DhtResponse) : DhtNode * list PeerId * option PeerRecord :=
  match rs with
  | [] => (n, cands, None)
  | Nodes (Some d) _ :: _ =>
      let r := from_dto now d in (announce now n r, cands, Some r)
  | Nodes None closest :: rs =>
      let '(n, cands) := add_closest now queried n cands closest in
      process_responses now queried n cands rs
  | _ :: rs => process_responses now queried n cands rs
  end.

(** The order of the candidates: distance of their identifiers to the target's. *)
Definition cand_le (a b : PeerId) : bool :=
  bytes_leb (xor_distance (node_id_from_peer_id a) (node_id_from_peer_id target))
            (xor_distance (node_id_from_peer_id b) (node_id_from_peer_id target)).

(** [for hop in 0..max_hops]; the third component lists the peers queried, in order. *)
Fixpoint hops (fuel hop : nat) (n : DhtNode) (queried : gset PeerId) (cands sent : list PeerId) :
    DhtNode * list PeerId * option PeerRecord :=
  match fuel with
  | O => (n, sent, find_peer_local (clock hop) n target)
  | S fuel =>
      match cands with
      | [] => (n, sent, find_peer_local (clock hop) n target)
      | _ =>
          let round := take (alpha opts) cands in
          let queried := queried ∪ list_to_set round in
          let responses := omap (λ p, transport hop p (FindNode target)) round in
          match process_responses (clock hop) queried n [] responses with
          | (n, _, Some r) => (n, sent ++ round, Some r)
          | (n, cands, None) =>
              hops fuel (S hop) n queried (take (opt_k opts) (isort cand_le cands)) (sent ++ round)
          end
      end
  end.

Definition find_peer_iterative (n : DhtNode) : DhtNode * list PeerId * option PeerRecord :=
  match find_peer_local (clock 0) n target with
  | Some r => (n, [], Some r)
  | None =>
      let queried := {[ local_peer_id n ]} in
      let cands := filter (λ p, p ∉ queried)
        (closest_peers n (node_id_from_peer_id target) (alpha opts `max` 1)) in
      hops (max_hops opts) 0 n queried cands []
  end.
End lookup.
End node.

(** ** Framing *)
Lemma be_bytes_len_round {A} (l : list A) :
  (len l ≤ MAX_FRAME_SIZE)%N → of_be_bytes (be_bytes 4 (len l)) = len l.
Proof. intros Hl. apply of_be_bytes_be_bytes. unfold MAX_FRAME_SIZE in *. cbn. lia. Qed.

Lemma encode_Ok {A} `{Codec A} (msg : A) b :
  encode msg = Ok b ↔
  ∃ body, to_vec msg = Some body ∧ (len body ≤ MAX_FRAME_SIZE)%N ∧ b = be_bytes 4 (len body) ++ body.
Proof.
  unfold encode. destruct (to_vec msg) as [body|]; simpl; [|naive_solver].
  destruct (_ <? _)%N eqn:E; bool_to_prop.
  - split; [done|]. intros (? & [= <-] & ? & _). lia.
  - split; [intros [= <-]; eauto|]. by intros (? & [= <-] & _ & ->).
Qed.

Lemma decode_frame {A} `{Codec A, !CodecLaws A} (msg : A) body :
  to_vec msg = Some body → (len body ≤ MAX_FRAME_SIZE)%N →
  decode (be_bytes 4 (len body) ++ body) = Ok msg.
Proof.
  intros Hb Hl. unfold decode. rw length_app length_be_bytes.
  destruct (4 + length body <? 4) eqn:E; bool_to_prop; [lia|].
  rw take_app_length' ?length_be_bytes // drop_app_length' ?length_be_bytes // be_bytes_len_round //.
  assert ((MAX_FRAME_SIZE <? len body)%N = false) as -> by (apply N.ltb_ge; lia).
  assert (len (be_bytes 4 (len body) ++ body) =? 4 + len body = true)%N as ->.
  { apply N.eqb_eq. unfold len. rw length_app length_be_bytes. lia. }
  simpl. by rw (from_slice_to_vec _ _ Hb).
Qed.

Lemma read_frame_encoded {A} `{Codec A, !CodecLaws A} (msg : A) b t :
  encode msg = Ok b → read_frame t b = Ok msg.
Proof.
  intros (body & Hb & Hl & ->)%encode_Ok. unfold read_frame, read_exact.
  rw length_app length_be_bytes. destruct (4 + length body <? 4) eqn:E; bool_to_prop; [lia|]. simpl.
  rw take_app_length' ?length_be_bytes // drop_app_length' ?length_be_bytes // be_bytes_len_round //.
  assert ((MAX_FRAME_SIZE <? len body)%N = false) as -> by (apply N.ltb_ge; lia).
  unfold len at 1 2 3. rw Nat2N.id Nat.ltb_irrefl /= take_ge //. by apply decode_frame.
Qed.

(** ** The record store *)
Section store.
Context `{Blake3, !MapIter NodeId PeerRecord, !MapIterLaws NodeId PeerRecord}.

Record node_ok (k : nat) (n : DhtNode) : Prop := {
  ok_size : size (store n) ≤ DHT_STORE_MAX;
  ok_key nid r : store n !! nid = Some r → nid = node_id_from_peer_id (peer_id r);
  ok_table : table_ok k (routing_table n);
  ok_entry e : e ∈ all_entries (routing_table n) → node_id e = node_id_from_peer_id (entry_peer_id e);
}.

Lemma store_max_pos : 0 < DHT_STORE_MAX.
Proof. apply Nat.ltb_lt. vm_compute. reflexivity. Qed.

#[local] Opaque DHT_STORE_MAX.

Lemma make_room_rest now nid n :
  local_peer_id (make_room now nid n) = local_peer_id n ∧
  routing_table (make_room now nid n) = routing_table n.
Proof. unfold make_room. by inv_result. Qed.

(** Records only leave the store; each one that left had expired or was the oldest of
    those that had not. *)
Lemma make_room_store now nid n k r :
  store n !! k = Some r →
  store (make_room now nid n) !! k = Some r ∨
  (store (make_room now nid n) !! k = None ∧ DHT_STORE_MAX ≤ size (store n) ∧
   (is_expired now r = true ∨
    ∀ k' r', store n !! k' = Some r' → is_expired now r' = false → (published_at r ≤ published_at r')%N)).
Proof.
  intros Hk. unfold make_room. destruct (_ && _) eqn:E; [|by left]. bool_to_prop.
  destruct (is_expired now r) eqn:Hr.
  - right. destruct (_ <=? _); [destruct (min_by_key _ _) as [[i [k0 r0]]|]|]; simpl;
      (split_and!; [|done|by left]); rw ?lookup_delete_None; try right;
      apply map_lookup_filter_None; right; intros x; rewrite Hk; intros [= <-]; simpl; congruence.
  - assert (Hf : store (gc_expired now n) !! k = Some r) by by apply map_lookup_filter_Some.
    destruct (_ <=? _); [|by left]. destruct (min_by_key _ _) as [[i [k0 r0]]|] eqn:Hm; [|by left].
    apply min_by_key_spec in Hm as [Hi%list_elem_of_lookup_2 Hmin]. apply elem_of_map_iter in Hi.
    simpl. destruct (decide (k0 = k)) as [->|Hne].
    + right. split_and!; [by rw lookup_delete_eq|done|]. right. intros k' r' Hk' Hr'.
      assert (r0 = r) as -> by congruence.
      apply (Hmin (k', r')). apply elem_of_map_iter. by apply map_lookup_filter_Some.
    + left. by rw lookup_delete_ne.
Qed.

Lemma make_room_subseteq now nid n k r :
  store (make_room now nid n) !! k = Some r → store n !! k = Some r.
Proof.
  unfold make_room. inv_result; rw ?lookup_delete_Some ?map_lookup_filter_Some; naive_solver.
Qed.

Lemma size_insert_le (s : gmap NodeId PeerRecord) k r :
  size (<[k := r]> s) = (if decide (is_Some (s !! k)) then size s else S (size s)).
Proof.
  case_decide as Hs; [by apply map_size_insert_Some|].
  apply map_size_insert_None. by apply eq_None_not_Some.
Qed.

Lemma size_filter_le (P : NodeId * PeerRecord → Prop) `{∀ x, Decision (P x)} (s : gmap NodeId PeerRecord) :
  size (filter P s) ≤ size s.
Proof. apply map_subseteq_size, map_filter_subseteq. Qed.

Lemma announce_size now n r :
  size (store n) ≤ DHT_STORE_MAX → size (store (announce now n r)) ≤ DHT_STORE_MAX.
Proof.
  intros Hsz. unfold announce. simpl. rw size_insert_le.
  set (nid := node_id_from_peer_id (peer_id r)). pose proof store_max_pos.
  unfold make_room. destruct (_ && _) eqn:E; simpl.
  - bool_to_prop. destruct (_ <=? _) eqn:E2; simpl; bool_to_prop; [|case_decide; lia].
    pose proof (size_filter_le (λ kr, is_expired now kr.2 = false) (store n)) as Hle.
    destruct (min_by_key _ _) as [[i [k0 r0]]|] eqn:Hm; simpl.
    + apply min_by_key_spec in Hm as [Hi%list_elem_of_lookup_2 _]. apply elem_of_map_iter in Hi.
      simpl in Hi, E2. rw (map_size_delete_Some (M:=gmap NodeId)); [by eexists|]. case_decide; lia.
    + apply min_by_key_None in Hm. apply (f_equal length) in Hm. rw length_map_iter /= in Hm.
      simpl in *. lia.
  - apply andb_false_iff in E. case_decide as Hin; [done|].
    destruct E as [E|E]; bool_to_prop; [lia|]. destruct (store n !! nid); [|done].
    exfalso. by apply Hin.
Qed.

Lemma announce_ok k now n r : node_ok k n → node_ok k (announce now n r).
Proof.
  intros [Hsz Hkey Ht He]. split.
  - by apply announce_size.
  - intros nid x. simpl. intros [[<- <-]|[_ Hx]]%lookup_insert_Some; [done|].
    eapply Hkey. by eapply make_room_subseteq.
  - simpl. by rw (proj2 (make_room_rest _ _ _)).
  - simpl. by rw (proj2 (make_room_rest _ _ _)).
Qed.

Lemma gc_expired_ok k now n : node_ok k n → node_ok k (gc_expired now n).
Proof.
  intros [Hsz Hkey Ht He]. split; [|intros nid r [? _]%map_lookup_filter_Some; auto|done..].
  simpl. etrans; [apply size_filter_le|done].
Qed.

(** Every entry of the table after an insertion is an old one, the new one, or an old
    one refreshed. *)
Lemma insert_entry_elem now t e x :
  x ∈ all_entries (insert_entry now t e) →
  x = e ∨ ∃ y, y ∈ all_entries t ∧ node_id x = node_id y ∧ entry_peer_id x = entry_peer_id y.
Proof.
  unfold all_entries. simpl. intros (b & Hx & [i Hi]%list_elem_of_lookup)%list_elem_of_bind.
  apply list_alter_Some in Hi as (b0 & Hb0 & Hcase).
  assert (Hin : ∀ y, y ∈ entries b0 → y ∈ buckets t ≫= entries).
  { intros y Hy. apply list_elem_of_bind. exists b0. split; [done|]. by eapply list_elem_of_lookup_2. }
  destruct Hcase as [[_ ->]|[_ ->]]; [|right; eauto].
  destruct (upsert_cases now b0 e) as [y y' rest Hb Hy E E'|_ _ E'|old rest _ Hb _ _ E'|E'];
    rw E' in Hx; try (apply elem_of_cons in Hx as [->|Hx]); try (by left); right.
  - exists y. rw E. split_and!; [|done..]. apply Hin. rw Hb. left.
  - exists x. split_and!; [|done..]. apply Hin. rw Hb. by right.
  - eauto.
  - exists x. split_and!; [|done..]. apply Hin. rw Hb. by right.
  - eauto.
Qed.

Lemma add_peer_ok k now n p eps rtt : node_ok k n → node_ok k (add_peer now n p eps rtt).
Proof.
  intros [Hsz Hkey Ht He]. split; simpl; [done|done|by apply insert_entry_ok|].
  intros x [->|(y & Hy & -> & ->)]%insert_entry_elem; [done|by apply He].
Qed.

Lemma new_node_ok now p k : node_ok k (new_node now p k).
Proof.
  split; simpl.
  - rw map_size_empty. lia.
  - intros nid r. by rw lookup_empty.
  - apply new_table_ok.
  - intros e. unfold all_entries. cbn [buckets new_table].
    intros (b & He & Hb)%list_elem_of_bind. apply elem_of_replicate in Hb as [-> _]. set_solver.
Qed.

Lemma handle_request_ok k now n req : node_ok k n → node_ok k (handle_request now n req).1.
Proof. intros Hn. destruct req; simpl; [done..| |done]. by apply add_peer_ok, announce_ok. Qed.

Lemma add_closest_ok k now q n cs ds : node_ok k n → node_ok k (add_closest now q n cs ds).1.
Proof.
  revert n cs. induction ds as [|d ds IH]; intros n cs Hn; simpl; [done|].
  by apply IH, add_peer_ok.
Qed.

Lemma process_responses_ok k now q n cs rs :
  node_ok k n → node_ok k (process_responses now q n cs rs).1.1.
Proof.
  revert n cs. induction rs as [|r rs IH]; intros n cs Hn; simpl; [done|].
  destruct r as [[d|] cl| | | |]; simpl; try by apply IH.
  - by apply announce_ok.
  - pose proof (add_closest_ok k now q n cs cl Hn). destruct (add_closest _ _ _ _ _). by apply IH.
Qed.
End store.

(** ** The lookup *)
Section lookup_lemmas.
Context `{Blake3, !MapIter NodeId PeerRecord}.

(** Candidates are distinct and not yet queried. *)
Definition cands_ok (queried : gset PeerId) (cs : list PeerId) : Prop :=
  NoDup cs ∧ ∀ p, p ∈ cs → p ∉ queried.

Lemma add_closest_cands now q n cs ds :
  cands_ok q cs → cands_ok q (add_closest now q n cs ds).2.
Proof.
  revert n cs. induction ds as [|d ds IH]; intros n cs Hcs; simpl; [done|]. apply IH.
  destruct (_ && _) eqn:E; [|done]. bool_to_prop. destruct Hcs as [Hnd Hq]. split.
  - apply NoDup_app. split_and!; [done| |apply NoDup_singleton].
    by intros x Hx ->%list_elem_of_singleton.
  - intros p [?| ->%list_elem_of_singleton]%elem_of_app; auto.
Qed.

Lemma process_responses_cands now q n cs rs :
  cands_ok q cs → cands_ok q (process_responses now q n cs rs).1.2.
Proof.
  revert n cs. induction rs as [|r rs IH]; intros n cs Hcs; simpl; [done|].
  destruct r as [[d|] cl| | | |]; simpl; try by apply IH.
  - done.
  - pose proof (add_closest_cands now q n cs cl Hcs). destruct (add_closest _ _ _ _ _). by apply IH.
Qed.

Lemma process_responses_exact now q n cs rs r :
  (process_responses now q n cs rs).2 = Some r →
  ∃ d cl, Nodes (Some d) cl ∈ rs ∧ r = from_dto now d ∧
    store (process_responses now q n cs rs).1.1 !! node_id_from_peer_id (peer_id r) = Some r.
Proof.
  revert n cs. induction rs as [|x rs IH]; intros n cs; [done|]. cbn [process_responses].
  assert (Hskip : ∀ n' cs', (process_responses now q n' cs' rs).2 = Some r →
    ∃ d cl, Nodes (Some d) cl ∈ x :: rs ∧ r = from_dto now d ∧
      store (process_responses now q n' cs' rs).1.1 !! node_id_from_peer_id (peer_id r) = Some r).
  { intros n' cs' Hr. destruct (IH _ _ Hr) as (d & cl & ? & ? & ?). exists d, cl.
    split_and!; [by right|done..]. }
  destruct x as [[d|] cl| | | |]; try by apply Hskip.
  - simpl. intros [= <-]. exists d, cl. split_and!; [left|done|]. apply lookup_insert_eq.
  - destruct (add_closest _ _ _ _ _). by apply Hskip.
Qed.

Lemma add_closest_local now q n cs ds :
  local_peer_id (add_closest now q n cs ds).1 = local_peer_id n.
Proof. revert n cs. induction ds as [|d ds IH]; intros n cs; simpl; [done|]. by rw IH. Qed.

Lemma cands_ok_sort target q cs k : cands_ok q cs → cands_ok q (take k (isort (cand_le target) cs)).
Proof.
  intros [Hnd Hq]. pose proof (isort_perm (cand_le target) cs) as Hp. split.
  - eapply sublist_NoDup; [|apply sublist_take]. by rw Hp.
  - intros p (i & Hi%list_elem_of_lookup_2 & _)%elem_of_take. apply Hq. by rw -Hp.
Qed.

Variable transport : nat → PeerId → DhtRequest → option DhtResponse.
Variable clock : nat → N.
Variable target : PeerId.
Variable opts : FindNodeOptions.

(** Where a result comes from. *)
Definition result_origin (n' : DhtNode) (sent : list PeerId) (r : PeerRecord) : Prop :=
  (∃ h, find_peer_local (clock h) n' target = Some r) ∨
  (∃ h p d cl, p ∈ sent ∧ transport h p (FindNode target) = Some (Nodes (Some d) cl) ∧
     r = from_dto (clock h) d ∧ store n' !! node_id_from_peer_id (peer_id r) = Some r).

Lemma hops_spec fuel : ∀ h n q cs sent n' sent' res,
  hops transport clock target opts fuel h n q cs sent = (n', sent', res) →
  cands_ok q cs → NoDup sent → (∀ p, p ∈ sent → p ∈ q) →
  NoDup sent' ∧ length sent' ≤ length sent + fuel * alpha opts ∧
  (∀ p, p ∈ q → p ∈ sent' → p ∈ sent) ∧
  (∀ r, res = Some r → result_origin n' sent' r).
Proof.
  induction fuel as [|fuel IH]; intros h n q cs sent n' sent' res; simpl.
  { intros [= <- <- <-] _ Hnd _. split_and!; [done|lia|done|]. intros r Hr. left. eauto. }
  destruct cs as [|c cs'] eqn:Hcs.
  { intros [= <- <- <-] _ Hnd _. split_and!; [done|lia|done|]. intros r Hr. left. eauto. }
  clear Hcs. set (round := take (alpha opts) (c :: cs')).
  set (rs := omap (λ p, transport h p (FindNode target)) round). set (q' := q ∪ list_to_set round). intros Hrun [Hnd Hq] Hsnd Hsq.
  assert (Hround : NoDup round ∧ ∀ p, p ∈ round → p ∉ q).
  { split; [eapply (sublist_NoDup _ (c :: cs')); [done|apply sublist_take]|].
    intros p (i & Hi%list_elem_of_lookup_2 & _)%elem_of_take. auto. }
  destruct Hround as [Hrnd Hrq].
  assert (Hnd' : NoDup (sent ++ round)).
  { apply NoDup_app. split_and!; [done| |done]. intros p Hp Hpr. by apply (Hrq p), Hsq. }
  assert (Hlen : length round ≤ alpha opts) by (unfold round; rw length_take; lia).
  assert (Hin' : ∀ p, p ∈ sent ++ round → p ∈ q').
  { intros p. unfold q'. rw elem_of_app elem_of_union elem_of_list_to_set. naive_solver. }
  pose proof (process_responses_cands (clock h) q' n [] rs) as Hpc.
  pose proof (process_responses_exact (clock h) q' n [] rs) as Hex.
  destruct (process_responses (clock h) q' n [] rs) as [[n1 cs1] [r|]]; simpl in *.
  - injection Hrun as <- <- <-. split_and!; [done|rw length_app; lia| |].
    + intros p Hpq [?|Hp]%elem_of_app; [done|]. by destruct (Hrq p Hp).
    + intros r' [= <-]. right. destruct (Hex r eq_refl) as (d & cl & Hin & Hr & Hst).
      apply list_elem_of_omap in Hin as (p & Hp & Ht). exists h, p, d, cl.
      split_and!; [|done..]. apply elem_of_app. by right.
  - apply IH in Hrun as (H1 & H2 & H3 & H4); [|apply cands_ok_sort, Hpc; split; [constructor|set_solver]|done|done].
    split_and!; [done|rw length_app in H2; lia| |done].
    intros p Hpq Hp. assert (p ∈ sent ++ round) as [?|Hpr]%elem_of_app; [|done|].
    + apply H3; [|done]. unfold q'. set_solver.
    + by destruct (Hrq p Hpr).
Qed.
End lookup_lemmas.

Lemma closest_peers_NoDup `{Blake3} k n target count :
  node_ok k n → NoDup (closest_peers n target count).
Proof.
  intros Hok. unfold closest_peers.
  assert (Hnd : NoDup (node_id <$> closest (routing_table n) target count)).
  { unfold closest. eapply sublist_NoDup; [|apply fmap_sublist, sublist_take].
    rw (isort_perm (nearer target)). eapply table_NoDup, ok_table, Hok. }
  apply (NoDup_fmap_1 node_id_from_peer_id). rw -list_fmap_compose.
  erewrite list_fmap_ext; [exact Hnd|]. intros i e He%list_elem_of_lookup_2. simpl.
  symmetry. apply (ok_entry _ _ Hok). by eapply closest_incl.
Qed.

(** ** Properties *)

(** One operation of the node; a lookup against an arbitrary transport included. *)
Inductive node_step `{Blake3, !MapIter NodeId PeerRecord} (n : DhtNode) : DhtNode → Prop :=
| ns_request now req : node_step n (handle_request now n req).1
| ns_announce now r : node_step n (announce now n r)
| ns_add now p eps rtt : node_step n (add_peer now n p eps rtt)
| ns_gc now : node_step n (gc_expired now n)
| ns_lookup transport clock target opts :
    node_step n (find_peer_iterative transport clock target opts n).1.1.

Lemma hops_ok `{Blake3, !MapIter NodeId PeerRecord, !MapIterLaws NodeId PeerRecord}
    k transport clock target opts fuel h n q cs sent :
  node_ok k n → node_ok k (hops transport clock target opts fuel h n q cs sent).1.1.
Proof.
  revert h n q cs sent. induction fuel as [|fuel IH]; intros h n q cs sent Hn; simpl; [done|].
  destruct cs as [|c cs]; [done|].
  match goal with |- context [process_responses ?a ?b ?c ?d ?e] =>
    pose proof (process_responses_ok k a b c d e Hn) as Hp;
    destruct (process_responses a b c d e) as [[n1 cs1] [r|]] end; simpl in *; [done|].
  by apply IH.
Qed.

Lemma node_step_ok `{Blake3, !MapIter NodeId PeerRecord, !MapIterLaws NodeId PeerRecord} k n n' :
  node_ok k n → node_step n n' → node_ok k n'.
Proof.
  intros Hn []; [by apply handle_request_ok|by apply announce_ok|by apply add_peer_ok
    |by apply gc_expired_ok|].
  unfold find_peer_iterative. destruct (find_peer_local _ _ _); [done|]. by apply hops_ok.
Qed.

(** the node invariant.  In every state reachable by serving requests, announcing,
    adding peers, collecting garbage and looking up peers against arbitrary (also
    hostile) transports: the store holds at most [DHT_STORE_MAX] records, each under
    the identifier of its own peer, and the routing table keeps its invariant with
    every entry's identifier derived from its peer. *)
Theorem dht_node_inv `{Blake3, !MapIter NodeId PeerRecord, !MapIterLaws NodeId PeerRecord}
    now local k n :
  rtc node_step (new_node now local k) n → node_ok k n.
Proof.
  intros Hr. remember (new_node now local k) as n0 eqn:E.
  assert (Hn : node_ok k n0) by (subst; apply new_node_ok). clear E.
  induction Hr as [|x y z Hs _ IH]; [done|]. apply IH. by eapply node_step_ok.
Qed.

(** what an announcement may displace.  The announced record is stored under its
    identifier; any other record stays as it was, or it left because the store was full
    and it had expired or no unexpired record was older. *)
Theorem announce_displaces_oldest `{Blake3, !MapIter NodeId PeerRecord, !MapIterLaws NodeId PeerRecord}
    now n r k x :
  store n !! k = Some x → k ≠ node_id_from_peer_id (peer_id r) →
  store (announce now n r) !! node_id_from_peer_id (peer_id r) = Some r ∧
  (store (announce now n r) !! k = Some x ∨
   (store (announce now n r) !! k = None ∧ DHT_STORE_MAX ≤ size (store n) ∧
    (is_expired now x = true ∨
     ∀ k' y, store n !! k' = Some y → is_expired now y = false → (published_at x ≤ published_at y)%N))).
Proof.
  intros Hk Hne. unfold announce. simpl. split; [apply lookup_insert_eq|].
  rw lookup_insert_ne //. by apply make_room_store.
Qed.

(** the lookup is bounded and honest.  However the other peers answer,
    [find_peer_iterative] queries no peer twice, never queries the node itself and
    sends at most [alpha * max_hops] requests; a record it returns is unexpired in the
    local store or was sent as an exact answer by a peer it queried, and is then stored
    under its identifier. *)
Theorem lookup_bounded `{Blake3, !MapIter NodeId PeerRecord} k n transport clock target opts n' sent res :
  node_ok k n → find_peer_iterative transport clock target opts n = (n', sent, res) →
  NoDup sent ∧ local_peer_id n ∉ sent ∧ length sent ≤ alpha opts * max_hops opts ∧
  (∀ r, res = Some r → result_origin transport clock target n' sent r).
Proof.
  intros Hok. unfold find_peer_iterative.
  destruct (find_peer_local (clock 0) n target) as [r|] eqn:Hl.
  { intros [= <- <- <-]. split_and!; [constructor|set_solver|simpl; lia|].
    intros r' [= <-]. left. eauto. }
  intros Hrun. apply hops_spec in Hrun as (H1 & H2 & H3 & H4).
  - split_and!; [done| |simpl in H2; lia|done]. intros Hin.
    apply H3 in Hin; [by apply elem_of_nil in Hin|set_solver].
  - split; [|intros p Hp; by apply list_elem_of_filter in Hp as [? _]].
    apply NoDup_filter. by eapply closest_peers_NoDup.
  - constructor.
  - set_solver.
Qed.

(** the RPC survives its framings.  Whatever the client sends, the server that reads
    the stream after the magic decodes that very request, and the client decodes the
    very response the server computed; the server's state is the one its handler left. *)
Theorem dht_rpc_roundtrip `{Blake3, !MapIter NodeId PeerRecord}
    (rc : Codec DhtRequest) (pc : Codec DhtResponse)
    `{!CodecLaws DhtRequest, !CodecLaws DhtResponse} now n req sent n' answer :
  client_send rc req = Ok sent →
  handle_dht_stream rc pc now n (drop 4 sent) = Ok (n', answer) →
  take 4 sent = DHT_STREAM_MAGIC ∧ n' = (handle_request now n req).1 ∧
  client_receive pc answer = Ok (handle_request now n req).2.
Proof.
  unfold client_send, handle_dht_stream. intros Hs Hh.
  destruct (encode req) as [p|] eqn:Hp; simpl in Hs; [|done]. injection Hs as <-.
  change (drop 4 (DHT_STREAM_MAGIC ++ p)) with p in Hh.
  rw (read_frame_encoded _ _ _ Hp) /= in Hh.
  destruct (handle_request now n req) as [n1 resp]. simpl.
  destruct (encode resp) as [o|] eqn:Ho; simpl in Hh; [|done]. injection Hh as <- <-.
  split_and!; [done|done|]. unfold client_receive, read_exact. simpl.
  rw drop_0. by apply read_frame_encoded.
Qed.

(** ** Witnesses and a concrete network *)
Module Witness.
#[local] Existing Instances Toy.toy_blake3.
#[local] Instance iter : MapIter NodeId PeerRecord := toy_iter.

Definition dto (p : PeerId) : PeerRecordDto := mk_PeerRecordDto p p [] ["proj"] 60.
Definition rec (now : N) (p : PeerId) : PeerRecord := from_dto now (dto p).
Definition n0 : DhtNode := new_node 0 "me" 20.
Definition n1 : DhtNode := add_peer 1 n0 "boot" [] None.

(** The bootstrap peer knows two peers; only the one farther from the target ("b" or
    "c", whichever the digest puts second) can answer. *)
Definition near : PeerId := if cand_le "target" "b" "c" then "b" else "c".
Definition far : PeerId := if cand_le "target" "b" "c" then "c" else "b".
Definition network (h : nat) (p : PeerId) (r : DhtRequest) : option DhtResponse :=
  if bool_decide (p = "boot") then Some (Nodes None [dto "b"; dto "c"])
  else if bool_decide (p = far) then Some (Nodes (Some (dto "target")) [])
  else Some (Nodes None []).
Definition clock (h : nat) : N := N.of_nat (2 + h).

Definition req_codec : Codec DhtRequest := {|
  to_vec r := match r with FindNode t => Some (x02 :: as_bytes t) | Ping => Some [x01] | _ => None end;
  from_slice b := match b with
    | [x01] => Some Ping
    | x02 :: t => Some (FindNode (String.string_of_list_byte t))
    | _ => None end;
|}.
Lemma dht_req_codec_laws : @CodecLaws DhtRequest req_codec.
Proof.
  intros [] b; simpl; try done; intros [= <-]; [|done].
  unfold as_bytes. by rw String.string_of_list_byte_of_string.
Qed.
Definition resp_codec : Codec DhtResponse := {|
  to_vec r := match r with Nodes None [] => Some [x02] | Pong => Some [x01] | _ => None end;
  from_slice b := match b with [x01] => Some Pong | [x02] => Some (Nodes None []) | _ => None end;
|}.
Lemma dht_resp_codec_laws : @CodecLaws DhtResponse resp_codec.
Proof. intros [[|] []| | | |] b; simpl; try done; by intros [= <-]. Qed.

Lemma dht_example_run : rtc node_step n0 (announce 3 n1 (rec 3 "x")).
Proof.
  eapply rtc_l; [apply (ns_add n0 1 "boot" [] None)|].
  eapply rtc_l; [apply (ns_announce n1 3 (rec 3 "x"))|]. apply rtc_refl.
Qed.

#[local] Instance iter_laws : MapIterLaws NodeId PeerRecord := toy_iter_laws.
Lemma n1_ok : node_ok 20 n1.
Proof. apply add_peer_ok, new_node_ok. Qed.
End Witness.

Lemma dht_node_inv_witness : @node_ok Toy.toy_blake3 20
  (@announce Toy.toy_blake3 Witness.iter 3 Witness.n1 (Witness.rec 3 "x")).
Proof.
  apply (@dht_node_inv Toy.toy_blake3 Witness.iter toy_iter_laws 0 "me" 20).
  exact Witness.dht_example_run.
Defined.

Lemma announce_displaces_oldest_witness :
  let n := @announce Toy.toy_blake3 Witness.iter 3 Witness.n1 (Witness.rec 3 "x") in
  let n' := @announce Toy.toy_blake3 Witness.iter 4 n (Witness.rec 4 "y") in
  store n' !! @node_id_from_peer_id Toy.toy_blake3 "y" = Some (Witness.rec 4 "y").
Proof.
  intros n n'.
  apply (@announce_displaces_oldest Toy.toy_blake3 Witness.iter toy_iter_laws 4 n (Witness.rec 4 "y")
           (@node_id_from_peer_id Toy.toy_blake3 "x") (Witness.rec 3 "x")).
  - vm_compute. reflexivity.
  - intros E. vm_compute in E. discriminate E.
Defined.

Lemma lookup_bounded_witness :
  let r := @find_peer_iterative Toy.toy_blake3 Witness.iter Witness.network Witness.clock "target"
             default_options Witness.n1 in
  NoDup r.1.2 ∧ "me" ∉ r.1.2 ∧ length r.1.2 ≤ 12 ∧ r.2 = Some (Witness.rec 3 "target").
Proof.
  intros r.
  destruct (@lookup_bounded Toy.toy_blake3 Witness.iter 20 Witness.n1 Witness.network Witness.clock
              "target" default_options r.1.1 r.1.2 r.2) as (H1 & H2 & H3 & _).
  - exact Witness.n1_ok.
  - vm_compute. reflexivity.
  - split_and!; [exact H1|exact H2|exact H3|vm_compute; reflexivity].
Defined.

Lemma dht_rpc_roundtrip_witness :
  ∃ answer, client_receive Witness.resp_codec answer = Ok (Nodes None []).
Proof.
  eexists. eapply (@dht_rpc_roundtrip Toy.toy_blake3 Witness.iter Witness.req_codec Witness.resp_codec
    Witness.dht_req_codec_laws Witness.dht_resp_codec_laws 1 Witness.n0 (FindNode "t")).
  - vm_compute. reflexivity.
  - vm_compute. reflexivity.
Defined.

(** Candidates beyond the first [alpha] of a hop are discarded, not kept for the next
    hop: with [alpha = 1] the same network, which [alpha = 3] resolves, is not resolved
    although [max_hops] and [k] leave room for the second candidate. *)
Example lookup_discards_candidates :
  (@find_peer_iterative Toy.toy_blake3 Witness.iter Witness.network Witness.clock "target"
     (mk_FindNodeOptions 4 1 20) Witness.n1).1.2 = ["boot"; Witness.near] ∧
  (@find_peer_iterative Toy.toy_blake3 Witness.iter Witness.network Witness.clock "target"
     (mk_FindNodeOptions 4 1 20) Witness.n1).2 = None.
Proof. split; vm_compute; reflexivity. Qed.
