(* ===== verification/Gossip.v ===== *)
(** * Gossip

    [synergos-net/src/gossip/message.rs], [gossip/node.rs] and [gossip/transport.rs]:
    signed gossip messages, the cache that drops duplicates, the mesh of each topic and
    the wire frame.  The two broadcast channels are logs of what was sent to them; a
    [DashMap] is iterated in an unspecified order ([MapIter]), and which of several
    newest elements a [BinaryHeap] yields is unspecified ([HeapPick]).

    The theorems: the heap-based collection removes exactly the oldest entries; the
    cache stays within its bound and remembers every one of the most recent three
    quarters of it; what a node that requires signatures delivers was verified; a
    signed want or offer stands for that message only; two different catalog updates
    can share one signature; every mesh stays within its bound. *)

From S2P Require Import Prelude Crypto Types Identity.

(** ** Messages *)
Inductive ActivityState := Active | Idle | Away | Offline.
Definition activity_u8 (s : ActivityState) : byte :=
  match s with Active => x00 | Idle => x01 | Away => x02 | Offline => x03 end.

Record PeerActivityStatus := mk_PeerActivityStatus {
  st_peer_id : PeerId;
  st_display_name : string;
  st_state : ActivityState;
  st_last_active : N;
  st_working_on : list FileId;
}.

Inductive GossipMessage :=
| PeerStatus (peer : PeerId) (status : PeerActivityStatus) (origin : PeerId) (hops : byte)
| CatalogUpdate (project_id : string) (root_crc update_count : N) (updated_chunks : list ChunkId)
    (catalog_cid : option Cid) (publisher : PeerId)
| FileWant (requester : PeerId) (file_id : FileId) (version : N)
| FileOffer (sender : PeerId) (file_id : FileId) (version size crc : N) (content_hash : Blake3Hash)
| ConflictAlert (file_id : FileId) (conflicting_nodes : list PeerId) (their_versions : list N).

Global Instance ActivityState_eq_dec : EqDecision ActivityState.
Proof. solve_decision. Defined.
Global Instance PeerActivityStatus_eq_dec : EqDecision PeerActivityStatus.
Proof. solve_decision. Defined.
Global Instance GossipMessage_eq_dec : EqDecision GossipMessage.
Proof. solve_decision. Defined.

(** [s] followed by a zero byte. *)
Definition terminated (s : string) : bytes := as_bytes s ++ [x00].

Definition signing_bytes (msg : GossipMessage) : bytes :=
  match msg with
  | PeerStatus peer status origin hops =>
      as_bytes "peer_status" ++ as_bytes peer ++ as_bytes origin ++ [hops] ++
      as_bytes (st_peer_id status) ++ as_bytes (st_display_name status) ++
      [activity_u8 (st_state status)] ++ le_bytes 8 (st_last_active status) ++
      (st_working_on status ≫= terminated)
  | CatalogUpdate project_id root_crc update_count updated_chunks catalog_cid publisher =>
      as_bytes "catalog_update" ++ as_bytes project_id ++ le_bytes 4 root_crc ++
      le_bytes 8 update_count ++ (updated_chunks ≫= terminated) ++
      (match catalog_cid with Some cid => terminated cid | None => [] end) ++ as_bytes publisher
  | FileWant requester file_id version =>
      as_bytes "file_want" ++ as_bytes requester ++ as_bytes file_id ++ le_bytes 8 version
  | FileOffer sender file_id version size crc content_hash =>
      as_bytes "file_offer" ++ as_bytes sender ++ as_bytes file_id ++ le_bytes 8 version ++
      le_bytes 8 size ++ le_bytes 4 crc ++ content_hash
  | ConflictAlert file_id nodes versions =>
      as_bytes "conflict_alert" ++ as_bytes file_id ++ (nodes ≫= terminated) ++
      (versions ≫= le_bytes 8)
  end.

Definition canonical_bytes (msg : GossipMessage) : bytes := signing_bytes msg.

Record SignedGossipMessage := mk_SignedGossipMessage {
  message : GossipMessage;
  sender_public_key : bytes;
  signature : bytes;
}.

Section signing.
Context `{Blake3, Hex, Ed25519}.

Definition sign_gossip (msg : GossipMessage) (i : Identity) : SignedGossipMessage :=
  mk_SignedGossipMessage msg (public_key_bytes i) (sign i (signing_bytes msg)).

(** The check of the field in which a message names its own sender. *)
Definition check_sender (derived : PeerId) (msg : GossipMessage) : result NetError () :=
  match msg with
  | PeerStatus _ _ origin _ =>
      ensure (bool_decide (origin = derived)) (EIdentity "gossip origin peer_id mismatch with signer")
  | FileOffer sender _ _ _ _ _ =>
      ensure (bool_decide (sender = derived)) (EIdentity "gossip FileOffer sender mismatch with signer")
  | FileWant requester _ _ =>
      ensure (bool_decide (requester = derived)) (EIdentity "gossip FileWant requester mismatch with signer")
  | CatalogUpdate _ _ _ _ _ publisher =>
      ensure (bool_decide (publisher = "") || bool_decide (publisher = derived))
        (EIdentity "gossip CatalogUpdate publisher mismatch with signer")
  | ConflictAlert _ _ _ => Ok ()
  end.

Definition verify_gossip (s : SignedGossipMessage) : result NetError () :=
  if negb (length (sender_public_key s) =? 32) then
    Err (EIdentity "gossip sender_public_key length != 32")
  else if negb (length (signature s) =? 64) then
    Err (EIdentity "gossip signature length != 64")
  else
    let derived := peer_id_from_public_bytes (sender_public_key s) in
    _ ← check_sender derived (message s);
    map_err (λ _, EIdentity "gossip signature invalid")
      (verify (sender_public_key s) (signing_bytes (message s)) (signature s)).

Definition message_id (topic : TopicId) (msg : GossipMessage) : MessageId :=
  message_id_from_content (as_bytes topic ++ [x00] ++ canonical_bytes msg).
End signing.

(** ** The duplicate cache *)
Record MessageCache := mk_MessageCache {
  seen : gmap MessageId N;
  max_size : nat;
}.

(** [BinaryHeap]: a list of elements; [heap_pick] is the index of the top. *)
Class HeapPick := heap_pick : list (N * MessageId) → nat.
Class HeapPickLaws `{HeapPick} : Prop :=
  heap_pick_max : ∀ l x, x ∈ l → ∃ top, l !! heap_pick l = Some top ∧ (∀ y, y ∈ l → y.1 ≤ top.1)%N.

Definition gc_target (c : MessageCache) : nat := (max_size c / 4) `max` 1.

Section cache.
Context `{HeapPick, !MapIter MessageId N}.

(** One turn of the loop over the entries. *)
Definition gc_visit (target : nat) (oldest : list (N * MessageId)) (entry : MessageId * N) :
    list (N * MessageId) :=
  let '(id, t) := entry in
  if length oldest <? target then (t, id) :: oldest
  else
    match oldest !! heap_pick oldest with
    | Some top => if (t <? top.1)%N then (t, id) :: delete (heap_pick oldest) oldest else oldest
    | None => oldest
    end.

Definition gc (c : MessageCache) : MessageCache :=
  let target := gc_target c in
  if size (seen c) <=? target then mk_MessageCache ∅ (max_size c)
  else
    let oldest := foldl (gc_visit target) [] (map_iter (seen c)) in
    mk_MessageCache (foldl (λ m x, delete x.2 m) (seen c) oldest) (max_size c).

(** [true] when the message was seen before. *)
Definition check_and_insert (now : N) (c : MessageCache) (id : MessageId) : MessageCache * bool :=
  match seen c !! id with
  | Some _ => (c, true)
  | None =>
      let c := if max_size c <=? size (seen c) then gc c else c in
      (mk_MessageCache (<[id := now]> (seen c)) (max_size c), false)
  end.
End cache.

(** ** The node *)
Record OutboundGossip := mk_OutboundGossip {
  out_topic : TopicId;
  out_signed : SignedGossipMessage;
  out_peers : list PeerId;
}.

Record GossipNode := mk_GossipNode {
  mesh : gmap TopicId (list PeerId);
  fanout : gmap TopicId (list PeerId);
  message_cache : MessageCache;
  tx : list (TopicId * GossipMessage);
  outbound_tx : list OutboundGossip;
  mesh_n_high : nat;
  identity : option Identity;
  require_signature : bool;
}.

Definition new_gossip (cache_size high : nat) : GossipNode :=
  mk_GossipNode ∅ ∅ (mk_MessageCache ∅ cache_size) [] [] high None false.

Definition set_identity (i : Identity) (n : GossipNode) : GossipNode :=
  mk_GossipNode (mesh n) (fanout n) (message_cache n) (tx n) (outbound_tx n) (mesh_n_high n)
    (Some i) (require_signature n).
Definition set_require_signature (b : bool) (n : GossipNode) : GossipNode :=
  mk_GossipNode (mesh n) (fanout n) (message_cache n) (tx n) (outbound_tx n) (mesh_n_high n)
    (identity n) b.
Definition with_mesh (m : gmap TopicId (list PeerId)) (n : GossipNode) : GossipNode :=
  mk_GossipNode m (fanout n) (message_cache n) (tx n) (outbound_tx n) (mesh_n_high n)
    (identity n) (require_signature n).
Definition with_cache (c : MessageCache) (n : GossipNode) : GossipNode :=
  mk_GossipNode (mesh n) (fanout n) c (tx n) (outbound_tx n) (mesh_n_high n)
    (identity n) (require_signature n).
Definition send_tx (x : TopicId * GossipMessage) (n : GossipNode) : GossipNode :=
  mk_GossipNode (mesh n) (fanout n) (message_cache n) (tx n ++ [x]) (outbound_tx n) (mesh_n_high n)
    (identity n) (require_signature n).
Definition send_outbound (o : OutboundGossip) (n : GossipNode) : GossipNode :=
  mk_GossipNode (mesh n) (fanout n) (message_cache n) (tx n) (outbound_tx n ++ [o]) (mesh_n_high n)
    (identity n) (require_signature n).

Definition subscribe (topic : TopicId) (n : GossipNode) : GossipNode :=
  with_mesh (<[topic := default [] (mesh n !! topic)]> (mesh n)) n.

Definition unsubscribe (topic : TopicId) (n : GossipNode) : GossipNode :=
  mk_GossipNode (delete topic (mesh n)) (delete topic (fanout n)) (message_cache n) (tx n)
    (outbound_tx n) (mesh_n_high n) (identity n) (require_signature n).

Definition mesh_peers (n : GossipNode) (topic : TopicId) : list PeerId := default [] (mesh n !! topic).

(** [while peers.len() > mesh_n_high { peers.pop(); }]. *)
Fixpoint pop_loop (fuel high : nat) (l : list PeerId) : list PeerId :=
  match fuel with
  | O => l
  | S fuel => if high <? length l then pop_loop fuel high (removelast l) else l
  end.

Definition enforce_mesh_bounds (topic : TopicId) (n : GossipNode) : GossipNode :=
  match mesh n !! topic with
  | Some peers => with_mesh (<[topic := pop_loop (length peers) (mesh_n_high n) peers]> (mesh n)) n
  | None => n
  end.

Definition graft (topic : TopicId) (p : PeerId) (n : GossipNode) : GossipNode :=
  enforce_mesh_bounds topic
    (with_mesh (<[topic := default [] (mesh n !! topic) ++ [p]]> (mesh n)) n).

Definition prune (topic : TopicId) (p : PeerId) (n : GossipNode) : GossipNode :=
  match mesh n !! topic with
  | Some peers => with_mesh (<[topic := filter (λ q, q ≠ p) peers]> (mesh n)) n
  | None => n
  end.

Definition heartbeat `{!MapIter TopicId (list PeerId)} (n : GossipNode) : GossipNode :=
  foldl (λ n t, enforce_mesh_bounds t n) n (map_iter (mesh n)).*1.

Section node.
Context `{Blake3, Hex, Ed25519, HeapPick, !MapIter MessageId N}.

Definition envelope (n : GossipNode) (msg : GossipMessage) : option SignedGossipMessage :=
  sign_gossip msg <$> identity n.

Definition verify_envelope (s : SignedGossipMessage) : option GossipMessage :=
  match verify_gossip s with Ok _ => Some (message s) | Err _ => None end.

Definition publish (now : N) (topic : TopicId) (msg : GossipMessage) (n : GossipNode) :
    GossipNode * list PeerId :=
  let '(c, dup) := check_and_insert now (message_cache n) (message_id topic msg) in
  let n := with_cache c n in
  if dup then (n, [])
  else
    let n := send_tx (topic, msg) n in
    let peers := mesh_peers n topic in
    match envelope n msg with
    | Some signed => (send_outbound (mk_OutboundGossip topic signed peers) n, peers)
    | None => (n, peers)
    end.

Definition deliver (now : N) (topic : TopicId) (msg : GossipMessage) (n : GossipNode) : GossipNode * bool :=
  let '(c, dup) := check_and_insert now (message_cache n) (message_id topic msg) in
  let n := with_cache c n in
  if dup then (n, false) else (send_tx (topic, msg) n, true).

Definition on_signed_message_received (now : N) (topic : TopicId) (s : SignedGossipMessage)
    (n : GossipNode) : GossipNode * bool :=
  match verify_envelope s with
  | Some msg => deliver now topic msg n
  | None => (n, false)
  end.

Definition on_message_received (now : N) (topic : TopicId) (msg : GossipMessage) (n : GossipNode) :
    GossipNode * bool :=
  if require_signature n then (n, false) else deliver now topic msg n.
End node.

(** ** The wire *)
Record GossipWireMessage := mk_GossipWireMessage {
  wire_topic : TopicId;
  wire_signed : SignedGossipMessage;
}.

Definition GOSSIP_STREAM_MAGIC : bytes := as_bytes "GSP1".
Definition MAX_GOSSIP_FRAME : N := 256 * 1024.

Section wire.
Context `{Blake3, Hex, Ed25519, HeapPick, !MapIter MessageId N, !Codec GossipWireMessage}.

Definition send_gossip (msg : GossipWireMessage) : result NetError bytes :=
  body ← ok_or (to_vec msg) (ESerialization "gossip encode");
  if (MAX_GOSSIP_FRAME <? N.of_nat (length body))%N then Err (ESerialization "gossip frame too large")
  else Ok (GOSSIP_STREAM_MAGIC ++ be_bytes 4 (N.of_nat (length body)) ++ body).

(** The stream after the magic, up to its end. *)
Definition handle_gossip_stream (now : N) (s : bytes) (n : GossipNode) : GossipNode * result NetError () :=
  if length s <? 4 then (n, Err (EQuic "gossip read len"))
  else
    let len := of_be_bytes (take 4 s) in
    if (MAX_GOSSIP_FRAME <? len)%N then (n, Err (ESerialization "gossip frame too large"))
    else
      let s := drop 4 s in
      if length s <? N.to_nat len then (n, Err (EQuic "gossip read body"))
      else
        match from_slice (A := GossipWireMessage) (take (N.to_nat len) s) with
        | None => (n, Err (ESerialization "gossip decode"))
        | Some wire => ((on_signed_message_received now (wire_topic wire) (wire_signed wire) n).1, Ok ())
        end.
End wire.

(** ** The collection removes the oldest entries *)
Section cache_lemmas.
Context `{HeapPick, !HeapPickLaws, !MapIter MessageId N, !MapIterLaws MessageId N}.

(** [oldest] holds the [target] oldest of the visited entries [l]; [rest] the others. *)
Definition oldest_of (target : nat) (l : list (MessageId * N)) (oldest : list (N * MessageId)) : Prop :=
  ∃ rest, (prod_swap <$> l) ≡ₚ oldest ++ rest ∧ length oldest = target `min` length l ∧
    ∀ x y, x ∈ oldest → y ∈ rest → (x.1 ≤ y.1)%N.

Lemma gc_visit_oldest target l oldest e :
  0 < target → oldest_of target l oldest → oldest_of target (l ++ [e]) (gc_visit target oldest e).
Proof.
  intros Ht (rest & Hp & Hlen & Hle). destruct e as [id t]. unfold gc_visit, oldest_of.
  assert (Hpl : length l = length oldest + length rest).
  { pose proof (Permutation_length Hp) as Hl. by rw length_fmap length_app in Hl. }
  rw length_app /=. destruct (length oldest <? target) eqn:E; bool_to_prop.
  - assert (rest = []) as -> by (destruct rest; [done|simpl in *; lia]).
    exists []. rw app_nil_r in Hp. rw fmap_app Hp app_nil_r /=.
    split_and!; [symmetry; apply Permutation_cons_append|simpl; lia|set_solver].
  - destruct oldest as [|o os] eqn:Ho; [simpl in *; lia|]. rw -Ho in Hp Hlen Hle E Hpl |- *.
    destruct (heap_pick_max oldest o) as (top & Htop & Hmax); [subst; left|]. rw Htop.
    assert (Hin : top ∈ oldest) by by eapply list_elem_of_lookup_2.
    destruct (t <? top.1)%N eqn:Elt; bool_to_prop.
    + pose proof (delete_Permutation _ _ _ Htop) as Hd. exists (top :: rest). split_and!.
      * rw fmap_app Hp. etrans; [apply Permutation_app_comm|]. simpl. apply perm_skip.
        etrans; [apply Permutation_app_tail, Hd|]. simpl. apply Permutation_middle.
      * apply Permutation_length in Hd. simpl in *. lia.
      * intros x y Hx Hy. apply elem_of_cons in Hx as [->|Hx]; apply elem_of_cons in Hy as [->|Hy]; simpl.
        -- lia.
        -- pose proof (Hle top y Hin Hy). lia.
        -- apply Hmax. rw Hd. by right.
        -- apply Hle; [|done]. rw Hd. by right.
    + exists ((t, id) :: rest). split_and!; [|lia|].
      * rw fmap_app Hp /= -app_assoc. by rw (Permutation_app_comm rest).
      * intros x y Hx [->|Hy]%elem_of_cons; [|by apply Hle]. simpl.
        pose proof (Hmax x Hx). lia.
Qed.

Lemma gc_loop_oldest target l :
  0 < target → oldest_of target l (foldl (gc_visit target) [] l).
Proof.
  intros Ht. induction l as [|e l IH] using rev_ind; simpl.
  - exists []. split_and!; [done|simpl; lia|set_solver].
  - rw foldl_app /=. by apply gc_visit_oldest.
Qed.

Lemma lookup_delete_all (l : list (N * MessageId)) (m : gmap MessageId N) k :
  foldl (λ m x, delete x.2 m) m l !! k = if decide (k ∈ l.*2) then None else m !! k.
Proof.
  revert m. induction l as [|[t i] l IH]; intros m;
    [by destruct (decide (k ∈ [])) as [?%elem_of_nil|]|].
  cbn [foldl]. rw IH. clear IH. rw fmap_cons. cbn [snd].
  destruct (decide (k ∈ l.*2)) as [Hin|Hin].
  - destruct (decide (k ∈ i :: l.*2)) as [|Hin']; [done|]. by destruct Hin'; right.
  - destruct (decide (k ∈ i :: l.*2)) as [Hin'|Hin'].
    + apply elem_of_cons in Hin' as [->|]; [|done]. apply lookup_delete_eq.
    + rw lookup_delete_ne //. intros ->. apply Hin'. left.
Qed.

(** What one collection does: everything goes when there is no more than the target;
    otherwise [target] entries go, and no entry that stays is older than one that went. *)
Lemma gc_spec c :
  let t := gc_target c in
  max_size (gc c) = max_size c ∧ seen (gc c) ⊆ seen c ∧
  size (seen (gc c)) = size (seen c) - t ∧
  ∀ k1 t1 k2 t2, seen c !! k1 = Some t1 → seen (gc c) !! k1 = None →
    seen (gc c) !! k2 = Some t2 → (t1 ≤ t2)%N.
Proof.
  intros t. unfold gc. fold t. destruct (_ <=? t) eqn:E; bool_to_prop; simpl.
  { split_and!; [done|apply map_empty_subseteq|rw map_size_empty; lia|].
    intros ????. by rw (lookup_empty k2). }
  assert (Ht : 0 < t) by (unfold t, gc_target; lia).
  destruct (gc_loop_oldest t (map_iter (seen c)) Ht) as (rest & Hp & Hlen & Hle).
  set (oldest := foldl _ _ _) in *. rw length_map_iter in Hlen.
  assert (Hsw : (prod_swap <$> map_iter (seen c)).*2 = (map_iter (seen c)).*1).
  { rw -list_fmap_compose. apply list_fmap_ext. by intros i [] _. }
  assert (Hnd : NoDup (oldest.*2 ++ rest.*2)) by (rw -fmap_app -Hp Hsw; apply NoDup_map_iter).
  assert (Hlook : ∀ k t0, seen c !! k = Some t0 ↔ (t0, k) ∈ oldest ++ rest).
  { intros k t0. rw -Hp list_elem_of_fmap -elem_of_map_iter. split.
    - intros Hin. by exists (k, t0).
    - by intros ([k' t'] & [= -> ->] & ?). }
  assert (Hkeep : ∀ k t0, foldl (λ m x, delete x.2 m) (seen c) oldest !! k = Some t0 ↔ (t0, k) ∈ rest).
  { intros k t0. rw lookup_delete_all. case_decide as Hin.
    - split; [done|]. intros Hr. apply NoDup_app in Hnd as (_ & Hd & _). exfalso.
      apply (Hd k Hin). apply list_elem_of_fmap. by exists (t0, k).
    - rw Hlook elem_of_app. split; [|by right]. intros [Ho|?]; [|done]. exfalso. apply Hin.
      apply list_elem_of_fmap. by exists (t0, k). }
  split_and!; [done| | |].
  - apply map_subseteq_spec. intros k t0. rw Hkeep Hlook. set_solver.
  - assert (Hperm : map_to_list (foldl (λ m x, delete x.2 m) (seen c) oldest) ≡ₚ prod_swap <$> rest).
    { apply NoDup_Permutation; [apply NoDup_map_to_list| |].
      - apply NoDup_app in Hnd as (_ & _ & Hr). apply (NoDup_fmap_1 fst).
        rw -list_fmap_compose. erewrite list_fmap_ext; [exact Hr|]. by intros i [] _.
      - intros [k t0]. rw elem_of_map_to_list Hkeep list_elem_of_fmap. split.
        + intros Hin. by exists (t0, k).
        + by intros ([t' k'] & [= -> ->] & ?). }
    apply Permutation_length in Hperm. rw length_map_to_list length_fmap in Hperm.
    rw Hperm. apply Permutation_length in Hp. rw length_fmap length_app length_map_iter in Hp. lia.
  - intros k1 t1 k2 t2 Hk1 Hk1' Hk2. apply (Hle (t1, k1) (t2, k2)); [|by apply Hkeep].
    apply Hlook in Hk1. apply elem_of_app in Hk1 as [?|Hr]; [done|]. exfalso.
    assert (Some t1 = None); [|done]. rw -Hk1'. symmetry. by apply Hkeep.
Qed.
End cache_lemmas.

(** ** The cache is bounded and remembers *)
Section cache_props.
Context `{HeapPick, !HeapPickLaws, !MapIter MessageId N, !MapIterLaws MessageId N}.

Definition cache_ok (c : MessageCache) : Prop := size (seen c) ≤ 1 `max` max_size c.

Lemma max_size_gc c : max_size (gc c) = max_size c.
Proof. apply gc_spec. Qed.

Lemma max_size_check_and_insert now c id : max_size (check_and_insert now c id).1 = max_size c.
Proof.
  unfold check_and_insert. destruct (seen c !! id); [done|]. simpl.
  destruct (_ <=? _); [apply max_size_gc|done].
Qed.

Lemma size_insert_Sle {K A} `{Countable K} (m : gmap K A) k x : size (<[k := x]> m) ≤ S (size m).
Proof.
  destruct (m !! k) eqn:E.
  - rw map_size_insert_Some; [by eexists|]. lia.
  - by rw map_size_insert_None.
Qed.

Lemma check_and_insert_ok now c id : cache_ok c → cache_ok (check_and_insert now c id).1.
Proof.
  intros Hok. unfold cache_ok. rw max_size_check_and_insert. unfold check_and_insert.
  destruct (seen c !! id); [done|]. simpl. etrans; [apply size_insert_Sle|].
  destruct (_ <=? _) eqn:E; bool_to_prop; [|lia].
  destruct (gc_spec c) as (_ & _ & -> & _). unfold cache_ok, gc_target in *.
  pose proof (Nat.div_le_upper_bound (max_size c) 4 (max_size c)). lia.
Qed.

(** How many entries are newer than time [t]. *)
Definition newer (c : MessageCache) (t : N) : nat := size (filter (λ kt, t < kt.2)%N (seen c)).

(** [id] was noted at time [t], no other entry then, and none is from the future. *)
Record noted (c : MessageCache) (id : MessageId) (t now : N) : Prop := {
  noted_at : seen c !! id = Some t;
  noted_unique k : seen c !! k = Some t → k = id;
  noted_past k t' : seen c !! k = Some t' → (t' ≤ now)%N;
}.

Lemma newer_insert_le c k now t ms :
  newer (mk_MessageCache (<[k := now]> (seen c)) ms) t ≤ S (newer c t).
Proof.
  unfold newer. simpl. etrans; [|apply (size_insert_Sle _ k now)].
  apply map_subseteq_size. apply map_subseteq_spec. intros i x [Hi Hx]%map_lookup_filter_Some.
  apply lookup_insert_Some in Hi as [[-> ->]|[Hne Hi]]; [apply lookup_insert_eq|].
  rw lookup_insert_ne //. by apply map_lookup_filter_Some.
Qed.

Lemma newer_mono c c' t : seen c ⊆ seen c' → newer c t ≤ newer c' t.
Proof. intros Hs. by apply map_subseteq_size, map_filter_subseteq_mono. Qed.

(** A collection spares an entry with fewer than the surviving number after it. *)
Lemma gc_spares c id t now :
  noted c id t now → max_size c ≤ size (seen c) → newer c t < max_size c - gc_target c →
  noted (gc c) id t now.
Proof.
  intros [Hat Huni Hpast] Hfull Hnew. destruct (gc_spec c) as (_ & Hsub & Hsz & Hold).
  rw map_subseteq_spec in Hsub.
  split; [|intros k Hk; by apply Huni, Hsub|intros k t' Hk; by eapply Hpast, Hsub].
  destruct (seen (gc c) !! id) as [t'|] eqn:E; [apply Hsub in E; congruence|]. exfalso.
  assert (size (seen (gc c)) ≤ newer c t); [|lia].
  apply map_subseteq_size, map_subseteq_spec. intros k t2 Hk.
  apply map_lookup_filter_Some. split; [by apply Hsub|]. simpl.
  pose proof (Hold _ _ _ _ Hat E Hk) as Hle.
  assert (t ≠ t2); [|lia]. intros ->. assert (k = id) as -> by (by apply Huni, Hsub). congruence.
Qed.

Lemma check_and_insert_keeps c id t now0 now id' :
  noted c id t now0 → (now0 < now)%N → newer c t < max_size c - gc_target c →
  noted (check_and_insert now c id').1 id t now ∧ newer (check_and_insert now c id').1 t ≤ S (newer c t).
Proof.
  intros Hn Hlt Hnew. pose proof (noted_past _ _ _ _ Hn _ _ (noted_at _ _ _ _ Hn)) as Ht.
  unfold check_and_insert. destruct (seen c !! id') as [t'|] eqn:E; simpl.
  { split; [|lia]. destruct Hn as [? ? Hp]. split; [done..|]. intros k t2 Hk. specialize (Hp _ _ Hk). lia. }
  set (c1 := if max_size c <=? size (seen c) then gc c else c).
  assert (H1 : noted c1 id t now0 ∧ newer c1 t ≤ newer c t ∧ seen c1 !! id' = None).
  { unfold c1. destruct (_ <=? _) eqn:Ef; bool_to_prop; [|done].
    destruct (gc_spec c) as (_ & Hsub & _). split_and!; [by apply gc_spares|by apply newer_mono|].
    by eapply lookup_weaken_None. }
  destruct H1 as ([Hat Huni Hpast] & Hnew1 & Hfresh). split.
  - split; simpl.
    + rw lookup_insert_ne //. congruence.
    + intros k [[_ ?]|[_ ?]]%lookup_insert_Some; [lia|auto].
    + intros k t2 [[_ ?]|[_ Hk]]%lookup_insert_Some; [lia|]. specialize (Hpast _ _ Hk). lia.
  - etrans; [apply newer_insert_le|]. lia.
Qed.

(** Calls one after the other, at strictly increasing times. *)
Definition insert_ids (c : MessageCache) (l : list (N * MessageId)) : MessageCache :=
  foldl (λ c x, (check_and_insert x.1 c x.2).1) c l.

Fixpoint increasing (now : N) (l : list (N * MessageId)) : Prop :=
  match l with [] => True | x :: l' => (now < x.1)%N ∧ increasing x.1 l' end.

Lemma insert_ids_keeps l c id t now :
  noted c id t now → increasing now l → newer c t + length l ≤ max_size c - gc_target c →
  is_Some (seen (insert_ids c l) !! id).
Proof.
  revert c now. induction l as [|[now' id'] l IH]; intros c now Hn Hinc Hlen; simpl in *.
  { rw (noted_at _ _ _ _ Hn). by eexists. }
  destruct Hinc as [Hlt Hinc].
  destruct (check_and_insert_keeps c id t now now' id' Hn Hlt) as [Hn' Hnew]; [lia|].
  apply (IH _ now'); [done|done|]. unfold gc_target in *. rw max_size_check_and_insert. lia.
Qed.
End cache_props.

(** ** Meshes *)
Lemma pop_loop_take fuel high l : length l ≤ fuel → pop_loop fuel high l = take high l.
Proof.
  revert l. induction fuel as [|fuel IH]; intros l Hl; simpl.
  - destruct l; [by rw take_nil|simpl in *; lia].
  - destruct (high <? length l) eqn:E; bool_to_prop; [|by rw take_ge].
    destruct l as [|x l] using rev_ind; [simpl in *; lia|].
    rw removelast_last IH; [rw length_app /= in Hl; lia|].
    rw length_app /= in E. rw take_app_le //. lia.
Qed.

Definition mesh_ok (n : GossipNode) : Prop := map_Forall (λ _ l, length l ≤ mesh_n_high n) (mesh n).

Lemma enforce_mesh_ok_at topic m n :
  (∀ t l, t ≠ topic → m !! t = Some l → length l ≤ mesh_n_high n) →
  mesh_ok (enforce_mesh_bounds topic (with_mesh m n)).
Proof.
  intros Hm t l. unfold enforce_mesh_bounds. simpl.
  destruct (m !! topic) as [peers|] eqn:E; simpl.
  - intros [[<- <-]|[Hne Hl]]%lookup_insert_Some; [|by eapply Hm].
    rw pop_loop_take // length_take. lia.
  - intros Hl. eapply Hm; [|done]. congruence.
Qed.

Lemma enforce_mesh_ok topic n : mesh_ok n → mesh_ok (enforce_mesh_bounds topic n).
Proof.
  intros Hok. replace n with (with_mesh (mesh n) n) by by destruct n.
  apply enforce_mesh_ok_at. intros t l _ Hl. by eapply Hok.
Qed.

Lemma graft_mesh_ok topic p n : mesh_ok n → mesh_ok (graft topic p n).
Proof.
  intros Hok. apply enforce_mesh_ok_at. intros t l Hne Hl. rw lookup_insert_ne // in Hl. by eapply Hok.
Qed.

Lemma heartbeat_mesh_ok `{!MapIter TopicId (list PeerId)} n : mesh_ok n → mesh_ok (heartbeat n).
Proof.
  unfold heartbeat. generalize (map_iter (mesh n)).*1. intros l. revert n.
  induction l as [|t l IH]; intros n Hn; simpl; [done|]. by apply IH, enforce_mesh_ok.
Qed.

(** ** Signatures *)
Section signature_lemmas.
Context `{Blake3, Hex, Ed25519}.

Lemma verify_gossip_Ok s :
  verify_gossip s = Ok () ↔
  length (sender_public_key s) = 32 ∧ length (signature s) = 64 ∧
  check_sender (peer_id_from_public_bytes (sender_public_key s)) (message s) = Ok () ∧
  ed_verify (sender_public_key s) (signing_bytes (message s)) (signature s) = true.
Proof.
  unfold verify_gossip, verify.
  destruct (length (sender_public_key s) =? 32) eqn:E1; bool_to_prop; simpl; [|naive_solver].
  destruct (length (signature s) =? 64) eqn:E2; bool_to_prop; simpl; [|naive_solver].
  destruct (check_sender _ _) as [[]|]; simpl; [|naive_solver].
  destruct (ed_verify _ _ _); naive_solver.
Qed.

(** Derived peer identifiers have one length. *)
Lemma peer_id_length `{!Blake3Laws, !HexLaws} pk :
  length (as_bytes (peer_id_from_public_bytes pk)) = 40.
Proof.
  unfold peer_id_from_public_bytes.
  assert (Hl : ∀ s, length (as_bytes s) = String.length s).
  { intros s. unfold as_bytes. induction s as [|c s IH]; [done|]. simpl. by rw -IH. }
  rw Hl hex_length length_take blake3_length. done.
Qed.
End signature_lemmas.

(** What the Rust types guarantee of wants and offers. *)
Definition claim_typed (m : GossipMessage) : Prop :=
  match m with
  | FileWant _ _ v => is_u64 v
  | FileOffer _ _ v size crc h => is_u64 v ∧ is_u64 size ∧ is_u32 crc ∧ length h = 32
  | _ => False
  end.

(** The message's own sender field. *)
Definition claimed_sender (m : GossipMessage) : option PeerId :=
  match m with
  | PeerStatus _ _ origin _ => Some origin
  | CatalogUpdate _ _ _ _ _ p => if bool_decide (p = "") then None else Some p
  | FileWant r _ _ => Some r
  | FileOffer s _ _ _ _ _ => Some s
  | ConflictAlert _ _ _ => None
  end.

Lemma check_sender_Ok derived m :
  check_sender derived m = Ok () ↔ ∀ p, claimed_sender m = Some p → p = derived.
Proof.
  destruct m; unfold check_sender, ensure, claimed_sender; repeat case_bool_decide; simpl; naive_solver.
Qed.

(** Under equal lengths of the sender fields the signed bytes of a want or an offer
    determine it. *)
Lemma signing_bytes_inj m m' p p' :
  claim_typed m → claim_typed m' → claimed_sender m = Some p → claimed_sender m' = Some p' →
  length (as_bytes p) = length (as_bytes p') → signing_bytes m = signing_bytes m' → m = m'.
Proof.
  destruct m as [| |r f v|s f v sz c h|], m' as [| |r' f' v'|s' f' v' sz' c' h'|]; try done;
    simpl; intros T T' [= <-] [= <-] Hlen Heq; simplify_eq.
  - apply app_split in Heq as [Hr%as_bytes_inj Heq]; [|done].
    apply app_split_r in Heq as [Hf%as_bytes_inj Hv%le_bytes_inj64]; [by subst|done..].
  - apply app_split in Heq as [Hr%as_bytes_inj Heq]; [|done].
    destruct T as (Tv & Ts & Tc & Th), T' as (Tv' & Ts' & Tc' & Th').
    apply app_split_r in Heq as [Hf%as_bytes_inj Heq];
      [|rw !length_app !length_le_bytes Th Th' //].
    apply app_split in Heq as [Hv%le_bytes_inj64 Heq]; [|done..].
    apply app_split in Heq as [Hs%le_bytes_inj64 Heq]; [|done..].
    apply app_split in Heq as [Hc%le_bytes_inj32 Heq]; [|done..]. by subst.
Qed.

(** ** Traces *)
Inductive event :=
| EPublish (now : N) (topic : TopicId) (msg : GossipMessage)
| ESigned (now : N) (topic : TopicId) (s : SignedGossipMessage)
| EUnsigned (now : N) (topic : TopicId) (msg : GossipMessage)
| ESubscribe (topic : TopicId)
| EUnsubscribe (topic : TopicId)
| EGraft (topic : TopicId) (p : PeerId)
| EPrune (topic : TopicId) (p : PeerId)
| EHeartbeat.

Section traces.
Context `{Blake3, Hex, Ed25519, HeapPick, !MapIter MessageId N, !MapIter TopicId (list PeerId)}.

Definition exec (n : GossipNode) (e : event) : GossipNode :=
  match e with
  | EPublish now t m => (publish now t m n).1
  | ESigned now t s => (on_signed_message_received now t s n).1
  | EUnsigned now t m => (on_message_received now t m n).1
  | ESubscribe t => subscribe t n
  | EUnsubscribe t => unsubscribe t n
  | EGraft t p => graft t p n
  | EPrune t p => prune t p n
  | EHeartbeat => heartbeat n
  end.

Definition exec_all (n : GossipNode) (es : list event) : GossipNode := foldl exec n es.

(** The mesh operations leave cache, logs and settings alone. *)
Lemma enforce_rest topic n :
  let n' := enforce_mesh_bounds topic n in
  tx n' = tx n ∧ message_cache n' = message_cache n ∧ mesh_n_high n' = mesh_n_high n ∧
  require_signature n' = require_signature n ∧ identity n' = identity n.
Proof. unfold enforce_mesh_bounds. by destruct (mesh n !! topic). Qed.

Lemma heartbeat_rest n :
  let n' := heartbeat n in
  tx n' = tx n ∧ message_cache n' = message_cache n ∧ mesh_n_high n' = mesh_n_high n ∧
  require_signature n' = require_signature n ∧ identity n' = identity n.
Proof.
  unfold heartbeat. generalize (map_iter (mesh n)).*1. intros l. revert n.
  induction l as [|t l IH]; intros n; simpl; [done|].
  destruct (IH (enforce_mesh_bounds t n)) as (-> & -> & -> & -> & ->). apply enforce_rest.
Qed.

(** What [deliver] does to the log. *)
Lemma deliver_tx now t m n :
  require_signature (deliver now t m n).1 = require_signature n ∧
  (tx (deliver now t m n).1 = tx n ∨ tx (deliver now t m n).1 = tx n ++ [(t, m)]).
Proof. unfold deliver. destruct (check_and_insert _ _ _) as [c []]; simpl; auto. Qed.

Lemma publish_tx now t m n :
  require_signature (publish now t m n).1 = require_signature n ∧
  (tx (publish now t m n).1 = tx n ∨ tx (publish now t m n).1 = tx n ++ [(t, m)]).
Proof.
  unfold publish. destruct (check_and_insert _ _ _) as [c []]; simpl; [auto|].
  destruct (envelope _ _); simpl; auto.
Qed.

(** An event explains a delivery: the node published it, or a verified envelope carried it. *)
Definition explains (e : event) (x : TopicId * GossipMessage) : Prop :=
  match e with
  | EPublish _ t m => x = (t, m)
  | ESigned _ t s => x = (t, message s) ∧ verify_gossip s = Ok ()
  | _ => False
  end.

Lemma exec_delivers n e x :
  require_signature n = true →
  require_signature (exec n e) = true ∧ (x ∈ tx (exec n e) → x ∈ tx n ∨ explains e x).
Proof.
  intros Hreq. destruct e as [now t m|now t s|now t m|t|t|t p|t p|]; simpl.
  - destruct (publish_tx now t m n) as [-> [-> | ->]]; (split; [done|]); set_solver.
  - unfold on_signed_message_received, verify_envelope.
    destruct (verify_gossip s) as [[]|] eqn:Hv; [|by auto].
    destruct (deliver_tx now t (message s) n) as [-> [-> | ->]]; (split; [done|]); set_solver.
  - unfold on_message_received. rw Hreq /=. auto.
  - auto.
  - auto.
  - unfold graft. destruct (enforce_rest t (with_mesh (<[t := default [] (mesh n !! t) ++ [p]]> (mesh n)) n))
      as (-> & _ & _ & -> & _). auto.
  - unfold prune. destruct (mesh n !! t); auto.
  - destruct (heartbeat_rest n) as (-> & _ & _ & -> & _). auto.
Qed.

Lemma exec_settings n e `{!HeapPickLaws, !MapIterLaws MessageId N} :
  mesh_n_high (exec n e) = mesh_n_high n ∧
  max_size (message_cache (exec n e)) = max_size (message_cache n).
Proof.
  assert (Hc : ∀ now id, max_size (check_and_insert now (message_cache n) id).1 = max_size (message_cache n))
    by (intros; apply max_size_check_and_insert).
  assert (Hdel : ∀ now t m, mesh_n_high (deliver now t m n).1 = mesh_n_high n ∧
    max_size (message_cache (deliver now t m n).1) = max_size (message_cache n)).
  { intros now t m. unfold deliver. specialize (Hc now (message_id t m)).
    by destruct (check_and_insert _ _ _) as [c []]. }
  destruct e as [now t m|now t s|now t m|t|t|t p|t p|]; simpl; try done.
  - unfold publish. specialize (Hc now (message_id t m)).
    destruct (check_and_insert _ _ _) as [c []]; [done|]. simpl. by destruct (envelope _ _).
  - unfold on_signed_message_received. by destruct (verify_envelope s).
  - unfold on_message_received. by destruct (require_signature n).
  - unfold graft.
    by destruct (enforce_rest t (with_mesh (<[t := default [] (mesh n !! t) ++ [p]]> (mesh n)) n)) as (_ & -> & -> & _).
  - unfold prune. by destruct (mesh n !! t).
  - by destruct (heartbeat_rest n) as (_ & -> & -> & _).
Qed.

Lemma exec_bounds n e `{!HeapPickLaws, !MapIterLaws MessageId N} :
  mesh_ok n ∧ cache_ok (message_cache n) → mesh_ok (exec n e) ∧ cache_ok (message_cache (exec n e)).
Proof.
  intros [Hm Hc].
  assert (Hdel : ∀ now t m, mesh_ok (deliver now t m n).1 ∧ cache_ok (message_cache (deliver now t m n).1)).
  { intros now t m. unfold deliver. pose proof (check_and_insert_ok now _ (message_id t m) Hc).
    by destruct (check_and_insert _ _ _) as [c []]. }
  destruct e as [now t m|now t s|now t m|t|t|t p|t p|]; simpl.
  - unfold publish. pose proof (check_and_insert_ok now _ (message_id t m) Hc).
    destruct (check_and_insert _ _ _) as [c []]; [done|]. simpl. by destruct (envelope _ _).
  - unfold on_signed_message_received. by destruct (verify_envelope s).
  - unfold on_message_received. by destruct (require_signature n).
  - split; [|done]. apply map_Forall_insert_2; [|done].
    destruct (mesh n !! t) as [l|] eqn:E; simpl; [by eapply Hm|lia].
  - split; [|done]. by apply map_Forall_delete.
  - split; [by apply graft_mesh_ok|]. unfold graft.
    by destruct (enforce_rest t (with_mesh (<[t := default [] (mesh n !! t) ++ [p]]> (mesh n)) n)) as (_ & -> & _).
  - unfold prune. destruct (mesh n !! t) as [l|] eqn:E; [|done]. split; [|done].
    apply map_Forall_insert_2; [|done]. simpl. etrans; [apply length_filter|]. by eapply Hm.
  - split; [by apply heartbeat_mesh_ok|]. by destruct (heartbeat_rest n) as (_ & -> & _).
Qed.
End traces.

(** ** Properties *)

(** the collection removes exactly the oldest.  Whatever the iteration order of the
    map and the tie-breaking of the heap, [gc] removes [max(max_size / 4, 1)] entries
    (all, when there are no more), changes none of the others, and no entry it keeps is
    older than one it removed. *)
Theorem gc_removes_oldest `{HeapPick, !HeapPickLaws, !MapIter MessageId N, !MapIterLaws MessageId N} c :
  seen (gc c) ⊆ seen c ∧ size (seen (gc c)) = size (seen c) - gc_target c ∧
  ∀ k1 t1 k2 t2, seen c !! k1 = Some t1 → seen (gc c) !! k1 = None →
    seen (gc c) !! k2 = Some t2 → (t1 ≤ t2)%N.
Proof. destruct (gc_spec c) as (_ & ? & ? & ?). auto. Qed.

(** recent duplicates are always recognised.  A new message checked at a time later
    than every entry is still recognised as a duplicate after up to [max_size - target]
    further calls at strictly increasing times, whatever they insert: only messages
    older than the most recent three quarters of the cache can be forgotten. *)
Theorem cache_remembers_recent
    `{HeapPick, !HeapPickLaws, !MapIter MessageId N, !MapIterLaws MessageId N} c id now later now' :
  map_Forall (λ _ t, t < now)%N (seen c) → seen c !! id = None →
  increasing now later → length later ≤ max_size c - gc_target c →
  (check_and_insert now' (insert_ids (check_and_insert now c id).1 later) id).2 = true.
Proof.
  intros Hpast Hnew Hinc Hlen. set (c1 := (check_and_insert now c id).1).
  assert (Hseen : ∀ k t, seen c1 !! k = Some t → (k = id ∧ t = now) ∨ (t < now)%N).
  { unfold c1, check_and_insert. rw Hnew. simpl. intros k t Hk.
    apply lookup_insert_Some in Hk as [[-> ->]|[_ Hk]]; [by left|right].
    destruct (_ <=? _); [|by eapply Hpast]. destruct (gc_spec c) as (_ & Hsub & _).
    rw map_subseteq_spec in Hsub. by eapply Hpast, Hsub. }
  assert (Hn : noted c1 id now now).
  { split.
    - unfold c1, check_and_insert. rw Hnew. simpl. apply lookup_insert_eq.
    - intros k [[-> _]|?]%Hseen; [done|lia].
    - intros k t [[_ ->]|?]%Hseen; lia. }
  assert (Hzero : newer c1 now = 0).
  { unfold newer. apply map_size_empty_iff, map_empty_filter_2.
    intros k t Hk. simpl. destruct (Hseen _ _ Hk) as [[_ ->]|?]; lia. }
  assert (Hms : max_size c1 = max_size c) by apply max_size_check_and_insert.
  destruct (insert_ids_keeps later c1 id now now Hn Hinc) as [t Ht].
  { unfold gc_target in *. rw Hms Hzero. lia. }
  unfold check_and_insert. by rw Ht.
Qed.

(** C39: what a node that requires signatures delivers is authentic.  After any sequence
    of events, every message on its local channel was published by the node itself or
    arrived on that topic in an envelope that verifies: valid signature, and the sender
    the message names is the one derived from the signing key. *)
Theorem delivered_is_authentic
    `{Blake3, Hex, Ed25519, HeapPick, !MapIter MessageId N, !MapIter TopicId (list PeerId)}
    cache_size high i es t m :
  (t, m) ∈ tx (exec_all (set_require_signature true (set_identity i (new_gossip cache_size high))) es) →
  (∃ now, EPublish now t m ∈ es) ∨
  (∃ now s, ESigned now t s ∈ es ∧ message s = m ∧ verify_gossip s = Ok () ∧
     ∀ p, claimed_sender m = Some p → p = peer_id_from_public_bytes (sender_public_key s)).
Proof.
  set (n := set_require_signature _ _). unfold exec_all.
  assert (Hreq : require_signature n = true) by done.
  intros Hin. assert (Hex : (t, m) ∈ tx n ∨ ∃ e, e ∈ es ∧ explains e (t, m)).
  { revert Hreq Hin. generalize n. induction es as [|e es IH]; intros n0 Hreq; simpl; [by left|].
    intros Hin. destruct (exec_delivers n0 e (t, m) Hreq) as [Hreq' Hd].
    destruct (IH _ Hreq' Hin) as [Htx|(e' & ? & ?)]; [|right; exists e'; split; [by right|done]].
    destruct (Hd Htx) as [?|?]; [by left|right; exists e; split; [left|done]]. }
  destruct Hex as [?%elem_of_nil|(e & He & Hx)]; [done|].
  destruct e as [now t' m'|now t' s| | | | | |]; simpl in Hx; try done.
  - injection Hx as -> ->. left. eauto.
  - destruct Hx as [[= -> ->] Hv]. right. exists now, s. split_and!; [done..|].
    apply verify_gossip_Ok in Hv as (_ & _ & Hs & _). by apply check_sender_Ok.
Qed.

(** bounded state.  After any sequence of events, also from hostile peers, no topic's
    mesh has more than [mesh_n_high] peers and the duplicate cache holds at most
    [max(1, cache_size)] identifiers. *)
Theorem gossip_state_bounded
    `{Blake3, Hex, Ed25519, HeapPick, !HeapPickLaws, !MapIter MessageId N, !MapIterLaws MessageId N,
      !MapIter TopicId (list PeerId)} cache_size high es :
  let n := exec_all (new_gossip cache_size high) es in
  map_Forall (λ _ peers, length peers ≤ high) (mesh n) ∧
  size (seen (message_cache n)) ≤ 1 `max` cache_size.
Proof.
  intros n. unfold n, exec_all.
  assert (Hgen : ∀ n0, mesh_n_high n0 = high → max_size (message_cache n0) = cache_size →
    mesh_ok n0 ∧ cache_ok (message_cache n0) →
    map_Forall (λ _ peers, length peers ≤ high) (mesh (foldl exec n0 es)) ∧
    size (seen (message_cache (foldl exec n0 es))) ≤ 1 `max` cache_size).
  { clear n. induction es as [|e es IH]; intros n0 Hh Hs Hn0; simpl.
    - unfold mesh_ok, cache_ok in Hn0. by rw Hh Hs in Hn0.
    - destruct (exec_settings n0 e) as [? ?]. apply IH; [congruence..|]. by apply exec_bounds. }
  apply Hgen; [done|done|]. split; [apply map_Forall_empty|].
  unfold cache_ok. simpl. rw map_size_empty. lia.
Qed.

(** a signed want or offer stands for one message.  If two envelopes verify and their
    messages, each a want or an offer, have the same signed bytes, the messages are
    equal; the identifiers derived from keys all have one length, so the unseparated
    fields cannot be shifted into one another. *)
Theorem want_offer_signature_binding `{Blake3, Hex, Ed25519, !Blake3Laws, !HexLaws} s s' :
  claim_typed (message s) → claim_typed (message s') →
  verify_gossip s = Ok () → verify_gossip s' = Ok () →
  signing_bytes (message s) = signing_bytes (message s') → message s = message s'.
Proof.
  intros T T' (_ & _ & Hc & _)%verify_gossip_Ok (_ & _ & Hc' & _)%verify_gossip_Ok Heq.
  rw check_sender_Ok in Hc. rw check_sender_Ok in Hc'.
  destruct (claimed_sender (message s)) as [p|] eqn:E; [|by destruct (message s)].
  destruct (claimed_sender (message s')) as [p'|] eqn:E'; [|by destruct (message s')].
  apply (signing_bytes_inj _ _ p p'); try done.
  rw (Hc p) // (Hc' p') // !peer_id_length //.
Qed.

(** catalog updates are ambiguous under their signature.  Moving the last updated
    chunk of a catalog update into its catalog CID changes the message but neither the
    signed bytes nor the outcome of the verification: one signature covers both. *)
Theorem catalog_update_signature_ambiguous `{Blake3, Hex, Ed25519} project crc count chunks x publisher pk sg :
  let m := CatalogUpdate project crc count (chunks ++ [x]) None publisher in
  let m' := CatalogUpdate project crc count chunks (Some x) publisher in
  m ≠ m' ∧ signing_bytes m = signing_bytes m' ∧
  verify_gossip (mk_SignedGossipMessage m pk sg) = verify_gossip (mk_SignedGossipMessage m' pk sg).
Proof.
  intros m m'. assert (Hb : signing_bytes m = signing_bytes m').
  { unfold m, m', signing_bytes. rw bind_app bind_cons /= !app_nil_r -!app_assoc //. }
  split_and!; [done|done|]. unfold verify_gossip. cbn [message sender_public_key signature]. by rw Hb.
Qed.

(** The wire preserves gossip.  What [send_gossip] writes, the receiving handler
    (reading after the magic) hands unchanged to the node. *)
Theorem gossip_wire_roundtrip
    `{Blake3, Hex, Ed25519, HeapPick, !MapIter MessageId N, !Codec GossipWireMessage,
      !CodecLaws GossipWireMessage} now msg sent n :
  send_gossip msg = Ok sent →
  take 4 sent = GOSSIP_STREAM_MAGIC ∧
  handle_gossip_stream now (drop 4 sent) n =
    ((on_signed_message_received now (wire_topic msg) (wire_signed msg) n).1, Ok ()).
Proof.
  unfold send_gossip. destruct (to_vec msg) as [body|] eqn:Hb; simpl; [|done].
  destruct (_ <? _)%N eqn:E; [done|]. intros [= <-]. bool_to_prop.
  set (l := N.of_nat (length body)) in *.
  change (drop 4 (GOSSIP_STREAM_MAGIC ++ be_bytes 4 l ++ body)) with (be_bytes 4 l ++ body).
  split; [done|]. unfold handle_gossip_stream.
  rw length_app length_be_bytes. destruct (4 + length body <? 4) eqn:E1; bool_to_prop; [lia|].
  rw take_app_length' ?length_be_bytes // drop_app_length' ?length_be_bytes //.
  rw of_be_bytes_be_bytes; [unfold MAX_GOSSIP_FRAME in *; cbn; lia|].
  rw (proj2 (N.ltb_ge _ _) E). unfold l. rw Nat2N.id Nat.ltb_irrefl take_ge // (from_slice_to_vec _ _ Hb) //.
Qed.

(** ** Witnesses *)
Module Witness.
Definition is_top (l : list (N * MessageId)) (x : N * MessageId) : bool :=
  forallb (λ y, y.1 <=? x.1)%N l.
Definition pick : HeapPick := λ l, default 0 (position (is_top l) l).

Lemma is_top_spec l x : is_top l x = true ↔ ∀ y, y ∈ l → (y.1 ≤ x.1)%N.
Proof.
  unfold is_top. rw forallb_forall. split; intros Hl y Hy.
  - apply N.leb_le, Hl. by apply list_elem_of_In.
  - apply N.leb_le, Hl. by apply list_elem_of_In.
Qed.

Lemma top_exists (l : list (N * MessageId)) x : x ∈ l → ∃ top, top ∈ l ∧ ∀ y, y ∈ l → (y.1 ≤ top.1)%N.
Proof.
  revert x. induction l as [|z l IH]; intros x Hx; [by apply elem_of_nil in Hx|].
  destruct l as [|w l]; [exists z; split; [left|]; intros y ->%list_elem_of_singleton; lia|].
  destruct (IH w) as (top & Hin & Hmax); [left|]. destruct (decide (z.1 ≤ top.1)%N) as [Hle|Hgt].
  - exists top. split; [by right|]. intros y [->|Hy]%elem_of_cons; auto.
  - exists z. split; [left|]. intros y [->|Hy]%elem_of_cons; [lia|]. specialize (Hmax y Hy). lia.
Qed.

Lemma pick_laws : @HeapPickLaws pick.
Proof.
  intros l x Hx. unfold heap_pick, pick. destruct (top_exists l x Hx) as (top & Hin & Hmax).
  destruct (position (is_top l) l) as [i|] eqn:E; simpl.
  - apply position_Some in E as (y & Hi & Hy). exists y. split; [done|]. by apply is_top_spec.
  - rw position_None in E. specialize (E top Hin). by rw (proj2 (is_top_spec l top) Hmax) in E.
Qed.

#[local] Existing Instances Toy.toy_blake3 Toy.toy_hex Toy.toy_ed25519 pick.
#[local] Instance iter : MapIter MessageId N := toy_iter.
#[local] Instance topics : MapIter TopicId (list PeerId) := toy_iter.

Definition ident : Identity := identity_of_secret (replicate 32 x07).
Definition me : PeerId := peer_id ident.
Definition cache : MessageCache :=
  mk_MessageCache {[ [x01] := 1%N; [x02] := 2%N; [x03] := 3%N; [x04] := 4%N ]} 4.
Definition offer : GossipMessage := FileOffer me "f1" 3 100 7 zero_hash.
Definition signed : SignedGossipMessage := sign_gossip offer ident.
Definition topic : TopicId := topic_project "p".

Definition wire_codec : Codec GossipWireMessage := {|
  to_vec w := if bool_decide (wire_topic w = topic ∧ message (wire_signed w) = offer ∧
                              length (sender_public_key (wire_signed w)) = 32) then
                Some (sender_public_key (wire_signed w) ++ signature (wire_signed w)) else None;
  from_slice b := Some (mk_GossipWireMessage topic (mk_SignedGossipMessage offer (take 32 b) (drop 32 b)));
|}.
Lemma wire_codec_laws : @CodecLaws GossipWireMessage wire_codec.
Proof.
  intros [t [m pk sg]] b. simpl. case_bool_decide as E; [|done]. destruct E as (-> & -> & Hl).
  intros [= <-]. by rw take_app_length' // drop_app_length'.
Qed.
End Witness.

Lemma gc_removes_oldest_witness :
  seen (@gc Witness.pick Witness.iter Witness.cache) ⊆ seen Witness.cache ∧
  size (seen (@gc Witness.pick Witness.iter Witness.cache)) = 3 ∧
  seen (@gc Witness.pick Witness.iter Witness.cache) !! [x01] = None.
Proof.
  destruct (@gc_removes_oldest Witness.pick Witness.pick_laws Witness.iter toy_iter_laws Witness.cache)
    as (H1 & H2 & _).
  split_and!; [exact H1|exact H2|vm_compute; reflexivity].
Defined.

Lemma cache_remembers_recent_witness :
  (@check_and_insert Witness.pick Witness.iter 9
     (@insert_ids Witness.pick Witness.iter
        (@check_and_insert Witness.pick Witness.iter 5 Witness.cache [x05]).1
        [(6, [x06]); (7, [x07]); (8, [x08])]%N) [x05]).2 = true.
Proof.
  apply (@cache_remembers_recent Witness.pick Witness.pick_laws Witness.iter toy_iter_laws
           Witness.cache [x05] 5 [(6, [x06]); (7, [x07]); (8, [x08])]%N 9).
  - apply (bool_decide_unpack _). vm_compute. exact I.
  - vm_compute. reflexivity.
  - repeat split.
  - vm_compute. lia.
Defined.

Lemma delivered_is_authentic_witness :
  (∃ now, EPublish now Witness.topic Witness.offer ∈ [ESigned 1 Witness.topic Witness.signed]) ∨
  (∃ now s, ESigned now Witness.topic s ∈ [ESigned 1 Witness.topic Witness.signed] ∧
     message s = Witness.offer ∧
     @verify_gossip Toy.toy_blake3 Toy.toy_hex Toy.toy_ed25519 s = Ok () ∧
     ∀ p, claimed_sender Witness.offer = Some p →
       p = @peer_id_from_public_bytes Toy.toy_blake3 Toy.toy_hex (sender_public_key s)).
Proof.
  apply (@delivered_is_authentic Toy.toy_blake3 Toy.toy_hex Toy.toy_ed25519 Witness.pick Witness.iter
           Witness.topics 8 4 Witness.ident [ESigned 1 Witness.topic Witness.signed]
           Witness.topic Witness.offer).
  apply (bool_decide_unpack _). vm_compute. exact I.
Defined.

Lemma gossip_state_bounded_witness :
  size (seen (message_cache (@exec_all Toy.toy_blake3 Toy.toy_hex Toy.toy_ed25519 Witness.pick Witness.iter
    Witness.topics (new_gossip 2 1)
    [EGraft Witness.topic "a"; EGraft Witness.topic "b"; EUnsigned 1 Witness.topic Witness.offer]))) ≤ 2.
Proof.
  apply (@gossip_state_bounded Toy.toy_blake3 Toy.toy_hex Toy.toy_ed25519 Witness.pick Witness.pick_laws
           Witness.iter toy_iter_laws Witness.topics 2 1).
Defined.

Lemma want_offer_signature_binding_witness : message Witness.signed = Witness.offer.
Proof.
  apply (@want_offer_signature_binding Toy.toy_blake3 Toy.toy_hex Toy.toy_ed25519 Toy.toy_blake3_laws
           Toy.toy_hex_laws Witness.signed (mk_SignedGossipMessage Witness.offer
             (sender_public_key Witness.signed) (signature Witness.signed))).
  - vm_compute. repeat split; intros E; discriminate E.
  - vm_compute. repeat split; intros E; discriminate E.
  - vm_compute. reflexivity.
  - vm_compute. reflexivity.
  - reflexivity.
Defined.

Lemma gossip_wire_roundtrip_witness :
  ∃ sent, @handle_gossip_stream Toy.toy_blake3 Toy.toy_hex Toy.toy_ed25519 Witness.pick Witness.iter
    Witness.wire_codec 1 (drop 4 sent) (new_gossip 8 4) =
    ((@on_signed_message_received Toy.toy_blake3 Toy.toy_hex Toy.toy_ed25519 Witness.pick Witness.iter 1
       Witness.topic Witness.signed (new_gossip 8 4)).1, Ok ()).
Proof.
  eexists. eapply (@gossip_wire_roundtrip Toy.toy_blake3 Toy.toy_hex Toy.toy_ed25519 Witness.pick
    Witness.iter Witness.wire_codec Witness.wire_codec_laws 1 (mk_GossipWireMessage Witness.topic Witness.signed)).
  vm_compute. reflexivity.
Defined.
