(* ===== verification/Content.v ===== *)
(** * Content-addressed storage

    [synergos-net/src/content/block.rs], [content/store.rs] and [content/chunker.rs]:
    blocks named by their hash, the two stores behind the [ContentStore] trait, and the
    chunker that stores a file as a list of blocks and a root block.

    The trait is a class of operations with a class of laws; the chunker (and the
    bitswap session, in the next file) is verified against the class, and both
    implementations are shown to satisfy it: the in-memory map and the directory tree,
    whose file system is a map from paths to contents (I/O errors other than absence do
    not occur).

    The theorems: a file split and stored is read back whole; whatever a store
    contains, a file that is returned consists of blocks that hash to the identifiers of
    a root that hashes to the requested one; the directory store also answers [has] for
    paths outside its root. *)

From S2P Require Import Prelude Crypto Types.

Definition len {A} (l : list A) : N := N.of_nat (length l).

Record Block := mk_Block { cid : Cid; data : bytes }.
Global Instance Block_eq_dec : EqDecision Block.
Proof. solve_decision. Defined.

Section blocks.
Context `{Blake3, Hex}.
Definition cid_for (b : bytes) : Cid := "blake3-" +:+ hex_encode (blake3 b).
Definition new_block (b : bytes) : Block := mk_Block (cid_for b) b.
Definition block_verify (b : Block) : bool := bool_decide (cid_for (data b) = cid b).
End blocks.

(** ** The store interface *)
Class ContentStore (S : Type) := {
  put : Block → S → S * result NetError ();
  get : Cid → S → result NetError (option Block);
  has : Cid → S → bool;
}.

(** What the clients rely on.  [store_ok] is the implementation's invariant. *)
Class ContentStoreLaws (S : Type) `{Blake3, Hex, ContentStore S} := {
  store_ok : S → Prop;
  put_ok b s : store_ok s → store_ok (put b s).1;
  put_accepts b s : block_verify b = true → (put b s).2 = Ok ();
  put_rejects b s : block_verify b = false → put b s = (s, Err (ETransfer "cid/bytes mismatch"));
  get_valid c s b : store_ok s → get c s = Ok (Some b) → cid b = c ∧ block_verify b = true;
  get_put b s : store_ok s → block_verify b = true → get (cid b) (put b s).1 = Ok (Some b);
  get_put_other b c s x : store_ok s → c ≠ cid b →
    get c s = Ok (Some x) → get c (put b s).1 = Ok (Some x);
  get_has c s b : store_ok s → get c s = Ok (Some b) → has c s = true;
}.

(** Stores in which [has] promises a readable block. *)
Class ExactStore (S : Type) `{ContentStoreLaws S} : Prop :=
  has_get : ∀ c s, store_ok s → has c s = true → ∃ b, get c s = Ok (Some b).

(** ** [MemoryContentStore] *)
Record MemoryContentStore := mk_MemoryContentStore { inner : gmap Cid bytes }.

Section memory.
Context `{Blake3, Hex}.

Global Instance memory_store : ContentStore MemoryContentStore := {|
  put b s := if negb (block_verify b) then (s, Err (ETransfer "cid/bytes mismatch"))
             else (mk_MemoryContentStore (<[cid b := data b]> (inner s)), Ok ());
  get c s := Ok (mk_Block c <$> inner s !! c);
  has c s := bool_decide (is_Some (inner s !! c));
|}.

Global Program Instance memory_store_laws : ContentStoreLaws MemoryContentStore := {|
  store_ok s := map_Forall (λ c b, cid_for b = c) (inner s);
|}.
Next Obligation.
  intros b s Hs. simpl. destruct (block_verify b) eqn:E; simpl; [|done].
  apply map_Forall_insert_2; [|done]. unfold block_verify in E. by bool_to_prop.
Qed.
Next Obligation. intros b s E. simpl. by rw E. Qed.
Next Obligation. intros b s E. simpl. by rw E. Qed.
Next Obligation.
  intros c s b Hs. simpl. intros [= Hg]. apply fmap_Some in Hg as (x & Hx & ->).
  split; [done|]. apply bool_decide_eq_true_2. by apply Hs.
Qed.
Next Obligation. intros [c x] s Hs E. simpl. rw E /= lookup_insert_eq //. Qed.
Next Obligation.
  intros b c s x Hs Hne Hg. simpl in *. destruct (block_verify b); simpl; [|done].
  by rw lookup_insert_ne.
Qed.
Next Obligation.
  intros c s b Hs. simpl. intros [= Hg]. apply fmap_Some in Hg as (x & Hx & _).
  rw Hx. by apply bool_decide_eq_true_2.
Qed.

Global Instance memory_store_exact : ExactStore MemoryContentStore.
Proof.
  intros c s _ Hh. simpl in *. bool_to_prop. destruct Hh as [b Hb]. rw Hb /=. by eexists.
Qed.
End memory.

(** ** [FileContentStore] *)
Record FileContentStore := mk_FileContentStore {
  fs_root : string;
  fs : gmap string bytes;
}.

Definition starts_with_slash (s : string) : bool :=
  match as_bytes s with b :: _ => bool_decide (b = x2f) | [] => false end.

(** [Path::join]: an absolute argument replaces the base. *)
Definition join (base p : string) : string :=
  if starts_with_slash p then p else base +:+ "/" +:+ p.

(** [str::split_at(2)]; [None] is the panic inside a character. *)
Definition split_at2 (s : string) : option (string * string) :=
  match as_bytes s !! 2 with
  | Some b => if is_continuation b then None
              else Some (String.string_of_list_byte (take 2 (as_bytes s)),
                         String.string_of_list_byte (drop 2 (as_bytes s)))
  | None => Some (s, "")
  end.

Definition path_for (root : string) (c : Cid) : option string :=
  if 2 <=? length (as_bytes c) then
    '(prefix, rest) ← split_at2 c; Some (join (join root prefix) rest)
  else Some (join (join root "zz") c).

Section file.
Context `{Blake3, Hex}.

Global Instance file_store : ContentStore FileContentStore := {|
  put b s :=
    if negb (block_verify b) then (s, Err (ETransfer "cid/bytes mismatch"))
    else match path_for (fs_root s) (cid b) with
         | Some path => (mk_FileContentStore (fs_root s) (<[path := data b]> (fs s)), Ok ())
         | None => (s, Err Panicked)
         end;
  get c s :=
    match path_for (fs_root s) c with
    | None => Err Panicked
    | Some path =>
        match fs s !! path with
        | Some b =>
            let candidate := mk_Block c b in
            if negb (block_verify candidate) then Err (ETransfer "stored block failed verification")
            else Ok (Some candidate)
        | None => Ok None
        end
    end;
  has c s :=
    match path_for (fs_root s) c with
    | Some path => bool_decide (is_Some (fs s !! path))
    | None => false
    end;
|}.

(** The path of a well-formed identifier. *)
Lemma path_for_cid root b :
  path_for root (cid_for b) = Some (join (root +:+ "/bl") ("ake3-" +:+ hex_encode (blake3 b))).
Proof.
  pose proof (String.string_of_list_byte_of_string ("ake3-" +:+ hex_encode (blake3 b))) as Hrest.
  unfold path_for, cid_for, split_at2, as_bytes in *. simpl in *. unfold join at 2. simpl.
  by rw Hrest.
Qed.

Lemma join_rel root h : join (root +:+ "/bl") ("ake3-" +:+ h) = root +:+ "/bl/ake3-" +:+ h.
Proof. unfold join. simpl. rw string_app_assoc //. Qed.

Lemma path_for_inj root b b' :
  path_for root (cid_for b) = path_for root (cid_for b') → cid_for b = cid_for b'.
Proof.
  rw !path_for_cid !join_rel. intros Heq. injection Heq as Heq. do 2 apply string_app_inj_l in Heq.
  unfold cid_for. by rw Heq.
Qed.

Lemma block_verify_cid b : block_verify b = true → cid b = cid_for (data b).
Proof. unfold block_verify. intros. by bool_to_prop. Qed.

Global Program Instance file_store_laws : ContentStoreLaws FileContentStore := {|
  store_ok s := True;
|}.
Next Obligation. done. Qed.
Next Obligation.
  intros b s E. simpl. rw E /= (block_verify_cid _ E) path_for_cid //.
Qed.
Next Obligation. intros b s E. simpl. by rw E. Qed.
Next Obligation.
  intros c s b _. simpl. destruct (path_for _ _); [|done]. destruct (fs s !! _); [|done].
  destruct (block_verify _) eqn:E; [|done]. by intros [= <-].
Qed.
Next Obligation.
  intros b s _ E. simpl. rw E /=. rw (block_verify_cid _ E) path_for_cid /=.
  rw ?path_for_cid lookup_insert_eq. destruct b as [c x].
  unfold block_verify in *. simpl in *. bool_to_prop. subst c. by rw bool_decide_eq_true_2.
Qed.
Next Obligation.
  intros b c s x _ Hne. simpl. destruct (block_verify b) eqn:E; simpl; [|done].
  rw (block_verify_cid _ E) path_for_cid /=.
  destruct (path_for (fs_root s) c) as [p|] eqn:Hp; [|done].
  destruct (fs s !! p) as [y|] eqn:Hy; [|done].
  destruct (block_verify (mk_Block c y)) eqn:Ey; simpl; [|done]. intros [= <-].
  rw lookup_insert_ne; [|by rw Hy Ey]. intros Heq. apply Hne.
  apply block_verify_cid in Ey. simpl in Ey. rw (block_verify_cid _ E).
  rw Ey. apply (path_for_inj (fs_root s)). by rw -Ey Hp path_for_cid Heq.
Qed.
Next Obligation.
  intros c s b _. simpl. destruct (path_for _ _) as [p|]; [|done].
  destruct (fs s !! p); [|done]. intros _. by apply bool_decide_eq_true_2.
Qed.
End file.

(** ** The chunker *)
Record ChunkDag := mk_ChunkDag { total_size : N; dag_chunks : list Cid }.

Global Instance ChunkDag_eq_dec : EqDecision ChunkDag.
Proof. solve_decision. Defined.
Global Program Instance ChunkDag_countable : Countable ChunkDag :=
  inj_countable' (λ d, (total_size d, dag_chunks d)) (λ x, mk_ChunkDag x.1 x.2) _.
Next Obligation. by intros []. Qed.

Definition default_chunk_size : nat := 256 * 1024.

Section chunker.
Context `{Blake3, Hex} {St : Type} `{ContentStore St, !Codec ChunkDag}.

(** The read loop: one turn reads up to a whole chunk, the inner loop going on until the
    buffer is full or the file ends; [rest] is the unread part of the file. *)
Fixpoint add_chunks (fuel chunk_size : nat) (rest : bytes) (cids : list Cid) (total : N) (s : St) :
    St * result NetError (list Cid * N) :=
  match fuel with
  | O => (s, Ok (cids, total))
  | S fuel =>
      let chunk := take chunk_size rest in
      if length chunk =? 0 then (s, Ok (cids, total))
      else
        let block := new_block chunk in
        match put block s with
        | (s, Err e) => (s, Err e)
        | (s, Ok _) =>
            let cids := cids ++ [cid block] in
            let total := (total + len chunk)%N in
            if length chunk <? chunk_size then (s, Ok (cids, total))
            else add_chunks fuel chunk_size (drop chunk_size rest) cids total s
        end
  end.

(** [file] is the content at the path ([None]: no such file); a turn that goes on has
    consumed at least one byte, so the length of the file bounds the turns. *)
Definition add_file (chunk_size : nat) (file : option bytes) (s : St) : St * result NetError Cid :=
  match file with
  | None => (s, Err EIo)
  | Some content =>
      match add_chunks (S (length content)) chunk_size content [] 0 s with
      | (s, Err e) => (s, Err e)
      | (s, Ok (cids, total)) =>
          match to_vec (mk_ChunkDag total cids) with
          | None => (s, Err (ESerialization "dag encode"))
          | Some dag_bytes =>
              let root := new_block dag_bytes in
              match put root s with
              | (s, Err e) => (s, Err e)
              | (s, Ok _) => (s, Ok (cid root))
              end
          end
      end
  end.

(** The loop of [get_file] over the chunks; [out] is what was written so far. *)
Fixpoint write_chunks (cids : list Cid) (out : bytes) (s : St) : bytes * result NetError () :=
  match cids with
  | [] => (out, Ok ())
  | c :: cids =>
      match get c s with
      | Err e => (out, Err e)
      | Ok None => (out, Err (ETransfer "missing chunk"))
      | Ok (Some b) =>
          if negb (block_verify b) then (out, Err (ETransfer "chunk verification failed"))
          else write_chunks cids (out ++ data b) s
      end
  end.

(** The output file ([None]: not created) and the result. *)
Definition get_file (root : Cid) (s : St) : option bytes * result NetError N :=
  match get root s with
  | Err e => (None, Err e)
  | Ok None => (None, Err (ETransfer "root cid missing"))
  | Ok (Some root_block) =>
      match from_slice (A := ChunkDag) (data root_block) with
      | None => (None, Err (ESerialization "dag decode"))
      | Some dag =>
          match write_chunks (dag_chunks dag) [] s with
          | (out, Err e) => (Some out, Err e)
          | (out, Ok _) =>
              if negb (len out =? total_size dag)%N then (Some out, Err (ETransfer "size mismatch"))
              else (Some out, Ok (len out))
          end
      end
  end.
End chunker.

(** ** Lemmas on the chunker *)
Section chunker_lemmas.
Context `{Blake3, Hex} {St : Type} `{ContentStore St, !ContentStoreLaws St, !Codec ChunkDag}.
Implicit Types s : St.

Lemma new_block_verify b : block_verify (new_block b) = true.
Proof. by apply bool_decide_eq_true_2. Qed.

(** The store holds [b] under its identifier. *)
Definition holds s (b : bytes) : Prop := get (cid_for b) s = Ok (Some (new_block b)).

(** The digests of the listed byte strings do not collide. *)
Definition collision_free (l : list bytes) : Prop :=
  ∀ x y, x ∈ l → y ∈ l → cid_for x = cid_for y → x = y.

Lemma holds_put s b b' :
  store_ok s → holds s b → (cid_for b = cid_for b' → b = b') → holds (put (new_block b') s).1 b.
Proof.
  intros Hok Hb Hcol. unfold holds.
  destruct (decide (cid_for b = cid_for b')) as [Heq|Hne].
  - rw Hcol //. apply (get_put (new_block b')); [done|apply new_block_verify].
  - by apply get_put_other.
Qed.

Lemma put_new_block s b :
  store_ok s → ∃ s', put (new_block b) s = (s', Ok ()) ∧ store_ok s' ∧ holds s' b.
Proof.
  intros Hok. pose proof (put_accepts (new_block b) s (new_block_verify b)).
  pose proof (put_ok (new_block b) s Hok).
  pose proof (get_put (new_block b) s Hok (new_block_verify b)).
  destruct (put (new_block b) s) as [s' r]. simpl in *. subst r. eauto.
Qed.

Lemma add_chunks_spec n fuel rest cids total s :
  0 < n → length rest < fuel → store_ok s → collision_free (chunks n rest) →
  ∃ s', add_chunks fuel n rest cids total s =
          (s', Ok (cids ++ (cid_for <$> chunks n rest), total + len rest)%N) ∧
    store_ok s' ∧ Forall (holds s') (chunks n rest) ∧
    (∀ b, holds s b → (∀ c, c ∈ chunks n rest → cid_for b = cid_for c → b = c) → holds s' b).
Proof.
  intros Hn. revert rest cids total s.
  induction fuel as [|fuel IH]; intros rest cids total s Hf Hok Hcol; [lia|]. cbn [add_chunks].
  destruct (length (take n rest) =? 0) eqn:E0; bool_to_prop.
  { assert (rest = []) as -> by (destruct rest, n; simpl in E0; [done..|lia|lia]).
    exists s. simpl. rw app_nil_r N.add_0_r //. }
  assert (Hne : rest ≠ []) by (intros ->; by rw take_nil in E0).
  rw chunks_step // in Hcol |- *. set (c := take n rest) in *.
  destruct (put_new_block s c Hok) as (s1 & Hput & Hok1 & Hc). rw Hput.
  assert (Hkeep1 : ∀ b, holds s b → (cid_for b = cid_for c → b = c) → holds s1 b).
  { intros b Hb Hbc. pose proof (holds_put s b c Hok Hb Hbc) as Hh. by rw Hput in Hh. }
  assert (Hlen : len rest = (len c + len (drop n rest))%N).
  { unfold len, c. rw length_take length_drop. lia. }
  destruct (length c <? n) eqn:E1; bool_to_prop.
  - assert (Hd : drop n rest = []) by (apply drop_ge; unfold c in E1; rw length_take in E1; lia).
    exists s1. rw Hd chunks_nil Hlen Hd /= N.add_0_r. split_and!; [done|done|by constructor|].
    intros b Hb Hcl. apply Hkeep1; [done|]. apply Hcl. left.
  - destruct (IH (drop n rest) (cids ++ [cid_for c]) (total + len c)%N s1) as (s2 & Hadd & Hok2 & Hall & Hk).
    + rw length_drop. destruct rest; [done|]. simpl in *. lia.
    + done.
    + intros x y Hx Hy. apply Hcol; by right.
    + exists s2. change (cid (new_block c)) with (cid_for c). rw Hadd fmap_cons -app_assoc Hlen N.add_assoc.
      split_and!; [done|done| |].
      * constructor; [|done]. apply Hk; [done|]. intros d Hd. apply Hcol; [left|by right].
      * intros b Hb Hcl. apply Hk.
        -- apply Hkeep1; [done|]. apply Hcl. left.
        -- intros d Hd. apply Hcl. by right.
Qed.

Lemma write_chunks_holds l out s :
  Forall (holds s) l → write_chunks (cid_for <$> l) out s = (out ++ mjoin l, Ok ()).
Proof.
  revert out. induction l as [|b l IH]; intros out Hl; simpl; [by rw app_nil_r|].
  apply Forall_cons in Hl as [Hb Hl]. rw Hb new_block_verify /= IH // -app_assoc //.
Qed.

Lemma write_chunks_Ok l out s out' :
  store_ok s → write_chunks l out s = (out', Ok ()) →
  ∃ bs, cid_for <$> bs = l ∧ out' = out ++ mjoin bs.
Proof.
  intros Hok. revert out. induction l as [|c l IH]; intros out; simpl.
  { intros [= <-]. exists []. by rw app_nil_r. }
  destruct (get c s) as [[b|]|] eqn:Hg; [|done..]. destruct (block_verify b) eqn:Hv; [|done].
  intros (bs & <- & ->)%IH. exists (data b :: bs). destruct (get_valid _ _ _ Hok Hg) as [<- _].
  unfold block_verify in Hv. bool_to_prop. rw fmap_cons Hv -app_assoc //.
Qed.
End chunker_lemmas.

(** ** Properties *)

(** storing and reading back a file.  On any store that keeps the interface's laws,
    [add_file] succeeds (when the root node can be encoded), and [get_file] of the root
    it returns writes exactly the original bytes, provided the digests of the file's
    chunks and of the root node do not collide. *)
Theorem add_get_roundtrip
    `{Blake3, Hex} {St : Type} `{ContentStore St, !ContentStoreLaws St, !Codec ChunkDag, !CodecLaws ChunkDag}
    n content (s : St) root_bytes :
  store_ok s → 0 < n →
  to_vec (mk_ChunkDag (len content) (cid_for <$> chunks n content)) = Some root_bytes →
  collision_free (chunks n content ++ [root_bytes]) →
  ∃ s', add_file n (Some content) s = (s', Ok (cid_for root_bytes)) ∧ store_ok s' ∧
    get_file (cid_for root_bytes) s' = (Some content, Ok (len content)).
Proof.
  intros Hok Hn Hdag Hcol. unfold add_file.
  destruct (add_chunks_spec n (S (length content)) content [] 0 s Hn) as (s1 & -> & Hok1 & Hall & _);
    [lia|done|intros x y Hx Hy; apply Hcol; apply elem_of_app; by left|].
  simpl. rw Hdag. destruct (put_new_block s1 root_bytes Hok1) as (s2 & Hput & Hok2 & Hroot). rw Hput.
  exists s2. split_and!; [done|done|]. unfold get_file. rw Hroot /= (from_slice_to_vec _ _ Hdag) /=.
  rw write_chunks_holds.
  - rw Forall_forall in Hall. apply Forall_forall. intros b Hb.
    pose proof (holds_put s1 b root_bytes Hok1 (Hall b Hb)) as Hh. rw Hput in Hh. apply Hh.
    apply Hcol; set_solver.
  - rw chunks_join //= N.eqb_refl //.
Qed.

(** integrity of what is read.  Whatever a store has been filled with, a file that
    [get_file] returns is the concatenation of byte strings that hash to the chunk
    identifiers of a root node, which itself hashes to the requested identifier, and its
    length is the size the root node declares. *)
Theorem get_file_integrity
    `{Blake3, Hex} {St : Type} `{ContentStore St, !ContentStoreLaws St, !Codec ChunkDag}
    root (s : St) out n :
  store_ok s → get_file root s = (Some out, Ok n) →
  ∃ root_bytes dag bs,
    cid_for root_bytes = root ∧ from_slice root_bytes = Some dag ∧
    cid_for <$> bs = dag_chunks dag ∧ out = mjoin bs ∧ n = len out ∧ n = total_size dag.
Proof.
  intros Hok. unfold get_file. destruct (get root s) as [[b|]|] eqn:Hg; [|done..].
  destruct (from_slice (data b)) as [dag|] eqn:Hd; [|done].
  destruct (write_chunks (dag_chunks dag) [] s) as [o [[]|]] eqn:Hw; [|done].
  destruct (len o =? total_size dag)%N eqn:Hs; [|done]. intros [= -> <-]. bool_to_prop.
  apply write_chunks_Ok in Hw as (bs & Hbs & ->); [|done].
  destruct (get_valid _ _ _ Hok Hg) as [<- Hv]. unfold block_verify in Hv. bool_to_prop.
  exists (data b), dag, bs. simpl in *. by rw -Hs.
Qed.

(** the directory store looks outside its root.  For an identifier made of any two
    ASCII characters and an absolute path, [has] tells whether that path exists, since
    joining an absolute component discards the root. *)
Theorem file_store_has_escapes_root `{Blake3, Hex} root files path :
  starts_with_slash path = true →
  has ("xx" +:+ path) (mk_FileContentStore root files) = bool_decide (is_Some (files !! path)).
Proof.
  intros Hs. unfold has, file_store. simpl.
  assert (Hp : path_for root ("xx" +:+ path) = Some path); [|by rw Hp].
  unfold path_for, split_at2.
  change (as_bytes ("xx" +:+ path)) with (x78 :: x78 :: as_bytes path). simpl.
  unfold starts_with_slash in Hs. destruct (as_bytes path) as [|b l] eqn:E; [done|]. bool_to_prop. subst b.
  simpl. replace (String.string_of_list_byte (x2f :: l)) with path.
  - unfold join at 1. unfold starts_with_slash. rw E //.
  - rw -E. unfold as_bytes. by rw String.string_of_list_byte_of_string.
Qed.

(** ** Witnesses *)
Module Witness.
#[local] Existing Instances Toy.toy_blake3 Toy.toy_hex.
#[local] Instance dag_codec : Codec ChunkDag := Toy.countable_codec.
Definition content : bytes := as_bytes "hello".
Definition root_bytes : bytes :=
  default [] (to_vec (mk_ChunkDag (len content) (cid_for <$> chunks 3 content))).
Definition empty : MemoryContentStore := mk_MemoryContentStore ∅.
Definition filled : MemoryContentStore := (add_file 3 (Some content) empty).1.
Definition root : Cid := cid_for root_bytes.

(** Collision freedom, decided. *)
Definition distinct_cids (l : list bytes) : bool :=
  forallb (λ x, forallb (λ y, negb (bool_decide (cid_for x = cid_for y)) || bool_decide (x = y)) l) l.
Lemma distinct_cids_free l : distinct_cids l = true → collision_free l.
Proof.
  unfold distinct_cids. rw forallb_forall. intros Hd x y Hx%list_elem_of_In Hy%list_elem_of_In Heq.
  specialize (Hd x Hx). apply (proj1 (forallb_forall _ _)) with (x := y) in Hd; [|done].
  rw (bool_decide_eq_true_2 _ Heq) /= in Hd. by bool_to_prop.
Qed.
End Witness.

Lemma add_get_roundtrip_witness :
  ∃ s', @add_file Toy.toy_blake3 Toy.toy_hex _ (@memory_store Toy.toy_blake3 Toy.toy_hex) Witness.dag_codec 3 (Some Witness.content) Witness.empty
        = (s', Ok Witness.root) ∧
    map_Forall (λ c b, @cid_for Toy.toy_blake3 Toy.toy_hex b = c) (inner s') ∧
    @get_file Toy.toy_blake3 Toy.toy_hex _ (@memory_store Toy.toy_blake3 Toy.toy_hex) Witness.dag_codec Witness.root s' =
      (Some Witness.content, Ok 5%N).
Proof.
  apply (@add_get_roundtrip Toy.toy_blake3 Toy.toy_hex _ (@memory_store Toy.toy_blake3 Toy.toy_hex) memory_store_laws Witness.dag_codec
           Toy.countable_codec_laws 3 Witness.content Witness.empty Witness.root_bytes).
  - apply map_Forall_empty.
  - lia.
  - vm_compute. reflexivity.
  - apply Witness.distinct_cids_free. vm_compute. reflexivity.
Defined.

Lemma get_file_integrity_witness :
  ∃ root_bytes dag bs,
    @cid_for Toy.toy_blake3 Toy.toy_hex root_bytes = Witness.root ∧
    @from_slice ChunkDag Witness.dag_codec root_bytes = Some dag ∧
    @cid_for Toy.toy_blake3 Toy.toy_hex <$> bs = dag_chunks dag ∧ Witness.content = mjoin bs ∧
    5%N = len Witness.content ∧ 5%N = total_size dag.
Proof.
  apply (@get_file_integrity Toy.toy_blake3 Toy.toy_hex _
           (@memory_store Toy.toy_blake3 Toy.toy_hex) memory_store_laws Witness.dag_codec
           Witness.root Witness.filled Witness.content 5%N).
  - apply (bool_decide_unpack _). vm_compute. exact I.
  - vm_compute. reflexivity.
Defined.

Lemma file_store_has_escapes_root_witness :
  @has FileContentStore (@file_store Toy.toy_blake3 Toy.toy_hex) ("xx" +:+ "/etc/passwd")
    (mk_FileContentStore "/var/synergos" {[ "/etc/passwd" := [x00] ]}) =
    bool_decide (is_Some (({[ "/etc/passwd" := [x00] ]} : gmap string bytes) !! "/etc/passwd")).
Proof.
  apply (@file_store_has_escapes_root Toy.toy_blake3 Toy.toy_hex "/var/synergos"
           {[ "/etc/passwd" := [x00] ]} "/etc/passwd").
  reflexivity.
Defined.
