(* ===== verification/Bitswap.v ===== *)
(** * Block exchange

    [synergos-net/src/content/bitswap.rs] and [content/session.rs]: the request and
    response frames, the server of one stream, and the client session that fetches
    missing blocks and whole chunk trees into a store.

    The peer is a parameter: the byte stream it answers to a byte stream, so that it may
    be hostile.  Batches are in flight concurrently; the model lets them complete in an
    arbitrary order, each writing its blocks when it completes.

    The theorems: an honest server answers a want list with exactly one frame per
    identifier in request order, and the client decodes those answers; whatever a peer
    sends, a fetch stores only blocks that hash to the requested identifiers, reports an
    outcome for every identifier, and a block reported as fetched is readable; a fetched
    tree is complete. *)

From S2P Require Import Prelude Crypto Types Content.

Definition BITSWAP_STREAM_MAGIC : bytes := as_bytes "BSW1".
Definition MAX_BITSWAP_FRAME : N := 16 * 1024 * 1024.
Definition MAX_WANTLIST_LEN : N := 1024.

Inductive BitswapRequest :=
| Want (cid : Cid)
| WantList (cids : list Cid) (want_have : bool)
| Cancel (cids : list Cid).

Inductive BitswapResponse :=
| RBlock (cid : Cid) (data : bytes)
| RNotFound (cid : Cid)
| RHave (cid : Cid)
| RDontHave (cid : Cid).

Global Instance BitswapRequest_eq_dec : EqDecision BitswapRequest.
Proof. solve_decision. Defined.
Global Instance BitswapResponse_eq_dec : EqDecision BitswapResponse.
Proof. solve_decision. Defined.

(** [(body.len() as u32).to_be_bytes()] and the body. *)
Definition write_frame (body : bytes) : bytes := be_bytes 4 (len body) ++ body.

(** [None] at the end of the stream; otherwise the body and what is left. *)
Definition read_frame_body (s : bytes) : result NetError (option (bytes * bytes)) :=
  match s with
  | [] => Ok None
  | _ =>
      if length s <? 4 then Err (EQuic "bitswap truncated len")
      else
        let frame_len := of_be_bytes (take 4 s) in
        if (MAX_BITSWAP_FRAME <? frame_len)%N then Err (ESerialization "bitswap frame too large")
        else
          let s := drop 4 s in
          if (len s <? frame_len)%N then Err (EQuic "bitswap read body")
          else Ok (Some (take (N.to_nat frame_len) s, drop (N.to_nat frame_len) s))
  end.

Section bitswap.
Context `{!Codec BitswapRequest, !Codec BitswapResponse}.

(** [while let Some(body) = read_frame_body(..)? { .. }]; every turn consumes at least
    the four length bytes, so the length of the stream bounds the turns. *)
Fixpoint read_responses (fuel : nat) (s : bytes) (out : list BitswapResponse) :
    result NetError (list BitswapResponse) :=
  match fuel with
  | O => Ok out
  | S fuel =>
      frame ← read_frame_body s;
      match frame with
      | None => Ok out
      | Some (body, s) =>
          resp ← ok_or (from_slice (A := BitswapResponse) body) (ESerialization "bitswap resp decode");
          read_responses fuel s (out ++ [resp])
      end
  end.

Definition request_of (cids : list Cid) (want_have : bool) : BitswapRequest :=
  match cids with
  | [c] => if negb want_have then Want c else WantList cids want_have
  | _ => WantList cids want_have
  end.

(** [peer] answers the stream it is sent. *)
Definition request_many (peer : bytes → bytes) (cids : list Cid) (want_have : bool) :
    result NetError (list BitswapResponse) :=
  match cids with
  | [] => Ok []
  | _ =>
      if (MAX_WANTLIST_LEN <? len cids)%N then Err (ESerialization "bitswap wantlist too large")
      else
        body ← ok_or (to_vec (request_of cids want_have)) (ESerialization "bitswap req encode");
        let answer := peer (BITSWAP_STREAM_MAGIC ++ write_frame body) in
        if length answer <? 4 then Err (EQuic "bitswap read magic")
        else if negb (bool_decide (take 4 answer = BITSWAP_STREAM_MAGIC)) then
          Err (ESerialization "bitswap response magic mismatch")
        else read_responses (S (length answer)) (drop 4 answer) []
  end.

Definition request_block (peer : bytes → bytes) (c : Cid) : result NetError BitswapResponse :=
  results ← request_many peer [c] false;
  ok_or (last results) (ESerialization "bitswap empty response").

Definition send_cancel (cids : list Cid) : result NetError bytes :=
  body ← ok_or (to_vec (Cancel cids)) (ESerialization "bitswap cancel encode");
  Ok (BITSWAP_STREAM_MAGIC ++ write_frame body).

Section server.
Context {St : Type} `{ContentStore St}.

(** The response to one identifier. *)
Definition answer (want_have : bool) (s : St) (c : Cid) : result NetError BitswapResponse :=
  if want_have then Ok (if has c s then RHave c else RDontHave c)
  else
    b ← get c s;
    match b with
    | Some b => Ok (RBlock (cid b) (data b))
    | None => Ok (RNotFound c)
    end.

(** The frames written, and the result; an error leaves the frames already written. *)
Fixpoint answer_all (want_have : bool) (s : St) (cids : list Cid) (out : bytes) : bytes * result NetError () :=
  match cids with
  | [] => (out, Ok ())
  | c :: cids =>
      match answer want_have s c with
      | Err e => (out, Err e)
      | Ok resp =>
          match to_vec resp with
          | None => (out, Err (ESerialization "bitswap resp encode"))
          | Some frame => answer_all want_have s cids (out ++ write_frame frame)
          end
      end
  end.

(** The stream after the magic; what is written back, and the result. *)
Definition handle_bitswap_stream (s : St) (input : bytes) : bytes * result NetError () :=
  match read_frame_body input with
  | Err e => ([], Err e)
  | Ok None => ([], Err (ESerialization "bitswap empty request"))
  | Ok (Some (body, _)) =>
      match from_slice (A := BitswapRequest) body with
      | None => ([], Err (ESerialization "bitswap req decode"))
      | Some (Cancel _) => ([], Ok ())
      | Some (Want c) => answer_all false s [c] BITSWAP_STREAM_MAGIC
      | Some (WantList cids want_have) =>
          if (MAX_WANTLIST_LEN <? len cids)%N then
            (BITSWAP_STREAM_MAGIC, Err (ESerialization "bitswap wantlist too large"))
          else answer_all want_have s cids BITSWAP_STREAM_MAGIC
      end
  end.
End server.
End bitswap.

(** ** The session *)
Definition SESSION_WANTLIST_CHUNK : nat := 128.

Inductive FetchOutcome := Fetched | NotFound.
Global Instance FetchOutcome_eq_dec : EqDecision FetchOutcome.
Proof. solve_decision. Defined.

(** The order in which concurrent batches complete. *)
Class BatchOrder := batch_order : list (list Cid) → list (list Cid).
Class BatchOrderLaws `{BatchOrder} : Prop := batch_order_perm : ∀ l, batch_order l ≡ₚ l.

Section session.
Context `{Blake3, Hex, !Codec BitswapRequest, !Codec BitswapResponse, !Codec ChunkDag, BatchOrder}.
Context {St : Type} `{ContentStore St}.
Variable peer : bytes → bytes.

(** One batch of [have_query]. *)
Definition have_batch (batch : list Cid) : result NetError (list (Cid * bool)) :=
  resps ← request_many peer batch true;
  if negb (length resps =? length batch) then Err (ESerialization "bitswap have_query: response count")
  else Ok (zip_with (λ c r, (c, match r with RHave _ => true | _ => false end)) batch resps).

Fixpoint have_batches (batches : list (list Cid)) : result NetError (list (Cid * bool)) :=
  match batches with
  | [] => Ok []
  | b :: bs => r ← have_batch b; rs ← have_batches bs; Ok (r ++ rs)
  end.

Definition have_query (cids : list Cid) : result NetError (list (Cid * bool)) :=
  have_batches (chunks SESSION_WANTLIST_CHUNK cids).

(** The loop of [fetch_batch] over wanted identifiers and responses. *)
Fixpoint store_responses (cids : list Cid) (resps : list BitswapResponse)
    (out : list (Cid * FetchOutcome)) (s : St) : St * result NetError (list (Cid * FetchOutcome)) :=
  match cids, resps with
  | c :: cids, r :: resps =>
      match r with
      | RBlock got bytes =>
          if negb (bool_decide (got = c)) then (s, Err (ESerialization "bitswap response cid mismatch"))
          else
            let block := mk_Block got bytes in
            if negb (block_verify block) then (s, Err (ETransfer "bitswap block failed verification"))
            else
              match put block s with
              | (s, Err e) => (s, Err e)
              | (s, Ok _) => store_responses cids resps (out ++ [(c, Fetched)]) s
              end
      | RNotFound got =>
          if negb (bool_decide (got = c)) then (s, Err (ESerialization "bitswap NotFound cid mismatch"))
          else store_responses cids resps (out ++ [(c, NotFound)]) s
      | _ => (s, Err (ESerialization "bitswap fetch_batch: unexpected response variant"))
      end
  | _, _ => (s, Ok out)
  end.

Definition fetch_batch (cids : list Cid) (s : St) : St * result NetError (list (Cid * FetchOutcome)) :=
  match request_many peer cids false with
  | Err e => (s, Err e)
  | Ok resps =>
      if negb (length resps =? length cids) then
        (s, Err (ESerialization "bitswap fetch_batch: response count"))
      else store_responses cids resps [] s
  end.

Fixpoint fetch_batches (batches : list (list Cid)) (outcomes : list (Cid * FetchOutcome)) (s : St) :
    St * result NetError (list (Cid * FetchOutcome)) :=
  match batches with
  | [] => (s, Ok outcomes)
  | b :: bs =>
      match fetch_batch b s with
      | (s, Err e) => (s, Err e)
      | (s, Ok partial) => fetch_batches bs (outcomes ++ partial) s
      end
  end.

Definition fetch_blocks (cids : list Cid) (s : St) : St * result NetError (list (Cid * FetchOutcome)) :=
  let missing := filter (λ c, has c s = false) cids in
  let outcomes := (λ c, (c, Fetched)) <$> filter (λ c, has c s = true) cids in
  match missing with
  | [] => (s, Ok outcomes)
  | _ => fetch_batches (batch_order (chunks SESSION_WANTLIST_CHUNK missing)) outcomes s
  end.

Definition fetch_dag (root : Cid) (s : St) : St * result NetError ChunkDag :=
  match fetch_blocks [root] s with
  | (s, Err e) => (s, Err e)
  | (s, Ok _) =>
      match get root s with
      | Err e => (s, Err e)
      | Ok None => (s, Err (ETransfer "root cid unavailable"))
      | Ok (Some root_block) =>
          match from_slice (A := ChunkDag) (data root_block) with
          | None => (s, Err (ESerialization "dag decode"))
          | Some dag =>
              match fetch_blocks (dag_chunks dag) s with
              | (s, Err e) => (s, Err e)
              | (s, Ok outcomes) =>
                  match filter (λ co, co.2 = NotFound) outcomes with
                  | [] => (s, Ok dag)
                  | _ => (s, Err (ETransfer "fetch_dag: chunk(s) NotFound"))
                  end
              end
          end
      end
  end.
End session.

(** ** Frames *)
Lemma read_frame_written body rest :
  (len body ≤ MAX_BITSWAP_FRAME)%N → read_frame_body (write_frame body ++ rest) = Ok (Some (body, rest)).
Proof.
  intros Hl. unfold read_frame_body, write_frame. rw -app_assoc.
  destruct (be_bytes 4 (len body) ++ body ++ rest) as [|x l] eqn:E.
  { apply (f_equal length) in E. rw length_app length_be_bytes in E. simpl in E. lia. }
  rw -E. rw length_app length_be_bytes.
  destruct (4 + length (body ++ rest) <? 4) eqn:E4; bool_to_prop; [lia|].
  rw take_app_length' ?length_be_bytes // drop_app_length' ?length_be_bytes //.
  rw of_be_bytes_be_bytes; [unfold MAX_BITSWAP_FRAME in *; cbn; lia|].
  rw (proj2 (N.ltb_ge _ _) Hl). unfold len. rw Nat2N.id.
  rw (proj2 (N.ltb_ge _ _)); [rw length_app; lia|]. rw take_app_length drop_app_length //.
Qed.

Section bitswap_lemmas.
Context `{!Codec BitswapRequest, !Codec BitswapResponse, !CodecLaws BitswapRequest, !CodecLaws BitswapResponse}.

(** A response and the frame body it is sent as. *)
Definition framed (r : BitswapResponse) (f : bytes) : Prop :=
  to_vec r = Some f ∧ (len f ≤ MAX_BITSWAP_FRAME)%N.

Definition write_frames (fs : list bytes) : bytes := fs ≫= write_frame.

Lemma length_write_frames fs : 4 * length fs ≤ length (write_frames fs).
Proof.
  unfold write_frames. induction fs as [|f fs IH]; [done|].
  rw bind_cons length_app. unfold write_frame at 1. rw length_app length_be_bytes.
  cbn [length]. lia.
Qed.

Lemma read_responses_written rs fs fuel out :
  Forall2 framed rs fs → length fs < fuel →
  read_responses fuel (write_frames fs) out = Ok (out ++ rs).
Proof.
  intros Hall. revert fuel out. induction Hall as [|r f rs fs [Hr Hf] Hall IH]; intros [|fuel] out Hfuel;
    simpl in *; try lia; [by rw app_nil_r|].
  rw read_frame_written //= (from_slice_to_vec _ _ Hr) /=.
  rw IH; [lia|]. by rw -app_assoc.
Qed.

Context {St : Type} `{ContentStore St}.

Lemma answer_all_written want_have (s : St) cids rs fs out :
  Forall2 (λ c r, answer want_have s c = Ok r) cids rs → Forall2 framed rs fs →
  answer_all want_have s cids out = (out ++ write_frames fs, Ok ()).
Proof.
  intros Ha. revert fs out. induction Ha as [|c r cids rs Hc Ha IH]; intros fs out Hf;
    inversion Hf as [|? f ? fs' [Hr Hl] Hf']; subst; simpl; [by rw app_nil_r|].
  rw Hc Hr (IH fs') // -app_assoc //.
Qed.

(** The answers of a server to a decoded request. *)
Lemma handle_request_of (s : St) cids want_have body rs fs :
  to_vec (request_of cids want_have) = Some body → (len body ≤ MAX_BITSWAP_FRAME)%N →
  (len cids ≤ MAX_WANTLIST_LEN)%N →
  Forall2 (λ c r, answer want_have s c = Ok r) cids rs → Forall2 framed rs fs →
  handle_bitswap_stream s (write_frame body) = (BITSWAP_STREAM_MAGIC ++ write_frames fs, Ok ()).
Proof.
  intros Hb Hl Hn Ha Hf. unfold handle_bitswap_stream.
  rw -(app_nil_r (write_frame body)) read_frame_written // (from_slice_to_vec _ _ Hb).
  assert (Hlist : (if (MAX_WANTLIST_LEN <? len cids)%N
     then (BITSWAP_STREAM_MAGIC, Err (ESerialization "bitswap wantlist too large"))
     else answer_all want_have s cids BITSWAP_STREAM_MAGIC) = (BITSWAP_STREAM_MAGIC ++ write_frames fs, Ok ())).
  { rw (proj2 (N.ltb_ge _ _) Hn). by eapply answer_all_written. }
  unfold request_of. destruct cids as [|c [|c' cs]]; [done| |done].
  destruct want_have; simpl negb; cbn iota; [done|]. by eapply answer_all_written.
Qed.
End bitswap_lemmas.

(** ** Sessions *)
Section session_lemmas.
Context `{Blake3, Hex, !Codec BitswapRequest, !Codec BitswapResponse, !Codec ChunkDag}.
Context {St : Type} `{ContentStore St, !ContentStoreLaws St}.
Variable peer : bytes → bytes.
Implicit Types s : St.

Definition readable (c : Cid) s : Prop := ∃ b, get c s = Ok (Some b).

(** What a fetch may do to a store: keep its invariant and its readable blocks. *)
Definition grows s s' : Prop := store_ok s' ∧ ∀ c, readable c s → readable c s'.

Lemma put_grows b s s' r : store_ok s → put b s = (s', r) → grows s s'.
Proof.
  intros Hok Hp. pose proof (put_ok b s Hok) as Hok'. rw Hp in Hok'. split; [done|].
  intros c [x Hx]. destruct (block_verify b) eqn:Hv.
  - destruct (decide (c = cid b)) as [->|Hne].
    + exists b. pose proof (get_put b s Hok Hv) as Hg. by rw Hp in Hg.
    + exists x. pose proof (get_put_other b c s x Hok Hne Hx) as Hg. by rw Hp in Hg.
  - rw put_rejects // in Hp. injection Hp as <- _. by exists x.
Qed.

Lemma grows_trans s1 s2 s3 : grows s1 s2 → grows s2 s3 → grows s1 s3.
Proof. intros [_ H12] [Hok H23]. split; [done|]. auto. Qed.

(** Outcomes are truthful about the store. *)
Definition truthful s (os : list (Cid * FetchOutcome)) : Prop :=
  ∀ c, (c, Fetched) ∈ os → readable c s.

Lemma store_responses_spec cids resps out s s' r :
  store_ok s → store_responses cids resps out s = (s', r) → truthful s out →
  length resps = length cids →
  grows s s' ∧ match r with Ok os => os.*1 = out.*1 ++ cids ∧ truthful s' os | Err _ => True end.
Proof.
  revert resps out s. induction cids as [|c cids IH]; intros [|x resps] out s Hok Hrun Ht Hlen; simpl in *; try lia.
  { injection Hrun as <- <-. rw app_nil_r. split; [by split|done]. }
  destruct x as [got b|got|got|got].
  - case_bool_decide as Hc; simpl in Hrun; [|by injection Hrun as <- <-; repeat split].
    destruct (block_verify (mk_Block got b)) eqn:Hv; simpl in Hrun; [|by injection Hrun as <- <-; repeat split].
    destruct (put (mk_Block got b) s) as [s1 [[]|e]] eqn:Hp.
    + pose proof (put_grows _ _ _ _ Hok Hp) as Hg.
      assert (Hrd : readable c s1).
      { exists (mk_Block got b). pose proof (get_put (mk_Block got b) s Hok Hv) as Hgp.
        rw Hp in Hgp. simpl in Hgp. by rw -Hc. }
      apply IH in Hrun as [Hg' Hr]; [|by apply Hg| |lia].
      * split; [by eapply grows_trans|]. destruct r as [os|]; [|done].
        rw fmap_app -app_assoc /= in Hr. done.
      * intros c' [Hin|Hin]%elem_of_app; [by apply Hg, Ht|].
        apply list_elem_of_singleton in Hin as [= ->]. done.
    + injection Hrun as <- <-. split; [by eapply put_grows|done].
  - case_bool_decide as Hc; simpl in Hrun; [|by injection Hrun as <- <-; repeat split].
    apply IH in Hrun as [Hg' Hr]; [|done| |lia].
    + split; [done|]. destruct r as [os|]; [|done]. by rw fmap_app -app_assoc /= in Hr.
    + intros c' [Hin|Hin]%elem_of_app; [by apply Ht|]. by apply list_elem_of_singleton in Hin.
  - injection Hrun as <- <-. by repeat split.
  - injection Hrun as <- <-. by repeat split.
Qed.

Lemma grows_refl s : store_ok s → grows s s.
Proof. by split. Qed.

Lemma fetch_batches_spec bs : ∀ os s s' r,
  store_ok s → fetch_batches peer bs os s = (s', r) →
  grows s s' ∧ match r with
  | Ok os' => ∃ new, os' = os ++ new ∧ new.*1 = mjoin bs ∧ truthful s' new
  | Err _ => True end.
Proof.
  induction bs as [|b bs IH]; intros os s s' r Hok; simpl.
  { intros [= <- <-]. split; [by apply grows_refl|]. exists []. rw app_nil_r. split_and!; [done|done|].
    by intros c ?%elem_of_nil. }
  unfold fetch_batch. destruct (request_many peer b false) as [resps|e].
  2: { intros [= <- <-]. split; [by apply grows_refl|done]. }
  destruct (length resps =? length b) eqn:El; bool_to_prop; simpl.
  2: { intros [= <- <-]. split; [by apply grows_refl|done]. }
  destruct (store_responses b resps [] s) as [s1 [partial|e]] eqn:Hs;
    apply store_responses_spec in Hs as [Hg Hr]; [|done|by intros c ?%elem_of_nil|done
      | |done|by intros c ?%elem_of_nil|done].
  - destruct Hr as [Hfst Ht]. intros Hrun. apply IH in Hrun as [Hg' Hr']; [|by apply Hg].
    split; [by eapply grows_trans|]. destruct r as [os'|]; [|done].
    destruct Hr' as (new & -> & Hn & Htn). exists (partial ++ new). simpl in Hfst.
    rw -app_assoc fmap_app Hfst Hn. split_and!; [done|done|].
    intros c [Hc|Hc]%elem_of_app; [by apply Hg', Ht|by apply Htn].
  - intros [= <- <-]. by split.
Qed.

Context `{BatchOrder}.

Lemma filter_has_perm s cids :
  filter (λ c, has c s = true) cids ++ filter (λ c, has c s = false) cids ≡ₚ cids.
Proof.
  induction cids as [|c cids IH]; [done|]. rw !filter_cons.
  destruct (has c s) eqn:E; simpl.
  - by constructor.
  - rw -Permutation_middle. by constructor.
Qed.
End session_lemmas.

(** What [fetch_blocks] does, on every path. *)
Lemma fetch_blocks_spec
    `{Blake3, Hex, !Codec BitswapRequest, !Codec BitswapResponse, BatchOrder, !BatchOrderLaws}
    {St : Type} `{ContentStore St, !ContentStoreLaws St} peer cids (s s' : St) r :
  store_ok s → fetch_blocks peer cids s = (s', r) →
  store_ok s' ∧ (∀ c, readable c s → readable c s') ∧
  match r with
  | Err _ => True
  | Ok os => os.*1 ≡ₚ cids ∧
      ∀ c, (c, Fetched) ∈ os →
        has c s = true ∨ ∃ b, get c s' = Ok (Some b) ∧ cid b = c ∧ block_verify b = true
  end.
Proof.
  intros Hok. unfold fetch_blocks. pose proof (filter_has_perm s cids) as Hperm.
  assert (Hhave : ∀ c, (c, Fetched) ∈ (λ c, (c, Fetched)) <$> filter (λ c, has c s = true) cids → has c s = true).
  { intros c (x & [= <-] & [Hx _]%list_elem_of_filter)%list_elem_of_fmap. done. }
  set (here := filter (λ c, has c s = true) cids) in *.
  assert (Hfst : ((λ c, (c, Fetched)) <$> here).*1 = here).
  { rw -list_fmap_compose. by apply list_fmap_id. }
  destruct (filter (λ c, has c s = false) cids) as [|m ms] eqn:Hm.
  - intros [= <- <-]. split_and!; [done|done| |auto]. rw Hfst. by rw app_nil_r in Hperm.
  - intros Hrun. rw -Hm in Hrun Hperm. apply fetch_batches_spec in Hrun as [[Hok' Hg] Hr]; [|done].
    split_and!; [done|done|]. destruct r as [os|]; [|done]. destruct Hr as (new & -> & Hn & Ht). split.
    + rw fmap_app Hfst Hn (batch_order_perm _) chunks_join //. unfold SESSION_WANTLIST_CHUNK. lia.
    + intros c [Hc|Hc]%elem_of_app; [left; auto|right]. destruct (Ht c Hc) as [b Hb].
      exists b. split; [done|]. by eapply get_valid.
Qed.

Lemma write_chunks_readable `{Blake3, Hex} {St : Type} `{ContentStore St, !ContentStoreLaws St} l out (s : St) :
  store_ok s → (∀ c, c ∈ l → readable c s) → ∃ out', write_chunks l out s = (out', Ok ()).
Proof.
  intros Hok. revert out. induction l as [|c l IH]; intros out Hl; simpl; [by eexists|].
  destruct (Hl c) as [b Hb]; [left|]. rw Hb. destruct (get_valid _ _ _ Hok Hb) as [_ ->]. simpl.
  apply IH. intros c' Hc'. apply Hl. by right.
Qed.

(** ** Properties *)

(** an honest server answers a want list in order.  The client receives, for one to
    1024 requested identifiers, exactly the server's answer to each identifier in request
    order (the block or its absence; or, in a have-query, whether it is there), provided
    request and answers fit the frame limit. *)
Theorem bitswap_answers_in_order
    `{!Codec BitswapRequest, !Codec BitswapResponse, !CodecLaws BitswapRequest, !CodecLaws BitswapResponse}
    {St : Type} `{ContentStore St} (s : St) cids want_have body rs fs :
  cids ≠ [] → (len cids ≤ MAX_WANTLIST_LEN)%N →
  to_vec (request_of cids want_have) = Some body → (len body ≤ MAX_BITSWAP_FRAME)%N →
  Forall2 (λ c r, answer want_have s c = Ok r) cids rs → Forall2 framed rs fs →
  request_many (λ sent, (handle_bitswap_stream s (drop 4 sent)).1) cids want_have = Ok rs.
Proof.
  intros Hne Hn Hb Hl Ha Hf. unfold request_many. destruct cids as [|c cs] eqn:E; [done|]. rw -E in Hn Hb Ha |- *.
  rw (proj2 (N.ltb_ge _ _) Hn) Hb. cbn [ok_or mbind result_bind].
  change (drop 4 (BITSWAP_STREAM_MAGIC ++ write_frame body)) with (write_frame body).
  rw (handle_request_of s cids want_have body rs fs) //. cbn [fst].
  change (take 4 (BITSWAP_STREAM_MAGIC ++ write_frames fs)) with BITSWAP_STREAM_MAGIC.
  change (drop 4 (BITSWAP_STREAM_MAGIC ++ write_frames fs)) with (write_frames fs).
  rw bool_decide_eq_true_2 //. rw length_app. cbn [negb].
  destruct (length BITSWAP_STREAM_MAGIC + length (write_frames fs) <? 4) eqn:E4; bool_to_prop; [simpl in E4; lia|].
  apply (read_responses_written rs fs _ []); [done|]. pose proof (length_write_frames fs). lia.
Qed.

(** fetching is safe against a hostile peer.  Whatever the peer answers,
    [fetch_blocks] keeps the store's invariant and every readable block readable; when it
    succeeds it reports every requested identifier exactly once, and an identifier
    reported as fetched was already there or is now readable, as a block that hashes to
    it. *)
Theorem fetch_blocks_sound
    `{Blake3, Hex, !Codec BitswapRequest, !Codec BitswapResponse, BatchOrder, !BatchOrderLaws}
    {St : Type} `{ContentStore St, !ContentStoreLaws St} peer cids (s s' : St) r :
  store_ok s → fetch_blocks peer cids s = (s', r) →
  store_ok s' ∧ (∀ c, readable c s → readable c s') ∧
  match r with
  | Err _ => True
  | Ok os => os.*1 ≡ₚ cids ∧
      ∀ c, (c, Fetched) ∈ os →
        has c s = true ∨ ∃ b, get c s' = Ok (Some b) ∧ cid b = c ∧ block_verify b = true
  end.
Proof. apply fetch_blocks_spec. Qed.

(** a fetched tree is complete.  On a store whose [has] is exact, when [fetch_dag]
    succeeds against any peer, the root is readable and decodes to the returned node and
    every chunk it lists is readable: reading the file back writes all its chunks and can
    fail only on the declared size. *)
Theorem fetch_dag_complete
    `{Blake3, Hex, !Codec BitswapRequest, !Codec BitswapResponse, !Codec ChunkDag, BatchOrder, !BatchOrderLaws}
    {St : Type} `{ContentStore St, !ContentStoreLaws St, !ExactStore St} peer root (s s' : St) dag :
  store_ok s → fetch_dag peer root s = (s', Ok dag) →
  store_ok s' ∧ readable root s' ∧ (∀ c, c ∈ dag_chunks dag → readable c s') ∧
  ∃ out, write_chunks (dag_chunks dag) [] s' = (out, Ok ()).
Proof.
  intros Hok. unfold fetch_dag. destruct (fetch_blocks peer [root] s) as [s1 [os1|]] eqn:Hf1; [|done].
  apply fetch_blocks_spec in Hf1 as (Hok1 & _ & _); [|done].
  destruct (get root s1) as [[b|]|] eqn:Hg; [|done..].
  destruct (from_slice (data b)) as [dag'|] eqn:Hd; [|done].
  destruct (fetch_blocks peer (dag_chunks dag') s1) as [s2 [os2|]] eqn:Hf2; [|done].
  apply fetch_blocks_spec in Hf2 as (Hok2 & Hgrow & Hperm & Hf); [|done].
  destruct (filter _ os2) as [|x xs] eqn:Hnf; [|done]. intros [= <- <-].
  assert (Hall : ∀ c, c ∈ dag_chunks dag' → readable c s2).
  { intros c Hc. rw -Hperm in Hc. apply list_elem_of_fmap in Hc as ([c' [|]] & -> & Hin); simpl.
    - destruct (Hf _ Hin) as [Hh|(b' & Hb' & _)]; [|by exists b'].
      apply Hgrow. by apply has_get.
    - assert ((c', NotFound) ∈ filter (λ co : Cid * FetchOutcome, co.2 = NotFound) os2) as Hx
        by (by apply list_elem_of_filter). rw Hnf in Hx. by apply elem_of_nil in Hx. }
  split_and!; [done|apply Hgrow; by exists b|done|]. by apply write_chunks_readable.
Qed.

(** ** Witnesses *)
Module Witness.
#[local] Existing Instances Toy.toy_blake3 Toy.toy_hex.

(** One-byte tags followed by the identifiers, each shorter than 256 bytes. *)
Definition enc_cid (c : Cid) : bytes := byte_of_N (len (as_bytes c)) :: as_bytes c.
Fixpoint dec_cids (fuel : nat) (b : bytes) : option (list Cid) :=
  match fuel, b with
  | _, [] => Some []
  | S fuel, n :: b =>
      let k := N.to_nat (Byte.to_N n) in
      cs ← dec_cids fuel (drop k b); Some (String.string_of_list_byte (take k b) :: cs)
  | O, _ => None
  end.
Definition enc_request (r : BitswapRequest) : bytes :=
  match r with
  | Want c => x00 :: enc_cid c
  | WantList cs false => x01 :: (cs ≫= enc_cid)
  | WantList cs true => x02 :: (cs ≫= enc_cid)
  | Cancel cs => x03 :: (cs ≫= enc_cid)
  end.
Definition dec_request (b : bytes) : option BitswapRequest :=
  match b with
  | t :: b =>
      cs ← dec_cids (length b) b;
      if bool_decide (t = x00) then (match cs with [c] => Some (Want c) | _ => None end)
      else if bool_decide (t = x01) then Some (WantList cs false)
      else if bool_decide (t = x02) then Some (WantList cs true)
      else Some (Cancel cs)
  | [] => None
  end.
(** Only requests that decode are encoded, which makes the round trip hold. *)
#[local] Instance req_codec : Codec BitswapRequest := {|
  to_vec r := if bool_decide (dec_request (enc_request r) = Some r) then Some (enc_request r) else None;
  from_slice := dec_request;
|}.
Lemma bsw_req_codec_laws : @CodecLaws BitswapRequest req_codec.
Proof. intros r b. simpl. case_bool_decide; [|done]. by intros [= <-]. Qed.

Definition enc_response (r : BitswapResponse) : bytes :=
  match r with
  | RBlock c d => x00 :: enc_cid c ++ d
  | RNotFound c => x01 :: as_bytes c
  | RHave c => x02 :: as_bytes c
  | RDontHave c => x03 :: as_bytes c
  end.
Definition dec_response (b : bytes) : option BitswapResponse :=
  match b with
  | t :: b =>
      if bool_decide (t = x00) then
        match b with
        | n :: b => let k := N.to_nat (Byte.to_N n) in
                    Some (RBlock (String.string_of_list_byte (take k b)) (drop k b))
        | [] => None
        end
      else
        let c := String.string_of_list_byte b in
        if bool_decide (t = x01) then Some (RNotFound c)
        else if bool_decide (t = x02) then Some (RHave c) else Some (RDontHave c)
  | [] => None
  end.
#[local] Instance resp_codec : Codec BitswapResponse := {|
  to_vec r := if bool_decide (dec_response (enc_response r) = Some r) then Some (enc_response r) else None;
  from_slice := dec_response;
|}.
Lemma bsw_resp_codec_laws : @CodecLaws BitswapResponse resp_codec.
Proof. intros r b. simpl. case_bool_decide; [|done]. by intros [= <-]. Qed.

#[local] Instance order : BatchOrder := λ l, l.
Lemma order_laws : @BatchOrderLaws order.
Proof. by intros l. Qed.

Definition server : MemoryContentStore := Content.Witness.filled.
Definition client : MemoryContentStore := Content.Witness.empty.
Definition root : Cid := Content.Witness.root.
Definition honest (sent : bytes) : bytes := (handle_bitswap_stream server (drop 4 sent)).1.
Definition missing_cid : Cid := "blake3-00".
Definition resps : list BitswapResponse := default [] (result_to_option (request_many honest [root; missing_cid] false)).
Definition fetched : MemoryContentStore * result NetError (list (Cid * FetchOutcome)) :=
  fetch_blocks honest [root; missing_cid] client.
#[local] Existing Instances Content.Witness.dag_codec.
Definition tree : MemoryContentStore * result NetError ChunkDag := fetch_dag honest root client.
Definition dag : ChunkDag := default (mk_ChunkDag 0 []) (result_to_option tree.2).
End Witness.

Lemma bitswap_answers_in_order_witness :
  @request_many Witness.req_codec Witness.resp_codec Witness.honest [Witness.root; Witness.missing_cid] true
  = Ok [RHave Witness.root; RDontHave Witness.missing_cid].
Proof.
  apply (@bitswap_answers_in_order Witness.req_codec Witness.resp_codec Witness.bsw_req_codec_laws
    Witness.bsw_resp_codec_laws _ (@memory_store Toy.toy_blake3 Toy.toy_hex) Witness.server
    [Witness.root; Witness.missing_cid] true
    (Witness.enc_request (WantList [Witness.root; Witness.missing_cid] true))
    [RHave Witness.root; RDontHave Witness.missing_cid]
    [Witness.enc_response (RHave Witness.root); Witness.enc_response (RDontHave Witness.missing_cid)]).
  - discriminate.
  - vm_compute. discriminate.
  - vm_compute. reflexivity.
  - vm_compute. discriminate.
  - constructor; [vm_compute; reflexivity|]. constructor; [vm_compute; reflexivity|]. constructor.
  - constructor; [split; vm_compute; [reflexivity|discriminate]|].
    constructor; [split; vm_compute; [reflexivity|discriminate]|]. constructor.
Defined.

Lemma fetch_blocks_sound_witness :
  map_Forall (λ c b, @cid_for Toy.toy_blake3 Toy.toy_hex b = c) (inner Witness.fetched.1) ∧
  Witness.fetched.2 = Ok [(Witness.root, Fetched); (Witness.missing_cid, NotFound)].
Proof.
  split; [|vm_compute; reflexivity].
  pose proof (@fetch_blocks_sound Toy.toy_blake3 Toy.toy_hex Witness.req_codec Witness.resp_codec Witness.order
    Witness.order_laws _ (@memory_store Toy.toy_blake3 Toy.toy_hex) memory_store_laws Witness.honest
    [Witness.root; Witness.missing_cid] Witness.client Witness.fetched.1 Witness.fetched.2) as Hs.
  destruct Hs as [Hs _]; [apply map_Forall_empty|apply surjective_pairing|exact Hs].
Defined.

Lemma fetch_dag_complete_witness :
  Witness.tree = (Witness.tree.1, Ok Witness.dag) ∧
  ∃ out, @write_chunks Toy.toy_blake3 Toy.toy_hex _ (@memory_store Toy.toy_blake3 Toy.toy_hex)
      (dag_chunks Witness.dag) [] Witness.tree.1 = (out, Ok ()).
Proof.
  assert (Hrun : Witness.tree = (Witness.tree.1, Ok Witness.dag)) by (vm_compute; reflexivity).
  split; [exact Hrun|].
  pose proof (@fetch_dag_complete Toy.toy_blake3 Toy.toy_hex Witness.req_codec Witness.resp_codec
    Content.Witness.dag_codec Witness.order Witness.order_laws _ (@memory_store Toy.toy_blake3 Toy.toy_hex)
    memory_store_laws memory_store_exact Witness.honest Witness.root Witness.client
    Witness.tree.1 Witness.dag) as Hs.
  destruct Hs as (_ & _ & _ & Hs); [apply map_Forall_empty|exact Hrun|exact Hs].
Defined.
