(* ===== verification/Transfer.v ===== *)
(** * File transfer streams

    [synergos-net/src/transfer/mod.rs]: a header frame, chunk frames with their own
    hashes and running index, and a footer, each length-prefixed.  A stream is the list
    of bytes sent before it is finished; the receiver's file is the bytes written to it
    ([None] before it is created).

    The theorems: what a receiver accepts has the size, the hash and the chunk count its
    header declares, whoever sent it; on every path, errors included, it writes at most
    one chunk more than the declared size; what an honest sender sends is received
    unchanged. *)

From S2P Require Import Prelude Crypto Types.

Definition len {A} (l : list A) : N := N.of_nat (length l).

Definition CHUNK_SIZE : N := 64 * 1024.
Definition MAX_FRAME : N := CHUNK_SIZE + 1024.

Record TransferHeader := mk_TransferHeader {
  transfer_id : string;
  project_id : string;
  file_id : string;
  total_size : N;
  chunk_count : N;
  total_hash : Blake3Hash;
  version : N;
}.

Record ChunkFrame := mk_ChunkFrame { index : N; hash : Blake3Hash; data : bytes }.
Record TransferFooter := mk_TransferFooter { footer_hash : Blake3Hash }.

Inductive FrameKind :=
| FHeader (h : TransferHeader)
| FChunk (c : ChunkFrame)
| FFooter (f : TransferFooter).

Definition expected_chunks (size : N) : N := if (size =? 0)%N then 0%N else div_ceil size CHUNK_SIZE.

Definition hash_file `{Blake3} (content : bytes) : Blake3Hash * N * N :=
  (blake3 content, len content, expected_chunks (len content)).

Section transfer.
Context `{Blake3, !Codec FrameKind}.

Definition write_frame (f : FrameKind) : result NetError bytes :=
  payload ← ok_or (to_vec f) (ETransfer "encode frame");
  Ok (le_bytes 4 (len payload) ++ payload).

(** The frame and what is left of the stream. *)
Definition read_frame (s : bytes) : result NetError (FrameKind * bytes) :=
  if length s <? 4 then Err EIo
  else
    let n := of_le_bytes (take 4 s) in
    if (MAX_FRAME <? n)%N then Err (ETransfer "frame too large")
    else
      let s := drop 4 s in
      if (len s <? n)%N then Err EIo
      else
        f ← ok_or (from_slice (A := FrameKind) (take (N.to_nat n) s)) (ETransfer "decode frame");
        Ok (f, drop (N.to_nat n) s).

(** [while remaining > 0]; [reader] is the unread source.  Every turn that goes on has
    read at least one byte, so the length of the source bounds the turns.  The result is
    what was written and whether an error stopped it. *)
Fixpoint send_loop (fuel : nat) (reader : bytes) (idx remaining : N) (out : bytes) :
    bytes * result NetError () :=
  if (remaining =? 0)%N then (out, Ok ())
  else
    match fuel with
    | O => (out, Err (ETransfer "unexpected EOF while reading source"))
    | S fuel =>
        let want := N.min remaining CHUNK_SIZE in
        if (len reader <? want)%N then (out, Err (ETransfer "unexpected EOF while reading source"))
        else
          let chunk := take (N.to_nat want) reader in
          match write_frame (FChunk (mk_ChunkFrame idx (blake3 chunk) chunk)) with
          | Err e => (out, Err e)
          | Ok b => send_loop fuel (drop (N.to_nat want) reader) (idx + 1) (remaining - want) (out ++ b)
          end
    end.

Definition send_stream (reader : bytes) (h : TransferHeader) : bytes * result NetError () :=
  match write_frame (FHeader h) with
  | Err e => ([], Err e)
  | Ok b =>
      match send_loop (length reader) reader 0 (total_size h) b with
      | (out, Err e) => (out, Err e)
      | (out, Ok _) =>
          match write_frame (FFooter (mk_TransferFooter (total_hash h))) with
          | Err e => (out, Err e)
          | Ok f => (out ++ f, Ok ())
          end
      end
  end.

Definition read_header (s : bytes) : result NetError (TransferHeader * bytes) :=
  '(f, s) ← read_frame s;
  match f with
  | FHeader h =>
      if negb (chunk_count h =? expected_chunks (total_size h))%N then
        Err (ETransfer "invalid header chunk count")
      else Ok (h, s)
  | _ => Err (ETransfer "expected header as first frame")
  end.

(** The receive loop.  [file] is what was written; the running hash is the hash of it.
    Every turn consumes at least four bytes of the stream, so its length bounds the
    turns; at the end of the stream [read_frame] fails. *)
Fixpoint receive_loop (fuel : nat) (h : TransferHeader) (s : bytes)
    (received_chunks received_bytes : N) (file : bytes) : bytes * result NetError TransferHeader :=
  match fuel with
  | O => (file, Err EIo)
  | S fuel =>
      match read_frame s with
      | Err e => (file, Err e)
      | Ok (FChunk c, s) =>
          if bool_decide (data c = []) || (CHUNK_SIZE <? len (data c))%N then
            (file, Err (ETransfer "invalid chunk length"))
          else if negb (bool_decide (blake3 (data c) = hash c)) then
            (file, Err (ETransfer "chunk hash mismatch"))
          else if negb (index c =? received_chunks)%N then
            (file, Err (ETransfer "chunk arrived out of order"))
          else
            let file := file ++ data c in
            let received_chunks := (received_chunks + 1)%N in
            if (u64_max <? received_bytes + len (data c))%N then
              (file, Err (ETransfer "received size overflow"))
            else
              let received_bytes := (received_bytes + len (data c))%N in
              if (total_size h <? received_bytes)%N then
                (file, Err (ETransfer "received size exceeds header"))
              else receive_loop fuel h s received_chunks received_bytes file
      | Ok (FFooter f, _) =>
          let total := blake3 file in
          if negb (bool_decide (total = footer_hash f)) then
            (file, Err (ETransfer "total hash mismatch at footer"))
          else if negb (bool_decide (total = total_hash h)) then
            (file, Err (ETransfer "total hash mismatch with header"))
          else if negb (received_chunks =? chunk_count h)%N then
            (file, Err (ETransfer "chunk count mismatch"))
          else if negb (received_bytes =? total_size h)%N then
            (file, Err (ETransfer "size mismatch"))
          else (file, Ok h)
      | Ok (FHeader _, _) => (file, Err (ETransfer "duplicate header frame"))
      end
  end.

Definition receive_body (s : bytes) (h : TransferHeader) : bytes * result NetError TransferHeader :=
  receive_loop (S (length s)) h s 0 0 [].

Definition receive_stream (s : bytes) : option bytes * result NetError TransferHeader :=
  match read_header s with
  | Err e => (None, Err e)
  | Ok (h, s) => let '(file, r) := receive_body s h in (Some file, r)
  end.

Definition TRANSFER_STREAM_MAGIC : bytes := as_bytes "TXFR".

Definition send_over_quic (reader : bytes) (h : TransferHeader) : bytes * result NetError () :=
  let '(out, r) := send_stream reader h in (TRANSFER_STREAM_MAGIC ++ out, r).

Definition peek_transfer_header (s : bytes) : result NetError (TransferHeader * bytes) := read_header s.
Definition receive_over_quic_with_header (s : bytes) (h : TransferHeader) :
    bytes * result NetError TransferHeader := receive_body s h.

(** ** Lemmas *)
Lemma read_frame_shorter s f s' : read_frame s = Ok (f, s') → length s' < length s.
Proof.
  unfold read_frame. destruct (length s <? 4) eqn:E; [done|]. bool_to_prop.
  destruct (_ <? _)%N; [done|]. destruct (_ <? _)%N; [done|].
  destruct (from_slice _); simpl; [|done]. intros [= _ <-]. rw !length_drop. lia.
Qed.

(** More turns than bytes change nothing. *)
Lemma receive_loop_fuel f1 f2 h s n b file :
  length s < f1 → length s < f2 → receive_loop f1 h s n b file = receive_loop f2 h s n b file.
Proof.
  revert f2 s n b file. induction f1 as [|f1 IH]; intros [|f2] s n b file H1 H2; try lia.
  cbn [receive_loop]. destruct (read_frame s) as [[[|c|] s']|] eqn:E; try done.
  apply read_frame_shorter in E. repeat (case_match; [done|]). apply IH; lia.
Qed.

(** What the loop has established when it accepts, and what it has written on any path. *)
Lemma receive_loop_spec fuel h s n b file file' r :
  receive_loop fuel h s n b file = (file', r) → b = len file → (b ≤ total_size h)%N →
  (len file' ≤ total_size h + CHUNK_SIZE)%N ∧
  ∀ h', r = Ok h' → h' = h ∧ len file' = total_size h ∧ blake3 file' = total_hash h.
Proof.
  revert s n b file. induction fuel as [|fuel IH]; intros s n b file Hrun -> Hle; cbn [receive_loop] in Hrun.
  { injection Hrun as <- <-. split; [lia|done]. }
  destruct (read_frame s) as [[[h0|c|f] s']|e].
  - injection Hrun as <- <-. split; [lia|done].
  - destruct (_ || _) eqn:Hc; [injection Hrun as <- <-; split; [lia|done]|]. bool_to_prop.
    assert (Hlen : len (file ++ data c) = (len file + len (data c))%N) by (unfold len; rw length_app; lia).
    case_bool_decide; simpl in Hrun; [|injection Hrun as <- <-; split; [lia|done]].
    destruct (_ =? _)%N; simpl in Hrun; [|injection Hrun as <- <-; split; [lia|done]].
    destruct (_ <? _)%N; [injection Hrun as <- <-; split; [lia|done]|].
    destruct (total_size h <? _)%N eqn:Ht; bool_to_prop; [injection Hrun as <- <-; split; [lia|done]|].
    eapply IH; [exact Hrun|by rw Hlen|done].
  - case_bool_decide as E1; simpl in Hrun; [|injection Hrun as <- <-; split; [lia|done]].
    case_bool_decide as E2; simpl in Hrun; [|injection Hrun as <- <-; split; [lia|done]].
    destruct (_ =? _)%N eqn:E3; simpl in Hrun; [|injection Hrun as <- <-; split; [lia|done]].
    destruct (len file =? _)%N eqn:E4; simpl in Hrun; injection Hrun as <- <-; (split; [lia|]); [|done].
    bool_to_prop. by intros h' [= <-].
  - injection Hrun as <- <-. split; [lia|done].
Qed.
End transfer.

(** ** What an honest sender sends *)
Definition CS : nat := N.to_nat CHUNK_SIZE.

Lemma CS_pos : 0 < CS.
Proof. apply Nat.ltb_lt. vm_compute. reflexivity. Qed.

Lemma CS_N : N.of_nat CS = CHUNK_SIZE.
Proof. apply N2Nat.id. Qed.

#[local] Opaque CS CHUNK_SIZE.

(** Replaces the chunk size by a variable, so that no tactic computes with its 65536
    successors. *)
Ltac abstract_cs cs Hpos HN :=
  pose proof CS_pos as Hpos; pose proof CS_N as HN; revert Hpos HN;
  generalize CS; intros cs Hpos HN.

Lemma count_chunks_gen n (l : bytes) :
  0 < n → len (chunks n l) = if (len l =? 0)%N then 0%N else div_ceil (len l) (N.of_nat n).
Proof.
  intros Hn. revert l. apply (chunks_ind _ n); [exact Hn|reflexivity|]. intros l Hl IH.
  rw chunks_step // /len /= Nat2N.inj_succ -/(len (chunks n (drop n l))) IH -/(len l).
  assert (0 < len l)%N by (destruct l; [done|unfold len; simpl; lia]).
  unfold div_ceil. rw (proj2 (N.eqb_neq (len l) 0)) //; [lia|].
  assert (Hd : len (drop n l) = (len l - N.of_nat n)%N) by (unfold len; rw length_drop; lia). rw Hd.
  destruct (len l - N.of_nat n =? 0)%N eqn:E; bool_to_prop.
  - apply (N.div_unique _ _ _ (len l - 1)); lia.
  - replace (len l + N.of_nat n - 1)%N with (len l - N.of_nat n + N.of_nat n - 1 + 1 * N.of_nat n)%N by lia.
    rw N.div_add; lia.
Qed.

Lemma count_chunks (l : bytes) : len (chunks CS l) = expected_chunks (len l).
Proof. unfold expected_chunks. rw -CS_N. apply count_chunks_gen, CS_pos. Qed.

Section honest.
Context `{Blake3, !Codec FrameKind, !CodecLaws FrameKind}.

Fixpoint chunk_frames (i : N) (l : list bytes) : list FrameKind :=
  match l with
  | [] => []
  | c :: l => FChunk (mk_ChunkFrame i (blake3 c) c) :: chunk_frames (i + 1) l
  end.

(** All frames of a transfer. *)
Definition frames_of (content : bytes) (h : TransferHeader) : list FrameKind :=
  FHeader h :: chunk_frames 0 (chunks CS content) ++ [FFooter (mk_TransferFooter (total_hash h))].

(** A frame whose encoding the receiver's limit admits. *)
Definition fits (f : FrameKind) : Prop := ∃ p, to_vec f = Some p ∧ (len p ≤ MAX_FRAME)%N.

Definition enc (f : FrameKind) : bytes := default [] (result_to_option (write_frame f)).

Lemma write_frame_fits f : fits f → write_frame f = Ok (enc f).
Proof. intros (p & Hp & _). unfold enc, write_frame. by rw Hp. Qed.

Lemma length_enc f : fits f → 4 ≤ length (enc f).
Proof.
  intros (p & Hp & _). unfold enc, write_frame. rw Hp /= length_app length_le_bytes. lia.
Qed.

Lemma read_frame_enc f rest : fits f → read_frame (enc f ++ rest) = Ok (f, rest).
Proof.
  intros Hf. pose proof (length_enc f Hf). destruct Hf as (p & Hp & Hl). unfold read_frame.
  destruct (length (enc f ++ rest) <? 4) eqn:E; bool_to_prop; [rw length_app in E; lia|].
  assert (Henc : enc f = le_bytes 4 (len p) ++ p) by (unfold enc, write_frame; by rw Hp).
  rw Henc -app_assoc. rw take_app_length' ?length_le_bytes // drop_app_length' ?length_le_bytes //.
  assert (Hn : of_le_bytes (le_bytes 4 (len p)) = len p).
  { rw of_le_bytes_le_bytes N.mod_small //. unfold MAX_FRAME in Hl. pose proof CS_N.
    enough (MAX_FRAME < 256 ^ N.of_nat 4)%N by (unfold MAX_FRAME in *; lia). vm_compute. done. }
  rw Hn (proj2 (N.ltb_ge _ _) Hl). rw (proj2 (N.ltb_ge _ _)); [unfold len; rw length_app; lia|].
  unfold len. rw Nat2N.id take_app_length drop_app_length (from_slice_to_vec _ _ Hp) //.
Qed.

Lemma send_loop_honest fuel content i out :
  length content ≤ fuel → Forall fits (chunk_frames i (chunks CS content)) →
  send_loop fuel content i (len content) out = (out ++ (chunk_frames i (chunks CS content) ≫= enc), Ok ()).
Proof.
  abstract_cs cs Hpos HN. revert content i out.
  induction fuel as [|fuel IH]; intros content i out Hl Hf.
  { destruct content; [|simpl in *; lia]. simpl. by rw app_nil_r. }
  cbn [send_loop]. destruct (len content =? 0)%N eqn:E; bool_to_prop.
  { destruct content; [|unfold len in E; simpl in *; lia]. simpl. by rw app_nil_r. }
  assert (Hne : content ≠ []) by (intros ->; done).
  rw chunks_step // in Hf |- *. cbn [chunk_frames] in Hf |- *. apply Forall_cons in Hf as [Hf Hrest].
  rw (proj2 (N.ltb_ge _ _)); [lia|].
  assert (Hw : take (N.to_nat (N.min (len content) CHUNK_SIZE)) content = take cs content).
  { rw N2Nat.inj_min. unfold len. rw Nat2N.id -HN Nat2N.id.
    destruct (Nat.min_spec (length content) cs) as [[? ->]|[? ->]]; [|done]. rw !take_ge //; lia. }
  assert (Hdr : drop (N.to_nat (N.min (len content) CHUNK_SIZE)) content = drop cs content).
  { rw N2Nat.inj_min. unfold len. rw Nat2N.id -HN Nat2N.id.
    destruct (Nat.min_spec (length content) cs) as [[? ->]|[? ->]]; [|done]. rw !drop_ge //; lia. }
  assert (Hrem : (len content - N.min (len content) CHUNK_SIZE)%N = len (drop cs content)).
  { unfold len. rw length_drop. lia. }
  rw Hw Hdr Hrem (write_frame_fits _ Hf) IH; [rw length_drop; lia|done|].
  by rw bind_cons -app_assoc.
Qed.

Lemma chunk_frames_small l i c :
  FChunk c ∈ chunk_frames i l → data c ∈ l.
Proof.
  revert i. induction l as [|x l IH]; intros i; simpl; [set_solver|].
  intros [[= ->]|Hc]%elem_of_cons; [left|right; eauto].
Qed.

Lemma receive_loop_chunks l : ∀ fuel h rest n file,
  Forall fits (chunk_frames n l) → Forall (λ c, c ≠ [] ∧ length c ≤ CS) l →
  (len file + len (mjoin l) ≤ total_size h)%N → is_u64 (total_size h) → length l ≤ fuel →
  receive_loop fuel h ((chunk_frames n l ≫= enc) ++ rest) n (len file) file =
  receive_loop (fuel - length l) h rest (n + len l) (len (file ++ mjoin l)) (file ++ mjoin l).
Proof.
  abstract_cs cs Hpos HN. induction l as [|c l IH]; intros fuel h rest n file Hfit Hsz Htot Hu Hfuel.
  { simpl. rw app_nil_r N.add_0_r Nat.sub_0_r //. }
  destruct fuel as [|fuel]; [simpl in Hfuel; lia|]. cbn [chunk_frames] in *.
  apply Forall_cons in Hfit as [Hf Hfit]. apply Forall_cons in Hsz as [[Hne Hc] Hsz].
  assert (Hjoin : mjoin (c :: l) = c ++ mjoin l) by done. rw Hjoin in Htot |- *.
  assert (Happ : ∀ (x y : bytes), len (x ++ y) = (len x + len y)%N) by (intros; unfold len; rw length_app; lia).
  rw bind_cons -app_assoc. cbn [receive_loop]. rw read_frame_enc //. cbn [data hash index].
  rw Happ in Htot. assert (len c ≤ CHUNK_SIZE)%N by (unfold len; lia).
  rw bool_decide_eq_false_2 //. rw (proj2 (N.ltb_ge CHUNK_SIZE (len c))) //. cbn [orb].
  rw bool_decide_eq_true_2 // N.eqb_refl. cbn [negb].
  unfold is_u64 in Hu. rw (proj2 (N.ltb_ge u64_max _)); [lia|].
  rw (proj2 (N.ltb_ge (total_size h) _)); [lia|]. rw -Happ IH //; [rw Happ; lia|simpl in Hfuel; lia|].
  rw -app_assoc. replace (n + len (c :: l))%N with (n + 1 + len l)%N by (unfold len; simpl; lia).
  done.
Qed.
End honest.

(** ** Properties *)

(** C1: acceptance means integrity.  Whatever bytes arrive, if the receiver accepts, the
    file it wrote has exactly the size and the BLAKE3 hash of the accepted header, and
    the header's chunk count is the one its size determines. *)
Theorem accepted_file_matches_header `{Blake3, !Codec FrameKind} s file h :
  receive_stream s = (Some file, Ok h) →
  len file = total_size h ∧ blake3 file = total_hash h ∧
  chunk_count h = expected_chunks (total_size h).
Proof.
  unfold receive_stream. destruct (read_header s) as [[h0 s']|] eqn:Hh; [|done].
  destruct (receive_body s' h0) as [f r] eqn:Hb. intros [= <- ->].
  apply receive_loop_spec in Hb as [_ Hr]; [|done|lia]. destruct (Hr h eq_refl) as (-> & ? & ?).
  split_and!; [done..|]. unfold read_header in Hh.
  destruct (read_frame s) as [[[h1| |] s1]|]; simpl in Hh; try done.
  destruct (_ =? _)%N eqn:E; simpl in Hh; [|done]. injection Hh as <- <-. by bool_to_prop.
Qed.

(** bounded writes.  On every path, whatever the sender sends and wherever the
    receiver stops, it has written at most one chunk more than the header declared. *)
Theorem receive_writes_bounded `{Blake3, !Codec FrameKind} s h s' file r :
  read_header s = Ok (h, s') → receive_stream s = (Some file, r) →
  (len file ≤ total_size h + CHUNK_SIZE)%N.
Proof.
  intros Hh. unfold receive_stream. rw Hh. destruct (receive_body s' h) as [f r'] eqn:Hb. intros [= <- <-].
  by apply receive_loop_spec in Hb as [? _]; [|done|lia].
Qed.

(** The header of an honest sender: what [hash_file] computes. *)
Lemma transfer_honest `{Blake3, !Codec FrameKind, !CodecLaws FrameKind} content tid pid fid v :
  is_u64 (len content) →
  let h := mk_TransferHeader tid pid fid (len content) (expected_chunks (len content)) (blake3 content) v in
  Forall fits (frames_of content h) →
  ∃ sent, send_stream content h = (sent, Ok ()) ∧ receive_stream sent = (Some content, Ok h).
Proof.
  intros Hu h Hfits.
  unfold frames_of in Hfits. apply Forall_cons in Hfits as [Hh Hfits].
  apply Forall_app in Hfits as [Hc Hft]. apply Forall_cons in Hft as [Hft _].
  unfold send_stream. rw (write_frame_fits _ Hh).
  change (total_size h) with (len content). rw send_loop_honest // (write_frame_fits _ Hft).
  eexists. split; [done|]. unfold receive_stream, read_header.
  rw -!app_assoc read_frame_enc //. cbn [mbind result_bind].
  rw N.eqb_refl. cbn [negb]. unfold receive_body.
  set (footer := enc _).
  assert (Hlen : length (chunks CS content) ≤ length ((chunk_frames 0 (chunks CS content) ≫= enc) ++ footer)).
  { rw length_app. clear -Hc. revert Hc. generalize 0%N (chunks CS content). intros i l. revert i.
    induction l as [|c l IH]; intros i Hf; [simpl; lia|]. cbn [chunk_frames] in *.
    apply Forall_cons in Hf as [Hf Hr]. rw bind_cons length_app /=. pose proof (length_enc _ Hf).
    specialize (IH _ Hr). lia. }
  rw (receive_loop_chunks (chunks CS content) _ h footer 0 []) //.
  - apply Forall_forall. intros c Hin. apply (chunks_nonempty CS content); [apply CS_pos|done].
  - rw chunks_join; [apply CS_pos|]. unfold len at 1. simpl. lia.
  - lia.
  - rw Nat.sub_succ_l //. cbn [receive_loop]. unfold footer.
    rw -(app_nil_r (enc _)) read_frame_enc //. cbn [footer_hash app].
    rw chunks_join; [apply CS_pos|]. rw bool_decide_eq_true_2 //. cbn [negb].
    rw N.add_0_l count_chunks. cbn [h chunk_count total_size]. rw !N.eqb_refl //.
Qed.

(** C2: an honest transfer arrives.  A file sent with a header computed from it by
    [hash_file] is written by the sender without error and received unchanged, with that
    header, as long as every frame encodes within the frame limit. *)
Theorem transfer_roundtrip `{Blake3, !Codec FrameKind, !CodecLaws FrameKind} content tid pid fid v :
  is_u64 (len content) →
  let '(th, size, count) := hash_file content in
  let h := mk_TransferHeader tid pid fid size count th v in
  Forall fits (frames_of content h) →
  ∃ sent, send_stream content h = (sent, Ok ()) ∧ receive_stream sent = (Some content, Ok h).
Proof. intros Hu. exact (transfer_honest content tid pid fid v Hu). Qed.


(** ** Witnesses *)
Module Witness.
#[local] Existing Instances Toy.toy_blake3.

(** A codec of the frames: a tag, the hash, and the numbers and strings of a header that
    are not determined by the tag fixed. *)
Definition content : bytes := as_bytes "hello".
Definition header : TransferHeader :=
  mk_TransferHeader "t" "p" "f" (len content) (expected_chunks (len content)) (blake3 content) 3.
#[local] Instance frame_codec : Codec FrameKind := {|
  to_vec f :=
    match f with
    | FHeader h => if bool_decide (transfer_id h = "t" ∧ project_id h = "p" ∧ file_id h = "f" ∧
                                   version h = 3%N ∧ is_u64 (total_size h) ∧
                                   chunk_count h = expected_chunks (total_size h) ∧
                                   length (total_hash h) = 32)
                   then Some (x00 :: le_bytes 8 (total_size h) ++ total_hash h) else None
    | FChunk c => if bool_decide (is_u64 (index c) ∧ length (hash c) = 32)
                  then Some (x01 :: le_bytes 8 (index c) ++ hash c ++ data c) else None
    | FFooter f => Some (x02 :: footer_hash f)
    end;
  from_slice b :=
    match b with
    | x00 :: b => let n := of_le_bytes (take 8 b) in
        Some (FHeader (mk_TransferHeader "t" "p" "f" n (expected_chunks n) (drop 8 b) 3))
    | x01 :: b => Some (FChunk (mk_ChunkFrame (of_le_bytes (take 8 b)) (take 32 (drop 8 b)) (drop 32 (drop 8 b))))
    | x02 :: b => Some (FFooter (mk_TransferFooter b))
    | _ => None
    end;
|}.
Lemma le8_round n : is_u64 n → of_le_bytes (le_bytes 8 n) = n.
Proof. intros Hn. rw of_le_bytes_le_bytes N.mod_small //. unfold is_u64, u64_max in Hn. cbn. lia. Qed.
Lemma frame_codec_laws : @CodecLaws FrameKind frame_codec.
Proof.
  intros [[t p f n c th v]|[i hs d]|[fh]] b; simpl.
  - case_bool_decide as E; [|done]. intros [= <-]. simpl in E. destruct E as (-> & -> & -> & -> & Hu & -> & Hh).
    rw take_app_length' ?length_le_bytes // drop_app_length' ?length_le_bytes // le8_round //.
  - case_bool_decide as E; [|done]. intros [= <-]. simpl in E. destruct E as [Hu Hh].
    rw take_app_length' ?length_le_bytes // drop_app_length' ?length_le_bytes // le8_round //.
    rw take_app_length' // drop_app_length' //.
  - by intros [= <-].
Qed.
Definition sent : bytes := (send_stream content header).1.
End Witness.

Lemma accepted_file_matches_header_witness :
  len Witness.content = total_size Witness.header ∧
  @blake3 Toy.toy_blake3 Witness.content = total_hash Witness.header ∧
  chunk_count Witness.header = expected_chunks (total_size Witness.header).
Proof.
  apply (@accepted_file_matches_header Toy.toy_blake3 Witness.frame_codec Witness.sent).
  vm_compute. reflexivity.
Defined.

Lemma receive_writes_bounded_witness :
  (len Witness.content ≤ total_size Witness.header + CHUNK_SIZE)%N.
Proof.
  eapply (@receive_writes_bounded Toy.toy_blake3 Witness.frame_codec Witness.sent);
    vm_compute; reflexivity.
Defined.

Lemma transfer_roundtrip_witness :
  ∃ sent, @send_stream Toy.toy_blake3 Witness.frame_codec Witness.content Witness.header = (sent, Ok ()) ∧
    @receive_stream Toy.toy_blake3 Witness.frame_codec sent = (Some Witness.content, Ok Witness.header).
Proof.
  apply (@transfer_roundtrip Toy.toy_blake3 Witness.frame_codec Witness.frame_codec_laws Witness.content
           "t" "p" "f" 3).
  - vm_compute. discriminate.
  - assert (Hc : chunks CS Witness.content = [Witness.content]) by (vm_compute; reflexivity).
    unfold frames_of. rw Hc. cbn [chunk_frames app].
    repeat constructor; eexists; (split; [vm_compute; reflexivity|vm_compute; discriminate]).
Defined.
