(* ===== verification/Fs.v ===== *)
(** * The file system

    What [synergos-core] uses of [std::fs], [tokio::fs] and [std::path]: a tree of files,
    directories and symbolic links, path resolution, and the operations on it.

    A path is the list of its components below the file system's root; a relative link
    is represented by the absolute path it denotes.  Each operation consults a stream of
    faults: [None] lets it proceed, [Some k] makes it fail with an error of kind [Other],
    and a write that fails leaves the first [k] bytes behind.  Theorems quantify over the
    stream, so they cover a failure at every point, and, since a process that stops
    between two operations leaves the disk a failing operation leaves, a crash at every
    point. *)

From S2P Require Import Prelude.

Inductive IoError :=
| NotFound
| AlreadyExists
| InvalidInput
| InvalidData
| PermissionDenied
| NotADirectory
| IsADirectory
| FilesystemLoop
| OtherIo.

Global Instance IoError_eq_dec : EqDecision IoError.
Proof. solve_decision. Defined.

Abbreviation path := (list string).

Inductive node :=
| File (content : bytes)
| Dir
| Symlink (target : path).

Global Instance node_eq_dec : EqDecision node.
Proof. solve_decision. Defined.

Abbreviation Fs := (gmap path node).

(** The number of links a resolution may follow (Linux's limit). *)
Definition SYMLOOP_MAX : nat := 40.
Global Opaque SYMLOOP_MAX.

(** [Path::parent], [Path::starts_with]. *)
Definition parent (p : path) : path := take (length p - 1) p.
Definition path_starts_with (base p : path) : bool := bool_decide (take (length base) p = base).

Definition node_at (fs : Fs) (p : path) : option node :=
  match p with [] => Some Dir | _ => fs !! p end.
Definition is_dir_at (fs : Fs) (p : path) : bool := bool_decide (node_at fs p = Some Dir).

(** Resolution of [rest] below the physical directory [cur]. *)
Fixpoint resolve (links : nat) (fs : Fs) : path → path → result IoError path :=
  fix go (cur rest : path) {struct rest} :=
    match rest with
    | [] => Ok cur
    | c :: rest' =>
        if bool_decide (c = "..") then go (parent cur) rest'
        else
          match fs !! (cur ++ [c]) with
          | None => Err NotFound
          | Some Dir => go (cur ++ [c]) rest'
          | Some (File _) => if bool_decide (rest' = []) then Ok (cur ++ [c]) else Err NotADirectory
          | Some (Symlink t) =>
              match links with
              | O => Err FilesystemLoop
              | S links => resolve links fs [] (t ++ rest')
              end
          end
    end.

(** [fs::canonicalize]. *)
Definition canonicalize_at (fs : Fs) (p : path) : result IoError path := resolve SYMLOOP_MAX fs [] p.

(** The physical path of the directory entry [p] names, and what is there; a link in
    the last component is not followed. *)
Definition locate (fs : Fs) (p : path) : result IoError (path * option node) :=
  match last p with
  | None => Ok ([], Some Dir)
  | Some c =>
      d ← canonicalize_at fs (parent p);
      if is_dir_at fs d then
        if bool_decide (c = "..") then Ok (parent d, node_at fs (parent d))
        else Ok (d ++ [c], fs !! (d ++ [c]))
      else Err NotADirectory
  end.

(** [fs::symlink_metadata]. *)
Definition symlink_metadata_at (fs : Fs) (p : path) : result IoError node :=
  '(_, o) ← locate fs p; ok_or o NotFound.

(** [fs::metadata]. *)
Definition metadata_at (fs : Fs) (p : path) : result IoError node :=
  q ← canonicalize_at fs p; ok_or (node_at fs q) NotFound.

(** [fs::read]. *)
Definition read_at (fs : Fs) (p : path) : result IoError bytes :=
  n ← metadata_at fs p;
  match n with File b => Ok b | Dir => Err IsADirectory | Symlink _ => Err OtherIo end.

(** [fs::write]: creates or truncates, following links in the last component. *)
Fixpoint write_at (links : nat) (fs : Fs) (p : path) (b : bytes) : result IoError Fs :=
  '(q, o) ← locate fs p;
  match o with
  | None | Some (File _) => Ok (<[q := File b]> fs)
  | Some Dir => Err IsADirectory
  | Some (Symlink t) =>
      match links with O => Err FilesystemLoop | S links => write_at links fs t b end
  end.

(** [fs::rename] of a file: atomic, replaces a file or a link, never a directory. *)
Definition rename_at (fs : Fs) (src dst : path) : result IoError Fs :=
  '(s, so) ← locate fs src;
  '(d, do) ← locate fs dst;
  match so, do with
  | None, _ => Err NotFound
  | Some Dir, _ => Err InvalidInput
  | Some _, Some Dir => Err IsADirectory
  | Some n, _ => Ok (<[d := n]> (delete s fs))
  end.

(** [fs::remove_file]. *)
Definition remove_file_at (fs : Fs) (p : path) : result IoError Fs :=
  '(q, o) ← locate fs p;
  match o with
  | None => Err NotFound
  | Some Dir => Err IsADirectory
  | Some _ => Ok (delete q fs)
  end.

(** One directory of [fs::create_dir_all]. *)
Definition ensure_dir_at (fs : Fs) (p : path) : result IoError Fs :=
  match canonicalize_at fs p with
  | Ok q => if is_dir_at fs q then Ok fs else Err AlreadyExists
  | Err NotFound =>
      '(q, o) ← locate fs p;
      match o with None => Ok (<[q := Dir]> fs) | Some _ => Err AlreadyExists end
  | Err e => Err e
  end.

(** The names of the entries of the directory [q], in the order of [map_to_list]. *)
Definition children (fs : Fs) (q : path) : list string :=
  omap (λ kn, if bool_decide (parent kn.1 = q)
              then c ← last kn.1; if bool_decide (c = "..") then None else Some c
              else None) (map_to_list fs).

(** [fs::read_dir]: the order of the entries is not specified.  The names are those at the
    time of the call. *)
Class DirOrder := dir_order : Fs → path → list string.
Class DirOrderLaws `{DirOrder} : Prop :=
  dir_order_perm : ∀ fs q, dir_order fs q ≡ₚ children fs q.

Definition read_dir_at `{DirOrder} (fs : Fs) (p : path) : result IoError (list string) :=
  q ← canonicalize_at fs p;
  if is_dir_at fs q then Ok (dir_order fs q) else Err NotADirectory.

(** The entries at and below a path, children before their parents. *)
Definition path_leb (a b : path) : bool :=
  lex_leb (λ x y, string_leb x y && negb (bool_decide (x = y))) (λ x y, bool_decide (x = y)) a b.
Definition subtree (fs : Fs) (q : path) : list path :=
  isort (λ a b, path_leb b a) (filter (λ k, path_starts_with q k = true) (map_to_list fs).*1).

(** [fs::remove_dir_all] after [k] of its removals. *)
Definition remove_entries (fs : Fs) (l : list path) : Fs := foldr delete fs l.
Definition remove_dir_all_at (fs : Fs) (p : path) : result IoError path :=
  '(q, o) ← locate fs p;
  match o with None => Err NotFound | Some Dir => Ok q | Some _ => Err NotADirectory end.

(** ** Effects

    A computation over a state [S] that may fail: a failure keeps the state reached. *)
Definition ST (St E A : Type) : Type := St → result E A * St.

Global Instance ST_ret {St E} : MRet (ST St E) := λ A a s, (Ok a, s).
Global Instance ST_bind {St E} : MBind (ST St E) := λ A B f m s,
  match m s with (Ok a, s') => f a s' | (Err e, s') => (Err e, s') end.

Section combinators.
Context {St E A : Type}.
Definition throw (e : E) : ST St E A := λ s, (Err e, s).
Definition lift_result (r : result E A) : ST St E A := λ s, (r, s).
Definition gets (f : St → A) : ST St E A := λ s, (Ok (f s), s).
Definition try_ (m : ST St E A) : ST St E (result E A) := λ s, let '(r, s') := m s in (Ok r, s').
(** [let _ = m]. *)
Definition ignore (m : ST St E A) : ST St E () := λ s, let '(_, s') := m s in (Ok (), s').
End combinators.
Definition modify {St E} (f : St → St) : ST St E () := λ s, (Ok (), f s).

(** [for x in l { f(x)?; }]. *)
Fixpoint for_each {St E A} (f : A → ST St E ()) (l : list A) : ST St E () :=
  match l with
  | [] => mret ()
  | x :: l' => _ ← f x; for_each f l'
  end.

(** *** The disk *)
Record World := mk_World { disk : Fs; faults : list (option nat) }.

Abbreviation IO A := (ST World IoError A).

Definition next_fault (w : World) : option nat * World :=
  match faults w with
  | [] => (None, w)
  | f :: fs => (f, mk_World (disk w) fs)
  end.

(** An operation on the tree; [partial k] is the tree a failure leaves. *)
Definition effect {A : Type} (partial : nat → Fs → Fs) (op : Fs → result IoError (A * Fs)) : IO A := λ w,
  let '(f, w) := next_fault w in
  match f with
  | Some k => (Err OtherIo, mk_World (partial k (disk w)) (faults w))
  | None =>
      match op (disk w) with
      | Ok (a, d) => (Ok a, mk_World d (faults w))
      | Err e => (Err e, w)
      end
  end.

Definition query {A : Type} (op : Fs → result IoError A) : IO A :=
  effect (λ _ d, d) (λ d, a ← op d; Ok (a, d)).
Definition update (op : Fs → result IoError Fs) : IO () :=
  effect (λ _ d, d) (λ d, d' ← op d; Ok ((), d')).

Definition canonicalize (p : path) : IO path := query (λ d, canonicalize_at d p).
Definition symlink_metadata (p : path) : IO node := query (λ d, symlink_metadata_at d p).
Definition metadata (p : path) : IO node := query (λ d, metadata_at d p).
Definition read (p : path) : IO bytes := query (λ d, read_at d p).
Definition remove_file (p : path) : IO () := update (λ d, remove_file_at d p).
Definition rename (src dst : path) : IO () := update (λ d, rename_at d src dst).
Definition write (p : path) (b : bytes) : IO () :=
  effect (λ k d, match write_at SYMLOOP_MAX d p (take k b) with Ok d' => d' | Err _ => d end)
         (λ d, d' ← write_at SYMLOOP_MAX d p b; Ok ((), d')).

Definition read_dir `{DirOrder} (p : path) : IO (list string) := query (λ d, read_dir_at d p).

(** [fs::copy]: the whole of [src] is written to [dst]; a failure leaves a prefix. *)
Definition copy (src dst : path) : IO () :=
  effect (λ k d, match b ← read_at d src; write_at SYMLOOP_MAX d dst (take k b) with
                 | Ok d' => d' | Err _ => d end)
         (λ d, b ← read_at d src; d' ← write_at SYMLOOP_MAX d dst b; Ok ((), d')).

Definition remove_dir_all (p : path) : IO () :=
  effect (λ k d, match remove_dir_all_at d p with
                 | Ok q => remove_entries d (take k (subtree d q)) | Err _ => d end)
         (λ d, q ← remove_dir_all_at d p; Ok ((), remove_entries d (subtree d q))).

(** The nonempty prefixes of a path, shortest first. *)
Definition ancestors (p : path) : list path := (λ n, take (S n) p) <$> seq 0 (length p).
Definition create_dir_all (p : path) : IO () :=
  for_each (λ q, update (λ d, ensure_dir_at d q)) (ancestors p).

(** ** Running computations backwards

    From the outcome of a computation to the outcomes of its parts. *)
Lemma bind_inv {St E A B} (m : ST St E A) (f : A → ST St E B) s r s' :
  (m ≫= f) s = (r, s') →
  (∃ a s1, m s = (Ok a, s1) ∧ f a s1 = (r, s')) ∨ (∃ e, m s = (Err e, s') ∧ r = Err e).
Proof.
  unfold mbind, ST_bind. destruct (m s) as [[a|e] s1]; intros H.
  - left. by exists a, s1.
  - right. injection H as <- <-. by exists e.
Qed.

Lemma bind_ok {St E A B} (m : ST St E A) (f : A → ST St E B) s a s1 :
  m s = (Ok a, s1) → (m ≫= f) s = f a s1.
Proof. unfold mbind, ST_bind. by intros ->. Qed.

Lemma try_eq {St E A} (m : ST St E A) s r s1 : m s = (r, s1) → try_ m s = (Ok r, s1).
Proof. unfold try_. by intros ->. Qed.

Lemma try_inv {St E A} (m : ST St E A) s r s' :
  try_ m s = (r, s') → ∃ r0, m s = (r0, s') ∧ r = Ok r0.
Proof. unfold try_. destruct (m s) as [r0 s1]. intros [= <- <-]. by exists r0. Qed.

Lemma ignore_inv {St E A} (m : ST St E A) s r s' :
  ignore m s = (r, s') → ∃ r0, m s = (r0, s') ∧ r = Ok ().
Proof. unfold ignore. destruct (m s) as [r0 s1]. intros [= <- <-]. by exists r0. Qed.

Lemma query_inv {A : Type} (op : Fs → result IoError A) w r w' :
  query op w = (r, w') → disk w' = disk w ∧ (r = op (disk w) ∨ r = Err OtherIo).
Proof.
  unfold query, effect, next_fault. destruct (faults w) as [|[k|] fs]; simpl;
    try (destruct (op (disk w)); simpl; intros [= <- <-]; by auto).
Qed.

Lemma update_inv op w r w' :
  update op w = (r, w') →
  (∃ e, r = Err e ∧ disk w' = disk w) ∨ (r = Ok () ∧ op (disk w) = Ok (disk w')).
Proof.
  unfold update, effect, next_fault. destruct (faults w) as [|[k|] fs]; simpl;
    try (destruct (op (disk w)) eqn:E; simpl; intros [= <- <-]; simpl; rw ?E; by eauto).
Qed.

(** A write that fails may have written a prefix. *)
Lemma write_inv p b w r w' :
  write p b w = (r, w') →
  (∃ e, r = Err e ∧ disk w' = disk w) ∨
  (∃ b', write_at SYMLOOP_MAX (disk w) p b' = Ok (disk w') ∧ (r = Ok () → b' = b)).
Proof.
  unfold write, effect, next_fault. destruct (faults w) as [|[k|] fs]; cbn [disk faults].
  - destruct (write_at _ _ _ b) eqn:E; cbn [mbind result_bind]; intros [= <- <-]; [right; exists b; by rw E|by eauto].
  - destruct (write_at _ _ _ (take k b)) eqn:E; intros [= <- <-]; [|by eauto].
    right. exists (take k b). by rw E.
  - destruct (write_at _ _ _ b) eqn:E; cbn [mbind result_bind]; intros [= <- <-]; [right; exists b; by rw E|by eauto].
Qed.

(** Decomposes [H : m s = (r, s')] along the monadic structure of [m]. *)
Ltac st_bind H :=
  let Hres := fresh "Hres" in
  apply bind_inv in H as [(?a & ?w & ? & H)|(?e & H & Hres)];
  [|first [discriminate Hres | match type of Hres with ?r = _ => subst r end
         | injection Hres as Hres; match type of Hres with ?r = _ => subst r end]].

Ltac clear_units := repeat match goal with u : unit |- _ => destruct u end.

(** ** Postconditions

    [wp m Q s]: running [m] from [s] ends in an outcome and a state that satisfy [Q]. *)
Definition wp {St E A} (m : ST St E A) (Q : result E A → St → Prop) (s : St) : Prop :=
  let '(r, s') := m s in Q r s'.

Section wp.
Context {St E : Type}.

Lemma wp_eq {A} (m : ST St E A) Q s r s' : wp m Q s → m s = (r, s') → Q r s'.
Proof. unfold wp. by destruct (m s) as [? ?]; intros ? [= <- <-]. Qed.

Lemma wp_intro {A} (m : ST St E A) (Q : result E A → St → Prop) s :
  (∀ r s', m s = (r, s') → Q r s') → wp m Q s.
Proof. unfold wp. destruct (m s) as [r s']. by intros H; apply H. Qed.

Lemma wp_mono {A} (m : ST St E A) (P Q : result E A → St → Prop) s :
  wp m P s → (∀ r s', P r s' → Q r s') → wp m Q s.
Proof. unfold wp. destruct (m s). auto. Qed.

Lemma wp_and {A} (m : ST St E A) (P Q : result E A → St → Prop) s :
  wp m P s → wp m Q s → wp m (λ r s', P r s' ∧ Q r s') s.
Proof. unfold wp. destruct (m s). auto. Qed.

Lemma wp_bind {A B} (m : ST St E A) (f : A → ST St E B) Q s :
  wp m (λ r s', match r with Ok a => wp (f a) Q s' | Err e => Q (Err e) s' end) s →
  wp (m ≫= f) Q s.
Proof. unfold wp, mbind, ST_bind. by destruct (m s) as [[a|e] s']. Qed.

Lemma wp_ret {A} (a : A) (Q : result E A → St → Prop) s : Q (Ok a) s → wp (mret a) Q s.
Proof. done. Qed.
Lemma wp_throw {A} (e : E) (Q : result E A → St → Prop) s : Q (Err e) s → wp (throw e) Q s.
Proof. done. Qed.
Lemma wp_lift {A} (r : result E A) (Q : result E A → St → Prop) s : Q r s → wp (lift_result r) Q s.
Proof. done. Qed.
Lemma wp_gets {A} (f : St → A) (Q : result E A → St → Prop) s : Q (Ok (f s)) s → wp (gets f) Q s.
Proof. done. Qed.
Lemma wp_modify (f : St → St) (Q : result E () → St → Prop) s : Q (Ok ()) (f s) → wp (modify f) Q s.
Proof. done. Qed.
Lemma wp_try {A} (m : ST St E A) (Q : result E (result E A) → St → Prop) s :
  wp m (λ r, Q (Ok r)) s → wp (try_ m) Q s.
Proof. unfold wp, try_. by destruct (m s). Qed.
Lemma wp_ignore {A} (m : ST St E A) (Q : result E () → St → Prop) s :
  wp m (λ _, Q (Ok ())) s → wp (ignore m) Q s.
Proof. unfold wp, ignore. by destruct (m s). Qed.

(** Loops keep an invariant indexed by what is left. *)
Lemma wp_for_each {A} (f : A → ST St E ()) (I : list A → St → Prop) (Q : result E () → St → Prop) l s :
  I l s →
  (∀ x l' s, I (x :: l') s →
     wp (f x) (λ r s', match r with Ok _ => I l' s' | Err e => Q (Err e) s' end) s) →
  (∀ s, I [] s → Q (Ok ()) s) →
  wp (for_each f l) Q s.
Proof.
  intros HI Hstep Hend. revert s HI. induction l as [|x l IH]; intros s HI; [by apply Hend|].
  cbn [for_each]. apply wp_bind. eapply wp_mono; [by apply Hstep|]. intros [a|e] s' H; [|done].
  by apply IH.
Qed.
End wp.

Section wp_disk.
Context {A : Type}.
Implicit Types (w : World).

Lemma wp_query (op : Fs → result IoError A) (Q : result IoError A → World → Prop) w :
  (∀ r w', disk w' = disk w → r = op (disk w) ∨ r = Err OtherIo → Q r w') → wp (query op) Q w.
Proof. intros H. apply wp_intro. intros r w' [? ?]%query_inv. auto. Qed.

Lemma wp_update op (Q : result IoError () → World → Prop) w :
  (∀ e w', disk w' = disk w → Q (Err e) w') →
  (∀ w', op (disk w) = Ok (disk w') → Q (Ok ()) w') → wp (update op) Q w.
Proof. intros H1 H2. apply wp_intro. intros r w' [(e & -> & ?)|[-> ?]]%update_inv; auto. Qed.

Lemma wp_write p b (Q : result IoError () → World → Prop) w :
  (∀ e w', disk w' = disk w → Q (Err e) w') →
  (∀ b' r w', write_at SYMLOOP_MAX (disk w) p b' = Ok (disk w') → (r = Ok () → b' = b) → Q r w') →
  wp (write p b) Q w.
Proof.
  intros H1 H2. apply wp_intro. intros r w' [(e & -> & ?)|(b' & ? & ?)]%write_inv; [by auto|eauto].
Qed.
End wp_disk.

(** One step of a computation under [wp]. *)
Ltac wp_step :=
  lazymatch goal with
  | |- wp (mbind _ _) _ _ => apply wp_bind
  | |- wp (mret _) _ _ => apply wp_ret
  | |- wp (throw _) _ _ => apply wp_throw
  | |- wp (lift_result _) _ _ => apply wp_lift
  | |- wp (gets _) _ _ => apply wp_gets
  | |- wp (modify _) _ _ => apply wp_modify
  | |- wp (try_ _) _ _ => apply wp_try
  | |- wp (ignore _) _ _ => apply wp_ignore
  end.

(** ** Physical paths

    [real_dir fs p]: every prefix of [p] is a directory, so no link is met on the way. *)
Definition real_dir (fs : Fs) (p : path) : Prop := ∀ n, node_at fs (take n p) = Some Dir.
Definition normal (p : path) : Prop := ".." ∉ p.

Lemma real_dir_nil fs : real_dir fs [].
Proof. intros n. by rw take_nil. Qed.

Lemma node_at_snoc fs p c : node_at fs (p ++ [c]) = fs !! (p ++ [c]).
Proof. by destruct p. Qed.

Lemma real_dir_at fs p : real_dir fs p → node_at fs p = Some Dir.
Proof. intros H. specialize (H (length p)). by rw take_ge in H. Qed.

Lemma real_dir_snoc fs p c :
  real_dir fs (p ++ [c]) ↔ real_dir fs p ∧ fs !! (p ++ [c]) = Some Dir.
Proof.
  split.
  - intros H. split; [|rw -node_at_snoc; by apply real_dir_at].
    intros n. destruct (decide (n ≤ length p)) as [Hn|Hn].
    + specialize (H n). by rw take_app_le in H.
    + specialize (H (length p)). rw take_app_length in H. by rw take_ge; [lia|].
  - intros [H Hc] n. destruct (decide (n ≤ length p)) as [Hn|Hn].
    + by rw take_app_le.
    + rw take_ge; [rw length_app /=; lia|]. by rw node_at_snoc.
Qed.

Lemma real_dir_take fs p n : real_dir fs p → real_dir fs (take n p).
Proof. intros H m. rw take_take. apply H. Qed.

Lemma real_dir_app_l fs p q : real_dir fs (p ++ q) → real_dir fs p.
Proof. intros H. apply (real_dir_take _ _ (length p)) in H. by rw take_app_length in H. Qed.

Lemma real_dir_mono fs fs' p :
  (∀ q, fs !! q = Some Dir → fs' !! q = Some Dir) → real_dir fs p → real_dir fs' p.
Proof.
  intros Hm H n. specialize (H n). destruct (take n p); [done|]. by apply Hm.
Qed.

Lemma parent_snoc p c : parent (p ++ [c]) = p.
Proof.
  unfold parent. rw length_app /=. replace (length p + 1 - 1) with (length p) by lia.
  by rw take_app_length.
Qed.

Lemma resolve_eq links fs cur rest :
  resolve links fs cur rest =
    match rest with
    | [] => Ok cur
    | c :: rest' =>
        if bool_decide (c = "..") then resolve links fs (parent cur) rest'
        else
          match fs !! (cur ++ [c]) with
          | None => Err NotFound
          | Some Dir => resolve links fs (cur ++ [c]) rest'
          | Some (File _) => if bool_decide (rest' = []) then Ok (cur ++ [c]) else Err NotADirectory
          | Some (Symlink t) =>
              match links with O => Err FilesystemLoop | S links => resolve links fs [] (t ++ rest') end
          end
    end.
Proof. destruct links, rest; reflexivity. Qed.

(** Resolution walks through physical directories. *)
Lemma resolve_walk links fs cur rest post :
  normal rest → real_dir fs (cur ++ rest) →
  resolve links fs cur (rest ++ post) = resolve links fs (cur ++ rest) post.
Proof.
  revert cur. induction rest as [|c rest IH]; intros cur Hn Hr; [by rw app_nil_r|].
  cbn [app]. rw resolve_eq. apply not_elem_of_cons in Hn as [Hc Hn].
  rw bool_decide_eq_false_2; [done|]. rw (cons_middle c) app_assoc in Hr |- *.
  pose proof (real_dir_app_l _ _ _ Hr) as [_ ->]%real_dir_snoc. by apply IH.
Qed.

Lemma canonicalize_real_dir fs p : normal p → real_dir fs p → canonicalize_at fs p = Ok p.
Proof.
  intros Hn Hr. unfold canonicalize_at. rw -{1}(app_nil_r p) resolve_walk // resolve_eq //.
Qed.

(** A missing entry stops the resolution. *)
Lemma canonicalize_missing fs d c post :
  normal d → real_dir fs d → c ≠ ".." → fs !! (d ++ [c]) = None →
  canonicalize_at fs (d ++ c :: post) = Err NotFound.
Proof.
  intros Hn Hr Hc E. unfold canonicalize_at. rw resolve_walk // resolve_eq.
  rw bool_decide_eq_false_2 //. cbn [app]. by rw E.
Qed.

(** A resolved path is physical: its parent is a real directory and it is no link. *)
Lemma normal_take p n : normal p → normal (take n p).
Proof. intros Hp Hin. apply Hp. rw -(take_drop n p). set_solver. Qed.

Lemma normal_snoc p c : normal p → c ≠ ".." → normal (p ++ [c]).
Proof. unfold normal. set_solver. Qed.

Lemma resolve_physical links fs cur rest q :
  normal cur → real_dir fs cur → resolve links fs cur rest = Ok q →
  normal q ∧ real_dir fs (parent q) ∧ (node_at fs q = Some Dir ∨ ∃ b, node_at fs q = Some (File b)).
Proof.
  revert cur rest. induction links as [|links IHl]; intros cur rest;
    revert cur; induction rest as [|c rest IH]; intros cur Hn Hr; rw resolve_eq;
    try (intros [= <-]; split_and!; [done|by apply real_dir_take|left; by apply real_dir_at]).
  all: case_bool_decide as Hc; [apply IH; [by apply normal_take|by apply real_dir_take]|].
  all: destruct (fs !! (cur ++ [c])) as [[b| |t]|] eqn:E; try done.
  all: try (apply IH; [by apply normal_snoc|by apply real_dir_snoc]).
  all: try (case_bool_decide; [|done]; intros [= <-]; rw parent_snoc node_at_snoc E;
            split_and!; [by apply normal_snoc|done|by eauto]).
  apply IHl; [by apply not_elem_of_nil|apply real_dir_nil].
Qed.

Lemma canonicalize_physical fs p q :
  canonicalize_at fs p = Ok q →
  normal q ∧ real_dir fs (parent q) ∧ (node_at fs q = Some Dir ∨ ∃ b, node_at fs q = Some (File b)).
Proof. apply resolve_physical; [by apply not_elem_of_nil|apply real_dir_nil]. Qed.

Lemma real_dir_parent fs p : real_dir fs (parent p) → node_at fs p = Some Dir → real_dir fs p.
Proof.
  destruct p as [|c p _] using rev_ind; [done|]. rw parent_snoc node_at_snoc.
  intros. by apply real_dir_snoc.
Qed.

(** Entries of a physical directory. *)
Section entries.
Context (fs : Fs) (d : path) (c : string) (Hn : normal d) (Hr : real_dir fs d) (Hc : c ≠ "..").

Lemma locate_entry : locate fs (d ++ [c]) = Ok (d ++ [c], fs !! (d ++ [c])).
Proof.
  unfold locate. rw last_snoc parent_snoc canonicalize_real_dir //. cbn [mbind result_bind].
  unfold is_dir_at. rw bool_decide_eq_true_2; [by apply real_dir_at|].
  rw bool_decide_eq_false_2 //.
Qed.

Lemma symlink_metadata_entry : symlink_metadata_at fs (d ++ [c]) = ok_or (fs !! (d ++ [c])) NotFound.
Proof. unfold symlink_metadata_at. by rw locate_entry. Qed.

Lemma canonicalize_entry :
  (∀ t, fs !! (d ++ [c]) ≠ Some (Symlink t)) →
  canonicalize_at fs (d ++ [c]) =
    match fs !! (d ++ [c]) with Some _ => Ok (d ++ [c]) | None => Err NotFound end.
Proof.
  intros Hl. unfold canonicalize_at. rw resolve_walk // resolve_eq.
  rw bool_decide_eq_false_2; [done|]. cbn [app].
  destruct (fs !! (d ++ [c])) as [[| |t]|] eqn:E; try done.
  by destruct (Hl t).
Qed.

Lemma read_entry :
  (∀ t, fs !! (d ++ [c]) ≠ Some (Symlink t)) →
  read_at fs (d ++ [c]) =
    match fs !! (d ++ [c]) with
    | Some (File b) => Ok b
    | Some _ => Err IsADirectory
    | None => Err NotFound
    end.
Proof.
  intros Hl. unfold read_at, metadata_at. rw canonicalize_entry //.
  destruct (fs !! (d ++ [c])) as [[| |t]|] eqn:E; simpl; rw ?node_at_snoc ?E //.
  by destruct (Hl t).
Qed.

Lemma write_entry links b fs' :
  (∀ t, fs !! (d ++ [c]) ≠ Some (Symlink t)) →
  write_at links fs (d ++ [c]) b = Ok fs' →
  fs !! (d ++ [c]) ≠ Some Dir ∧ fs' = <[d ++ [c] := File b]> fs.
Proof.
  intros Hl. destruct links; cbn [write_at]; rw locate_entry; cbn [mbind result_bind];
    destruct (fs !! (d ++ [c])) as [[| |t]|] eqn:E; try done; try (by intros [= <-]);
    by destruct (Hl t).
Qed.

Lemma remove_file_entry fs' :
  remove_file_at fs (d ++ [c]) = Ok fs' →
  fs !! (d ++ [c]) ≠ Some Dir ∧ fs' = delete (d ++ [c]) fs.
Proof.
  unfold remove_file_at. rw locate_entry. cbn [mbind result_bind].
  destruct (fs !! (d ++ [c])) as [[| |t]|]; try done; by intros [= <-].
Qed.
End entries.

Lemma rename_entry fs d a b fs' :
  normal d → real_dir fs d → a ≠ ".." → b ≠ ".." →
  rename_at fs (d ++ [a]) (d ++ [b]) = Ok fs' →
  ∃ n, fs !! (d ++ [a]) = Some n ∧ n ≠ Dir ∧ fs !! (d ++ [b]) ≠ Some Dir ∧
    fs' = <[d ++ [b] := n]> (delete (d ++ [a]) fs).
Proof.
  intros Hn Hr Ha Hb. unfold rename_at. rw !locate_entry //. cbn [mbind result_bind].
  destruct (fs !! (d ++ [a])) as [n|]; [|done].
  destruct n; [| |]; destruct (fs !! (d ++ [b])) as [[| |]|]; try done;
    intros [= <-]; by eexists.
Qed.

(** [ensure_dir_at] leaves a physical directory alone and creates a missing entry. *)
Lemma ensure_dir_real fs p : normal p → real_dir fs p → ensure_dir_at fs p = Ok fs.
Proof.
  intros Hn Hr. unfold ensure_dir_at. rw canonicalize_real_dir // /is_dir_at.
  rw bool_decide_eq_true_2 //. by apply real_dir_at.
Qed.

Lemma ensure_dir_entry fs d c fs' :
  normal d → real_dir fs d → c ≠ ".." → (∀ t, fs !! (d ++ [c]) ≠ Some (Symlink t)) →
  ensure_dir_at fs (d ++ [c]) = Ok fs' →
  fs' = fs ∧ fs !! (d ++ [c]) = Some Dir ∨ fs !! (d ++ [c]) = None ∧ fs' = <[d ++ [c] := Dir]> fs.
Proof.
  intros Hn Hr Hc Hl. unfold ensure_dir_at. rw canonicalize_entry // locate_entry //.
  destruct (fs !! (d ++ [c])) as [n|] eqn:E; cbn [mbind result_bind].
  - unfold is_dir_at. case_bool_decide as Hd; [|done]. intros [= <-]. left.
    by rw node_at_snoc E in Hd.
  - intros [= <-]. by right.
Qed.
