(* ===== verification/Manifest.v ===== *)
(** * Manifest and version state

    [synergos-core/src/manifest.rs] and [synergos-core/src/version_state.rs]: the
    manifest of a project (which version of which file the node has), the node-local
    high-water mark of version numbers, the paths both are stored at, and the check that
    confines a path received from the network to the project root.

    The JSON encodings are [Codec] parameters; [uuid] is the random part of a temporary
    file name.  Windows-only code is not modelled. *)

From Stdlib Require Import Strings.Ascii.
From S2P Require Import Prelude Crypto Fs.

Definition META_DIR : string := ".synergos".
Definition MANIFEST_FILE : string := "manifest.json".
Definition INCOMING_DIR : string := "incoming".
Definition VERSION_STATE_FILE : string := "state.json".

(** ** Strings *)

(** [str::split] at a character; never empty. *)
Fixpoint split_on (sep : ascii) (s : string) : list string :=
  match s with
  | EmptyString => [""]
  | String.String c s' =>
      if bool_decide (c = sep) then "" :: split_on sep s'
      else
        match split_on sep s' with
        | [] => [String.String c ""]
        | x :: xs => String.String c x :: xs
        end
  end.

Fixpoint contains_char (c : ascii) (s : string) : bool :=
  match s with
  | EmptyString => false
  | String.String d s' => bool_decide (d = c) || contains_char c s'
  end.

(** [chars().any(char::is_control)]: U+0000..U+001F, U+007F..U+009F in UTF-8. *)
Fixpoint has_control (b : bytes) : bool :=
  match b with
  | [] => false
  | x :: r =>
      (Byte.to_N x <? 32)%N || (Byte.to_N x =? 127)%N
      || ((Byte.to_N x =? 194)%N
          && match r with y :: _ => (128 <=? Byte.to_N y)%N && (Byte.to_N y <? 160)%N | [] => false end)
      || has_control r
  end.

Definition starts_with_char (c : ascii) (s : string) : bool :=
  match s with String.String d _ => bool_decide (d = c) | EmptyString => false end.

Fixpoint map_char (f : ascii → ascii) (s : string) : string :=
  match s with EmptyString => "" | String.String c s' => String.String (f c) (map_char f s') end.

(** [trim_start_matches("./")] and [trim_start_matches('/')]. *)
Fixpoint trim_dot_slash (s : string) : string :=
  match s with
  | String.String "." (String.String "/" s') => trim_dot_slash s'
  | _ => s
  end.
Fixpoint trim_slash (s : string) : string :=
  match s with String.String "/" s' => trim_slash s' | _ => s end.

Definition normalize_rel_path (rel : string) : string :=
  trim_slash (trim_dot_slash (map_char (λ c, if bool_decide (c = "\"%char) then "/"%char else c) rel)).

(** [BTreeMap::iter]: ascending keys. *)
Definition btree_iter {A} (m : gmap string A) : list (string * A) :=
  isort (λ a b, string_leb a.1 b.1) (map_to_list m).

(** ** Paths below the project root *)
Fixpoint push_segments (first : bool) (segs p : path) : option path :=
  match segs with
  | [] => Some p
  | seg :: segs' =>
      if bool_decide (seg = "") || bool_decide (seg = ".") || bool_decide (seg = "..") then None
      else if contains_char ":" seg || (first && bool_decide (seg = META_DIR)) then None
      else push_segments false segs' (p ++ [seg])
  end.

Definition safe_rel_to_local (rel : string) : option path :=
  if bool_decide (rel = "") || starts_with_char "/" rel || contains_char "\" rel
     || has_control (as_bytes rel)
  then None
  else push_segments true (split_on "/" rel) [].

(** The loop of [safe_join_under_root]. *)
Fixpoint check_components (canonical_root candidate comps : path) : IO bool :=
  match comps with
  | [] => mret true
  | c :: comps' =>
      let candidate := candidate ++ [c] in
      m ← try_ (symlink_metadata candidate);
      match m with
      | Ok (Symlink _) => mret false
      | Ok _ =>
          k ← try_ (canonicalize candidate);
          match k with
          | Ok canonical =>
              if path_starts_with canonical_root canonical
              then check_components canonical_root candidate comps'
              else mret false
          | Err _ => mret false
          end
      | Err NotFound => check_components canonical_root candidate comps'
      | Err _ => mret false
      end
  end.

Definition safe_join_under_root (root : path) (rel : string) : IO (option path) :=
  match safe_rel_to_local rel with
  | None => mret None
  | Some local =>
      r ← try_ (canonicalize root);
      match r with
      | Err _ => mret None
      | Ok canonical_root =>
          ok ← check_components canonical_root canonical_root local;
          mret (if ok : bool then Some (canonical_root ++ local) else None)
      end
  end.

(** [replace_file_atomically] (not Windows). *)
Definition replace_file_atomically (source destination : path) : IO () := rename source destination.

Definition metadata_file_path (root : path) (file_name : string) : IO path :=
  canonical_root ← canonicalize root;
  let metadata_dir := canonical_root ++ [META_DIR] in
  m ← try_ (symlink_metadata metadata_dir);
  match m with
  | Ok Dir =>
      c ← canonicalize metadata_dir;
      if path_starts_with canonical_root c then mret (metadata_dir ++ [file_name])
      else throw PermissionDenied
  | Ok _ => throw InvalidInput
  | Err NotFound => mret (metadata_dir ++ [file_name])
  | Err e => throw e
  end.

Definition prepare_metadata_dir (root : path) : IO path :=
  p ← metadata_file_path root MANIFEST_FILE;
  _ ← create_dir_all (parent p);
  checked ← metadata_file_path root MANIFEST_FILE;
  mret (parent checked).

Definition incoming_dir (root : path) : IO path :=
  metadata_dir ← prepare_metadata_dir root;
  let dir := metadata_dir ++ [INCOMING_DIR] in
  m ← try_ (symlink_metadata dir);
  _ ← match m with
      | Ok Dir | Err NotFound => mret ()
      | Ok _ => throw InvalidInput
      | Err e => throw e
      end;
  _ ← create_dir_all dir;
  canonical ← canonicalize dir;
  if path_starts_with metadata_dir canonical then mret canonical else throw PermissionDenied.

(** Writes [b] to a temporary file and renames it to [dest]; if the rename fails the
    temporary file is removed. *)
Definition replace_with (tmp dest : path) (b : bytes) : IO () :=
  _ ← write tmp b;
  r ← try_ (replace_file_atomically tmp dest);
  match r with
  | Ok _ => mret ()
  | Err e => _ ← ignore (remove_file tmp); throw e
  end.

(** Writes [json] to a fresh temporary file of [dir] and renames it to [name]. *)
Definition save_json (dir : path) (prefix uuid name : string) (json : option bytes) : IO () :=
  json ← lift_result (ok_or json InvalidData);
  replace_with (dir ++ [prefix +:+ uuid +:+ ".tmp"]) (dir ++ [name]) json.

(** [crc32_of_file]: the file is read in pieces of up to 256 KiB; the hasher's state
    after some updates is represented by the bytes it was given. *)
Fixpoint crc32_loop `{Crc32} (reads : list bytes) (hasher : bytes) (total : N) : N * N :=
  match reads with
  | [] => (crc32 hasher, total)
  | n :: reads' => crc32_loop reads' (hasher ++ n) (total + N.of_nat (length n))
  end.
Definition CRC_BUF : nat := 256 * 1024.
Definition crc32_of_file `{Crc32} (p : path) : IO (N * N) :=
  b ← read p; mret (crc32_loop (chunks CRC_BUF b) [] 0%N).

(** ** The manifest *)
Record ManifestEntry := mk_ManifestEntry {
  version : N;
  me_size : N;
  me_crc : N;
  updated_at : N;
  publisher : string;
}.

Record ProjectManifest := mk_ProjectManifest {
  m_format : N;
  m_project_id : string;
  files : gmap string ManifestEntry;
}.

Inductive BumpOutcome :=
| Bumped (v : N)
| Unchanged (v : N).

Global Instance ManifestEntry_eq_dec : EqDecision ManifestEntry.
Proof. solve_decision. Defined.
Global Instance ProjectManifest_eq_dec : EqDecision ProjectManifest.
Proof. solve_decision. Defined.
Global Instance BumpOutcome_eq_dec : EqDecision BumpOutcome.
Proof. solve_decision. Defined.

Definition outcome_version (o : BumpOutcome) : N := match o with Bumped v | Unchanged v => v end.

Definition new_manifest (project_id : string) : ProjectManifest := mk_ProjectManifest 1 project_id ∅.

Definition with_files (f : gmap string ManifestEntry) (m : ProjectManifest) : ProjectManifest :=
  mk_ProjectManifest (m_format m) (m_project_id m) f.

Definition bump_at_least (rel : string) (size crc : N) (publisher : string) (now_ms floor : N)
    (m : ProjectManifest) : ProjectManifest * BumpOutcome :=
  match files m !! rel with
  | Some e =>
      if ((me_size e =? size) && (me_crc e =? crc))%N then (m, Unchanged (version e))
      else
        let v := (sat_add (version e) 1 `max` sat_add floor 1)%N in
        (with_files (<[rel := mk_ManifestEntry v size crc now_ms publisher]> (files m)) m, Bumped v)
  | None =>
      let v := (1 `max` sat_add floor 1)%N in
      (with_files (<[rel := mk_ManifestEntry v size crc now_ms publisher]> (files m)) m, Bumped v)
  end.

Definition bump (rel : string) (size crc : N) (publisher : string) (now_ms : N)
    (m : ProjectManifest) : ProjectManifest * BumpOutcome :=
  bump_at_least rel size crc publisher now_ms 0 m.

Definition record_received_with (rel : string) (v size crc : N) (publisher : string) (now_ms : N)
    (force : bool) (m : ProjectManifest) : ProjectManifest * bool :=
  let overwrite :=
    (with_files (<[rel := mk_ManifestEntry v size crc now_ms publisher]> (files m)) m, true) in
  match files m !! rel with
  | Some e => if (v <=? version e)%N && negb force then (m, false) else overwrite
  | None => overwrite
  end.

Definition record_received (rel : string) (v size crc : N) (publisher : string) (now_ms : N)
    (m : ProjectManifest) : ProjectManifest * bool :=
  record_received_with rel v size crc publisher now_ms false m.

Definition get_entry (m : ProjectManifest) (rel : string) : option ManifestEntry := files m !! rel.

Definition invalid_version (v : N) : bool := (v =? 0)%N || (v =? u64_max)%N.
Definition invalid_path (rel : string) : bool :=
  match safe_rel_to_local rel with Some _ => false | None => true end.

Section manifest_io.
Context `{!Codec ProjectManifest}.

Definition manifest_from_bytes (b : bytes) (project_id : string) : result IoError ProjectManifest :=
  m ← ok_or (from_slice b) InvalidData;
  let m := if bool_decide (m_project_id m = "")
           then mk_ProjectManifest (m_format m) project_id (files m) else m in
  if negb (m_format m =? 1)%N then Err InvalidData
  else if negb (bool_decide (m_project_id m = project_id)) then Err InvalidData
  else if existsb (λ '(rel, e), invalid_path rel || invalid_version (version e)) (btree_iter (files m))
  then Err InvalidData
  else Ok m.

Definition manifest_load (root : path) (project_id : string) : IO ProjectManifest :=
  p ← metadata_file_path root MANIFEST_FILE;
  r ← try_ (read p);
  match r with
  | Ok b => lift_result (manifest_from_bytes b project_id)
  | Err NotFound => mret (new_manifest project_id)
  | Err e => throw e
  end.

Definition manifest_load_from_file (p : path) (project_id : string) : IO ProjectManifest :=
  b ← read p; lift_result (manifest_from_bytes b project_id).

Definition manifest_save (uuid : string) (m : ProjectManifest) (root : path) : IO () :=
  metadata_dir ← prepare_metadata_dir root;
  save_json metadata_dir "manifest-" uuid MANIFEST_FILE (to_vec m).
End manifest_io.

(** ** The version state *)
Record VersionState := mk_VersionState {
  vs_format : N;
  vs_project_id : string;
  versions : gmap string N;
}.
Global Instance VersionState_eq_dec : EqDecision VersionState.
Proof. solve_decision. Defined.

Definition new_state (project_id : string) : VersionState := mk_VersionState 1 project_id ∅.

Definition highest (s : VersionState) (rel : string) : N := default 0%N (versions s !! rel).

Definition is_valid_entry (rel : string) (v : N) : bool :=
  negb (invalid_path rel) && (0 <? v)%N && (v <? u64_max)%N.

Definition note (rel : string) (v : N) (s : VersionState) : result IoError (VersionState * bool) :=
  if negb (is_valid_entry rel v) then Err InvalidInput
  else if (v <=? highest s rel)%N then Ok (s, false)
  else Ok (mk_VersionState (vs_format s) (vs_project_id s) (<[rel := v]> (versions s)), true).

Section state_io.
Context `{!Codec VersionState}.

Definition state_load (root : path) (project_id : string) : IO VersionState :=
  p ← metadata_file_path root VERSION_STATE_FILE;
  r ← try_ (read p);
  match r with
  | Err NotFound => mret (new_state project_id)
  | Err e => throw e
  | Ok b =>
      s ← lift_result (ok_or (from_slice b) InvalidData);
      if negb (vs_format s =? 1)%N || negb (bool_decide (vs_project_id s = project_id))
      then throw InvalidData
      else if existsb (λ '(rel, v), negb (is_valid_entry rel v)) (btree_iter (versions s))
      then throw InvalidData
      else mret s
  end.

Definition state_save (uuid : string) (s : VersionState) (root : path) : IO () :=
  metadata_dir ← prepare_metadata_dir root;
  save_json metadata_dir "state-" uuid VERSION_STATE_FILE (to_vec s).
End state_io.

(** [for (rel, version) in versions { changed |= state.note(rel, version)? }]. *)
Fixpoint note_all (l : list (string * N)) (s : VersionState) (changed : bool) :
    result IoError (VersionState * bool) :=
  match l with
  | [] => Ok (s, changed)
  | (rel, v) :: l' => '(s, c) ← note rel v s; note_all l' s (changed || c)
  end.

(** ** The metadata directory

    What the operations may do to the disk: entries of a metadata directory come and go,
    a metadata directory is created, and nothing else changes. *)
Definition meta_dir (r : path) : path := r ++ [META_DIR].
Definition meta_file (r : path) (c : string) : path := meta_dir r ++ [c].
Definition state_file (r : path) : path := meta_file r VERSION_STATE_FILE.

(** Entries have a parent directory, and metadata directories hold no links. *)
Record disk_ok (fs : Fs) : Prop := {
  disk_wf : ∀ p c n, fs !! (p ++ [c]) = Some n → node_at fs p = Some Dir;
  disk_linkfree : ∀ r c t, fs !! meta_file r c ≠ Some (Symlink t);
}.

Record same_state (fs fs' : Fs) : Prop := {
  keeps_dirs : ∀ q, fs !! q = Some Dir → fs' !! q = Some Dir;
  keeps_state : ∀ r, fs' !! state_file r = fs !! state_file r;
}.

Global Instance same_state_preorder : PreOrder same_state.
Proof.
  split; [done|]. intros a b c [Hd1 Hs1] [Hd2 Hs2]. split; [by auto|].
  intros r. by rw Hs2 Hs1.
Qed.

Lemma meta_file_inj r c r' c' : meta_file r c = meta_file r' c' → r = r' ∧ c = c'.
Proof.
  unfold meta_file, meta_dir. intros [H ->]%app_inj_tail. by apply app_inj_tail in H as [-> _].
Qed.

Lemma state_file_inj r r' : state_file r = state_file r' → r = r'.
Proof. by intros [-> _]%meta_file_inj. Qed.

Lemma meta_dir_ne r c : meta_dir r ≠ meta_file r c.
Proof. intros H%(f_equal length). unfold meta_file in H. rw length_app /= in H. lia. Qed.

(** One entry of a metadata directory changes. *)
Section edit.
Context (fs : Fs) (r : path) (c : string) (o : option node).
Context (Hok : disk_ok fs) (Hdir : node_at fs (meta_dir r) = Some Dir).
Context (Hold : fs !! meta_file r c ≠ Some Dir) (Ho : ∀ n, o = Some n → ∃ b, n = File b).
Let fs' := partial_alter (λ _, o) (meta_file r c) fs.

Lemma edit_other q : q ≠ meta_file r c → fs' !! q = fs !! q.
Proof. intros Hq. unfold fs'. by rw lookup_partial_alter_ne. Qed.

Lemma edit_same : fs' !! meta_file r c = o.
Proof. unfold fs'. by rw lookup_partial_alter_eq. Qed.

Lemma edit_dirs q : fs !! q = Some Dir → fs' !! q = Some Dir.
Proof. intros Hq. rw edit_other; [|done]. intros ->. done. Qed.

Lemma edit_ok : disk_ok fs'.
Proof.
  split.
  - intros p x n Hp. assert (Hd : node_at fs p = Some Dir).
    { destruct (decide (p ++ [x] = meta_file r c)) as [Heq|Hne].
      - by apply app_inj_tail in Heq as [-> _].
      - rw edit_other // in Hp. by eapply disk_wf. }
    destruct p; [done|]. by apply edit_dirs.
  - intros r' c' t. destruct (decide (meta_file r' c' = meta_file r c)) as [->|Hne].
    + rw edit_same. intros ->. destruct (Ho _ eq_refl) as [b ?]. done.
    + rw edit_other //. by apply disk_linkfree.
Qed.

Lemma edit_state : c ≠ VERSION_STATE_FILE → same_state fs fs'.
Proof.
  intros Hc. split; [apply edit_dirs|]. intros r'. apply edit_other.
  intros [_ ?]%meta_file_inj. done.
Qed.
End edit.

Lemma edit_create_dir fs r :
  disk_ok fs → node_at fs r = Some Dir → fs !! meta_dir r = None →
  disk_ok (<[meta_dir r := Dir]> fs) ∧ same_state fs (<[meta_dir r := Dir]> fs).
Proof.
  intros Hok Hr Hnone.
  assert (Hchild : ∀ c, fs !! meta_file r c = None).
  { intros c. destruct (fs !! meta_file r c) as [n|] eqn:E; [|done].
    apply (disk_wf _ Hok) in E. unfold meta_dir in *. by rw node_at_snoc Hnone in E. }
  assert (Hd : ∀ q, fs !! q = Some Dir → <[meta_dir r := Dir]> fs !! q = Some Dir).
  { intros q Hq. destruct (decide (q = meta_dir r)) as [->|]; [by rw lookup_insert_eq|].
    by rw lookup_insert_ne. }
  split; split; [| |done|].
  - intros p c n Hp. assert (node_at fs p = Some Dir) as Hp'.
    { destruct (decide (p ++ [c] = meta_dir r)) as [Heq|Hne].
      - by apply app_inj_tail in Heq as [-> _].
      - rw lookup_insert_ne // in Hp. by eapply disk_wf. }
    destruct p; [done|]. by apply Hd.
  - intros r' c t. destruct (decide (meta_file r' c = meta_dir r)) as [Heq|].
    + by rw Heq lookup_insert_eq.
    + rw lookup_insert_ne //. by apply disk_linkfree.
  - intros r'. rw lookup_insert_ne //. unfold state_file, meta_file, meta_dir.
    by intros [_ ?]%app_inj_tail.
Qed.

(** *** The path of a metadata file *)
Lemma metadata_file_path_disk root name w res w' :
  metadata_file_path root name w = (res, w') → disk w' = disk w.
Proof.
  intros H. unfold metadata_file_path in H. st_bind H; [|by apply query_inv in H as [-> _]].
  apply query_inv in H0 as [<- _]. st_bind H; [|by apply try_inv in H as (? & _ & ?)].
  apply try_inv in H0 as (m & H0 & [= ->]). apply query_inv in H0 as [<- _].
  destruct m as [[]|[]]; try (by injection H as _ <-).
  st_bind H; [|by apply query_inv in H as [-> _]]. apply query_inv in H0 as [<- _].
  by case_match; injection H as _ <-.
Qed.

Section root.
Context (r : path) (Hn : normal r).

Lemma normal_meta_dir : normal (meta_dir r).
Proof. by apply normal_snoc. Qed.

Lemma real_meta_dir fs : real_dir fs r → fs !! meta_dir r = Some Dir → real_dir fs (meta_dir r).
Proof. intros. by apply real_dir_snoc. Qed.

Lemma metadata_file_path_inv name w res w' :
  real_dir (disk w) r → metadata_file_path r name w = (res, w') →
  disk w' = disk w ∧
  ∀ p, res = Ok p → p = meta_file r name ∧ (disk w !! meta_dir r = None ∨ disk w !! meta_dir r = Some Dir).
Proof.
  intros Hr H. unfold metadata_file_path in H. st_bind H.
  2:{ apply query_inv in H as [-> _]. by split. }
  apply query_inv in H0 as [E0 H0]. rw canonicalize_real_dir // in H0.
  destruct H0 as [[= ->]|?]; [|done].
  st_bind H.
  2:{ apply try_inv in H as (? & H & ?). done. }
  apply try_inv in H0 as (m & H1 & [= ->]). apply query_inv in H1 as [E1 H1].
  rw E0 in H1. rw symlink_metadata_entry // in H1.
  fold (meta_dir r) in H1. destruct m as [[b| |t]|e]; [| | |].
  - injection H as <- <-. rw E1 E0. by split.
  - destruct H1 as [H1|?]; [|done]. destruct (disk w !! meta_dir r) as [n|] eqn:Ed; [|done].
    injection H1 as ->. st_bind H.
    2:{ apply query_inv in H as [-> _]. rw E1 E0. by split. }
    apply query_inv in H0 as [E2 _]. case_match; injection H as <- <-; rw E2 E1 E0; (split; [done|]).
    + intros p [= <-]. by auto.
    + done.
  - injection H as <- <-. rw E1 E0. by split.
  - destruct e; injection H as <- <-; rw E1 E0; (split; [done|]); try done.
    intros p [= <-]. split; [done|left]. destruct H1 as [H1|?]; [|done].
    by destruct (disk w !! meta_dir r).
Qed.

(** *** [create_dir_all] of the metadata directory *)
Lemma ancestors_snoc (p : path) c : ancestors (p ++ [c]) = ancestors p ++ [p ++ [c]].
Proof.
  unfold ancestors. rw length_app Nat.add_1_r seq_S fmap_app /=. f_equal.
  - apply list_fmap_ext. intros i x Hx. apply lookup_seq in Hx as [-> Hx]. simpl.
    by rw take_app_le; [lia|].
  - do 2 f_equal. rw take_ge // length_app /=. lia.
Qed.

Lemma for_each_app {St E A} (f : A → ST St E ()) l k s :
  for_each f (l ++ k) s = (_ ← for_each f l; for_each f k) s.
Proof.
  revert s. induction l as [|x l IH]; intros s; [done|]. cbn [app for_each].
  unfold mbind, ST_bind in *. destruct (f x s) as [[]]; [|done]. apply IH.
Qed.

Lemma create_real_dirs p w res w' :
  normal p → real_dir (disk w) p → create_dir_all p w = (res, w') → disk w' = disk w.
Proof.
  unfold create_dir_all. revert w res w'. induction p as [|c p IH] using rev_ind; intros w res w' Hp Hr H.
  { by injection H as <- <-. }
  rw ancestors_snoc for_each_app in H.
  assert (Hp' : normal p) by (unfold normal in *; set_solver).
  pose proof Hr as [Hr' _]%real_dir_snoc. st_bind H.
  - apply IH in H0; [|done..]. cbn [for_each] in H. st_bind H.
    + injection H as _ <-. apply update_inv in H1 as [(? & ? & ->)|[_ H1]]; [done|].
      rw H0 ensure_dir_real // in H1. by injection H1 as <-.
    + apply update_inv in H as [(? & ? & ->)|[? _]]; done.
  - by eapply IH.
Qed.

Lemma create_meta_dir w res w' :
  real_dir (disk w) r → (∀ t, disk w !! meta_dir r ≠ Some (Symlink t)) →
  create_dir_all (meta_dir r) w = (res, w') →
  (disk w' = disk w ∨ disk w !! meta_dir r = None ∧ disk w' = <[meta_dir r := Dir]> (disk w)) ∧
  (res = Ok () → disk w' !! meta_dir r = Some Dir).
Proof.
  intros Hr Hl H. unfold create_dir_all, meta_dir in H. rw ancestors_snoc for_each_app in H.
  st_bind H.
  2:{ apply create_real_dirs in H; [|done..]. split; [by left|done]. }
  apply create_real_dirs in H0; [|done..]. cbn [for_each] in H. st_bind H.
  2:{ apply update_inv in H as [(? & ? & ->)|[? _]]; [|done]. rw H0. split; [by left|done]. }
  injection H as <- <-. apply update_inv in H1 as [(? & ? & ->)|[_ H1]]; [done|].
  rw H0 in H1. apply ensure_dir_entry in H1; [|done..].
  destruct H1 as [[-> ?]|[? ->]]; [split; [by left|done]|]. split; [by right|]. by rw lookup_insert_eq.
Qed.

Lemma prepare_metadata_dir_inv w res w' :
  disk_ok (disk w) → real_dir (disk w) r → prepare_metadata_dir r w = (res, w') →
  disk_ok (disk w') ∧ same_state (disk w) (disk w') ∧
  (∀ p, res = Ok p → p = meta_dir r ∧ real_dir (disk w') (meta_dir r)) ∧
  (∀ c, disk w' !! meta_file r c = disk w !! meta_file r c).
Proof.
  intros Hok Hr H. unfold prepare_metadata_dir in H. st_bind H.
  2:{ apply metadata_file_path_inv in H as [-> _]; [|done]. done. }
  apply metadata_file_path_inv in H0 as [E0 Hp]; [|done].
  destruct (Hp _ eq_refl) as [-> Hm]. unfold meta_file in H. rw parent_snoc in H.
  assert (Hl : ∀ t, disk w0 !! meta_dir r ≠ Some (Symlink t)).
  { intros t. rw E0. by destruct Hm as [->| ->]. }
  assert (Hr0 : real_dir (disk w0) r) by by rw E0.
  assert (Hstep : ∀ res w1, create_dir_all (meta_dir r) w0 = (res, w1) →
    disk_ok (disk w1) ∧ same_state (disk w) (disk w1) ∧
    (∀ c, disk w1 !! meta_file r c = disk w !! meta_file r c)).
  { intros res1 w1 Hc. apply create_meta_dir in Hc as [[->|[Hnone ->]] _]; [by rw E0|rw E0|done..].
    rw E0 in Hnone. destruct (edit_create_dir (disk w) r) as [? ?]; [done|by apply real_dir_at|done|].
    split_and!; [done..|]. intros c. rw lookup_insert_ne //. apply meta_dir_ne. }
  st_bind H; [|by destruct (Hstep _ _ H) as (? & ? & ?)].
  destruct (Hstep _ _ H0) as (Hok1 & Hs1 & Hf1). apply create_meta_dir in H0 as [_ Hd]; [|done..].
  assert (Hr1 : real_dir (disk w1) r) by (eapply real_dir_mono; [apply Hs1|done]).
  st_bind H.
  2:{ apply metadata_file_path_inv in H as [-> _]; [|done]. done. }
  apply metadata_file_path_inv in H0 as [E1 Hp1]; [|done].
  injection H as <- <-. rw E1. split_and!; [done..| |done]. intros p [= <-].
  destruct (Hp1 _ eq_refl) as [-> _]. unfold meta_file. rw parent_snoc.
  split; [done|]. destruct a. by apply real_meta_dir, Hd.
Qed.
End root.

(** ** Saving and loading *)
Section save.
Context (r : path) (Hn : normal r) (tmp : string).
Context (Htmp : tmp ≠ "..") (Hts : tmp ≠ VERSION_STATE_FILE).

Lemma write_tmp_inv b w res w' :
  disk_ok (disk w) → real_dir (disk w) (meta_dir r) →
  write (meta_file r tmp) b w = (res, w') →
  disk_ok (disk w') ∧ same_state (disk w) (disk w') ∧
  (res = Ok () → disk w' !! meta_file r tmp = Some (File b)) ∧
  (∀ q, q ≠ meta_file r tmp → disk w' !! q = disk w !! q).
Proof.
  intros Hok Hr H. apply write_inv in H as [(e & -> & ->)|(b' & H & Hb)]; [done|].
  apply write_entry in H as [Hold ->];
    [|by apply normal_meta_dir|done|done|intros; by apply (disk_linkfree _ Hok)].
  split_and!.
  - apply (edit_ok _ r tmp (Some (File b'))); [done|by apply real_dir_at|done|].
    intros ? [= <-]. by eexists.
  - by apply (edit_state _ r tmp (Some (File b'))).
  - intros Hres. rw lookup_insert_eq. by rw Hb.
  - intros q Hq. by rw lookup_insert_ne.
Qed.

Lemma remove_tmp_inv w res w' :
  disk_ok (disk w) → real_dir (disk w) (meta_dir r) →
  remove_file (meta_file r tmp) w = (res, w') →
  disk_ok (disk w') ∧ same_state (disk w) (disk w') ∧
  (∀ q, q ≠ meta_file r tmp → disk w' !! q = disk w !! q).
Proof.
  intros Hok Hr H. apply update_inv in H as [(e & -> & ->)|[_ H]]; [done|].
  apply remove_file_entry in H as [Hold ->]; [|by apply normal_meta_dir|done|done].
  split_and!.
  - by apply (edit_ok _ r tmp None); [|apply real_dir_at| |].
  - by apply (edit_state _ r tmp None).
  - intros q Hq. by rw lookup_delete_ne.
Qed.

(** What a save leaves: only a successful one changes the file, and it changes it whole. *)
Definition saved (name : string) (json : option bytes) (res : result IoError ()) (d d' : Fs) : Prop :=
  disk_ok d' ∧ (∀ q, d !! q = Some Dir → d' !! q = Some Dir) ∧
  (∀ r', d' !! state_file r' = d !! state_file r' ∨ res = Ok () ∧ name = VERSION_STATE_FILE ∧ r' = r) ∧
  (res = Ok () → ∃ b, json = Some b ∧ d' !! meta_file r name = Some (File b)) ∧
  (res ≠ Ok () → ∀ c, c ≠ tmp → d' !! meta_file r c = d !! meta_file r c).

Lemma saved_same name json e d d' :
  disk_ok d' → same_state d d' → (∀ c, c ≠ tmp → d' !! meta_file r c = d !! meta_file r c) →
  saved name json (Err e) d d'.
Proof. intros ? [] ?. split_and!; [done..|by left; auto|done|done]. Qed.

Lemma rename_tmp_inv name b w res w' :
  disk_ok (disk w) → real_dir (disk w) (meta_dir r) → name ≠ ".." →
  disk w !! meta_file r tmp = Some (File b) →
  replace_file_atomically (meta_file r tmp) (meta_file r name) w = (res, w') →
  saved name (Some b) res (disk w) (disk w').
Proof.
  intros Hok Hr Hname Ht H. apply update_inv in H as [(e & -> & Hd)|[-> H]].
  { rw Hd. by apply saved_same. }
  apply rename_entry in H as (n & Hn' & _ & Hold & ->); [|by apply normal_meta_dir|done..].
  fold (meta_file r tmp) in Hn'. rw Ht in Hn'. injection Hn' as <-.
  fold (meta_file r name) in Hold. fold (meta_file r name) (meta_file r tmp).
  assert (Hdir : node_at (disk w) (meta_dir r) = Some Dir) by by apply real_dir_at.
  assert (Ht' : disk w !! meta_file r tmp ≠ Some Dir) by by rw Ht.
  assert (Hok1 : disk_ok (delete (meta_file r tmp) (disk w))) by by apply (edit_ok _ r tmp None).
  assert (Hdirs := edit_dirs _ r tmp None Ht').
  assert (Hdir1 : node_at (delete (meta_file r tmp) (disk w)) (meta_dir r) = Some Dir).
  { unfold meta_dir in *. rw node_at_snoc in Hdir. rw node_at_snoc. by apply Hdirs. }
  assert (Hold1 : delete (meta_file r tmp) (disk w) !! meta_file r name ≠ Some Dir).
  { rw lookup_delete. by case_decide. }
  split_and!.
  - apply (edit_ok _ r name (Some (File b))); [done..|]. intros ? [= <-]. by eexists.
  - intros q Hq. apply (edit_dirs _ r name (Some (File b))); [done|by apply Hdirs].
  - intros r'. destruct (decide (state_file r' = meta_file r name)) as [Heq|Hne].
    + right. by apply meta_file_inj in Heq as [-> <-].
    + left. rw lookup_insert_ne // lookup_delete_ne //. by intros [_ ?]%meta_file_inj.
  - intros _. exists b. by rw lookup_insert_eq.
  - done.
Qed.

Lemma other_entries (d d' : Fs) c :
  (∀ q, q ≠ meta_file r tmp → d' !! q = d !! q) → c ≠ tmp → d' !! meta_file r c = d !! meta_file r c.
Proof. intros H Hc. apply H. by intros [_ ?]%meta_file_inj. Qed.
End save.

Lemma save_json_inv r prefix uuid name json w res w' :
  normal r → disk_ok (disk w) → real_dir (disk w) (meta_dir r) →
  prefix +:+ uuid +:+ ".tmp" ≠ ".." → prefix +:+ uuid +:+ ".tmp" ≠ VERSION_STATE_FILE →
  name ≠ ".." →
  save_json (meta_dir r) prefix uuid name json w = (res, w') →
  saved r (prefix +:+ uuid +:+ ".tmp") name json res (disk w) (disk w').
Proof.
  intros Hn Hok Hr Ht1 Ht2 Hname H. unfold save_json, replace_with in H.
  set (tmp := prefix +:+ uuid +:+ ".tmp") in *. fold (meta_file r tmp) (meta_file r name) in H.
  st_bind H.
  2:{ injection H as _ <-. by apply saved_same. }
  injection H0 as Hj <-. destruct json as [b|]; [|done]. injection Hj as <-.
  st_bind H.
  2:{ apply write_tmp_inv in H as (? & ? & _ & ?); [|done..].
      apply saved_same; [done..|]. intros c. by apply (other_entries r tmp). }
  apply write_tmp_inv in H0 as (Hok1 & Hs1 & Hb & Ho1); [|done..].
  assert (Hr1 : real_dir (disk w0) (meta_dir r)) by (eapply real_dir_mono; [apply Hs1|done]).
  st_bind H.
  2:{ by apply try_inv in H as (? & _ & ?). }
  apply try_inv in H0 as (r0 & H0 & [= ->]).
  apply (rename_tmp_inv r Hn tmp Ht1 Ht2 name b) in H0 as (Hok2 & Hd2 & Hs2 & Hf2 & Ho2);
    [|done..|by destruct a; apply Hb].
  destruct r0 as [[]|e].
  - injection H as <- <-. split_and!; [done|intros q Hq; by apply Hd2, Hs1| |by apply Hf2|done].
    intros r'. destruct (Hs2 r') as [->|?]; [left; apply Hs1|by right].
  - assert (Hs3 : same_state (disk w) (disk w1)).
    { split; [intros q Hq; by apply Hd2, Hs1|]. intros r'.
      destruct (Hs2 r') as [->|[? _]]; [apply Hs1|done]. }
    st_bind H.
    2:{ by apply ignore_inv in H as (? & _ & ?). }
    apply ignore_inv in H0 as (r1 & H0 & _). injection H as <- <-.
    apply remove_tmp_inv in H0 as (? & ? & Ho3); [|done..|by eapply real_dir_mono].
    apply saved_same; [done|by etrans|]. intros c Hc.
    rw (other_entries r tmp _ _ c Ho3) // Ho2 //. by apply (other_entries r tmp).
Qed.

Section save_load.
Context (r : path) (Hn : normal r).

Lemma manifest_save_inv `{!Codec ProjectManifest} uuid m w res w' :
  disk_ok (disk w) → real_dir (disk w) r → manifest_save uuid m r w = (res, w') →
  disk_ok (disk w') ∧ same_state (disk w) (disk w') ∧
  (res = Ok () → ∃ b, to_vec m = Some b ∧ disk w' !! meta_file r MANIFEST_FILE = Some (File b)) ∧
  (res ≠ Ok () → disk w' !! meta_file r MANIFEST_FILE = disk w !! meta_file r MANIFEST_FILE).
Proof.
  intros Hok Hr H. unfold manifest_save in H. st_bind H.
  2:{ apply prepare_metadata_dir_inv in H as (? & ? & _ & ?); [|done..]. done. }
  apply prepare_metadata_dir_inv in H0 as (Hok1 & Hs1 & Hp & Ho1); [|done..].
  destruct (Hp _ eq_refl) as [-> Hm].
  apply save_json_inv in H as (Hok2 & Hd2 & Hs2 & Hf2 & Ho2); [|done..].
  split_and!; [done| |done|intros Hres; rw Ho2 //; by rw Ho1]. split; [intros q Hq; by apply Hd2, Hs1|].
  intros r'. destruct (Hs2 r') as [->|(_ & ? & _)]; [apply Hs1|done].
Qed.

Lemma state_save_inv `{!Codec VersionState} uuid s w res w' :
  disk_ok (disk w) → real_dir (disk w) r → state_save uuid s r w = (res, w') →
  disk_ok (disk w') ∧ (∀ q, disk w !! q = Some Dir → disk w' !! q = Some Dir) ∧
  (∀ r', disk w' !! state_file r' = disk w !! state_file r' ∨ res = Ok () ∧ r' = r) ∧
  (res = Ok () → ∃ b, to_vec s = Some b ∧ disk w' !! state_file r = Some (File b)).
Proof.
  intros Hok Hr H. unfold state_save in H. st_bind H.
  2:{ apply prepare_metadata_dir_inv in H as (? & [Hd Hs] & _ & _); [|done..].
      split_and!; [done..|by left; auto|done]. }
  apply prepare_metadata_dir_inv in H0 as (Hok1 & Hs1 & Hp & _); [|done..].
  destruct (Hp _ eq_refl) as [-> Hm].
  apply save_json_inv in H as (Hok2 & Hd2 & Hs2 & Hf2 & _); [|done..].
  split_and!; [done|intros q Hq; by apply Hd2, Hs1| |done].
  intros r'. destruct (Hs2 r') as [->|(? & _ & ?)]; [left; apply Hs1|by right].
Qed.

(** Reading a metadata file: [NotFound] means that it is not there. *)
Lemma read_meta_inv name w res w' :
  disk_ok (disk w) → real_dir (disk w) r → name ≠ ".." →
  (disk w !! meta_dir r = None ∨ disk w !! meta_dir r = Some Dir) →
  read (meta_file r name) w = (res, w') →
  disk w' = disk w ∧
  (∀ b, res = Ok b → disk w !! meta_file r name = Some (File b)) ∧
  (res = Err NotFound → disk w !! meta_file r name = None).
Proof.
  intros Hok Hr Hname Hm H. apply query_inv in H as [-> H]. split; [done|].
  destruct H as [->| ->]; [|done]. destruct Hm as [Hm|Hm].
  - assert (Hnone : disk w !! meta_file r name = None).
    { destruct (disk w !! meta_file r name) as [n|] eqn:E; [|done].
      apply (disk_wf _ Hok) in E. unfold meta_dir in *. by rw node_at_snoc Hm in E. }
    unfold read_at, metadata_at. unfold meta_file in *. unfold meta_dir in *.
    rw -app_assoc in Hnone |- *. rw (canonicalize_missing _ r META_DIR [name]) //.
  - pose proof (real_meta_dir _ _ Hr Hm) as Hmd. unfold meta_file. rw read_entry //.
    + by apply normal_meta_dir.
    + apply (disk_linkfree _ Hok).
    + fold (meta_file r name). destruct (disk w !! meta_file r name) as [[| |]|]; split; try done.
      by intros b' [= ->].
Qed.

Lemma state_load_inv `{!Codec VersionState} pid w res w' :
  disk_ok (disk w) → real_dir (disk w) r → state_load r pid w = (res, w') →
  disk w' = disk w ∧ ∀ s, res = Ok s → vs_project_id s = pid ∧
    (disk w !! state_file r = None ∧ s = new_state pid ∨
     ∃ b, disk w !! state_file r = Some (File b) ∧ from_slice b = Some s).
Proof.
  intros Hok Hr H. unfold state_load in H. st_bind H.
  2:{ by apply metadata_file_path_inv in H as [-> _]. }
  apply metadata_file_path_inv in H0 as [E0 Hp]; [|done..]. destruct (Hp _ eq_refl) as [-> Hm].
  st_bind H.
  2:{ by apply try_inv in H as (? & _ & ?). }
  apply try_inv in H0 as (r0 & H0 & [= ->]). apply read_meta_inv in H0 as (E1 & Hb & Hno);
    [|by rw E0..|done|by rw E0]. rw E0 in E1 Hb Hno.
  destruct r0 as [b|[]]; try (injection H as <- <-; rw E1; split; [done|]; try done).
  - st_bind H.
    2:{ injection H as _ <-. by rw E1. }
    injection H0 as Ha <-. destruct (from_slice b) as [s|] eqn:Es; [|done]. injection Ha as <-.
    destruct (_ || _) eqn:E2; [injection H as <- <-; by rw E1|].
    destruct (existsb _ _); injection H as <- <-; rw E1; (split; [done|]); [done|].
    intros s' [= <-]. bool_to_prop. split; [done|]. right. exists b. split; [by apply Hb|done].
  - intros s [= <-]. split; [done|]. left. split; [by apply Hno|done].
Qed.
End save_load.

(** ** The high-water mark only rises *)
Definition state_le (s s' : VersionState) : Prop := ∀ rel, (highest s rel ≤ highest s' rel)%N.
Global Instance state_le_preorder : PreOrder state_le.
Proof. split; [intros a rel; lia|]. intros a b c Hab Hbc rel. specialize (Hab rel). specialize (Hbc rel). lia. Qed.

Lemma note_inv rel v s s' c :
  note rel v s = Ok (s', c) →
  is_valid_entry rel v = true ∧ vs_project_id s' = vs_project_id s ∧ state_le s s' ∧
  (v ≤ highest s' rel)%N ∧ (c = false → s' = s).
Proof.
  unfold note. destruct (is_valid_entry rel v); simpl; [|done].
  destruct (v <=? highest s rel)%N eqn:E; bool_to_prop; intros [= <- <-]; [by split_and!|].
  split_and!; [done..| | |done].
  - intros rel'. unfold highest in *. simpl. destruct (decide (rel' = rel)) as [->|].
    + rw lookup_insert_eq /=. lia.
    + by rw lookup_insert_ne.
  - unfold highest. simpl. rw lookup_insert_eq. simpl. lia.
Qed.

Lemma note_all_inv l s c0 s' c :
  note_all l s c0 = Ok (s', c) →
  vs_project_id s' = vs_project_id s ∧ state_le s s' ∧
  (∀ rel v, (rel, v) ∈ l → is_valid_entry rel v = true ∧ (v ≤ highest s' rel)%N) ∧
  (c = false → s' = s ∧ c0 = false).
Proof.
  revert s c0. induction l as [|[rel v] l IH]; intros s c0; cbn [note_all].
  { intros [= <- <-]. split_and!; [done..|set_solver|done]. }
  destruct (note rel v s) as [[s1 c1]|] eqn:E; [|done]. cbn [mbind result_bind].
  intros H. apply note_inv in E as (Hv & Hid & Hle & Hhi & Hc).
  apply IH in H as (Hid' & Hle' & Hl & Hc'). split_and!.
  - by rw Hid'.
  - by etrans.
  - intros rel' v' [[= -> ->]|Hin]%elem_of_cons; [|by apply Hl]. split; [done|].
    specialize (Hle' rel). lia.
  - intros Hf. destruct (Hc' Hf) as [-> Hor]. apply orb_false_iff in Hor as [-> Hc1].
    by rw Hc.
Qed.

Lemma elem_of_btree_iter {A} (m : gmap string A) k x : (k, x) ∈ btree_iter m ↔ m !! k = Some x.
Proof. unfold btree_iter. by rw isort_perm elem_of_map_to_list. Qed.

(** ** Names accepted from the network *)
Lemma split_on_no_sep sep s seg : seg ∈ split_on sep s → contains_char sep seg = false.
Proof.
  revert seg. induction s as [|c s IH]; intros seg; simpl.
  { intros ->%list_elem_of_singleton. done. }
  case_bool_decide as Hc.
  - intros [->|Hin]%elem_of_cons; [done|by apply IH].
  - destruct (split_on sep s) as [|x xs] eqn:E.
    + intros ->%list_elem_of_singleton. simpl. by rw bool_decide_eq_false_2.
    + intros [->|Hin]%elem_of_cons.
      * simpl. rw bool_decide_eq_false_2 //. apply IH. left.
      * apply IH. by right.
Qed.

Lemma split_on_char sep c s seg :
  contains_char c s = false → seg ∈ split_on sep s → contains_char c seg = false.
Proof.
  revert seg. induction s as [|d s IH]; intros seg; simpl.
  { intros _ ->%list_elem_of_singleton. done. }
  intros [Hd Hs]%orb_false_iff. destruct (bool_decide (d = sep)).
  - intros [->|Hin]%elem_of_cons; [done|by apply IH].
  - destruct (split_on sep s) as [|x xs] eqn:E.
    + intros ->%list_elem_of_singleton. simpl. by rw Hd.
    + intros [->|Hin]%elem_of_cons.
      * simpl. rw Hd. apply IH; [done|left].
      * apply IH; [done|]. by right.
Qed.

Lemma split_on_app_sep sep c s :
  contains_char sep c = false → split_on sep (c +:+ String.String sep s) = c :: split_on sep s.
Proof.
  induction c as [|x c IH]; intros Hc; cbn [contains_char] in Hc.
  - change ("" +:+ String.String sep s) with (String.String sep s). cbn [split_on]. by rw bool_decide_eq_true_2.
  - apply orb_false_iff in Hc as [Hx Hc]. change (String.String x c +:+ String.String sep s) with
      (String.String x (c +:+ String.String sep s)). cbn [split_on]. bool_to_prop.
    rw bool_decide_eq_false_2; [congruence|]. by rw IH.
Qed.

Lemma split_on_single sep c : contains_char sep c = false → split_on sep c = [c].
Proof.
  induction c as [|x c IH]; intros Hc; [done|]. cbn [contains_char] in Hc. apply orb_false_iff in Hc as [Hx Hc].
  cbn [split_on]. bool_to_prop. rw bool_decide_eq_false_2; [congruence|]. by rw IH.
Qed.

Lemma split_on_nonempty sep s : split_on sep s ≠ [].
Proof. destruct s; simpl; [done|]. case_bool_decide; [done|]. by destruct (split_on sep s). Qed.

(** A segment that names an entry of the directory it is joined to, on every platform. *)
Definition plain_segment (seg : string) : Prop :=
  seg ≠ "" ∧ seg ≠ "." ∧ seg ≠ ".." ∧ contains_char "/" seg = false ∧
  contains_char "\" seg = false ∧ contains_char ":" seg = false.

Lemma push_segments_inv first segs p q :
  push_segments first segs p = Some q →
  q = p ++ segs ∧
  Forall (λ s, s ≠ "" ∧ s ≠ "." ∧ s ≠ ".." ∧ contains_char ":" s = false) segs ∧
  (first = true → head segs ≠ Some META_DIR).
Proof.
  revert first p. induction segs as [|s segs IH]; intros first p; cbn [push_segments].
  { intros [= <-]. by rw app_nil_r. }
  destruct (_ || _) eqn:E1; [done|]. destruct (contains_char ":" s || _) eqn:E2; [done|].
  intros (-> & Hall & _)%IH. rw -app_assoc. bool_to_prop. split_and!; [done| |].
  - constructor; [|done]. bool_to_prop. done.
  - intros ->. simpl. intros [= ->]. by destruct H0.
Qed.

Lemma safe_rel_inv rel local :
  safe_rel_to_local rel = Some local →
  local = split_on "/" rel ∧ local ≠ [] ∧ Forall plain_segment local ∧ head local ≠ Some META_DIR.
Proof.
  unfold safe_rel_to_local. destruct (_ || _) eqn:E; [done|].
  intros (-> & Hall & Hhd)%push_segments_inv. cbn [app]. bool_to_prop.
  split_and!; [done|apply split_on_nonempty| |by apply Hhd].
  rw Forall_forall in Hall. apply Forall_forall. intros seg Hseg. destruct (Hall seg Hseg) as (? & ? & ? & ?).
  unfold plain_segment. split_and!; [done..| | |done].
  - by eapply split_on_no_sep.
  - by eapply split_on_char.
Qed.

Lemma plain_normal p : Forall plain_segment p → normal p.
Proof. rw Forall_forall. intros Hp Hin. by destruct (Hp _ Hin) as (_ & _ & ? & _). Qed.

(** ** Confinement of received paths *)

(** [comps] below [cand] meets no link: it is a chain of directories, up to a missing
    entry or a final file. *)
Definition link_free_below (fs : Fs) (cand comps : path) : Prop :=
  real_dir fs (cand ++ comps) ∨
  ∃ pre c post, comps = pre ++ c :: post ∧ real_dir fs (cand ++ pre) ∧
    (fs !! (cand ++ pre ++ [c]) = None ∨ post = [] ∧ ∃ b, fs !! (cand ++ pre ++ [c]) = Some (File b)).

Lemma link_free_cons fs cand c comps :
  fs !! (cand ++ [c]) = Some Dir → link_free_below fs (cand ++ [c]) comps →
  link_free_below fs cand (c :: comps).
Proof.
  intros Hd [H|(pre & x & post & -> & H & Hx)]; unfold link_free_below.
  - left. by rw -app_assoc in H.
  - right. exists (c :: pre), x, post. rw -!app_assoc in H Hx. done.
Qed.

Lemma check_components_disk croot cand comps w res w' :
  check_components croot cand comps w = (res, w') → disk w' = disk w.
Proof.
  revert cand w. induction comps as [|c comps IH]; intros cand w H; cbn [check_components] in H.
  { by injection H as _ <-. }
  st_bind H.
  2:{ by apply try_inv in H as (? & _ & ?). }
  apply try_inv in H0 as (m & H0 & [= ->]). apply query_inv in H0 as [<- _].
  destruct m as [[]|[]]; try (injection H as _ <-; done); try (by eapply IH).
  all: st_bind H; [|by apply try_inv in H as (? & _ & ?)].
  all: apply try_inv in H0 as (k & H0 & [= ->]); apply query_inv in H0 as [<- _].
  all: destruct k; [|by injection H as _ <-].
  all: destruct (path_starts_with croot a); [by eapply IH|by injection H as _ <-].
Qed.

Lemma check_components_inv croot cand comps w w' :
  normal cand → real_dir (disk w) cand → normal comps →
  check_components croot cand comps w = (Ok true, w') →
  disk w' = disk w ∧ link_free_below (disk w) cand comps.
Proof.
  revert cand w. induction comps as [|c comps IH]; intros cand w Hn Hr Hc H; cbn [check_components] in H.
  { injection H as <-. split; [done|]. left. by rw app_nil_r. }
  apply not_elem_of_cons in Hc as [Hc Hcs]. st_bind H.
  apply try_inv in H0 as (m & H0 & [= ->]). apply query_inv in H0 as [E0 H0].
  rw symlink_metadata_entry // in H0.
  destruct m as [[b| |t]|e]; [| |done|].
  - st_bind H. apply try_inv in H1 as (k & H1 & [= ->]). apply query_inv in H1 as [E1 H1].
    destruct H0 as [H0|?]; [|done]. destruct (disk w !! (cand ++ [c])) as [n|] eqn:En; [|done].
    injection H0 as <-. destruct k as [k|]; [|done]. destruct (path_starts_with croot k); [|done].
    destruct comps as [|c' comps].
    + injection H as <-. rw E1 E0. split; [done|]. right. exists [], c, []. rw app_nil_r /=.
      split_and!; [done..|]. right. split; [done|]. by exists b.
    + exfalso. cbn [check_components] in H. st_bind H.
      apply try_inv in H0 as (m & H0 & [= ->]). apply query_inv in H0 as [E2 H0].
      unfold symlink_metadata_at, locate in H0. rw last_snoc parent_snoc E1 E0 canonicalize_entry // in H0.
      { by rw En. }
      rw En in H0. cbn [mbind result_bind] in H0. unfold is_dir_at in H0.
      rw bool_decide_eq_false_2 in H0; [by rw node_at_snoc En|].
      destruct H0 as [->| ->]; done.
  - st_bind H. apply try_inv in H1 as (k & H1 & [= ->]). apply query_inv in H1 as [E1 _].
    destruct H0 as [H0|?]; [|done]. destruct (disk w !! (cand ++ [c])) as [n|] eqn:En; [|done].
    injection H0 as <-. destruct k as [k|]; [|done]. destruct (path_starts_with croot k); [|done].
    apply IH in H; [|by apply normal_snoc|rw E1 E0; by apply real_dir_snoc|done].
    rw E1 E0 in H. destruct H as [-> H]. split; [done|]. by apply link_free_cons.
  - destruct e; try done. destruct H0 as [H0|?]; [|done].
    destruct (disk w !! (cand ++ [c])) as [n|] eqn:En; [done|].
    apply check_components_disk in H. rw E0 in H.
    split; [done|]. right. exists [], c, comps. rw app_nil_r /=. by auto.
Qed.

Lemma link_free_canonicalize fs d comps :
  normal d → real_dir fs d → normal comps → link_free_below fs d comps →
  canonicalize_at fs (d ++ comps) = Ok (d ++ comps) ∨ canonicalize_at fs (d ++ comps) = Err NotFound.
Proof.
  intros Hn Hr Hc [H|(pre & c & post & -> & H & Hx)].
  - left. apply canonicalize_real_dir; [|done]. unfold normal in *. set_solver.
  - assert (Hnp : normal (d ++ pre)) by (unfold normal in *; set_solver).
    assert (Hc' : c ≠ "..") by (unfold normal in *; set_solver).
    rw app_assoc in Hx. rw app_assoc. destruct Hx as [Hx|[-> [b Hx]]].
    + right. by apply canonicalize_missing.
    + left. rw canonicalize_entry // Hx //.
Qed.

Lemma link_free_write fs d comps links b fs' :
  normal d → real_dir fs d → normal comps → comps ≠ [] → link_free_below fs d comps →
  write_at links fs (d ++ comps) b = Ok fs' → fs' = <[d ++ comps := File b]> fs.
Proof.
  intros Hn Hr Hc Hne Hl. destruct comps as [|c comps _] using rev_ind; [done|]. rw app_assoc.
  assert (Hnd : normal (d ++ comps)) by (unfold normal in *; set_solver).
  assert (Hnc : c ≠ "..") by (unfold normal in *; set_solver).
  assert (Hcases : (real_dir fs (d ++ comps) ∧ ∀ t, fs !! ((d ++ comps) ++ [c]) ≠ Some (Symlink t)) ∨
                   canonicalize_at fs (d ++ comps) = Err NotFound).
  { destruct Hl as [H|(pre & x & post & Heq & H & Hx)].
    - rw app_assoc in H. apply real_dir_snoc in H as [? E]. left. split; [done|]. by rw E.
    - destruct post as [|y post _] using rev_ind.
      + apply app_inj_tail in Heq as [-> ->]. left. split; [done|]. rw -app_assoc.
        by destruct Hx as [->|[_ [? ->]]].
      + rw app_comm_cons app_assoc in Heq. apply app_inj_tail in Heq as [-> ->].
        right. rw app_assoc in Hx. destruct Hx as [Hx|[Hf _]]; [|by destruct post].
        rw app_assoc. apply canonicalize_missing; [| |unfold normal in *; set_solver|done].
        * unfold normal in *. set_solver.
        * done. }
  destruct Hcases as [[Hrd Hlk]|Hno].
  - intros Hw. by apply write_entry in Hw as [_ ->].
  - destruct links; cbn [write_at]; unfold locate; rw last_snoc parent_snoc Hno; done.
Qed.

Lemma safe_join_disk root rel w r w' : safe_join_under_root root rel w = (r, w') → disk w' = disk w.
Proof.
  unfold safe_join_under_root. destruct (safe_rel_to_local rel) as [local|]; [|by intros [= _ <-]].
  intros H. st_bind H; [|by apply try_inv in H as (? & _ & ?)].
  apply try_inv in H0 as (r0 & H0 & [= ->]). apply query_inv in H0 as [<- _].
  destruct r0 as [croot|]; [|by injection H as _ <-].
  st_bind H; [|by eapply check_components_disk]. injection H as _ <-. by eapply check_components_disk.
Qed.

(** An accepted path: the canonical root, a directory, and segments that meet no link. *)
Lemma safe_join_inv (root : path) (rel : string) (w w' : World) (p : path) :
  safe_join_under_root root rel w = (Ok (Some p), w') →
  disk w' = disk w ∧
  ∃ canonical_root local,
    canonicalize_at (disk w) root = Ok canonical_root ∧ p = canonical_root ++ local ∧
    local = split_on "/" rel ∧ local ≠ [] ∧ Forall plain_segment local ∧ head local ≠ Some META_DIR ∧
    normal canonical_root ∧ normal local ∧ real_dir (disk w) canonical_root ∧
    link_free_below (disk w) canonical_root local.
Proof.
  unfold safe_join_under_root. destruct (safe_rel_to_local rel) as [local|] eqn:E; [|done].
  intros H. pose proof (safe_rel_inv _ _ E) as (Hl & Hne & Hplain & Hhd).
  st_bind H. apply try_inv in H0 as (r0 & H0 & [= ->]). apply query_inv in H0 as [E0 H0].
  destruct r0 as [croot|]; [|done]. destruct H0 as [H0|?]; [|done].
  st_bind H. destruct a; [|done]. injection H as <- <-.
  destruct (canonicalize_physical (disk w) root croot) as (Hn & Hr & Hroot); [done|].
  pose proof (plain_normal _ Hplain) as Hnl.
  assert (Hrd : real_dir (disk w) croot).
  { apply real_dir_parent; [done|]. destruct Hroot as [?|[b Hb]]; [done|]. exfalso.
    destruct local as [|c local]; [done|]. cbn [check_components] in H1. st_bind H1.
    apply try_inv in H as (m & H & [= ->]). apply query_inv in H as [E1 H].
    unfold symlink_metadata_at, locate in H. rw last_snoc parent_snoc E0 in H.
    destruct croot as [|x xs _] using rev_ind; [done|].
    rw parent_snoc in Hr. rw node_at_snoc in Hb.
    rw canonicalize_entry // in H; [unfold normal in *; set_solver|unfold normal in *; set_solver|by rw Hb|].
    rw Hb in H. cbn [mbind result_bind] in H. unfold is_dir_at in H.
    rw bool_decide_eq_false_2 in H; [by rw node_at_snoc Hb|].
    destruct H as [->| ->]; done. }
  apply check_components_inv in H1 as [E2 Hfree]; [|done|by rw E0|done].
  rw E0 in E2 Hfree. split; [done|]. exists croot, local.
  by split_and!.
Qed.

(** C22: confinement of paths received from the network.  When [safe_join_under_root]
    answers a path, the path is the canonical project root followed by the segments of
    the name, none of which is empty, [.], [..], or contains a slash, a backslash or a
    colon, and the first of which is not the metadata directory.  On the disk it was
    checked against it resolves to itself or to nothing, and a write to it creates or
    replaces exactly the entry at that path: no link is followed out of the root. *)
Theorem safe_join_confined (root : path) (rel : string) (w w' : World) (p : path) :
  safe_join_under_root root rel w = (Ok (Some p), w') →
  disk w' = disk w ∧
  ∃ canonical_root local,
    canonicalize_at (disk w) root = Ok canonical_root ∧ p = canonical_root ++ local ∧
    local = split_on "/" rel ∧ local ≠ [] ∧ Forall plain_segment local ∧ head local ≠ Some META_DIR ∧
    (canonicalize_at (disk w) p = Ok p ∨ canonicalize_at (disk w) p = Err NotFound) ∧
    ∀ links b d, write_at links (disk w) p b = Ok d → d = <[p := File b]> (disk w).
Proof.
  intros (Hd & croot & local & ? & ? & ? & ? & ? & ? & ? & ? & ? & Hfree)%safe_join_inv. split; [done|].
  exists croot, local. subst p. split_and!; [done..| |].
  - by apply link_free_canonicalize.
  - intros links b d. by apply link_free_write.
Qed.

(** ** Saving is all or nothing *)
Lemma query_fine {A : Type} (op : Fs → result IoError A) d : query op (mk_World d []) = (op d, mk_World d []).
Proof. unfold query, effect. simpl. by destruct (op d). Qed.

(** Loading without faults reads the file that is there. *)
Lemma manifest_load_file `{!Codec ProjectManifest} r pid d b :
  normal r → disk_ok d → real_dir d r → d !! meta_file r MANIFEST_FILE = Some (File b) →
  manifest_load r pid (mk_World d []) = (manifest_from_bytes b pid, mk_World d []).
Proof.
  intros Hn Hok Hr Hb. assert (Hmd : d !! meta_dir r = Some Dir).
  { apply (disk_wf _ Hok) in Hb. unfold meta_dir in *. by rw node_at_snoc in Hb. }
  assert (Hpath : metadata_file_path r MANIFEST_FILE (mk_World d []) =
    (Ok (meta_file r MANIFEST_FILE), mk_World d [])).
  { unfold metadata_file_path. rw (bind_ok _ _ _ r (mk_World d [])).
    { unfold canonicalize. by rw query_fine canonicalize_real_dir. }
    rw (bind_ok _ _ _ (Ok Dir) (mk_World d [])).
    { apply try_eq. unfold symlink_metadata. rw query_fine symlink_metadata_entry //.
      fold (meta_dir r). by rw Hmd. }
    cbn beta iota. rw (bind_ok _ _ _ (meta_dir r) (mk_World d [])).
    { unfold canonicalize. rw query_fine canonicalize_real_dir //; [by apply normal_meta_dir|by apply real_meta_dir]. }
    unfold path_starts_with, meta_dir at 1. by rw take_app_length bool_decide_eq_true_2. }
  unfold manifest_load. rw (bind_ok _ _ _ _ _ Hpath).
  rw (bind_ok _ _ _ (Ok b) (mk_World d [])); [|done]. apply try_eq. unfold read. rw query_fine.
  unfold meta_file at 1. rw read_entry; [by apply normal_meta_dir|by apply real_meta_dir|done| |].
  - apply (disk_linkfree _ Hok).
  - fold (meta_file r MANIFEST_FILE). by rw Hb.
Qed.

Definition valid_manifest (pid : string) (m : ProjectManifest) : Prop :=
  pid ≠ "" ∧ m_format m = 1%N ∧ m_project_id m = pid ∧
  ∀ rel e, files m !! rel = Some e → invalid_path rel = false ∧ invalid_version (version e) = false.

Lemma manifest_from_bytes_valid `{!Codec ProjectManifest} b pid m :
  valid_manifest pid m → from_slice b = Some m → manifest_from_bytes b pid = Ok m.
Proof.
  intros (Hne & Hf & Hp & Hv) Hb. unfold manifest_from_bytes. rw Hb. cbn [ok_or mbind result_bind].
  rw bool_decide_eq_false_2; [by rw Hp|]. rw Hf Hp N.eqb_refl bool_decide_eq_true_2 //. cbn [negb].
  destruct (existsb _ _) eqn:E; [|done]. apply existsb_exists in E as ([rel e] & Hin & He).
  apply list_elem_of_In, elem_of_btree_iter, Hv in Hin as [H1 H2]. by rw H1 H2 in He.
Qed.

(** a manifest is saved all or nothing.  Whatever fails or is cut short during the
    save, either it reports success and the next load returns the manifest it was given,
    or it reports an error and the manifest file is the one that was there before. *)
Theorem manifest_save_atomic `{!Codec ProjectManifest, !CodecLaws ProjectManifest}
    (r : path) (uuid pid : string) (m : ProjectManifest) (w w' : World) (res : result IoError ()) :
  normal r → real_dir (disk w) r → disk_ok (disk w) → valid_manifest pid m →
  manifest_save uuid m r w = (res, w') →
  match res with
  | Ok _ => manifest_load r pid (mk_World (disk w') []) = (Ok m, mk_World (disk w') [])
  | Err _ => disk w' !! meta_file r MANIFEST_FILE = disk w !! meta_file r MANIFEST_FILE
  end.
Proof.
  intros Hn Hr Hok Hv H. apply manifest_save_inv in H as (Hok' & Hs & Hf & He); [|done..].
  destruct res as [[]|e]; [|by apply He]. destruct (Hf eq_refl) as (b & Hb & Hd).
  rw (manifest_load_file _ _ _ b) //; [by eapply real_dir_mono, Hr; apply Hs|].
  rw (manifest_from_bytes_valid b pid m) //. by eapply from_slice_to_vec.
Qed.

(** ** A concrete disk *)
Module ManifestWitness.
(** A project with a file, a directory and a link that leads out of it. *)
Definition disk0 : Fs :=
  <[["proj"] := Dir]> (<[["proj"; "art"] := Dir]> (<[["proj"; "art"; "a.png"] := File [x01]]>
  (<[["proj"; "out"] := Symlink ["etc"]]> (<[["etc"] := Dir]> ∅)))).
Definition w0 : World := mk_World disk0 [].

(** The link is refused, and so are a climbing name and the metadata directory. *)
Example refused :
  ((safe_join_under_root ["proj"] "out/passwd" w0).1,
   (safe_join_under_root ["proj"] "art/../../x" w0).1,
   (safe_join_under_root ["proj"] ".synergos/state.json" w0).1) = (Ok None, Ok None, Ok None).
Proof. vm_compute. reflexivity. Qed.

Global Program Instance ManifestEntry_countable : Countable ManifestEntry :=
  inj_countable' (λ e, (version e, me_size e, me_crc e, updated_at e, publisher e))
    (λ '(v, s, c, u, p), mk_ManifestEntry v s c u p) _.
Next Obligation. by intros []. Qed.
Global Program Instance ProjectManifest_countable : Countable ProjectManifest :=
  inj_countable' (λ m, (m_format m, m_project_id m, files m))
    (λ '(f, p, m), mk_ProjectManifest f p m) _.
Next Obligation. by intros []. Qed.
Global Program Instance VersionState_countable : Countable VersionState :=
  inj_countable' (λ m, (vs_format m, vs_project_id m, versions m))
    (λ '(f, p, m), mk_VersionState f p m) _.
Next Obligation. by intros []. Qed.

Definition manifest_codec : Codec ProjectManifest := Toy.countable_codec.
Definition state_codec : Codec VersionState := Toy.countable_codec.
Lemma manifest_codec_laws : @CodecLaws ProjectManifest manifest_codec.
Proof. apply Toy.countable_codec_laws. Qed.
Lemma state_codec_laws : @CodecLaws VersionState state_codec.
Proof. apply Toy.countable_codec_laws. Qed.

Definition m0 : ProjectManifest := (bump "art/a.png" 1 7 "me" 5 (new_manifest "p")).1.

Lemma disk0_ok : disk_ok disk0.
Proof.
  split.
  - intros p c n Hp. apply (elem_of_map_to_list disk0) in Hp.
    assert (Hall : Forall (λ x : path * node, node_at disk0 (parent x.1) = Some Dir) (map_to_list disk0)).
    { apply (bool_decide_eq_true_1 _). vm_compute. reflexivity. }
    rw Forall_forall in Hall. specialize (Hall _ Hp). simpl in Hall. by rw parent_snoc in Hall.
  - intros r c t Hp. apply (elem_of_map_to_list disk0) in Hp.
    assert (Hall : Forall (λ x : path * node, last (parent x.1) ≠ Some META_DIR) (map_to_list disk0)).
    { apply (bool_decide_eq_true_1 _). vm_compute. reflexivity. }
    rw Forall_forall in Hall. specialize (Hall _ Hp). simpl in Hall. apply Hall.
    unfold meta_file, meta_dir. by rw parent_snoc last_snoc.
Qed.
End ManifestWitness.

(** A new file below an existing directory is accepted and confined. *)
Lemma safe_join_confined_witness :
  safe_join_under_root ["proj"] "art/new.png" ManifestWitness.w0
    = (Ok (Some ["proj"; "art"; "new.png"]), ManifestWitness.w0) ∧
  (∀ links b d, write_at links ManifestWitness.disk0 ["proj"; "art"; "new.png"] b = Ok d →
    d = <[["proj"; "art"; "new.png"] := File b]> ManifestWitness.disk0).
Proof.
  assert (H : safe_join_under_root ["proj"] "art/new.png" ManifestWitness.w0
    = (Ok (Some ["proj"; "art"; "new.png"]), ManifestWitness.w0)) by (vm_compute; reflexivity).
  split; [exact H|].
  destruct (@safe_join_confined ["proj"] "art/new.png" ManifestWitness.w0 ManifestWitness.w0
    ["proj"; "art"; "new.png"] H) as (_ & cr & l & _ & _ & _ & _ & _ & _ & _ & Hw).
  exact Hw.
Defined.

Section atomic_witness.
#[local] Existing Instance ManifestWitness.manifest_codec.
#[local] Existing Instance ManifestWitness.manifest_codec_laws.

Lemma manifest_save_atomic_witness :
  (manifest_save "1" ManifestWitness.m0 ["proj"] ManifestWitness.w0).1 = Ok () ∧
  (manifest_load ["proj"] "p" (mk_World
     (disk (manifest_save "1" ManifestWitness.m0 ["proj"] ManifestWitness.w0).2) [])).1 = Ok ManifestWitness.m0.
Proof.
  set (x := manifest_save "1" ManifestWitness.m0 ["proj"] ManifestWitness.w0).
  assert (H1 : x.1 = Ok ()) by (vm_compute; reflexivity).
  split; [exact H1|].
  pose proof (@manifest_save_atomic _ ManifestWitness.manifest_codec_laws ["proj"] "1" "p" ManifestWitness.m0
    ManifestWitness.w0 x.2 (Ok ())) as H. refine (f_equal fst (H _ _ ManifestWitness.disk0_ok _ _)).
  - by apply not_elem_of_cons; split; [|apply not_elem_of_nil].
  - intros [|[|n]]; reflexivity.
  - split_and!; [done|reflexivity|reflexivity|]. intros rel e Hrel.
    assert (Hf : files ManifestWitness.m0 = {["art/a.png" := mk_ManifestEntry 1 1 7 5 "me"]}) by reflexivity.
    rw Hf in Hrel. apply lookup_singleton_Some in Hrel as [<- <-]. split; vm_compute; reflexivity.
  - rw -H1. apply surjective_pairing.
Defined.
End atomic_witness.
