(* ===== verification/Glob.v ===== *)
(** * Text and glob patterns

    What the code uses of [str]: characters, white space, lines; and [glob_match] of
    [synergos-net/src/config.rs], a dynamic program over the tokens of a pattern, with its
    equivalence to the language the pattern denotes.

    A character is the list of the bytes that encode it in UTF-8. *)

From Stdlib Require Import Strings.Ascii.
From S2P Require Import Prelude Crypto Fs Manifest.

(** ** Characters *)
Abbreviation char := bytes.

Definition is_continuation (b : byte) : bool := let x := Byte.to_N b in ((128 <=? x) && (x <? 192))%N.

(** [str::chars]. *)
Fixpoint chars (b : bytes) : list char :=
  match b with
  | [] => []
  | x :: r =>
      match chars r with
      | (y :: c) :: cs => if is_continuation y then (x :: y :: c) :: cs else [x] :: (y :: c) :: cs
      | cs => [x] :: cs
      end
  end.

(** [char::is_whitespace]. *)
Definition is_whitespace (c : char) : bool :=
  match Byte.to_N <$> c with
  | [x] => ((9 <=? x) && (x <=? 13) || (x =? 32))%N
  | [a; b] => (a =? 194)%N && ((b =? 133) || (b =? 160))%N
  | [a; b; d] =>
      ((a =? 225) && (b =? 154) && (d =? 128)
       || (a =? 226) && (b =? 128) && ((128 <=? d) && (d <=? 138) || (d =? 168) || (d =? 169) || (d =? 175))
       || (a =? 226) && (b =? 129) && (d =? 159)
       || (a =? 227) && (b =? 128) && (d =? 128))%N
  | _ => false
  end.

(** [str::trim]. *)
Fixpoint trim_start (l : list char) : list char :=
  match l with
  | [] => []
  | c :: l' => if is_whitespace c then trim_start l' else l
  end.
Definition trim (l : list char) : list char := reverse (trim_start (reverse (trim_start l))).

(** [str::trim().is_empty()]. *)
Definition is_blank_text (s : string) : bool := bool_decide (trim (chars (as_bytes s)) = []).

(** [str::from_utf8(..).is_ok()]. *)
Definition in_range (lo hi : N) (b : byte) : bool := let x := Byte.to_N b in ((lo <=? x) && (x <=? hi))%N.
Fixpoint utf8_valid (b : bytes) : bool :=
  match b with
  | [] => true
  | x :: r =>
      if in_range 0 127 x then utf8_valid r
      else if in_range 194 223 x then
        match r with y :: r => is_continuation y && utf8_valid r | _ => false end
      else if in_range 224 239 x then
        match r with
        | y :: z :: r =>
            (if in_range 224 224 x then in_range 160 191 y
             else if in_range 237 237 x then in_range 128 159 y else is_continuation y)
            && is_continuation z && utf8_valid r
        | _ => false
        end
      else if in_range 240 244 x then
        match r with
        | y :: z :: t :: r =>
            (if in_range 240 240 x then in_range 144 191 y
             else if in_range 244 244 x then in_range 128 143 y else is_continuation y)
            && is_continuation z && is_continuation t && utf8_valid r
        | _ => false
        end
      else false
  end.

(** ** [glob_match] *)
Inductive Token := Literal (c : char) | One | Star | GlobStar.

Definition star : char := [x2a].
Definition question : char := [x3f].
Definition slash : char := [x2f].

(** The first loop: the pattern as tokens. *)
Fixpoint tokenize (l : list char) : list Token :=
  match l with
  | [] => []
  | c :: r =>
      if bool_decide (c = star) then
        match r with
        | d :: r' =>
            if bool_decide (d = star) then
              GlobStar :: match r' with
                          | e :: r'' => if bool_decide (e = slash) then tokenize r'' else tokenize r'
                          | [] => []
                          end
            else Star :: tokenize r
        | [] => [Star]
        end
      else if bool_decide (c = question) then One :: tokenize r
      else Literal c :: tokenize r
  end.

(** [v[i]] of a vector of booleans. *)
Definition at_index (v : list bool) (i : nat) : bool := default false (v !! i).

(** [for position in 1..=n { current[position] = f(position, &current); }]. *)
Definition fill (n : nat) (f : nat → list bool → bool) (current : list bool) : list bool :=
  foldl (λ cur position, <[position := f position cur]> cur) current (seq 1 n).

(** The row of the table after one more token. *)
Definition row (path : list char) (token : Token) (previous : list bool) : list bool :=
  let n := length path in
  let current := replicate (n + 1) false in
  match token with
  | Literal expected =>
      fill n (λ p _, at_index previous (p - 1) && bool_decide (path !! (p - 1) = Some expected)) current
  | One =>
      fill n (λ p _, at_index previous (p - 1) && negb (bool_decide (path !! (p - 1) = Some slash))) current
  | Star =>
      fill n (λ p cur, at_index previous p
                       || negb (bool_decide (path !! (p - 1) = Some slash)) && at_index cur (p - 1))
        (<[0 := at_index previous 0]> current)
  | GlobStar =>
      fill n (λ p cur, at_index previous p || at_index cur (p - 1)) (<[0 := at_index previous 0]> current)
  end.

Definition glob_match (pattern path : string) : bool :=
  let tokens := tokenize (chars (as_bytes pattern)) in
  let path := chars (as_bytes path) in
  let table := foldl (λ previous token, row path token previous)
                 (<[0 := true]> (replicate (length path + 1) false)) tokens in
  at_index table (length path).

(** ** The language of a pattern *)

(** What one token stands for. *)
Definition token_lang (t : Token) (s : list char) : Prop :=
  match t with
  | Literal c => s = [c]
  | One => ∃ c, c ≠ slash ∧ s = [c]
  | Star => slash ∉ s
  | GlobStar => True
  end.

(** A text is in the language when it is cut into one piece per token. *)
Definition glob_lang (ts : list Token) (s : list char) : Prop :=
  ∃ pieces, Forall2 token_lang ts pieces ∧ s = mjoin pieces.

Lemma glob_lang_nil s : glob_lang [] s ↔ s = [].
Proof.
  split.
  - intros (pieces & Hp & ->). by apply Forall2_nil_inv_l in Hp as ->.
  - intros ->. by exists [].
Qed.

Lemma glob_lang_snoc ts t s :
  glob_lang (ts ++ [t]) s ↔ ∃ s1 s2, s = s1 ++ s2 ∧ glob_lang ts s1 ∧ token_lang t s2.
Proof.
  split.
  - intros (pieces & Hp & ->). apply Forall2_app_inv_l in Hp as (l1 & l2 & H1 & H2 & ->).
    apply Forall2_cons_inv_l in H2 as (x & l2' & Hx & Hnil & ->). apply Forall2_nil_inv_l in Hnil as ->.
    exists (mjoin l1), x. rw join_app. cbn. rw app_nil_r. split; [done|]. split; [by exists l1|done].
  - intros (s1 & s2 & -> & (l & Hl & ->) & Ht). exists (l ++ [s2]). split; [by apply Forall2_app; [|constructor]|].
    rw join_app. cbn. by rw app_nil_r.
Qed.

(** ** The table is right *)
Section table.
Context (path : list char).
Abbreviation n := (length path).

(** [fill] computes each entry from the ones before it. *)
Lemma fill_length f cur m : length (fill m f cur) = length cur.
Proof.
  unfold fill. generalize (seq 1 m). intros l. revert cur. induction l as [|p l IH]; intros cur; [done|].
  cbn [foldl]. by rw IH length_insert.
Qed.

Lemma fill_snoc m f cur : fill (S m) f cur = <[S m := f (S m) (fill m f cur)]> (fill m f cur).
Proof. unfold fill. by rw seq_S foldl_app. Qed.

(** An entry holds what the recurrence says when the one before it does. *)
Lemma fill_spec f cur (P : nat → Prop) m :
  m < length cur → (at_index cur 0 = true ↔ P 0) →
  (∀ p v, 1 ≤ p ≤ m → (at_index v (p - 1) = true ↔ P (p - 1)) → (f p v = true ↔ P p)) →
  ∀ i, i ≤ m → (at_index (fill m f cur) i = true ↔ P i).
Proof.
  intros Hm H0 Hf. induction m as [|m IH]; intros i Hi.
  - by assert (i = 0) as -> by lia.
  - assert (IH' : ∀ i, i ≤ m → (at_index (fill m f cur) i = true ↔ P i)).
    { apply IH; [lia|]. intros p v Hp. apply Hf. lia. }
    rw fill_snoc. unfold at_index. destruct (decide (i = S m)) as [->|Hne].
    + rw list_lookup_insert_eq; [rw fill_length; lia|]. cbn. apply Hf; [lia|].
      replace (S m - 1) with m by lia. by apply IH'.
    + rw list_lookup_insert_ne; [lia|]. apply IH'. lia.
Qed.

(** Row [v] says for which prefixes of the path the tokens [ts] match. *)
Definition row_ok (ts : list Token) (v : list bool) : Prop :=
  length v = n + 1 ∧ ∀ i, i ≤ n → (at_index v i = true ↔ glob_lang ts (take i path)).

Lemma take_last p : 1 ≤ p ≤ n → ∃ x, path !! (p - 1) = Some x ∧ take p path = take (p - 1) path ++ [x].
Proof.
  intros Hp. destruct (lookup_lt_is_Some_2 path (p - 1)) as [x Hx]; [lia|]. exists x. split; [done|].
  rw -(take_S_r path (p - 1) x) //. f_equal. lia.
Qed.

(** One more character: the last token takes nothing, or the last character. *)
Lemma lang_last ts t s x :
  glob_lang (ts ++ [t]) (s ++ [x]) ↔
  glob_lang ts (s ++ [x]) ∧ token_lang t [] ∨ ∃ s1 s2, s = s1 ++ s2 ∧ glob_lang ts s1 ∧ token_lang t (s2 ++ [x]).
Proof.
  rw glob_lang_snoc. split.
  - intros (s1 & s2 & E & H1 & H2). destruct s2 as [|y s2 _] using rev_ind.
    + left. rw app_nil_r in E. by rw E.
    + right. rw app_assoc in E. apply app_inj_tail in E as [-> ->]. by exists s1, s2.
  - intros [[H1 H2]|(s1 & s2 & -> & H1 & H2)].
    + exists (s ++ [x]), []. by rw app_nil_r.
    + exists s1, (s2 ++ [x]). by rw app_assoc.
Qed.

Lemma lang_single ts t s x :
  (∀ l, token_lang t l → length l = 1) →
  glob_lang (ts ++ [t]) (s ++ [x]) ↔ glob_lang ts s ∧ token_lang t [x].
Proof.
  intros Hone. rw lang_last. split.
  - intros [[_ H0%Hone]|(s1 & s2 & -> & H1 & H2)]; [done|]. pose proof (Hone _ H2) as Hl.
    rw length_app /= in Hl. assert (s2 = []) as -> by (apply nil_length_inv; lia). by rw app_nil_r.
  - intros [H1 H2]. right. exists s, []. by rw app_nil_r.
Qed.

Lemma lang_many ts t s x (ok : char → Prop) :
  (∀ l, token_lang t l ↔ Forall ok l) →
  glob_lang (ts ++ [t]) (s ++ [x]) ↔ glob_lang ts (s ++ [x]) ∨ ok x ∧ glob_lang (ts ++ [t]) s.
Proof.
  intros Hok. rw lang_last !Hok. split.
  - intros [[H1 _]|(s1 & s2 & -> & H1 & H2)]; [by left|]. rw Hok Forall_app Forall_singleton in H2.
    destruct H2 as [H2 H3]. right. split; [done|]. apply glob_lang_snoc. exists s1, s2. by rw Hok.
  - intros [H1|[Hx (s1 & s2 & -> & H1 & H2%Hok)%glob_lang_snoc]]; [by left|]. right. exists s1, s2. split_and!; [done..|].
    apply Hok, Forall_app. split; [done|]. by apply Forall_singleton.
Qed.

Lemma lang_empty_single ts t : (∀ l, token_lang t l → length l = 1) → ¬ glob_lang (ts ++ [t]) [].
Proof. intros Hone (s1 & s2 & E & _ & H2%Hone)%glob_lang_snoc. symmetry in E. apply app_nil in E as [_ ->]. done. Qed.

Lemma lang_empty_many ts t : token_lang t [] → glob_lang (ts ++ [t]) [] ↔ glob_lang ts [].
Proof.
  intros Ht. rw glob_lang_snoc. split.
  - intros (s1 & s2 & E & H1 & _). symmetry in E. by apply app_nil in E as [-> _].
  - intros H1. by exists [], [].
Qed.

Lemma row_ok_single ts t v f :
  (∀ l, token_lang t l → length l = 1) →
  (∀ p x w, path !! (p - 1) = Some x → (f p w = true ↔ at_index v (p - 1) = true ∧ token_lang t [x])) →
  row_ok ts v → row_ok (ts ++ [t]) (fill n f (replicate (n + 1) false)).
Proof.
  intros Hone Hf [Hl Hv]. split; [rw fill_length length_replicate //|].
  apply (fill_spec f _ (λ i, glob_lang (ts ++ [t]) (take i path))).
  - rw length_replicate. lia.
  - unfold at_index. rw lookup_replicate_2; [lia|]. split; [done|]. by intros ?%lang_empty_single.
  - intros p w Hp _. destruct (take_last p Hp) as (x & Hx & ->). rw (Hf p x) // lang_single // Hv //. lia.
Qed.

Lemma row_ok_many ts t v f (ok : char → Prop) :
  (∀ l, token_lang t l ↔ Forall ok l) →
  (∀ p x w, path !! (p - 1) = Some x →
     (f p w = true ↔ at_index v p = true ∨ ok x ∧ at_index w (p - 1) = true)) →
  row_ok ts v → row_ok (ts ++ [t]) (fill n f (<[0 := at_index v 0]> (replicate (n + 1) false))).
Proof.
  intros Hok Hf [Hl Hv]. split; [rw fill_length length_insert length_replicate //|].
  apply (fill_spec f _ (λ i, glob_lang (ts ++ [t]) (take i path))).
  - rw length_insert length_replicate. lia.
  - unfold at_index at 1. rw list_lookup_insert_eq; [rw length_replicate; lia|]. cbn.
    rw lang_empty_many; [by apply Hok|]. rw Hv; [lia|done].
  - intros p w Hp Hprev. destruct (take_last p Hp) as (x & Hx & E). rw (Hf p x) // Hprev Hv; [lia|].
    rw E. by rw (lang_many _ _ _ _ ok).
Qed.

Lemma row_correct ts t v : row_ok ts v → row_ok (ts ++ [t]) (row path t v).
Proof.
  intros Hv. destruct t as [c| | |]; cbn [row].
  - apply (row_ok_single ts (Literal c) v); [by intros ? ->| |done]. intros p x w Hx.
    rw andb_true_iff bool_decide_eq_true Hx. cbn. naive_solver.
  - apply (row_ok_single ts One v); [by intros ? (? & _ & ->)| |done]. intros p x w Hx.
    rw andb_true_iff negb_true_iff bool_decide_eq_false Hx. cbn. naive_solver.
  - apply (row_ok_many ts Star v _ (λ x, x ≠ slash)); [|intros p x w Hx|done].
    + intros l. cbn. rw Forall_forall. naive_solver.
    + rw orb_true_iff andb_true_iff negb_true_iff bool_decide_eq_false Hx. naive_solver.
  - apply (row_ok_many ts GlobStar v _ (λ _, True)); [|intros p x w Hx|done].
    + intros l. cbn. split; [intros _; by apply Forall_true|done].
    + rw orb_true_iff. naive_solver.
Qed.

Lemma first_row : row_ok [] (<[0 := true]> (replicate (n + 1) false)).
Proof.
  split; [rw length_insert length_replicate //|]. intros i Hi. rw glob_lang_nil. unfold at_index.
  destruct i as [|i].
  - rw list_lookup_insert_eq; [rw length_replicate; lia|]. done.
  - rw list_lookup_insert_ne // lookup_replicate_2; [lia|]. split; [done|]. intros E%(f_equal length).
    rw length_take in E. cbn [length] in E. lia.
Qed.

Lemma table_correct ts : row_ok ts (foldl (λ v t, row path t v) (<[0 := true]> (replicate (n + 1) false)) ts).
Proof.
  induction ts as [|t ts IH] using rev_ind; [apply first_row|]. rw foldl_app. by apply row_correct.
Qed.
End table.

(** C25: The dynamic program decides the language of the pattern: a path matches exactly when it
    is cut into one piece per token, a literal character for itself, [?] for one character
    that is no slash, [*] for characters that are no slashes and [**] for any characters. *)
Theorem glob_match_equiv (pattern path : string) :
  glob_match pattern path = true ↔
  glob_lang (tokenize (chars (as_bytes pattern))) (chars (as_bytes path)).
Proof.
  unfold glob_match. set (cs := chars (as_bytes path)).
  destruct (table_correct cs (tokenize (chars (as_bytes pattern)))) as [_ Hv].
  rw (Hv (length cs)) //. by rw take_ge.
Qed.

Example globs :
  (glob_match "assets/**/*.png" "assets/a/b/c.png", glob_match "assets/**/*.png" "assets/c.png",
   glob_match "*.tmp" "sub/a.tmp", glob_match "a?c" "a/c", glob_match "a/**/b" "a/xb") =
  (true, true, false, false, true).
Proof. vm_compute. reflexivity. Qed.
