(* ===== verification/Project.v ===== *)
(** * Projects

    [synergos-core/src/project.rs]: the projects a node has open, their settings,
    manifests and version states, and the invitations to join them.

    The operations run under a per-project lock and are modelled one at a time; the lock
    table carries no data.  The file at [state_path] lies outside the project trees and is
    a cell of its own ([state_cell]).  [now] is the clock, [uuid] a random name. *)

From Stdlib Require Import Strings.Ascii.
From S2P Require Import Prelude Crypto Types Fs Manifest Identity Gossip.

Inductive SyncMode :=
| Full
| Manual
| Selective (patterns : list string).

Definition mode_as_str (m : SyncMode) : string :=
  match m with Full => "full" | Manual => "manual" | Selective _ => "selective" end.

Definition mode_from_str (s : string) : SyncMode :=
  if bool_decide (s = "manual") then Manual
  else if bool_decide (s = "selective") then Selective []
  else Full.

Record ProjectSettings := mk_ProjectSettings {
  display_name : string;
  description : string;
  sync_mode : SyncMode;
  max_peers : N;
}.

Definition default_settings : ProjectSettings := mk_ProjectSettings "" "" Full 0.

Record ProjectSettingsPatch := mk_ProjectSettingsPatch {
  patch_display_name : option string;
  patch_description : option string;
  patch_sync_mode : option string;
  patch_max_peers : option N;
}.

Record InviteToken := mk_InviteToken {
  token : string;
  invite_project_id : string;
  expires_at : option N;
  uses_remaining : N;
}.

Inductive ProjectError :=
| PNotFound
| PAlreadyExists
| PInvalidInvite
| PInviteExpired
| PInvalidInviteExpiration
| PInvalidRoot
| PManifest
| PInvalidProjectId
| PMaxPeersReached.

Record ManagedProject := mk_ManagedProject {
  mp_project_id : string;
  root_path : path;
  settings : ProjectSettings;
  created_at : N;
  connected_peer_ids : list string;
}.

Record PersistedProject := mk_PersistedProject {
  pp_project_id : string;
  pp_root_path : path;
  pp_display_name : string;
  pp_description : string;
  pp_sync_mode : string;
  pp_max_peers : N;
  pp_created_at : N;
}.
Abbreviation PersistedState := (list PersistedProject).

Record PeerDisconnectedEvent := mk_PeerDisconnectedEvent {
  ev_project_id : string;
  ev_peer_id : string;
  ev_reason : string;
}.

Record ProjectManager := mk_ProjectManager {
  projects : gmap string ManagedProject;
  invites : gmap string InviteToken;
  file_paths : gmap (string * FileId) string;
  manifests : gmap string ProjectManifest;
  version_states : gmap string VersionState;
  event_bus : list PeerDisconnectedEvent;
  gossip : option GossipNode;
  has_state_path : bool;
}.

Definition new_manager (g : option GossipNode) (sp : bool) : ProjectManager :=
  mk_ProjectManager ∅ ∅ ∅ ∅ ∅ [] g sp.

Definition set_projects p (m : ProjectManager) : ProjectManager :=
  mk_ProjectManager p (invites m) (file_paths m) (manifests m) (version_states m) (event_bus m)
    (gossip m) (has_state_path m).
Definition set_invites i (m : ProjectManager) : ProjectManager :=
  mk_ProjectManager (projects m) i (file_paths m) (manifests m) (version_states m) (event_bus m)
    (gossip m) (has_state_path m).
Definition set_manifests f (m : ProjectManager) : ProjectManager :=
  mk_ProjectManager (projects m) (invites m) (file_paths m) f (version_states m) (event_bus m)
    (gossip m) (has_state_path m).
Definition set_version_states v (m : ProjectManager) : ProjectManager :=
  mk_ProjectManager (projects m) (invites m) (file_paths m) (manifests m) v (event_bus m)
    (gossip m) (has_state_path m).
Definition set_gossip g (m : ProjectManager) : ProjectManager :=
  mk_ProjectManager (projects m) (invites m) (file_paths m) (manifests m) (version_states m)
    (event_bus m) g (has_state_path m).
Definition emit_all l (m : ProjectManager) : ProjectManager :=
  mk_ProjectManager (projects m) (invites m) (file_paths m) (manifests m) (version_states m)
    (event_bus m ++ l) (gossip m) (has_state_path m).

(** The manager, the disk, and the file at [state_path]. *)
Record State := mk_State {
  pm : ProjectManager;
  world : World;
  state_cell : option bytes;
}.

Definition lift_io {A} (m : IO A) : ST State IoError A := λ s,
  let '(r, w) := m (world s) in (r, mk_State (pm s) w (state_cell s)).
Definition lift_as {E A} (f : IoError → E) (m : IO A) : ST State E A := λ s,
  let '(r, w) := m (world s) in (map_err f r, mk_State (pm s) w (state_cell s)).
Definition with_pm {E} (f : ProjectManager → ProjectManager) : ST State E () :=
  modify (λ s, mk_State (f (pm s)) (world s) (state_cell s)).

Definition project_root (m : ProjectManager) (project_id : string) : option path :=
  root_path <$> projects m !! project_id.

Section project_manager.
Context `{!Codec ProjectManifest, !Codec VersionState, !Codec PersistedState,
          !MapIter string ManagedProject}.

(** ** Persistence of the project list *)
Definition persisted (p : ManagedProject) : PersistedProject :=
  mk_PersistedProject (mp_project_id p) (root_path p) (display_name (settings p))
    (description (settings p)) (mode_as_str (sync_mode (settings p))) (max_peers (settings p))
    (created_at p).

Definition save_state : ST State ProjectError () := λ s,
  if has_state_path (pm s) then
    match to_vec (persisted <$> (map_iter (projects (pm s))).*2) with
    | None => (Err PNotFound, s)
    | Some json =>
        let '(f, w) := next_fault (world s) in
        match f with
        | None => (Ok (), mk_State (pm s) w (Some json))
        | Some k => (Err PNotFound, mk_State (pm s) w (Some (take k json)))
        end
    end
  else (Ok (), s).

Definition load_state : ST State ProjectError PersistedState := λ s,
  match has_state_path (pm s), state_cell s with
  | true, Some raw =>
      let '(f, w) := next_fault (world s) in
      let s := mk_State (pm s) w (state_cell s) in
      match f with
      | Some _ => (Err PNotFound, s)
      | None => (ok_or (from_slice raw) PNotFound, s)
      end
  | _, _ => (Ok [], s)
  end.

(** ** File names *)
Definition register_file (project_id : string) (file_id : FileId) (relative : string)
    (m : ProjectManager) : ProjectManager :=
  mk_ProjectManager (projects m) (invites m) (<[(project_id, file_id) := relative]> (file_paths m))
    (manifests m) (version_states m) (event_bus m) (gossip m) (has_state_path m).

Definition resolve_file_path (project_id : string) (file_id : FileId) :
    ST State IoError (option path) := λ s,
  match project_root (pm s) project_id with
  | None => (Ok None, s)
  | Some root =>
      let rel := match file_paths (pm s) !! (project_id, file_id) with
                 | Some rel => normalize_rel_path rel
                 | None => file_id
                 end in
      lift_io (safe_join_under_root root rel) s
  end.

(** ** Versions *)
Definition load_manifest_unlocked (project_id : string) : ST State IoError () :=
  m ← gets pm;
  match project_root m project_id with
  | None => throw NotFound
  | Some root =>
      manifest ← lift_io (manifest_load root project_id);
      with_pm (λ m, set_manifests (<[project_id := manifest]> (manifests m)) m)
  end.

Definition load_version_state_unlocked (project_id : string) : ST State IoError () :=
  m ← gets pm;
  root ← lift_result (ok_or (project_root m project_id) NotFound);
  state ← lift_io (state_load root project_id);
  with_pm (λ m, set_version_states (<[project_id := state]> (version_states m)) m).

(** [if !self.manifests.contains_key(..) { self.load_manifest_unlocked(..)? }]. *)
Definition ensure_manifest (project_id : string) : ST State IoError () :=
  m ← gets pm;
  match manifests m !! project_id with Some _ => mret () | None => load_manifest_unlocked project_id end.
Definition ensure_version_state (project_id : string) : ST State IoError () :=
  m ← gets pm;
  match version_states m !! project_id with
  | Some _ => mret ()
  | None => load_version_state_unlocked project_id
  end.

Definition highest_confirmed_version (m : ProjectManager) (project_id rel : string) : N :=
  match version_states m !! project_id with Some s => highest s rel | None => 0%N end.

Definition note_versions_unlocked (uuid project_id : string) (versions : list (string * N)) :
    ST State IoError () :=
  m ← gets pm;
  root ← lift_result (ok_or (project_root m project_id) NotFound);
  snapshot ← lift_result (ok_or (version_states m !! project_id) NotFound);
  '(snapshot, changed) ← lift_result (note_all versions snapshot false);
  if changed : bool then
    _ ← lift_io (state_save uuid snapshot root);
    with_pm (λ m, set_version_states (<[project_id := snapshot]> (version_states m)) m)
  else mret ().

Definition note_confirmed_version_unlocked (uuid project_id rel : string) (v : N) :
    ST State IoError () :=
  note_versions_unlocked uuid project_id [(rel, v)].

Definition manifest_snapshot (m : ProjectManager) (project_id : string) : ProjectManifest :=
  default (new_manifest project_id) (manifests m !! project_id).

Definition store_manifest (uuid project_id : string) (snapshot : ProjectManifest) (root : path) :
    ST State IoError () :=
  _ ← lift_io (manifest_save uuid snapshot root);
  with_pm (λ m, set_manifests (<[project_id := snapshot]> (manifests m)) m).

Definition bump_file_version (now : N) (uuid1 uuid2 project_id rel : string) (size crc : N)
    (publisher : string) : ST State IoError BumpOutcome :=
  _ ← ensure_manifest project_id;
  _ ← ensure_version_state project_id;
  m ← gets pm;
  root ← lift_result (ok_or (project_root m project_id) NotFound);
  let snapshot := manifest_snapshot m project_id in
  let floor := highest_confirmed_version m project_id rel in
  let '(snapshot, outcome) := bump_at_least rel size crc publisher now floor snapshot in
  match outcome with
  | Bumped v =>
      _ ← note_confirmed_version_unlocked uuid1 project_id rel v;
      _ ← store_manifest uuid2 project_id snapshot root;
      mret outcome
  | Unchanged _ => mret outcome
  end.

Definition record_received_file (now : N) (uuid1 uuid2 project_id rel : string) (v size crc : N)
    (publisher : string) (force : bool) : ST State IoError bool :=
  _ ← ensure_manifest project_id;
  _ ← ensure_version_state project_id;
  m ← gets pm;
  root ← lift_result (ok_or (project_root m project_id) NotFound);
  let snapshot := manifest_snapshot m project_id in
  _ ← note_confirmed_version_unlocked uuid1 project_id rel v;
  let '(snapshot, changed) := record_received_with rel v size crc publisher now force snapshot in
  if changed : bool then
    _ ← store_manifest uuid2 project_id snapshot root;
    mret changed
  else mret changed.

Definition manifest_entries (m : ProjectManager) (project_id : string) : list (string * ManifestEntry) :=
  match manifests m !! project_id with Some man => btree_iter (files man) | None => [] end.

Definition entry_versions (l : list (string * ManifestEntry)) : list (string * N) :=
  (λ '(rel, e), (rel, version e)) <$> l.

Definition note_manifest_versions_unlocked (uuid project_id : string) : ST State IoError () :=
  _ ← ensure_version_state project_id;
  m ← gets pm;
  note_versions_unlocked uuid project_id (entry_versions (manifest_entries m project_id)).

Definition reload_manifest (uuid project_id : string) : ST State IoError ProjectManifest :=
  _ ← load_manifest_unlocked project_id;
  _ ← note_manifest_versions_unlocked uuid project_id;
  gets (λ s, manifest_snapshot (pm s) project_id).

Definition replace_manifest (uuid1 uuid2 project_id : string) (manifest : ProjectManifest) :
    ST State IoError () :=
  if negb (bool_decide (m_project_id manifest = project_id)) then throw InvalidInput
  else
    m ← gets pm;
    root ← lift_result (ok_or (project_root m project_id) NotFound);
    _ ← ensure_version_state project_id;
    _ ← note_versions_unlocked uuid1 project_id (entry_versions (btree_iter (files manifest)));
    store_manifest uuid2 project_id manifest root.

Definition note_confirmed_version (uuid project_id rel : string) (v : N) : ST State IoError () :=
  _ ← ensure_version_state project_id;
  note_confirmed_version_unlocked uuid project_id rel v.

(** ** Opening and closing *)
Definition invalid_project_id (project_id : string) : bool :=
  bool_decide (project_id = "") || (256 <? length (as_bytes project_id))
  || has_control (as_bytes project_id) || contains_char "/"%char project_id || contains_char "\"%char project_id.

(** [Path::is_dir]: an error counts as no. *)
Definition is_dir (p : path) : IO bool :=
  m ← try_ (metadata p);
  mret (match m with Ok Dir => true | _ => false end).

Definition insert_project (project_id : string) (p : ManagedProject) (manifest : ProjectManifest)
    (state : VersionState) (m : ProjectManager) : ProjectManager :=
  let m := set_gossip (subscribe (topic_project project_id) <$> gossip m) m in
  let m := set_projects (<[project_id := p]> (projects m)) m in
  let m := set_manifests (<[project_id := manifest]> (manifests m)) m in
  set_version_states (<[project_id := state]> (version_states m)) m.

(** [open_project] up to the saving of the version state: the canonical root, the
    manifest, the version state raised to the manifest's versions, and whether it was. *)
Definition load_project (project_id : string) (root : path) :
    ST State ProjectError (path * ProjectManifest * VersionState * bool) :=
  root ← lift_as (λ _, PInvalidRoot) (canonicalize root);
  d ← lift_as (λ _, PInvalidRoot) (is_dir root);
  if negb d then throw PInvalidRoot
  else
    manifest ← lift_as (λ _, PManifest) (manifest_load root project_id);
    state ← lift_as (λ _, PManifest) (state_load root project_id);
    '(state, changed) ← lift_result (map_err (λ _, PManifest)
       (note_all (entry_versions (btree_iter (files manifest))) state false));
    mret (root, manifest, state, changed).

Definition open_project (now : N) (uuid project_id : string) (root : path)
    (name : option string) : ST State ProjectError () :=
  if invalid_project_id project_id then throw PInvalidProjectId
  else
    m ← gets pm;
    match projects m !! project_id with
    | Some _ => throw PAlreadyExists
    | None =>
        '(root, manifest, state, changed) ← load_project project_id root;
        _ ← (if changed : bool then lift_as (λ _, PManifest) (state_save uuid state root) else mret ());
        let settings := mk_ProjectSettings (default project_id name) "" Full 0 in
        let p := mk_ManagedProject project_id root settings now [] in
        _ ← with_pm (insert_project project_id p manifest state);
        ignore save_state
    end.

Definition remove_project (project_id : string) (p : ManagedProject) (m : ProjectManager) :
    ProjectManager :=
  let m := set_projects (delete project_id (projects m)) m in
  let m := set_gossip (unsubscribe (topic_project project_id) <$> gossip m) m in
  let m := set_invites (filter (λ '(_, i), invite_project_id i ≠ project_id) (invites m)) m in
  let m := set_manifests (delete project_id (manifests m)) m in
  let m := set_version_states (delete project_id (version_states m)) m in
  emit_all ((λ peer, mk_PeerDisconnectedEvent project_id peer "project closed") <$> connected_peer_ids p) m.

Definition close_project (project_id : string) : ST State ProjectError () :=
  m ← gets pm;
  match projects m !! project_id with
  | None => throw PNotFound
  | Some p =>
      _ ← with_pm (remove_project project_id p);
      ignore save_state
  end.

Definition close_all : ST State ProjectError () :=
  m ← gets pm;
  for_each (λ id, ignore (close_project id)) (map_iter (projects m)).*1.

Definition apply_patch (patch : ProjectSettingsPatch) (s : ProjectSettings) : ProjectSettings :=
  mk_ProjectSettings
    (default (display_name s) (patch_display_name patch))
    (default (description s) (patch_description patch))
    (match patch_sync_mode patch with Some mode => mode_from_str mode | None => sync_mode s end)
    (default (max_peers s) (patch_max_peers patch)).

Definition update_project (project_id : string) (patch : ProjectSettingsPatch) :
    ST State ProjectError () :=
  m ← gets pm;
  match projects m !! project_id with
  | None => throw PNotFound
  | Some p =>
      let p := mk_ManagedProject (mp_project_id p) (root_path p) (apply_patch patch (settings p))
                 (created_at p) (connected_peer_ids p) in
      _ ← with_pm (λ m, set_projects (<[project_id := p]> (projects m)) m);
      ignore save_state
  end.

(** ** Invitations *)
Definition gc_expired_invites (now : N) (m : ProjectManager) : ProjectManager * nat :=
  let kept := filter (λ '(_, i), (match expires_at i with Some e => now <? e | None => true end)%N = true)
                (invites m) in
  (set_invites kept m, size (invites m) - size kept).

Definition create_invite (now : N) (uuid project_id : string) (expires_in_secs : option N) :
    ST State ProjectError InviteToken :=
  m ← gets pm;
  match projects m !! project_id with
  | None => throw PNotFound
  | Some _ =>
      expires ← lift_result (match expires_in_secs with
        | None => Ok None
        | Some secs => if (u64_max <? now + secs)%N then Err PInvalidInviteExpiration
                       else Ok (Some (now + secs)%N)
        end);
      let invite := mk_InviteToken uuid project_id expires 1 in
      _ ← with_pm (λ m, set_invites (<[uuid := invite]> (invites m)) m);
      mret invite
  end.

(** The first block of [join_project]. *)
Definition consume_invite (now : N) (invite_token : string) : ST State ProjectError string :=
  m ← gets pm;
  match invites m !! invite_token with
  | None => throw PInvalidInvite
  | Some i =>
      let remove := with_pm (λ m, set_invites (delete invite_token (invites m)) m) in
      if match expires_at i with Some e => (e <? now)%N | None => false end then
        _ ← remove; throw PInviteExpired
      else if (uses_remaining i =? 0)%N then
        _ ← remove; throw PInvalidInvite
      else
        let i' := mk_InviteToken (token i) (invite_project_id i) (expires_at i) (uses_remaining i - 1) in
        _ ← with_pm (λ m, set_invites (<[invite_token := i']> (invites m)) m);
        _ ← (if (uses_remaining i' =? 0)%N then remove else mret ());
        mret (invite_project_id i)
  end.

Definition join_project (now : N) (uuid invite_token : string) (root : path) :
    ST State ProjectError string :=
  project_id ← consume_invite now invite_token;
  m ← gets pm;
  match projects m !! project_id with
  | Some _ => mret project_id
  | None =>
      _ ← open_project now uuid project_id root None;
      mret project_id
  end.
End project_manager.

(** ** Histories

    One operation of the manager with the faults the disk shows during it, or a change
    somebody else makes to the disk: a checkout or an edit may do anything to it but
    remove a directory, put a link into a metadata directory, or touch a version state. *)
Inductive op :=
| OpOpen (now : N) (uuid project_id : string) (root : path) (name : option string)
| OpClose (project_id : string)
| OpCloseAll
| OpUpdate (project_id : string) (patch : ProjectSettingsPatch)
| OpRegister (project_id : string) (file_id : FileId) (relative : string)
| OpBump (now : N) (uuid1 uuid2 project_id rel : string) (size crc : N) (publisher : string)
| OpRecord (now : N) (uuid1 uuid2 project_id rel : string) (v size crc : N) (publisher : string)
    (force : bool)
| OpReload (uuid project_id : string)
| OpReplace (uuid1 uuid2 project_id : string) (manifest : ProjectManifest)
| OpNote (uuid project_id rel : string) (v : N)
| OpInvite (now : N) (uuid project_id : string) (expires_in_secs : option N)
| OpJoin (now : N) (uuid invite_token : string) (root : path)
| OpGcInvites (now : N)
| OpRestart (g : option GossipNode) (sp : bool).

(** A version number of a file of a project at a root: [issued] by this node, or seen in
    a manifest or a transfer. *)
Record event := mk_event {
  issued : bool;
  ev_key : string * path * string;
  ev_version : N;
}.
Global Instance event_eq_dec : EqDecision event.
Proof. solve_decision. Defined.

Definition seen_event (project_id : string) (root : path) (x : string * N) : event :=
  mk_event false (project_id, root, x.1) x.2.

Section histories.
Context `{!Codec ProjectManifest, !Codec VersionState, !Codec PersistedState,
          !MapIter string ManagedProject}.

(** The versions of the manifest of a project that has just been opened. *)
Definition opened (before after : State) (project_id : string) : list event :=
  match projects (pm before) !! project_id, projects (pm after) !! project_id with
  | None, Some p =>
      seen_event project_id (root_path p) <$> entry_versions (manifest_entries (pm after) project_id)
  | _, _ => []
  end.

Definition at_root (s : State) (project_id : string) (f : path → list event) : list event :=
  match project_root (pm s) project_id with Some root => f root | None => [] end.

Definition run_op (o : op) (s : State) : State * list event :=
  match o with
  | OpOpen now uuid pid root name =>
      let '(r, s') := open_project now uuid pid root name s in
      (s', if is_ok r then opened s s' pid else [])
  | OpClose pid => ((close_project pid s).2, [])
  | OpCloseAll => ((close_all s).2, [])
  | OpUpdate pid patch => ((update_project pid patch s).2, [])
  | OpRegister pid fid rel => ((with_pm (E := IoError) (register_file pid fid rel) s).2, [])
  | OpBump now u1 u2 pid rel size crc publisher =>
      let '(r, s') := bump_file_version now u1 u2 pid rel size crc publisher s in
      (s', match r with
           | Ok (Bumped v) => at_root s' pid (λ root, [mk_event true (pid, root, rel) v])
           | _ => []
           end)
  | OpRecord now u1 u2 pid rel v size crc publisher force =>
      let '(r, s') := record_received_file now u1 u2 pid rel v size crc publisher force s in
      (s', if is_ok r then at_root s' pid (λ root, [seen_event pid root (rel, v)]) else [])
  | OpReload uuid pid =>
      let '(r, s') := reload_manifest uuid pid s in
      (s', match r with
           | Ok m => at_root s' pid (λ root, seen_event pid root <$> entry_versions (btree_iter (files m)))
           | _ => []
           end)
  | OpReplace u1 u2 pid manifest =>
      let '(r, s') := replace_manifest u1 u2 pid manifest s in
      (s', if is_ok r
           then at_root s' pid (λ root, seen_event pid root <$> entry_versions (btree_iter (files manifest)))
           else [])
  | OpNote uuid pid rel v =>
      let '(r, s') := note_confirmed_version uuid pid rel v s in
      (s', if is_ok r then at_root s' pid (λ root, [seen_event pid root (rel, v)]) else [])
  | OpInvite now uuid pid e => ((create_invite now uuid pid e s).2, [])
  | OpJoin now uuid tok root =>
      let '(r, s') := join_project now uuid tok root s in
      (s', match r with Ok pid => opened s s' pid | Err _ => [] end)
  | OpGcInvites now => ((with_pm (E := IoError) (λ m, (gc_expired_invites now m).1) s).2, [])
  | OpRestart g sp => (mk_State (new_manager g sp) (world s) (state_cell s), [])
  end.

Inductive step : State → list event → State → Prop :=
| step_op s o fs s' new :
    run_op o (mk_State (pm s) (mk_World (disk (world s)) fs) (state_cell s)) = (s', new) →
    step s new s'
| step_env s d cell :
    disk_ok d → same_state (disk (world s)) d →
    step s [] (mk_State (pm s) (mk_World d []) cell).

(** [history s0 log s]: from [s0] to [s], with the version numbers in order. *)
Inductive history (s0 : State) : list event → State → Prop :=
| history_start : history s0 [] s0
| history_step log s new s' : history s0 log s → step s new s' → history s0 (log ++ new) s'.
End histories.

(** ** The high-water mark covers every version *)
Section invariant.
Context `{!Codec ProjectManifest, !Codec VersionState, !CodecLaws VersionState,
          !Codec PersistedState, !MapIter string ManagedProject}.

Definition covers (log : list event) (project_id : string) (root : path) (st : VersionState) : Prop :=
  ∀ e rel, e ∈ log → ev_key e = (project_id, root, rel) → (ev_version e ≤ highest st rel)%N.

(** The state in memory against the state file. *)
Definition persisted_by (st : VersionState) (o : option node) : Prop :=
  match o with
  | Some (File b) => ∀ sd, from_slice b = Some sd → vs_project_id sd = vs_project_id st → state_le st sd
  | _ => ∀ rel, highest st rel = 0%N
  end.

(** The state file at the root of every logged version covers it. *)
Definition logged_on_disk (log : list event) (d : Fs) : Prop :=
  ∀ e pid root rel, e ∈ log → ev_key e = (pid, root, rel) →
    ∃ b, d !! state_file root = Some (File b) ∧
      ∀ sd, from_slice b = Some sd → vs_project_id sd = pid → (ev_version e ≤ highest sd rel)%N.

Definition open_ok (log : list event) (d : Fs) (vs : gmap string VersionState) (pid : string)
    (root : path) : Prop :=
  normal root ∧ real_dir d root ∧
  ∃ st, vs !! pid = Some st ∧ vs_project_id st = pid ∧ covers log pid root st ∧
    persisted_by st (d !! state_file root).

Record Inv (log : list event) (s : State) : Prop := {
  inv_disk : disk_ok (disk (world s));
  inv_log : logged_on_disk log (disk (world s));
  inv_open : ∀ pid p, projects (pm s) !! pid = Some p →
    open_ok log (disk (world s)) (version_states (pm s)) pid (root_path p);
}.

(** The invariant looks at the roots, the version states and the disk only. *)
Lemma Inv_view log s s' :
  Inv log s →
  (∀ pid p, projects (pm s') !! pid = Some p → ∃ p', projects (pm s) !! pid = Some p' ∧ root_path p' = root_path p) →
  version_states (pm s') = version_states (pm s) → disk (world s') = disk (world s) → Inv log s'.
Proof.
  intros [Hd Hl Ho] Hp Hv Hw. split; rw ?Hw //. intros pid p Hpid.
  destruct (Hp _ _ Hpid) as (p' & Hp' & <-). rw Hv. by apply Ho.
Qed.

Lemma Inv_same_state log pm0 w w' cell cell' :
  Inv log (mk_State pm0 w cell) → disk_ok (disk w') → same_state (disk w) (disk w') →
  Inv log (mk_State pm0 w' cell').
Proof.
  intros [Hd Hl Ho] Hok [Hdirs Hst]. split; simpl in *; [done| |].
  - intros e pid root rel He Hk. destruct (Hl e pid root rel He Hk) as (b & Hb & ?).
    exists b. by rw Hst.
  - intros pid p Hp. destruct (Ho pid p Hp) as (Hn & Hr & st & ? & ? & ? & ?).
    split_and!; [done|by eapply real_dir_mono|]. exists st. by rw Hst.
Qed.

(** *** Computations that keep the invariant and the set of roots *)
Definition keeps {E A} (m : ST State E A) : Prop :=
  ∀ log s r s', Inv log s → m s = (r, s') → Inv log s' ∧ projects (pm s') = projects (pm s).

Lemma keeps_ret {E A} (a : A) : keeps (mret a : ST State E A).
Proof. intros log s r s' HI [= <- <-]. done. Qed.
Lemma keeps_throw {E A} (e : E) : keeps (throw e : ST State E A).
Proof. intros log s r s' HI [= <- <-]. done. Qed.
Lemma keeps_gets {E A} (f : State → A) : keeps (gets f : ST State E A).
Proof. intros log s r s' HI [= <- <-]. done. Qed.
Lemma keeps_lift_result {E A} (x : result E A) : keeps (lift_result x : ST State E A).
Proof. intros log s r s' HI [= <- <-]. done. Qed.

Lemma keeps_bind {E A B} (m : ST State E A) (f : A → ST State E B) :
  keeps m → (∀ a, keeps (f a)) → keeps (m ≫= f).
Proof.
  intros Hm Hf log s r s' HI H. st_bind H.
  - apply (Hm log) in H0 as [HI1 Hp1]; [|done]. apply (Hf a log) in H as [HI2 Hp2]; [|done].
    by rw Hp2 Hp1.
  - by apply (Hm log) in H.
Qed.

Lemma keeps_with_pm {E} f :
  (∀ m, projects (f m) = projects m ∧ version_states (f m) = version_states m) →
  keeps (with_pm (E := E) f).
Proof.
  intros Hf log s r s' HI [= <- <-]. destruct (Hf (pm s)) as [Hp Hv]. split; [|done].
  eapply Inv_view; [done| |done|done]. simpl. rw Hp. by eauto.
Qed.

Lemma keeps_ignore {E A} (m : ST State E A) : keeps m → keeps (ignore m).
Proof. intros Hm log s r s' HI (r0 & H & _)%ignore_inv. by apply (Hm log) in H. Qed.

Lemma keeps_save_state : keeps save_state.
Proof.
  intros log s r s' HI. unfold save_state.
  assert (Hw : disk ((next_fault (world s)).2) = disk (world s)) by
    (unfold next_fault; by destruct (faults (world s))).
  destruct (has_state_path (pm s)); [|by intros [= <- <-]].
  destruct (to_vec _); [|by intros [= <- <-]].
  destruct (next_fault (world s)) as [[k|] w]; intros [= <- <-]; (split; [|done]);
    by (eapply Inv_view; [done|by eauto|done|]).
Qed.

Lemma keeps_io {A} (m : IO A) :
  (∀ log s r w, Inv log s → m (world s) = (r, w) → Inv log (mk_State (pm s) w (state_cell s))) →
  keeps (lift_io m).
Proof.
  intros Hm log s r s' HI H. unfold lift_io in H. destruct (m (world s)) as [r0 w] eqn:E.
  injection H as <- <-. split; [by eapply Hm|done].
Qed.

Lemma manifest_load_disk root pid w r w' :
  manifest_load root pid w = (r, w') → disk w' = disk w.
Proof.
  intros H. unfold manifest_load in H. st_bind H; [|by eapply metadata_file_path_disk].
  apply metadata_file_path_disk in H0. rw -H0. st_bind H; [|by apply try_inv in H as (? & _ & ?)].
  apply try_inv in H1 as (r1 & H1 & [= ->]). apply query_inv in H1 as [<- _].
  by destruct r1 as [|[]]; injection H as _ <-.
Qed.

(** The root of an open project. *)
Lemma open_root log s pid root :
  Inv log s → project_root (pm s) pid = Some root →
  open_ok log (disk (world s)) (version_states (pm s)) pid root.
Proof. intros HI (p & Hp & ->)%fmap_Some. by apply (inv_open _ _ HI). Qed.

Lemma keeps_load_manifest pid : keeps (load_manifest_unlocked pid).
Proof.
  unfold load_manifest_unlocked. apply keeps_bind; [apply keeps_gets|intros m].
  destruct (project_root m pid); [|apply keeps_throw]. apply keeps_bind.
  - apply keeps_io. intros log s r w HI E%manifest_load_disk. eapply Inv_view; [done|by eauto|done|done].
  - intros man. by apply keeps_with_pm.
Qed.

(** The version state of an open project is loaded. *)
Lemma keeps_ensure_version_state pid : keeps (ensure_version_state pid).
Proof.
  intros log s r s' HI H. unfold ensure_version_state in H. st_bind H; [|done].
  injection H0 as <- <-. destruct (version_states (pm s) !! pid) as [st|] eqn:E.
  { by injection H as <- <-. }
  unfold load_version_state_unlocked in H. st_bind H; [|done]. injection H0 as <- <-.
  st_bind H; [|by injection H as _ <-]. injection H0 as Hroot <-.
  destruct (project_root (pm s) pid) as [root|] eqn:Er; [|done].
  destruct (open_root _ _ _ _ HI Er) as (_ & _ & st & Hst & _). by rw E in Hst.
Qed.

Lemma keeps_ensure_manifest pid : keeps (ensure_manifest pid).
Proof.
  unfold ensure_manifest. apply keeps_bind; [apply keeps_gets|intros m].
  destruct (manifests m !! pid); [apply keeps_ret|apply keeps_load_manifest].
Qed.

(** *** Noting versions *)

(** A successful save of a state that covers the log and the one in memory. *)
Lemma Inv_saved log s pid root st' uuid r w :
  Inv log s → normal root → real_dir (disk (world s)) root → vs_project_id st' = pid →
  covers log pid root st' →
  (∀ p st, projects (pm s) !! pid = Some p → version_states (pm s) !! pid = Some st → state_le st st') →
  state_save uuid st' root (world s) = (r, w) →
  Inv log (mk_State (pm s) w (state_cell s)) ∧
  (r = Ok () → ∃ b, disk w !! state_file root = Some (File b) ∧ from_slice b = Some st').
Proof.
  intros HI Hn Hr Hid Hcov Hle H.
  apply state_save_inv in H as (Hok & Hdirs & Hkeep & Hfile); [|done|apply HI|done].
  assert (Hnew : r = Ok () → ∃ b, disk w !! state_file root = Some (File b) ∧ from_slice b = Some st').
  { intros Hres. destruct (Hfile Hres) as (b & Hb & ?). exists b. split; [done|].
    by eapply from_slice_to_vec. }
  assert (Hst' : ∀ sd b, r = Ok () → disk w !! state_file root = Some (File b) → from_slice b = Some sd → sd = st').
  { intros sd b Hres Hb Hsd. destruct (Hnew Hres) as (b' & Hb' & ?). by simplify_eq. }
  split; [|done]. split; simpl; [done| |].
  - intros e pid' root' rel He Hk. destruct (inv_log _ _ HI e pid' root' rel He Hk) as (b & Hb & Hsd).
    destruct (Hkeep root') as [->|[Hres ->]]; [by exists b|].
    destruct (Hnew Hres) as (b' & Hb' & Hp'). exists b'. split; [done|].
    intros sd Hsd' Hid'. assert (sd = st') as -> by by eapply Hst'. rw Hid in Hid'. subst pid'.
    by apply Hcov.
  - intros pid' p' Hp'. destruct (inv_open _ _ HI pid' p' Hp') as (Hn' & Hr' & st2 & Hst2 & Hid2 & Hcov2 & Hper2).
    split_and!; [done|by eapply real_dir_mono|]. exists st2. split_and!; [done..|].
    destruct (Hkeep (root_path p')) as [->|[Hres Hroot']]; [done|]. rw Hroot'.
    destruct (Hnew Hres) as (b' & Hb' & Hp''). rw Hb'. simpl. intros sd Hsd Hidsd.
    assert (sd = st') as -> by by eapply Hst'. rw Hid in Hidsd. rw -Hidsd in Hid2. subst pid'.
    by eapply Hle.
Qed.

Lemma covers_app log new pid root st :
  covers (log ++ new) pid root st ↔ covers log pid root st ∧ covers new pid root st.
Proof. unfold covers. set_solver. Qed.

(** Logging versions that the state in memory of an open project covers. *)
Lemma Inv_log log new s pid root st :
  Inv log s → project_root (pm s) pid = Some root → version_states (pm s) !! pid = Some st →
  (∀ e, e ∈ new → ∃ rel, ev_key e = (pid, root, rel) ∧ (0 < ev_version e ≤ highest st rel)%N) →
  Inv (log ++ new) s.
Proof.
  intros HI Hroot Hst Hnew. destruct (open_root _ _ _ _ HI Hroot) as (Hn & Hr & st0 & Hst0 & Hid & Hcov & Hper).
  rw Hst in Hst0. injection Hst0 as <-. split; [apply HI| |].
  - intros e pid' root' rel [He|He]%elem_of_app Hk; [by apply (inv_log _ _ HI)|].
    destruct (Hnew e He) as (rel0 & Hk0 & Hv). rw Hk in Hk0. injection Hk0 as -> -> ->.
    unfold persisted_by in Hper. destruct (disk (world s) !! state_file root) as [[b| |t]|];
      try (specialize (Hper rel0); lia). exists b. split; [done|]. intros sd Hsd Hidsd.
    rw Hid in Hper. specialize (Hper sd Hsd Hidsd rel0). lia.
  - intros pid' p' Hp'. destruct (inv_open _ _ HI pid' p' Hp') as (Hn' & Hr' & st2 & Hst2 & Hid2 & Hcov2 & Hper2).
    split_and!; [done..|]. exists st2. split_and!; [done..| |done]. apply covers_app. split; [done|].
    intros e rel He Hk. destruct (Hnew e He) as (rel0 & Hk0 & Hv). rw Hk in Hk0.
    injection Hk0 as -> Hroot' ->. rw Hst in Hst2. injection Hst2 as <-. lia.
Qed.

Lemma note_versions_inv log s uuid pid vs r s' :
  Inv log s → note_versions_unlocked uuid pid vs s = (r, s') →
  Inv log s' ∧ projects (pm s') = projects (pm s) ∧ manifests (pm s') = manifests (pm s) ∧
  (r = Ok () → ∃ root st, project_root (pm s') pid = Some root ∧ version_states (pm s') !! pid = Some st ∧
     ∀ x, x ∈ vs → (0 < x.2 ≤ highest st x.1)%N ∧ (x.2 < u64_max)%N).
Proof.
  intros HI H. unfold note_versions_unlocked in H. st_bind H; [|done]. injection H0 as <- <-.
  st_bind H; [|by injection H as _ <-]. injection H0 as Hroot <-.
  destruct (project_root (pm s) pid) as [root|] eqn:Er; [|done]. injection Hroot as <-.
  st_bind H; [|by injection H as _ <-]. injection H0 as Hst <-.
  destruct (version_states (pm s) !! pid) as [st|] eqn:Est; [|done]. injection Hst as <-.
  st_bind H; [|by injection H as _ <-]. injection H0 as Hna <-. destruct a as [st' changed].
  apply note_all_inv in Hna as (Hid & Hle & Hall & Hsame).
  assert (Hvs : ∀ x, x ∈ vs → (0 < x.2 ≤ highest st' x.1)%N ∧ (x.2 < u64_max)%N).
  { intros [rel v] Hx. destruct (Hall rel v Hx) as [Hv ?]. unfold is_valid_entry in Hv.
    bool_to_prop. simpl. lia. }
  destruct (open_root _ _ _ _ HI Er) as (Hn & Hr & st0 & Hst0 & Hid0 & Hcov & Hper).
  rw Est in Hst0. injection Hst0 as <-.
  destruct changed.
  2:{ injection H as <- <-. destruct (Hsame eq_refl) as [-> _]. split_and!; [done..|].
      intros _. by exists root, st. }
  assert (Hsv : ∀ r0 w, state_save uuid st' root (world s) = (r0, w) →
    Inv log (mk_State (pm s) w (state_cell s)) ∧
    (r0 = Ok () → ∃ b, disk w !! state_file root = Some (File b) ∧ from_slice b = Some st')).
  { intros r0 w Hsv. eapply Inv_saved; [done..|by rw Hid| | |done].
    - intros e rel He Hk. specialize (Hcov e rel He Hk). specialize (Hle rel). lia.
    - intros p st2 _ Hst2. rw Est in Hst2. by injection Hst2 as <-. }
  st_bind H; unfold lift_io in *.
  2:{ destruct (state_save uuid st' root (world s)) as [r0 wd] eqn:E.
      destruct (Hsv _ _ eq_refl) as [HI1 _]. by injection H as _ <-. }
  destruct (state_save uuid st' root (world s)) as [r0 wd] eqn:E.
  destruct (Hsv _ _ eq_refl) as [HI1 Hb]. injection H0 as -> <-. destruct a.
  destruct (Hb eq_refl) as (b & Hb1 & Hb2). injection H as <- <-.
  split_and!; [|done..|].
  2:{ intros _. exists root, st'. cbn. rw lookup_insert_eq. split_and!; [done..|by apply Hvs]. }
  split; simpl; [apply HI1|apply HI1|]. intros pid' p' Hp'.
  destruct (inv_open _ _ HI1 pid' p' Hp') as (Hn' & Hr' & st2 & Hst2 & Hid2 & Hcov2 & Hper2).
  split_and!; [done..|]. destruct (decide (pid' = pid)) as [->|Hne].
  - exists st'. rw lookup_insert_eq. split_and!; [done|by rw Hid| |].
    + intros e rel He Hk. simpl in *. rw Est in Hst2. injection Hst2 as <-.
      specialize (Hcov2 e rel He Hk). specialize (Hle rel). lia.
    + unfold project_root in Er. rw Hp' in Er. injection Er as ->. simpl in *. rw Hb1. simpl.
      intros sd Hsd _. rw Hb2 in Hsd. by injection Hsd as <-.
  - exists st2. by rw lookup_insert_ne.
Qed.

Lemma project_root_same m m' pid : projects m' = projects m → project_root m' pid = project_root m pid.
Proof. unfold project_root. by intros ->. Qed.

Lemma store_manifest_inv log s uuid pid snapshot root r s' :
  Inv log s → project_root (pm s) pid = Some root →
  store_manifest uuid pid snapshot root s = (r, s') →
  Inv log s' ∧ projects (pm s') = projects (pm s) ∧ version_states (pm s') = version_states (pm s).
Proof.
  intros HI Hroot H. destruct (open_root _ _ _ _ HI Hroot) as (Hn & Hr & _).
  assert (Hsv : ∀ r0 w, manifest_save uuid snapshot root (world s) = (r0, w) →
    Inv log (mk_State (pm s) w (state_cell s))).
  { intros r0 w Hsv. apply manifest_save_inv in Hsv as (? & ? & _); [|done|apply HI|done].
    destruct s. by eapply Inv_same_state. }
  unfold store_manifest in H. st_bind H; unfold lift_io in *.
  2:{ destruct (manifest_save _ _ _ _) as [r0 wd] eqn:E. specialize (Hsv _ _ eq_refl).
      by injection H as _ <-. }
  destruct (manifest_save _ _ _ _) as [r0 wd] eqn:E. specialize (Hsv _ _ eq_refl).
  injection H0 as -> <-. injection H as <- <-. split; [|done].
  eapply Inv_view; [done| |done|done]. simpl. by eauto.
Qed.

Lemma bump_above_floor rel size crc publisher now floor m m' v :
  bump_at_least rel size crc publisher now floor m = (m', Bumped v) → (v < u64_max)%N → (floor < v)%N.
Proof.
  unfold bump_at_least. assert (Hs : (sat_add floor 1 < u64_max → floor < sat_add floor 1)%N).
  { unfold sat_add. lia. }
  destruct (files m !! rel) as [e|]; [destruct (_ && _); [done|]|]; intros [= _ <-]; lia.
Qed.

Definition log_step (log new : list event) : Prop :=
  ∀ e, e ∈ new → issued e = true →
    new = [e] ∧ ∀ e', e' ∈ log → ev_key e' = ev_key e → (ev_version e' < ev_version e)%N.

Lemma log_step_seen log pid root l : log_step log (seen_event pid root <$> l).
Proof. intros e He. apply list_elem_of_fmap in He as (x & -> & _). done. Qed.

Lemma log_step_nil log : log_step log [].
Proof. intros e He. by apply elem_of_nil in He. Qed.

(** A state that covers a list of noted versions covers their events. *)
Lemma Inv_seen log s pid root st l :
  Inv log s → project_root (pm s) pid = Some root → version_states (pm s) !! pid = Some st →
  (∀ x, x ∈ l → (0 < x.2 ≤ highest st x.1)%N ∧ (x.2 < u64_max)%N) →
  Inv (log ++ (seen_event pid root <$> l)) s.
Proof.
  intros HI Hr Hst Hl. eapply Inv_log; [done..|]. intros e He.
  apply list_elem_of_fmap in He as (x & -> & Hx). exists x.1. split; [done|]. by apply Hl.
Qed.

Lemma bump_file_version_inv log s now u1 u2 pid rel size crc publisher r s' :
  Inv log s → bump_file_version now u1 u2 pid rel size crc publisher s = (r, s') →
  Inv log s' ∧
  ∀ v, r = Ok (Bumped v) → ∃ root, project_root (pm s') pid = Some root ∧
    Inv (log ++ [mk_event true (pid, root, rel) v]) s' ∧
    ∀ e, e ∈ log → ev_key e = (pid, root, rel) → (ev_version e < v)%N.
Proof.
  intros HI H. unfold bump_file_version in H.
  st_bind H; [|by apply (keeps_ensure_manifest pid log) in H as [? _]].
  apply (keeps_ensure_manifest pid log) in H0 as [HI0 _]; [|done].
  st_bind H; [|by apply (keeps_ensure_version_state pid log) in H as [? _]].
  apply (keeps_ensure_version_state pid log) in H0 as [HI1 _]; [|done].
  st_bind H; [|done]. injection H0 as <- <-. st_bind H; [|by injection H as _ <-].
  injection H0 as Hroot <-. destruct (project_root (pm w0) pid) as [root|] eqn:Er; [|done].
  injection Hroot as <-. destruct (open_root _ _ _ _ HI1 Er) as (_ & _ & st & Hst & _ & Hcov & _).
  destruct (bump_at_least _ _ _ _ _ _ _) as [snap [v|v]] eqn:Eb; [|by injection H as <- <-].
  st_bind H; [|by apply (note_versions_inv log) in H as [? _]].
  apply (note_versions_inv log) in H0 as (HI2 & Hp2 & _ & Hv2); [|done].
  assert (Hroot2 : project_root (pm w1) pid = Some root) by (unfold project_root in *; by rw Hp2).
  st_bind H; [|by apply (store_manifest_inv log) in H as [? _]].
  apply (store_manifest_inv log) in H0 as (HI3 & Hp3 & Hv3); [|done..]. injection H as <- <-.
  split; [done|]. intros v' [= <-]. exists root. clear_units. destruct (Hv2 eq_refl) as (root' & st' & _ & Hst' & Hx).
  destruct (Hx (rel, v)) as [Hv Hlt]; [by left|]. simpl in Hv, Hlt.
  apply (project_root_same _ _ pid) in Hp3. rw Hroot2 in Hp3. split_and!; [done| |].
  - eapply Inv_log; [done..|by rw Hv3|]. intros e ->%list_elem_of_singleton. by exists rel.
  - intros e He Hk. specialize (Hcov e rel He Hk). apply bump_above_floor in Eb; [|done].
    unfold highest_confirmed_version in Eb. rw Hst in Eb. lia.
Qed.

Lemma record_received_inv log s now u1 u2 pid rel v size crc publisher force r s' :
  Inv log s → record_received_file now u1 u2 pid rel v size crc publisher force s = (r, s') →
  Inv log s' ∧
  ∀ b, r = Ok b → ∃ root, project_root (pm s') pid = Some root ∧
    Inv (log ++ (seen_event pid root <$> [(rel, v)])) s'.
Proof.
  intros HI H. unfold record_received_file in H.
  st_bind H; [|by apply (keeps_ensure_manifest pid log) in H as [? _]].
  apply (keeps_ensure_manifest pid log) in H0 as [HI0 _]; [|done].
  st_bind H; [|by apply (keeps_ensure_version_state pid log) in H as [? _]].
  apply (keeps_ensure_version_state pid log) in H0 as [HI1 _]; [|done].
  st_bind H; [|done]. injection H0 as <- <-. st_bind H; [|by injection H as _ <-].
  injection H0 as Hroot <-. destruct (project_root (pm w0) pid) as [root|] eqn:Er; [|done].
  injection Hroot as <-. st_bind H; [|by apply (note_versions_inv log) in H as [? _]].
  apply (note_versions_inv log) in H0 as (HI2 & Hp2 & _ & Hv2); [|done]. clear_units.
  destruct (Hv2 eq_refl) as (root' & st' & Hr' & Hst' & Hx).
  assert (Hroot2 : project_root (pm w1) pid = Some root) by (unfold project_root in *; by rw Hp2).
  destruct (record_received_with _ _ _ _ _ _ _ _) as [snap changed]. destruct changed.
  - st_bind H; [|by apply (store_manifest_inv log) in H as [? _]].
    apply (store_manifest_inv log) in H0 as (HI3 & Hp3 & Hv3); [|done..]. injection H as <- <-.
    split; [done|]. intros b _. exists root.
    apply (project_root_same _ _ pid) in Hp3. rw Hroot2 in Hp3. split; [done|]. eapply Inv_seen; [done..|by rw Hv3|done].
  - injection H as <- <-. split; [done|]. intros b _. exists root. split; [done|].
    by eapply Inv_seen.
Qed.

Lemma note_confirmed_inv log s uuid pid rel v r s' :
  Inv log s → note_confirmed_version uuid pid rel v s = (r, s') →
  Inv log s' ∧
  (r = Ok () → ∃ root, project_root (pm s') pid = Some root ∧
     Inv (log ++ (seen_event pid root <$> [(rel, v)])) s').
Proof.
  intros HI H. unfold note_confirmed_version in H.
  st_bind H; [|by apply (keeps_ensure_version_state pid log) in H as [? _]].
  apply (keeps_ensure_version_state pid log) in H0 as [HI1 _]; [|done].
  apply (note_versions_inv log) in H as (HI2 & _ & _ & Hv2); [|done]. split; [done|].
  intros Hr. destruct (Hv2 Hr) as (root & st & Hroot & Hst & Hx). exists root. split; [done|].
  by eapply Inv_seen.
Qed.

Lemma replace_manifest_inv log s u1 u2 pid man r s' :
  Inv log s → replace_manifest u1 u2 pid man s = (r, s') →
  Inv log s' ∧
  (r = Ok () → ∃ root, project_root (pm s') pid = Some root ∧
     Inv (log ++ (seen_event pid root <$> entry_versions (btree_iter (files man)))) s').
Proof.
  intros HI H. unfold replace_manifest in H. destruct (negb _); [by injection H as <- <-|].
  st_bind H; [|done]. injection H0 as <- <-. st_bind H; [|by injection H as _ <-].
  injection H0 as Hroot <-. destruct (project_root (pm s) pid) as [root|] eqn:Er; [|done].
  injection Hroot as <-.
  st_bind H; [|by apply (keeps_ensure_version_state pid log) in H as [? _]].
  apply (keeps_ensure_version_state pid log) in H0 as [HI1 Hp1]; [|done].
  st_bind H; [|by apply (note_versions_inv log) in H as [? _]].
  apply (note_versions_inv log) in H0 as (HI2 & Hp2 & _ & Hv2); [|done]. clear_units.
  destruct (Hv2 eq_refl) as (root' & st' & Hr' & Hst' & Hx).
  assert (Hroot2 : project_root (pm w0) pid = Some root) by (unfold project_root in *; by rw Hp2 Hp1).
  apply (store_manifest_inv log) in H as (HI3 & Hp3 & Hv3); [|done..]. split; [done|]. intros _.
  exists root. apply (project_root_same _ _ pid) in Hp3. rw Hroot2 in Hp3. split; [done|]. eapply Inv_seen; [done..|by rw Hv3|done].
Qed.

Lemma reload_manifest_inv log s uuid pid r s' :
  Inv log s → reload_manifest uuid pid s = (r, s') →
  Inv log s' ∧
  ∀ m, r = Ok m → ∃ root, project_root (pm s') pid = Some root ∧
     Inv (log ++ (seen_event pid root <$> entry_versions (btree_iter (files m)))) s'.
Proof.
  intros HI H. unfold reload_manifest in H.
  st_bind H; [|by apply (keeps_load_manifest pid log) in H as [? _]].
  apply (keeps_load_manifest pid log) in H0 as [HI1 Hp1]; [|done].
  unfold note_manifest_versions_unlocked in H. st_bind H.
  2:{ st_bind H; [|by apply (keeps_ensure_version_state pid log) in H as [? _]].
      apply (keeps_ensure_version_state pid log) in H0 as [HI2 _]; [|done].
      st_bind H; [|done]. injection H0 as <- <-. by apply (note_versions_inv log) in H as [? _]. }
  st_bind H0. apply (keeps_ensure_version_state pid log) in H1 as [HI2 _]; [|done].
  st_bind H0. injection H1 as <- <-.
  apply (note_versions_inv log) in H0 as (HI3 & _ & Hman & Hv); [|done]. injection H as <- <-.
  split; [done|]. intros m [= <-]. clear_units. destruct (Hv eq_refl) as (root & st & Hroot & Hst & Hx).
  exists root. split; [done|]. eapply Inv_seen; [done..|]. unfold manifest_entries, manifest_snapshot in *.
  rw Hman. destruct (manifests (pm w1) !! pid); [done|]. simpl. intros x Hin. exfalso.
  apply list_elem_of_fmap in Hin as ([k e] & _ & Hk). apply elem_of_btree_iter in Hk.
  by rw lookup_empty in Hk.
Qed.

(** *** Opening and closing *)
Lemma lift_as_inv {E A} (f : IoError → E) (m : IO A) s r s' :
  lift_as f m s = (r, s') →
  ∃ r0 w, m (world s) = (r0, w) ∧ r = map_err f r0 ∧ s' = mk_State (pm s) w (state_cell s).
Proof. unfold lift_as. destruct (m (world s)) as [r0 w]. intros [= <- <-]. by eexists _, _. Qed.

Ltac lift_bind H r w H1 Hr :=
  let H0 := fresh "H" in let a := fresh "a" in let s := fresh "s" in
  let e := fresh "e" in let Hres := fresh "Hres" in
  apply bind_inv in H as [(a & s & H0 & H)|(e & H & Hres)];
  [apply lift_as_inv in H0 as (r & w & H1 & Hr & ->)
  |apply lift_as_inv in H as (r & w & H1 & Hr & ->); subst].

Lemma Inv_disk_eq log s w cell :
  Inv log s → disk w = disk (world s) → Inv log (mk_State (pm s) w cell).
Proof. intros HI Hd. eapply Inv_view; [done|by eauto|done|done]. Qed.

(** A canonical path that is a directory is a physical one. *)
Lemma canonical_is_dir w w1 w2 root croot d :
  canonicalize root w = (Ok croot, w1) → is_dir croot w1 = (Ok d, w2) →
  disk w1 = disk w ∧ disk w2 = disk w ∧ normal croot ∧ (d = true → real_dir (disk w) croot).
Proof.
  intros H1 H2. apply query_inv in H1 as [E1 [H1|?]]; [|done].
  destruct (canonicalize_physical (disk w) root croot) as (Hn & Hp & Hx); [done|].
  unfold is_dir in H2. st_bind H2. apply try_inv in H as (r0 & H & [= ->]).
  apply query_inv in H as [E2 H]. injection H2 as <- <-. rw E2 E1. split_and!; [done..|].
  intros Hd. apply real_dir_parent; [done|]. destruct Hx as [?|[b Hb]]; [done|]. exfalso.
  destruct r0 as [[]|]; try done. destruct H as [H|?]; [|done]. unfold metadata_at in H.
  destruct croot as [|c croot _] using rev_ind; [done|]. rw parent_snoc in Hp. rw node_at_snoc in Hb.
  rw E1 canonicalize_entry // in H; [unfold normal in *; set_solver..|by rw Hb|].
  rw Hb in H. cbn [mbind result_bind] in H. rw node_at_snoc Hb in H. done.
Qed.

(** A state loaded from disk covers the log. *)
Lemma loaded_covers log s pid root st :
  Inv log s → vs_project_id st = pid →
  (disk (world s) !! state_file root = None ∧ st = new_state pid ∨
   ∃ b, disk (world s) !! state_file root = Some (File b) ∧ from_slice b = Some st) →
  covers log pid root st ∧ persisted_by st (disk (world s) !! state_file root).
Proof.
  intros HI Hid [[Hnone ->]|(b & Hb & Hs)].
  - split; [|by rw Hnone]. intros e rel He Hk. destruct (inv_log _ _ HI e pid root rel He Hk) as (b & Hb & _).
    by rw Hnone in Hb.
  - split.
    + intros e rel He Hk. destruct (inv_log _ _ HI e pid root rel He Hk) as (b' & Hb' & Hsd).
      rw Hb in Hb'. injection Hb' as <-. by apply Hsd.
    + rw Hb. simpl. intros sd Hsd _. rw Hs in Hsd. by injection Hsd as <-.
Qed.

Lemma Inv_insert_project log s pid p man st :
  Inv log s → normal (root_path p) → real_dir (disk (world s)) (root_path p) →
  vs_project_id st = pid → covers log pid (root_path p) st →
  persisted_by st (disk (world s) !! state_file (root_path p)) →
  Inv log (mk_State (insert_project pid p man st (pm s)) (world s) (state_cell s)).
Proof.
  intros HI Hn Hr Hid Hcov Hper. split; simpl; [apply HI..|]. intros pid' p' Hp'.
  destruct (decide (pid' = pid)) as [->|Hne].
  - rw lookup_insert_eq in Hp'. injection Hp' as <-. split_and!; [done..|].
    exists st. by rw lookup_insert_eq.
  - rw lookup_insert_ne // in Hp'. destruct (inv_open _ _ HI pid' p' Hp') as (? & ? & st2 & ?).
    split_and!; [done..|]. exists st2. by rw lookup_insert_ne.
Qed.

(** What loading a project establishes; it does not write. *)
Lemma load_project_inv log s pid root r s' :
  Inv log s → load_project pid root s = (r, s') →
  pm s' = pm s ∧ disk (world s') = disk (world s) ∧
  ∀ croot man st changed, r = Ok (croot, man, st, changed) →
    normal croot ∧ real_dir (disk (world s)) croot ∧ vs_project_id st = pid ∧ covers log pid croot st ∧
    (∀ x, x ∈ entry_versions (btree_iter (files man)) →
       (0 < x.2 ≤ highest st x.1)%N ∧ (x.2 < u64_max)%N) ∧
    (changed = false → persisted_by st (disk (world s) !! state_file croot)).
Proof.
  intros HI H. unfold load_project in H.
  lift_bind H r1 w1 H1 Hr1.
  2:{ destruct r1; [done|]. by apply query_inv in H1 as [? _]. }
  destruct r1 as [croot|]; [|done]. injection Hr1 as ->.
  assert (E1 : disk w1 = disk (world s)) by by apply query_inv in H1 as [? _].
  lift_bind H r2 w2 H2 Hr2.
  2:{ unfold is_dir in H2. st_bind H2; [by injection H2 as <- _|]. by apply try_inv in H2 as (? & _ & ?). }
  destruct r2 as [d|]; [|done]. injection Hr2 as ->. simpl in H2, H.
  destruct (canonical_is_dir _ _ _ _ _ _ H1 H2) as (_ & E2 & Hn & Hreal). clear H1 H2.
  destruct d; simpl in H; [|by injection H as <- <-]. specialize (Hreal eq_refl).
  lift_bind H r3 w3 H3 Hr3;
    apply manifest_load_disk in H3 as E3; simpl in E3; rw E2 in E3.
  2:{ done. }
  lift_bind H r4 w4 H4 Hr4;
    (apply state_load_inv in H4 as [E4 Hst]; [|done|simpl; rw E3; by apply HI|simpl; by rw E3]);
    simpl in E4, Hst; rw E3 in E4 Hst.
  2:{ done. }
  destruct r4 as [st0|]; [|done]. injection Hr4 as ->. destruct (Hst st0 eq_refl) as [Hid0 Hdisk0].
  destruct (loaded_covers log _ pid croot st0 HI Hid0 Hdisk0) as [Hcov0 Hper0].
  st_bind H; [|by injection H as _ <-]. injection H0 as Hna <-. destruct a0 as [st changed].
  destruct (note_all _ st0 false) as [[st' c']|] eqn:Ena; [|done]. injection Hna as -> ->.
  apply note_all_inv in Ena as (Hid & Hle & Hall & Hsame). injection H as <- <-.
  split_and!; [done..|]. intros ? ? ? ? [= <- <- <- <-]. split_and!; [done..|by rw Hid| | |].
  - intros e rel He Hk. specialize (Hcov0 e rel He Hk). specialize (Hle rel). lia.
  - intros [rel v] Hx. destruct (Hall rel v Hx) as [Hv ?]. unfold is_valid_entry in Hv.
    bool_to_prop. simpl. lia.
  - intros Hc. by destruct (Hsame Hc) as [-> _].
Qed.

(** Saving the project list touches neither the projects nor the disk. *)
Lemma ignore_save_state_inv s r s' :
  ignore save_state s = (r, s') → pm s' = pm s ∧ disk (world s') = disk (world s) ∧ r = Ok ().
Proof.
  intros (r0 & H & ->)%ignore_inv. unfold save_state in H.
  destruct (has_state_path (pm s)); [|by injection H as _ <-].
  destruct (to_vec _); [|by injection H as _ <-]. unfold next_fault in H.
  destruct (faults (world s)) as [|[] ?]; by injection H as _ <-.
Qed.

(** The conditional save of [open_project]. *)
Lemma save_if_changed log s pid root uuid st changed r s' :
  Inv log s → projects (pm s) !! pid = None → normal root → real_dir (disk (world s)) root →
  vs_project_id st = pid → covers log pid root st →
  (changed = false → persisted_by st (disk (world s) !! state_file root)) →
  (if changed then lift_as (λ _, PManifest) (state_save uuid st root) else mret ()) s = (r, s') →
  Inv log s' ∧ pm s' = pm s ∧ real_dir (disk (world s')) root ∧
  (r = Ok () → persisted_by st (disk (world s') !! state_file root)).
Proof.
  intros HI Hpid Hn Hr Hid Hcov Hper H. destruct changed.
  2:{ injection H as <- <-. split_and!; [done..|]. intros _. by apply Hper. }
  apply lift_as_inv in H as (r1 & w5 & Hs & -> & ->).
  assert (Hs' := Hs). apply state_save_inv in Hs' as (_ & Hd5 & _); [|done|apply HI|done].
  apply (Inv_saved log s pid) in Hs as [HI5 Hf]; [|done..|by rw Hpid].
  split_and!; [done..|by eapply real_dir_mono|]. intros Hr5. destruct r1 as [[]|]; [|done].
  destruct (Hf eq_refl) as (b & Hb & Hsd). simpl. rw Hb. simpl. intros sd Hsd' _.
  rw Hsd in Hsd'. by injection Hsd' as <-.
Qed.

Lemma open_project_inv log s now uuid pid root name r s' :
  Inv log s → open_project now uuid pid root name s = (r, s') →
  Inv (log ++ (if is_ok r then opened s s' pid else [])) s'.
Proof.
  intros HI H. unfold open_project in H.
  destruct (invalid_project_id pid); [injection H as <- <-; by rw app_nil_r|].
  st_bind H; [|done]. injection H0 as <- <-.
  destruct (projects (pm s) !! pid) as [p0|] eqn:Epid; [injection H as <- <-; by rw app_nil_r|].
  assert (Hload : ∀ r s', load_project pid root s = (r, s') → Inv log s').
  { intros r0 s0 H0. apply (load_project_inv log) in H0 as (Hp & Hd & _); [|done].
    eapply Inv_view; [done| |by rw Hp|done]. rw Hp. by eauto. }
  st_bind H; [|rw app_nil_r; by eapply Hload]. pose proof (Hload _ _ H0) as HI1.
  destruct a as [[[croot man] st] changed].
  apply (load_project_inv log) in H0 as (Hp1 & Hd1 & Hok); [|done].
  destruct (Hok _ _ _ _ eq_refl) as (Hn & Hr & Hid & Hcov & Hall & Hper). rw -Hd1 in Hr Hper.
  assert (Hsave := save_if_changed log w pid croot uuid st changed).
  st_bind H; [|destruct (Hsave _ _ HI1 ltac:(by rw Hp1) Hn Hr Hid Hcov Hper H) as [? _]; by rw app_nil_r].
  destruct (Hsave _ _ HI1 ltac:(by rw Hp1) Hn Hr Hid Hcov Hper H0) as (HI2 & Hp2 & Hr2 & Hper2).
  clear H0. clear_units. specialize (Hper2 eq_refl). st_bind H; [|done]. injection H0 as <- <-.
  apply (Inv_insert_project log w0 pid (mk_ManagedProject pid croot
    (mk_ProjectSettings (default pid name) "" Full 0) now []) man st) in HI2; [|done..].
  apply ignore_save_state_inv in H as (Hp3 & Hd3 & ->). simpl in Hp3, Hd3.
  unfold opened, manifest_entries. rw Epid Hp3. simpl. rw !lookup_insert_eq.
  eapply (Inv_seen _ _ _ _ st); [|unfold project_root; rw Hp3; by rw /= lookup_insert_eq
    |rw Hp3; by rw /= lookup_insert_eq|done].
  eapply Inv_view; [done| |by rw Hp3|done]. rw Hp3. by eauto.
Qed.

Lemma close_project_inv log s pid r s' : Inv log s → close_project pid s = (r, s') → Inv log s'.
Proof.
  intros HI H. unfold close_project in H. st_bind H; [|done]. injection H0 as <- <-.
  destruct (projects (pm s) !! pid) as [p|]; [|by injection H as _ <-].
  st_bind H; [|done]. injection H0 as <- <-.
  apply (keeps_ignore _ keeps_save_state log) in H as [? _]; [done|].
  split; simpl; [apply HI..|]. intros pid' p' Hp'.
  apply lookup_delete_Some in Hp' as [Hne Hp'].
  destruct (inv_open _ _ HI pid' p' Hp') as (? & ? & st & ?). split_and!; [done..|].
  exists st. by rw lookup_delete_ne.
Qed.

Lemma close_all_inv log s r s' : Inv log s → close_all s = (r, s') → Inv log s'.
Proof.
  intros HI H. unfold close_all in H. st_bind H; [|done]. injection H0 as <- <-.
  revert H. generalize ((map_iter (projects (pm s))).*1). intros l. revert s HI.
  induction l as [|pid l IH]; intros s HI H; cbn [for_each] in H; [by injection H as _ <-|].
  st_bind H; apply ignore_inv in H0 as (? & ? & ?) || apply ignore_inv in H as (? & ? & ?).
  - eapply IH; [|done]. by eapply close_project_inv.
  - by eapply close_project_inv.
Qed.

Lemma update_project_inv log s pid patch r s' :
  Inv log s → update_project pid patch s = (r, s') → Inv log s'.
Proof.
  intros HI H. unfold update_project in H. st_bind H; [|done]. injection H0 as <- <-.
  destruct (projects (pm s) !! pid) as [p|] eqn:Ep; [|by injection H as _ <-].
  st_bind H; [|done]. injection H0 as <- <-.
  apply (keeps_ignore _ keeps_save_state log) in H as [? _]; [done|].
  eapply Inv_view; [done| |done|done]. simpl. intros pid' p' Hp'.
  destruct (decide (pid' = pid)) as [->|Hne].
  - rw lookup_insert_eq in Hp'. injection Hp' as <-. by exists p.
  - rw lookup_insert_ne // in Hp'. by exists p'.
Qed.

Lemma keeps_create_invite now uuid pid e : keeps (create_invite now uuid pid e).
Proof.
  unfold create_invite. apply keeps_bind; [apply keeps_gets|intros m].
  destruct (projects m !! pid); [|apply keeps_throw].
  apply keeps_bind; [apply keeps_lift_result|intros ex].
  apply keeps_bind; [by apply keeps_with_pm|intros _; apply keeps_ret].
Qed.

Lemma keeps_consume_invite now tok : keeps (consume_invite now tok).
Proof.
  unfold consume_invite. apply keeps_bind; [apply keeps_gets|intros m].
  destruct (invites m !! tok) as [i|]; [|apply keeps_throw]. cbn zeta.
  destruct (match expires_at i with Some e => _ | None => _ end);
    [apply keeps_bind; [by apply keeps_with_pm|intros _; apply keeps_throw]|].
  destruct (uses_remaining i =? 0)%N;
    [apply keeps_bind; [by apply keeps_with_pm|intros _; apply keeps_throw]|].
  apply keeps_bind; [by apply keeps_with_pm|intros _].
  apply keeps_bind; [destruct (_ =? 0)%N; [by apply keeps_with_pm|apply keeps_ret]|intros _; apply keeps_ret].
Qed.

Lemma join_project_inv log s now uuid tok root r s' :
  Inv log s → join_project now uuid tok root s = (r, s') →
  Inv (log ++ (match r with Ok pid => opened s s' pid | Err _ => [] end)) s'.
Proof.
  intros HI H. unfold join_project in H.
  st_bind H; [|apply (keeps_consume_invite _ _ log) in H as [? _]; [by rw app_nil_r|done]].
  apply (keeps_consume_invite _ _ log) in H0 as [HI1 Hp1]; [|done].
  st_bind H; [|done]. injection H0 as <- <-.
  destruct (projects (pm w) !! a) as [p|] eqn:Ep.
  { injection H as <- <-. unfold opened. rw -Hp1 Ep. by rw app_nil_r. }
  st_bind H.
  - apply (open_project_inv log) in H0; [|done]. injection H as <- <-. simpl in H0.
    unfold opened in *. by rw Hp1 in H0.
  - by apply (open_project_inv log) in H.
Qed.

(** *** Every step *)
Lemma at_root_eq s pid f root : project_root (pm s) pid = Some root → at_root s pid f = f root.
Proof. unfold at_root. by intros ->. Qed.

Lemma run_op_inv log s o s' new :
  Inv log s → run_op o s = (s', new) → Inv (log ++ new) s' ∧ log_step log new.
Proof.
  intros HI H. destruct o; simpl in H;
    repeat match type of H with context [let '(_, _) := ?m ?s in _] =>
      let E := fresh "E" in destruct (m s) as [r s1] eqn:E end;
    injection H as <- <-; rw ?app_nil_r; try (split; [|apply log_step_nil]).
  - split; [by apply (open_project_inv log) in E|].
    destruct r; [|apply log_step_nil]. simpl. unfold opened.
    destruct (projects (pm s) !! project_id), (projects (pm s1) !! project_id);
      try apply log_step_nil; apply log_step_seen.
  - destruct (close_project project_id s) as [r s1] eqn:E. by eapply close_project_inv.
  - destruct (close_all s) as [r s1] eqn:E. by eapply close_all_inv.
  - destruct (update_project project_id patch s) as [r s1] eqn:E. by eapply update_project_inv.
  - eapply Inv_view; [done|by eauto|done|done].
  - apply (bump_file_version_inv log) in E as [HI1 Hv]; [|done].
    destruct r as [[v|v]|]; try (rw app_nil_r; split; [done|apply log_step_nil]).
    destruct (Hv v eq_refl) as (root & Hroot & HI2 & Hlt). rw (at_root_eq _ _ _ root) //.
    split; [done|]. intros e ->%list_elem_of_singleton _. by split; [|apply Hlt].
  - apply (record_received_inv log) in E as [HI1 Hv]; [|done].
    destruct r as [b|]; [|rw app_nil_r; split; [done|apply log_step_nil]].
    destruct (Hv b eq_refl) as (root & Hroot & HI2). simpl. rw (at_root_eq _ _ _ root) //.
    split; [done|]. apply (log_step_seen _ _ _ [(rel, v)]).
  - apply (reload_manifest_inv log) in E as [HI1 Hv]; [|done].
    destruct r as [b|]; [|rw app_nil_r; split; [done|apply log_step_nil]].
    destruct (Hv b eq_refl) as (root & Hroot & HI2). rw (at_root_eq _ _ _ root) //.
    split; [done|apply log_step_seen].
  - apply (replace_manifest_inv log) in E as [HI1 Hv]; [|done].
    destruct r as [[]|]; [|rw app_nil_r; split; [done|apply log_step_nil]].
    destruct (Hv eq_refl) as (root & Hroot & HI2). simpl. rw (at_root_eq _ _ _ root) //.
    split; [done|apply log_step_seen].
  - apply (note_confirmed_inv log) in E as [HI1 Hv]; [|done].
    destruct r as [[]|]; [|rw app_nil_r; split; [done|apply log_step_nil]].
    destruct (Hv eq_refl) as (root & Hroot & HI2). simpl. rw (at_root_eq _ _ _ root) //.
    split; [done|]. apply (log_step_seen _ _ _ [(rel, v)]).
  - destruct (create_invite _ _ _ _ s) as [r s1] eqn:E. by apply (keeps_create_invite _ _ _ _ log) in E as [? _].
  - split; [by apply (join_project_inv log) in E|].
    destruct r as [pid|]; [|apply log_step_nil]. unfold opened.
    destruct (projects (pm s) !! pid), (projects (pm s1) !! pid);
      try apply log_step_nil; apply log_step_seen.
  - eapply Inv_view; [done|by eauto|done|done].
  - split; simpl; [apply HI..|]. intros pid p. by rw lookup_empty.
Qed.

Lemma manager_step_inv log s new s' : Inv log s → step s new s' → Inv (log ++ new) s' ∧ log_step log new.
Proof.
  intros HI H. destruct H as [s o fs s' new H|s d cell Hok Hs].
  - eapply run_op_inv; [|done]. by apply Inv_disk_eq.
  - rw app_nil_r. split; [|apply log_step_nil]. destruct s. by eapply Inv_same_state.
Qed.
End invariant.

(** C5: version numbers are never reused.  In every history of a node that starts with
    no project open, whatever operations it runs, whatever writes and renames fail or are
    cut short, however often it stops and restarts, and whatever is checked out over the
    manifests in between, a version number that publishing a file issues is greater than
    every version of that file, in that project and root, that was issued before, seen in
    a manifest that was opened, reloaded or installed, or recorded from a transfer. *)
Theorem issued_versions_increase `{!Codec ProjectManifest, !Codec VersionState,
    !CodecLaws VersionState, !Codec PersistedState, !MapIter string ManagedProject}
    (s0 s : State) (log : list event) (i j : nat) (ei ej : event) :
  projects (pm s0) = ∅ → disk_ok (disk (world s0)) → history s0 log s →
  i < j → log !! i = Some ei → log !! j = Some ej →
  ev_key ei = ev_key ej → issued ej = true → (ev_version ei < ev_version ej)%N.
Proof.
  intros Hp Hd Hh Hij Hi Hj Hk Hiss.
  assert (HI : Inv log s ∧ ∀ i j ei ej, i < j → log !! i = Some ei → log !! j = Some ej →
    ev_key ei = ev_key ej → issued ej = true → (ev_version ei < ev_version ej)%N).
  { clear i j ei ej Hij Hi Hj Hk Hiss. induction Hh as [|log s new s' Hh [HI IH] Hs].
    - split; [|done]. split; [done| |rw Hp; intros pid p; by rw lookup_empty].
      intros e pid root rel He. by apply elem_of_nil in He.
    - destruct (manager_step_inv _ _ _ _ HI Hs) as [HI' Hnew]. split; [done|].
      intros i j ei ej Hij Hi Hj Hk Hiss. apply lookup_app_Some in Hj as [Hj|[Hle Hj]].
      + rw lookup_app_l in Hi; [apply lookup_lt_Some in Hj; lia|]. by eapply IH.
      + destruct (Hnew ej) as [Heq Hlt]; [by eapply list_elem_of_lookup_2|done|].
        subst new. apply list_lookup_singleton_Some in Hj as [Hj _].
        rw lookup_app_l in Hi; [lia|]. apply Hlt; [|done]. by eapply list_elem_of_lookup_2. }
  destruct HI as [_ HI]. by eapply HI.
Qed.

(** ** Invitations are used once *)
Section invites.
Context `{!Codec ProjectManifest, !Codec VersionState, !Codec PersistedState,
          !MapIter string ManagedProject}.

(** Computations that leave the manager alone. *)
Definition pure_pm {E A} (m : ST State E A) : Prop := ∀ s r s', m s = (r, s') → pm s' = pm s.

Lemma pure_pm_bind {E A B} (m : ST State E A) (f : A → ST State E B) :
  pure_pm m → (∀ a, pure_pm (f a)) → pure_pm (m ≫= f).
Proof. intros Hm Hf s r s' H. st_bind H; [apply Hf in H; apply Hm in H0; by rw H H0|by apply Hm in H]. Qed.
Lemma pure_pm_lift {E A} (f : IoError → E) (m : IO A) : pure_pm (lift_as f m).
Proof. intros s r s' (r0 & w & _ & _ & ->)%lift_as_inv. done. Qed.
Lemma pure_pm_result {E A} (x : result E A) : pure_pm (lift_result x : ST State E A).
Proof. by intros s r s' [= _ <-]. Qed.
Lemma pure_pm_ret {E A} (a : A) : pure_pm (mret a : ST State E A).
Proof. by intros s r s' [= _ <-]. Qed.

Lemma pure_pm_load_project pid root : pure_pm (load_project pid root).
Proof.
  unfold load_project. apply pure_pm_bind; [apply pure_pm_lift|intros croot].
  apply pure_pm_bind; [apply pure_pm_lift|intros d]. destruct d; [|by intros s r s' [= _ <-]].
  apply pure_pm_bind; [apply pure_pm_lift|intros man].
  apply pure_pm_bind; [apply pure_pm_lift|intros st].
  apply pure_pm_bind; [apply pure_pm_result|intros [st' changed]; apply pure_pm_ret].
Qed.

Lemma open_project_invites now uuid pid root name s r s' :
  open_project now uuid pid root name s = (r, s') → invites (pm s') = invites (pm s).
Proof.
  intros H. unfold open_project in H. destruct (invalid_project_id pid); [by injection H as _ <-|].
  st_bind H; [|done]. injection H0 as <- <-.
  destruct (projects (pm s) !! pid); [by injection H as _ <-|].
  st_bind H; [|by apply pure_pm_load_project in H as ->]. apply pure_pm_load_project in H0.
  destruct a as [[[croot man] st] changed].
  assert (Hs : pure_pm (E := ProjectError)
    (if changed then lift_as (λ _, PManifest) (state_save uuid st croot) else mret ())).
  { destruct changed; [apply pure_pm_lift|apply pure_pm_ret]. }
  st_bind H; [|by apply Hs in H; rw H H0]. apply Hs in H1. st_bind H; [|done]. injection H2 as <- <-.
  apply ignore_save_state_inv in H as (-> & _). simpl. by rw H1 H0.
Qed.

(** What [consume_invite] does to a token with one use left. *)
Lemma consume_invite_spec now tok s :
  (∀ i, invites (pm s) !! tok = Some i → uses_remaining i = 1%N) →
  let '(r, s') := consume_invite now tok s in
  invites (pm s') !! tok = None ∧ projects (pm s') = projects (pm s) ∧ world s' = world s ∧
  match invites (pm s) !! tok with
  | None => r = Err PInvalidInvite ∧ s' = s
  | Some i =>
      r = (if match expires_at i with Some e => (e <? now)%N | None => false end
           then Err PInviteExpired else Ok (invite_project_id i))
  end.
Proof.
  intros Huse. unfold consume_invite, mbind, ST_bind, gets.
  destruct (invites (pm s) !! tok) as [i|] eqn:Ei; [|by rw /= Ei].
  destruct (match expires_at i with Some e => (e <? now)%N | None => false end) eqn:Ex;
    cbn; [by rw lookup_delete_eq|].
  rw (Huse i eq_refl). change (1 - 1)%N with 0%N. cbn. by rw lookup_delete_eq.
Qed.

Lemma join_unknown now uuid tok root s :
  invites (pm s) !! tok = None → join_project now uuid tok root s = (Err PInvalidInvite, s).
Proof.
  intros H. unfold join_project, consume_invite, mbind, ST_bind, gets. by rw H.
Qed.

(** an invitation admits once and not after it has expired.  In a manager whose
    tokens have one use left, as [create_invite] makes them, a join with a token that is
    unknown, or whose expiry lies in the past, fails and opens nothing; and after any
    join with it the token is gone, so that a second join with it fails. *)
Theorem invite_single_use (now now' : N) (uuid uuid' tok : string) (root root' : path) (s s1 s2 : State)
    (r1 r2 : result ProjectError string) :
  (∀ i, invites (pm s) !! tok = Some i → uses_remaining i = 1%N) →
  join_project now uuid tok root s = (r1, s1) →
  join_project now' uuid' tok root' s1 = (r2, s2) →
  invites (pm s1) !! tok = None ∧ r2 = Err PInvalidInvite ∧ s2 = s1 ∧
  match invites (pm s) !! tok with
  | None => r1 = Err PInvalidInvite ∧ s1 = s
  | Some i =>
      match expires_at i with
      | Some e => (e < now)%N → r1 = Err PInviteExpired ∧ projects (pm s1) = projects (pm s) ∧
                    world s1 = world s
      | None => True
      end ∧ (∀ pid, r1 = Ok pid → pid = invite_project_id i)
  end.
Proof.
  intros Huse H1 H2. pose proof (consume_invite_spec now tok s Huse) as Hc.
  destruct (consume_invite now tok s) as [rc sc] eqn:Ec. destruct Hc as (Hgone & Hproj & Hworld & Hcase).
  unfold join_project in H1. st_bind H1; rw Ec in H || rw Ec in H1; simplify_eq.
  - (* the token was accepted *)
    assert (Hinv : invites (pm s1) = invites (pm w) ∧ ∀ pid, r1 = Ok pid → pid = a).
    { st_bind H1; [|done]. injection H as <- <-. destruct (projects (pm w) !! a).
      - injection H1 as <- <-. split; [done|]. by intros pid [= ->].
      - st_bind H1; [|by apply open_project_invites in H1].
        apply open_project_invites in H. injection H1 as <- <-. split; [done|]. by intros pid [= ->]. }
    destruct Hinv as [Hinv Hpid]. rw -Hinv in Hgone. rw join_unknown // in H2.
    injection H2 as <- <-. split_and!; [done..|].
    destruct (invites (pm s) !! tok) as [i|]; [|by destruct Hcase].
    destruct (expires_at i) as [e|]; [destruct (e <? now)%N eqn:Ex|]; simplify_eq;
      (split; [|intros pid ->; by apply Hpid]); [|done]. bool_to_prop. lia.
  - rw join_unknown // in H2. injection H2 as <- <-. split_and!; [done..|].
    destruct (invites (pm s) !! tok) as [i|]; [|by destruct Hcase as [[= ->] ->]].
    destruct (expires_at i) as [e'|]; [destruct (e' <? now)%N eqn:Ex|]; simplify_eq.
    split; [|done]. intros _. done.
Qed.
End invites.

(** ** A concrete history *)
Module ProjectWitness.
#[export] Existing Instance ManifestWitness.manifest_codec.
#[export] Existing Instance ManifestWitness.state_codec.
#[export] Existing Instance ManifestWitness.state_codec_laws.
#[export] Instance persisted_codec : Codec PersistedState :=
  {| to_vec _ := Some []; from_slice _ := Some [] |}.
#[export] Instance project_iter : MapIter string ManagedProject := toy_iter.

Definition s0 : State := mk_State (new_manager None true) (mk_World ManifestWitness.disk0 []) None.

(** One operation with the faults of the disk during it. *)
Definition after (s : State) (of_ : op * list (option nat)) : State * list event :=
  run_op of_.1 (mk_State (pm s) (mk_World (disk (world s)) of_.2) (state_cell s)).

Fixpoint run (s : State) (l : list (op * list (option nat))) : State * list event :=
  match l with
  | [] => (s, [])
  | o :: l' => let '(s1, e1) := after s o in let '(s2, e2) := run s1 l' in (s2, e1 ++ e2)
  end.

Lemma run_history s l : ∀ log s1, history s log s1 → history s (log ++ (run s1 l).2) (run s1 l).1.
Proof.
  induction l as [|o l IH]; intros log s1 Hh; cbn [run]; [by rw app_nil_r|].
  destruct (after s1 o) as [s2 e1] eqn:E1.
  assert (Hh2 : history s (log ++ e1) s2) by (econstructor; [done|by econstructor]).
  specialize (IH _ _ Hh2). destruct (run s2 l) as [s3 e2]. simpl in *. by rw app_assoc.
Qed.

(** Publishing version 1; a second publish whose manifest cannot be written, so that
    version 2 is lost; a crash; and a third publish, which issues version 3. *)
Definition ops : list (op * list (option nat)) :=
  [(OpOpen 10 "u1" "p" ["proj"] None, []);
   (OpBump 11 "u2" "u3" "p" "art/a.png" 5 77 "me", []);
   (OpBump 12 "u4" "u5" "p" "art/a.png" 6 78 "me",
      replicate 11 None ++ replicate 6 (Some 3));
   (OpRestart None true, []);
   (OpOpen 13 "u6" "p" ["proj"] None, []);
   (OpBump 14 "u7" "u8" "p" "art/a.png" 7 79 "me", [])].
End ProjectWitness.
Import (hints) ProjectWitness.

(** The lost version is skipped: 3 is issued after 1. *)
Lemma issued_versions_increase_witness :
  history ProjectWitness.s0 (ProjectWitness.run ProjectWitness.s0 ProjectWitness.ops).2
    (ProjectWitness.run ProjectWitness.s0 ProjectWitness.ops).1 ∧
  (ProjectWitness.run ProjectWitness.s0 ProjectWitness.ops).2 !! 2
    = Some (mk_event true ("p", ["proj"], "art/a.png") 3) ∧
  (1 < 3)%N.
Proof.
  assert (Hh : history ProjectWitness.s0 (ProjectWitness.run ProjectWitness.s0 ProjectWitness.ops).2
    (ProjectWitness.run ProjectWitness.s0 ProjectWitness.ops).1).
  { apply (ProjectWitness.run_history ProjectWitness.s0 ProjectWitness.ops [] ProjectWitness.s0).
    constructor. }
  assert (H0 : (ProjectWitness.run ProjectWitness.s0 ProjectWitness.ops).2 !! 0
    = Some (mk_event true ("p", ["proj"], "art/a.png") 1)) by (vm_compute; reflexivity).
  assert (H2 : (ProjectWitness.run ProjectWitness.s0 ProjectWitness.ops).2 !! 2
    = Some (mk_event true ("p", ["proj"], "art/a.png") 3)) by (vm_compute; reflexivity).
  split; [exact Hh|]. split; [exact H2|].
  refine (@issued_versions_increase _ _ ManifestWitness.state_codec_laws _ _ ProjectWitness.s0 _ _ 0 2
    (mk_event true ("p", ["proj"], "art/a.png") 1) (mk_event true ("p", ["proj"], "art/a.png") 3)
    eq_refl ManifestWitness.disk0_ok Hh _ H0 H2 eq_refl eq_refl). lia.
Defined.

Module InviteWitness.
Definition sent : State :=
  (create_invite 20 "tok" "p" (Some 60%N) (ProjectWitness.run ProjectWitness.s0 (take 1 ProjectWitness.ops)).1).2.
Definition joined := join_project 30 "u" "tok" ["proj"] sent.
End InviteWitness.

(** The first join succeeds, the second is refused. *)
Lemma invite_single_use_witness :
  InviteWitness.joined.1 = Ok "p" ∧
  (join_project 31 "u'" "tok" ["proj"] InviteWitness.joined.2).1 = Err PInvalidInvite.
Proof.
  split; [vm_compute; reflexivity|].
  assert (Hu : ∀ i, invites (pm InviteWitness.sent) !! "tok" = Some i → uses_remaining i = 1%N).
  { assert (Hi : invites (pm InviteWitness.sent) !! "tok" = Some (mk_InviteToken "tok" "p" (Some 80%N) 1))
      by (vm_compute; reflexivity).
    intros i. rw Hi. by intros [= <-]. }
  apply (@invite_single_use _ _ _ _ 30 31 "u" "u'" "tok" ["proj"] ["proj"] InviteWitness.sent
    InviteWitness.joined.2 (join_project 31 "u'" "tok" ["proj"] InviteWitness.joined.2).2
    InviteWitness.joined.1 (join_project 31 "u'" "tok" ["proj"] InviteWitness.joined.2).1 Hu
    (surjective_pairing _) (surjective_pairing _)).
Defined.
