(* ===== verification/Retention.v ===== *)
(** * The history index and its retention policy

    The index of [synergos-core/src/history/index.rs] as data, the retention policy of
    [synergos-core/src/history/gc.rs], the selection of versions to offload of
    [synergos-core/src/history/rotation/mod.rs], and the settings they read
    ([synergos-net/src/config.rs]).

    A [BTreeMap] is a finite map iterated in key order; a [BTreeSet] is a finite set that
    is listed in order at the end. *)

From S2P Require Import Prelude Manifest.

(** ** Settings *)
Inductive RotationBackendConfig :=
| BackendUnset
| BackendS3 (bucket prefix region : string)
| BackendLocalPath (bpath : string)
| BackendGdrive (folder_id credentials_file : string).

Record HistoryRotationConfig := mk_HistoryRotationConfig {
  rotation_enabled : bool;
  offload_after_days : N;
  interval_hours : N;
  backend : RotationBackendConfig;
}.

Record HistoryConfig := mk_HistoryConfig {
  enabled : bool;
  hc_projects : list string;
  hc_root : string;
  max_versions_per_file : N;
  max_age_days : N;
  max_bytes : N;
  rotation : HistoryRotationConfig;
}.

Definition config_covers (c : HistoryConfig) (project_id : string) : bool :=
  enabled c && existsb (λ p, bool_decide (p = "*") || bool_decide (p = project_id)) (hc_projects c).

(** ** The index *)
Record OffloadedRef := mk_OffloadedRef {
  off_backend : string;
  off_key : string;
  off_config : option RotationBackendConfig;
}.

Record IndexEntry := mk_IndexEntry {
  ie_hash : string;
  ie_size : N;
  ie_crc : N;
  stored_at : N;
  ie_publisher : string;
  ie_source : string;
  offloaded : option OffloadedRef;
}.

Record HistoryIndex := mk_HistoryIndex {
  ix_format : N;
  ix_project_id : string;
  entries : gmap string (gmap N IndexEntry);
}.

Global Instance RotationBackendConfig_eq_dec : EqDecision RotationBackendConfig.
Proof. solve_decision. Defined.
Global Instance OffloadedRef_eq_dec : EqDecision OffloadedRef.
Proof. solve_decision. Defined.
Global Instance IndexEntry_eq_dec : EqDecision IndexEntry.
Proof. solve_decision. Defined.
Global Instance HistoryIndex_eq_dec : EqDecision HistoryIndex.
Proof. solve_decision. Defined.

Definition new_index (project_id : string) : HistoryIndex := mk_HistoryIndex 1 project_id ∅.

Definition with_entries (m : gmap string (gmap N IndexEntry)) (ix : HistoryIndex) : HistoryIndex :=
  mk_HistoryIndex (ix_format ix) (ix_project_id ix) m.

Definition index_get (ix : HistoryIndex) (rel : string) (v : N) : option IndexEntry :=
  entries ix !! rel ≫= lookup v.

Definition index_insert (rel : string) (v : N) (e : IndexEntry) (ix : HistoryIndex) : HistoryIndex :=
  with_entries (<[rel := <[v := e]> (default ∅ (entries ix !! rel))]> (entries ix)) ix.

Definition index_remove (rel : string) (v : N) (ix : HistoryIndex) : HistoryIndex * option IndexEntry :=
  match entries ix !! rel with
  | None => (ix, None)
  | Some m =>
      let m' := delete v m in
      (with_entries (if bool_decide (m' = ∅) then delete rel (entries ix)
                     else <[rel := m']> (entries ix)) ix, m !! v)
  end.

(** [BTreeMap<u64, _>::iter]. *)
Definition version_iter {A} (m : gmap N A) : list (N * A) :=
  isort (λ a b, (a.1 <=? b.1)%N) (map_to_list m).

(** [iter_all]: by path, then by version. *)
Definition iter_all (ix : HistoryIndex) : list (string * N * IndexEntry) :=
  btree_iter (entries ix) ≫= λ '(rel, m), (λ '(v, e), (rel, v, e)) <$> version_iter m.

Definition referenced_hashes (ix : HistoryIndex) : gset string :=
  list_to_set ((λ '(_, _, e), ie_hash e) <$> iter_all ix).

Definition is_local (e : IndexEntry) : bool :=
  match offloaded e with None => true | Some _ => false end.

(** ** Retention *)
Abbreviation vkey := (string * N)%type.

Definition pair_leb (a b : vkey) : bool :=
  if bool_decide (a.1 = b.1) then (a.2 <=? b.2)%N else string_leb a.1 b.1.

(** The order of [(u64, String, u64)]. *)
Definition triple_leb (a b : N * string * N) : bool :=
  if (a.1.1 =? b.1.1)%N then pair_leb (a.1.2, a.2) (b.1.2, b.2) else (a.1.1 <? b.1.1)%N.

(** The versions of one file beyond the newest [keep_count] local ones. *)
Definition surplus (keep_count : nat) (m : gmap N IndexEntry) : list N :=
  drop keep_count
    (isort (λ a b, (b <=? a)%N) (fst <$> filter (λ x, is_local x.2 = true) (version_iter m))).

Definition count_victims (ix : HistoryIndex) (limit : N) (keep : list vkey) : gset vkey :=
  if (0 <? limit)%N then
    list_to_set (btree_iter (entries ix) ≫= λ '(rel, m),
      filter (λ k, k ∉ keep) ((λ v, (rel, v)) <$> surplus (N.to_nat limit) m))
  else ∅.

Definition age_cutoff (days now_ms : N) : N :=
  (now_ms - sat_mul (sat_mul (sat_mul (sat_mul days 24) 60) 60) 1000)%N.

Definition age_victims (ix : HistoryIndex) (days now_ms : N) (keep : list vkey) : gset vkey :=
  if (0 <? days)%N then
    list_to_set ((λ '(rel, v, _), (rel, v)) <$>
      filter (λ '(rel, v, e), is_local e && (stored_at e <? age_cutoff days now_ms)%N = true ∧ (rel, v) ∉ keep)
        (iter_all ix))
  else ∅.

(** [object_refs]: for each object of a version that stays, how many refer to it and its
    size. *)
Definition count_ref (victims : gset vkey) (refs : gmap string (nat * N))
    (x : string * N * IndexEntry) : gmap string (nat * N) :=
  let '(rel, v, e) := x in
  if negb (is_local e) || bool_decide ((rel, v) ∈ victims) then refs
  else
    match refs !! ie_hash e with
    | Some (count, size) => <[ie_hash e := (S count, size)]> refs
    | None => <[ie_hash e := (1, ie_size e)]> refs
    end.
Definition object_refs (ix : HistoryIndex) (victims : gset vkey) : gmap string (nat * N) :=
  foldl (count_ref victims) ∅ (iter_all ix).

Definition total_size (refs : gmap string (nat * N)) : N :=
  foldl (λ sum '(_, (_, size)), sat_add sum size) 0%N (btree_iter refs).

(** The local unprotected versions, oldest first. *)
Definition oldest_first (ix : HistoryIndex) (keep : list vkey) : list (N * string * N) :=
  isort triple_leb ((λ '(rel, v, e), (stored_at e, rel, v)) <$>
    filter (λ '(rel, v, e), is_local e = true ∧ (rel, v) ∉ keep) (iter_all ix)).

(** The loop of the capacity limit. *)
Fixpoint evict (ix : HistoryIndex) (limit : N) (oldest : list (N * string * N)) (total : N)
    (refs : gmap string (nat * N)) (victims : gset vkey) : gset vkey :=
  match oldest with
  | [] => victims
  | (_, rel, v) :: oldest' =>
      if (total <=? limit)%N then victims
      else if bool_decide ((rel, v) ∈ victims) then evict ix limit oldest' total refs victims
      else
        let victims := {[(rel, v)]} ∪ victims in
        match index_get ix rel v with
        | None => evict ix limit oldest' total refs victims
        | Some e =>
            match refs !! ie_hash e with
            | None => evict ix limit oldest' total refs victims
            | Some (count, size) =>
                evict ix limit oldest' (if (count - 1 =? 0)%nat then (total - size)%N else total)
                  (<[ie_hash e := (count - 1, size)]> refs) victims
            end
        end
  end.

Definition capacity_victims (ix : HistoryIndex) (limit : N) (keep : list vkey) (victims : gset vkey) :
    gset vkey :=
  if (0 <? limit)%N then
    let refs := object_refs ix victims in
    evict ix limit (oldest_first ix keep) (total_size refs) refs victims
  else victims.

Definition retention_set (ix : HistoryIndex) (c : HistoryConfig) (keep : list vkey) (now_ms : N) :
    gset vkey :=
  let victims := count_victims ix (max_versions_per_file c) keep in
  let victims := victims ∪ age_victims ix (max_age_days c) now_ms keep in
  capacity_victims ix (max_bytes c) keep victims.

Definition apply_retention (ix : HistoryIndex) (c : HistoryConfig) (keep : list vkey) (now_ms : N) :
    list vkey :=
  isort pair_leb (elements (retention_set ix c keep now_ms)).

(** ** Rotation *)
Definition select_candidates (ix : HistoryIndex) (offload_after_days now_ms : N) (keep : list vkey) :
    list vkey :=
  isort pair_leb ((λ '(rel, v, _), (rel, v)) <$>
    filter (λ '(rel, v, e),
        is_local e && (stored_at e <? age_cutoff offload_after_days now_ms)%N = true ∧ (rel, v) ∉ keep)
      (iter_all ix)).

Record OffloadedVersion := mk_OffloadedVersion {
  ov_rel : string;
  ov_version : N;
  ov_size : N;
  ov_backend : string;
  ov_key : string;
}.

Definition list_offloaded (ix : HistoryIndex) (rel : option string) : list OffloadedVersion :=
  omap (λ '(r, v, e),
    match offloaded e with
    | Some o => if match rel with None => true | Some want => bool_decide (want = r) end
                then Some (mk_OffloadedVersion r v (ie_size e) (off_backend o) (off_key o)) else None
    | None => None
    end) (iter_all ix).

(** ** The index as a set of versions *)
Lemma elem_of_version_iter {A} (m : gmap N A) v x : (v, x) ∈ version_iter m ↔ m !! v = Some x.
Proof. unfold version_iter. by rw isort_perm elem_of_map_to_list. Qed.

Lemma elem_of_iter_all ix rel v e : (rel, v, e) ∈ iter_all ix ↔ index_get ix rel v = Some e.
Proof.
  unfold iter_all, index_get. rw list_elem_of_bind. split.
  - intros ([r m] & Hin & Hm). apply elem_of_btree_iter in Hm.
    apply list_elem_of_fmap in Hin as ([v' e'] & [= -> -> ->] & Hv).
    apply elem_of_version_iter in Hv. by rw Hm.
  - intros (m & Hm & Hv)%bind_Some. exists (rel, m). split.
    + apply list_elem_of_fmap. exists (v, e). split; [done|]. by apply elem_of_version_iter.
    + by apply elem_of_btree_iter.
Qed.

Lemma NoDup_btree_iter {A} (m : gmap string A) : NoDup (btree_iter m).*1.
Proof. unfold btree_iter. rw (isort_perm _ (map_to_list m)). apply NoDup_fst_map_to_list. Qed.
Lemma NoDup_version_iter {A} (m : gmap N A) : NoDup (version_iter m).*1.
Proof. unfold version_iter. rw (isort_perm _ (map_to_list m)). apply NoDup_fst_map_to_list. Qed.

Definition key_of (x : string * N * IndexEntry) : vkey := x.1.

Lemma NoDup_iter_all ix : NoDup (key_of <$> iter_all ix).
Proof.
  unfold iter_all. pose proof (NoDup_btree_iter (entries ix)) as Hnd. revert Hnd.
  induction (btree_iter (entries ix)) as [|[rel m] l IH]; intros Hnd; [constructor|].
  apply NoDup_cons in Hnd as [Hrel Hnd]. rw bind_cons fmap_app. apply NoDup_app. split_and!.
  - rw -list_fmap_compose. pose proof (NoDup_version_iter m) as Hv. revert Hv.
    induction (version_iter m) as [|[v e] k IHk]; intros Hv; [constructor|].
    apply NoDup_cons in Hv as [Hv1 Hv2]. rw fmap_cons. apply NoDup_cons. split; [|by apply IHk].
    intros Hin. apply list_elem_of_fmap in Hin as ([v' e'] & [= <-] & Hin). apply Hv1.
    apply list_elem_of_fmap. by exists (v, e').
  - intros x Hx Hx'. apply list_elem_of_fmap in Hx as ([[r v] e] & -> & Hx).
    apply list_elem_of_fmap in Hx as ([v' e'] & [= -> -> ->] & _).
    apply list_elem_of_fmap in Hx' as ([[r v2] e2] & [= <- <-] & Hx').
    apply list_elem_of_bind in Hx' as ([r m'] & Hin & Hm). apply list_elem_of_fmap in Hin as ([] & [= <- _ _] & _).
    apply Hrel. apply list_elem_of_fmap. by exists (rel, m').
  - by apply IH.
Qed.

(** ** Who may be removed *)
Definition removable (ix : HistoryIndex) (keep : list vkey) (k : vkey) : Prop :=
  k ∉ keep ∧ ∃ e, index_get ix k.1 k.2 = Some e ∧ is_local e = true.

Lemma elem_of_surplus n m v :
  v ∈ surplus n m → ∃ e, m !! v = Some e ∧ is_local e = true.
Proof.
  unfold surplus. intros Hv. apply (subseteq_drop n) in Hv. rw isort_perm in Hv.
  apply list_elem_of_fmap in Hv as ([v' e] & -> & Hin).
  apply list_elem_of_filter in Hin as [Hl Hin]. apply elem_of_version_iter in Hin. by exists e.
Qed.

Lemma count_victims_removable ix limit keep k : k ∈ count_victims ix limit keep → removable ix keep k.
Proof.
  unfold count_victims. destruct (0 <? limit)%N; [|set_solver].
  rw elem_of_list_to_set list_elem_of_bind. intros ([rel m] & Hk & Hm).
  apply list_elem_of_filter in Hk as [Hkeep Hk]. apply list_elem_of_fmap in Hk as (v & -> & Hv).
  apply elem_of_btree_iter in Hm. apply elem_of_surplus in Hv as (e & He & Hl).
  split; [done|]. exists e. unfold index_get. simpl. by rw Hm.
Qed.

Lemma age_victims_iff ix days now keep rel v :
  (rel, v) ∈ age_victims ix days now keep ↔
  (0 < days)%N ∧ (rel, v) ∉ keep ∧
  ∃ e, index_get ix rel v = Some e ∧ is_local e = true ∧ (stored_at e < age_cutoff days now)%N.
Proof.
  unfold age_victims. destruct (0 <? days)%N eqn:Ed; bool_to_prop.
  - rw elem_of_list_to_set list_elem_of_fmap. split.
    + intros ([[r w] e] & [= -> ->] & Hin). apply list_elem_of_filter in Hin as [[Hb Hk] Hin].
      apply elem_of_iter_all in Hin. bool_to_prop. split_and!; [lia|done|]. by exists e.
    + intros (_ & Hk & e & He & Hl & Ha). exists (rel, v, e). split; [done|].
      apply list_elem_of_filter. split; [|by apply elem_of_iter_all]. split; [|done].
      rw Hl. by apply N.ltb_lt.
  - set_solver by lia.
Qed.

(** ** The capacity loop *)
Lemma elem_of_pos {A} (x : A) l : x ∈ l → 0 < length l.
Proof. destruct l; [by intros ?%elem_of_nil|simpl; lia]. Qed.

Lemma filter_ext_elem {A} (P Q : A → Prop) `{∀ x, Decision (P x), ∀ x, Decision (Q x)} (l : list A) :
  (∀ x, x ∈ l → P x ↔ Q x) → filter P l = filter Q l.
Proof.
  induction l as [|x l IH]; intros Hl; [done|]. rw !filter_cons.
  rw IH; [intros y Hy; apply Hl; by right|].
  destruct (decide (P x)) as [Hp|Hp], (decide (Q x)) as [Hq|Hq]; try done;
    exfalso; assert (P x ↔ Q x) by (apply Hl; left); tauto.
Qed.

Section capacity.
Context (ix : HistoryIndex) (limit : N).

(** The entries whose objects still count, and how many of them refer to an object. *)
Definition stays (victims : gset vkey) (x : string * N * IndexEntry) : Prop :=
  is_local x.2 = true ∧ key_of x ∉ victims.
Definition staying (victims : gset vkey) : list (string * N * IndexEntry) :=
  filter (stays victims) (iter_all ix).
Definition count_in (l : list (string * N * IndexEntry)) (h : string) (victims : gset vkey) : nat :=
  length (filter (λ x, stays victims x ∧ ie_hash x.2 = h) l).
Abbreviation refs_to := (count_in (iter_all ix)).

Definition weight (x : nat * N) : N := if (x.1 =? 0)%nat then 0%N else x.2.
Definition sum_N (l : list N) : N := foldr N.add 0%N l.
Definition live (refs : gmap string (nat * N)) : N := sum_N ((λ x, weight x.2) <$> map_to_list refs).

Lemma sum_N_perm l k : l ≡ₚ k → sum_N l = sum_N k.
Proof. induction 1; simpl; lia. Qed.

Lemma live_lookup refs h x : refs !! h = Some x → live refs = (weight x + live (delete h refs))%N.
Proof.
  intros Hx. unfold live. rw (sum_N_perm _ (weight x :: ((λ x, weight x.2) <$> map_to_list (delete h refs)))) //.
  rw -(map_to_list_delete _ _ _ Hx) //.
Qed.

Lemma live_insert refs h x : live (<[h := x]> refs) = (weight x + live (delete h refs))%N.
Proof. rw (live_lookup _ h x); [by rw lookup_insert_eq|]. by rw delete_insert_eq. Qed.

(** Local versions of one object have one size. *)
Definition sizes_agree : Prop := ∀ x y, x ∈ iter_all ix → y ∈ iter_all ix →
  is_local x.2 = true → is_local y.2 = true → ie_hash x.2 = ie_hash y.2 → ie_size x.2 = ie_size y.2.

Definition refs_ok (l : list (string * N * IndexEntry)) (refs : gmap string (nat * N)) (victims : gset vkey) : Prop :=
  ∀ h, match refs !! h with
       | None => count_in l h victims = 0
       | Some (c, s) => c = count_in l h victims ∧
           ∃ x, x ∈ l ∧ is_local x.2 = true ∧ ie_hash x.2 = h ∧ ie_size x.2 = s
       end.

Lemma count_in_snoc l x h victims :
  count_in (l ++ [x]) h victims =
    count_in l h victims + (if decide (stays victims x ∧ ie_hash x.2 = h) then 1 else 0).
Proof.
  unfold count_in. rw filter_app length_app filter_cons. by destruct (decide _).
Qed.

(** One more entry is counted. *)
Lemma count_ref_ok l x refs victims :
  refs_ok l refs victims → refs_ok (l ++ [x]) (count_ref victims refs x) victims.
Proof.
  intros Hok h. rw count_in_snoc. destruct x as [[rel v] e]. specialize (Hok h).
  assert (Hweak : ∀ s, (∃ x, x ∈ l ∧ is_local x.2 = true ∧ ie_hash x.2 = h ∧ ie_size x.2 = s) →
    ∃ x, x ∈ l ++ [(rel, v, e)] ∧ is_local x.2 = true ∧ ie_hash x.2 = h ∧ ie_size x.2 = s).
  { intros s (x & Hx & ?). exists x. split; [apply elem_of_app; by left|done]. }
  unfold count_ref. destruct (negb (is_local e) || _) eqn:E.
  - rw decide_False; [|rw Nat.add_0_r; destruct (refs !! h) as [[c s]|]; [|done]; destruct Hok; auto].
    unfold stays. simpl. intros [[Hl Hk] _]. rw Hl bool_decide_eq_false_2 // in E.
  - bool_to_prop. assert (Hst : stays victims (rel, v, e)) by done.
    destruct (decide (h = ie_hash e)) as [->|Hne].
    + rw decide_True; [done|]. destruct (refs !! ie_hash e) as [[c s]|] eqn:Er; rw lookup_insert_eq.
      * destruct Hok as [-> ?]. split; [lia|]. by apply Hweak.
      * rw Hok. split; [done|]. exists (rel, v, e). split; [apply elem_of_app; right; left|done].
    + rw decide_False; [|rw Nat.add_0_r]; [simpl; naive_solver|].
      destruct (refs !! ie_hash e) as [[c s]|] eqn:Er; rw lookup_insert_ne //;
        (destruct (refs !! h) as [[c' s']|]; [|done]; destruct Hok; auto).
Qed.

Lemma object_refs_ok victims : refs_ok (iter_all ix) (object_refs ix victims) victims.
Proof.
  unfold object_refs. induction (iter_all ix) as [|x l IH] using rev_ind.
  - intros h. by rw lookup_empty.
  - rw foldl_app. by apply count_ref_ok.
Qed.

(** One entry less. *)
Lemma count_in_remove l x h victims :
  NoDup (key_of <$> l) → x ∈ l → stays victims x →
  count_in l h ({[key_of x]} ∪ victims) =
    count_in l h victims - (if decide (ie_hash x.2 = h) then 1 else 0).
Proof.
  intros Hnd Hx Hst.
  assert (Hnone : ∀ l, key_of x ∉ key_of <$> l → count_in l h ({[key_of x]} ∪ victims) = count_in l h victims).
  { intros k Hk. unfold count_in. f_equal. apply filter_ext_elem. intros y Hy.
    assert (key_of y ≠ key_of x) by (intros Heq; apply Hk; apply list_elem_of_fmap; by exists y).
    unfold stays. set_solver. }
  induction l as [|y l IH]; [by apply elem_of_nil in Hx|].
  rw fmap_cons in Hnd. apply NoDup_cons in Hnd as [Hy Hnd].
  unfold count_in in *. rw !filter_cons. apply elem_of_cons in Hx as [->|Hx].
  - rw (decide_False (P := stays _ y ∧ _)); [unfold stays; set_solver|]. rw Hnone //.
    destruct (decide (ie_hash y.2 = h)); [rw decide_True //|rw decide_False; [naive_solver|]]; simpl; lia.
  - assert (Hne : key_of y ≠ key_of x).
    { intros Heq. apply Hy. rw Heq. apply list_elem_of_fmap. by exists x. }
    specialize (IH Hnd Hx).
    assert (Hpos : (if decide (ie_hash x.2 = h) then 1 else 0) ≤
      length (filter (λ x, stays victims x ∧ ie_hash x.2 = h) l)).
    { destruct (decide (ie_hash x.2 = h)) as [Hh|]; [|lia].
      assert (Hin : x ∈ filter (λ x, stays victims x ∧ ie_hash x.2 = h) l) by by apply list_elem_of_filter.
      by apply elem_of_pos in Hin. }
    destruct (decide (stays victims y ∧ ie_hash y.2 = h)) as [Hd|Hd].
    + rw decide_True; [unfold stays in *; set_solver|]. simpl. rw IH. lia.
    + rw decide_False; [unfold stays in *; set_solver|]. by rw IH.
Qed.

(** The keys of a list of candidates. *)
Definition keys (l : list (N * string * N)) : gset vkey := list_to_set ((λ t, (t.1.2, t.2)) <$> l).

Lemma evict_spec oldest total refs victims :
  refs_ok (iter_all ix) refs victims → total = live refs →
  (∀ t rel v, (t, rel, v) ∈ oldest → ∃ e, index_get ix rel v = Some e ∧ is_local e = true) →
  ∃ k refs', k ≤ length oldest ∧
    evict ix limit oldest total refs victims = victims ∪ keys (take k oldest) ∧
    refs_ok (iter_all ix) refs' (victims ∪ keys (take k oldest)) ∧
    ((live refs' ≤ limit)%N ∨ k = length oldest).
Proof.
  revert total refs victims. induction oldest as [|[[t rel] v] oldest IH]; intros total refs victims Hok -> Hent.
  { exists 0, refs. unfold keys. simpl. rw right_id_L. by eauto. }
  cbn [evict]. destruct (live refs <=? limit)%N eqn:El; bool_to_prop.
  { exists 0, refs. unfold keys. simpl. rw right_id_L. split_and!; [lia|done..|by left]. }
  assert (Hent' : ∀ t rel v, (t, rel, v) ∈ oldest → ∃ e, index_get ix rel v = Some e ∧ is_local e = true).
  { intros t' rel' v' Hin. eapply Hent. by right. }
  destruct (Hent t rel v) as (e & He & Hl); [by left|].
  assert (Hstep : ∀ k, victims ∪ keys (take (S k) ((t, rel, v) :: oldest)) =
                       ({[(rel, v)]} ∪ victims) ∪ keys (take k oldest)).
  { intros k. unfold keys. cbn [take fmap list_fmap list_to_set]. set_solver. }
  case_bool_decide as Hin.
  { destruct (IH (live refs) refs victims Hok eq_refl Hent') as (k & refs' & Hk & Hv & Hok' & Hend).
    assert (Heq : {[(rel, v)]} ∪ victims = victims) by set_solver.
    exists (S k), refs'. rw Hstep Heq. split_and!; [simpl; lia|done..|].
    destruct Hend as [?| ->]; [by left|by right]. }
  assert (Hx : (rel, v, e) ∈ iter_all ix) by by apply elem_of_iter_all.
  assert (Hst : stays victims (rel, v, e)) by done.
  pose proof (λ h, count_in_remove (iter_all ix) (rel, v, e) h victims (NoDup_iter_all ix) Hx Hst) as Hcount.
  cbn [key_of fst snd] in Hcount. rw He. pose proof (Hok (ie_hash e)) as Hh.
  destruct (refs !! ie_hash e) as [[c s]|] eqn:Er.
  2:{ exfalso. unfold count_in in Hh. apply length_zero_iff_nil in Hh.
      assert (Hin' : (rel, v, e) ∈ filter (λ x, stays victims x ∧ ie_hash x.2 = ie_hash e) (iter_all ix))
        by by apply list_elem_of_filter. rw Hh in Hin'. by apply elem_of_nil in Hin'. }
  destruct Hh as [Hc Hs].
  assert (Hpos : 0 < c).
  { rw Hc. unfold count_in.
    assert (Hin' : (rel, v, e) ∈ filter (λ x, stays victims x ∧ ie_hash x.2 = ie_hash e) (iter_all ix))
      by by apply list_elem_of_filter.
    by apply elem_of_pos in Hin'. }
  destruct (IH (if (c - 1 =? 0)%nat then (live refs - s)%N else live refs)
    (<[ie_hash e := (c - 1, s)]> refs) ({[(rel, v)]} ∪ victims)) as (k & refs' & Hk & Hv & Hok' & Hend); [| |done|].
  - intros h. rw Hcount. destruct (decide (ie_hash e = h)) as [<-|Hne].
    + rw lookup_insert_eq. split; [by rw Hc|done].
    + rw lookup_insert_ne // Nat.sub_0_r. apply Hok.
  - rw live_insert (live_lookup _ _ _ Er). unfold weight. simpl.
    destruct (c - 1 =? 0)%nat eqn:E1, (c =? 0)%nat eqn:E2; bool_to_prop; lia.
  - exists (S k), refs'. rw Hstep. split_and!; [simpl; lia|done..|].
    destruct Hend as [?| ->]; [by left|by right].
Qed.

(** *** The size of the store

    The specification: the sum of the sizes of the objects that local versions outside
    [victims] refer to, each object once. *)
Definition object_size (h : string) : N :=
  match find_first (λ x, is_local x.2 && bool_decide (ie_hash x.2 = h)) (iter_all ix) with
  | Some x => ie_size x.2
  | None => 0%N
  end.
Definition objects (victims : gset vkey) : gset string :=
  list_to_set ((λ x, ie_hash x.2) <$> staying victims).
Definition store_size (victims : gset vkey) : N := sum_N (object_size <$> elements (objects victims)).

Lemma object_size_eq x :
  sizes_agree → x ∈ iter_all ix → is_local x.2 = true → object_size (ie_hash x.2) = ie_size x.2.
Proof.
  intros Hag Hx Hl. unfold object_size.
  destruct (find_first _ _) as [y|] eqn:E.
  - apply find_first_Some in E as [Hy Hp]. bool_to_prop. by apply Hag.
  - rw find_first_None in E. specialize (E x Hx). by rw Hl bool_decide_eq_true_2 in E.
Qed.

Lemma sum_N_filter (l : list (string * (nat * N))) :
  sum_N ((λ x, weight x.2) <$> l) = sum_N ((λ x, x.2.2) <$> filter (λ x, x.2.1 ≠ 0) l).
Proof.
  induction l as [|[h [c s]] l IH]; [done|]. rw filter_cons fmap_cons. cbn [sum_N foldr].
  unfold sum_N in IH. rw IH. unfold weight. cbn [fst snd].
  destruct c as [|c].
  - destruct (decide (0 ≠ 0)) as [Hc|]; [by destruct Hc|]. by unfold sum_N.
  - destruct (decide (S c ≠ 0)) as [|Hc]; [by unfold sum_N|]. by destruct Hc.
Qed.

Lemma live_store_size refs victims :
  sizes_agree → refs_ok (iter_all ix) refs victims → live refs = store_size victims.
Proof.
  intros Hag Hok. unfold live, store_size. rw sum_N_filter.
  set (L := filter (λ x : string * (nat * N), x.2.1 ≠ 0) (map_to_list refs)).
  assert (HL : ∀ h c s, (h, (c, s)) ∈ L ↔ refs !! h = Some (c, s) ∧ c ≠ 0).
  { intros h c s. unfold L. rw list_elem_of_filter elem_of_map_to_list /=. tauto. }
  assert (Hsz : (λ x : string * (nat * N), x.2.2) <$> L = object_size <$> L.*1).
  { rw -list_fmap_compose. apply list_fmap_ext. intros i [h [c s]] Hi. simpl.
    apply list_elem_of_lookup_2, HL in Hi as [Hi _]. specialize (Hok h). rw Hi in Hok.
    destruct Hok as (_ & x & Hx & Hl & <- & <-). symmetry. by apply object_size_eq. }
  rw Hsz. apply sum_N_perm, Permutation_map, NoDup_Permutation.
  - unfold L. eapply sublist_NoDup; [apply (NoDup_fst_map_to_list refs)|].
    apply fmap_sublist, sublist_filter.
  - apply NoDup_elements.
  - intros h. rw elem_of_elements. unfold objects. rw elem_of_list_to_set !list_elem_of_fmap.
    specialize (Hok h). split.
    + intros ([h' [c s]] & -> & Hin). apply HL in Hin as [Hh Hc]. simpl in *. rw Hh in Hok.
      destruct Hok as [-> _]. unfold count_in in Hc.
      destruct (filter (λ x, stays victims x ∧ ie_hash x.2 = h') (iter_all ix)) as [|x l] eqn:Ef; [done|].
      assert (Hx : x ∈ filter (λ x, stays victims x ∧ ie_hash x.2 = h') (iter_all ix)) by (rw Ef; left).
      apply list_elem_of_filter in Hx as [[Hst <-] Hx]. exists x. split; [done|].
      by apply list_elem_of_filter.
    + intros (x & -> & Hx). apply list_elem_of_filter in Hx as [Hst Hx].
      assert (Hin : x ∈ filter (λ y, stays victims y ∧ ie_hash y.2 = ie_hash x.2) (iter_all ix))
        by by apply list_elem_of_filter.
      apply elem_of_pos in Hin. destruct (refs !! ie_hash x.2) as [[c s]|] eqn:Er.
      * destruct Hok as [-> _]. exists (ie_hash x.2, (count_in (iter_all ix) (ie_hash x.2) victims, s)).
        split; [done|]. apply HL. unfold count_in in *. split; [done|lia].
      * unfold count_in in Hok. lia.
Qed.

Lemma sum_N_submseteq l k : l ⊆+ k → (sum_N l ≤ sum_N k)%N.
Proof. induction 1; simpl; lia. Qed.

Lemma store_size_mono v1 v2 : v1 ⊆ v2 → (store_size v2 ≤ store_size v1)%N.
Proof.
  intros Hv. unfold store_size. apply sum_N_submseteq, fmap_submseteq, NoDup_submseteq; [apply NoDup_elements|].
  intros h. rw !elem_of_elements. unfold objects, staying. rw !elem_of_list_to_set !list_elem_of_fmap.
  intros (x & -> & Hx). exists x. split; [done|]. apply list_elem_of_filter in Hx as [[Hl Hk] Hx].
  apply list_elem_of_filter. split; [|done]. unfold stays. set_solver.
Qed.

Lemma object_refs_pos victims h c s : object_refs ix victims !! h = Some (c, s) → c ≠ 0.
Proof.
  unfold object_refs. revert h c s. induction (iter_all ix) as [|[[rel v] e] l IH] using rev_ind; intros h c s.
  { by rw lookup_empty. }
  rw foldl_app. cbn [foldl count_ref]. destruct (_ || _); [apply IH|].
  destruct (_ !! ie_hash e) as [[c' s']|] eqn:E; destruct (decide (h = ie_hash e)) as [->|];
    rw ?lookup_insert_eq ?lookup_insert_ne //; try apply IH; by intros [= <- _].
Qed.

Lemma total_size_sum (l : list (string * (nat * N))) acc :
  (acc ≤ u64_max)%N →
  foldl (λ sum '(_, (_, size)), sat_add sum size) acc l
    = N.min (acc + sum_N ((λ x, x.2.2) <$> l)) u64_max.
Proof.
  revert acc. induction l as [|[h [c s]] l IH]; intros acc Hacc; cbn [foldl].
  - unfold sum_N. simpl. lia.
  - rw IH; [apply sat_add_u64|]. rw fmap_cons. unfold sat_add. simpl. lia.
Qed.

Lemma total_size_live refs :
  (∀ h c s, refs !! h = Some (c, s) → c ≠ 0) → (live refs ≤ u64_max)%N → total_size refs = live refs.
Proof.
  intros Hpos Hle. unfold total_size. rw total_size_sum; [done|]. rw N.add_0_l.
  assert (Heq : sum_N ((λ x, x.2.2) <$> btree_iter refs) = live refs); [|by rw Heq; lia].
  unfold live. rw (sum_N_perm ((λ x : string * (nat * N), x.2.2) <$> btree_iter refs)
    ((λ x, x.2.2) <$> map_to_list refs)); [apply Permutation_map, isort_perm|].
  f_equal. apply list_fmap_ext. intros i [h [c s]] Hi. unfold weight. simpl.
  apply list_elem_of_lookup_2, elem_of_map_to_list, Hpos in Hi. by destruct c.
Qed.
End capacity.

(** ** The newest versions of a file *)
Definition newer_local (m : gmap N IndexEntry) (v : N) : nat :=
  length (filter (λ x, is_local x.2 = true ∧ (v < x.1)%N) (version_iter m)).

Definition local_versions (m : gmap N IndexEntry) : list N :=
  isort (λ a b, (b <=? a)%N) (fst <$> filter (λ x, is_local x.2 = true) (version_iter m)).

Lemma desc_total (x y : N) : (y <=? x)%N = false → (x <=? y)%N = true.
Proof. rw N.leb_gt N.leb_le. lia. Qed.
Lemma desc_trans (x y z : N) : (y <=? x)%N = true → (z <=? y)%N = true → (z <=? x)%N = true.
Proof. rw !N.leb_le. lia. Qed.

Lemma NoDup_local_versions m : NoDup (local_versions m).
Proof.
  unfold local_versions. rw (isort_perm _ (fst <$> filter _ (version_iter m))).
  eapply sublist_NoDup; [apply (NoDup_version_iter m)|]. apply fmap_sublist, sublist_filter.
Qed.

Lemma newer_local_sorted m v : newer_local m v = length (filter (λ w, (v < w)%N) (local_versions m)).
Proof.
  unfold newer_local, local_versions. rw (isort_perm _ (fst <$> filter _ (version_iter m))).
  induction (version_iter m) as [|[w e] l IH]; [done|]. rw !filter_cons. simpl.
  destruct (decide (is_local e = true)) as [Hl|Hl].
  - rw fmap_cons filter_cons. simpl. destruct (decide (v < w)%N).
    + rw decide_True //=. by rw IH.
    + rw decide_False; [naive_solver|]. by rw IH.
  - rw decide_False; [naive_solver|]. done.
Qed.

(** A local version is surplus when [n] local versions are newer. *)
Lemma surplus_iff n m v e :
  m !! v = Some e → is_local e = true → v ∈ surplus n m ↔ n ≤ newer_local m v.
Proof.
  intros Hv Hl. rw newer_local_sorted. unfold surplus. fold (local_versions m).
  pose proof (NoDup_local_versions m) as Hnd.
  assert (Hin : v ∈ local_versions m).
  { unfold local_versions. rw isort_perm. apply list_elem_of_fmap. exists (v, e). split; [done|].
    apply list_elem_of_filter. split; [done|]. by apply elem_of_version_iter. }
  assert (Hle : ∀ x y, x ∈ take n (local_versions m) → y ∈ drop n (local_versions m) → (y ≤ x)%N).
  { intros x y Hx Hy. apply N.leb_le.
    apply (isort_take_least (λ a b : N, (b <=? a)%N) desc_total desc_trans n
      (fst <$> filter (λ x, is_local x.2 = true) (version_iter m)) x y Hx Hy). }
  rw -{2}(take_drop n (local_versions m)) filter_app length_app.
  rw -(take_drop n (local_versions m)) in Hnd Hin. apply NoDup_app in Hnd as (_ & Hdis & _).
  set (T := take n (local_versions m)) in *. set (D := drop n (local_versions m)) in *.
  split.
  - intros HD. assert (HT : filter (λ w, (v < w)%N) T = T).
    { clear Hdis Hin. assert (Hall : ∀ x, x ∈ T → (v < x)%N).
      { intros x Hx. specialize (Hle x v Hx HD). assert (x ≠ v); [|lia]. intros ->.
        pose proof (NoDup_local_versions m) as Hnd. rw -(take_drop n (local_versions m)) in Hnd.
        apply NoDup_app in Hnd as (_ & Hdis & _). by apply (Hdis v). }
      induction T as [|x T IH]; [done|]. rw filter_cons decide_True; [apply Hall; left|].
      f_equal. apply IH; [intros y z Hy; apply Hle; by right|intros y Hy; apply Hall; by right]. }
    rw HT. apply elem_of_pos in HD. unfold T, D in *. rw length_take. rw length_drop in HD. lia.
  - intros Hn. apply elem_of_app in Hin as [HT|HD]; [exfalso|done].
    assert (HD : filter (λ w, (v < w)%N) D = []).
    { destruct (filter (λ w, (v < w)%N) D) as [|w l] eqn:E; [done|].
      assert (Hw : w ∈ filter (λ w, (v < w)%N) D) by (rw E; left).
      apply list_elem_of_filter in Hw as [Hlt Hw]. specialize (Hle v w HT Hw). lia. }
    rw HD in Hn. simpl in Hn.
    assert (Hlt : length (filter (λ w, (v < w)%N) T) < length T).
    { clear -HT. induction T as [|x T IH]; [by apply elem_of_nil in HT|]. rw filter_cons.
      assert (Hmono : length (filter (λ w, (v < w)%N) T) ≤ length T) by apply length_filter.
      apply elem_of_cons in HT as [->|HT].
      - rw decide_False; [lia|]. simpl. lia.
      - specialize (IH HT). destruct (decide _); simpl; lia. }
    assert (HTn : length T ≤ n) by (unfold T; rw length_take; lia). lia.
Qed.

Lemma count_victims_iff ix limit keep rel m v e :
  entries ix !! rel = Some m → m !! v = Some e → is_local e = true →
  (rel, v) ∈ count_victims ix limit keep ↔
  (0 < limit)%N ∧ (rel, v) ∉ keep ∧ N.to_nat limit ≤ newer_local m v.
Proof.
  intros Hm Hv Hl. rw -(surplus_iff _ _ _ _ Hv Hl). unfold count_victims.
  destruct (0 <? limit)%N eqn:E; bool_to_prop; [|set_solver by lia].
  rw elem_of_list_to_set list_elem_of_bind. split.
  - intros ([rel' m'] & Hk & Hm'). apply elem_of_btree_iter in Hm'.
    apply list_elem_of_filter in Hk as [Hkeep Hk]. apply list_elem_of_fmap in Hk as (v' & [= <- <-] & Hv').
    rw Hm in Hm'. by injection Hm' as <-.
  - intros (_ & Hkeep & Hs). exists (rel, m). split; [|by apply elem_of_btree_iter].
    apply list_elem_of_filter. split; [done|]. apply list_elem_of_fmap. by exists v.
Qed.

(** ** The policy *)
(** [pair_leb] and [triple_leb] are total preorders. *)
Lemma string_leb_antisymm a b : string_leb a b = true → string_leb b a = true → a = b.
Proof. intros H1 H2. apply as_bytes_inj. by apply bytes_leb_antisymm. Qed.
Lemma pair_leb_spec x y :
  pair_leb x y = true ↔ x.1 = y.1 ∧ (x.2 ≤ y.2)%N ∨ x.1 ≠ y.1 ∧ string_leb x.1 y.1 = true.
Proof.
  unfold pair_leb. destruct (bool_decide (x.1 = y.1)) eqn:E; bool_to_prop; rw ?N.leb_le; naive_solver.
Qed.
Lemma pair_leb_total x y : pair_leb x y = false → pair_leb y x = true.
Proof.
  intros H. apply pair_leb_spec. destruct (decide (x.1 = y.1)) as [E|E].
  - left. split; [done|]. destruct (decide (y.2 ≤ x.2)%N); [done|]. exfalso.
    assert (pair_leb x y = true); [|congruence]. apply pair_leb_spec. left. split; [done|lia].
  - right. split; [done|]. destruct (string_leb x.1 y.1) eqn:E2; [|by apply bytes_leb_total].
    assert (pair_leb x y = true); [|congruence]. apply pair_leb_spec. by right.
Qed.
Lemma pair_leb_trans x y z : pair_leb x y = true → pair_leb y z = true → pair_leb x z = true.
Proof.
  rw !pair_leb_spec. intros [[E1 H1]|[E1 H1]] [[E2 H2]|[E2 H2]].
  - left. split; [congruence|lia].
  - right. by rw E1.
  - right. by rw -E2.
  - assert (H3 : string_leb x.1 z.1 = true) by by eapply bytes_leb_trans.
    destruct (decide (x.1 = z.1)) as [E3|E3]; [|by right]. exfalso. apply E1.
    apply string_leb_antisymm; [done|]. by rw E3.
Qed.
Lemma triple_leb_total x y : triple_leb x y = false → triple_leb y x = true.
Proof.
  unfold triple_leb. destruct (x.1.1 =? y.1.1)%N eqn:E; rw N.eqb_sym E; [apply pair_leb_total|].
  bool_to_prop. rw N.ltb_ge N.ltb_lt. lia.
Qed.
Lemma triple_leb_trans x y z : triple_leb x y = true → triple_leb y z = true → triple_leb x z = true.
Proof.
  unfold triple_leb. destruct (x.1.1 =? y.1.1)%N eqn:E1, (y.1.1 =? z.1.1)%N eqn:E2; bool_to_prop.
  - rw (proj2 (N.eqb_eq x.1.1 z.1.1)); [lia|]. apply pair_leb_trans.
  - intros _ H. bool_to_prop. rw (proj2 (N.eqb_neq x.1.1 z.1.1)); [lia|]. apply N.ltb_lt. lia.
  - intros H _. bool_to_prop. rw (proj2 (N.eqb_neq x.1.1 z.1.1)); [lia|]. apply N.ltb_lt. lia.
  - intros H1 H2. bool_to_prop. rw (proj2 (N.eqb_neq x.1.1 z.1.1)); [lia|]. apply N.ltb_lt. lia.
Qed.

Lemma elem_of_oldest_first ix keep t rel v :
  (t, rel, v) ∈ oldest_first ix keep ↔
  (rel, v) ∉ keep ∧ ∃ e, index_get ix rel v = Some e ∧ is_local e = true ∧ stored_at e = t.
Proof.
  unfold oldest_first. rw isort_perm list_elem_of_fmap. split.
  - intros ([[r w] e] & [= -> -> ->] & Hin). apply list_elem_of_filter in Hin as [[Hl Hk] Hin].
    apply elem_of_iter_all in Hin. split; [done|]. by exists e.
  - intros (Hk & e & He & Hl & <-). exists (rel, v, e). split; [done|].
    apply list_elem_of_filter. split; [done|]. by apply elem_of_iter_all.
Qed.

Lemma elem_of_keys l rel v : (rel, v) ∈ keys l ↔ ∃ t, (t, rel, v) ∈ l.
Proof.
  unfold keys. rw elem_of_list_to_set list_elem_of_fmap. split.
  - intros ([[t r] w] & [= -> ->] & Hin). by exists t.
  - intros [t Hin]. by exists (t, rel, v).
Qed.

(** Whatever the totals, the loop removes a prefix of the candidates. *)
Lemma evict_prefix ix limit l total refs victims :
  ∃ k, k ≤ length l ∧ evict ix limit l total refs victims = victims ∪ keys (take k l).
Proof.
  revert total refs victims. induction l as [|[[t rel] v] l IH]; intros total refs vs; cbn [evict].
  { exists 0. unfold keys. simpl. by rw right_id_L. }
  destruct (total <=? limit)%N.
  { exists 0. unfold keys. simpl. rw right_id_L. split; [lia|done]. }
  assert (Hstep : ∀ k vs', vs' = {[(rel, v)]} ∪ vs → vs' ∪ keys (take k l) =
    vs ∪ keys (take (S k) ((t, rel, v) :: l))).
  { intros k vs' ->. unfold keys. cbn [take fmap list_fmap list_to_set]. set_solver. }
  case_bool_decide as Hin.
  - destruct (IH total refs vs) as (k & Hk & ->). exists (S k). split; [simpl; lia|].
    apply Hstep. set_solver.
  - destruct (index_get ix rel v) as [e|]; [destruct (refs !! ie_hash e) as [[c s]|]|];
      match goal with |- ∃ _, _ ∧ evict _ _ _ ?t ?r ?w = _ =>
        destruct (IH t r w) as (k & Hk & ->) end;
      exists (S k); (split; [simpl; lia|by apply Hstep]).
Qed.

Lemma capacity_victims_spec ix limit keep victims :
  ∃ k, k ≤ length (oldest_first ix keep) ∧
    capacity_victims ix limit keep victims = victims ∪ keys (take k (oldest_first ix keep)) ∧
    (0 < k → (0 < limit)%N) ∧
    ((0 < limit)%N → sizes_agree ix → (store_size ix victims ≤ u64_max)%N →
      (store_size ix (capacity_victims ix limit keep victims) ≤ limit)%N ∨ k = length (oldest_first ix keep)).
Proof.
  unfold capacity_victims. destruct (0 <? limit)%N eqn:El; bool_to_prop.
  2:{ exists 0. unfold keys. simpl. rw right_id_L. split_and!; [lia|done|lia|lia]. }
  assert (Hent : ∀ t rel v, (t, rel, v) ∈ oldest_first ix keep →
    ∃ e, index_get ix rel v = Some e ∧ is_local e = true).
  { intros t rel v Hin. apply elem_of_oldest_first in Hin as (_ & e & ? & ? & _). by exists e. }
  destruct (decide (total_size (object_refs ix victims) = live (object_refs ix victims))) as [Heq|Hne].
  - destruct (evict_spec ix limit (oldest_first ix keep) _ _ victims (object_refs_ok ix victims) Heq Hent)
      as (k & refs' & Hk & Hv & Hok & Hend).
    exists k. split_and!; [done..|]. intros _ Hag _. rw Hv.
    destruct Hend as [Hend|?]; [left|by right]. by rw -(live_store_size ix refs').
  - (* the sum saturates: the loop still removes a prefix *)
    destruct (evict_prefix ix limit (oldest_first ix keep) (total_size (object_refs ix victims))
      (object_refs ix victims) victims) as (k & Hk & Hv). exists k. split_and!; [done..|].
    intros _ Hag Hle. exfalso. apply Hne. apply total_size_live; [apply object_refs_pos|].
    by rw (live_store_size ix _ victims Hag (object_refs_ok ix victims)).
Qed.

Lemma elem_of_apply_retention ix c keep now k :
  k ∈ apply_retention ix c keep now ↔ k ∈ retention_set ix c keep now.
Proof. unfold apply_retention. by rw isort_perm elem_of_elements. Qed.

Lemma retention_removable ix c keep now k : k ∈ apply_retention ix c keep now → removable ix keep k.
Proof.
  rw elem_of_apply_retention. unfold retention_set.
  destruct (capacity_victims_spec ix (max_bytes c) keep
    (count_victims ix (max_versions_per_file c) keep ∪ age_victims ix (max_age_days c) now keep))
    as (n & _ & -> & _). destruct k as [rel v].
  intros [[Hin|Hin]%elem_of_union|Hin]%elem_of_union.
  - by eapply count_victims_removable.
  - apply age_victims_iff in Hin as (_ & ? & e & ? & ? & _). split; [done|]. by exists e.
  - apply elem_of_keys in Hin as [t Ht]. apply (subseteq_take n) in Ht.
    apply elem_of_oldest_first in Ht as (? & e & ? & ? & _). split; [done|]. by exists e.
Qed.

(** what the retention policy removes.  A version it removes is not protected, is in
    the index and is held locally (an offloaded version is never dropped); and it goes for
    a reason: as many local versions of its file as the limit allows are newer; or it was
    stored before the retention period; or a capacity limit is set, and every unprotected
    local version stored before it goes too. *)
Theorem retention_removes_only (ix : HistoryIndex) (c : HistoryConfig) (keep : list vkey) (now : N)
    (rel : string) (v : N) :
  (rel, v) ∈ apply_retention ix c keep now →
  (rel, v) ∉ keep ∧
  ∃ m e, entries ix !! rel = Some m ∧ m !! v = Some e ∧ is_local e = true ∧
    ((0 < max_versions_per_file c ≤ N.of_nat (newer_local m v))%N ∨
     (0 < max_age_days c)%N ∧ (stored_at e < age_cutoff (max_age_days c) now)%N ∨
     (0 < max_bytes c)%N ∧
       ∀ rel' v' e', index_get ix rel' v' = Some e' → is_local e' = true → (rel', v') ∉ keep →
         (stored_at e' < stored_at e)%N → (rel', v') ∈ apply_retention ix c keep now).
Proof.
  rw elem_of_apply_retention. intros Hin. unfold retention_set in Hin.
  set (v0 := count_victims _ _ _ ∪ age_victims _ _ _ _) in Hin.
  destruct (capacity_victims_spec ix (max_bytes c) keep v0) as (k & Hk & Hv & Hpos & _).
  assert (Hget : ∀ e, index_get ix rel v = Some e → ∃ m, entries ix !! rel = Some m ∧ m !! v = Some e).
  { intros e (m & Hm & ?)%bind_Some. by exists m. }
  assert (Hr : retention_set ix c keep now = v0 ∪ keys (take k (oldest_first ix keep))) by exact Hv.
  rw Hv in Hin. unfold v0 in Hin. apply elem_of_union in Hin as [[Hin|Hin]%elem_of_union|Hin].
  - pose proof (count_victims_removable _ _ _ _ Hin) as (Hkeep & e & He & Hl). simpl in He.
    destruct (Hget e He) as (m & Hm & Hmv). split; [done|]. exists m, e. split_and!; [done..|]. left.
    apply (count_victims_iff _ _ _ _ _ _ _ Hm Hmv Hl) in Hin as (? & _ & ?). lia.
  - apply age_victims_iff in Hin as (Hd & Hkeep & e & He & Hl & Ha). destruct (Hget e He) as (m & Hm & Hmv).
    split; [done|]. exists m, e. split_and!; [done..|]. right. by left.
  - apply elem_of_keys in Hin as [t Ht].
    assert (Ht' : (t, rel, v) ∈ oldest_first ix keep) by (by apply (subseteq_take k) in Ht).
    apply elem_of_oldest_first in Ht' as (Hkeep & e & He & Hl & <-).
    destruct (Hget e He) as (m & Hm & Hmv). split; [done|]. exists m, e. split_and!; [done..|].
    right. right. split; [apply Hpos; destruct k; [by apply elem_of_nil in Ht|lia]|].
    intros rel' v' e' He' Hl' Hk' Hlt. rw elem_of_apply_retention Hr. apply elem_of_union_r, elem_of_keys.
    exists (stored_at e').
    assert (Hy : (stored_at e', rel', v') ∈ oldest_first ix keep).
    { apply elem_of_oldest_first. split; [done|]. by exists e'. }
    rw -(take_drop k (oldest_first ix keep)) in Hy. apply elem_of_app in Hy as [?|Hy]; [done|]. exfalso.
    pose proof (isort_take_least triple_leb triple_leb_total triple_leb_trans k _ _ _ Ht Hy) as Hle.
    unfold triple_leb in Hle. simpl in Hle. destruct (_ =? _)%N eqn:E; bool_to_prop; lia.
Qed.

(** the limits of the retention policy hold afterwards.  When the sizes recorded for
    one object agree and the store's size fits a [u64], then, of the local versions that
    are neither removed nor protected, each has fewer newer local versions in its file
    than the limit, and none was stored before the retention period; and the objects that
    the remaining local versions refer to fit the capacity, each counted once, or only
    protected versions remain. *)
Theorem retention_meets_limits (ix : HistoryIndex) (c : HistoryConfig) (keep : list vkey) (now : N) :
  sizes_agree ix → (store_size ix ∅ ≤ u64_max)%N →
  let gone := list_to_set (apply_retention ix c keep now) : gset vkey in
  (∀ rel m v e, entries ix !! rel = Some m → m !! v = Some e → is_local e = true →
     (rel, v) ∉ gone → (rel, v) ∉ keep →
     ((0 < max_versions_per_file c)%N → (N.of_nat (newer_local m v) < max_versions_per_file c)%N) ∧
     ((0 < max_age_days c)%N → (age_cutoff (max_age_days c) now ≤ stored_at e)%N)) ∧
  ((0 < max_bytes c)%N →
     (store_size ix gone ≤ max_bytes c)%N ∨
     ∀ rel v e, index_get ix rel v = Some e → is_local e = true → (rel, v) ∉ gone → (rel, v) ∈ keep).
Proof.
  intros Hag Hfit gone.
  assert (Hgone : gone = retention_set ix c keep now).
  { apply leibniz_equiv. intros k. unfold gone. by rw elem_of_list_to_set elem_of_apply_retention. }
  rw Hgone. clear gone Hgone. unfold retention_set.
  set (v0 := count_victims _ _ _ ∪ age_victims _ _ _ _).
  destruct (capacity_victims_spec ix (max_bytes c) keep v0) as (k & Hk & Hv & _ & Hcap). split.
  - intros rel m v e Hm Hmv Hl Hgone Hkeep. rw Hv in Hgone. unfold v0 in Hgone. split.
    + intros Hpos. destruct (decide (N.to_nat (max_versions_per_file c) ≤ newer_local m v)); [|lia].
      exfalso. apply Hgone. do 2 apply elem_of_union_l. by eapply count_victims_iff.
    + intros Hpos. destruct (decide (stored_at e < age_cutoff (max_age_days c) now)%N); [|lia].
      exfalso. apply Hgone. apply elem_of_union_l, elem_of_union_r, age_victims_iff.
      split_and!; [done..|]. exists e. unfold index_get. by rw Hm.
  - intros Hpos. destruct (Hcap Hpos Hag) as [?|Hall].
    + pose proof (store_size_mono ix ∅ v0). assert (∅ ⊆ v0) by set_solver. specialize (H H0). lia.
    + by left.
    + right. intros rel v e He Hl Hgone. destruct (decide ((rel, v) ∈ keep)); [done|]. exfalso.
      apply Hgone. rw Hv. apply elem_of_union_r, elem_of_keys. exists (stored_at e).
      rw take_ge; [lia|]. apply elem_of_oldest_first. split; [done|]. by exists e.
Qed.

(** ** A concrete index: three versions of one file, the last two with one content. *)
Module RetentionWitness.
Definition entry (h : string) (size t : N) : IndexEntry := mk_IndexEntry h size 0 t "me" "published" None.
Definition ix : HistoryIndex :=
  index_insert "a" 3 (entry "h2" 50 30) (index_insert "a" 2 (entry "h2" 50 20)
    (index_insert "a" 1 (entry "h1" 70 10) (new_index "p"))).
Definition config : HistoryConfig :=
  mk_HistoryConfig true ["*"] ".synergos/history" 2 0 60
    (mk_HistoryRotationConfig false 90 24 BackendUnset).

Lemma ix_sizes_agree : sizes_agree ix.
Proof.
  assert (Hall : forallb (λ x, forallb (λ y, negb (bool_decide (ie_hash x.2 = ie_hash y.2))
    || bool_decide (ie_size x.2 = ie_size y.2)) (iter_all ix)) (iter_all ix) = true) by (vm_compute; reflexivity).
  intros x y Hx Hy _ _ Hh. rw forallb_forall in Hall. specialize (Hall x (proj1 (list_elem_of_In _ _) Hx)).
  rw forallb_forall in Hall. specialize (Hall y (proj1 (list_elem_of_In _ _) Hy)).
  rw bool_decide_eq_true_2 // in Hall. simpl in Hall. by bool_to_prop.
Qed.
End RetentionWitness.

(** Version 1 goes: two newer versions are kept. *)
Lemma retention_removes_only_witness :
  apply_retention RetentionWitness.ix RetentionWitness.config [("a", 3%N)] 100 = [("a", 1%N)] ∧
  ("a", 1%N) ∉ [("a", 3%N)].
Proof.
  assert (H : apply_retention RetentionWitness.ix RetentionWitness.config [("a", 3%N)] 100 = [("a", 1%N)])
    by (vm_compute; reflexivity).
  split; [exact H|].
  apply (@retention_removes_only RetentionWitness.ix RetentionWitness.config [("a", 3%N)] 100 "a" 1).
  rw H. left.
Defined.

(** Afterwards the 50 bytes of the shared object fit the limit of 60. *)
Lemma retention_meets_limits_witness :
  store_size RetentionWitness.ix ∅ = 120%N ∧
  ((store_size RetentionWitness.ix
      (list_to_set (apply_retention RetentionWitness.ix RetentionWitness.config [("a", 3%N)] 100)) ≤ 60)%N ∨
   ∀ rel v e, index_get RetentionWitness.ix rel v = Some e → is_local e = true →
     (rel, v) ∉ (list_to_set (apply_retention RetentionWitness.ix RetentionWitness.config [("a", 3%N)] 100)
                  : gset vkey) → (rel, v) ∈ [("a", 3%N)]).
Proof.
  assert (Hs : store_size RetentionWitness.ix ∅ = 120%N) by (vm_compute; reflexivity).
  split; [exact Hs|].
  refine (proj2 (@retention_meets_limits RetentionWitness.ix RetentionWitness.config [("a", 3%N)] 100
    RetentionWitness.ix_sizes_agree _) _); [rw Hs; unfold u64_max; lia|reflexivity].
Defined.
