(* ===== verification/FsPlain.v ===== *)
(** * Paths without links

    Under a path that meets no symbolic link every operation of [Fs] acts on the entry the
    path spells.  The rules here say what each operation may do to such an entry; they are
    stated for [wp], with every failure the fault stream can cause. *)

From S2P Require Import Prelude Fs Manifest.

(** No component is [..] and no prefix is a link. *)
Record plain (fs : Fs) (p : path) : Prop := {
  plain_normal : normal p;
  plain_nolink : ∀ n t, fs !! take n p ≠ Some (Symlink t);
}.

(** Entries have a parent directory. *)
Definition tree_wf (fs : Fs) : Prop := ∀ p c n, fs !! (p ++ [c]) = Some n → node_at fs p = Some Dir.

(** One entry set or removed. *)
Abbreviation edit d p o := (partial_alter (λ _, o) p d).

Lemma plain_snoc_ne fs p c : plain fs (p ++ [c]) → c ≠ "..".
Proof. intros [Hn _] ->. apply Hn. set_solver. Qed.

Lemma plain_take fs p n : plain fs p → plain fs (take n p).
Proof.
  intros [Hn Hl]. split; [by apply normal_take|]. intros m t. rw take_take. apply Hl.
Qed.

Lemma plain_parent fs p : plain fs p → plain fs (parent p).
Proof. apply plain_take. Qed.

(** ** Resolution *)
Lemma resolve_plain links fs cur rest q :
  normal rest → (∀ n t, fs !! (cur ++ take n rest) ≠ Some (Symlink t)) →
  resolve links fs cur rest = Ok q → q = cur ++ rest ∧ (rest ≠ [] → is_Some (fs !! (cur ++ rest))).
Proof.
  revert cur. induction rest as [|c rest IH]; intros cur Hn Hl; rw resolve_eq.
  { intros [= <-]. by rw app_nil_r. }
  apply not_elem_of_cons in Hn as [Hc Hn]. rw bool_decide_eq_false_2; [done|].
  assert (Hl1 := Hl 1). cbn in Hl1. rw take_0 in Hl1.
  assert (Hl' : ∀ n t, fs !! ((cur ++ [c]) ++ take n rest) ≠ Some (Symlink t)).
  { intros n. rw -(app_assoc cur [c]). apply (Hl (S n)). }
  destruct (fs !! (cur ++ [c])) as [[b| |t]|] eqn:E; try done.
  - case_bool_decide as Hr; [|done]. intros [= <-]. subst rest. by rw E.
  - intros H. apply IH in H as [-> Hs]; [|done..]. rw -app_assoc in Hs |- *. split; [done|].
    intros _. destruct rest; [by rw E|]. by apply Hs.
  - by destruct (Hl1 t).
Qed.

Lemma canonicalize_plain fs p q :
  plain fs p → canonicalize_at fs p = Ok q → q = p ∧ is_Some (node_at fs p).
Proof.
  intros [Hn Hl] H. apply resolve_plain in H as [-> Hs]; [|done..]. split; [done|].
  destruct p; [by eexists|]. by apply Hs.
Qed.

Lemma locate_plain fs p c q o :
  plain fs (p ++ [c]) → locate fs (p ++ [c]) = Ok (q, o) →
  q = p ++ [c] ∧ o = fs !! (p ++ [c]) ∧ node_at fs p = Some Dir.
Proof.
  intros Hp. unfold locate. rw last_snoc parent_snoc.
  destruct (canonicalize_at fs p) as [d|] eqn:E; [|done]. cbn [mbind result_bind].
  apply canonicalize_plain in E as [-> _]; [|apply plain_parent in Hp; by rw parent_snoc in Hp].
  unfold is_dir_at. case_bool_decide; [|done].
  rw bool_decide_eq_false_2; [by eapply plain_snoc_ne|]. by intros [= <- <-].
Qed.

(** ** Reading *)
Lemma metadata_plain fs p n : plain fs p → metadata_at fs p = Ok n → node_at fs p = Some n.
Proof.
  intros Hp. unfold metadata_at. destruct (canonicalize_at fs p) as [q|] eqn:E; [|done].
  apply canonicalize_plain in E as [-> _]; [|done]. cbn. by destruct (node_at fs p); intros [= <-].
Qed.

Lemma read_plain fs p b : plain fs p → read_at fs p = Ok b → node_at fs p = Some (File b).
Proof.
  intros Hp. unfold read_at. destruct (metadata_at fs p) as [n|] eqn:E; [|done].
  apply metadata_plain in E; [|done]. rw E. cbn. by destruct n; intros [= <-].
Qed.

Lemma symlink_metadata_plain fs p c n :
  plain fs (p ++ [c]) → symlink_metadata_at fs (p ++ [c]) = Ok n → fs !! (p ++ [c]) = Some n.
Proof.
  intros Hp. unfold symlink_metadata_at. destruct (locate fs (p ++ [c])) as [[q o]|] eqn:E; [|done].
  apply locate_plain in E as (_ & -> & _); [|done]. cbn. by destruct (fs !! (p ++ [c])); intros [= <-].
Qed.

Lemma elem_of_children fs q c : c ∈ children fs q ↔ c ≠ ".." ∧ ∃ n, fs !! (q ++ [c]) = Some n.
Proof.
  unfold children. rw list_elem_of_omap. split.
  - intros ([k n] & Hk & Hc). apply elem_of_map_to_list in Hk. cbn [fst] in Hc.
    case_bool_decide as Hq; [|done]. destruct k as [|d k _] using rev_ind; [done|].
    rw last_snoc in Hc. cbn in Hc. case_bool_decide; [done|]. injection Hc as ->. rw parent_snoc in Hq.
    subst. split; [done|]. by eexists.
  - intros [Hc [n Hn]]. exists (q ++ [c], n). split; [by apply elem_of_map_to_list|]. cbn [fst].
    rw parent_snoc bool_decide_eq_true_2 // last_snoc. cbn. by rw bool_decide_eq_false_2.
Qed.

Lemma read_dir_names `{DirOrderLaws} fs p l c : read_dir_at fs p = Ok l → c ∈ l → c ≠ "..".
Proof.
  unfold read_dir_at. destruct (canonicalize_at fs p); [|done]. cbn. destruct (is_dir_at _ _); [|done].
  intros [= <-]. rw dir_order_perm. by intros [? _]%elem_of_children.
Qed.

Lemma read_dir_plain `{DirOrderLaws} fs p l :
  plain fs p → read_dir_at fs p = Ok l →
  node_at fs p = Some Dir ∧ ∀ c, c ∈ l ↔ c ≠ ".." ∧ ∃ n, fs !! (p ++ [c]) = Some n.
Proof.
  intros Hp. unfold read_dir_at. destruct (canonicalize_at fs p) as [q|] eqn:E; [|done].
  apply canonicalize_plain in E as [-> _]; [|done]. cbn. unfold is_dir_at.
  case_bool_decide; [|done]. intros [= <-]. split; [done|]. intros c.
  by rw dir_order_perm elem_of_children.
Qed.

(** ** Writing *)
Section entry.
Context (p : path) (c : string).
Abbreviation pc := (p ++ [c]).

Lemma write_plain links fs b fs' :
  plain fs pc → write_at links fs pc b = Ok fs' →
  fs' = edit fs pc (Some (File b)) ∧ fs !! pc ≠ Some Dir ∧ node_at fs p = Some Dir.
Proof.
  intros Hp. assert (Hl : ∀ t, fs !! pc ≠ Some (Symlink t)).
  { intros t. pose proof (plain_nolink _ _ Hp (length pc) t) as H. by rw take_ge in H. }
  destruct links; cbn [write_at]; destruct (locate fs pc) as [[q o]|] eqn:E; try done;
    apply locate_plain in E as (-> & -> & Hd); try done; cbn [mbind result_bind];
    destruct (fs !! pc) as [[]|] eqn:Ep; try done; try (by intros [= <-]);
    by destruct (Hl target).
Qed.

Lemma remove_plain fs fs' :
  plain fs pc → remove_file_at fs pc = Ok fs' → fs' = edit fs pc None ∧ fs !! pc ≠ Some Dir.
Proof.
  intros Hp. unfold remove_file_at. destruct (locate fs pc) as [[q o]|] eqn:E; [|done].
  apply locate_plain in E as (-> & -> & Hd); [|done]. cbn [mbind result_bind].
  destruct (fs !! pc) as [[]|] eqn:Ep; try done; by intros [= <-].
Qed.

Lemma ensure_dir_plain fs fs' :
  plain fs pc → ensure_dir_at fs pc = Ok fs' →
  fs' = fs ∧ fs !! pc = Some Dir ∨
  fs !! pc = None ∧ node_at fs p = Some Dir ∧ fs' = edit fs pc (Some Dir).
Proof.
  intros Hp. unfold ensure_dir_at. destruct (canonicalize_at fs pc) as [q|[]] eqn:E; try done.
  - apply canonicalize_plain in E as [-> _]; [|done]. unfold is_dir_at. rw node_at_snoc.
    case_bool_decide; [|done]. intros [= <-]. by left.
  - destruct (locate fs pc) as [[q o]|] eqn:E2; [|done].
    apply locate_plain in E2 as (-> & -> & Hd); [|done]. cbn [mbind result_bind].
    destruct (fs !! pc) eqn:Ep; [done|]. intros [= <-]. by right.
Qed.
End entry.

Lemma rename_plain fs p c p' c' fs' :
  plain fs (p ++ [c]) → plain fs (p' ++ [c']) → rename_at fs (p ++ [c]) (p' ++ [c']) = Ok fs' →
  ∃ b, fs !! (p ++ [c]) = Some (File b) ∧ fs !! (p' ++ [c']) ≠ Some Dir ∧ node_at fs p' = Some Dir ∧
    fs' = edit (edit fs (p ++ [c]) None) (p' ++ [c']) (Some (File b)).
Proof.
  intros Hp Hp'. assert (Hl : ∀ t, fs !! (p ++ [c]) ≠ Some (Symlink t)).
  { intros t. pose proof (plain_nolink _ _ Hp (length (p ++ [c])) t) as H. by rw take_ge in H. }
  unfold rename_at. destruct (locate fs (p ++ [c])) as [[q o]|] eqn:E; [|done].
  destruct (locate fs (p' ++ [c'])) as [[q' o']|] eqn:E'; [|done].
  apply locate_plain in E as (-> & -> & _); [|done]. apply locate_plain in E' as (-> & -> & Hd); [|done].
  cbn [mbind result_bind]. destruct (fs !! (p ++ [c])) as [[b| |t]|] eqn:Es; try done.
  - destruct (fs !! (p' ++ [c'])) as [[]|] eqn:Ed; try done; intros [= <-]; by exists b.
  - by destruct (Hl t).
Qed.

(** ** Well-formed trees *)
Lemma tree_wf_edit d p c o :
  tree_wf d → d !! (p ++ [c]) ≠ Some Dir → (is_Some o → node_at d p = Some Dir) →
  tree_wf (edit d (p ++ [c]) o).
Proof.
  intros Hwf Hold Hpar q e n Hq.
  assert (node_at d q = Some Dir) as Hd.
  { destruct (decide (q ++ [e] = p ++ [c])) as [Heq|Hne].
    - rw Heq lookup_partial_alter_eq in Hq. apply app_inj_tail in Heq as [-> _]. by apply Hpar.
    - rw lookup_partial_alter_ne in Hq; [done|]. by eapply Hwf. }
  destruct q as [|a q _] using rev_ind; [done|]. rw node_at_snoc in Hd. rw node_at_snoc.
  rw lookup_partial_alter_ne; [|done]. intros Heq. by rw Heq Hd in Hold.
Qed.

Lemma tree_wf_real_dir d p c n : tree_wf d → d !! (p ++ [c]) = Some n → real_dir d p.
Proof.
  intros Hwf H. apply Hwf in H. revert H.
  induction p as [|a p IH] using rev_ind; intros H; [by intros []|].
  rw node_at_snoc in H. apply real_dir_snoc. split; [|done]. by apply IH, (Hwf _ a Dir).
Qed.

Lemma tree_wf_node d p : tree_wf d → node_at d p = Some Dir → real_dir d p.
Proof.
  intros Hwf. destruct p as [|c p _] using rev_ind; [by intros _ []|]. rw node_at_snoc. intros H.
  apply real_dir_snoc. split; [by eapply tree_wf_real_dir|done].
Qed.

Lemma read_file d p c b :
  tree_wf d → plain d (p ++ [c]) → d !! (p ++ [c]) = Some (File b) → read_at d (p ++ [c]) = Ok b.
Proof.
  intros Hwf Hp Hb. rw read_entry; [| | | |by rw Hb].
  - apply plain_parent in Hp. rw parent_snoc in Hp. apply Hp.
  - by eapply tree_wf_real_dir.
  - by eapply plain_snoc_ne.
  - intros t. by rw Hb.
Qed.

(** ** Rules *)
Lemma wp_write_plain p c b (Q : result IoError () → World → Prop) w :
  plain (disk w) (p ++ [c]) →
  (∀ e w', disk w' = disk w → Q (Err e) w') →
  (∀ b' r w', disk w' = edit (disk w) (p ++ [c]) (Some (File b')) →
     disk w !! (p ++ [c]) ≠ Some Dir → node_at (disk w) p = Some Dir → (r = Ok () → b' = b) → Q r w') →
  wp (write (p ++ [c]) b) Q w.
Proof.
  intros Hp H1 H2. apply wp_write; [done|]. intros b' r w' Hw Hr.
  apply write_plain in Hw as (? & ? & ?); [|done]. eauto.
Qed.

Lemma wp_remove_plain p c (Q : result IoError () → World → Prop) w :
  plain (disk w) (p ++ [c]) →
  (∀ e w', disk w' = disk w → Q (Err e) w') →
  (∀ w', disk w' = edit (disk w) (p ++ [c]) None → disk w !! (p ++ [c]) ≠ Some Dir → Q (Ok ()) w') →
  wp (remove_file (p ++ [c])) Q w.
Proof.
  intros Hp H1 H2. apply wp_update; [done|]. intros w' Hw. apply remove_plain in Hw as [? ?]; auto.
Qed.

Lemma wp_rename_plain p c p' c' (Q : result IoError () → World → Prop) w :
  plain (disk w) (p ++ [c]) → plain (disk w) (p' ++ [c']) →
  (∀ e w', disk w' = disk w → Q (Err e) w') →
  (∀ b w', disk w !! (p ++ [c]) = Some (File b) → disk w !! (p' ++ [c']) ≠ Some Dir →
     node_at (disk w) p' = Some Dir →
     disk w' = edit (edit (disk w) (p ++ [c]) None) (p' ++ [c']) (Some (File b)) → Q (Ok ()) w') →
  wp (rename (p ++ [c]) (p' ++ [c'])) Q w.
Proof.
  intros Hp Hp' H1 H2. apply wp_update; [done|]. intros w' Hw.
  apply rename_plain in Hw as (b & ? & ? & ? & ?); eauto.
Qed.

Lemma wp_read_plain p (Q : result IoError bytes → World → Prop) w :
  plain (disk w) p →
  (∀ e w', disk w' = disk w → Q (Err e) w') →
  (∀ b w', disk w' = disk w → node_at (disk w) p = Some (File b) → Q (Ok b) w') →
  wp (read p) Q w.
Proof.
  intros Hp H1 H2. apply wp_query. intros r w' Hw [->| ->]; [|by apply H1].
  destruct (read_at (disk w) p) eqn:E; [|by apply H1]. apply read_plain in E; auto.
Qed.

(** [fs::copy] reads its source wherever it is. *)
Lemma wp_copy_plain src p c (Q : result IoError () → World → Prop) w :
  plain (disk w) (p ++ [c]) →
  (∀ e w', disk w' = disk w → Q (Err e) w') →
  (∀ b b' r w', read_at (disk w) src = Ok b → disk w' = edit (disk w) (p ++ [c]) (Some (File b')) →
     disk w !! (p ++ [c]) ≠ Some Dir → node_at (disk w) p = Some Dir → (r = Ok () → b' = b) → Q r w') →
  wp (copy src (p ++ [c])) Q w.
Proof.
  intros Hp H1 H2. unfold wp, copy, effect, next_fault.
  assert (Hop : ∀ b b' d r f, read_at (disk w) src = Ok b →
    write_at SYMLOOP_MAX (disk w) (p ++ [c]) b' = Ok d → (r = Ok () → b' = b) → Q r (mk_World d f)).
  { intros b b' d r f Hr Hw Hb. apply write_plain in Hw as (? & ? & ?); [|done].
    eapply (H2 b b'); [done|cbn; done|done..]. }
  destruct (faults w) as [|[k|] fs]; cbn [disk faults];
    destruct (read_at (disk w) src) as [b|] eqn:Er; cbn [mbind result_bind];
    try destruct (write_at _ _ _ _) eqn:Ew; cbn [mbind result_bind];
    first [by apply H1 | by eapply Hop].
Qed.

(** *** Replacing a file through a temporary one *)
Definition is_content (o : option node) : Prop := ∀ n, o = Some n → ∃ b, n = File b.

Lemma is_content_file b : is_content (Some (File b)).
Proof. intros ? [= <-]. by exists b. Qed.
Lemma is_content_none : is_content None.
Proof. by intros ?. Qed.

Lemma edit_edit (d : Fs) p o o' : edit (edit d p o) p o' = edit d p o'.
Proof. apply map_eq. intros q. rw !lookup_partial_alter. by case_decide. Qed.

Lemma node_at_edit_ne (d : Fs) q p o : q ≠ p → node_at (edit d q o) p = node_at d p.
Proof. intros Hne. destruct p as [|a p]; [done|]. unfold node_at. by rw lookup_partial_alter_ne. Qed.

Lemma snoc_ne_self {A} (p : list A) c : p ++ [c] ≠ p.
Proof. intros E%(f_equal length). rw length_app /= in E. lia. Qed.

Lemma plain_edit d p o q : is_content o → plain d q → plain (edit d p o) q.
Proof.
  intros Ho [Hn Hl]. split; [done|]. intros n t Ht. rw lookup_partial_alter in Ht.
  case_decide; [|by eapply Hl]. by destruct (Ho _ Ht).
Qed.

Lemma wp_replace_with p c c' b (Q : result IoError () → World → Prop) w :
  plain (disk w) (p ++ [c]) → plain (disk w) (p ++ [c']) →
  (∀ e w', (disk w' = disk w ∨ ∃ o, is_content o ∧ disk w' = edit (disk w) (p ++ [c]) o ∧
       disk w !! (p ++ [c]) ≠ Some Dir ∧ node_at (disk w) p = Some Dir) → Q (Err e) w') →
  (∀ w', disk w !! (p ++ [c]) ≠ Some Dir → disk w !! (p ++ [c']) ≠ Some Dir →
     node_at (disk w) p = Some Dir →
     disk w' = edit (edit (disk w) (p ++ [c]) None) (p ++ [c']) (Some (File b)) → Q (Ok ()) w') →
  wp (replace_with (p ++ [c]) (p ++ [c']) b) Q w.
Proof.
  intros Hp Hp' Herr Hok. unfold replace_with. wp_step. apply wp_write_plain; [done|by intros; apply Herr; left|].
  intros b' r w1 Hw1 Hold Hdir Hr.
  assert (Hleft : ∀ e w', (disk w' = disk w1 ∨ disk w' = edit (disk w1) (p ++ [c]) None) → Q (Err e) w').
  { intros e w' [E|E]; rw Hw1 ?edit_edit in E; apply Herr; right; eexists;
      (split; [|by split_and!; [exact E|..]]); [apply is_content_file|apply is_content_none]. }
  destruct r as [[]|e]; [|apply Hleft; by left].
  specialize (Hr eq_refl). subst b'. wp_step. wp_step.
  assert (Hpl : ∀ q, plain (disk w) q → plain (disk w1) q).
  { intros q Hq. rw Hw1. by apply plain_edit; [apply is_content_file|]. }
  apply wp_rename_plain; [by apply Hpl|by apply Hpl| |].
  - intros e w2 Hw2. wp_step. wp_step. apply wp_remove_plain; [rw Hw2; by apply Hpl| |].
    + intros e' w3 Hw3. wp_step. apply Hleft. left. congruence.
    + intros w3 Hw3 _. wp_step. apply Hleft. right. by rw Hw3 Hw2.
  - intros b' w2 Hb Hold' _ Hw2. wp_step. rw Hw1 lookup_partial_alter_eq in Hb. injection Hb as <-.
    rw Hw1 edit_edit in Hw2. apply Hok; [done| |done|done].
    rw Hw1 lookup_partial_alter in Hold'. case_decide as E; [by rw -E|done].
Qed.

(** ** [create_dir_all] *)
Definition dirs_added (p : path) (d d' : Fs) : Prop :=
  tree_wf d' ∧ ∀ q, d' !! q = d !! q ∨ d !! q = None ∧ d' !! q = Some Dir ∧ ∃ n, q = take n p.

Lemma dirs_added_refl p d : tree_wf d → dirs_added p d d.
Proof. split; [done|]. by left. Qed.

Lemma dirs_added_trans p d1 d2 d3 : dirs_added p d1 d2 → dirs_added p d2 d3 → dirs_added p d1 d3.
Proof.
  intros [? H1] [? H2]. split; [done|]. intros q. destruct (H1 q) as [E1|(? & E1 & ?)], (H2 q) as [E2|(? & E2 & ?)].
  - left. congruence.
  - right. by rw -E1.
  - right. by rw E2.
  - right. by split_and!.
Qed.

Lemma dirs_added_keeps p d d' q n : dirs_added p d d' → d !! q = Some n → d' !! q = Some n.
Proof. intros [_ H] Hq. destruct (H q) as [->|[? _]]; [done|congruence]. Qed.

Lemma dirs_added_file p d d' q b : dirs_added p d d' → d' !! q = Some (File b) → d !! q = Some (File b).
Proof. intros [_ H] Hq. destruct (H q) as [<-|(? & ? & _)]; [done|congruence]. Qed.

Lemma dirs_added_links p d d' q t : dirs_added p d d' → d' !! q = Some (Symlink t) → d !! q = Some (Symlink t).
Proof. intros [_ H] Hq. destruct (H q) as [<-|(? & ? & _)]; [done|congruence]. Qed.

Lemma dirs_added_plain p d d' q : dirs_added p d d' → plain d q → plain d' q.
Proof. intros H [Hn Hl]. split; [done|]. intros n t Ht. by eapply Hl, dirs_added_links. Qed.

Lemma dirs_added_mono p p' d d' : (∀ n, ∃ m, take n p = take m p') → dirs_added p d d' → dirs_added p' d d'.
Proof.
  intros Hp [? H]. split; [done|]. intros q. destruct (H q) as [?|(? & ? & n & ->)]; [by left|].
  right. split_and!; [done..|]. destruct (Hp n) as [m ->]. by exists m.
Qed.

Lemma wp_create_dirs p w :
  tree_wf (disk w) → plain (disk w) p →
  wp (create_dir_all p) (λ r w', dirs_added p (disk w) (disk w') ∧ (r = Ok () → real_dir (disk w') p)) w.
Proof.
  unfold create_dir_all. revert w. induction p as [|c p IH] using rev_ind; intros w Hwf Hp.
  { split; [by apply dirs_added_refl|]. intros _. apply real_dir_nil. }
  assert (Hsub : ∀ n, ∃ m, take n p = take m (p ++ [c])).
  { intros n. exists (n `min` length p). rw take_app_le; [lia|].
    destruct (decide (n ≤ length p)); [by rw Nat.min_l|]. rw Nat.min_r; [lia|]. rw (take_ge p n); [lia|]. by rw take_ge. }
  unfold wp. rw ancestors_snoc for_each_app. apply wp_bind.
  eapply wp_mono; [apply IH; [done|]|].
  { apply plain_parent in Hp. by rw parent_snoc in Hp. }
  intros [[]|e] w1 [Hadd Hr]; [|by split; [eapply dirs_added_mono|]].
  specialize (Hr eq_refl). apply (dirs_added_mono _ (p ++ [c])) in Hadd; [|done].
  cbn [for_each]. apply wp_bind. apply wp_update.
  { intros e w2 ->. by split. }
  intros w2 He. apply wp_ret. apply ensure_dir_plain in He; [|by eapply dirs_added_plain].
  destruct He as [[-> Hd]|(Hnone & Hd & ->)].
  { split; [done|]. intros _. by apply real_dir_snoc. }
  assert (Hwf1 : tree_wf (disk w1)) by apply Hadd. split.
  - eapply dirs_added_trans; [done|]. split; [by apply tree_wf_edit; rw ?Hnone|].
    intros q. destruct (decide (q = p ++ [c])) as [->|Hne]; [|left; by rw lookup_partial_alter_ne].
    right. rw lookup_partial_alter_eq. split_and!; [done..|]. exists (length (p ++ [c])). by rw take_ge.
  - intros _. apply real_dir_snoc. rw lookup_partial_alter_eq. split; [|done].
    eapply real_dir_mono; [|done]. intros q Hq. rw lookup_partial_alter_ne; [congruence|done].
Qed.

(** ** [remove_dir_all] *)
Lemma lookup_remove_entries d l q :
  remove_entries d l !! q = if bool_decide (q ∈ l) then None else d !! q.
Proof.
  unfold remove_entries. induction l as [|p l IH]; cbn [foldr]; [by rw bool_decide_eq_false_2; [apply not_elem_of_nil|]|].
  rw lookup_delete IH. destruct (decide (p = q)) as [->|Hne].
  - rw bool_decide_eq_true_2 //. by left.
  - erewrite (bool_decide_ext (q ∈ p :: l) (q ∈ l)); [done|]. rewrite elem_of_cons. naive_solver.
Qed.

Lemma string_leb_trans a b c : string_leb a b = true → string_leb b c = true → string_leb a c = true.
Proof. apply bytes_leb_trans. Qed.

Lemma path_leb_total a b : path_leb a b = false → path_leb b a = true.
Proof.
  apply lex_leb_total.
  - intros x y Hx Hy. bool_to_prop. destruct Hx as [Hx|Hx]; bool_to_prop; [|done].
    apply bytes_leb_total in Hx. apply andb_true_iff. split; [done|]. apply negb_true_iff, bool_decide_eq_false. naive_solver.
  - intros x y. apply bool_decide_ext. naive_solver.
Qed.

Lemma path_leb_trans a b c : path_leb a b = true → path_leb b c = true → path_leb a c = true.
Proof.
  apply lex_leb_trans.
  - intros x y z Hx Hy. bool_to_prop. apply andb_true_iff. split; [by eapply string_leb_trans|].
    apply negb_true_iff, bool_decide_eq_false. intros ->. apply H2, as_bytes_inj. by apply bytes_leb_antisymm.
  - intros x y. apply bool_decide_eq_true.
Qed.

Lemma path_leb_extension p c : path_leb (p ++ [c]) p = false.
Proof.
  induction p as [|x p IH]; [done|]. unfold path_leb in *. cbn [app lex_leb]. rw IH andb_false_r orb_false_r.
  by rw bool_decide_eq_true_2 // andb_false_r.
Qed.

Lemma elem_of_subtree d q p : p ∈ subtree d q ↔ path_starts_with q p = true ∧ is_Some (d !! p).
Proof.
  unfold subtree. rw isort_perm list_elem_of_filter list_elem_of_fmap. split.
  - intros [Hs ([k n] & -> & Hk)]. apply elem_of_map_to_list in Hk. split; [done|]. by eexists.
  - intros [Hs [n Hn]]. split; [done|]. exists (p, n). split; [done|]. by apply elem_of_map_to_list.
Qed.

(** A removal that stops half-way leaves a tree. *)
Lemma tree_wf_remove_entries d q k : tree_wf d → tree_wf (remove_entries d (take k (subtree d q))).
Proof.
  intros Hwf p c n. rw lookup_remove_entries. case_bool_decide as Hin; [done|]. intros Hn.
  assert (Hd : node_at d p = Some Dir) by by eapply Hwf.
  destruct p as [|a p']; [done|]. remember (a :: p') as p eqn:Ep.
  assert (node_at (remove_entries d (take k (subtree d q))) p = remove_entries d (take k (subtree d q)) !! p)
    as -> by by subst p.
  assert (Hd' : d !! p = Some Dir) by by subst p. rw lookup_remove_entries. case_bool_decide as Hp; [|done].
  exfalso. assert (Hs : p ∈ subtree d q) by by apply (subseteq_take k) in Hp.
  apply elem_of_subtree in Hs as [Hs _].
  assert (Hpc : p ++ [c] ∈ subtree d q).
  { apply elem_of_subtree. split; [|by eexists]. unfold path_starts_with in *. bool_to_prop.
    apply bool_decide_eq_true. rw take_app_le //. rw -Hs length_take. lia. }
  rw -(take_drop k (subtree d q)) in Hpc. apply elem_of_app in Hpc as [?|Hpc]; [done|].
  assert (Hle : path_leb (p ++ [c]) p = true); [|by rw path_leb_extension in Hle].
  apply (isort_take_least (λ a b, path_leb b a)
    (λ x y, path_leb_total y x) (λ x y z Hxy Hyz, path_leb_trans z y x Hyz Hxy) k _ _ _ Hp Hpc).
Qed.

Lemma wp_remove_dir_all_plain p c (Q : result IoError () → World → Prop) w :
  plain (disk w) (p ++ [c]) →
  (∀ e w', disk w' = disk w → Q (Err e) w') →
  (∀ r k w', disk w' = remove_entries (disk w) (take k (subtree (disk w) (p ++ [c]))) → Q r w') →
  wp (remove_dir_all (p ++ [c])) Q w.
Proof.
  intros Hp Herr Hrem. unfold wp, remove_dir_all, effect, next_fault, remove_dir_all_at.
  destruct (locate (disk w) (p ++ [c])) as [[q o]|e] eqn:E; cbn [mbind result_bind].
  - pose proof E as (-> & -> & _)%locate_plain; [|done].
    assert (Hall : ∀ (l : list path), l = take (length l) l) by (intros; by rw take_ge).
    destruct (faults w) as [|[k|] fs]; cbn [disk faults]; rw ?E;
      destruct (disk w !! (p ++ [c])) as [[]|] eqn:En; cbn [mbind result_bind];
      try (by apply Herr); try (by eapply (Hrem _ k)).
    + apply (Hrem _ (length (subtree (disk w) (p ++ [c])))). by rw -Hall.
    + apply (Hrem _ (length (subtree (disk w) (p ++ [c])))). by rw -Hall.
  - destruct (faults w) as [|[k|] fs]; cbn [disk faults]; rw ?E; cbn [mbind result_bind]; by apply Herr.
Qed.
