(* ===== verification/HistoryIndex.v ===== *)
(** * The history index on disk

    [synergos-core/src/history/index.rs]: the file [index.json] of a store, saved through a
    temporary file and a rename; the sidecar [<hash>.meta.json] beside every object, which
    lists the versions that refer to it; and the reconstruction of a lost index from the
    sidecars.

    The hash arguments of [object_path] and [meta_path] are hexadecimal digests: their
    callers take them from an index or a directory listing that [is_valid_object_hash]
    has checked.  [u] is the random part of a temporary file name. *)

From Stdlib Require Import Strings.Ascii.
From S2P Require Import Prelude Crypto Fs Manifest Retention.

Definition INDEX_FILE : string := "index.json".
Definition OBJECTS_DIR : string := "objects".
Definition META_SUFFIX : string := ".meta.json".

(** ** File names *)
Fixpoint str_starts_with (prefix s : string) : bool :=
  match prefix, s with
  | EmptyString, _ => true
  | String.String c p, String.String d s' => bool_decide (c = d) && str_starts_with p s'
  | _, EmptyString => false
  end.

(** [str::strip_suffix]. *)
Fixpoint strip_suffix (suffix s : string) : option string :=
  if bool_decide (s = suffix) then Some ""
  else
    match s with
    | EmptyString => None
    | String.String c s' => String.String c <$> strip_suffix suffix s'
    end.
Definition str_ends_with (suffix s : string) : bool :=
  match strip_suffix suffix s with Some _ => true | None => false end.

(** [str::contains] of a string. *)
Fixpoint str_contains (pat s : string) : bool :=
  str_starts_with pat s
  || match s with EmptyString => false | String.String _ s' => str_contains pat s' end.

(** What precedes the last dot, if there is one. *)
Fixpoint before_last_dot (s : string) : option string :=
  match s with
  | EmptyString => None
  | String.String c s' =>
      match before_last_dot s' with
      | Some p => Some (String.String c p)
      | None => if bool_decide (c = "."%char) then Some "" else None
      end
  end.

(** [Path::with_extension] on a file name; a dot at the start begins no extension. *)
Definition with_extension (name ext : string) : string :=
  match before_last_dot name with
  | Some (String.String c p) => String.String c p +:+ "." +:+ ext
  | _ => name +:+ "." +:+ ext
  end.

Definition is_valid_object_hash (hash : string) : bool :=
  (String.length hash =? 64)%nat && forallb is_ascii_hexdigit (as_bytes hash).

(** [&hash[..2]]. *)
Definition shard_of (hash : string) : string :=
  if (2 <=? String.length hash)%nat then String.substring 0 2 hash else "00".

Definition objects_dir (store_dir : path) : path := store_dir ++ [OBJECTS_DIR].
Definition shard_dir (store_dir : path) (hash : string) : path := objects_dir store_dir ++ [shard_of hash].
Definition object_path (store_dir : path) (hash : string) : path := shard_dir store_dir hash ++ [hash].
Definition meta_path (store_dir : path) (hash : string) : path :=
  shard_dir store_dir hash ++ [hash +:+ META_SUFFIX].
(** [meta_path.with_extension(format!("tmp-{uuid}"))]. *)
Definition meta_tmp (store_dir : path) (hash u : string) : path :=
  shard_dir store_dir hash ++ [with_extension (hash +:+ META_SUFFIX) ("tmp-" +:+ u)].
Definition index_path (store_dir : path) : path := store_dir ++ [INDEX_FILE].

(** ** Directory loops *)

(** [ReadDir::next_entry]: may fail. *)
Definition next_entry : IO () := query (λ _, Ok ()).

(** [while let Some(entry) = rd.next_entry().await? { .. }] with the variables the loop
    updates. *)
Fixpoint for_entries {A} (f : string → A → IO A) (names : list string) (a : A) : IO A :=
  _ ← next_entry;
  match names with
  | [] => mret a
  | name :: names' => a ← f name a; for_entries f names' a
  end.

(** [match read_dir(dir) { Err(NotFound) => return default, .. }]. *)
Definition read_dir_or `{DirOrder} (dir : path) : IO (option (list string)) :=
  r ← try_ (read_dir dir);
  match r with
  | Ok names => mret (Some names)
  | Err NotFound => mret None
  | Err e => throw e
  end.

(** [entry.file_type()]. *)
Definition file_type (p : path) : IO node := symlink_metadata p.
Definition is_dir_node (n : node) : bool := match n with Dir => true | _ => false end.
Definition is_file_node (n : node) : bool := match n with File _ => true | _ => false end.

(** ** Sidecars *)
Record ObjectRef := mk_ObjectRef {
  or_rel : string;
  or_version : N;
  or_size : N;
  or_crc : N;
  or_stored_at : N;
  or_publisher : string;
  or_source : string;
  or_offloaded : option OffloadedRef;
}.

Record ObjectMeta := mk_ObjectMeta {
  om_project_id : string;
  refs : list ObjectRef;
}.

Global Instance ObjectRef_eq_dec : EqDecision ObjectRef.
Proof. solve_decision. Defined.
Global Instance ObjectMeta_eq_dec : EqDecision ObjectMeta.
Proof. solve_decision. Defined.

Definition default_meta : ObjectMeta := mk_ObjectMeta "" [].

Definition same_version (rel : string) (v : N) (r : ObjectRef) : bool :=
  bool_decide (or_rel r = rel) && (or_version r =? v)%N.

Definition retain_refs (rel : string) (v : N) (l : list ObjectRef) : list ObjectRef :=
  filter (λ r, same_version rel v r = false) l.

Definition entry_of_ref (hash : string) (r : ObjectRef) : IndexEntry :=
  mk_IndexEntry hash (or_size r) (or_crc r) (or_stored_at r) (or_publisher r) (or_source r)
    (or_offloaded r).
Definition ref_of_entry (rel : string) (v : N) (e : IndexEntry) : ObjectRef :=
  mk_ObjectRef rel v (ie_size e) (ie_crc e) (stored_at e) (ie_publisher e) (ie_source e)
    (offloaded e).

(** The references of one sidecar that a rebuilt index takes over. *)
Definition insert_refs (hash : string) (object_exists : bool) (l : list ObjectRef) (ix : HistoryIndex) :
    HistoryIndex :=
  foldl (λ ix r,
    if invalid_path (or_rel r) || invalid_version (or_version r) then ix
    else if negb object_exists && bool_decide (or_offloaded r = None) then ix
    else index_insert (or_rel r) (or_version r) (entry_of_ref hash r) ix) ix l.

(** What the index of a project must satisfy to be used as it is. *)
Definition index_entries_valid (ix : HistoryIndex) : bool :=
  forallb (λ '(rel, v, e),
    negb (invalid_path rel) && (0 <? v)%N && (v <? u64_max)%N && is_valid_object_hash (ie_hash e))
    (iter_all ix).
Definition index_belongs (ix : HistoryIndex) (project_id : string) : bool :=
  (ix_format ix =? 1)%N && bool_decide (ix_project_id ix = project_id).

Section index_io.
Context `{!Codec HistoryIndex, !Codec ObjectMeta, DirOrder}.

(** [HistoryIndex::save]. *)
Definition index_save (u : string) (ix : HistoryIndex) (store_dir : path) : IO () :=
  _ ← create_dir_all store_dir;
  save_json store_dir "index-" u INDEX_FILE (to_vec ix).

(** The sidecar is rewritten through a temporary file. *)
Definition save_meta (u : string) (store_dir : path) (hash : string) (meta : ObjectMeta) : IO () :=
  json ← lift_result (ok_or (to_vec meta) InvalidData);
  replace_with (meta_tmp store_dir hash u) (meta_path store_dir hash) json.

Definition append_object_ref (u : string) (store_dir : path) (project_id hash : string)
    (reference : ObjectRef) : IO () :=
  r ← try_ (read (meta_path store_dir hash));
  meta ← match r with
         | Ok b => lift_result (ok_or (from_slice b) InvalidData)
         | Err NotFound => mret default_meta
         | Err e => throw e
         end;
  save_meta u store_dir hash (mk_ObjectMeta project_id
    (retain_refs (or_rel reference) (or_version reference) (refs meta) ++ [reference])).

Definition remove_object_ref (u : string) (store_dir : path) (hash rel : string) (v : N) : IO () :=
  r ← try_ (read (meta_path store_dir hash));
  match r with
  | Err NotFound => mret ()
  | Err e => throw e
  | Ok b =>
      meta ← lift_result (ok_or (from_slice b) InvalidData);
      let l := retain_refs rel v (refs meta) in
      if bool_decide (l = []) then
        r ← try_ (remove_file (meta_path store_dir hash));
        match r with Ok _ | Err NotFound => mret () | Err e => throw e end
      else save_meta u store_dir hash (mk_ObjectMeta (om_project_id meta) l)
  end.

(** The body of the inner loop of [rebuild_from_sidecars]. *)
Definition rebuild_file (store_dir : path) (project_id shard name : string) (ix : HistoryIndex) :
    IO HistoryIndex :=
  match strip_suffix META_SUFFIX name with
  | None => mret ix
  | Some hash =>
      if negb (is_valid_object_hash hash) then mret ix
      else
        r ← try_ (read ((objects_dir store_dir ++ [shard]) ++ [name]));
        match r with
        | Err _ => mret ix
        | Ok b =>
            match from_slice (A := ObjectMeta) b with
            | None => mret ix
            | Some meta =>
                if negb (bool_decide (om_project_id meta = ""))
                   && negb (bool_decide (om_project_id meta = project_id))
                then mret ix
                else
                  m ← try_ (metadata (object_path store_dir hash));
                  mret (insert_refs hash (is_ok m) (refs meta) ix)
            end
        end
  end.

Definition rebuild_shard (store_dir : path) (project_id shard : string) (ix : HistoryIndex) :
    IO HistoryIndex :=
  t ← file_type (objects_dir store_dir ++ [shard]);
  if negb (is_dir_node t) then mret ix
  else
    names ← read_dir (objects_dir store_dir ++ [shard]);
    for_entries (rebuild_file store_dir project_id shard) names ix.

Definition rebuild_from_sidecars (store_dir : path) (project_id : string) : IO HistoryIndex :=
  shards ← read_dir_or (objects_dir store_dir);
  match shards with
  | None => mret (new_index project_id)
  | Some names => for_entries (rebuild_shard store_dir project_id) names (new_index project_id)
  end.

Definition rebuild_and_save (u : string) (store_dir : path) (project_id : string) : IO HistoryIndex :=
  ix ← rebuild_from_sidecars store_dir project_id;
  _ ← index_save u ix store_dir;
  mret ix.

Definition load_or_rebuild (u : string) (store_dir : path) (project_id : string) : IO HistoryIndex :=
  r ← try_ (read (index_path store_dir));
  match r with
  | Err NotFound => mret (new_index project_id)
  | Err e => throw e
  | Ok b =>
      match from_slice b with
      | Some ix =>
          if negb (index_belongs ix project_id) then throw InvalidData
          else if negb (index_entries_valid ix) then rebuild_and_save u store_dir project_id
          else mret ix
      | None => rebuild_and_save u store_dir project_id
      end
  end.
End index_io.
