(* ===== verification/Tags.v ===== *)
(** * Version tags

    [synergos-core/src/history/tags.rs]: named sets of pinned versions, one JSON file per
    tag in the directory [tags] of a history store. *)

From Stdlib Require Import Strings.Ascii.
From S2P Require Import Prelude Crypto Fs Manifest HistoryIndex.

Definition TAGS_DIR : string := "tags".

Record Tag := mk_Tag {
  tag_format : N;
  tag_project_id : string;
  tag_name : string;
  tag_created_at : N;
  pins : gmap string N;
}.

Record TagSummary := mk_TagSummary {
  ts_name : string;
  ts_created_at : N;
  pin_count : nat;
}.

Global Instance Tag_eq_dec : EqDecision Tag.
Proof. solve_decision. Defined.

Definition is_tag_byte (b : byte) : bool :=
  let x := Byte.to_N b in
  ((48 <=? x) && (x <=? 57) || (65 <=? x) && (x <=? 90) || (97 <=? x) && (x <=? 122)
   || (x =? 46) || (x =? 95) || (x =? 45))%N.

Definition is_valid_tag_name (name : string) : bool :=
  negb (bool_decide (name = "")) && (String.length name <=? 64)%nat
  && negb (bool_decide (name = ".")) && negb (bool_decide (name = ".."))
  && forallb is_tag_byte (as_bytes name).

Definition tags_dir (store_dir : path) : path := store_dir ++ [TAGS_DIR].

Definition tag_path (dir : path) (name : string) : result IoError path :=
  if negb (is_valid_tag_name name) then Err InvalidInput else Ok (dir ++ [name +:+ ".json"]).

Definition invalid_pins (p : gmap string N) : bool :=
  existsb (λ '(rel, v), invalid_path rel || invalid_version v) (btree_iter p).

Definition validate_tag (tag : Tag) (project_id expected_name : string) : result IoError () :=
  if negb (tag_format tag =? 1)%N then Err InvalidData
  else if negb (bool_decide (tag_project_id tag = project_id)) then Err InvalidData
  else if negb (bool_decide (tag_name tag = expected_name)) || negb (is_valid_tag_name (tag_name tag))
  then Err InvalidData
  else if invalid_pins (pins tag) then Err InvalidData
  else Ok ().

Definition open_tags_dir (store_dir : path) : IO (option path) :=
  let dir := tags_dir store_dir in
  m ← try_ (symlink_metadata dir);
  match m with
  | Err NotFound => mret None
  | Err e => throw e
  | Ok n =>
      if negb (is_dir_node n) then throw PermissionDenied
      else
        canonical_store ← canonicalize store_dir;
        canonical_dir ← canonicalize dir;
        if path_starts_with canonical_store canonical_dir then mret (Some canonical_dir)
        else throw PermissionDenied
  end.

Definition prepare_tags_dir (store_dir : path) : IO path :=
  _ ← create_dir_all (tags_dir store_dir);
  o ← open_tags_dir store_dir;
  lift_result (ok_or o NotFound).

Definition ensure_regular_tag_file (p : path) : IO bool :=
  m ← try_ (symlink_metadata p);
  match m with
  | Ok (File _) => mret true
  | Ok _ => throw PermissionDenied
  | Err NotFound => mret false
  | Err e => throw e
  end.

Section tags.
Context `{!Codec Tag, DirOrder}.

(** [tags::save]. *)
Definition tag_save (u : string) (store_dir : path) (project_id name : string) (created_at : N)
    (p : gmap string N) : IO Tag :=
  _ ← lift_result (tag_path store_dir name);
  if invalid_pins p then throw InvalidInput
  else
    let tag := mk_Tag 1 project_id name created_at p in
    dir ← prepare_tags_dir store_dir;
    tpath ← lift_result (tag_path dir name);
    _ ← ensure_regular_tag_file tpath;
    let tmp := dir ++ [name +:+ "-" +:+ u +:+ ".tmp"] in
    json ← lift_result (ok_or (to_vec tag) InvalidData);
    r ← try_ (write tmp json);
    match r with
    | Err e => _ ← ignore (remove_file tmp); throw e
    | Ok _ =>
        r ← try_ (replace_file_atomically tmp tpath);
        match r with
        | Err e => _ ← ignore (remove_file tmp); throw e
        | Ok _ => mret tag
        end
    end.

(** [tags::load]. *)
Definition tag_load (store_dir : path) (project_id name : string) : IO (option Tag) :=
  _ ← lift_result (tag_path store_dir name);
  d ← open_tags_dir store_dir;
  match d with
  | None => mret None
  | Some dir =>
      tpath ← lift_result (tag_path dir name);
      reg ← ensure_regular_tag_file tpath;
      if negb reg then mret None
      else
        r ← try_ (read tpath);
        match r with
        | Ok b =>
            tag ← lift_result (ok_or (from_slice b) InvalidData);
            _ ← lift_result (validate_tag tag project_id name);
            mret (Some tag)
        | Err NotFound => mret None
        | Err e => throw e
        end
  end.

(** [tags::remove]. *)
Definition tag_remove (store_dir : path) (project_id name : string) : IO bool :=
  t ← tag_load store_dir project_id name;
  match t with
  | None => mret false
  | Some _ =>
      d ← open_tags_dir store_dir;
      match d with
      | None => mret false
      | Some dir =>
          tpath ← lift_result (tag_path dir name);
          r ← try_ (remove_file tpath);
          match r with
          | Ok _ => mret true
          | Err NotFound => mret false
          | Err e => throw e
          end
      end
  end.

(** The part the loops of [list] and [all_pins] share: the tag in a file of the directory,
    [None] for a file that is passed over. *)
Definition read_tag_entry (dir : path) (project_id name : string) : IO (option Tag) :=
  match strip_suffix ".json" name with
  | None => mret None
  | Some stem =>
      if negb (is_valid_tag_name stem) then mret None
      else
        reg ← ensure_regular_tag_file (dir ++ [name]);
        if negb reg then mret None
        else
          b ← read (dir ++ [name]);
          tag ← lift_result (ok_or (from_slice b) InvalidData);
          if negb (bool_decide (tag_project_id tag = project_id)) then mret None
          else
            _ ← lift_result (validate_tag tag project_id stem);
            mret (Some tag)
  end.

(** [tags::list]. *)
Definition tag_list (store_dir : path) (project_id : string) : IO (list TagSummary) :=
  d ← open_tags_dir store_dir;
  match d with
  | None => mret []
  | Some dir =>
      names ← read_dir dir;
      out ← for_entries (λ name out,
              t ← read_tag_entry dir project_id name;
              mret (match t with
                    | Some tag => out ++ [mk_TagSummary (tag_name tag) (tag_created_at tag) (size (pins tag))]
                    | None => out
                    end)) names [];
      mret (isort (λ a b, string_leb (ts_name a) (ts_name b)) out)
  end.

(** [tags::all_pins]. *)
Definition all_pins (store_dir : path) (project_id : string) : IO (list (string * N)) :=
  d ← open_tags_dir store_dir;
  match d with
  | None => mret []
  | Some dir =>
      names ← read_dir dir;
      for_entries (λ name out,
        t ← read_tag_entry dir project_id name;
        mret (match t with Some tag => out ++ btree_iter (pins tag) | None => out end)) names []
  end.
End tags.
