(* ===== verification/Rotation.v ===== *)
(** * Rotation of old versions to external storage

    [synergos-core/src/history/rotation/mod.rs], [backend.rs] and [local.rs]: versions that
    are old enough are copied to a backend, read back and compared, marked as offloaded, and
    only then removed from the store; [fetch] brings one back.

    A computation runs on the disk and on [Remote], the state of the external service.  The
    trait [RotationBackend] is a record of operations; [LocalDirBackend] is the one that is
    a directory of the same disk, the cloud backends are parameters. *)

From Stdlib Require Import Strings.Ascii.
From S2P Require Import Prelude Crypto Types Transfer Fs Manifest Glob Retention HistoryIndex.

(** ** Disk and backend *)
Record RWorld (Remote : Type) := mk_RWorld { rw_world : World; rw_remote : Remote }.
Arguments mk_RWorld {Remote} _ _.
Arguments rw_world {Remote} _.
Arguments rw_remote {Remote} _.

Definition on_disk {Remote A} (m : IO A) : ST (RWorld Remote) IoError A := λ s,
  let '(r, w) := m (rw_world s) in (r, mk_RWorld w (rw_remote s)).

(** [.map_err(|e| io::Error::other(..))]. *)
Definition as_other {St A} (m : ST St IoError A) : ST St IoError A := λ s,
  let '(r, s') := m s in (map_err (λ _, OtherIo) r, s').

(** A loop over [l] that updates [a]. *)
Fixpoint fold_st {St E X A} (f : X → A → ST St E A) (l : list X) (a : A) : ST St E A :=
  match l with
  | [] => mret a
  | x :: l' => a ← f x a; fold_st f l' a
  end.

Record RotationBackend (Remote : Type) := mk_RotationBackend {
  bk_put : string → path → ST (RWorld Remote) IoError ();
  bk_get : string → path → ST (RWorld Remote) IoError ();
  bk_exists : string → ST (RWorld Remote) IoError bool;
  bk_size : string → ST (RWorld Remote) IoError (option N);
  bk_delete : string → ST (RWorld Remote) IoError ();
}.
Arguments bk_put {Remote} _ _ _.
Arguments bk_get {Remote} _ _ _.
Arguments bk_exists {Remote} _ _.
Arguments bk_size {Remote} _ _.
Arguments bk_delete {Remote} _ _.

Definition is_valid_object_key (key : string) : bool :=
  match split_on "/"%char key with
  | [project; object] => is_valid_object_hash project && is_valid_object_hash object
  | _ => false
  end.

(** ** [LocalDirBackend] *)
Section local.
Context (root : path) (u : string).

Definition dest_path (key : string) : result IoError path :=
  if negb (is_valid_object_key key) then Err InvalidInput else Ok (root ++ split_on "/"%char key).

Definition ensure_mounted : IO () := _ ← metadata root; mret ().

(** [file.sync_all()]. *)
Definition sync_all : IO () := query (λ _, Ok ()).

Definition local_put (key : string) (src : path) : IO () :=
  _ ← ensure_mounted;
  dest ← lift_result (dest_path key);
  _ ← create_dir_all (parent dest);
  let tmp := parent dest ++ [".tmp-" +:+ u] in
  b ← read src;
  _ ← write tmp b;
  _ ← sync_all;
  r ← try_ (replace_file_atomically tmp dest);
  match r with
  | Ok _ => mret ()
  | Err e => _ ← ignore (remove_file tmp); throw e
  end.

Definition local_get (key : string) (dest : path) : IO () :=
  _ ← ensure_mounted;
  src ← lift_result (dest_path key);
  copy src dest.

Definition node_len (n : node) : N := match n with File b => len b | _ => 0%N end.

Definition local_exists (key : string) : IO bool :=
  _ ← ensure_mounted;
  p ← lift_result (dest_path key);
  m ← try_ (metadata p);
  match m with Ok _ => mret true | Err NotFound => mret false | Err e => throw e end.

Definition local_size (key : string) : IO (option N) :=
  _ ← ensure_mounted;
  p ← lift_result (dest_path key);
  m ← try_ (metadata p);
  match m with Ok n => mret (Some (node_len n)) | Err NotFound => mret None | Err e => throw e end.

Definition local_delete (key : string) : IO () :=
  _ ← ensure_mounted;
  p ← lift_result (dest_path key);
  r ← try_ (remove_file p);
  match r with Ok _ | Err NotFound => mret () | Err e => throw e end.

Definition LocalDirBackend {Remote} : RotationBackend Remote := {|
  bk_put key src := on_disk (local_put key src);
  bk_get key dest := on_disk (local_get key dest);
  bk_exists key := on_disk (local_exists key);
  bk_size key := on_disk (local_size key);
  bk_delete key := on_disk (local_delete key);
|}.
End local.

(** ** Choosing a backend *)

Definition backend_validate (c : RotationBackendConfig) : bool :=
  match c with
  | BackendS3 bucket _ region => negb (is_blank_text bucket) && negb (is_blank_text region)
  | BackendLocalPath p => negb (is_blank_text p)
  | BackendGdrive folder credentials => negb (is_blank_text folder) && negb (is_blank_text credentials)
  | BackendUnset => false
  end.

Definition rotation_validate (c : HistoryRotationConfig) : bool :=
  if rotation_enabled c then backend_validate (backend c) else true.

Definition backend_name (c : RotationBackendConfig) : string :=
  match c with
  | BackendS3 _ _ _ => "s3"
  | BackendLocalPath _ => "local_path"
  | BackendGdrive _ _ => "gdrive"
  | BackendUnset => "unset"
  end.

(** [Path::components] of an absolute or relative path, without [.] and empty parts. *)
Definition components (s : string) : path :=
  filter (λ c, c ≠ "" ∧ c ≠ ".") (split_on "/"%char s).
Definition is_absolute (s : string) : bool := starts_with_char "/"%char s.

Section build.
Context {Remote : Type}.
Context (s3 : string → string → string → RotationBackend Remote).
Context (gdrive : string → string → RotationBackend Remote).
Context (cwd : path) (u : string).

Definition build_backend (c : RotationBackendConfig) : result IoError (RotationBackend Remote) :=
  if negb (backend_validate c) then Err InvalidInput
  else
    match c with
    | BackendS3 bucket prefix region => Ok (s3 bucket prefix region)
    | BackendLocalPath p =>
        Ok (LocalDirBackend (if is_absolute p then components p else cwd ++ components p) u)
    | BackendGdrive folder credentials => Ok (gdrive folder credentials)
    | BackendUnset => Err InvalidInput
    end.
End build.

(** ** Rotation *)
Inductive SkipReason :=
| PutFailed (e : IoError)
| VerificationFailed (e : IoError)
| MissingAtBackend
| WrongSize (size : N)
| WrongContent.

Record RotationSkip := mk_RotationSkip {
  skip_rel : string;
  skip_version : N;
  reason : SkipReason;
}.

Record RotationReport := mk_RotationReport {
  rep_offloaded : list vkey;
  bytes_offloaded : N;
  candidates : list vkey;
  skipped : list RotationSkip;
}.
Definition empty_report : RotationReport := mk_RotationReport [] 0 [] [].

Definition add_skip (rel : string) (v : N) (why : SkipReason) (r : RotationReport) : RotationReport :=
  mk_RotationReport (rep_offloaded r) (bytes_offloaded r) (candidates r)
    (skipped r ++ [mk_RotationSkip rel v why]).
Definition add_offloaded (rel : string) (v size : N) (r : RotationReport) : RotationReport :=
  mk_RotationReport (rep_offloaded r ++ [(rel, v)]) (sat_add (bytes_offloaded r) size) (candidates r)
    (skipped r).

Definition with_offloaded (o : option OffloadedRef) (e : IndexEntry) : IndexEntry :=
  mk_IndexEntry (ie_hash e) (ie_size e) (ie_crc e) (stored_at e) (ie_publisher e) (ie_source e) o.

(** Some version with this content is already at the backend. *)
Definition already_offloaded (ix : HistoryIndex) (hash : string) (c : RotationBackendConfig) : bool :=
  existsb (λ '(_, _, other),
    bool_decide (ie_hash other = hash)
    && match offloaded other with
       | Some o => bool_decide (off_config o = Some c)
                   || (bool_decide (off_config o = None) && bool_decide (off_backend o = backend_name c))
       | None => false
       end) (iter_all ix).

Definition has_local_reference (ix : HistoryIndex) (hash : string) : bool :=
  existsb (λ '(_, _, other), bool_decide (ie_hash other = hash) && is_local other) (iter_all ix).

(** Another version is offloaded to the same place under the same key. *)
Definition has_other_offloaded (ix : HistoryIndex) (rel : string) (v : N) (o : OffloadedRef) : bool :=
  existsb (λ '(r, w, other),
    (negb (bool_decide (r = rel)) || negb (w =? v)%N)
    && match offloaded other with
       | Some o' => bool_decide (off_key o' = off_key o) && bool_decide (off_config o' = off_config o)
                    && bool_decide (off_backend o' = off_backend o)
       | None => false
       end) (iter_all ix).

Section rotation.
Context `{Blake3, Crc32, Hex, !Codec HistoryIndex, !Codec ObjectMeta}.
Context {Remote : Type}.

Abbreviation RIO A := (ST (RWorld Remote) IoError A).

Definition object_key (project_id hash : string) : string :=
  hex_encode (blake3 (as_bytes project_id)) +:+ "/" +:+ hash.

(** [synergos_net::transfer::hash_file] on a path. *)
Definition hash_path (p : path) : IO (Blake3Hash * N * N) := b ← read p; mret (hash_file b).

Definition validate_fetched (p : path) (e : IndexEntry) : IO bool :=
  '(actual_crc, actual_size) ← crc32_of_file p;
  if negb (actual_size =? ie_size e)%N || negb (actual_crc =? ie_crc e)%N then mret false
  else
    '(hash, hashed_size, _) ← as_other (hash_path p);
    mret ((hashed_size =? ie_size e)%N && bool_decide (hex_encode hash = ie_hash e)
          && is_valid_object_hash (ie_hash e)).

(** The checks after the upload: [None] when the object at the backend is the version. *)
Definition verify_offloaded (bk : RotationBackend Remote) (u key : string) (obj : path)
    (e : IndexEntry) : RIO (option SkipReason) :=
  x ← try_ (bk_exists bk key);
  match x with
  | Err er => mret (Some (VerificationFailed er))
  | Ok false => mret (Some MissingAtBackend)
  | Ok true =>
      s ← try_ (bk_size bk key);
      match s with
      | Err er => mret (Some (VerificationFailed er))
      | Ok None => mret (Some MissingAtBackend)
      | Ok (Some size) =>
          if negb (size =? ie_size e)%N then mret (Some (WrongSize size))
          else
            let tmp := parent obj ++ [with_extension (ie_hash e) ("rotation-verify-" +:+ u +:+ ".tmp")] in
            d ← try_ (bk_get bk key tmp);
            integrity ← match d with
                        | Ok _ => try_ (on_disk (validate_fetched tmp e))
                        | Err er => mret (Err er)
                        end;
            _ ← ignore (on_disk (remove_file tmp));
            mret (match integrity with
                  | Ok true => None
                  | Ok false => Some WrongContent
                  | Err er => Some (VerificationFailed er)
                  end)
      end
  end.

(** One candidate of the loop of [rotate]; [u1], [u2], [u3] name its temporary files. *)
Definition rotate_one (store_dir : path) (project_id : string) (bk : RotationBackend Remote)
    (c : RotationBackendConfig) (us : vkey → string * string * string) (k : vkey)
    (acc : HistoryIndex * RotationReport) : RIO (HistoryIndex * RotationReport) :=
  let '(rel, v) := k in
  let '(ix, report) := acc in
  let '(u1, u2, u3) := us k in
  match index_get ix rel v with
  | None => mret (ix, report)
  | Some e =>
      if negb (is_local e) then mret (ix, report)
      else
        let key := object_key project_id (ie_hash e) in
        let obj := object_path store_dir (ie_hash e) in
        put ← (if already_offloaded ix (ie_hash e) c then mret (Ok ()) else try_ (bk_put bk key obj));
        match put with
        | Err er => mret (ix, add_skip rel v (PutFailed er) report)
        | Ok _ =>
            failed ← verify_offloaded bk u1 key obj e;
            match failed with
            | Some why => mret (ix, add_skip rel v why report)
            | None =>
                let updated := with_offloaded (Some (mk_OffloadedRef (backend_name c) key (Some c))) e in
                _ ← on_disk (append_object_ref u2 store_dir project_id (ie_hash e) (ref_of_entry rel v updated));
                let ix := index_insert rel v updated ix in
                _ ← on_disk (index_save u3 ix store_dir);
                _ ← (if has_local_reference ix (ie_hash e) then mret ()
                     else ignore (on_disk (remove_file obj)));
                mret (ix, add_offloaded rel v (ie_size e) report)
            end
        end
  end.

Definition rotate (store_dir : path) (project_id : string) (bk : RotationBackend Remote)
    (c : RotationBackendConfig) (us : vkey → string * string * string) (ix : HistoryIndex)
    (days now_ms : N) (protected : list vkey) (dry_run : bool) : RIO (HistoryIndex * RotationReport) :=
  let cands := select_candidates ix days now_ms protected in
  let report := mk_RotationReport [] 0 cands [] in
  if dry_run then mret (ix, report)
  else fold_st (rotate_one store_dir project_id bk c us) cands (ix, report).

(** The download of [fetch]: the object is replaced only by verified content. *)
Definition download (bk : RotationBackend Remote) (u key : string) (obj : path) (e : IndexEntry) : RIO () :=
  s ← try_ (bk_size bk key);
  match s with
  | Err _ => throw OtherIo
  | Ok None => throw NotFound
  | Ok (Some size) =>
      if negb (size =? ie_size e)%N then throw InvalidData
      else
        let tmp := parent obj ++ [with_extension (ie_hash e) ("fetch-" +:+ u +:+ ".tmp")] in
        g ← try_ (bk_get bk key tmp);
        match g with
        | Err _ => _ ← ignore (on_disk (remove_file tmp)); throw OtherIo
        | Ok _ =>
            v ← try_ (on_disk (validate_fetched tmp e));
            match v with
            | Err er => _ ← ignore (on_disk (remove_file tmp)); throw er
            | Ok false => _ ← ignore (on_disk (remove_file tmp)); throw InvalidData
            | Ok true =>
                r ← try_ (on_disk (replace_file_atomically tmp obj));
                match r with
                | Err er => _ ← ignore (on_disk (remove_file tmp)); throw er
                | Ok _ => mret ()
                end
            end
        end
  end.

Definition fetch (store_dir : path) (project_id : string) (bk : RotationBackend Remote)
    (u1 u2 u3 : string) (ix : HistoryIndex) (rel : string) (v : N) : RIO HistoryIndex :=
  match index_get ix rel v with
  | None => throw NotFound
  | Some e =>
      match offloaded e with
      | None => mret ix
      | Some o =>
          if negb (bool_decide (off_key o = object_key project_id (ie_hash e)))
             || negb (is_valid_object_key (off_key o))
          then throw InvalidData
          else
            let obj := object_path store_dir (ie_hash e) in
            _ ← on_disk (create_dir_all (parent obj));
            valid ← try_ (on_disk (validate_fetched obj e));
            _ ← (match valid with
                 | Ok true => mret ()
                 | _ => download bk u1 (off_key o) obj e
                 end);
            _ ← (if has_other_offloaded ix rel v o then mret ()
                 else as_other (bk_delete bk (off_key o)));
            let restored := with_offloaded None e in
            _ ← on_disk (append_object_ref u2 store_dir project_id (ie_hash e) (ref_of_entry rel v restored));
            let ix := index_insert rel v restored ix in
            _ ← on_disk (index_save u3 ix store_dir);
            mret ix
      end
  end.
End rotation.
