(* ===== verification/HistoryStore.v ===== *)
(** * The history store

    [synergos-core/src/history/store.rs]: a history node keeps every version of every file
    of a project as a content-addressed object with an entry in the index.  Operations of
    one project hold its lock; the lock table carries no data.  [now] is the clock and [u]
    are the random parts of temporary file names. *)

From Stdlib Require Import Strings.Ascii.
From S2P Require Import Prelude Crypto Types Transfer Fs Manifest Glob Retention HistoryIndex Tags Rotation.

Record StoredVersion := mk_StoredVersion {
  sv_rel : string;
  sv_version : N;
  sv_hash : string;
  sv_size : N;
  sv_crc : N;
  sv_stored_at : N;
  sv_publisher : string;
  sv_source : string;
  sv_path : path;
}.

Inductive ArchiveOutcome := Stored | Deduplicated | AlreadyIndexed | NotCovered.

Global Instance ArchiveOutcome_eq_dec : EqDecision ArchiveOutcome.
Proof. solve_decision. Defined.

Record GcReport := mk_GcReport {
  removed_versions : list vkey;
  removed_objects : N;
  bytes_freed : N;
}.
Definition empty_gc_report : GcReport := mk_GcReport [] 0 0.

Record Snapshot := mk_Snapshot { snap_path : path; snap_hash : string }.

(** ** Settings *)

(** [str::trim() != self]. *)
Definition has_surrounding_space (s : string) : bool :=
  let l := chars (as_bytes s) in negb (bool_decide (trim l = l)).

(** [Component::CurDir] only appears at the start of a relative path. *)
Definition escapes_project (root : string) : bool :=
  match split_on "/"%char root with
  | "." :: _ => true
  | l => bool_decide (".." ∈ l)
  end.

Definition history_validate (c : HistoryConfig) : bool :=
  (if enabled c then
     negb (is_blank_text (hc_root c)) && negb (has_surrounding_space (hc_root c))
     && (is_absolute (hc_root c) || negb (escapes_project (hc_root c)))
     && negb (bool_decide (hc_projects c = []))
   else true)
  && rotation_validate (rotation c).

Definition to_stored (rel : string) (v : N) (e : IndexEntry) (p : path) : StoredVersion :=
  mk_StoredVersion rel v (ie_hash e) (ie_size e) (ie_crc e) (stored_at e) (ie_publisher e)
    (ie_source e) p.

(** The loop of [store_dir] over the components of a relative root. *)
Fixpoint check_store_components (canonical_root candidate comps : path) : IO path :=
  match comps with
  | [] => mret candidate
  | c :: comps' =>
      if bool_decide (c = "..") then check_store_components canonical_root candidate comps'
      else
        let candidate := candidate ++ [c] in
        m ← try_ (symlink_metadata candidate);
        match m with
        | Ok (Symlink _) => throw PermissionDenied
        | Ok _ =>
            k ← canonicalize candidate;
            if path_starts_with canonical_root k
            then check_store_components canonical_root candidate comps'
            else throw PermissionDenied
        | Err NotFound => check_store_components canonical_root candidate comps'
        | Err e => throw e
        end
  end.

(** ** Temporary files *)
Definition is_index_tmp (name : string) : bool :=
  str_starts_with "index-" name && str_ends_with ".tmp" name.
Definition is_archive_tmp (name : string) : bool :=
  str_starts_with ".archive-" name && str_ends_with ".tmp" name.
Definition is_meta_tmp (name : string) : bool := str_contains ".meta.tmp-" name.

Section store.
Context `{Blake3, Crc32, Hex, !Codec HistoryIndex, !Codec ObjectMeta, !Codec Tag, DirOrder}.

Definition project_dir_name (project_id : string) : string :=
  hex_encode (blake3 (as_bytes project_id)).

Definition store_dir (c : HistoryConfig) (project_root : path) (project_id : string) : IO path :=
  if negb (history_validate c) then throw InvalidInput
  else if is_absolute (hc_root c) then mret (components (hc_root c) ++ [project_dir_name project_id])
  else
    canonical_root ← canonicalize project_root;
    check_store_components canonical_root canonical_root (components (hc_root c)).

(** [let _ = remove_file(tmp); return Err(e)]. *)
Definition discard {A} (tmp : path) (e : IoError) : IO A :=
  _ ← ignore (remove_file tmp); throw e.

(** Runs [m]; an error discards the temporary file first. *)
Definition or_discard {A} (tmp : path) (m : IO A) : IO A :=
  r ← try_ m;
  match r with Ok a => mret a | Err e => discard tmp e end.

Definition create_snapshot (u : string) (src store : path) (expected_size expected_crc : N) : IO Snapshot :=
  let staging := objects_dir store in
  _ ← create_dir_all staging;
  let tmp := staging ++ [".archive-" +:+ u +:+ ".tmp"] in
  _ ← or_discard tmp (copy src tmp);
  '(actual_crc, actual_size) ← or_discard tmp (crc32_of_file tmp);
  if negb (actual_size =? expected_size)%N || negb (actual_crc =? expected_crc)%N
  then discard tmp InvalidData
  else
    '(hash, hashed_size, _) ← or_discard tmp (as_other (hash_path tmp));
    if negb (hashed_size =? expected_size)%N then discard tmp InvalidData
    else mret (mk_Snapshot tmp (hex_encode hash)).

Definition validate_object (p : path) (expected_hash : string) (expected_size expected_crc : N) : IO bool :=
  r ← try_ (crc32_of_file p);
  match r with
  | Err NotFound => mret false
  | Err e => throw e
  | Ok (actual_crc, actual_size) =>
      if negb (actual_size =? expected_size)%N || negb (actual_crc =? expected_crc)%N then mret false
      else
        '(hash, hashed_size, _) ← as_other (hash_path p);
        mret ((hashed_size =? expected_size)%N && bool_decide (hex_encode hash = expected_hash))
  end.

(** ** [archive] *)

(** The object takes the snapshot's place: [Stored], [Deduplicated] or [AlreadyIndexed]. *)
Definition place_object (store : path) (ix : HistoryIndex) (snapshot : Snapshot) (rel : string)
    (v expected_size expected_crc : N) : IO ArchiveOutcome :=
  let tmp := snap_path snapshot in
  let obj := object_path store (snap_hash snapshot) in
  valid ← or_discard tmp (validate_object obj (snap_hash snapshot) expected_size expected_crc);
  if valid : bool then
    _ ← ignore (remove_file tmp);
    mret (match index_get ix rel v with Some _ => AlreadyIndexed | None => Deduplicated end)
  else
    _ ← or_discard tmp (create_dir_all (parent obj));
    _ ← or_discard tmp (replace_file_atomically tmp obj);
    mret Stored.

(** The version is recorded in the sidecar and in the index. *)
Definition record_version (us : nat → string) (now : N) (store : path) (project_id rel : string)
    (v expected_size expected_crc : N) (publisher source : string) (ix : HistoryIndex) (hash : string)
    (outcome : ArchiveOutcome) : IO ArchiveOutcome :=
  if bool_decide (outcome = AlreadyIndexed) then
    e ← lift_result (ok_or (index_get ix rel v) InvalidData);
    _ ← append_object_ref (us 2) store project_id (ie_hash e) (ref_of_entry rel v e);
    mret outcome
  else
    let e := mk_IndexEntry hash expected_size expected_crc now publisher source None in
    _ ← append_object_ref (us 2) store project_id hash (ref_of_entry rel v e);
    _ ← index_save (us 3) (index_insert rel v e ix) store;
    mret outcome.

(** [archive] once the store's directory is known. *)
Definition archive_in (us : nat → string) (now : N) (store : path) (project_id rel : string)
    (v expected_size expected_crc : N) (publisher source : string) (src : path) : IO ArchiveOutcome :=
  snapshot ← create_snapshot (us 0) src store expected_size expected_crc;
  let tmp := snap_path snapshot in
  ix ← or_discard tmp (load_or_rebuild (us 1) store project_id);
  if match index_get ix rel v with
     | Some e => negb (bool_decide (ie_hash e = snap_hash snapshot))
     | None => false
     end
  then discard tmp AlreadyExists
  else
    outcome ← place_object store ix snapshot rel v expected_size expected_crc;
    record_version us now store project_id rel v expected_size expected_crc publisher source ix
      (snap_hash snapshot) outcome.

Definition archive (us : nat → string) (now : N) (c : HistoryConfig) (project_root : path)
    (project_id rel : string) (v expected_size expected_crc : N) (publisher source : string)
    (src : path) : IO ArchiveOutcome :=
  if negb (config_covers c project_id) then mret NotCovered
  else
    store ← store_dir c project_root project_id;
    archive_in us now store project_id rel v expected_size expected_crc publisher source src.

(** ** Listing *)
Definition list_versions (u : string) (c : HistoryConfig) (project_root : path) (project_id : string)
    (rel : option string) : IO (list StoredVersion) :=
  if negb (config_covers c project_id) then mret []
  else
    store ← store_dir c project_root project_id;
    ix ← load_or_rebuild u store project_id;
    mret ((λ '(r, v, e), to_stored r v e (object_path store (ie_hash e))) <$>
      filter (λ x, match rel with None => true | Some want => bool_decide (want = x.1.1) end = true)
        (iter_all ix)).

Definition list_offloaded_versions (u : string) (c : HistoryConfig) (project_root : path)
    (project_id : string) (rel : option string) : IO (list OffloadedVersion) :=
  store ← store_dir c project_root project_id;
  ix ← load_or_rebuild u store project_id;
  mret (list_offloaded ix rel).

(** ** Tags *)
Definition with_store {A} (c : HistoryConfig) (project_root : path) (project_id : string)
    (f : path → IO A) : IO A :=
  if negb (config_covers c project_id) then throw PermissionDenied
  else store ← store_dir c project_root project_id; f store.

Definition tag_add (u : string) (now : N) (c : HistoryConfig) (root : path) (pid name : string)
    (p : gmap string N) : IO Tag :=
  with_store c root pid (λ store, tag_save u store pid name now p).
Definition tag_show (c : HistoryConfig) (root : path) (pid name : string) : IO (option Tag) :=
  with_store c root pid (λ store, tag_load store pid name).
Definition store_tag_list (c : HistoryConfig) (root : path) (pid : string) : IO (list TagSummary) :=
  with_store c root pid (λ store, tag_list store pid).
Definition store_tag_remove (c : HistoryConfig) (root : path) (pid name : string) : IO bool :=
  with_store c root pid (λ store, tag_remove store pid name).

Definition protected_versions (u : string) (c : HistoryConfig) (project_root : path)
    (project_id : string) (extra_keep : list vkey) : IO (list vkey) :=
  store ← store_dir c project_root project_id;
  tag_pins ← all_pins store project_id;
  _ ← (if bool_decide (tag_pins = []) then mret ()
       else _ ← load_or_rebuild u store project_id; mret ());
  mret (extra_keep ++ tag_pins).

(** ** Garbage collection *)

(** [remove_matching]: the bytes freed so far are carried along. *)
Definition remove_matching (dir : path) (matches : string → bool) : IO N :=
  names ← read_dir_or dir;
  match names with
  | None => mret 0%N
  | Some names =>
      for_entries (λ name freed,
        if negb (matches name) then mret freed
        else
          t ← file_type (dir ++ [name]);
          if negb (is_file_node t) then mret freed
          else
            m ← try_ (symlink_metadata (dir ++ [name]));
            let sz := match m with Ok n => node_len n | Err _ => 0%N end in
            r ← try_ (remove_file (dir ++ [name]));
            mret (if is_ok r then sat_add freed sz else freed)) names 0%N
  end.

Definition sweep_stale_temporaries (store : path) : IO N :=
  freed ← remove_matching store is_index_tmp;
  let objects := objects_dir store in
  more ← remove_matching objects is_archive_tmp;
  let freed := sat_add freed more in
  shards ← read_dir_or objects;
  match shards with
  | None => mret freed
  | Some names =>
      for_entries (λ shard freed,
        t ← file_type (objects ++ [shard]);
        if negb (is_dir_node t) then mret freed
        else more ← remove_matching (objects ++ [shard]) is_meta_tmp; mret (sat_add freed more))
        names freed
  end.

Definition collect_object_hashes (store : path) : IO (list string) :=
  let objects := objects_dir store in
  shards ← read_dir_or objects;
  match shards with
  | None => mret []
  | Some names =>
      for_entries (λ shard out,
        t ← file_type (objects ++ [shard]);
        if negb (is_dir_node t) then mret out
        else
          files ← read_dir (objects ++ [shard]);
          for_entries (λ name out,
            mret (if contains_char "."%char name || negb (is_valid_object_hash name) then out
                  else out ++ [name])) files out) names []
  end.

(** The sizes of the objects a purge will remove; an object that cannot be read counts 0. *)
Definition sum_object_sizes (store : path) (hashes : list string) : IO N :=
  fold_st (λ h freed,
    m ← try_ (metadata (object_path store h));
    mret (match m with Ok n => sat_add freed (node_len n) | Err _ => freed end)) hashes 0%N.

Definition purge (u : string) (store : path) (project_id : string) (ix : HistoryIndex) : IO GcReport :=
  if existsb (λ '(_, _, e), negb (is_local e)) (iter_all ix) then throw InvalidInput
  else
    let removed := (λ '(rel, v, _), (rel, v)) <$> iter_all ix in
    let hashes := isort string_leb (elements (referenced_hashes ix)) in
    freed ← sum_object_sizes store hashes;
    _ ← index_save u (new_index project_id) store;
    r ← try_ (remove_dir_all (objects_dir store));
    _ ← match r with Ok _ | Err NotFound => mret () | Err e => throw e end;
    swept ← sweep_stale_temporaries store;
    mret (mk_GcReport removed (N.of_nat (length hashes)) (sat_add freed swept)).

(** [index.remove(rel, version)] for one victim; the hashes of the removed entries. *)
Definition remove_victim (acc : HistoryIndex * list (vkey * string)) (k : vkey) :
    HistoryIndex * list (vkey * string) :=
  let '(ix, o) := index_remove k.1 k.2 acc.1 in
  (ix, match o with Some e => acc.2 ++ [(k, ie_hash e)] | None => acc.2 end).
Definition remove_victims (victims : list vkey) (ix : HistoryIndex) :
    HistoryIndex * list (vkey * string) :=
  foldl remove_victim (ix, []) victims.

(** The removal of one object without a reference. *)
Definition remove_object (store : path) (h : string) (acc : N * N) : IO (N * N) :=
  let obj := object_path store h in
  m ← try_ (metadata obj);
  let freed := match m with Ok n => wrapping_add acc.2 (node_len n) | Err _ => acc.2 end in
  _ ← ignore (remove_file obj);
  _ ← ignore (remove_file (meta_path store h));
  mret (wrapping_add acc.1 1, freed).

Definition collect_garbage (store : path) (ix : HistoryIndex) : IO (N * N) :=
  hashes ← collect_object_hashes store;
  fold_st (remove_object store) (filter (λ h, h ∉ referenced_hashes ix) hashes) (0, 0)%N.

Definition gc (us : nat → string) (vus : vkey → string) (now : N) (c : HistoryConfig)
    (project_root : path) (project_id : string) (keep : list vkey) (do_purge : bool) : IO GcReport :=
  store ← store_dir c project_root project_id;
  ix ← load_or_rebuild (us 0) store project_id;
  if do_purge then purge (us 1) store project_id ix
  else
    protected ← protected_versions (us 1) c project_root project_id keep;
    let '(ix, removed) := remove_victims (apply_retention ix c protected now) ix in
    _ ← index_save (us 2) ix store;
    _ ← for_each (λ x, remove_object_ref (vus x.1) store x.2 x.1.1 x.1.2) removed;
    '(count, freed) ← collect_garbage store ix;
    swept ← sweep_stale_temporaries store;
    mret (mk_GcReport (fst <$> removed) count (sat_add freed swept)).

(** ** Rotation *)
Section rotation.
Context {Remote : Type}.
Context (s3 : string → string → string → RotationBackend Remote).
Context (gdrive : string → string → RotationBackend Remote).
Context (cwd : path).

Abbreviation RIO A := (ST (RWorld Remote) IoError A).

Definition rotate_store (us : nat → string) (vus : vkey → string * string * string) (now : N)
    (c : HistoryConfig) (project_root : path) (project_id : string) (keep : list vkey) (dry_run : bool) :
    RIO RotationReport :=
  if negb (rotation_enabled (rotation c)) then throw InvalidInput
  else
    store ← on_disk (store_dir c project_root project_id);
    ix ← on_disk (load_or_rebuild (us 0) store project_id);
    protected ← on_disk (protected_versions (us 1) c project_root project_id keep);
    let days := offload_after_days (rotation c) in
    if dry_run then
      mret (mk_RotationReport [] 0 (select_candidates ix days now protected) [])
    else
      bk ← lift_result (build_backend s3 gdrive cwd (us 2) (backend (rotation c)));
      '(_, report) ← rotate store project_id bk (backend (rotation c)) vus ix days now protected false;
      mret report.

(** The backend a version was offloaded to, with the present credentials. *)
Definition backend_of_entry (ix : HistoryIndex) (c : HistoryConfig) (rel : string) (v : N) :
    RotationBackendConfig :=
  let cfg := default (backend (rotation c))
               (e ← index_get ix rel v; o ← offloaded e; off_config o) in
  match cfg, backend (rotation c) with
  | BackendGdrive folder _, BackendGdrive _ credentials => BackendGdrive folder credentials
  | _, _ => cfg
  end.

Definition fetch_offloaded (us : nat → string) (c : HistoryConfig) (project_root : path)
    (project_id rel : string) (v : N) : RIO () :=
  if negb (rotation_enabled (rotation c)) then throw InvalidInput
  else
    store ← on_disk (store_dir c project_root project_id);
    ix ← on_disk (load_or_rebuild (us 0) store project_id);
    bk ← lift_result (build_backend s3 gdrive cwd (us 1) (backend_of_entry ix c rel v));
    _ ← fetch store project_id bk (us 2) (us 3) (us 4) ix rel v;
    mret ().

Definition lookup (us : nat → string) (c : HistoryConfig) (project_root : path)
    (project_id rel : string) (v : N) : RIO (option StoredVersion) :=
  if negb (config_covers c project_id) then mret None
  else
    store ← on_disk (store_dir c project_root project_id);
    ix ← on_disk (load_or_rebuild (us 5) store project_id);
    match index_get ix rel v with
    | None => mret None
    | Some e =>
        if is_local e then
          let p := object_path store (ie_hash e) in
          r ← try_ (on_disk (validate_object p (ie_hash e) (ie_size e) (ie_crc e)));
          match r with
          | Ok true => mret (Some (to_stored rel v e p))
          | _ => mret None
          end
        else if negb (rotation_enabled (rotation c)) then mret None
        else
          f ← try_ (fetch_offloaded us c project_root project_id rel v);
          match f with
          | Err _ => mret None
          | Ok _ =>
              refreshed ← on_disk (load_or_rebuild (us 6) store project_id);
              mret (e ← index_get refreshed rel v;
                    Some (to_stored rel v e (object_path store (ie_hash e))))
          end
    end.
End rotation.
End store.
