(* ===== verification/StoreInv.v ===== *)
(** * The invariant of a history store

    Every object is the content its name is the hash of, and every local version of the
    index on disk has its object.  The operations of [HistoryIndex], [Tags], [Rotation] and
    [HistoryStore] keep the invariant whatever operation of the file system fails or stops
    half-way. *)

From Stdlib Require Import Strings.Ascii.
From S2P Require Import Prelude Crypto Types Transfer Fs FsPlain Manifest Retention HistoryIndex.
From S2P Require Import Tags Rotation HistoryStore.

(** ** Names *)
Lemma as_bytes_cons c s : as_bytes (String.String c s) = Ascii.byte_of_ascii c :: as_bytes s.
Proof. done. Qed.

Lemma contains_char_app c s t : contains_char c (s +:+ t) = contains_char c s || contains_char c t.
Proof.
  induction s as [|d s IH]; [done|].
  change (String.String d s +:+ t) with (String.String d (s +:+ t)). cbn [contains_char].
  by rw IH orb_assoc.
Qed.

Lemma hex_no_dot s : forallb is_ascii_hexdigit (as_bytes s) = true → contains_char "."%char s = false.
Proof.
  induction s as [|d s IH]; [done|]. rw as_bytes_cons. cbn. intros [Hd Hs]%andb_true_iff.
  rw IH // orb_false_r. apply bool_decide_eq_false. intros ->. by vm_compute in Hd.
Qed.

Lemma valid_hex h : is_valid_object_hash h = true → forallb is_ascii_hexdigit (as_bytes h) = true.
Proof. unfold is_valid_object_hash. by intros [_ ?]%andb_true_iff. Qed.

Lemma valid_no_dot h : is_valid_object_hash h = true → contains_char "."%char h = false.
Proof. intros H. by apply hex_no_dot, valid_hex. Qed.

Lemma shard_no_dot h : is_valid_object_hash h = true → contains_char "."%char (shard_of h) = false.
Proof.
  intros Hv. pose proof (valid_hex _ Hv) as Hh. unfold is_valid_object_hash in Hv. bool_to_prop.
  destruct h as [|a [|b h]]; try done.
  replace (shard_of (String.String a (String.String b h))) with (String.String a (String.String b ""))
    by (unfold shard_of; cbn; by destruct h).
  apply hex_no_dot. rw !as_bytes_cons in Hh |- *. cbn [forallb] in Hh |- *. bool_to_prop.
  by rw H1 H2.
Qed.

Lemma no_dot_ne s : contains_char "."%char s = false → s ≠ "..".
Proof. by intros H ->. Qed.

Lemma dotted_ne c s : contains_char "."%char s = false → contains_char "."%char c = true → s ≠ c.
Proof. intros ? ? ->. congruence. Qed.

Lemma with_extension_dotted name ext : contains_char "."%char (with_extension name ext) = true.
Proof.
  unfold with_extension. destruct (before_last_dot name) as [[|c p]|]; rw !contains_char_app /= ?orb_true_r //.
Qed.

(** A dotted name that is longer than two characters is a proper component. *)
Lemma suffix_ne s t : String.length t ≠ 0 → t ≠ "." → t ≠ ".." → s +:+ t ≠ "..".
Proof.
  intros H1 H2 H3. destruct s as [|a [|b [|c s]]]; [done| | |].
  - intros [= _ E]. by apply H2.
  - intros [= _ _ E]. change (t = "") in E. by rw E in H1.
  - done.
Qed.

(** ** Paths of the store *)
Section store_paths.
Context (S : path).

Definition related (q : path) : Prop := (∃ n, q = take n S) ∨ ∃ x, q = S ++ x.

Definition is_object_path (q : path) : Prop := ∃ h, is_valid_object_hash h = true ∧ q = object_path S h.

(** A path of the store that is neither the index nor an object. *)
Definition harmless (q : path) : Prop := related q ∧ q ≠ index_path S ∧ ¬ is_object_path q.

Lemma object_path_inj h h' : object_path S h = object_path S h' → h = h'.
Proof. unfold object_path. by intros [_ ?]%app_inj_tail. Qed.

Lemma length_object_path h : length (object_path S h) = length S + 3.
Proof. unfold object_path, shard_dir, objects_dir. rw !length_app /=. lia. Qed.

Lemma length_index_path : length (index_path S) = length S + 1.
Proof. unfold index_path. rw length_app //. Qed.

Lemma object_ne_index h : object_path S h ≠ index_path S.
Proof. intros E%(f_equal length). rw length_object_path length_index_path in E. lia. Qed.

Lemma related_app x : related (S ++ x).
Proof. right. by exists x. Qed.

Lemma related_take n : related (take n S).
Proof. left. by exists n. Qed.

Lemma related_take_app x n : related (take n (S ++ x)).
Proof.
  destruct (decide (n ≤ length S)); [left; exists n; by rw take_app_le|].
  right. exists (take (n - length S) x). rw take_app_ge //; lia.
Qed.
End store_paths.

(** Decides [related] for a path that is spelt out from the store's directory. *)
Ltac solve_related :=
  unfold object_path, meta_path, meta_tmp, shard_dir, objects_dir, index_path, tags_dir;
  rewrite -?app_assoc; first [apply related_app | apply related_take | apply related_take_app].

Section harmless.
Context (S : path).

Lemma harmless_dotted p c :
  related S (p ++ [c]) → length p ≠ length S → contains_char "."%char c = true → harmless S (p ++ [c]).
Proof.
  intros Hr Hl Hc. split_and!; [done| |].
  - intros E%(f_equal length). rw length_app length_index_path /= in E. lia.
  - intros (h & Hv & E). unfold object_path in E. apply app_inj_tail in E as [_ ->].
    by rw valid_no_dot in Hc.
Qed.

Lemma harmless_length q : related S q → length q ≠ length S + 1 → length q ≠ length S + 3 → harmless S q.
Proof.
  intros Hr H1 H2. split_and!; [done|intros ->; by rw length_index_path in H1|].
  intros (h & _ & ->). by rw length_object_path in H2.
Qed.

Lemma harmless_entry c : c ≠ INDEX_FILE → harmless S (S ++ [c]).
Proof.
  intros Hc. split_and!; [apply related_app|by intros [_ ?]%app_inj_tail|].
  intros (h & _ & E%(f_equal length)). rw length_app length_object_path /= in E. lia.
Qed.
End harmless.

(** ** The invariant

    Objects may be damaged: of those whose hash is in the set [damaged] the invariant says only
    that they are files, if they are there at all.  By default none is. *)
Class Damaged := damaged : string → Prop.
#[global] Instance no_damage : Damaged | 100 := λ _, False.

Section invariant.
Context `{Blake3, Hex, !Codec HistoryIndex} {Dmg : Damaged}.
Context (S : path) (project_id : string) (d0 : Fs).

(** Every local version of [ix] has its object. *)
Definition index_good (d : Fs) (ix : HistoryIndex) : Prop :=
  ∀ rel v e, index_get ix rel v = Some e → is_local e = true →
    is_valid_object_hash (ie_hash e) = true ∧ (is_Some (d !! object_path S (ie_hash e)) ∨ damaged (ie_hash e)).

Record store_inv (d : Fs) : Prop := {
  si_wf : tree_wf d;
  si_frame : ∀ q, ¬ related S q → d !! q = d0 !! q;
  si_normal : normal S;
  si_nolinks : ∀ q t, related S q → d !! q ≠ Some (Symlink t);
  si_objects : ∀ h n, is_valid_object_hash h = true → d !! object_path S h = Some n →
    ∃ b, n = File b ∧ (hex_encode (blake3 b) = h ∨ damaged h);
  si_index : ∀ b ix, d !! index_path S = Some (File b) → from_slice b = Some ix →
    index_belongs ix project_id = true → index_entries_valid ix = true → index_good d ix;
}.

(** What operations that touch neither the index nor an object leave as it was. *)
Record same_store (d d' : Fs) : Prop := {
  ss_objects : ∀ h, is_valid_object_hash h = true → d' !! object_path S h = d !! object_path S h;
  ss_index : d' !! index_path S = d !! index_path S;
}.

Global Instance same_store_preorder : PreOrder same_store.
Proof.
  split; [done|]. intros d1 d2 d3 [Ho1 Hi1] [Ho2 Hi2]. split; [|congruence].
  intros h Hh. by rw Ho2 // Ho1.
Qed.

Lemma index_good_mono d d' ix :
  (∀ h, is_valid_object_hash h = true → is_Some (d !! object_path S h) → is_Some (d' !! object_path S h)) →
  index_good d ix → index_good d' ix.
Proof. intros Hk Hg rel v e He Hl. destruct (Hg rel v e He Hl) as [? [?|?]]; auto. Qed.

Lemma index_good_same d d' ix : same_store d d' → index_good d ix → index_good d' ix.
Proof. intros [Ho _]. apply index_good_mono. intros h Hh. by rw Ho. Qed.

Lemma index_good_new d : index_good d (new_index project_id).
Proof. intros rel v e He. by rw /index_get lookup_empty in He. Qed.

(** A path below the store meets no link. *)
Lemma plain_store d x : store_inv d → normal x → plain d (S ++ x).
Proof.
  intros Hi Hx. split.
  - unfold normal in *. pose proof (si_normal _ Hi). unfold normal in *. set_solver.
  - intros n t. apply (si_nolinks _ Hi), related_take_app.
Qed.

(** *** Edits *)
Lemma frame_edit d q o :
  store_inv d → related S q → ∀ q', ¬ related S q' → edit d q o !! q' = d0 !! q'.
Proof.
  intros Hi Hr q' Hq. rw lookup_partial_alter_ne; [by intros ->|]. by apply (si_frame _ Hi).
Qed.

Lemma same_store_edit d q o : harmless S q → same_store d (edit d q o).
Proof.
  intros (_ & Hi & Ho). split.
  - intros h Hh. rw lookup_partial_alter_ne //. intros ->. apply Ho. by exists h.
  - by rw lookup_partial_alter_ne.
Qed.

Lemma inv_edit d p c o :
  store_inv d → d !! (p ++ [c]) ≠ Some Dir → (is_Some o → node_at d p = Some Dir) → is_content o →
  harmless S (p ++ [c]) → store_inv (edit d (p ++ [c]) o).
Proof.
  intros Hinv Hold Hpar Hcont Hharm. pose proof (same_store_edit d (p ++ [c]) o Hharm) as Hs.
  split; [by apply tree_wf_edit; [apply Hinv|..]|apply frame_edit; [done|apply Hharm]|apply Hinv| | |].
  - intros q t Hq E. rw lookup_partial_alter in E. case_decide; [|by eapply si_nolinks].
    by destruct (Hcont _ E).
  - intros h n Hv E. rw (ss_objects _ _ Hs) // in E. by eapply si_objects.
  - intros b ix E Hd Hb Hv. rw (ss_index _ _ Hs) in E. eapply index_good_same; [done|].
    by eapply si_index.
Qed.

(** An object is placed. *)
Lemma inv_object d h b :
  store_inv d → is_valid_object_hash h = true → hex_encode (blake3 b) = h ∨ damaged h →
  node_at d (shard_dir S h) = Some Dir →
  store_inv (edit d (object_path S h) (Some (File b))).
Proof.
  intros Hinv Hv Hb Hpar.
  assert (Hold : d !! object_path S h ≠ Some Dir).
  { intros E. destruct (si_objects _ Hinv h Dir Hv E) as (? & ? & _). done. }
  split; [by apply tree_wf_edit; [apply Hinv|..]|apply frame_edit; [done|solve_related]|apply Hinv| | |].
  - intros q t Hq E. rw lookup_partial_alter in E. case_decide; [done|by eapply si_nolinks].
  - intros h' n Hv' E. rw lookup_partial_alter in E. case_decide as Heq; [|by eapply si_objects].
    apply object_path_inj in Heq as ->. injection E as <-. exists b. by auto.
  - intros b' ix E Hd Hbl Hval. rw lookup_partial_alter_ne in E; [apply object_ne_index|].
    eapply index_good_mono; [|by eapply si_index]. intros h' _ Hs. rw lookup_partial_alter.
    by case_decide.
Qed.

(** The index is replaced. *)
Lemma inv_index d b :
  store_inv d → d !! index_path S ≠ Some Dir → node_at d S = Some Dir →
  (∀ ix, from_slice b = Some ix → index_good d ix) →
  store_inv (edit d (index_path S) (Some (File b))).
Proof.
  intros Hinv Hold Hpar Hg.
  assert (Ho : ∀ h, edit d (index_path S) (Some (File b)) !! object_path S h = d !! object_path S h).
  { intros h. rw lookup_partial_alter_ne //. intros E. by eapply object_ne_index. }
  split; [by apply tree_wf_edit; [apply Hinv|..]|apply frame_edit; [done|solve_related]|apply Hinv| | |].
  - intros q t Hq E. rw lookup_partial_alter in E. case_decide; [done|by eapply si_nolinks].
  - intros h n Hv E. rw Ho in E. by eapply si_objects.
  - intros b' ix E Hd _ _. rw lookup_partial_alter_eq in E. injection E as <-.
    eapply index_good_mono; [|by apply Hg]. intros h _. by rw Ho.
Qed.

(** The index on disk is [ix]. *)
Definition index_is (d : Fs) (ix : HistoryIndex) : Prop :=
  ∃ b, d !! index_path S = Some (File b) ∧ from_slice b = Some ix.

Lemma index_is_same d d' ix : same_store d d' → index_is d ix → index_is d' ix.
Proof. intros [_ Hi] (b & ? & ?). exists b. by rw Hi. Qed.

(** An object that no local version of the index refers to is removed. *)
Lemma inv_remove_object d h ix :
  store_inv d → index_is d ix → index_good d ix →
  (∀ rel v e, index_get ix rel v = Some e → is_local e = true → ie_hash e ≠ h) →
  d !! object_path S h ≠ Some Dir →
  store_inv (edit d (object_path S h) None) ∧ index_is (edit d (object_path S h) None) ix ∧
  index_good (edit d (object_path S h) None) ix.
Proof.
  intros Hinv (b & Hb & Hd) Hg Hn Hold.
  assert (Hi : edit d (object_path S h) None !! index_path S = d !! index_path S).
  { rw lookup_partial_alter_ne //. apply object_ne_index. }
  assert (Hg' : index_good (edit d (object_path S h) None) ix).
  { intros rel v e He Hl. destruct (Hg rel v e He Hl) as [? Hs]. split; [done|].
    rw lookup_partial_alter_ne //. intros E%object_path_inj. by eapply Hn. }
  split_and!; [|by exists b; rw Hi|done]. split.
  - by apply tree_wf_edit; [apply Hinv|..]; [done|intros []%is_Some_None].
  - apply frame_edit; [done|solve_related].
  - apply Hinv.
  - intros q t Hq E. rw lookup_partial_alter in E. case_decide; [done|by eapply si_nolinks].
  - intros h' n Hv' E. rw lookup_partial_alter in E. case_decide; [done|by eapply si_objects].
  - intros b' ix' E Hd' _ _. rw Hi Hb in E. injection E as <-. rw Hd in Hd'. by injection Hd' as <-.
Qed.

(** Directories are added. *)
Lemma inv_dirs p d d' :
  store_inv d → dirs_added p d d' → (∀ n, harmless S (take n p)) →
  store_inv d' ∧ same_store d d'.
Proof.
  intros Hinv Hadd Hp.
  assert (Hs : same_store d d').
  { split.
    - intros h Hh. destruct (proj2 Hadd (object_path S h)) as [->|(_ & _ & n & E)]; [done|].
      destruct (Hp n) as (_ & _ & []). exists h. by rw E.
    - destruct (proj2 Hadd (index_path S)) as [->|(_ & _ & n & E)]; [done|].
      destruct (Hp n) as (_ & [] & _). by rw E. }
  split; [|done]. split; [apply Hadd| |apply Hinv| | |].
  { intros q Hq. rw -(si_frame _ Hinv q Hq). destruct (proj2 Hadd q) as [?|(_ & _ & n & ->)]; [done|].
    by destruct (Hp n) as (? & _). }
  - intros q t Hq E. eapply (si_nolinks _ Hinv); [done|]. by eapply dirs_added_links.
  - intros h n Hv E. rw (ss_objects _ _ Hs) // in E. by eapply si_objects.
  - intros b ix E Hd Hb Hv. rw (ss_index _ _ Hs) in E. eapply index_good_same; [done|].
    by eapply si_index.
Qed.
End invariant.

(** ** Loops *)
Lemma wp_mono_post {St E A} (m : ST St E A) (Q : result E A → St → Prop) (P : St → Prop) s :
  wp m (λ _, P) s → (∀ r s', P s' → Q r s') → wp m Q s.
Proof. intros Hw HQ. eapply wp_mono; [done|]. by auto. Qed.

(** A directory loop keeps an invariant indexed by the names that are left. *)
Lemma wp_for_entries_rest {A} (f : string → A → IO A) (I : list string → A → World → Prop)
    (Q : result IoError A → World → Prop) names a w :
  (∀ l a w w', disk w' = disk w → I l a w → I l a w') →
  (∀ l a e w, I l a w → Q (Err e) w) →
  (∀ a w, I [] a w → Q (Ok a) w) →
  (∀ name l a w, name ∈ names → I (name :: l) a w →
     wp (f name a) (λ r w', match r with Ok a' => I l a' w' | Err e => Q (Err e) w' end) w) →
  I names a w → wp (for_entries f names a) Q w.
Proof.
  intros Hd He Hend. revert a w. induction names as [|name names IH]; intros a w Hstep HI.
  - cbn [for_entries]. wp_step. apply wp_query. intros r w' Hw [->| ->].
    + wp_step. apply Hend. by eapply Hd.
    + eapply He. by eapply Hd.
  - cbn [for_entries]. wp_step. apply wp_query. intros r w' Hw [->| ->].
    + wp_step. eapply wp_mono; [apply (Hstep name names); [set_solver|by eapply Hd]|].
      intros [a'|e] w2 H2; [|done]. apply IH; [|done]. intros n2 ? ? ? ? ?. apply Hstep; [set_solver|done].
    + eapply He. by eapply Hd.
Qed.

(** A directory loop keeps what its body and the listing keep. *)
Lemma wp_for_entries {A} (f : string → A → IO A) (I : A → World → Prop)
    (Q : result IoError A → World → Prop) names a w :
  (∀ a w w', disk w' = disk w → I a w → I a w') →
  (∀ a e w, I a w → Q (Err e) w) →
  (∀ a w, I a w → Q (Ok a) w) →
  (∀ name a w, name ∈ names → I a w →
     wp (f name a) (λ r w', match r with Ok a' => I a' w' | Err e => Q (Err e) w' end) w) →
  I a w → wp (for_entries f names a) Q w.
Proof. intros ? ? ? Hstep HI. apply (wp_for_entries_rest f (λ _, I)); [by eauto..|]. done. Qed.

Lemma wp_fold_st {St E X A} (f : X → A → ST St E A) (I : A → St → Prop)
    (Q : result E A → St → Prop) l a s :
  (∀ a s, I a s → Q (Ok a) s) →
  (∀ x a s, x ∈ l → I a s → wp (f x a) (λ r s', match r with Ok a' => I a' s' | Err e => Q (Err e) s' end) s) →
  I a s → wp (fold_st f l a) Q s.
Proof.
  intros Hend. revert a s. induction l as [|x l IH]; intros a s Hstep HI; [by apply Hend|].
  cbn [fold_st]. wp_step. eapply wp_mono; [apply Hstep; [set_solver|done]|].
  intros [a'|e] s' Hs; [|done]. apply IH; [|done]. intros y ? ? ? ?. apply Hstep; [set_solver|done].
Qed.

(** A computation that only reads the disk. *)
Definition reads {A} (m : IO A) : Prop := ∀ w, wp m (λ _ w', disk w' = disk w) w.

Lemma reads_query {A} (op : Fs → result IoError A) : reads (query op).
Proof. intros w. apply wp_query. done. Qed.

Lemma reads_bind {A B} (m : IO A) (f : A → IO B) : reads m → (∀ a, reads (f a)) → reads (m ≫= f).
Proof.
  intros Hm Hf w. wp_step. eapply wp_mono; [apply Hm|]. intros [a|e] w' E; cbn beta in E; [|done].
  eapply wp_mono; [apply Hf|]. cbn beta. congruence.
Qed.
Lemma reads_try {A} (m : IO A) : reads m → reads (try_ m).
Proof. intros Hm w. wp_step. apply Hm. Qed.
Lemma reads_ret {A} (a : A) : reads (mret a).
Proof. by intros w. Qed.
Lemma reads_throw {A} e : reads (throw (A := A) e).
Proof. by intros w. Qed.
Lemma reads_lift {A} (r : result IoError A) : reads (lift_result r).
Proof. by intros w. Qed.
Lemma reads_as_other {A} (m : IO A) : reads m → reads (as_other m).
Proof. intros Hm w. specialize (Hm w). unfold wp, as_other in *. by destruct (m w). Qed.
Lemma reads_for_entries {A} (f : string → A → IO A) names a :
  (∀ n a, reads (f n a)) → reads (for_entries f names a).
Proof.
  intros Hf. revert a. induction names as [|n names IH]; intros a; cbn [for_entries];
    (apply reads_bind; [apply reads_query|]); intros _; [apply reads_ret|].
  apply reads_bind; [apply Hf|]. done.
Qed.
Lemma reads_fold_st {X A} (f : X → A → IO A) l a : (∀ x a, reads (f x a)) → reads (fold_st f l a).
Proof.
  intros Hf. revert a. induction l as [|x l IH]; intros a; cbn [fold_st]; [apply reads_ret|].
  apply reads_bind; [apply Hf|]. done.
Qed.

(** Decides [reads] along the structure of a computation. *)
Ltac solve_reads :=
  repeat first
    [ progress intros
    | apply reads_query | apply reads_ret | apply reads_throw | apply reads_lift
    | apply reads_try | apply reads_as_other | apply reads_for_entries | apply reads_fold_st
    | apply reads_bind
    | match goal with |- reads (match ?x with _ => _ end) => destruct x end
    | match goal with |- reads (let '(_, _) := ?x in _) => destruct x end ].

Lemma reads_wp {A} (m : IO A) (Q : result IoError A → World → Prop) w :
  reads m → (∀ r w', m w = (r, w') → disk w' = disk w → Q r w') → wp m Q w.
Proof.
  intros Hm HQ. apply wp_intro. intros r w' E. apply HQ; [done|].
  exact (wp_eq _ _ _ _ _ (Hm w) E).
Qed.

Section read_only.
Context `{Blake3, Crc32, Hex, !Codec HistoryIndex, !Codec ObjectMeta, !Codec Tag, DirOrder}.

Lemma reads_crc32_of_file p : reads (crc32_of_file p).
Proof. unfold crc32_of_file. solve_reads. Qed.
Lemma reads_hash_path p : reads (hash_path p).
Proof. unfold hash_path. solve_reads. Qed.
Lemma reads_validate_fetched p e : reads (validate_fetched p e).
Proof.
  unfold validate_fetched. apply reads_bind; [apply reads_crc32_of_file|]. intros [crc sz].
  destruct (_ || _); [apply reads_ret|]. apply reads_bind; [apply reads_as_other, reads_hash_path|].
  intros [[] ]. apply reads_ret.
Qed.
Lemma reads_validate_object p h sz crc : reads (validate_object p h sz crc).
Proof.
  unfold validate_object. apply reads_bind; [apply reads_try, reads_crc32_of_file|].
  intros [[]|[]]; try apply reads_throw; try apply reads_ret.
  destruct (_ || _); [apply reads_ret|]. apply reads_bind; [apply reads_as_other, reads_hash_path|].
  intros [[] ]. apply reads_ret.
Qed.
Lemma reads_rebuild_file S pid shard name ix : reads (rebuild_file S pid shard name ix).
Proof. unfold rebuild_file. solve_reads. Qed.
Lemma reads_rebuild S pid : reads (rebuild_from_sidecars S pid).
Proof.
  unfold rebuild_from_sidecars, read_dir_or. apply reads_bind; [solve_reads|].
  intros [names|]; [|apply reads_ret]. apply reads_for_entries. intros shard ix.
  unfold rebuild_shard, file_type. apply reads_bind; [apply reads_query|]. intros t.
  destruct (negb _); [apply reads_ret|]. apply reads_bind; [apply reads_query|]. intros l.
  apply reads_for_entries. intros. apply reads_rebuild_file.
Qed.
Lemma reads_open_tags_dir S : reads (open_tags_dir S).
Proof. unfold open_tags_dir. solve_reads. Qed.
Lemma reads_read_tag_entry dir pid name : reads (read_tag_entry dir pid name).
Proof. unfold read_tag_entry, ensure_regular_tag_file. solve_reads. Qed.
Lemma reads_all_pins S pid : reads (all_pins S pid).
Proof.
  unfold all_pins. apply reads_bind; [apply reads_open_tags_dir|]. intros [dir|]; [|apply reads_ret].
  apply reads_bind; [apply reads_query|]. intros names. apply reads_for_entries. intros n a.
  apply reads_bind; [apply reads_read_tag_entry|]. intros. apply reads_ret.
Qed.
Lemma reads_store_dir c root pid : reads (store_dir c root pid).
Proof.
  unfold store_dir. destruct (negb _); [apply reads_throw|]. destruct (is_absolute _); [apply reads_ret|].
  apply reads_bind; [apply reads_query|]. intros r. generalize r at 2. generalize (components (hc_root c)).
  intros l. induction l as [|x l IH]; intros cand; cbn [check_store_components]; [apply reads_ret|].
  destruct (bool_decide _); [apply IH|]. apply reads_bind; [apply reads_try, reads_query|].
  intros [[]|[]]; try apply reads_throw; try apply IH;
    (apply reads_bind; [apply reads_query|]; intros k; destruct (path_starts_with _ _); [apply IH|apply reads_throw]).
Qed.
Lemma reads_collect S : reads (collect_object_hashes S).
Proof. unfold collect_object_hashes, read_dir_or, file_type. solve_reads. Qed.
Lemma reads_sum_object_sizes S l : reads (sum_object_sizes S l).
Proof. unfold sum_object_sizes. solve_reads. Qed.
End read_only.

(** ** Saving *)
Section saving.
Context `{Blake3, Hex, !Codec HistoryIndex, !CodecLaws HistoryIndex, !Codec ObjectMeta} {Dmg : Damaged}.
Context (S : path) (pid : string) (d0 : Fs).

Abbreviation inv d := (store_inv S pid d0 d).

Lemma normal_nil : normal [].
Proof. by apply not_elem_of_nil. Qed.
Lemma normal_cons c x : c ≠ ".." → normal x → normal (c :: x).
Proof. unfold normal. set_solver. Qed.

Lemma plain_self d : inv d → plain d S.
Proof. intros Hi. rw -(app_nil_r S). by eapply plain_store, normal_nil. Qed.
Lemma plain_entry d c : inv d → c ≠ ".." → plain d (S ++ [c]).
Proof. intros Hi Hc. eapply plain_store; [done|]. by apply normal_cons, normal_nil. Qed.
Lemma plain_objects d c : inv d → c ≠ ".." → plain d (objects_dir S ++ [c]).
Proof.
  intros Hi Hc. unfold objects_dir. rw -app_assoc. eapply plain_store; [done|].
  apply normal_cons; [done|]. by apply normal_cons, normal_nil.
Qed.
Lemma plain_shard d s c : inv d → s ≠ ".." → c ≠ ".." → plain d ((objects_dir S ++ [s]) ++ [c]).
Proof.
  intros Hi Hs Hc. unfold objects_dir. rw -!app_assoc. eapply plain_store; [done|].
  apply normal_cons; [done|]. apply normal_cons; [done|]. by apply normal_cons, normal_nil.
Qed.

(** Everything below the directory [objects] is as it was. *)
Definition deep_same (d d' : Fs) : Prop := ∀ q, length S + 2 ≤ length q → d' !! q = d !! q.

Global Instance deep_same_preorder : PreOrder deep_same.
Proof. split; [done|]. intros d1 d2 d3 H1 H2 q Hq. by rw H2 // H1. Qed.

Lemma deep_same_object d d' h : deep_same d d' → d' !! object_path S h = d !! object_path S h.
Proof. intros Hs. apply Hs. rw length_object_path. lia. Qed.

Lemma deep_same_good d d' ix : deep_same d d' → index_good S d ix → index_good S d' ix.
Proof. intros Hs. apply index_good_mono. intros h _. by rw (deep_same_object d d'). Qed.

Lemma deep_same_dirs n d d' : dirs_added (take n S) d d' → deep_same d d'.
Proof.
  intros [_ Hd] q Hq. destruct (Hd q) as [->|(_ & _ & m & ->)]; [done|].
  rw !length_take in Hq. lia.
Qed.

Lemma deep_same_edit d c o : deep_same d (edit d (S ++ [c]) o).
Proof. intros q Hq. rw lookup_partial_alter_ne //. intros <-. rw length_app /= in Hq. lia. Qed.

Lemma inv_create_store w :
  inv (disk w) →
  wp (create_dir_all S) (λ r w', inv (disk w') ∧ deep_same (disk w) (disk w') ∧
    disk w' !! index_path S = disk w !! index_path S) w.
Proof.
  intros Hi. eapply wp_mono; [apply wp_create_dirs; [apply Hi|by apply plain_self]|].
  intros r w' [Hadd _]. destruct (inv_dirs S pid d0 S _ _ Hi Hadd) as [? [? ?]].
  { intros n. apply harmless_length; [solve_related|rw length_take; lia..]. }
  split_and!; [done| |done]. apply (deep_same_dirs (length S)). by rw take_ge.
Qed.

Lemma index_tmp_ne u : "index-" +:+ u +:+ ".tmp" ≠ INDEX_FILE.
Proof. by intros [= E]. Qed.

Lemma wp_index_save u ix w :
  inv (disk w) → index_good S (disk w) ix →
  wp (index_save u ix S) (λ r w', inv (disk w') ∧ deep_same (disk w) (disk w') ∧
    (r ≠ Ok () → disk w' !! index_path S = disk w !! index_path S) ∧
    (r = Ok () → index_is S (disk w') ix ∧ index_good S (disk w') ix)) w.
Proof.
  intros Hi Hg. unfold index_save. wp_step. eapply wp_mono; [by apply inv_create_store|].
  intros [[]|e] w1 (Hi1 & Hs1 & Hx1); [|by split_and!].
  assert (Hg1 : index_good S (disk w1) ix) by by eapply deep_same_good.
  unfold save_json. wp_step. wp_step. destruct (to_vec ix) as [b|] eqn:Eb; [|by split_and!]. cbn [ok_or].
  apply (wp_replace_with S ("index-" +:+ u +:+ ".tmp") INDEX_FILE).
  - by apply plain_entry.
  - by apply plain_entry.
  - intros e w' [E|(o & Ho & E & Hold & Hdir)]; rw E; [by split_and!|].
    split_and!; [by apply inv_edit; [..|apply harmless_entry, index_tmp_ne]|etrans; [done|]; apply deep_same_edit| |done].
    intros _. unfold index_path. rw lookup_partial_alter_ne //. by intros [_ ?%index_tmp_ne]%app_inj_tail.
  - intros w' Ht Hold Hdir E. set (d1 := edit (disk w1) (S ++ ["index-" +:+ u +:+ ".tmp"]) None) in *.
    assert (Hi2 : inv d1).
    { apply inv_edit; [done..| |]; [apply is_content_none|apply harmless_entry, index_tmp_ne]. }
    assert (Hs2 : deep_same (disk w1) d1) by apply deep_same_edit.
    assert (Hg2 : index_good S d1 ix) by by eapply deep_same_good.
    assert (Hs3 : deep_same d1 (disk w')) by (rw E; apply deep_same_edit).
    split_and!; [| |done|].
    + rw E. apply inv_index; [done| | |].
      * unfold d1, index_path. rw lookup_partial_alter. by case_decide.
      * unfold d1. by rw node_at_edit_ne; [apply snoc_ne_self|].
      * intros ix' Hix. rw (from_slice_to_vec _ _ Eb) in Hix. by injection Hix as <-.
    + etrans; [done|]. by etrans.
    + intros _. split; [|by eapply deep_same_good]. exists b. rw E lookup_partial_alter_eq.
      split; [done|]. by apply from_slice_to_vec.
Qed.

(** *** Sidecars *)
Lemma meta_suffix_ne h : h +:+ META_SUFFIX ≠ "..".
Proof. by apply suffix_ne. Qed.
Lemma meta_dotted h : contains_char "."%char (h +:+ META_SUFFIX) = true.
Proof. rw contains_char_app. by apply orb_true_r. Qed.

Lemma with_extension_ne name ext : String.length ext ≠ 0 → ext ≠ "." → with_extension name ext ≠ "..".
Proof.
  intros H1 H2. unfold with_extension.
  assert (Hne : ∀ s, s +:+ "." +:+ ext ≠ "..").
  { intros s. destruct s as [|a [|b s]]; [by intros [= E]| |].
    - intros [= _ E]. by destruct ext.
    - intros [= _ _ E]. by destruct s. }
  destruct (before_last_dot name) as [[|c p]|]; apply Hne.
Qed.

Abbreviation quiet m := (∀ w, inv (disk w) → wp m (λ _ w', inv (disk w') ∧ same_store S (disk w) (disk w')) w).

Lemma quiet_reads {A} (m : IO A) : reads m → quiet m.
Proof. intros Hm w Hi. eapply wp_mono; [apply Hm|]. cbn. by intros _ w' ->. Qed.

Lemma quiet_bind {A B} (m : IO A) (f : A → IO B) : quiet m → (∀ a, quiet (f a)) → quiet (m ≫= f).
Proof.
  intros Hm Hf w Hi. wp_step. eapply wp_mono; [by apply Hm|]. intros [a|e] w1 [Hi1 Hs1]; [|done].
  eapply wp_mono; [by apply Hf|]. intros r w2 [Hi2 Hs2]. split; [done|]. by etrans.
Qed.
Lemma quiet_try {A} (m : IO A) : quiet m → quiet (try_ m).
Proof. intros Hm w Hi. wp_step. by apply Hm. Qed.
Lemma quiet_ignore {A} (m : IO A) : quiet m → quiet (ignore m).
Proof. intros Hm w Hi. wp_step. by apply Hm. Qed.

(** One harmless entry changes. *)
Lemma quiet_edit d p c o :
  inv d → d !! (p ++ [c]) ≠ Some Dir → (is_Some o → node_at d p = Some Dir) → is_content o →
  harmless S (p ++ [c]) → inv (edit d (p ++ [c]) o) ∧ same_store S d (edit d (p ++ [c]) o).
Proof. intros. split; [by apply inv_edit|by apply same_store_edit]. Qed.

Lemma quiet_remove p c :
  (∀ d, inv d → plain d (p ++ [c])) → harmless S (p ++ [c]) → quiet (remove_file (p ++ [c])).
Proof.
  intros Hp Hh w Hi. apply wp_remove_plain; [by apply Hp|by intros ?? ->|].
  intros w' -> Hold. apply quiet_edit; [done|done|by intros []|apply is_content_none|done].
Qed.

Lemma quiet_replace_with p c c' b :
  (∀ d, inv d → plain d (p ++ [c])) → (∀ d, inv d → plain d (p ++ [c'])) →
  harmless S (p ++ [c]) → harmless S (p ++ [c']) → quiet (replace_with (p ++ [c]) (p ++ [c']) b).
Proof.
  intros Hp Hp' Hh Hh' w Hi. apply wp_replace_with; [by apply Hp|by apply Hp'| |].
  - intros e w' [->|(o & Ho & -> & ? & ?)]; [done|]. by apply quiet_edit.
  - intros w' Ht Hold Hdir ->.
    destruct (quiet_edit (disk w) p c None) as [Hi1 Hs1]; [done..| |done|]; [apply is_content_none|].
    destruct (quiet_edit (edit (disk w) (p ++ [c]) None) p c' (Some (File b))) as [Hi2 Hs2];
      [done| | |apply is_content_file|done|].
    + rw lookup_partial_alter. by case_decide.
    + intros _. by rw node_at_edit_ne; [apply snoc_ne_self|].
    + split; [done|]. by etrans.
Qed.

Section sidecar.
Context (h : string) (Hv : is_valid_object_hash h = true).

Lemma length_shard_dir : length (shard_dir S h) = length S + 2.
Proof. unfold shard_dir, objects_dir. rw !length_app /=. lia. Qed.

Lemma plain_in_shard d c : inv d → c ≠ ".." → plain d (shard_dir S h ++ [c]).
Proof. intros Hi Hc. apply plain_shard; [done| |done]. by apply no_dot_ne, shard_no_dot. Qed.

Lemma harmless_in_shard c : contains_char "."%char c = true → harmless S (shard_dir S h ++ [c]).
Proof. intros Hc. apply harmless_dotted; [solve_related|rw length_shard_dir; lia|done]. Qed.

Lemma quiet_save_meta u meta : quiet (save_meta u S h meta).
Proof.
  unfold save_meta. apply quiet_bind; [apply quiet_reads, reads_lift|]. intros b.
  apply quiet_replace_with.
  - intros d Hi. apply plain_in_shard; [done|]. by apply with_extension_ne.
  - intros d Hi. apply plain_in_shard; [done|apply meta_suffix_ne].
  - apply harmless_in_shard, with_extension_dotted.
  - apply harmless_in_shard, meta_dotted.
Qed.

Lemma quiet_append u reference : quiet (append_object_ref u S pid h reference).
Proof.
  unfold append_object_ref. apply quiet_bind; [apply quiet_reads, reads_try, reads_query|].
  intros r. apply quiet_bind; [|by intros; apply quiet_save_meta].
  apply quiet_reads. destruct r as [|[]]; solve_reads.
Qed.

Lemma quiet_remove_ref u rel v : quiet (remove_object_ref u S h rel v).
Proof.
  unfold remove_object_ref. apply quiet_bind; [apply quiet_reads, reads_try, reads_query|].
  intros [b|[]]; try apply quiet_reads, reads_throw; try apply quiet_reads, reads_ret.
  apply quiet_bind; [apply quiet_reads, reads_lift|]. intros meta.
  case_bool_decide; [|apply quiet_save_meta].
  apply quiet_bind; [apply quiet_try, quiet_remove|].
  - intros d Hi. apply plain_in_shard; [done|apply meta_suffix_ne].
  - apply harmless_in_shard, meta_dotted.
  - intros [[]|[]]; apply quiet_reads; solve_reads.
Qed.
End sidecar.
End saving.

(** ** The index as a map *)
Lemma index_get_insert ix rel v e rel' v' :
  index_get (index_insert rel v e ix) rel' v' =
    if decide (rel = rel' ∧ v = v') then Some e else index_get ix rel' v'.
Proof.
  unfold index_get, index_insert. cbn. rw lookup_insert. case_decide as E.
  - subst rel'. cbn. rw lookup_insert. destruct (decide (v = v')) as [->|Hv].
    + by rw decide_True.
    + rw decide_False; [by intros []|]. by destruct (entries ix !! rel).
  - by rw decide_False; [intros []|].
Qed.

Lemma index_get_remove ix rel v rel' v' :
  index_get (index_remove rel v ix).1 rel' v' =
    if decide (rel = rel' ∧ v = v') then None else index_get ix rel' v'.
Proof.
  unfold index_get, index_remove. destruct (entries ix !! rel) as [m|] eqn:Em; cbn.
  2:{ case_decide as E; [|done]. destruct E as [<- <-]. by rw Em. }
  case_bool_decide as Hm.
  - rw lookup_delete. destruct (decide (rel = rel')) as [<-|Hne].
    + case_decide as E; [done|]. rw Em. cbn. symmetry.
      assert (Hv : delete v m !! v' = None) by by rw Hm.
      rw lookup_delete in Hv. case_decide as E2; [|done]. destruct E. by subst.
    + by rw decide_False; [intros []|].
  - rw lookup_insert. destruct (decide (rel = rel')) as [<-|Hne].
    + cbn. rw Em. cbn. rw lookup_delete. destruct (decide (v = v')) as [->|Hv].
      * by rw decide_True.
      * by rw decide_False; [intros []|].
    + by rw decide_False; [intros []|].
Qed.

Lemma index_good_insert {Dmg : Damaged} S d ix rel v e :
  index_good S d ix →
  (is_local e = true → is_valid_object_hash (ie_hash e) = true ∧ (is_Some (d !! object_path S (ie_hash e)) ∨ damaged (ie_hash e))) →
  index_good S d (index_insert rel v e ix).
Proof.
  intros Hg He rel' v' e' Hget. rw index_get_insert in Hget. case_decide; [|by eapply Hg].
  injection Hget as <-. done.
Qed.

Lemma index_good_remove {Dmg : Damaged} S d ix rel v : index_good S d ix → index_good S d (index_remove rel v ix).1.
Proof. intros Hg rel' v' e'. rw index_get_remove. case_decide; [done|]. apply Hg. Qed.

(** ** Loading *)
Section loading.
Context `{Blake3, Hex, !Codec HistoryIndex, !CodecLaws HistoryIndex, !Codec ObjectMeta, DirOrder} {Dmg : Damaged}.
Context (S : path) (pid : string) (d0 : Fs).

Abbreviation inv d := (store_inv S pid d0 d).

Lemma insert_refs_good d hash ex l ix :
  is_valid_object_hash hash = true → (ex = true → is_Some (d !! object_path S hash)) →
  index_good S d ix → index_good S d (insert_refs hash ex l ix).
Proof.
  intros Hv Hex. unfold insert_refs. revert ix. induction l as [|r l IH]; intros ix Hg; [done|].
  cbn [foldl]. apply IH. destruct (_ || _); [done|]. destruct (negb ex && _) eqn:E; [done|].
  apply index_good_insert; [done|]. cbn. intros Hl. split; [done|]. left. apply Hex.
  destruct ex; [done|]. cbn in E. bool_to_prop. unfold is_local in Hl. cbn in Hl. by destruct (or_offloaded r).
Qed.

Lemma rebuild_good w :
  inv (disk w) →
  wp (rebuild_from_sidecars S pid) (λ r w', disk w' = disk w ∧ ∀ ix, r = Ok ix → index_good S (disk w) ix) w.
Proof.
  intros Hi. apply wp_and; [apply reads_rebuild|]. unfold rebuild_from_sidecars, read_dir_or.
  set (d := disk w) in *.
  pose (I := λ (ix : HistoryIndex) w, disk w = d ∧ index_good S d ix).
  assert (Hnew : ∀ w, disk w = d → I (new_index pid) w) by (intros; split; [done|apply index_good_new]).
  assert (HI : ∀ a w w', disk w' = disk w → I a w → I a w') by (intros ??? E []; split; [congruence|done]).
  wp_step. wp_step. wp_step. apply wp_query. intros r w1 Hw1 _. fold d in Hw1.
  destruct r as [names|[]]; try (by wp_step); wp_step; [|by intros ix [= <-]; apply index_good_new].
  apply (wp_for_entries _ I); [done|done|by intros ?? [] ? [= <-]| |by apply Hnew].
  intros shard ix w2 _ [Hd2 Hg2]. unfold rebuild_shard, file_type. wp_step. apply wp_query.
  intros r w3 Hw3 _. destruct r as [t|]; [|done].
  destruct (negb _); [wp_step; split; [congruence|done]|]. wp_step. apply wp_query. intros r w4 Hw4 _.
  destruct r as [files|]; [|done].
  apply (wp_for_entries _ I); [done|done|done| |split; [congruence|done]].
  intros name ix' w5 _ [Hd5 Hg5]. unfold rebuild_file.
  destruct (strip_suffix META_SUFFIX name) as [hash|]; [|by wp_step].
  destruct (is_valid_object_hash hash) eqn:Hv; cbn [negb]; [|by wp_step]. wp_step. wp_step.
  apply wp_query. intros r w6 Hw6 _. destruct r as [b|]; [|wp_step; split; [congruence|done]].
  destruct (from_slice b) as [meta|]; [|wp_step; split; [congruence|done]].
  destruct (_ && _); [wp_step; split; [congruence|done]|].
  wp_step. wp_step. apply wp_query. intros m w7 Hw7 Hm. wp_step. split; [congruence|].
  apply insert_refs_good; [done| |done]. intros Hok. rw Hw6 Hd5 in Hm.
  destruct m as [n|]; [|done]. destruct Hm as [Hm|?]; [|done]. symmetry in Hm.
  apply metadata_plain in Hm; [unfold object_path in *; rw node_at_snoc in Hm; by eexists|].
  apply (plain_in_shard S pid d0); [done..|]. by apply no_dot_ne, valid_no_dot.
Qed.

(** The index a load returns. *)
Definition holds_index (d : Fs) (ix : HistoryIndex) : Prop :=
  (index_is S d ix ∧ index_belongs ix pid = true ∧ index_entries_valid ix = true) ∨
  (d !! index_path S = None ∧ ix = new_index pid).

Lemma holds_index_good d ix : inv d → holds_index d ix → index_good S d ix.
Proof.
  intros Hi [((b & Hb & Hd) & Hbl & Hv)|[_ ->]]; [by eapply si_index|apply index_good_new].
Qed.

Lemma wp_rebuild_and_save u w :
  inv (disk w) →
  wp (rebuild_and_save u S pid) (λ r w', inv (disk w') ∧ deep_same S (disk w) (disk w') ∧
    ∀ ix, r = Ok ix → index_good S (disk w') ix) w.
Proof.
  intros Hi. unfold rebuild_and_save. wp_step. eapply wp_mono; [by apply rebuild_good|].
  intros [ix|e] w1 [Hw1 Hg]; [|by rw Hw1]. specialize (Hg ix eq_refl). wp_step.
  eapply wp_mono; [apply wp_index_save; by rw Hw1|]. rw Hw1.
  intros [[]|e] w2 (Hi2 & Hs2 & _ & Hok); [|done]. wp_step. split_and!; [done..|].
  intros ? [= <-]. by apply Hok.
Qed.

Lemma wp_load_or_rebuild u w :
  inv (disk w) →
  wp (load_or_rebuild u S pid) (λ r w', inv (disk w') ∧ deep_same S (disk w) (disk w') ∧
    (∀ ix, r = Ok ix → index_good S (disk w') ix) ∧
    (∀ ix, holds_index (disk w) ix → disk w' = disk w ∧ ∀ ix', r = Ok ix' → ix' = ix)) w.
Proof.
  intros Hi. unfold load_or_rebuild. wp_step. wp_step. apply wp_query. intros r w1 Hw1 Hr.
  assert (Hpl : plain (disk w) (index_path S)) by (by eapply plain_entry).
  (* a file that is there is read *)
  assert (Hrd : ∀ b, disk w !! index_path S = Some (File b) → r = Ok b ∨ r = Err OtherIo).
  { intros b Hb. rw (read_file (disk w) S INDEX_FILE b) // in Hr. apply Hi. }
  assert (Hok : ∀ b, r = Ok b → disk w !! index_path S = Some (File b)).
  { intros b ->. destruct Hr as [Hr|?]; [|done]. symmetry in Hr. apply read_plain in Hr; [|done].
    unfold index_path in *. by rw node_at_snoc in Hr. }
  rw -Hw1 in Hi |- *.
  destruct r as [b|e].
  - specialize (Hok b eq_refl). destruct (from_slice b) as [ix|] eqn:Hd.
    + destruct (index_belongs ix pid) eqn:Hbl; cbn [negb].
      2:{ wp_step. split_and!; [done|done|done|]. intros ix0 _. done. }
      destruct (index_entries_valid ix) eqn:Hval; cbn [negb].
      * wp_step. split_and!; [done|done| |].
        -- intros ? [= <-]. eapply si_index; [done|by rw Hw1|done..].
        -- intros ix0 [((b' & Hb' & Hd') & _)|[Hn _]]; (split; [done|]); intros ? [= <-];
             rw Hw1 Hok in Hb' || rw Hw1 Hok in Hn; [|done]. injection Hb' as <-. congruence.
      * eapply wp_mono; [by apply wp_rebuild_and_save|]. intros r' w' (? & ? & ?).
        split_and!; [done..|]. intros ix0 [((b' & Hb' & Hd') & _ & Hv')|[Hn _]]; [|by rw Hw1 Hok in Hn].
        rw Hw1 Hok in Hb'. injection Hb' as <-. rw Hd in Hd'. injection Hd' as <-. by rw Hval in Hv'.
    + eapply wp_mono; [by apply wp_rebuild_and_save|]. intros r' w' (? & ? & ?).
      split_and!; [done..|]. intros ix0 [((b' & Hb' & Hd') & _)|[Hn _]]; [|by rw Hw1 Hok in Hn].
      rw Hw1 Hok in Hb'. injection Hb' as <-. congruence.
  - destruct e; wp_step; (split_and!; [done|done| |]);
      try (by intros); try (by intros ix0 _; split).
    + intros ? [= <-]. apply index_good_new.
    + intros ix0 Hix. split; [done|]. intros ? [= <-].
      destruct Hix as [((b' & Hb' & Hd') & _)|[_ ->]]; [|done]. rw Hw1 in Hb'.
      by destruct (Hrd _ Hb').
Qed.
End loading.
