(* ===== verification/StoreOps.v ===== *)
(** * The operations of the history store are safe

    Specifications of [archive], [lookup], [gc] and the maintenance of the store on top of
    the invariant of [StoreInv]. *)

From Stdlib Require Import Strings.Ascii.
From S2P Require Import Prelude Crypto Types Transfer Fs FsPlain Manifest Retention HistoryIndex.
From S2P Require Import Tags Rotation HistoryStore StoreInv.

Lemma crc32_loop_spec `{Crc32} l hasher total :
  crc32_loop l hasher total = (crc32 (hasher ++ mjoin l), (total + len (mjoin l))%N).
Proof.
  revert hasher total. induction l as [|b l IH]; intros hasher total; cbn [crc32_loop].
  { cbn. by rw app_nil_r N.add_0_r. }
  rw IH. change (mjoin (b :: l)) with (b ++ mjoin l). unfold len. rw length_app -app_assoc. f_equal. lia.
Qed.

Lemma crc32_of_chunks `{Crc32} b : crc32_loop (chunks CRC_BUF b) [] 0 = (crc32 b, len b).
Proof. rw crc32_loop_spec chunks_join //. unfold CRC_BUF. lia. Qed.

(** ** Checks of content *)
Section content.
Context `{Blake3, Crc32, Hex}.

Lemma wp_crc32_of_file p (Q : result IoError (N * N) → World → Prop) w :
  plain (disk w) p →
  (∀ e w', disk w' = disk w → Q (Err e) w') →
  (∀ b w', disk w' = disk w → node_at (disk w) p = Some (File b) → Q (Ok (crc32 b, len b)) w') →
  wp (crc32_of_file p) Q w.
Proof.
  intros Hp Herr Hok. unfold crc32_of_file. wp_step. apply wp_read_plain; [done|done|].
  intros b w' Hw Hb. wp_step. rw crc32_of_chunks. by apply Hok.
Qed.

Lemma wp_as_other {A} (m : IO A) (Q : result IoError A → World → Prop) w :
  wp m (λ r w', Q (map_err (λ _, OtherIo) r) w') w → wp (as_other m) Q w.
Proof. unfold wp, as_other. by destruct (m w). Qed.

Lemma wp_hash_path p (Q : result IoError (Blake3Hash * N * N) → World → Prop) w :
  plain (disk w) p →
  (∀ e w', disk w' = disk w → Q (Err e) w') →
  (∀ b w', disk w' = disk w → node_at (disk w) p = Some (File b) → Q (Ok (hash_file b)) w') →
  wp (hash_path p) Q w.
Proof.
  intros Hp Herr Hok. unfold hash_path. wp_step. apply wp_read_plain; [done|done|].
  intros b w' Hw Hb. wp_step. by apply Hok.
Qed.

(** The content of [p] has this hash, size and checksum. *)
Definition matches_at (d : Fs) (p : path) (hash : string) (size crc : N) : Prop :=
  ∃ b, node_at d p = Some (File b) ∧ hex_encode (blake3 b) = hash ∧ len b = size ∧ crc32 b = crc.

Lemma wp_validate_object p hash size crc w :
  plain (disk w) p →
  wp (validate_object p hash size crc) (λ r w', disk w' = disk w ∧
    (r = Ok true → matches_at (disk w) p hash size crc)) w.
Proof.
  intros Hp. unfold validate_object. wp_step. wp_step. apply wp_crc32_of_file; [done| |].
  { intros e w' Hw. destruct e; by wp_step. }
  intros b w1 Hw1 Hb. cbv beta iota. destruct (negb _ || negb _) eqn:E; [by wp_step|]. bool_to_prop.
  wp_step. apply wp_as_other, wp_hash_path; [by rw Hw1|intros e w2 ->; done|].
  intros b' w2 Hw2 Hb'. rw Hw1 Hb in Hb'. injection Hb' as <-. cbn [map_err]. unfold hash_file. cbv beta iota. wp_step. rw Hw2.
  split; [done|]. intros [= Hc]. bool_to_prop. by exists b.
Qed.

Lemma wp_validate_fetched p e w :
  plain (disk w) p →
  wp (validate_fetched p e) (λ r w', disk w' = disk w ∧
    (r = Ok true → matches_at (disk w) p (ie_hash e) (ie_size e) (ie_crc e) ∧
       is_valid_object_hash (ie_hash e) = true)) w.
Proof.
  intros Hp. unfold validate_fetched. wp_step. apply wp_crc32_of_file; [done|by intros|].
  intros b w1 Hw1 Hb. cbv beta iota. destruct (negb _ || negb _) eqn:E; [by wp_step|]. bool_to_prop.
  wp_step. apply wp_as_other, wp_hash_path; [by rw Hw1|intros er w2 ->; done|].
  intros b' w2 Hw2 Hb'. rw Hw1 Hb in Hb'. injection Hb' as <-. cbn [map_err]. unfold hash_file. cbv beta iota. wp_step. rw Hw2.
  split; [done|]. intros [= Hc]. bool_to_prop. split; [by exists b|done].
Qed.

Lemma wp_discard {A} tmp e (Q : result IoError A → World → Prop) w :
  wp (remove_file tmp) (λ _ w', Q (Err e) w') w → wp (discard tmp e) Q w.
Proof. intros Hr. unfold discard. wp_step. wp_step. done. Qed.

Lemma wp_or_discard {A} tmp (m : IO A) (Q : result IoError A → World → Prop) w :
  wp m (λ r w', match r with
                | Ok a => Q (Ok a) w'
                | Err e => wp (remove_file tmp) (λ _ w2, Q (Err e) w2) w'
                end) w →
  wp (or_discard tmp m) Q w.
Proof.
  intros Hm. unfold or_discard. wp_step. wp_step. eapply wp_mono; [done|].
  intros [a|e] w' Hq; [done|]. by apply wp_discard.
Qed.
End content.

Section ops.
Context `{Blake3, Crc32, Hex, !Blake3Laws, !HexLaws, !Codec HistoryIndex, !CodecLaws HistoryIndex,
  !Codec ObjectMeta, !Codec Tag, DirOrder, !DirOrderLaws} {Dmg : Damaged}.
Context (S : path) (pid : string) (d0 : Fs).

Abbreviation inv d := (store_inv S pid d0 d).

Lemma valid_digest b : is_valid_object_hash (hex_encode (blake3 b)) = true.
Proof.
  unfold is_valid_object_hash. rw hex_length blake3_length hex_digits //.
Qed.

Lemma plain_object d h : inv d → is_valid_object_hash h = true → plain d (object_path S h).
Proof.
  intros Hi Hv. unfold object_path. eapply plain_in_shard; [done|done|].
  by apply no_dot_ne, valid_no_dot.
Qed.

(** ** [archive] *)
Definition archive_tmp (u : string) : path := objects_dir S ++ [".archive-" +:+ u +:+ ".tmp"].

Lemma length_archive_tmp u : length (archive_tmp u) = length S + 2.
Proof. unfold archive_tmp, objects_dir. rw !length_app /=. lia. Qed.

Lemma plain_archive_tmp d u : inv d → plain d (archive_tmp u).
Proof. intros Hi. by eapply plain_objects. Qed.

Lemma harmless_archive_tmp u : harmless S (archive_tmp u).
Proof. apply harmless_length; [unfold archive_tmp; solve_related|rw length_archive_tmp; lia..]. Qed.

Lemma remove_archive_tmp u w :
  inv (disk w) →
  wp (remove_file (archive_tmp u)) (λ _ w', inv (disk w') ∧ same_store S (disk w) (disk w')) w.
Proof.
  revert w. apply (quiet_remove S pid d0); [by intros; apply plain_archive_tmp|apply harmless_archive_tmp].
Qed.

Lemma take_objects_harmless n : harmless S (take n (objects_dir S)).
Proof.
  unfold objects_dir. destruct (decide (n ≤ length S)) as [Hn|Hn].
  - rw take_app_le; [lia|]. apply harmless_length; [solve_related|rw length_take; lia..].
  - rw take_ge; [rw length_app /=; lia|]. by apply harmless_entry.
Qed.

Lemma wp_create_snapshot u src size crc w :
  inv (disk w) →
  wp (create_snapshot u src S size crc) (λ r w', inv (disk w') ∧ same_store S (disk w) (disk w') ∧
    ∀ snap, r = Ok snap → snap_path snap = archive_tmp u ∧ ∃ b d1,
      disk w' !! archive_tmp u = Some (File b) ∧ snap_hash snap = hex_encode (blake3 b) ∧
      len b = size ∧ crc32 b = crc ∧ dirs_added (objects_dir S) (disk w) d1 ∧ read_at d1 src = Ok b) w.
Proof.
  intros Hi. unfold create_snapshot. wp_step.
  eapply wp_mono; [apply wp_create_dirs; [apply Hi|by eapply plain_entry]|].
  intros r0 w1 [Hadd _].
  destruct (inv_dirs S pid d0 (objects_dir S) (disk w) (disk w1)) as [Hi1 Hs1]; [done..|apply take_objects_harmless|].
  destruct r0 as [[]|e]; [|done]. fold (archive_tmp u).
  (* after a failure the temporary file is removed *)
  assert (Hfail : ∀ w2 (Q : World → Prop), inv (disk w2) → same_store S (disk w) (disk w2) →
    (∀ w3, inv (disk w3) → same_store S (disk w) (disk w3) → Q w3) →
    wp (remove_file (archive_tmp u)) (λ _, Q) w2).
  { intros w2 Q Hi2 Hs2 HQ. eapply wp_mono; [by apply remove_archive_tmp|]. intros _ w3 [? ?].
    apply HQ; [done|]. by etrans. }
  wp_step. apply wp_or_discard, wp_copy_plain; [by apply plain_archive_tmp| |].
  { intros e w2 Hw2. apply Hfail; [by rw Hw2..|]. by intros. }
  intros b b' r w2 Hread Hw2 Hold Hdir Hb'.
  assert (Hi2 : inv (disk w2) ∧ same_store S (disk w) (disk w2)).
  { rw Hw2. destruct (quiet_edit S pid d0 (disk w1) (objects_dir S) (".archive-" +:+ u +:+ ".tmp") (Some (File b')))
      as [? ?]; [done|done|done|apply is_content_file|apply harmless_archive_tmp|].
    split; [done|]. by etrans. }
  destruct Hi2 as [Hi2 Hs2].
  destruct r as [[]|e]; [|by apply Hfail]. rw Hb' // in Hw2.
  assert (Hfile : disk w2 !! archive_tmp u = Some (File b)) by (rw Hw2; apply lookup_partial_alter_eq).
  assert (Hnode : ∀ n, node_at (disk w2) (archive_tmp u) = Some n → n = File b).
  { unfold archive_tmp in *. rw node_at_snoc Hfile. by intros ? [= <-]. }
  wp_step. apply wp_or_discard, wp_crc32_of_file; [by apply plain_archive_tmp| |].
  { intros e w3 Hw3. apply Hfail; [by rw Hw3..|]. by intros. }
  intros b1 w3 Hw3 Hb1. apply Hnode in Hb1 as [= ->]. cbv beta iota.
  destruct (negb _ || negb _) eqn:E.
  { apply wp_discard, Hfail; [by rw Hw3..|]. by intros. }
  bool_to_prop. wp_step.
  apply wp_or_discard, wp_as_other, wp_hash_path; [rw Hw3; by apply plain_archive_tmp| |].
  { intros e w4 Hw4. apply Hfail; [by rw Hw4 Hw3..|]. by intros. }
  intros b1 w4 Hw4 Hb1. rw Hw3 in Hb1. apply Hnode in Hb1 as [= ->]. cbn [map_err]. unfold hash_file. cbv beta iota.
  destruct (negb _) eqn:E2.
  { apply wp_discard, Hfail; [by rw Hw4 Hw3..|]. by intros. }
  wp_step. rw Hw4 Hw3. split_and!; [done..|]. intros snap [= <-]. split; [done|].
  exists b, (disk w1). by split_and!.
Qed.

Lemma take_shard_harmless h n : harmless S (take n (shard_dir S h)).
Proof.
  unfold shard_dir. destruct (decide (n ≤ length (objects_dir S))) as [Hn|Hn].
  - rw take_app_le //. apply take_objects_harmless.
  - rw take_ge; [rw length_app /=; lia|]. apply harmless_length; [solve_related|unfold objects_dir; rw !length_app /=; lia..].
Qed.

Lemma plain_shard_dir d h : inv d → is_valid_object_hash h = true → plain d (shard_dir S h).
Proof. intros Hi Hv. unfold shard_dir. eapply plain_objects; [done|]. by apply no_dot_ne, shard_no_dot. Qed.

Lemma matches_same d d' h size crc :
  is_valid_object_hash h = true → same_store S d d' →
  matches_at d (object_path S h) h size crc → matches_at d' (object_path S h) h size crc.
Proof.
  intros Hv [Ho _] (b & Hb & ?). exists b. split; [|done]. unfold object_path in *.
  rw node_at_snoc in Hb. rw node_at_snoc. by rw Ho.
Qed.

(** What [place_object] leaves: the index file, and every object but the one it writes. *)
Record placed (h : string) (d d' : Fs) : Prop := {
  placed_index : d' !! index_path S = d !! index_path S;
  placed_others : ∀ h', is_valid_object_hash h' = true → h' ≠ h → d' !! object_path S h' = d !! object_path S h';
  placed_kept : is_Some (d !! object_path S h) → is_Some (d' !! object_path S h);
}.

Lemma placed_same h d d' : is_valid_object_hash h = true → same_store S d d' → placed h d d'.
Proof. intros Hv [Ho Hx]. split; [done|intros; by apply Ho|]. by rw Ho. Qed.

Lemma placed_trans h d1 d2 d3 : placed h d1 d2 → placed h d2 d3 → placed h d1 d3.
Proof.
  intros [] []. split; [congruence| |by auto]. intros h' ? ?. by rw placed_others1 // placed_others0.
Qed.

Lemma placed_good h d d' ix : placed h d d' → index_good S d ix → index_good S d' ix.
Proof.
  intros []. apply index_good_mono. intros h' Hv. destruct (decide (h' = h)) as [->|Hne]; [done|].
  by rw placed_others0.
Qed.

(** A temporary file becomes the object of its content. *)
Lemma wp_rename_object p x b w :
  let h := hex_encode (blake3 b) in
  inv (disk w) → plain (disk w) (p ++ [x]) → harmless S (p ++ [x]) → p ++ [x] ≠ shard_dir S h →
  disk w !! (p ++ [x]) = Some (File b) →
  wp (replace_file_atomically (p ++ [x]) (object_path S h)) (λ r w', inv (disk w') ∧
    placed h (disk w) (disk w') ∧ (r = Ok () → disk w' !! object_path S h = Some (File b))) w.
Proof.
  intros h Hi Hpl Hh Hne Hb. assert (Hv : is_valid_object_hash h = true) by apply valid_digest.
  assert (Hp0 : placed h (disk w) (disk w)) by by apply placed_same.
  unfold replace_file_atomically. unfold object_path at 1.
  apply wp_rename_plain; [done|by apply plain_object|by intros ?? ->|].
  intros b' w3 Hb' Hold Hdir Hw3. rw Hb in Hb'. injection Hb' as <-. fold (object_path S h) in *.
  assert (Hi3 : inv (edit (disk w) (p ++ [x]) None)).
  { apply inv_edit; [done|by rw Hb|by intros []|apply is_content_none|done]. }
  assert (Hs3 : same_store S (disk w) (edit (disk w) (p ++ [x]) None)) by by apply same_store_edit.
  rw Hw3. split_and!.
  - apply inv_object; [done|done|by left|]. by rw node_at_edit_ne.
  - eapply placed_trans; [by apply placed_same|]. split.
    + rw lookup_partial_alter_ne //. apply object_ne_index.
    + intros h' _ Hne'. rw lookup_partial_alter_ne //. by intros ?%object_path_inj.
    + intros _. rw lookup_partial_alter_eq. by eexists.
  - intros _. by rw lookup_partial_alter_eq.
Qed.

Lemma wp_place_object u ix rel v size crc b w :
  let h := hex_encode (blake3 b) in
  inv (disk w) → disk w !! archive_tmp u = Some (File b) → len b = size → crc32 b = crc →
  wp (place_object S ix (mk_Snapshot (archive_tmp u) h) rel v size crc) (λ r w',
    inv (disk w') ∧ placed h (disk w) (disk w') ∧
    ∀ o, r = Ok o → matches_at (disk w') (object_path S h) h size crc ∧
      (o = AlreadyIndexed → is_Some (index_get ix rel v)) ∧ o ≠ NotCovered) w.
Proof.
  intros h Hi Htmp Hsz Hcrc. assert (Hv : is_valid_object_hash h = true) by apply valid_digest.
  assert (Hfail : ∀ w2 (Q : World → Prop), inv (disk w2) → placed h (disk w) (disk w2) →
    (∀ w3, inv (disk w3) → placed h (disk w) (disk w3) → same_store S (disk w2) (disk w3) → Q w3) →
    wp (remove_file (archive_tmp u)) (λ _, Q) w2).
  { intros w2 Q Hi2 Hp2 HQ. eapply wp_mono; [by apply remove_archive_tmp|]. intros _ w3 [? ?].
    apply HQ; [done| |done]. eapply placed_trans; [done|]. by apply placed_same. }
  assert (Hp0 : placed h (disk w) (disk w)) by by apply placed_same.
  unfold place_object. cbn [snap_path snap_hash]. wp_step. apply wp_or_discard.
  eapply wp_mono; [apply wp_validate_object; by apply plain_object|].
  intros [valid|e] w1 [Hw1 Hval].
  2:{ apply Hfail; [by rw Hw1..|]. by intros. }
  destruct valid.
  - wp_step. wp_step. apply Hfail; [by rw Hw1..|]. intros w2 Hi2 Hp2 Hs2. wp_step.
    split_and!; [done..|]. intros o [= <-]. split_and!.
    + eapply matches_same; [done|done|]. rw Hw1. by apply Hval.
    + destruct (index_get ix rel v); [by eexists|done].
    + by destruct (index_get ix rel v).
  - wp_step. apply wp_or_discard. rw {1}/object_path parent_snoc.
    eapply wp_mono; [apply wp_create_dirs; rw Hw1; [apply Hi|by apply plain_shard_dir]|].
    intros r w2 [Hadd Hreal]. rw Hw1 in Hadd.
    destruct (inv_dirs S pid d0 _ _ _ Hi Hadd) as [Hi2 Hs2]; [apply take_shard_harmless|].
    apply (placed_same h) in Hs2; [|done].
    destruct r as [[]|e]; [|by apply Hfail]. specialize (Hreal eq_refl).
    apply (dirs_added_keeps _ _ _ _ _ Hadd) in Htmp.
    wp_step. apply wp_or_discard. unfold archive_tmp in *.
    eapply wp_mono; [apply (wp_rename_object (objects_dir S) _ b); try done|].
    { by apply plain_archive_tmp. }
    { apply harmless_archive_tmp. }
    { unfold shard_dir. intros [_ E]%app_inj_tail. pose proof (shard_no_dot h Hv) as Hd.
      fold h in E. by rw -E contains_char_app in Hd. }
    fold h. intros [[]|e] w3 (Hi3 & Hp3 & Hobj).
    + wp_step. split_and!; [done|by eapply placed_trans|]. intros o [= <-]. split_and!; [|done..].
      exists b. split; [|done]. unfold object_path in *. rw node_at_snoc. by apply Hobj.
    + apply Hfail; [done|by eapply placed_trans|]. by intros.
Qed.

(** Objects that are there stay there. *)
Definition objects_kept (d d' : Fs) : Prop :=
  ∀ h, is_valid_object_hash h = true → is_Some (d !! object_path S h) → is_Some (d' !! object_path S h).

Global Instance objects_kept_preorder : PreOrder objects_kept.
Proof. split; [by intros d h|]. intros d1 d2 d3 H1' H2' h Hv Hs. by apply H2', H1'. Qed.

Lemma same_kept d d' : same_store S d d' → objects_kept d d'.
Proof. intros [Ho _] h Hv. by rw Ho. Qed.

Lemma deep_kept d d' : deep_same S d d' → objects_kept d d'.
Proof. intros Hs h _. by rw (deep_same_object S d d'). Qed.

Lemma placed_objects_kept h d d' : placed h d d' → objects_kept d d'.
Proof.
  intros Hp h' Hv'. destruct (decide (h' = h)) as [->|Hne]; [apply Hp|]. by rw (placed_others _ _ _ Hp).
Qed.

(** The entry [archive] writes. *)
Definition archived_entry (now size crc : N) (publisher source h : string) : IndexEntry :=
  mk_IndexEntry h size crc now publisher source None.

(** [h] is the hash of the content of [src]. *)
Definition source_hash (d : Fs) (src : path) (size crc : N) (h : string) : Prop :=
  plain d src → matches_at d src h size crc.

(** The outcome of [archive] against the index [ix] it started from; [src_hash] holds of the
    hash of the archived content. *)
Definition archive_outcome (src_hash : string → Prop) (now : N) (rel : string) (v size crc : N) (publisher source : string)
    (ix : HistoryIndex) (d d' : Fs) (r : result IoError ArchiveOutcome) : Prop :=
  match r with
  | Err _ => d' !! index_path S = d !! index_path S
  | Ok NotCovered => False
  | Ok AlreadyIndexed =>
      d' !! index_path S = d !! index_path S ∧
      ∃ e, index_get ix rel v = Some e ∧ src_hash (ie_hash e) ∧
        matches_at d' (object_path S (ie_hash e)) (ie_hash e) size crc
  | Ok _ =>
      ∃ h, src_hash h ∧ matches_at d' (object_path S h) h size crc ∧ is_valid_object_hash h = true ∧
        (∀ e, index_get ix rel v = Some e → ie_hash e = h) ∧
        index_is S d' (index_insert rel v (archived_entry now size crc publisher source h) ix)
  end.

Lemma matches_deep d d' h size crc :
  deep_same S d d' → matches_at d (object_path S h) h size crc → matches_at d' (object_path S h) h size crc.
Proof.
  intros Hs (b & Hb & ?). exists b. split; [|done]. unfold object_path in *. rw node_at_snoc in Hb.
  rw node_at_snoc. by rw (deep_same_object S d d' h Hs).
Qed.

Lemma wp_record_version P us now rel v size crc publisher source ix h o w :
  inv (disk w) → index_good S (disk w) ix → is_valid_object_hash h = true → P h →
  matches_at (disk w) (object_path S h) h size crc →
  (∀ e, index_get ix rel v = Some e → ie_hash e = h) →
  (o = AlreadyIndexed → is_Some (index_get ix rel v)) → o ≠ NotCovered →
  wp (record_version us now S pid rel v size crc publisher source ix h o) (λ r w', inv (disk w') ∧
    objects_kept (disk w) (disk w') ∧
    archive_outcome P now rel v size crc publisher source ix (disk w) (disk w') r) w.
Proof.
  intros Hi Hg Hv HP Hm Hsame Halr Hnc. unfold record_version. case_bool_decide as Ho.
  - subst o. destruct (Halr eq_refl) as [e He]. rw He. wp_step. cbn [ok_or]. wp_step.
    wp_step. rw (Hsame _ He). eapply wp_mono; [by apply (quiet_append S pid d0)|].
    intros r w4 [Hi4 Hs4]. assert (Hk := same_kept _ _ Hs4).
    destruct r as [[]|er]; [wp_step|]; (split_and!; [done..|]); [|apply Hs4].
    split; [apply Hs4|]. exists e. rw (Hsame _ He). split_and!; [done..|]. by eapply matches_same.
  - wp_step. eapply wp_mono; [by apply (quiet_append S pid d0)|]. intros r w4 [Hi4 Hs4].
    assert (Hk := same_kept _ _ Hs4). destruct r as [[]|er]; [|split_and!; [done..|apply Hs4]].
    set (e := archived_entry now size crc publisher source h).
    assert (Hm4 : matches_at (disk w4) (object_path S h) h size crc) by by eapply matches_same.
    wp_step. eapply wp_mono; [apply (wp_index_save S pid d0); [done|]|].
    { apply index_good_insert; [by eapply index_good_same|]. cbn. intros _. split; [done|]. left.
      destruct Hm4 as (b' & Hb' & _). unfold object_path in *. rw node_at_snoc in Hb'. by eexists. }
    intros r w5 (Hi5 & Hs5 & Herr & Hok).
    assert (Hk5 : objects_kept (disk w) (disk w5)) by (etrans; [done|]; by apply deep_kept).
    destruct r as [[]|er]; [wp_step|]; (split_and!; [done..|]).
    + destruct (Hok eq_refl) as [Hok1 _]. assert (Hm5 := matches_deep _ _ _ _ _ Hs5 Hm4).
      destruct o; try done; by exists h.
    + cbn. rw Herr //. apply Hs4.
Qed.

Lemma archive_outcome_from P now rel v size crc publisher source ix d d1 d' r :
  d1 !! index_path S = d !! index_path S →
  archive_outcome P now rel v size crc publisher source ix d1 d' r →
  archive_outcome P now rel v size crc publisher source ix d d' r.
Proof. intros E. destruct r as [[]|]; cbn; by rw ?E. Qed.

Lemma wp_archive_in us now rel v size crc publisher source src w :
  inv (disk w) →
  wp (archive_in us now S pid rel v size crc publisher source src) (λ r w', inv (disk w') ∧
    objects_kept (disk w) (disk w') ∧
    ∀ ix, holds_index S pid (disk w) ix →
      archive_outcome (source_hash (disk w) src size crc) now rel v size crc publisher source ix (disk w) (disk w') r) w.
Proof.
  intros Hi. unfold archive_in. wp_step. eapply wp_mono; [by apply wp_create_snapshot|].
  intros [snap|e] w1 (Hi1 & Hs1 & Hsnap).
  2:{ split_and!; [done|by apply same_kept|]. intros ix _. apply Hs1. }
  destruct (Hsnap snap eq_refl) as (Hpath & b & d1 & Hb & Hhash & Hsz & Hcrc & Hadd & Hsrc). clear Hsnap.
  destruct snap as [p h]. cbn [snap_path snap_hash] in *. subst p h.
  set (h := hex_encode (blake3 b)). assert (Hv : is_valid_object_hash h = true) by apply valid_digest.
  wp_step. apply wp_or_discard. eapply wp_mono; [by apply wp_load_or_rebuild|].
  intros r w2 (Hi2 & Hdeep & Hgood & Hix).
  assert (Hk2 : objects_kept (disk w) (disk w2)) by (etrans; [by apply same_kept|by apply deep_kept]).
  assert (Hdisk : ∀ ix0, holds_index S pid (disk w) ix0 →
    disk w2 !! index_path S = disk w !! index_path S ∧ ∀ ix, r = Ok ix → ix0 = ix).
  { intros ix0 Hix0. destruct (Hix ix0) as [-> E2].
    - revert Hix0. unfold holds_index, index_is. by rw (ss_index _ _ _ Hs1).
    - split; [apply Hs1|]. intros ix ->. symmetry. by apply E2. }
  (* the snapshot is dropped *)
  assert (Hdrop : ∀ e, wp (remove_file (archive_tmp (us 0))) (λ _ w3, inv (disk w3) ∧
    objects_kept (disk w) (disk w3) ∧ ∀ ix, holds_index S pid (disk w) ix →
      archive_outcome (source_hash (disk w) src size crc) now rel v size crc publisher source ix (disk w) (disk w3) (Err e)) w2).
  { intros e. eapply wp_mono; [by apply remove_archive_tmp|]. intros _ w3 [? Hs3]. split_and!; [done| |].
    - etrans; [done|]. by apply same_kept.
    - intros ix0 Hix0. destruct (Hdisk _ Hix0) as [E _]. cbn. by rw (ss_index _ _ _ Hs3). }
  destruct r as [ix|e]; [|by apply Hdrop]. specialize (Hgood ix eq_refl).
  destruct (match index_get ix rel v with Some e => _ | None => _ end) eqn:Hclash; [by apply wp_discard, Hdrop|].
  assert (Htmp : disk w2 !! archive_tmp (us 0) = Some (File b)).
  { rw Hdeep //. rw length_archive_tmp. lia. }
  wp_step. eapply wp_mono; [by apply (wp_place_object (us 0) ix rel v size crc b)|].
  intros r w3 (Hi3 & Hpl & Hout). fold h in Hpl, Hout.
  assert (Hk3 : objects_kept (disk w) (disk w3)) by (etrans; [done|by eapply placed_objects_kept]).
  assert (Hx3 : ∀ ix0, holds_index S pid (disk w) ix0 → disk w3 !! index_path S = disk w !! index_path S).
  { intros ix0 [E _]%Hdisk. by rw (placed_index _ _ _ Hpl). }
  destruct r as [o|e]; [|by split_and!; [..|intros ix0 Hix0; by eapply Hx3]].
  destruct (Hout o eq_refl) as (Hm & Halr & Hnc).
  eapply wp_mono; [apply (wp_record_version (source_hash (disk w) src size crc) us now rel v size crc publisher source ix h o); try done|].
  - by eapply placed_good.
  - intros Hpl0. exists b. split; [|done]. apply read_plain in Hsrc; [|by eapply dirs_added_plain].
    destruct src as [|x src]; [done|]. by eapply dirs_added_file.
  - intros e He. rw He in Hclash. by bool_to_prop.
  - intros r w4 (? & Hk4 & Ho4). split_and!; [done|by etrans|]. intros ix0 Hix0.
    eapply archive_outcome_from; [by eapply Hx3|]. destruct (Hdisk _ Hix0) as [_ Heq]. by rw (Heq ix eq_refl).
Qed.
End ops.
