(* ===== verification/StoreGc.v ===== *)
(** * Garbage collection of the history store

    [gc] removes what the retention policy selects and nothing a caller, the manifest or a
    tag protects; what remains in the index keeps its objects. *)

From Stdlib Require Import Strings.Ascii.
From S2P Require Import Prelude Crypto Types Transfer Fs FsPlain Manifest Retention HistoryIndex.
From S2P Require Import Tags Rotation HistoryStore StoreInv StoreOps.

(** ** Names of temporary files *)
Lemma str_starts_with_char pat c s : str_starts_with (String.String c pat) s = true → contains_char c s = true.
Proof. destruct s as [|d s]; [done|]. cbn. intros [Hc _]%andb_true_iff. bool_to_prop. subst d. by rw bool_decide_eq_true_2. Qed.

Lemma str_contains_char pat c s : str_contains (String.String c pat) s = true → contains_char c s = true.
Proof.
  induction s as [|d s IH]; [done|]. cbn [str_contains]. intros [Hs|Hs]%orb_true_iff.
  - by eapply str_starts_with_char.
  - cbn. by rw IH // orb_true_r.
Qed.

Lemma is_meta_tmp_dotted name : is_meta_tmp name = true → contains_char "."%char name = true.
Proof. apply str_contains_char. Qed.

Lemma index_tmp_names name : is_index_tmp name = true → name ≠ INDEX_FILE ∧ name ≠ "..".
Proof.
  intros Ht. split; intros ->; by vm_compute in Ht.
Qed.

(** ** Removing temporary files *)
Section gc.
Context `{Blake3, Crc32, Hex, !Blake3Laws, !HexLaws, !Codec HistoryIndex, !CodecLaws HistoryIndex,
  !Codec ObjectMeta, !Codec Tag, DirOrder, !DirOrderLaws} {Dmg : Damaged}.
Context (S : path) (pid : string) (base : Fs).

Abbreviation inv d := (store_inv S pid base d).
Abbreviation quiet m := (∀ w, inv (disk w) → wp m (λ _ w', inv (disk w') ∧ same_store S (disk w) (disk w')) w).

(** The names of a listing are never [..]. *)
Lemma quiet_read_dir {B} p (f : list string → IO B) :
  (∀ names, (∀ c, c ∈ names → c ≠ "..") → quiet (f names)) → quiet (read_dir p ≫= f).
Proof.
  intros Hf w Hi. wp_step. apply wp_query. intros r w1 Hw1 Hr. destruct r as [names|e]; [|by rw Hw1].
  rw -Hw1 in Hi |- *. apply Hf; [|done]. destruct Hr as [Hr|?]; [|done]. intros c. by eapply read_dir_names.
Qed.

Lemma quiet_read_dir_or {B} p (f : option (list string) → IO B) :
  (∀ o, (∀ names c, o = Some names → c ∈ names → c ≠ "..") → quiet (f o)) → quiet (read_dir_or p ≫= f).
Proof.
  intros Hf w Hi. unfold read_dir_or. wp_step. wp_step. wp_step. apply wp_query. intros r w1 Hw1 Hr.
  rw -Hw1 in Hi |- *. destruct r as [names|[]]; wp_step; try done.
  - apply Hf; [|done]. intros ? c [= <-]. destruct Hr as [Hr|?]; [|done]. by eapply read_dir_names.
  - by apply Hf.
Qed.

Lemma quiet_for_entries {A} (f : string → A → IO A) names a :
  (∀ name a, name ∈ names → quiet (f name a)) → quiet (for_entries f names a).
Proof.
  intros Hf w Hi. apply (wp_for_entries f (λ _ w', inv (disk w') ∧ same_store S (disk w) (disk w'))); [|done|done| |done].
  - intros _ w1 w2 ->. done.
  - intros name a' w1 Hin [Hi1 Hs1]. eapply wp_mono; [by apply Hf|]. intros [a2|e] w2 [? ?]; (split; [done|]); by etrans.
Qed.

Lemma quiet_remove_matching dir matches :
  (∀ d name, inv d → matches name = true → name ≠ ".." → plain d (dir ++ [name]) ∧ harmless S (dir ++ [name])) →
  quiet (remove_matching dir matches).
Proof.
  intros Hm. unfold remove_matching. apply quiet_read_dir_or. intros [names|] Hn; [|apply quiet_reads, reads_ret].
  apply quiet_for_entries. intros name freed Hin. destruct (matches name) eqn:E; cbn [negb]; [|apply quiet_reads, reads_ret].
  specialize (Hn names name eq_refl Hin). apply quiet_bind; [apply quiet_reads, reads_query|]. intros t.
  destruct (negb _); [apply quiet_reads, reads_ret|].
  apply quiet_bind; [apply quiet_reads, reads_try, reads_query|]. intros m.
  apply quiet_bind; [|intros ?; apply quiet_reads, reads_ret]. apply quiet_try.
  intros w Hi. apply (quiet_remove S pid base); [|by eapply (Hm (disk w))|done]. intros d Hd. by eapply Hm.
Qed.

Lemma quiet_sweep : quiet (sweep_stale_temporaries S).
Proof.
  unfold sweep_stale_temporaries. apply quiet_bind.
  { apply quiet_remove_matching. intros d name Hi Ht _. destruct (index_tmp_names _ Ht).
    split; [by eapply plain_entry|by apply harmless_entry]. }
  intros freed. apply quiet_bind.
  { apply quiet_remove_matching. intros d name Hi _ Hn. split; [by eapply plain_objects|].
    apply harmless_length; [solve_related|unfold objects_dir; rw !length_app /=; lia..]. }
  intros more. apply quiet_read_dir_or. intros [names|] Hn; [|apply quiet_reads, reads_ret].
  apply quiet_for_entries. intros shard acc Hin. apply quiet_bind; [apply quiet_reads, reads_query|]. intros t.
  destruct (negb _); [apply quiet_reads, reads_ret|].
  apply quiet_bind; [|intros ?; apply quiet_reads, reads_ret].
  apply quiet_remove_matching. intros d name Hi Ht Hne. split; [eapply plain_shard; [done| |done]; by eapply Hn|].
  apply harmless_dotted; [solve_related|unfold objects_dir; rw !length_app /=; lia|]. by apply is_meta_tmp_dotted.
Qed.

(** ** Removing objects *)

(** The objects [ix] refers to are as in [d0]. *)
Definition keeps_referenced (ix : HistoryIndex) (d0 d : Fs) : Prop :=
  ∀ h, h ∈ referenced_hashes ix → is_valid_object_hash h = true → d !! object_path S h = d0 !! object_path S h.

Lemma elem_of_referenced ix rel v e : index_get ix rel v = Some e → ie_hash e ∈ referenced_hashes ix.
Proof.
  intros He. unfold referenced_hashes. apply elem_of_list_to_set, list_elem_of_fmap.
  exists (rel, v, e). split; [done|]. by apply elem_of_iter_all.
Qed.

(** The state while objects are collected. *)
Record collecting (ix : HistoryIndex) (d0 d : Fs) : Prop := {
  co_inv : inv d;
  co_index : index_is S d ix;
  co_good : index_good S d ix;
  co_kept : keeps_referenced ix d0 d;
}.

Lemma collecting_same ix d0 d d' : inv d' → same_store S d d' → collecting ix d0 d → collecting ix d0 d'.
Proof.
  intros Hi Hs []. split; [done|by eapply index_is_same|by eapply index_good_same|].
  intros h Hh Hv. rw (ss_objects _ _ _ Hs) //. by apply co_kept0.
Qed.

Lemma collecting_quiet {A} ix d0 (m : IO A) w :
  quiet m → collecting ix d0 (disk w) → wp m (λ _ w', collecting ix d0 (disk w')) w.
Proof.
  intros Hm Hc. eapply wp_mono; [apply Hm, Hc|]. intros r w' [? ?]. by eapply collecting_same.
Qed.

Lemma wp_remove_object ix d0 h acc w :
  is_valid_object_hash h = true → h ∉ referenced_hashes ix → collecting ix d0 (disk w) →
  wp (remove_object S h acc) (λ _ w', collecting ix d0 (disk w')) w.
Proof.
  intros Hv Hh Hc. unfold remove_object. wp_step. wp_step. apply wp_query. intros m w1 Hw1 _.
  rw -Hw1 in Hc.
  assert (Hmeta : ∀ w2 (x : N * N), collecting ix d0 (disk w2) →
    wp (ignore (remove_file (meta_path S h)) ≫= λ _, mret x) (λ _ w', collecting ix d0 (disk w')) w2).
  { intros w2 x Hc2. wp_step. wp_step. eapply wp_mono; [apply collecting_quiet; [|done]|by intros].
    apply (quiet_remove S pid base).
    - intros d Hi. eapply plain_in_shard; [done..|apply meta_suffix_ne].
    - apply harmless_in_shard, meta_dotted. }
  wp_step. wp_step. unfold object_path at 1.
  apply wp_remove_plain; [apply plain_in_shard with pid base; [done|apply Hc|by apply no_dot_ne, valid_no_dot]| |].
  - intros e w2 Hw2. apply Hmeta. by rw Hw2.
  - intros w2 Hw2 Hold. fold (object_path S h) in Hw2, Hold. apply Hmeta.
    destruct (inv_remove_object S pid base (disk w1) h ix) as (Hi2 & Hx2 & Hg2); [apply Hc..| |done|].
    { intros rel v e He _ <-. by eapply Hh, elem_of_referenced. }
    rw Hw2. split; [done..|]. intros h' Hh' Hv'. rw lookup_partial_alter_ne.
    { by intros ->%object_path_inj. }
    by apply (co_kept _ _ _ Hc).
Qed.

(** Only valid hashes are collected. *)
Lemma collect_object_hashes_valid w :
  wp (collect_object_hashes S) (λ r w', disk w' = disk w ∧
    ∀ l, r = Ok l → Forall (λ h, is_valid_object_hash h = true) l) w.
Proof.
  apply wp_and; [apply reads_collect|]. unfold collect_object_hashes, read_dir_or.
  pose (I := λ (l : list string) (_ : World), Forall (λ h, is_valid_object_hash h = true) l).
  wp_step. wp_step. wp_step. apply wp_query. intros r w1 _ _.
  destruct r as [names|[]]; wp_step; try done; [|by intros ? [= <-]; constructor].
  apply (wp_for_entries _ I); [done|done|by intros ?? ?? [= <-]| |constructor].
  intros shard out w2 _ HI. wp_step. apply wp_query. intros r w3 _ _. destruct r as [t|]; [|done].
  destruct (negb _); [by wp_step|]. wp_step. apply wp_query. intros r w4 _ _. destruct r as [files|]; [|done].
  apply (wp_for_entries _ I); [done|done|done| |done].
  intros name out' w5 _ HI'. wp_step. destruct (_ || _) eqn:E; [done|]. bool_to_prop.
  apply Forall_app. split; [done|]. by repeat constructor.
Qed.

Lemma wp_collect_garbage ix d0 w :
  collecting ix d0 (disk w) → wp (collect_garbage S ix) (λ _ w', collecting ix d0 (disk w')) w.
Proof.
  intros Hc. unfold collect_garbage. wp_step. eapply wp_mono; [apply collect_object_hashes_valid|].
  intros [l|e] w1 [Hw1 Hl]; [|by rw Hw1]. specialize (Hl l eq_refl). rw Forall_forall in Hl.
  apply (wp_fold_st _ (λ _ w', collecting ix d0 (disk w'))); [done| |by rw Hw1].
  intros h acc w2 [Hh Hin]%list_elem_of_filter Hc2. eapply wp_mono; [apply wp_remove_object; by eauto|].
  by intros [] ?.
Qed.

(** ** The index after the policy *)
Lemma index_remove_entry r n ix : (index_remove r n ix).2 = index_get ix r n.
Proof. unfold index_remove, index_get. by destruct (entries ix !! r). Qed.

Lemma remove_victims_get victims ix rel v :
  index_get (remove_victims victims ix).1 rel v =
    if decide ((rel, v) ∈ victims) then None else index_get ix rel v.
Proof.
  unfold remove_victims. generalize ([] : list (vkey * string)) as acc. revert ix.
  induction victims as [|[r n] victims IH]; intros ix acc; cbn [foldl].
  { case_decide as Hn; [by apply elem_of_nil in Hn|done]. }
  unfold remove_victim at 2. cbn [fst snd]. pose proof (index_get_remove ix r n rel v) as Hg.
  destruct (index_remove r n ix) as [ix' o]. cbn [fst] in Hg. rw IH Hg.
  destruct (decide ((rel, v) ∈ victims)) as [Hin|Hin].
  - destruct (decide ((rel, v) ∈ (r, n) :: victims)) as [|Hc]; [done|]. destruct Hc. by right.
  - destruct (decide ((rel, v) ∈ (r, n) :: victims)) as [Hc|Hc], (decide (r = rel ∧ n = v)) as [[-> ->]|Hne]; try done.
    + apply elem_of_cons in Hc as [[= -> ->]|?]; [by destruct Hne|done].
    + destruct Hc. by left.
Qed.

Lemma remove_victims_good victims ix d : index_good S d ix → index_good S d (remove_victims victims ix).1.
Proof. intros Hg rel v e. rw remove_victims_get. case_decide; [done|]. apply Hg. Qed.

(** The removed entries are local ones, so their hashes are valid. *)
Lemma remove_victims_hashes victims ix d :
  index_good S d ix → (∀ k, k ∈ victims → ∃ e, index_get ix k.1 k.2 = Some e ∧ is_local e = true) →
  Forall (λ x, is_valid_object_hash x.2 = true) (remove_victims victims ix).2.
Proof.
  intros Hg Hv. unfold remove_victims.
  assert (Hacc : Forall (λ x : vkey * string, is_valid_object_hash x.2 = true) []) by constructor.
  revert Hacc. generalize ([] : list (vkey * string)) as acc.
  assert (Hlocal : ∀ k e, k ∈ victims → index_get ix k.1 k.2 = Some e → is_valid_object_hash (ie_hash e) = true).
  { intros k e Hk He. destruct (Hv k Hk) as (e' & He' & Hl). rw He in He'. injection He' as <-. by eapply Hg. }
  clear Hv Hg. revert ix Hlocal. induction victims as [|[r n] victims IH]; intros ix Hl acc Hacc; [done|].
  cbn [foldl]. unfold remove_victim at 2. cbn [fst snd]. pose proof (index_get_remove ix r n) as Hg.
  pose proof (index_remove_entry r n ix) as Ho. destruct (index_remove r n ix) as [ix' o].
  cbn [fst snd] in Hg, Ho. subst o. apply IH.
  - intros k e Hk. rw Hg. case_decide; [done|]. apply Hl. by right.
  - destruct (index_get ix r n) as [e|] eqn:He; [|done]. apply Forall_app. split; [done|].
    repeat constructor. cbn. eapply (Hl (r, n)); [by left|done].
Qed.

(** ** The directory of the store *)
Definition store_path (c : HistoryConfig) (root : path) : path :=
  if is_absolute (hc_root c) then components (hc_root c) ++ [project_dir_name pid]
  else root ++ filter (λ x, x ≠ "..") (components (hc_root c)).

Lemma wp_check_store_components cr cand comps w :
  wp (check_store_components cr cand comps) (λ r w', ∀ p, r = Ok p → p = cand ++ filter (λ x, x ≠ "..") comps) w.
Proof.
  revert cand w. induction comps as [|x comps IH]; intros cand w; cbn [check_store_components].
  { wp_step. intros p [= <-]. by rw app_nil_r. }
  case_bool_decide as Hx; [by rw filter_cons_False; [by intros ?|]|].
  assert (Hgo : ∀ w, wp (check_store_components cr (cand ++ [x]) comps)
    (λ r w', ∀ p, r = Ok p → p = cand ++ filter (λ x, x ≠ "..") (x :: comps)) w).
  { intros w1. eapply wp_mono; [apply IH|]. intros r w2 Hp p Hr. rw (Hp p Hr) filter_cons_True //.
    by rw -app_assoc. }
  wp_step. wp_step. apply wp_query. intros r w1 _ _. destruct r as [[]|[]]; try (by wp_step); try apply Hgo.
  all: wp_step; apply wp_query; intros r w2 _ _; destruct r as [k|]; [|done];
    destruct (path_starts_with cr k); [apply Hgo|by wp_step].
Qed.

Lemma wp_store_dir c root w :
  S = store_path c root → inv (disk w) →
  wp (store_dir c root pid) (λ r w', disk w' = disk w ∧ ∀ p, r = Ok p → p = S) w.
Proof.
  intros HS Hi. apply wp_and; [apply reads_store_dir|]. unfold store_dir. destruct (negb _); [by wp_step|].
  unfold store_path in HS. destruct (is_absolute (hc_root c)); [wp_step; intros p [= <-]; done|].
  wp_step. apply wp_query. intros r w1 _ Hr. destruct r as [q|]; [|done].
  destruct Hr as [Hr|?]; [|done]. symmetry in Hr. apply canonicalize_plain in Hr as [-> _].
  - eapply wp_mono; [apply wp_check_store_components|]. cbn. by rw -HS.
  - pose proof (plain_self S pid base _ Hi) as Hp. apply (plain_take _ _ (length root)) in Hp.
    by rw HS take_app_length in Hp.
Qed.

(** ** Tags *)
Lemma string_length_app s t : String.length (s +:+ t) = String.length s + String.length t.
Proof.
  induction s as [|c s IH]; [done|].
  change (String.String c s +:+ t) with (String.String c (s +:+ t)). cbn [String.length]. by rw IH.
Qed.

Lemma strip_suffix_app suffix s : strip_suffix suffix (s +:+ suffix) = Some s.
Proof.
  induction s as [|c s IH].
  - change ("" +:+ suffix) with suffix. destruct suffix; cbn; by rw bool_decide_eq_true_2.
  - change (String.String c s +:+ suffix) with (String.String c (s +:+ suffix)). cbn [strip_suffix].
    rw bool_decide_eq_false_2; [|by rw IH]. intros E%(f_equal String.length).
    cbn [String.length] in E. rw string_length_app in E. lia.
Qed.

(** A tag of the project is stored under [name]. *)
Definition tag_on_disk (d : Fs) (name : string) (tag : Tag) : Prop :=
  is_valid_tag_name name = true ∧ tag_project_id tag = pid ∧
  ∃ b, d !! (tags_dir S ++ [name +:+ ".json"]) = Some (File b) ∧ from_slice b = Some tag.

Lemma json_name_ne name : name +:+ ".json" ≠ "..".
Proof. by apply suffix_ne. Qed.

Lemma plain_tag d c : inv d → c ≠ ".." → plain d (tags_dir S ++ [c]).
Proof.
  intros Hi Hc. unfold tags_dir. rw -app_assoc. eapply plain_store; [done|].
  apply normal_cons; [done|]. by apply normal_cons, normal_nil.
Qed.

(** The tags directory is found where a tag is. *)
Lemma wp_open_tags_dir w :
  inv (disk w) →
  wp (open_tags_dir S) (λ r w', disk w' = disk w ∧ (∀ dir, r = Ok (Some dir) → dir = tags_dir S) ∧
    (∀ name tag, tag_on_disk (disk w) name tag → r ≠ Ok None)) w.
Proof.
  intros Hi. apply wp_and; [apply reads_open_tags_dir|]. unfold open_tags_dir.
  assert (Hp : plain (disk w) (tags_dir S)) by by eapply plain_entry.
  wp_step. wp_step. apply wp_query. intros r w1 Hw1 Hr. destruct r as [n|e].
  - destruct (negb _); [by wp_step|]. wp_step. apply wp_query. intros r w2 Hw2 _. destruct r as [cs|]; [|done].
    wp_step. apply wp_query. intros r w3 _ Hr3. destruct r as [cd|]; [|done].
    destruct Hr3 as [Hr3|?]; [|done]. rw Hw2 Hw1 in Hr3. symmetry in Hr3.
    apply canonicalize_plain in Hr3 as [-> _]; [|done].
    destruct (path_starts_with _ _); wp_step; [|done]. split; [by intros ? [= <-]|done].
  - destruct e; wp_step; try done. split; [done|]. intros name tag (_ & _ & b & Hb & _).
    destruct Hr as [Hr|?]; [|done]. unfold tags_dir in *. exfalso. revert Hr.
    apply (tree_wf_real_dir _ _ _ _ (si_wf _ _ _ _ Hi)) in Hb. pose proof Hb as [Hd Hb']%real_dir_snoc.
    rw symlink_metadata_entry; [by apply Hi|done|done|]. by rw Hb'.
Qed.

Lemma wp_read_tag_entry w name :
  inv (disk w) → name ≠ ".." →
  wp (read_tag_entry (tags_dir S) pid name) (λ r w', disk w' = disk w ∧
    ∀ stem tag, name = stem +:+ ".json" → tag_on_disk (disk w) stem tag → ∀ o, r = Ok o → o = Some tag) w.
Proof.
  intros Hi Hne. apply wp_and; [apply reads_read_tag_entry|]. unfold read_tag_entry.
  destruct (strip_suffix ".json" name) as [st|] eqn:Es.
  2:{ wp_step. intros stem tag -> _. by rw strip_suffix_app in Es. }
  assert (Hst : ∀ stem, name = stem +:+ ".json" → stem = st).
  { intros stem ->. rw strip_suffix_app in Es. by injection Es. }
  destruct (is_valid_tag_name st) eqn:Hv; cbn [negb].
  2:{ wp_step. intros stem tag ->%Hst (Hv' & _). congruence. }
  assert (Hp : plain (disk w) (tags_dir S ++ [name])) by by apply plain_tag.
  unfold ensure_regular_tag_file. wp_step. wp_step. wp_step. apply wp_query. intros r w1 Hw1 Hr.
  assert (Hfile : ∀ stem b, name = stem +:+ ".json" → disk w !! (tags_dir S ++ [stem +:+ ".json"]) = Some (File b) →
    r = Ok (File b) ∨ r = Err OtherIo).
  { intros stem b -> Hb. rw symlink_metadata_entry in Hr; [..|by rw Hb in Hr].
    - apply plain_tag with (c := "x") in Hi; [|done]. apply plain_parent in Hi. rw parent_snoc in Hi. apply Hi.
    - eapply tree_wf_real_dir; [apply Hi|done].
    - apply json_name_ne. }
  destruct r as [[b0| |]|[]]; wp_step; try done.
  2:{ intros stem tag Hn (_ & _ & b & Hb & _). by destruct (Hfile stem b Hn Hb). }
  cbn [negb]. wp_step. apply wp_read_plain; [by rw Hw1|by intros|]. intros b w2 Hw2 Hb.
  rw Hw1 node_at_snoc in Hb. wp_step. wp_step. destruct (from_slice b) as [tag|] eqn:Ed; [|done]. cbn [ok_or].
  assert (Hsame : ∀ stem tag', name = stem +:+ ".json" → tag_on_disk (disk w) stem tag' → tag' = tag ∧ tag_project_id tag' = pid).
  { intros stem tag' -> (_ & Hpid & b' & Hb' & Hd'). rw Hb in Hb'. injection Hb' as <-. split; congruence. }
  case_bool_decide as Hpid; cbn [negb].
  - wp_step. wp_step. destruct (validate_tag tag pid st); [|done]. wp_step.
    intros stem tag' Hn Ht o [= <-]. by destruct (Hsame stem tag' Hn Ht) as [-> _].
  - wp_step. intros stem tag' Hn Ht. by destruct (Hsame stem tag' Hn Ht) as [-> ?].
Qed.

Lemma wp_all_pins w :
  inv (disk w) →
  wp (all_pins S pid) (λ r w', disk w' = disk w ∧ ∀ out, r = Ok out →
    ∀ name tag rel v, tag_on_disk (disk w) name tag → pins tag !! rel = Some v → (rel, v) ∈ out) w.
Proof.
  intros Hi. apply wp_and; [apply reads_all_pins|]. unfold all_pins. wp_step.
  eapply wp_mono; [by apply wp_open_tags_dir|]. intros [o|e] w1 (Hw1 & Hdir & Hnone); [|done].
  destruct o as [dir|]; [|wp_step; intros out _ name tag rel v Ht; by destruct (Hnone name tag Ht)].
  rw (Hdir dir eq_refl). wp_step. apply wp_query. intros r w2 Hw2 Hr. destruct r as [names|]; [|done].
  destruct Hr as [Hr|?]; [|done]. symmetry in Hr.
  apply read_dir_plain in Hr as [_ Hnames]; [|rw Hw1; by eapply plain_entry].
  pose (I := λ (rest : list string) (out : list (string * N)) w', disk w' = disk w ∧
    ∀ name tag rel v, tag_on_disk (disk w) name tag → pins tag !! rel = Some v →
      name +:+ ".json" ∈ rest ∨ (rel, v) ∈ out).
  apply (wp_for_entries_rest _ I); [|done| | |].
  - intros l a wa wb E [? ?]. split; [congruence|done].
  - intros out w3 [_ HI] ? [= <-] name tag rel v Ht Hp. by destruct (HI name tag rel v Ht Hp) as [?%elem_of_nil|].
  - intros name l out w3 Hin [Hw3 HI]. wp_step.
    eapply wp_mono; [apply wp_read_tag_entry; [by rw Hw3|by apply Hnames in Hin as [? _]]|]. rw Hw3.
    intros [o|e] w4 [Hw4 Ho]; [|done]. wp_step. split; [done|]. intros n tag rel v Ht Hp.
    destruct (HI n tag rel v Ht Hp) as [[Heq|Hl]%elem_of_cons|Hout]; [|by left|right].
    + right. rw (Ho n tag (eq_sym Heq) Ht o eq_refl). apply elem_of_app. right. by apply elem_of_btree_iter.
    + destruct o; [|done]. apply elem_of_app. by left.
  - split; [congruence|]. intros name tag rel v (Hv & Hpid & b & Hb & Hd) _. left. apply Hnames.
    split; [apply json_name_ne|]. exists (File b). by rw Hw1.
Qed.

(** ** [gc] *)
Definition pinned (d : Fs) (k : vkey) : Prop :=
  ∃ name tag, tag_on_disk d name tag ∧ pins tag !! k.1 = Some k.2.

Lemma pinned_same d d' k : d' = d → pinned d k → pinned d' k.
Proof. by intros ->. Qed.

Lemma wp_protected_versions u c root keep w :
  S = store_path c root → inv (disk w) →
  wp (protected_versions u c root pid keep) (λ r w', inv (disk w') ∧ deep_same S (disk w) (disk w') ∧
    (∀ ix, holds_index S pid (disk w) ix → disk w' = disk w) ∧
    ∀ l, r = Ok l → keep ⊆ l ∧ ∀ k, pinned (disk w) k → k ∈ l) w.
Proof.
  intros HS Hi. unfold protected_versions. wp_step. eapply wp_mono; [by apply wp_store_dir|].
  intros [p|e] w1 [Hw1 Hp]; [|by rw Hw1; split_and!]. rw (Hp p eq_refl). wp_step. rw -Hw1 in Hi.
  eapply wp_mono; [by apply wp_all_pins|]. rw Hw1.
  intros [pins|e] w2 [Hw2 Hpins]; [|by rw Hw2; split_and!; rw -?Hw1]. specialize (Hpins pins eq_refl).
  assert (Hl : keep ⊆ keep ++ pins ∧ ∀ k, pinned (disk w) k → k ∈ keep ++ pins).
  { split; [set_solver|]. intros [rel v] (name & tag & Ht & Hv). apply elem_of_app. right. by eapply Hpins. }
  wp_step. case_bool_decide.
  - wp_step. wp_step. rw Hw2 -Hw1. split_and!; [done..|]. intros ? [= <-]. by rw Hw1.
  - wp_step. eapply wp_mono; [apply wp_load_or_rebuild; by rw Hw2 -Hw1|]. rw Hw2.
    intros [ix|e] w3 (Hi3 & Hs3 & _ & Hix).
    + wp_step. wp_step. split_and!; [done..| |].
      * intros ix0 Hix0. by destruct (Hix ix0 Hix0).
      * intros ? [= <-]. done.
    + split_and!; [done..| |done]. intros ix0 Hix0. by destruct (Hix ix0 Hix0).
Qed.

(** What [gc] (without purge) may have done, whenever it stopped. *)
Definition gc_effect (c : HistoryConfig) (now : N) (keep : list vkey) (ix : HistoryIndex) (d d' : Fs)
    (r : result IoError GcReport) : Prop :=
  (same_store S d d' ∧ ∀ rep, r ≠ Ok rep) ∨
  ∃ protected, keep ⊆ protected ∧ (∀ k, pinned d k → k ∈ protected) ∧
    index_is S d' (remove_victims (apply_retention ix c protected now) ix).1 ∧
    keeps_referenced (remove_victims (apply_retention ix c protected now) ix).1 d d'.

Lemma deep_same_store d d' : deep_same S d d' → d' !! index_path S = d !! index_path S → same_store S d d'.
Proof. intros Hs Hx. split; [|done]. intros h _. by apply deep_same_object. Qed.

(** The part of [gc] after the new index is saved. *)
Lemma wp_finish_gc ix d0 vus removed w :
  Forall (λ x : vkey * string, is_valid_object_hash x.2 = true) removed → collecting ix d0 (disk w) →
  wp (_ ← for_each (λ x, remove_object_ref (vus x.1) S x.2 x.1.1 x.1.2) removed;
      '(count, freed) ← collect_garbage S ix;
      swept ← sweep_stale_temporaries S;
      mret (mk_GcReport (fst <$> removed) count (sat_add freed swept)))
    (λ _ w', collecting ix d0 (disk w')) w.
Proof.
  intros Hrem Hc. wp_step.
  apply (wp_for_each _ (λ l w', Forall (λ x : vkey * string, is_valid_object_hash x.2 = true) l ∧
    collecting ix d0 (disk w'))); [done| |].
  - intros x l w1 [[Hx Hl]%Forall_cons Hc1]. eapply wp_mono; [apply collecting_quiet; [|done]|].
    { by apply (quiet_remove_ref S pid base). }
    by intros [] w2 Hc2.
  - intros w1 [_ Hc1]. wp_step. eapply wp_mono; [by apply wp_collect_garbage|].
    intros [[count freed]|e] w2 Hc2; [|done]. wp_step.
    eapply wp_mono; [apply collecting_quiet; [apply quiet_sweep|done]|]. intros [sw|e] w3 Hc3; [|done]. by wp_step.
Qed.

Lemma wp_gc us vus now c root keep w :
  S = store_path c root → inv (disk w) →
  wp (gc us vus now c root pid keep false) (λ r w', inv (disk w') ∧
    ∀ ix, holds_index S pid (disk w) ix → gc_effect c now keep ix (disk w) (disk w') r) w.
Proof.
  intros HS Hi. unfold gc. wp_step. eapply wp_mono; [by apply wp_store_dir|].
  intros [p|e] w1 [Hw1 Hp]; rw -Hw1 in Hi |- *; [|split; [done|]; intros ix _; by left].
  rw (Hp p eq_refl). wp_step. eapply wp_mono; [by apply wp_load_or_rebuild|].
  intros [ix|e] w2 (Hi2 & Hs2 & Hg2 & Hix2).
  2:{ split; [done|]. intros ix0 Hix0. left. destruct (Hix2 ix0 Hix0) as [-> _]. done. }
  specialize (Hg2 ix eq_refl). cbv iota. wp_step. eapply wp_mono; [by apply wp_protected_versions|].
  intros r w3 (Hi3 & Hs3 & Hd3 & Hl3).
  assert (Hback : ∀ ix0, holds_index S pid (disk w1) ix0 → ix0 = ix ∧ disk w3 = disk w1).
  { intros ix0 Hix0. destruct (Hix2 ix0 Hix0) as [E1 E2]. specialize (E2 ix eq_refl). subst ix0.
    split; [done|]. rw (Hd3 ix) //. by rw E1. }
  destruct r as [protected|e].
  2:{ split; [done|]. intros ix0 Hix0. left. destruct (Hback ix0 Hix0) as [_ ->]. done. }
  destruct (Hl3 protected eq_refl) as [Hkeep Hpin]. cbv beta.
  set (victims := apply_retention ix c protected now).
  assert (Hgood : index_good S (disk w3) ix) by (eapply deep_same_good; [done|done]).
  assert (Hhash : Forall (λ x, is_valid_object_hash x.2 = true) (remove_victims victims ix).2).
  { eapply remove_victims_hashes; [done|]. intros k Hk.
    apply retention_removable in Hk as (_ & e & ? & ?). by exists e. }
  destruct (remove_victims victims ix) as [ix' removed] eqn:Er.
  assert (Hg' : index_good S (disk w3) ix').
  { replace ix' with (remove_victims victims ix).1 by by rw Er. by apply remove_victims_good. }
  wp_step. eapply wp_mono; [by apply (wp_index_save S pid base)|].
  intros [[]|e] w4 (Hi4 & Hs4 & Herr4 & Hok4).
  2:{ split; [done|]. intros ix0 Hix0. left. destruct (Hback ix0 Hix0) as [_ <-]. split; [|done].
      apply deep_same_store; [done|]. by apply Herr4. }
  destruct (Hok4 eq_refl) as [Hx4 Hg4]. cbn [snd] in Hhash.
  eapply wp_mono; [apply (wp_finish_gc ix' (disk w3)); [done|]|].
  { split; [done..|]. intros h _ _. by apply deep_same_object. }
  intros r w5 [Hi5 Hx5 Hg5 Hk5]. split; [done|]. intros ix0 Hix0. right. exists protected.
  destruct (Hback ix0 Hix0) as [-> E]. fold victims. rw Er. cbn [fst]. rw -E. split_and!; [done| |done|done].
  intros k Hk. apply Hpin. destruct (Hix2 ix Hix0) as [-> _]. by rw -E.
Qed.

(** ** [purge] *)
Lemma harmless_tag c : harmless S (tags_dir S ++ [c]).
Proof. apply harmless_length; [solve_related|unfold tags_dir; rw !length_app /=; lia..]. Qed.

(** What is below the directory of objects may go once the index is empty. *)
Lemma inv_remove_objects d k :
  inv d → index_is S d (new_index pid) →
  let d' := remove_entries d (take k (subtree d (objects_dir S))) in
  inv d' ∧ index_is S d' (new_index pid).
Proof.
  intros Hi (b & Hb & Hd) d'.
  assert (Hsub : ∀ q n, d' !! q = Some n → d !! q = Some n).
  { intros q n. unfold d'. rw lookup_remove_entries. by case_bool_decide. }
  assert (Hx : d' !! index_path S = Some (File b)).
  { unfold d'. rw lookup_remove_entries. rw bool_decide_eq_false_2 //.
    intros Hin%subseteq_take%elem_of_subtree. destruct Hin as [Hs _]. unfold path_starts_with in Hs. bool_to_prop.
    unfold index_path, objects_dir in Hs. rw take_ge in Hs; [rw !length_app; done|].
    by apply app_inj_tail in Hs as [_ ?]. }
  split; [|by exists b]. split.
  - apply tree_wf_remove_entries, Hi.
  - intros q Hq. rw -(si_frame _ _ _ _ Hi q Hq). unfold d'. rw lookup_remove_entries. case_bool_decide as Hin; [|done].
    apply subseteq_take, elem_of_subtree in Hin as [Hs _]. unfold path_starts_with in Hs. bool_to_prop.
    destruct Hq. rw -(take_drop (length (objects_dir S)) q) Hs. solve_related.
  - apply Hi.
  - intros q t Hq E%Hsub. by eapply si_nolinks.
  - intros h n Hv E%Hsub. by eapply si_objects.
  - intros b' ix E Hd' _ _. rw Hx in E. injection E as <-. rw Hd in Hd'. injection Hd' as <-. apply index_good_new.
Qed.

Lemma wp_purge u ix w :
  inv (disk w) →
  wp (purge u S pid ix) (λ r w', inv (disk w') ∧
    (same_store S (disk w) (disk w') ∧ (∀ rep, r ≠ Ok rep) ∨ index_is S (disk w') (new_index pid))) w.
Proof.
  intros Hi. unfold purge. destruct (existsb _ _); [wp_step; split; [done|by left]|].
  wp_step. eapply wp_mono; [apply reads_sum_object_sizes|]. intros [freed|e] w1 Hw1; rw -Hw1 in Hi |- *.
  2:{ split; [done|by left]. }
  wp_step. eapply wp_mono; [apply (wp_index_save S pid base); [done|apply index_good_new]|].
  intros [[]|e] w2 (Hi2 & Hs2 & Herr & Hok).
  2:{ split; [done|]. left. split; [|done]. apply deep_same_store; [done|]. by apply Herr. }
  destruct (Hok eq_refl) as [Hx2 _].
  assert (Hsweep : ∀ l n w3, inv (disk w3) → index_is S (disk w3) (new_index pid) →
    wp (swept ← sweep_stale_temporaries S; mret (mk_GcReport l n (sat_add freed swept)))
      (λ r w', inv (disk w') ∧ (same_store S (disk w1) (disk w') ∧ (∀ rep, r ≠ Ok rep) ∨
         index_is S (disk w') (new_index pid))) w3).
  { intros l n w3 Hi3 Hx3. wp_step. eapply wp_mono; [by apply quiet_sweep|].
    intros [swept|e] w4 [Hi4 Hs4]; [wp_step|]; (split; [done|]); right; by eapply index_is_same. }
  wp_step. wp_step. apply wp_remove_dir_all_plain; [by eapply plain_entry| |].
  - intros e w3 Hw3. rw -Hw3 in Hi2, Hx2. cbv beta iota. wp_step.
    destruct e; wp_step; first [by apply Hsweep|by split; [|right]].
  - intros r k w3 Hw3. destruct (inv_remove_objects (disk w2) k) as [Hi3 Hx3]; [done..|].
    fold (objects_dir S) in Hw3. rw -Hw3 in Hi3, Hx3. cbv beta iota. wp_step.
    destruct r as [[]|[]]; wp_step; first [by apply Hsweep|by split; [|right]].
Qed.

(** ** Changing tags *)
Lemma quiet_write p c b :
  (∀ d, inv d → plain d (p ++ [c])) → harmless S (p ++ [c]) → quiet (write (p ++ [c]) b).
Proof.
  intros Hp Hh w Hi. apply wp_write_plain; [by apply Hp|by intros ?? ->|].
  intros b' r w' -> Hold Hdir _. apply quiet_edit; [done|done|done|apply is_content_file|done].
Qed.

Lemma quiet_rename p c c' :
  (∀ d, inv d → plain d (p ++ [c])) → (∀ d, inv d → plain d (p ++ [c'])) →
  harmless S (p ++ [c]) → harmless S (p ++ [c']) → quiet (rename (p ++ [c]) (p ++ [c'])).
Proof.
  intros Hp Hp' Hh Hh' w Hi. apply wp_rename_plain; [by apply Hp|by apply Hp'|by intros ?? ->|].
  intros b w' Hb Hold Hdir ->.
  destruct (quiet_edit S pid base (disk w) p c None) as [Hi1 Hs1]; [done|by rw Hb|by intros []|apply is_content_none|done|].
  destruct (quiet_edit S pid base (edit (disk w) (p ++ [c]) None) p c' (Some (File b))) as [Hi2 Hs2];
    [done| | |apply is_content_file|done|].
  - rw lookup_partial_alter. by case_decide.
  - intros _. by rw node_at_edit_ne; [apply snoc_ne_self|].
  - split; [done|]. by etrans.
Qed.

Lemma tag_name_ne name : is_valid_tag_name name = true → ∀ u, name +:+ "-" +:+ u +:+ ".tmp" ≠ "..".
Proof. intros _ u. by apply suffix_ne; destruct u as [|? [|? ?]]. Qed.

Lemma quiet_open_tags {B} (f : option path → IO B) :
  quiet (f None) → quiet (f (Some (tags_dir S))) → quiet (open_tags_dir S ≫= f).
Proof.
  intros Hn Hs w Hi. wp_step. eapply wp_mono; [by apply wp_open_tags_dir|].
  intros [o|e] w1 (Hw1 & Hdir & _); rw -Hw1 in Hi |- *; [|done].
  destruct o as [dir|]; [rw (Hdir dir eq_refl); by apply Hs|by apply Hn].
Qed.

Lemma take_tags_harmless n : harmless S (take n (tags_dir S)).
Proof.
  unfold tags_dir. destruct (decide (n ≤ length S)) as [Hn|Hn].
  - rw take_app_le; [lia|]. apply harmless_length; [solve_related|rw length_take; lia..].
  - rw take_ge; [rw length_app /=; lia|]. by apply harmless_entry.
Qed.

Lemma quiet_prepare_tags {B} (f : path → IO B) :
  quiet (f (tags_dir S)) → quiet (prepare_tags_dir S ≫= f).
Proof.
  intros Hf w Hi. unfold prepare_tags_dir. wp_step. wp_step.
  eapply wp_mono; [apply wp_create_dirs; [apply Hi|by eapply plain_entry]|]. intros r w1 [Hadd _].
  destruct (inv_dirs S pid base (tags_dir S) (disk w) (disk w1)) as [Hi1 Hs1]; [done..|apply take_tags_harmless|].
  destruct r as [[]|e]; [|done]. wp_step. eapply wp_mono; [by apply wp_open_tags_dir|].
  intros [o|e] w2 (Hw2 & Hdir & _); rw -Hw2 in Hi1, Hs1; [|done]. wp_step.
  destruct o as [dir|]; [|done]. rw (Hdir dir eq_refl). cbn [ok_or].
  eapply wp_mono; [by apply Hf|]. intros r w3 [? ?]. split; [done|]. by etrans.
Qed.

Lemma reads_ensure_regular p : reads (ensure_regular_tag_file p).
Proof. unfold ensure_regular_tag_file. solve_reads. Qed.

Lemma reads_tag_load name : reads (tag_load S pid name).
Proof.
  unfold tag_load. apply reads_bind; [apply reads_lift|]. intros _.
  apply reads_bind; [apply reads_open_tags_dir|]. intros [dir|]; [|apply reads_ret].
  apply reads_bind; [apply reads_lift|]. intros p. apply reads_bind; [apply reads_ensure_regular|].
  solve_reads.
Qed.

Lemma quiet_remove_tag c : c ≠ ".." → quiet (remove_file (tags_dir S ++ [c])).
Proof. intros Hc. apply (quiet_remove S pid base); [by intros; apply plain_tag|apply harmless_tag]. Qed.

Lemma quiet_tag_save u name now p : quiet (tag_save u S pid name now p).
Proof.
  unfold tag_save, tag_path. apply quiet_bind; [apply quiet_reads, reads_lift|]. intros _.
  destruct (invalid_pins p); [apply quiet_reads, reads_throw|].
  apply quiet_prepare_tags. destruct (is_valid_tag_name name) eqn:Hn; cbn [negb]; [|intros w Hi; by wp_step].
  intros w Hi. wp_step. wp_step. revert w Hi. apply quiet_bind; [apply quiet_reads, reads_ensure_regular|]. intros _.
  apply quiet_bind; [apply quiet_reads, reads_lift|]. intros json.
  assert (Hne : name +:+ "-" +:+ u +:+ ".tmp" ≠ "..") by by apply tag_name_ne.
  assert (Hdrop : ∀ e, quiet (_ ← ignore (remove_file (tags_dir S ++ [name +:+ "-" +:+ u +:+ ".tmp"])); throw (A := Tag) e)).
  { intros e. apply quiet_bind; [by apply quiet_ignore, quiet_remove_tag|]. intros ?. apply quiet_reads, reads_throw. }
  apply quiet_bind; [apply quiet_try, quiet_write; [by intros; apply plain_tag|apply harmless_tag]|].
  intros [[]|e]; [|apply Hdrop].
  apply quiet_bind; [|by intros [[]|e]; [apply quiet_reads, reads_ret|apply Hdrop]].
  apply quiet_try, quiet_rename; [by intros; apply plain_tag| |apply harmless_tag..].
  intros d Hd. apply plain_tag; [done|apply json_name_ne].
Qed.

Lemma quiet_tag_remove name : quiet (tag_remove S pid name).
Proof.
  unfold tag_remove. apply quiet_bind; [apply quiet_reads, reads_tag_load|]. intros [tag|]; [|apply quiet_reads, reads_ret].
  apply quiet_open_tags; [apply quiet_reads, reads_ret|]. unfold tag_path.
  destruct (is_valid_tag_name name); cbn [negb]; [|intros w Hi; by wp_step].
  intros w Hi. wp_step. wp_step. revert w Hi. apply quiet_bind; [apply quiet_try, quiet_remove_tag, json_name_ne|].
  intros [[]|[]]; apply quiet_reads; solve_reads.
Qed.
End gc.
