(* ===== verification/StoreRotate.v ===== *)
(** * Rotation loses no version

    [BackendLaws] says what the store needs of external storage.  Against it, [rotate] and
    [fetch] keep every version either as an object of the store or at the backend, whatever
    fails on the way; [LocalDirBackend] on a directory apart from the store keeps the laws. *)

From Stdlib Require Import Strings.Ascii.
From S2P Require Import Prelude Crypto Types Transfer Fs FsPlain Manifest Retention HistoryIndex.
From S2P Require Import Tags Rotation HistoryStore StoreInv StoreOps StoreGc.

Lemma wp_on_disk {Remote A} (m : IO A) (Q : result IoError A → RWorld Remote → Prop) s :
  wp m (λ r w', Q r (mk_RWorld w' (rw_remote s))) (rw_world s) → wp (on_disk m) Q s.
Proof. unfold wp, on_disk. by destruct (m (rw_world s)). Qed.

Lemma wp_as_other_st {St A} (m : ST St IoError A) (Q : result IoError A → St → Prop) s :
  wp m (λ r s', Q (map_err (λ _, OtherIo) r) s') s → wp (as_other m) Q s.
Proof. unfold wp, as_other. by destruct (m s). Qed.

Abbreviation rdisk s := (disk (rw_world s)).

(** ** What a backend promises *)
Section laws.
Context `{Blake3, Hex, !Codec HistoryIndex} {Dmg : Damaged}.
Context {Remote : Type} (S : path) (pid : string).

Definition store_ok (s : RWorld Remote) : Prop := store_inv S pid (rdisk s) (rdisk s).

Record stable (ready : RWorld Remote → Prop) (s s' : RWorld Remote) : Prop := {
  st_ok : store_ok s';
  st_ready : ready s';
  st_same : same_store S (rdisk s) (rdisk s');
}.

(** [ready]: what the backend needs of the state; [content]: what it holds under each key. *)
Class BackendLaws (bk : RotationBackend Remote) (ready : RWorld Remote → Prop)
    (content : RWorld Remote → string → option bytes) : Prop := {
  bl_outside s w' : store_inv S pid (rdisk s) (disk w') → ready s →
    ready (mk_RWorld w' (rw_remote s)) ∧ ∀ k, content (mk_RWorld w' (rw_remote s)) k = content s k;
  bl_put key src s : store_ok s → ready s →
    wp (bk_put bk key src) (λ _ s', stable ready s s' ∧ ∀ k, k ≠ key → content s' k = content s k) s;
  bl_get key p c s : store_ok s → ready s → plain (rdisk s) (p ++ [c]) → harmless S (p ++ [c]) →
    wp (bk_get bk key (p ++ [c])) (λ r s', stable ready s s' ∧ (∀ k, content s' k = content s k) ∧
      (r = Ok () → ∃ b, content s key = Some b ∧ rdisk s' !! (p ++ [c]) = Some (File b))) s;
  bl_exists key s : store_ok s → ready s →
    wp (bk_exists bk key) (λ _ s', stable ready s s' ∧ ∀ k, content s' k = content s k) s;
  bl_size key s : store_ok s → ready s →
    wp (bk_size bk key) (λ _ s', stable ready s s' ∧ ∀ k, content s' k = content s k) s;
  bl_delete key s : store_ok s → ready s →
    wp (bk_delete bk key) (λ _ s', stable ready s s' ∧ ∀ k, k ≠ key → content s' k = content s k) s;
}.

Lemma stable_refl ready s : store_ok s → ready s → stable ready s s.
Proof. by split. Qed.

Lemma stable_trans ready s1 s2 s3 : stable ready s1 s2 → stable ready s2 s3 → stable ready s1 s3.
Proof. intros [_ _ ?] [? ? ?]. split; [done..|]. by etrans. Qed.

Lemma inv_rebase d0 d : store_inv S pid d0 d → store_inv S pid d d.
Proof. intros []. by split. Qed.
End laws.

(** ** Versions that are kept *)
Definition at_place (c : RotationBackendConfig) (o : OffloadedRef) : Prop :=
  off_config o = Some c ∨ off_config o = None ∧ off_backend o = backend_name c.

(** The two indexes have the same versions with the same content. *)
Definition keeps (ix ix' : HistoryIndex) : Prop :=
  ∀ rel v, with_offloaded None <$> index_get ix' rel v = with_offloaded None <$> index_get ix rel v.

Lemma keeps_refl ix : keeps ix ix.
Proof. done. Qed.

Lemma keeps_insert ix0 ix rel v e o :
  keeps ix0 ix → index_get ix rel v = Some e → keeps ix0 (index_insert rel v (with_offloaded o e) ix).
Proof.
  intros Hk He rel' v'. rw -Hk index_get_insert. case_decide as E; [|done]. destruct E as [<- <-]. by rw He.
Qed.

Lemma index_entries_valid_get ix :
  index_entries_valid ix = true ↔ ∀ rel v e, index_get ix rel v = Some e →
    invalid_path rel = false ∧ (0 < v < u64_max)%N ∧ is_valid_object_hash (ie_hash e) = true.
Proof.
  unfold index_entries_valid. rw forallb_forall. split.
  - intros Hf rel v e He. apply elem_of_iter_all, list_elem_of_In in He.
    specialize (Hf _ He). cbn in Hf. bool_to_prop. split_and!; [done|lia..|done].
  - intros Hf [[rel v] e] Hin. apply list_elem_of_In, elem_of_iter_all in Hin.
    destruct (Hf rel v e Hin) as (-> & [? ?] & ->). cbn. rw !andb_true_r. by apply andb_true_intro; split; apply N.ltb_lt.
Qed.

Lemma index_entries_valid_insert ix rel v e :
  index_entries_valid ix = true → invalid_path rel = false → (0 < v < u64_max)%N →
  is_valid_object_hash (ie_hash e) = true → index_entries_valid (index_insert rel v e ix) = true.
Proof.
  rw !index_entries_valid_get. intros Hix Hp Hv Hh rel' v' e'. rw index_get_insert. case_decide as E.
  - destruct E as [<- <-]. by intros [= <-].
  - apply Hix.
Qed.

Section rotate.
Context `{Blake3, Crc32, Hex, !Blake3Laws, !HexLaws, !Codec HistoryIndex, !CodecLaws HistoryIndex,
  !Codec ObjectMeta, !Codec Tag, DirOrder, !DirOrderLaws} {Dmg : Damaged}.
Context {Remote : Type} (S : path) (pid : string).
Context (bk : RotationBackend Remote) (ready : RWorld Remote → Prop)
  (content : RWorld Remote → string → option bytes) `{!BackendLaws S pid bk ready content}.
Context (c : RotationBackendConfig).
Implicit Types (s : RWorld Remote).

Abbreviation ok := (store_ok S pid).
Abbreviation key h := (object_key pid h).

(** The content with hash [h] is in the store or at the backend, unless it was damaged. *)
Definition stored s (h : string) : Prop :=
  is_Some (rdisk s !! object_path S h) ∨ (∃ b, content s (key h) = Some b ∧ hex_encode (blake3 b) = h) ∨ damaged h.

(** The object in the store is the content with hash [h]. *)
Definition authentic s (h : string) : Prop :=
  ∃ b, rdisk s !! object_path S h = Some (File b) ∧ hex_encode (blake3 b) = h.

(** Every version of [ix] is kept: the local ones in the store, the offloaded ones, all of them
    to the place [c] names, in the store or at the backend. *)
Record held (ix : HistoryIndex) s : Prop := {
  held_local : index_good S (rdisk s) ix;
  held_place : ∀ rel v e o, index_get ix rel v = Some e → offloaded e = Some o → at_place c o;
  held_offloaded : ∀ rel v e o, index_get ix rel v = Some e → offloaded e = Some o →
    is_valid_object_hash (ie_hash e) = true → stored s (ie_hash e);
}.

(** The state between operations, [ix0] being the index at the start. *)
Definition safe (ix0 : HistoryIndex) s : Prop :=
  ok s ∧ ready s ∧ ∃ ix, holds_index S pid (rdisk s) ix ∧ held ix s ∧ keeps ix0 ix.

Lemma object_key_inj h h' : key h = key h' → h = h'.
Proof.
  unfold object_key. intros E. apply (inj (String.append _)) in E. by apply (inj (String.append _)) in E.
Qed.

Lemma held_mono ix s s' :
  (∀ h, is_valid_object_hash h = true → is_Some (rdisk s !! object_path S h) →
     is_Some (rdisk s' !! object_path S h)) →
  (∀ k, content s' k = content s k) → held ix s → held ix s'.
Proof.
  intros Hobj Hc [Hl Hp Ho]. split; [by eapply index_good_mono|done|].
  intros rel v e o He Hoff Hv. destruct (Ho rel v e o He Hoff Hv) as [?|[(b & Hb & ?)|?]].
  - left. by apply Hobj.
  - right. left. exists b. by rw Hc.
  - by right; right.
Qed.

Lemma authentic_some s h : authentic s h → is_Some (rdisk s !! object_path S h).
Proof. intros (b & -> & _). by eexists. Qed.
Lemma authentic_same s s' h : rdisk s' !! object_path S h = rdisk s !! object_path S h → authentic s h → authentic s' h.
Proof. intros E (b & Hb & Hh). exists b. by rw E. Qed.


Lemma held_stable ix s s' :
  stable S pid ready s s' → (∀ k, content s' k = content s k) → held ix s → held ix s'.
Proof. intros [_ _ [Ho _]] Hc. apply held_mono; [|done]. intros h Hv. by rw Ho. Qed.

Lemma holds_same d d' ix :
  d' !! index_path S = d !! index_path S → holds_index S pid d ix → holds_index S pid d' ix.
Proof. unfold holds_index, index_is. by intros ->. Qed.

Lemma holds_stable ix s s' :
  stable S pid ready s s' → holds_index S pid (rdisk s) ix → holds_index S pid (rdisk s') ix.
Proof. intros [_ _ [_ E]]. by apply holds_same. Qed.

(** A step of the store on the disk. *)
Lemma disk_step s w' :
  ready s → store_inv S pid (rdisk s) (disk w') →
  let s' := mk_RWorld w' (rw_remote s) in ok s' ∧ ready s' ∧ ∀ k, content s' k = content s k.
Proof.
  intros Hr Hi s'. destruct (bl_outside S pid (bk := bk) (ready := ready) (content := content) s w') as [? ?].
  - done.
  - done.
  - split_and!; [by eapply inv_rebase|done..].
Qed.

Lemma wp_quiet {A} (m : IO A) (Q : result IoError A → RWorld Remote → Prop) s :
  (∀ w, store_inv S pid (rdisk s) (disk w) →
     wp m (λ _ w', store_inv S pid (rdisk s) (disk w') ∧ same_store S (disk w) (disk w')) w) →
  ok s → ready s →
  (∀ r s', stable S pid ready s s' → (∀ k, content s' k = content s k) → Q r s') → wp (on_disk m) Q s.
Proof.
  intros Hm Hok Hr HQ. apply wp_on_disk. eapply wp_mono; [by apply Hm|]. intros r w' [Hi Hs].
  destruct (disk_step s w') as (? & ? & ?); [done..|]. by apply HQ.
Qed.

(** *** Verification of what was offloaded *)
Section verify.
Context (e : IndexEntry) (Hv : is_valid_object_hash (ie_hash e) = true).

Definition shard_tmp (u : string) : path :=
  parent (object_path S (ie_hash e)) ++ [with_extension (ie_hash e) u].

Lemma shard_tmp_eq u : shard_tmp u = shard_dir S (ie_hash e) ++ [with_extension (ie_hash e) u].
Proof. unfold shard_tmp, object_path. by rw parent_snoc. Qed.

Lemma plain_shard_tmp d0 d u :
  String.length u ≠ 0 → u ≠ "." → store_inv S pid d0 d → plain d (shard_tmp u).
Proof. intros ? ? Hi. rw shard_tmp_eq. eapply plain_in_shard; [done..|]. by apply with_extension_ne. Qed.

Lemma harmless_shard_tmp u : harmless S (shard_tmp u).
Proof. rw shard_tmp_eq. apply harmless_in_shard, with_extension_dotted. Qed.

Lemma wp_remove_shard_tmp u (Q : result IoError () → RWorld Remote → Prop) s :
  String.length u ≠ 0 → u ≠ "." → ok s → ready s →
  (∀ r s', stable S pid ready s s' → (∀ k, content s' k = content s k) → Q r s') →
  wp (on_disk (remove_file (shard_tmp u))) Q s.
Proof.
  intros ? ? Hok Hr. apply wp_quiet; [|done..]. rw shard_tmp_eq. apply quiet_remove.
  - intros d Hi. rw -shard_tmp_eq. by eapply plain_shard_tmp.
  - rw -shard_tmp_eq. apply harmless_shard_tmp.
Qed.

(** A download is what the backend holds, and a valid one is the version. *)
Lemma wp_get_tmp u (Q : result IoError () → RWorld Remote → Prop) s :
  String.length u ≠ 0 → u ≠ "." → ok s → ready s →
  (∀ r s', stable S pid ready s s' → (∀ k, content s' k = content s k) →
     (r = Ok () → ∃ b, content s (key (ie_hash e)) = Some b ∧ rdisk s' !! shard_tmp u = Some (File b)) → Q r s') →
  wp (bk_get bk (key (ie_hash e)) (shard_tmp u)) Q s.
Proof.
  intros ? ? Hok Hr HQ. pose proof (plain_shard_tmp _ _ u ltac:(done) ltac:(done) Hok) as Hp.
  pose proof (harmless_shard_tmp u) as Hh. rw shard_tmp_eq in HQ, Hp, Hh |- *.
  eapply wp_mono; [by apply (bl_get S pid)|]. intros r s' (? & ? & ?). by apply HQ.
Qed.

Lemma wp_validate_tmp u b (Q : result IoError bool → RWorld Remote → Prop) s :
  String.length u ≠ 0 → u ≠ "." → ok s → ready s → rdisk s !! shard_tmp u = Some (File b) →
  (∀ r w', disk w' = rdisk s → (r = Ok true → hex_encode (blake3 b) = ie_hash e) →
     Q r (mk_RWorld w' (rw_remote s))) →
  wp (on_disk (validate_fetched (shard_tmp u) e)) Q s.
Proof.
  intros ? ? Hok Hr Hb HQ. apply wp_on_disk.
  eapply wp_mono; [apply wp_validate_fetched; by eapply plain_shard_tmp|]. intros r w' [Hw Ht]. apply HQ; [done|].
  intros ->. destruct (Ht eq_refl) as [(b' & Hb' & ? & _) _]. rw shard_tmp_eq in Hb, Hb'.
  rw node_at_snoc Hb in Hb'. by injection Hb' as <-.
Qed.

Lemma stable_disk s w' : ok s → ready s → disk w' = rdisk s →
  stable S pid ready s (mk_RWorld w' (rw_remote s)) ∧ ∀ k, content (mk_RWorld w' (rw_remote s)) k = content s k.
Proof.
  intros Hok Hr Hw. destruct (disk_step s w') as (? & ? & ?); [done|by rw Hw|].
  split; [|done]. split; [done..|]. cbn. by rw Hw.
Qed.

Lemma wp_verify_offloaded u s :
  ok s → ready s →
  wp (verify_offloaded bk u (key (ie_hash e)) (object_path S (ie_hash e)) e) (λ r s',
    stable S pid ready s s' ∧ (∀ k, content s' k = content s k) ∧
    (r = Ok None → ∃ b, content s (key (ie_hash e)) = Some b ∧ hex_encode (blake3 b) = ie_hash e)) s.
Proof.
  intros Hok Hr. unfold verify_offloaded. wp_step. wp_step. eapply wp_mono; [by apply (bl_exists S pid)|].
  intros [[]|er] s1 [Hs1 Hc1]; [|by wp_step..]. wp_step. wp_step.
  eapply wp_mono; [apply (bl_size S pid); apply Hs1|]. intros r s2 [Hs2 Hc2].
  assert (Hs02 : stable S pid ready s s2) by by eapply stable_trans.
  assert (Hc02 : ∀ k, content s2 k = content s k) by (intros; by rw Hc2 Hc1).
  destruct r as [[size|]|er]; [|by wp_step..]. destruct (negb _); [by wp_step|].
  set (ext := "rotation-verify-" +:+ u +:+ ".tmp"). fold (shard_tmp ext).
  assert (Hext : String.length ext ≠ 0 ∧ ext ≠ ".") by done. destruct Hext as [He1 He2].
  wp_step. wp_step. apply wp_get_tmp; [done..|apply Hs02|apply Hs02|]. intros r s3 Hs3 Hc3 Hget.
  assert (Hs03 : stable S pid ready s s3) by by eapply stable_trans.
  assert (Hc03 : ∀ k, content s3 k = content s k) by (intros; by rw Hc3).
  (* the temporary file is removed and the verdict given *)
  assert (Hend : ∀ (v : option SkipReason) s4, stable S pid ready s s4 → (∀ k, content s4 k = content s k) →
    (v = None → ∃ b, content s (key (ie_hash e)) = Some b ∧ hex_encode (blake3 b) = ie_hash e) →
    wp (_ ← ignore (on_disk (remove_file (shard_tmp ext))); mret v) (λ r s',
      stable S pid ready s s' ∧ (∀ k, content s' k = content s k) ∧
      (r = Ok None → ∃ b, content s (key (ie_hash e)) = Some b ∧ hex_encode (blake3 b) = ie_hash e)) s4).
  { intros v s4 Hs4 Hc4 Hver. wp_step. wp_step. apply wp_remove_shard_tmp; [done..|apply Hs4|apply Hs4|].
    intros _ s5 Hs5 Hc5. wp_step. split_and!; [by eapply stable_trans|by intros; rw Hc5|].
    intros [= ->]. by apply Hver. }
  wp_step. destruct r as [[]|er]; [|wp_step; by apply Hend].
  destruct (Hget eq_refl) as (b & Hb & Htmp). wp_step.
  apply (wp_validate_tmp ext b); [done..|apply Hs3|apply Hs3|done|]. intros r w' Hw Hval.
  destruct (stable_disk s3 w') as [Hs4 Hc4]; [apply Hs3|apply Hs3|done|].
  apply Hend; [by eapply stable_trans|by intros; rw Hc4|].
  destruct r as [[]|]; try done. intros _. exists b. split; [by rw -Hc02|by apply Hval].
Qed.
End verify.

(** *** The index changes *)
Lemma holds_entry ix d rel v e :
  holds_index S pid d ix → index_get ix rel v = Some e →
  index_is S d ix ∧ index_belongs ix pid = true ∧ index_entries_valid ix = true ∧
  is_valid_object_hash (ie_hash e) = true.
Proof.
  intros [(Hx & Hb & Hv)|[_ ->]] He; [|by rw /index_get lookup_empty in He].
  split_and!; [done..|]. rw index_entries_valid_get in Hv. by eapply Hv.
Qed.

Lemma holds_insert d d' ix rel v e o :
  holds_index S pid d ix → index_get ix rel v = Some e →
  index_is S d' (index_insert rel v (with_offloaded o e) ix) →
  holds_index S pid d' (index_insert rel v (with_offloaded o e) ix).
Proof.
  intros Hh He Hx. destruct (holds_entry _ _ _ _ _ Hh He) as (_ & Hb & Hv & _). left. split_and!; [done..|].
  pose proof Hv as Hget. rw index_entries_valid_get in Hget. destruct (Hget _ _ _ He) as (? & ? & ?).
  by apply index_entries_valid_insert.
Qed.

Lemma held_insert ix s rel v e :
  held ix s →
  (is_local e = true → is_valid_object_hash (ie_hash e) = true ∧
     (is_Some (rdisk s !! object_path S (ie_hash e)) ∨ damaged (ie_hash e))) →
  (∀ o, offloaded e = Some o → at_place c o ∧ stored s (ie_hash e)) →
  held (index_insert rel v e ix) s.
Proof.
  intros [Hl Hp Ho] Hloc Hoff. split; [by apply index_good_insert|..]; intros rel' v' e' o; rw index_get_insert;
    (case_decide; [intros [= <-]|]).
  - intros E. by destruct (Hoff o E).
  - by apply Hp.
  - intros E _. by destruct (Hoff o E).
  - by apply Ho.
Qed.

(** The reference is appended to the sidecar, then the index saved. *)
Lemma wp_save_entry {A} u1 u2 reference ix0 ix rel v e o (k : () → ST (RWorld Remote) IoError A)
    (Q : result IoError A → RWorld Remote → Prop) s :
  let ix' := index_insert rel v (with_offloaded o e) ix in
  ok s → ready s → holds_index S pid (rdisk s) ix → held ix s → keeps ix0 ix →
  index_get ix rel v = Some e → held ix' s →
  (∀ er s', safe ix0 s' → Q (Err er) s') →
  (∀ s', ok s' → ready s' → holds_index S pid (rdisk s') ix' → held ix' s' →
     (∀ k, content s' k = content s k) → (∀ h, authentic s h → is_valid_object_hash h = true → authentic s' h) →
     wp (k ()) Q s') →
  wp (_ ← on_disk (append_object_ref u1 S pid (ie_hash e) reference);
      x ← on_disk (index_save u2 ix' S); k x) Q s.
Proof.
  intros ix' Hok Hr Hx Hh Hk He Hh' Herr Hgo. destruct (holds_entry _ _ _ _ _ Hx He) as (_ & _ & _ & Hv).
  wp_step. apply wp_quiet; [by intros w Hi; apply quiet_append|done..|]. intros r s1 Hs1 Hc1.
  assert (Hh1 : held ix s1) by by eapply held_stable.
  assert (Hh1' : held ix' s1) by by eapply held_stable.
  assert (Hx1 : holds_index S pid (rdisk s1) ix) by by eapply holds_stable.
  destruct r as [[]|er]; [|apply Herr; split_and!; [apply Hs1..|by exists ix]].
  wp_step. apply wp_on_disk. eapply wp_mono; [apply (wp_index_save S pid (rdisk s1)); [apply Hs1|apply Hh1']|].
  intros r w2 (Hi2 & Hs2 & Hbad & Hgood).
  destruct (disk_step s1 w2) as (Hok2 & Hr2 & Hc2); [apply Hs1|done|].
  assert (Hmono : ∀ i, held i s1 → held i (mk_RWorld w2 (rw_remote s1))).
  { intros i. apply held_mono; [|done]. intros h _. cbn. by rw (deep_same_object S (rdisk s1) (disk w2) h). }
  destruct r as [[]|er].
  - destruct (Hgood eq_refl) as [Hx2 _]. apply Hgo; [done..| |by apply Hmono|by intros; rw Hc2|].
    + by eapply holds_insert.
    + intros h Ha Hvh. apply (authentic_same s); [|done]. cbn. rw (deep_same_object S (rdisk s1) (disk w2) h) //.
      by apply (ss_objects _ _ _ (st_same _ _ _ _ _ Hs1)).
  - apply Herr. split_and!; [done..|]. exists ix. split_and!; [|by apply Hmono|done].
    eapply holds_same; [|done]. by apply Hbad.
Qed.

Lemma already_offloaded_false ix h :
  already_offloaded ix h c = false → ∀ rel v e o, index_get ix rel v = Some e → offloaded e = Some o →
  at_place c o → ie_hash e ≠ h.
Proof.
  unfold already_offloaded. intros Hf rel v e o He Ho Hat <-.
  apply Bool.not_true_iff_false in Hf. apply Hf, existsb_exists.
  exists (rel, v, e). split; [by apply list_elem_of_In, elem_of_iter_all|]. cbn.
  rw bool_decide_eq_true_2 // Ho. destruct Hat as [->|[-> ->]]; cbn.
  - by rw bool_decide_eq_true_2.
  - by rw (bool_decide_eq_true_2 (backend_name c = _)) // orb_true_r.
Qed.

Lemma has_local_false ix h :
  has_local_reference ix h = false → ∀ rel v e, index_get ix rel v = Some e → is_local e = true → ie_hash e ≠ h.
Proof.
  unfold has_local_reference. intros Hf rel v e He Hl <-. apply Bool.not_true_iff_false in Hf.
  apply Hf, existsb_exists. exists (rel, v, e). split; [by apply list_elem_of_In, elem_of_iter_all|].
  cbn. by rw bool_decide_eq_true_2.
Qed.

(** An upload under a key that nothing offloaded here uses. *)
Lemma held_put ix s s' h :
  stable S pid ready s s' → (∀ k, k ≠ key h → content s' k = content s k) →
  (∀ rel v e o, index_get ix rel v = Some e → offloaded e = Some o → at_place c o → ie_hash e ≠ h) →
  held ix s → held ix s'.
Proof.
  intros [_ _ [Ho _]] Hc Hn [Hl Hp Hoff]. split; [|done|].
  - eapply index_good_mono; [|done]. intros h' Hv. by rw Ho.
  - intros rel v e o He Hoo Hv. destruct (Hoff rel v e o He Hoo Hv) as [?|[(b & Hb & ?)|?]].
    + left. by rw Ho.
    + right. left. exists b. split; [|done]. rw Hc //. intros E%object_key_inj. by eapply Hn, E; eauto.
    + by right; right.
Qed.

(** The object goes once it is at the backend and no local version needs it. *)
Lemma wp_drop_object ix h b s :
  is_valid_object_hash h = true → ok s → ready s → index_is S (rdisk s) ix →
  holds_index S pid (rdisk s) ix → held ix s →
  has_local_reference ix h = false → content s (key h) = Some b → hex_encode (blake3 b) = h →
  wp (on_disk (remove_file (object_path S h))) (λ _ s', ok s' ∧ ready s' ∧
    holds_index S pid (rdisk s') ix ∧ held ix s') s.
Proof.
  intros Hv Hok Hr Hx Hx' Hh Hn Hb Hhash. apply wp_on_disk. unfold object_path at 1.
  apply wp_remove_plain; [by eapply (plain_object S pid (rdisk s))| |].
  - intros _ w' Hw. destruct (stable_disk s w') as [Hs Hc]; [done..|].
    split_and!; [apply Hs..|by eapply holds_stable|by eapply held_stable].
  - intros w' Hw Hold. fold (object_path S h) in Hw, Hold.
    destruct (inv_remove_object S pid (rdisk s) (rdisk s) h ix) as (Hi2 & Hx2 & Hg2); [done..|apply Hh| |done|].
    { intros rel v e He Hl. by eapply has_local_false. }
    rw -Hw in Hi2, Hx2, Hg2. destruct (disk_step s w') as (Hok2 & Hr2 & Hc2); [done..|].
    split_and!; [done..| |].
    + destruct Hx' as [(_ & ? & ?)|[_ ->]]; [by left|]. left. split_and!; [done| |done].
      unfold index_belongs. cbn. by rw bool_decide_eq_true_2.
    + split; [done|apply Hh|]. intros rel v e o He Ho Hve.
      destruct (decide (ie_hash e = h)) as [->|Hne]; [right; left; exists b; by rw Hc2|].
      destruct (held_offloaded _ _ Hh rel v e o He Ho Hve) as [?|[(b' & ? & ?)|?]];
        [left|right; left; exists b'; by rw Hc2|by right; right].
      cbn. rw Hw lookup_partial_alter_ne //. by intros E%object_path_inj.
Qed.

(** *** [rotate] *)
Definition rotating (ix0 ix : HistoryIndex) s : Prop :=
  ok s ∧ ready s ∧ holds_index S pid (rdisk s) ix ∧ held ix s ∧ keeps ix0 ix.

Lemma rotating_safe ix0 ix s : rotating ix0 ix s → safe ix0 s.
Proof. intros (? & ? & ? & ? & ?). split_and!; [done..|]. by exists ix. Qed.

Lemma rotating_stable ix0 ix s s' :
  stable S pid ready s s' → (∀ k, content s' k = content s k) → rotating ix0 ix s → rotating ix0 ix s'.
Proof.
  intros Hs Hc (? & ? & ? & ? & ?). split_and!; [apply Hs..|by eapply holds_stable|by eapply held_stable|done].
Qed.

(** After the verification: the entry is marked, then the object dropped. *)
Lemma wp_mark_offloaded u2 u3 ix0 ix rel v e b (rep : RotationReport) s :
  rotating ix0 ix s → index_get ix rel v = Some e →
  content s (key (ie_hash e)) = Some b → hex_encode (blake3 b) = ie_hash e →
  let o := Some (mk_OffloadedRef (backend_name c) (key (ie_hash e)) (Some c)) in
  let ix' := index_insert rel v (with_offloaded o e) ix in
  wp (_ ← on_disk (append_object_ref u2 S pid (ie_hash e) (ref_of_entry rel v (with_offloaded o e)));
      _ ← on_disk (index_save u3 ix' S);
      _ ← (if has_local_reference ix' (ie_hash e) then mret ()
           else ignore (on_disk (remove_file (object_path S (ie_hash e)))));
      mret (ix', rep))
    (λ r s', match r with Ok x => rotating ix0 x.1 s' | Err _ => safe ix0 s' end) s.
Proof.
  intros (Hok & Hr & Hx & Hh & Hk) He Hb Hhash o ix'.
  destruct (holds_entry _ _ _ _ _ Hx He) as (_ & _ & _ & Hv).
  assert (Hk' : keeps ix0 ix') by by apply keeps_insert.
  apply (wp_save_entry u2 u3 _ ix0 ix rel v e o); try done.
  { apply held_insert; [done|done|]. intros ? [= <-]. split; [by left|]. right. left. by exists b. }
  intros s' Hok' Hr' Hx' Hh' Hc' _. destruct (has_local_reference ix' (ie_hash e)) eqn:Hl.
  { wp_step. wp_step. by split_and!. }
  wp_step. wp_step. eapply wp_mono; [apply (wp_drop_object ix' (ie_hash e) b); try done|].
  - eapply holds_entry; [done|]. unfold ix'. rw index_get_insert. by rw decide_True.
  - by rw Hc'.
  - intros _ s2 (? & ? & ? & ?). wp_step. by split_and!.
Qed.

Lemma wp_rotate_one us k ix0 ix rep s :
  rotating ix0 ix s →
  wp (rotate_one S pid bk c us k (ix, rep))
    (λ r s', match r with Ok x => rotating ix0 x.1 s' | Err _ => safe ix0 s' end) s.
Proof.
  intros Hrot. unfold rotate_one. destruct k as [rel v], (us (rel, v)) as [[u1 u2] u3].
  destruct (index_get ix rel v) as [e|] eqn:He; [|by wp_step]. destruct (is_local e); cbn [negb]; [|by wp_step].
  pose proof Hrot as (Hok & Hr & Hx & Hh & Hk). destruct (holds_entry _ _ _ _ _ Hx He) as (_ & _ & _ & Hv).
  wp_step. eapply wp_mono with (P := λ r s1, stable S pid ready s s1 ∧ rotating ix0 ix s1 ∧ ∃ x, r = Ok x).
  - destruct (already_offloaded ix (ie_hash e) c) eqn:Ha.
    { wp_step. split_and!; [by apply stable_refl|done|by eexists]. }
    wp_step. eapply wp_mono; [by apply (bl_put S pid)|]. intros r s1 [Hs1 Hc1].
    split_and!; [done| |by eexists]. split_and!; [apply Hs1..|by eapply holds_stable| |done].
    eapply held_put; [done..| |done]. by apply already_offloaded_false.
  - intros r s1 (Hs1 & Hrot1 & x & ->). destruct x as [[]|er]; [|by wp_step].
    wp_step. eapply wp_mono; [apply wp_verify_offloaded; [done|apply Hs1..]|].
    intros r s2 (Hs2 & Hc2 & Hver). apply (rotating_stable _ _ _ _ Hs2) in Hrot1; [|done].
    destruct r as [[why|]|er]; [by wp_step| |by eapply rotating_safe].
    destruct (Hver eq_refl) as (b & Hb & Hhash). eapply wp_mark_offloaded; [done..| |done]. by rw Hc2.
Qed.

Lemma wp_rotate us ix days now protected dry s :
  ok s → ready s → holds_index S pid (rdisk s) ix → held ix s →
  wp (rotate S pid bk c us ix days now protected dry) (λ _ s', safe ix s') s.
Proof.
  intros Hok Hr Hx Hh. assert (Hrot : rotating ix ix s) by by split_and!.
  unfold rotate. destruct dry; [wp_step; by eapply rotating_safe|].
  apply (wp_fold_st _ (λ a s', rotating ix a.1 s')); [by intros; eapply rotating_safe| |done].
  intros k [ix1 rep] s1 _ Hrot1. by apply wp_rotate_one.
Qed.

(** *** [fetch] *)
Lemma wp_download u e ix0 ix s :
  rotating ix0 ix s → is_valid_object_hash (ie_hash e) = true →
  wp (download bk u (key (ie_hash e)) (object_path S (ie_hash e)) e) (λ r s', rotating ix0 ix s' ∧
    (r = Ok () → authentic s' (ie_hash e))) s.
Proof.
  intros Hrot Hv. pose proof Hrot as (Hok & Hr & _).
  unfold download. wp_step. wp_step. eapply wp_mono; [by apply (bl_size S pid)|]. intros r s1 [Hs1 Hc1].
  apply (rotating_stable _ _ _ _ Hs1) in Hrot; [|done].
  destruct r as [[size|]|er]; [|by wp_step..]. destruct (negb _); [by wp_step|].
  set (ext := "fetch-" +:+ u +:+ ".tmp"). fold (shard_tmp e ext).
  assert (Hext : String.length ext ≠ 0 ∧ ext ≠ ".") by done. destruct Hext as [He1 He2].
  wp_step. wp_step. apply wp_get_tmp; [done..|apply Hs1|apply Hs1|]. intros r s2 Hs2 Hc2 Hget.
  apply (rotating_stable _ _ _ _ Hs2) in Hrot; [|done].
  assert (Hdrop : ∀ er s3, rotating ix0 ix s3 →
    wp (_ ← ignore (on_disk (remove_file (shard_tmp e ext))); throw (A := ()) er) (λ r s', rotating ix0 ix s' ∧
      (r = Ok () → authentic s' (ie_hash e))) s3).
  { intros er s3 Hrot3. wp_step. wp_step. apply wp_remove_shard_tmp; [done..|apply Hrot3|apply Hrot3|].
    intros _ s4 Hs4 Hc4. wp_step. split; [by eapply rotating_stable|done]. }
  destruct r as [[]|er]; [|by apply Hdrop]. destruct (Hget eq_refl) as (b & Hb & Htmp).
  wp_step. wp_step. apply (wp_validate_tmp e Hv ext b); [done..|apply Hs2|apply Hs2|done|]. intros r w3 Hw3 Hval.
  destruct (stable_disk s2 w3) as [Hs3 Hc3]; [apply Hs2|apply Hs2|done|].
  apply (rotating_stable _ _ _ _ Hs3) in Hrot; [|done].
  destruct r as [[]|er]; [|by apply Hdrop..]. specialize (Hval eq_refl).
  wp_step. wp_step. apply wp_on_disk. cbn [rw_world rw_remote].
  set (s3 := mk_RWorld w3 (rw_remote s2)) in *. pose proof (harmless_shard_tmp e ext) as Hh.
  assert (Hok3 : ok s3) by apply Hs3. pose proof (plain_shard_tmp e Hv _ _ ext He1 He2 Hok3) as Hp.
  assert (Eobj : object_path S (ie_hash e) = object_path S (hex_encode (blake3 b))) by by rw Hval.
  rewrite Eobj.
  rw -Hw3 in Htmp. rw shard_tmp_eq in Htmp, Hh, Hp, Hdrop |- *.
  eapply wp_mono; [apply (wp_rename_object S pid (rdisk s3) (shard_dir S (ie_hash e)) _ b); try done|].
  { intros E%(f_equal length). rw length_app !length_shard_dir /= in E. lia. }
  intros r w4 (Hi4 & Hp4 & Hobj). destruct (disk_step s3 w4) as (Hok4 & Hr4 & Hc4); [apply Hs3|done|].
  assert (Hrot4 : rotating ix0 ix (mk_RWorld w4 (rw_remote s3))).
  { destruct Hrot as (_ & _ & ? & ? & ?). split_and!; [done..| | |done].
    - eapply holds_same; [apply (placed_index _ _ _ _ Hp4)|done].
    - eapply held_mono; [|done|done]. by eapply placed_objects_kept. }
  destruct r as [[]|er]; [|by apply Hdrop]. wp_step. split; [done|]. intros _. exists b. rw Hval in Hobj |- *.
  split; [by apply Hobj|done].
Qed.

(** The restored entry is local. *)
Lemma wp_restore_entry u2 u3 ix0 ix rel v e s :
  rotating ix0 ix s → index_get ix rel v = Some e → authentic s (ie_hash e) →
  let e' := with_offloaded None e in
  wp (_ ← on_disk (append_object_ref u2 S pid (ie_hash e) (ref_of_entry rel v e'));
      _ ← on_disk (index_save u3 (index_insert rel v e' ix) S);
      mret (index_insert rel v e' ix)) (λ r s', safe ix0 s' ∧
    ∀ ix', r = Ok ix' → holds_index S pid (rdisk s') ix' ∧ index_get ix' rel v = Some e' ∧ authentic s' (ie_hash e)) s.
Proof.
  intros (Hok & Hr & Hx & Hh & Hk) He Hobj e'.
  destruct (holds_entry _ _ _ _ _ Hx He) as (_ & _ & _ & Hv).
  apply (wp_save_entry u2 u3 _ ix0 ix rel v e None); try done.
  - apply held_insert; [done| |done]. intros _. split; [done|]. left. by apply authentic_some.
  - intros s' Hok' Hr' Hx' Hh' _ Ha. wp_step. split.
    + split_and!; [done..|]. eexists. split_and!; [done..|]. by apply keeps_insert.
    + intros ix' [= <-]. split; [done|]. rw index_get_insert. rw decide_True //. split; [done|]. by apply Ha.
Qed.

(** The backend's copy may go while the object is there. *)
Lemma wp_delete_remote ix0 ix h s :
  rotating ix0 ix s → is_valid_object_hash h = true → authentic s h →
  wp (bk_delete bk (key h)) (λ _ s', rotating ix0 ix s' ∧ authentic s' h) s.
Proof.
  intros (Hok & Hr & Hx & Hh & Hk) Hv Hobj. eapply wp_mono; [by apply (bl_delete S pid)|].
  intros r s4 [Hs4 Hc4]. pose proof Hs4 as [? ? [Ho4 ?]]. split; [|by apply (authentic_same s); [apply Ho4|]].
  split_and!; [done..|by eapply holds_stable| |done]. split; [|apply Hh|].
  - eapply index_good_mono; [|apply Hh]. intros h' Hvh. by rw Ho4.
  - intros rel v e o He Ho Hve. destruct (decide (ie_hash e = h)) as [->|Hne]; [left; rw Ho4 //; by apply authentic_some|].
    destruct (held_offloaded _ _ Hh _ _ _ _ He Ho Hve) as [?|[(b & Hb & ?)|?]]; [left; by rw Ho4| |by right; right].
    right. left. exists b. split; [|done]. rw Hc4 //. by intros ?%object_key_inj.
Qed.

Lemma wp_fetch u1 u2 u3 ix rel v s :
  ok s → ready s → holds_index S pid (rdisk s) ix → held ix s →
  wp (fetch S pid bk u1 u2 u3 ix rel v) (λ r s', safe ix s' ∧ ∀ ix', r = Ok ix' →
    holds_index S pid (rdisk s') ix' ∧ ∃ e, index_get ix rel v = Some e ∧
      index_get ix' rel v = Some (with_offloaded None e) ∧ (is_local e = false → authentic s' (ie_hash e))) s.
Proof.
  intros Hok Hr Hx Hh. assert (Hrot : rotating ix ix s) by by split_and!.
  pose proof (rotating_safe _ _ _ Hrot) as Hsafe. unfold fetch.
  destruct (index_get ix rel v) as [e|] eqn:He; [|by wp_step].
  destruct (offloaded e) as [o|] eqn:Ho.
  2:{ wp_step. split; [done|]. intros ? [= <-]. split; [done|]. exists e. split; [done|]. rw He.
      split; [f_equal; unfold with_offloaded; rw -Ho; by destruct e|]. unfold is_local. by rw Ho. }
  destruct (negb _ || negb _) eqn:Hkey; [by wp_step|].
  apply orb_false_iff in Hkey as [Hkey%negb_false_iff%bool_decide_eq_true _].
  destruct (holds_entry _ _ _ _ _ Hx He) as (_ & _ & _ & Hv).
  unfold object_path at 1. rw parent_snoc. wp_step. apply wp_on_disk.
  eapply wp_mono; [apply wp_create_dirs; [apply Hok|by eapply plain_shard_dir]|]. intros r w1 [Hadd _].
  destruct (inv_dirs S pid (rdisk s) _ _ _ Hok Hadd) as [Hi1 Hs1]; [apply take_shard_harmless|].
  destruct (disk_step s w1) as (Hok1 & Hr1 & Hc1); [done..|]. set (s1 := mk_RWorld w1 (rw_remote s)) in *.
  apply (rotating_stable ix ix s s1) in Hrot; [|done|done].
  destruct r as [[]|er]; [|split; [by eapply rotating_safe|done]].
  wp_step. wp_step. apply wp_on_disk.
  eapply wp_mono; [apply wp_validate_fetched; by eapply plain_object|]. intros valid w2 [Hw2 Hval].
  destruct (stable_disk s1 w2) as [Hs2 Hc2]; [done..|]. set (s2 := mk_RWorld w2 (rw_remote s1)) in *.
  apply (rotating_stable ix ix s1 s2) in Hrot; [|done|done].
  wp_step. eapply wp_mono with (P := λ r s3, rotating ix ix s3 ∧ (r = Ok () → authentic s3 (ie_hash e))).
  { assert (Hdl := wp_download u1 e ix ix s2 Hrot Hv). rw Hkey.
    destruct valid as [[]|]; [|done..]. wp_step. split; [done|]. intros _.
    destruct (Hval eq_refl) as [(b & Hb & Hbh & _) _]. exists b. split; [|done]. cbn. rw Hw2.
    unfold object_path in Hb |- *. by rw node_at_snoc in Hb. }
  intros [[]|er] s3 [Hrot3 Hobj]; [|split; [by eapply rotating_safe|done]]. specialize (Hobj eq_refl).
  wp_step. eapply wp_mono with (P := λ _ s4, rotating ix ix s4 ∧ authentic s4 (ie_hash e)).
  - destruct (has_other_offloaded ix rel v o); [by wp_step|]. apply wp_as_other_st. rw Hkey. by apply wp_delete_remote.
  - intros [[]|er] s4 [Hrot4 Hobj4]; [|split; [by eapply rotating_safe|done]].
    eapply wp_mono; [by apply wp_restore_entry|]. intros r s5 [Hs5 Hr5]. split; [done|]. intros ix' Hix'.
    destruct (Hr5 ix' Hix') as (? & ? & ?). split; [done|]. by exists e.
Qed.
End rotate.
