(* ===== verification/LocalBackend.v ===== *)
(** * The local directory as a backend

    [LocalDirBackend] on a directory apart from the store, with no symbolic link in it,
    keeps the laws that rotation relies on. *)

From Stdlib Require Import Strings.Ascii.
From S2P Require Import Prelude Crypto Types Transfer Fs FsPlain Manifest Retention HistoryIndex.
From S2P Require Import Tags Rotation HistoryStore StoreInv StoreOps StoreGc StoreRotate.

(** ** Keys *)
Lemma app_ne_nil {A} (p x : list A) : x ≠ [] → p ++ x ≠ [].
Proof. by destruct p. Qed.

Lemma split_on_inj sep s t : split_on sep s = split_on sep t → s = t.
Proof.
  revert t. induction s as [|a s IH]; intros [|b t] E; cbn [split_on] in E; try done.
  - pose proof (split_on_nonempty sep t). case_bool_decide; by destruct (split_on sep t).
  - pose proof (split_on_nonempty sep s). case_bool_decide; by destruct (split_on sep s).
  - pose proof (split_on_nonempty sep s) as Hs. pose proof (split_on_nonempty sep t) as Ht.
    destruct (bool_decide (a = sep)) eqn:Ha, (bool_decide (b = sep)) eqn:Hb; bool_to_prop; subst.
    + injection E as E. f_equal. by apply IH.
    + by destruct (split_on sep t).
    + by destruct (split_on sep s).
    + destruct (split_on sep s) as [|x xs] eqn:Es; [done|]. destruct (split_on sep t) as [|y ys] eqn:Et; [done|].
      injection E as -> -> ->. f_equal. apply IH. done.
Qed.

Lemma object_key_split k :
  is_valid_object_key k = true →
  ∃ p o, split_on "/"%char k = [p; o] ∧ is_valid_object_hash p = true ∧ is_valid_object_hash o = true.
Proof.
  unfold is_valid_object_key. destruct (split_on "/"%char k) as [|p [|o [|? ?]]]; try done.
  intros [? ?]%andb_true_iff. by exists p, o.
Qed.

Section local.
Context `{Blake3, Crc32, Hex, !Blake3Laws, !HexLaws, !Codec HistoryIndex, !CodecLaws HistoryIndex} {Dmg : Damaged}.
Context {Remote : Type} (S : path) (pid : string) (root : path) (u : string).
Context (Hn : normal root) (Hapart1 : ¬ root `prefix_of` S) (Hapart2 : ¬ S `prefix_of` root).

Abbreviation good d := (store_inv S pid d d).

Lemma apart x : ¬ related S (root ++ x).
Proof.
  intros [[n E]|[y E]].
  - apply Hapart1. exists (x ++ drop n S). by rw app_assoc E take_drop.
  - destruct (prefix_weak_total root S (root ++ x)) as [?|?]; [by exists x|by exists y|done..].
Qed.

Definition no_links (d : Fs) : Prop := ∀ q t, related root q → d !! q ≠ Some (Symlink t).
Definition key_path (k : string) : path := root ++ split_on "/"%char k.
Definition held_under (d : Fs) (k : string) : option bytes :=
  if is_valid_object_key k then match d !! key_path k with Some (File b) => Some b | _ => None end else None.

(** A step of the backend that may change what it holds under [key] only. *)
Record step_at (key : string) (d d' : Fs) : Prop := {
  sa_good : good d';
  sa_links : no_links d';
  sa_same : same_store S d d';
  sa_others : ∀ k, k ≠ key → held_under d' k = held_under d k;
}.

Lemma step_refl key d : good d → no_links d → step_at key d d.
Proof. by split. Qed.

Lemma step_trans key d1 d2 d3 : step_at key d1 d2 → step_at key d2 d3 → step_at key d1 d3.
Proof.
  intros [_ _ ? Ho1] [? ? ? Ho2]. split; [done..|by etrans|]. intros k Hk. by rw Ho2 // Ho1.
Qed.

Lemma plain_root d x : no_links d → normal x → plain d (root ++ x).
Proof.
  intros Hl Hx. split; [unfold normal in *; set_solver|]. intros n t. apply Hl, related_take_app.
Qed.

(** Paths of the store are as they were. *)
Lemma good_apart d d' :
  good d → tree_wf d' → (∀ t, d' !! [] ≠ Some (Symlink t)) →
  (∀ q, related S q → q ≠ [] → d' !! q = d !! q) → good d' ∧ same_store S d d'.
Proof.
  intros Hi Hwf Hroot Heq.
  assert (Ho : ∀ h, d' !! object_path S h = d !! object_path S h).
  { intros; apply Heq; [solve_related|by apply app_ne_nil]. }
  assert (Hx : d' !! index_path S = d !! index_path S).
  { apply Heq; [solve_related|by apply app_ne_nil]. }
  split; [|by split]. split; [done|done|apply Hi| | |].
  - intros q t Hq. destruct (decide (q = [])) as [->|]; [done|]. rw Heq //. by apply (si_nolinks _ _ _ _ Hi).
  - intros h n Hv. rw Ho. by apply (si_objects _ _ _ _ Hi).
  - intros b ix. rw Hx. intros Hb Hd Hbl Hv. eapply index_good_mono; [|by eapply (si_index _ _ _ _ Hi)].
    intros h _. by rw Ho.
Qed.

Lemma step_edit key d x y o :
  good d → no_links d → d !! ((root ++ x) ++ [y]) ≠ Some Dir → (is_Some o → node_at d (root ++ x) = Some Dir) →
  is_content o → (∀ k, is_valid_object_key k = true → k ≠ key → x ++ [y] ≠ split_on "/"%char k) →
  step_at key d (edit d ((root ++ x) ++ [y]) o).
Proof.
  intros Hi Hl Hold Hpar Hc Hk.
  destruct (good_apart d (edit d ((root ++ x) ++ [y]) o)) as [? ?]; [done| | | |].
  - apply tree_wf_edit; [apply Hi|done..].
  - intros t. rw lookup_partial_alter_ne; [by apply app_ne_nil|]. apply (Hl [] t). left. by exists 0.
  - intros q Hq _. rw lookup_partial_alter_ne //. intros <-. rw -app_assoc in Hq. by eapply apart.
  - split; [done| |done|].
    + intros q t Hq E. rw lookup_partial_alter in E. case_decide; [by destruct (Hc _ E)|by eapply Hl].
    + intros k Hne. unfold held_under, key_path. destruct (is_valid_object_key k) eqn:Hv; [|done].
      rw lookup_partial_alter_ne //. rw -app_assoc. intros E%(inj (app root)). by eapply Hk.
Qed.

(** Directories are only added below the root. *)
Lemma step_dirs key d d' n x :
  good d → no_links d → node_at d root = Some n → dirs_added (root ++ [x]) d d' → step_at key d d'.
Proof.
  intros Hi Hl Hroot Hadd.
  assert (Hold : ∀ m, m ≤ length root → take m root ≠ [] → is_Some (d !! take m root)).
  { intros m Hm Hne. assert (Hd : is_Some (node_at d (take m root))).
    - destruct (decide (m = length root)) as [->|Hlt]; [rw take_ge //; by eexists|].
      destruct root as [|c r _] using rev_ind; [by rw take_nil in Hne|]. rw node_at_snoc in Hroot.
      apply tree_wf_real_dir in Hroot; [|apply Hi]. rw length_app /= in Hm, Hlt. rw take_app_le; [lia|].
      exists Dir. apply Hroot.
    - destruct (take m root); [done|]. exact Hd. }
  assert (Heq : ∀ q, q ≠ root ++ [x] → q ≠ [] → d' !! q = d !! q).
  { intros q Hq Hne. destruct (proj2 Hadd q) as [?|(Hnone & _ & m & ->)]; [done|].
    destruct (decide (m ≤ length root)) as [Hm|Hm].
    - rw take_app_le // in Hnone, Hne |- *. by destruct (Hold m) as [? ?]; [..|congruence].
    - rw take_ge in Hq; [rw length_app /=; lia|done]. }
  destruct (good_apart d d') as [? ?]; [done|apply Hadd| | |].
  - intros t E. eapply (dirs_added_links _ _ _ _ _ Hadd) in E. apply (Hl [] t); [left; by exists 0|done].
  - intros q Hq Hne. apply Heq; [|done]. intros ->. by eapply apart.
  - split; [done| |done|].
    + intros q t Hq E. eapply (dirs_added_links _ _ _ _ _ Hadd) in E. by eapply Hl.
    + intros k _. unfold held_under, key_path. destruct (is_valid_object_key k) eqn:Hv; [|done].
      destruct (object_key_split k Hv) as (p & o & -> & _). rw Heq //.
      * intros E%(inj (app root)). done.
      * by apply app_ne_nil.
Qed.

Lemma key_segments_normal k p o : is_valid_object_hash p = true → is_valid_object_hash o = true →
  split_on "/"%char k = [p; o] → normal (split_on "/"%char k).
Proof.
  intros Hp Ho ->. apply normal_cons; [by apply no_dot_ne, valid_no_dot|].
  apply normal_cons; [by apply no_dot_ne, valid_no_dot|apply normal_nil].
Qed.

Abbreviation tmp_name := (".tmp-" +:+ u).

Lemma tmp_no_key x k : is_valid_object_key k = true → [x; tmp_name] ≠ split_on "/"%char k.
Proof.
  intros (p & o & -> & _ & Ho)%object_key_split [= _ E]. apply valid_no_dot in Ho. by rw -E in Ho.
Qed.

(** The temporary file of an upload replaces the object. *)
Lemma wp_local_replace key p o b w :
  split_on "/"%char key = [p; o] → is_valid_object_hash p = true → is_valid_object_hash o = true →
  good (disk w) → no_links (disk w) → disk w !! ((root ++ [p]) ++ [tmp_name]) = Some (File b) →
  wp (replace_file_atomically ((root ++ [p]) ++ [tmp_name]) ((root ++ [p]) ++ [o]))
    (λ _ w', step_at key (disk w) (disk w')) w.
Proof.
  intros Hk Hp Ho Hi Hl Hb. pose proof (no_dot_ne _ (valid_no_dot _ Hp)) as Hp'.
  pose proof (no_dot_ne _ (valid_no_dot _ Ho)) as Ho'.
  assert (Hpl : ∀ y, y ≠ ".." → plain (disk w) ((root ++ [p]) ++ [y])).
  { intros y Hy. rw -app_assoc. apply plain_root; [done|]. apply normal_cons; [done|]. by apply normal_cons, normal_nil. }
  apply wp_rename_plain; [by apply Hpl|by apply Hpl|intros _ w' ->; by apply step_refl|].
  intros b' w' Hb' Hold Hdir ->. rw Hb in Hb'. injection Hb' as <-.
  assert (Hs1 : step_at key (disk w) (edit (disk w) ((root ++ [p]) ++ [tmp_name]) None)).
  { apply step_edit; [done..|by rw Hb|by intros []|apply is_content_none|]. intros k Hk' _. by apply tmp_no_key. }
  eapply step_trans; [done|]. apply step_edit; [apply Hs1..| | |apply is_content_file|].
  - rw lookup_partial_alter. by case_decide.
  - intros _. rw node_at_edit_ne //. apply snoc_ne_self.
  - intros k _ Hne E. apply Hne, (split_on_inj "/"%char). by rw Hk -E.
Qed.

Lemma wp_local_put key src w :
  good (disk w) → no_links (disk w) →
  wp (local_put root u key src) (λ _ w', step_at key (disk w) (disk w')) w.
Proof.
  intros Hi Hl. assert (Hrefl : step_at key (disk w) (disk w)) by by apply step_refl.
  unfold local_put, ensure_mounted. wp_step. wp_step. apply wp_query. intros r w1 Hw1 Hr.
  destruct r as [n|]; [|by rw Hw1]. destruct Hr as [Hr|?]; [|done]. symmetry in Hr.
  apply metadata_plain in Hr; [|rw -(app_nil_r root); apply plain_root; [done|apply normal_nil]].
  wp_step. wp_step. wp_step. unfold dest_path. destruct (is_valid_object_key key) eqn:Hv; cbn [negb]; [|by rw Hw1].
  destruct (object_key_split key Hv) as (p & o & Hk & Hp & Ho). rw Hk.
  replace (root ++ [p; o]) with ((root ++ [p]) ++ [o]) by by rw -app_assoc.
  rw parent_snoc. pose proof (no_dot_ne _ (valid_no_dot _ Hp)) as Hp'.
  wp_step. eapply wp_mono; [apply wp_create_dirs; rw Hw1; [apply Hi|]|].
  { apply plain_root; [done|]. by apply normal_cons, normal_nil. }
  rw Hw1. intros r w2 [Hadd Hdir]. assert (Hs2 : step_at key (disk w) (disk w2)) by by eapply step_dirs.
  destruct r as [[]|]; [|done]. specialize (Hdir eq_refl).
  wp_step. apply wp_query. intros r w3 Hw3 _. rw -Hw3 in Hs2, Hdir. destruct r as [b|]; [|done].
  assert (Hpl : plain (disk w3) ((root ++ [p]) ++ [tmp_name])).
  { rw -app_assoc. apply plain_root; [apply Hs2|]. apply normal_cons; [done|]. by apply normal_cons, normal_nil. }
  wp_step. apply wp_write_plain; [done|by intros ?? ->|]. intros b' r w4 Hw4 Hold Hpar Hb'.
  assert (Hs4 : step_at key (disk w) (disk w4)).
  { eapply step_trans; [done|]. rw Hw4. apply step_edit; [apply Hs2..|done|done|apply is_content_file|].
    intros k Hk' _. by apply tmp_no_key. }
  destruct r as [[]|]; [|done]. wp_step. apply wp_query. intros r w5 Hw5 _. rw -Hw5 in Hs4, Hw4. destruct r as [[]|]; [|done].
  wp_step. wp_step. eapply wp_mono; [apply (wp_local_replace key p o b'); [done..|apply Hs4|apply Hs4|]|].
  { by rw Hw4 lookup_partial_alter_eq. }
  intros r w6 Hs6. assert (Hs06 : step_at key (disk w) (disk w6)) by by eapply step_trans.
  destruct r as [[]|e]; [by wp_step|]. wp_step. wp_step. apply wp_remove_plain.
  - rw -app_assoc. apply plain_root; [apply Hs6|]. apply normal_cons; [done|]. by apply normal_cons, normal_nil.
  - intros _ w7 Hw7. wp_step. by rw Hw7.
  - intros w7 Hw7 Hold7. wp_step. rw Hw7. eapply step_trans; [done|].
    apply step_edit; [apply Hs6..|done|by intros []|apply is_content_none|]. intros k Hk' _. by apply tmp_no_key.
Qed.

Lemma plain_key d k : no_links d → is_valid_object_key k = true → plain d (key_path k).
Proof.
  intros Hl Hv. destruct (object_key_split k Hv) as (p & o & Hk & Hp & Ho).
  apply plain_root; [done|]. by eapply (key_segments_normal k p o).
Qed.

Lemma key_path_snoc k : is_valid_object_key k = true → ∃ p o, key_path k = (root ++ [p]) ++ [o] ∧ split_on "/"%char k = [p] ++ [o].
Proof.
  intros (p & o & Hk & _)%object_key_split. exists p, o. unfold key_path. by rw Hk -app_assoc.
Qed.

Lemma wp_local_delete key w :
  good (disk w) → no_links (disk w) →
  wp (local_delete root key) (λ _ w', step_at key (disk w) (disk w')) w.
Proof.
  intros Hi Hl. assert (Hrefl : step_at key (disk w) (disk w)) by by apply step_refl.
  unfold local_delete, ensure_mounted. wp_step. wp_step. apply wp_query. intros r w1 Hw1 _.
  destruct r as [n|]; [|by rw Hw1]. wp_step. wp_step. wp_step. unfold dest_path.
  destruct (is_valid_object_key key) eqn:Hv; cbn [negb]; [|by rw Hw1]. fold (key_path key).
  pose proof (plain_key (disk w1) key ltac:(by rw Hw1) Hv) as Hp.
  destruct (key_path_snoc key Hv) as (p & o & E & Hk). rw E in Hp |- *. wp_step. wp_step.
  apply wp_remove_plain; [done| |].
  - intros e w2 Hw2. destruct e; wp_step; by rw Hw2 Hw1.
  - intros w2 Hw2 Hold. wp_step. rw Hw2 Hw1. rw Hw1 in Hold.
    apply step_edit; [done|done|done|by intros []|apply is_content_none|].
    intros k _ Hne E'. apply Hne, (split_on_inj "/"%char). by rw Hk.
Qed.

Lemma local_outside d d' :
  store_inv S pid d d' → no_links d → no_links d' ∧ ∀ k, held_under d' k = held_under d k.
Proof.
  intros Hi Hl.
  assert (Hbelow : ∀ x, d' !! (root ++ x) = d !! (root ++ x)) by (intros; apply (si_frame _ _ _ _ Hi), apart).
  split; [|by intros k; unfold held_under, key_path; rw Hbelow].
  intros q t [[n ->]|[x ->]] E.
  - destruct (decide (take n root `prefix_of` S)) as [Hp|Hp].
    + revert E. apply (si_nolinks _ _ _ _ Hi). left. exists (length (take n root)).
      destruct Hp as [y ->]. by rw take_app_length.
    + rw (si_frame _ _ _ _ Hi) in E; [|by eapply Hl; [left; by exists n|]].
      intros [[m Hm]|[y Hy]].
      * destruct Hp. rw Hm. apply prefix_take.
      * destruct Hapart2. exists (y ++ drop n root). by rw app_assoc -Hy take_drop.
  - rw Hbelow in E. by eapply Hl, E; apply related_app.
Qed.

Lemma wp_local_get key p c w :
  good (disk w) → no_links (disk w) → plain (disk w) (p ++ [c]) → harmless S (p ++ [c]) →
  wp (local_get root key (p ++ [c])) (λ r w', store_inv S pid (disk w) (disk w') ∧ same_store S (disk w) (disk w') ∧
    (r = Ok () → ∃ b, held_under (disk w) key = Some b ∧ disk w' !! (p ++ [c]) = Some (File b))) w.
Proof.
  intros Hi Hl Hp Hh. unfold local_get, ensure_mounted. wp_step. wp_step. apply wp_query. intros r w1 Hw1 _.
  destruct r as [n|]; [|by rw Hw1]. wp_step. wp_step. wp_step. unfold dest_path.
  destruct (is_valid_object_key key) eqn:Hv; cbn [negb]; [|by rw Hw1]. fold (key_path key).
  apply wp_copy_plain; [by rw Hw1|by intros ? ? ->; rw Hw1|]. rw Hw1.
  intros b b' r w2 Hb Hw2 Hold Hdir Hr. rw Hw2.
  destruct (quiet_edit S pid (disk w) (disk w) p c (Some (File b'))) as [? ?]; [done..|apply is_content_file|done|].
  split_and!; [done..|]. intros Hok. specialize (Hr Hok). subst b'. exists b. split; [|by rw lookup_partial_alter_eq].
  apply read_plain in Hb; [|by apply plain_key]. unfold held_under. rw Hv.
  destruct (key_path_snoc key Hv) as (p' & o & E & _). rw E node_at_snoc in Hb. by rw E Hb.
Qed.

(** The backend keeps the laws. *)
Lemma local_backend_laws :
  @BackendLaws _ _ _ _ Remote S pid (LocalDirBackend root u) (λ s, no_links (rdisk s)) (λ s, held_under (rdisk s)).
Proof.
  assert (Hquery : ∀ (A : Type) (m : IO A), reads m → ∀ s, store_ok S pid s → no_links (rdisk s) →
    wp (on_disk (Remote := Remote) m) (λ _ s', stable S pid (λ s, no_links (rdisk s)) s s' ∧
      ∀ k, held_under (rdisk s') k = held_under (rdisk s) k) s).
  { intros A m Hm s Hok Hl. apply wp_on_disk. eapply wp_mono; [apply Hm|]. intros r w' Hw. cbn [rw_world].
    rw Hw. split; [|done]. split; unfold store_ok; cbn [rw_world]; by rw Hw. }
  assert (Hstep : ∀ (A : Type) (m : IO A) key, (∀ w, good (disk w) → no_links (disk w) →
      wp m (λ _ w', step_at key (disk w) (disk w')) w) → ∀ s, store_ok S pid s → no_links (rdisk s) →
    wp (on_disk (Remote := Remote) m) (λ _ s', stable S pid (λ s, no_links (rdisk s)) s s' ∧
      ∀ k, k ≠ key → held_under (rdisk s') k = held_under (rdisk s) k) s).
  { intros A m key Hm s Hok Hl. apply wp_on_disk. eapply wp_mono; [by apply Hm|].
    intros r w' [? ? ? ?]. split; [|done]. by split. }
  split; cbn [LocalDirBackend bk_put bk_get bk_exists bk_size bk_delete].
  - intros s w' Hi Hl. by apply local_outside.
  - intros key src. apply Hstep. intros w. apply wp_local_put.
  - intros key p c s Hok Hl Hp Hh. apply wp_on_disk. eapply wp_mono; [by apply wp_local_get|].
    intros r w' (Hi & Hs & Hr). destruct (local_outside _ _ Hi Hl) as [? ?]. split_and!; [|done|done].
    split; [by eapply inv_rebase|done..].
  - intros key. apply Hquery. unfold local_exists, ensure_mounted. solve_reads.
  - intros key. apply Hquery. unfold local_size, ensure_mounted. solve_reads.
  - intros key. apply Hstep. intros w. apply wp_local_delete.
Qed.
End local.
