(* ===== verification/StoreProps.v ===== *)
(** * The history store loses no version

    The operations of [HistoryStore] as one alphabet, and what holds after any sequence of
    them with any faults of the file system. *)

From Stdlib Require Import Strings.Ascii.
From S2P Require Import Prelude Crypto Types Transfer Fs FsPlain Manifest Retention HistoryIndex.
From S2P Require Import Tags Rotation HistoryStore StoreInv StoreOps StoreGc StoreRotate LocalBackend.

(** ** Indexes that can be read *)
Lemma remove_victims_belongs pid victims ix :
  index_belongs (remove_victims victims ix).1 pid = index_belongs ix pid.
Proof.
  unfold remove_victims. generalize ([] : list (vkey * string)). revert ix.
  induction victims as [|[r n] victims IH]; intros ix acc; [done|]. cbn [foldl].
  destruct (remove_victim (ix, acc) (r, n)) as [ix' acc'] eqn:E. rw IH.
  unfold remove_victim, index_remove in E. cbn in E. destruct (entries ix !! r); by injection E as <- <-.
Qed.

Lemma remove_victims_valid victims ix :
  index_entries_valid ix = true → index_entries_valid (remove_victims victims ix).1 = true.
Proof.
  rw !index_entries_valid_get. intros Hv rel v e. rw remove_victims_get. case_decide; [done|]. apply Hv.
Qed.

Lemma index_belongs_insert pid rel v e ix : index_belongs (index_insert rel v e ix) pid = index_belongs ix pid.
Proof. done. Qed.

Section readable.
Context `{!Codec HistoryIndex}.
Context (S : path) (pid : string).

Lemma holds_readable d ix :
  holds_index S pid d ix → index_belongs ix pid = true ∧ index_entries_valid ix = true.
Proof.
  intros [(_ & ? & ?)|[_ ->]]; [done|]. split; [|done]. unfold index_belongs. cbn. by rw bool_decide_eq_true_2.
Qed.

Lemma holds_is d ix :
  index_is S d ix → index_belongs ix pid = true → index_entries_valid ix = true → holds_index S pid d ix.
Proof. intros. by left. Qed.
End readable.

(** ** Operations *)
Inductive StoreOp :=
| OpArchive (us : nat → string) (now : N) (rel : string) (v size crc : N) (publisher source : string) (src : path)
| OpGc (us : nat → string) (vus : vkey → string) (now : N) (keep : list vkey) (do_purge : bool)
| OpTagAdd (u : string) (now : N) (name : string) (p : gmap string N)
| OpTagRemove (name : string)
| OpRotate (us : nat → string) (vus : vkey → string * string * string) (now : N) (keep : list vkey) (dry_run : bool)
| OpFetch (us : nat → string) (rel : string) (v : N)
| OpLookup (us : nat → string) (rel : string) (v : N).

(** The callers check the path and the version of what they archive, and every collection is
    told to keep the versions of [K], which names some versions with their hashes. *)
Definition op_ok (K : string → N → string → Prop) (op : StoreOp) : Prop :=
  match op with
  | OpArchive _ _ rel v _ _ _ _ _ => invalid_path rel = false ∧ (0 < v < u64_max)%N
  | OpGc _ _ _ keep do_purge => ∀ rel v h, K rel v h → (rel, v) ∈ keep ∧ do_purge = false
  | _ => True
  end.

(** The index lists the versions of [K]. *)
Definition lists (K : string → N → string → Prop) (ix : HistoryIndex) : Prop :=
  ∀ rel v h, K rel v h → ∃ e, index_get ix rel v = Some e ∧ ie_hash e = h.

Lemma lists_keeps K ix ix' : keeps ix ix' → lists K ix → lists K ix'.
Proof.
  intros Hk Hl rel v h HK. destruct (Hl _ _ _ HK) as (e & He & <-). specialize (Hk rel v). rw He in Hk.
  destruct (index_get ix' rel v) as [e'|]; [|done]. injection Hk as Hk. exists e'. by destruct e, e'.
Qed.

Lemma lists_insert K ix rel v e :
  (∀ e', index_get ix rel v = Some e' → ie_hash e' = ie_hash e) → lists K ix → lists K (index_insert rel v e ix).
Proof.
  intros Hh Hl rel' v' h HK. destruct (Hl _ _ _ HK) as (e' & He & <-). rw index_get_insert.
  case_decide as Heq; [|by exists e']. destruct Heq as [-> ->]. exists e. split; [done|]. symmetry. by apply Hh.
Qed.

Lemma lists_remove K ix c protected now :
  (∀ rel v h, K rel v h → (rel, v) ∈ protected) → lists K ix →
  lists K (remove_victims (apply_retention ix c protected now) ix).1.
Proof.
  intros Hp Hl rel v h HK. destruct (Hl _ _ _ HK) as (e & He & <-). exists e. split; [|done].
  rw remove_victims_get. case_decide as Hv; [|done]. apply retention_removable in Hv as [Hnot _].
  destruct Hnot. by eapply Hp.
Qed.

Section operations.
Context `{Blake3, Crc32, Hex, !Codec HistoryIndex, !Codec ObjectMeta, !Codec Tag, DirOrder}.
Context {Remote : Type}.
Context (s3 : string → string → string → RotationBackend Remote).
Context (gdrive : string → string → RotationBackend Remote) (cwd : path).
Context (c : HistoryConfig) (root : path) (pid : string).

(** One operation; its result is dropped. *)
Definition run_op (op : StoreOp) : ST (RWorld Remote) IoError () :=
  match op with
  | OpArchive us now rel v size crc publisher source src =>
      ignore (on_disk (archive us now c root pid rel v size crc publisher source src))
  | OpGc us vus now keep do_purge => ignore (on_disk (gc us vus now c root pid keep do_purge))
  | OpTagAdd u now name p => ignore (on_disk (tag_add u now c root pid name p))
  | OpTagRemove name => ignore (on_disk (store_tag_remove c root pid name))
  | OpRotate us vus now keep dry_run =>
      ignore (rotate_store s3 gdrive cwd us vus now c root pid keep dry_run)
  | OpFetch us rel v => ignore (fetch_offloaded s3 gdrive cwd us c root pid rel v)
  | OpLookup us rel v => ignore (lookup s3 gdrive cwd us c root pid rel v)
  end.

Definition run_ops (ops : list StoreOp) : ST (RWorld Remote) IoError () := for_each run_op ops.
End operations.

(** ** Every operation keeps every version *)
Section props.
Context `{Blake3, Crc32, Hex, !Blake3Laws, !HexLaws, !Codec HistoryIndex, !CodecLaws HistoryIndex,
  !Codec ObjectMeta, !Codec Tag, DirOrder, !DirOrderLaws} {Dmg : Damaged}.
Context {Remote : Type}.
Context (s3 : string → string → string → RotationBackend Remote).
Context (gdrive : string → string → RotationBackend Remote) (cwd : path).
Context (c : HistoryConfig) (root : path) (pid : string).
Context (ready : RWorld Remote → Prop) (content : RWorld Remote → string → option bytes).

Abbreviation S := (store_path pid c root).
Abbreviation place := (backend (rotation c)).

Context (Hlaws : ∀ u bk, build_backend s3 gdrive cwd u place = Ok bk → BackendLaws S pid bk ready content).
(** Steps of the store leave what is at the place alone. *)
Context (Hframe : ∀ s w', store_inv S pid (rdisk s) (disk w') → ready s →
  ready (mk_RWorld w' (rw_remote s)) ∧ ∀ k, content (mk_RWorld w' (rw_remote s)) k = content s k).
Context (K : string → N → string → Prop).
Implicit Types (s : RWorld Remote).

(** The state between operations: a readable index, all of whose versions are available and
    which lists the versions of [K]. *)
Definition intact s : Prop :=
  store_ok S pid s ∧ ready s ∧
  ∃ ix, holds_index S pid (rdisk s) ix ∧ held S pid content place ix s ∧ lists K ix.

Lemma safe_intact ix s : lists K ix → safe S pid ready content place ix s → intact s.
Proof. intros ? (? & ? & ix' & ? & ? & ?). split_and!; [done..|]. exists ix'. split_and!; [done..|]. by eapply lists_keeps. Qed.

Lemma intact_disk s w' ix' :
  ready s → store_inv S pid (rdisk s) (disk w') → holds_index S pid (disk w') ix' → lists K ix' →
  (∀ rel v e o, index_get ix' rel v = Some e → offloaded e = Some o → at_place place o ∧
     (is_valid_object_hash (ie_hash e) = true → stored S pid content s (ie_hash e) ∧
      (is_Some (rdisk s !! object_path S (ie_hash e)) → is_Some (disk w' !! object_path S (ie_hash e))))) →
  intact (mk_RWorld w' (rw_remote s)).
Proof.
  intros Hr Hi Hx HK Hoff. destruct (Hframe s w' Hi Hr) as [Hr' Hc].
  split_and!; [by eapply inv_rebase|done|]. exists ix'. split; [done|]. split; [|done]. split.
  - cbn. by eapply holds_index_good.
  - intros rel v e o He Ho. by eapply Hoff.
  - intros rel v e o He Ho Hv. destruct (Hoff rel v e o He Ho) as [_ Hst]. destruct (Hst Hv) as [[?|[(b & ? & ?)|?]] Hk].
    + left. cbn. by apply Hk.
    + right. left. exists b. by rw Hc.
    + by right; right.
Qed.

(** An index of versions that were there before. *)
Lemma intact_sub s w' ix ix' :
  ready s → held S pid content place ix s → store_inv S pid (rdisk s) (disk w') → holds_index S pid (disk w') ix' →
  lists K ix' →
  (∀ rel v e, index_get ix' rel v = Some e → offloaded e ≠ None → index_get ix rel v = Some e ∧
     (is_valid_object_hash (ie_hash e) = true →
      is_Some (rdisk s !! object_path S (ie_hash e)) → is_Some (disk w' !! object_path S (ie_hash e)))) →
  intact (mk_RWorld w' (rw_remote s)).
Proof.
  intros Hr Hh Hi Hx HK Hsub. eapply intact_disk; [done..|]. intros rel v e o He Ho.
  destruct (Hsub rel v e He) as [He' Hk]; [by rw Ho|]. split; [by eapply (held_place _ _ _ _ _ _ Hh)|].
  intros Hv. split; [by eapply (held_offloaded _ _ _ _ _ _ Hh)|by apply Hk].
Qed.

Lemma intact_same s w' :
  intact s → store_inv S pid (rdisk s) (disk w') → same_store S (rdisk s) (disk w') →
  intact (mk_RWorld w' (rw_remote s)).
Proof.
  intros (Hok & Hr & ix & Hx & Hh & HK) Hi [Ho Hix]. eapply (intact_sub s w' ix ix); [done..| |done|].
  - by eapply holds_same.
  - intros rel v e He _. split; [done|]. intros Hv. by rw Ho.
Qed.

Lemma intact_reads {A} (m : IO A) (Q : result IoError A → RWorld Remote → Prop) s :
  reads m → intact s → (∀ r s', intact s' → Q r s') → wp (on_disk m) Q s.
Proof.
  intros Hm Hs HQ. apply wp_on_disk. eapply wp_mono; [apply Hm|]. intros r w' Hw. apply HQ, intact_same; [done|..].
  - rw Hw. apply Hs.
  - by rw Hw.
Qed.

(** An object of [damaged] may hold anything. *)
Lemma intact_damaged h b f s :
  intact s → damaged h → is_valid_object_hash h = true → is_Some (rdisk s !! object_path S h) →
  intact (mk_RWorld (mk_World (edit (rdisk s) (object_path S h) (Some (File b))) f) (rw_remote s)).
Proof.
  intros (Hok & Hr & ix & Hx & Hh & HK) Hd Hv [n Hn].
  assert (Hkeep : ∀ h', is_Some (rdisk s !! object_path S h') →
    is_Some (edit (rdisk s) (object_path S h) (Some (File b)) !! object_path S h')).
  { intros h' Hs. rw lookup_partial_alter. by case_decide. }
  eapply (intact_sub s _ ix ix); [done..| | |done|].
  - cbn. apply inv_object; [done..|by right|]. by apply (si_wf _ _ _ _ Hok) in Hn.
  - cbn. eapply holds_same; [|done]. rw lookup_partial_alter_ne //. apply object_ne_index.
  - intros rel v e He _. split; [done|]. intros _. apply Hkeep.
Qed.

(** *** The steps *)
Lemma wp_with_dir {A} (k : path → ST (RWorld Remote) IoError A) (Q : result IoError A → RWorld Remote → Prop) s :
  intact s → (∀ e s', intact s' → Q (Err e) s') → (∀ s', intact s' → rdisk s' = rdisk s → wp (k S) Q s') →
  wp (d ← on_disk (store_dir c root pid); k d) Q s.
Proof.
  intros Hs Herr Hk. wp_step. apply wp_on_disk.
  eapply wp_mono; [apply (wp_store_dir S pid (rdisk s)); [done|apply Hs]|]. intros r w1 [Hw1 Hp].
  assert (Hs1 : intact (mk_RWorld w1 (rw_remote s))).
  { apply intact_same; [done|rw Hw1; apply Hs|by rw Hw1]. }
  destruct r as [p|e]; [rw (Hp p eq_refl); by apply Hk; [|exact Hw1]|by apply Herr].
Qed.

(** A load of a readable index returns it. *)
Lemma wp_load {A} u (k : HistoryIndex → ST (RWorld Remote) IoError A) (Q : result IoError A → RWorld Remote → Prop) s :
  intact s → (∀ e s', intact s' → Q (Err e) s') →
  (∀ ix s', intact s' → rdisk s' = rdisk s → holds_index S pid (rdisk s') ix → held S pid content place ix s' → lists K ix →
    wp (k ix) Q s') →
  wp (ix ← on_disk (load_or_rebuild u S pid); k ix) Q s.
Proof.
  intros Hs Herr Hk. pose proof Hs as (Hok & Hr & ix & Hx & Hh & HK). wp_step. apply wp_on_disk.
  eapply wp_mono; [by apply (wp_load_or_rebuild S pid (rdisk s))|]. intros r w1 (_ & _ & _ & Hix).
  destruct (Hix ix Hx) as [Hw1 Heq]. rw -Hw1 in Hx.
  assert (Hs1 : intact (mk_RWorld w1 (rw_remote s))).
  { apply intact_same; [done|by rw Hw1|by rw Hw1]. }
  destruct r as [ix'|e]; [|by apply Herr]. rw (Heq ix' eq_refl). apply Hk; [done|exact Hw1|done| |done].
  destruct (Hframe s w1) as [_ Hc]; [by rw Hw1|done|]. eapply held_mono; [|done|done]. cbn. by rw Hw1.
Qed.

Lemma archive_intact us now rel v size crc publisher source src s :
  invalid_path rel = false → (0 < v < u64_max)%N → intact s →
  wp (on_disk (archive us now c root pid rel v size crc publisher source src)) (λ _ s', intact s') s.
Proof.
  intros Hrel Hver Hs. apply wp_on_disk. pose proof Hs as (Hok & Hr & ix & Hx & Hh & HK).
  unfold archive. destruct (negb _); [wp_step; by apply intact_same|].
  wp_step. eapply wp_mono; [by apply (wp_store_dir S pid (rdisk s))|]. intros [p|e] w1 [Hw1 Hp].
  2:{ by apply intact_same; [done|rw Hw1..]. }
  rw (Hp p eq_refl). eapply wp_mono; [apply (wp_archive_in S pid (rdisk s)); by rw Hw1|]. rw Hw1.
  intros r w2 (Hi2 & Hk2 & Hout). specialize (Hout ix Hx). destruct (holds_readable _ _ _ _ Hx) as [Hbl Hval].
  assert (Hsame : disk w2 !! index_path S = rdisk s !! index_path S → intact (mk_RWorld w2 (rw_remote s))).
  { intros E. eapply (intact_sub s w2 ix ix); [done..|by eapply holds_same|done|]. intros. split; [done|]. by apply Hk2. }
  assert (Hins : ∀ h, is_valid_object_hash h = true → (∀ e, index_get ix rel v = Some e → ie_hash e = h) →
    index_is S (disk w2) (index_insert rel v (archived_entry now size crc publisher source h) ix) →
    intact (mk_RWorld w2 (rw_remote s))).
  { intros h Hv Hh' His. eapply (intact_sub s w2 ix); [done..| | |].
    - eapply holds_is; [done|done|]. by apply index_entries_valid_insert.
    - by apply lists_insert.
    - intros rel' v' e. rw index_get_insert. case_decide; [by intros [= <-]|]. intros He _. split; [done|]. by apply Hk2. }
  destruct r as [[]|e]; cbn in Hout; [| |apply Hsame, Hout|done|by apply Hsame];
    destruct Hout as (h & _ & _ & Hv & ? & His); by eapply Hins.
Qed.

Lemma gc_intact us vus now keep do_purge s :
  (∀ rel v h, K rel v h → (rel, v) ∈ keep ∧ do_purge = false) →
  intact s → wp (on_disk (gc us vus now c root pid keep do_purge)) (λ _ s', intact s') s.
Proof.
  intros Hkeep Hs. apply wp_on_disk. pose proof Hs as (Hok & Hr & ix & Hx & Hh & HK).
  destruct (holds_readable _ _ _ _ Hx) as [Hbl Hval]. destruct do_purge.
  - unfold gc. wp_step. eapply wp_mono; [by apply (wp_store_dir S pid (rdisk s))|]. intros [p|e] w1 [Hw1 Hp].
    2:{ by apply intact_same; [done|rw Hw1..]. }
    rw (Hp p eq_refl). wp_step. eapply wp_mono; [apply (wp_load_or_rebuild S pid (rdisk s)); by rw Hw1|]. rw Hw1.
    intros r w2 (_ & _ & _ & Hix). destruct (Hix ix Hx) as [Hw2 _].
    destruct r as [ix'|e]; [|by apply intact_same; [done|rw Hw2..]].
    eapply wp_mono; [apply (wp_purge S pid (rdisk s)); by rw Hw2|]. rw Hw2.
    intros r w3 [Hi3 [[Hsame _]|His]]; [by apply intact_same|].
    eapply (intact_sub s w3 ix); [done..| | |].
    + eapply holds_is; [done| |done]. unfold index_belongs. cbn. by rw bool_decide_eq_true_2.
    + intros rel v h Hv. by destruct (Hkeep _ _ _ Hv).
    + intros rel v e He. by rw /index_get lookup_empty in He.
  - eapply wp_mono; [by apply (wp_gc S pid (rdisk s))|]. intros r w1 [Hi1 He]. specialize (He ix Hx).
    destruct He as [[Hsame _]|(protected & Hprot & _ & His & Hkept)]; [by apply intact_same|].
    eapply (intact_sub s w1 ix); [done..| | |].
    + eapply holds_is; [done|by rw remove_victims_belongs|by apply remove_victims_valid].
    + apply lists_remove; [|done]. intros rel v h Hv. apply Hprot. by eapply Hkeep.
    + intros rel v e Hget _. pose proof Hget as Hin. apply elem_of_referenced in Hin.
      rw remove_victims_get in Hget. case_decide; [done|]. split; [done|]. intros Hv. by rw (Hkept _ Hin Hv).
Qed.

Lemma tag_intact {A} (f : path → IO A) s :
  (∀ w, store_inv S pid (rdisk s) (disk w) →
     wp (f S) (λ _ w', store_inv S pid (rdisk s) (disk w') ∧ same_store S (disk w) (disk w')) w) →
  intact s → wp (on_disk (with_store c root pid f)) (λ _ s', intact s') s.
Proof.
  intros Hf Hs. apply wp_on_disk. pose proof Hs as (Hok & _). unfold with_store.
  destruct (negb _); [wp_step; by apply intact_same|].
  wp_step. eapply wp_mono; [by apply (wp_store_dir S pid (rdisk s))|]. intros [p|e] w1 [Hw1 Hp].
  2:{ by apply intact_same; [done|rw Hw1..]. }
  rw (Hp p eq_refl). eapply wp_mono; [apply Hf; by rw Hw1|]. rw Hw1. intros r w2 [? ?]. by apply intact_same.
Qed.

Lemma rotate_intact us vus now keep dry s :
  intact s → wp (rotate_store s3 gdrive cwd us vus now c root pid keep dry) (λ _ s', intact s') s.
Proof.
  intros Hs. unfold rotate_store. destruct (negb _); [by wp_step|].
  apply wp_with_dir; [done|done|]. intros s1 Hs1 Hd1. apply wp_load; [done|done|]. intros ix s2 Hs2 Hd2 Hx Hh HK.
  wp_step. apply wp_on_disk. eapply wp_mono; [apply (wp_protected_versions S pid (rdisk s2)); [done|apply Hs2]|].
  intros r w3 (_ & _ & Hsame & _). specialize (Hsame ix Hx).
  assert (Hs3 : intact (mk_RWorld w3 (rw_remote s2))).
  { apply intact_same; [done|rw Hsame; apply Hs2|by rw Hsame]. }
  destruct r as [protected|e]; [|done]. destruct dry; [by wp_step|]. wp_step. wp_step.
  destruct (build_backend s3 gdrive cwd (us 2) place) as [bk|] eqn:Hb; [|done]. specialize (Hlaws _ _ Hb).
  wp_step. eapply wp_mono; [apply (wp_rotate S pid bk ready content place); [apply Hs3..| |]|].
  - cbn. by rw Hsame.
  - destruct (Hframe s2 w3) as [_ Hc]; [rw Hsame; apply Hs2|apply Hs2|]. eapply held_mono; [|done|done]. cbn. by rw Hsame.
  - intros [[ix' rep]|e] s4 Hsafe; [wp_step|]; by eapply safe_intact.
Qed.

Lemma backend_of_entry_place ix s rel v :
  held S pid content place ix s → backend_of_entry ix c rel v = place.
Proof.
  intros Hh. unfold backend_of_entry. destruct (index_get ix rel v) as [e|] eqn:He; cbn.
  2:{ by destruct place. }
  destruct (offloaded e) as [o|] eqn:Ho; cbn; [|by destruct place].
  destruct (held_place _ _ _ _ _ _ Hh rel v e o He Ho) as [->|[-> _]]; cbn; by destruct place.
Qed.

(** The version of the entry is in the index as a local one, with its content in the store. *)
Definition restored_in (rel : string) (v : N) (e : IndexEntry) s : Prop :=
  ∃ ix, holds_index S pid (rdisk s) ix ∧ index_get ix rel v = Some (with_offloaded None e) ∧ authentic S s (ie_hash e).

Lemma holds_unique d ix ix' : holds_index S pid d ix → holds_index S pid d ix' → ix = ix'.
Proof.
  intros [((b & Hb & Hd) & _)|[Hn ->]] [((b' & Hb' & Hd') & _)|[Hn' ->]]; congruence.
Qed.

Lemma wp_fetch_offloaded us rel v s :
  intact s → wp (fetch_offloaded s3 gdrive cwd us c root pid rel v) (λ r s', intact s' ∧
    ∀ ix e, holds_index S pid (rdisk s) ix → index_get ix rel v = Some e → is_local e = false →
      r = Ok () → restored_in rel v e s') s.
Proof.
  intros Hs. unfold fetch_offloaded. destruct (negb _); [by wp_step|].
  apply wp_with_dir; [done|done|]. intros s1 Hs1 Hd1. apply wp_load; [done|done|]. intros ix s2 Hs2 Hd2 Hx Hh HK.
  wp_step. wp_step. rw (backend_of_entry_place ix s2) //.
  destruct (build_backend s3 gdrive cwd (us 1) place) as [bk|] eqn:Hb; [|done]. specialize (Hlaws _ _ Hb).
  wp_step. eapply wp_mono; [apply (wp_fetch S pid bk ready content place); [apply Hs2..|done|done]|].
  intros [ix'|e] s3' [Hsafe Hok]; [wp_step|]; (split; [by eapply safe_intact|]); [|done].
  intros ix0 e0 Hx0 He0 Hl0 _. rw -Hd1 -Hd2 in Hx0. rw (holds_unique _ _ _ Hx0 Hx) in He0.
  destruct (Hok ix' eq_refl) as (? & e & He & ? & Ha). rw He0 in He. injection He as <-.
  exists ix'. split_and!; [done..|]. by apply Ha.
Qed.

(** What a lookup returns is the version of the entry, and its content is what its hash names. *)
Definition found_ok (rel : string) (v : N) (e : IndexEntry) (sv : StoredVersion) s : Prop :=
  sv_rel sv = rel ∧ sv_version sv = v ∧ sv_hash sv = ie_hash e ∧ sv_size sv = ie_size e ∧ sv_crc sv = ie_crc e ∧
  ∃ b, read_at (rdisk s) (sv_path sv) = Ok b ∧ hex_encode (blake3 b) = ie_hash e.

Lemma authentic_found rel v o e s :
  intact s → is_valid_object_hash (ie_hash e) = true → authentic S s (ie_hash e) →
  found_ok rel v e (to_stored rel v (with_offloaded o e) (object_path S (ie_hash e))) s.
Proof.
  intros (Hok & _) Hv (b & Hb & Hh). split_and!; [done..|].
  exists b. split; [|done]. apply read_file; [apply Hok|by eapply plain_object|done].
Qed.

Lemma local_entry e : is_local e = true → with_offloaded None e = e.
Proof. unfold is_local, with_offloaded. destruct e as [? ? ? ? ? ? []]; [done|done]. Qed.

Lemma wp_lookup us rel v s :
  intact s → wp (lookup s3 gdrive cwd us c root pid rel v) (λ r s', intact s' ∧
    ∀ sv, r = Ok (Some sv) → ∃ ix e, holds_index S pid (rdisk s) ix ∧ index_get ix rel v = Some e ∧ found_ok rel v e sv s') s.
Proof.
  intros Hs. unfold lookup. destruct (negb _); [by wp_step|].
  apply wp_with_dir; [done|done|]. intros s1 Hs1 Hd1. apply wp_load; [done|done|]. intros ix s2 Hs2 Hd2 Hx Hh HK.
  destruct (index_get ix rel v) as [e|] eqn:He; [|by wp_step].
  destruct (holds_entry _ _ _ _ _ _ _ Hx He) as (_ & _ & _ & Hv). destruct (is_local e) eqn:Hl.
  - wp_step. wp_step. apply wp_on_disk.
    eapply wp_mono; [apply wp_validate_object; eapply plain_object; [apply Hs2|done]|]. intros r w3 [Hw3 Hval].
    assert (Hs3 : intact (mk_RWorld w3 (rw_remote s2))).
    { apply intact_same; [done|rw Hw3; apply Hs2|by rw Hw3]. }
    destruct r as [[]|]; wp_step; (split; [done|]); [|done..].
    intros sv [= <-]. exists ix, e. split_and!; [by rw -Hd1 -Hd2|done|].
    rw -{2}(local_entry e Hl). apply authentic_found; [done|done|].
    destruct (Hval eq_refl) as (b & Hb & Hbh & _). exists b. split; [|done]. cbn. rw Hw3.
    unfold object_path in Hb |- *. by rw node_at_snoc in Hb.
  - destruct (negb _); [by wp_step|]. wp_step. wp_step. eapply wp_mono; [by apply wp_fetch_offloaded|].
    intros [[]|er] s3' [Hs3 Hloc]; [|by wp_step]. destruct (Hloc _ _ Hx He Hl eq_refl) as (ix1 & Hx1 & He1 & Ha1).
    pose proof Hs3 as (Hok3 & Hr3 & _). wp_step. apply wp_on_disk.
    eapply wp_mono; [by apply (wp_load_or_rebuild S pid (rdisk s3'))|]. intros r w4 (_ & _ & _ & Hix).
    destruct (Hix ix1 Hx1) as [Hw4 Heq].
    assert (Hs4 : intact (mk_RWorld w4 (rw_remote s3'))) by by apply intact_same; [done|rw Hw4..].
    destruct r as [ix2|er]; [|done]. rw (Heq ix2 eq_refl). wp_step. split; [done|]. intros sv.
    rw He1. cbn. intros [= <-]. exists ix, e. split_and!; [by rw -Hd1 -Hd2|done|].
    apply authentic_found; [done|done|]. apply (authentic_same S s3'); [cbn; by rw Hw4|done].
Qed.

Lemma run_op_intact op s :
  op_ok K op → intact s → wp (run_op s3 gdrive cwd c root pid op) (λ r s', r = Ok () ∧ intact s') s.
Proof.
  intros Hop Hs. destruct op; cbn [run_op]; wp_step; (eapply wp_mono; [|intros r s' Hs'; split; [done|exact Hs']]).
  - destruct Hop. by apply archive_intact.
  - by apply (gc_intact us vus now keep do_purge s Hop).
  - apply tag_intact; [|done]. intros w. apply quiet_tag_save.
  - apply tag_intact; [|done]. intros w. apply quiet_tag_remove.
  - by apply rotate_intact.
  - eapply wp_mono; [by apply wp_fetch_offloaded|]. by intros ?? [? _].
  - eapply wp_mono; [by apply wp_lookup|]. by intros ?? [? _].
Qed.

Lemma wp_run_ops ops s :
  Forall (op_ok K) ops → intact s → wp (run_ops s3 gdrive cwd c root pid ops) (λ _ s', intact s') s.
Proof.
  intros Hops Hs. apply (wp_for_each _ (λ l s', Forall (op_ok K) l ∧ intact s')); [done| |by intros ? [_ ?]].
  intros op l s1 [[Hop Hl]%Forall_cons Hs1]. eapply wp_mono; [by apply run_op_intact|]. by intros r s2 [-> ?].
Qed.

(** C18: A version that [lookup] returns is the one the index records under the name and the number, and at its path there is
    the content its hash names, whether the object was in the store or had to be fetched back.  Nothing is assumed of the
    content of damaged objects, in the store or at the backend, and every object may be damaged: the content is checked
    before it is returned. *)
Theorem lookup_returns_authentic_content us rel v s sv s' :
  intact s → lookup s3 gdrive cwd us c root pid rel v s = (Ok (Some sv), s') →
  ∃ ix e, holds_index S pid (rdisk s) ix ∧ index_get ix rel v = Some e ∧
    sv_rel sv = rel ∧ sv_version sv = v ∧ sv_hash sv = ie_hash e ∧ sv_size sv = ie_size e ∧ sv_crc sv = ie_crc e ∧
    ∃ b, read_at (rdisk s') (sv_path sv) = Ok b ∧ hex_encode (blake3 b) = ie_hash e.
Proof.
  intros Hs E. pose proof (wp_lookup us rel v s Hs) as Hw. destruct (wp_eq _ _ _ _ _ Hw E) as [_ Hf]. by apply Hf.
Qed.
End props.

(** ** Where nothing is damaged

    Without a set of its own this section works with [no_damage]: the objects of the store are
    the content of their hashes. *)
Section undamaged.
Context `{Blake3, Crc32, Hex, !Blake3Laws, !HexLaws, !Codec HistoryIndex, !CodecLaws HistoryIndex,
  !Codec ObjectMeta, !Codec Tag, DirOrder, !DirOrderLaws}.
Context {Remote : Type}.
Context (s3 : string → string → string → RotationBackend Remote).
Context (gdrive : string → string → RotationBackend Remote) (cwd : path).
Context (c : HistoryConfig) (root : path) (pid : string).
Context (ready : RWorld Remote → Prop) (content : RWorld Remote → string → option bytes).

Abbreviation S := (store_path pid c root).
Abbreviation place := (backend (rotation c)).
Abbreviation intact := (intact c root pid ready content).

Context (Hlaws : ∀ u bk, build_backend s3 gdrive cwd u place = Ok bk → BackendLaws S pid bk ready content).
Context (Hframe : ∀ s w', store_inv S pid (rdisk s) (disk w') → ready s →
  ready (mk_RWorld w' (rw_remote s)) ∧ ∀ k, content (mk_RWorld w' (rw_remote s)) k = content s k).
Context (K : string → N → string → Prop).

(** C17: Whatever operations run on a history store and whatever fails in them, the versions [K]
    that every collection is told to keep stay in the index under their hashes, and every
    version of the index stays available: the index stays readable, the local versions have
    their objects and the offloaded ones are at the backend or still in the store. *)
Theorem history_store_loses_nothing ops s :
  Forall (op_ok K) ops → intact K s →
  let s' := (run_ops s3 gdrive cwd c root pid ops s).2 in
  intact K s' ∧ ∃ ix, holds_index S pid (rdisk s') ix ∧ held S pid content place ix s' ∧
    ∀ rel v h, K rel v h → ∃ e, index_get ix rel v = Some e ∧ ie_hash e = h.
Proof.
  intros Hops Hs. pose proof (wp_run_ops s3 gdrive cwd c root pid ready content Hlaws Hframe K ops s Hops Hs) as Hw. revert Hw. unfold wp.
  destruct (run_ops _ _ _ _ _ _ _ _) as [r s']. intros Hw. split; [done|]. by destruct Hw as (_ & _ & ?).
Qed.

End undamaged.

(** ** The operations on the disk alone *)
Section local_ops.
Context `{Blake3, Crc32, Hex, !Blake3Laws, !HexLaws, !Codec HistoryIndex, !CodecLaws HistoryIndex,
  !Codec ObjectMeta, !Codec Tag, DirOrder, !DirOrderLaws}.
Context (c : HistoryConfig) (root : path) (pid : string).

Abbreviation S := (store_path pid c root).

(** The operations that need no backend. *)
Definition local_op (op : StoreOp) : option (IO ()) :=
  match op with
  | OpArchive us now rel v size crc publisher source src =>
      Some (ignore (archive us now c root pid rel v size crc publisher source src))
  | OpGc us vus now keep do_purge => Some (ignore (gc us vus now c root pid keep do_purge))
  | OpTagAdd u now name p => Some (ignore (tag_add u now c root pid name p))
  | OpTagRemove name => Some (ignore (store_tag_remove c root pid name))
  | _ => None
  end.

Lemma wp_in_store {A} base (k : path → IO A) w :
  store_inv S pid base (disk w) →
  (∀ w1, store_inv S pid base (disk w1) → wp (k S) (λ _ w', store_inv S pid base (disk w')) w1) →
  wp (d ← store_dir c root pid; k d) (λ _ w', store_inv S pid base (disk w')) w.
Proof.
  intros Hi Hk. wp_step. eapply wp_mono; [by apply (wp_store_dir S pid base)|]. intros [p|e] w1 [Hw1 Hp].
  - rw (Hp p eq_refl). apply Hk. by rw Hw1.
  - by rw Hw1.
Qed.

Lemma local_op_inv base op m w :
  local_op op = Some m → store_inv S pid base (disk w) → wp m (λ r w', r = Ok () ∧ store_inv S pid base (disk w')) w.
Proof.
  intros Hop Hi. destruct op; cbn in Hop; try done; injection Hop as <-; wp_step;
    (eapply wp_mono; [|intros r w' Hw'; split; [done|exact Hw']]).
  - unfold archive. destruct (negb _); [by wp_step|]. apply wp_in_store; [done|]. intros w1 Hi1.
    eapply wp_mono; [by apply wp_archive_in|]. by intros r w2 [? _].
  - destruct do_purge.
    + unfold gc. apply wp_in_store; [done|]. intros w1 Hi1. wp_step.
      eapply wp_mono; [by apply wp_load_or_rebuild|]. intros [ix|e] w2 (Hi2 & _); [|done].
      eapply wp_mono; [by apply wp_purge|]. by intros r w3 [? _].
    + eapply wp_mono; [by apply wp_gc|]. by intros r w1 [? _].
  - unfold tag_add, with_store. destruct (negb _); [by wp_step|]. apply wp_in_store; [done|]. intros w1 Hi1.
    eapply wp_mono; [by apply quiet_tag_save|]. by intros r w2 [? _].
  - unfold store_tag_remove, with_store. destruct (negb _); [by wp_step|]. apply wp_in_store; [done|]. intros w1 Hi1.
    eapply wp_mono; [by apply quiet_tag_remove|]. by intros r w2 [? _].
Qed.

Lemma wp_local_ops base ops ms w :
  mapM local_op ops = Some ms → store_inv S pid base (disk w) →
  wp (for_each id ms) (λ _ w', store_inv S pid base (disk w')) w.
Proof.
  intros Hms Hi. apply mapM_Some in Hms.
  apply (wp_for_each _ (λ l w', Forall (λ m, ∃ op, local_op op = Some m) l ∧ store_inv S pid base (disk w'))).
  - split; [|done]. apply Forall_forall. intros m Hm. apply list_elem_of_lookup in Hm as [i Hm].
    destruct (Forall2_lookup_r _ _ _ _ _ Hms Hm) as (op & _ & ?). by exists op.
  - intros m l w1 [[[op Hop] Hl]%Forall_cons Hi1]. eapply wp_mono; [by eapply local_op_inv|]. by intros r w2 [-> ?].
  - by intros w1 [_ ?].
Qed.

(** Archiving, collecting garbage, purging and tagging, in any order and with any faults, even
    when the index on disk is damaged: every object stays the content its name is the hash of,
    a readable index only lists local versions that have their objects, and nothing outside
    the directory of the store changes. *)
Theorem history_ops_keep_invariant ops ms w :
  mapM local_op ops = Some ms → store_inv S pid (disk w) (disk w) →
  store_inv S pid (disk w) (disk (for_each id ms w).2).
Proof.
  intros Hms Hi. pose proof (wp_local_ops (disk w) ops ms w Hms Hi) as Hw. revert Hw. unfold wp.
  by destruct (for_each _ _ _).
Qed.

(** Garbage collection never removes a version that the caller protects or a tag pins: its
    entry and its object are as before, however far the collection came. *)
Theorem gc_keeps_protected us vus now keep ix rel v e w r w' :
  store_inv S pid (disk w) (disk w) → holds_index S pid (disk w) ix → index_get ix rel v = Some e →
  (rel, v) ∈ keep ∨ pinned S pid (disk w) (rel, v) →
  gc us vus now c root pid keep false w = (r, w') →
  ∃ ix', holds_index S pid (disk w') ix' ∧ index_get ix' rel v = Some e ∧
    disk w' !! object_path S (ie_hash e) = disk w !! object_path S (ie_hash e).
Proof.
  intros Hi Hx He Hprot Hrun. pose proof (wp_gc S pid (disk w) us vus now c root keep w eq_refl Hi) as Hw.
  destruct (wp_eq _ _ _ _ _ Hw Hrun) as [Hi' Heff]. specialize (Heff ix Hx).
  assert (Hv : is_valid_object_hash (ie_hash e) = true) by by eapply holds_entry.
  destruct Heff as [[[Ho Hix] _]|(protected & Hkeep & Hpin & His & Hobj)].
  - exists ix. split_and!; [by eapply holds_same|done|by apply Ho].
  - assert (Hget : index_get (remove_victims (apply_retention ix c protected now) ix).1 rel v = Some e).
    { rw remove_victims_get. case_decide as Hvic; [|done]. apply retention_removable in Hvic as [Hnot _].
      destruct Hnot. destruct Hprot as [?|?]; [by apply Hkeep|by apply Hpin]. }
    destruct (holds_readable _ _ _ _ Hx). eexists. split_and!; [|exact Hget|].
    + apply holds_is; [done|by rw remove_victims_belongs|by apply remove_victims_valid].
    + apply Hobj; [by eapply elem_of_referenced|done].
Qed.

(** A run of [archive]. *)
Lemma archive_run us now rel v size crc publisher source src ix w r w' :
  store_inv S pid (disk w) (disk w) → holds_index S pid (disk w) ix →
  archive us now c root pid rel v size crc publisher source src w = (r, w') →
  r = Ok NotCovered ∧ w' = w ∨
  config_covers c pid = true ∧ store_inv S pid (disk w) (disk w') ∧
  archive_outcome S (source_hash (disk w) src size crc) now rel v size crc publisher source ix (disk w) (disk w') r.
Proof.
  intros Hi Hx. unfold archive. destruct (config_covers c pid); cbn [negb]; [|intros [= <- <-]; by left].
  intros Hrun. right. split; [done|]. apply bind_inv in Hrun as [(p & w1 & Hd & Hrun)|(er & Hd & ->)].
  all: destruct (wp_eq _ _ _ _ _ (wp_store_dir S pid (disk w) c root w eq_refl Hi) Hd) as [Hw1 Hp].
  2: by rw Hw1.
  rw (Hp p eq_refl) in Hrun.
  assert (Hi1 : store_inv S pid (disk w) (disk w1)) by by rw Hw1.
  destruct (wp_eq _ _ _ _ _ (wp_archive_in S pid (disk w) us now rel v size crc publisher source src w1 Hi1) Hrun)
    as (? & _ & Hout). rw Hw1 in Hout. split; [done|]. by apply Hout.
Qed.

Lemma holds_archived d ix rel v e :
  index_belongs ix pid = true → index_entries_valid ix = true → invalid_path rel = false →
  (0 < v < u64_max)%N → is_valid_object_hash (ie_hash e) = true →
  index_is S d (index_insert rel v e ix) → holds_index S pid d (index_insert rel v e ix).
Proof. intros. apply holds_is; [done..|]. by apply index_entries_valid_insert. Qed.

(** C21: [archive] is the insertion of one version into the index, as the next load sees it: a
    success adds or confirms exactly this version, with the content of [src] as its object; a
    failure or a clash with another content leaves the index as it was. *)
Theorem archive_refines_insert us now rel v size crc publisher source src ix w r w' :
  store_inv S pid (disk w) (disk w) → holds_index S pid (disk w) ix →
  invalid_path rel = false → (0 < v < u64_max)%N → plain (disk w) src →
  archive us now c root pid rel v size crc publisher source src w = (r, w') →
  match r with
  | Err _ | Ok NotCovered => holds_index S pid (disk w') ix
  | Ok AlreadyIndexed =>
      holds_index S pid (disk w') ix ∧ ∃ e, index_get ix rel v = Some e ∧
        matches_at (disk w) src (ie_hash e) size crc ∧
        matches_at (disk w') (object_path S (ie_hash e)) (ie_hash e) size crc
  | Ok _ =>
      ∃ h, let e := mk_IndexEntry h size crc now publisher source None in
        holds_index S pid (disk w') (index_insert rel v e ix) ∧
        (∀ e', index_get ix rel v = Some e' → ie_hash e' = h) ∧
        matches_at (disk w) src h size crc ∧ matches_at (disk w') (object_path S h) h size crc
  end.
Proof.
  intros Hi Hx Hrel Hv Hsrc Hrun. destruct (holds_readable _ _ _ _ Hx).
  destruct (archive_run _ _ _ _ _ _ _ _ _ _ _ _ _ Hi Hx Hrun) as [[-> ->]|(_ & _ & Hout)]; [done|].
  destruct r as [[]|er]; cbn in Hout; [| | |done|by eapply holds_same].
  - destruct Hout as (h & Hs & ? & Hh & ? & ?). exists h. by split_and!; [apply holds_archived|..|apply Hs|].
  - destruct Hout as (h & Hs & ? & Hh & ? & ?). exists h. by split_and!; [apply holds_archived|..|apply Hs|].
  - destruct Hout as (E & e & ? & Hs & ?). split; [by eapply holds_same|]. exists e. by split_and!; [|apply Hs|].
Qed.
End local_ops.

(** ** A version that was archived is found *)
Section roundtrip.
Context `{Blake3, Crc32, Hex, !Blake3Laws, !HexLaws, !Codec HistoryIndex, !CodecLaws HistoryIndex,
  !Codec ObjectMeta, !Codec Tag, DirOrder, !DirOrderLaws}.
Context {Remote : Type}.
Context (s3 : string → string → string → RotationBackend Remote).
Context (gdrive : string → string → RotationBackend Remote) (cwd : path).
Context (c : HistoryConfig) (root : path) (pid : string).

Abbreviation S := (store_path pid c root).

Lemma query_nofault {A : Type} (op : Fs → result IoError A) w : faults w = [] → query op w = (op (disk w), w).
Proof.
  intros Hf. unfold query, effect, next_fault. rw Hf. destruct w as [d f]. cbn in *. subst f.
  by destruct (op d).
Qed.

Lemma load_nofault u ix w :
  faults w = [] → store_inv S pid (disk w) (disk w) → index_is S (disk w) ix →
  index_belongs ix pid = true → index_entries_valid ix = true → load_or_rebuild u S pid w = (Ok ix, w).
Proof.
  intros Hf Hi (b & Hb & Hd) Hbl Hv. unfold load_or_rebuild, read.
  erewrite bind_ok; [|eapply try_eq, query_nofault; done].
  rw (read_file (disk w) S INDEX_FILE b) //; [apply Hi|by eapply plain_entry|]. by rw Hd Hbl Hv.
Qed.

Lemma validate_nofault p y h size crc w :
  faults w = [] → tree_wf (disk w) → plain (disk w) (p ++ [y]) → matches_at (disk w) (p ++ [y]) h size crc →
  validate_object (p ++ [y]) h size crc w = (Ok true, w).
Proof.
  intros Hf Hwf Hp (b & Hb & <- & <- & <-). rw node_at_snoc in Hb.
  assert (Hr : read (p ++ [y]) w = (Ok b, w)).
  { unfold read. rw query_nofault //. by rw (read_file (disk w) p y b). }
  unfold validate_object, crc32_of_file. erewrite bind_ok; [|eapply try_eq; by erewrite bind_ok].
  rw crc32_of_chunks. cbv beta iota. rw !N.eqb_refl. cbn [negb orb].
  erewrite bind_ok; [|unfold as_other, hash_path; erewrite bind_ok; [|done]; done].
  cbn. by rw N.eqb_refl bool_decide_eq_true_2.
Qed.

(** The version is in the index on disk with its object. *)
Definition archived_version (rel : string) (v size crc : N) (d d' : Fs) (src : path) (e : IndexEntry) : Prop :=
  ∃ ix, index_is S d' ix ∧ index_belongs ix pid = true ∧ index_entries_valid ix = true ∧
    index_get ix rel v = Some e ∧ is_local e = true ∧ ie_size e = size ∧ ie_crc e = crc ∧
    matches_at d src (ie_hash e) size crc ∧
    matches_at d' (object_path S (ie_hash e)) (ie_hash e) size crc.

Lemma archive_archived us now rel v size crc publisher source src ix w o w' :
  store_inv S pid (disk w) (disk w) → holds_index S pid (disk w) ix →
  (∀ e, index_get ix rel v = Some e → is_local e = true ∧ ie_size e = size ∧ ie_crc e = crc) →
  invalid_path rel = false → (0 < v < u64_max)%N → plain (disk w) src →
  archive us now c root pid rel v size crc publisher source src w = (Ok o, w') → o ≠ NotCovered →
  config_covers c pid = true ∧ store_inv S pid (disk w) (disk w') ∧
  ∃ e, archived_version rel v size crc (disk w) (disk w') src e.
Proof.
  intros Hi Hx Hloc Hrel Hv Hsrc Hrun Ho. destruct (holds_readable _ _ _ _ Hx) as [Hb Hval].
  destruct (archive_run c root pid _ _ _ _ _ _ _ _ _ _ _ _ _ Hi Hx Hrun) as [[[= ->] _]|(Hcov & Hi' & Hout)]; [done|].
  split_and!; [done..|].
  assert (Hins : ∀ h, source_hash (disk w) src size crc h → is_valid_object_hash h = true →
    matches_at (disk w') (object_path S h) h size crc →
    index_is S (disk w') (index_insert rel v (archived_entry now size crc publisher source h) ix) →
    ∃ e, archived_version rel v size crc (disk w) (disk w') src e).
  { intros h Hs Hh Hm His. exists (archived_entry now size crc publisher source h). eexists.
    split_and!; [exact His|done|by apply index_entries_valid_insert| |done..|by apply Hs|done].
    by rw index_get_insert decide_True. }
  destruct o; cbn in Hout; [| | |done].
  - destruct Hout as (h & ? & ? & ? & _ & ?). by eapply Hins.
  - destruct Hout as (h & ? & ? & ? & _ & ?). by eapply Hins.
  - destruct Hout as (E & e & He & Hs & ?). exists e, ix. destruct (Hloc e He) as (? & ? & ?).
    apply (holds_same S pid _ _ _ E) in Hx. destruct (holds_entry S pid _ _ _ _ _ Hx He) as (? & _).
    split_and!; try done. by apply Hs.
Qed.

(** Round trip: a version that [archive] accepted is found by a [lookup] without faults, as
    the version it is, with the hash, size and checksum of the archived content. *)
Theorem archive_lookup_roundtrip us us' now rel v size crc publisher source src ix w o w' remote :
  store_inv S pid (disk w) (disk w) → holds_index S pid (disk w) ix →
  (∀ e, index_get ix rel v = Some e → is_local e = true ∧ ie_size e = size ∧ ie_crc e = crc) →
  invalid_path rel = false → (0 < v < u64_max)%N → plain (disk w) src →
  archive us now c root pid rel v size crc publisher source src w = (Ok o, w') → o ≠ NotCovered →
  faults w' = [] → store_dir c root pid w' = (Ok S, w') →
  ∃ sv, lookup s3 gdrive cwd us' c root pid rel v (mk_RWorld w' remote) = (Ok (Some sv), mk_RWorld w' remote) ∧
    sv_rel sv = rel ∧ sv_version sv = v ∧ sv_size sv = size ∧ sv_crc sv = crc ∧
    matches_at (disk w) src (sv_hash sv) size crc ∧
    ∃ b, read_at (disk w') (sv_path sv) = Ok b ∧ hex_encode (blake3 b) = sv_hash sv ∧ len b = size ∧ crc32 b = crc.
Proof.
  intros Hi Hx Hloc Hrel Hv Hsrc Hrun Ho Hf Hdir.
  destruct (archive_archived _ _ _ _ _ _ _ _ _ _ _ _ _ Hi Hx Hloc Hrel Hv Hsrc Hrun Ho) as (Hcov & Hi'%inv_rebase & e & Ha).
  destruct Ha as (ix' & ? & ? & ? & He & Hl & ? & ? & ? & Hm).
  assert (Hh : is_valid_object_hash (ie_hash e) = true).
  { destruct Hm as (b & _ & <- & _). apply valid_digest. }
  pose proof (plain_object S pid (disk w') _ _ Hi' Hh) as Hp.
  exists (to_stored rel v e (object_path S (ie_hash e))). split; [|split_and!; try done].
  2:{ destruct Hm as (b & Hb & ?). exists b. split; [|done]. apply read_file; [apply Hi'|done|].
      by rw -Hb node_at_snoc. }
  unfold lookup. rw Hcov. cbn [negb].
  erewrite bind_ok; [|unfold on_disk; cbn [rw_world]; by rw Hdir].
  erewrite bind_ok; [|unfold on_disk; cbn [rw_world]; by rw (load_nofault _ ix')].
  rw He Hl. subst size crc.
  assert (Hval : validate_object (object_path S (ie_hash e)) (ie_hash e) (ie_size e) (ie_crc e) w' = (Ok true, w')).
  { apply validate_nofault; [done|apply Hi'|done..]. }
  by erewrite bind_ok; [|eapply try_eq; unfold on_disk; cbn [rw_world]; by rw Hval].
Qed.
End roundtrip.

(** ** A concrete store: two versions of a file, one of them offloaded to a directory. *)
Module StoreWitness.
#[export] Existing Instances Toy.toy_blake3 Toy.toy_hex Toy.toy_crc32 Toy.toy_blake3_laws Toy.toy_hex_laws.

Definition str_bytes (s : string) : bytes := as_bytes s.
Definition b1 : bytes := str_bytes "one".
Definition b2 : bytes := str_bytes "two".
Definition pid : string := "p".
Definition config (limit : N) : HistoryConfig := mk_HistoryConfig true ["*"] "/hist" limit 0 0
  (mk_HistoryRotationConfig true 1 24 (BackendLocalPath "/ext")).
Definition c : HistoryConfig := config 0.
Definition store : path := ["hist"; project_dir_name pid].
Definition h1 : string := hex_encode (blake3 b1).
Definition h2 : string := hex_encode (blake3 b2).
Definition e1 : IndexEntry := mk_IndexEntry h1 3 (crc32 b1) 5 "me" "published" None.
Definition e2 : IndexEntry := mk_IndexEntry h2 3 (crc32 b2) 900000000000 "me" "published" None.
Definition e1_off : IndexEntry :=
  with_offloaded (Some (mk_OffloadedRef "local_path" (object_key pid h1) (Some (BackendLocalPath "/ext")))) e1.
Definition ix0 : HistoryIndex := new_index pid.
Definition ix1 : HistoryIndex := index_insert "a.txt" 1 e1 ix0.
Definition ix2 : HistoryIndex := index_insert "a.txt" 2 e2 ix1.
Definition ix3 : HistoryIndex := index_insert "a.txt" 1 e1_off ix2.

#[export] Instance index_codec : Codec HistoryIndex := Toy.table_codec [ix0; ix1; ix2; ix3].
#[export] Instance index_codec_laws : CodecLaws HistoryIndex.
Proof. apply Toy.table_codec_laws. Qed.
#[export] Instance meta_codec : Codec ObjectMeta := {| to_vec _ := Some []; from_slice _ := Some default_meta |}.
#[export] Instance tag_codec : Codec Tag := Toy.table_codec [mk_Tag 1 pid "rel" 7 {["a.txt" := 1%N]}].
#[export] Instance dir_order : DirOrder := children.
#[export] Instance dir_order_laws : DirOrderLaws.
Proof. by intros fs q. Qed.

Definition disk0 : Fs := list_to_map [
  (["proj"], Dir); (["proj"; "a.txt"], File b1); (["proj"; "b.txt"], File b2); (["hist"], Dir); (["ext"], Dir)].
Definition w0 : World := mk_World disk0 [].
Definition s0 : RWorld () := mk_RWorld w0 ().
Definition bk : RotationBackend () := LocalDirBackend [] "".

Definition us (n : nat) : string := "u".
Definition vus (k : vkey) : string * string * string := ("x", "y", "z").

Definition put1 : StoreOp := OpArchive us 5 "a.txt" 1 3 (crc32 b1) "me" "published" ["proj"; "a.txt"].
Definition put2 : StoreOp := OpArchive us 900000000000 "a.txt" 2 3 (crc32 b2) "me" "published" ["proj"; "b.txt"].
Definition later : list StoreOp :=
  [OpRotate us vus 900000000001 [] false; OpGc us (λ _, "v") 900000000001 [("a.txt", 1%N)] false].
Definition ops : list StoreOp := [put1; put2] ++ later.

(** No version, and version 1 of the file. *)
Definition K0 (rel : string) (v : N) (h : string) : Prop := False.
Definition K1 (rel : string) (v : N) (h : string) : Prop := rel = "a.txt" ∧ v = 1%N ∧ h = h1.

(** Every path of the tree, checked one by one. *)
Lemma tree_all (d : Fs) (f : path → node → bool) :
  forallb (λ x, f x.1 x.2) (map_to_list d) = true → ∀ p n, d !! p = Some n → f p n = true.
Proof.
  rewrite forallb_forall. intros Hf p n Hp. apply (Hf (p, n)). by apply list_elem_of_In, elem_of_map_to_list.
Qed.

Lemma inv0 {Dmg : Damaged} limit : store_inv (store_path pid (config limit) ["proj"]) pid disk0 disk0.
Proof.
  assert (Hall : ∀ p n, disk0 !! p = Some n → (length p <=? 2)%nat && bool_decide (node_at disk0 (parent p) = Some Dir)
    && match n with Symlink _ => false | _ => true end = true).
  { apply (tree_all disk0 (λ p n, (length p <=? 2)%nat && bool_decide (node_at disk0 (parent p) = Some Dir)
      && match n with Symlink _ => false | _ => true end)). vm_compute. reflexivity. }
  assert (Hlen : ∀ p n, disk0 !! p = Some n → length p ≤ 2).
  { intros p n Hp%Hall. apply andb_true_iff in Hp as [Hp _]. apply andb_true_iff in Hp as [Hp _]. by apply Nat.leb_le. }
  split.
  - intros p x n Hp%Hall. apply andb_true_iff in Hp as [[_ Hp]%andb_true_iff _]. rw parent_snoc in Hp. exact (bool_decide_eq_true_1 _ Hp).
  - done.
  - apply (bool_decide_eq_true_1 _). vm_compute. reflexivity.
  - intros q t _ Hq%Hall. by apply andb_true_iff in Hq as [_ ?].
  - intros h n _ Hp%Hlen. rw length_object_path in Hp. lia.
  - intros b ix Hp%Hlen. rw length_index_path in Hp.
    change (length (store_path pid (config limit) ["proj"])) with 2 in Hp. lia.
Qed.

Lemma plain_src : plain disk0 ["proj"; "a.txt"].
Proof.
  split; [apply (bool_decide_eq_true_1 _); vm_compute; reflexivity|].
  intros [|[|[|n]]] t; vm_compute; discriminate.
Qed.

Lemma holds0 limit : holds_index (store_path pid (config limit) ["proj"]) pid disk0 ix0.
Proof. right. split; [vm_compute; reflexivity|reflexivity]. Qed.

(** The laws of the configured backend. *)
Lemma laws {Dmg : Damaged} u bk' :
  build_backend (λ _ _ _, bk) (λ _ _, bk) [] u (backend (rotation c)) = Ok bk' →
  BackendLaws (store_path pid c ["proj"]) pid bk' (λ s, no_links ["ext"] (rdisk s)) (λ s, held_under ["ext"] (rdisk s)).
Proof.
  intros [= <-]. apply local_backend_laws.
  - apply (bool_decide_eq_true_1 _). vm_compute. reflexivity.
  - by intros [k [= E _]].
  - by intros [k [= E _]].
Qed.

Lemma frame {Dmg : Damaged} s w' :
  store_inv (store_path pid c ["proj"]) pid (rdisk s) (disk w') → no_links ["ext"] (rdisk s) →
  no_links ["ext"] (rdisk (mk_RWorld w' (rw_remote s : ()))) ∧
  ∀ k, held_under ["ext"] (rdisk (mk_RWorld w' (rw_remote s))) k = held_under ["ext"] (rdisk s) k.
Proof. exact (bl_outside _ _ (BackendLaws := laws "" _ eq_refl) s w'). Qed.

Abbreviation good := (intact c ["proj"] pid (λ s, no_links ["ext"] (rdisk s)) (λ s, held_under ["ext"] (rdisk s))).

Lemma intact0 {Dmg : Damaged} : good K0 s0.
Proof.
  split_and!; [apply inv0| |].
  - intros q t _ Hq. assert (Hl : ∀ p n, disk0 !! p = Some n → match n with Symlink _ => false | _ => true end = true).
    { apply (tree_all disk0 (λ _ n, match n with Symlink _ => false | _ => true end)). vm_compute. reflexivity. }
    discriminate (Hl _ _ Hq).
  - exists ix0. split; [apply holds0|]. split; [|by intros rel v h []].
    split; intros rel v e; unfold index_get; cbn; by rw lookup_empty.
Qed.

(** The state after some operations. *)
Definition after (l : list StoreOp) : RWorld () :=
  (run_ops (λ _ _ _, bk) (λ _ _, bk) [] c ["proj"] pid l s0).2.

Lemma intact_after {Dmg : Damaged} l : Forall (op_ok K0) l → good K0 (after l).
Proof.
  intros Hl. pose proof (wp_run_ops (λ _ _ _, bk) (λ _ _, bk) [] c ["proj"] pid _ _ laws frame K0 l s0) as Hw.
  unfold after. revert Hw. unfold wp. destruct (run_ops _ _ _ _ _ _ _ _) as [r s]. intros Hw.
  exact (Hw Hl intact0).
Qed.

Lemma puts_ok : Forall (op_ok K0) [put1; put2].
Proof. repeat constructor; vm_compute; reflexivity. Qed.
Lemma ops_ok : Forall (op_ok K0) ops.
Proof.
  apply Forall_app. split; [exact puts_ok|]. unfold later.
  apply Forall_cons. split; [exact I|]. apply Forall_cons. split; [by intros rel v h []|apply Forall_nil_2].
Qed.

(** After the two archives version 1 is in the index. *)
Lemma holds2 : holds_index (store_path pid c ["proj"]) pid (rdisk (after [put1; put2])) ix2.
Proof. left. split; [eexists; split; vm_compute; reflexivity|]. split; vm_compute; reflexivity. Qed.

Lemma intact2 : good K1 (after [put1; put2]).
Proof.
  destruct (intact_after _ puts_ok) as (Hok & Hr & ix & Hx & Hh & _).
  rewrite (holds_unique c ["proj"] pid _ ix ix2 Hx holds2) in Hh. split; [exact Hok|]. split; [exact Hr|].
  exists ix2. split; [exact holds2|]. split; [exact Hh|]. intros rel v h (-> & -> & ->). exists e1.
  split; [vm_compute; reflexivity|reflexivity].
Qed.

(** One version per file, the old one pinned by a tag. *)
Definition c1 : HistoryConfig := config 1.
Definition tagged : list StoreOp := [put1; put2; OpTagAdd "t" 7 "rel" {["a.txt" := 1%N]}].
Definition tagged_ops : list (IO ()) := default [] (mapM (local_op c1 ["proj"] pid) tagged).
Definition w1 : World := (for_each id tagged_ops w0).2.

Lemma inv1 : store_inv (store_path pid c1 ["proj"]) pid (disk w1) (disk w1).
Proof.
  apply (inv_rebase _ _ disk0). pose proof (wp_local_ops c1 ["proj"] pid disk0 tagged tagged_ops w0 eq_refl (inv0 1)) as Hw.
  unfold w1. revert Hw. unfold wp. by destruct (for_each _ _ _).
Qed.
End StoreWitness.
Import (hints) StoreWitness.

(** Of two versions the older one is offloaded and removed from the store, then garbage is
    collected: it is still in the index and its content is at the backend. *)
Lemma history_store_loses_nothing_witness :
  let s := (run_ops (λ _ _ _, StoreWitness.bk) (λ _ _, StoreWitness.bk) [] StoreWitness.c ["proj"] StoreWitness.pid
              StoreWitness.later (StoreWitness.after [StoreWitness.put1; StoreWitness.put2])).2 in
  rdisk s !! object_path StoreWitness.store StoreWitness.h1 = None ∧
  rdisk s !! key_path ["ext"] (object_key StoreWitness.pid StoreWitness.h1) = Some (File StoreWitness.b1) ∧
  ∃ ix e, holds_index (store_path StoreWitness.pid StoreWitness.c ["proj"]) StoreWitness.pid (rdisk s) ix ∧
    index_get ix "a.txt" 1 = Some e ∧ ie_hash e = StoreWitness.h1.
Proof.
  intros s. split; [vm_compute; reflexivity|]. split; [vm_compute; reflexivity|].
  assert (Hops : Forall (op_ok StoreWitness.K1) StoreWitness.later).
  { apply Forall_cons. split; [exact I|]. apply Forall_cons. split; [|apply Forall_nil_2].
    intros rel v h (-> & -> & ->). split; [left|reflexivity]. }
  destruct (history_store_loses_nothing (λ _ _ _, StoreWitness.bk) (λ _ _, StoreWitness.bk) [] StoreWitness.c ["proj"]
    StoreWitness.pid _ _ StoreWitness.laws StoreWitness.frame StoreWitness.K1 StoreWitness.later _ Hops
    StoreWitness.intact2) as (_ & ix & Hx & _ & HK).
  destruct (HK "a.txt" 1%N StoreWitness.h1) as (e & He & Hh); [split_and!; reflexivity|].
  exists ix, e. split; [exact Hx|]. split; [exact He|exact Hh].
Defined.

(** Every object may be damaged, and that of version 2 is; version 1 is at the backend. *)
Module DamageWitness.
#[export] Instance everything : Damaged := λ _, True.
Definition broken : RWorld () :=
  mk_RWorld (mk_World (edit (rdisk (StoreWitness.after StoreWitness.ops)) (object_path StoreWitness.store StoreWitness.h2)
    (Some (File (StoreWitness.str_bytes "tw?")))) []) ().
Definition found (v : N) := lookup (λ _ _ _, StoreWitness.bk) (λ _ _, StoreWitness.bk) [] StoreWitness.us StoreWitness.c ["proj"]
  StoreWitness.pid "a.txt" v broken.

Lemma still_intact :
  intact (Dmg := everything) StoreWitness.c ["proj"] StoreWitness.pid (λ s, no_links ["ext"] (rdisk s))
    (λ s, held_under ["ext"] (rdisk s)) StoreWitness.K0 broken.
Proof.
  refine (intact_damaged (Dmg := everything) StoreWitness.c ["proj"] StoreWitness.pid _ _
    (StoreWitness.frame (Dmg := everything)) StoreWitness.K0 StoreWitness.h2 _ []
    (StoreWitness.after StoreWitness.ops) (StoreWitness.intact_after (Dmg := everything) _ StoreWitness.ops_ok) I _ _).
  - vm_compute. reflexivity.
  - vm_compute. by eexists.
Qed.
End DamageWitness.

(** The damaged version is not returned; the offloaded one is brought back with its content. *)
Lemma lookup_returns_authentic_content_witness :
  (DamageWitness.found 2).1 = Ok None ∧
  ∃ sv s', DamageWitness.found 1 = (Ok (Some sv), s') ∧ sv_hash sv = StoreWitness.h1 ∧
    ∃ b, read_at (rdisk s') (sv_path sv) = Ok b ∧ hex_encode (blake3 b) = sv_hash sv.
Proof.
  split; [vm_compute; reflexivity|].
  assert (Hrun : (DamageWitness.found 1).1 = Ok (Some (to_stored "a.txt" 1 StoreWitness.e1
    (object_path StoreWitness.store StoreWitness.h1)))) by (vm_compute; reflexivity).
  exists (to_stored "a.txt" 1 StoreWitness.e1 (object_path StoreWitness.store StoreWitness.h1)), (DamageWitness.found 1).2.
  assert (Hpair : DamageWitness.found 1 = (Ok (Some (to_stored "a.txt" 1 StoreWitness.e1
    (object_path StoreWitness.store StoreWitness.h1))), (DamageWitness.found 1).2)) by (rewrite -Hrun; apply surjective_pairing).
  split; [exact Hpair|]. split; [reflexivity|].
  destruct (lookup_returns_authentic_content (Dmg := DamageWitness.everything) (λ _ _ _, StoreWitness.bk) (λ _ _, StoreWitness.bk) []
    StoreWitness.c ["proj"] StoreWitness.pid _ _ (StoreWitness.laws (Dmg := DamageWitness.everything))
    (StoreWitness.frame (Dmg := DamageWitness.everything)) StoreWitness.K0 StoreWitness.us "a.txt" 1 DamageWitness.broken
    (to_stored "a.txt" 1 StoreWitness.e1 (object_path StoreWitness.store StoreWitness.h1)) (DamageWitness.found 1).2)
    as (ix & e & _ & _ & _ & _ & Hh & _ & _ & b & Hb & Hbh).
  - exact DamageWitness.still_intact.
  - exact Hpair.
  - exists b. split; [exact Hb|]. rewrite Hh. exact Hbh.
Defined.

Lemma history_ops_keep_invariant_witness :
  is_Some (disk StoreWitness.w1 !! object_path StoreWitness.store StoreWitness.h2) ∧
  store_inv (store_path StoreWitness.pid StoreWitness.c1 ["proj"]) StoreWitness.pid StoreWitness.disk0
    (disk (for_each id StoreWitness.tagged_ops StoreWitness.w0).2).
Proof.
  split; [vm_compute; by eexists|].
  apply (history_ops_keep_invariant StoreWitness.c1 ["proj"] StoreWitness.pid StoreWitness.tagged
    StoreWitness.tagged_ops StoreWitness.w0); [reflexivity|exact (StoreWitness.inv0 1)].
Defined.

(** The limit of one version would remove version 1; the tag keeps it. *)
Lemma gc_keeps_protected_witness :
  (apply_retention StoreWitness.ix2 StoreWitness.c1 [] 900000000001) = [("a.txt", 1%N)] ∧
  ∃ ix', holds_index (store_path StoreWitness.pid StoreWitness.c1 ["proj"]) StoreWitness.pid
    (disk (gc StoreWitness.us (λ _, "v") 900000000001 StoreWitness.c1 ["proj"] StoreWitness.pid [] false StoreWitness.w1).2) ix' ∧
    index_get ix' "a.txt" 1 = Some StoreWitness.e1.
Proof.
  split; [vm_compute; reflexivity|].
  destruct (gc_keeps_protected StoreWitness.c1 ["proj"] StoreWitness.pid StoreWitness.us (λ _, "v") 900000000001 []
    StoreWitness.ix2 "a.txt" 1 StoreWitness.e1 StoreWitness.w1
    (gc StoreWitness.us (λ _, "v") 900000000001 StoreWitness.c1 ["proj"] StoreWitness.pid [] false StoreWitness.w1).1
    (gc StoreWitness.us (λ _, "v") 900000000001 StoreWitness.c1 ["proj"] StoreWitness.pid [] false StoreWitness.w1).2)
    as (ix' & Hix & He & _).
  - exact StoreWitness.inv1.
  - left. split; [eexists; split; vm_compute; reflexivity|]. split; vm_compute; reflexivity.
  - vm_compute. reflexivity.
  - right. exists "rel", (mk_Tag 1 StoreWitness.pid "rel" 7 {["a.txt" := 1%N]}). split; [|reflexivity].
    split; [reflexivity|]. split; [reflexivity|]. eexists. split; vm_compute; reflexivity.
  - apply surjective_pairing.
  - by exists ix'.
Defined.

Lemma archive_refines_insert_witness :
  let run := archive StoreWitness.us 5 StoreWitness.c ["proj"] StoreWitness.pid "a.txt" 1 3 (crc32 StoreWitness.b1) "me"
    "published" ["proj"; "a.txt"] StoreWitness.w0 in
  run.1 = Ok Stored ∧
  ∃ h, holds_index (store_path StoreWitness.pid StoreWitness.c ["proj"]) StoreWitness.pid (disk run.2)
    (index_insert "a.txt" 1 (mk_IndexEntry h 3 (crc32 StoreWitness.b1) 5 "me" "published" None) StoreWitness.ix0).
Proof.
  intros run. assert (Hrun : run.1 = Ok Stored) by (vm_compute; reflexivity). split; [exact Hrun|].
  assert (Hpair : run = (Ok Stored, run.2)) by (rewrite -Hrun; apply surjective_pairing).
  destruct (archive_refines_insert StoreWitness.c ["proj"] StoreWitness.pid StoreWitness.us 5 "a.txt" 1 3
    (crc32 StoreWitness.b1) "me" "published" ["proj"; "a.txt"] StoreWitness.ix0 StoreWitness.w0 (Ok Stored) run.2)
    as (h & Hh & _).
  - exact (StoreWitness.inv0 0).
  - exact (StoreWitness.holds0 0).
  - reflexivity.
  - split; reflexivity.
  - exact StoreWitness.plain_src.
  - exact Hpair.
  - by exists h.
Defined.

Lemma archive_lookup_roundtrip_witness :
  let w1 := (archive StoreWitness.us 5 StoreWitness.c ["proj"] StoreWitness.pid "a.txt" 1 3 (crc32 StoreWitness.b1) "me"
    "published" ["proj"; "a.txt"] StoreWitness.w0).2 in
  ∃ sv, lookup (λ _ _ _, StoreWitness.bk) (λ _ _, StoreWitness.bk) [] StoreWitness.us StoreWitness.c ["proj"]
    StoreWitness.pid "a.txt" 1 (mk_RWorld w1 ()) = (Ok (Some sv), mk_RWorld w1 ()) ∧ sv_size sv = 3%N.
Proof.
  intros w1. set (run := archive StoreWitness.us 5 StoreWitness.c ["proj"] StoreWitness.pid "a.txt" 1 3
    (crc32 StoreWitness.b1) "me" "published" ["proj"; "a.txt"] StoreWitness.w0).
  assert (Hrun : run.1 = Ok Stored) by (vm_compute; reflexivity).
  assert (Hpair : run = (Ok Stored, w1)) by (rewrite -Hrun; apply surjective_pairing).
  destruct (archive_lookup_roundtrip (λ _ _ _, StoreWitness.bk) (λ _ _, StoreWitness.bk) [] StoreWitness.c ["proj"]
    StoreWitness.pid StoreWitness.us StoreWitness.us 5 "a.txt" 1 3 (crc32 StoreWitness.b1) "me" "published" ["proj"; "a.txt"]
    StoreWitness.ix0 StoreWitness.w0 Stored w1 ()) as (sv & Hsv & _ & _ & Hsize & _).
  - exact (StoreWitness.inv0 0).
  - exact (StoreWitness.holds0 0).
  - intros e He. discriminate He.
  - reflexivity.
  - split; reflexivity.
  - exact StoreWitness.plain_src.
  - exact Hpair.
  - discriminate.
  - vm_compute. reflexivity.
  - reflexivity.
  - exists sv. split; [exact Hsv|exact Hsize].
Defined.
