(* ===== verification/Hooks.v ===== *)
(** * Hooks

    [synergos-core/src/hooks/project_file.rs], [runner.rs] and the hook settings of
    [synergos-net/src/config.rs]: commands that run before a publish and after a publish or
    a transfer.  A project's own hooks come from its repository, so they run only on nodes
    that opted in.

    The TOML parser and the operating system's processes are parameters: [parse_hooks]
    decodes a file, [shell] gives the outcome of a command, which may depend on all that ran
    before, and [touches] what the command does to the disk.  The state records every
    command that is started. *)

From Stdlib Require Import Strings.Ascii.
From S2P Require Import Prelude Crypto Types Transfer Fs Manifest Glob.

(** ** Settings *)
Record HookDef := mk_HookDef {
  hook_event : string;
  command : string;
  match_ : list string;
  timeout_sec : N;
}.

Record HooksConfig := mk_HooksConfig {
  allow_project_hooks : bool;
  hooks : list HookDef;
}.

Global Instance HookDef_eq_dec : EqDecision HookDef.
Proof. solve_decision. Defined.

Definition MAX_HOOK_TIMEOUT_SEC : N := 24 * 60 * 60.
Definition MAX_HOOK_COMMAND_LEN : N := 32 * 1024.
Definition MAX_HOOK_PATTERN_LEN : N := 1024.
Definition str_len (s : string) : N := N.of_nat (String.length s).

Inductive HookError := UnsupportedEvent | BadCommand | BadTimeout | BadPattern.

Definition hook_validate (h : HookDef) : result HookError () :=
  if negb (existsb (λ e, bool_decide (e = hook_event h)) ["pre-publish"; "post-publish"; "post-receive"])
  then Err UnsupportedEvent
  else if is_blank_text (command h) || (MAX_HOOK_COMMAND_LEN <? str_len (command h))%N then Err BadCommand
  else if (timeout_sec h =? 0)%N || (MAX_HOOK_TIMEOUT_SEC <? timeout_sec h)%N then Err BadTimeout
  else if existsb (λ p, bool_decide (p = "") || (MAX_HOOK_PATTERN_LEN <? str_len p)%N || has_control (as_bytes p))
            (match_ h)
  then Err BadPattern
  else Ok ().

Definition hook_matches (h : HookDef) (path : string) : bool :=
  if bool_decide (match_ h = []) then true else existsb (λ p, glob_match p path) (match_ h).

(** ** Events, outcomes *)
Inductive HookEvent := PrePublish | PostPublish | PostReceive.
Definition event_str (e : HookEvent) : string :=
  match e with PrePublish => "pre-publish" | PostPublish => "post-publish" | PostReceive => "post-receive" end.

Inductive HookSource := Daemon | ProjectFile.

Inductive HookStatus := Success | Failed (exit_code : option Z) | TimedOut | SpawnError (detail : string).

Record HookOutcome := mk_HookOutcome {
  out_source : HookSource;
  out_command : string;
  out_status : HookStatus;
}.

Record EffectiveHook := mk_EffectiveHook {
  eff_source : HookSource;
  def : HookDef;
  disabled_by_opt_in : bool;
}.

Record Env := mk_Env {
  env_event : HookEvent;
  env_project : string;
  env_file : string;
  env_version : option N;
  env_peer : option string;
}.

(** A command with its working directory, environment and time limit. *)
Record Execution := mk_Execution {
  ex_source : HookSource;
  ex_def : HookDef;
  ex_cwd : path;
  ex_env : Env;
  ex_timeout : N;
}.

Class TomlHooks := parse_hooks : bytes → option (list HookDef).
(** What a command answers and what it does to the disk, after the commands started before it. *)
Class Shell := {
  shell : list Execution → Execution → HookStatus;
  touches : list Execution → Execution → Fs → Fs;
}.

Record HookWorld := mk_HookWorld { hw_world : World; started : list Execution }.

Abbreviation HIO A := (ST HookWorld IoError A).

Definition hook_disk {A} (m : IO A) : HIO A := λ s,
  let '(r, w) := m (hw_world s) in (r, mk_HookWorld w (started s)).

Definition HOOKS_FILE : string := "hooks.toml".
Definition MAX_HOOKS_FILE_BYTES : N := 1024 * 1024.

Section runner.
Context `{TomlHooks, Shell}.

(** [project_file::load]. *)
Definition load_hooks (root : path) : IO (list HookDef) :=
  r ← try_ (read (root ++ [META_DIR; HOOKS_FILE]));
  match r with
  | Err NotFound => mret []
  | Err e => throw e
  | Ok b =>
      let text := take (N.to_nat (MAX_HOOKS_FILE_BYTES + 1)) b in
      if negb (utf8_valid text) then throw InvalidData
      else if (MAX_HOOKS_FILE_BYTES <? len text)%N then throw InvalidData
      else
        match parse_hooks text with
        | None => throw InvalidData
        | Some l => if forallb (λ h, is_ok (hook_validate h)) l then mret l else throw InvalidData
        end
  end.

(** [execute]: the command is started in the project's root. *)
Definition execute (root : path) (source : HookSource) (d : HookDef) (env : Env) : HIO HookOutcome := λ s,
  let ex := mk_Execution source d root env (N.max (timeout_sec d) 1) in
  (Ok (mk_HookOutcome source (command d) (shell (started s) ex)),
   mk_HookWorld (mk_World (touches (started s) ex (disk (hw_world s))) (faults (hw_world s))) (started s ++ [ex])).

Section config.
Context (c : HooksConfig).

Definition effective_hooks (root : path) : HIO (list EffectiveHook) :=
  let out := (λ d, mk_EffectiveHook Daemon d false) <$> hooks c in
  project_hooks ← hook_disk (load_hooks root);
  mret (out ++ ((λ d, mk_EffectiveHook ProjectFile d (negb (allow_project_hooks c))) <$> project_hooks)).

(** The filter of [matching_hooks]. *)
Definition wanted (event : HookEvent) (rel_path : string) (d : HookDef) : bool :=
  bool_decide (hook_event d = event_str event) && hook_matches d rel_path.

Definition matching_hooks (root : path) (event : HookEvent) (rel_path : string) :
    HIO (list (HookSource * HookDef)) :=
  let matched := (Daemon,.) <$> filter (λ d, wanted event rel_path d = true) (hooks c) in
  if allow_project_hooks c then
    project_hooks ← hook_disk (load_hooks root);
    mret (matched ++ ((ProjectFile,.) <$> filter (λ d, wanted event rel_path d = true) project_hooks))
  else mret matched.

Definition run_pre_publish (root : path) (project_id rel_path : string) : HIO () :=
  l ← matching_hooks root PrePublish rel_path;
  for_each (λ x : HookSource * HookDef,
    outcome ← execute root x.1 x.2 (mk_Env PrePublish project_id rel_path None None);
    match out_status outcome with
    | Success => mret ()
    | _ => throw OtherIo
    end) l.

(** The task that [spawn_post_hooks] starts; its errors are logged. *)
Definition post_hooks (root : path) (event : HookEvent) (project_id rel_path : string) (version : N)
    (peer : option string) : HIO () :=
  r ← try_ (matching_hooks root event rel_path);
  match r with
  | Err _ => mret ()
  | Ok l => for_each (λ x : HookSource * HookDef,
              _ ← execute root x.1 x.2 (mk_Env event project_id rel_path (Some version) peer); mret ()) l
  end.

Fixpoint execute_all (root : path) (env : Env) (l : list (HookSource * HookDef)) : HIO (list HookOutcome) :=
  match l with
  | [] => mret []
  | x :: l' => o ← execute root x.1 x.2 env; os ← execute_all root env l'; mret (o :: os)
  end.

Definition run_manual (root : path) (event : HookEvent) (project_id rel_path : string) :
    HIO (list HookOutcome) :=
  l ← matching_hooks root event rel_path;
  execute_all root (mk_Env event project_id rel_path None None) l.
End config.
End runner.

(** ** What runs *)
Section properties.
Context `{TomlHooks, Shell} (c : HooksConfig).

(** The command was asked for: it is one of the daemon's, or one of the project's on a node
    that opted in, for this event and this file. *)
Definition authorised (root : path) (event : HookEvent) (rel_path : string) (d : Fs) (ex : Execution) : Prop :=
  wanted event rel_path (ex_def ex) = true ∧ ex_cwd ex = root ∧ env_event (ex_env ex) = event ∧
  env_file (ex_env ex) = rel_path ∧
  match ex_source ex with
  | Daemon => ex_def ex ∈ hooks c
  | ProjectFile => allow_project_hooks c = true ∧ hook_validate (ex_def ex) = Ok () ∧
      ∃ b l, read_at d (root ++ [META_DIR; HOOKS_FILE]) = Ok b ∧ parse_hooks b = Some l ∧ ex_def ex ∈ l
  end.

(** The same for a hook that is about to run. *)
Definition authorised_hook (root : path) (event : HookEvent) (rel_path : string) (d : Fs)
    (x : HookSource * HookDef) : Prop :=
  ∀ env n, env_event env = event → env_file env = rel_path →
    authorised root event rel_path d (mk_Execution x.1 x.2 root env n).

Lemma wp_hook_disk {A} (m : IO A) (Q : result IoError A → HookWorld → Prop) s :
  wp m (λ r w', Q r (mk_HookWorld w' (started s))) (hw_world s) → wp (hook_disk m) Q s.
Proof. unfold wp, hook_disk. by destruct (m (hw_world s)). Qed.

Lemma wp_execute root source d env (Q : result IoError HookOutcome → HookWorld → Prop) s :
  (let ex := mk_Execution source d root env (N.max (timeout_sec d) 1) in
   Q (Ok (mk_HookOutcome source (command d) (shell (started s) ex)))
     (mk_HookWorld (mk_World (touches (started s) ex (disk (hw_world s))) (faults (hw_world s))) (started s ++ [ex]))) →
  wp (execute root source d env) Q s.
Proof. done. Qed.

Lemma wp_load_hooks root w :
  wp (load_hooks root) (λ r w', disk w' = disk w ∧ ∀ l, r = Ok l → ∀ d, d ∈ l →
    hook_validate d = Ok () ∧ ∃ b l', read_at (disk w) (root ++ [META_DIR; HOOKS_FILE]) = Ok b ∧
      parse_hooks b = Some l' ∧ d ∈ l') w.
Proof.
  unfold load_hooks. wp_step. wp_step. apply wp_query. intros r w1 Hw1 Hr.
  destruct r as [b|[]]; try (by wp_step); [|wp_step; split; [done|]; intros l [= <-] d Hd%elem_of_nil; done].
  destruct Hr as [Hr|?]; [|done]. set (text := take _ b).
  destruct (negb (utf8_valid text)); [by wp_step|]. destruct (_ <? _)%N eqn:Hlen; [by wp_step|].
  assert (text = b) as ->.
  { unfold text. apply take_ge. bool_to_prop. unfold len, text in Hlen. rw length_take in Hlen. lia. }
  destruct (parse_hooks b) as [l|] eqn:Hp; [|by wp_step]. destruct (forallb _ _) eqn:Hv; [|by wp_step].
  wp_step. split; [done|]. intros ? [= <-] d Hd. split; [|exists b, l; by rw -Hr].
  rw forallb_forall in Hv. specialize (Hv d). rw -list_elem_of_In in Hv. specialize (Hv Hd).
  by destruct (hook_validate d) as [[]|].
Qed.

Lemma wp_matching_hooks root event rel_path s :
  wp (matching_hooks c root event rel_path) (λ r s', started s' = started s ∧ disk (hw_world s') = disk (hw_world s) ∧
    ∀ l, r = Ok l → Forall (authorised_hook root event rel_path (disk (hw_world s))) l ∧
      (allow_project_hooks c = false → l = (Daemon,.) <$> filter (λ d, wanted event rel_path d = true) (hooks c))) s.
Proof.
  assert (Hd : Forall (authorised_hook root event rel_path (disk (hw_world s)))
    ((Daemon,.) <$> filter (λ d, wanted event rel_path d = true) (hooks c))).
  { apply Forall_fmap, Forall_forall. intros d [Hw Hin]%list_elem_of_filter env n <- <-. by split_and!. }
  unfold matching_hooks. destruct (allow_project_hooks c) eqn:Ha; [|wp_step; split_and!; [done..|]; by intros ? [= <-]].
  wp_step. apply wp_hook_disk. eapply wp_mono; [apply wp_load_hooks|]. intros [l|e] w1 [Hw1 Hl]; [|done].
  wp_step. split_and!; [done..|]. intros ? [= <-]. split; [|done]. apply Forall_app. split; [done|].
  apply Forall_fmap, Forall_forall. intros d [Hw Hin]%list_elem_of_filter env n <- <-.
  destruct (Hl l eq_refl d Hin) as [? ?]. by split_and!.
Qed.

(** A loop over hooks starts those it comes to. *)
Definition started_by (root : path) (env : Env) (x : HookSource * HookDef) : Execution :=
  mk_Execution x.1 x.2 root env (N.max (timeout_sec x.2) 1).

Lemma wp_execute_all root env l s :
  wp (execute_all root env l) (λ _ s', started s' = started s ++ (started_by root env <$> l)) s.
Proof.
  revert s. induction l as [|x l IH]; intros s; cbn [execute_all]; [wp_step; by rw app_nil_r|].
  wp_step. apply wp_execute. cbv beta iota zeta. wp_step. eapply wp_mono; [apply IH|]. intros [os|e] s' E; cbn [started] in E; [wp_step|]; by rw E -app_assoc.
Qed.

Lemma wp_post_loop root env l s :
  wp (for_each (λ x : HookSource * HookDef, _ ← execute root x.1 x.2 env; mret ()) l)
    (λ _ s', started s' = started s ++ (started_by root env <$> l)) s.
Proof.
  revert s. induction l as [|x l IH]; intros s; cbn [for_each]; [wp_step; by rw app_nil_r|].
  wp_step. wp_step. apply wp_execute. cbv beta iota zeta. wp_step. eapply wp_mono; [apply IH|]. intros r s' E. cbn [started] in E. by rw E -app_assoc.
Qed.

(** What a loop over matching hooks starts was asked for. *)
Lemma loop_authorised root event rel_path env l l' d :
  env_event env = event → env_file env = rel_path → Forall (authorised_hook root event rel_path d) l → l' ⊆ l →
  Forall (authorised root event rel_path d) (started_by root env <$> l').
Proof.
  intros Hev Hf Hl Hsub. apply Forall_fmap, Forall_forall. intros x Hx. rw Forall_forall in Hl.
  by apply (Hl x (Hsub x Hx)).
Qed.

Lemma wp_post_hooks root event project_id rel_path version peer s :
  wp (post_hooks c root event project_id rel_path version peer) (λ _ s', ∃ l, started s' = started s ++ l ∧
    Forall (authorised root event rel_path (disk (hw_world s))) l) s.
Proof.
  assert (Hsame : ∀ s', started s' = started s → ∃ l, started s' = started s ++ l ∧
    Forall (authorised root event rel_path (disk (hw_world s))) l).
  { intros s' E. exists []. rw app_nil_r. by split; [|constructor]. }
  unfold post_hooks. wp_step. wp_step. eapply wp_mono; [apply wp_matching_hooks|].
  intros [l|e] s1 (Hs1 & _ & Hl); [|wp_step; by apply Hsame]. eapply wp_mono; [apply wp_post_loop|].
  intros r s2 E. eexists. rw E Hs1. split; [done|]. eapply loop_authorised; [done|done|by apply Hl|done].
Qed.

(** Before a publish the loop stops at the first hook that does not succeed. *)
Lemma wp_pre_loop root env l s :
  wp (for_each (λ x : HookSource * HookDef,
        outcome ← execute root x.1 x.2 env;
        match out_status outcome with Success => mret () | _ => throw OtherIo end) l)
    (λ r s', ∃ k, started s' = started s ++ (started_by root env <$> take k l) ∧
       (∀ i x, l !! i = Some x → S i < k ∨ r = Ok () ∧ i < k →
          shell (started s ++ (started_by root env <$> take i l)) (started_by root env x) = Success) ∧
       (r = Ok () → k = length l) ∧
       (r ≠ Ok () → ∃ x, l !! (k - 1) = Some x ∧ 0 < k ∧
          shell (started s ++ (started_by root env <$> take (k - 1) l)) (started_by root env x) ≠ Success)) s.
Proof.
  revert s. induction l as [|x l IH]; intros s; cbn [for_each].
  { wp_step. exists 0. rw app_nil_r. by split_and!. }
  wp_step. wp_step. apply wp_execute. cbv beta iota zeta. fold (started_by root env x). cbn [out_status].
  destruct (shell (started s) (started_by root env x)) eqn:Hs; cbv beta iota.
  2-4: wp_step; exists 1; cbn; rw app_nil_r; split_and!; [done|intros [|i] y ? [?|[? _]]; lia||done|done|];
    intros _; exists x; rw Hs; by split_and!; [|lia|].
  wp_step. eapply wp_mono; [apply IH|]. cbn [started hw_world].
  intros r s' (k & E & Hbefore & Hok & Herr). exists (S k).
  assert (Hcat : ∀ i, (started s ++ [started_by root env x]) ++ (started_by root env <$> take i l) =
    started s ++ (started_by root env <$> take (S i) (x :: l))) by (intros; cbn; by rw -app_assoc).
  rw Hcat in E. split_and!; [done| |by intros ->%Hok|].
  - intros [|i] y Hy Hi; [injection Hy as <-; cbn; by rw app_nil_r|]. rw -Hcat. apply Hbefore; [done|].
    destruct Hi as [?|[? ?]]; [left|right]; auto with lia.
  - intros Hr. destruct (Herr Hr) as (y & Hy & Hk & Hf). exists y. destruct k as [|k]; [lia|].
    replace (S (S k) - 1) with (S (S k - 1)) by lia. rw -Hcat. by split_and!; [|lia|].
Qed.

(** C37: Only hooks that were asked for run, and a project's hooks only on a node that opted in:
    whatever is started before a publish, after one, after a transfer or by hand is a hook of
    the daemon's settings, or a valid hook of the project's file with the opt-in, for this
    event and this file, in the project's directory. *)
Theorem hooks_run_only_authorised root event project_id rel_path version peer s :
  let new s' := ∃ l, started s' = started s ++ l ∧ Forall (authorised root event rel_path (disk (hw_world s))) l in
  (event = PrePublish → new (run_pre_publish c root project_id rel_path s).2) ∧
  new (post_hooks c root event project_id rel_path version peer s).2 ∧
  new (run_manual c root event project_id rel_path s).2.
Proof.
  intros new.
  assert (Hend : ∀ A (m : HIO A), wp m (λ _ s', new s') s → new (m s).2).
  { intros A m. unfold wp. by destruct (m s). }
  assert (Hsame : ∀ s', started s' = started s → new s').
  { intros s' E. exists []. rw app_nil_r. by split; [|constructor]. }
  assert (Hran : ∀ env l l' s1 s', env_event env = event → env_file env = rel_path →
    Forall (authorised_hook root event rel_path (disk (hw_world s))) l → l' ⊆ l →
    started s1 = started s → started s' = started s1 ++ (started_by root env <$> l') → new s').
  { intros env l l' s1 s' Hev Hf Hl Hsub E1 E. exists (started_by root env <$> l'). rw E E1. split; [done|].
    by eapply loop_authorised. }
  split_and!.
  - intros ->. apply Hend. unfold run_pre_publish. wp_step. eapply wp_mono; [apply wp_matching_hooks|].
    intros [l|e] s1 (Hs1 & _ & Hl); [|by apply Hsame]. eapply wp_mono; [apply wp_pre_loop|].
    intros r s2 (k & E & _). eapply (Hran _ l); [..|exact E]; [done..|by apply Hl|apply subseteq_take|done].
  - apply Hend, wp_post_hooks.
  - apply Hend. unfold run_manual. wp_step. eapply wp_mono; [apply wp_matching_hooks|].
    intros [l|e] s1 (Hs1 & _ & Hl); [|by apply Hsame]. eapply wp_mono; [apply wp_execute_all|].
    intros r s2 E. eapply (Hran _ l l); [..|exact E]; [done..|by apply Hl|done|done].
Qed.

(** A publish goes ahead only when every matching hook ran, in order, and succeeded; the
    first hook that fails, runs out of time or cannot be started stops it, and no later hook
    runs. *)
Theorem pre_publish_all_or_stop root project_id rel_path s r s' :
  run_pre_publish c root project_id rel_path s = (r, s') →
  let env := mk_Env PrePublish project_id rel_path None None in
  match matching_hooks c root PrePublish rel_path s with
  | (Err e, s1) => r = Err e ∧ s' = s1 ∧ started s' = started s
  | (Ok l, s1) =>
      ∃ k, started s' = started s ++ (started_by root env <$> take k l) ∧
        (∀ i x, l !! i = Some x → S i < k ∨ r = Ok () ∧ i < k →
           shell (started s ++ (started_by root env <$> take i l)) (started_by root env x) = Success) ∧
        (r = Ok () → k = length l) ∧
        (r ≠ Ok () → ∃ x, l !! (k - 1) = Some x ∧ 0 < k ∧
           shell (started s ++ (started_by root env <$> take (k - 1) l)) (started_by root env x) ≠ Success)
  end.
Proof.
  intros Hrun env. pose proof (wp_matching_hooks root PrePublish rel_path s) as Hm. unfold wp in Hm.
  unfold run_pre_publish, mbind, ST_bind in Hrun.
  destruct (matching_hooks c root PrePublish rel_path s) as [[l|e] s1]; destruct Hm as (Hs1 & _).
  - rw -Hs1. exact (wp_eq _ _ _ _ _ (wp_pre_loop root env l s1) Hrun).
  - by injection Hrun as <- <-.
Qed.
End properties.

(** ** A node that opted in, with one hook of its own and two of the project. *)
Module HooksWitness.
Definition mine : HookDef := mk_HookDef "pre-publish" "true" [] 60.
Definition bad : HookDef := mk_HookDef "pre-publish" "false" ["assets/**/*.png"] 60.
Definition late : HookDef := mk_HookDef "pre-publish" "touch x" [] 60.
#[export] Instance toml : TomlHooks := λ _, Some [bad; late].
#[export] Instance sh : Shell := {|
  shell := λ _ ex, if bool_decide (command (ex_def ex) = "false") then Failed (Some 1%Z) else Success;
  touches := λ _ _ d, d;
|}.
Definition c : HooksConfig := mk_HooksConfig true [mine].
Definition w : World := mk_World (list_to_map [
  (["p"], Dir); (["p"; META_DIR], Dir); (["p"; META_DIR; HOOKS_FILE], File [x61])]) [].
Definition s : HookWorld := mk_HookWorld w [].
End HooksWitness.
Import (hints) HooksWitness.

(** The project's failing hook stops the publish of a matching file; its later hook does not
    run. *)
Lemma pre_publish_all_or_stop_witness :
  let run := run_pre_publish HooksWitness.c ["p"] "proj" "assets/a/x.png" HooksWitness.s in
  run.1 = Err OtherIo ∧ (command ∘ ex_def <$> started run.2) = ["true"; "false"] ∧
  ∃ k, started run.2 = [] ++ (started_by ["p"] (mk_Env PrePublish "proj" "assets/a/x.png" None None) <$>
    take k [(Daemon, HooksWitness.mine); (ProjectFile, HooksWitness.bad); (ProjectFile, HooksWitness.late)]).
Proof.
  intros run. assert (Hrun : run.1 = Err OtherIo) by (vm_compute; reflexivity).
  split; [exact Hrun|]. split; [vm_compute; reflexivity|].
  pose proof (pre_publish_all_or_stop HooksWitness.c ["p"] "proj" "assets/a/x.png" HooksWitness.s run.1 run.2
    (surjective_pairing _)) as Hp. cbv zeta in Hp.
  assert (Hm : matching_hooks HooksWitness.c ["p"] PrePublish "assets/a/x.png" HooksWitness.s =
    (Ok [(Daemon, HooksWitness.mine); (ProjectFile, HooksWitness.bad); (ProjectFile, HooksWitness.late)], HooksWitness.s))
    by (vm_compute; reflexivity).
  rewrite Hm in Hp. destruct Hp as (k & Hk & _). exists k. exact Hk.
Defined.

Lemma hooks_run_only_authorised_witness :
  let run := run_pre_publish HooksWitness.c ["p"] "proj" "assets/a/x.png" HooksWitness.s in
  ∃ l, started run.2 = [] ++ l ∧
    Forall (authorised HooksWitness.c ["p"] PrePublish "assets/a/x.png" (disk HooksWitness.w)) l.
Proof.
  exact (proj1 (hooks_run_only_authorised HooksWitness.c ["p"] PrePublish "proj" "assets/a/x.png" 1 None HooksWitness.s)
    eq_refl).
Defined.
