(* ===== verification/Worktree.v ===== *)
(** * Status of the working tree

    [synergos-core/src/worktree_status.rs]: the files below a project root that are not
    ignored, found by a work list of directories, and their comparison with the manifest. *)

From Stdlib Require Import Strings.Ascii.
From S2P Require Import Prelude Crypto Types Transfer Fs FsPlain Manifest HistoryIndex StoreInv StoreOps Glob.

Definition IGNORE_FILE : string := ".synergosignore".
Definition ALWAYS_IGNORED : list string := [META_DIR; ".git"; IGNORE_FILE].

Record WorktreeStatus := mk_WorktreeStatus {
  modified : list string;
  untracked : list string;
  missing : list string;
  unchanged : nat;
}.

Definition publishable (s : WorktreeStatus) : list string := isort string_leb (modified s ++ untracked s).
Definition is_clean (s : WorktreeStatus) : bool :=
  bool_decide (modified s = []) && bool_decide (untracked s = []) && bool_decide (missing s = []).

(** ** Ignore patterns *)
Definition newline : ascii := "010"%char.
Definition hash_sign : char := [x23].

(** [str::lines]: a line feed ends a line, the last line may lack it; a carriage return before
    it goes too. *)
Definition lines (text : string) : list string :=
  let l := split_on newline text in
  let l := match last l with Some "" => take (length l - 1) l | _ => l end in
  (λ s, match strip_suffix (String.String "013"%char "") s with Some s' => s' | None => s end) <$> l.

(** The text of a list of characters. *)
Definition string_of_chars (l : list char) : string := String.string_of_list_byte (mjoin l).

Definition parse_ignore_patterns (text : string) : list string :=
  let trimmed := (λ l, trim (chars (as_bytes l))) <$> lines text in
  let kept := filter (λ l, l ≠ [] ∧ head l ≠ Some hash_sign) trimmed in
  (λ l, trim_slash (string_of_chars l)) <$> kept.

(** [&rel[..end]] for the index of every slash and for the end. *)
Fixpoint cuts (acc rest : string) : list string :=
  match rest with
  | EmptyString => [acc]
  | String.String c rest' =>
      (if bool_decide (c = "/"%char) then [acc] else [])
      ++ cuts (acc +:+ String.String c "") rest'
  end.

Definition is_ignored (rel : string) (patterns : list string) : bool :=
  bool_decide (default rel (head (split_on "/"%char rel)) ∈ ALWAYS_IGNORED)
  || existsb (λ prefix, existsb (λ p, glob_match p prefix) patterns) (cuts "" rel).

(** ** Scanning *)

(** A relative path as text. *)
Definition path_text (p : path) : string := String.concat "/" p.

Section scan.
Context `{DirOrder}.

(** [read_to_string] fails on text that is no UTF-8. *)
Definition load_ignore_patterns (root : path) : IO (list string) :=
  r ← try_ (read (root ++ [IGNORE_FILE]));
  match r with
  | Ok b => if utf8_valid b then mret (parse_ignore_patterns (String.string_of_list_byte b)) else throw InvalidData
  | Err NotFound => mret []
  | Err e => throw e
  end.

(** The entries of one directory; [rel] is its path below the root.  Directories are pushed on
    the work list, files on the result. *)
Definition scan_entry (root : path) (patterns : list string) (rel : path) (name : string)
    (acc : list path * list string) : IO (list path * list string) :=
  let text := normalize_rel_path (path_text (rel ++ [name])) in
  if is_ignored text patterns then mret acc
  else
    t ← file_type (root ++ rel ++ [name]);
    mret (match t with
          | Dir => ((rel ++ [name]) :: acc.1, acc.2)
          | File _ => (acc.1, acc.2 ++ [text])
          | Symlink _ => acc
          end).

(** [while let Some(dir) = pending.pop()]; [None] when the fuel runs out. *)
Fixpoint scan_loop (fuel : nat) (root : path) (patterns : list string) (pending : list path)
    (files : list string) : IO (option (list string)) :=
  match pending with
  | [] => mret (Some files)
  | rel :: pending =>
      match fuel with
      | O => mret None
      | S fuel =>
          names ← read_dir (root ++ rel);
          '(pending, files) ← for_entries (scan_entry root patterns rel) names (pending, files);
          scan_loop fuel root patterns pending files
      end
  end.

Definition scan_worktree_with_patterns (fuel : nat) (root : path) (patterns : list string) :
    IO (option (list string)) :=
  o ← scan_loop fuel root patterns [[]] [];
  mret (isort string_leb <$> o).

Definition scan_worktree (fuel : nat) (root : path) : IO (option (list string)) :=
  patterns ← load_ignore_patterns root;
  scan_worktree_with_patterns fuel root patterns.

Section compare.
Context `{Crc32, !Codec ProjectManifest}.

(** [root.join(rel)]. *)
Definition join_rel (root : path) (rel : string) : path := root ++ split_on "/"%char rel.

Definition compare_file (root : path) (m : ProjectManifest) (rel : string) (s : WorktreeStatus) :
    IO WorktreeStatus :=
  match get_entry m rel with
  | None => mret (mk_WorktreeStatus (modified s) (untracked s ++ [rel]) (missing s) (unchanged s))
  | Some e =>
      n ← metadata (join_rel root rel);
      let size := match n with File b => len b | _ => 0%N end in
      same ← (if (size =? me_size e)%N then
                '(crc, _) ← crc32_of_file (join_rel root rel); mret (crc =? me_crc e)%N
              else mret false);
      mret (if same : bool then mk_WorktreeStatus (modified s) (untracked s) (missing s) (S (unchanged s))
            else mk_WorktreeStatus (modified s ++ [rel]) (untracked s) (missing s) (unchanged s))
  end.

Fixpoint compare_files (root : path) (m : ProjectManifest) (files : list string) (s : WorktreeStatus) :
    IO WorktreeStatus :=
  match files with
  | [] => mret s
  | rel :: files' => s ← compare_file root m rel s; compare_files root m files' s
  end.

Definition compare_with_manifest (root : path) (m : ProjectManifest) (l : list string) : IO WorktreeStatus :=
  s ← compare_files root m l (mk_WorktreeStatus [] [] [] 0);
  mret (mk_WorktreeStatus (modified s) (untracked s)
    (filter (λ rel, rel ∉ l) (btree_iter (files m)).*1) (unchanged s)).

Definition worktree_status (fuel : nat) (root : path) (project_id : string) : IO (option WorktreeStatus) :=
  m ← manifest_load root project_id;
  patterns ← load_ignore_patterns root;
  o ← scan_worktree_with_patterns fuel root patterns;
  match o with
  | None => mret None
  | Some l =>
      s ← compare_with_manifest root m l;
      mret (Some (mk_WorktreeStatus (modified s) (untracked s)
        (filter (λ rel, is_ignored rel patterns = false) (missing s)) (unchanged s)))
  end.
End compare.
End scan.

(** ** Names and texts *)
Definition proper_name (c : string) : Prop :=
  c ≠ "" ∧ c ≠ "." ∧ c ≠ ".." ∧ contains_char "/"%char c = false ∧ contains_char "\"%char c = false.


Lemma string_app_nil (a : string) : a +:+ "" = a.
Proof. induction a as [|x a IH]; [done|]. change (String.String x (a +:+ "") = String.String x a). by rw IH. Qed.

Lemma path_text_cons c p : p ≠ [] → path_text (c :: p) = c +:+ "/" +:+ path_text p.
Proof. by destruct p. Qed.

Lemma path_text_snoc p c : p ≠ [] → path_text (p ++ [c]) = path_text p +:+ "/" +:+ c.
Proof.
  intros Hp. induction p as [|x p IH]; [done|]. destruct (decide (p = [])) as [->|Hne]; [done|].
  cbn [app]. rw path_text_cons; [by destruct p|]. rw IH // path_text_cons // !string_app_assoc. done.
Qed.

Lemma split_path_text p : p ≠ [] → Forall proper_name p → split_on "/"%char (path_text p) = p.
Proof.
  induction p as [|c p IH]; intros Hne Hp; [done|]. apply Forall_cons in Hp as [(_ & _ & _ & Hc & _) Hp].
  destruct (decide (p = [])) as [->|Hp']; [by apply split_on_single|].
  rw path_text_cons //. change (c +:+ "/" +:+ path_text p) with (c +:+ String.String "/"%char (path_text p)).
  rw split_on_app_sep //. by rw IH.
Qed.

Lemma map_char_id f s : (∀ c, contains_char c s = true → f c = c) → map_char f s = s.
Proof.
  induction s as [|x s IH]; intros Hf; [done|]. cbn [map_char]. rw Hf.
  - cbn. by rw bool_decide_eq_true_2.
  - f_equal. apply IH. intros c Hc. apply Hf. cbn. by rw Hc orb_true_r.
Qed.

Lemma contains_path_text c p :
  c ≠ "/"%char → Forall (λ s, contains_char c s = false) p → contains_char c (path_text p) = false.
Proof.
  intros Hc Hp. induction p as [|x p IH]; [done|]. apply Forall_cons in Hp as [Hx Hp].
  destruct (decide (p = [])) as [->|Hne]; [done|]. rw path_text_cons // !contains_char_app Hx. rw IH //.
  cbn. rw bool_decide_eq_false_2 //.
Qed.

Lemma normalize_path_text p : p ≠ [] → Forall proper_name p → normalize_rel_path (path_text p) = path_text p.
Proof.
  intros Hne Hp. unfold normalize_rel_path. rw map_char_id.
  { intros c Hc. rw bool_decide_eq_false_2 //. intros ->.
    rw contains_path_text // in Hc. eapply Forall_impl; [done|]. by intros x (_ & _ & _ & _ & ?). }
  destruct p as [|c p]; [done|]. apply Forall_cons in Hp as [(H1 & H2 & _ & H3 & _) _].
  destruct c as [|x c]; [done|]. cbn [contains_char] in H3. apply orb_false_iff in H3 as [Hx Hc]. bool_to_prop.
  assert (Hhead : ∃ t, path_text (String.String x c :: p) = String.String x t ∧ (x = "."%char → starts_with_char "/"%char t = false)).
  { destruct (decide (p = [])) as [->|Hp'].
    - exists c. split; [done|]. intros ->. destruct c as [|y c]; [done|]. cbn in Hc |- *. by apply orb_false_iff in Hc as [? _].
    - rw path_text_cons //. eexists. split; [done|]. intros ->. destruct c as [|y c]; [done|].
      cbn in Hc |- *. by apply orb_false_iff in Hc as [? _]. }
  destruct Hhead as (t & -> & Ht).
  assert (Hdot : trim_dot_slash (String.String x t) = String.String x t).
  { destruct x as [[] [] [] [] [] [] [] []]; try done. specialize (Ht eq_refl).
    destruct t as [|y t]; [done|]. destruct y as [[] [] [] [] [] [] [] []]; done. }
  rw Hdot. destruct x as [[] [] [] [] [] [] [] []]; done.
Qed.

(** ** What is ignored *)
Lemma elem_of_cuts acc rest s :
  s ∈ cuts acc rest ↔ s = acc +:+ rest ∨ ∃ u v, rest = u +:+ String.String "/"%char v ∧ s = acc +:+ u.
Proof.
  revert acc. induction rest as [|c rest IH]; intros acc; cbn [cuts].
  - rw list_elem_of_singleton string_app_nil. split; [by left|]. intros [?|(u & v & E & _)]; [done|]. by destruct u.
  - rw elem_of_app IH string_app_assoc.
    change (String.String c "" +:+ rest) with (String.String c rest). split.
    + intros [Hc|[->|(u & v & -> & ->)]]; [|by left|].
      * case_bool_decide; [|by apply elem_of_nil in Hc]. subst c. apply list_elem_of_singleton in Hc as ->.
        right. exists "", rest. by rw string_app_nil.
      * right. exists (String.String c u), v. split; [done|]. by rw string_app_assoc.
    + intros [->|(u & v & E & ->)]; [by right; left|]. destruct u as [|x u].
      * injection E as -> ->. left. rw bool_decide_eq_true_2 // string_app_nil. by apply list_elem_of_singleton.
      * injection E as -> ->. right. right. exists u, v. split; [done|]. by rw string_app_assoc.
Qed.

(** What is below an ignored directory is ignored. *)
Lemma is_ignored_below p c patterns :
  p ≠ [] → Forall proper_name (p ++ [c]) →
  is_ignored (path_text p) patterns = true → is_ignored (path_text (p ++ [c])) patterns = true.
Proof.
  intros Hne Hp. pose proof Hp as [Hp' _]%Forall_app. unfold is_ignored. rw !split_path_text //; [by destruct p|].
  intros [Ha|He]%orb_true_iff; apply orb_true_iff; [left; by destruct p|right].
  apply existsb_exists in He as (s & Hs & Hm). apply existsb_exists. exists s. split; [|done].
  apply list_elem_of_In. apply list_elem_of_In, elem_of_cuts in Hs. apply elem_of_cuts. right.
  rw path_text_snoc //. destruct Hs as [->|(u & v & E & ->)].
  - by exists (path_text p), c.
  - exists u, (v +:+ "/" +:+ c). split; [|done]. by rw E string_app_assoc.
Qed.

Lemma is_ignored_under p q patterns :
  p ≠ [] → Forall proper_name (p ++ q) →
  is_ignored (path_text p) patterns = true → is_ignored (path_text (p ++ q)) patterns = true.
Proof.
  intros Hne. induction q as [|c q IH] using rev_ind; intros Hp Hi; [by rw app_nil_r|].
  rw app_assoc in Hp |- *. apply is_ignored_below; [by destruct p|done|]. apply IH; [|done]. by apply Forall_app in Hp as [? _].
Qed.

(** ** The scan as a pure computation on the tree *)
Section pure_scan.
Context (root : path) (patterns : list string) (d : Fs).

Definition push_entry (rel : path) (acc : list path * list string) (c : string) : list path * list string :=
  let text := path_text (rel ++ [c]) in
  if is_ignored text patterns then acc
  else match d !! (root ++ rel ++ [c]) with
       | Some Dir => ((rel ++ [c]) :: acc.1, acc.2)
       | Some (File _) => (acc.1, acc.2 ++ [text])
       | _ => acc
       end.

Fixpoint pure_scan `{DirOrder} (fuel : nat) (pending : list path) (files : list string) : option (list string) :=
  match pending with
  | [] => Some files
  | rel :: pending =>
      match fuel with
      | O => None
      | S fuel =>
          let '(pending, files) := foldl (push_entry rel) (pending, files) (dir_order d (root ++ rel)) in
          pure_scan fuel pending files
      end
  end.

(** *** The work list shrinks *)
Definition below (rel : path) : gset path := filter (λ k, (root ++ rel) `prefix_of` k ∧ k ≠ root ++ rel) (dom d).
Definition weight (pending : list path) : nat := sum_list_with (λ p, S (size (below p))) pending.

(** The entries at and below the children of [rel] that are named in [cs]. *)
Definition below_names (rel : path) (cs : list string) : gset path :=
  filter (λ k, Exists (λ c, (root ++ rel ++ [c]) `prefix_of` k) cs) (dom d).

Lemma push_weight rel acc c :
  weight (push_entry rel acc c).1 ≤ weight acc.1 + size (below_names rel [c]).
Proof.
  unfold push_entry. destruct (is_ignored _ _); [lia|]. destruct (d !! _) as [[]|] eqn:E; cbn [fst]; try lia.
  unfold weight. cbn [sum_list_with]. cut (S (size (below (rel ++ [c]))) ≤ size (below_names rel [c])); [lia|].
  assert (Hin : root ++ rel ++ [c] ∉ below (rel ++ [c])) by (unfold below; set_solver).
  replace (S (size (below (rel ++ [c])))) with (size ({[root ++ rel ++ [c]]} ∪ below (rel ++ [c]))).
  2:{ rw size_union; [set_solver|]. by rw size_singleton. }
  apply subseteq_size. intros k. unfold below, below_names. rw elem_of_union elem_of_singleton !elem_of_filter Exists_cons Exists_nil.
  intros [->|[[? _] ?]]; (split; [left|]); [done|apply elem_of_dom; by rw E|by rw app_assoc in H |- *|done].
Qed.

Lemma below_names_cons rel c cs :
  c ∉ cs → size (below_names rel [c]) + size (below_names rel cs) = size (below_names rel (c :: cs)).
Proof.
  intros Hc. rw -size_union.
  - intros k [Hk _]%elem_of_filter [He _]%elem_of_filter. apply Exists_cons in Hk as [Hk|Hk]; [|by apply Exists_nil in Hk].
    apply Exists_exists in He as (c' & Hc' & Hk').
    assert (c = c'); [|by subst]. destruct Hk as [x ->], Hk' as [y E].
    rw -!app_assoc in E. do 2 apply app_inv_head in E. cbn in E. by injection E.
  - f_equal. apply set_eq. intros k. unfold below_names. rw elem_of_union !elem_of_filter !Exists_cons Exists_nil. naive_solver.
Qed.

Lemma fold_weight rel cs acc :
  NoDup cs → weight (foldl (push_entry rel) acc cs).1 ≤ weight acc.1 + size (below_names rel cs).
Proof.
  intros Hnd. revert acc. induction Hnd as [|c cs Hc Hnd IH]; intros acc; cbn [foldl]; [lia|].
  specialize (IH (push_entry rel acc c)). pose proof (push_weight rel acc c). pose proof (below_names_cons rel c cs Hc). lia.
Qed.

Lemma below_names_below rel cs : size (below_names rel cs) ≤ size (below rel).
Proof.
  apply subseteq_size. intros k. unfold below_names, below. rw !elem_of_filter Exists_exists.
  intros [(c & _ & [x ->]) ?]. split; [|done]. split; [exists (c :: x); by rw -!app_assoc|].
  intros E%(f_equal length). rw !length_app /= in E. lia.
Qed.

(** The pass over one directory. *)
Lemma push_all rel cs pending files :
  let acc := foldl (push_entry rel) (pending, files) cs in
  (∀ p, p ∈ acc.1 ↔ p ∈ pending ∨ ∃ c, c ∈ cs ∧ p = rel ++ [c] ∧
     is_ignored (path_text p) patterns = false ∧ d !! (root ++ p) = Some Dir) ∧
  (∀ t, t ∈ acc.2 ↔ t ∈ files ∨ ∃ c b, c ∈ cs ∧ t = path_text (rel ++ [c]) ∧
     is_ignored t patterns = false ∧ d !! (root ++ rel ++ [c]) = Some (File b)).
Proof.
  revert pending files. induction cs as [|c cs IH]; intros pending files; cbn [foldl]; cbv zeta.
  { cbn. split; intros x; split; try (by left); intros [?|(c & Hc)]; [done| |done|].
    - by destruct Hc as [Hc%elem_of_nil _].
    - by destruct Hc as (b & Hc%elem_of_nil & _). }
  destruct (push_entry rel (pending, files) c) as [pending' files'] eqn:E. cbv zeta in IH.
  destruct (IH pending' files') as [IH1 IH2]. unfold push_entry in E.
  destruct (is_ignored (path_text (rel ++ [c])) patterns) eqn:Hi.
  { injection E as <- <-. split; [intros p; rw IH1|intros t; rw IH2]; clear IH IH1 IH2; set_solver by congruence. }
  destruct (d !! (root ++ rel ++ [c])) as [[b| |tg]|] eqn:Ed; cbn [fst snd] in E; injection E as <- <-;
    (split; [intros p; rw IH1|intros t; rw IH2]); clear IH IH1 IH2.
  - set_solver by congruence.
  - set_solver by eauto.
  - set_solver by eauto.
  - set_solver by congruence.
  - set_solver by congruence.
  - set_solver by congruence.
  - set_solver by congruence.
  - set_solver by congruence.
Qed.

(** *** The scan is exact *)
Context `{DirOrder, !DirOrderLaws}.
Context (Hwf : tree_wf d) (Hnroot : normal root).
(** Names that a file system gives to entries. *)
Context (Hnames : ∀ p c n, d !! (root ++ p ++ [c]) = Some n → proper_name c).

Definition real_rel (rel : path) : Prop := real_dir d (root ++ rel) ∧ Forall proper_name rel.

Lemma NoDup_omap {A B} (f : A → option B) l :
  NoDup l → (∀ x y b, x ∈ l → y ∈ l → f x = Some b → f y = Some b → x = y) → NoDup (omap f l).
Proof.
  intros Hnd. induction Hnd as [|x l Hx Hnd IH]; intros Hf; cbn [omap list_omap]; [constructor|].
  assert (IH' : NoDup (omap f l)) by (apply IH; intros ? ? ? ? ?; apply Hf; by right).
  destruct (f x) as [b|] eqn:E; [|done]. constructor; [|done].
  intros (y & Hy & Hb)%list_elem_of_omap. rw (Hf x y b) // in Hx; [by left|by right].
Qed.

Lemma NoDup_names q : NoDup (dir_order d q).
Proof.
  rw dir_order_perm. apply NoDup_omap; [apply NoDup_map_to_list|].
  assert (Hk : ∀ k (n : node) c, (if bool_decide (parent (k, n).1 = q)
    then c ← last (k, n).1; if bool_decide (c = "..") then None else Some c else None) = Some c → k = q ++ [c]).
  { intros k n c. cbn [fst]. case_bool_decide as Hp; [|done]. intros (c' & Hl & Hc)%bind_Some.
    case_bool_decide; [done|]. injection Hc as ->. destruct k as [|x k _] using rev_ind; [done|].
    rw last_snoc in Hl. injection Hl as ->. by rw -Hp parent_snoc. }
  intros [k n] [k' n'] c Hx Hy Ex%Hk Ey%Hk. subst k k'. apply elem_of_map_to_list in Hx, Hy. congruence.
Qed.

(** The regular files below [rel] that are not ignored. *)
Definition listed (rel : path) (t : string) : Prop :=
  ∃ q b, q ≠ [] ∧ d !! (root ++ rel ++ q) = Some (File b) ∧ t = path_text (rel ++ q) ∧ is_ignored t patterns = false.

Lemma names_of rel c : real_rel rel → c ∈ dir_order d (root ++ rel) ↔ ∃ n, d !! (root ++ rel ++ [c]) = Some n.
Proof.
  intros _. rw dir_order_perm elem_of_children -app_assoc. split; [by intros [_ ?]|]. intros [n Hn]. split; [|by exists n].
  by destruct (Hnames rel c n Hn) as (_ & _ & ? & _).
Qed.

Lemma real_rel_snoc rel c : real_rel rel → d !! (root ++ rel ++ [c]) = Some Dir → real_rel (rel ++ [c]).
Proof.
  intros [Hr Hp] Hd. split; [rw app_assoc in Hd |- *; by apply real_dir_snoc|].
  apply Forall_app. split; [done|]. apply Forall_singleton. by eapply Hnames.
Qed.

Lemma proper_below rel q n : Forall proper_name rel → d !! (root ++ rel ++ q) = Some n → Forall proper_name (rel ++ q).
Proof.
  intros Hp. revert n. induction q as [|c q IH] using rev_ind; intros n Hn; [by rw app_nil_r|].
  rw app_assoc. apply Forall_app. split.
  - destruct q as [|x q _] using rev_ind; [by rw app_nil_r|]. rw !app_assoc in Hn. apply Hwf in Hn.
    eapply (IH Dir). rw node_at_snoc in Hn. by rw !app_assoc.
  - apply Forall_singleton. eapply (Hnames (rel ++ q)). by rw -app_assoc.
Qed.

(** One level of [listed]. *)
Lemma listed_step rel t :
  real_rel rel →
  listed rel t ↔ ∃ c, is_ignored (path_text (rel ++ [c])) patterns = false ∧
    ((∃ b, d !! (root ++ rel ++ [c]) = Some (File b)) ∧ t = path_text (rel ++ [c]) ∨
     d !! (root ++ rel ++ [c]) = Some Dir ∧ listed (rel ++ [c]) t).
Proof.
  intros [Hr Hp]. split.
  - intros ([|c q] & b & Hne & Hb & -> & Hi); [done|]. exists c.
    assert (Hpc : Forall proper_name (rel ++ c :: q)) by by eapply proper_below.
    assert (Hic : is_ignored (path_text (rel ++ [c])) patterns = false).
    { apply not_true_is_false. intros Ht. rw cons_middle app_assoc in Hpc, Hi.
      apply (is_ignored_under _ q) in Ht; [congruence|by destruct rel|done]. }
    split; [done|]. destruct q as [|x q _] using rev_ind; [left; by eauto|]. right. split.
    + rw (cons_middle c) !app_assoc in Hb. apply tree_wf_real_dir in Hb; [|done].
      apply (real_dir_app_l _ ((root ++ rel) ++ [c]) q) in Hb. rw app_assoc. by apply real_dir_snoc in Hb as [_ ?].
    + exists (q ++ [x]), b. rw -!(app_assoc rel [c]). split_and!; [by destruct q|done..].
  - intros (c & Hi & [[[b Hb] ->]|[Hd (q & b & Hne & Hb & -> & Hi')]]).
    + by exists [c], b.
    + rw -!app_assoc in Hb, Hi' |- *. by exists (c :: q), b.
Qed.

(** The scan stops, and lists exactly the files below the directories it started with. *)
Lemma pure_scan_exact fuel pending files :
  weight pending ≤ fuel → Forall real_rel pending →
  ∃ out, pure_scan fuel pending files = Some out ∧
    ∀ t, t ∈ out ↔ t ∈ files ∨ ∃ p, p ∈ pending ∧ listed p t.
Proof.
  revert pending files. induction fuel as [|fuel IH]; intros [|rel pending] files Hw Hr; cbn [pure_scan].
  - exists files. split; [done|]. set_solver.
  - unfold weight in Hw. cbn in Hw. lia.
  - exists files. split; [done|]. set_solver.
  - apply Forall_cons in Hr as [Hrel Hr].
    pose proof (fold_weight rel (dir_order d (root ++ rel)) (pending, files) (NoDup_names _)) as Hfw.
    pose proof (below_names_below rel (dir_order d (root ++ rel))) as Hbn.
    pose proof (push_all rel (dir_order d (root ++ rel)) pending files) as [Hp Hf]. cbn [fst] in Hfw.
    destruct (foldl (push_entry rel) (pending, files) (dir_order d (root ++ rel))) as [pending' files'].
    cbn [fst snd] in Hp, Hf, Hfw. destruct (IH pending' files') as (out & Hout & Hex).
    + unfold weight in Hw, Hfw |- *. cbn [sum_list_with] in Hw. lia.
    + apply Forall_forall. intros p [Hin|(c & _ & -> & _ & Hd)]%Hp.
      * rw Forall_forall in Hr. by apply Hr.
      * by apply real_rel_snoc.
    + exists out. split; [done|]. intros t. rw Hex Hf. split.
      * intros [[?|(c & b & _ & -> & Hi & Hb)]|(p & Hpin & Hl)]; [by left| |].
        -- right. exists rel. split; [by left|]. apply listed_step; [done|]. exists c. split; [done|]. left. eauto.
        -- apply Hp in Hpin as [Hpin|(c & _ & -> & Hi & Hd)]; [right; exists p; by split; [right|]|].
           right. exists rel. split; [by left|]. apply listed_step; [done|]. exists c. split; [done|]. by right.
      * intros [?|(p & [->|Hpin]%elem_of_cons & Hl)]; [by left; left| |].
        2:{ right. exists p. split; [apply Hp; by left|done]. }
        apply listed_step in Hl as (c & Hi & [[[b Hb] ->]|[Hd Hl]]); [| |done].
        -- left. right. exists c, b. split_and!; [|done..]. apply names_of; [done|by eexists].
        -- right. exists (rel ++ [c]). split; [|done]. apply Hp. right. exists c. split_and!; [|done..].
           apply names_of; [done|by eexists].
Qed.
End pure_scan.

(** ** The scan of the code *)

(** A query, with what it does when no operation fails. *)
Lemma wp_query_total {A : Type} (op : Fs → result IoError A) (Q : result IoError A → World → Prop) w :
  Q (op (disk w)) (mk_World (disk w) (tail (faults w))) →
  (faults w ≠ [] → Q (Err OtherIo) (mk_World (disk w) (tail (faults w)))) → wp (query op) Q w.
Proof.
  intros H1 H2. unfold wp, query, effect, next_fault. destruct w as [d [|[k|] f]]; cbn in *.
  - by destruct (op d).
  - by apply H2.
  - by destruct (op d).
Qed.

Section io_scan.
Context `{DirOrder, !DirOrderLaws} (root : path) (patterns : list string) (d : Fs).
Context (Hwf : tree_wf d) (Hnroot : normal root).
Context (Hnames : ∀ p c n, d !! (root ++ p ++ [c]) = Some n → proper_name c).

(** The outcome is [out], or an error when some operation failed. *)
Definition total_as {A} (f0 : list (option nat)) (out : A) (r : result IoError A) (w : World) : Prop :=
  disk w = d ∧ (faults w ≠ [] → f0 ≠ []) ∧ (r = Ok out ∨ f0 ≠ [] ∧ ∃ e, r = Err e).

Lemma tail_faults (f0 f : list (option nat)) : (f ≠ [] → f0 ≠ []) → tail f ≠ [] → f0 ≠ [].
Proof. intros Hf Ht. apply Hf. by intros ->. Qed.

Lemma wp_scan_entry f0 rel c n acc w :
  real_rel root d rel → d !! (root ++ rel ++ [c]) = Some n → disk w = d → (faults w ≠ [] → f0 ≠ []) →
  wp (scan_entry root patterns rel c acc) (total_as f0 (push_entry root patterns d rel acc c)) w.
Proof.
  intros [Hr Hp] Hn Hw Hf. unfold scan_entry, push_entry.
  pose proof (Hnames rel c n Hn) as Hc. rw normalize_path_text; [by destruct rel|by apply Forall_app; rw Forall_singleton|].
  destruct (is_ignored _ _); [wp_step; by split_and!; [..|left]|].
  wp_step. unfold file_type, symlink_metadata. apply wp_query_total.
  - rw Hw. rw app_assoc in Hn |- *. rw symlink_metadata_entry //.
    + unfold normal in *. rw elem_of_app. intros [?|Hin]; [done|]. rw Forall_forall in Hp. by destruct (Hp _ Hin) as (_ & _ & ? & _).
    + by destruct Hc as (_ & _ & ? & _).
    + rw Hn. cbn [ok_or]. wp_step. split_and!; [done|cbn; by apply tail_faults|left]. by destruct n.
  - intros Hff. split_and!; [done|cbn; by apply tail_faults|right]. split; [by apply Hf|by eexists].
Qed.

Lemma wp_scan_entries f0 rel cs acc w :
  real_rel root d rel → (∀ c, c ∈ cs → ∃ n, d !! (root ++ rel ++ [c]) = Some n) → disk w = d → (faults w ≠ [] → f0 ≠ []) →
  wp (for_entries (scan_entry root patterns rel) cs acc)
    (total_as f0 (foldl (push_entry root patterns d rel) acc cs)) w.
Proof.
  intros Hr. revert acc w. induction cs as [|c cs IH]; intros acc w Hcs Hw Hf; cbn [for_entries foldl].
  - wp_step. apply wp_query_total.
    + wp_step. split_and!; [done|cbn; by apply tail_faults|by left].
    + intros Hff. split_and!; [done|cbn; by apply tail_faults|right; split; [by apply Hf|by eexists]].
  - wp_step. apply wp_query_total.
    2:{ intros Hff. split_and!; [done|cbn; by apply tail_faults|right; split; [by apply Hf|by eexists]]. }
    destruct (Hcs c) as [n Hn]; [by left|]. wp_step.
    eapply wp_mono; [eapply wp_scan_entry; [done|done|done|cbn; by apply tail_faults]|].
    intros r w1 (Hw1 & Hf1 & [->|[Hff [e ->]]]).
    + apply IH; [|done|done]. intros c' Hc'. apply Hcs. by right.
    + split_and!; [done..|right]. split; [done|by eexists].
Qed.

Lemma wp_scan_loop f0 fuel pending files w :
  Forall (real_rel root d) pending → disk w = d → (faults w ≠ [] → f0 ≠ []) →
  wp (scan_loop fuel root patterns pending files)
    (total_as f0 (pure_scan root patterns d fuel pending files)) w.
Proof.
  revert pending files w. induction fuel as [|fuel IH]; intros [|rel pending] files w Hr Hw Hf;
    cbn [scan_loop pure_scan]; try (wp_step; by split_and!; [..|left]).
  apply Forall_cons in Hr as [Hrel Hr]. wp_step. unfold read_dir. apply wp_query_total.
  2:{ intros Hff. split_and!; [done|cbn; by apply tail_faults|right; split; [by apply Hf|by eexists]]. }
  assert (Hrd : read_dir_at (disk w) (root ++ rel) = Ok (dir_order d (root ++ rel))).
  { rw Hw. unfold read_dir_at. destruct Hrel as [Hrd Hp]. rw canonicalize_real_dir //.
    - unfold normal in *. rw elem_of_app. intros [?|Hin]; [done|]. rw Forall_forall in Hp. by destruct (Hp _ Hin) as (_ & _ & ? & _).
    - cbn. unfold is_dir_at. rw bool_decide_eq_true_2 //. by apply real_dir_at. }
  rw Hrd. wp_step. eapply wp_mono; [eapply (wp_scan_entries f0); [done| |done|cbn; by apply tail_faults]|].
  { intros c Hc. by apply (names_of root d Hnames) in Hc. }
  intros r w1 (Hw1 & Hf1 & [->|[Hff [e ->]]]); [|split_and!; [done..|right; split; [done|by eexists]]].
  pose proof (push_all root patterns d rel (dir_order d (root ++ rel)) pending files) as [Hp _].
  destruct (foldl _ _ _) as [pending' files'] eqn:E. apply IH; [|done|done].
  apply Forall_forall. intros p Hin. cbn [fst] in Hp. apply Hp in Hin as [Hin|(c & _ & -> & _ & Hd)].
  - rw Forall_forall in Hr. by apply Hr.
  - by apply (real_rel_snoc root d Hnames).
Qed.

(** C36: The scan of a tree always stops, after at most one round per entry.  Without a failing
    operation it returns the regular files below the root that are not ignored, in order: each
    file whose path and whose directories match no pattern, and nothing else.  An operation
    that fails makes it return an error, never part of a list. *)
Theorem scan_terminates_exact w :
  disk w = d → real_dir d root →
  ∃ out, StronglySorted (λ a b, string_leb a b = true) out ∧
    (∀ t, t ∈ out ↔ ∃ segs b, segs ≠ [] ∧ d !! (root ++ segs) = Some (File b) ∧ t = path_text segs ∧
       is_ignored t patterns = false) ∧
    let r := (scan_worktree_with_patterns (S (size d)) root patterns w).1 in
    (r = Ok (Some out) ∨ faults w ≠ [] ∧ ∃ e, r = Err e).
Proof.
  intros Hw Hroot. assert (Hr : real_rel root d []) by (split; [by rw app_nil_r|constructor]).
  destruct (pure_scan_exact root patterns d Hwf Hnroot Hnames (S (size d)) [[]] []) as (files & Hscan & Hex).
  { unfold weight. cbn. rw Nat.add_0_r. apply le_n_S. rw -size_dom. apply subseteq_size. intros k. unfold below.
    by intros [_ ?]%elem_of_filter. }
  { by constructor. }
  exists (isort string_leb files). split_and!.
  - apply isort_sorted; [intros x y; apply bytes_leb_total|apply string_leb_trans].
  - intros t. rw isort_perm Hex. split.
    + intros [Ht%elem_of_nil|(p & ->%list_elem_of_singleton & segs & b & ?)]; [done|]. by exists segs, b.
    + intros (segs & b & ?). right. exists []. split; [by left|]. by exists segs, b.
  - cut (wp (scan_worktree_with_patterns (S (size d)) root patterns)
      (λ r _, r = Ok (Some (isort string_leb files)) ∨ faults w ≠ [] ∧ ∃ e, r = Err e) w).
    { unfold wp. by destruct (scan_worktree_with_patterns _ _ _ _). }
    unfold scan_worktree_with_patterns. wp_step.
    eapply wp_mono; [apply (wp_scan_loop (faults w)); [by constructor|done|done]|].
    intros r w1 (_ & _ & [->|[Hf [e ->]]]); [wp_step; rw Hscan; by left|by right; split; [|eexists]].
Qed.
End io_scan.

(** ** Comparison with the manifest *)
Inductive FileState := Untracked | Changed | Same.
Global Instance FileState_eq_dec : EqDecision FileState.
Proof. solve_decision. Defined.

Section compare_exact.
Context `{Crc32} (root : path) (m : ProjectManifest).

(** How a file compares with its entry, from its whole content. *)
Definition file_state (d : Fs) (rel : string) : FileState :=
  match files m !! rel, read_at d (join_rel root rel) with
  | None, _ => Untracked
  | Some e, Ok b => if bool_decide (len b = me_size e ∧ crc32 b = me_crc e) then Same else Changed
  | Some _, Err _ => Changed
  end.

Definition files_in (d : Fs) (st : FileState) (l : list string) : list string :=
  filter (λ rel, file_state d rel = st) l.

Lemma wp_compare_file d rel s w :
  disk w = d → (∃ b, metadata_at d (join_rel root rel) = Ok (File b)) →
  wp (compare_file root m rel s) (λ r w', disk w' = d ∧ ∀ s', r = Ok s' →
    s' = mk_WorktreeStatus (modified s ++ files_in d Changed [rel]) (untracked s ++ files_in d Untracked [rel])
           (missing s) (unchanged s + length (files_in d Same [rel]))) w.
Proof.
  intros Hw [b Hb]. assert (Hread : read_at d (join_rel root rel) = Ok b) by (unfold read_at; by rw Hb).
  assert (Hstate : ∀ st st', file_state d rel = st → files_in d st' [rel] = if decide (st = st') then [rel] else []).
  { intros st st' E. unfold files_in. destruct (decide (st = st')) as [<-|Hne].
    - by rw filter_cons_True // filter_nil.
    - rw filter_cons_False ?filter_nil //. congruence. }
  assert (Hout : ∀ st s', file_state d rel = st →
    s' = match st with
         | Untracked => mk_WorktreeStatus (modified s) (untracked s ++ [rel]) (missing s) (unchanged s)
         | Changed => mk_WorktreeStatus (modified s ++ [rel]) (untracked s) (missing s) (unchanged s)
         | Same => mk_WorktreeStatus (modified s) (untracked s) (missing s) (S (unchanged s))
         end →
    s' = mk_WorktreeStatus (modified s ++ files_in d Changed [rel]) (untracked s ++ files_in d Untracked [rel])
           (missing s) (unchanged s + length (files_in d Same [rel]))).
  { intros st s' E ->. rw !(Hstate st _ E). destruct st; cbn; rw ?app_nil_r ?Nat.add_0_r ?Nat.add_1_r //. }
  unfold compare_file, get_entry. destruct (files m !! rel) as [e|] eqn:He.
  2:{ wp_step. split; [done|]. intros s' [= <-]. apply (Hout Untracked); [|done]. unfold file_state. by rw He. }
  wp_step. apply wp_query. intros r w1 Hw1 Hr. destruct r as [n|]; [|by rw Hw1].
  destruct Hr as [Hr|?]; [|done]. rw Hw Hb in Hr. injection Hr as ->.
  wp_step. destruct (len b =? me_size e)%N eqn:Hsz; bool_to_prop.
  - wp_step. unfold crc32_of_file. wp_step. apply wp_query. intros r w2 Hw2 Hr. destruct r as [b'|]; [|by rw Hw2 Hw1].
    destruct Hr as [Hr|?]; [|done]. rw Hw1 Hw Hread in Hr. injection Hr as ->. wp_step. rw crc32_of_chunks.
    cbv beta iota. wp_step. wp_step. rw Hw2 Hw1. split; [done|]. intros s' [= <-].
    destruct (crc32 b =? me_crc e)%N eqn:Hcrc; bool_to_prop.
    + apply (Hout Same); [|done]. unfold file_state. by rw He Hread bool_decide_eq_true_2.
    + apply (Hout Changed); [|done]. unfold file_state. rw He Hread bool_decide_eq_false_2 //. by intros [_ ?].
  - wp_step. wp_step. rw Hw1. split; [done|]. intros s' [= <-]. apply (Hout Changed); [|done].
    unfold file_state. rw He Hread bool_decide_eq_false_2 //. by intros [? _].
Qed.

Lemma wp_compare_files d l s w :
  disk w = d → (∀ rel, rel ∈ l → ∃ b, metadata_at d (join_rel root rel) = Ok (File b)) →
  wp (compare_files root m l s) (λ r w', disk w' = d ∧ ∀ s', r = Ok s' →
    s' = mk_WorktreeStatus (modified s ++ files_in d Changed l) (untracked s ++ files_in d Untracked l)
           (missing s) (unchanged s + length (files_in d Same l))) w.
Proof.
  revert s w. induction l as [|rel l IH]; intros s w Hw Hl; cbn [compare_files].
  { wp_step. split; [done|]. intros s' [= <-]. unfold files_in. rw !filter_nil !app_nil_r Nat.add_0_r. by destruct s. }
  wp_step. eapply wp_mono; [apply wp_compare_file; [done|apply Hl; by left]|].
  intros [s1|e] w1 [Hw1 Hs1]; [|done]. rw (Hs1 s1 eq_refl).
  eapply wp_mono; [apply IH; [done|]; intros ? ?; apply Hl; by right|].
  intros r w2 [Hw2 Hs2]. split; [done|]. intros s' E. rw (Hs2 s' E). cbn [modified untracked missing unchanged].
  unfold files_in. change (rel :: l) with ([rel] ++ l). rw !filter_app !length_app !app_assoc. f_equal. lia.
Qed.

(** The comparison reports exactly what differs: the listed files whose size or checksum is
    not the manifest's, those without an entry, and the entries that were not listed; each in
    the order of the list, or of the manifest. *)
Theorem compare_with_manifest_exact l w s w' :
  (∀ rel, rel ∈ l → ∃ b, metadata_at (disk w) (join_rel root rel) = Ok (File b)) →
  compare_with_manifest root m l w = (Ok s, w') →
  modified s = files_in (disk w) Changed l ∧ untracked s = files_in (disk w) Untracked l ∧
  unchanged s = length (files_in (disk w) Same l) ∧
  (∀ rel, rel ∈ missing s ↔ is_Some (files m !! rel) ∧ rel ∉ l).
Proof.
  intros Hl Hrun. apply bind_inv in Hrun as [(s1 & w1 & Hc & Hret)|(e & _ & ?)]; [|done].
  destruct (wp_eq _ _ _ _ _ (wp_compare_files (disk w) l _ w eq_refl Hl) Hc) as [_ Hs1].
  rw (Hs1 s1 eq_refl) in Hret. injection Hret as <- _. cbn. split_and!; [done..|].
  intros rel. rw list_elem_of_filter list_elem_of_fmap. split.
  - intros [Hn ([r e] & -> & Hin%elem_of_btree_iter)]. split; [by eexists|done].
  - intros [[e He] Hn]. split; [done|]. exists (rel, e). split; [done|]. by apply elem_of_btree_iter.
Qed.
End compare_exact.

(** ** A small working tree *)
Module WorktreeWitness.
#[export] Existing Instance Toy.toy_crc32.
#[export] Instance order : DirOrder := children.
#[export] Instance order_laws : DirOrderLaws.
Proof. by intros fs q. Qed.

Definition d : Fs := list_to_map [
  (["w"], Dir); (["w"; "a.txt"], File [x61]); (["w"; "b.tmp"], File [x62]);
  (["w"; "build"], Dir); (["w"; "build"; "out"], File [x63]);
  (["w"; "src"], Dir); (["w"; "src"; "x.c"], File [x64])].
Definition patterns : list string := ["build"; "*.tmp"].
Definition manifest : ProjectManifest := mk_ProjectManifest 1 "p" (list_to_map [
  ("a.txt", mk_ManifestEntry 1 1 (crc32 [x61]) 0 "me"); ("src/x.c", mk_ManifestEntry 1 1 0 0 "me");
  ("gone", mk_ManifestEntry 1 1 0 0 "me")]).
End WorktreeWitness.
Import (hints) WorktreeWitness.

Lemma scan_terminates_exact_witness :
  (scan_worktree_with_patterns (S (size WorktreeWitness.d)) ["w"] WorktreeWitness.patterns
     (mk_World WorktreeWitness.d [])).1 = Ok (Some ["a.txt"; "src/x.c"]) ∧
  ∃ out : list string, ("src/x.c" ∈ out ↔ ∃ segs b, segs ≠ [] ∧ WorktreeWitness.d !! (["w"] ++ segs) = Some (File b) ∧
    "src/x.c" = path_text segs ∧ is_ignored "src/x.c" WorktreeWitness.patterns = false).
Proof.
  split; [vm_compute; reflexivity|].
  destruct (scan_terminates_exact ["w"] WorktreeWitness.patterns WorktreeWitness.d) with (w := mk_World WorktreeWitness.d [])
    as (out & _ & Hex & _).
  - intros p c n Hp.
    assert (Hall : forallb (λ x, bool_decide (node_at WorktreeWitness.d (parent x.1) = Some Dir)) (map_to_list WorktreeWitness.d) = true)
      by (vm_compute; reflexivity).
    rewrite forallb_forall in Hall. specialize (Hall (p ++ [c], n)).
    rewrite -list_elem_of_In elem_of_map_to_list in Hall. specialize (Hall Hp). cbn [fst] in Hall.
    rewrite parent_snoc in Hall. exact (bool_decide_eq_true_1 _ Hall).
  - apply (bool_decide_eq_true_1 _). vm_compute. reflexivity.
  - intros p c n Hp.
    assert (Hall : forallb (λ x, match last x.1 with
        | Some c => negb (bool_decide (c = "")) && negb (bool_decide (c = ".")) && negb (bool_decide (c = ".."))
                    && negb (contains_char "/"%char c) && negb (contains_char "\"%char c)
        | None => true end) (map_to_list WorktreeWitness.d) = true) by (vm_compute; reflexivity).
    rewrite forallb_forall in Hall. specialize (Hall (["w"] ++ p ++ [c], n)).
    rewrite -list_elem_of_In elem_of_map_to_list in Hall. specialize (Hall Hp). cbn [fst] in Hall.
    rewrite app_assoc last_snoc in Hall. bool_to_prop. by split_and!.
  - reflexivity.
  - intros [|[|k]]; reflexivity.
  - exists out. exact (Hex "src/x.c").
Defined.

Lemma compare_with_manifest_exact_witness :
  let run := compare_with_manifest ["w"] WorktreeWitness.manifest ["a.txt"; "src/x.c"; "z"] (mk_World
    (<[["w"; "z"] := File []]> WorktreeWitness.d) []) in
  run.1 = Ok (mk_WorktreeStatus ["src/x.c"] ["z"] ["gone"] 1) ∧
  modified (mk_WorktreeStatus ["src/x.c"] ["z"] ["gone"] 1) =
    files_in ["w"] WorktreeWitness.manifest (<[["w"; "z"] := File []]> WorktreeWitness.d) Changed ["a.txt"; "src/x.c"; "z"].
Proof.
  intros run. assert (Hrun : run.1 = Ok (mk_WorktreeStatus ["src/x.c"] ["z"] ["gone"] 1)) by (vm_compute; reflexivity).
  split; [exact Hrun|].
  destruct (compare_with_manifest_exact ["w"] WorktreeWitness.manifest ["a.txt"; "src/x.c"; "z"]
    (mk_World (<[["w"; "z"] := File []]> WorktreeWitness.d) []) (mk_WorktreeStatus ["src/x.c"] ["z"] ["gone"] 1) run.2)
    as [Hm _].
  - intros rel Hrel. repeat (apply elem_of_cons in Hrel as [->|Hrel]; [eexists; vm_compute; reflexivity|]).
    exfalso. exact (not_elem_of_nil _ Hrel).
  - rewrite -Hrun. apply surjective_pairing.
  - exact Hm.
Defined.
