(* ===== verification/Exchange.v ===== *)
(** * The exchange

    [synergos-core/src/exchange/mod.rs] and [history_hooks.rs]: the table of transfers, the
    files a node offers, the versions a checkout has asked for, and the handlers of wants and
    offers that arrive by gossip.  One operation is one step; what the code hands to
    [tokio::spawn] is a [Task] in the state, which may run at any later time.  [now] is the
    clock, read once per operation; [TransferId::generate] and [ChunkId::generate] are
    arguments.  [emit] on the event bus appends to [bus]. *)

From S2P Require Import Prelude Crypto Types Identity Ledger Catalog Gossip Content Fs.

Definition PINNED_FETCH_TTL_MS : N := 5 * 60 * 1000.

Inductive TransferPriority := Prefetch | Background | Interactive.
Inductive TransferDirection := Send | Receive.
Global Instance TransferDirection_eq_dec : EqDecision TransferDirection.
Proof. solve_decision. Defined.

(** [TransferState]; the initials keep apart the states of a ledger entry. *)
Inductive TransferState := TQueued | TRunning | TPaused | TCompleted | TFailed (reason : string) | TCancelled.
Global Instance TransferState_eq_dec : EqDecision TransferState.
Proof. solve_decision. Defined.

Record ShareRequest := mk_ShareRequest {
  sr_project_id : string;
  sr_file_id : FileId;
  sr_file_path : path;
  sr_file_size : N;
  sr_crc : N;
  sr_priority : TransferPriority;
  sr_target_peer : option PeerId;
  sr_version : N;
}.

Record FetchRequest := mk_FetchRequest {
  fr_project_id : string;
  fr_file_id : FileId;
  fr_source_peer : option PeerId;
  fr_priority : TransferPriority;
  fr_version : N;
}.

Record ActiveTransfer := mk_ActiveTransfer {
  at_transfer_id : TransferId;
  at_project_id : string;
  at_file_id : FileId;
  at_file_name : string;
  at_file_size : N;
  at_bytes_transferred : N;
  at_speed_bps : N;
  at_direction : TransferDirection;
  at_peer_id : PeerId;
  at_state : TransferState;
  at_priority : TransferPriority;
  at_version : N;
}.

Record PublishNotification := mk_PublishNotification {
  pn_project_id : string;
  pn_file_id : FileId;
  pn_file_path : path;
  pn_file_size : N;
  pn_crc : N;
  pn_version : N;
}.

(** [FileSharingError]; an I/O error keeps its kind, messages their static text. *)
Inductive FileSharingError :=
| SFileNotFound (file : string)
| STransferNotFound (id : TransferId)
| SNetworkError (msg : string)
| SIoError (e : IoError).

Record SharedFileRecord := mk_SharedFileRecord {
  sf_project_id : string;
  sf_file_path : path;
  sf_file_size : N;
  sf_crc : N;
  sf_version : N;
}.

Record PinnedFetch := mk_PinnedFetch {
  pf_version : N;
  pf_expires_at : N;
  pf_expected_size_crc : option (N * N);
}.

Record ArchiveRequest := mk_ArchiveRequest {
  ar_project_id : string;
  ar_file_id : FileId;
  ar_version : N;
  ar_size : N;
  ar_crc : N;
  ar_publisher : string;
  ar_source : string;
  ar_path : path;
}.

Record HistoryHit := mk_HistoryHit { hit_path : path; hit_size : N; hit_crc : N }.

Inductive TransferEvent :=
| TransferCompletedEvent (id : TransferId) (file_name file_path : string)
| TransferProgressEvent (id : TransferId) (file_name : string) (bytes_transferred total_bytes speed_bps : N).

(** What is spawned: the bodies passed to [tokio::spawn] with the variables they capture. *)
Inductive Task :=
| TaskShareAndSend (req : ShareRequest)
| TaskServeFromHistory (project_id : string) (requester : PeerId) (file_id : FileId) (version : N)
| TaskSendAfterShare (req : ShareRequest) (id : TransferId)
| TaskPostReceive (project_id : string) (file_id : FileId) (version : N) (sender : PeerId).

Record Exchange := mk_Exchange {
  transfers : gmap TransferId ActiveTransfer;
  ledger : TransferLedger;
  ex_gossip : option GossipNode;
  quic_attached : bool;
  history_attached : bool;
  shared_files : gmap (string * FileId) SharedFileRecord;
  local_peer_id : PeerId;
  content_store : option MemoryContentStore;
  pinned_fetches : gmap (string * FileId) PinnedFetch;
  bus : list TransferEvent;
  tasks : list Task;
}.

Definition set_transfers x (e : Exchange) : Exchange :=
  mk_Exchange x (ledger e) (ex_gossip e) (quic_attached e) (history_attached e) (shared_files e)
    (local_peer_id e) (content_store e) (pinned_fetches e) (bus e) (tasks e).
Definition set_ledger x (e : Exchange) : Exchange :=
  mk_Exchange (transfers e) x (ex_gossip e) (quic_attached e) (history_attached e) (shared_files e)
    (local_peer_id e) (content_store e) (pinned_fetches e) (bus e) (tasks e).
Definition set_gossip x (e : Exchange) : Exchange :=
  mk_Exchange (transfers e) (ledger e) x (quic_attached e) (history_attached e) (shared_files e)
    (local_peer_id e) (content_store e) (pinned_fetches e) (bus e) (tasks e).
Definition set_shared x (e : Exchange) : Exchange :=
  mk_Exchange (transfers e) (ledger e) (ex_gossip e) (quic_attached e) (history_attached e) x
    (local_peer_id e) (content_store e) (pinned_fetches e) (bus e) (tasks e).
Definition set_store x (e : Exchange) : Exchange :=
  mk_Exchange (transfers e) (ledger e) (ex_gossip e) (quic_attached e) (history_attached e) (shared_files e)
    (local_peer_id e) x (pinned_fetches e) (bus e) (tasks e).
Definition set_pins x (e : Exchange) : Exchange :=
  mk_Exchange (transfers e) (ledger e) (ex_gossip e) (quic_attached e) (history_attached e) (shared_files e)
    (local_peer_id e) (content_store e) x (bus e) (tasks e).
Definition emit x (e : Exchange) : Exchange :=
  mk_Exchange (transfers e) (ledger e) (ex_gossip e) (quic_attached e) (history_attached e) (shared_files e)
    (local_peer_id e) (content_store e) (pinned_fetches e) (bus e ++ [x]) (tasks e).
Definition spawn t (e : Exchange) : Exchange :=
  mk_Exchange (transfers e) (ledger e) (ex_gossip e) (quic_attached e) (history_attached e) (shared_files e)
    (local_peer_id e) (content_store e) (pinned_fetches e) (bus e) (tasks e ++ [t]).

(** [Exchange::with_network] with what the daemon attaches to it. *)
Definition with_network (local : PeerId) (g : option GossipNode) (quic history : bool)
    (store : option MemoryContentStore) : Exchange :=
  mk_Exchange ∅ new_ledger g quic history ∅ local store ∅ [] [].

Definition set_at_state (s : TransferState) (t : ActiveTransfer) : ActiveTransfer :=
  mk_ActiveTransfer (at_transfer_id t) (at_project_id t) (at_file_id t) (at_file_name t) (at_file_size t)
    (at_bytes_transferred t) (at_speed_bps t) (at_direction t) (at_peer_id t) s (at_priority t) (at_version t).

(** ** Pinned versions *)
Definition pin_fetch_version (now : N) (project_id : string) (file_id : FileId) (version : N)
    (expected : option (N * N)) (e : Exchange) : Exchange :=
  set_pins (<[(project_id, file_id) := mk_PinnedFetch version (sat_add now PINNED_FETCH_TTL_MS) expected]>
    (pinned_fetches e)) e.

Definition unpin_fetch_version (project_id : string) (file_id : FileId) (version : N) (e : Exchange) : Exchange :=
  match pinned_fetches e !! (project_id, file_id) with
  | Some pin => if (pf_version pin =? version)%N then set_pins (delete (project_id, file_id) (pinned_fetches e)) e
                else e
  | None => e
  end.

Definition pinned_fetch (now : N) (project_id : string) (file_id : FileId) (version : N) (e : Exchange) :
    Exchange * option PinnedFetch :=
  match pinned_fetches e !! (project_id, file_id) with
  | None => (e, None)
  | Some pin =>
      if (pf_expires_at pin <? now)%N then (unpin_fetch_version project_id file_id (pf_version pin) e, None)
      else (e, if (pf_version pin =? version)%N then Some pin else None)
  end.

Definition clear_fetch_pin (project_id : string) (file_id : FileId) (e : Exchange) : Exchange :=
  set_pins (delete (project_id, file_id) (pinned_fetches e)) e.

(** ** Files on offer *)
Definition share_record (file_id : FileId) (r : SharedFileRecord) (e : Exchange) : Exchange :=
  set_shared (<[(sf_project_id r, file_id) := r]> (shared_files e)) e.

Definition restore_shared_file (file_id : FileId) (r : SharedFileRecord) (e : Exchange) : Exchange :=
  share_record file_id r (clear_fetch_pin (sf_project_id r) file_id e).

Definition shared_file_record (e : Exchange) (project_id : string) (file_id : FileId) : option SharedFileRecord :=
  shared_files e !! (project_id, file_id).

Definition has_shared_file (e : Exchange) (project_id : string) (file_id : FileId) (version : N) : bool :=
  match shared_files e !! (project_id, file_id) with
  | Some r => (version <=? sf_version r)%N
  | None => false
  end.

(** ** The table of transfers *)
Definition is_finished (s : TransferState) : bool :=
  match s with TCompleted | TCancelled | TFailed _ => true | _ => false end.

Definition gc_finished_transfers (e : Exchange) : Exchange * nat :=
  (set_transfers (filter (λ it, is_finished (at_state it.2) = false) (transfers e)) e,
   size (filter (λ it, is_finished (at_state it.2) = true) (transfers e))).

(** [if let Some(mut entry) = self.transfers.get_mut(id) { .. }]. *)
Definition update_transfer (id : TransferId) (f : ActiveTransfer → ActiveTransfer) (e : Exchange) : Exchange :=
  set_transfers (alter f id (transfers e)) e.

Definition fail_transfer (id : TransferId) (reason : string) (e : Exchange) : Exchange :=
  update_transfer id (set_at_state (TFailed reason)) e.

Definition finish (t : ActiveTransfer) : ActiveTransfer :=
  mk_ActiveTransfer (at_transfer_id t) (at_project_id t) (at_file_id t) (at_file_name t) (at_file_size t)
    (at_file_size t) (at_speed_bps t) (at_direction t) (at_peer_id t) TCompleted (at_priority t) (at_version t).

Definition complete_transfer (id : TransferId) (e : Exchange) : Exchange :=
  match transfers e !! id with
  | Some t =>
      let e := set_transfers (<[id := finish t]> (transfers e)) e in
      let e := emit (TransferCompletedEvent id (at_file_name t) "") e in
      set_ledger (mark_fulfilled (ledger e) (at_file_id t) (at_version t) (at_peer_id t)) e
  | None => e
  end.

Definition progress (bytes speed : N) (t : ActiveTransfer) : ActiveTransfer :=
  mk_ActiveTransfer (at_transfer_id t) (at_project_id t) (at_file_id t) (at_file_name t) (at_file_size t)
    bytes speed (at_direction t) (at_peer_id t)
    (match at_state t with TQueued => TRunning | s => s end) (at_priority t) (at_version t).

Definition update_progress (id : TransferId) (bytes speed : N) (e : Exchange) : Exchange :=
  match transfers e !! id with
  | Some t =>
      let e := set_transfers (<[id := progress bytes speed t]> (transfers e)) e in
      emit (TransferProgressEvent id (at_file_name t) bytes (at_file_size t) speed) e
  | None => e
  end.

Definition list_transfers `{!MapIter TransferId ActiveTransfer} (e : Exchange) (project_id : option string) :
    list ActiveTransfer :=
  filter (λ t, match project_id with Some p => bool_decide (at_project_id t = p) | None => true end = true)
    (map_iter (transfers e)).*2.

Definition get_transfer (e : Exchange) (id : TransferId) : option ActiveTransfer := transfers e !! id.

Definition cancel_transfer (id : TransferId) (e : Exchange) : Exchange * result FileSharingError () :=
  match transfers e !! id with
  | Some t =>
      let e := set_transfers (<[id := set_at_state TCancelled t]> (transfers e)) e in
      let e := match at_direction t with
               | Receive =>
                   let e := unpin_fetch_version (at_project_id t) (at_file_id t) (at_version t) e in
                   set_ledger (cancel_want (ledger e) (at_file_id t) (at_version t) (local_peer_id e)) e
               | Send => e
               end in
      (e, Ok ())
  | None => (e, Err (STransferNotFound id))
  end.

Definition pause_transfer (id : TransferId) (e : Exchange) : Exchange * result FileSharingError () :=
  match transfers e !! id with
  | Some t =>
      (if bool_decide (at_state t = TRunning) then set_transfers (<[id := set_at_state TPaused t]> (transfers e)) e
       else e, Ok ())
  | None => (e, Err (STransferNotFound id))
  end.

Definition resume_transfer (id : TransferId) (e : Exchange) : Exchange * result FileSharingError () :=
  match transfers e !! id with
  | Some t =>
      (if bool_decide (at_state t = TPaused) then set_transfers (<[id := set_at_state TRunning t]> (transfers e)) e
       else e, Ok ())
  | None => (e, Err (STransferNotFound id))
  end.

Definition file_name_or (p : path) (default_name : string) : string :=
  match last p with Some n => n | None => default_name end.

(** [Path::to_string_lossy] of an absolute path. *)
Definition display (p : path) : string := "/" +:+ String.concat "/" p.

(** ** A received file

    The parts of [handle_incoming_transfer] that read and change the exchange; the file
    itself is handled in [Incoming]. *)
Definition check_pin (size crc : N) (pin : option PinnedFetch) : bool :=
  match pin ≫= pf_expected_size_crc with
  | Some (expected_size, expected_crc) => (size =? expected_size)%N && (crc =? expected_crc)%N
  | None => true
  end.

(** The check of a received version against the pin and the local record; [true] is the
    answer that the version was pinned. *)
Definition check_received (now : N) (project_id : string) (file_id : FileId) (version size crc : N) (e : Exchange) :
    Exchange * result FileSharingError bool :=
  let '(e, pin) := pinned_fetch now project_id file_id version e in
  let pinned := bool_decide (is_Some pin) in
  if negb (check_pin size crc pin) then (e, Err (SNetworkError "pinned transfer metadata mismatch"))
  else
    match shared_file_record e project_id file_id with
    | Some local =>
        let is_stale := (version <? sf_version local)%N in
        let is_conflict := (sf_version local =? version)%N &&
          (negb (sf_file_size local =? size)%N || negb (sf_crc local =? crc)%N) in
        if (is_stale || is_conflict) && negb pinned then
          (e, Err (SNetworkError (if is_stale then "refusing stale transfer" else "refusing conflicting content")))
        else (e, Ok pinned)
    | None => (e, Ok pinned)
    end.

Definition commit_received (file_id : FileId) (r : SharedFileRecord) (pinned : bool) (e : Exchange) : Exchange :=
  let e := share_record file_id r e in
  if pinned then unpin_fetch_version (sf_project_id r) file_id (sf_version r) e
  else clear_fetch_pin (sf_project_id r) file_id e.

Definition finish_received (id : TransferId) (file_id : FileId) (r : SharedFileRecord) (sender : PeerId)
    (e : Exchange) : Exchange :=
  let transfer := mk_ActiveTransfer id (sf_project_id r) file_id (file_name_or (sf_file_path r) file_id)
    (sf_file_size r) (sf_file_size r) 0 Receive sender TRunning Interactive (sf_version r) in
  complete_transfer id (set_transfers (<[id := transfer]> (transfers e)) e).

(** ** Sharing and fetching *)
Section sharing.
Context `{Blake3, Crc32, Hex, Ed25519, HeapPick, !MapIter MessageId N, !Codec RootCatalog}.

Definition gossip_publish (now : N) (topic : TopicId) (msg : GossipMessage) (e : Exchange) : Exchange :=
  match ex_gossip e with
  | Some g => set_gossip (Some (publish now topic msg g).1) e
  | None => e
  end.

Definition broadcast_offer (now : N) (project_id : string) (file_id : FileId) (version size crc : N)
    (e : Exchange) : Exchange :=
  gossip_publish now (topic_project project_id)
    (FileOffer (local_peer_id e) file_id version size crc zero_hash) e.

Definition broadcast_want (now : N) (project_id : string) (file_id : FileId) (version : N) (e : Exchange) : Exchange :=
  gossip_publish now (topic_project project_id) (FileWant (local_peer_id e) file_id version) e.

Definition broadcast_catalog_update (now : N) (project_id : string) (root_crc update_count : N)
    (catalog_cid : option Cid) (e : Exchange) : Exchange :=
  gossip_publish now (topic_project project_id)
    (CatalogUpdate project_id root_crc update_count [] catalog_cid (local_peer_id e)) e.

Definition offer_entry (now : N) (peer : PeerId) (file_id : FileId) (version size crc : N) : OfferEntry :=
  mk_OfferEntry peer file_id version size crc now Pending.

Definition add_offer (o : OfferEntry) (e : Exchange) : Exchange :=
  set_ledger (register_offer (ledger e) o).1 e.

Definition share_file (now : N) (id : TransferId) (r : ShareRequest) (e : Exchange) : Exchange :=
  let transfer := mk_ActiveTransfer id (sr_project_id r) (sr_file_id r)
    (file_name_or (sr_file_path r) (sr_file_id r)) (sr_file_size r) 0 0 Send
    (default "broadcast" (sr_target_peer r)) TQueued (sr_priority r) (sr_version r) in
  let e := set_transfers (<[id := transfer]> (transfers e)) e in
  let e := add_offer (offer_entry now (local_peer_id e) (sr_file_id r) (sr_version r) (sr_file_size r) (sr_crc r)) e in
  let e := share_record (sr_file_id r)
    (mk_SharedFileRecord (sr_project_id r) (sr_file_path r) (sr_file_size r) (sr_crc r) (sr_version r)) e in
  broadcast_offer now (sr_project_id r) (sr_file_id r) (sr_version r) (sr_file_size r) (sr_crc r) e.

(** A want that is answered at once starts the transfer. *)
Definition start_matched (peer : PeerId) (size : N) (t : ActiveTransfer) : ActiveTransfer :=
  mk_ActiveTransfer (at_transfer_id t) (at_project_id t) (at_file_id t) (at_file_name t) size
    (at_bytes_transferred t) (at_speed_bps t) (at_direction t) peer TRunning (at_priority t) (at_version t).

Definition fetch_file (now : N) (id : TransferId) (r : FetchRequest) (e : Exchange) : Exchange :=
  let transfer := mk_ActiveTransfer id (fr_project_id r) (fr_file_id r) (fr_file_id r) 0 0 0 Receive
    (default "any" (fr_source_peer r)) TQueued (fr_priority r) (fr_version r) in
  let e := set_transfers (<[id := transfer]> (transfers e)) e in
  let '(l, action) := register_want (ledger e)
    (mk_WantEntry (local_peer_id e) (fr_file_id r) (fr_version r) now Pending) in
  let e := set_ledger l e in
  let e := match action with
           | Match peer size => update_transfer id (start_matched peer size) e
           | _ => e
           end in
  broadcast_want now (fr_project_id r) (fr_file_id r) (fr_version r) e.

Definition build_catalog_snapshot (now : N) (chunk_id : ChunkId) (project_id : string) (total_crc update_count : N)
    (l : list PublishNotification) : RootCatalog :=
  let files := (λ n, mk_FileEntry (pn_file_id n) (display (pn_file_path n)) (pn_crc n) zero_hash Synced
                       (pn_file_size n)) <$> l in
  let chunk_crc := crc32 (files ≫= λ f, le_bytes 4 (fe_crc f)) in
  mk_RootCatalog project_id update_count [mk_ChunkIndex chunk_id chunk_crc zero_hash now] total_crc now.

(** Steps 1 to 3 for one file; [total_crc] is carried along. *)
Definition publish_one (now : N) (acc : Exchange * N) (n : PublishNotification) : Exchange * N :=
  let '(e, total_crc) := acc in
  let e := add_offer (offer_entry now (local_peer_id e) (pn_file_id n) (pn_version n) (pn_file_size n) (pn_crc n)) e in
  let e := clear_fetch_pin (pn_project_id n) (pn_file_id n) e in
  let e := share_record (pn_file_id n)
    (mk_SharedFileRecord (pn_project_id n) (pn_file_path n) (pn_file_size n) (pn_crc n) (pn_version n)) e in
  let e := broadcast_offer now (pn_project_id n) (pn_file_id n) (pn_version n) (pn_file_size n) (pn_crc n) e in
  (e, N.lxor (crc32 (le_bytes 4 total_crc)) (pn_crc n)).

(** Step 4. *)
Definition put_catalog (now : N) (chunk_id : ChunkId) (first : PublishNotification) (total_crc : N)
    (l : list PublishNotification) (e : Exchange) : Exchange * option Cid :=
  match content_store e with
  | None => (e, None)
  | Some store =>
      match to_vec (build_catalog_snapshot now chunk_id (pn_project_id first) total_crc (N.of_nat (length l)) l) with
      | None => (e, None)
      | Some b =>
          let block := new_block b in
          let '(store, r) := put block store in
          (set_store (Some store) e, match r with Ok _ => Some (cid block) | Err _ => None end)
      end
  end.

Definition publish_updates (now : N) (chunk_id : ChunkId) (l : list PublishNotification) (e : Exchange) : Exchange :=
  let '(e, total_crc) := foldl (publish_one now) (e, 0%N) l in
  match l with
  | [] => e
  | first :: _ =>
      let '(e, catalog_cid) := put_catalog now chunk_id first total_crc l e in
      broadcast_catalog_update now (pn_project_id first) total_crc (N.of_nat (length l)) catalog_cid e
  end.

(** ** Wants and offers of other peers *)
Definition serve_from_history (project_id : string) (requester : PeerId) (file_id : FileId) (version : N)
    (e : Exchange) : Exchange :=
  if negb (history_attached e) then e
  else if (version =? 0)%N then e
  else spawn (TaskServeFromHistory project_id requester file_id version) e.

Definition handle_file_want (project_id : string) (requester : PeerId) (file_id : FileId) (version : N)
    (e : Exchange) : Exchange :=
  if bool_decide (requester = local_peer_id e) then e
  else if negb (quic_attached e) then e
  else
    match shared_files e !! (project_id, file_id) with
    | None => serve_from_history project_id requester file_id version e
    | Some r =>
        if negb (version =? 0)%N && negb (version =? sf_version r)%N then
          serve_from_history project_id requester file_id version e
        else
          spawn (TaskShareAndSend (mk_ShareRequest (sf_project_id r) file_id (sf_file_path r) (sf_file_size r)
            (sf_crc r) Interactive (Some requester) (sf_version r))) e
    end.

Definition handle_file_offer (now : N) (sender : PeerId) (file_id : FileId) (version size crc : N) (e : Exchange) :
    Exchange :=
  if bool_decide (sender = local_peer_id e) then e
  else add_offer (offer_entry now sender file_id version size crc) e.

(** ** Spawned tasks that stay in memory

    [share_and_send]: the offer is registered and the transmission spawned. *)
Definition share_and_send (now : N) (id : TransferId) (r : ShareRequest) (e : Exchange) : Exchange :=
  spawn (TaskSendAfterShare r id) (share_file now id r e).

(** The body of the task of [serve_from_history], [hit] being the answer of the store. *)
Definition serve_hit (now : N) (id : TransferId) (project_id : string) (requester : PeerId) (file_id : FileId)
    (version : N) (hit : option HistoryHit) (e : Exchange) : Exchange :=
  match hit with
  | None => e
  | Some h =>
      share_and_send now id (mk_ShareRequest project_id file_id (hit_path h) (hit_size h) (hit_crc h) Interactive
        (Some requester) version) e
  end.
End sharing.

(** ** Operations and tasks as one alphabet *)
Inductive ExOp :=
| XPin (now : N) (project_id : string) (file_id : FileId) (version : N) (expected : option (N * N))
| XUnpin (project_id : string) (file_id : FileId) (version : N)
| XRestore (file_id : FileId) (r : SharedFileRecord)
| XGc
| XFail (id : TransferId) (reason : string)
| XComplete (id : TransferId)
| XProgress (id : TransferId) (bytes speed : N)
| XCancel (id : TransferId)
| XPause (id : TransferId)
| XResume (id : TransferId)
| XShare (now : N) (id : TransferId) (r : ShareRequest)
| XShareAndSend (now : N) (id : TransferId) (r : ShareRequest)
| XFetch (now : N) (id : TransferId) (r : FetchRequest)
| XPublish (now : N) (chunk_id : ChunkId) (l : list PublishNotification)
| XWant (project_id : string) (requester : PeerId) (file_id : FileId) (version : N)
| XOffer (now : N) (sender : PeerId) (file_id : FileId) (version size crc : N)
| XCheck (now : N) (project_id : string) (file_id : FileId) (version size crc : N)
| XCommit (file_id : FileId) (r : SharedFileRecord) (pinned : bool)
| XPostReceive (project_id : string) (file_id : FileId) (version : N) (sender : PeerId)
| XFinish (id : TransferId) (file_id : FileId) (r : SharedFileRecord) (sender : PeerId)
(** The task at position [i] runs; [hit] is what the history store answers it. *)
| XTask (i : nat) (now : N) (id : TransferId) (hit : option HistoryHit).

Definition remove_task (i : nat) (e : Exchange) : Exchange :=
  mk_Exchange (transfers e) (ledger e) (ex_gossip e) (quic_attached e) (history_attached e) (shared_files e)
    (local_peer_id e) (content_store e) (pinned_fetches e) (bus e) (delete i (tasks e)).

Section traces.
Context `{Blake3, Crc32, Hex, Ed25519, HeapPick, !MapIter MessageId N, !Codec RootCatalog}.

(** The part of a task that changes the exchange before it does any input or output. *)
Definition start_task (now : N) (id : TransferId) (hit : option HistoryHit) (t : Task) (e : Exchange) : Exchange :=
  match t with
  | TaskShareAndSend r => share_and_send now id r e
  | TaskServeFromHistory p q f v => serve_hit now id p q f v hit e
  | TaskSendAfterShare _ _ | TaskPostReceive _ _ _ _ => e
  end.

Definition ex_step (e : Exchange) (o : ExOp) : Exchange :=
  match o with
  | XPin now p f v expected => pin_fetch_version now p f v expected e
  | XUnpin p f v => unpin_fetch_version p f v e
  | XRestore f r => restore_shared_file f r e
  | XGc => (gc_finished_transfers e).1
  | XFail id reason => fail_transfer id reason e
  | XComplete id => complete_transfer id e
  | XProgress id b s => update_progress id b s e
  | XCancel id => (cancel_transfer id e).1
  | XPause id => (pause_transfer id e).1
  | XResume id => (resume_transfer id e).1
  | XShare now id r => share_file now id r e
  | XShareAndSend now id r => share_and_send now id r e
  | XFetch now id r => fetch_file now id r e
  | XPublish now c l => publish_updates now c l e
  | XWant p q f v => handle_file_want p q f v e
  | XOffer now q f v size crc => handle_file_offer now q f v size crc e
  | XCheck now p f v size crc => (check_received now p f v size crc e).1
  | XCommit f r pinned => commit_received f r pinned e
  | XPostReceive p f v q => spawn (TaskPostReceive p f v q) e
  | XFinish id f r q => finish_received id f r q e
  | XTask i now id hit =>
      match tasks e !! i with
      | Some t => start_task now id hit t (remove_task i e)
      | None => e
      end
  end.

Definition ex_run (e : Exchange) (l : list ExOp) : Exchange := foldl ex_step e l.
End traces.

(** ** Well-formed states *)
Section typed.
Context `{Blake3, Crc32, Hex, Ed25519, HeapPick, !HeapPickLaws, !MapIter MessageId N, !MapIterLaws MessageId N,
  !Codec RootCatalog}.

(** Every entry of a table is filed under its own key; the parts keep their invariants. *)
Record ex_typed (e : Exchange) : Prop := {
  ty_transfers : map_Forall (λ id t, at_transfer_id t = id) (transfers e);
  ty_shared : map_Forall (λ k r, sf_project_id r = k.1) (shared_files e);
  ty_wants : ledger_inv (ledger e);
  ty_offers : map_Forall (λ k o, offer_key o = k) (offers (ledger e));
  ty_store : ∀ s, content_store e = Some s → store_ok s;
  ty_gossip : ∀ g, ex_gossip e = Some g → cache_ok (message_cache g) ∧ mesh_ok g;
}.

Lemma typed_transfers x e :
  map_Forall (λ id t, at_transfer_id t = id) x → ex_typed e → ex_typed (set_transfers x e).
Proof. intros ? []. by split. Qed.
Lemma typed_insert id t e : at_transfer_id t = id → ex_typed e → ex_typed (set_transfers (<[id := t]> (transfers e)) e).
Proof. intros ? He. apply typed_transfers; [|done]. apply map_Forall_insert_2; [done|apply He]. Qed.
Lemma typed_update id f e :
  (∀ t, at_transfer_id (f t) = at_transfer_id t) → ex_typed e → ex_typed (update_transfer id f e).
Proof.
  intros Hf He. apply typed_transfers; [|done]. intros i t. destruct (decide (i = id)) as [->|Hne].
  - rw lookup_alter_eq fmap_Some. intros (t0 & Ht0 & ->). rw Hf. by apply He.
  - rw lookup_alter_ne //. apply He.
Qed.
Lemma typed_ledger l e :
  ledger_inv l → map_Forall (λ k o, offer_key o = k) (offers l) → ex_typed e → ex_typed (set_ledger l e).
Proof. intros ?? []. by split. Qed.
Lemma typed_pins x e : ex_typed e → ex_typed (set_pins x e).
Proof. intros []. by split. Qed.
Lemma typed_clear p f e : ex_typed e → ex_typed (clear_fetch_pin p f e).
Proof. apply typed_pins. Qed.
Lemma typed_emit x e : ex_typed e → ex_typed (emit x e).
Proof. intros []. by split. Qed.
Lemma typed_spawn t e : ex_typed e → ex_typed (spawn t e).
Proof. intros []. by split. Qed.
Lemma typed_remove_task i e : ex_typed e → ex_typed (remove_task i e).
Proof. intros []. by split. Qed.
Lemma typed_share f r e : ex_typed e → ex_typed (share_record f r e).
Proof. intros []. split; [done| |done..]. by apply map_Forall_insert_2. Qed.
Lemma typed_unpin p f v e : ex_typed e → ex_typed (unpin_fetch_version p f v e).
Proof. intros He. unfold unpin_fetch_version. repeat case_match; auto using typed_pins. Qed.

Lemma typed_add_offer o e : ex_typed e → ex_typed (add_offer o e).
Proof.
  intros He. apply typed_ledger; [|by apply map_Forall_insert_2; [|apply He]|done].
  apply (exec_inv _ (COffer o)), He.
Qed.
Lemma typed_fulfilled f v q e : ex_typed e → ex_typed (set_ledger (mark_fulfilled (ledger e) f v q) e).
Proof.
  intros He. apply typed_ledger; [apply (exec_inv _ (CFulfilled f v q)), He| |done].
  unfold mark_fulfilled. case_match; apply He.
Qed.
Lemma typed_cancel_want f v q e : ex_typed e → ex_typed (set_ledger (cancel_want (ledger e) f v q) e).
Proof.
  intros He. apply typed_ledger; [apply (exec_inv _ (CCancel f v q)), He| |done].
  unfold cancel_want. case_match; apply He.
Qed.
Lemma offers_register_want l w : offers (register_want l w).1 = offers l.
Proof. unfold register_want. repeat case_match; done. Qed.

Lemma publish_ok now topic msg g :
  cache_ok (message_cache g) → mesh_ok g →
  cache_ok (message_cache (publish now topic msg g).1) ∧ mesh_ok (publish now topic msg g).1.
Proof.
  intros Hc Hm. unfold publish. pose proof (check_and_insert_ok now _ (message_id topic msg) Hc) as Hc'.
  destruct (check_and_insert _ _ _) as [c dup]. cbn in Hc'. destruct dup; [done|].
  destruct (envelope _ _); done.
Qed.
Lemma typed_publish now topic msg e : ex_typed e → ex_typed (gossip_publish now topic msg e).
Proof.
  intros He. unfold gossip_publish. destruct (ex_gossip e) as [g|] eqn:Hg; [|done].
  destruct (ty_gossip _ He g Hg). destruct He. split; [done..|]. intros g' [= <-]. by apply publish_ok.
Qed.

Create HintDb typed.
#[local] Hint Resolve typed_insert typed_pins typed_clear typed_emit typed_spawn typed_share typed_unpin typed_add_offer
  typed_fulfilled typed_cancel_want typed_publish typed_update typed_remove_task : typed.

Lemma typed_complete id e : ex_typed e → ex_typed (complete_transfer id e).
Proof.
  intros He. unfold complete_transfer. destruct (transfers e !! id) as [t|] eqn:Ht; [|done].
  apply typed_fulfilled, typed_emit, typed_insert; [|done]. by apply (ty_transfers _ He) in Ht.
Qed.
Lemma typed_set id t0 t e :
  transfers e !! id = Some t0 → at_transfer_id t = at_transfer_id t0 → ex_typed e →
  ex_typed (set_transfers (<[id := t]> (transfers e)) e).
Proof. intros Ht Hid He. apply typed_insert; [|done]. rw Hid. by apply (ty_transfers _ He) in Ht. Qed.

Lemma typed_share_file now id r e : ex_typed e → ex_typed (share_file now id r e).
Proof. intros He. unfold share_file, broadcast_offer. auto with typed. Qed.
Lemma typed_share_and_send now id r e : ex_typed e → ex_typed (share_and_send now id r e).
Proof. intros He. by apply typed_spawn, typed_share_file. Qed.
Lemma typed_serve_history p q f v e : ex_typed e → ex_typed (serve_from_history p q f v e).
Proof. intros He. unfold serve_from_history. repeat case_match; auto with typed. Qed.

Lemma typed_fetch now id r e : ex_typed e → ex_typed (fetch_file now id r e).
Proof.
  intros He. unfold fetch_file.
  set (e1 := set_transfers _ e). assert (He1 : ex_typed e1) by by apply typed_insert. clearbody e1.
  pose proof (register_want_inv (ledger e1) (mk_WantEntry (local_peer_id e1) (fr_file_id r) (fr_version r) now Pending)
    (ty_wants _ He1)) as Hl. pose proof (offers_register_want (ledger e1)
    (mk_WantEntry (local_peer_id e1) (fr_file_id r) (fr_version r) now Pending)) as Ho.
  destruct (register_want _ _) as [l act]. cbn in Hl, Ho. apply typed_publish.
  assert (ex_typed (set_ledger l e1)) by (apply typed_ledger; [done|rw Ho; apply He1|done]).
  destruct act; auto with typed.
Qed.

Lemma typed_publish_one now acc n : ex_typed acc.1 → ex_typed (publish_one now acc n).1.
Proof. destruct acc as [e c]. cbn [fst]. intros He. unfold publish_one, broadcast_offer. cbn [fst]. auto 8 with typed. Qed.
Lemma typed_put_catalog now c first total l e : ex_typed e → ex_typed (put_catalog now c first total l e).1.
Proof.
  intros He. unfold put_catalog. destruct (content_store e) as [s|] eqn:Hs; [|done].
  destruct (to_vec _) as [b|]; [|done]. pose proof (put_ok (new_block b) s (ty_store _ He s Hs)) as Hp.
  destruct (put _ _) as [s' r]. destruct He. split; [done..| |done]. by intros ? [= <-].
Qed.
Lemma typed_publish_updates now c l e : ex_typed e → ex_typed (publish_updates now c l e).
Proof.
  intros He. unfold publish_updates.
  assert (Hf : ∀ l' acc, ex_typed acc.1 → ex_typed (foldl (publish_one now) acc l').1).
  { induction l' as [|n l' IH]; intros acc Ha; [done|]. by apply IH, typed_publish_one. }
  specialize (Hf l (e, 0%N) He). destruct (foldl _ _ _) as [e1 total]. destruct l as [|first l]; [done|].
  pose proof (typed_put_catalog now c first total (first :: l) e1 Hf) as Hp.
  destruct (put_catalog _ _ _ _ _ _) as [e2 o]. by apply typed_publish.
Qed.

Lemma typed_check now p f v size crc e : ex_typed e → ex_typed (check_received now p f v size crc e).1.
Proof.
  intros He. unfold check_received.
  assert (ex_typed (pinned_fetch now p f v e).1).
  { unfold pinned_fetch. repeat case_match; cbn [fst]; auto with typed. }
  destruct (pinned_fetch _ _ _ _ _) as [e1 pin]. repeat case_match; done.
Qed.

Lemma typed_step e o : ex_typed e → ex_typed (ex_step e o).
Proof.
  intros He. destruct o; cbn [ex_step];
    auto using typed_unpin, typed_complete, typed_share_file, typed_share_and_send, typed_fetch,
      typed_publish_updates, typed_check with typed.
  - by apply typed_pins.
  - by apply typed_share, typed_pins.
  - apply typed_transfers; [|done]. intros i t [Hi _]%map_lookup_filter_Some. by apply He.
  - by apply typed_update.
  - unfold update_progress. case_match; [|done]. by eapply typed_emit, typed_set.
  - unfold cancel_transfer. destruct (transfers e !! id) as [t|] eqn:Ht; [|done]. cbn [fst].
    assert (ex_typed (set_transfers (<[id := set_at_state TCancelled t]> (transfers e)) e)) by by eapply typed_set.
    destruct (at_direction t); auto with typed.
  - unfold pause_transfer. repeat case_match; try done. by eapply typed_set.
  - unfold resume_transfer. repeat case_match; try done. by eapply typed_set.
  - unfold handle_file_want. repeat case_match; auto using typed_serve_history with typed.
  - unfold handle_file_offer. case_match; auto with typed.
  - unfold commit_received. case_match; [by apply typed_unpin, typed_share|by apply typed_pins, typed_share].
  - apply typed_complete. by apply typed_insert.
  - destruct (tasks e !! i) as [t|]; [|done]. assert (ex_typed (remove_task i e)) by auto with typed.
    destruct t; cbn; auto using typed_share_and_send. unfold serve_hit. case_match; auto using typed_share_and_send.
Qed.
End typed.

(** ** The life of a transfer *)

(** The transitions of a transfer's state and the operation that causes each. *)
Inductive moves (id : TransferId) : ExOp → TransferState → TransferState → Prop :=
| moves_start b sp : moves id (XProgress id b sp) TQueued TRunning
| moves_pause : moves id (XPause id) TRunning TPaused
| moves_resume : moves id (XResume id) TPaused TRunning
| moves_complete s : moves id (XComplete id) s TCompleted
| moves_fail s reason : moves id (XFail id reason) s (TFailed reason)
| moves_cancel s : moves id (XCancel id) s TCancelled.

(** What never changes during the life of a transfer. *)
Definition same_transfer (t t' : ActiveTransfer) : Prop :=
  at_transfer_id t' = at_transfer_id t ∧ at_project_id t' = at_project_id t ∧ at_file_id t' = at_file_id t ∧
  at_file_name t' = at_file_name t ∧ at_file_size t' = at_file_size t ∧ at_direction t' = at_direction t ∧
  at_peer_id t' = at_peer_id t ∧ at_version t' = at_version t.

(** The operation creates an entry under an identifier that the node draws for it ([TransferId::generate]). *)
Definition draws (id : TransferId) (o : ExOp) : bool :=
  match o with
  | XShare _ i _ | XShareAndSend _ i _ | XFetch _ i _ | XTask _ _ i _ => bool_decide (i = id)
  | _ => false
  end.

(** A file has arrived under the identifier: that one is the sender's choice. *)
Definition arrives (id : TransferId) (o : ExOp) : bool :=
  match o with XFinish i _ _ _ => bool_decide (i = id) | _ => false end.

(** The entry that the arrival leaves, whatever was there. *)
Definition arrived_entry (id : TransferId) (f : FileId) (r : SharedFileRecord) (sender : PeerId) : ActiveTransfer :=
  mk_ActiveTransfer id (sf_project_id r) f (file_name_or (sf_file_path r) f) (sf_file_size r) (sf_file_size r) 0 Receive sender
    TCompleted Interactive (sf_version r).

Section lifecycle.
Context `{Blake3, Crc32, Hex, Ed25519, HeapPick, !MapIter MessageId N, !Codec RootCatalog}.

Lemma transfers_publish now topic msg e : transfers (gossip_publish now topic msg e) = transfers e.
Proof. unfold gossip_publish. by case_match. Qed.
Lemma transfers_unpin p f v e : transfers (unpin_fetch_version p f v e) = transfers e.
Proof. unfold unpin_fetch_version. by repeat case_match. Qed.
Lemma transfers_share_file now id r e i : i ≠ id → transfers (share_file now id r e) !! i = transfers e !! i.
Proof. intros Hi. unfold share_file, broadcast_offer. rw transfers_publish. cbn. by rw lookup_insert_ne. Qed.
Lemma transfers_publish_updates now c l e : transfers (publish_updates now c l e) = transfers e.
Proof.
  unfold publish_updates.
  assert (Hf : ∀ l' acc, transfers (foldl (publish_one now) acc l').1 = transfers acc.1).
  { induction l' as [|n l' IH]; intros [e0 k]; [done|]. cbn [foldl]. rw IH. unfold publish_one, broadcast_offer.
    cbn [fst]. by rw transfers_publish. }
  specialize (Hf l (e, 0%N)). destruct (foldl _ _ _) as [e1 total]. cbn in Hf. destruct l as [|first l]; [done|].
  assert (Hp : transfers (put_catalog now c first total (first :: l) e1).1 = transfers e1).
  { unfold put_catalog. repeat case_match; done. }
  destruct (put_catalog _ _ _ _ _ _) as [e2 o]. cbn in Hp. unfold broadcast_catalog_update.
  by rw transfers_publish Hp.
Qed.
Lemma transfers_fetch now id r e i : i ≠ id → transfers (fetch_file now id r e) !! i = transfers e !! i.
Proof.
  intros Hi. unfold fetch_file. destruct (register_want _ _) as [l act]. unfold broadcast_want. rw transfers_publish.
  destruct act; cbn; rw ?lookup_alter_ne //; by rw lookup_insert_ne.
Qed.
Lemma transfers_check now p f v size crc e : transfers (check_received now p f v size crc e).1 = transfers e.
Proof.
  unfold check_received, pinned_fetch. destruct (pinned_fetches e !! _) as [pin|].
  - destruct (pf_expires_at pin <? now)%N; repeat case_match; cbn; by rw ?transfers_unpin.
  - repeat case_match; done.
Qed.
Lemma transfers_finish_received id f r q e i : i ≠ id → transfers (finish_received id f r q e) !! i = transfers e !! i.
Proof.
  intros Hi. unfold finish_received, complete_transfer. cbn. rw lookup_insert_eq. cbn. by rw !lookup_insert_ne.
Qed.
Lemma transfers_task i now id hit t e j : j ≠ id → transfers (start_task now id hit t (remove_task i e)) !! j = transfers e !! j.
Proof.
  intros Hj. destruct t; cbn; [by rw transfers_share_file| |done..]. unfold serve_hit. case_match; cbn; [|done].
  by rw transfers_share_file.
Qed.

Lemma arrives_entry id f r q e : transfers (finish_received id f r q e) !! id = Some (arrived_entry id f r q).
Proof. unfold finish_received, complete_transfer. cbn. rw lookup_insert_eq. cbn. by rw lookup_insert_eq. Qed.

(** One operation on an existing transfer. *)
Lemma step_transfer e o id t :
  transfers e !! id = Some t → draws id o = false → arrives id o = false →
  match transfers (ex_step e o) !! id with
  | Some t' => same_transfer t t' ∧ (at_state t' = at_state t ∨ moves id o (at_state t) (at_state t'))
  | None => o = XGc ∧ is_finished (at_state t) = true
  end.
Proof.
  intros Ht Hc Ha.
  assert (Hid : ∀ e', transfers e' !! id = transfers e !! id →
    match transfers e' !! id with
    | Some t' => same_transfer t t' ∧ (at_state t' = at_state t ∨ moves id o (at_state t) (at_state t'))
    | None => o = XGc ∧ is_finished (at_state t) = true
    end).
  { intros e' ->. rw Ht. by split; [|left]. }
  destruct o; cbn [ex_step draws arrives] in *; bool_to_prop; try (by apply Hid).
  - by apply Hid; rw transfers_unpin.
  - cbn. destruct (is_finished (at_state t)) eqn:Hf.
    + rw (map_lookup_filter_None_2 _ _ id); [|done]. right. intros t'. rw Ht. intros [= <-]. by rw /= Hf.
    + rw (map_lookup_filter_Some_2 _ _ id t) //. by split; [|left].
  - cbn. destruct (decide (id = id0)) as [->|Hne].
    + rw lookup_alter_eq Ht. cbn. split; [done|]. right. constructor.
    + rw lookup_alter_ne //. by apply Hid.
  - unfold complete_transfer. destruct (decide (id = id0)) as [->|Hne].
    + rw Ht. cbn. rw lookup_insert_eq. split; [done|]. right. constructor.
    + apply Hid. case_match; [|done]. cbn. by rw lookup_insert_ne.
  - unfold update_progress. destruct (decide (id = id0)) as [->|Hne].
    + rw Ht. cbn. rw lookup_insert_eq. split; [done|]. cbn. destruct (at_state t); auto using moves.
    + apply Hid. case_match; [|done]. cbn. by rw lookup_insert_ne.
  - unfold cancel_transfer. destruct (decide (id = id0)) as [->|Hne].
    + rw Ht. cbn [fst]. destruct (at_direction t); cbn; rw ?transfers_unpin; cbn; rw lookup_insert_eq;
        (split; [done|right; constructor]).
    + destruct (transfers e !! id0) as [t0|]; [|by apply Hid]. cbn [fst].
      apply Hid. destruct (at_direction t0); cbn; rw ?transfers_unpin; cbn; by rw lookup_insert_ne.
  - unfold pause_transfer. destruct (decide (id = id0)) as [->|Hne].
    + rw Ht. case_bool_decide as Hs; cbn; [|by apply Hid]. rw lookup_insert_eq Hs. split; [done|right; constructor].
    + apply Hid. repeat case_match; cbn; [|done..]. by rw lookup_insert_ne.
  - unfold resume_transfer. destruct (decide (id = id0)) as [->|Hne].
    + rw Ht. case_bool_decide as Hs; cbn; [|by apply Hid]. rw lookup_insert_eq Hs. split; [done|right; constructor].
    + apply Hid. repeat case_match; cbn; [|done..]. by rw lookup_insert_ne.
  - by apply Hid; rw transfers_share_file.
  - apply Hid. cbn. by rw transfers_share_file.
  - by apply Hid; rw transfers_fetch.
  - by apply Hid; rw transfers_publish_updates.
  - apply Hid. unfold handle_file_want, serve_from_history. repeat case_match; done.
  - apply Hid. unfold handle_file_offer. by case_match.
  - by apply Hid; rw transfers_check.
  - apply Hid. unfold commit_received. case_match; by rw ?transfers_unpin.
  - by apply Hid; rw transfers_finish_received.
  - apply Hid. case_match; [|done]. by rw transfers_task.
Qed.
End lifecycle.

(** The states a transfer goes through while the operations of a list run. *)
Inductive lives (id : TransferId) : list ExOp → TransferState → TransferState → Prop :=
| lives_nil s : lives id [] s s
| lives_stay o l s s' : lives id l s s' → lives id (o :: l) s s'
| lives_move o l s s' s'' : moves id o s s' → lives id l s' s'' → lives id (o :: l) s s''.

Lemma moves_finished id o s s' : moves id o s s' → is_finished s = true → is_finished s' = true.
Proof. by destruct 1. Qed.
Lemma lives_finished id l s s' : lives id l s s' → is_finished s = true → is_finished s' = true.
Proof. induction 1; eauto using moves_finished. Qed.

(** ** Pins *)

(** The operation ends the request for version [v] of the file, if it was pinned. *)
Definition supersedes (p : string) (f : FileId) (v : N) (o : ExOp) : bool :=
  match o with
  | XPin _ p' f' _ _ => bool_decide ((p', f') = (p, f))
  | XUnpin p' f' v' => bool_decide ((p', f') = (p, f) ∧ v' = v)
  | XRestore f' r => bool_decide ((sf_project_id r, f') = (p, f))
  | XPublish _ _ l => existsb (λ n, bool_decide ((pn_project_id n, pn_file_id n) = (p, f))) l
  | XCommit f' r pinned =>
      bool_decide ((sf_project_id r, f') = (p, f)) && (negb pinned || bool_decide (sf_version r = v))
  | _ => false
  end.

Section pins.
Context `{Blake3, Crc32, Hex, Ed25519, HeapPick, !MapIter MessageId N, !Codec RootCatalog}.
Implicit Types e : Exchange.

Lemma pins_publish now topic msg e : pinned_fetches (gossip_publish now topic msg e) = pinned_fetches e.
Proof. unfold gossip_publish. by case_match. Qed.
Lemma pins_share_file now id r e : pinned_fetches (share_file now id r e) = pinned_fetches e.
Proof. unfold share_file, broadcast_offer. by rw pins_publish. Qed.
Lemma pins_fetch now id r e : pinned_fetches (fetch_file now id r e) = pinned_fetches e.
Proof.
  unfold fetch_file. destruct (register_want _ _) as [l act]. unfold broadcast_want. rw pins_publish. by destruct act.
Qed.
Lemma pins_complete id e : pinned_fetches (complete_transfer id e) = pinned_fetches e.
Proof. unfold complete_transfer. by case_match. Qed.

Lemma pins_unpin p f v e k pin :
  pinned_fetches (unpin_fetch_version p f v e) !! k = Some pin →
  pinned_fetches e !! k = Some pin ∧ (k ≠ (p, f) ∨ pf_version pin ≠ v).
Proof.
  unfold unpin_fetch_version. destruct (pinned_fetches e !! (p, f)) as [pin0|] eqn:Hp.
  - destruct (pf_version pin0 =? v)%N eqn:Hv; bool_to_prop.
    + cbn. intros [? ?]%lookup_delete_Some. auto.
    + intros Hk. split; [done|]. destruct (decide (k = (p, f))) as [->|]; [right|by left]. congruence.
  - intros Hk. split; [done|]. left. congruence.
Qed.

Lemma pins_publish_updates now c l e k pin :
  pinned_fetches (publish_updates now c l e) !! k = Some pin →
  pinned_fetches e !! k = Some pin ∧ Forall (λ n, (pn_project_id n, pn_file_id n) ≠ k) l.
Proof.
  unfold publish_updates.
  assert (Hf : ∀ l' acc, pinned_fetches (foldl (publish_one now) acc l').1 !! k = Some pin →
    pinned_fetches acc.1 !! k = Some pin ∧ Forall (λ n, (pn_project_id n, pn_file_id n) ≠ k) l').
  { induction l' as [|n l' IH]; intros [e0 t]; [done|]. cbn [foldl]. intros [Hk Hl]%IH. revert Hk.
    unfold publish_one, broadcast_offer. cbn [fst]. rw pins_publish. cbn. intros [? ?]%lookup_delete_Some.
    split; [done|]. by constructor. }
  specialize (Hf l (e, 0%N)). destruct (foldl _ _ _) as [e1 total]. cbn [fst] in Hf. destruct l as [|first l]; [done|].
  assert (Hp : pinned_fetches (put_catalog now c first total (first :: l) e1).1 = pinned_fetches e1).
  { unfold put_catalog. repeat case_match; done. }
  destruct (put_catalog _ _ _ _ _ _) as [e2 o]. unfold broadcast_catalog_update. rw pins_publish. cbn in Hp. by rw Hp.
Qed.

Lemma pins_check now p f v size crc e k pin :
  pinned_fetches (check_received now p f v size crc e).1 !! k = Some pin → pinned_fetches e !! k = Some pin.
Proof.
  unfold check_received, pinned_fetch. destruct (pinned_fetches e !! (p, f)) as [pin0|].
  - destruct (pf_expires_at pin0 <? now)%N; repeat case_match; cbn; try done; by intros [? _]%pins_unpin.
  - repeat case_match; done.
Qed.

(** A pin is there because the operation set it, or was there and is not superseded. *)
Lemma step_pin e o p f pin :
  pinned_fetches (ex_step e o) !! (p, f) = Some pin →
  (∃ t, o = XPin t p f (pf_version pin) (pf_expected_size_crc pin) ∧ pf_expires_at pin = sat_add t PINNED_FETCH_TTL_MS) ∨
  pinned_fetches e !! (p, f) = Some pin ∧ supersedes p f (pf_version pin) o = false.
Proof.
  destruct o; cbn [ex_step supersedes]; try (by right).
  - cbn. destruct (decide ((project_id, file_id) = (p, f))) as [E|Hne].
    + rw E lookup_insert_eq. intros [= <-]. left. injection E as -> ->. by eexists.
    + rw lookup_insert_ne //. right. by rw bool_decide_eq_false_2.
  - intros [? Hd]%pins_unpin. right. split; [done|]. apply bool_decide_eq_false_2. intros [E ->]. destruct Hd; congruence.
  - cbn. intros [Hne ?]%lookup_delete_Some. right. split; [done|]. by apply bool_decide_eq_false_2.
  - rw pins_complete. by right.
  - unfold update_progress. case_match; by right.
  - unfold cancel_transfer. destruct (transfers e !! id) as [t|]; [|by right]. cbn [fst].
    destruct (at_direction t); [by right|]. cbn. intros [? _]%pins_unpin. by right.
  - unfold pause_transfer. repeat case_match; by right.
  - unfold resume_transfer. repeat case_match; by right.
  - rw pins_share_file. by right.
  - cbn. rw pins_share_file. by right.
  - rw pins_fetch. by right.
  - intros [? Hl]%pins_publish_updates. right. split; [done|]. apply not_true_iff_false. intros (n & Hn & E)%existsb_exists.
    bool_to_prop. rw Forall_forall in Hl. by destruct (Hl n); [by apply list_elem_of_In|].
  - unfold handle_file_want, serve_from_history. repeat case_match; by right.
  - unfold handle_file_offer. case_match; by right.
  - intros ?%pins_check. by right.
  - unfold commit_received. destruct pinned; cbn.
    + intros [? Hd]%pins_unpin. right. split; [done|]. apply not_true_iff_false. intros [E Hv]%andb_true_iff.
      bool_to_prop. destruct Hd; congruence.
    + intros [Hne ?]%lookup_delete_Some. right. split; [done|]. by rw bool_decide_eq_false_2.
  - unfold finish_received. rw pins_complete. by right.
  - destruct (tasks e !! i) as [t|]; [|by right]. destruct t; cbn; [rw pins_share_file; by right| |by right..].
    unfold serve_hit. case_match; cbn; rw ?pins_share_file; by right.
Qed.

Lemma pins_trace e l p f pin :
  pinned_fetches e = ∅ → pinned_fetches (ex_run e l) !! (p, f) = Some pin →
  ∃ l1 t l2, l = l1 ++ XPin t p f (pf_version pin) (pf_expected_size_crc pin) :: l2 ∧
    pf_expires_at pin = sat_add t PINNED_FETCH_TTL_MS ∧
    Forall (λ o, supersedes p f (pf_version pin) o = false) l2.
Proof.
  intros He. induction l as [|o l IH] using rev_ind; [by rw /= He lookup_empty|].
  unfold ex_run. rw foldl_snoc. intros [(t & -> & Ht)|[Hp Ho]]%step_pin.
  - by exists l, t, [].
  - destruct (IH Hp) as (l1 & t & l2 & -> & Ht & Hl2). exists l1, t, (l2 ++ [o]).
    split; [by rw -app_assoc|]. split; [done|]. by apply Forall_app_2; [|constructor].
Qed.
End pins.

(** ** Solicited transmissions *)
Section solicited.
Context `{Blake3, Crc32, Hex, Ed25519, HeapPick, !HeapPickLaws, !MapIter MessageId N, !MapIterLaws MessageId N,
  !Codec RootCatalog}.

(** Peer [q] asked for the version, or for the newest one. *)
Definition wanted_by (local : PeerId) (l : list ExOp) (q : PeerId) (p : string) (f : FileId) (v : N) : Prop :=
  q ≠ local ∧ ∃ v', XWant p q f v' ∈ l ∧ (v' = 0%N ∨ v' = v).

Definition task_ok (local : PeerId) (l : list ExOp) (t : Task) : Prop :=
  match t with
  | TaskShareAndSend r =>
      ∃ q, sr_target_peer r = Some q ∧ wanted_by local l q (sr_project_id r) (sr_file_id r) (sr_version r)
  | TaskServeFromHistory p q f v => wanted_by local l q p f v
  | TaskSendAfterShare r id =>
      (∃ now, XShareAndSend now id r ∈ l) ∨
      ∃ q, sr_target_peer r = Some q ∧ wanted_by local l q (sr_project_id r) (sr_file_id r) (sr_version r)
  | TaskPostReceive p f v q => XPostReceive p f v q ∈ l
  end.

Lemma task_ok_mono local l o t : task_ok local l t → task_ok local (l ++ [o]) t.
Proof. destruct t; unfold task_ok, wanted_by; set_solver. Qed.

(** What a publication, an unpinning or a catalog leaves alone. *)
Lemma field_publish {A} (F : Exchange → A) now topic msg e :
  (∀ g e, F (set_gossip g e) = F e) → F (gossip_publish now topic msg e) = F e.
Proof. intros HF. unfold gossip_publish. by case_match. Qed.
Lemma field_unpin {A} (F : Exchange → A) p f v e :
  (∀ g e, F (set_pins g e) = F e) → F (unpin_fetch_version p f v e) = F e.
Proof. intros HF. unfold unpin_fetch_version. by repeat case_match. Qed.

(** Tasks and the name of the node. *)
Definition rest (e : Exchange) : list Task * PeerId := (tasks e, local_peer_id e).

Lemma rest_share_file now id r e : rest (share_file now id r e) = rest e.
Proof. unfold share_file, broadcast_offer. by rw field_publish. Qed.
Lemma rest_fetch now id r e : rest (fetch_file now id r e) = rest e.
Proof.
  unfold fetch_file. destruct (register_want _ _) as [l act]. unfold broadcast_want. rw field_publish //. by destruct act.
Qed.
Lemma rest_publish_updates now c l e : rest (publish_updates now c l e) = rest e.
Proof.
  unfold publish_updates.
  assert (Hf : ∀ l' acc, rest (foldl (publish_one now) acc l').1 = rest acc.1).
  { induction l' as [|n l' IH]; intros [e0 t]; [done|]. cbn [foldl]. rw IH. unfold publish_one, broadcast_offer.
    cbn [fst]. by rw field_publish. }
  specialize (Hf l (e, 0%N)). destruct (foldl _ _ _) as [e1 total]. cbn [fst] in Hf. destruct l as [|first l]; [done|].
  assert (Hp : rest (put_catalog now c first total (first :: l) e1).1 = rest e1).
  { unfold put_catalog. repeat case_match; done. }
  destruct (put_catalog _ _ _ _ _ _) as [e2 o]. unfold broadcast_catalog_update. rw field_publish //. cbn in Hp. by rw Hp.
Qed.
Lemma rest_check now p f v size crc e : rest (check_received now p f v size crc e).1 = rest e.
Proof.
  unfold check_received, pinned_fetch. destruct (pinned_fetches e !! (p, f)) as [pin0|].
  - destruct (pf_expires_at pin0 <? now)%N; repeat case_match; cbn [fst]; try done; by rw field_unpin.
  - repeat case_match; done.
Qed.
Lemma rest_complete id e : rest (complete_transfer id e) = rest e.
Proof. unfold complete_transfer. by case_match. Qed.

(** The tasks after an operation: those before, and the one it spawns. *)
Definition spawned (local : PeerId) (shared : gmap (string * FileId) SharedFileRecord) (o : ExOp) (t : Task) : Prop :=
  match o, t with
  | XShareAndSend now id r, TaskSendAfterShare r' id' => r' = r ∧ id' = id
  | XWant p q f v, TaskServeFromHistory p' q' f' v' => q ≠ local ∧ p' = p ∧ q' = q ∧ f' = f ∧ v' = v
  | XWant p q f v, TaskShareAndSend r =>
      q ≠ local ∧ ∃ rec, shared !! (p, f) = Some rec ∧ sr_project_id r = sf_project_id rec ∧ sr_file_id r = f ∧
        sr_target_peer r = Some q ∧ sr_version r = sf_version rec ∧ (v = 0%N ∨ v = sf_version rec)
  | XPostReceive p f v q, TaskPostReceive p' f' v' q' => p' = p ∧ f' = f ∧ v' = v ∧ q' = q
  | _, _ => False
  end.

Lemma step_tasks e o :
  local_peer_id (ex_step e o) = local_peer_id e ∧
  ∀ t, t ∈ tasks (ex_step e o) →
    t ∈ tasks e ∨ spawned (local_peer_id e) (shared_files e) o t ∨
    ∃ r id, t = TaskSendAfterShare r id ∧
      (TaskShareAndSend r ∈ tasks e ∨
       ∃ q, sr_target_peer r = Some q ∧ TaskServeFromHistory (sr_project_id r) q (sr_file_id r) (sr_version r) ∈ tasks e).
Proof.
  assert (Hr : rest (ex_step e o) = rest e → local_peer_id (ex_step e o) = local_peer_id e ∧
    ∀ t, t ∈ tasks (ex_step e o) → t ∈ tasks e ∨ spawned (local_peer_id e) (shared_files e) o t ∨ ∃ r id,
      t = TaskSendAfterShare r id ∧ (TaskShareAndSend r ∈ tasks e ∨
       ∃ q, sr_target_peer r = Some q ∧ TaskServeFromHistory (sr_project_id r) q (sr_file_id r) (sr_version r) ∈ tasks e)).
  { intros [= -> ->]. auto. }
  destruct o; try (by apply Hr); cbn [ex_step] in *.
  - apply Hr. by rw field_unpin.
  - apply Hr, rest_complete.
  - apply Hr. unfold update_progress. by case_match.
  - apply Hr. unfold cancel_transfer. destruct (transfers e !! id) as [t|]; [|done]. cbn [fst].
    destruct (at_direction t); [done|]. unfold rest. cbn. by rw !field_unpin.
  - apply Hr. unfold pause_transfer. by repeat case_match.
  - apply Hr. unfold resume_transfer. by repeat case_match.
  - apply Hr, rest_share_file.
  - pose proof (rest_share_file now id r e) as Hs. injection Hs as Ht Hl. split; [done|]. cbn. rw Ht. intros t [?| ->%list_elem_of_singleton]%elem_of_app; [by left|]. right. by left.
  - apply Hr, rest_fetch.
  - apply Hr, rest_publish_updates.
  - revert Hr. unfold handle_file_want. case_bool_decide as Hq; intros Hr; [by apply Hr|].
    destruct (quic_attached e); [|by apply Hr]. cbn [negb]. clear Hr.
    assert (Hs : local_peer_id (serve_from_history project_id requester file_id version e) = local_peer_id e ∧
      ∀ t, t ∈ tasks (serve_from_history project_id requester file_id version e) → t ∈ tasks e ∨
        spawned (local_peer_id e) (shared_files e) (XWant project_id requester file_id version) t).
    { unfold serve_from_history. repeat case_match; [by auto..|]. split; [done|]. cbn.
      intros t [?| ->%list_elem_of_singleton]%elem_of_app; [by left|by right]. }
    destruct (shared_files e !! (project_id, file_id)) as [r|] eqn:Hsh; [|naive_solver].
    destruct (negb (version =? 0)%N && negb (version =? sf_version r)%N) eqn:Hv; [naive_solver|].
    split; [done|]. cbn. intros t [?| ->%list_elem_of_singleton]%elem_of_app; [by left|]. right. left. split; [done|]. exists r.
    split_and!; try done. apply andb_false_iff in Hv as [Hv|Hv]; bool_to_prop; auto.
  - apply Hr. unfold handle_file_offer. by case_match.
  - apply Hr, rest_check.
  - apply Hr. unfold commit_received. case_match; [by rw field_unpin|done].
  - split; [done|]. cbn. intros t [?| ->%list_elem_of_singleton]%elem_of_app; [by left|]. right. by left.
  - apply Hr. unfold finish_received. by rw rest_complete.
  - destruct (tasks e !! i) as [t|] eqn:Hi; [|by apply Hr]. clear Hr. apply list_elem_of_lookup_2 in Hi.
    assert (Hdel : ∀ x, x ∈ delete i (tasks e) → x ∈ tasks e).
    { intros x. apply list_elem_of_delete_inv. }
    assert (Hsend : ∀ r,
      tasks (share_and_send now id r (remove_task i e)) = delete i (tasks e) ++ [TaskSendAfterShare r id] ∧
      local_peer_id (share_and_send now id r (remove_task i e)) = local_peer_id e).
    { intros r. pose proof (rest_share_file now id r (remove_task i e)) as Hs. injection Hs as Hs1 Hs2.
      cbn. by rw Hs1 Hs2. }
    destruct t as [r|p q f v|r id'|p f v q]; cbn [start_task].
    + destruct (Hsend r) as [-> ->]. split; [done|]. intros t [?| ->%list_elem_of_singleton]%elem_of_app; [auto|]. right. right. eauto.
    + unfold serve_hit. destruct hit as [h|]; [|split; [done|]; cbn; auto].
      destruct (Hsend (mk_ShareRequest p f (hit_path h) (hit_size h) (hit_crc h) Interactive (Some q) v)) as [-> ->].
      split; [done|]. intros t [?| ->%list_elem_of_singleton]%elem_of_app; [auto|]. right. right. do 2 eexists. split; [done|]. right. by exists q.
    + split; [done|]. cbn. auto.
    + split; [done|]. cbn. auto.
Qed.

Lemma tasks_trace e l :
  ex_typed e → tasks e = [] → Forall (task_ok (local_peer_id e) l) (tasks (ex_run e l)).
Proof.
  intros Hty He. assert (H' : ex_typed (ex_run e l) ∧ local_peer_id (ex_run e l) = local_peer_id e ∧
    Forall (task_ok (local_peer_id e) l) (tasks (ex_run e l))); [|apply H'].
  induction l as [|o l (IHt & IHl & IH)] using rev_ind; [by cbn; rw He|].
  unfold ex_run in *. rw foldl_snoc. set (e1 := foldl ex_step e l) in *.
  destruct (step_tasks e1 o) as [Hl Ht]. split; [by apply typed_step|]. split; [by rw Hl|]. rw IHl in Ht.
  rw Forall_forall in IH. apply Forall_forall. intros t [Hin|[Hsp|(r & id & -> & Hor)]]%Ht.
  - by apply task_ok_mono, IH.
  - destruct o, t; cbn in Hsp; try done; cbn.
    + destruct Hsp as [-> ->]. left. exists now. set_solver.
    + destruct Hsp as (Hq & rec & Hrec & Hp & -> & -> & Hv & Hor). exists requester. split; [done|]. split; [done|].
      rw Hp (ty_shared _ IHt _ _ Hrec) Hv. exists version. split; [set_solver|done].
    + destruct Hsp as (Hq & -> & -> & -> & ->). split; [done|]. eexists. split; [|by right]. apply elem_of_app. right. by apply list_elem_of_singleton.
    + destruct Hsp as (-> & -> & -> & ->). set_solver.
  - destruct Hor as [Hin|(q & Hq & Hin)].
    + apply IH in Hin. right. destruct Hin as (q & ? & ?). exists q. split; [done|]. unfold wanted_by in *. set_solver.
    + apply IH in Hin. right. exists q. split; [done|]. cbn in Hin. unfold wanted_by in *. set_solver.
Qed.
End solicited.

(** ** What is accepted *)

(** The version is newer than the local record, or the same with the same content. *)
Definition newer_or_same (o : option SharedFileRecord) (v size crc : N) : Prop :=
  match o with
  | Some r => (sf_version r < v)%N ∨ (sf_version r = v ∧ sf_file_size r = size ∧ sf_crc r = crc)
  | None => True
  end.

Lemma newer_or_same_spec r v size crc :
  (v <? sf_version r)%N || (sf_version r =? v)%N && (negb (sf_file_size r =? size)%N || negb (sf_crc r =? crc)%N) = false →
  newer_or_same (Some r) v size crc.
Proof.
  intros [Hv Hc]%orb_false_iff. cbn. bool_to_prop. destruct (decide (sf_version r = v)) as [E|]; [right|left; lia].
  destruct Hc as [Hc|Hc]; bool_to_prop; done.
Qed.

Lemma check_accepts now p f v size crc e e' pinned :
  check_received now p f v size crc e = (e', Ok pinned) →
  newer_or_same (shared_file_record e p f) v size crc ∨
  ∃ pin, pinned_fetches e !! (p, f) = Some pin ∧ pf_version pin = v ∧ (now ≤ pf_expires_at pin)%N ∧
    check_pin size crc (Some pin) = true.
Proof.
  unfold check_received.
  assert (Hsh : shared_file_record (pinned_fetch now p f v e).1 p f = shared_file_record e p f).
  { unfold shared_file_record, pinned_fetch. destruct (pinned_fetches e !! (p, f)) as [pin|]; [|done].
    case_match; [by rw /= field_unpin|done]. }
  assert (Hpin : ∀ pin, (pinned_fetch now p f v e).2 = Some pin →
    pinned_fetches e !! (p, f) = Some pin ∧ pf_version pin = v ∧ (now ≤ pf_expires_at pin)%N).
  { intros pin. unfold pinned_fetch. destruct (pinned_fetches e !! (p, f)) as [pin'|]; [|done].
    split_guard; [done|]. cbn. split_guard; [|done]. intros [= <-]. by bool_to_prop. }
  destruct (pinned_fetch now p f v e) as [e1 [pin|]]; cbn [fst snd] in *.
  - destruct (check_pin size crc (Some pin)) eqn:Hc; cbn [negb]; [|done]. intros _. right.
    destruct (Hpin pin eq_refl) as (? & ? & ?). by exists pin.
  - cbn. rw Hsh. destruct (shared_file_record e p f) as [r|]; [|by left]. rw andb_true_r.
    split_guard; [done|]. intros _. left. by apply newer_or_same_spec.
Qed.

(** ** Theorems *)
Section theorems.
Context `{Blake3, Crc32, Hex, Ed25519, HeapPick, !HeapPickLaws, !MapIter MessageId N, !MapIterLaws MessageId N,
  !Codec RootCatalog}.

(** C9: Whatever operations and spawned tasks run, in any order, the exchange stays well formed:
    every transfer, shared file, want and offer is filed under its own key, the ledger and the
    content store keep their invariants, and the gossip node stays within its bounds. *)
Theorem exchange_well_formed e l : ex_typed e → ex_typed (ex_run e l).
Proof. unfold ex_run. revert e. induction l as [|o l IH]; intros e He; [done|]. by apply IH, typed_step. Qed.

(** C8: A transfer keeps its file, peer, size, version and direction; its state changes only by the
    transitions of [moves], each caused by an operation on this very transfer; a finished transfer
    stays finished.  This goes on until the collection of finished transfers removes the entry or
    a file arrives under the same identifier, which its sender chose: then the entry is that of the
    file that arrived.  The identifiers that the node draws itself are not drawn twice. *)
Theorem transfer_lifecycle e l id t :
  transfers e !! id = Some t → Forall (λ o, draws id o = false) l →
  (∃ t', transfers (ex_run e l) !! id = Some t' ∧ same_transfer t t' ∧ lives id l (at_state t) (at_state t') ∧
     (is_finished (at_state t) = true → is_finished (at_state t') = true) ∧ Forall (λ o, arrives id o = false) l) ∨
  (∃ l1 l2 s, l = l1 ++ XGc :: l2 ∧ lives id l1 (at_state t) s ∧ is_finished s = true ∧ Forall (λ o, arrives id o = false) l1) ∨
  (∃ l1 f r q l2 s, l = l1 ++ XFinish id f r q :: l2 ∧ lives id l1 (at_state t) s ∧ Forall (λ o, arrives id o = false) l1 ∧
     transfers (ex_run e (l1 ++ [XFinish id f r q])) !! id = Some (arrived_entry id f r q)).
Proof.
  unfold ex_run. revert e t. induction l as [|o l IH]; intros e t Ht Hl.
  { left. exists t. by split_and!; [|done|constructor|done|constructor]. }
  apply Forall_cons in Hl as [Ho Hl]. destruct (arrives id o) eqn:Ha.
  { right; right. destruct o as [| | | | | | | | | | | | | | | | | | |i f r q|]; try done. cbn in Ha. bool_to_prop. subst i.
    exists [], f, r, q, l, (at_state t). split_and!; [done|constructor|constructor|apply arrives_entry]. }
  pose proof (step_transfer e o id t Ht Ho Ha) as Hs. cbn [foldl].
  destruct (transfers (ex_step e o) !! id) as [t1|] eqn:Ht1.
  2:{ right; left. destruct Hs as [-> Hs]. exists [], l, (at_state t). by split_and!; [|constructor| |constructor]. }
  destruct Hs as [Hsame Hmove]. assert (Hone : ∀ l' s, lives id l' (at_state t1) s → lives id (o :: l') (at_state t) s).
  { intros l' s Hs. destruct Hmove as [E|Hm]; [rw E in Hs; by constructor|by eapply lives_move]. }
  destruct (IH _ _ Ht1 Hl) as [(t' & Ht' & Hsame' & Hl' & _ & Hn)|[(l1 & l2 & s & -> & Hl' & Hf & Hn)|
    (l1 & f & r & q & l2 & s & -> & Hl' & Hn & He)]].
  - left. exists t'. unfold same_transfer in *. split_and!; [done|intuition congruence..|by apply Hone| |by constructor].
    apply (lives_finished id (o :: l)). by apply Hone.
  - right; left. exists (o :: l1), l2, s. split_and!; [done|by apply Hone|done|by constructor].
  - right; right. exists (o :: l1), f, r, q, l2, s. split_and!; [done|by apply Hone|by constructor|done].
Qed.

(** C7: A received version is accepted over a newer or a different local one only if this very
    version was asked for within the last five minutes and nothing done since with the file has
    superseded the request, and then only with the size and checksum that were asked for. *)
Theorem rollback_only_on_request e l now p f v size crc e' pinned :
  pinned_fetches e = ∅ → check_received now p f v size crc (ex_run e l) = (e', Ok pinned) →
  newer_or_same (shared_file_record (ex_run e l) p f) v size crc ∨
  ∃ l1 t expected l2, l = l1 ++ XPin t p f v expected :: l2 ∧ Forall (λ o, supersedes p f v o = false) l2 ∧
    (now ≤ sat_add t PINNED_FETCH_TTL_MS)%N ∧ ∀ s c, expected = Some (s, c) → size = s ∧ crc = c.
Proof.
  intros He [?|(pin & Hp & <- & Hexp & Hc)]%check_accepts; [by left|right].
  destruct (pins_trace e l p f pin He Hp) as (l1 & t & l2 & -> & Ht & Hl2).
  exists l1, t, (pf_expected_size_crc pin), l2. split_and!; [done..|lia|]. intros s c Hs. revert Hc.
  unfold check_pin. cbn. rw Hs. intros Hc. by bool_to_prop.
Qed.

(** Data is sent only where it was asked for: every transmission that is waiting to be sent was
    requested locally or answers a want of the very peer it goes to, another than the node
    itself, for the same file of the same project and for this version or the newest one. *)
Theorem sends_are_solicited e l r id :
  ex_typed e → tasks e = [] → TaskSendAfterShare r id ∈ tasks (ex_run e l) →
  (∃ now, XShareAndSend now id r ∈ l) ∨
  ∃ q v, sr_target_peer r = Some q ∧ q ≠ local_peer_id e ∧ XWant (sr_project_id r) q (sr_file_id r) v ∈ l ∧
    (v = 0%N ∨ v = sr_version r).
Proof.
  intros Hty He Hin. pose proof (tasks_trace e l Hty He) as Ht. rw Forall_forall in Ht.
  destruct (Ht _ Hin) as [?|(q & Hq & Hne & v & ? & ?)]; [by left|right]. by exists q, v.
Qed.
End theorems.

(** ** Witnesses *)
Module ExWitness.
#[export] Existing Instances Toy.toy_blake3 Toy.toy_hex Toy.toy_crc32 Toy.toy_ed25519 Gossip.Witness.pick
  Gossip.Witness.pick_laws.
#[export] Instance iter : MapIter MessageId N := toy_iter.
#[export] Instance iter_laws : MapIterLaws MessageId N := toy_iter_laws.
#[export] Instance catalog_codec : Codec RootCatalog := {| to_vec _ := Some [x01]; from_slice _ := None |}.

Definition e0 : Exchange :=
  with_network "me" (Some (new_gossip 8 4)) true true (Some (mk_MemoryContentStore ∅)).
Definition file (v : N) : PublishNotification := mk_PublishNotification "p" "a.txt" ["proj"; "a.txt"] 3 7 v.
Definition old : SharedFileRecord := mk_SharedFileRecord "p" ["proj"; "a.txt"] 2 9 1.
Definition fetch : FetchRequest := mk_FetchRequest "p" "b.txt" (Some "peer") Interactive 4.

(** A file is published, a peer wants it, and the task that answers runs. *)
Definition served : list ExOp := [XPublish 1 "c" [file 2]; XWant "p" "peer" "a.txt" 0; XTask 0 5 "t1" None].
Definition request : ShareRequest :=
  mk_ShareRequest "p" "a.txt" ["proj"; "a.txt"] 3 7 Interactive (Some "peer") 2.

Lemma typed0 : ex_typed e0.
Proof.
  split; try (by intros ??; rw lookup_empty).
  - intros s [= <-]. intros ??. by rw lookup_empty.
  - intros g [= <-]. split; [unfold cache_ok; cbn; rw map_size_empty; lia|]. intros ??. by rw lookup_empty.
Qed.
End ExWitness.
Import (hints) ExWitness.

Lemma exchange_well_formed_witness :
  transfers (ex_run ExWitness.e0 ExWitness.served) !! "t1" ≠ None ∧ ex_typed (ex_run ExWitness.e0 ExWitness.served).
Proof.
  split; [vm_compute; discriminate|]. exact (exchange_well_formed _ ExWitness.served ExWitness.typed0).
Defined.

(** A fetch starts, is paused, resumed and completed. *)
Lemma transfer_lifecycle_witness :
  ∃ t', transfers (ex_run (ex_run ExWitness.e0 [XFetch 1 "t" ExWitness.fetch])
    [XProgress "t" 1 1; XPause "t"; XResume "t"; XComplete "t"]) !! "t" = Some t' ∧
    at_version t' = 4%N ∧ at_state t' = TCompleted.
Proof.
  set (e := ex_run ExWitness.e0 [XFetch 1 "t" ExWitness.fetch]).
  set (l := [XProgress "t" 1 1; XPause "t"; XResume "t"; XComplete "t"]).
  set (t := mk_ActiveTransfer "t" "p" "b.txt" "b.txt" 0 0 0 Receive "peer" TQueued Interactive 4).
  assert (Hl : Forall (λ o, draws "t" o = false) l) by (repeat constructor).
  assert (Ht : transfers e !! "t" = Some t) by (vm_compute; reflexivity).
  destruct (transfer_lifecycle e l "t" t Ht Hl) as [(t' & Ht' & Hsame & _)|[(l1 & l2 & s & E & _)|(l1 & f & r & q & l2 & s & E & _)]].
  - exists t'. split; [exact Ht'|]. split; [apply Hsame|].
    assert (Hs : at_state <$> transfers (ex_run e l) !! "t" = Some TCompleted) by (vm_compute; reflexivity).
    rewrite Ht' in Hs. by injection Hs.
  - exfalso. assert (Hin : XGc ∈ l) by (rewrite E; set_solver). unfold l in Hin. set_solver.
  - exfalso. assert (Hin : XFinish "t" f r q ∈ l) by (rewrite E; set_solver). unfold l in Hin. set_solver.
Defined.

(** A peer that was sent a file knows the identifier of the transfer: a file it sends back under it takes the entry's place. *)
Example arrival_takes_over :
  let e := ex_run ExWitness.e0 [XShareAndSend 1 "t" ExWitness.request; XProgress "t" 1 1] in
  let e' := ex_run e [XFinish "t" "b.txt" ExWitness.old "peer"] in
  (at_file_id <$> transfers e !! "t") = Some "a.txt" ∧ (at_state <$> transfers e !! "t") = Some TRunning ∧
  (at_file_id <$> transfers e' !! "t") = Some "b.txt" ∧ (at_direction <$> transfers e' !! "t") = Some Receive ∧
  (at_state <$> transfers e' !! "t") = Some TCompleted.
Proof. vm_compute. split_and!; reflexivity. Qed.

(** A checkout asks for version 1 although version 2 is there: it is accepted. *)
Lemma rollback_only_on_request_witness :
  (check_received 20 "p" "a.txt" 1 2 9 (ex_run ExWitness.e0 [XPublish 1 "c" [ExWitness.file 2]; XPin 10 "p" "a.txt" 1 (Some (2, 9)%N)])).2
    = Ok true ∧
  ∃ l1 t expected l2, [XPublish 1 "c" [ExWitness.file 2]; XPin 10 "p" "a.txt" 1 (Some (2, 9)%N)] =
    l1 ++ XPin t "p" "a.txt" 1 expected :: l2 ∧ (20 ≤ sat_add t PINNED_FETCH_TTL_MS)%N.
Proof.
  set (l := [XPublish 1 "c" [ExWitness.file 2]; XPin 10 "p" "a.txt" 1 (Some (2, 9)%N)]).
  set (run := check_received 20 "p" "a.txt" 1 2 9 (ex_run ExWitness.e0 l)).
  assert (Hrun : run.2 = Ok true) by (vm_compute; reflexivity). split; [exact Hrun|].
  assert (Hpair : run = (run.1, Ok true)) by (rewrite -Hrun; apply surjective_pairing).
  destruct (rollback_only_on_request ExWitness.e0 l 20 "p" "a.txt" 1 2 9 run.1 true eq_refl Hpair)
    as [Hn|(l1 & t & expected & l2 & E & _ & Hle & _)].
  - exfalso. revert Hn. vm_compute. intros [?|[? _]]; discriminate.
  - exists l1, t, expected, l2. split; [exact E|exact Hle].
Defined.

Lemma sends_are_solicited_witness :
  ∃ q v, sr_target_peer ExWitness.request = Some q ∧ q ≠ "me" ∧ XWant "p" q "a.txt" v ∈ ExWitness.served.
Proof.
  destruct (sends_are_solicited ExWitness.e0 ExWitness.served ExWitness.request "t1" ExWitness.typed0 eq_refl)
    as [[now Hin]|(q & v & Hq & Hne & Hin & _)].
  - assert (Ht : tasks (ex_run ExWitness.e0 ExWitness.served) = [TaskSendAfterShare ExWitness.request "t1"])
      by (vm_compute; reflexivity). rewrite Ht. left.
  - exfalso. unfold ExWitness.served in Hin. set_solver.
  - exists q, v. split; [exact Hq|]. split; [exact Hne|exact Hin].
Defined.
