(* ===== verification/Incoming.v ===== *)
(** * Receiving and sending files

    [handle_incoming_transfer], [execute_send] and [spawn_send_after_share] of
    [synergos-core/src/exchange/mod.rs] on the disk, with the closures that
    [synergos-core/src/daemon.rs] and [history/wiring.rs] attach to the exchange: the project
    manager resolves the destination and records the version, the history store archives it.

    A [Node] is the exchange together with the project manager and the disk.  A stream is the
    list of bytes that arrives; what is sent is the list of bytes written. *)

From S2P Require Import Prelude Crypto Types Identity Ledger Gossip Content Transfer Fs FsPlain Manifest.
From S2P Require Import Project Retention HistoryIndex Tags HistoryStore StoreInv StoreOps Exchange.

(** Fields of the header. *)
Abbreviation h_transfer_id := Transfer.transfer_id.
Abbreviation h_project_id := Transfer.project_id.
Abbreviation h_file_id := Transfer.file_id.
Abbreviation h_version := Transfer.version.
Abbreviation h_total_size := Transfer.total_size.

(** [sent] are the streams written so far, with the peer each went to. *)
Record Node := mk_Node { nd_ex : Exchange; nd_st : State; sent : list (PeerId * bytes) }.

Abbreviation NIO A := (ST Node FileSharingError A).

(** A computation of the project manager, and one on its disk. *)
Definition on_pm {A} (m : ST State IoError A) : NIO A := λ n,
  let '(r, s) := m (nd_st n) in (map_err SIoError r, mk_Node (nd_ex n) s (sent n)).
Definition io {A} (m : IO A) : NIO A := on_pm (lift_io m).
Definition on_ex (f : Exchange → Exchange) : NIO () := modify (λ n, mk_Node (f (nd_ex n)) (nd_st n) (sent n)).
(** An operation of the exchange with a result. *)
Definition on_ex_result {A} (f : Exchange → Exchange * result FileSharingError A) : NIO A := λ n,
  let '(e, r) := f (nd_ex n) in (r, mk_Node e (nd_st n) (sent n)).

(** [let _ = tokio::fs::remove_file(&tmp).await; return Err(error);]. *)
Definition give_up_on {A} (tmp : path) (e : FileSharingError) : NIO A := _ ← ignore (io (remove_file tmp)); throw e.

(** [match m { Ok(a) => a, Err(e) => { remove_file(tmp); return Err(e) } }]. *)
Definition or_remove {A} (tmp : path) (m : NIO A) : NIO A :=
  r ← try_ m;
  match r with Ok a => mret a | Err e => give_up_on tmp e end.

Section incoming.
Context `{Blake3, Crc32, Hex, !Codec FrameKind, !Codec ProjectManifest, !Codec VersionState, !Codec HistoryIndex,
  !Codec ObjectMeta, !Codec Tag, DirOrder}.

(** ** The closures of the daemon *)

(** [OutPathResolver]: a failure is [None]. *)
Definition out_path_resolver (project_id : string) (file_id : FileId) : NIO (option path) :=
  r ← try_ (on_pm (resolve_file_path project_id file_id));
  mret (match r with Ok o => o | Err _ => None end).

Definition incoming_dir_resolver (project_id : string) (n : Node) : option path :=
  (λ root, root ++ [META_DIR; INCOMING_DIR]) <$> project_root (pm (nd_st n)) project_id.

(** [ReceivedHook]: a failure is logged. *)
Definition received_hook (now : N) (uuid1 uuid2 : string) (file_id : FileId) (r : SharedFileRecord)
    (sender : PeerId) (pinned : bool) : NIO () :=
  ignore (on_pm (record_received_file now uuid1 uuid2 (sf_project_id r) file_id (sf_version r) (sf_file_size r)
    (sf_crc r) sender pinned)).

(** [build_hooks]: the archive of a version. *)
Definition archive_hook (us : nat → string) (now : N) (c : HistoryConfig) (r : ArchiveRequest) : NIO () :=
  n ← gets id;
  match project_root (pm (nd_st n)) (ar_project_id r) with
  | None => mret ()
  | Some root =>
      _ ← io (archive us now c root (ar_project_id r) (ar_file_id r) (ar_version r) (ar_size r) (ar_crc r)
                (ar_publisher r) (ar_source r) (ar_path r));
      mret ()
  end.

Definition archive_to_history (us : nat → string) (now : N) (c : HistoryConfig) (r : ArchiveRequest) : NIO () :=
  n ← gets id;
  if history_attached (nd_ex n) then archive_hook us now c r else mret ().

(** ** Receiving *)

(** [receive_over_quic_with_header]: the body of the stream is written to [tmp]. *)
Definition receive_to (s : bytes) (h : TransferHeader) (tmp : path) : IO (result NetError TransferHeader) :=
  _ ← create_dir_all (parent tmp);
  let '(file, r) := receive_over_quic_with_header s h in
  _ ← write tmp file;
  mret r.

(** Where the temporary file goes. *)
Definition receive_dir (temp_dir : path) (project_id : string) : NIO path :=
  n ← gets id;
  match incoming_dir_resolver project_id n with
  | Some requested =>
      if (length requested <? 2)%nat then throw (SNetworkError "incoming directory has no parent")
      else
        let metadata_dir := parent requested in
        if negb (bool_decide (last requested = Some INCOMING_DIR)) ||
           negb (bool_decide (last metadata_dir = Some META_DIR))
        then throw (SNetworkError "incoming directory must be <project>/.synergos/incoming")
        else io (incoming_dir (parent metadata_dir))
  | None => _ ← io (create_dir_all temp_dir); mret temp_dir
  end.

Definition resolve_or_fail (h : TransferHeader) : NIO path :=
  o ← out_path_resolver (h_project_id h) (h_file_id h);
  match o with Some p => mret p | None => throw (SFileNotFound (h_file_id h)) end.

(** The received content is in [tmp] and has passed the checks of the stream: it is checked
    against the exchange and put in place. *)
Definition place_received (now : N) (h : TransferHeader) (final_path tmp : path) :
    NIO (SharedFileRecord * bool) :=
  '(crc, _) ← or_remove tmp (io (crc32_of_file tmp));
  let version := N.max (h_version h) 1 in
  if (version =? u64_max)%N then give_up_on tmp (SNetworkError "refusing invalid maximum file version")
  else
    pinned ← or_remove tmp
      (on_ex_result (check_received now (h_project_id h) (h_file_id h) version (h_total_size h) crc));
    _ ← io (create_dir_all (parent final_path));
    checked_final ← resolve_or_fail h;
    if negb (bool_decide (checked_final = final_path)) then
      give_up_on tmp (SNetworkError "receive destination changed during validation")
    else
      _ ← or_remove tmp (io (replace_file_atomically tmp final_path));
      let r := mk_SharedFileRecord (h_project_id h) final_path (h_total_size h) crc version in
      _ ← on_ex (commit_received (h_file_id h) r pinned);
      mret (r, pinned).

(** Up to the commit: the header, the temporary file, the checks, the replacement. *)
Definition receive_file (now : N) (uuid : string) (temp_dir : path) (s : bytes) :
    NIO (TransferHeader * SharedFileRecord * bool) :=
  n ← gets id;
  if negb (quic_attached (nd_ex n)) then throw (SNetworkError "out_path_resolver not attached")
  else
    match peek_transfer_header s with
    | Err _ => throw (SNetworkError "peek_transfer_header")
    | Ok (h, s) =>
        final_path ← resolve_or_fail h;
        tmp_dir ← receive_dir temp_dir (h_project_id h);
        let tmp := tmp_dir ++ ["incoming-" +:+ uuid +:+ ".part"] in
        r ← try_ (io (receive_to s h tmp));
        match r with
        | Ok (Ok h) =>
            '(rec, pinned) ← place_received now h final_path tmp;
            mret (h, rec, pinned)
        | _ => give_up_on tmp (SNetworkError "receive_over_quic")
        end
    end.

(** After the commit: manifest, history, hooks, the table of transfers. *)
Definition announce_received (now : N) (uuid1 uuid2 : string) (us : nat → string) (c : HistoryConfig)
    (sender : PeerId) (h : TransferHeader) (r : SharedFileRecord) (pinned : bool) : NIO () :=
  _ ← received_hook now uuid1 uuid2 (h_file_id h) r sender pinned;
  _ ← ignore (archive_to_history us now c (mk_ArchiveRequest (h_project_id h) (h_file_id h) (sf_version r)
                (h_total_size h) (sf_crc r) sender "received" (sf_file_path r)));
  _ ← on_ex (spawn (TaskPostReceive (h_project_id h) (h_file_id h) (sf_version r) sender));
  on_ex (finish_received (h_transfer_id h) (h_file_id h) r sender).

Definition handle_incoming_transfer (now : N) (uuid uuid1 uuid2 : string) (us : nat → string) (temp_dir : path)
    (c : HistoryConfig) (s : bytes) (sender : PeerId) : NIO () :=
  '(h, r, pinned) ← receive_file now uuid temp_dir s;
  announce_received now uuid1 uuid2 us c sender h r pinned.

(** ** Sending *)

(** [execute_send]: [opened] is the answer of [open_stream], [ps] are the progress reports
    that get through, with their speeds. *)
Definition execute_send (opened : bool) (ps : list (N * N)) (id : TransferId) (target : PeerId) (source_path : path)
    (h : TransferHeader) : NIO () :=
  n ← gets nd_ex;
  if negb (quic_attached n) then throw (SNetworkError "QUIC not attached")
  else if negb opened then throw (SNetworkError "open_stream")
  else
    content ← io (read source_path);
    _ ← on_ex (λ e, foldl (λ e '(b, sp), update_progress id b sp e) e ps);
    let '(out, r) := send_over_quic content h in
    _ ← modify (λ n, mk_Node (nd_ex n) (nd_st n) (sent n ++ [(target, out)]));
    match r with
    | Ok _ => on_ex (complete_transfer id)
    | Err _ => _ ← on_ex (fail_transfer id "send"); throw (SNetworkError "send_over_quic")
    end.

(** [spawn_send_after_share]: the task that transmits a shared file. *)
Definition send_after_share (opened : bool) (ps : list (N * N)) (r : ShareRequest) (id : TransferId) : NIO () :=
  match sr_target_peer r with
  | None => mret ()
  | Some target =>
      n ← gets nd_ex;
      if negb (quic_attached n) then mret ()
      else
        f ← try_ (io (read (sr_file_path r)));
        match f with
        | Err _ => on_ex (fail_transfer id "hash_file")
        | Ok content =>
            let '(hash, size, chunks) := hash_file content in
            ignore (execute_send opened ps id target (sr_file_path r)
              (mk_TransferHeader id (sr_project_id r) (sr_file_id r) size chunks hash (sr_version r)))
        end
  end.
End incoming.

(** ** Reading a node *)
Definition ndisk (n : Node) : Fs := disk (world (nd_st n)).
Definition npm (n : Node) : ProjectManager := pm (nd_st n).

Lemma wp_io {A} (m : IO A) (Q : result FileSharingError A → Node → Prop) n :
  wp m (λ r w, Q (map_err SIoError r)
    (mk_Node (nd_ex n) (mk_State (pm (nd_st n)) w (state_cell (nd_st n))) (sent n))) (world (nd_st n)) →
  wp (io m) Q n.
Proof. unfold wp, io, on_pm, lift_io. by destruct (m _). Qed.

Lemma wp_on_ex f (Q : result FileSharingError () → Node → Prop) n :
  Q (Ok ()) (mk_Node (f (nd_ex n)) (nd_st n) (sent n)) → wp (on_ex f) Q n.
Proof. done. Qed.

Lemma wp_on_ex_result {A} (f : Exchange → Exchange * result FileSharingError A)
    (Q : result FileSharingError A → Node → Prop) n :
  Q (f (nd_ex n)).2 (mk_Node (f (nd_ex n)).1 (nd_st n) (sent n)) → wp (on_ex_result f) Q n.
Proof. unfold wp, on_ex_result. by destruct (f _). Qed.

(** Only the faults ahead may differ. *)
Definition same_node (n n' : Node) : Prop :=
  nd_ex n' = nd_ex n ∧ npm n' = npm n ∧ ndisk n' = ndisk n.

(** *** Resolving a destination *)

(** Entries have parents, and the root is not a link. *)
Record disk_wf (d : Fs) : Prop := {
  dw_tree : tree_wf d;
  dw_root : ∀ t, d !! [] ≠ Some (Symlink t);
}.

Lemma real_dir_nolink d q k t : disk_wf d → real_dir d q → d !! take k q ≠ Some (Symlink t).
Proof.
  intros Hd Hq Ht. specialize (Hq k). destruct (take k q) as [|x l]; [by apply (dw_root _ Hd t)|].
  unfold node_at in Hq. congruence.
Qed.

(** An entry of a directory that is not reached through a link. *)
Lemma plain_in_dir d p c :
  disk_wf d → real_dir d p → normal p → c ≠ ".." → (∀ t, d !! (p ++ [c]) ≠ Some (Symlink t)) → plain d (p ++ [c]).
Proof.
  intros Hd Hr Hn Hc Hl. split; [by apply normal_snoc|]. intros k t. destruct (decide (k ≤ length p)) as [Hk|Hk].
  - rw take_app_le //. by apply real_dir_nolink.
  - rw take_ge; [rw length_app /=; lia|]. apply Hl.
Qed.

Lemma link_free_plain d cand comps :
  disk_wf d → normal (cand ++ comps) → link_free_below d cand comps → plain d (cand ++ comps).
Proof.
  intros Hd Hn Hl. split; [done|]. intros k t Ht. destruct Hl as [Hr|(pre & c & post & -> & Hr & Hc)].
  { by eapply real_dir_nolink. }
  rw (app_assoc cand) in Ht. destruct (decide (k ≤ length (cand ++ pre))) as [Hk|Hk].
  { rw take_app_le // in Ht. by eapply real_dir_nolink. }
  rw take_app_ge in Ht; [lia|]. destruct (k - length (cand ++ pre)) as [|j] eqn:Ej; [lia|]. cbn [take] in Ht.
  assert (E : (cand ++ pre) ++ c :: take j post = (cand ++ pre ++ [c]) ++ take j post) by by rw -!app_assoc.
  rw E in Ht. clear E. destruct (take j post) as [|x l _] eqn:Epost using rev_ind.
  - rw app_nil_r in Ht. destruct Hc as [Hc|[_ [b Hc]]]; congruence.
  - rw app_assoc in Ht. apply tree_wf_real_dir in Ht; [|apply Hd]. apply real_dir_app_l in Ht.
    rw app_assoc in Ht. apply real_dir_snoc in Ht as [_ Ht]. rw -app_assoc in Ht.
    destruct Hc as [Hc|[-> _]]; [congruence|]. rw take_nil in Epost. by destruct l.
Qed.

(** What [safe_join_under_root] answers, as a rule. *)
Lemma wp_safe_join root rel w :
  disk_wf (disk w) →
  wp (safe_join_under_root root rel) (λ r w', disk w' = disk w ∧ ∀ p, r = Ok (Some p) →
    ∃ croot local, canonicalize_at (disk w) root = Ok croot ∧ p = croot ++ local ∧ local ≠ [] ∧
      head local ≠ Some META_DIR ∧ real_dir (disk w) croot ∧ plain (disk w) p) w.
Proof.
  intros Hd. apply wp_intro. intros r w' E. split; [|intros p ->].
  - by apply safe_join_disk in E.
  - apply safe_join_inv in E as (_ & croot & local & ? & -> & _ & ? & _ & ? & ? & ? & ? & ?). exists croot, local.
    split_and!; [done..|]. apply link_free_plain; [done| |done]. unfold normal in *. set_solver.
Qed.

(** *** The directory of temporary files *)
Lemma resolve_mono links d d' cur rest q :
  (∀ p n, d !! p = Some n → d' !! p = Some n) → resolve links d cur rest = Ok q → resolve links d' cur rest = Ok q.
Proof.
  intros Hd. revert cur rest. induction links as [|links IHl]; intros cur rest;
    revert cur; induction rest as [|c rest IH]; intros cur; rw !(resolve_eq _ _ cur); try done.
  all: case_bool_decide; [apply IH|]. all: destruct (d !! (cur ++ [c])) as [[b| |t]|] eqn:E; try done.
  all: rw (Hd _ _ E); auto.
Qed.

Lemma canonical_plain d p q : disk_wf d → canonicalize_at d p = Ok q → plain d q.
Proof.
  intros Hd (Hn & Hr & Hq)%canonicalize_physical. split; [done|]. intros k t Ht.
  destruct (decide (k ≤ length q - 1)) as [Hk|Hk].
  - assert (E : take k q = take k (parent q)) by (unfold parent; by rw take_take Nat.min_l).
    rw E in Ht. by eapply real_dir_nolink.
  - rw take_ge in Ht; [lia|]. destruct q as [|x q]; [by apply (dw_root _ Hd t)|]. cbn in Hq.
    destruct Hq as [Hq|[b Hq]]; congruence.
Qed.

(** Nothing changes outside the metadata directory of [croot], and no link appears. *)
Record quiet (croot : path) (d d' : Fs) : Prop := {
  qt_wf : disk_wf d';
  qt_links : ∀ q t, d' !! q = Some (Symlink t) → d !! q = Some (Symlink t);
  qt_out : ∀ q, q ≠ [] → ¬ (croot ++ [META_DIR]) `prefix_of` q → d' !! q = d !! q;
  qt_dirs : ∀ q, d' !! q = d !! q ∨ q `prefix_of` (croot ++ [META_DIR; INCOMING_DIR]);
  qt_keeps : ∀ q x, d !! q = Some x → d' !! q = Some x;
}.

Lemma quiet_refl croot d : disk_wf d → quiet croot d d.
Proof. split; auto. Qed.
Lemma quiet_trans croot d1 d2 d3 : quiet croot d1 d2 → quiet croot d2 d3 → quiet croot d1 d3.
Proof.
  intros [_ Hl1 Ho1 Hd1 Hk1] [Hwf Hl Ho Hd2 Hk2]. split; [done|by auto|..].
  - intros q Hne Hq. rw Ho //. auto.
  - intros q. destruct (Hd2 q) as [->|?]; auto.
  - auto.
Qed.
Lemma quiet_plain croot d d' p : quiet croot d d' → plain d p → plain d' p.
Proof. intros [_ Hl _ _ _] [? Hp]. split; [done|]. intros k t ?%Hl. by eapply Hp. Qed.

Lemma quiet_dirs croot d d' sub :
  disk_wf d → real_dir d croot → sub `prefix_of` [INCOMING_DIR] → dirs_added (croot ++ META_DIR :: sub) d d' → quiet croot d d'.
Proof.
  intros Hd Hr Hsub Ha. assert (Hl : ∀ q t, d' !! q = Some (Symlink t) → d !! q = Some (Symlink t)).
  { intros q t. by eapply dirs_added_links. }
  split; [split; [apply Ha|]|done|..].
  { intros t Ht. by apply (dw_root _ Hd t), Hl. }
  2:{ intros q. destruct Ha as [_ Ha]. destruct (Ha q) as [?|(_ & _ & k & ->)]; [by left|right].
    etrans; [apply prefix_take|]. by apply prefix_app, prefix_cons. }
  2:{ intros q x. by eapply dirs_added_keeps. }
  intros q Hne Hq. destruct Ha as [_ Ha]. destruct (Ha q) as [?|(Hn & _ & k & ->)]; [done|]. exfalso.
  destruct (decide (k ≤ length croot)) as [Hk|Hk].
  - rw take_app_le // in Hn Hne. specialize (Hr k). destruct (take k croot) eqn:E; [done|unfold node_at in Hr; congruence].
  - apply Hq. rw take_app_ge; [lia|]. destruct (k - length croot) as [|j] eqn:Ej; [lia|]. cbn [take].
    exists (take j sub). by rw -app_assoc.
Qed.

Section metadata.
Context (root croot : path).

Lemma wp_metadata_file_path name w :
  disk_wf (disk w) → canonicalize_at (disk w) root = Ok croot → real_dir (disk w) croot →
  wp (metadata_file_path root name) (λ r w', disk w' = disk w ∧ ∀ p, r = Ok p →
    p = croot ++ [META_DIR; name] ∧ plain (disk w) (croot ++ [META_DIR])) w.
Proof.
  intros Hd Hc Hr. assert (Hn : normal croot) by by apply canonicalize_physical in Hc as (? & _).
  unfold metadata_file_path. wp_step. apply wp_query. intros r w1 Hw1 [->| ->]; [|done]. rw Hc.
  wp_step. wp_step. apply wp_query. intros r w2 Hw2 Hm. rw Hw1 in Hw2 Hm.
  rw symlink_metadata_entry // in Hm.
  assert (Hp : (∀ t, disk w !! (croot ++ [META_DIR]) ≠ Some (Symlink t)) → plain (disk w) (croot ++ [META_DIR])).
  { by apply plain_in_dir. }
  destruct r as [[b| |t]|e]; [by wp_step| |by wp_step|].
  - destruct Hm as [Hm|?]; [|done]. wp_step. apply wp_query. intros r w3 Hw3 _. rw Hw2 in Hw3.
    destruct r as [q|]; [|done]. case_match; wp_step; [|done]. split; [done|]. intros p [= <-].
    split; [by rw -app_assoc|]. apply Hp. intros t. by destruct (disk w !! _) as [[]|].
  - destruct e; try (by wp_step). wp_step. split; [done|]. intros p [= <-]. split; [by rw -app_assoc|].
    destruct Hm as [Hm|?]; [|done]. apply Hp. intros t. by destruct (disk w !! _).
Qed.

Lemma wp_prepare_metadata_dir w :
  disk_wf (disk w) → canonicalize_at (disk w) root = Ok croot → real_dir (disk w) croot →
  wp (prepare_metadata_dir root) (λ r w', quiet croot (disk w) (disk w') ∧
    ∀ p, r = Ok p → p = croot ++ [META_DIR] ∧ real_dir (disk w') p ∧ normal p) w.
Proof.
  intros Hd Hc Hr. unfold prepare_metadata_dir. wp_step.
  eapply wp_mono; [by apply wp_metadata_file_path|]. intros [p|e] w1 [Hw1 Hp]; [|rw Hw1; by split; [apply quiet_refl|]].
  destruct (Hp p eq_refl) as [-> Hpl]. wp_step.
  assert (Epar : parent (croot ++ [META_DIR; MANIFEST_FILE]) = croot ++ [META_DIR]).
  { change [META_DIR; MANIFEST_FILE] with ([META_DIR] ++ [MANIFEST_FILE]). by rw app_assoc parent_snoc. }
  rw Epar. eapply wp_mono; [apply wp_create_dirs; rw Hw1; [apply Hd|done]|]. rw Hw1. intros r w2 [Ha Hreal].
  assert (Hq : quiet croot (disk w) (disk w2)) by (eapply (quiet_dirs croot _ _ []); [done..|apply prefix_nil|done]).
  destruct r as [[]|e]; [|by split]. specialize (Hreal eq_refl). wp_step.
  eapply wp_mono; [apply wp_metadata_file_path|].
  - apply Hq.
  - eapply resolve_mono; [|exact Hc]. intros ??. by eapply dirs_added_keeps.
  - by apply real_dir_app_l in Hreal.
  - intros [p|e] w3 [Hw3 Hp3]; [|by rw Hw3]. wp_step. destruct (Hp3 p eq_refl) as [-> Hpl3]. rw Epar Hw3.
    split; [done|]. intros p [= <-]. split_and!; [done..|apply Hpl3].
Qed.

Lemma wp_incoming_dir w :
  disk_wf (disk w) → canonicalize_at (disk w) root = Ok croot → real_dir (disk w) croot →
  wp (incoming_dir root) (λ r w', quiet croot (disk w) (disk w') ∧
    ∀ p, r = Ok p → p = croot ++ [META_DIR; INCOMING_DIR] ∧ real_dir (disk w') p ∧ normal p) w.
Proof.
  intros Hd Hc Hr. unfold incoming_dir. wp_step. eapply wp_mono; [by apply wp_prepare_metadata_dir|].
  intros [p|e] w1 [Hq1 Hp]; [|done]. destruct (Hp p eq_refl) as (-> & Hr1 & Hn1). clear Hp.
  assert (Hd1 : disk_wf (disk w1)) by apply Hq1.
  wp_step. wp_step. apply wp_query. intros m w2 Hw2 Hm. rw symlink_metadata_entry // in Hm. wp_step.
  assert (Hk : (∀ t, disk w1 !! ((croot ++ [META_DIR]) ++ [INCOMING_DIR]) ≠ Some (Symlink t)) →
    wp (_ ← create_dir_all ((croot ++ [META_DIR]) ++ [INCOMING_DIR]);
        canonical ← canonicalize ((croot ++ [META_DIR]) ++ [INCOMING_DIR]);
        if path_starts_with (croot ++ [META_DIR]) canonical then mret canonical else throw PermissionDenied)
      (λ r w', quiet croot (disk w) (disk w') ∧
        ∀ p, r = Ok p → p = croot ++ [META_DIR; INCOMING_DIR] ∧ real_dir (disk w') p ∧ normal p) w2).
  { intros Hl. assert (Hpl : plain (disk w1) ((croot ++ [META_DIR]) ++ [INCOMING_DIR])).
    { by apply plain_in_dir. }
    wp_step. eapply wp_mono; [apply wp_create_dirs; rw Hw2; [apply Hd1|done]|]. rw Hw2. intros r w3 [Ha Hreal].
    assert (Hq3 : quiet croot (disk w) (disk w3)).
    { eapply quiet_trans; [done|]. apply (quiet_dirs croot _ _ [INCOMING_DIR]); [done|by apply real_dir_app_l in Hr1|done|].
      by rw -app_assoc in Ha. }
    destruct r as [[]|e]; [|done]. specialize (Hreal eq_refl). wp_step. apply wp_query. intros r w4 Hw4 Hcan.
    rw canonicalize_real_dir // in Hcan; [by apply normal_snoc|]. destruct Hcan as [->| ->]; [|by rw Hw4].
    rw -app_assoc in Hreal |- *. cbn [app]. case_match; wp_step; rw Hw4; [|done]. split; [done|].
    intros p [= <-]. split_and!; [done..|]. change [META_DIR; INCOMING_DIR] with ([META_DIR] ++ [INCOMING_DIR]).
    rw app_assoc. by apply normal_snoc. }
  destruct m as [[b| |t]|e]; [by wp_step; rw Hw2| |by wp_step; rw Hw2|].
  - wp_step. apply Hk. intros t. destruct Hm as [Hm|?]; [|done]. by destruct (disk w1 !! _) as [[]|].
  - destruct e; try (by wp_step; rw Hw2). wp_step. apply Hk. intros t. destruct Hm as [Hm|?]; [|done].
    by destruct (disk w1 !! _).
Qed.
End metadata.

(** *** The frame of a reception

    Outside the metadata directory only missing directories appear. *)
Record framed (croot : path) (d d' : Fs) : Prop := {
  fr_wf : disk_wf d';
  fr_links : ∀ q t, d' !! q = Some (Symlink t) → d !! q = Some (Symlink t);
  fr_out : ∀ q, q ≠ [] → ¬ (croot ++ [META_DIR]) `prefix_of` q →
    d' !! q = d !! q ∨ d !! q = None ∧ d' !! q = Some Dir;
}.

Lemma quiet_framed croot d d' : quiet croot d d' → framed croot d d'.
Proof. intros []. split; [done..|]. auto. Qed.
Lemma framed_trans croot d1 d2 d3 : framed croot d1 d2 → framed croot d2 d3 → framed croot d1 d3.
Proof.
  intros [_ Hl1 Ho1] [Hwf Hl2 Ho2]. split; [done|by auto|]. intros q Hne Hq.
  destruct (Ho1 q Hne Hq) as [E1|[E1 E1']], (Ho2 q Hne Hq) as [E2|[E2 E2']]; [left|right|right|]; split || idtac; congruence.
Qed.
Lemma framed_plain croot d d' p : framed croot d d' → plain d p → plain d' p.
Proof. intros [_ Hl _] [? Hp]. split; [done|]. intros k t ?%Hl. by eapply Hp. Qed.
Lemma framed_dirs croot p d d' : disk_wf d → dirs_added p d d' → framed croot d d'.
Proof.
  intros Hd Ha. split; [split; [apply Ha|]| |].
  - intros t Ht. apply (dw_root _ Hd t). by eapply dirs_added_links.
  - intros q t. by eapply dirs_added_links.
  - intros q _ _. destruct Ha as [_ Ha]. destruct (Ha q) as [?|(? & ? & _)]; auto.
Qed.

(** An entry of the metadata directory that is set or removed. *)
Lemma framed_edit croot d p c o :
  disk_wf d → (croot ++ [META_DIR]) `prefix_of` (p ++ [c]) → is_content o →
  d !! (p ++ [c]) ≠ Some Dir → (is_Some o → node_at d p = Some Dir) → framed croot d (edit d (p ++ [c]) o).
Proof.
  intros Hd Hpre Ho Hold Hpar. split; [split|..].
  - by apply tree_wf_edit; [apply Hd|..].
  - intros t. rw lookup_partial_alter_ne; [by destruct p|]. apply Hd.
  - intros q t. rw lookup_partial_alter. case_decide as E; [|done]. intros Hs. by destruct (Ho _ Hs).
  - intros q _ Hq. left. rw lookup_partial_alter_ne //. intros E. by rw E in Hpre.
Qed.

Section receive.
Context `{Blake3, Crc32, Hex, !Codec FrameKind, !Codec ProjectManifest, !Codec VersionState, !Codec HistoryIndex,
  !Codec ObjectMeta, !Codec Tag, DirOrder}.

(** The destination of a file, as the resolver found it. *)
Definition resolved (n : Node) (h : TransferHeader) (croot p : path) : Prop :=
  ∃ root local, project_root (npm n) (h_project_id h) = Some root ∧ canonicalize_at (ndisk n) root = Ok croot ∧
    p = croot ++ local ∧ local ≠ [] ∧ head local ≠ Some META_DIR ∧ real_dir (ndisk n) croot ∧ plain (ndisk n) p.

Lemma resolved_outside n h croot p : resolved n h croot p → p ≠ [] ∧ ¬ (croot ++ [META_DIR]) `prefix_of` p.
Proof.
  intros (root & local & _ & _ & -> & Hne & Hhd & _). split; [by destruct croot, local|].
  intros [z E]. rw -app_assoc in E. apply app_inv_head in E. by rw E in Hhd.
Qed.

Lemma wp_resolve_or_fail h n :
  disk_wf (ndisk n) →
  wp (resolve_or_fail h) (λ r n', same_node n n' ∧ ∀ p, r = Ok p → ∃ croot, resolved n h croot p) n.
Proof.
  intros Hd. unfold resolve_or_fail, out_path_resolver. wp_step. wp_step. wp_step.
  assert (Hr : wp (on_pm (resolve_file_path (h_project_id h) (h_file_id h))) (λ r n', same_node n n' ∧
    ∀ p, r = Ok (Some p) → ∃ croot, resolved n h croot p) n).
  { unfold wp, on_pm, resolve_file_path. destruct (project_root _ _) as [root|] eqn:Hroot; [|by split].
    unfold lift_io.
    match goal with |- context [safe_join_under_root root ?rel ?w] => pose proof (wp_safe_join root rel w Hd) as Hj end.
    unfold wp in Hj. destruct (safe_join_under_root _ _ _) as [r w']. destruct Hj as [Hw Hj]. cbn. split; [done|].
    intros p Hp. destruct r as [o|]; [|done]. injection Hp as ->.
    destruct (Hj p eq_refl) as (croot & local & ? & ? & ? & ? & ? & ?). exists croot, root, local. done. }
  eapply wp_mono; [exact Hr|]. intros [[p|]|e] n' [Hs Hp]; cbv beta iota; wp_step; wp_step;
    (split; [done|]); [|done..]. intros q [= <-]. by apply Hp.
Qed.

(** [receive_to] writes the temporary file and nothing else. *)
Lemma wp_receive_to s h croot p c w :
  disk_wf (disk w) → real_dir (disk w) p → normal p → c ≠ ".." → (croot ++ [META_DIR]) `prefix_of` p →
  (∀ n, disk w !! (p ++ [c]) = Some n → ∃ b, n = File b) →
  wp (receive_to s h (p ++ [c])) (λ r w', framed croot (disk w) (disk w') ∧
    plain (disk w') (p ++ [c]) ∧ disk w' !! (p ++ [c]) ≠ Some Dir ∧
    ∀ x, r = Ok x → x = (receive_over_quic_with_header s h).2 ∧
      disk w' !! (p ++ [c]) = Some (File (receive_over_quic_with_header s h).1)) w.
Proof.
  intros Hd Hr Hn Hc Hpre Hold. unfold receive_to. rw parent_snoc. wp_step.
  assert (Hpl : plain (disk w) (p ++ [c])).
  { apply plain_in_dir; [done..|]. intros t Ht. by destruct (Hold _ Ht). }
  eapply wp_mono; [apply wp_create_dirs; [apply Hd|apply plain_parent in Hpl; by rw parent_snoc in Hpl]|].
  intros r w1 [Ha _]. assert (Hf1 : framed croot (disk w) (disk w1)) by by eapply framed_dirs.
  assert (Hpl1 : plain (disk w1) (p ++ [c])) by by eapply framed_plain.
  assert (Hold1 : disk w1 !! (p ++ [c]) ≠ Some Dir).
  { destruct Ha as [_ Ha]. destruct (Ha (p ++ [c])) as [->|(_ & _ & k & E)].
    - intros E. by destruct (Hold _ E).
    - intros _. apply (f_equal length) in E. rw length_app length_take /= in E. lia. }
  destruct r as [[]|e]; [|by split_and!]. destruct (receive_over_quic_with_header s h) as [file x]. wp_step.
  apply wp_write_plain; [done|..].
  - intros e w2 Hw2. rw Hw2. by split_and!.
  - intros b' r w2 Hw2 Hdir Hpar Hb.
    assert (Hf2 : framed croot (disk w1) (disk w2)).
    { rw Hw2. apply framed_edit; [apply Hf1| |apply is_content_file|done|done]. by apply prefix_app_r. }
    assert (Hf : framed croot (disk w) (disk w2)) by by eapply framed_trans.
    assert (Hpl2 : plain (disk w2) (p ++ [c])) by by eapply framed_plain.
    assert (Hl2 : disk w2 !! (p ++ [c]) = Some (File b')) by by rw Hw2 lookup_partial_alter_eq.
    assert (Hnd : disk w2 !! (p ++ [c]) ≠ Some Dir) by by rw Hl2.
    destruct r as [[]|e]; [|by split_and!]. wp_step. split_and!; [done..|]. intros y [= <-].
    by rw Hl2 (Hb eq_refl).
Qed.

(** Removing the temporary file. *)
Lemma wp_give_up {A} croot d0 p c e (Q : result FileSharingError A → Node → Prop) n :
  framed croot d0 (ndisk n) → plain (ndisk n) (p ++ [c]) → (croot ++ [META_DIR]) `prefix_of` (p ++ [c]) →
  (∀ n', nd_ex n' = nd_ex n → framed croot d0 (ndisk n') → Q (Err e) n') → wp (give_up_on (p ++ [c]) e) Q n.
Proof.
  intros Hf Hp Hpre HQ. unfold give_up_on. wp_step. wp_step. apply wp_io. apply wp_remove_plain; [done|..].
  - intros e' w' Hw. wp_step. apply HQ; [done|]. unfold ndisk. cbn. by rw Hw.
  - intros w' Hw Hold. wp_step. apply HQ; [done|]. eapply framed_trans; [done|]. unfold ndisk. cbn. rw Hw.
    apply framed_edit; [apply Hf|done|apply is_content_none|done|]. by intros [].
Qed.

Lemma wp_or_remove {A} tmp (m : NIO A) (Q : result FileSharingError A → Node → Prop) n :
  wp m (λ r n', match r with Ok a => Q (Ok a) n' | Err e => wp (give_up_on tmp e) Q n' end) n →
  wp (or_remove tmp m) Q n.
Proof.
  intros Hm. unfold or_remove. wp_step. wp_step. eapply wp_mono; [exact Hm|].
  intros [a|e] n' HQ; cbv beta iota; [by wp_step|done].
Qed.

Lemma shared_check now p f v size crc e : shared_files (check_received now p f v size crc e).1 = shared_files e.
Proof.
  unfold check_received, pinned_fetch. destruct (pinned_fetches e !! (p, f)) as [pin0|].
  - destruct (pf_expires_at pin0 <? now)%N; repeat case_match; cbn [fst]; try done; by rw field_unpin.
  - repeat case_match; done.
Qed.

(** What a failure leaves behind. *)
Definition unreceived (croot : path) (n0 n' : Node) : Prop :=
  shared_files (nd_ex n') = shared_files (nd_ex n0) ∧ transfers (nd_ex n') = transfers (nd_ex n0) ∧
  framed croot (ndisk n0) (ndisk n').

(** The content [b] of the file is in place. *)
Definition received (now : N) (n0 : Node) (h : TransferHeader) (croot final_path : path) (b : bytes)
    (r : SharedFileRecord) (pinned : bool) (n' : Node) : Prop :=
  r = mk_SharedFileRecord (h_project_id h) final_path (h_total_size h) (crc32 b) (N.max (h_version h) 1) ∧
  (∃ e1, check_received now (h_project_id h) (h_file_id h) (sf_version r) (sf_file_size r) (sf_crc r) (nd_ex n0) =
     (e1, Ok pinned) ∧ nd_ex n' = commit_received (h_file_id h) r pinned e1) ∧
  ndisk n' !! final_path = Some (File b) ∧
  ∀ q, q ≠ [] → q ≠ final_path → ¬ (croot ++ [META_DIR]) `prefix_of` q →
    ndisk n' !! q = ndisk n0 !! q ∨ ndisk n0 !! q = None ∧ ndisk n' !! q = Some Dir.

Lemma wp_place_received now h croot final_path p c b n0 n :
  resolved n0 h croot final_path → nd_ex n = nd_ex n0 → framed croot (ndisk n0) (ndisk n) →
  plain (ndisk n) (p ++ [c]) → ndisk n !! (p ++ [c]) = Some (File b) → (croot ++ [META_DIR]) `prefix_of` (p ++ [c]) →
  wp (place_received now h final_path (p ++ [c])) (λ r n', match r with
    | Ok (rec, pinned) => received now n0 h croot final_path b rec pinned n'
    | Err _ => unreceived croot n0 n'
    end) n.
Proof.
  intros Hres Hex Hf Hp Hb Hpre. destruct (resolved_outside _ _ _ _ Hres) as [Hne Hout].
  assert (Hpl : plain (ndisk n0) final_path) by by destruct Hres as (? & ? & ? & ? & ? & ? & ? & ? & ?).
  assert (Hgive : ∀ A (Q : result FileSharingError A → Node → Prop) e n',
    (∀ n', unreceived croot n0 n' → Q (Err e) n') →
    framed croot (ndisk n0) (ndisk n') → plain (ndisk n') (p ++ [c]) →
    shared_files (nd_ex n') = shared_files (nd_ex n0) → transfers (nd_ex n') = transfers (nd_ex n0) →
    wp (give_up_on (p ++ [c]) e) Q n').
  { intros A Q e n' HQ Hf' Hp' Hs' Ht'. eapply wp_give_up; [done..|]. intros n2 Hn2 ?. apply HQ. unfold unreceived.
    by rw Hn2. }
  unfold place_received. wp_step. apply wp_or_remove, wp_io. apply wp_crc32_of_file; [done|..].
  { intros e w1 Hw1. cbn [map_err]. apply Hgive; unfold ndisk; cbn [nd_ex nd_st world]; rw ?Hw1 ?Hex; done. }
  intros b' w1 Hw1 Hb'. rw node_at_snoc Hb in Hb'. injection Hb' as <-. cbn [map_err]. cbv beta iota.
  set (n1 := mk_Node _ _ _). assert (Hd1 : ndisk n1 = ndisk n) by done. assert (Hex1 : nd_ex n1 = nd_ex n0) by done.
  clearbody n1. rw -Hd1 in Hf Hp Hb. clear Hw1 w1 Hd1 Hex n.
  destruct (N.max (h_version h) 1 =? u64_max)%N; [by apply Hgive; rw ?Hex1|].
  wp_step. apply wp_or_remove, wp_on_ex_result. rw Hex1.
  set (size := h_total_size h). set (v := N.max (h_version h) 1).
  destruct (check_received now (h_project_id h) (h_file_id h) v size (crc32 b) (nd_ex n0)) as [e1 res] eqn:Hcheck.
  pose proof (shared_check now (h_project_id h) (h_file_id h) v size (crc32 b) (nd_ex n0)) as Hsh.
  pose proof (transfers_check now (h_project_id h) (h_file_id h) v size (crc32 b) (nd_ex n0)) as Htr.
  rw Hcheck in Hsh Htr. cbn [fst snd] in *. destruct res as [pinned|e]; [|by apply Hgive].
  wp_step. apply wp_io. eapply wp_mono; [apply wp_create_dirs; [apply Hf|]|].
  { apply plain_parent. by eapply framed_plain. }
  cbn [nd_st]. intros r w2 [Ha _]. fold (ndisk n1) in Ha.
  assert (Hf2 : framed croot (ndisk n0) (disk w2)) by (eapply framed_trans; [done|]; eapply framed_dirs; [apply Hf|done]).
  destruct r as [[]|e]; cbn [map_err]; [|by split_and!].
  set (n2 := mk_Node _ _ _). assert (Hp2 : plain (ndisk n2) (p ++ [c])) by by eapply dirs_added_plain.
  assert (Hb2 : ndisk n2 !! (p ++ [c]) = Some (File b)) by by eapply dirs_added_keeps.
  assert (Hex2 : nd_ex n2 = e1) by done. change (disk w2) with (ndisk n2) in Hf2. clearbody n2. clear Ha w2 Hf Hp Hb.
  wp_step. eapply wp_mono; [apply wp_resolve_or_fail, Hf2|]. intros [checked|e] n3 [(Hex3 & Hpm3 & Hd3) _].
  2:{ unfold unreceived. by rw Hex3 Hd3 Hex2. }
  case_bool_decide as Heq; cbn [negb].
  2:{ apply Hgive; rw ?Hd3 ?Hex3 ?Hex2; done. }
  wp_step. apply wp_or_remove, wp_io. unfold replace_file_atomically.
  destruct final_path as [|x q _] using rev_ind; [done|]. rw -Hd3 in Hp2 Hb2 Hf2.
  apply wp_rename_plain; [done|by eapply framed_plain|..].
  { intros e w4 Hw4. apply Hgive; unfold ndisk; cbn [nd_ex nd_st world]; rw ?Hw4 ?Hex3 ?Hex2; done. }
  intros b' w4 Hsrc Hold Hpar Hw4. fold (ndisk n3) in Hsrc, Hold, Hpar, Hw4. rw Hb2 in Hsrc. injection Hsrc as <-.
  cbn [map_err]. wp_step. apply wp_on_ex. wp_step.
  split_and!; [done|exists e1; cbn; by rw Hex3 Hex2| |].
  - unfold ndisk. cbn. by rw Hw4 lookup_partial_alter_eq.
  - intros y Hy Hyf Hyo. pose proof (fr_out _ _ _ Hf2 y Hy Hyo) as Ho. unfold ndisk in *. cbn.
    rw Hw4 lookup_partial_alter_ne // lookup_partial_alter_ne //. intros E. by rw E in Hpre.
Qed.

(** The temporary directory of a project whose destination has been resolved. *)
Lemma wp_receive_dir temp_dir h croot final_path n :
  disk_wf (ndisk n) → resolved n h croot final_path →
  wp (receive_dir temp_dir (h_project_id h)) (λ r n', nd_ex n' = nd_ex n ∧ quiet croot (ndisk n) (ndisk n') ∧
    ∀ p, r = Ok p → p = croot ++ [META_DIR; INCOMING_DIR] ∧ real_dir (ndisk n') p ∧ normal p) n.
Proof.
  intros Hd (root & local & Hroot & Hcan & _ & _ & _ & Hreal & _). unfold receive_dir. wp_step. wp_step.
  unfold incoming_dir_resolver. change (pm (nd_st (id n))) with (npm n). rw Hroot. cbn [fmap option_fmap option_map].
  assert (E : root ++ [META_DIR; INCOMING_DIR] = (root ++ [META_DIR]) ++ [INCOMING_DIR]) by by rw -app_assoc.
  rw E length_app /= length_app /= (proj2 (Nat.ltb_ge _ _)); [lia|]. rw !parent_snoc !last_snoc.
  rw !bool_decide_eq_true_2 //. cbn [negb orb]. apply wp_io.
  eapply wp_mono; [by apply wp_incoming_dir|]. intros r w1 [Hq Hp]. split_and!; [done..|].
  intros p Hr. apply Hp. by destruct r; cbn in Hr; congruence.
Qed.

(** The outcome of a reception: everything or nothing. *)
Definition reception (now : N) (s : bytes) (n : Node) (r : result FileSharingError (TransferHeader * SharedFileRecord * bool))
    (n' : Node) : Prop :=
  match r with
  | Ok (h, rec, pinned) => ∃ s' croot final_path b, peek_transfer_header s = Ok (h, s') ∧
      resolved n h croot final_path ∧ len b = h_total_size h ∧ blake3 b = total_hash h ∧
      received now n h croot final_path b rec pinned n'
  | Err _ => shared_files (nd_ex n') = shared_files (nd_ex n) ∧ transfers (nd_ex n') = transfers (nd_ex n) ∧
      (ndisk n' = ndisk n ∨ ∃ h s' croot final_path, peek_transfer_header s = Ok (h, s') ∧
         resolved n h croot final_path ∧ framed croot (ndisk n) (ndisk n'))
  end.

(** ** Properties *)

(** C6: a received file is in place completely or not at all.  Whatever bytes arrive: if the
    reception succeeds, then the content under the destination has the size and the hash of
    the header, the exchange holds its record, which the version checks accepted, and outside
    the project's metadata directory the disk has changed at that file and by new
    directories only; if it fails, then files shared and transfers are as before and outside
    the metadata directory there are at most new directories.  The destination is below the
    project's root and outside its metadata directory. *)
Theorem receive_all_or_nothing now uuid temp_dir s n :
  disk_wf (ndisk n) → (∀ q, ndisk n !! (q ++ ["incoming-" +:+ uuid +:+ ".part"]) = None) →
  let '(r, n') := receive_file now uuid temp_dir s n in reception now s n r n'.
Proof.
  intros Hd Hfresh. destruct (receive_file _ _ _ _ _) as [r n'] eqn:E. eapply wp_eq, E. clear E r n'.
  unfold receive_file. wp_step. wp_step.
  destruct (quic_attached _); cbn [negb]; [|by wp_step; split_and!; auto].
  destruct (peek_transfer_header s) as [[h s']|] eqn:Hpeek; [|by wp_step; split_and!; auto].
  wp_step. eapply wp_mono; [by apply wp_resolve_or_fail|]. intros [final_path|e] n1 [(Hex1 & Hpm1 & Hd1) Hres];
    [|by cbn; rw Hex1 Hd1; split_and!; auto]. destruct (Hres _ eq_refl) as [croot Hr]. clear Hres.
  assert (Hfail : ∀ e n', unreceived croot n n' → reception now s n (Err e) n').
  { intros e n' (? & ? & ?). split_and!; [done..|]. right. by exists h, s', croot, final_path. }
  assert (Hr1 : resolved n1 h croot final_path) by (unfold resolved; by rw Hpm1 Hd1).
  wp_step. eapply wp_mono; [eapply wp_receive_dir; [by rw Hd1|done]|]. intros [tmp_dir|e] n2 (Hex2 & Hq & Hp);
    rw Hex1 in Hex2; rw Hd1 in Hq; pose proof (quiet_framed _ _ _ Hq) as Hf2.
  2:{ apply Hfail. unfold unreceived. by rw Hex2. }
  destruct (Hp _ eq_refl) as (-> & Hreal & Hnorm). wp_step. wp_step. apply wp_io.
  set (c := "incoming-" +:+ uuid +:+ ".part"). set (p := croot ++ [META_DIR; INCOMING_DIR]) in *.
  assert (Hpre : (croot ++ [META_DIR]) `prefix_of` p) by (exists [INCOMING_DIR]; by rw -app_assoc).
  eapply wp_mono; [apply (wp_receive_to _ _ croot); [apply Hq|done|done|done|done|]|].
  { intros x Hx. destruct (qt_dirs _ _ _ Hq (p ++ [c])) as [Hn|[z Hz]]; [by rw Hn Hfresh in Hx|exfalso].
    apply (f_equal length) in Hz. rw !length_app /= in Hz. lia. }
  intros r w3 (Hf3 & Hp3 & Hnd3 & Hok). cbn beta in *. set (n3 := mk_Node _ _ _).
  assert (Hf : framed croot (ndisk n) (ndisk n3)) by by eapply framed_trans.
  assert (Hgive : ∀ e, wp (give_up_on (p ++ [c]) e) (reception now s n) n3).
  { intros e. eapply wp_give_up; [done|done|by apply prefix_app_r|]. intros n4 Hn4 ?. apply Hfail. unfold unreceived.
    by rw Hn4 /= Hex2. }
  destruct r as [[h'|e]|e]; cbn [map_err]; [|apply Hgive..].
  destruct (Hok _ eq_refl) as [Hx Hb]. destruct (receive_over_quic_with_header s' h) as [b r] eqn:Hrec. cbn [fst snd] in *.
  apply receive_loop_spec in Hrec as [_ Hrec]; [|done|lia]. destruct (Hrec h' (eq_sym Hx)) as (-> & Hlen & Hhash).
  wp_step. eapply wp_mono; [eapply (wp_place_received now h croot final_path p c b n n3); [done|done|done|done|done|]|].
  { by apply prefix_app_r. }
  intros [[rec pinned]|e] n4 H4; [|by apply Hfail]. wp_step. by exists s', croot, final_path, b.
Qed.
End receive.

(** ** Witness: the file of the witness of [Transfer] arrives in an empty project. *)
Module IncomingWitness.
#[export] Existing Instances Toy.toy_blake3 Toy.toy_crc32.
#[export] Existing Instance Transfer.Witness.frame_codec.

Definition disk0 : Fs := {[ ["proj"] := Dir ]}.
Definition pm0 : ProjectManager := pm (ProjectWitness.run ProjectWitness.s0 (take 1 ProjectWitness.ops)).1.
Definition n0 : Node :=
  mk_Node (with_network "me" None true false None) (mk_State pm0 (mk_World disk0 []) None) [].
Definition result0 := receive_file 5 "u" ["tmp"] Transfer.Witness.sent n0.

Lemma disk0_at p n : disk0 !! p = Some n → p = ["proj"] ∧ n = Dir.
Proof. unfold disk0. intros Hp. apply lookup_singleton_Some in Hp. by destruct Hp as [<- <-]. Qed.
Lemma disk0_wf : disk_wf disk0.
Proof.
  split.
  - intros p c n [E _]%disk0_at. by destruct p as [|? []]; simplify_eq/=.
  - by intros t [? _]%disk0_at.
Qed.
End IncomingWitness.
Import (hints) IncomingWitness.

Lemma receive_all_or_nothing_witness :
  (∃ rec pinned, IncomingWitness.result0.1 = Ok (Transfer.Witness.header, rec, pinned) ∧
    sf_file_path rec = ["proj"; "f"]) ∧
  reception 5 Transfer.Witness.sent IncomingWitness.n0 IncomingWitness.result0.1 IncomingWitness.result0.2.
Proof.
  split.
  - do 2 eexists. split; [vm_compute; reflexivity|vm_compute; reflexivity].
  - pose proof (receive_all_or_nothing 5 "u" ["tmp"] Transfer.Witness.sent IncomingWitness.n0
      IncomingWitness.disk0_wf) as Hall.
    assert (Hfresh : ∀ q, ndisk IncomingWitness.n0 !! (q ++ ["incoming-" +:+ "u" +:+ ".part"]) = None).
    { intros q. apply eq_None_not_Some. intros [x Hx]. apply IncomingWitness.disk0_at in Hx as [E _].
      by destruct q as [|? []]; simplify_eq/=. }
    specialize (Hall Hfresh). unfold IncomingWitness.result0.
    destruct (receive_file 5 "u" ["tmp"] Transfer.Witness.sent IncomingWitness.n0) as [r n']. exact Hall.
Defined.
