(* ===== verification/Checkout.v ===== *)
(** * Checkout and restoration

    [synergos-core/src/checkout.rs] and [restore.rs]: bringing a working tree to the versions
    of a manifest, bringing back one version of a file, and the files that a restarted daemon
    shares again.  The project manager, the exchange and the history store are the models of
    those components; a request for a version goes through the exchange as in the code. *)

From Stdlib Require Import Strings.Ascii.
From S2P Require Import Prelude Crypto Types Identity Ledger Gossip Content Transfer Fs FsPlain Manifest.
From S2P Require Import Project Retention HistoryIndex Tags Rotation HistoryStore StoreInv StoreOps StoreProps Exchange Incoming.

Record CheckoutReport := mk_CheckoutReport {
  requested : list (string * N);
  up_to_date : nat;
  extra : list string;
}.

Inductive RestoreOutcome := RestoredLocally | Requested | AlreadyAtVersion.

(** ** Computations of the node that fail with [io::Error] *)
Definition on_projects {A} (m : ST State IoError A) : ST Node IoError A := λ n,
  let '(r, s) := m (nd_st n) in (r, mk_Node (nd_ex n) s (sent n)).
Definition on_files {A} (m : IO A) : ST Node IoError A := on_projects (lift_io m).
Definition on_exchange (f : Exchange → Exchange) : ST Node IoError () :=
  modify (λ n, mk_Node (f (nd_ex n)) (nd_st n) (sent n)).

(** [Path::is_file]: an error counts as no. *)
Definition is_file (p : path) : IO bool :=
  m ← try_ (metadata p);
  mret (match m with Ok (File _) => true | _ => false end).

(** The root of an open project. *)
Definition root_of (project_id : string) : ST Node IoError path :=
  m ← gets npm; lift_result (ok_or (project_root m project_id) NotFound).

Section checkout.
Context `{Blake3, Crc32, Hex, Ed25519, HeapPick, !MapIter MessageId N, !MapIter string ManagedProject,
  !Codec ProjectManifest, !Codec VersionState, !Codec HistoryIndex, !Codec ObjectMeta, DirOrder}.

Definition resolve_local (root : path) (rel : string) : IO (option path) :=
  match safe_rel_to_local rel with
  | None => mret None
  | Some _ => safe_join_under_root root rel
  end.

Definition matches_entry (p : path) (size crc : N) : IO bool :=
  f ← is_file p;
  if negb f then mret false
  else
    r ← try_ (crc32_of_file p);
    mret (match r with
          | Ok (actual_crc, actual_size) => (actual_size =? size)%N && (actual_crc =? crc)%N
          | Err _ => false
          end).

(** [fetch_file] of the exchange answers [Ok], so that the pin stays. *)
Definition request_version (now : N) (id : TransferId) (project_id : string) (file_id : FileId) (version : N)
    (expected : option (N * N)) (e : Exchange) : Exchange :=
  fetch_file now id (mk_FetchRequest project_id file_id None Interactive version)
    (pin_fetch_version now project_id file_id version expected e).

(** The record of a file whose content is the one of [v]. *)
Definition record_of (project_id : string) (p : path) (size crc v : N) : SharedFileRecord :=
  mk_SharedFileRecord project_id p size crc v.

(** One file of the manifest; [id] is the identifier of its transfer, should there be one. *)
Definition checkout_file (now : N) (id : TransferId) (project_id : string) (root : path) (rel : string)
    (entry : ManifestEntry) (report : CheckoutReport) : ST Node IoError CheckoutReport :=
  o ← on_files (resolve_local root rel);
  match o with
  | None => mret report
  | Some p =>
      same ← on_files (matches_entry p (me_size entry) (me_crc entry));
      if same : bool then
        _ ← on_exchange (restore_shared_file rel (record_of project_id p (me_size entry) (me_crc entry) (version entry)));
        mret (mk_CheckoutReport (requested report) (S (up_to_date report)) (extra report))
      else
        _ ← on_exchange (request_version now id project_id rel (version entry)
                           (Some (me_size entry, me_crc entry)));
        mret (mk_CheckoutReport (requested report ++ [(rel, version entry)]) (up_to_date report) (extra report))
  end.

Definition checkout_files (now : N) (ids : string → TransferId) (project_id : string) (root : path)
    (l : list (string * ManifestEntry)) : ST Node IoError CheckoutReport :=
  fold_st (λ '(rel, entry) report, checkout_file now (ids rel) project_id root rel entry report) l
    (mk_CheckoutReport [] 0 []).

(** The manifest to check out becomes the current one. *)
Definition target_manifest (uuid1 uuid2 project_id : string) (manifest_path : option path) :
    ST Node IoError ProjectManifest :=
  match manifest_path with
  | Some p =>
      m ← on_files (manifest_load_from_file p project_id);
      _ ← on_projects (replace_manifest uuid1 uuid2 project_id m);
      mret m
  | None => on_projects (reload_manifest uuid1 project_id)
  end.

Definition checkout_project (now : N) (ids : string → TransferId) (uuid1 uuid2 project_id : string)
    (manifest_path : option path) : ST Node IoError CheckoutReport :=
  root ← root_of project_id;
  previous ← gets (λ n, (manifest_entries (npm n) project_id).*1);
  target ← target_manifest uuid1 uuid2 project_id manifest_path;
  report ← checkout_files now ids project_id root (btree_iter (files target));
  mret (mk_CheckoutReport (requested report) (up_to_date report)
          (filter (λ rel, files target !! rel = None) previous)).

(** ** What a restarted daemon shares *)
Definition restore_entry (project_id : string) (root : path) (rel : string) (entry : ManifestEntry) (restored : nat) :
    ST Node IoError nat :=
  match safe_rel_to_local rel with
  | None => mret restored
  | Some local =>
      o ← on_files (safe_join_under_root root rel);
      match o with
      | None => mret restored
      | Some p =>
          f ← on_files (is_file p);
          if negb f then mret restored
          else
            r ← try_ (on_files (crc32_of_file p));
            match r with
            | Err _ => mret restored
            | Ok (actual_crc, actual_size) =>
                if negb (actual_size =? me_size entry)%N || negb (actual_crc =? me_crc entry)%N then mret restored
                else
                  _ ← on_projects (modify (λ s, mk_State (register_file project_id rel (String.concat "/" local) (pm s))
                                             (world s) (state_cell s)));
                  _ ← on_exchange (restore_shared_file rel
                        (record_of project_id p (me_size entry) (me_crc entry) (version entry)));
                  mret (S restored)
            end
      end
  end.

Definition restore_project (project_id : string) (restored : nat) : ST Node IoError nat :=
  m ← gets npm;
  match project_root m project_id with
  | None => mret restored
  | Some root =>
      fold_st (λ '(rel, entry) restored, restore_entry project_id root rel entry restored)
        (manifest_entries m project_id) restored
  end.

Definition restore_shared_files_from_manifests : ST Node IoError nat :=
  l ← gets (λ n, (map_iter (projects (npm n))).*2);
  fold_st (λ p restored, restore_project (mp_project_id p) restored) l 0.

(** ** One version of a file *)
Section restore.
Context {Remote : Type}.
Context (s3 : string → string → string → RotationBackend Remote).
Context (gdrive : string → string → RotationBackend Remote) (cwd : path).

(** The destination is resolved again and the temporary file moved there. *)
Definition swap_in (root : path) (rel : string) (p tmp : path) : ST Node IoError () :=
  checked ← on_files (resolve_local root rel);
  match checked with
  | None => throw PermissionDenied
  | Some q =>
      if negb (bool_decide (q = p)) then _ ← ignore (on_files (remove_file tmp)); throw PermissionDenied
      else
        r ← try_ (on_files (replace_file_atomically tmp p));
        match r with
        | Ok _ => mret ()
        | Err e => _ ← ignore (on_files (remove_file tmp)); throw e
        end
  end.

(** The content [stored] of the history store is put at [p]. *)
Definition restore_content (uuid : string) (root : path) (rel : string) (p : path) (stored : StoredVersion) :
    ST Node IoError () :=
  incoming ← on_files (incoming_dir root);
  _ ← on_files (create_dir_all (parent p));
  let tmp := incoming ++ ["restore-" +:+ uuid +:+ ".part"] in
  _ ← on_files (copy (sv_path stored) tmp);
  swap_in root rel p tmp.

(** The file is at the version: it is shared, and recorded in the manifest. *)
Definition settle_version (now : N) (uuid1 uuid2 project_id rel : string) (v : N) (p : path) (stored : StoredVersion) :
    ST Node IoError () :=
  _ ← on_exchange (restore_shared_file rel (record_of project_id p (sv_size stored) (sv_crc stored) v));
  _ ← on_projects (record_received_file now uuid1 uuid2 project_id rel v (sv_size stored) (sv_crc stored)
        (sv_publisher stored) true);
  mret ().

(** [lookup] of the history store, on the disk of the node. *)
Definition history_lookup (us : nat → string) (c : HistoryConfig) (root : path) (project_id rel : string) (v : N) :
    ST (Node * Remote) IoError (option StoredVersion) := λ '(n, remote),
  let st := nd_st n in
  let '(r, s) := lookup s3 gdrive cwd us c root project_id rel v (mk_RWorld (world st) remote) in
  (r, (mk_Node (nd_ex n) (mk_State (pm st) (rw_world s) (state_cell st)) (sent n), rw_remote s)).

Definition on_node {A} (m : ST Node IoError A) : ST (Node * Remote) IoError A := λ '(n, remote),
  let '(r, n) := m n in (r, (n, remote)).

Definition restore_file (now : N) (id : TransferId) (uuid uuid1 uuid2 : string) (us : nat → string)
    (c : HistoryConfig) (project_id rel : string) (v : N) : ST (Node * Remote) IoError RestoreOutcome :=
  root ← on_node (root_of project_id);
  o ← on_node (on_files (resolve_local root rel));
  match o with
  | None => throw InvalidInput
  | Some p =>
      found ← history_lookup us c root project_id rel v;
      match found with
      | Some stored =>
          same ← on_node (on_files (matches_entry p (sv_size stored) (sv_crc stored)));
          if same : bool then
            _ ← on_node (settle_version now uuid1 uuid2 project_id rel v p stored);
            mret AlreadyAtVersion
          else
            _ ← on_node (restore_content uuid root rel p stored);
            _ ← on_node (settle_version now uuid1 uuid2 project_id rel v p stored);
            mret RestoredLocally
      | None =>
          _ ← on_node (on_exchange (request_version now id project_id rel v None));
          mret Requested
      end
  end.
End restore.
End checkout.

(** ** Rules *)
Lemma wp_on_files {A} (m : IO A) (Q : result IoError A → Node → Prop) n :
  wp m (λ r w, Q r (mk_Node (nd_ex n) (mk_State (npm n) w (state_cell (nd_st n))) (sent n))) (world (nd_st n)) →
  wp (on_files m) Q n.
Proof. unfold wp, on_files, on_projects, lift_io. by destruct (m _). Qed.

Lemma wp_on_exchange f (Q : result IoError () → Node → Prop) n :
  Q (Ok ()) (mk_Node (f (nd_ex n)) (nd_st n) (sent n)) → wp (on_exchange f) Q n.
Proof. done. Qed.

(** A query without a fault gives its answer. *)
Lemma wp_query_exact {A : Type} (op : Fs → result IoError A) (Q : result IoError A → World → Prop) w :
  (∀ r w', disk w' = disk w → (faults w = [] → faults w' = [] ∧ r = op (disk w)) →
     r = op (disk w) ∨ r = Err OtherIo → Q r w') →
  wp (query op) Q w.
Proof.
  intros HQ. apply wp_intro. intros r w' E. pose proof (query_inv _ _ _ _ E) as [Hd Hr]. apply HQ; [done| |done].
  intros Hf. rw query_nofault // in E. by injection E as <- <-.
Qed.

Lemma wp_register pid f rel n (Q : result IoError () → Node → Prop) :
  Q (Ok ()) (mk_Node (nd_ex n) (mk_State (register_file pid f rel (npm n)) (world (nd_st n)) (state_cell (nd_st n))) (sent n)) →
  wp (on_projects (modify (λ s, mk_State (register_file pid f rel (pm s)) (world s) (state_cell s)))) Q n.
Proof. done. Qed.

Definition nfaults (n : Node) : list (option nat) := faults (world (nd_st n)).

Section rules.
Context `{Crc32}.

(** The content of a file, as [crc32_of_file] sees it. *)
Definition content_matches (d : Fs) (p : path) (size crc : N) : bool :=
  match read_at d p with
  | Ok b => (len b =? size)%N && (crc32 b =? crc)%N
  | Err _ => false
  end.

(** A file is taken for matching only if it is, and always without faults. *)
Lemma wp_matches_entry p size crc w :
  wp (matches_entry p size crc) (λ r w', disk w' = disk w ∧ ∃ x, r = Ok x ∧
    (x = true → content_matches (disk w) p size crc = true) ∧
    (faults w = [] → faults w' = [] ∧ x = content_matches (disk w) p size crc)) w.
Proof.
  unfold matches_entry, is_file, content_matches, read_at. wp_step. wp_step. wp_step.
  apply wp_query_exact. intros r w1 Hw1 Hf1 Hr1. wp_step.
  destruct r as [[b| |t]|e]; cbn [negb].
  2-4: wp_step; split; [done|]; exists false; split_and!; [done..|]; intros Hf; destruct (Hf1 Hf) as [-> E];
    by rw -E.
  destruct Hr1 as [Hr1|?]; [|done]. rw -Hr1. wp_step. wp_step. unfold crc32_of_file. wp_step.
  apply wp_query_exact. intros r w2 Hw2 Hf2 Hr2. unfold read_at in Hf2, Hr2. rw Hw1 -Hr1 in Hf2, Hr2.
  assert (Hff : faults w = [] → faults w2 = [] ∧ r = Ok b).
  { intros Hf. by apply Hf2, Hf1. }
  destruct r as [b'|e]; wp_step.
  - destruct Hr2 as [[= ->]|?]; [|done]. wp_step. rw crc32_of_chunks Hw2 Hw1. split; [done|]. eexists.
    split_and!; [done..|]. intros Hf. by destruct (Hff Hf) as [-> _].
  - rw Hw2 Hw1. split; [done|]. exists false. split_and!; [done..|]. intros Hf. by destruct (Hff Hf) as [_ ?].
Qed.
End rules.

(** ** Where a name of the manifest leads *)

Lemma check_components_faults croot cand comps w :
  wp (check_components croot cand comps) (λ _ w', faults w = [] → faults w' = []) w.
Proof.
  revert cand w. induction comps as [|c comps IH]; intros cand w; cbn [check_components]; [by wp_step|].
  wp_step. wp_step. apply wp_query_exact. intros r w1 _ Hf1 _.
  assert (Hf : faults w = [] → faults w1 = []) by (intros; by apply Hf1).
  assert (Hgo : ∀ w2, (faults w1 = [] → faults w2 = []) →
    wp (check_components croot (cand ++ [c]) comps) (λ _ w', faults w = [] → faults w' = []) w2).
  { intros w2 Hw2. eapply wp_mono; [apply IH|]. auto. }
  assert (Hk : wp (k ← try_ (canonicalize (cand ++ [c]));
          match k with
          | Ok canonical => if path_starts_with croot canonical then check_components croot (cand ++ [c]) comps
                            else mret false
          | Err _ => mret false
          end) (λ _ w', faults w = [] → faults w' = []) w1).
  { wp_step. wp_step. apply wp_query_exact. intros r2 w2 _ Hf2 _.
    assert (Hf' : faults w1 = [] → faults w2 = []) by (intros; by apply Hf2).
    destruct r2 as [canonical|e]; [|wp_step; auto]. destruct (path_starts_with _ _); [by apply Hgo|]. wp_step. auto. }
  destruct r as [[b| |t]|[]]; try done; try (by wp_step). by apply Hgo.
Qed.

(** Where [safe_join_under_root] leads on a disk that answers. *)
Definition resolves (d : Fs) (root : path) (rel : string) : option path :=
  match (safe_join_under_root root rel (mk_World d [])).1 with Ok o => o | Err _ => None end.

(** A fault makes a check fail and never succeed. *)
Lemma query_ok {A : Type} (op : Fs → result IoError A) w a w' :
  query op w = (Ok a, w') → op (disk w) = Ok a ∧ disk w' = disk w ∧ query op (mk_World (disk w) []) = (Ok a, mk_World (disk w) []).
Proof.
  intros [Hd [E|?]]%query_inv; [|done]. rw query_nofault //. by rw /= -E.
Qed.

Lemma check_components_ok croot cand comps w w' :
  check_components croot cand comps w = (Ok true, w') →
  check_components croot cand comps (mk_World (disk w) []) = (Ok true, mk_World (disk w) []).
Proof.
  revert cand w. induction comps as [|c comps IH]; intros cand w; cbn [check_components]; [by intros [= _]|].
  intros E. st_bind E. apply try_inv in H as (m & H & [= ->]). pose proof (query_inv _ _ _ _ H) as [Hd Hm].
  erewrite bind_ok; [|eapply try_eq, query_nofault; done]. cbn [disk].
  assert (Hgo : ∀ w1, disk w1 = disk w → check_components croot (cand ++ [c]) comps w1 = (Ok true, w') →
    check_components croot (cand ++ [c]) comps (mk_World (disk w) []) = (Ok true, mk_World (disk w) [])).
  { intros w1 E1 Hc. rw -E1. by apply IH. }
  assert (Hk : (k ← try_ (canonicalize (cand ++ [c]));
          match k with
          | Ok canonical => if path_starts_with croot canonical then check_components croot (cand ++ [c]) comps
                            else mret false
          | Err _ => mret false
          end) w0 = (Ok true, w') →
    (k ← try_ (canonicalize (cand ++ [c]));
          match k with
          | Ok canonical => if path_starts_with croot canonical then check_components croot (cand ++ [c]) comps
                            else mret false
          | Err _ => mret false
          end) (mk_World (disk w) []) = (Ok true, mk_World (disk w) [])).
  { clear E. intros E. st_bind E. apply try_inv in H0 as (k & H0 & [= ->]). destruct k as [canonical|]; [|done].
    apply query_ok in H0 as (_ & Hd1 & H0). rw Hd in Hd1, H0. erewrite bind_ok; [|by eapply try_eq].
    cbv beta iota in E |- *. destruct (path_starts_with _ _); [|done]. eapply Hgo; [|exact E]. done. }
  destruct m as [[b| |t]|e].
  - destruct Hm as [<-|?]; [|done]. by apply Hk.
  - destruct Hm as [<-|?]; [|done]. by apply Hk.
  - done.
  - destruct e; try done. destruct Hm as [<-|?]; [|done]. by eapply Hgo.
Qed.

Lemma safe_join_ok root rel w p w' :
  safe_join_under_root root rel w = (Ok (Some p), w') → resolves (disk w) root rel = Some p.
Proof.
  unfold resolves, safe_join_under_root. destruct (safe_rel_to_local rel) as [local|]; [|done]. intros E.
  st_bind E. apply try_inv in H as (k & H & [= ->]). destruct k as [croot|]; [|done].
  apply query_ok in H as (_ & Hd & H). erewrite bind_ok; [|by eapply try_eq]. st_bind E. destruct a; [|done].
  injection E as <- _. apply check_components_ok in H0. rw Hd in H0. by rewrite (bind_ok _ _ _ _ _ H0).
Qed.

Lemma check_components_total croot cand comps w :
  wp (check_components croot cand comps) (λ r _, ∃ x, r = Ok x) w.
Proof.
  revert cand w. induction comps as [|c comps IH]; intros cand w; cbn [check_components]; [wp_step; eauto|].
  wp_step. wp_step. apply wp_query. intros r w1 _ _.
  assert (Hk : wp (k ← try_ (canonicalize (cand ++ [c]));
          match k with
          | Ok canonical => if path_starts_with croot canonical then check_components croot (cand ++ [c]) comps
                            else mret false
          | Err _ => mret false
          end) (λ r _, ∃ x, r = Ok x) w1).
  { wp_step. wp_step. apply wp_query. intros r2 w2 _ _. destruct r2 as [canonical|e]; [|wp_step; eauto].
    destruct (path_starts_with _ _); [done|]. wp_step. eauto. }
  destruct r as [[b| |t]|[]]; try done; wp_step; eauto.
Qed.

(** A join answers, where the disk leads unless a fault made it give up. *)
Lemma wp_safe_join_exact root rel w :
  wp (safe_join_under_root root rel) (λ r w', disk w' = disk w ∧ ∃ o, r = Ok o ∧
    (∀ p, o = Some p → resolves (disk w) root rel = Some p) ∧
    (faults w = [] → faults w' = [] ∧ o = resolves (disk w) root rel)) w.
Proof.
  assert (Htot : wp (safe_join_under_root root rel) (λ r w', (∃ o, r = Ok o) ∧ (faults w = [] → faults w' = [])) w).
  { unfold safe_join_under_root. destruct (safe_rel_to_local rel); [|wp_step; eauto]. wp_step. wp_step.
    apply wp_query_exact. intros r w1 _ Hf1 _. assert (Hf : faults w = [] → faults w1 = []) by (intros; by apply Hf1).
    destruct r as [croot|]; [|wp_step; eauto]. wp_step.
    eapply wp_mono; [apply wp_and; [apply check_components_total|apply check_components_faults]|].
    intros r w2 [[x ->] Hf2]. wp_step. eauto. }
  apply wp_intro. intros r w' E. destruct (wp_eq _ _ _ _ _ Htot E) as [[o ->] Hf]. split; [by apply safe_join_disk in E|].
  exists o. split_and!; [done| |].
  - intros p ->. by apply safe_join_ok in E.
  - intros Hw. split; [by apply Hf|]. unfold resolves. destruct w as [d f]. cbn in *. subst f. by rw E.
Qed.

(** The destination is the file [rel] below the root: the name is a plain relative one, the
    root is a directory, and no link leads away from it. *)
Definition confined (d : Fs) (root : path) (rel : string) (p : path) : Prop :=
  ∃ croot local, canonicalize_at d root = Ok croot ∧ real_dir d croot ∧ safe_rel_to_local rel = Some local ∧
    p = croot ++ local ∧ local = split_on "/"%char rel ∧ head local ≠ Some META_DIR ∧ link_free_below d croot local.

Lemma safe_name rel local :
  safe_rel_to_local rel = Some local → local = split_on "/"%char rel ∧ head local ≠ Some META_DIR ∧ normal local.
Proof. intros (? & _ & ? & ?)%safe_rel_inv. split_and!; [done..|]. by apply plain_normal. Qed.

Lemma resolves_confined d root rel p : resolves d root rel = Some p → confined d root rel p.
Proof.
  unfold resolves. destruct (safe_join_under_root root rel (mk_World d [])) as [[o|] w] eqn:E; [|done]. cbn. intros ->.
  assert (Hs : is_Some (safe_rel_to_local rel)).
  { unfold safe_join_under_root in E. by destruct (safe_rel_to_local rel). }
  destruct Hs as [local Hs]. pose proof (safe_name _ _ Hs) as (Hl & Hh & _).
  apply safe_join_inv in E as (_ & croot & l & Hc & -> & Hl' & _ & _ & _ & _ & _ & Hr & Hf). cbn in *.
  exists croot, local. split_and!; [done..|by rw Hl' Hl|done|done|]. by rw Hl -Hl'.
Qed.

(** Below an entry that is missing every check passes. *)
Lemma check_components_missing croot d base c comps : ∀ post,
  normal base → real_dir d base → c ≠ ".." → d !! (base ++ [c]) = None →
  check_components croot (base ++ c :: post) comps (mk_World d []) = (Ok true, mk_World d []).
Proof.
  induction comps as [|x comps IH]; intros post Hn Hr Hc Hx; [done|]. cbn [check_components].
  erewrite bind_ok; [|eapply try_eq; unfold symlink_metadata; apply query_fine]. unfold symlink_metadata_at, locate.
  rw last_snoc parent_snoc canonicalize_missing // /= -app_assoc /=. by apply IH.
Qed.

Lemma path_starts_with_app base p : path_starts_with base (base ++ p) = true.
Proof. unfold path_starts_with. by rw take_app_length bool_decide_eq_true_2. Qed.

(** The checks pass wherever no link is in the way. *)
Lemma check_components_complete croot d comps : ∀ ext,
  normal (croot ++ ext) → normal comps → real_dir d (croot ++ ext) → link_free_below d (croot ++ ext) comps →
  check_components croot (croot ++ ext) comps (mk_World d []) = (Ok true, mk_World d []).
Proof.
  induction comps as [|c comps IH]; intros ext Hn Hnc Hr Hl; [done|]. apply not_elem_of_cons in Hnc as [Hc Hnc].
  cbn [check_components]. erewrite bind_ok; [|eapply try_eq; unfold symlink_metadata; apply query_fine].
  rw symlink_metadata_entry //.
  assert (Hgo : ∀ x, d !! ((croot ++ ext) ++ [c]) = Some x → (∀ t, x ≠ Symlink t) →
    canonicalize ((croot ++ ext) ++ [c]) (mk_World d []) = (Ok ((croot ++ ext) ++ [c]), mk_World d [])).
  { intros x Hx Hnl. unfold canonicalize. rw query_fine canonicalize_entry // Hx //. intros t [= E]. by apply (Hnl t). }
  assert (Hdir : d !! ((croot ++ ext) ++ [c]) = Some Dir → link_free_below d (croot ++ ext ++ [c]) comps →
    (k ← try_ (canonicalize ((croot ++ ext) ++ [c]));
     match k with
     | Ok canonical => if path_starts_with croot canonical then check_components croot ((croot ++ ext) ++ [c]) comps
                       else mret false
     | Err _ => mret false
     end) (mk_World d []) = (Ok true, mk_World d [])).
  { intros Hx Hl'. erewrite bind_ok; [|eapply try_eq, Hgo; [exact Hx|done]]. cbv beta iota.
    rw -app_assoc path_starts_with_app. apply IH; [|done| |done]; rw app_assoc; [by apply normal_snoc|by apply real_dir_snoc]. }
  destruct Hl as [Hl|(pre & y & post & E & Hp & Hy)].
  { pose proof Hl as Hl2. rw (cons_middle c) app_assoc in Hl2. apply real_dir_app_l in Hl2 as [_ Hx]%real_dir_snoc.
    rw Hx. cbn. apply Hdir; [done|]. left. by rw -!app_assoc in Hl |- *. }
  destruct pre as [|z pre]; injection E as <- ->.
  - cbn in Hy. destruct Hy as [Hy|[-> [b Hy]]]; rw Hy; cbn; [by apply check_components_missing|].
    erewrite bind_ok; [|eapply try_eq, Hgo; [exact Hy|done]]. cbv beta iota. by rw -app_assoc path_starts_with_app.
  - assert (Hx : d !! ((croot ++ ext) ++ [c]) = Some Dir).
    { rw (cons_middle c) app_assoc in Hp. by apply real_dir_app_l in Hp as [_ ?]%real_dir_snoc. }
    rw Hx. cbn. apply Hdir; [done|]. right. exists pre, y, post. rw -!app_assoc in Hp Hy |- *. done.
Qed.

Lemma confined_resolves d root rel p : confined d root rel p → resolves d root rel = Some p.
Proof.
  intros (croot & local & Hc & Hr & Hs & -> & _ & _ & Hf). unfold resolves, safe_join_under_root. rw Hs.
  erewrite bind_ok; [|eapply try_eq; unfold canonicalize; apply query_fine]. rw Hc. cbv beta iota.
  pose proof (check_components_complete croot d local []) as Hk. rw app_nil_r in Hk.
  apply canonicalize_physical in Hc as [Hn _]. destruct (safe_name _ _ Hs) as (_ & _ & Hnl).
  by rewrite (bind_ok _ _ _ _ _ (Hk Hn Hnl Hr Hf)).
Qed.

(** ** Checking out

    What became of one file of the manifest. *)
Inductive FileOutcome := Skipped | Kept (p : path) | Wanted (p : path).

Section checking_out.
Context `{Blake3, Crc32, Hex, Ed25519, HeapPick, !MapIter MessageId N, !MapIter string ManagedProject,
  !Codec ProjectManifest, !Codec VersionState, !Codec HistoryIndex, !Codec ObjectMeta, DirOrder}.
Context (now : N) (ids : string → TransferId) (pid : string) (root : path).

(** The exchange after the checkout, for one file: what may become of it is decided by where
    its name leads on the disk, and by the content there. *)
Definition settled (d : Fs) (exact : Prop) (e e' : Exchange) (x : string * ManifestEntry) (o : FileOutcome) : Prop :=
  let '(rel, en) := x in
  let k := (pid, rel) in
  match o with
  | Skipped => (exact → ∀ p, ¬ confined d root rel p) ∧
      shared_files e' !! k = shared_files e !! k ∧ pinned_fetches e' !! k = pinned_fetches e !! k
  | Kept p => confined d root rel p ∧ content_matches d p (me_size en) (me_crc en) = true ∧
      shared_files e' !! k = Some (mk_SharedFileRecord pid p (me_size en) (me_crc en) (version en)) ∧
      pinned_fetches e' !! k = None
  | Wanted p => confined d root rel p ∧ (exact → content_matches d p (me_size en) (me_crc en) = false) ∧
      shared_files e' !! k = shared_files e !! k ∧
      ∀ t, (t ≤ sat_add now PINNED_FETCH_TTL_MS)%N →
        (check_received t pid rel (version en) (me_size en) (me_crc en) e').2 = Ok true
  end.

Definition wanted_of (x : (string * ManifestEntry) * FileOutcome) : option (string * N) :=
  match x.2 with Wanted _ => Some (x.1.1, version x.1.2) | _ => None end.
Definition is_kept (o : FileOutcome) : bool := match o with Kept _ => true | _ => false end.

(** Files of other names. *)
Definition elsewhere (rels : list string) (e e' : Exchange) : Prop :=
  ∀ k, k.1 ≠ pid ∨ k.2 ∉ rels →
    shared_files e' !! k = shared_files e !! k ∧ pinned_fetches e' !! k = pinned_fetches e !! k.

Lemma settled_elsewhere d exact e e1 e2 rels x o :
  elsewhere rels e1 e2 → x.1 ∉ rels → settled d exact e e1 x o → settled d exact e e2 x o.
Proof.
  intros Hel Hx. destruct x as [rel en]. destruct (Hel (pid, rel)) as [Hs Hp]; [right; exact Hx|].
  unfold settled. destruct o as [|p|p]; rw ?Hs ?Hp //. intros (? & ? & Hsh & Hc). split_and!; [done..|].
  intros t Ht. specialize (Hc t Ht). revert Hc. unfold check_received, pinned_fetch, shared_file_record. rw Hp.
  destruct (pinned_fetches e1 !! (pid, rel)) as [pin|]; [|cbn; rw Hs; by repeat case_match].
  destruct (pf_expires_at pin <? t)%N; [|cbn; rw Hs; by repeat case_match].
  rw !(field_unpin shared_files) // Hs. by repeat case_match.
Qed.

Lemma settled_before d (exact exact' : Prop) e0 e e1 rels x o :
  (exact → exact') → elsewhere rels e0 e → x.1 ∉ rels → settled d exact' e e1 x o → settled d exact e0 e1 x o.
Proof.
  intros Hex Hel Hx. destruct x as [rel en]. destruct (Hel (pid, rel)) as [Hs Hp]; [right; exact Hx|].
  unfold settled. destruct o; rw ?Hs ?Hp //; [intros (? & ? & ?)|intros (? & ? & ? & ?)]; split_and!; auto.
Qed.

Lemma wp_resolve_local rel w :
  wp (resolve_local root rel) (λ r w', disk w' = disk w ∧ (faults w = [] → faults w' = []) ∧
    ∃ o, r = Ok o ∧ (∀ p, o = Some p → confined (disk w) root rel p) ∧
      (o = None → faults w = [] → ∀ p, ¬ confined (disk w) root rel p)) w.
Proof.
  unfold resolve_local. destruct (safe_rel_to_local rel) as [local|] eqn:Hs.
  2:{ wp_step. split_and!; [done..|]. exists None. split_and!; [done..|]. intros _ _ p (? & l & _ & _ & Hl & _). congruence. }
  eapply wp_mono; [apply wp_safe_join_exact|]. intros r w' (Hd & o & -> & Hp & Hf). split_and!; [done|intros Hw; by apply (Hf Hw)|].
  exists o. split_and!; [done|intros p ->; by apply resolves_confined, Hp|].
  intros -> Hw p Hc%confined_resolves. destruct (Hf Hw) as [_ ?]. congruence.
Qed.

Lemma shared_fetch t id r e : shared_files (fetch_file t id r e) = shared_files e.
Proof.
  unfold fetch_file. destruct (register_want _ _) as [l act]. unfold broadcast_want.
  rw (field_publish shared_files) //. by destruct act.
Qed.

(** One file. *)
Lemma wp_checkout_file rel en rep n :
  wp (checkout_file now (ids rel) pid root rel en rep) (λ r n', ndisk n' = ndisk n ∧
    (nfaults n = [] → nfaults n' = []) ∧ elsewhere [rel] (nd_ex n) (nd_ex n') ∧
    ∀ rep', r = Ok rep' → ∃ o, settled (ndisk n) (nfaults n = []) (nd_ex n) (nd_ex n') (rel, en) o ∧
      requested rep' = requested rep ++ option_list (wanted_of ((rel, en), o)) ∧
      up_to_date rep' = up_to_date rep + Nat.b2n (is_kept o) ∧ extra rep' = extra rep) n.
Proof.
  assert (Hother : ∀ k, k.1 ≠ pid ∨ k.2 ∉ [rel] → (pid, rel) ≠ k).
  { intros k [Hk|Hk] <-; [done|]. apply Hk, list_elem_of_singleton. done. }
  unfold checkout_file. wp_step. apply wp_on_files. eapply wp_mono; [apply wp_resolve_local|].
  intros r w1 (Hw1 & Hf1 & o & -> & Hp & Hno). destruct o as [p|].
  2:{ wp_step. split_and!; [done..|]. intros rep' [= <-]. exists Skipped. cbn. rw app_nil_r Nat.add_0_r. by split_and!; auto. }
  specialize (Hp p eq_refl). wp_step. apply wp_on_files. eapply wp_mono; [apply wp_matches_entry|].
  intros r w2 (Hw2 & x & -> & Hx & Hf2). cbn [nd_st world] in *. destruct x.
  - wp_step. apply wp_on_exchange. wp_step. unfold ndisk, nfaults. cbn. rw Hw2 Hw1. split_and!; [done| | |].
    + intros Hf. by apply Hf2, Hf1.
    + intros k Hk. cbn. rw lookup_insert_ne ?lookup_delete_ne //; by apply Hother.
    + intros rep' [= <-]. exists (Kept p). cbn. rw app_nil_r Nat.add_1_r lookup_insert lookup_delete decide_True // decide_True //.
      split_and!; [done| |done..]. rw -Hw1. by apply Hx.
  - wp_step. apply wp_on_exchange. wp_step. unfold ndisk, nfaults. cbn. rw Hw2 Hw1.
    assert (Hsh : ∀ e, shared_files (request_version now (ids rel) pid rel (version en) (Some (me_size en, me_crc en)) e) = shared_files e).
    { intros e. unfold request_version. by rw shared_fetch. }
    assert (Hpin : ∀ e, pinned_fetches (request_version now (ids rel) pid rel (version en) (Some (me_size en, me_crc en)) e) =
      <[(pid, rel) := mk_PinnedFetch (version en) (sat_add now PINNED_FETCH_TTL_MS) (Some (me_size en, me_crc en))]> (pinned_fetches e)).
    { intros e. unfold request_version. by rw pins_fetch. }
    split_and!; [done| | |].
    + intros Hf. by apply Hf2, Hf1.
    + intros k Hk. rw Hsh Hpin lookup_insert_ne //. by apply Hother.
    + intros rep' [= <-]. exists (Wanted p). cbn. rw Nat.add_0_r Hsh. split_and!; [done| |done| |done..].
      * intros Hf. destruct (Hf2 (Hf1 Hf)) as [_ E]. by rw -Hw1 -E.
      * intros t Ht. unfold check_received, pinned_fetch. rw Hpin lookup_insert_eq. cbn [pf_expires_at pf_version].
        rw (proj2 (N.ltb_ge _ _)) // N.eqb_refl. unfold check_pin. cbn. rw !N.eqb_refl. cbn.
        by destruct (shared_file_record _ _ _); rw ?andb_false_r.
Qed.
(** All files: each has its outcome, and the report counts them. *)
Definition checked_out (l : list (string * ManifestEntry)) (rep0 : CheckoutReport) (n : Node)
    (rep : CheckoutReport) (n' : Node) : Prop :=
  ∃ os, Forall2 (settled (ndisk n) (nfaults n = []) (nd_ex n) (nd_ex n')) l os ∧
    requested rep = requested rep0 ++ omap wanted_of (zip l os) ∧
    up_to_date rep = up_to_date rep0 + length (filter (λ o, is_kept o = true) os) ∧ extra rep = extra rep0.

Lemma Forall2_impl_in {A B} (P Q : A → B → Prop) l k :
  Forall2 P l k → (∀ x y, x ∈ l → P x y → Q x y) → Forall2 Q l k.
Proof.
  induction 1 as [|x y l k HP _ IH]; intros HQ; constructor; [apply HQ; [left|done]|].
  apply IH. intros x' y' Hin. apply HQ. by right.
Qed.

Lemma elsewhere_cons rel rels e e1 e2 :
  elsewhere [rel] e e1 → elsewhere rels e1 e2 → elsewhere (rel :: rels) e e2.
Proof.
  intros H1' H2' k Hk. destruct (H1' k) as [E1 E2]; [set_solver|].
  destruct (H2' k) as [E3 E4]; [set_solver|]. by rw E3 E4 E1 E2.
Qed.

Lemma wp_checkout_files l : ∀ rep n, NoDup l.*1 →
  wp (fold_st (λ '(rel, entry) report, checkout_file now (ids rel) pid root rel entry report) l rep)
    (λ r n', ndisk n' = ndisk n ∧ elsewhere l.*1 (nd_ex n) (nd_ex n') ∧
       ∀ rep', r = Ok rep' → checked_out l rep n rep' n') n.
Proof.
  induction l as [|[rel en] l IH]; intros rep n Hnd; cbn [fold_st].
  { wp_step. split_and!; [done..|]. intros rep' [= <-]. exists []. by rw app_nil_r Nat.add_0_r. }
  cbn in Hnd. apply NoDup_cons in Hnd as [Hni Hnd]. wp_step. eapply wp_mono; [apply wp_checkout_file|].
  intros [rep1|er] n1 (Hd1 & Hf1 & He1 & Hok).
  2:{ split_and!; [done| |done]. eapply elsewhere_cons; done. }
  destruct (Hok rep1 eq_refl) as (o & Ho & Hr & Hu & Hx). eapply wp_mono; [by apply IH|].
  intros r n2 (Hd2 & He2 & Hok2). split_and!; [by rw Hd2|by eapply elsewhere_cons|].
  intros rep2 ->. destruct (Hok2 _ eq_refl) as (os & Hos & Hr2 & Hu2 & Hx2). exists (o :: os). split_and!.
  - constructor; [by eapply settled_elsewhere|]. rw Hd1 in Hos.
    eapply Forall2_impl_in; [done|]. intros x o' Hin. eapply settled_before; [done..|].
    intros E%list_elem_of_singleton. apply Hni, list_elem_of_fmap. by exists x.
  - rw Hr2 Hr -app_assoc. cbn. by destruct (wanted_of _).
  - rw Hu2 Hu filter_cons. case_decide as E; [rw E|destruct (is_kept o)]; cbn; [lia|done|lia].
  - by rw Hx2.
Qed.
(** The manifest that is checked out is the one in force; the exchange is as before. *)
Lemma wp_target_manifest u1 u2 mp n :
  wp (target_manifest u1 u2 pid mp) (λ r n', nd_ex n' = nd_ex n ∧
    ∀ m, r = Ok m → manifest_snapshot (npm n') pid = m) n.
Proof.
  assert (Hex : ∀ A (m : ST State IoError A) (Q : result IoError A → State → Prop) n,
    wp m Q (nd_st n) → wp (on_projects m) (λ r n', nd_ex n' = nd_ex n ∧ Q r (nd_st n')) n).
  { intros A m Q n1. unfold wp, on_projects. by destruct (m _). }
  unfold target_manifest. destruct mp as [p|].
  - wp_step. eapply wp_mono; [apply (Hex _ _ (λ _ _, True)), wp_intro; done|].
    intros [m|e] n1 [E1 _]; [|by rw E1]. wp_step.
    eapply wp_mono; [apply (Hex _ _ (λ r s, r = Ok () → manifest_snapshot (pm s) pid = m)), wp_intro|].
    2:{ intros [[]|e] n2 [E2 Hm]; [wp_step|]; rw E2 E1; split; try done. intros m' [= <-]. by apply Hm. }
    intros r s E ->. unfold replace_manifest in E. destruct (negb _); [done|]. st_bind E. st_bind E. st_bind E. st_bind E.
    unfold store_manifest in E. st_bind E. unfold with_pm, modify in E. injection E as <-. unfold manifest_snapshot.
    cbn. by rw lookup_insert_eq.
  - eapply wp_mono; [apply (Hex _ _ (λ r s, ∀ m, r = Ok m → manifest_snapshot (pm s) pid = m)), wp_intro|].
    2:{ intros r n1 [E1 Hm]. split; [done|]. intros m ->. by apply Hm. }
    intros r s E m ->. unfold reload_manifest in E. st_bind E. st_bind E. unfold gets in E. by injection E as <- <-.
Qed.

(** ** Properties *)

(** C10: a checkout brings the working tree to its manifest.  The manifest asked for is in force
    afterwards.  Every file of it is either on disk below the root with the size and the checksum
    of its entry, and then shared as that version; or it is requested, and the exchange will
    accept that version with that size and checksum for the next five minutes, even if it is
    older than the one at hand; or it is left alone.  As long as the disk answers, only files
    that differ are requested, and a file is left alone only if its path is unsafe: the name is
    not a plain relative one, the root is no directory, or something on the way to it is a link
    or a file.  The report
    lists what was requested, counts what was kept and names the files of the former manifest
    that are no longer in it.  No other file of the exchange is affected and the
    working tree is not written to. *)
Theorem checkout_reaches_manifest u1 u2 mp n rep n' :
  project_root (npm n) pid = Some root → checkout_project now ids u1 u2 pid mp n = (Ok rep, n') →
  ∃ target n1, target_manifest u1 u2 pid mp n = (Ok target, n1) ∧ manifest_snapshot (npm n1) pid = target ∧
    ndisk n' = ndisk n1 ∧ elsewhere (btree_iter (files target)).*1 (nd_ex n) (nd_ex n') ∧
    extra rep = filter (λ rel, files target !! rel = None) (manifest_entries (npm n) pid).*1 ∧
    ∃ os, Forall2 (settled (ndisk n1) (nfaults n1 = []) (nd_ex n) (nd_ex n')) (btree_iter (files target)) os ∧
      requested rep = omap wanted_of (zip (btree_iter (files target)) os) ∧
      up_to_date rep = length (filter (λ o, is_kept o = true) os).
Proof.
  intros Hroot E. unfold checkout_project in E. st_bind E. unfold root_of in H5. st_bind H5.
  injection H6 as <- <-. unfold lift_result in H5. rw Hroot in H5. injection H5 as <- <-.
  st_bind E. injection H5 as <- <-. st_bind E. rename a into target, w into n1, H5 into Ht.
  pose proof (wp_eq _ _ _ _ _ (wp_target_manifest u1 u2 mp n) Ht) as [Hex Hm].
  st_bind E. rename H5 into Hf. injection E as <- <-. unfold checkout_files in Hf.
  assert (Hnd : NoDup (btree_iter (files target)).*1).
  { unfold btree_iter. rw isort_perm. apply NoDup_fst_map_to_list. }
  destruct (wp_eq _ _ _ _ _ (wp_checkout_files _ _ n1 Hnd) Hf) as (Hd & Hel & Hok).
  destruct (Hok _ eq_refl) as (os & Hos & Hr & Hu & _). rw Hex in Hel, Hos. exists target, n1.
  split_and!; [done|by apply Hm|done..|]. by exists os.
Qed.
End checking_out.

(** ** Sharing again after a restart *)

Section restarting.
Context `{Crc32}.

(** What is shared of a file after a restart. *)
Definition shareable (n : Node) (k : string * FileId) : option SharedFileRecord :=
  root ← project_root (npm n) k.1;
  m ← manifests (npm n) !! k.1;
  en ← files m !! k.2;
  p ← resolves (ndisk n) root k.2;
  if content_matches (ndisk n) p (me_size en) (me_crc en)
  then Some (mk_SharedFileRecord k.1 p (me_size en) (me_crc en) (version en)) else None.

Record same_base (n n' : Node) : Prop := {
  sb_disk : ndisk n' = ndisk n;
  sb_projects : projects (npm n') = projects (npm n);
  sb_manifests : manifests (npm n') = manifests (npm n);
  sb_faults : nfaults n = [] → nfaults n' = [];
}.

(** The files [ks] have been looked at. *)
Record shares (ks : list (string * FileId)) (n n' : Node) : Prop := {
  sh_base : same_base n n';
  sh_sound : ∀ k, shared_files (nd_ex n') !! k = shared_files (nd_ex n) !! k ∨
    k ∈ ks ∧ is_Some (shareable n k) ∧ shared_files (nd_ex n') !! k = shareable n k;
  sh_complete : nfaults n = [] → ∀ k r, k ∈ ks → shareable n k = Some r → shared_files (nd_ex n') !! k = Some r;
}.

Lemma shareable_base n n' k : same_base n n' → shareable n' k = shareable n k.
Proof. intros [Hd Hp Hm _]. unfold shareable, project_root. by rw Hd Hp Hm. Qed.

Lemma shares_nil n : shares [] n n.
Proof. split; [done|by left|]. intros _ k r Hk. by apply not_elem_of_nil in Hk. Qed.

Lemma shares_app ks ks' n n1 n2 : shares ks n n1 → shares ks' n1 n2 → shares (ks ++ ks') n n2.
Proof.
  intros [Hb Hs Hc] [Hb' Hs' Hc']. split.
  - destruct Hb, Hb'. split; [congruence..|auto].
  - intros k. rw elem_of_app. rw -(shareable_base n n1) //. destruct (Hs' k) as [->|(? & ? & ?)]; [|by right; auto].
    destruct (Hs k) as [?|(? & ? & ?)]; [by left|right]. rw (shareable_base n n1) //. auto.
  - intros Hf k r Hk Hr. destruct (Hs' k) as [E|(_ & _ & ->)]; [|by rw (shareable_base n n1)].
    apply elem_of_app in Hk as [Hk|Hk]; [by rw E; apply Hc|]. apply Hc'; [by apply Hb|done|by rw (shareable_base n n1)].
Qed.
Lemma wp_reshare_entry pid root m rel en c n :
  project_root (npm n) pid = Some root → manifests (npm n) !! pid = Some m → files m !! rel = Some en →
  wp (restore_entry pid root rel en c) (λ r n', (∃ c', r = Ok c') ∧ shares [(pid, rel)] n n') n.
Proof.
  intros Hroot Hm Hen.
  assert (Hskip : ∀ c n', same_base n n' → nd_ex n' = nd_ex n → (nfaults n = [] → shareable n (pid, rel) = None) →
    wp (mret c) (λ (r : result IoError nat) n', (∃ c', r = Ok c') ∧ shares [(pid, rel)] n n') n').
  { intros c' n' Hb He Hn. wp_step. split; [eauto|]. split; [done|by rw He; left|].
    intros Hf k r ->%list_elem_of_singleton. by rw Hn. }
  assert (Hsh : ∀ x, resolves (ndisk n) root rel = x → shareable n (pid, rel) = (p ← x;
    if content_matches (ndisk n) p (me_size en) (me_crc en)
    then Some (mk_SharedFileRecord pid p (me_size en) (me_crc en) (version en)) else None)).
  { intros x <-. unfold shareable. cbn [fst snd]. by rw Hroot /= Hm /= Hen. }
  unfold restore_entry. destruct (safe_rel_to_local rel) as [local|] eqn:Hl.
  2:{ apply Hskip; [done..|]. intros _. rw (Hsh None) //. unfold resolves, safe_join_under_root. by rw Hl. }
  wp_step. apply wp_on_files. eapply wp_mono; [apply wp_safe_join_exact|].
  intros r w1 (Hw1 & o & -> & Ho & Hf1). fold (ndisk n) (nfaults n) in Hw1, Ho, Hf1.
  assert (Hb1 : ∀ w, disk w = disk w1 → (nfaults n = [] → faults w = []) →
    same_base n (mk_Node (nd_ex n) (mk_State (npm n) w (state_cell (nd_st n))) (sent n))).
  { intros w Ew Ef. split; [unfold ndisk; cbn; by rw Ew Hw1|done..]. }
  destruct o as [p|].
  2:{ apply Hskip; [apply Hb1; [done|by intros [? _]%Hf1]|done|]. intros Hf. by rw (Hsh None); [symmetry; apply Hf1|]. }
  specialize (Hsh _ (Ho p eq_refl)). cbn [mbind option_bind] in Hsh. clear Ho.
  assert (Hf1' : nfaults n = [] → faults w1 = []) by (intros [? _]%Hf1; done). clear Hf1. rename Hf1' into Hf1.
  wp_step. apply wp_on_files. unfold is_file. wp_step. wp_step. apply wp_query_exact. intros r w2 Hw2 Hf2 Hr2. wp_step.
  cbn [nd_st world nd_ex npm pm state_cell sent] in *. rw Hw1 in Hf2, Hr2.
  assert (Hread : ∀ b, metadata_at (ndisk n) p = Ok (File b) → read_at (ndisk n) p = Ok b).
  { intros b E. unfold read_at. by rw E. }
  assert (Hno : (nfaults n = [] → ∀ b, r ≠ Ok (File b)) → nfaults n = [] → shareable n (pid, rel) = None).
  { intros Hr Hf. rw Hsh. unfold content_matches, read_at. destruct (Hf2 (Hf1 Hf)) as [_ <-].
    destruct r as [[b| |]|]; try done. by destruct (Hr Hf b). }
  assert (Hb2 : same_base n (mk_Node (nd_ex n) (mk_State (npm n) w2 (state_cell (nd_st n))) (sent n))).
  { apply Hb1; [done|]. intros Hf. by apply Hf2, Hf1. }
  destruct r as [[b| |t]|e]; cbn [negb]; [|by apply Hskip; auto..].
  destruct Hr2 as [Hr2|?]; [|done]. specialize (Hread b (eq_sym Hr2)). clear Hno. wp_step. wp_step.
  apply wp_on_files. unfold crc32_of_file. wp_step. apply wp_query_exact. intros r w3 Hw3 Hf3 Hr3. cbn [nd_st world] in *.
  rw Hw2 Hw1 in Hf3, Hr3. cbn [nd_ex npm pm state_cell sent].
  assert (Hb3 : same_base n (mk_Node (nd_ex n) (mk_State (npm n) w3 (state_cell (nd_st n))) (sent n))).
  { apply Hb1; [by rw Hw3|]. intros Hf. by apply Hf3, Hf2, Hf1. }
  unfold content_matches in Hsh. rw Hread in Hsh, Hf3, Hr3.
  destruct r as [b'|e]; [wp_step|].
  2:{ apply Hskip; [done..|]. intros Hf. by destruct (Hf3 (proj1 (Hf2 (Hf1 Hf)))). }
  destruct Hr3 as [[= ->]|?]; [|done]. rw crc32_of_chunks -negb_andb.
  destruct ((len b =? me_size en)%N && (crc32 b =? me_crc en)%N) eqn:Em; cbn [negb]; [|by apply Hskip; auto].
  wp_step. apply wp_register. wp_step. apply wp_on_exchange. wp_step. split; [eauto|].
  destruct Hb3 as [Hd3 Hp3 Hm3 Hq3]. split; [by split|..]; cbn.
  - intros k. rw lookup_insert. case_decide as Ek; [|by left]. right. rw -Ek Hsh.
    split_and!; [by left|by eexists|done].
  - intros _ k r' ->%list_elem_of_singleton. rw Hsh lookup_insert_eq. done.
Qed.

(** ** Properties *)
Context `{!MapIter string ManagedProject, !MapIterLaws string ManagedProject}.

(** A loop whose every step looks at some files. *)
Lemma wp_shares_fold {X} (f : X → nat → ST Node IoError nat) (ks : X → list (string * FileId)) n0 l :
  (∀ x c n, x ∈ l → same_base n0 n → wp (f x c) (λ r n', (∃ c', r = Ok c') ∧ shares (ks x) n n') n) →
  ∀ c n, same_base n0 n → wp (fold_st f l c) (λ r n', (∃ c', r = Ok c') ∧ shares (l ≫= ks) n n') n.
Proof.
  induction l as [|x l IH]; intros Hf c n Hb; cbn [fold_st]; [wp_step; split; [eauto|apply shares_nil]|].
  wp_step. eapply wp_mono; [apply Hf; [left|done]|]. intros r n1 [[c1 ->] Hs]. eapply wp_mono; [apply IH|].
  - intros y c' n' Hy. apply Hf. by right.
  - destruct Hb, (sh_base _ _ _ Hs). split; [congruence..|auto].
  - intros r n2 [Hc Hs2]. split; [done|]. rw bind_cons. by eapply shares_app.
Qed.

Lemma wp_restore_project pid c n :
  wp (restore_project pid c) (λ r n', (∃ c', r = Ok c') ∧
    shares ((λ x, (pid, x.1)) <$> manifest_entries (npm n) pid) n n') n.
Proof.
  unfold restore_project. wp_step. wp_step. destruct (project_root (npm n) pid) as [root|] eqn:Hroot.
  2:{ wp_step. split; [eauto|]. split; [done|by left|]. intros _ k r (rel & -> & _)%list_elem_of_fmap.
    unfold shareable. cbn. by rw Hroot. }
  unfold manifest_entries. destruct (manifests (npm n) !! pid) as [m|] eqn:Hm;
    [|apply wp_ret; split; [eauto|apply shares_nil]].
  assert (E : ∀ l : list (string * ManifestEntry), (λ x, (pid, x.1)) <$> l = l ≫= λ x, [(pid, x.1)]).
  { intros l. induction l as [|x l IH]; [done|]. by rw bind_cons -IH. }
  rw E. apply (wp_shares_fold _ (λ x, [(pid, x.1)]) n); [|done]. intros [rel en] c' n1 Hin [_ Hp Hmm _].
  apply elem_of_btree_iter in Hin. eapply wp_reshare_entry; [|by rw Hmm|done]. unfold project_root. by rw Hp.
Qed.

(** after a restart the daemon shares exactly what it can vouch for.  Of the files listed in
    the manifests of the open projects it shares those whose path is safe and whose content has
    the size and the checksum of their entry, as the version of that entry; a fault can only
    make it leave out a file.  Nothing on disk changes and the call does not fail. *)
Theorem restart_shares_matching n :
  let '(r, n') := restore_shared_files_from_manifests n in
  (∃ c, r = Ok c) ∧ ndisk n' = ndisk n ∧
  (∀ k, shared_files (nd_ex n') !! k = shared_files (nd_ex n) !! k ∨
     is_Some (shareable n k) ∧ shared_files (nd_ex n') !! k = shareable n k) ∧
  (nfaults n = [] → ∀ k p r, projects (npm n) !! k.1 = Some p → mp_project_id p = k.1 →
     shareable n k = Some r → shared_files (nd_ex n') !! k = Some r).
Proof.
  assert (Hw : wp restore_shared_files_from_manifests (λ r n', (∃ c, r = Ok c) ∧
    shares ((map_iter (projects (npm n))).*2 ≫= λ p,
      (λ x, (mp_project_id p, x.1)) <$> manifest_entries (npm n) (mp_project_id p)) n n') n).
  { unfold restore_shared_files_from_manifests. wp_step. wp_step. apply (wp_shares_fold _ _ n); [|done].
    intros p c n1 _ [_ Hp Hm _]. unfold manifest_entries. rw -Hm. apply wp_restore_project. }
  unfold wp in Hw. destruct (restore_shared_files_from_manifests n) as [r n']. destruct Hw as [Hr [Hb Hs Hc]].
  split_and!; [done|apply Hb| |].
  - intros k. destruct (Hs k) as [?|(_ & ? & ?)]; auto.
  - intros Hf [pid rel] p rec Hp Hid Hsh. cbn in *. apply Hc; [done| |done]. apply list_elem_of_bind. exists p. split.
    + rw Hid. apply list_elem_of_fmap. unfold shareable in Hsh. cbn in Hsh.
      destruct (project_root _ _); [|done]. unfold manifest_entries. destruct (manifests _ !! _) as [m|]; [|done].
      cbn in Hsh. destruct (files m !! rel) as [en|] eqn:Hen; [|done]. exists (rel, en). split; [done|].
      by apply elem_of_btree_iter.
    + apply list_elem_of_fmap. exists (pid, p). split; [done|]. rw map_iter_perm. by apply elem_of_map_to_list.
Qed.
End restarting.

(** ** Bringing back a version *)
Section restoring.
Context `{Blake3, Crc32, Hex, Ed25519, HeapPick, !MapIter MessageId N, !MapIter string ManagedProject,
  !Codec ProjectManifest, !Codec VersionState, !Codec HistoryIndex, !Codec ObjectMeta, DirOrder}.

Lemma wp_discard_part croot d0 tmp e (Q : result IoError () → Node → Prop) n :
  framed croot d0 (ndisk n) → plain (ndisk n) tmp → (croot ++ [META_DIR]) `prefix_of` tmp → tmp ≠ [] →
  (∀ n', nd_ex n' = nd_ex n → framed croot d0 (ndisk n') → Q (Err e) n') →
  wp (_ ← ignore (on_files (remove_file tmp)); throw e) Q n.
Proof.
  intros Hf Hp Hpre Hne HQ. destruct tmp as [|c p _] using rev_ind; [done|]. wp_step. wp_step. apply wp_on_files.
  apply wp_remove_plain; [done|..].
  - intros e' w' Hw. wp_step. apply HQ; [done|]. unfold ndisk. cbn. by rw Hw.
  - intros w' Hw Hold. wp_step. apply HQ; [done|]. eapply framed_trans; [done|]. unfold ndisk. cbn. rw Hw.
    apply framed_edit; [apply Hf|done|apply is_content_none|done|]. by intros [].
Qed.

Lemma read_at_mono d d' p b :
  (∀ q x, d !! q = Some x → d' !! q = Some x) → read_at d p = Ok b → read_at d' p = Ok b.
Proof.
  intros Hk. unfold read_at, metadata_at. destruct (canonicalize_at d p) as [q|] eqn:E; [|done].
  rw (resolve_mono _ _ _ _ _ _ Hk E : canonicalize_at d' p = Ok q). cbn.
  destruct q as [|c q]; [done|]. cbn. destruct (d !! (c :: q)) as [x|] eqn:Ex; [|done]. by rw (Hk _ _ Ex).
Qed.

Lemma resolves_inv d root rel p :
  disk_wf d → resolves d root rel = Some p →
  ∃ croot local, canonicalize_at d root = Ok croot ∧ p = croot ++ local ∧ local ≠ [] ∧ head local ≠ Some META_DIR ∧
    real_dir d croot ∧ plain d p.
Proof.
  intros Hd Hr. pose proof (wp_safe_join root rel (mk_World d []) Hd) as Hw. unfold wp in Hw. unfold resolves in Hr.
  destruct (safe_join_under_root _ _ _) as [[o|] w]; [|done]. cbn in Hr. subst o. destruct Hw as [_ Hw]. by apply Hw.
Qed.

(** What became of the file [p], whose stored content is [b]. *)
Definition restored (croot p : path) (b : bytes) (n : Node) (r : result IoError ()) (n' : Node) : Prop :=
  nd_ex n' = nd_ex n ∧
  match r with
  | Ok _ => ndisk n' !! p = Some (File b) ∧ ∀ q, q ≠ [] → q ≠ p → ¬ (croot ++ [META_DIR]) `prefix_of` q →
      ndisk n' !! q = ndisk n !! q ∨ ndisk n !! q = None ∧ ndisk n' !! q = Some Dir
  | Err _ => framed croot (ndisk n) (ndisk n')
  end.

Lemma wp_swap_in croot root rel tmp p b n0 n :
  nd_ex n = nd_ex n0 → framed croot (ndisk n0) (ndisk n) → plain (ndisk n) tmp → ndisk n !! tmp = Some (File b) →
  (croot ++ [META_DIR]) `prefix_of` tmp → plain (ndisk n) p → p ≠ [] →
  wp (swap_in root rel p tmp) (restored croot p b n0) n.
Proof.
  intros He Hf Hpt Hb Hpre Hpl Hne.
  assert (Hfail : ∀ er n', nd_ex n' = nd_ex n0 → framed croot (ndisk n0) (ndisk n') → restored croot p b n0 (Err er) n') by by split.
  destruct tmp as [|c tp _] using rev_ind; [by apply prefix_nil_inv in Hpre; destruct croot|].
  unfold swap_in. wp_step. apply wp_on_files. eapply wp_mono; [apply wp_resolve_local|]. cbn [nd_st world].
  intros r w (Hw & _ & _). fold (ndisk n) in Hw. rw -Hw in Hf, Hpt, Hb, Hpl.
  destruct r as [[q|]|er]; [|wp_step; by apply Hfail|by apply Hfail].
  assert (Hdiscard : ∀ er n', nd_ex n' = nd_ex n0 → ndisk n' = disk w →
    wp (_ ← ignore (on_files (remove_file (tp ++ [c]))); throw er) (restored croot p b n0) n').
  { intros er n' He' Hn. eapply wp_discard_part; [by rw Hn|by rw Hn|done|by destruct tp|]. intros n2 He2 ?.
    apply Hfail; [by rw He2|done]. }
  case_bool_decide as Hq; cbn [negb]; [subst q|by apply Hdiscard].
  wp_step. wp_step. apply wp_on_files. unfold replace_file_atomically. cbn [nd_st world].
  destruct p as [|x p' _] using rev_ind; [done|]. apply wp_rename_plain; [done|done|..].
  { intros er w5 Hw5. by apply Hdiscard. }
  intros b' w5 Hsrc _ _ Hw5. rw Hb in Hsrc. injection Hsrc as <-. wp_step. split; [done|]. pose proof (fr_out _ _ _ Hf) as Ho.
  unfold ndisk in *. cbn. split; [by rw Hw5 lookup_partial_alter_eq|]. intros y Hy Hyp Hyo.
  rw Hw5 lookup_partial_alter_ne // lookup_partial_alter_ne; [intros E; by rw E in Hpre|]. by apply Ho.
Qed.

(** The name of a temporary file is free after the directories have been made. *)
Lemma part_free croot p c d d1 d2 :
  let tp := croot ++ [META_DIR; INCOMING_DIR] in
  (∀ q, d !! (q ++ [c]) = None) → quiet croot d d1 → dirs_added (parent p) d1 d2 → real_dir d1 tp → normal tp →
  c ≠ ".." → ¬ (croot ++ [META_DIR]) `prefix_of` p → d2 !! (tp ++ [c]) = None ∧ plain d2 (tp ++ [c]).
Proof.
  intros tp Hfresh Hq Ha Hr Hn Hc Hout. assert (Hnone : d2 !! (tp ++ [c]) = None).
  { destruct (qt_dirs _ _ _ Hq (tp ++ [c])) as [E|[z E]].
    - destruct Ha as [_ Ha]. destruct (Ha (tp ++ [c])) as [->|(_ & _ & k & E')]; [by rw E Hfresh|].
      exfalso. apply Hout. transitivity (tp ++ [c]); [exists [INCOMING_DIR; c]; unfold tp; by rw -!app_assoc|].
      rw E'. etrans; apply prefix_take.
    - apply (f_equal length) in E. rw !length_app /= in E. lia. }
  split; [done|]. eapply framed_plain; [eapply (framed_dirs croot); [apply Hq|exact Ha]|].
  apply plain_in_dir; [apply Hq|done..|]. intros t Ht. eapply dirs_added_keeps in Ha; [|exact Ht]. congruence.
Qed.

(** the content of a version is restored completely or not at all.  If it succeeds, the file
    has the content of the stored object; if it fails, the file is as it was.  Outside the
    metadata directory of the project nothing else changes but missing directories. *)
Theorem restore_all_or_nothing uuid root croot rel p stored b n :
  disk_wf (ndisk n) → canonicalize_at (ndisk n) root = Ok croot → resolves (ndisk n) root rel = Some p →
  read_at (ndisk n) (sv_path stored) = Ok b → (∀ q, ndisk n !! (q ++ ["restore-" +:+ uuid +:+ ".part"]) = None) →
  let '(r, n') := restore_content uuid root rel p stored n in restored croot p b n r n'.
Proof.
  intros Hd Hcan Hres Hb Hfresh. destruct (resolves_inv _ _ _ _ Hd Hres) as (croot' & local & E & Hp & Hne & Hhd & Hreal & Hpl).
  rw Hcan in E. injection E as <-.
  assert (Hout : p ≠ [] ∧ ¬ (croot ++ [META_DIR]) `prefix_of` p).
  { rw Hp. split; [by destruct croot, local|]. intros [z E]. rw -app_assoc in E. apply app_inv_head in E. by rw E in Hhd. }
  destruct Hout as [Hpne Hout]. destruct (restore_content _ _ _ _ _ _) as [r n'] eqn:E. eapply wp_eq, E.
  clear E r n'. unfold restore_content.
  wp_step. apply wp_on_files. eapply wp_mono; [by apply wp_incoming_dir|]. intros [incoming|er] w1 [Hq Hi].
  2:{ split; [done|]. by apply quiet_framed. }
  destruct (Hi _ eq_refl) as (-> & Hri & Hni). wp_step. apply wp_on_files.
  eapply wp_mono; [apply wp_create_dirs; [apply Hq|apply plain_parent; by eapply quiet_plain]|].
  cbn [nd_st world]. intros r w2 [Ha _].
  assert (Hf2 : framed croot (ndisk n) (disk w2)).
  { eapply framed_trans; [by apply quiet_framed|]. eapply framed_dirs; [apply Hq|done]. }
  destruct r as [[]|er]; [|by split]. set (c := "restore-" +:+ uuid +:+ ".part").
  destruct (part_free croot p c _ _ _ Hfresh Hq Ha Hri Hni) as [Hnone Hpt]; [done..|].
  assert (Hr2 : read_at (disk w2) (sv_path stored) = Ok b).
  { apply (read_at_mono (ndisk n)); [|done]. intros q x Hx%(qt_keeps _ _ _ Hq). by eapply dirs_added_keeps. }
  set (tp := croot ++ [META_DIR; INCOMING_DIR]) in *.
  assert (Hpre : (croot ++ [META_DIR]) `prefix_of` (tp ++ [c])) by (exists [INCOMING_DIR; c]; unfold tp; by rw -!app_assoc).
  wp_step. apply wp_on_files. cbn [nd_st world]. apply wp_copy_plain; [done|..].
  { intros er w3 Hw3. split; [done|]. unfold ndisk at 2. cbn. by rw Hw3. }
  intros b1 b2 r w3 E Hw3 _ Hpar Hok. rw Hr2 in E. injection E as <-.
  assert (Hf3 : framed croot (disk w2) (disk w3)).
  { rw Hw3. apply framed_edit; [apply Hf2|done|apply is_content_file|by rw Hnone|done]. }
  assert (Hf : framed croot (ndisk n) (disk w3)) by by eapply framed_trans.
  destruct r as [[]|er]; [|by split]. rw (Hok eq_refl) in Hw3.
  apply wp_swap_in; [done|done|exact (framed_plain _ _ _ _ Hf3 Hpt)| |done|exact (framed_plain _ _ _ _ Hf Hpl)|done].
  unfold ndisk. cbn. by rw Hw3 lookup_partial_alter_eq.
Qed.
End restoring.

(** ** Witnesses: a project with one file, which a peer has or which is in the store. *)
Module CheckoutWitness.
#[export] Existing Instances Toy.toy_blake3 Toy.toy_hex Toy.toy_crc32 Toy.toy_ed25519 Gossip.Witness.pick
  ManifestWitness.manifest_codec ManifestWitness.state_codec ExWitness.iter ProjectWitness.project_iter
  StoreWitness.dir_order StoreWitness.index_codec StoreWitness.meta_codec.
#[export] Instance project_iter_laws : MapIterLaws string ManagedProject := toy_iter_laws.

Definition e0 : Exchange := with_network "me" None true false None.
(** The project after its first publication, the file itself being gone. *)
Definition n0 : Node := mk_Node e0 (ProjectWitness.run ProjectWitness.s0 (take 2 ProjectWitness.ops)).1 [].
(** A manifest with a file that is there, one that is missing and one behind the link [out]. *)
Definition asked : ProjectManifest := mk_ProjectManifest 1 "p"
  {["art/a.png" := mk_ManifestEntry 3 1 (crc32 [x01]) 7 "me";
    "art/b.png" := mk_ManifestEntry 2 4 55 8 "me";
    "out/x" := mk_ManifestEntry 5 4 55 9 "me"]}.
Definition asked_at : path := ["etc"; "asked.json"].
Definition n2 : Node := mk_Node e0 (mk_State (npm n0)
  (mk_World (<[asked_at := File (default [] (to_vec asked))]> (ndisk n0)) []) (state_cell (nd_st n0))) [].
Definition checkout2 := checkout_project 50 (λ _, "t") "u1" "u2" "p" (Some asked_at) n2.

Definition b : bytes := as_bytes "hello".
(** The same manager with the file and its entry in place. *)
Definition entry : ManifestEntry := mk_ManifestEntry 4 (len b) (crc32 b) 1 "me".
Definition disk1 : Fs := list_to_map [(["proj"], Dir); (["proj"; "f"], File b); (["hist"], Dir); (["hist"; "o"], File b)].
Definition pm1 : ProjectManager :=
  set_manifests {["p" := mk_ProjectManifest 1 "p" {["f" := entry; "g" := entry]}]} (npm n0).
Definition n1 : Node := mk_Node e0 (mk_State pm1 (mk_World disk1 []) None) [].

(** A version of [g] in the store. *)
Definition stored : StoredVersion := mk_StoredVersion "g" 2 "" (len b) (crc32 b) 1 "me" "published" ["hist"; "o"].
Definition restored1 := restore_content "u" ["proj"] "g" ["proj"; "g"] stored n1.

Lemma disk1_all (f : path → node → bool) :
  forallb (λ x, f x.1 x.2) (map_to_list disk1) = true → ∀ p x, disk1 !! p = Some x → f p x = true.
Proof. apply StoreWitness.tree_all. Qed.

Lemma disk1_wf : disk_wf disk1.
Proof.
  split.
  - intros p c x Hx. apply (disk1_all (λ p _, bool_decide (node_at disk1 (parent p) = Some Dir))) in Hx;
      [|vm_compute; reflexivity]. rw parent_snoc in Hx. by apply bool_decide_eq_true in Hx.
  - intros t Hx. apply (disk1_all (λ p _, negb (bool_decide (p = [])))) in Hx; [done|vm_compute; reflexivity].
Qed.

Lemma disk1_fresh q : disk1 !! (q ++ ["restore-" +:+ "u" +:+ ".part"]) = None.
Proof.
  apply eq_None_not_Some. intros [x Hx].
  apply (disk1_all (λ p _, negb (bool_decide (last p = Some "restore-u.part")))) in Hx; [|vm_compute; reflexivity].
  rw last_snoc bool_decide_eq_true_2 // in Hx.
Qed.

Lemma resolved1 : canonicalize_at disk1 ["proj"] = Ok ["proj"] ∧ resolves disk1 ["proj"] "g" = Some ["proj"; "g"] ∧
  read_at disk1 ["hist"; "o"] = Ok b.
Proof. split; [|split]; vm_compute; reflexivity. Qed.
End CheckoutWitness.
Import (hints) CheckoutWitness.

(** The file that is there is shared as version 3, the missing one is requested and will be
    accepted, and the one behind the link is left alone. *)
Lemma checkout_reaches_manifest_witness :
  ∃ rep, CheckoutWitness.checkout2.1 = Ok rep ∧ requested rep = [("art/b.png", 2%N)] ∧ up_to_date rep = 1 ∧
  ∃ target n1, target_manifest "u1" "u2" "p" (Some CheckoutWitness.asked_at) CheckoutWitness.n2 = (Ok target, n1) ∧
    manifest_snapshot (npm n1) "p" = target ∧ ndisk CheckoutWitness.checkout2.2 = ndisk n1 ∧
    ∃ os, Forall2 (settled 50 "p" ["proj"] (ndisk n1) (nfaults n1 = [])
        (nd_ex CheckoutWitness.n2) (nd_ex CheckoutWitness.checkout2.2)) (btree_iter (files target)) os ∧
      omap wanted_of (zip (btree_iter (files target)) os) = [("art/b.png", 2%N)] ∧
      length (filter (λ o, is_kept o = true) os) = 1.
Proof.
  assert (Hrun : ∃ rep, CheckoutWitness.checkout2 = (Ok rep, CheckoutWitness.checkout2.2) ∧
    requested rep = [("art/b.png", 2%N)] ∧ up_to_date rep = 1).
  { eexists. split; [vm_compute; reflexivity|]. split; vm_compute; reflexivity. }
  assert (Hroot : project_root (npm CheckoutWitness.n2) "p" = Some ["proj"]) by (vm_compute; reflexivity).
  destruct Hrun as (rep & Hrun & Hreq & Hup).
  destruct (checkout_reaches_manifest 50 (λ _, "t") "p" ["proj"] "u1" "u2" (Some CheckoutWitness.asked_at)
    CheckoutWitness.n2 rep CheckoutWitness.checkout2.2 Hroot Hrun)
    as (target & n1 & Ht & Hm & Hd & _ & _ & os & Hos & Hr & Hu).
  exists rep. split; [exact (f_equal fst Hrun)|]. split; [exact Hreq|]. split; [exact Hup|].
  exists target, n1. split; [exact Ht|]. split; [exact Hm|]. split; [exact Hd|]. exists os.
  split; [exact Hos|]. split; [exact (eq_trans (eq_sym Hr) Hreq)|exact (eq_trans (eq_sym Hu) Hup)].
Defined.

(** The file that matches its entry is shared, the one that is missing is not. *)
Lemma restart_shares_matching_witness :
  shared_files (nd_ex (restore_shared_files_from_manifests CheckoutWitness.n1).2) !! ("p", "f") =
    Some (mk_SharedFileRecord "p" ["proj"; "f"] 5 (crc32 CheckoutWitness.b) 4) ∧
  ndisk (restore_shared_files_from_manifests CheckoutWitness.n1).2 = CheckoutWitness.disk1.
Proof.
  pose proof (restart_shares_matching CheckoutWitness.n1) as Hall.
  destruct (restore_shared_files_from_manifests CheckoutWitness.n1) as [r n'].
  destruct Hall as (_ & Hd & _ & Hc). split; [|exact Hd].
  eapply Hc; [reflexivity|vm_compute; reflexivity|reflexivity|vm_compute; reflexivity].
Defined.

(** The missing file is brought back from the store. *)
Lemma restore_all_or_nothing_witness :
  CheckoutWitness.restored1.1 = Ok () ∧
  restored ["proj"] ["proj"; "g"] CheckoutWitness.b CheckoutWitness.n1 CheckoutWitness.restored1.1 CheckoutWitness.restored1.2.
Proof.
  split; [vm_compute; reflexivity|].
  pose proof (restore_all_or_nothing "u" ["proj"] ["proj"] "g" ["proj"; "g"] CheckoutWitness.stored CheckoutWitness.b
    CheckoutWitness.n1 CheckoutWitness.disk1_wf (proj1 CheckoutWitness.resolved1)
    (proj1 (proj2 CheckoutWitness.resolved1)) (proj2 (proj2 CheckoutWitness.resolved1))
    CheckoutWitness.disk1_fresh) as Hall.
  unfold CheckoutWitness.restored1.
  destruct (restore_content "u" ["proj"] "g" ["proj"; "g"] CheckoutWitness.stored CheckoutWitness.n1) as [r n']. exact Hall.
Defined.
