(* ===== verification/Conflict.v ===== *)
(** * Conflicts

    [synergos-core/src/conflict/mod.rs]: forks of a file chain and contradicting versions are
    recorded until somebody resolves them, and the peers involved are told when they are back.
    The chain is the one of [Chain]. *)

From S2P Require Import Prelude Crypto Types Identity Chain.

Inductive ConflictResolution := KeepLocal | AcceptRemote | ManualMerge.

(** [Active] is a state of gossip as well. *)
Inductive ConflictState := CActive | CResolved (resolution : ConflictResolution).

Record ConflictInfo := mk_ConflictInfo {
  cf_file_id : FileId;
  common_ancestor_hash : option Blake3Hash;
  common_ancestor_version : N;
  local_version : N;
  local_author : PeerId;
  remote_version : N;
  remote_author : PeerId;
  involved_peers : list PeerId;
  detected_at : N;
  cf_state : ConflictState;
  cf_file_path : string;
  cf_project_id : string;
}.

Record PendingNotification := mk_PendingNotification {
  pn_conflict : ConflictInfo;
  target_peer : PeerId;
  pn_created_at : N;
  retry_count : N;
}.

Inductive ConflictError := ConflictNotFound (file_id : string) | AlreadyResolved (file_id : string).

Record ConflictDetectedEvent := mk_ConflictDetectedEvent {
  cd_project_id : string;
  cd_file_id : string;
  cd_file_path : string;
  cd_involved_peers : list string;
}.

(** The events emitted are kept in order. *)
Record ConflictManager := mk_ConflictManager {
  conflicts : gmap FileId ConflictInfo;
  hot_standby : gmap PeerId (list PendingNotification);
  conflict_events : list ConflictDetectedEvent;
}.

Global Instance ConflictResolution_eq_dec : EqDecision ConflictResolution.
Proof. solve_decision. Defined.
Global Instance ConflictState_eq_dec : EqDecision ConflictState.
Proof. solve_decision. Defined.

Definition new_conflicts : ConflictManager := mk_ConflictManager ∅ ∅ [].

Definition put_conflict (c : ConflictInfo) (m : ConflictManager) : ConflictManager :=
  mk_ConflictManager (<[cf_file_id c := c]> (conflicts m)) (hot_standby m) (conflict_events m).
Definition emit_conflict (c : ConflictInfo) (m : ConflictManager) : ConflictManager :=
  mk_ConflictManager (conflicts m) (hot_standby m) (conflict_events m ++
    [mk_ConflictDetectedEvent (cf_project_id c) (cf_file_id c) (cf_file_path c) (involved_peers c)]).
Definition with_conflict_state (s : ConflictState) (c : ConflictInfo) : ConflictInfo :=
  mk_ConflictInfo (cf_file_id c) (common_ancestor_hash c) (common_ancestor_version c) (local_version c) (local_author c)
    (remote_version c) (remote_author c) (involved_peers c) (detected_at c) s (cf_file_path c) (cf_project_id c).
Definition with_involved (l : list PeerId) (c : ConflictInfo) : ConflictInfo :=
  mk_ConflictInfo (cf_file_id c) (common_ancestor_hash c) (common_ancestor_version c) (local_version c) (local_author c)
    (remote_version c) (remote_author c) l (detected_at c) (cf_state c) (cf_file_path c) (cf_project_id c).

Definition record_version_conflict (now : N) (project_id : string) (file_id : FileId) (local_version : N)
    (local_peer : PeerId) (remote_version : N) (remote_peer : PeerId) (m : ConflictManager) :
    ConflictManager * ConflictInfo :=
  match conflicts m !! file_id with
  | Some existing => (m, existing)
  | None =>
      let conflict := mk_ConflictInfo file_id None (local_version - 1) local_version local_peer remote_version
        remote_peer [local_peer; remote_peer] now CActive file_id project_id in
      (emit_conflict conflict (put_conflict conflict m), conflict)
  end.

Definition queue_notification (now : N) (c : ConflictInfo) (target : PeerId) (m : ConflictManager) : ConflictManager :=
  mk_ConflictManager (conflicts m)
    (<[target := default [] (hot_standby m !! target) ++ [mk_PendingNotification c target now 0]]> (hot_standby m))
    (conflict_events m).

(** The loop over the peers involved, the local one excepted. *)
Definition queue_others (now : N) (c : ConflictInfo) (local_peer : PeerId) (m : ConflictManager) : ConflictManager :=
  foldl (λ m p, if bool_decide (p = local_peer) then m else queue_notification now c p m) m (involved_peers c).

(** The block of the local chain the remote block was built on. *)
Definition fork_point (c : FileChain) (b : ChainBlock) : option Blake3Hash * N :=
  match prev_hash b with
  | Some prev => match find_first (λ x, bool_decide (hash x = prev)) (blocks c) with
                 | Some x => (Some (hash x), version x)
                 | None => (None, 0%N)
                 end
  | None => (None, 0%N)
  end.

Definition detect_conflict (now : N) (project_id : string) (file_id : FileId) (file_path : string)
    (local_chain : FileChain) (remote_block : ChainBlock) (local_peer : PeerId) (m : ConflictManager) :
    ConflictManager * option ConflictInfo :=
  match head local_chain with
  | None => (m, None)
  | Some local_head =>
      if bool_decide (prev_hash remote_block = Some local_head) then (m, None)
      else if bool_decide (is_Some (conflicts m !! file_id)) then (m, None)
      else
        let '(ancestor_hash, ancestor_version) := fork_point local_chain remote_block in
        let conflict := mk_ConflictInfo file_id ancestor_hash ancestor_version (head_version local_chain) local_peer
          (version remote_block) (author remote_block) [local_peer; author remote_block] now CActive file_path project_id in
        (emit_conflict conflict (queue_others now conflict local_peer (put_conflict conflict m)), Some conflict)
  end.

Definition resolve_conflict (file_id : FileId) (r : ConflictResolution) (m : ConflictManager) :
    ConflictManager * result ConflictError ConflictInfo :=
  match conflicts m !! file_id with
  | None => (m, Err (ConflictNotFound file_id))
  | Some c =>
      match cf_state c with
      | CResolved _ => (m, Err (AlreadyResolved file_id))
      | CActive =>
          let c := with_conflict_state (CResolved r) c in
          (mk_ConflictManager (<[file_id := c]> (conflicts m)) (hot_standby m) (conflict_events m), Ok c)
      end
  end.

Definition list_conflicts `{!MapIter FileId ConflictInfo} (m : ConflictManager) (project_id : option string) :
    list ConflictInfo :=
  filter (λ c, cf_state c = CActive ∧ match project_id with Some pid => bool_decide (cf_project_id c = pid) | None => true end = true)
    (map_iter (conflicts m)).*2.

Definition get_conflict (m : ConflictManager) (file_id : FileId) : option ConflictInfo := conflicts m !! file_id.

Definition cleanup_resolved (m : ConflictManager) : ConflictManager :=
  mk_ConflictManager (filter (λ kc, cf_state kc.2 = CActive) (conflicts m)) (hot_standby m) (conflict_events m).

Definition drain_pending_notifications (peer : PeerId) (m : ConflictManager) :
    ConflictManager * list PendingNotification :=
  (mk_ConflictManager (conflicts m) (delete peer (hot_standby m)) (conflict_events m),
   default [] (hot_standby m !! peer)).

(** The peers of an alert that are not listed yet. *)
Definition add_involved (l : list PeerId) (nodes : list PeerId) : list PeerId :=
  foldl (λ l p, if contains p l then l else l ++ [p]) l nodes.

Definition handle_conflict_alert (now : N) (file_id : FileId) (conflicting_nodes : list PeerId)
    (their_versions : list N) (m : ConflictManager) : ConflictManager :=
  match conflicts m !! file_id with
  | Some c =>
      mk_ConflictManager (<[file_id := with_involved (add_involved (involved_peers c) conflicting_nodes) c]> (conflicts m))
        (hot_standby m) (conflict_events m)
  | None =>
      let info := mk_ConflictInfo file_id None 0 0 "local" (foldr N.max 0%N their_versions)
        (default "unknown" (list.head conflicting_nodes)) conflicting_nodes now CActive "" "" in
      put_conflict info (emit_conflict info m)
  end.

(** [now - n.created_at] in release mode. *)
Definition cleanup_expired_notifications (now ttl_ms : N) (m : ConflictManager) : ConflictManager :=
  let kept := (λ l, filter (λ n, (wrapping_sub now (pn_created_at n) < ttl_ms)%N) l) <$> hot_standby m in
  mk_ConflictManager (conflicts m) (filter (λ kl, kl.2 ≠ []) kept) (conflict_events m).

(** ** Operations as one alphabet *)
Inductive ConflictOp :=
| CDetect (now : N) (project_id : string) (file_id : FileId) (file_path : string) (chain : FileChain) (b : ChainBlock)
    (local_peer : PeerId)
| CRecord (now : N) (project_id : string) (file_id : FileId) (local_version : N) (local_peer : PeerId)
    (remote_version : N) (remote_peer : PeerId)
| CResolve (file_id : FileId) (r : ConflictResolution)
| CCleanup
| CQueue (now : N) (c : ConflictInfo) (target : PeerId)
| CDrain (peer : PeerId)
| CAlert (now : N) (file_id : FileId) (nodes : list PeerId) (versions : list N)
| CExpire (now ttl_ms : N).

Definition conflict_step (m : ConflictManager) (o : ConflictOp) : ConflictManager :=
  match o with
  | CDetect now pid f path chain b local => (detect_conflict now pid f path chain b local m).1
  | CRecord now pid f lv lp rv rp => (record_version_conflict now pid f lv lp rv rp m).1
  | CResolve f r => (resolve_conflict f r m).1
  | CCleanup => cleanup_resolved m
  | CQueue now c p => queue_notification now c p m
  | CDrain p => (drain_pending_notifications p m).1
  | CAlert now f nodes versions => handle_conflict_alert now f nodes versions m
  | CExpire now ttl => cleanup_expired_notifications now ttl m
  end.

Definition conflict_run (m : ConflictManager) (l : list ConflictOp) : ConflictManager := foldl conflict_step m l.

(** ** Lemmas *)
Lemma conflicts_queue_others now c local m : conflicts (queue_others now c local m) = conflicts m.
Proof.
  unfold queue_others. generalize (involved_peers c). intros l. revert m.
  induction l as [|p l IH]; intros m; [done|]. cbn. rw IH. by case_bool_decide.
Qed.

(** The same conflict: only its state and the peers involved may differ. *)
Definition same_conflict (c c' : ConflictInfo) : Prop :=
  cf_file_id c' = cf_file_id c ∧ common_ancestor_hash c' = common_ancestor_hash c ∧
  common_ancestor_version c' = common_ancestor_version c ∧ local_version c' = local_version c ∧
  local_author c' = local_author c ∧ remote_version c' = remote_version c ∧ remote_author c' = remote_author c ∧
  detected_at c' = detected_at c ∧ cf_file_path c' = cf_file_path c ∧ cf_project_id c' = cf_project_id c ∧
  involved_peers c `prefix_of` involved_peers c'.

Global Instance same_conflict_preorder : PreOrder same_conflict.
Proof.
  split.
  - intros c. by split_and!.
  - intros c1 c2 c3. unfold same_conflict. intros. destruct_and!. split_and!; [congruence..|]. by etrans.
Qed.

Lemma add_involved_prefix l nodes : l `prefix_of` add_involved l nodes.
Proof.
  unfold add_involved. revert l. induction nodes as [|p nodes IH]; intros l; cbn; [done|].
  destruct (contains p l); [apply IH|]. etrans; [|apply IH]. by exists [p].
Qed.

(** One step: the conflict stays, or it was resolved and is cleaned up. *)
Lemma conflict_step_keeps m o f c :
  conflicts m !! f = Some c →
  (∃ c', conflicts (conflict_step m o) !! f = Some c' ∧ same_conflict c c' ∧
     (cf_state c' = cf_state c ∨ ∃ r, cf_state c = CActive ∧ cf_state c' = CResolved r ∧ o = CResolve f r)) ∨
  o = CCleanup ∧ cf_state c ≠ CActive.
Proof.
  intros Hc. assert (Hsame : ∀ m', conflicts m' !! f = conflicts m !! f →
    (∃ c', conflicts m' !! f = Some c' ∧ same_conflict c c' ∧
     (cf_state c' = cf_state c ∨ ∃ r, cf_state c = CActive ∧ cf_state c' = CResolved r ∧ o = CResolve f r)) ∨
    o = CCleanup ∧ cf_state c ≠ CActive).
  { intros m' E. left. exists c. rw E. split; [done|]. split; [reflexivity|by left]. }
  destruct o as [now pid f' path chain b local|now pid f' lv lp rv rp|f' r| | | |now f' nodes versions|]; cbn; try by apply Hsame.
  - apply Hsame. unfold detect_conflict. destruct (head chain); [|done]. case_bool_decide; [done|].
    case_bool_decide as Hn; [done|]. destruct (fork_point chain b). unfold emit_conflict. cbn [fst conflicts].
    rw conflicts_queue_others. cbn.
    apply lookup_insert_ne. intros ->. apply Hn. by rw Hc.
  - apply Hsame. unfold record_version_conflict. destruct (conflicts m !! f') eqn:E; [done|]. cbn.
    apply lookup_insert_ne. intros ->. congruence.
  - unfold resolve_conflict. destruct (conflicts m !! f') as [c'|] eqn:E; [|by apply Hsame].
    destruct (cf_state c') eqn:Es; [|by apply Hsame]. destruct (decide (f' = f)) as [->|Hne].
    + rw Hc in E. injection E as <-. left. eexists. cbn. rw lookup_insert_eq. split; [done|]. split; [by repeat split|].
      right. by exists r.
    + apply Hsame. cbn. by apply lookup_insert_ne.
  - destruct (decide (cf_state c = CActive)) as [Hs|Hs]; [|by right]. apply (Hsame (cleanup_resolved m)). cbn. rw Hc.
    apply map_lookup_filter_Some. by split.
  - unfold handle_conflict_alert. destruct (conflicts m !! f') as [c'|] eqn:E.
    + destruct (decide (f' = f)) as [->|Hne]; [|apply Hsame; cbn; by apply lookup_insert_ne].
      rw Hc in E. injection E as <-. left. eexists. cbn. rw lookup_insert_eq. split; [done|]. split; [|by left].
      unfold same_conflict. cbn. split_and!; try done. apply add_involved_prefix.
    + apply Hsame. cbn. apply lookup_insert_ne. intros ->. congruence.
Qed.

(** ** Properties *)

(** C13: A conflict is not lost before it is resolved.  Whatever happens, a recorded conflict keeps
    its versions, authors and fork point, the peers involved only grow in number, it becomes
    resolved only by a resolution of this very file and stays so with the resolution chosen
    first, and only the cleanup of resolved conflicts removes it. *)
Theorem conflict_never_lost m l f c :
  conflicts m !! f = Some c →
  (∃ c', conflicts (conflict_run m l) !! f = Some c' ∧ same_conflict c c' ∧
     (cf_state c' = cf_state c ∨ cf_state c = CActive ∧ ∃ r, cf_state c' = CResolved r ∧ CResolve f r ∈ l)) ∨
  (∃ l1 l2 r, l = l1 ++ CCleanup :: l2 ∧ (cf_state c = CResolved r ∨ cf_state c = CActive ∧ CResolve f r ∈ l1)).
Proof.
  unfold conflict_run. revert m c. induction l as [|o l IH]; intros m c Hc; cbn [foldl].
  { left. exists c. split; [done|]. split; [reflexivity|by left]. }
  destruct (conflict_step_keeps m o f c Hc) as [(c1 & Hc1 & Hs1 & Hst)|[-> Hst]].
  2:{ right. destruct (cf_state c) as [|r] eqn:E; [done|]. exists [], l, r. auto. }
  destruct (IH _ _ Hc1) as [(c' & Hc' & Hs' & Hst')|(l1 & l2 & r & -> & Hst')].
  - left. exists c'. split; [done|]. split; [by etrans|]. destruct Hst as [E|(r & Ea & Er & ->)].
    + rw E in Hst'. destruct Hst' as [?|(? & r & ? & ?)]; [by left|right]. split; [done|]. exists r. split; [done|by right].
    + right. split; [done|]. exists r. destruct Hst' as [->|[? _]]; [|congruence]. split; [done|left].
  - right. destruct Hst as [E|(r' & Ea & Er & ->)].
    + rw E in Hst'. exists (o :: l1), l2, r. split; [done|]. destruct Hst' as [?|[? ?]]; [by left|right]. split; [done|by right].
    + exists (CResolve f r' :: l1), l2, r'. split; [done|]. right. split; [done|left].
Qed.

(** Notifications waiting for a peer. *)
Definition pending (m : ConflictManager) (p : PeerId) : list PendingNotification := default [] (hot_standby m !! p).

(** Nothing that removes the notification [n] for [p]. *)
Definition spares (p : PeerId) (n : PendingNotification) (o : ConflictOp) : Prop :=
  match o with
  | CDrain q => q ≠ p
  | CExpire now ttl => (wrapping_sub now (pn_created_at n) < ttl)%N
  | _ => True
  end.

Lemma pending_queue now c q m p n : n ∈ pending m p → n ∈ pending (queue_notification now c q m) p.
Proof.
  intros Hn. unfold pending. cbn. rw lookup_insert. case_decide as E; [|done]. subst q. cbn. apply elem_of_app. by left.
Qed.

Lemma pending_queue_others now c local m p n : n ∈ pending m p → n ∈ pending (queue_others now c local m) p.
Proof.
  unfold queue_others. generalize (involved_peers c). intros l. revert m. induction l as [|q l IH]; intros m Hn; [done|].
  cbn. apply IH. case_bool_decide; [done|]. by apply pending_queue.
Qed.

Lemma pending_step m o p n : spares p n o → n ∈ pending m p → n ∈ pending (conflict_step m o) p.
Proof.
  intros Ho Hn. destruct o as [now pid f path chain b local|now pid f lv lp rv rp|f r| |now c q|q|now f nodes versions|now ttl]; cbn.
  - unfold detect_conflict. destruct (head chain); [|done]. case_bool_decide; [done|]. case_bool_decide; [done|].
    destruct (fork_point chain b). by apply (pending_queue_others now).
  - unfold record_version_conflict. by destruct (conflicts m !! f).
  - unfold resolve_conflict. destruct (conflicts m !! f) as [c|]; [|done]. by destruct (cf_state c).
  - done.
  - by apply pending_queue.
  - unfold pending. cbn. by rw lookup_delete_ne.
  - unfold handle_conflict_alert. by destruct (conflicts m !! f).
  - unfold pending in *. cbn. destruct (hot_standby m !! p) as [l|] eqn:E; [|by apply not_elem_of_nil in Hn].
    cbn in Hn. assert (Hin : n ∈ filter (λ n, (wrapping_sub now (pn_created_at n) < ttl)%N) l) by by apply list_elem_of_filter.
    erewrite (proj2 (map_lookup_filter_Some _ _ _ _)); [exact Hin|]. rw lookup_fmap E. split; [done|]. cbn.
    intros Hnil. rw Hnil in Hin. by apply not_elem_of_nil in Hin.
Qed.

Lemma pending_run m l p n : Forall (spares p n) l → n ∈ pending m p → n ∈ pending (conflict_run m l) p.
Proof.
  unfold conflict_run. revert m. induction l as [|o l IH]; intros m Hl Hn; [done|].
  apply Forall_cons in Hl as [Ho Hl]. apply IH; [done|]. by apply pending_step.
Qed.

(** a fork reaches the other side.  A remote block that does not build on the head of the chain
    is reported as a conflict exactly if none is recorded for the file; the conflict names the
    block both sides share if it is still in the chain, and its author finds the notification
    when it comes back, unless it has collected it before or it has expired. *)
Theorem fork_is_reported now pid f path chain b local m m' o :
  detect_conflict now pid f path chain b local m = (m', o) →
  (is_Some o ↔ (∃ h, head chain = Some h ∧ prev_hash b ≠ Some h) ∧ conflicts m !! f = None) ∧
  (o = None → m' = m) ∧
  ∀ c, o = Some c → conflicts m' !! f = Some c ∧ cf_state c = CActive ∧
    (∀ h, common_ancestor_hash c = Some h → prev_hash b = Some h ∧
       ∃ x, x ∈ blocks chain ∧ hash x = h ∧ version x = common_ancestor_version c) ∧
    (author b ≠ local → ∀ l, Forall (spares (author b) (mk_PendingNotification c (author b) now 0)) l →
       mk_PendingNotification c (author b) now 0 ∈ (drain_pending_notifications (author b) (conflict_run m' l)).2).
Proof.
  unfold detect_conflict. destruct (head chain) as [h|] eqn:Eh.
  2:{ intros [= <- <-]. split_and!; [|done..]. split; [by intros []|]. by intros [(h & ? & _) _]. }
  case_bool_decide as Ep.
  { intros [= <- <-]. split_and!; [|done..]. split; [by intros []|]. intros [(h' & [= <-] & ?) _]. done. }
  case_bool_decide as Ec.
  { intros [= <- <-]. split_and!; [|done..]. split; [by intros []|]. intros [_ E]. rw E in Ec. by destruct Ec. }
  destruct (fork_point chain b) as [ah av] eqn:Ef. set (c := mk_ConflictInfo _ _ _ _ _ _ _ _ _ _ _ _).
  intros [= <- <-]. split_and!; [|done|].
  { split; [|by eexists]. intros _. split; [by exists h|]. by destruct (conflicts m !! f); [destruct Ec|]. }
  intros c' [= <-]. split_and!; [|done| |].
  - unfold emit_conflict. cbn [conflicts]. rw conflicts_queue_others. by rw lookup_insert_eq.
  - intros h' Hh. cbn in Hh. subst ah. unfold fork_point in Ef. destruct (prev_hash b) as [prev|]; [|done].
    destruct (find_first _ _) as [x|] eqn:Ex; [|done]. injection Ef as <- <-.
    apply find_first_Some in Ex as [Hx Hp].
    apply bool_decide_eq_true in Hp. split; [by rw Hp|]. by exists x.
  - intros Hne l Hl. cbn [drain_pending_notifications snd]. apply (pending_run _ _ _ _ Hl). unfold pending, queue_others.
    cbn. rw (bool_decide_eq_true_2 (local = local)) // bool_decide_eq_false_2 //. cbn. rw lookup_insert_eq. cbn.
    apply elem_of_app. right. by left.
Qed.

(** ** Witnesses: a chain of two blocks and a third one built on the first. *)
Module ConflictWitness.
Definition block (prev : option Blake3Hash) (h : byte) (v : N) (who : PeerId) : ChainBlock :=
  mk_ChainBlock [h] prev v who [] 0 (FullSnapshot "" 0 0) [].
Definition b1 : ChainBlock := block None x01 1 "me".
Definition b2 : ChainBlock := block (Some [x01]) x02 2 "me".
Definition fork : ChainBlock := block (Some [x01]) x03 2 "peer".
Definition chain : FileChain := mk_FileChain "f" [b1; b2] 8 (Some [x02]).
Definition found := detect_conflict 10 "p" "f" "f" chain fork "me" new_conflicts.
Definition c : ConflictInfo := mk_ConflictInfo "f" (Some [x01]) 1 2 "me" 2 "peer" ["me"; "peer"] 10 CActive "f" "p".
Definition ops : list ConflictOp :=
  [CAlert 11 "f" ["other"; "me"] [4%N]; CExpire 12 100; CResolve "f" KeepLocal; CResolve "f" AcceptRemote; CDrain "other"].
End ConflictWitness.

(** The first resolution stands. *)
Lemma conflict_never_lost_witness :
  (∃ c', conflicts (conflict_run ConflictWitness.found.1 ConflictWitness.ops) !! "f" = Some c' ∧
     cf_state c' = CResolved KeepLocal ∧ involved_peers c' = ["me"; "peer"; "other"]) ∧
  ((∃ c', conflicts (conflict_run ConflictWitness.found.1 ConflictWitness.ops) !! "f" = Some c' ∧
     same_conflict ConflictWitness.c c' ∧
     (cf_state c' = CActive ∨ CActive = CActive ∧ ∃ r, cf_state c' = CResolved r ∧ CResolve "f" r ∈ ConflictWitness.ops)) ∨
   (∃ l1 l2 r, ConflictWitness.ops = l1 ++ CCleanup :: l2 ∧ (CActive = CResolved r ∨ CActive = CActive ∧ CResolve "f" r ∈ l1))).
Proof.
  split; [eexists; split; [vm_compute; reflexivity|split; reflexivity]|].
  apply (conflict_never_lost ConflictWitness.found.1 ConflictWitness.ops "f" ConflictWitness.c). vm_compute. reflexivity.
Defined.

(** The peer is told of the fork although it was offline. *)
Lemma fork_is_reported_witness :
  ConflictWitness.found.2 = Some ConflictWitness.c ∧
  mk_PendingNotification ConflictWitness.c "peer" 10 0 ∈
    (drain_pending_notifications "peer" (conflict_run ConflictWitness.found.1 ConflictWitness.ops)).2.
Proof.
  assert (Hf : detect_conflict 10 "p" "f" "f" ConflictWitness.chain ConflictWitness.fork "me" new_conflicts =
    (ConflictWitness.found.1, Some ConflictWitness.c)) by (vm_compute; reflexivity).
  split; [vm_compute; reflexivity|].
  destruct (fork_is_reported _ _ _ _ _ _ _ _ _ _ Hf) as (_ & _ & Hc). destruct (Hc _ eq_refl) as (_ & _ & _ & Hd).
  apply Hd; [done|]. repeat constructor; vm_compute; done.
Defined.
