(* ===== verification/Presence.v ===== *)
(** * Presence

    [synergos-core/src/presence/mod.rs] and [connection_observer.rs]: the peers a node knows,
    their states, and what the node tells others of itself.  The DHT and the gossip node are
    those of [Dht] and [Gossip]. *)

From S2P Require Import Prelude Crypto Types Identity Routing Dht Gossip.

(** [Idle] and [Away] are states of gossip as well. *)
Inductive PeerState := Discovered | Connecting | Connected | PIdle | PAway | Disconnected.

Record RegisteredNode := mk_RegisteredNode {
  rn_peer_id : PeerId;
  rn_display_name : string;
  rn_endpoints : list Route;
  rn_state : PeerState;
  rn_rtt_ms : option N;
  rn_project_ids : list string;
  bandwidth_bps : N;
  rn_last_seen : N;
  rn_synergos_version : string;
}.

Record NodeRegistration := mk_NodeRegistration {
  nr_peer_id : PeerId;
  nr_display_name : string;
  nr_endpoints : list Route;
  nr_project_ids : list string;
  nr_synergos_version : string;
}.

Inductive NodeRegistryError :=
| NodeNotFound (p : PeerId)
| AlreadyRegistered (p : PeerId)
| ConnectionFailed (m : string)
| NodeNetworkError (m : string).

Inductive PresenceEvent :=
| PeerConnectedEvent (project_id peer_id display_name route : string) (rtt_ms : N)
| PeerDisconnectedEvent (project_id peer_id reason : string).

Record PresenceService := mk_PresenceService {
  nodes : gmap PeerId RegisteredNode;
  local_node : option NodeRegistration;
  ps_dht : option DhtNode;
  ps_gossip : option GossipNode;
  is_relay_only : bool;
  reconnect_urls : gmap PeerId string;
  ps_events : list PresenceEvent;
}.

Global Instance PeerState_eq_dec : EqDecision PeerState.
Proof. solve_decision. Defined.

Definition with_network_and_mode (dht : option DhtNode) (gossip : option GossipNode) (relay_only : bool) :
    PresenceService :=
  mk_PresenceService ∅ None dht gossip relay_only ∅ [].

Definition set_nodes x (s : PresenceService) : PresenceService :=
  mk_PresenceService x (local_node s) (ps_dht s) (ps_gossip s) (is_relay_only s) (reconnect_urls s) (ps_events s).
Definition set_local x (s : PresenceService) : PresenceService :=
  mk_PresenceService (nodes s) x (ps_dht s) (ps_gossip s) (is_relay_only s) (reconnect_urls s) (ps_events s).
Definition set_dht x (s : PresenceService) : PresenceService :=
  mk_PresenceService (nodes s) (local_node s) x (ps_gossip s) (is_relay_only s) (reconnect_urls s) (ps_events s).
Definition set_ps_gossip x (s : PresenceService) : PresenceService :=
  mk_PresenceService (nodes s) (local_node s) (ps_dht s) x (is_relay_only s) (reconnect_urls s) (ps_events s).
Definition set_urls x (s : PresenceService) : PresenceService :=
  mk_PresenceService (nodes s) (local_node s) (ps_dht s) (ps_gossip s) (is_relay_only s) x (ps_events s).
Definition emit_presence x (s : PresenceService) : PresenceService :=
  mk_PresenceService (nodes s) (local_node s) (ps_dht s) (ps_gossip s) (is_relay_only s) (reconnect_urls s)
    (ps_events s ++ [x]).

Definition is_direct (r : Route) : bool := match r with Direct _ _ => true | _ => false end.

Definition sanitize_local_routes (s : PresenceService) (routes : list Route) : list Route :=
  if negb (is_relay_only s) then routes else filter (λ r, is_direct r = false) routes.

(** A node with another state, seen at [now]. *)
Definition seen_as (now : N) (st : PeerState) (n : RegisteredNode) : RegisteredNode :=
  mk_RegisteredNode (rn_peer_id n) (rn_display_name n) (rn_endpoints n) st (rn_rtt_ms n) (rn_project_ids n)
    (bandwidth_bps n) now (rn_synergos_version n).

Definition update_node (p : PeerId) (f : RegisteredNode → RegisteredNode) (s : PresenceService) : PresenceService :=
  set_nodes (alter f p (nodes s)) s.

(** [project_ids.first().cloned().unwrap_or_default()]. *)
Definition first_project (l : list string) : string := default "" (list.head l).

Section presence.
Context `{Blake3, Hex, Ed25519, HeapPick, !MapIter MessageId N, !MapIter NodeId PeerRecord, !MapIter PeerId RegisteredNode,
  !MapIter PeerId string}.
(** [format!("{:?}", endpoints.first())]. *)
Context (debug_route : option Route → string).

(** ** The node itself *)
(** [now] is [Instant::now()], [millis] the Unix time. *)
Definition broadcast_status (now millis : N) (r : NodeRegistration) (state : ActivityState) (s : PresenceService) :
    PresenceService :=
  match ps_gossip s with
  | None => s
  | Some g =>
      set_ps_gossip (Some (foldl (λ g project_id, (publish now (topic_project project_id)
        (PeerStatus (nr_peer_id r) (mk_PeerActivityStatus (nr_peer_id r) (nr_display_name r) state millis [])
           (nr_peer_id r) x00) g).1) g (nr_project_ids r))) s
  end.

Definition dht_announce (now : N) (r : NodeRegistration) (s : PresenceService) : PresenceService :=
  match ps_dht s with
  | None => s
  | Some d =>
      set_dht (Some (announce now d (mk_PeerRecord (nr_peer_id r) (nr_display_name r) (nr_endpoints r)
        (nr_project_ids r) now (120 * NANOS)))) s
  end.

Definition register_self (now millis : N) (r : NodeRegistration) (s : PresenceService) : PresenceService :=
  let r := mk_NodeRegistration (nr_peer_id r) (nr_display_name r) (sanitize_local_routes s (nr_endpoints r))
    (nr_project_ids r) (nr_synergos_version r) in
  broadcast_status now millis r Active (dht_announce now r (set_local (Some r) s)).

Definition unregister_self (now millis : N) (s : PresenceService) : PresenceService :=
  match local_node s with
  | None => s
  | Some r =>
      let s := set_local None s in
      broadcast_status now millis r Offline (set_nodes (delete (nr_peer_id r) (nodes s)) s)
  end.

(** ** Other nodes *)
Definition discover_project_peers (now : N) (s : PresenceService) (project_id : string) : list RegisteredNode :=
  match ps_dht s with
  | None => []
  | Some d =>
      (λ r, mk_RegisteredNode (peer_id r) (display_name r) (rec_endpoints r) Discovered None (active_projects r) 0
        (published_at r) "") <$> find_project_peers now d project_id
  end.

Definition update_bandwidth (p : PeerId) (bps : N) (s : PresenceService) : PresenceService :=
  update_node p (λ n, mk_RegisteredNode (rn_peer_id n) (rn_display_name n) (rn_endpoints n) (rn_state n) (rn_rtt_ms n)
    (rn_project_ids n) bps (rn_last_seen n) (rn_synergos_version n)) s.

Definition update_rtt (now : N) (p : PeerId) (rtt : N) (s : PresenceService) : PresenceService :=
  update_node p (λ n, mk_RegisteredNode (rn_peer_id n) (rn_display_name n) (rn_endpoints n) (rn_state n) (Some rtt)
    (rn_project_ids n) (bandwidth_bps n) now (rn_synergos_version n)) s.

Definition peer_state_of (a : ActivityState) : PeerState :=
  match a with Active => Connected | Idle => PIdle | Away => PAway | Offline => Disconnected end.

Definition handle_peer_status (now : N) (a : PeerActivityStatus) (s : PresenceService) : PresenceService :=
  update_node (st_peer_id a) (seen_as now (peer_state_of (st_state a))) s.

Definition register_node (now : N) (r : NodeRegistration) (s : PresenceService) :
    PresenceService * result NodeRegistryError RegisteredNode :=
  let p := nr_peer_id r in
  if bool_decide (is_Some (nodes s !! p)) then (s, Err (AlreadyRegistered p))
  else
    let n := mk_RegisteredNode p (nr_display_name r) (nr_endpoints r) Discovered None (nr_project_ids r) 0 now
      (nr_synergos_version r) in
    let s := set_nodes (<[p := n]> (nodes s)) s in
    let s := match ps_dht s with
             | Some d => set_dht (Some (add_peer now d p (nr_endpoints r) None)) s
             | None => s
             end in
    (emit_presence (PeerConnectedEvent (first_project (nr_project_ids r)) p (nr_display_name r)
       (debug_route (list.head (nr_endpoints r))) 0) s, Ok n).

Definition unregister_node (p : PeerId) (s : PresenceService) : PresenceService * result NodeRegistryError () :=
  let s := set_urls (delete p (reconnect_urls s)) s in
  match nodes s !! p with
  | Some n =>
      (emit_presence (PeerDisconnectedEvent (first_project (rn_project_ids n)) p "unregistered")
         (set_nodes (delete p (nodes s)) s), Ok ())
  | None => (s, Err (NodeNotFound p))
  end.

Definition list_nodes (s : PresenceService) (project_id : option string) : list RegisteredNode :=
  filter (λ n, match project_id with Some pid => contains pid (rn_project_ids n) | None => true end = true)
    (map_iter (nodes s)).*2.

Definition get_node (s : PresenceService) (p : PeerId) : option RegisteredNode := nodes s !! p.

Definition update_node_state (now : N) (p : PeerId) (st : PeerState) (s : PresenceService) :
    PresenceService * result NodeRegistryError () :=
  match nodes s !! p with
  | Some _ => (update_node p (seen_as now st) s, Ok ())
  | None => (s, Err (NodeNotFound p))
  end.

(** ** Connections *)
Definition emit_connected (p : PeerId) (project_id display_name : string) (s : PresenceService) : PresenceService :=
  emit_presence (PeerConnectedEvent project_id p display_name "quic" 0) s.

(** [if !project_ids.contains(p) { push(p) }] for each. *)
Definition merge_projects (l new : list string) : list string :=
  foldl (λ l p, if contains p l then l else l ++ [p]) l new.

Definition observe_connected (now : N) (p : PeerId) (project_ids : list string) (s : PresenceService) :
    PresenceService * bool :=
  match nodes s !! p with
  | Some n =>
      let reconnected := negb (bool_decide (rn_state n = Connected)) in
      let projects := merge_projects (rn_project_ids n) project_ids in
      let n := mk_RegisteredNode (rn_peer_id n) (rn_display_name n) (rn_endpoints n) Connected (rn_rtt_ms n) projects
        (bandwidth_bps n) now (rn_synergos_version n) in
      let s := set_nodes (<[p := n]> (nodes s)) s in
      (if reconnected then emit_connected p (first_project projects) (rn_display_name n) s else s, false)
  | None =>
      let s := set_nodes (<[p := mk_RegisteredNode p p [] Connected None project_ids 0 now ""]> (nodes s)) s in
      (emit_connected p (first_project project_ids) p s, true)
  end.

Definition observe_disconnected (p : PeerId) (reason : string) (s : PresenceService) : PresenceService :=
  match nodes s !! p with
  | None => s
  | Some n =>
      if bool_decide (rn_state n = Disconnected) then s
      else
        let n' := mk_RegisteredNode (rn_peer_id n) (rn_display_name n) (rn_endpoints n) Disconnected (rn_rtt_ms n)
          (rn_project_ids n) (bandwidth_bps n) (rn_last_seen n) (rn_synergos_version n) in
        emit_presence (PeerDisconnectedEvent (first_project (rn_project_ids n)) p reason)
          (set_nodes (<[p := n']> (nodes s)) s)
  end.

(** [if !x.is_empty() { node.x.clone_from(&x) }]. *)
Definition unless_empty {A} `{EqDecision A} (empty new old : A) : A := if bool_decide (new = empty) then old else new.

Definition merge_registered_connection (now : N) (r : NodeRegistration) (s : PresenceService) : PresenceService * bool :=
  match nodes s !! nr_peer_id r with
  | None => (s, false)
  | Some n =>
      let reconnected := negb (bool_decide (rn_state n = Connected)) in
      let projects := merge_projects (rn_project_ids n) (nr_project_ids r) in
      let name := unless_empty "" (nr_display_name r) (rn_display_name n) in
      let endpoints := match nr_endpoints r with [] => rn_endpoints n | _ => nr_endpoints r end in
      let n := mk_RegisteredNode (rn_peer_id n) name endpoints Connected (rn_rtt_ms n) projects (bandwidth_bps n) now
        (unless_empty "" (nr_synergos_version r) (rn_synergos_version n)) in
      let s := set_nodes (<[nr_peer_id r := n]> (nodes s)) s in
      (if reconnected then emit_connected (nr_peer_id r) (first_project projects) name s else s, true)
  end.

(** One operation at a time: the entry is still missing when it is registered. *)
Definition register_or_merge (now : N) (r : NodeRegistration) (s : PresenceService) :
    PresenceService * result NodeRegistryError () :=
  let '(s, merged) := merge_registered_connection now r s in
  if merged then (s, Ok ())
  else
    match register_node now r s with
    | (s, Ok _) => ((update_node_state now (nr_peer_id r) Connected s).1, Ok ())
    | (s, Err (AlreadyRegistered p)) =>
        let '(s, merged) := merge_registered_connection now r s in
        (s, if merged then Ok () else Err (AlreadyRegistered p))
    | (s, Err e) => (s, Err e)
    end.

Definition remember_reconnect_url (p : PeerId) (url : string) (s : PresenceService) : PresenceService :=
  set_urls (<[p := url]> (reconnect_urls s)) s.

Definition reconnect_targets (s : PresenceService) : list (PeerId * string) := map_iter (reconnect_urls s).

(** ** Traces *)
Inductive op :=
| RegisterSelf (now millis : N) (r : NodeRegistration)
| UnregisterSelf (now millis : N)
| RegisterNode (now : N) (r : NodeRegistration)
| UnregisterNode (p : PeerId)
| UpdateNodeState (now : N) (p : PeerId) (st : PeerState)
| UpdateBandwidth (p : PeerId) (bps : N)
| UpdateRtt (now : N) (p : PeerId) (rtt : N)
| PeerStatusReceived (now : N) (a : PeerActivityStatus)
| ConnectionUp (now : N) (p : PeerId) (project_ids : list string)
| ConnectionDown (p : PeerId) (reason : string)
| PeerInfoLearned (now : N) (r : NodeRegistration)
| RememberUrl (p : PeerId) (url : string)
(** A request of another peer, served by the DHT this service shares. *)
| DhtRequested (now : N) (req : DhtRequest).

Definition step (s : PresenceService) (o : op) : PresenceService :=
  match o with
  | RegisterSelf now millis r => register_self now millis r s
  | UnregisterSelf now millis => unregister_self now millis s
  | RegisterNode now r => (register_node now r s).1
  | UnregisterNode p => (unregister_node p s).1
  | UpdateNodeState now p st => (update_node_state now p st s).1
  | UpdateBandwidth p bps => update_bandwidth p bps s
  | UpdateRtt now p rtt => update_rtt now p rtt s
  | PeerStatusReceived now a => handle_peer_status now a s
  | ConnectionUp now p project_ids => (observe_connected now p project_ids s).1
  | ConnectionDown p reason => observe_disconnected p reason s
  | PeerInfoLearned now r => (register_or_merge now r s).1
  | RememberUrl p url => remember_reconnect_url p url s
  | DhtRequested now req => set_dht ((λ d, (handle_request now d req).1) <$> ps_dht s) s
  end.

Definition run (ops : list op) (s : PresenceService) : PresenceService := foldl step s ops.

(** The operations that follow the connections: all but the ones that set a state without a connection event
    (gossip, [update_node_state], a bare [register_node]) and the node's own departure. *)
Definition follows_connections (o : op) : bool :=
  match o with
  | PeerStatusReceived _ _ | UpdateNodeState _ _ _ | RegisterNode _ _ | UnregisterSelf _ _ => false
  | _ => true
  end.
End presence.

Definition event_peer (e : PresenceEvent) : PeerId :=
  match e with PeerConnectedEvent _ p _ _ _ | PeerDisconnectedEvent _ p _ => p end.
Definition is_connect (e : PresenceEvent) : bool :=
  match e with PeerConnectedEvent _ _ _ _ _ => true | _ => false end.

(** What the events said of one peer, in order. *)
Definition told (p : PeerId) (es : list PresenceEvent) : list bool :=
  is_connect <$> filter (λ e, event_peer e = p) es.

(** No peer is reported as connected twice in a row. *)
Fixpoint no_double_connect (l : list bool) : Prop :=
  match l with
  | a :: (b :: _) as t => (a && b = false) ∧ no_double_connect t
  | _ => True
  end.

Definition connected (s : PresenceService) (p : PeerId) : bool :=
  match nodes s !! p with Some n => bool_decide (rn_state n = Connected) | None => false end.

(** ** What a node tells of itself *)
Section advertised.
Context `{Blake3, Hex, Ed25519, HeapPick, !MapIter MessageId N, !MapIter NodeId PeerRecord,
  !MapIter PeerId RegisteredNode, !MapIter PeerId string}.
Context (debug_route : option Route → string).

Definition indirect (rs : list Route) : Prop := Forall (λ r, is_direct r = false) rs.

(** [d] was announced by a request among [ops], and [r] is the record it became. *)
Definition announced (ops : list op) (r : PeerRecord) : Prop :=
  ∃ now d, DhtRequested now (Announce d) ∈ ops ∧ r = from_dto now d.

Record private (ops : list op) (s : PresenceService) : Prop := {
  pr_mode : is_relay_only s = true;
  pr_local : ∀ r, local_node s = Some r → indirect (nr_endpoints r);
  pr_store : ∀ d k r, ps_dht s = Some d → store d !! k = Some r → indirect (rec_endpoints r) ∨ announced ops r;
}.

Lemma sanitize_indirect s rs : is_relay_only s = true → indirect (sanitize_local_routes s rs).
Proof. intros Hr. unfold sanitize_local_routes, indirect. rewrite Hr; cbn. apply list.Forall_forall. intros r [? _]%list_elem_of_filter. done. Qed.

(** The operations that leave the node's own record and the DHT's store alone. *)
Record same_advert (s s' : PresenceService) : Prop := {
  sa_mode : is_relay_only s' = is_relay_only s;
  sa_local : local_node s' = local_node s;
  sa_store : store <$> ps_dht s' = store <$> ps_dht s;
}.

#[local] Instance same_advert_po : PreOrder same_advert.
Proof. split; [by split|]. intros x y z [] []. split; congruence. Qed.

Lemma private_same ops s s' : same_advert s s' → private ops s → private ops s'.
Proof.
  intros [Em El Es] [Pm Pl Ps]. split; [congruence|rewrite El; done|].
  intros d k r Hd Hk. rewrite Hd in Es. destruct (ps_dht s) as [d0|] eqn:E; [|done]. injection Es as Es.
  rewrite Es in Hk. by eapply Ps.
Qed.

Lemma private_more ops ops' s : ops ⊆ ops' → private ops s → private ops' s.
Proof.
  intros Hs [Pm Pl Ps]. split; [done..|]. intros d k r Hd Hk.
  destruct (Ps d k r Hd Hk) as [?|(now & d' & ? & ?)]; [by left|right]. exists now, d'. auto.
Qed.

Lemma broadcast_same now ms r st s : same_advert s (broadcast_status now ms r st s).
Proof. unfold broadcast_status. destruct (ps_gossip s); by split. Qed.
Lemma emit_same e s : same_advert s (emit_presence e s).
Proof. by split. Qed.
Lemma set_nodes_same m s : same_advert s (set_nodes m s).
Proof. by split. Qed.

Lemma register_node_same now r s : same_advert s (register_node debug_route now r s).1.
Proof.
  unfold register_node. case_bool_decide; cbn; [done|]. etrans; [|apply emit_same].
  destruct (ps_dht s) eqn:E; cbn; split; cbn; by rewrite ?E.
Qed.

Lemma update_node_state_same now p st s : same_advert s (update_node_state now p st s).1.
Proof. unfold update_node_state. case_match; by split. Qed.

Lemma merge_same now r s : same_advert s (merge_registered_connection now r s).1.
Proof. unfold merge_registered_connection. case_match; [|by split]. case_match; by split. Qed.

Lemma register_or_merge_same now r s : same_advert s (register_or_merge debug_route now r s).1.
Proof.
  unfold register_or_merge. pose proof (merge_same now r s) as Hm. destruct (merge_registered_connection now r s) as [s1 []]; [done|].
  pose proof (register_node_same now r s1) as Hn. destruct (register_node debug_route now r s1) as [s2 [n|e]]; cbn in *.
  - etrans; [exact Hm|]. etrans; [exact Hn|]. apply update_node_state_same.
  - destruct e; cbn; try (by etrans; [exact Hm|exact Hn]).
    pose proof (merge_same now r s2) as Hm2. destruct (merge_registered_connection now r s2). 
    etrans; [exact Hm|]. by etrans; [exact Hn|].
Qed.

Lemma make_room_incl now nid d k r : store (make_room now nid d) !! k = Some r → store d !! k = Some r.
Proof.
  unfold make_room. destruct (_ && _); [|done]. destruct (_ <=? _); cbn.
  - destruct (min_by_key _ _) as [[? [k' ?]]|]; cbn; [|by intros [? _]%map_lookup_filter_Some].
    by intros [_ [? _]%map_lookup_filter_Some]%lookup_delete_Some.
  - by intros [? _]%map_lookup_filter_Some.
Qed.

Lemma dht_announce_private ops now r s :
  private ops s → indirect (nr_endpoints r) → private ops (dht_announce now r s).
Proof.
  intros P Hi. unfold dht_announce. destruct (ps_dht s) as [d|] eqn:E; [|done]. destruct P as [Pm Pl Ps].
  split; [done..|]. cbn.
  intros d' k rec [= <-]. cbn. intros Hk. apply lookup_insert_Some in Hk as [[_ <-]|[_ Hk]]; [by left|].
  eapply Ps; [done|]. by eapply make_room_incl.
Qed.

Lemma dht_requested_private ops now req s :
  private ops s → private (ops ++ [DhtRequested now req]) (step debug_route s (DhtRequested now req)).
Proof.
  intros P. eapply (private_more _ (ops ++ [DhtRequested now req])) in P; [|set_solver]. destruct P as [Pm Pl Ps].
  split; [done..|]. cbn. intros d k r Hd. destruct (ps_dht s) as [d0|] eqn:E; [|done]. injection Hd as <-.
  destruct req as [| |d| ]; cbn; [by apply Ps..| |by apply Ps].
  intros Hk. apply lookup_insert_Some in Hk as [[_ <-]|[_ Hk]].
  - right. exists now, d. split; [set_solver|done].
  - eapply Ps; [done|]. by eapply make_room_incl.
Qed.

Lemma step_private ops s o : private ops s → private (ops ++ [o]) (step debug_route s o).
Proof.
  intros P0. assert (private (ops ++ [o]) s) as P by (eapply private_more; [|exact P0]; set_solver).
  destruct o; try (apply dht_requested_private; exact P0); cbn [step].
  - eapply private_same; [apply broadcast_same|].
    apply dht_announce_private; [|apply sanitize_indirect, (pr_mode _ _ P)]. destruct P as [Pm Pl Ps].
    split; [done| |done]. cbn. intros r' [= <-]. cbn. by apply sanitize_indirect.
  - unfold unregister_self. destruct (local_node s); [|exact P]. eapply private_same; [apply broadcast_same|].
    destruct P as [Pm Pl Ps]. by split.
  - by eapply private_same; [apply register_node_same|].
  - eapply private_same; [|exact P]. unfold unregister_node. cbn. case_match; by split.
  - by eapply private_same; [apply update_node_state_same|].
  - by eapply private_same; [|exact P].
  - by eapply private_same; [|exact P].
  - by eapply private_same; [|exact P].
  - eapply private_same; [|exact P]. unfold observe_connected. case_match; cbn; [case_match|]; by split.
  - eapply private_same; [|exact P]. unfold observe_disconnected. repeat case_match; by split.
  - by eapply private_same; [apply register_or_merge_same|].
  - by eapply private_same; [|exact P].
Qed.
End advertised.

(** ** Connection events *)
Section events.
Context `{Blake3, Hex, Ed25519, HeapPick, !MapIter MessageId N, !MapIter NodeId PeerRecord, !MapIter PeerId RegisteredNode,
  !MapIter PeerId string}.
Context (debug_route : option Route → string).

(** The last word on a peer. *)
Definition last_told (p : PeerId) (es : list PresenceEvent) : bool := default false (last (told p es)).

(** [s'] follows [s] by no event and no change of who is connected, or by one event that says what changed. *)
Inductive moves (s s' : PresenceService) : Prop :=
| moves_quiet : ps_events s' = ps_events s → (∀ p, connected s' p = connected s p) → moves s s'
| moves_event e :
    ps_events s' = ps_events s ++ [e] →
    (∀ p, p ≠ event_peer e → connected s' p = connected s p) →
    connected s' (event_peer e) = is_connect e →
    is_connect e && connected s (event_peer e) = false → moves s s'.

Lemma no_double_connect_snoc l b :
  no_double_connect l → default false (last l) && b = false → no_double_connect (l ++ [b]).
Proof.
  induction l as [|x l IH]; [done|]. intros Hl Hb. destruct l as [|y l]; cbn in *; [done|].
  destruct Hl as [Hxy Hl]. split; [done|]. apply IH; done.
Qed.

Lemma told_snoc p es e : told p (es ++ [e]) = told p es ++ (if bool_decide (event_peer e = p) then [is_connect e] else []).
Proof.
  unfold told. rw filter_app fmap_app. f_equal. rw filter_cons filter_nil.
  case_decide as D; case_bool_decide; done.
Qed.

Definition events_match (s : PresenceService) : Prop :=
  ∀ p, no_double_connect (told p (ps_events s)) ∧ connected s p = last_told p (ps_events s).

Lemma moves_match s s' : moves s s' → events_match s → events_match s'.
Proof.
  intros [Ee Ec|e Ee Ec En Eb] Hm p; destruct (Hm p) as [Hd Hl].
  - by rw Ee Ec.
  - unfold last_told. rw Ee told_snoc. case_bool_decide as D.
    + subst p. rw last_snoc. split; [|done]. apply no_double_connect_snoc; [done|].
      unfold last_told in Hl. rw -Hl andb_comm. exact Eb.
    + rw app_nil_r. split; [done|]. by rw Ec.
Qed.

Lemma connected_insert s m p n q :
  m = <[p := n]> (nodes s) →
  connected (set_nodes m s) q = if bool_decide (q = p) then bool_decide (rn_state n = Connected) else connected s q.
Proof.
  intros ->. unfold connected; cbn. case_bool_decide as D; [subst; by rw lookup_insert_eq|].
  by rw lookup_insert_ne.
Qed.

Lemma connected_emit e s p : connected (emit_presence e s) p = connected s p.
Proof. done. Qed.

(** Changes of a node that keep its state. *)
Lemma update_node_quiet s p f : (∀ n, rn_state (f n) = rn_state n) → moves s (update_node p f s).
Proof.
  intros Hf. apply moves_quiet; [done|]. intros q. unfold connected, update_node; cbn.
  destruct (decide (q = p)) as [->|]; [|by rw lookup_alter_ne].
  rw lookup_alter_eq. destruct (nodes s !! p); cbn; [by rw Hf|done].
Qed.

(** A node set to [Connected], with the event that goes with it. *)
Lemma connect_moves s p n n0 e :
  nodes s !! p = Some n0 → rn_state n = Connected → is_connect e = true → event_peer e = p →
  moves s (if negb (bool_decide (rn_state n0 = Connected)) then emit_presence e (set_nodes (<[p := n]> (nodes s)) s)
           else set_nodes (<[p := n]> (nodes s)) s).
Proof.
  intros E0 En He Hp. assert (connected s p = bool_decide (rn_state n0 = Connected)) as Ec by (unfold connected; by rw E0).
  destruct (bool_decide (rn_state n0 = Connected)) eqn:D; cbn [negb].
  - apply moves_quiet; [done|]. intros q. rw (connected_insert s _ p n q eq_refl).
    destruct (decide (q = p)) as [->|]; [|by rw bool_decide_false]. rw bool_decide_true; [done|].
    rw Ec. by apply bool_decide_eq_true.
  - apply (moves_event _ _ e); [done|..]; rw ?connected_emit ?Hp ?He.
    + intros q Hq. rw connected_emit (connected_insert s _ p n q eq_refl). by rw bool_decide_false.
    + rw (connected_insert s _ p n p eq_refl). rw bool_decide_true; [done|]. by apply bool_decide_eq_true.
    + by rw Ec.
Qed.

Lemma new_node_moves s s' p n e :
  nodes s !! p = None → nodes s' = <[p := n]> (nodes s) → ps_events s' = ps_events s ++ [e] →
  rn_state n = Connected → is_connect e = true → event_peer e = p → moves s s'.
Proof.
  intros E0 Es Ee En He Hp. apply (moves_event _ _ e Ee); rw ?Hp ?He; unfold connected; rw ?Es.
  - intros q Hq. by rw lookup_insert_ne.
  - rw lookup_insert_eq. by apply bool_decide_eq_true.
  - by rw E0.
Qed.

Lemma merge_moves now r s : moves s (merge_registered_connection now r s).1.
Proof.
  unfold merge_registered_connection. destruct (nodes s !! nr_peer_id r) as [n|] eqn:E; [|by apply moves_quiet].
  cbn [fst]. by apply connect_moves.
Qed.

(** What a registration makes of an unknown peer. *)
Definition fresh_node (now : N) (r : NodeRegistration) (st : PeerState) : RegisteredNode :=
  mk_RegisteredNode (nr_peer_id r) (nr_display_name r) (nr_endpoints r) st None (nr_project_ids r) 0 now
    (nr_synergos_version r).

Lemma register_node_fresh now r s :
  nodes s !! nr_peer_id r = None →
  ∃ s' e, register_node debug_route now r s = (s', Ok (fresh_node now r Discovered)) ∧
    nodes s' = <[nr_peer_id r := fresh_node now r Discovered]> (nodes s) ∧ ps_events s' = ps_events s ++ [e] ∧
    is_connect e = true ∧ event_peer e = nr_peer_id r.
Proof.
  intros E. unfold register_node. rw (bool_decide_eq_false_2 (is_Some (nodes s !! nr_peer_id r))).
  { rw E. by intros [? ?]. }
  do 2 eexists. split; [reflexivity|]. cbn. destruct (ps_dht s); cbn; done.
Qed.

Lemma register_or_merge_fresh now r s :
  nodes s !! nr_peer_id r = None →
  ∃ s' e, register_or_merge debug_route now r s = (s', Ok ()) ∧
    nodes s' = <[nr_peer_id r := fresh_node now r Connected]> (nodes s) ∧ ps_events s' = ps_events s ++ [e] ∧
    is_connect e = true ∧ event_peer e = nr_peer_id r.
Proof.
  intros E. unfold register_or_merge, merge_registered_connection. rw E.
  destruct (register_node_fresh now r s E) as (s1 & e & -> & En & Ee & He & Hp).
  unfold update_node_state. rw En lookup_insert_eq. do 2 eexists. split; [reflexivity|]. split; [|done]. cbn.
  by rw En alter_insert_eq.
Qed.

Lemma register_or_merge_moves now r s : moves s (register_or_merge debug_route now r s).1.
Proof.
  destruct (nodes s !! nr_peer_id r) as [n|] eqn:E.
  - pose proof (merge_moves now r s) as Hm. unfold register_or_merge. unfold merge_registered_connection in *.
    rw E in Hm. by rw E.
  - destruct (register_or_merge_fresh now r s E) as (s' & e & -> & En & Ee & He & Hp). by eapply new_node_moves.
Qed.

Lemma observe_connected_moves now p l s : moves s (observe_connected now p l s).1.
Proof.
  unfold observe_connected. destruct (nodes s !! p) as [n|] eqn:E; cbn [fst].
  - by apply connect_moves.
  - by eapply new_node_moves.
Qed.

Lemma observe_disconnected_moves p why s : moves s (observe_disconnected p why s).
Proof.
  unfold observe_disconnected. destruct (nodes s !! p) as [n|] eqn:E; [|by apply moves_quiet].
  case_bool_decide as D; [by apply moves_quiet|]. eapply moves_event; [done|..]; cbn; [|..|done].
  - intros q Hq. rw connected_emit (connected_insert s _ p _ q eq_refl). by rw bool_decide_false.
  - rw connected_emit (connected_insert s _ p _ p eq_refl). by rw bool_decide_true.
Qed.

Lemma unregister_node_moves p s : moves s (unregister_node p s).1.
Proof.
  unfold unregister_node. cbn. destruct (nodes s !! p) as [n|] eqn:E; [|by apply moves_quiet].
  eapply moves_event; [done|..]; cbn; [|..|done]; unfold connected; cbn.
  - intros q Hq. by rw lookup_delete_ne.
  - by rw lookup_delete_eq.
Qed.

Lemma same_nodes_moves s s' : nodes s' = nodes s → ps_events s' = ps_events s → moves s s'.
Proof. intros En Ee. apply moves_quiet; [done|]. intros p. unfold connected. by rw En. Qed.

Lemma register_self_same now ms r s :
  nodes (register_self now ms r s) = nodes s ∧ ps_events (register_self now ms r s) = ps_events s.
Proof.
  unfold register_self, broadcast_status, dht_announce. cbn.
  destruct (ps_dht s); cbn; destruct (ps_gossip s); done.
Qed.

Lemma step_moves s o : follows_connections o = true → moves s (step debug_route s o).
Proof.
  destruct o; try done; intros _; cbn [step].
  - destruct (register_self_same now millis r s). by apply same_nodes_moves.
  - apply unregister_node_moves.
  - by apply update_node_quiet.
  - by apply update_node_quiet.
  - apply observe_connected_moves.
  - apply observe_disconnected_moves.
  - apply register_or_merge_moves.
  - by apply same_nodes_moves.
  - by apply same_nodes_moves.
Qed.
End events.

Section claims.
Context `{Blake3, Hex, Ed25519, HeapPick, !MapIter MessageId N, !MapIter NodeId PeerRecord, !MapIter PeerId RegisteredNode,
  !MapIter PeerId string}.
Context (debug_route : option Route → string).

Lemma run_private ops ops0 s : private ops0 s → private (ops0 ++ ops) (run debug_route ops s).
Proof.
  unfold run. revert ops0 s. induction ops as [|o ops IH]; intros ops0 s P; cbn; [by rw app_nil_r|].
  rw (cons_middle o ops0 ops) app_assoc. apply IH. by apply step_private.
Qed.

Lemma run_moves ops s : Forall (λ o, follows_connections o = true) ops → events_match s → events_match (run debug_route ops s).
Proof.
  unfold run. revert s. induction ops as [|o ops IH]; intros s Ho Hm; cbn; [done|]. inversion Ho; subst.
  apply IH; [done|]. eapply moves_match; [|exact Hm]. by apply step_moves.
Qed.

Lemma urls_broadcast now ms r st s : reconnect_urls (broadcast_status now ms r st s) = reconnect_urls s.
Proof. unfold broadcast_status. by destruct (ps_gossip s). Qed.
Lemma urls_register now r s : reconnect_urls (register_node debug_route now r s).1 = reconnect_urls s.
Proof. unfold register_node. case_bool_decide; [done|]. cbn. by destruct (ps_dht s). Qed.
Lemma urls_merge now r s : reconnect_urls (merge_registered_connection now r s).1 = reconnect_urls s.
Proof. unfold merge_registered_connection. case_match; [|done]. cbn. by case_match. Qed.
Lemma urls_update now p st s : reconnect_urls (update_node_state now p st s).1 = reconnect_urls s.
Proof. unfold update_node_state. by case_match. Qed.

Lemma urls_register_or_merge now r s : reconnect_urls (register_or_merge debug_route now r s).1 = reconnect_urls s.
Proof.
  unfold register_or_merge. pose proof (urls_merge now r s) as Hm. destruct (merge_registered_connection now r s) as [s1 []]; [done|].
  pose proof (urls_register now r s1) as Hn. destruct (register_node debug_route now r s1) as [s2 [n|e]]; cbn in *.
  - rw urls_update. congruence.
  - destruct e; cbn; try congruence.
    pose proof (urls_merge now r s2) as Hm2. destruct (merge_registered_connection now r s2). cbn in *. congruence.
Qed.

(** Only remembering an address adds one. *)
Lemma step_urls s o p :
  (∀ url, o ≠ RememberUrl p url) → reconnect_urls s !! p = None → reconnect_urls (step debug_route s o) !! p = None.
Proof.
  intros Ho Hn. destruct o; cbn [step].
  - unfold register_self. rw urls_broadcast. unfold dht_announce. cbn. by destruct (ps_dht s).
  - unfold unregister_self. destruct (local_node s); [|done]. by rw urls_broadcast.
  - by rw urls_register.
  - unfold unregister_node; cbn. case_match; cbn; apply lookup_delete_None; by right.
  - by rw urls_update.
  - done.
  - done.
  - done.
  - unfold observe_connected. case_match; cbn; [|done]. by case_match.
  - unfold observe_disconnected. case_match; [|done]. by case_match.
  - by rw urls_register_or_merge.
  - cbn. rw lookup_insert_ne; [|done]. intros ->. by apply (Ho url).
  - done.
Qed.

(** In relay-only mode no [Direct] route of this node is ever published: whatever the endpoints it is registered
    with, and whatever else happens, its own registration holds none, and every record of the DHT's store that
    holds one is one another peer announced. *)
Theorem relay_only_hides_direct now0 me k gossip ops :
  let s := run debug_route ops (with_network_and_mode (Some (new_node now0 me k)) gossip true) in
  (∀ r, local_node s = Some r → Forall (λ e, is_direct e = false) (nr_endpoints r)) ∧
  (∀ d nid rec, ps_dht s = Some d → store d !! nid = Some rec →
     Forall (λ e, is_direct e = false) (rec_endpoints rec) ∨
     ∃ now dto, DhtRequested now (Announce dto) ∈ ops ∧ rec = from_dto now dto).
Proof.
  cbn. assert (private [] (with_network_and_mode (Some (new_node now0 me k)) gossip true)) as P.
  { split; [done..|]. cbn. intros d nid rec [= <-]. cbn. by rw lookup_empty. }
  apply (run_private ops) in P as [_ Pl Ps]. done.
Qed.

(** While the states follow the connections (no gossip status, no bare registration), the events tell the truth:
    a peer is listed as connected exactly when the last event about it said so, and is never reported as connected
    twice without a disconnection in between. *)
Theorem connection_events_match dht gossip relay_only ops p :
  Forall (λ o, follows_connections o = true) ops →
  let s := run debug_route ops (with_network_and_mode dht gossip relay_only) in
  connected s p = last_told p (ps_events s) ∧ no_double_connect (told p (ps_events s)).
Proof.
  intros Ho. cbn. destruct (run_moves ops (with_network_and_mode dht gossip relay_only) Ho) with p; [|done].
  by intros q.
Qed.

(** A peer that was unregistered is not dialled again, until its address is remembered anew. *)
Theorem unregistered_not_redialled `{!MapIterLaws PeerId string} s p ops :
  Forall (λ o, match o with RememberUrl q _ => q ≠ p | _ => True end) ops →
  p ∉ (reconnect_targets (run debug_route ops (unregister_node p s).1)).*1.
Proof.
  intros Ho. assert (reconnect_urls (unregister_node p s).1 !! p = None) as H0'.
  { unfold unregister_node; cbn. case_match; cbn; by rw lookup_delete_eq. }
  revert H0'. generalize (unregister_node p s).1. unfold run. induction ops as [|o ops IH]; intros s1 Hn; cbn.
  - unfold reconnect_targets. rw (map_iter_perm (reconnect_urls s1)). intros ([q u] & -> & Hq)%list_elem_of_fmap.
    apply elem_of_map_to_list in Hq. cbn in Hn. congruence.
  - inversion Ho; subst. apply IH; [done|]. apply step_urls; [|done]. by intros url ->.
Qed.
End claims.

Module PresenceWitness.
#[local] Existing Instances Toy.toy_blake3 Toy.toy_hex Toy.toy_ed25519 Gossip.Witness.pick.
#[local] Instance iter_cache : MapIter MessageId N := toy_iter.
#[local] Instance iter_store : MapIter NodeId PeerRecord := toy_iter.
#[local] Instance iter_nodes : MapIter PeerId RegisteredNode := toy_iter.
#[local] Instance iter_urls : MapIter PeerId string := toy_iter.
#[local] Instance iter_urls_laws : MapIterLaws PeerId string := toy_iter_laws.

Definition show (r : option Route) : string := if r then "Some" else "None".
Definition bob : NodeRegistration := mk_NodeRegistration "bob" "Bob" [Relay "wss://r" "room"] ["proj"] "0.1.0".

(** The connection comes up before the peer's information is learned, drops, and comes back. *)
Definition ops : list op :=
  [ConnectionUp 1 "bob" ["proj"]; PeerInfoLearned 2 bob; RememberUrl "bob" "https://bob/peer-info";
   ConnectionDown "bob" "timeout"; ConnectionDown "bob" "timeout"; ConnectionUp 3 "bob" []].
Definition s0 : PresenceService := with_network_and_mode (Some (new_node 0 "me" 20)) None true.
Definition s1 : PresenceService := run show ops s0.
End PresenceWitness.

Import PresenceWitness.
#[local] Existing Instances Toy.toy_blake3 Toy.toy_hex Toy.toy_ed25519 Gossip.Witness.pick
  iter_cache iter_store iter_nodes iter_urls iter_urls_laws.
Example presence_runs :
  told "bob" (ps_events s1) = [true; false; true] ∧ connected s1 "bob" = true ∧
  (rn_display_name <$> nodes s1 !! "bob") = Some "Bob" ∧ reconnect_targets s1 = [("bob", "https://bob/peer-info")].
Proof. vm_compute. done. Qed.

Lemma connection_events_match_witness :
  connected s1 "bob" = last_told "bob" (ps_events s1) ∧ no_double_connect (told "bob" (ps_events s1)).
Proof.
  refine (connection_events_match show _ _ _ ops "bob" _). repeat constructor.
Defined.

Lemma unregistered_not_redialled_witness :
  "bob" ∉ (reconnect_targets (run show [ConnectionUp 4 "bob" ["proj"]; RememberUrl "eve" "u"] (unregister_node "bob" s1).1)).*1.
Proof.
  refine (unregistered_not_redialled show s1 "bob" _ _). repeat constructor. discriminate.
Defined.
