(* ===== verification/Publish.v ===== *)
(** * Publishing files

    The [PublishUpdate] command of [synergos-core/src/ipc_server.rs]: a batch of files is
    checked, the pre-publish hooks run, every file gets its version, is archived and offered.
    The project manager, the exchange, the history store and the hook runner are the models of
    those components.

    The response [Error { code: 3, message }] is a [PublishError] that says which message. *)

From Stdlib Require Import Strings.Ascii.
From S2P Require Import Prelude Crypto Types Identity Ledger Gossip Content Catalog Transfer Fs FsPlain Manifest Glob.
From S2P Require Import Project Retention HistoryIndex Tags Rotation HistoryStore StoreInv StoreOps StoreProps Hooks Exchange Incoming Checkout.

(** [Path::is_absolute] tells the two apart. *)
Inductive RequestedPath := AbsolutePath (p : path) | RelativePath (p : path).

Record ResolvedPublishPath := mk_ResolvedPublishPath {
  rp_canonical : path;
  rp_relative : path;
  relative_key : string;
}.

Inductive PublishError :=
| UnknownProject (project_id : string)
| RootUnresolved (e : IoError)
| Unreadable (e : IoError)
| OutsideRoot
| MetadataFailed (e : IoError)
| NotRegularFile
| IsMetadata (key : string)
| HookRejected (key : string) (e : IoError)
| PathIdentityChanged (key : string)
| ReadFailed (e : IoError)
| ManifestFailed (key : string) (e : IoError)
| ArchiveFailed (key : string) (e : FileSharingError).

(** A batch of post hooks handed to the runtime. *)
Record PostHook := mk_PostHook {
  ph_root : path;
  ph_event : HookEvent;
  ph_project : string;
  ph_file : string;
  ph_version : N;
  ph_peer : option string;
}.

Record Publisher := mk_Publisher {
  pb_node : Node;
  pb_started : list Execution;
  pb_spawned : list PostHook;
}.

Abbreviation PIO A := (ST Publisher PublishError A).

(** A computation of the node, with the message for its failure. *)
Definition on_pub {E A} (f : E → PublishError) (m : ST Node E A) : PIO A := λ p,
  let '(r, n) := m (pb_node p) in (map_err f r, mk_Publisher n (pb_started p) (pb_spawned p)).

(** The hook runner works on the same disk. *)
Definition on_hooks {A} (f : IoError → PublishError) (m : HIO A) : PIO A := λ p,
  let n := pb_node p in
  let '(r, h) := m (mk_HookWorld (world (nd_st n)) (pb_started p)) in
  (map_err f r, mk_Publisher (mk_Node (nd_ex n) (mk_State (pm (nd_st n)) (hw_world h) (state_cell (nd_st n))) (sent n))
     (started h) (pb_spawned p)).

(** [for x in l { v.push(f(x)?) }]. *)
Fixpoint collect {St E A B} (f : A → ST St E B) (l : list A) : ST St E (list B) :=
  match l with
  | [] => mret []
  | x :: l' => y ← f x; ys ← collect f l'; mret (y :: ys)
  end.

(** [str::starts_with]. *)
Definition str_starts_with (pre s : string) : bool := String.prefix pre s.

Definition is_metadata_key (key : string) : bool :=
  bool_decide (key = META_DIR) || str_starts_with (META_DIR +:+ "/") key.

Definition absolute_path (root : path) (requested : RequestedPath) : path :=
  match requested with AbsolutePath p => p | RelativePath p => root ++ p end.

Definition resolve_publish_path (root : path) (requested : RequestedPath) : PIO ResolvedPublishPath :=
  canonical ← on_pub Unreadable (on_files (canonicalize (absolute_path root requested)));
  if negb (path_starts_with root canonical) then throw OutsideRoot
  else
    m ← on_pub MetadataFailed (on_files (metadata canonical));
    match m with
    | File _ =>
        let relative := drop (length root) canonical in
        let key := normalize_rel_path (String.concat "/" relative) in
        if is_metadata_key key then throw (IsMetadata key)
        else mret (mk_ResolvedPublishPath canonical relative key)
    | _ => throw NotRegularFile
    end.

(** A file of the batch with its size and checksum. *)
Record Candidate := mk_Candidate {
  cd_path : ResolvedPublishPath;
  cd_size : N;
  cd_crc : N;
}.

(** Identifiers and the clock readings for one file. *)
Record Fresh := mk_Fresh {
  fr_now : N;
  fr_uuid1 : string;
  fr_uuid2 : string;
  fr_archive : nat → string;
}.

Section publish.
Context `{Blake3, Crc32, Hex, Ed25519, HeapPick, TomlHooks, Shell, !MapIter MessageId N, !Codec ProjectManifest,
  !Codec VersionState, !Codec HistoryIndex, !Codec ObjectMeta, !Codec Tag, !Codec RootCatalog, DirOrder}.
Context (hooks_config : HooksConfig) (history : HistoryConfig).

(** After the hooks: the same file again, and its content. *)
Definition candidate (root : path) (entry : ResolvedPublishPath) : PIO Candidate :=
  resolved ← resolve_publish_path root (RelativePath (rp_relative entry));
  if negb (bool_decide (relative_key resolved = relative_key entry)) then throw (PathIdentityChanged (relative_key entry))
  else
    '(crc, size) ← on_pub ReadFailed (on_files (crc32_of_file (rp_canonical resolved)));
    mret (mk_Candidate resolved size crc).

Definition outcome_version (o : BumpOutcome) : N := match o with Bumped v | Unchanged v => v end.

(** The version, the registration and the archive of one file. *)
Definition prepare_notification (project_id : string) (fr : Fresh) (c : Candidate) : PIO PublishNotification :=
  let key := relative_key (cd_path c) in
  me ← gets (λ p, local_peer_id (nd_ex (pb_node p)));
  outcome ← on_pub (ManifestFailed key) (on_projects
    (bump_file_version (fr_now fr) (fr_uuid1 fr) (fr_uuid2 fr) project_id key (cd_size c) (cd_crc c) me));
  let v := outcome_version outcome in
  _ ← on_pub (ManifestFailed key) (on_projects (with_pm (register_file project_id key
        (String.concat "/" (rp_relative (cd_path c))))));
  _ ← on_pub (ArchiveFailed key) (archive_to_history (fr_archive fr) (fr_now fr) history
        (mk_ArchiveRequest project_id key v (cd_size c) (cd_crc c) me "published" (rp_canonical (cd_path c))));
  mret (mk_PublishNotification project_id key (rp_canonical (cd_path c)) (cd_size c) (cd_crc c) v).

Definition post_publish (root : path) (project_id : string) (n : PublishNotification) : PostHook :=
  mk_PostHook root PostPublish project_id (pn_file_id n) (pn_version n) None.

(** The whole handler; [frs i] is what file [i] of the batch draws from the runtime. *)
Definition publish_update (now : N) (chunk_id : ChunkId) (frs : nat → Fresh) (project_id : string)
    (file_paths : list RequestedPath) : PIO () :=
  m ← gets (λ p, npm (pb_node p));
  root ← lift_result (ok_or (project_root m project_id) (UnknownProject project_id));
  root ← on_pub RootUnresolved (on_files (canonicalize root));
  prepared ← collect (resolve_publish_path root) file_paths;
  _ ← for_each (λ entry, on_hooks (HookRejected (relative_key entry))
        (run_pre_publish hooks_config root project_id (relative_key entry))) prepared;
  candidates ← collect (candidate root) prepared;
  notifications ← collect (λ '(i, c), prepare_notification project_id (frs i) c) (imap pair candidates);
  _ ← on_pub RootUnresolved (on_exchange (publish_updates now chunk_id notifications));
  modify (λ p, mk_Publisher (pb_node p) (pb_started p)
    (pb_spawned p ++ (post_publish root project_id <$> notifications))).
End publish.

(** ** Rules *)
Lemma wp_on_pub {E A} (f : E → PublishError) (m : ST Node E A) (Q : result PublishError A → Publisher → Prop) p :
  wp m (λ r n, Q (map_err f r) (mk_Publisher n (pb_started p) (pb_spawned p))) (pb_node p) → wp (on_pub f m) Q p.
Proof. unfold wp, on_pub. by destruct (m _). Qed.

Lemma wp_on_projects {A} (m : ST State IoError A) (Q : result IoError A → Node → Prop) n :
  wp m (λ r s, Q r (mk_Node (nd_ex n) s (sent n))) (nd_st n) → wp (on_projects m) Q n.
Proof. unfold wp, on_projects. by destruct (m _). Qed.

Lemma wp_on_hooks {A} (f : IoError → PublishError) (m : HIO A) (Q : result PublishError A → Publisher → Prop) p :
  wp m (λ r h, Q (map_err f r) (mk_Publisher (mk_Node (nd_ex (pb_node p))
    (mk_State (npm (pb_node p)) (hw_world h) (state_cell (nd_st (pb_node p)))) (sent (pb_node p))) (started h) (pb_spawned p)))
    (mk_HookWorld (world (nd_st (pb_node p))) (pb_started p)) → wp (on_hooks f m) Q p.
Proof. unfold wp, on_hooks. by destruct (m _). Qed.

(** A loop that collects, with an invariant over what is left and what was collected. *)
Lemma wp_collect {St E A B} (f : A → ST St E B) (I : list A → list B → St → Prop) (Q : result E (list B) → St → Prop) l s :
  I l [] s →
  (∀ x l' ys s, I (x :: l') ys s →
     wp (f x) (λ r s', match r with Ok y => I l' (ys ++ [y]) s' | Err e => Q (Err e) s' end) s) →
  (∀ ys s, I [] ys s → Q (Ok ys) s) → wp (collect f l) Q s.
Proof.
  intros Hi Hstep Hend. revert Hi.
  enough (∀ l ys s, I l ys s → wp (collect f l) (λ r s', match r with Ok zs => I [] (ys ++ zs) s' | Err e => Q (Err e) s' end) s)
    as Hgen.
  { intros Hi. eapply wp_mono; [by apply (Hgen l [] s)|]. intros [zs|e] s' HI; [|done]. by apply Hend. }
  clear s l. induction l as [|x l IH]; intros ys s HI; cbn [collect]; [wp_step; by rw app_nil_r|].
  wp_step. eapply wp_mono; [by apply Hstep|]. intros [y|e] s1 HI1; [|done]. wp_step.
  eapply wp_mono; [by apply IH|]. intros [zs|e] s2 HI2; [|done]. wp_step. by rw -app_assoc in HI2.
Qed.

(** ** What the stages leave alone *)
Definition pdisk (p : Publisher) : Fs := ndisk (pb_node p).
Definition pmanager (p : Publisher) : ProjectManager := npm (pb_node p).
Definition pexchange (p : Publisher) : Exchange := nd_ex (pb_node p).

(** Nothing but the faults ahead changed. *)
Record same_pub (p p' : Publisher) : Prop := {
  sp_ex : pexchange p' = pexchange p;
  sp_pm : pmanager p' = pmanager p;
  sp_disk : pdisk p' = pdisk p;
  sp_started : pb_started p' = pb_started p;
  sp_spawned : pb_spawned p' = pb_spawned p;
}.

#[export] Instance same_pub_po : PreOrder same_pub.
Proof. split; [by split|]. intros x y z [] []. split; congruence. Qed.

Lemma wp_pub_query {A} (f : IoError → PublishError) (op : Fs → result IoError A)
    (Q : result PublishError A → Publisher → Prop) p :
  (∀ r p', same_pub p p' → r = op (pdisk p) ∨ r = Err OtherIo → Q (map_err f r) p') →
  wp (on_pub f (on_files (query op))) Q p.
Proof.
  intros HQ. apply wp_on_pub, wp_on_files, wp_query. intros r w Hw Hr. apply HQ; [|exact Hr].
  by split.
Qed.

Section stages.
Context `{Crc32, TomlHooks, Shell}.

(** What a request may resolve to on the disk [d]. *)
Record resolved_as (d : Fs) (root : path) (requested : RequestedPath) (x : ResolvedPublishPath) : Prop := {
  ra_canonical : canonicalize_at d (absolute_path root requested) = Ok (rp_canonical x);
  ra_below : rp_canonical x = root ++ rp_relative x;
  ra_file : ∃ b, metadata_at d (rp_canonical x) = Ok (File b);
  ra_key : relative_key x = normalize_rel_path (String.concat "/" (rp_relative x));
  ra_meta : is_metadata_key (relative_key x) = false;
}.

Lemma wp_resolve_publish root requested p :
  wp (resolve_publish_path root requested) (λ r p', same_pub p p' ∧
    ∀ x, r = Ok x → resolved_as (pdisk p) root requested x) p.
Proof.
  unfold resolve_publish_path. wp_step. apply wp_pub_query. intros r p1 S1 Hr1.
  destruct r as [canonical|e]; cbn [map_err]; [|by split].
  destruct Hr1 as [Hr1|?]; [|done]. destruct (path_starts_with root canonical) eqn:Hs; cbn [negb]; [|wp_step; by split].
  wp_step. apply wp_pub_query. intros r p2 S2 Hr2. assert (same_pub p p2) as S12 by (by etrans).
  destruct r as [[b| |t]|e]; cbn [map_err]; try (try wp_step; by split).
  destruct Hr2 as [Hr2|?]; [|done]. rw (sp_disk _ _ S1) in Hr2.
  destruct (is_metadata_key _) eqn:Hm; wp_step; [by split|]. split; [done|]. intros x [= <-].
  split; cbn; [done| |by exists b|done|done]. apply bool_decide_eq_true in Hs. 
  etrans; [symmetry; apply (take_drop (length root))|]. by rw Hs.
Qed.

(** The disk after commands started one after the other. *)
Definition after_commands (before l : list Execution) (d : Fs) : Fs :=
  (foldl (λ '(ran, d) ex, (ran ++ [ex], touches ran ex d)) (before, d) l).2.

Lemma after_commands_ran before l d :
  foldl (λ '(ran, d) ex, (ran ++ [ex], touches ran ex d)) (before, d) l = (before ++ l, after_commands before l d).
Proof.
  unfold after_commands. revert before d. induction l as [|ex l IH]; intros before d; cbn; [by rw app_nil_r|].
  rw IH. by rw -app_assoc.
Qed.

Lemma after_commands_app before l1 l2 d :
  after_commands before (l1 ++ l2) d = after_commands (before ++ l1) l2 (after_commands before l1 d).
Proof. unfold after_commands at 1. rw foldl_app after_commands_ran. done. Qed.

(** Commands were run, and nothing else happened. *)
Record ran (l : list Execution) (h h' : HookWorld) : Prop := {
  ran_started : started h' = started h ++ l;
  ran_disk : disk (hw_world h') = after_commands (started h) l (disk (hw_world h));
}.

Lemma wp_run_pre_publish c root pid key h : wp (run_pre_publish c root pid key) (λ _ h', ∃ l, ran l h h') h.
Proof.
  unfold run_pre_publish. wp_step. eapply wp_mono; [apply wp_matching_hooks|]. intros [l|e] h1 (Hs & Hd & _).
  2:{ exists []. split; [by rw app_nil_r|done]. }
  clear -Hs Hd. eapply wp_for_each with (I := λ _ h', ∃ l, ran l h h').
  - exists []. split; [by rw app_nil_r|done].
  - intros [src d] l' h2 [done_ [Hs2 Hd2]]. wp_step. apply wp_execute. cbv beta iota zeta. cbn [out_status].
    set (ex := mk_Execution _ _ _ _ _).
    assert (∃ l, ran l h (mk_HookWorld (mk_World (touches (started h2) ex (disk (hw_world h2))) (faults (hw_world h2)))
      (started h2 ++ [ex]))) as Hran.
    { exists (done_ ++ [ex]). split; cbn; [by rw Hs2 app_assoc|]. by rw after_commands_app -Hd2 -Hs2. }
    destruct (shell _ _); by wp_step.
  - done.
Qed.
End stages.

Section versions.
Context `{Blake3, Crc32, Hex, !Codec ProjectManifest, !Codec VersionState, !Codec HistoryIndex, !Codec ObjectMeta, !Codec Tag,
  DirOrder}.

Lemma wp_lift_io {A} (m : IO A) (Q : result IoError A → State → Prop) s :
  (∀ r w, Q r (mk_State (pm s) w (state_cell s))) → wp (lift_io m) Q s.
Proof. intros HQ. unfold wp, lift_io. by destruct (m _). Qed.

(** The registered paths stay, and the manifest [pid] is in memory, the one that was if there was one. *)
Definition manifest_ready (pid : string) (m m' : ProjectManager) (ready : Prop) : Prop :=
  file_paths m' = file_paths m ∧ (∀ man, manifests m !! pid = Some man → manifests m' !! pid = Some man) ∧
  (ready → is_Some (manifests m' !! pid)).

Lemma wp_ensure_manifest pid s :
  wp (ensure_manifest pid) (λ r s', manifest_ready pid (pm s) (pm s') (r = Ok ())) s.
Proof.
  unfold ensure_manifest. wp_step. wp_step. destruct (manifests (pm s) !! pid) as [man|] eqn:E.
  { wp_step. split; [done|]. split; [done|]. intros _. by exists man. }
  unfold load_manifest_unlocked. wp_step. wp_step. destruct (project_root _ _); [|by wp_step; split; [|split]].
  wp_step. apply wp_lift_io. intros [man|e] w; cbn [pm]; [|by split; [|split]].
  apply wp_modify. cbn [pm]. split; [done|]. split; [congruence|]. intros _. cbn. rw lookup_insert_eq. by eexists.
Qed.

Lemma wp_ensure_version_state pid s :
  wp (ensure_version_state pid) (λ _ s', manifests (pm s') = manifests (pm s) ∧ file_paths (pm s') = file_paths (pm s)) s.
Proof.
  unfold ensure_version_state. wp_step. wp_step. case_match; [by wp_step|].
  unfold load_version_state_unlocked. wp_step. wp_step. wp_step. wp_step. destruct (ok_or _ _); [|done].
  wp_step. apply wp_lift_io. intros [st|e] w; [|done]. by apply wp_modify.
Qed.

Lemma wp_note_confirmed uuid pid rel v s :
  wp (note_confirmed_version_unlocked uuid pid rel v)
    (λ _ s', manifests (pm s') = manifests (pm s) ∧ file_paths (pm s') = file_paths (pm s)) s.
Proof.
  unfold note_confirmed_version_unlocked, note_versions_unlocked. wp_step. wp_step. wp_step. wp_step.
  destruct (ok_or _ _); [|done]. wp_step. wp_step. destruct (ok_or _ _); [|done]. wp_step. wp_step.
  destruct (note_all _ _ _) as [[snap changed]|]; [|done]. destruct changed; [|by wp_step].
  wp_step. apply wp_lift_io. intros [?|?] w; [|done]. by apply wp_modify.
Qed.

(** The manifest holds the entry that was issued, and the others as before. *)
Definition issued (pid rel : string) (size crc v : N) (m m' : ProjectManager) : Prop :=
  ∃ man e, manifests m' !! pid = Some man ∧ files man !! rel = Some e ∧ version e = v ∧ me_size e = size ∧
    me_crc e = crc ∧ ∀ man0, manifests m !! pid = Some man0 → ∀ k, k ≠ rel → files man !! k = files man0 !! k.

Lemma bump_at_least_entry rel size crc publisher now floor man man' o :
  bump_at_least rel size crc publisher now floor man = (man', o) →
  (∃ e, files man' !! rel = Some e ∧ version e = outcome_version o ∧ me_size e = size ∧ me_crc e = crc) ∧
  (∀ k, k ≠ rel → files man' !! k = files man !! k) ∧ (∀ v, o = Unchanged v → man' = man).
Proof.
  unfold bump_at_least. destruct (files man !! rel) as [e|] eqn:E.
  - destruct (_ && _)%N eqn:Hsame; intros [= <- <-].
    + bool_to_prop. split; [by exists e|done].
    + cbn. rw lookup_insert_eq. split; [by eexists|]. split; [|done]. intros k Hk. by rw lookup_insert_ne.
  - intros [= <- <-]. cbn. rw lookup_insert_eq. split; [by eexists|]. split; [|done]. intros k Hk. by rw lookup_insert_ne.
Qed.

Lemma wp_bump now u1 u2 pid rel size crc publisher s :
  wp (bump_file_version now u1 u2 pid rel size crc publisher) (λ r s', file_paths (pm s') = file_paths (pm s) ∧
    ∀ o, r = Ok o → issued pid rel size crc (outcome_version o) (pm s) (pm s')) s.
Proof.
  unfold bump_file_version. wp_step. eapply wp_mono; [apply wp_ensure_manifest|].
  intros [[]|e] s1 (Hf1 & Hm1 & Hr1); [|done]. destruct (Hr1 eq_refl) as [man Hman]. wp_step.
  eapply wp_mono; [apply wp_ensure_version_state|]. intros [[]|e] s2 (Hm2 & Hf2); [|split; congruence].
  wp_step. wp_step. wp_step. wp_step. destruct (ok_or _ _) as [root|e]; [|split; congruence].
  assert (manifest_snapshot (pm s2) pid = man) as -> by (unfold manifest_snapshot; by rw Hm2 Hman).
  destruct (bump_at_least rel size crc publisher now _ man) as [man' o] eqn:Hb.
  apply bump_at_least_entry in Hb as ((e & He) & Ho & Hu).
  assert (Hold : ∀ man0, manifests (pm s) !! pid = Some man0 → ∀ k, k ≠ rel → files man' !! k = files man0 !! k).
  { intros man0 Hman0 k Hk. rw (Ho k Hk). apply Hm1 in Hman0. congruence. }
  destruct o as [v|v].
  - wp_step. eapply wp_mono; [apply wp_note_confirmed|]. intros [[]|e'] s3 (Hm3 & Hf3); [|split; congruence].
    wp_step. unfold store_manifest. wp_step. apply wp_lift_io. intros [[]|e'] w; [|split; cbn; congruence].
    apply wp_modify. wp_step. cbn [pm]. split; [cbn; congruence|]. intros o [= <-]. exists man', e. cbn.
    rw lookup_insert_eq. by split_and!; try apply He.
  - wp_step. split; [congruence|]. intros o [= <-]. exists man', e. rw (Hu v eq_refl) in Hold He |- *. rw Hm2 Hman.
    by split_and!; try apply He.
Qed.

(** Archiving a version touches the disk only. *)
Lemma wp_archive_frame us now c r n :
  wp (archive_to_history us now c r) (λ _ n', nd_ex n' = nd_ex n ∧ npm n' = npm n) n.
Proof.
  unfold archive_to_history. wp_step. wp_step. destruct (history_attached _); [|by wp_step].
  unfold archive_hook. wp_step. wp_step. case_match; [|by wp_step]. wp_step. apply wp_intro. intros x n' Hx.
  unfold io, on_pm, lift_io in Hx. destruct (archive _ _ _ _ _ _ _ _ _ _ _ _) as [y w']. injection Hx as <- <-.
  destruct y; cbn [map_err]; [by wp_step|done].
Qed.
End versions.

(** The record under which a published file is shared. *)
Definition shared_as (n : PublishNotification) : SharedFileRecord :=
  mk_SharedFileRecord (pn_project_id n) (pn_file_path n) (pn_file_size n) (pn_crc n) (pn_version n).

(** [n] is the last word of a batch on its file. *)
Definition latest (l : list PublishNotification) (n : PublishNotification) : Prop :=
  last (filter (λ x, pn_file_id x = pn_file_id n) l) = Some n.

Lemma latest_snoc l y n : latest (l ++ [y]) n → n = y ∨ pn_file_id y ≠ pn_file_id n ∧ latest l n.
Proof.
  unfold latest. rw filter_app filter_cons filter_nil. destruct (decide _) as [E|E]; cbn.
  - rw last_snoc. intros [= ->]. by left.
  - rw app_nil_r. by right.
Qed.

Section shared.
Context `{Blake3, Crc32, Hex, Ed25519, HeapPick, !MapIter MessageId N, !Codec RootCatalog}.

Lemma shared_publish_one now acc n :
  shared_files (publish_one now acc n).1 = <[(pn_project_id n, pn_file_id n) := shared_as n]> (shared_files acc.1).
Proof. destruct acc as [e t]. unfold publish_one, broadcast_offer. cbn [fst]. by rw field_publish. Qed.

Lemma shared_publish_updates now c l e :
  shared_files (publish_updates now c l e) =
  foldl (λ m n, <[(pn_project_id n, pn_file_id n) := shared_as n]> m) (shared_files e) l.
Proof.
  unfold publish_updates.
  assert (Hf : ∀ l' acc, shared_files (foldl (publish_one now) acc l').1 =
    foldl (λ m n, <[(pn_project_id n, pn_file_id n) := shared_as n]> m) (shared_files acc.1) l').
  { induction l' as [|n l' IH]; intros acc; [done|]. cbn [foldl]. by rw IH shared_publish_one. }
  specialize (Hf l (e, 0%N)). destruct (foldl (publish_one now) _ _) as [e1 total]. cbn [fst] in Hf.
  destruct l as [|first l]; [done|].
  assert (Hp : shared_files (put_catalog now c first total (first :: l) e1).1 = shared_files e1).
  { unfold put_catalog. repeat case_match; done. }
  destruct (put_catalog _ _ _ _ _ _) as [e2 o]. unfold broadcast_catalog_update. rw field_publish //. cbn in Hp. congruence.
Qed.

Lemma shared_latest (l : list PublishNotification) (m : gmap (string * FileId) SharedFileRecord) (pid : string) (n : PublishNotification) :
  Forall (λ n, pn_project_id n = pid) l → latest l n →
  foldl (λ m n, <[(pn_project_id n, pn_file_id n) := shared_as n]> m) m l !! (pid, pn_file_id n) = Some (shared_as n).
Proof.
  intros Hp. induction l as [|y l IH] using rev_ind; [done|]. apply Forall_app in Hp as [Hp Hy].
  inversion Hy as [|? ? Hpy _]; subst. rw foldl_app. cbn. intros [->|[Hne Hl]]%latest_snoc; [by rw lookup_insert_eq|].
  rw lookup_insert_ne; [|by apply IH]. congruence.
Qed.
End shared.

(** ** The batch *)
Section pipeline.
Context `{Blake3, Crc32, Hex, Ed25519, HeapPick, TomlHooks, Shell, !MapIter MessageId N, !Codec ProjectManifest,
  !Codec VersionState, !Codec HistoryIndex, !Codec ObjectMeta, !Codec Tag, !Codec RootCatalog, DirOrder}.
Context (hooks_config : HooksConfig) (history : HistoryConfig).

(** The file that stage three found for an entry of stage one. *)
Record candidate_of (d : Fs) (root : path) (entry : ResolvedPublishPath) (c : Candidate) : Prop := {
  co_key : relative_key (cd_path c) = relative_key entry;
  co_path : resolved_as d root (RelativePath (rp_relative entry)) (cd_path c);
  co_content : ∃ b, read_at d (rp_canonical (cd_path c)) = Ok b ∧ cd_size c = len b ∧ cd_crc c = crc32 b;
}.

Lemma wp_candidate root entry p :
  wp (candidate root entry) (λ r p', same_pub p p' ∧ ∀ c, r = Ok c → candidate_of (pdisk p) root entry c) p.
Proof.
  unfold candidate. wp_step. eapply wp_mono; [apply wp_resolve_publish|]. intros [x|e] p1 [S1 Hx]; [|by split].
  specialize (Hx x eq_refl). case_bool_decide as Hk; cbn [negb]; [|wp_step; by split].
  wp_step. apply wp_on_pub, wp_on_files. unfold crc32_of_file. wp_step. apply wp_query. intros r w Hw Hr.
  set (p2 := mk_Publisher _ _ _). assert (same_pub p1 p2) as S2 by (by split).
  destruct r as [b|e]; [|split; [by etrans|done]]. destruct Hr as [Hr|?]; [|done].
  wp_step. cbn [map_err]. rw crc32_of_chunks. wp_step. split; [by etrans|]. intros c [= <-]. split; cbn; [done|done|].
  exists b. split; [|done]. rw -(sp_disk _ _ S1). by symmetry.
Qed.

Definition notification_of (pid : string) (c : Candidate) (v : N) : PublishNotification :=
  mk_PublishNotification pid (relative_key (cd_path c)) (rp_canonical (cd_path c)) (cd_size c) (cd_crc c) v.

(** A failure from the point on where versions are issued. *)
Definition issuing (e : PublishError) : bool :=
  match e with ManifestFailed _ _ | ArchiveFailed _ _ => true | _ => false end.

(** The exchange and what was started. *)
Definition unannounced (p p' : Publisher) : Prop :=
  pexchange p' = pexchange p ∧ pb_started p' = pb_started p ∧ pb_spawned p' = pb_spawned p.

Lemma wp_prepare pid fr c p :
  wp (prepare_notification history pid fr c) (λ r p', unannounced p p' ∧ (∀ e, r = Err e → issuing e = true) ∧ ∀ n, r = Ok n →
    n = notification_of pid c (pn_version n) ∧
    issued pid (pn_file_id n) (cd_size c) (cd_crc c) (pn_version n) (pmanager p) (pmanager p') ∧
    file_paths (pmanager p') =
      <[(pid, pn_file_id n) := String.concat "/" (rp_relative (cd_path c))]> (file_paths (pmanager p))) p.
Proof.
  unfold prepare_notification. wp_step. wp_step. wp_step. apply wp_on_pub, wp_on_projects.
  eapply wp_mono; [apply wp_bump|]. intros [o|e] s1 [Hf Hi]; [|split; [done|]; split; [by intros ? [= <-]|done]]. specialize (Hi o eq_refl). cbn [map_err].
  wp_step. apply wp_on_pub, wp_on_projects, wp_modify. cbn [map_err]. wp_step. apply wp_on_pub.
  eapply wp_mono; [apply wp_archive_frame|]. intros [[]|e] n [Hex Hpm]; cbn [map_err nd_ex pb_node] in *;
    [|split; [done|]; split; [by intros ? [= <-]|done]].
  wp_step. split; [done|]. split; [done|]. intros x [= <-]. cbn. split; [done|]. unfold pmanager; cbn. rw Hpm. cbn. by rw Hf.
Qed.

(** An entry of the manifest and the path of the file, as a notification says. *)
Record recorded (root : path) (m : ProjectManager) (n : PublishNotification) : Prop := {
  rc_entry : ∃ man e, manifests m !! pn_project_id n = Some man ∧ files man !! pn_file_id n = Some e ∧
    version e = pn_version n ∧ me_size e = pn_file_size n ∧ me_crc e = pn_crc n;
  rc_path : ∃ rel, pn_file_path n = root ++ rel ∧
    file_paths m !! (pn_project_id n, pn_file_id n) = Some (String.concat "/" rel);
}.

(** A file recorded before stays so while another one is. *)
Lemma recorded_step root pid rel size crc v (str : string) m m' n :
  pn_project_id n = pid → pn_file_id n ≠ rel → issued pid rel size crc v m m' →
  file_paths m' = <[(pid, rel) := str]> (file_paths m) → recorded root m n → recorded root m' n.
Proof.
  intros <- Hne (man & e & Hman & _ & _ & _ & _ & Hold) Hf [(man0 & e0 & Hm0 & He0 & ?) (r & ? & Hr)].
  split.
  - exists man, e0. split; [done|]. by rw (Hold _ Hm0 _ Hne).
  - exists r. split; [done|]. rw Hf lookup_insert_ne //. congruence.
Qed.

(** The invariant of the loop: what is prepared so far is recorded, file by file, and nothing is announced. *)
Record prepared_so_far (root : path) (pid : string) (all rest : list (nat * Candidate)) (p0 : Publisher)
    (ns : list PublishNotification) (p : Publisher) : Prop := {
  pf_done : ∃ done_, all = done_ ++ rest ∧ Forall2 (λ ic n, n = notification_of pid ic.2 (pn_version n)) done_ ns;
  pf_quiet : unannounced p0 p;
  pf_recorded : ∀ n, latest ns n → recorded root (pmanager p) n;
}.

Lemma prepared_pid root pid all rest p0 ns p :
  prepared_so_far root pid all rest p0 ns p → Forall (λ n, pn_project_id n = pid) ns.
Proof.
  intros [(done_ & _ & Hd) _ _]. induction Hd as [|? ? ? ? Hn]; constructor; [|done]. by rw Hn.
Qed.

Lemma latest_elem l n : latest l n → n ∈ l.
Proof. unfold latest. intros [_ ?]%last_Some_elem_of%list_elem_of_filter. done. Qed.

Lemma prepared_step root pid all ic rest p0 ns p n p' :
  prepared_so_far root pid all (ic :: rest) p0 ns p →
  rp_canonical (cd_path ic.2) = root ++ rp_relative (cd_path ic.2) →
  unannounced p p' → n = notification_of pid ic.2 (pn_version n) →
  issued pid (pn_file_id n) (cd_size ic.2) (cd_crc ic.2) (pn_version n) (pmanager p) (pmanager p') →
  file_paths (pmanager p') =
    <[(pid, pn_file_id n) := String.concat "/" (rp_relative (cd_path ic.2))]> (file_paths (pmanager p)) →
  prepared_so_far root pid all rest p0 (ns ++ [n]) p'.
Proof.
  intros Hp Hroot Hu Hn Hi Hf. destruct n as [? ? ? ? ? v]. unfold notification_of in Hn. cbn in Hn.
  injection Hn as -> -> -> -> ->. cbn in Hi, Hf. pose proof (prepared_pid _ _ _ _ _ _ _ Hp) as Hpid.
  destruct Hp as [(done_ & Hall & Hd) Hq Hrec]. split.
  - exists (done_ ++ [ic]). split; [by rw -app_assoc|]. by apply Forall2_app; [|constructor].
  - unfold unannounced in *. destruct Hu as (-> & -> & ->). done.
  - intros x [->|[Hne Hl]]%latest_snoc.
    + split; [|exists (rp_relative (cd_path ic.2)); split].
      * destruct Hi as (man & e & ? & ? & ? & ? & ? & _). by exists man, e.
      * done.
      * by rw Hf /= lookup_insert_eq.
    + eapply recorded_step; [..|by apply Hrec]; [|by apply not_eq_sym|done|done].
      rw Forall_forall in Hpid. by apply Hpid, latest_elem.
Qed.

(** *** The four stages *)
Lemma wp_stage_resolve root l p :
  wp (collect (resolve_publish_path root) l) (λ r p', same_pub p p' ∧
    ∀ xs, r = Ok xs → Forall2 (resolved_as (pdisk p) root) l xs) p.
Proof.
  eapply (wp_collect _ (λ rest xs p1, same_pub p p1 ∧ ∃ done_, l = done_ ++ rest ∧ Forall2 (resolved_as (pdisk p) root) done_ xs)).
  - split; [done|]. by exists [].
  - intros x l' ys p1 [S1 (done_ & -> & Hd)]. eapply wp_mono; [apply wp_resolve_publish|].
    intros [y|e] p2 [S2 Hy]; (assert (same_pub p p2) by (by etrans)); [|done]. split; [done|]. exists (done_ ++ [x]).
    split; [by rw -app_assoc|]. apply Forall2_app; [done|]. constructor; [|done]. rw -(sp_disk _ _ S1). auto.
  - intros ys p1 [S1 (done_ & -> & Hd)]. split; [done|]. intros ? [= <-]. by rw app_nil_r.
Qed.

(** Only commands ran. *)
Record ran_pub (l : list Execution) (p p' : Publisher) : Prop := {
  rp_ex : pexchange p' = pexchange p;
  rp_pm : pmanager p' = pmanager p;
  rp_spawned : pb_spawned p' = pb_spawned p;
  rp_started : pb_started p' = pb_started p ++ l;
  rp_disk : pdisk p' = after_commands (pb_started p) l (pdisk p);
}.

Lemma ran_pub_nil p p' : same_pub p p' → ran_pub [] p p'.
Proof. intros []. split; [done..| |done]. by rw app_nil_r. Qed.
Lemma ran_pub_same l p1 p2 p3 : ran_pub l p1 p2 → same_pub p2 p3 → ran_pub l p1 p3.
Proof. intros [] []. split; congruence. Qed.
Lemma ran_same_pub l p1 p2 p3 : same_pub p1 p2 → ran_pub l p2 p3 → ran_pub l p1 p3.
Proof. intros [] []. split; congruence. Qed.

Lemma wp_stage_hooks root pid l p :
  wp (for_each (λ entry, on_hooks (HookRejected (relative_key entry))
        (run_pre_publish hooks_config root pid (relative_key entry))) l) (λ _ p', ∃ l', ran_pub l' p p') p.
Proof.
  eapply wp_for_each with (I := λ _ p', ∃ l', ran_pub l' p p').
  - exists []. by apply ran_pub_nil.
  - intros x l' p1 [l1 R1]. apply wp_on_hooks. eapply wp_mono; [apply wp_run_pre_publish|]. intros r h [l2 [Hs Hd]].
    assert (R2 : ∃ l', ran_pub l' p (mk_Publisher (mk_Node (nd_ex (pb_node p1)) (mk_State (npm (pb_node p1)) (hw_world h)
      (state_cell (nd_st (pb_node p1)))) (sent (pb_node p1))) (started h) (pb_spawned p1))).
    { exists (l1 ++ l2). destruct R1 as [Hex Hpm Hsp Hst Hdk]. split; [done..| |].
      - cbn. rw Hs. cbn. by rw Hst app_assoc.
      - rw after_commands_app. unfold pdisk, ndisk in *. cbn. rw Hd. cbn. by rw Hst Hdk. }
    by destruct r.
  - done.
Qed.

Lemma wp_stage_candidates root l p :
  wp (collect (candidate root) l) (λ r p', same_pub p p' ∧
    ∀ cs, r = Ok cs → Forall2 (candidate_of (pdisk p) root) l cs) p.
Proof.
  eapply (wp_collect _ (λ rest xs p1, same_pub p p1 ∧ ∃ done_, l = done_ ++ rest ∧ Forall2 (candidate_of (pdisk p) root) done_ xs)).
  - split; [done|]. by exists [].
  - intros x l' ys p1 [S1 (done_ & -> & Hd)]. eapply wp_mono; [apply wp_candidate|].
    intros [y|e] p2 [S2 Hy]; (assert (same_pub p p2) by (by etrans)); [|done]. split; [done|]. exists (done_ ++ [x]).
    split; [by rw -app_assoc|]. apply Forall2_app; [done|]. constructor; [|done]. rw -(sp_disk _ _ S1). auto.
  - intros ys p1 [S1 (done_ & -> & Hd)]. split; [done|]. intros ? [= <-]. by rw app_nil_r.
Qed.

Lemma wp_stage_versions root pid frs cs p :
  Forall (λ c, rp_canonical (cd_path c) = root ++ rp_relative (cd_path c)) cs →
  wp (collect (λ '(i, c), prepare_notification history pid (frs i) c) (imap pair cs)) (λ r p', unannounced p p' ∧
    (∀ e, r = Err e → issuing e = true) ∧ ∀ ns, r = Ok ns → Forall2 (λ c n, n = notification_of pid c (pn_version n)) cs ns ∧
      Forall (λ n, pn_project_id n = pid) ns ∧ ∀ n, latest ns n → recorded root (pmanager p') n) p.
Proof.
  intros Hcs. eapply (wp_collect _ (λ rest ns p1, prepared_so_far root pid (imap pair cs) rest p ns p1)).
  - split; [by exists []|done|]. intros n Hn. by apply latest_elem, elem_of_nil in Hn.
  - intros [i c] l' ys p1 HI. eapply wp_mono; [apply wp_prepare|]. intros [n|e] p2 (Hu & He & Hn).
    + destruct (Hn n eq_refl) as (? & ? & ?). eapply prepared_step; [done| |done..]. cbn.
      destruct HI as [(done_ & Hall & _) _ _]. rw Forall_forall in Hcs. apply Hcs.
      assert ((i, c) ∈ imap pair cs) as (j & Hj)%list_elem_of_lookup by (rw Hall; set_solver).
      apply list_elem_of_lookup. rw list_lookup_imap in Hj. destruct (cs !! j) eqn:E; [|done]. injection Hj as <- <-. eauto.
    + split; [|split; [by intros ? [= <-]; apply He|done]]. destruct HI as [_ (? & ? & ?) _]. destruct Hu as (? & ? & ?).
      split; [|split]; congruence.
  - intros ns p1 HI. pose proof (prepared_pid _ _ _ _ _ _ _ HI). destruct HI as [(done_ & Hall & Hd) Hq Hr].
    split; [done|]. split; [done|]. intros ? [= <-]. split; [|done]. rw app_nil_r in Hall. subst done_.
    apply Forall2_lookup. intros i. rewrite Forall2_lookup in Hd. specialize (Hd i). rw list_lookup_imap in Hd.
    destruct (cs !! i); cbn in Hd; inversion Hd; by constructor.
Qed.

(** *** What the handler promises *)

(** The root of the project, and every requested path a regular file below it, outside its metadata. *)
Definition all_valid (p : Publisher) (pid : string) (paths : list RequestedPath) : Prop :=
  ∃ root croot, project_root (pmanager p) pid = Some root ∧ canonicalize_at (pdisk p) root = Ok croot ∧
    Forall (λ req, ∃ x, resolved_as (pdisk p) croot req x) paths.

(** A file of the batch: [d0] is the disk at the start, [d1] after the hooks. *)
Record published_file (d0 d1 : Fs) (croot : path) (pid : string) (req : RequestedPath) (n : PublishNotification) : Prop := {
  pu_resolved : ∃ x y, resolved_as d0 croot req x ∧ resolved_as d1 croot (RelativePath (rp_relative x)) y ∧
    relative_key x = pn_file_id n ∧ relative_key y = pn_file_id n ∧ rp_canonical y = pn_file_path n;
  pu_content : ∃ b, read_at d1 (pn_file_path n) = Ok b ∧ pn_file_size n = len b ∧ pn_crc n = crc32 b;
  pu_project : pn_project_id n = pid;
}.

Record published (pid : string) (paths : list RequestedPath) (l : list Execution) (p p' : Publisher) : Prop := {
  pd_files : ∃ root croot ns, project_root (pmanager p) pid = Some root ∧ canonicalize_at (pdisk p) root = Ok croot ∧
    Forall2 (published_file (pdisk p) (after_commands (pb_started p) l (pdisk p)) croot pid) paths ns ∧
    (∀ n, latest ns n → recorded croot (pmanager p') n ∧
       shared_files (pexchange p') !! (pid, pn_file_id n) = Some (shared_as n)) ∧
    pb_spawned p' = pb_spawned p ++ (post_publish croot pid <$> ns);
}.

Record refused (e : PublishError) (l : list Execution) (p p' : Publisher) : Prop := {
  rf_exchange : pexchange p' = pexchange p;
  rf_spawned : pb_spawned p' = pb_spawned p;
  rf_early : issuing e = false →
    pmanager p' = pmanager p ∧ pdisk p' = after_commands (pb_started p) l (pdisk p);
}.

(** The commands that ran and what came of the batch. *)
Definition outcome (pid : string) (paths : list RequestedPath) (p : Publisher) (r : result PublishError ()) (p' : Publisher) :
    Prop :=
  ∃ l, pb_started p' = pb_started p ++ l ∧ (l ≠ [] → all_valid p pid paths) ∧
    match r with Ok _ => published pid paths l p p' | Err e => refused e l p p' end.

Lemma outcome_early pid paths p e l p' :
  ran_pub l p p' → (l ≠ [] → all_valid p pid paths) → outcome pid paths p (Err e) p'.
Proof. intros R Hv. exists l. split; [apply R|]. split; [done|]. by destruct R. Qed.

Lemma outcome_same pid paths p e p' : same_pub p p' → outcome pid paths p (Err e) p'.
Proof. intros S. eapply (outcome_early _ _ _ _ []); [by apply ran_pub_nil|done]. Qed.

Lemma published_files d0 d1 croot pid paths prepared cs ns :
  Forall2 (resolved_as d0 croot) paths prepared → Forall2 (candidate_of d1 croot) prepared cs →
  Forall2 (λ c n, n = notification_of pid c (pn_version n)) cs ns →
  Forall2 (published_file d0 d1 croot pid) paths ns.
Proof.
  intros H1' H2' H3'. rewrite !Forall2_lookup in H1', H2', H3' |- *. intros i. specialize (H1' i). specialize (H2' i).
  specialize (H3' i). destruct H1' as [req x Hx|]; [|inversion H2' as [? ? ? Hnil|]; inversion H3'; constructor || congruence].
  inversion H2' as [? c Hc Ex Ec|]. rw -Ec in H3'. inversion H3' as [? n Hn Ec' En|]. constructor. destruct Hc as [Hk Hp Hb].
  destruct n as [? ? ? ? ? v]. injection Hn as -> -> -> -> ->. split; [|done|done]. by exists x, (cd_path c).
Qed.

(** From the point on where the files are known and the hooks have run. *)
Lemma wp_publish_rest now chunk_id frs pid paths root croot prepared l p p4 cs :
  project_root (pmanager p) pid = Some root → canonicalize_at (pdisk p) root = Ok croot →
  Forall2 (resolved_as (pdisk p) croot) paths prepared → all_valid p pid paths → ran_pub l p p4 →
  Forall2 (candidate_of (after_commands (pb_started p) l (pdisk p)) croot) prepared cs →
  wp (notifications ← collect (λ '(i, c), prepare_notification history pid (frs i) c) (imap pair cs);
      _ ← on_pub RootUnresolved (on_exchange (publish_updates now chunk_id notifications));
      modify (λ p, mk_Publisher (pb_node p) (pb_started p) (pb_spawned p ++ (post_publish croot pid <$> notifications))))
    (outcome pid paths p) p4.
Proof.
  intros Hroot Hcroot Hprep Hval R Hcs. wp_step. eapply wp_mono; [apply (wp_stage_versions croot)|].
  { eapply Forall2_Forall_r; [exact Hcs|]. apply list.Forall_forall. intros x _ c Hc. by apply (ra_below _ _ _ _ (co_path _ _ _ _ Hc)). }
  destruct R as [Hex4 Hpm4 Hsp4 Hst4 Hdk4]. intros [ns|e] p5 [(Hex5 & Hst5 & Hsp5) [He Hns]].
  2:{ exists l. split; [congruence|]. split; [done|]. split; [congruence..|]. by rw (He e eq_refl). }
  destruct (Hns ns eq_refl) as (Hnc & Hpid & Hrec). wp_step. apply wp_on_pub, wp_on_exchange. cbn [map_err]. apply wp_modify.
  exists l. cbn [pb_started]. split; [congruence|]. split; [done|]. split. exists root, croot, ns.
  split; [done|]. split; [done|]. split; [by eapply published_files|]. split; [|cbn; congruence].
  intros n Hn. split; [by apply Hrec|]. unfold pexchange; cbn. rw shared_publish_updates. by apply shared_latest.
Qed.

Lemma wp_publish now chunk_id frs pid paths p :
  wp (publish_update hooks_config history now chunk_id frs pid paths) (outcome pid paths p) p.
Proof.
  unfold publish_update. wp_step. wp_step. wp_step. wp_step. unfold ok_or.
  destruct (project_root (npm (pb_node p)) pid) as [root|] eqn:Hroot; [|by apply outcome_same].
  wp_step. apply wp_pub_query. intros r p1 S1 Hr1. destruct r as [croot|e]; cbn [map_err]; [|by apply outcome_same].
  destruct Hr1 as [Hcroot|?]; [|done]. symmetry in Hcroot. wp_step. eapply wp_mono; [apply wp_stage_resolve|].
  rw (sp_disk _ _ S1).
  intros [prepared|e] p2 [S2 Hprep]; (assert (same_pub p p2) as S12 by (by etrans)); [|by apply outcome_same].
  specialize (Hprep prepared eq_refl). assert (Hval : all_valid p pid paths).
  { exists root, croot. split; [done|]. split; [done|]. eapply Forall2_Forall_l; [exact Hprep|].
    apply list.Forall_forall. eauto. }
  wp_step. eapply wp_mono; [apply wp_stage_hooks|]. intros r p3 [l R]. apply (ran_same_pub _ _ _ _ S12) in R.
  destruct r as [[]|e]; [|by eapply outcome_early].
  wp_step. eapply wp_mono; [apply wp_stage_candidates|]. rw (rp_disk _ _ _ R).
  intros [cs|e] p4 [S4 Hcs]; apply (ran_pub_same _ _ _ _ R) in S4; [|by eapply outcome_early].
  by eapply wp_publish_rest; [..|apply Hcs].
Qed.

(** C11: A publish that fails announces nothing: the exchange and its offers, the shared files and the queue of post hooks
    are as before.  No command ran unless every path of the batch was valid, and unless the failure came after the
    first version was issued, the project manager is unchanged and the disk differs by what the commands did. *)
Theorem failed_publish_announces_nothing now chunk_id frs pid paths p e p' :
  publish_update hooks_config history now chunk_id frs pid paths p = (Err e, p') →
  pexchange p' = pexchange p ∧ pb_spawned p' = pb_spawned p ∧
  ∃ l, pb_started p' = pb_started p ++ l ∧ (l ≠ [] → all_valid p pid paths) ∧
    (issuing e = false → pmanager p' = pmanager p ∧ pdisk p' = after_commands (pb_started p) l (pdisk p)).
Proof.
  intros (l & Hl & Hv & [])%(wp_eq _ _ _ _ _ (wp_publish now chunk_id frs pid paths p)). eauto 10.
Qed.

(** C12: A publish that succeeds did all of it: each path is a regular file below the project's root, before and after the
    commands ran; its size and checksum are those of the content the commands left; and the last word of the batch on
    a file is what the manifest records, what the exchange shares, and where the file's path is registered. *)
Theorem publish_exact now chunk_id frs pid paths p p' :
  publish_update hooks_config history now chunk_id frs pid paths p = (Ok (), p') →
  ∃ l root croot ns, pb_started p' = pb_started p ++ l ∧
    project_root (pmanager p) pid = Some root ∧ canonicalize_at (pdisk p) root = Ok croot ∧
    Forall2 (published_file (pdisk p) (after_commands (pb_started p) l (pdisk p)) croot pid) paths ns ∧
    (∀ n, latest ns n → recorded croot (pmanager p') n ∧
       shared_files (pexchange p') !! (pid, pn_file_id n) = Some (shared_as n)) ∧
    pb_spawned p' = pb_spawned p ++ (post_publish croot pid <$> ns).
Proof.
  intros (l & Hl & _ & [(root & croot & ns & ?)])%(wp_eq _ _ _ _ _ (wp_publish now chunk_id frs pid paths p)).
  by exists l, root, croot, ns.
Qed.
End pipeline.

(** ** A formatter before the publish *)
Module PublishWitness.
Import (hints) CheckoutWitness.
#[export] Existing Instances ExWitness.catalog_codec StoreWitness.tag_codec.
#[export] Instance toml : TomlHooks := λ _, Some [].
(** The command [fmt] rewrites the file, [false] fails. *)
#[export] Instance sh : Shell := {|
  shell := λ _ ex, if bool_decide (command (ex_def ex) = "false") then Failed (Some 1%Z) else Success;
  touches := λ _ ex d, if bool_decide (command (ex_def ex) = "fmt") then <[["proj"; "f"] := File (as_bytes "hello!")]> d else d;
|}.
Definition fmt : HookDef := mk_HookDef "pre-publish" "fmt" [] 60.
Definition fails : HookDef := mk_HookDef "pre-publish" "false" [] 60.
Definition frs (_ : nat) : Fresh := mk_Fresh 7 "u1" "u2" (λ _, "u").
Definition p0 : Publisher := mk_Publisher CheckoutWitness.n1 [] [].
Definition hist : HistoryConfig := StoreWitness.c.
Definition good := publish_update (mk_HooksConfig false [fmt]) hist 9 "c" frs "p" [RelativePath ["f"]] p0.
Definition bad := publish_update (mk_HooksConfig false [fmt; fails]) hist 9 "c" frs "p" [RelativePath ["f"]] p0.
Definition escape := publish_update (mk_HooksConfig false [fmt]) hist 9 "c" frs "p" [RelativePath [".."; "hist"; "o"]] p0.
End PublishWitness.
Import (hints) CheckoutWitness PublishWitness.

(** The failing hook stops the publish after the formatter ran. *)
Lemma failed_publish_announces_nothing_witness :
  PublishWitness.bad.1 = Err (HookRejected "f" OtherIo) ∧ PublishWitness.escape.1 = Err OutsideRoot ∧
  pexchange PublishWitness.bad.2 = pexchange PublishWitness.p0 ∧ pmanager PublishWitness.bad.2 = pmanager PublishWitness.p0.
Proof.
  assert (Hrun : PublishWitness.bad = (Err (HookRejected "f" OtherIo), PublishWitness.bad.2)) by (vm_compute; reflexivity).
  split; [rewrite Hrun; reflexivity|]. split; [vm_compute; reflexivity|].
  destruct (failed_publish_announces_nothing _ _ _ _ _ _ _ _ _ _ Hrun) as (Hx & _ & l & _ & _ & Hp).
  split; [exact Hx|]. exact (proj1 (Hp eq_refl)).
Defined.

(** The content the formatter left is published, one version up. *)
Lemma publish_exact_witness :
  shared_files (pexchange PublishWitness.good.2) !! ("p", "f") =
    Some (mk_SharedFileRecord "p" ["proj"; "f"] 6 (crc32 (as_bytes "hello!")) 5) ∧
  ∃ croot n, recorded croot (pmanager PublishWitness.good.2) n ∧ pn_file_id n = "f".
Proof.
  split; [vm_compute; reflexivity|].
  assert (Hrun : PublishWitness.good = (Ok (), PublishWitness.good.2)) by (vm_compute; reflexivity).
  destruct (publish_exact _ _ _ _ _ _ _ _ _ Hrun) as (l & root & croot & ns & _ & _ & _ & Hf & Hl & Hs).
  assert (Hlen : length ns = 1) by (rw -(Forall2_length _ _ _ Hf); reflexivity).
  destruct ns as [|n [|? ?]]; [discriminate| |discriminate].
  assert (Hfile : (ph_file <$> pb_spawned PublishWitness.good.2) = ["f"]) by (vm_compute; reflexivity).
  rewrite Hs in Hfile. injection Hfile as Hid.
  assert (Hn : latest [n] n) by (unfold latest; rw filter_cons decide_True; reflexivity).
  exists croot, n. split; [exact (proj1 (Hl n Hn))|exact Hid].
Defined.
