(* ===== verification/Wiring.v ===== *)
(** * The closures between the exchange, the history store and the hook runner

    [history/wiring.rs] and [hooks/wiring.rs] of [synergos-core]: how the exchange asks the history
    store for a version that it does not share itself, and how a file that was received starts the
    commands for it.  The closure that archives is [Incoming.archive_hook]; the commands themselves
    are those of [Hooks].

    The theorems follow one request through all of it: a version that was archived and is asked
    for later is sent, and what is sent is the content that was archived. *)

From Stdlib Require Import Strings.Ascii.
From S2P Require Import Prelude Crypto Types Identity Ledger Gossip Content Catalog Transfer Fs FsPlain Manifest Glob.
From S2P Require Import Project Retention HistoryIndex Tags Rotation HistoryStore StoreInv StoreOps StoreGc StoreProps Hooks Worktree.
From S2P Require Import Exchange Incoming Checkout Publish.

(** [Path::strip_prefix]. *)
Definition strip_path_prefix (base p : path) : option path :=
  if path_starts_with base p then Some (drop (length base) p) else None.

Section wiring.
Context `{Blake3, Crc32, Hex, Ed25519, HeapPick, !MapIter MessageId N, !Codec FrameKind, !Codec HistoryIndex,
  !Codec ObjectMeta, !Codec Tag, !Codec ProjectManifest, !Codec VersionState, DirOrder}.

(** ** Versions out of the history store *)
Section history.
Context {Remote : Type}.
Context (s3 : string → string → string → RotationBackend Remote).
Context (gdrive : string → string → RotationBackend Remote) (cwd : path).

Definition hit_of (sv : StoredVersion) : HistoryHit := mk_HistoryHit (sv_path sv) (sv_size sv) (sv_crc sv).

(** [build_hooks]: the lookup of a version.  An error is logged and counts as no version. *)
Definition lookup_hook (us : nat → string) (c : HistoryConfig) (project_id : string) (file_id : FileId) (version : N) :
    ST (Node * Remote) IoError (option HistoryHit) :=
  n ← gets fst;
  match project_root (npm n) project_id with
  | None => mret None
  | Some root =>
      r ← try_ (history_lookup s3 gdrive cwd us c root project_id file_id version);
      mret (match r with Ok (Some sv) => Some (hit_of sv) | Ok None | Err _ => None end)
  end.

(** The task that [serve_from_history] spawns. *)
Definition serve_task (now : N) (id : TransferId) (us : nat → string) (c : HistoryConfig) (project_id : string)
    (requester : PeerId) (file_id : FileId) (version : N) : ST (Node * Remote) IoError () :=
  hit ← lookup_hook us c project_id file_id version;
  on_node (on_exchange (serve_hit now id project_id requester file_id version hit)).
End history.

(** ** Commands for a file that was received *)

(** [build_post_receive_hook]: the batch of hooks that goes to the runner. *)
Definition post_receive_hook (project_id : string) (file_id : FileId) (version : N) (sender : PeerId) :
    NIO (option PostHook) :=
  n ← gets npm;
  match project_root n project_id with
  | None => mret None
  | Some root =>
      o ← out_path_resolver project_id file_id;
      match o with
      | None => mret None
      | Some abs_path =>
          match strip_path_prefix root abs_path with
          | None => mret None
          | Some rel =>
              let rel_path := normalize_rel_path (String.concat "/" rel) in
              mret (Some (mk_PostHook root PostReceive project_id rel_path version (Some sender)))
          end
      end
  end.

(** The task that [spawn_post_hooks] starts with the batch. *)
Definition run_batch `{TomlHooks, Shell} (c : HooksConfig) (b : PostHook) : HIO () :=
  post_hooks c (ph_root b) (ph_event b) (ph_project b) (ph_file b) (ph_version b) (ph_peer b).

(** ** What a received file starts *)

Lemma segment_proper s : plain_segment s → proper_name s.
Proof. by intros (? & ? & ? & ? & ? & _). Qed.

Lemma concat_split s : String.concat "/" (split_on "/" s) = s.
Proof.
  change (path_text (split_on "/" s) = s). induction s as [|c s IH]; [done|]. cbn [split_on]. case_bool_decide as E.
  - subst c. rw path_text_cons; [apply split_on_nonempty|]. by rw IH.
  - destruct (split_on "/" s) as [|x xs] eqn:Es; [by apply split_on_nonempty in Es|].
    destruct xs as [|y xs]; cbn in IH |- *; by rw -IH.
Qed.

Lemma strip_own base local : strip_path_prefix base (base ++ local) = Some local.
Proof. unfold strip_path_prefix, path_starts_with. rw take_app_length bool_decide_eq_true_2 //. by rw drop_app_length. Qed.

Lemma strip_some base p local : strip_path_prefix base p = Some local → p = base ++ local.
Proof.
  unfold strip_path_prefix, path_starts_with. case_bool_decide as E; [|done]. intros [= <-]. by rw -{1}E take_drop.
Qed.

(** The name of the file relative to its root, as the project manager knows it. *)
Definition rel_of (n : Node) (project_id : string) (file_id : FileId) : string :=
  match file_paths (npm n) !! (project_id, file_id) with Some rel => normalize_rel_path rel | None => file_id end.

Lemma resolver_run n project_id file_id root r n' :
  project_root (npm n) project_id = Some root → out_path_resolver project_id file_id n = (r, n') →
  nd_ex n' = nd_ex n ∧ npm n' = npm n ∧ sent n' = sent n ∧
  ∃ o, r = Ok o ∧ ∀ p, o = Some p → safe_join_under_root root (rel_of n project_id file_id) (world (nd_st n)) = (Ok (Some p), world (nd_st n')).
Proof.
  intros Hroot. unfold out_path_resolver, mbind, ST_bind, try_, on_pm, resolve_file_path, lift_io.
  change (pm (nd_st n)) with (npm n). rw Hroot. fold (rel_of n project_id file_id).
  destruct (safe_join_under_root root _ (world (nd_st n))) as [[o|e] w]; cbn; intros [= <- <-]; split_and!; try done.
  - exists o. split; [done|]. by intros p ->.
  - by exists None.
Qed.

(** The hooks of a received file are looked up by the very name under which it was stored.  The root of an open project is in its
    canonical form; then the batch names the file that the resolver found, and there is a batch whenever it found one. *)
Theorem post_receive_names_file project_id file_id version sender n root r n' :
  project_root (npm n) project_id = Some root → canonicalize_at (ndisk n) root = Ok root →
  post_receive_hook project_id file_id version sender n = (r, n') →
  ndisk n' = ndisk n ∧ nd_ex n' = nd_ex n ∧ npm n' = npm n ∧
  let rel := rel_of n project_id file_id in
  match (out_path_resolver project_id file_id n).1 with
  | Ok (Some p) => r = Ok (Some (mk_PostHook root PostReceive project_id rel version (Some sender))) ∧
      p = root ++ split_on "/" rel ∧ Forall plain_segment (split_on "/" rel) ∧ head (split_on "/" rel) ≠ Some META_DIR
  | _ => r = Ok None
  end.
Proof.
  intros Hroot Hcanon Hrun. unfold post_receive_hook, mbind, ST_bind, gets in Hrun. rw Hroot in Hrun.
  assert (Hdisk : ndisk (out_path_resolver project_id file_id n).2 = ndisk n).
  { unfold ndisk, out_path_resolver, mbind, ST_bind, try_, on_pm, resolve_file_path, lift_io.
    change (pm (nd_st n)) with (npm n). rw Hroot. destruct (safe_join_under_root root _ _) as [[o|e] w] eqn:E;
      cbn; by apply safe_join_disk in E. }
  destruct (out_path_resolver project_id file_id n) as [x n1] eqn:Eo.
  destruct (resolver_run _ _ _ _ _ _ Hroot Eo) as (He & Hm & _ & o & -> & Hp). cbn [fst snd] in *.
  destruct o as [p|]; [|by injection Hrun as <- <-].
  destruct (safe_join_inv _ _ _ _ _ (Hp p eq_refl)) as (_ & croot & local & Hc & -> & Hl & Hne & Hpl & Hhd & _).
  assert (croot = root) as -> by (unfold ndisk in Hcanon; congruence). rw strip_own in Hrun.
  assert (Hpr : Forall proper_name local) by (eapply Forall_impl; [exact Hpl|apply segment_proper]).
  assert (Htext : normalize_rel_path (String.concat "/" local) = rel_of n project_id file_id).
  { rw normalize_path_text //. rw Hl. apply concat_split. }
  rw Htext in Hrun. injection Hrun as <- <-. by rw -Hl.
Qed.

(** A file below a root in another form than the one the project has starts nothing: the prefix is not found. *)
Theorem other_form_starts_nothing project_id file_id version sender n root croot r n' :
  project_root (npm n) project_id = Some root → canonicalize_at (ndisk n) root = Ok croot →
  croot ≠ root → length croot = length root →
  post_receive_hook project_id file_id version sender n = (r, n') → r = Ok None.
Proof.
  intros Hroot Hcanon Hne Hlen Hrun. unfold post_receive_hook, mbind, ST_bind, gets in Hrun. rw Hroot in Hrun.
  destruct (out_path_resolver project_id file_id n) as [x n1] eqn:Eo.
  destruct (resolver_run _ _ _ _ _ _ Hroot Eo) as (_ & _ & _ & o & -> & Hp).
  destruct o as [p|]; [|by injection Hrun as <- <-].
  destruct (safe_join_inv _ _ _ _ _ (Hp p eq_refl)) as (_ & croot' & local & Hc & -> & _).
  assert (croot' = croot) as -> by (unfold ndisk in Hcanon; congruence).
  destruct (strip_path_prefix root (croot ++ local)) as [l|] eqn:Es; [|by injection Hrun as <- <-].
  apply strip_some, app_inj_1 in Es as [? _]; done.
Qed.

(** Every command that the batch of a received file starts is one of the daemon's, or a valid one of the project with the opt-in, for
    received files and for this file, in the project's root. *)
Theorem received_file_starts_authorised `{TomlHooks, Shell} (c : HooksConfig) project_id file_id version sender n root b n' h :
  project_root (npm n) project_id = Some root → canonicalize_at (ndisk n) root = Ok root →
  post_receive_hook project_id file_id version sender n = (Ok (Some b), n') →
  ∃ l, started (run_batch c b h).2 = started h ++ l ∧
    Forall (authorised c root PostReceive (rel_of n project_id file_id) (disk (hw_world h))) l.
Proof.
  intros Hroot Hcanon Hrun. destruct (post_receive_names_file _ _ _ _ _ _ _ _ Hroot Hcanon Hrun) as (_ & _ & _ & Hm).
  assert (b = mk_PostHook root PostReceive project_id (rel_of n project_id file_id) version (Some sender)) as ->.
  { destruct (out_path_resolver _ _ _).1 as [[p|]|]; [|done..]. by destruct Hm as ([= ->] & _). }
  pose proof (wp_post_hooks c root PostReceive project_id (rel_of n project_id file_id) version (Some sender) h) as Hw.
  unfold run_batch. revert Hw. unfold wp. cbn. by destruct (post_hooks _ _ _ _ _ _ _ _).
Qed.

(** ** Serving an old version *)
Section serving.
Context {Remote : Type}.
Context (s3 : string → string → string → RotationBackend Remote).
Context (gdrive : string → string → RotationBackend Remote) (cwd : path).

Definition with_exchange (e : Exchange) (n : Node) : Node := mk_Node e (nd_st n) (sent n).

Lemma lookup_hook_found us c project_id f v root n remote sv :
  project_root (npm n) project_id = Some root →
  lookup s3 gdrive cwd us c root project_id f v (mk_RWorld (world (nd_st n)) remote) =
    (Ok (Some sv), mk_RWorld (world (nd_st n)) remote) →
  lookup_hook s3 gdrive cwd us c project_id f v (n, remote) = (Ok (Some (hit_of sv)), (n, remote)).
Proof.
  intros Hroot Hl. unfold lookup_hook, mbind, ST_bind, gets, try_, history_lookup. cbn [fst]. rw Hroot Hl.
  by destruct n as [e [m w st] out].
Qed.

Lemma quic_serve now id p q f v h e : quic_attached (serve_hit now id p q f v (Some h) e) = quic_attached e.
Proof. cbn. unfold share_file, broadcast_offer. by rw (field_publish quic_attached). Qed.

(** Serving a version makes the node share it: from then on it answers a request for any version with this one. *)
Theorem served_version_takes_over now id p q f v h e :
  let e' := serve_hit now id p q f v (Some h) e in
  shared_files e' !! (p, f) = Some (mk_SharedFileRecord p (hit_path h) (hit_size h) (hit_crc h) v) ∧
  tasks e' = tasks e ++ [TaskSendAfterShare (mk_ShareRequest p f (hit_path h) (hit_size h) (hit_crc h) Interactive (Some q) v) id] ∧
  (∀ q', q' ≠ local_peer_id e → quic_attached e = true →
     tasks (handle_file_want p q' f 0 e') = tasks e' ++
       [TaskShareAndSend (mk_ShareRequest p f (hit_path h) (hit_size h) (hit_crc h) Interactive (Some q') v)]).
Proof.
  intros e'. set (r := mk_ShareRequest p f (hit_path h) (hit_size h) (hit_crc h) Interactive (Some q) v).
  assert (He : e' = spawn (TaskSendAfterShare r id) (share_file now id r e)) by done.
  assert (Hr : rest (share_file now id r e) = rest e) by apply rest_share_file. injection Hr as Ht Hl.
  assert (Hs : shared_files e' !! (p, f) = Some (mk_SharedFileRecord p (hit_path h) (hit_size h) (hit_crc h) v)).
  { rw He. change (shared_files (spawn ?t ?x)) with (shared_files x). unfold share_file, broadcast_offer.
    rw (field_publish shared_files) //. cbn. by rw lookup_insert_eq. }
  split_and!; [done|by rw He /= Ht|]. intros q' Hq Hquic. unfold handle_file_want.
  assert (local_peer_id e' = local_peer_id e) as -> by (rw He; cbn; by rw Hl).
  rw bool_decide_eq_false_2 //.
  rw -(quic_serve now id p q f v h e) in Hquic. fold e' in Hquic. rw Hquic.
  cbn [negb]. by rw Hs.
Qed.

Lemma quic_progress (ps : list (N * N)) id e : quic_attached (foldl (λ e '(b, sp), update_progress id b sp e) e ps) = quic_attached e.
Proof.
  revert e. induction ps as [|[b sp] ps IH]; intros e; [done|]. cbn [foldl]. rw IH. unfold update_progress. by repeat case_match.
Qed.

(** The transmission of a file that can be read, up to the byte. *)
Lemma send_reads `{!CodecLaws FrameKind} ps r id q b n :
  quic_attached (nd_ex n) = true → faults (world (nd_st n)) = [] → read_at (ndisk n) (sr_file_path r) = Ok b →
  sr_target_peer r = Some q → is_u64 (len b) →
  let h := mk_TransferHeader id (sr_project_id r) (sr_file_id r) (len b) (expected_chunks (len b)) (blake3 b) (sr_version r) in
  Forall fits (frames_of b h) →
  ∃ s, sent (send_after_share true ps r id n).2 = sent n ++ [(q, TRANSFER_STREAM_MAGIC ++ s)] ∧
    receive_stream s = (Some b, Ok h).
Proof.
  intros Hq Hf Hb Ht Hu h Hfits. destruct (transfer_honest b id (sr_project_id r) (sr_file_id r) (sr_version r)) as (s & Hsend & Hrecv); [done..|].
  exists s. split; [|done].
  assert (Hread : ∀ e out, read (sr_file_path r) (world (nd_st (mk_Node e (nd_st n) out))) = (Ok b, world (nd_st n))).
  { intros e out. unfold read. rw query_nofault //. cbn. fold (ndisk n). by rw Hb. }
  assert (Hio : ∀ e out, io (read (sr_file_path r)) (mk_Node e (nd_st n) out) = (Ok b, mk_Node e (nd_st n) out)).
  { intros e out. unfold io, on_pm, lift_io. cbn [nd_st]. rw (Hread e out). by destruct n as [? [? ? ?] ?]. }
  unfold send_after_share. rw Ht. unfold mbind, ST_bind, gets. rw Hq. cbn [negb]. destruct n as [e st out]. unfold try_.
  rw (Hio e out). cbn [hash_file]. unfold ignore, execute_send, mbind, ST_bind, gets, try_. cbn [nd_ex] in *. rw Hq. cbn [negb].
  rw (Hio e out). unfold on_ex, modify. cbn [nd_ex nd_st sent]. fold h. unfold send_over_quic. rw Hsend. done.
Qed.

(** C20: A version that is archived is there for whoever asks for it later: the request starts the task, the task finds the version, and
    the transmission it starts carries, in a stream that any receiver accepts, content with the hash, size and checksum of what
    was archived, as that version of that file. *)
Theorem archived_version_is_served `{!Blake3Laws, !HexLaws, !CodecLaws HistoryIndex, !CodecLaws FrameKind, !DirOrderLaws}
    us us' now now' c root pid rel v size crc publisher source src ix w o n remote q id ps :
  let store := store_path pid c root in
  store_inv store pid (disk w) (disk w) → holds_index store pid (disk w) ix →
  (∀ e, index_get ix rel v = Some e → is_local e = true ∧ ie_size e = size ∧ ie_crc e = crc) →
  invalid_path rel = false → (0 < v < u64_max)%N → is_u64 size → plain (disk w) src →
  archive us now c root pid rel v size crc publisher source src w = (Ok o, world (nd_st n)) → o ≠ NotCovered →
  faults (world (nd_st n)) = [] → store_dir c root pid (world (nd_st n)) = (Ok store, world (nd_st n)) →
  project_root (npm n) pid = Some root → quic_attached (nd_ex n) = true → history_attached (nd_ex n) = true →
  q ≠ local_peer_id (nd_ex n) → (∀ r, shared_files (nd_ex n) !! (pid, rel) = Some r → sf_version r ≠ v) →
  let n1 := with_exchange (handle_file_want pid q rel v (nd_ex n)) n in
  tasks (nd_ex n1) = tasks (nd_ex n) ++ [TaskServeFromHistory pid q rel v] ∧
  ∃ r, let n2 := (serve_task s3 gdrive cwd now' id us' c pid q rel v (n1, remote)).2.1 in
  tasks (nd_ex n2) = tasks (nd_ex n1) ++ [TaskSendAfterShare r id] ∧
  ∃ b b0, node_at (disk w) src = Some (File b0) ∧ hex_encode (blake3 b) = hex_encode (blake3 b0) ∧ len b = size ∧ crc32 b = crc ∧
    let h := mk_TransferHeader id pid rel (len b) (expected_chunks (len b)) (blake3 b) v in
    (Forall fits (frames_of b h) →
     ∃ s, sent (send_after_share true ps r id n2).2 = sent n ++ [(q, TRANSFER_STREAM_MAGIC ++ s)] ∧
       receive_stream s = (Some b, Ok h)).
Proof.
  intros store Hi Hx Hloc Hrel Hv Hsize Hsrc Hrun Ho Hf Hdir Hroot Hquic Hhist Hq Hold n1.
  assert (He1 : nd_ex n1 = spawn (TaskServeFromHistory pid q rel v) (nd_ex n)).
  { cbn. unfold handle_file_want, serve_from_history. rw bool_decide_eq_false_2 // Hquic Hhist. cbn [negb].
    rw (proj2 (N.eqb_neq v 0)); [lia|]. destruct (shared_files _ !! _) as [r|] eqn:Er; [|done].
    rw (proj2 (N.eqb_neq v (sf_version r))); [by apply not_eq_sym, Hold|done]. }
  split; [by rw He1|].
  destruct (archive_lookup_roundtrip s3 gdrive cwd c root pid us us' now rel v size crc publisher source src ix w o
    (world (nd_st n)) remote) as (sv & Hl & _ & _ & Hsz & Hcrc & Hm0 & Hm); try done.
  destruct Hm0 as (b0 & Hb0 & Hh0 & _ & _). destruct Hm as (b & Hb & Hh & Hlen & Hc). subst size.
  set (r := mk_ShareRequest pid rel (sv_path sv) (sv_size sv) (sv_crc sv) Interactive (Some q) v). exists r.
  assert (Hhook : lookup_hook s3 gdrive cwd us' c pid rel v (n1, remote) = (Ok (Some (hit_of sv)), (n1, remote))).
  { by apply (lookup_hook_found us' c pid rel v root n1). }
  unfold serve_task. unfold mbind, ST_bind. rw Hhook. cbn [on_node on_exchange modify snd fst].
  set (n2 := mk_Node _ _ _). cbv zeta.
  assert (Hn2 : nd_ex n2 = serve_hit now' id pid q rel v (Some (hit_of sv)) (nd_ex n1)) by done.
  pose proof (served_version_takes_over now' id pid q rel v (hit_of sv) (nd_ex n1)) as (_ & Ht & _).
  split; [by rw Hn2 Ht|]. exists b, b0. split_and!; [done|by rw Hh Hh0|done|done|].
  apply (send_reads ps r id q b n2); try done; [by rw Hn2 quic_serve He1|by rw Hlen].
Qed.
End serving.

End wiring.

(** ** A file is archived, and its old version asked for after the new one is shared. *)
Module WiringWitness.
#[export] Existing Instances Toy.toy_blake3 Toy.toy_hex Toy.toy_crc32 Toy.toy_ed25519 Toy.toy_blake3_laws Toy.toy_hex_laws
  Gossip.Witness.pick.
#[export] Existing Instances ManifestWitness.manifest_codec ManifestWitness.state_codec ProjectWitness.project_iter.
#[export] Existing Instances StoreWitness.index_codec StoreWitness.index_codec_laws StoreWitness.meta_codec
  StoreWitness.tag_codec StoreWitness.dir_order StoreWitness.dir_order_laws.
#[export] Instance messages : MapIter MessageId N := toy_iter.

Definition b : bytes := StoreWitness.b1.
Definition header : TransferHeader := mk_TransferHeader "t" "p" "a.txt" (len b) (expected_chunks (len b)) (blake3 b) 1.
#[export] Instance header_eq_dec : EqDecision TransferHeader.
Proof. solve_decision. Defined.
#[export] Instance chunk_eq_dec : EqDecision ChunkFrame.
Proof. solve_decision. Defined.
#[export] Instance footer_eq_dec : EqDecision TransferFooter.
Proof. solve_decision. Defined.
#[export] Instance frame_eq_dec : EqDecision FrameKind.
Proof. solve_decision. Defined.
#[export] Instance frames : Codec FrameKind := Toy.table_codec (frames_of b header).
#[export] Instance frames_laws : CodecLaws FrameKind.
Proof. apply Toy.table_codec_laws. Qed.

Abbreviation archived := (archive StoreWitness.us 5 StoreWitness.c ["proj"] StoreWitness.pid "a.txt" 1 3 (crc32 b) "me" "published"
  ["proj"; "a.txt"] StoreWitness.w0).
Definition e0 : Exchange :=
  restore_shared_file "a.txt" (mk_SharedFileRecord "p" ["proj"; "a.txt"] 3 9 2) (with_network "me" None true true None).
Definition n0 : Node := mk_Node e0 (mk_State IncomingWitness.pm0 archived.2 None) [].
Definition n1 : Node := with_exchange (handle_file_want "p" "you" "a.txt" 1 e0) n0.
Definition no_backend (_ _ _ : string) : RotationBackend () := StoreWitness.bk.
Definition no_drive (_ _ : string) : RotationBackend () := StoreWitness.bk.
Definition n2 : Node := (serve_task no_backend no_drive [] 6 "t" StoreWitness.us StoreWitness.c "p" "you" "a.txt" 1 (n1, ())).2.1.
Definition request : ShareRequest :=
  mk_ShareRequest "p" "a.txt" (object_path StoreWitness.store StoreWitness.h1) 3 (crc32 b) Interactive (Some "you") 1.

Lemma archived_ok : archived = (Ok Stored, world (nd_st n0)).
Proof.
  assert (Hr : archived.1 = Ok Stored) by (vm_compute; reflexivity).
  assert (world (nd_st n0) = archived.2) as -> by reflexivity. rewrite -Hr. apply surjective_pairing.
Qed.

Lemma store_found w : store_dir StoreWitness.c ["proj"] StoreWitness.pid w =
  (Ok (store_path StoreWitness.pid StoreWitness.c ["proj"]), w).
Proof. reflexivity. Qed.

(** The old version goes out, and any receiver accepts it. *)
Example old_version_goes_out :
  tasks (nd_ex n2) = [TaskServeFromHistory "p" "you" "a.txt" 1; TaskSendAfterShare request "t"] ∧
  (λ x : PeerId * bytes, (x.1, receive_stream (drop 4 x.2))) <$> sent (send_after_share true [] request "t" n2).2 =
    [("you", (Some b, Ok header))].
Proof. split; vm_compute; reflexivity. Qed.

(** From then on the node shares the old version: a request for any version is answered with it. *)
Example old_version_takes_over :
  (sf_version <$> shared_files (nd_ex n1) !! ("p", "a.txt")) = Some 2%N ∧
  (sf_version <$> shared_files (nd_ex n2) !! ("p", "a.txt")) = Some 1%N ∧
  last (tasks (handle_file_want "p" "other" "a.txt" 0 (nd_ex n2))) =
    Some (TaskShareAndSend (mk_ShareRequest "p" "a.txt" (object_path StoreWitness.store StoreWitness.h1) 3 (crc32 b) Interactive
      (Some "other") 1)).
Proof. split_and!; vm_compute; reflexivity. Qed.
End WiringWitness.
Import (hints) WiringWitness.

Lemma archived_version_is_served_witness :
  let n1 := with_exchange (handle_file_want StoreWitness.pid "you" "a.txt" 1 (nd_ex WiringWitness.n0)) WiringWitness.n0 in
  tasks (nd_ex n1) = tasks (nd_ex WiringWitness.n0) ++ [TaskServeFromHistory StoreWitness.pid "you" "a.txt" 1] ∧
  ∃ r, tasks (nd_ex (serve_task WiringWitness.no_backend WiringWitness.no_drive [] 6 "t" StoreWitness.us StoreWitness.c StoreWitness.pid "you"
      "a.txt" 1 (n1, ())).2.1) = tasks (nd_ex n1) ++ [TaskSendAfterShare r "t"].
Proof.
  intros n1.
  destruct (archived_version_is_served WiringWitness.no_backend WiringWitness.no_drive [] StoreWitness.us StoreWitness.us 5 6
    StoreWitness.c ["proj"] StoreWitness.pid "a.txt" 1 3 (crc32 WiringWitness.b) "me" "published" ["proj"; "a.txt"] StoreWitness.ix0
    StoreWitness.w0 Stored WiringWitness.n0 () "you" "t" []) as (Ht & r & Hr & _).
  - exact (StoreWitness.inv0 0).
  - exact (StoreWitness.holds0 0).
  - intros e He. discriminate He.
  - reflexivity.
  - split; reflexivity.
  - discriminate.
  - exact StoreWitness.plain_src.
  - exact WiringWitness.archived_ok.
  - discriminate.
  - vm_compute. reflexivity.
  - exact (WiringWitness.store_found _).
  - vm_compute. reflexivity.
  - reflexivity.
  - reflexivity.
  - discriminate.
  - intros r Hr. assert (Hs : shared_files (nd_ex WiringWitness.n0) !! (StoreWitness.pid, "a.txt") =
      Some (mk_SharedFileRecord "p" ["proj"; "a.txt"] 3 9 2)) by (vm_compute; reflexivity).
    rewrite Hs in Hr. injection Hr as <-. discriminate.
  - split; [exact Ht|]. exists r. exact Hr.
Defined.

(** A file arrives in an open project: its hook runs for it. *)
Module HookWitness.
Definition disk1 : Fs := list_to_map [(["proj"], Dir); (["proj"; "f"], File WiringWitness.b)].
Definition n : Node := mk_Node WiringWitness.e0 (mk_State IncomingWitness.pm0 (mk_World disk1 []) None) [].
#[export] Instance toml : TomlHooks := λ _, None.
#[export] Instance sh : Shell := {| shell := λ _ _, Success; touches := λ _ _ d, d |}.
Definition notify : HookDef := mk_HookDef "post-receive" "notify" ["*"] 60.
Definition other : HookDef := mk_HookDef "post-receive" "other" ["*.png"] 60.
Definition batch : PostHook := mk_PostHook ["proj"] PostReceive "p" "f" 3 (Some "you").
Definition ran : list string :=
  (command ∘ ex_def) <$> started (run_batch (mk_HooksConfig false [other; notify]) batch (mk_HookWorld (mk_World disk1 []) [])).2.
End HookWitness.
Import (hints) HookWitness.

Lemma received_file_starts_authorised_witness :
  (post_receive_hook "p" "f" 3 "you" HookWitness.n).1 = Ok (Some HookWitness.batch) ∧ HookWitness.ran = ["notify"] ∧
  ∃ l, started (run_batch (mk_HooksConfig false [HookWitness.notify]) HookWitness.batch
      (mk_HookWorld (mk_World HookWitness.disk1 []) [])).2 = l ∧
    Forall (authorised (mk_HooksConfig false [HookWitness.notify]) ["proj"] PostReceive "f" HookWitness.disk1) l.
Proof.
  split; [vm_compute; reflexivity|]. split; [vm_compute; reflexivity|].
  destruct (received_file_starts_authorised (mk_HooksConfig false [HookWitness.notify]) "p" "f" 3 "you" HookWitness.n ["proj"]
    HookWitness.batch (post_receive_hook "p" "f" 3 "you" HookWitness.n).2 (mk_HookWorld (mk_World HookWitness.disk1 []) []))
    as (l & Hl & Ha).
  - vm_compute. reflexivity.
  - vm_compute. reflexivity.
  - vm_compute. reflexivity.
  - exists l. split; [exact Hl|exact Ha].
Defined.
