(* ===== verification/IpcProtocol.v ===== *)
(** * The IPC protocol

    [synergos-ipc]: the commands a client sends ([command.rs]) and their validation, the events
    and their filters ([event.rs]), the frames on the socket ([transport.rs]) and the client that
    hands each response to the command it answers ([client.rs]).

    MessagePack is the parameter [Codec]; a path is the text that is sent. *)

From Stdlib Require Import Strings.Ascii.
From S2P Require Import Prelude Crypto Types Fs Manifest Glob Tags.

(** ** Commands *)
Inductive EventCategory := CatPeer | CatTransfer | CatConflict | CatNetwork | CatPeerStream.
Inductive EventFilter := FilterAll | FilterProject (project_id : string) | FilterCategory (c : EventCategory).

Global Instance EventCategory_eq_dec : EqDecision EventCategory.
Proof. solve_decision. Defined.

Inductive IpcCommand :=
| CmdPing
| CmdShutdown
| CmdStatus
| CmdProjectOpen (project_id root_path : string) (display_name : option string)
| CmdProjectClose (project_id : string)
| CmdProjectList
| CmdProjectGet (project_id : string)
| CmdProjectUpdate (project_id : string) (display_name description sync_mode : option string) (max_peers : option N)
| CmdProjectCreateInvite (project_id : string) (expires_in_secs : option N) (peer_info_url : option string)
| CmdProjectJoin (invite_token root_path : string)
| CmdPeerList (project_id : string)
| CmdPeerConnect (project_id peer_id : string)
| CmdPeerDisconnect (peer_id : string)
| CmdPeerAddByUrl (project_id url : string)
| CmdTransferRequest (project_id file_id peer_id : string)
| CmdTransferList (project_id : option string)
| CmdTransferCancel (transfer_id : string)
| CmdPublishUpdate (project_id : string) (file_paths : list string)
| CmdProjectCheckout (project_id : string) (manifest_path : option string)
| CmdProjectRestore (project_id rel_path : string) (version : N)
| CmdHistoryList (project_id : string) (rel_path : option string)
| CmdHistoryGc (project_id : string) (purge : bool) (keep_manifests : list string)
| CmdHistoryRotate (project_id : string) (dry_run : bool) (keep_manifests : list string)
| CmdHistoryOffloaded (project_id : string) (rel_path : option string)
| CmdHistoryFetch (project_id rel_path : string) (version : N)
| CmdHooksList (project_id : string)
| CmdHooksRun (project_id event rel_path : string)
| CmdTagAdd (project_id name : string) (manifest_path : option string) (pins : list (string * N))
| CmdTagLs (project_id : string)
| CmdTagShow (project_id name : string)
| CmdTagRm (project_id name : string)
| CmdConflictList (project_id : option string)
| CmdConflictResolve (file_id resolution : string)
| CmdConfigUpdate (mesh_n max_concurrent_streams : option N) (tunnel_hostname : option string)
| CmdNetworkStatus
| CmdSubscribe (events : list EventFilter)
| CmdUnsubscribe (subscription_id : string)
| CmdPeerSendStream (peer_id : string) (magic payload : bytes).

Global Instance EventFilter_eq_dec : EqDecision EventFilter.
Proof. solve_decision. Defined.
Global Instance IpcCommand_eq_dec : EqDecision IpcCommand.
Proof. solve_decision. Defined.

(** *** Validation; an error names the message and what it is about *)
Inductive ValidateError :=
| EEmpty (label : string)
| ETooLong (label : string) (n : N)
| EParentDir (label : string)
| ENulByte (label : string)
| EUnsafeRelPath (label : string)
| ETagName (name : string)
| EUrlScheme
| ENoPaths
| ETooManyPaths (n : N)
| EVersion (label : string)
| EHookEvent (event : string)
| EExclusive
| EResolution (resolution : string)
| EPayload (n : N).

Abbreviation V := (result ValidateError ()).

Definition MAX_ID_LEN : N := 1024.
Definition MAX_PATHS_PER_PUBLISH : N := 1024.
Definition MAX_PATH_LEN : N := 4096.
Definition MAX_PAYLOAD : N := 1024 * 1024.

Definition slen (s : string) : N := N.of_nat (String.length s).

Definition check_id (label s : string) : V :=
  if is_blank_text s then Err (EEmpty label)
  else if (MAX_ID_LEN <? slen s)%N then Err (ETooLong label (slen s))
  else Ok ().

(** [Path::components] splits at [/]. *)
Definition check_path (label p : string) : V :=
  if bool_decide (p = "") then Err (EEmpty label)
  else if (MAX_PATH_LEN <? slen p)%N then Err (ETooLong label (slen p))
  else if existsb (λ c, bool_decide (c = "..")) (split_on "/" p) then Err (EParentDir label)
  else if contains_char "000"%char p then Err (ENulByte label)
  else Ok ().

Definition unsafe_segment (segment : string) : bool :=
  bool_decide (segment = "") || bool_decide (segment = ".") || bool_decide (segment = "..") || contains_char ":" segment.

Definition check_rel_path (label p : string) : V :=
  _ ← check_id label p;
  if starts_with_char "/" p || contains_char "\" p || bool_decide (p = ".synergos") || String.prefix ".synergos/" p
     || has_control (as_bytes p) || existsb unsafe_segment (split_on "/" p)
  then Err (EUnsafeRelPath label)
  else Ok ().

Definition check_tag_name (name : string) : V :=
  if negb (bool_decide (name = "")) && (slen name <=? 64)%N && negb (bool_decide (name = ".")) &&
     negb (bool_decide (name = "..")) && forallb is_tag_byte (as_bytes name)
  then Ok () else Err (ETagName name).

Definition check_version (label : string) (v : N) : V :=
  if (v =? 0)%N || (v =? u64_max)%N then Err (EVersion label) else Ok ().

Definition check_opt {A} (f : A → V) (o : option A) : V := match o with Some x => f x | None => Ok () end.
(** [for x in l { f(x)?; }]. *)
Fixpoint check_all {A} (f : A → V) (l : list A) : V :=
  match l with [] => Ok () | x :: l' => _ ← f x; check_all f l' end.

Definition validate (c : IpcCommand) : V :=
  match c with
  | CmdPing | CmdShutdown | CmdStatus | CmdNetworkStatus | CmdProjectList => Ok ()
  | CmdProjectOpen pid root _ => _ ← check_id "project_id" pid; check_path "root_path" root
  | CmdProjectClose pid | CmdProjectGet pid | CmdProjectCreateInvite pid _ _ | CmdPeerList pid
  | CmdProjectUpdate pid _ _ _ _ => check_id "project_id" pid
  | CmdProjectJoin token root => _ ← check_id "invite_token" token; check_path "root_path" root
  | CmdPeerConnect pid peer => _ ← check_id "project_id" pid; check_id "peer_id" peer
  | CmdPeerDisconnect peer => check_id "peer_id" peer
  | CmdPeerAddByUrl pid url =>
      _ ← check_id "project_id" pid;
      _ ← check_id "url" url;
      if negb (String.prefix "http://" url || String.prefix "https://" url) then Err EUrlScheme else Ok ()
  | CmdTransferRequest pid fid peer =>
      _ ← check_id "project_id" pid; _ ← check_id "file_id" fid; check_id "peer_id" peer
  | CmdTransferList pid | CmdConflictList pid => check_opt (check_id "project_id") pid
  | CmdTransferCancel t => check_id "transfer_id" t
  | CmdPublishUpdate pid paths =>
      _ ← check_id "project_id" pid;
      if bool_decide (paths = []) then Err ENoPaths
      else if (MAX_PATHS_PER_PUBLISH <? N.of_nat (length paths))%N then Err (ETooManyPaths (N.of_nat (length paths)))
      else check_all (check_path "file_paths[*]") paths
  | CmdProjectCheckout pid m => _ ← check_id "project_id" pid; check_opt (check_path "manifest_path") m
  | CmdProjectRestore pid rel v | CmdHistoryFetch pid rel v =>
      _ ← check_id "project_id" pid; _ ← check_rel_path "rel_path" rel; check_version "version" v
  | CmdHistoryList pid rel | CmdHistoryOffloaded pid rel =>
      _ ← check_id "project_id" pid; check_opt (check_rel_path "rel_path") rel
  | CmdHistoryGc pid _ keep | CmdHistoryRotate pid _ keep =>
      _ ← check_id "project_id" pid; check_all (check_path "keep_manifests[*]") keep
  | CmdHooksList pid | CmdTagLs pid => check_id "project_id" pid
  | CmdHooksRun pid event rel =>
      _ ← check_id "project_id" pid;
      _ ← check_id "event" event;
      if negb (contains event ["pre-publish"; "post-publish"; "post-receive"]) then Err (EHookEvent event)
      else check_rel_path "rel_path" rel
  | CmdTagAdd pid name m pins =>
      _ ← check_id "project_id" pid;
      _ ← check_tag_name name;
      _ ← check_opt (check_path "manifest_path") m;
      if bool_decide (is_Some m) && negb (bool_decide (pins = [])) then Err EExclusive
      else check_all (λ '(rel, v), _ ← check_rel_path "pins[*].0" rel; check_version "pins[*].1" v) pins
  | CmdTagShow pid name | CmdTagRm pid name => _ ← check_id "project_id" pid; check_tag_name name
  | CmdSubscribe _ => Ok ()
  | CmdUnsubscribe s => check_id "subscription_id" s
  | CmdConflictResolve fid r =>
      _ ← check_id "file_id" fid;
      if contains r ["keep_local"; "accept_remote"; "manual_merge"] then Ok () else Err (EResolution r)
  | CmdConfigUpdate _ _ _ => Ok ()
  | CmdPeerSendStream peer _ payload =>
      _ ← check_id "peer_id" peer;
      if (MAX_PAYLOAD <? N.of_nat (length payload))%N then Err (EPayload (N.of_nat (length payload))) else Ok ()
  end.

(** ** Events *)
Inductive IpcEvent :=
| EvPeerConnected (project_id peer_id display_name route : string) (rtt_ms : N)
| EvPeerDisconnected (project_id peer_id reason : string)
| EvTransferProgress (transfer_id peer_id file_name : string) (bytes_transferred total_bytes speed_bps : N)
| EvTransferCompleted (transfer_id peer_id file_name file_path : string)
| EvTransferFailed (transfer_id peer_id file_name error : string)
| EvConflictDetected (project_id file_id file_path : string) (involved_peers : list string)
| EvConflictResolved (project_id file_id resolution : string)
| EvNetworkStatusUpdated (active_connections total_bandwidth_bps used_bandwidth_bps avg_latency_ms : N)
| EvPeerStreamReceived (peer_id : string) (magic payload : bytes).

Global Instance IpcEvent_eq_dec : EqDecision IpcEvent.
Proof. solve_decision. Defined.

Definition filter_event_one (f : EventFilter) (category : EventCategory) (project_id : option string) : bool :=
  match f with
  | FilterAll => true
  | FilterProject target => match project_id with Some p => bool_decide (p = target) | None => true end
  | FilterCategory target => bool_decide (target = category)
  end.

Definition filter_events (filters : list EventFilter) (category : EventCategory) (project_id : option string)
    (event : IpcEvent) : option IpcEvent :=
  if existsb (λ f, filter_event_one f category project_id) filters then Some event else None.

(** ** Responses *)
Record HookInfoDto := mk_HookInfoDto {
  hi_source : string; hi_event : string; hi_command : string; hi_match : list string; hi_timeout_sec : N;
  hi_disabled_by_opt_in : bool;
}.
Record HookRunResultDto := mk_HookRunResultDto {
  hr_source : string; hr_command : string; hr_status : string; hr_exit_code : option Z; hr_detail : option string;
}.
Record CheckoutReportDto := mk_CheckoutReportDto {
  cr_requested : list (string * N); cr_up_to_date : nat; cr_extra : list string;
}.
Record HistoryVersionDto := mk_HistoryVersionDto {
  hv_rel_path : string; hv_version : N; hv_hash : string; hv_size : N; hv_crc : N; hv_stored_at : N;
  hv_publisher : string; hv_source : string;
}.
Record HistoryGcReportDto := mk_HistoryGcReportDto {
  hg_removed_versions : list (string * N); hg_removed_objects : nat; hg_bytes_freed : N;
}.
Record HistoryRotationReportDto := mk_HistoryRotationReportDto {
  hx_offloaded : list (string * N); hx_bytes_offloaded : N; hx_candidates : list (string * N);
  hx_skipped : list (string * N * string);
}.
Record HistoryOffloadedDto := mk_HistoryOffloadedDto {
  ho_rel_path : string; ho_version : N; ho_size : N; ho_backend : string; ho_key : string;
}.
Record TagDto := mk_TagDto { td_name : string; td_created_at : N; td_pins : list (string * N) }.
Record TagSummaryDto := mk_TagSummaryDto { ts_name : string; ts_created_at : N; ts_pin_count : nat }.
Record ConflictInfoDto := mk_ConflictInfoDto {
  ci_file_id : string; ci_file_path : string; ci_project_id : string; ci_local_version : N; ci_local_author : string;
  ci_remote_version : N; ci_remote_author : string; ci_detected_at : N; ci_state : string;
}.
Record DaemonStatus := mk_DaemonStatus {
  ds_pid : N; ds_started_at : N; ds_project_count : nat; ds_active_connections : nat; ds_active_transfers : nat;
}.
Record ProjectInfo := mk_ProjectInfo {
  pi_project_id : string; pi_display_name : string; pi_root_path : string; pi_peer_count : nat;
  pi_active_transfers : nat;
}.
Record ProjectDetail := mk_ProjectDetail {
  pd_project_id : string; pd_display_name : string; pd_description : string; pd_root_path : string;
  pd_sync_mode : string; pd_max_peers : N; pd_peer_count : nat; pd_active_transfers : nat; pd_created_at : N;
  pd_connected_peer_ids : list string;
}.
Record PeerInfo := mk_PeerInfo {
  pe_peer_id : string; pe_display_name : string; pe_route : string; pe_rtt_ms : N; pe_bandwidth_bps : N;
  pe_state : string; pe_synergos_version : string;
}.
Record TransferInfo := mk_TransferInfo {
  ti_transfer_id : string; ti_file_name : string; ti_file_size : N; ti_bytes_transferred : N; ti_speed_bps : N;
  ti_direction : string; ti_peer_id : string; ti_state : string;
}.
Record NetworkStatusInfo := mk_NetworkStatusInfo {
  ns_primary_route : string; ns_total_bandwidth_bps : N; ns_used_bandwidth_bps : N; ns_active_connections : N;
  ns_max_connections : N; ns_avg_latency_ms : N;
}.

Inductive IpcResponse :=
| ROk
| RError (code : N) (message : string)
| RPong
| RStatus (s : DaemonStatus)
| RProjectList (l : list ProjectInfo)
| RProjectDetail (d : ProjectDetail)
| RInviteToken (token : string) (expires_at : option N)
| RPeerList (l : list PeerInfo)
| RTransferList (l : list TransferInfo)
| RNetworkStatus (s : NetworkStatusInfo)
| RConflictList (l : list ConflictInfoDto)
| RCheckoutReport (r : CheckoutReportDto)
| RHistoryList (l : list HistoryVersionDto)
| RHistoryGcReport (r : HistoryGcReportDto)
| RHistoryRotationReport (r : HistoryRotationReportDto)
| RHistoryOffloaded (l : list HistoryOffloadedDto)
| RHooksList (l : list HookInfoDto)
| RHooksRunReport (l : list HookRunResultDto)
| RTag (t : TagDto)
| RTagList (l : list TagSummaryDto)
| RSubscribed (subscription_id : string).

Inductive ServerMessage := SResponse (r : IpcResponse) | SEvent (e : IpcEvent).

Global Instance HookInfoDto_eq_dec : EqDecision HookInfoDto.
Proof. solve_decision. Defined.
Global Instance HookRunResultDto_eq_dec : EqDecision HookRunResultDto.
Proof. solve_decision. Defined.
Global Instance CheckoutReportDto_eq_dec : EqDecision CheckoutReportDto.
Proof. solve_decision. Defined.
Global Instance HistoryVersionDto_eq_dec : EqDecision HistoryVersionDto.
Proof. solve_decision. Defined.
Global Instance HistoryGcReportDto_eq_dec : EqDecision HistoryGcReportDto.
Proof. solve_decision. Defined.
Global Instance HistoryRotationReportDto_eq_dec : EqDecision HistoryRotationReportDto.
Proof. solve_decision. Defined.
Global Instance HistoryOffloadedDto_eq_dec : EqDecision HistoryOffloadedDto.
Proof. solve_decision. Defined.
Global Instance TagDto_eq_dec : EqDecision TagDto.
Proof. solve_decision. Defined.
Global Instance TagSummaryDto_eq_dec : EqDecision TagSummaryDto.
Proof. solve_decision. Defined.
Global Instance ConflictInfoDto_eq_dec : EqDecision ConflictInfoDto.
Proof. solve_decision. Defined.
Global Instance DaemonStatus_eq_dec : EqDecision DaemonStatus.
Proof. solve_decision. Defined.
Global Instance ProjectInfo_eq_dec : EqDecision ProjectInfo.
Proof. solve_decision. Defined.
Global Instance ProjectDetail_eq_dec : EqDecision ProjectDetail.
Proof. solve_decision. Defined.
Global Instance PeerInfo_eq_dec : EqDecision PeerInfo.
Proof. solve_decision. Defined.
Global Instance TransferInfo_eq_dec : EqDecision TransferInfo.
Proof. solve_decision. Defined.
Global Instance NetworkStatusInfo_eq_dec : EqDecision NetworkStatusInfo.
Proof. solve_decision. Defined.
Global Instance IpcResponse_eq_dec : EqDecision IpcResponse.
Proof. solve_decision. Defined.
Global Instance ServerMessage_eq_dec : EqDecision ServerMessage.
Proof. solve_decision. Defined.

(** ** Frames *)
Inductive IpcError :=
| IpcIo
| IpcSerialize
| IpcDeserialize
| ConnectionClosed
| MessageTooLarge (size max : N)
| DaemonNotRunning.

Definition MAX_MESSAGE_SIZE : N := 1024 * 1024.
Definition READ_CHUNK : nat := 64 * 1024.
Global Opaque READ_CHUNK.

(** The bytes written; [payload.len() as u32] wraps. *)
Definition write_message {A} `{Codec A} (message : A) : result IpcError bytes :=
  match to_vec message with
  | None => Err IpcSerialize
  | Some payload =>
      let len := (N.of_nat (length payload) mod 4294967296)%N in
      if (MAX_MESSAGE_SIZE <? len)%N then Err (MessageTooLarge len MAX_MESSAGE_SIZE)
      else Ok (le_bytes 4 len ++ payload)
  end.

(** The loop of [read_message].  A call of [read] gives between one byte and [want] bytes, as
    the list [ks] says, and none at the end of the stream. *)
Fixpoint read_loop (fuel chunk remaining : nat) (ks : list nat) (payload s : bytes) :
    result IpcError (bytes * bytes) :=
  if bool_decide (remaining = 0) then Ok (payload, s)
  else
    match fuel with
    | O => Err IpcIo
    | S fuel =>
        let want := chunk `min` remaining in
        let n := want `min` S (default want (list.head ks)) in
        let got := take n s in
        if bool_decide (got = []) then Err ConnectionClosed
        else read_loop fuel chunk (remaining - length got) (tail ks) (payload ++ got) (drop n s)
    end.

Definition read_message {A} `{Codec A} (ks : list nat) (s : bytes) : result IpcError (A * bytes) :=
  if bool_decide (length s < 4) then Err ConnectionClosed
  else
    let len := of_le_bytes (take 4 s) in
    if (MAX_MESSAGE_SIZE <? len)%N then Err (MessageTooLarge len MAX_MESSAGE_SIZE)
    else
      let target := N.to_nat len in
      '(payload, s) ← read_loop target (READ_CHUNK `min` (target `max` 1)) target ks [] (drop 4 s);
      match from_slice payload with
      | Some m => Ok (m, s)
      | None => Err IpcDeserialize
      end.

(** [socket_path] on Linux; the environment is an argument. *)
Definition default_socket_path (xdg_runtime_dir : option string) : string :=
  default "/tmp" xdg_runtime_dir +:+ "/synergos/synergos.sock".
Definition socket_path (ipc_path xdg_runtime_dir : option string) : string :=
  match ipc_path with
  | Some p => if is_blank_text p then default_socket_path xdg_runtime_dir else p
  | None => default_socket_path xdg_runtime_dir
  end.

(** ** The client *)

(** A [send] is known by its number.  [pending] holds those whose answer is awaited, [wire] the
    bytes written, [answered] which answer each got. *)
Record IpcClient := mk_IpcClient {
  pending : list nat;
  next_send : nat;
  (** The sends that gave up: the receiving end of their channel is dropped. *)
  gone : gset nat;
  wire : bytes;
  answered : list (nat * IpcResponse);
  client_events : list IpcEvent;
  open : bool;
}.

Definition connected_client : IpcClient := mk_IpcClient [] 0 ∅ [] [] [] true.

(** [send] up to the point where it waits for the answer. *)
Definition client_send `{Codec IpcCommand} (command : IpcCommand) (c : IpcClient) : IpcClient * result IpcError nat :=
  let i := next_send c in
  let queued := pending c ++ [i] in
  match write_message command with
  | Ok b => (mk_IpcClient queued (S i) (gone c) (wire c ++ b) (answered c) (client_events c) (open c), Ok i)
  | Err e => (mk_IpcClient queued (S i) ({[i]} ∪ gone c) (wire c) (answered c) (client_events c) (open c), Err e)
  end.

(** One round of [reader_task]. *)
Definition on_message (m : ServerMessage) (c : IpcClient) : IpcClient :=
  match m with
  | SResponse r =>
      match pending c with
      | [] => c
      | i :: rest =>
          mk_IpcClient rest (next_send c) (gone c) (wire c)
            (if bool_decide (i ∈ gone c) then answered c else answered c ++ [(i, r)]) (client_events c) (open c)
      end
  | SEvent e => mk_IpcClient (pending c) (next_send c) (gone c) (wire c) (answered c) (client_events c ++ [e]) (open c)
  end.

(** The end of [reader_task]: what still waits fails with [ConnectionClosed]. *)
Definition on_closed (c : IpcClient) : IpcClient :=
  mk_IpcClient [] (next_send c) (gone c) (wire c) (answered c) (client_events c) false.

Fixpoint reader_task `{Codec ServerMessage} (fuel : nat) (ks : list nat) (s : bytes) (c : IpcClient) : IpcClient :=
  match fuel with
  | O => c
  | S fuel =>
      match read_message ks s with
      | Ok (m, s') => reader_task fuel ks s' (on_message m c)
      | Err _ => on_closed c
      end
  end.

(** ** Frames, read back *)

(** What a frame is, without the chunks. *)
Definition read_frame_spec {A} `{Codec A} (s : bytes) : result IpcError (A * bytes) :=
  if bool_decide (length s < 4) then Err ConnectionClosed
  else
    let len := of_le_bytes (take 4 s) in
    if (MAX_MESSAGE_SIZE <? len)%N then Err (MessageTooLarge len MAX_MESSAGE_SIZE)
    else
      let body := drop 4 s in
      if bool_decide (length body < N.to_nat len) then Err ConnectionClosed
      else
        match from_slice (take (N.to_nat len) body) with
        | Some m => Ok (m, drop (N.to_nat len) body)
        | None => Err IpcDeserialize
        end.

Lemma read_loop_spec fuel chunk remaining ks payload s :
  0 < chunk → remaining ≤ fuel →
  read_loop fuel chunk remaining ks payload s =
    if bool_decide (length s < remaining) then Err ConnectionClosed
    else Ok (payload ++ take remaining s, drop remaining s).
Proof.
  intros Hc. revert remaining ks payload s. induction fuel as [|fuel IH]; intros remaining ks payload s Hf; cbn [read_loop].
  - replace remaining with 0 by lia. rw bool_decide_true; [done|]. rw bool_decide_false; [lia|]. by rw take_0 app_nil_r.
  - case_bool_decide as Hr.
    { subst. rw bool_decide_false; [lia|]. by rw take_0 app_nil_r. }
    set (n := _ `min` S _). assert (0 < n ≤ remaining) by (subst n; lia).
    case_bool_decide as Hg.
    { rw bool_decide_true; [|done]. apply (f_equal length) in Hg. rw length_take /= in Hg. lia. }
    rw IH; [rw length_take; destruct s; [by rw take_nil in Hg|cbn; lia]|].
    rw length_take length_drop. case_bool_decide as H1; case_bool_decide as H2; try lia; [done|].
    f_equal. rw drop_drop -app_assoc. replace (n `min` length s) with n by lia. f_equal; [|f_equal; lia].
    f_equal. rw -{3}(take_drop n s) take_app_ge; rw length_take; [lia|]. f_equal. f_equal. lia.
Qed.

Lemma read_message_eq {A} `{Codec A} ks s : read_message (A:=A) ks s = read_frame_spec s.
Proof.
  unfold read_message, read_frame_spec. case_bool_decide; [done|]. destruct (_ <? _)%N; [done|].
  rw read_loop_spec; [pose proof (Nat.le_max_r (N.to_nat (of_le_bytes (take 4 s))) 1)|done|].
  { with_strategy transparent [READ_CHUNK] unfold READ_CHUNK. lia. }
  by case_bool_decide.
Qed.

(** Reading [n] messages; the calls of [read] may cut them up differently. *)
Fixpoint read_messages {A} `{Codec A} (n : nat) (kss : list (list nat)) (s : bytes) : result IpcError (list A * bytes) :=
  match n with
  | O => Ok ([], s)
  | S n =>
      '(m, s) ← read_message (default [] (list.head kss)) s;
      '(ms, s) ← read_messages n (tail kss) s;
      Ok (m :: ms, s)
  end.

Lemma read_written {A} `{Codec A, !CodecLaws A} (m : A) p b ks rest :
  to_vec m = Some p → (N.of_nat (length p) < 4294967296)%N → write_message m = Ok b →
  read_message ks (b ++ rest) = Ok (m, rest).
Proof.
  intros Hp Hlen. unfold write_message. rw Hp. rw N.mod_small //. destruct (_ <? _)%N eqn:Hmax; [done|]. intros [= <-].
  rw read_message_eq. unfold read_frame_spec. rw -app_assoc.
  assert (H4 : length (le_bytes 4 (N.of_nat (length p))) = 4) by apply length_le_bytes.
  rw bool_decide_false; [rw length_app H4; lia|]. rw take_app_length' // drop_app_length' //.
  rw of_le_bytes_le_bytes. rw N.mod_small //. rw Hmax Nat2N.id. rw bool_decide_false; [rw length_app; lia|].
  by rw take_app_length drop_app_length (from_slice_to_vec m p Hp).
Qed.

(** What [safe_rel_to_local] accepts. *)
Lemma push_segments_ok first segs p :
  Forall (λ s, s ≠ "" ∧ s ≠ "." ∧ s ≠ ".." ∧ contains_char ":" s = false) segs →
  (first = true → head segs ≠ Some META_DIR) → push_segments first segs p = Some (p ++ segs).
Proof.
  intros Hall. revert first p. induction Hall as [|s segs (H1 & H2 & H3 & H4) Hall IH]; intros first p Hhd; cbn [push_segments].
  { by rw app_nil_r. }
  rw (bool_decide_eq_false_2 _ H1) (bool_decide_eq_false_2 _ H2) (bool_decide_eq_false_2 _ H3) H4. cbn [orb].
  assert (first && bool_decide (s = META_DIR) = false) as ->.
  { destruct first; [|done]. cbn. apply bool_decide_eq_false. intros ->. by apply Hhd. }
  rw IH //. by rw -app_assoc.
Qed.

(** The first segment of a path. *)
Lemma split_head seg p :
  contains_char "/" seg = false →
  list.head (split_on "/" p) = Some seg ↔ p = seg ∨ String.prefix (seg +:+ "/") p = true.
Proof.
  revert p. induction seg as [|c seg IH]; intros p; cbn [contains_char].
  - intros _. change ("" +:+ "/") with "/". destruct p as [|d p]; cbn [split_on String.prefix list.head]; [split; [by left|done]|].
    case_bool_decide as E; cbn [list.head].
    + subst d. split; [|done]. intros _. right. destruct (ascii_dec _ _); [by destruct p|done].
    + split; [destruct (split_on _ p); done|]. intros [?|Hp]; [done|]. by destruct (ascii_dec "/" d).
  - intros [Hc Hs]%orb_false_iff. apply bool_decide_eq_false in Hc.
    change (String.String c seg +:+ "/") with (String.String c (seg +:+ "/")).
    destruct p as [|d p]; cbn [split_on String.prefix list.head]; [split; [done|by intros [?|?]]|].
    case_bool_decide as E; cbn [list.head].
    + subst d. split; [done|]. intros [[= <- _]|Hp]; [done|]. by destruct (ascii_dec c _).
    + specialize (IH p Hs). destruct (split_on "/" p) as [|x xs] eqn:Es; cbn [list.head].
      { by apply split_on_nonempty in Es. }
      cbn [list.head] in IH. destruct (ascii_dec c d) as [<-|Hne].
      * split; [intros [= ->]|intros Hp].
        -- destruct (proj1 IH eq_refl) as [->|?]; [by left|by right].
        -- assert (Some x = Some seg) as [= ->] by (apply IH; destruct Hp as [[= ->]|?]; [by left|by right]). done.
      * split; [intros [= <- _]; done|]. intros [[= <- _]|?]; done.
Qed.

(** [check_rel_path] of the protocol accepts what the project manager takes for a path below the root, and nothing
    else, up to blank and overlong texts. *)
Lemma check_rel_path_iff label p :
  check_rel_path label p = Ok () ↔
  is_blank_text p = false ∧ (slen p ≤ MAX_ID_LEN)%N ∧ safe_rel_to_local p = Some (split_on "/" p).
Proof.
  unfold check_rel_path, check_id. destruct (is_blank_text p) eqn:Hb; [by split; [|intros [? _]]|].
  destruct (MAX_ID_LEN <? slen p)%N eqn:Hl; bool_to_prop; [split; [done|]; intros (_ & ? & _); lia|].
  transitivity (safe_rel_to_local p = Some (split_on "/" p)); [|tauto || by split; [intros ?; split_and!|intros (_ & _ & ?)]].
  assert (Hne : p ≠ "") by (by intros ->).
  assert (Hmeta : (bool_decide (p = ".synergos") || String.prefix ".synergos/" p) =
                  bool_decide (list.head (split_on "/" p) = Some META_DIR)).
  { apply eq_bool_prop_intro. rw orb_True !bool_decide_spec. rw (split_head META_DIR) //. by rw Is_true_true. }
  cbn. rewrite <-!orb_assoc, (orb_assoc (bool_decide (p = ".synergos"))), Hmeta.
  unfold safe_rel_to_local. rewrite (bool_decide_eq_false_2 (p = "") Hne). cbn [orb].
  destruct (starts_with_char "/" p), (contains_char "\" p), (has_control (as_bytes p)); cbn;
    try (by split; [|done]); try (case_bool_decide; by split); [rw orb_true_r; by split|].
  split.
  - destruct (bool_decide (list.head _ = _) || existsb _ _) eqn:E; [done|]. intros _. apply orb_false_iff in E as [Hm Hs]. apply bool_decide_eq_false in Hm.
    apply push_segments_ok; [|done]. apply list.Forall_forall. intros seg Hseg.
    assert (unsafe_segment seg = false) as Hu.
    { apply not_true_iff_false. intros Hu. apply not_true_iff_false in Hs. apply Hs, existsb_exists. exists seg.
      by rw -list_elem_of_In. }
    unfold unsafe_segment in Hu. bool_to_prop. done.
  - intros (_ & Hall & Hhd)%push_segments_inv. rw bool_decide_false; [by apply Hhd|]. cbn [orb].
    assert (existsb unsafe_segment (split_on "/" p) = false) as ->; [|done].
    apply not_true_iff_false. intros (seg & Hin & Hu)%existsb_exists. rw -list_elem_of_In in Hin.
    rw Forall_forall in Hall. destruct (Hall seg Hin) as (? & ? & ? & Hc). unfold unsafe_segment in Hu.
    by rw !bool_decide_false // Hc in Hu.
Qed.

(** ** What an accepted command is *)
Definition id_ok (s : string) : Prop := is_blank_text s = false ∧ (slen s ≤ MAX_ID_LEN)%N.
Definition path_ok (p : string) : Prop :=
  p ≠ "" ∧ (slen p ≤ MAX_PATH_LEN)%N ∧ ".." ∉ split_on "/" p ∧ contains_char "000"%char p = false.
Definition rel_ok (p : string) : Prop := id_ok p ∧ safe_rel_to_local p = Some (split_on "/" p).
Definition version_ok (v : N) : Prop := (v ≠ 0 ∧ v ≠ u64_max)%N.

(** The identifiers, paths, relative paths, versions and tag names of a command. *)
Definition ids (c : IpcCommand) : list string :=
  match c with
  | CmdPing | CmdShutdown | CmdStatus | CmdNetworkStatus | CmdProjectList | CmdSubscribe _ | CmdConfigUpdate _ _ _ => []
  | CmdProjectOpen pid _ _ | CmdProjectClose pid | CmdProjectGet pid | CmdProjectCreateInvite pid _ _ | CmdPeerList pid
  | CmdProjectUpdate pid _ _ _ _ | CmdPublishUpdate pid _ | CmdProjectCheckout pid _ | CmdProjectRestore pid _ _
  | CmdHistoryFetch pid _ _ | CmdHistoryList pid _ | CmdHistoryOffloaded pid _ | CmdHistoryGc pid _ _
  | CmdHistoryRotate pid _ _ | CmdHooksList pid | CmdTagLs pid | CmdTagAdd pid _ _ _ | CmdTagShow pid _
  | CmdTagRm pid _ => [pid]
  | CmdProjectJoin token _ => [token]
  | CmdPeerConnect pid peer => [pid; peer]
  | CmdPeerDisconnect peer | CmdPeerSendStream peer _ _ => [peer]
  | CmdPeerAddByUrl pid url => [pid; url]
  | CmdTransferRequest pid fid peer => [pid; fid; peer]
  | CmdTransferList pid | CmdConflictList pid => option_list pid
  | CmdTransferCancel t => [t]
  | CmdHooksRun pid event _ => [pid; event]
  | CmdUnsubscribe s => [s]
  | CmdConflictResolve fid _ => [fid]
  end.

Definition paths (c : IpcCommand) : list string :=
  match c with
  | CmdProjectOpen _ root _ | CmdProjectJoin _ root => [root]
  | CmdPublishUpdate _ l | CmdHistoryGc _ _ l | CmdHistoryRotate _ _ l => l
  | CmdProjectCheckout _ m | CmdTagAdd _ _ m _ => option_list m
  | _ => []
  end.

Definition rels (c : IpcCommand) : list string :=
  match c with
  | CmdProjectRestore _ rel _ | CmdHistoryFetch _ rel _ | CmdHooksRun _ _ rel => [rel]
  | CmdHistoryList _ rel | CmdHistoryOffloaded _ rel => option_list rel
  | CmdTagAdd _ _ _ pins => pins.*1
  | _ => []
  end.

Definition versions (c : IpcCommand) : list N :=
  match c with
  | CmdProjectRestore _ _ v | CmdHistoryFetch _ _ v => [v]
  | CmdTagAdd _ _ _ pins => pins.*2
  | _ => []
  end.

Definition tag_names (c : IpcCommand) : list string :=
  match c with CmdTagAdd _ n _ _ | CmdTagShow _ n | CmdTagRm _ n => [n] | _ => [] end.

(** What a command needs beyond that. *)
Definition extra_ok (c : IpcCommand) : Prop :=
  match c with
  | CmdPeerAddByUrl _ url => String.prefix "http://" url = true ∨ String.prefix "https://" url = true
  | CmdPublishUpdate _ l => 0 < length l ∧ (N.of_nat (length l) ≤ MAX_PATHS_PER_PUBLISH)%N
  | CmdHooksRun _ event _ => event ∈ ["pre-publish"; "post-publish"; "post-receive"]
  | CmdTagAdd _ _ m pins => m = None ∨ pins = []
  | CmdConflictResolve _ r => r ∈ ["keep_local"; "accept_remote"; "manual_merge"]
  | CmdPeerSendStream _ _ payload => (N.of_nat (length payload) ≤ MAX_PAYLOAD)%N
  | _ => True
  end.

Lemma bind_unit_ok (r : V) (k : V) : (_ ← r; k) = Ok () ↔ r = Ok () ∧ k = Ok ().
Proof. destruct r as [[]|e]; cbn; [tauto|]. by split; [|intros [? _]]. Qed.

Lemma if_err_ok (b : bool) e (k : V) : (if b then Err e else k) = Ok () ↔ b = false ∧ k = Ok ().
Proof. destruct b; [by split; [|intros [? _]]|]. tauto. Qed.

Lemma check_id_iff label s : check_id label s = Ok () ↔ id_ok s.
Proof. unfold check_id, id_ok. rw !if_err_ok N.ltb_ge. tauto. Qed.

Lemma check_path_iff label p : check_path label p = Ok () ↔ path_ok p.
Proof.
  unfold check_path, path_ok. rw !if_err_ok bool_decide_eq_false N.ltb_ge.
  assert (existsb (λ c, bool_decide (c = "..")) (split_on "/" p) = false ↔ ".." ∉ split_on "/" p); [|tauto].
  rw -not_true_iff_false existsb_exists list_elem_of_In. apply not_iff_compat. split.
  - by intros (x & ? & ->%bool_decide_eq_true).
  - intros Hin. exists "..". by rewrite bool_decide_true.
Qed.

Lemma check_rel_path_ok label p : check_rel_path label p = Ok () ↔ rel_ok p.
Proof. rewrite check_rel_path_iff. unfold rel_ok, id_ok. tauto. Qed.

Lemma check_tag_name_iff name : check_tag_name name = Ok () ↔ is_valid_tag_name name = true.
Proof.
  unfold check_tag_name, is_valid_tag_name. replace (slen name <=? 64)%N with (String.length name <=? 64)%nat; [by case_match|].
  apply eq_bool_prop_intro. rw !Is_true_true Nat.leb_le N.leb_le. unfold slen. lia.
Qed.

Lemma check_version_iff label v : check_version label v = Ok () ↔ version_ok v.
Proof. unfold check_version, version_ok. rw if_err_ok orb_false_iff !N.eqb_neq. tauto. Qed.

Lemma check_opt_iff {A} (f : A → V) (P : A → Prop) o : (∀ x, f x = Ok () ↔ P x) → check_opt f o = Ok () ↔ Forall P (option_list o).
Proof. intros Hf. destruct o; cbn; [rw Hf list.Forall_singleton; done|by split]. Qed.

Lemma check_all_iff {A} (f : A → V) (P : A → Prop) l : (∀ x, f x = Ok () ↔ P x) → check_all f l = Ok () ↔ Forall P l.
Proof.
  intros Hf. induction l as [|x l IH]; cbn [check_all]; [by split|]. rw bind_unit_ok IH Hf Forall_cons. done.
Qed.

Lemma check_pins_iff l :
  check_all (λ '(rel, v), _ ← check_rel_path "pins[*].0" rel; check_version "pins[*].1" v) l = Ok () ↔
  Forall rel_ok l.*1 ∧ Forall version_ok l.*2.
Proof.
  etrans; [apply (check_all_iff _ (λ x, rel_ok x.1 ∧ version_ok x.2))|]; cycle 1.
  - rewrite !Forall_fmap. unfold compose. by rw -Forall_and.
  - intros [rel v]. rw bind_unit_ok check_rel_path_ok check_version_iff. done.
Qed.

Lemma contains_true {A} `{EqDecision A} (x : A) l : contains x l = true ↔ x ∈ l.
Proof. unfold contains. apply bool_decide_eq_true. Qed.

Lemma exclusive_iff {A B} (o : option A) (l : list B) `{!Decision (l = [])} :
  bool_decide (is_Some o) && negb (bool_decide (l = [])) = false ↔ o = None ∨ l = [].
Proof.
  rw andb_false_iff negb_false_iff bool_decide_eq_false bool_decide_eq_true -eq_None_not_Some. done.
Qed.

(** C15: A command is accepted exactly when its identifiers are neither blank nor overlong, its paths nonempty, bounded and
    without [..], its relative paths what the project manager takes for a path below the root, its versions positive
    ones, its tag names those of the history store, and its own further conditions hold. *)
Theorem validate_exact c :
  validate c = Ok () ↔
  Forall id_ok (ids c) ∧ Forall path_ok (paths c) ∧ Forall rel_ok (rels c) ∧ Forall version_ok (versions c) ∧
  Forall (λ n, is_valid_tag_name n = true) (tag_names c) ∧ extra_ok c.
Proof.
  pose proof check_rel_path_ok as Hrel. pose proof check_pins_iff as Hpins. pose proof (check_id_iff) as Hid.
  pose proof check_path_iff as Hpath.
  destruct c; cbn [validate ids paths rels versions tag_names extra_ok];
    generalize dependent check_rel_path; generalize dependent check_id; generalize dependent check_path;
    intros cp Hpath ci Hid cr Hrel Hpins;
    rw ?bind_unit_ok ?Hid ?Hpath ?Hrel ?check_tag_name_iff ?check_version_iff
      ?(check_opt_iff _ _ _ (Hid _)) ?(check_opt_iff _ _ _ (Hpath _))
      ?(check_opt_iff _ _ _ (Hrel _)) ?(check_all_iff _ _ _ (Hpath _)) ?Hpins
      ?list.Forall_cons ?list.Forall_nil; try tauto;
    rw ?if_err_ok ?(check_all_iff _ _ _ (Hpath _)) ?Hpins ?Hrel ?negb_false_iff
      ?orb_true_iff ?contains_true ?bool_decide_eq_false ?N.ltb_ge; try tauto.
  - assert (file_paths ≠ [] ↔ 0 < length file_paths) as ->; [|tauto].
    destruct file_paths; cbn; split; [done|lia|lia|done].
  - rw (exclusive_iff manifest_path pins). tauto.
  - destruct (contains resolution _) eqn:E; [apply contains_true in E; tauto|].
    split; [by intros [_ ?]|]. intros (_ & _ & _ & _ & _ & Hin%contains_true). congruence.
Qed.

(** Messages written to a socket are read back, in order and one by one, however the reads cut them up; and whatever
    bytes arrive, a message that is read had a frame of at most [MAX_MESSAGE_SIZE] bytes, with the same outcome for
    every way of cutting. *)
Theorem ipc_frames_exact {A} `{Codec A, !CodecLaws A} (ms : list A) ps bs kss rest :
  Forall2 (λ m p, to_vec m = Some p ∧ (N.of_nat (length p) < 4294967296)%N) ms ps →
  Forall2 (λ m b, write_message m = Ok b) ms bs →
  read_messages (length ms) kss (mjoin bs ++ rest) = Ok (ms, rest) ∧
  ∀ ks ks' s, read_message (A:=A) ks s = read_message ks' s ∧ ∀ m s', read_message ks s = Ok (m, s') →
    ∃ len payload, s = take 4 s ++ payload ++ s' ∧ length payload = len ∧ (N.of_nat len ≤ MAX_MESSAGE_SIZE)%N ∧
      of_le_bytes (take 4 s) = N.of_nat len ∧ from_slice payload = Some m.
Proof.
  intros Hps Hbs. split.
  - revert ps kss Hps. induction Hbs as [|m b ms bs Hb Hbs IH]; intros ps kss Hps; [done|].
    inversion Hps as [|? p ? ps' [Hp Hlen] Hps']; subst. cbn [read_messages length mjoin]. cbn. rw -app_assoc.
    rw (read_written m p b _ _ Hp Hlen Hb). cbn. by rw (IH _ _ Hps').
  - intros ks ks' s. rw !read_message_eq. split; [done|]. intros m s'. unfold read_frame_spec.
    case_bool_decide as H4; [done|]. destruct (_ <? _)%N eqn:Hmax; [done|]. bool_to_prop. cbv zeta.
    case_bool_decide as Hl; [done|]. destruct (from_slice _) eqn:Hd; [|done]. intros [= <- <-].
    eexists _, _. split; [|split; [reflexivity|split; [|split; [|exact Hd]]]].
    + by rw !take_drop.
    + rw length_take. lia.
    + rw length_take. lia.
Qed.

(** *** Answers and commands *)
Inductive client_op := OpSend (c : IpcCommand) | OpReceive (m : ServerMessage).

Section client.
Context `{Codec IpcCommand}.

Definition client_step (c : IpcClient) (o : client_op) : IpcClient :=
  match o with OpSend cmd => (client_send cmd c).1 | OpReceive m => on_message m c end.
Definition client_run (ops : list client_op) (c : IpcClient) : IpcClient := foldl client_step c ops.

Definition sends (ops : list client_op) : list IpcCommand := omap (λ o, match o with OpSend c => Some c | _ => None end) ops.
Definition responses (ops : list client_op) : list IpcResponse :=
  omap (λ o, match o with OpReceive (SResponse r) => Some r | _ => None end) ops.

Lemma sends_app l l' : sends (l ++ l') = sends l ++ sends l'.
Proof. apply omap_app. Qed.
Lemma responses_app l l' : responses (l ++ l') = responses l ++ responses l'.
Proof. apply omap_app. Qed.

(** The server answers the commands it reads with [f], one by one and in order. *)
Definition answers_in_order (f : IpcCommand → IpcResponse) (ops : list client_op) : Prop :=
  ∀ k, responses (take k ops) `prefix_of` (f <$> sends (take k ops)).

Record client_ok (ops : list client_op) (c : IpcClient) : Prop := {
  ck_next : next_send c = length (sends ops);
  ck_gone : gone c = ∅;
  ck_pending : pending c = seq (length (responses ops)) (length (sends ops) - length (responses ops));
  ck_answered : answered c = zip (seq 0 (length (responses ops))) (responses ops);
}.

Lemma answers_prefix f ops o : answers_in_order f (ops ++ [o]) → answers_in_order f ops.
Proof.
  intros Ha k. destruct (decide (k ≤ length ops)) as [Hk|Hk].
  - specialize (Ha k). by rw take_app_le // in Ha.
  - specialize (Ha (length ops)). rw take_app_length in Ha. rw take_ge; [lia|done].
Qed.

Lemma client_ok_send ops c cmd b :
  client_ok ops c → length (responses ops) ≤ length (sends ops) → write_message cmd = Ok b →
  client_ok (ops ++ [OpSend cmd]) (client_send cmd c).1.
Proof.
  intros [En Eg Ep Ea] Hle Hw. unfold client_send. rw Hw.
  split; rw ?sends_app ?responses_app; cbn [sends responses omap list_omap fst next_send gone pending answered];
    rw ?app_nil_r ?length_app /=; [lia|done| |done].
  rw Ep En. replace (length (sends ops) + 1 - length (responses ops)) with (S (length (sends ops) - length (responses ops))) by lia.
  rw seq_S. f_equal. f_equal. lia.
Qed.

Lemma client_ok_event ops c e : client_ok ops c → client_ok (ops ++ [OpReceive (SEvent e)]) (on_message (SEvent e) c).
Proof. intros [En Eg Ep Ea]. split; rw ?sends_app ?responses_app; cbn [sends responses omap list_omap]; by rw ?app_nil_r. Qed.

Lemma client_ok_response ops c r :
  client_ok ops c → length (responses ops) < length (sends ops) →
  client_ok (ops ++ [OpReceive (SResponse r)]) (on_message (SResponse r) c).
Proof.
  intros [En Eg Ep Ea] Hlt. cbn [on_message]. rw Ep.
  destruct (length (sends ops) - length (responses ops)) as [|n] eqn:E; [lia|]. cbn [seq].
  rw bool_decide_false; [rw Eg; set_solver|].
  split; rw ?sends_app ?responses_app; cbn [sends responses omap list_omap next_send gone pending answered];
    rw ?app_nil_r ?length_app /=; [done|done| |].
  - replace (length (sends ops) - (length (responses ops) + 1)) with n by lia. by rw Nat.add_1_r.
  - rw Ea Nat.add_1_r seq_S zip_with_app; [by rw length_seq|done].
Qed.

(** As long as every command can be written, each answer reaches the command it answers: when the server answers the
    commands it reads one by one, the answers that arrived went to the first commands in order, each to its own, and the
    others are still waiting. *)
Theorem answers_reach_their_commands f ops :
  Forall (λ c, is_ok (write_message c) = true) (sends ops) → answers_in_order f ops →
  let c := client_run ops connected_client in
  (∀ i r, (i, r) ∈ answered c → ∃ cmd, sends ops !! i = Some cmd ∧ r = f cmd) ∧
  (answered c).*1 ++ pending c = seq 0 (length (sends ops)).
Proof.
  intros Hw Ha. assert (Hok : client_ok ops (client_run ops connected_client)).
  { induction ops as [|o ops IH] using rev_ind; [done|]. rw sends_app in Hw.
    apply Forall_app in Hw as [Hw Ho]. specialize (IH Hw (answers_prefix _ _ _ Ha)).
    pose proof (answers_prefix _ _ _ Ha (length ops)) as Hle%prefix_length. rw take_ge // length_fmap in Hle.
    unfold client_run in *. rw foldl_app. cbn [foldl client_step]. destruct o as [cmd|[r|e]]; cbn [client_step].
    - inversion Ho as [|? ? Hc _]; subst. destruct (write_message cmd) eqn:E; [|done]. by eapply client_ok_send.
    - apply client_ok_response; [done|]. specialize (Ha (length (ops ++ [OpReceive (SResponse r)]))).
      apply prefix_length in Ha. rw take_ge // length_fmap in Ha.
      rw sends_app responses_app !length_app /= in Ha. lia.
    - by apply client_ok_event. }
  specialize (Ha (length ops)). rw take_ge // in Ha. pose proof (prefix_length _ _ Ha) as Hle. rw length_fmap in Hle.
  destruct Hok as [_ _ Ep Ean]. cbv zeta. rw Ean Ep. split.
  - intros i r (k & Hk)%list_elem_of_lookup. apply lookup_zip_with_Some in Hk as (? & ? & [= <- <-] & Hi & Hr).
    apply lookup_seq in Hi as [-> Hi]. apply (prefix_lookup_Some _ _ _ _ Hr) in Ha.
    rw list_lookup_fmap in Ha. destruct (sends ops !! k) as [cmd|] eqn:E; [|done]. injection Ha as <-. by exists cmd.
  - rw fst_zip; [by rw length_seq|]. rw -seq_app. f_equal. lia.
Qed.

(** A command that cannot be written stays in the queue of those that wait for an answer: the answer to the next
    command is taken for its own and is lost, and the next command waits on. *)
Theorem failed_send_loses_next_answer big cmd e b r c :
  pending c = [] → write_message big = Err e → write_message cmd = Ok b →
  let c' := client_run [OpSend big; OpSend cmd; OpReceive (SResponse r)] c in
  answered c' = answered c ∧ wire c' = wire c ++ b ∧ pending c' = [S (next_send c)].
Proof.
  intros Hp Hbig Hcmd. unfold client_run. cbn [foldl client_step]. unfold client_send. rw Hbig Hcmd. cbn. rw Hp. cbn.
  rw bool_decide_true; [set_solver|done].
Qed.
End client.

Module IpcWitness.
#[export] Instance answer_codec : Codec bool := {|
  to_vec := λ b : bool, Some (if b then [x01] else [x02; x03]);
  from_slice := λ l : bytes, match l with [x01] => Some true | [x02; x03] => Some false | _ => None end;
|}.
#[export] Instance answer_codec_laws : CodecLaws bool.
Proof. by intros [] b [= <-]. Qed.

(** A command with a payload of one MiB does not fit into a frame. *)
#[export] Instance command_codec : Codec IpcCommand := {|
  to_vec := λ c, match c with
              | CmdPeerSendStream _ magic payload => Some (magic ++ payload)
              | CmdPing => Some [x01]
              | CmdStatus => Some [x02]
              | _ => None
              end;
  from_slice := λ _, None;
|}.
Definition big : IpcCommand :=
  CmdPeerSendStream "peer" (as_bytes "SUM1") (replicate (N.to_nat MAX_PAYLOAD) x00).

Lemma big_accepted : validate big = Ok ().
Proof.
  unfold big, validate. rw length_replicate N2Nat.id. vm_compute. reflexivity.
Qed.
Lemma big_fails : write_message big = Err (MessageTooLarge (MAX_PAYLOAD + 4) MAX_MESSAGE_SIZE).
Proof.
  unfold write_message, big. cbn [to_vec command_codec]. rw length_app length_replicate Nat2N.inj_add N2Nat.id. reflexivity.
Qed.

Definition f (c : IpcCommand) : IpcResponse := match c with CmdPing => RPong | _ => ROk end.
Definition trace : list client_op :=
  [OpSend CmdPing; OpSend CmdStatus; OpReceive (SResponse RPong); OpReceive (SEvent (EvPeerDisconnected "p" "q" "r"));
   OpReceive (SResponse ROk)].
Lemma trace_in_order : answers_in_order f trace.
Proof.
  intros k. do 6 (destruct k as [|k]; [by eexists|]). by eexists.
Qed.
End IpcWitness.
Import (hints) IpcWitness.

Lemma ipc_frames_exact_witness :
  read_messages 2 [[0]; [0; 0]] ([x01; x00; x00; x00; x01; x02; x00; x00; x00; x02; x03] ++ [x09]) = Ok ([true; false], [x09]).
Proof.
  refine (proj1 (ipc_frames_exact [true; false] [[x01]; [x02; x03]] [[x01; x00; x00; x00; x01]; [x02; x00; x00; x00; x02; x03]]
    [[0]; [0; 0]] [x09] _ _)); repeat constructor.
Defined.

Lemma answers_reach_their_commands_witness :
  answered (client_run IpcWitness.trace connected_client) = [(0, RPong); (1, ROk)] ∧
  (answered (client_run IpcWitness.trace connected_client)).*1 ++ pending (client_run IpcWitness.trace connected_client) =
    [0; 1].
Proof.
  split; [reflexivity|].
  refine (proj2 (answers_reach_their_commands IpcWitness.f IpcWitness.trace _ IpcWitness.trace_in_order)).
  repeat constructor.
Defined.

(** The payload is within the limit of [validate]. *)
Lemma failed_send_loses_next_answer_witness :
  validate IpcWitness.big = Ok () ∧
  pending (client_run [OpSend IpcWitness.big; OpSend CmdPing; OpReceive (SResponse RPong)] connected_client) = [1].
Proof.
  split; [exact IpcWitness.big_accepted|].
  refine (proj2 (proj2 (failed_send_loses_next_answer IpcWitness.big CmdPing _ _ RPong connected_client eq_refl
    IpcWitness.big_fails _))). vm_compute. reflexivity.
Defined.
