(* ===== verification/Invite.v ===== *)
(** * Invitations and the way to a peer

    [synergos-core/src/invite_token.rs], [peer_bootstrap.rs], [peer_join.rs] and the helpers of
    [peer_link.rs]: tokens signed by the inviting node, the validation of its address, and the
    bootstrap that leads to a connection with exactly that node.

    Base64, JSON, URLs, HTTP, name resolution and QUIC are parameters; what the code asks of the
    network is recorded in order. *)

From Stdlib Require Import Strings.Ascii.
From S2P Require Import Prelude Crypto Types Identity Manifest Glob Routing Dht Gossip Presence.

(** ** Tokens *)

(** [URL_SAFE_NO_PAD] of the base64 crate. *)
Class Base64 := {
  b64_encode : bytes → string;
  b64_decode : string → option bytes;
}.
Class Base64Laws `{Base64} : Prop := {
  b64_inverse : ∀ m, b64_decode (b64_encode m) = Some m;
  b64_alphabet : ∀ m, contains_char "." (b64_encode m) = false;
}.

Definition PREFIX : string := "syn1".
Definition MAX_TOKEN_LEN : N := 16 * 1024.
Definition MAX_PROJECT_ID_LEN : N := 256.
Definition MAX_DISPLAY_NAME_LEN : N := 256.
Definition MAX_PEER_INFO_URL_LEN : N := 2048.

Record InvitePayload := mk_InvitePayload {
  ip_project_id : string;
  ip_display_name : option string;
  host_peer_id : string;
  host_pubkey : string;
  peer_info_url : string;
  ip_expires_at : option N;
  ip_nonce : string;
}.

(** [Malformed] without its text. *)
Inductive InviteTokenError := NotSelfContained | Malformed | BadSignature | HostMismatch | InviteExpired.

Definition string_len (s : string) : N := N.of_nat (String.length s).
Definition has_control_char (s : string) : bool := has_control (as_bytes s).

(** [token.splitn(3, '.')]: the first three parts, the last one being the rest. *)
Definition splitn3 (s : string) : list string :=
  match split_on "." s with
  | a :: b :: rest => if bool_decide (rest = []) then [a; b] else [a; b; String.concat "." rest]
  | l => l
  end.

Section tokens.
Context `{Blake3, Hex, Ed25519, Base64, !Codec InvitePayload}.

(** [None] is the panic of [expect]. *)
Definition encode (i : Identity) (p : InvitePayload) : option string :=
  json ← to_vec p;
  Some (PREFIX +:+ "." +:+ b64_encode json +:+ "." +:+ b64_encode (sign i json)).

Definition is_self_contained (token : string) : bool := String.prefix (PREFIX +:+ ".") token.

Definition valid_project_id (s : string) : bool :=
  negb (bool_decide (s = "")) && (string_len s <=? MAX_PROJECT_ID_LEN)%N && negb (has_control_char s) &&
  negb (contains_char "/" s) && negb (contains_char "\" s).
Definition valid_url_len (s : string) : bool :=
  negb (bool_decide (s = "")) && (string_len s <=? MAX_PEER_INFO_URL_LEN)%N.
Definition valid_display_name (o : option string) : bool :=
  match o with
  | Some name => (string_len name <=? MAX_DISPLAY_NAME_LEN)%N && negb (has_control_char name)
  | None => true
  end.

(** The payload with the bytes that were signed. *)
Definition check_payload (p : InvitePayload) (json sig : bytes) (now : N) : result InviteTokenError InvitePayload :=
  if negb (valid_project_id (ip_project_id p)) then Err Malformed
  else if negb (valid_url_len (peer_info_url p)) then Err Malformed
  else if negb (valid_display_name (ip_display_name p)) then Err Malformed
  else
    match b64_decode (host_pubkey p) with
    | None => Err Malformed
    | Some pk =>
        if negb (bool_decide (length pk = 32)) then Err Malformed
        else if negb (is_ok (verify pk json sig)) then Err BadSignature
        else if negb (bool_decide (peer_id_from_public_bytes pk = host_peer_id p)) then Err HostMismatch
        else match ip_expires_at p with
             | Some e => if (e <? now)%N then Err InviteExpired else Ok p
             | None => Ok p
             end
    end.

Definition decode (token : string) (now : N) : result InviteTokenError InvitePayload :=
  if negb (is_self_contained token) then Err NotSelfContained
  else if (MAX_TOKEN_LEN <? string_len token)%N then Err Malformed
  else
    match splitn3 token with
    | [_; payload_b64; sig_b64] =>
        match b64_decode payload_b64, b64_decode sig_b64 with
        | Some json, Some sig =>
            if negb (bool_decide (length sig = 64)) then Err Malformed
            else match from_slice json with
                 | None => Err Malformed
                 | Some p => check_payload p json sig now
                 end
        | _, _ => Err Malformed
        end
    | _ => Err Malformed
    end.

Definition issue (i : Identity) (project_id : string) (display_name : option string) (url : string)
    (expires_at : option N) (uuid : string) : option (string * InvitePayload) :=
  let p := mk_InvitePayload project_id display_name (Identity.peer_id i) (b64_encode (public_key_bytes i)) url expires_at uuid in
  token ← encode i p; Some (token, p).
End tokens.

(** ** Bootstrap *)

(** [SocketAddr]: the octets of the address and the port. *)
Record SocketAddr := mk_SocketAddr { ip_octets : bytes; sa_port : N }.
Global Instance SocketAddr_eq_dec : EqDecision SocketAddr.
Proof. solve_decision. Defined.
Definition is_ipv6 (a : SocketAddr) : bool := bool_decide (length (ip_octets a) = 16).
Definition is_unspecified (a : SocketAddr) : bool := forallb (λ b, bool_decide (b = x00)) (ip_octets a).

(** The parts of a [reqwest::Url] the code looks at. *)
Record Url := mk_Url {
  scheme : string;
  host_str : option string;
  username : string;
  password : option string;
  url_path : string;
  query : option string;
  fragment : option string;
}.

Inductive BootstrapError :=
| InvalidUrl
| Http
| InvalidResponse
| IncompatibleProtocol (got expected : N)
| UnexpectedPeer (actual expected : PeerId)
| DnsFailure (host : string)
| QuicConnect.

Inductive JoinError := BootstrapFailed (e : BootstrapError) | RegisterFailed (e : NodeRegistryError).

Record RemotePeerInfo := mk_RemotePeerInfo {
  ri_peer_id : string;
  quic_endpoint : option string;
  protocol_version : N;
  ri_synergos_version : string;
}.
Record BootstrapResult := mk_BootstrapResult { br_peer_id : PeerId; br_synergos_version : string }.

Definition PEER_INFO_PROTOCOL_VERSION : N := 2.
Definition MAX_PEER_INFO_RESPONSE_BYTES : N := 64 * 1024.

(** What the code asks of the network. *)
Inductive NetAction :=
| DidGet (u : Url)
| DidLookup (host : string) (port : N)
| DidConnect (peer : PeerId) (addr : SocketAddr).

(** The answers of the network, and the parsers. *)
Class Network := {
  url_parse : string → option Url;
  addr_parse : string → option SocketAddr;
  parse_peer_info : bytes → option RemotePeerInfo;
  (** Whether the status was a success, with the chunks of the body; [None] for an error. *)
  http_get : Url → option (bool * list (option bytes));
  lookup_host : string → N → option (list SocketAddr);
  quic_connect : PeerId → SocketAddr → bool;
}.

(** A computation with the actions so far. *)
Abbreviation Net A := (list NetAction → result BootstrapError A * list NetAction).

(** [str::ends_with] and [trim_end_matches('/')]. *)
Definition ends_with_slash (s : string) : bool := bool_decide (last (as_bytes s) = Some x2f).
Fixpoint trim_end_slash_rev (l : bytes) : bytes :=
  match l with x2f :: l' => trim_end_slash_rev l' | _ => l end.
Definition trim_end_slash (s : string) : string := String.string_of_list_byte (reverse (trim_end_slash_rev (reverse (as_bytes s)))).

Definition build_peer_info_url (u : Url) : Url :=
  let p := url_path u in
  let new_path :=
    if bool_decide (p = "") || bool_decide (p = "/") then "/peer-info"
    else if ends_with_slash p then p +:+ "peer-info"
    else trim_end_slash p +:+ "/peer-info" in
  mk_Url (scheme u) (host_str u) (username u) (password u) new_path (query u) (fragment u).

Section bootstrap.
Context `{Network}.

Definition validate_bootstrap_url (base_url : string) : result BootstrapError Url :=
  match url_parse base_url with
  | None => Err InvalidUrl
  | Some u =>
      if negb (bool_decide (scheme u = "http") || bool_decide (scheme u = "https")) then Err InvalidUrl
      else if bool_decide (host_str u = None) then Err InvalidUrl
      else if negb (bool_decide (username u = "")) || bool_decide (is_Some (password u)) then Err InvalidUrl
      else if bool_decide (is_Some (query u)) || bool_decide (is_Some (fragment u)) then Err InvalidUrl
      else Ok u
  end.

(** The body, chunk by chunk, up to the limit. *)
Fixpoint read_body (chunks : list (option bytes)) (body : bytes) : result BootstrapError bytes :=
  match chunks with
  | [] => Ok body
  | None :: _ => Err Http
  | Some c :: rest =>
      if (MAX_PEER_INFO_RESPONSE_BYTES <? len body + len c)%N then Err InvalidResponse
      else read_body rest (body ++ c)
  end.

(** [if cond(a) && !out.contains(a) { out.push(a) }] for each. *)
Definition push_new (P : SocketAddr → bool) (l out : list SocketAddr) : list SocketAddr :=
  foldl (λ out a, if P a && negb (contains a out) then out ++ [a] else out) out l.

Definition candidate_list (advertised : SocketAddr) (dns : list SocketAddr) : list SocketAddr :=
  if negb (is_unspecified advertised) then
    let out := push_new (λ a, negb (Bool.eqb (is_ipv6 a) (is_ipv6 advertised))) dns [advertised] in
    push_new (λ _, true) dns out
  else
    filter (λ a, is_ipv6 a = is_ipv6 advertised) dns ++ filter (λ a, is_ipv6 a ≠ is_ipv6 advertised) dns.

Definition resolve_candidate_addrs (host : string) (advertised : SocketAddr) : Net (list SocketAddr) := λ log,
  let log := log ++ [DidLookup host (sa_port advertised)] in
  match lookup_host host (sa_port advertised) with
  | None =>
      if negb (is_unspecified advertised) then (Ok (candidate_list advertised []), log) else (Err (DnsFailure host), log)
  | Some dns =>
      let out := candidate_list advertised dns in
      if bool_decide (out = []) then (Err (DnsFailure host), log) else (Ok out, log)
  end.

Fixpoint connect_candidates (peer : PeerId) (l : list SocketAddr) (log : list NetAction) : bool * list NetAction :=
  match l with
  | [] => (false, log)
  | a :: l' =>
      let log := log ++ [DidConnect peer a] in
      if quic_connect peer a then (true, log) else connect_candidates peer l' log
  end.

(** [/peer-info] of the host. *)
Definition fetch_peer_info (u : Url) : Net RemotePeerInfo := λ log,
  let info_url := build_peer_info_url u in
  let log := log ++ [DidGet info_url] in
  match http_get info_url with
  | None => (Err Http, log)
  | Some (false, _) => (Err Http, log)
  | Some (true, chunks) =>
      match read_body chunks [] with
      | Err e => (Err e, log)
      | Ok body => (match parse_peer_info body with Some i => Ok i | None => Err InvalidResponse end, log)
      end
  end.

Definition bootstrap_from_url_expected (base_url : string) (expected_peer : option PeerId) : Net BootstrapResult := λ log,
  match validate_bootstrap_url base_url with
  | Err e => (Err e, log)
  | Ok u =>
      match host_str u with
      | None => (Err InvalidUrl, log)
      | Some host =>
          match fetch_peer_info u log with
          | (Err e, log) => (Err e, log)
          | (Ok info, log) =>
              if negb (protocol_version info =? PEER_INFO_PROTOCOL_VERSION)%N then
                (Err (IncompatibleProtocol (protocol_version info) PEER_INFO_PROTOCOL_VERSION), log)
              else
                match e ← quic_endpoint info; addr_parse e with
                | None => (Err InvalidResponse, log)
                | Some advertised =>
                    match resolve_candidate_addrs host advertised log with
                    | (Err e, log) => (Err e, log)
                    | (Ok candidates, log) =>
                        let actual := ri_peer_id info in
                        if negb (bool_decide (default actual expected_peer = actual)) then
                          (Err (UnexpectedPeer actual (default actual expected_peer)), log)
                        else
                          let peer := default actual expected_peer in
                          let '(connected, log) := connect_candidates peer candidates log in
                          (if connected then Ok (mk_BootstrapResult peer (ri_synergos_version info)) else Err QuicConnect,
                           log)
                    end
                end
          end
      end
  end.

(** [peer_join::bootstrap_and_register]. *)
Definition bootstrap_and_register `{Blake3, Hex, Ed25519, HeapPick, !MapIter MessageId N, !MapIter NodeId PeerRecord,
    !MapIter PeerId RegisteredNode, !MapIter PeerId string} (debug_route : option Route → string)
    (now : N) (project_id url : string) (expected_peer : option PeerId) (s : PresenceService) (log : list NetAction) :
    PresenceService * result JoinError BootstrapResult * list NetAction :=
  match bootstrap_from_url_expected url expected_peer log with
  | (Err e, log) => (s, Err (BootstrapFailed e), log)
  | (Ok result, log) =>
      let p := br_peer_id result in
      match register_or_merge debug_route now (mk_NodeRegistration p p [] [project_id] (br_synergos_version result)) s with
      | (s, Err e) => (s, Err (RegisterFailed e), log)
      | (s, Ok _) => (remember_reconnect_url p url s, Ok result, log)
      end
  end.

(** [peer_link::reconnect_candidates] and [reconnect_one]; [connected] says whether the peer has a connection. *)
Definition reconnect_candidates `{!MapIter PeerId string} (connected : PeerId → bool) (s : PresenceService) :
    list (PeerId * string) :=
  filter (λ x, connected x.1 = false) (reconnect_targets s).
Definition reconnect_one (x : PeerId * string) (log : list NetAction) : list NetAction :=
  (bootstrap_from_url_expected x.2 (Some x.1) log).2.
End bootstrap.

(** The address put into a token. *)
Record AdvertiseConfig := mk_AdvertiseConfig {
  peer_info_advertised_url : option string;
  peer_info_listen_addr : option SocketAddr;
}.
Definition trim_text (s : string) : string := String.string_of_list_byte (mjoin (trim (chars (as_bytes s)))).
Definition is_loopback (a : SocketAddr) : bool :=
  match ip_octets a with
  | [x; _; _; _] => bool_decide (x = x7f)
  | l => bool_decide (l = replicate 15 x00 ++ [x01])
  end.

(** [o.filter(|u| !u.trim().is_empty())]. *)
Definition not_blank (o : option string) : option string :=
  u ← o; if is_blank_text u then None else Some u.

Definition resolve_advertised_peer_info_url (show_addr : SocketAddr → string) (explicit : option string)
    (net_config : option AdvertiseConfig) : option string :=
  match not_blank explicit with
  | Some u => Some (trim_text u)
  | None =>
      cfg ← net_config;
      match not_blank (peer_info_advertised_url cfg) with
      | Some u => Some (trim_text u)
      | None =>
          addr ← peer_info_listen_addr cfg;
          if is_unspecified addr || is_loopback addr then None else Some ("http://" +:+ show_addr addr)
      end
  end.

(** ** Reasons given by a remote peer *)
Definition MAX_CLOSE_REASON_CHARS : nat := 256.

Definition hex_digit_char (n : N) : byte := byte_of_N (if (n <? 10)%N then 48 + n else 87 + n)%N.

(** [{:x}] of a code point. *)
Fixpoint hex_digits_of (fuel : nat) (n : N) : bytes :=
  match fuel with
  | O => []
  | S fuel => if (n <? 16)%N then [hex_digit_char n] else hex_digits_of fuel (n / 16) ++ [hex_digit_char (n mod 16)]
  end.

(** The code point of a character of one to four bytes. *)
Definition code_point (c : char) : N :=
  match Byte.to_N <$> c with
  | [a] => a
  | [a; b] => (a mod 32) * 64 + b mod 64
  | [a; b; d] => ((a mod 16) * 64 + b mod 64) * 64 + d mod 64
  | [a; b; d; e] => (((a mod 8) * 64 + b mod 64) * 64 + d mod 64) * 64 + e mod 64
  | _ => 65533
  end%N.

(** [char::escape_default]. *)
Definition escape_default (c : char) : bytes :=
  let n := code_point c in
  if (n =? 9)%N then as_bytes "\t"
  else if (n =? 13)%N then as_bytes "\r"
  else if (n =? 10)%N then as_bytes "\n"
  else if (n =? 39)%N || (n =? 34)%N || (n =? 92)%N then [x5c; byte_of_N n]
  else if (32 <=? n)%N && (n <=? 126)%N then [byte_of_N n]
  else as_bytes "\u{" ++ hex_digits_of 8 n ++ as_bytes "}".

Definition sanitize_close_reason (reason : string) : bytes :=
  take MAX_CLOSE_REASON_CHARS (chars (as_bytes reason)) ≫= escape_default.

(** ** Tokens, read back *)
Lemma prefix_app s t : String.prefix s (s +:+ t) = true.
Proof.
  induction s as [|c s IH]; [by destruct t|]. change (String.String c s +:+ t) with (String.String c (s +:+ t)).
  cbn [String.prefix]. by destruct (ascii_dec c c).
Qed.

Section token_claims.
Context `{Blake3, Hex, Ed25519, Base64, !Codec InvitePayload}.

Lemma splitn3_token `{!Base64Laws} a b :
  splitn3 (PREFIX +:+ "." +:+ b64_encode a +:+ "." +:+ b64_encode b) = [PREFIX; b64_encode a; b64_encode b].
Proof.
  unfold splitn3.
  change (PREFIX +:+ "." +:+ b64_encode a +:+ "." +:+ b64_encode b) with
    (PREFIX +:+ String.String "."%char (b64_encode a +:+ String.String "."%char (b64_encode b))).
  rw split_on_app_sep // split_on_app_sep; [apply b64_alphabet|]. rw split_on_single; [apply b64_alphabet|]. done.
Qed.

(** A token that a node issues is accepted by every node until it expires, with the payload the node put into it. *)
Theorem invite_roundtrip `{!Base64Laws, !Ed25519Laws, !CodecLaws InvitePayload} secret pid name url exp uuid token p now :
  length secret = 32 →
  issue (identity_of_secret secret) pid name url exp uuid = Some (token, p) →
  (string_len token ≤ MAX_TOKEN_LEN)%N → valid_project_id pid = true → valid_url_len url = true →
  valid_display_name name = true → (∀ e, exp = Some e → (now ≤ e)%N) →
  decode token now = Ok p ∧ ip_project_id p = pid ∧ host_peer_id p = Identity.peer_id (identity_of_secret secret).
Proof.
  intros Hsk Hi Hlen Hpid Hurl Hname Hexp. unfold issue, encode in Hi.
  set (pl := mk_InvitePayload _ _ _ _ _ _ _) in Hi. destruct (to_vec pl) as [json|] eqn:Hj; [|done].
  cbn in Hi. injection Hi as <- <-. split; [|done]. unfold decode.
  assert (is_self_contained (PREFIX +:+ "." +:+ b64_encode json +:+ "." +:+ b64_encode (sign (identity_of_secret secret) json)) = true)
    as -> by apply (prefix_app (PREFIX +:+ ".")).
  cbn [negb]. rw (proj2 (N.ltb_ge _ _) Hlen) splitn3_token !b64_inverse.
  rw bool_decide_true; [apply ed_sign_length|]. cbn [negb]. rw (from_slice_to_vec _ _ Hj). unfold check_payload, pl. cbn.
  rw Hpid Hurl Hname. cbn [negb]. rw b64_inverse bool_decide_true; [by apply ed_public_length|]. cbn [negb].
  unfold verify, sign, public_key_bytes, identity_of_secret. cbn. rw ed_verify_sign // bool_decide_true //. cbn.
  destruct exp as [e|]; [|done]. by rw (proj2 (N.ltb_ge _ _) (Hexp e eq_refl)).
Qed.

(** An accepted token is what its host signed: the payload is the meaning of bytes that carry a signature valid under a
    key whose identifier is the host's, its fields are within bounds, and it has not expired. *)
Theorem accepted_invite_is_signed token now p :
  decode token now = Ok p →
  ∃ json sig pk, from_slice json = Some p ∧ b64_decode (host_pubkey p) = Some pk ∧ length pk = 32 ∧ length sig = 64 ∧
    ed_verify pk json sig = true ∧ host_peer_id p = peer_id_from_public_bytes pk ∧
    valid_project_id (ip_project_id p) = true ∧ valid_url_len (peer_info_url p) = true ∧
    valid_display_name (ip_display_name p) = true ∧ (∀ e, ip_expires_at p = Some e → (now ≤ e)%N) ∧
    (string_len token ≤ MAX_TOKEN_LEN)%N.
Proof.
  unfold decode. destruct (is_self_contained token); [|done]. destruct (_ <? _)%N eqn:Hlen; [done|]. cbn [negb].
  destruct (splitn3 token) as [|a [|b [|c [|]]]]; try done.
  destruct (b64_decode b) as [json|]; [|done]. destruct (b64_decode c) as [sig|]; [|done].
  case_bool_decide as Hsig; [|done]. cbn [negb]. destruct (from_slice json) as [q|] eqn:Hq; [|done]. unfold check_payload.
  destruct (valid_project_id _) eqn:Hp; [|done]. destruct (valid_url_len _) eqn:Hu; [|done].
  destruct (valid_display_name _) eqn:Hn; [|done]. cbn [negb]. destruct (b64_decode (host_pubkey q)) as [pk|] eqn:Hpk; [|done].
  case_bool_decide as Hl; [|done]. cbn [negb]. unfold verify. destruct (ed_verify pk json sig) eqn:Hv; [|done]. cbn [is_ok negb].
  case_bool_decide as Hid; [|done]. cbn [negb]. intros Hr.
  assert (q = p ∧ ∀ e, ip_expires_at p = Some e → (now ≤ e)%N) as [-> He].
  { destruct (ip_expires_at q) as [e|] eqn:Ee; [destruct (e <? now)%N eqn:Elt; [done|]|]; injection Hr as <-; split; try done.
    - intros e' [= <-]%(eq_trans (eq_sym Ee)). by apply N.ltb_ge.
    - congruence. }
  exists json, sig, pk. bool_to_prop. by split_and!.
Qed.
End token_claims.

(** ** The way to a peer *)
Section bootstrap_claims.
Context `{Network}.

Lemma connect_candidates_acts peer l log b log' :
  connect_candidates peer l log = (b, log') →
  ∃ tried, log' = log ++ (DidConnect peer <$> tried) ∧ tried `prefix_of` l ∧
    (b = true → ∃ a, last tried = Some a ∧ quic_connect peer a = true).
Proof.
  revert log. induction l as [|a l IH]; intros log; cbn.
  - intros [= <- <-]. exists []. by rw app_nil_r.
  - destruct (quic_connect peer a) eqn:E.
    + intros [= <- <-]. exists [a]. split; [done|]. split; [by apply prefix_cons, prefix_nil|]. eauto.
    + intros (tried & -> & Hp & Hok)%IH. exists (a :: tried). split; [by rw -app_assoc|]. split; [by apply prefix_cons|].
      intros (x & Hx & ?)%Hok. exists x. split; [|done]. rw last_cons Hx. done.
Qed.

(** The actions of a bootstrap, before and from the first connection on. *)
Lemma bootstrap_acts url expected log r log' :
  bootstrap_from_url_expected url expected log = (r, log') →
  ∃ asked peer tried, log' = log ++ asked ++ (DidConnect peer <$> tried) ∧
    (∀ p a, DidConnect p a ∉ asked) ∧ (tried ≠ [] → ∀ e, expected = Some e → peer = e) ∧
    (∀ e, validate_bootstrap_url url = Err e → asked = [] ∧ tried = []) ∧
    (∀ b, r = Ok b → br_peer_id b = peer ∧ (∀ e, expected = Some e → peer = e) ∧
       ∃ a, last tried = Some a ∧ quic_connect peer a = true).
Proof.
  assert (Hstop : ∀ (e : BootstrapError) asked, (∀ p a, DidConnect p a ∉ asked) →
    (∀ e, validate_bootstrap_url url = Err e → asked = []) → (Err e, log ++ asked) = (r, log') →
    ∃ asked peer tried, log' = log ++ asked ++ (DidConnect peer <$> tried) ∧
    (∀ p a, DidConnect p a ∉ asked) ∧ (tried ≠ [] → ∀ e, expected = Some e → peer = e) ∧
    (∀ e, validate_bootstrap_url url = Err e → asked = [] ∧ tried = []) ∧
    (∀ b, r = Ok b → br_peer_id b = peer ∧ (∀ e, expected = Some e → peer = e) ∧
       ∃ a, last tried = Some a ∧ quic_connect peer a = true)).
  { intros e asked Hn Hv [= <- <-]. exists asked, "", []. rw app_nil_r. split_and!; try done. by intros e' ->%Hv. }
  unfold bootstrap_from_url_expected. destruct (validate_bootstrap_url url) as [u|e] eqn:Hval.
  2:{ intros E. apply (Hstop e []); [set_solver|done|]. by rw app_nil_r. }
  destruct (host_str u) as [host|].
  2:{ intros E. apply (Hstop InvalidUrl []); [set_solver|done|]. by rw app_nil_r. }
  unfold fetch_peer_info. set (get := DidGet _).
  assert (Hget : ∀ p a, DidConnect p a ∉ [get]) by (intros p a; subst get; set_solver).
  destruct (http_get _) as [[[] chunks]|]; try (intros E; by eapply Hstop).
  destruct (read_body chunks []) as [body|e]; [|intros E; by eapply Hstop].
  destruct (parse_peer_info body) as [info|]; [|intros E; by eapply Hstop].
  destruct (negb _); [intros E; by eapply Hstop|].
  destruct (quic_endpoint info ≫= _) as [advertised|]; [|intros E; by eapply Hstop].
  unfold resolve_candidate_addrs. set (look := DidLookup _ _).
  assert (Hlook : ∀ p a, DidConnect p a ∉ [get; look]) by (intros p a; subst get look; set_solver).
  rw -app_assoc. cbn [app].
  destruct (match lookup_host _ _ with Some _ => _ | None => _ end) as [c log1] eqn:Hc.
  assert (log1 = log ++ [get; look]) as ->.
  { revert Hc. repeat case_match; by intros [= _ <-]. }
  destruct c as [candidates|e]; [|intros E; by eapply Hstop]. clear Hc.
  case_bool_decide as Hp; cbn [negb]; [|intros E; by eapply Hstop].
  destruct (connect_candidates _ _ _) as [ok log2] eqn:Hcc. apply connect_candidates_acts in Hcc as (tried & -> & _ & Hok).
  intros [= <- <-]. exists [get; look], (default (ri_peer_id info) expected), tried. rw app_assoc.
  assert (∀ e, expected = Some e → default (ri_peer_id info) expected = e) by (by intros ? ->).
  split_and!; try done. intros b. destruct ok; [|done]. intros [= <-]. auto.
Qed.

(** With a peer expected, a bootstrap connects to no other: every connection it tries is one to that peer, and a
    success is a connection with it.  An address that is not acceptable causes no request at all. *)
Theorem bootstrap_reaches_expected_peer url expected log r log' :
  bootstrap_from_url_expected url expected log = (r, log') →
  ∃ acts, log' = log ++ acts ∧
    (∀ p a, DidConnect p a ∈ acts → ∀ e, expected = Some e → p = e) ∧
    (∀ e, validate_bootstrap_url url = Err e → acts = []) ∧
    (∀ b, r = Ok b → (∀ e, expected = Some e → br_peer_id b = e) ∧
       ∃ a, last acts = Some (DidConnect (br_peer_id b) a) ∧ quic_connect (br_peer_id b) a = true).
Proof.
  intros (asked & peer & tried & -> & Hasked & Hpeer & Hval & Hok)%bootstrap_acts.
  exists (asked ++ (DidConnect peer <$> tried)). split; [done|]. split; [|split].
  - intros p a [Hin|Hin]%elem_of_app; [by apply Hasked in Hin|]. apply list_elem_of_fmap in Hin as (x & [= -> ->] & Hx).
    apply Hpeer. intros ->. by apply elem_of_nil in Hx.
  - intros e [-> ->]%Hval. done.
  - intros b (-> & He & a & Ha & Hq)%Hok. split; [done|]. exists a. split; [|done].
    rw last_app fmap_last Ha. done.
Qed.

Lemma push_new_spec P l out :
  NoDup out → NoDup (push_new P l out) ∧ out `prefix_of` push_new P l out ∧
  (∀ a, a ∈ push_new P l out ↔ a ∈ out ∨ a ∈ l ∧ P a = true).
Proof.
  unfold push_new. revert out. induction l as [|x l IH]; intros out Hn; cbn.
  { split_and!; [done|done|]. set_solver. }
  destruct (P x) eqn:Hx; cbn [andb].
  2:{ destruct (IH out Hn) as (H1 & H2 & H3). split_and!; [done|done|]. intros a. rw H3 elem_of_cons.
    split; [intros [?|[? ?]]; auto|]. intros [?|[[->|?] ?]]; [by left|congruence|by right]. }
  unfold contains. case_bool_decide as Hin; cbn [negb].
  - destruct (IH out Hn) as (H1 & H2 & H3). split_and!; [done|done|]. intros a. rw H3 elem_of_cons.
    split; [intros [?|[? ?]]; auto|]. intros [?|[[->|?] ?]]; auto.
  - destruct (IH (out ++ [x])) as (H1 & H2 & H3).
    { apply NoDup_app. split_and!; [done| |apply NoDup_singleton].
      intros a Ha ->%list_elem_of_singleton. done. }
    split_and!; [done| |].
    + etrans; [|exact H2]. by apply prefix_app_r.
    + intros a. rw H3 elem_of_app list_elem_of_singleton elem_of_cons. split; [|intros [?|[[->|?] ?]]; auto].
      intros [[?| ->]|[? ?]]; auto.
Qed.

(** The addresses to try: a specific advertised address comes first, every resolved address is tried, none twice; for
    an unspecified one the resolved addresses are tried, those of its family first. *)
Theorem candidate_addresses_exact advertised dns :
  NoDup dns →
  let out := candidate_list advertised dns in
  NoDup out ∧ (∀ a, a ∈ out ↔ a ∈ dns ∨ is_unspecified advertised = false ∧ a = advertised) ∧
  if is_unspecified advertised then
    ∃ l1 l2, out = l1 ++ l2 ∧ Forall (λ a, is_ipv6 a = is_ipv6 advertised) l1 ∧ Forall (λ a, is_ipv6 a ≠ is_ipv6 advertised) l2
  else head out = Some advertised.
Proof.
  intros Hn. cbv zeta. unfold candidate_list. destruct (is_unspecified advertised); cbn [negb].
  - split; [|split].
    + apply NoDup_app. split_and!; [by apply NoDup_filter| |by apply NoDup_filter].
      intros a [? _]%list_elem_of_filter [? _]%list_elem_of_filter. done.
    + intros a. rw elem_of_app !list_elem_of_filter. destruct (decide (is_ipv6 a = is_ipv6 advertised)); naive_solver.
    + eexists _, _. split; [done|]. split; apply list.Forall_forall; by intros a [? _]%list_elem_of_filter.
  - destruct (push_new_spec (λ a, negb (Bool.eqb (is_ipv6 a) (is_ipv6 advertised))) dns [advertised]) as (H1 & [l1 H2] & H3);
      [apply NoDup_singleton|].
    destruct (push_new_spec (λ _, true) dns _ H1) as (H4 & [l2 H5] & H6). split; [exact H4|]. split.
    + intros a. rw H6 H3 list_elem_of_singleton. naive_solver.
    + rw H5 H2. reflexivity.
Qed.
End bootstrap_claims.

(** *** Reasons *)
Definition printable (b : byte) : Prop := (32 ≤ Byte.to_N b ≤ 126)%N.

Lemma printable_of_N n : (32 ≤ n ≤ 126)%N → printable (byte_of_N n).
Proof. intros Hn. unfold printable. rw byte_of_N_to_N N.mod_small //. lia. Qed.

Lemma hex_digits_ok fuel n : Forall printable (hex_digits_of fuel n) ∧ length (hex_digits_of fuel n) ≤ fuel.
Proof.
  assert (Hd : ∀ n, (n < 16)%N → printable (hex_digit_char n)).
  { intros m Hm. unfold hex_digit_char. apply printable_of_N. destruct (m <? 10)%N eqn:E; bool_to_prop; lia. }
  revert n. induction fuel as [|fuel IH]; intros n; cbn; [done|]. destruct (n <? 16)%N eqn:E; bool_to_prop.
  - split; [|cbn; lia]. constructor; [by apply Hd|done].
  - destruct (IH (n / 16)%N). split; [|rw length_app /=; lia]. apply Forall_app. split; [done|].
    constructor; [|done]. apply Hd. by apply N.mod_lt.
Qed.

Lemma escape_default_ok c : Forall printable (escape_default c) ∧ length (escape_default c) ≤ 12.
Proof.
  unfold escape_default. set (n := code_point c).
  assert (Hlit : ∀ s, forallb (λ b, (32 <=? Byte.to_N b) && (Byte.to_N b <=? 126))%N (as_bytes s) = true → Forall printable (as_bytes s)).
  { intros s Hs. apply list.Forall_forall. intros b Hb. rewrite forallb_forall in Hs. specialize (Hs b).
    rw -list_elem_of_In in Hs. specialize (Hs Hb). unfold printable. bool_to_prop. lia. }
  repeat match goal with |- context [if ?b then _ else _] => destruct b eqn:?; [try by (split; [by apply Hlit|cbn; lia])|] end.
  - split; [|cbn; lia]. constructor; [done|]. constructor; [|done]. apply printable_of_N. rewrite !orb_true_iff !N.eqb_eq in Heqb2. lia.
  - split; [|cbn; lia]. constructor; [|done]. apply printable_of_N. bool_to_prop. lia.
  - destruct (hex_digits_ok 8 n) as [Hh Hl]. split; [|rw !length_app; change (length (as_bytes "\u{")) with 3; change (length (as_bytes "}")) with 1; lia].
    rw !Forall_app. split_and!; [by apply Hlit|done|by apply Hlit].
Qed.

(** A reason for closing that a remote peer chose is logged as printable ASCII, at most twelve bytes for each of at most
    256 characters: it cannot start a new line or flood the log. *)
Theorem close_reason_harmless reason :
  Forall printable (sanitize_close_reason reason) ∧ length (sanitize_close_reason reason) ≤ 12 * MAX_CLOSE_REASON_CHARS.
Proof.
  unfold sanitize_close_reason. set (l := take _ _). assert (Hl : length l ≤ MAX_CLOSE_REASON_CHARS).
  { subst l. rw length_take. lia. }
  enough (Forall printable (l ≫= escape_default) ∧ length (l ≫= escape_default) ≤ 12 * length l) as [? ?] by (split; [done|lia]).
  clear Hl. induction l as [|c l [IH1 IH2]]; [done|]. destruct (escape_default_ok c). cbn. split; [by apply Forall_app|].
  rw length_app. lia.
Qed.

Module InviteWitness.
#[export] Instance InvitePayload_eq_dec : EqDecision InvitePayload.
Proof. solve_decision. Defined.

(** Two letters for each byte. *)
Definition letter (n : N) : ascii := ascii_of_N (97 + n).
Definition value (c : ascii) : N := N_of_ascii c - 97.
Fixpoint enc (m : bytes) : string :=
  match m with
  | [] => ""
  | b :: m' => String.String (letter (Byte.to_N b / 16)) (String.String (letter (Byte.to_N b mod 16)) (enc m'))
  end.
Fixpoint dec (s : string) : option bytes :=
  match s with
  | String.String a (String.String b s') => m ← dec s'; Some (byte_of_N (16 * value a + value b) :: m)
  | String.String _ "" => None
  | "" => Some []
  end.
#[export] Instance base64 : Base64 := {| b64_encode := enc; b64_decode := dec |}.
Lemma byte_again b : byte_of_N (16 * (Byte.to_N b / 16) + Byte.to_N b mod 16) = b.
Proof. destruct b; vm_compute; reflexivity. Qed.
Lemma letters b : value (letter (Byte.to_N b / 16)) = (Byte.to_N b / 16)%N ∧ value (letter (Byte.to_N b mod 16)) = (Byte.to_N b mod 16)%N ∧
  letter (Byte.to_N b / 16) ≠ "."%char ∧ letter (Byte.to_N b mod 16) ≠ "."%char.
Proof. by destruct b. Qed.
#[export] Instance base64_laws : Base64Laws.
Proof.
  split; cbn.
  - induction m as [|b m IH]; [done|]. cbn [enc dec]. rw IH. cbn. destruct (letters b) as (-> & -> & _). by rw byte_again.
  - induction m as [|b m IH]; [done|]. cbn [enc contains_char]. destruct (letters b) as (_ & _ & ? & ?).
    by rw !bool_decide_false.
Qed.

#[export] Existing Instances Toy.toy_blake3 Toy.toy_hex Toy.toy_ed25519 Toy.toy_ed25519_laws.
Definition secret : bytes := replicate 32 x07.
Definition host : Identity := identity_of_secret secret.
Definition payload : InvitePayload :=
  mk_InvitePayload "proj" (Some "P") (Identity.peer_id host) (b64_encode (public_key_bytes host)) "http://h:1" (Some 100%N) "n".
#[export] Instance payload_codec : Codec InvitePayload := Toy.table_codec [payload].
#[export] Instance payload_laws : CodecLaws InvitePayload := Toy.table_codec_laws [payload].
Definition token : string := from_option fst "" (issue host "proj" (Some "P") "http://h:1" (Some 100%N) "n").

(** The name resolves to two addresses, the second of which answers. *)
Definition a4 : SocketAddr := mk_SocketAddr [x0a; x00; x00; x01] 7.
Definition a6 : SocketAddr := mk_SocketAddr (replicate 15 x00 ++ [x09]) 7.
Definition any6 : SocketAddr := mk_SocketAddr (replicate 16 x00) 7.
#[export] Instance net : Network := {|
  url_parse s := if bool_decide (s = "http://h:1") then Some (mk_Url "http" (Some "h") "" None "/" None None) else None;
  addr_parse _ := Some any6;
  parse_peer_info _ := Some (mk_RemotePeerInfo "bob" (Some "[::]:7") 2 "0.1");
  http_get _ := Some (true, [Some [x7b]]);
  lookup_host _ _ := Some [a4; a6];
  quic_connect p a := bool_decide (a = a4);
|}.
End InviteWitness.
Import (hints) InviteWitness.

Lemma invite_roundtrip_witness : decode InviteWitness.token 100 = Ok InviteWitness.payload.
Proof.
  refine (proj1 (invite_roundtrip InviteWitness.secret "proj" (Some "P") "http://h:1" (Some 100%N) "n" InviteWitness.token
    InviteWitness.payload 100 eq_refl _ _ _ _ _ _)); try (vm_compute; reflexivity).
  - vm_compute. discriminate.
  - intros e [= <-]. done.
Defined.

Lemma accepted_invite_is_signed_witness :
  ∃ json sig pk, from_slice json = Some InviteWitness.payload ∧ ed_verify pk json sig = true ∧
    host_peer_id InviteWitness.payload = peer_id_from_public_bytes pk.
Proof.
  assert (Hd : decode InviteWitness.token 50 = Ok InviteWitness.payload) by (vm_compute; reflexivity).
  destruct (accepted_invite_is_signed InviteWitness.token 50 InviteWitness.payload Hd) as (json & sig & pk & H1 & _ & _ & _ & H2 & H3 & _).
  exists json, sig, pk. split; [exact H1|]. split; [exact H2|exact H3].
Defined.

(** The expected peer is reached at the second address; another one is not tried, and a bad address is not asked. *)
Lemma bootstrap_reaches_expected_peer_witness :
  (bootstrap_from_url_expected "http://h:1" (Some "bob") []).1 = Ok (mk_BootstrapResult "bob" "0.1") ∧
  bootstrap_from_url_expected "ftp://h" None [] = (Err InvalidUrl, []) ∧
  ∀ p a, DidConnect p a ∈ (bootstrap_from_url_expected "http://h:1" (Some "eve") []).2 → p = "eve".
Proof.
  split; [vm_compute; reflexivity|]. split; [vm_compute; reflexivity|].
  destruct (bootstrap_reaches_expected_peer "http://h:1" (Some "eve") [] _ _ (surjective_pairing _)) as (acts & E & Hc & _).
  rewrite E. intros p a Hin. exact (Hc p a Hin "eve" eq_refl).
Defined.

Lemma candidate_addresses_exact_witness :
  candidate_list InviteWitness.any6 [InviteWitness.a4; InviteWitness.a6] = [InviteWitness.a6; InviteWitness.a4] ∧
  NoDup (candidate_list InviteWitness.any6 [InviteWitness.a4; InviteWitness.a6]).
Proof.
  split; [vm_compute; reflexivity|].
  refine (proj1 (candidate_addresses_exact InviteWitness.any6 [InviteWitness.a4; InviteWitness.a6] _)).
  apply (bool_decide_unpack _). vm_compute. exact I.
Defined.
