(* ===== verification/Stun.v ===== *)
(** * STUN

    [synergos-net/src/mesh/stun.rs]: the Binding messages by which a node learns its public
    address.  What the socket did is an argument.  An access outside a slice is the error
    [Panicked]. *)

From S2P Require Import Prelude Crypto Types Identity Content Invite.

Definition MAGIC_COOKIE : N := 0x2112A442.
Definition TYPE_BINDING_REQUEST : N := 0x0001.
Definition TYPE_BINDING_SUCCESS : N := 0x0101.
Definition ATTR_XOR_MAPPED_ADDRESS : N := 0x0020.
Definition FAMILY_IPV4 : N := 1.
Definition FAMILY_IPV6 : N := 2.

Definition encode_binding_request (tx_id : bytes) : bytes :=
  be_bytes 2 TYPE_BINDING_REQUEST ++ be_bytes 2 0 ++ be_bytes 4 MAGIC_COOKIE ++ tx_id.

(** [&b\[i .. j\]] *)
Definition slice (b : bytes) (i j : nat) : result NetError bytes :=
  if (i <=? j) && (j <=? length b) then Ok (take (j - i) (drop i b)) else Err Panicked.
(** [uN::from_be_bytes] of [w] bytes from index [i]. *)
Definition be_at (w : nat) (b : bytes) (i : nat) : result NetError N :=
  s ← slice b i (i + w); Ok (of_be_bytes s).

Definition parse_xor_mapped (attr tx_id : bytes) : result NetError SocketAddr :=
  if length attr <? 4 then Err (ETurn "xor-mapped too short")
  else
    family ← be_at 1 attr 1;
    xor_port ← be_at 2 attr 2;
    let port := N.lxor xor_port (N.shiftr MAGIC_COOKIE 16) in
    if (family =? FAMILY_IPV4)%N then
      if length attr <? 8 then Err (ETurn "xor-mapped ipv4 too short")
      else xor_ip ← be_at 4 attr 4; Ok (mk_SocketAddr (be_bytes 4 (N.lxor xor_ip MAGIC_COOKIE)) port)
    else if (family =? FAMILY_IPV6)%N then
      if length attr <? 20 then Err (ETurn "xor-mapped ipv6 too short")
      else ip ← slice attr 4 20; Ok (mk_SocketAddr (zip_with byte_xor ip (be_bytes 4 MAGIC_COOKIE ++ tx_id)) port)
    else Err (ETurn "unknown address family").

(** The walk over the attributes from [cursor].  It advances by four bytes at least, so that as much fuel as there are bytes
    is enough. *)
Fixpoint parse_attrs (fuel : nat) (b tx : bytes) (cursor end_ : nat) : result NetError SocketAddr :=
  match fuel with
  | 0 => Err Panicked
  | S fuel =>
      if cursor + 4 <=? end_ then
        attr_type ← be_at 2 b cursor;
        attr_len ← be_at 2 b (cursor + 2);
        let val_start := cursor + 4 in
        let val_end := val_start + N.to_nat attr_len in
        if end_ <? val_end then Err (ETurn "attribute past message end")
        else if (attr_type =? ATTR_XOR_MAPPED_ADDRESS)%N then
          attr ← slice b val_start val_end; parse_xor_mapped attr tx
        else parse_attrs fuel b tx (val_start + N.to_nat (N.ldiff (attr_len + 3) 3)) end_
      else Err (ETurn "no XOR-MAPPED-ADDRESS attribute")
  end.

Definition parse_binding_success (b expected_tx : bytes) : result NetError SocketAddr :=
  if length b <? 20 then Err (ETurn "stun response too short")
  else
    msg_type ← be_at 2 b 0;
    if negb (msg_type =? TYPE_BINDING_SUCCESS)%N then Err (ETurn "unexpected STUN message type")
    else
      msg_len ← be_at 2 b 2;
      cookie ← be_at 4 b 4;
      if negb (cookie =? MAGIC_COOKIE)%N then Err (ETurn "invalid magic cookie")
      else
        tx ← slice b 8 20;
        if negb (bool_decide (tx = expected_tx)) then Err (ETurn "transaction id mismatch")
        else if length b <? 20 + N.to_nat msg_len then Err (ETurn "stun body truncated")
        else parse_attrs (S (length b)) b expected_tx 20 (20 + N.to_nat msg_len).

(** What the socket did. *)
Inductive StunIo := BindFailed | ConnectFailed | SendFailed | RecvTimeout | RecvFailed | Received (datagram : bytes).

Definition discover_public_address (io : StunIo) (tx_id : bytes) : result NetError SocketAddr :=
  match io with
  | BindFailed => Err (ETurn "stun bind")
  | ConnectFailed => Err (ETurn "stun connect")
  | SendFailed => Err (ETurn "stun send")
  | RecvTimeout => Err (ETurn "stun timeout")
  | RecvFailed => Err (ETurn "stun recv")
  | Received d => parse_binding_success (take 1500 d) tx_id
  end.

(** ** Messages as the specification has them *)

(** The value of an address attribute. *)
Definition xor_value (a : SocketAddr) (tx_id : bytes) : bytes :=
  [x00; if is_ipv6 a then x02 else x01] ++ be_bytes 2 (N.lxor (sa_port a) (N.shiftr MAGIC_COOKIE 16)) ++
  zip_with byte_xor (ip_octets a) (be_bytes 4 MAGIC_COOKIE ++ tx_id).
(** An attribute: type, length, value, and padding to a multiple of four. *)
Definition attribute (x : N * bytes) : bytes :=
  be_bytes 2 x.1 ++ be_bytes 2 (len x.2) ++ x.2 ++ replicate (N.to_nat (N.ldiff (len x.2 + 3) 3) - length x.2) x00.
Definition message (tx_id body : bytes) : bytes :=
  be_bytes 2 TYPE_BINDING_SUCCESS ++ be_bytes 2 (len body) ++ be_bytes 4 MAGIC_COOKIE ++ tx_id ++ body.

(** ** Arithmetic of the codec *)
Lemma padded_eq n : N.ldiff (n + 3) 3 = (4 * ((n + 3) / 4))%N.
Proof. change 3%N with (N.ones 2) at 2. rw N.ldiff_ones_r N.shiftl_mul_pow2 N.shiftr_div_pow2. change (2 ^ 2)%N with 4%N. lia. Qed.

Lemma padded_bounds n : (n ≤ N.ldiff (n + 3) 3 ≤ n + 3)%N.
Proof.
  rw padded_eq. pose proof (N.Div0.div_mod (n + 3) 4) as E. assert (Hm : ((n + 3) mod 4 < 4)%N) by by apply N.mod_lt.
  revert E Hm. generalize ((n + 3) / 4)%N ((n + 3) mod 4)%N. intros q r E Hm. lia.
Qed.

Lemma lxor_mod a b n : ((N.lxor a b) mod 2 ^ n = N.lxor (a mod 2 ^ n) (b mod 2 ^ n))%N.
Proof.
  apply N.bits_inj. intros i. rw N.lxor_spec. destruct (N.lt_ge_cases i n).
  - rw !N.mod_pow2_bits_low //. by rw N.lxor_spec.
  - by rw !N.mod_pow2_bits_high.
Qed.

Lemma lxor_small a b n : (a < 2 ^ n)%N → (b < 2 ^ n)%N → (N.lxor a b < 2 ^ n)%N.
Proof.
  intros Ha Hb. rw -(N.mod_small a (2 ^ n) Ha) -(N.mod_small b (2 ^ n) Hb) -lxor_mod. apply N.mod_lt.
  apply N.pow_nonzero. lia.
Qed.

Lemma byte_xor_to_N a b : Byte.to_N (byte_xor a b) = N.lxor (Byte.to_N a) (Byte.to_N b).
Proof.
  unfold byte_xor. rw byte_of_N_to_N. apply N.mod_small. change 256%N with (2 ^ 8)%N.
  apply lxor_small; apply byte_to_N_lt.
Qed.

Lemma byte_xor_cancel a b : byte_xor (byte_xor a b) b = a.
Proof. apply byte_to_N_inj. by rw !byte_xor_to_N N.lxor_assoc N.lxor_nilpotent N.lxor_0_r. Qed.

Lemma zip_xor_cancel l k : length l ≤ length k → zip_with byte_xor (zip_with byte_xor l k) k = l.
Proof.
  revert k. induction l as [|a l IH]; intros [|b k] Hl; cbn in *; try done; try lia. by rw byte_xor_cancel IH; [lia|].
Qed.

(** Xoring the numbers is xoring the bytes. *)
Lemma le_bytes_lxor l k : length l = length k →
  le_bytes (length l) (N.lxor (of_le_bytes l) (of_le_bytes k)) = zip_with byte_xor l k.
Proof.
  revert k. induction l as [|a l IH]; intros [|b k] Hl; cbn in *; try done.
  assert (Ha := byte_to_N_lt a). assert (Hb := byte_to_N_lt b).
  assert (Hm : ∀ (c : byte) x, ((Byte.to_N c + 256 * x) mod 256 = Byte.to_N c)%N).
  { intros c x. rw N.mul_comm N.Div0.mod_add. apply N.mod_small, byte_to_N_lt. }
  assert (Hd : ∀ (c : byte) x, ((Byte.to_N c + 256 * x) / 256 = x)%N).
  { intros c x. pose proof (byte_to_N_lt c). rw N.mul_comm N.div_add; [done|]. rw N.div_small; [done|lia]. }
  change (le_bytes (S ?n) ?x) with (byte_of_N x :: le_bytes n (x / 256)). rw !Toy.of_le_bytes_cons. f_equal.
  - apply byte_to_N_inj. rw byte_of_N_to_N byte_xor_to_N. change 256%N with (2 ^ 8)%N at 3. rw lxor_mod.
    change (2 ^ 8)%N with 256%N. by rw !Hm.
  - rw -(IH k); [lia|]. f_equal. rewrite -(N.shiftr_div_pow2 _ 8) N.shiftr_lxor !N.shiftr_div_pow2.
    change (2 ^ 8)%N with 256%N. by rw !Hd.
Qed.

Lemma be_bytes_lxor l k : length l = length k →
  be_bytes (length l) (N.lxor (of_be_bytes l) (of_be_bytes k)) = zip_with byte_xor l k.
Proof.
  intros Hl. unfold be_bytes, of_be_bytes. rewrite -{1}(length_reverse l) le_bytes_lxor ?length_reverse //.
  apply (inj reverse). rw reverse_involutive. revert k Hl. induction l as [|a l IH]; intros [|b k] Hl; try done. cbn [zip_with length] in *.
  rw !reverse_cons. rw zip_with_app; [by rw !length_reverse; lia|]. rw IH; [lia|done].
Qed.

(** ** Reading *)
Lemma slice_Ok b i j : i ≤ j → j ≤ length b → slice b i j = Ok (take (j - i) (drop i b)).
Proof. intros Hi Hj. unfold slice. by rw (proj2 (Nat.leb_le _ _) Hi) (proj2 (Nat.leb_le _ _) Hj). Qed.

Lemma be_at_Ok w b i : i + w ≤ length b → ∃ n, be_at w b i = Ok n.
Proof. intros Hi. unfold be_at. rw slice_Ok; [lia|done|]. by eexists. Qed.

Lemma slice_part pre s post i j : i = length pre → j = length pre + length s → slice (pre ++ s ++ post) i j = Ok s.
Proof.
  intros -> ->. rw slice_Ok; [lia|rw !length_app; lia|]. rw drop_app_length. f_equal.
  rw take_app_length'; [lia|done].
Qed.

Lemma be_at_part w pre x post i : i = length pre → (x < 256 ^ N.of_nat w)%N → be_at w (pre ++ be_bytes w x ++ post) i = Ok x.
Proof.
  intros -> Hx. unfold be_at. rw slice_part; [done|by rw length_be_bytes|]. cbn. by rw of_be_bytes_be_bytes.
Qed.

Lemma xor_mapped_safe attr tx : parse_xor_mapped attr tx ≠ Err Panicked.
Proof.
  unfold parse_xor_mapped. destruct (length attr <? 4) eqn:H4; [done|]. bool_to_prop.
  destruct (be_at_Ok 1 attr 1) as [f ->]; [lia|]. destruct (be_at_Ok 2 attr 2) as [p ->]; [lia|]. cbn [mbind result_bind].
  destruct (f =? FAMILY_IPV4)%N.
  - destruct (length attr <? 8) eqn:H8; [done|]. bool_to_prop. by destruct (be_at_Ok 4 attr 4) as [ip ->]; [lia|].
  - destruct (f =? FAMILY_IPV6)%N; [|done]. destruct (length attr <? 20) eqn:H20; [done|]. bool_to_prop. by rw slice_Ok; [lia|lia|].
Qed.

Lemma parse_attrs_safe b tx end_ fuel : ∀ cursor, end_ ≤ length b → 0 < fuel → end_ < fuel + cursor →
  parse_attrs fuel b tx cursor end_ ≠ Err Panicked.
Proof.
  induction fuel as [|fuel IH]; intros cursor Hend Hpos Hfuel; cbn [parse_attrs]; [lia|].
  destruct (cursor + 4 <=? end_) eqn:Hc; [|done]. bool_to_prop.
  destruct (be_at_Ok 2 b cursor) as [t ->]; [lia|]. destruct (be_at_Ok 2 b (cursor + 2)) as [n ->]; [lia|]. cbn [mbind result_bind].
  destruct (end_ <? cursor + 4 + N.to_nat n) eqn:He; [done|]. bool_to_prop.
  destruct (t =? ATTR_XOR_MAPPED_ADDRESS)%N; [|apply IH; lia].
  rw slice_Ok; [lia|lia|]. apply xor_mapped_safe.
Qed.

(** C38: No datagram makes the parser read outside of it, or loop. *)
Theorem stun_parser_total b tx : parse_binding_success b tx ≠ Err Panicked.
Proof.
  unfold parse_binding_success. destruct (length b <? 20) eqn:H20; [done|]. bool_to_prop.
  destruct (be_at_Ok 2 b 0) as [t ->]; [lia|]. destruct (be_at_Ok 2 b 2) as [n ->]; [lia|].
  destruct (be_at_Ok 4 b 4) as [c ->]; [lia|]. rw slice_Ok; [lia|lia|]. cbn [mbind result_bind].
  destruct (negb _); [done|]. destruct (negb _); [done|]. destruct (negb _); [done|].
  destruct (length b <? 20 + N.to_nat n) eqn:Hb; [done|]. bool_to_prop. apply parse_attrs_safe; lia.
Qed.

(** ** Round trip *)
Lemma xor_mapped_roundtrip a tx :
  length (ip_octets a) = 4 ∨ length (ip_octets a) = 16 → (sa_port a < 2 ^ 16)%N → length tx = 12 →
  parse_xor_mapped (xor_value a tx) tx = Ok a.
Proof.
  intros Hip Hport Htx. unfold parse_xor_mapped. set (v := xor_value a tx).
  set (key := be_bytes 4 MAGIC_COOKIE ++ tx).
  assert (Hkey : length key = 16) by (unfold key; rw length_app length_be_bytes; lia).
  assert (Hlen : length v = 4 + length (ip_octets a)).
  { unfold v, xor_value. fold key. rw !length_app length_be_bytes length_zip_with. cbn [length]. lia. }
  assert (Hxp : (N.lxor (sa_port a) (N.shiftr MAGIC_COOKIE 16) < 2 ^ 16)%N) by by apply lxor_small.
  rw (proj2 (Nat.ltb_ge _ _)); [lia|].
  assert (E1 : be_at 1 v 1 = Ok (if is_ipv6 a then FAMILY_IPV6 else FAMILY_IPV4)).
  { unfold be_at. rw (slice_part [x00] [if is_ipv6 a then x02 else x01] (be_bytes 2 (N.lxor (sa_port a) (N.shiftr MAGIC_COOKIE 16)) ++
      zip_with byte_xor (ip_octets a) key)) //. by destruct (is_ipv6 a). }
  assert (E2 : be_at 2 v 2 = Ok (N.lxor (sa_port a) (N.shiftr MAGIC_COOKIE 16))).
  { by apply (be_at_part 2 [x00; if is_ipv6 a then x02 else x01]). }
  assert (E3 : slice v 4 (length v) = Ok (zip_with byte_xor (ip_octets a) key)).
  { unfold v, xor_value. fold key. rw app_assoc -{1}(app_nil_r (zip_with _ _ _)). apply slice_part.
    - by rw length_app length_be_bytes.
    - by rw !length_app length_be_bytes. }
  rw E1 E2. cbn [mbind result_bind]. rw N.lxor_assoc N.lxor_nilpotent N.lxor_0_r. unfold is_ipv6 in *.
  destruct a as [ip port]. cbn [ip_octets sa_port] in *. destruct Hip as [Hip|Hip]; rw Hip in Hlen; rw Hip.
  - rw bool_decide_false; [lia|]. cbn [N.eqb FAMILY_IPV4]. rw (proj2 (Nat.ltb_ge _ _)); [lia|]. unfold be_at. rw Hlen in E3.
    rw E3. cbn [mbind result_bind]. do 2 f_equal.
    assert (Hz : zip_with byte_xor ip key = zip_with byte_xor ip (be_bytes 4 MAGIC_COOKIE)).
    { unfold key. rw -{1}(app_nil_r ip) zip_with_app; [by rw length_be_bytes|]. by rw app_nil_r. }
    rw Hz. assert (Hc : MAGIC_COOKIE = of_be_bytes (be_bytes 4 MAGIC_COOKIE)) by done. rewrite {2}Hc.
    set (z := zip_with _ _ _). assert (Hlz : length z = 4) by (unfold z; rw length_zip_with length_be_bytes; lia).
    rewrite -{1}Hlz be_bytes_lxor; [by rw length_be_bytes|]. apply zip_xor_cancel. rw length_be_bytes. lia.
  - rw bool_decide_true; [done|]. change (FAMILY_IPV6 =? FAMILY_IPV4)%N with false. rw N.eqb_refl. cbv iota.
    rw (proj2 (Nat.ltb_ge _ _)); [lia|]. rw Hlen in E3.
    rw E3. cbn [mbind result_bind]. do 2 f_equal. fold key. apply zip_xor_cancel. lia.
Qed.

(** The parts of an attribute, in their places. *)
Lemma attribute_read pre x post :
  (x.1 < 2 ^ 16)%N → (len x.2 < 2 ^ 16)%N →
  let b := pre ++ attribute x ++ post in
  be_at 2 b (length pre) = Ok x.1 ∧ be_at 2 b (length pre + 2) = Ok (len x.2) ∧
  slice b (length pre + 4) (length pre + 4 + length x.2) = Ok x.2 ∧
  length (attribute x) = 4 + N.to_nat (N.ldiff (len x.2 + 3) 3) ∧ length x.2 ≤ N.to_nat (N.ldiff (len x.2 + 3) 3).
Proof.
  intros Ht Hl b. pose proof (padded_bounds (len x.2)) as Hpad. unfold b, attribute. rw -!app_assoc. split_and!.
  - by apply be_at_part.
  - rw (app_assoc pre). apply be_at_part; [rw length_app length_be_bytes; lia|done].
  - rw (app_assoc pre) (app_assoc _ (be_bytes 2 (len x.2))). apply slice_part; rw !length_app !length_be_bytes; lia.
  - unfold len in *. rw !length_app !length_be_bytes length_replicate. lia.
  - unfold len in *. lia.
Qed.

Lemma attribute_nonempty x : 1 ≤ length (attribute x).
Proof. unfold attribute. rw !length_app !length_be_bytes. lia. Qed.
#[local] Opaque attribute.

Lemma attribute_walk tx (end_ : nat) post x fuel pre :
  length pre + length (attribute x) ≤ end_ → (x.1 < 2 ^ 16)%N → (len x.2 < 2 ^ 16)%N →
  parse_attrs (S fuel) (pre ++ attribute x ++ post) tx (length pre) end_ =
    if (x.1 =? ATTR_XOR_MAPPED_ADDRESS)%N then parse_xor_mapped x.2 tx
    else parse_attrs fuel (pre ++ attribute x ++ post) tx (length (pre ++ attribute x)) end_.
Proof.
  intros Hend Ht Hl. destruct (attribute_read pre x post Ht Hl) as (E1 & E2 & E3 & Hlen & Hpad).
  cbn [parse_attrs]. rw (proj2 (Nat.leb_le _ _)); [lia|]. rw E1 E2. cbn [mbind result_bind].
  unfold len in *. rw Nat2N.id (proj2 (Nat.ltb_ge _ _)); [lia|]. rw E3. cbn [mbind result_bind].
  destruct (x.1 =? _)%N; [done|]. f_equal. rw length_app. lia.
Qed.

Lemma walk_to_address a tx attrs : ∀ fuel pre post (end_ : nat),
  Forall (λ x, (x.1 < 2 ^ 16)%N ∧ (len x.2 < 2 ^ 16)%N ∧ x.1 ≠ ATTR_XOR_MAPPED_ADDRESS) attrs →
  length (ip_octets a) = 4 ∨ length (ip_octets a) = 16 → (sa_port a < 2 ^ 16)%N → length tx = 12 →
  let body := (attrs ≫= attribute) ++ attribute (ATTR_XOR_MAPPED_ADDRESS, xor_value a tx) in
  length pre + length body ≤ end_ → length attrs < fuel →
  parse_attrs fuel (pre ++ body ++ post) tx (length pre) end_ = Ok a.
Proof.
  induction attrs as [|x attrs IH]; intros fuel pre post end_ Hall Hip Hport Htx body Hend Hfuel; destruct fuel as [|fuel]; try lia.
  - assert (Hv : length (xor_value a tx) = 4 + length (ip_octets a)).
    { unfold xor_value. rw !length_app length_be_bytes length_zip_with length_app length_be_bytes. cbn [length]. lia. }
    subst body. change ([] ≫= attribute) with (@nil byte) in *. cbn [app] in *.
    rw attribute_walk //; [unfold len; cbn [snd]; rw Hv; destruct Hip as [->| ->]; done|]. by apply xor_mapped_roundtrip.
  - apply Forall_cons in Hall as [(Ht & Hl & Hne) Hall]. subst body.
    set (last_ := attribute (ATTR_XOR_MAPPED_ADDRESS, xor_value a tx)) in *.
    change ((x :: attrs) ≫= attribute) with (attribute x ++ (attrs ≫= attribute)) in *.
    rewrite (length_app _ last_) (length_app (attribute x)) in Hend.
    assert (E : ((attribute x ++ (attrs ≫= attribute)) ++ last_) ++ post = attribute x ++ ((attrs ≫= attribute) ++ last_) ++ post).
    { by rewrite -!(app_assoc (attribute x)). }
    rewrite E.
    rw attribute_walk; [lia|done|done|]. rewrite (proj2 (N.eqb_neq _ _) Hne) (app_assoc pre (attribute x)).
    apply IH; try done; [|cbn in Hfuel; lia].
    fold last_. rewrite (length_app pre) (length_app (attrs ≫= attribute)). lia.
Qed.

(** The header is accepted, and the walk starts. *)
Lemma message_read tx body :
  length tx = 12 → (len body < 2 ^ 16)%N →
  parse_binding_success (message tx body) tx = parse_attrs (S (length (message tx body))) (message tx body) tx 20 (20 + length body).
Proof.
  intros Htx Hbody. unfold parse_binding_success. set (m := message tx body).
  assert (Hm : length m = 20 + length body).
  { unfold m, message. rw !length_app !length_be_bytes. lia. }
  assert (E1 : be_at 2 m 0 = Ok TYPE_BINDING_SUCCESS) by by apply (be_at_part 2 []).
  assert (E2 : be_at 2 m 2 = Ok (len body)) by by apply (be_at_part 2 (be_bytes 2 TYPE_BINDING_SUCCESS)).
  assert (E3 : be_at 4 m 4 = Ok MAGIC_COOKIE).
  { unfold m, message. rw app_assoc. by apply be_at_part. }
  assert (E4 : slice m 8 20 = Ok tx).
  { unfold m, message. rw !app_assoc -(app_assoc _ tx). apply slice_part; rw !length_app !length_be_bytes; lia. }
  rw (proj2 (Nat.ltb_ge _ _)); [lia|]. rw E1 E2 E3 E4. cbn [mbind result_bind]. rw !N.eqb_refl. cbn [negb].
  rw bool_decide_true; [done|]. cbn [negb]. unfold len in *. by rw Nat2N.id (proj2 (Nat.ltb_ge _ _)); [lia|].
Qed.

(** A response as the specification has it is understood: whatever other attributes come before the address, and whatever
    follows, the address is read back. *)
Theorem stun_address_roundtrip a tx attrs post :
  Forall (λ x, (x.1 < 2 ^ 16)%N ∧ (len x.2 < 2 ^ 16)%N ∧ x.1 ≠ ATTR_XOR_MAPPED_ADDRESS) attrs →
  length (ip_octets a) = 4 ∨ length (ip_octets a) = 16 → (sa_port a < 2 ^ 16)%N → length tx = 12 →
  let body := ((attrs ≫= attribute) ++ attribute (ATTR_XOR_MAPPED_ADDRESS, xor_value a tx)) ++ post in
  (len body < 2 ^ 16)%N → parse_binding_success (message tx body) tx = Ok a.
Proof.
  intros Hall Hip Hport Htx body Hbody. rw message_read //.
  assert (Hlen : length attrs ≤ length (attrs ≫= attribute)).
  { clear. induction attrs as [|x attrs IH]; [done|]. change ((x :: attrs) ≫= attribute) with (attribute x ++ (attrs ≫= attribute)).
    rewrite (length_app (attribute x)). cbn [length]. pose proof (attribute_nonempty x). lia. }
  pose (hd := be_bytes 2 TYPE_BINDING_SUCCESS ++ be_bytes 2 (len body) ++ be_bytes 4 MAGIC_COOKIE ++ tx).
  assert (Hhd : length hd = 20) by (unfold hd; rw !length_app !length_be_bytes; lia).
  assert (Em : message tx body = hd ++ body).
  { unfold message, hd. clearbody body. by rw -!app_assoc. }
  rewrite Em. replace (parse_attrs _ _ _ 20) with (parse_attrs (S (length (hd ++ body))) (hd ++ body) tx (length hd)) by by rw Hhd.
  set (last_ := attribute (ATTR_XOR_MAPPED_ADDRESS, xor_value a tx)) in *.
  assert (Hb : length body = length (attrs ≫= attribute) + length last_ + length post).
  { unfold body. by rewrite (length_app _ post) (length_app (attrs ≫= attribute)). }
  apply walk_to_address; try done; [fold last_; rewrite (length_app (attrs ≫= attribute)); lia|]. rewrite length_app. lia.
Qed.

(** ** Witnesses *)
Module StunWitness.
Definition tx : bytes := replicate 12 x12.
(** [192.0.2.1:8080], behind an attribute of five bytes. *)
Definition public_address : SocketAddr := mk_SocketAddr [xc0; x00; x02; x01] 8080.
Definition software : N * bytes := (0x8022%N, as_bytes "hello").
Definition response : bytes :=
  message tx ((([software] ≫= attribute) ++ attribute (ATTR_XOR_MAPPED_ADDRESS, xor_value public_address tx)) ++ [x00]).
End StunWitness.

Lemma stun_address_roundtrip_witness :
  parse_binding_success StunWitness.response StunWitness.tx = Ok StunWitness.public_address.
Proof.
  apply (stun_address_roundtrip StunWitness.public_address StunWitness.tx [StunWitness.software] [x00]).
  - constructor; [|constructor]. split; [vm_compute; reflexivity|]. split; [vm_compute; reflexivity|discriminate].
  - left. reflexivity.
  - vm_compute. reflexivity.
  - reflexivity.
  - vm_compute. reflexivity.
Defined.
