(* ===== verification/Mesh.v ===== *)
(** * Direct connections: names, probes and TURN sessions

    [synergos-net/src/mesh/mod.rs]: the resolution of names with its cache, the reachability
    probe and the TURN sessions.

    Sockets and resolvers are not part of the program: what they answered is an argument of
    the operation that uses them, and the addresses a datagram was sent to are part of the
    result. *)

From S2P Require Import Prelude Crypto Types Identity Content Invite.


(** ** Probes *)
Record ProbeResult := mk_ProbeResult {
  pr_reachable : bool;
  pr_rtt_ms : option N;
  pr_error : option string;
  pr_addr : option SocketAddrV6;
}.

(** [Ipv6Addr] is its sixteen octets. *)
Definition ipv6_unspecified (ip : bytes) : bool := bool_decide (ip = replicate 16 x00).
Definition ipv6_loopback (ip : bytes) : bool := bool_decide (ip = replicate 15 x00 ++ [x01]).
Definition ipv6_multicast (ip : bytes) : bool := bool_decide (list.head ip = Some xff).
Definition link_local (ip : bytes) : bool := (N.land (of_be_bytes (take 2 ip)) 0xffc0 =? 0xfe80)%N.
Definition restricted (ip : bytes) : bool := ipv6_unspecified ip || ipv6_loopback ip || ipv6_multicast ip || link_local ip.

(** What became of a datagram: sent after some milliseconds, refused by the system, or nothing in time. *)
Inductive UdpProbe := UdpSent (elapsed_ms : N) | UdpFailed | UdpTimeout.

(** The result, and the addresses a socket was connected to. *)
Definition probe_ipv6 (udp : SocketAddrV6 → UdpProbe) (addr : SocketAddrV6) : ProbeResult * list SocketAddrV6 :=
  if restricted (sa_ip addr) then (mk_ProbeResult false None (Some "refused: restricted IPv6 address") (Some addr), [])
  else
    match udp addr with
    | UdpSent ms => (mk_ProbeResult true (Some (ms mod 2 ^ 32)%N) None (Some addr), [addr])
    | UdpFailed => (mk_ProbeResult false None (Some "UDP probe failed") (Some addr), [addr])
    | UdpTimeout => (mk_ProbeResult false None (Some "Timeout") (Some addr), [addr])
    end.

(** ** Names *)
Inductive ResolveMethod := DoH | Standard | Cached.
Global Instance ResolveMethod_eq_dec : EqDecision ResolveMethod.
Proof. solve_decision. Defined.
Record ResolveResult := mk_ResolveResult { rr_addresses : list bytes; rr_method : ResolveMethod; resolve_time_ms : N }.
Record CachedResolve := mk_CachedResolve { cr_addresses : list bytes; cached_at : N; ttl : N }.

Inductive TurnSessionState := Allocating | Active | Expired | Failed (why : string).
Record TurnSession := mk_TurnSession {
  server_addr : string;
  relay_addr : option SocketAddr;
  expires_at : option N;
  ts_state : TurnSessionState;
}.

Record Mesh := mk_Mesh { dns_cache : gmap string CachedResolve; turn_sessions : gmap string TurnSession }.
Definition new_mesh : Mesh := mk_Mesh ∅ ∅.
Definition set_cache x (m : Mesh) : Mesh := mk_Mesh x (turn_sessions m).
Definition set_sessions x (m : Mesh) : Mesh := mk_Mesh (dns_cache m) x.

(** What a resolver answers: the records, [None] for one that is no AAAA record. *)
Inductive DnsAnswer := SetupFailed | LookupFailed | Records (l : list (option bytes)).

Definition aaaa_addresses (l : list (option bytes)) : list bytes := omap id l.

(** The providers in their order: the first that knows an address. *)
Fixpoint resolve_doh (providers : list DnsAnswer) : result NetError (list bytes) :=
  match providers with
  | [] => Err (EDnsResolution "DoH lookup failed across all providers")
  | Records l :: providers => if bool_decide (aaaa_addresses l = []) then resolve_doh providers else Ok (aaaa_addresses l)
  | _ :: providers => resolve_doh providers
  end.

Definition resolve_standard (answer : DnsAnswer) : result NetError (list bytes) :=
  match answer with
  | SetupFailed => Err (EDnsResolution "DNS resolver setup failed")
  | LookupFailed => Err (EDnsResolution "DNS lookup failed")
  | Records l => Ok (aaaa_addresses l)
  end.

(** Five minutes, in milliseconds. *)
Definition DNS_TTL : N := 300000.

(** [now] is the time of the call and [later] that of the answer. *)
Definition resolve_fqdn (now later : N) (doh : list DnsAnswer) (standard : DnsAnswer) (fqdn : string) (m : Mesh) :
    Mesh * result NetError ResolveResult :=
  let fresh := match dns_cache m !! fqdn with Some c => if (now - cached_at c <? ttl c)%N then Some c else None | None => None end in
  match fresh with
  | Some c => (m, Ok (mk_ResolveResult (cr_addresses c) Cached 0))
  | None =>
      let m := set_cache (delete fqdn (dns_cache m)) m in
      let elapsed := ((later - now) mod 2 ^ 32)%N in
      let keep addrs := set_cache (<[fqdn := mk_CachedResolve addrs later DNS_TTL]> (dns_cache m)) m in
      match resolve_doh doh with
      | Ok (a :: addrs) => (keep (a :: addrs), Ok (mk_ResolveResult (a :: addrs) DoH elapsed))
      | _ =>
          match resolve_standard standard with
          | Err e => (m, Err e)
          | Ok addrs => (if bool_decide (addrs = []) then m else keep addrs, Ok (mk_ResolveResult addrs Standard elapsed))
          end
      end
  end.

Definition clear_dns_cache (m : Mesh) : Mesh := set_cache ∅ m.

(** The probes of every address of a name. *)
Definition probe_fqdn (now later : N) (doh : list DnsAnswer) (standard : DnsAnswer) (udp : SocketAddrV6 → UdpProbe)
    (fqdn : string) (port : N) (m : Mesh) : Mesh * list ProbeResult * list SocketAddrV6 :=
  match resolve_fqdn now later doh standard fqdn m with
  | (m, Err _) => (m, [mk_ProbeResult false None (Some "DNS resolution failed") None], [])
  | (m, Ok r) =>
      let probes := (λ ip, probe_ipv6 udp (mk_SocketAddrV6 ip port)) <$> rr_addresses r in
      (m, probes.*1, mjoin probes.*2)
  end.

(** ** TURN *)
Definition TURN_LIFETIME : N := 600000.

Definition allocate_turn (now : N) (server_uri : string) (m : Mesh) : Mesh * result NetError TurnSession :=
  let s := mk_TurnSession server_uri None (Some (now + TURN_LIFETIME)%N) Active in
  (set_sessions (<[server_uri := s]> (turn_sessions m)) m, Ok s).

Definition refresh_turn (now : N) (server_uri : string) (m : Mesh) : Mesh * result NetError () :=
  match turn_sessions m !! server_uri with
  | Some s =>
      let s := mk_TurnSession (server_addr s) (relay_addr s) (Some (now + TURN_LIFETIME)%N) (ts_state s) in
      (set_sessions (<[server_uri := s]> (turn_sessions m)) m, Ok ())
  | None => (m, Err (ETurn "No active session for"))
  end.

Definition unexpired (now : N) (s : TurnSession) : bool :=
  match expires_at s with Some e => (now <? e)%N | None => true end.
Definition cleanup_expired_sessions (now : N) (m : Mesh) : Mesh :=
  set_sessions (filter (λ x, unexpired now x.2 = true) (turn_sessions m)) m.

Definition list_turn_sessions `{!MapIter string TurnSession} (m : Mesh) : list TurnSession := (map_iter (turn_sessions m)).*2.

(** ** Properties *)

(** Whatever a name resolves to, no datagram goes to an address of this host, of the link or of a group: exactly the other
    addresses are probed, and the refused ones are reported as unreachable. *)
Theorem probes_spare_restricted now later doh standard udp fqdn port m :
  let '(m', results, contacted) := probe_fqdn now later doh standard udp fqdn port m in
  match resolve_fqdn now later doh standard fqdn m with
  | (_, Err _) => contacted = []
  | (_, Ok r) =>
      contacted = (λ ip, mk_SocketAddrV6 ip port) <$> filter (λ ip, restricted ip = false) (rr_addresses r) ∧
      Forall2 (λ ip res, pr_addr res = Some (mk_SocketAddrV6 ip port) ∧ (restricted ip = true → pr_reachable res = false))
        (rr_addresses r) results
  end.
Proof.
  unfold probe_fqdn. destruct (resolve_fqdn _ _ _ _ _ _) as [m' [r|e]]; [|done]. induction (rr_addresses r) as [|ip l [IH1 IH2]]; [by split|].
  rw fmap_cons. set (rest := _ <$> l) in *. rw !fmap_cons filter_cons. change (mjoin (?x :: ?l)) with (x ++ mjoin l). rw IH1.
  unfold probe_ipv6. cbn [sa_ip]. destruct (restricted ip) eqn:Hr; cbn [fst snd].
  - split; [done|]. by constructor.
  - split; [by destruct (udp _)|]. constructor; [|done]. destruct (udp _); cbn; split; congruence.
Qed.

Inductive dns_op :=
| OpResolve (now later : N) (doh : list DnsAnswer) (standard : DnsAnswer) (fqdn : string)
| OpClearDns.

Definition dns_step (m : Mesh) (o : dns_op) : Mesh :=
  match o with
  | OpResolve now later doh standard fqdn => (resolve_fqdn now later doh standard fqdn m).1
  | OpClearDns => clear_dns_cache m
  end.

(** The lookup of [fqdn] that ended at [later] found these addresses. *)
Definition looked_up (o : dns_op) (fqdn : string) (later : N) (addrs : list bytes) : Prop :=
  match o with
  | OpResolve _ later' doh standard fqdn' => later' = later ∧ fqdn' = fqdn ∧ (resolve_doh doh = Ok addrs ∨ resolve_standard standard = Ok addrs)
  | OpClearDns => False
  end.

Definition cache_sound (ops : list dns_op) (m : Mesh) : Prop :=
  ∀ fqdn c, dns_cache m !! fqdn = Some c → cr_addresses c ≠ [] ∧ ttl c = DNS_TTL ∧
    ∃ o, o ∈ ops ∧ looked_up o fqdn (cached_at c) (cr_addresses c).

(** What a resolution leaves in the cache. *)
Lemma resolve_cache now later doh standard fqdn m m' r f c :
  resolve_fqdn now later doh standard fqdn m = (m', r) → dns_cache m' !! f = Some c →
  dns_cache m !! f = Some c ∨
  (f = fqdn ∧ c = mk_CachedResolve (cr_addresses c) later DNS_TTL ∧ cr_addresses c ≠ [] ∧
   (resolve_doh doh = Ok (cr_addresses c) ∨ resolve_standard standard = Ok (cr_addresses c))).
Proof.
  unfold resolve_fqdn. set (fresh := match dns_cache m !! fqdn with Some _ => _ | None => _ end).
  destruct fresh as [c0|]; [intros [= <- <-]; by left|].
  assert (Hdel : ∀ m1, m1 = set_cache (delete fqdn (dns_cache m)) m → dns_cache m1 !! f = Some c → dns_cache m !! f = Some c).
  { intros m1 ->. cbn. by intros [_ ?]%lookup_delete_Some. }
  assert (Hkeep : ∀ addrs, addrs ≠ [] → resolve_doh doh = Ok addrs ∨ resolve_standard standard = Ok addrs →
    <[fqdn := mk_CachedResolve addrs later DNS_TTL]> (delete fqdn (dns_cache m)) !! f = Some c →
    dns_cache m !! f = Some c ∨ (f = fqdn ∧ c = mk_CachedResolve (cr_addresses c) later DNS_TTL ∧ cr_addresses c ≠ [] ∧
      (resolve_doh doh = Ok (cr_addresses c) ∨ resolve_standard standard = Ok (cr_addresses c)))).
  { intros addrs Hne Hr [[<- <-]|[_ [_ ?]%lookup_delete_Some]]%lookup_insert_Some; [right; by split_and!|by left]. }
  destruct (resolve_doh doh) as [[|a addrs]|e] eqn:Hd.
  2: { intros [= <- <-] Hf. by apply (Hkeep (a :: addrs)); [|left|]. }
  all: destruct (resolve_standard standard) as [addrs|e'] eqn:Hs; intros [= <- <-] Hf; [|left; by eapply Hdel].
  all: case_bool_decide; [left; by eapply Hdel|apply (Hkeep addrs); auto].
Qed.

Lemma dns_step_sound ops m o : cache_sound ops m → cache_sound (ops ++ [o]) (dns_step m o).
Proof.
  intros Hs f c Hc. destruct o as [now later doh standard fqdn|]; cbn in Hc; [|by rw lookup_empty in Hc].
  destruct (resolve_fqdn now later doh standard fqdn m) as [m' r] eqn:Hr. cbn in Hc.
  destruct (resolve_cache _ _ _ _ _ _ _ _ _ _ Hr Hc) as [Hold|(-> & Ec & Hne & Hl)].
  - destruct (Hs f c Hold) as (? & ? & o & Ho & Hl). split_and!; [done|done|]. exists o. split; [|done]. rw elem_of_app. by left.
  - split_and!; [done|by rw Ec|]. exists (OpResolve now later doh standard fqdn). split; [rw elem_of_app; right; by left|].
    rw Ec. by split_and!.
Qed.

(** An answer from the cache is one that an earlier lookup of that very name found less than five minutes before, and it is never
    empty. *)
Theorem cached_answers_fresh ops now later doh standard fqdn m' r :
  resolve_fqdn now later doh standard fqdn (foldl dns_step new_mesh ops) = (m', Ok r) → rr_method r = Cached →
  rr_addresses r ≠ [] ∧ m' = foldl dns_step new_mesh ops ∧
  ∃ o at_, o ∈ ops ∧ looked_up o fqdn at_ (rr_addresses r) ∧ (now < at_ + DNS_TTL)%N.
Proof.
  assert (Hs : cache_sound ops (foldl dns_step new_mesh ops)).
  { induction ops as [|o ops IH] using rev_ind; [intros f c; cbn; by rw lookup_empty|]. rw foldl_app. cbn [foldl]. by apply dns_step_sound. }
  unfold resolve_fqdn. destruct (dns_cache _ !! fqdn) as [c|] eqn:Hc.
  2: { by repeat (case_match; try done; simplify_eq/=); intros [= _ <-]. }
  destruct (now - cached_at c <? ttl c)%N eqn:Ht; [|by repeat (case_match; try done; simplify_eq/=); intros [= _ <-]].
  intros [= <- <-] _. cbn [rr_addresses]. destruct (Hs _ _ Hc) as (Hne & Httl & o & Ho & Hl). split_and!; [done|done|].
  exists o, (cached_at c). split_and!; [done|done|]. bool_to_prop. rw Httl in Ht. lia.
Qed.

(** After a cleanup the sessions are exactly those that have not expired. *)
Theorem turn_cleanup_exact now m uri s :
  turn_sessions (cleanup_expired_sessions now m) !! uri = Some s ↔ turn_sessions m !! uri = Some s ∧ unexpired now s = true.
Proof. unfold cleanup_expired_sessions. cbn. by rw map_lookup_filter_Some. Qed.

(** ** Witnesses *)
Module MeshWitness.
Definition ip : bytes := [x20; x01] ++ replicate 14 x01.
Definition lookups : list dns_op := [OpResolve 0 7 [LookupFailed; Records [None; Some ip]] SetupFailed "host"].
End MeshWitness.

Lemma cached_answers_fresh_witness :
  ∃ o at_, o ∈ MeshWitness.lookups ∧ looked_up o "host" at_ [MeshWitness.ip] ∧ (300006 < at_ + DNS_TTL)%N.
Proof.
  destruct (cached_answers_fresh MeshWitness.lookups 300006 300010 [] LookupFailed "host" (foldl dns_step new_mesh MeshWitness.lookups)
    (mk_ResolveResult [MeshWitness.ip] Cached 0)) as (_ & _ & Ho).
  - vm_compute. reflexivity.
  - reflexivity.
  - exact Ho.
Defined.
