(* ===== verification/Tunnel.v ===== *)
(** * The tunnel process

    [synergos-net/src/tunnel/mod.rs]: [TunnelManager] starts and stops [cloudflared] and a
    supervisor task restarts it.  The supervisor is a state machine ([Phase]); the steps of
    it, [start] and [stop] interleave.  What the system does when a process is spawned is an
    argument.  [running] lists the processes that are alive, and [launched] the command lines
    that were used: the program keeps neither. *)

From S2P Require Import Prelude Crypto Types.

Record TunnelConfig := mk_TunnelConfig {
  tc_hostname : string;
  allow_simulation : bool;
  auto_restart : bool;
  restart_base_ms : N;
  restart_max_ms : N;
}.

Inductive TunnelState := TIdle | TStarting | TActive (tunnel_id : string) (uptime_secs : N) | TError (message : string).
Global Instance TunnelState_eq_dec : EqDecision TunnelState.
Proof. solve_decision. Defined.

Record TunnelHealth := mk_TunnelHealth { th_reachable : bool; th_rtt_ms : option N; last_checked : N }.

(** Where the supervisor is: before it takes the child, waiting for the child to exit, asleep before a restart, or done. *)
Inductive Phase := Looking (failures : N) | Waiting (failures : N) (child : nat) | Sleeping (failures delay : N) | Finished.
Global Instance Phase_eq_dec : EqDecision Phase.
Proof. solve_decision. Defined.

Record TunnelManager := mk_TunnelManager {
  tm_config : TunnelConfig;
  tm_state : TunnelState;
  process : option nat;
  supervisor : option Phase;
  health : option TunnelHealth;
  started_at : option N;
  running : list nat;
  launched : list (list string);
}.

Definition new_tunnel (c : TunnelConfig) : TunnelManager := mk_TunnelManager c TIdle None None None None [] [].

Definition set_state x (m : TunnelManager) : TunnelManager :=
  mk_TunnelManager (tm_config m) x (process m) (supervisor m) (health m) (started_at m) (running m) (launched m).
Definition set_process x (m : TunnelManager) : TunnelManager :=
  mk_TunnelManager (tm_config m) (tm_state m) x (supervisor m) (health m) (started_at m) (running m) (launched m).
Definition set_supervisor x (m : TunnelManager) : TunnelManager :=
  mk_TunnelManager (tm_config m) (tm_state m) (process m) x (health m) (started_at m) (running m) (launched m).
Definition set_health x (m : TunnelManager) : TunnelManager :=
  mk_TunnelManager (tm_config m) (tm_state m) (process m) (supervisor m) x (started_at m) (running m) (launched m).
Definition set_started x (m : TunnelManager) : TunnelManager :=
  mk_TunnelManager (tm_config m) (tm_state m) (process m) (supervisor m) (health m) x (running m) (launched m).
(** The system starts, or has seen the end of, a process. *)
Definition born (c : nat) (args : list string) (m : TunnelManager) : TunnelManager :=
  mk_TunnelManager (tm_config m) (tm_state m) (process m) (supervisor m) (health m) (started_at m) (c :: running m)
    (launched m ++ [args]).
Definition dead (c : nat) (m : TunnelManager) : TunnelManager :=
  mk_TunnelManager (tm_config m) (tm_state m) (process m) (supervisor m) (health m) (started_at m)
    (filter (λ x, x ≠ c) (running m)) (launched m).

(** ** Host names *)

(** [u8::is_ascii_alphanumeric]. *)
Definition is_alphanumeric (b : byte) : bool :=
  let x := Byte.to_N b in
  ((48 <=? x) && (x <=? 57) || (65 <=? x) && (x <=? 90) || (97 <=? x) && (x <=? 122))%N.
Definition dot : byte := x2e.
Definition hyphen : byte := x2d.

(** [s.contains("..")] *)
Fixpoint contains_dots (l : bytes) : bool :=
  match l with
  | a :: (b :: _) as l' => bool_decide (a = dot ∧ b = dot) || contains_dots l'
  | _ => false
  end.

Definition is_valid_hostname (s : string) : bool :=
  let l := as_bytes s in
  if bool_decide (l = []) || (253 <? length l) then false
  else if existsb (λ b, negb (is_alphanumeric b || bool_decide (b = dot) || bool_decide (b = hyphen))) l then false
  else if match list.head l with Some b => negb (is_alphanumeric b) | None => true end ||
          match last l with Some b => negb (is_alphanumeric b) | None => true end
  then false
  else negb (contains_dots l).

(** ** The process *)

(** What the system does with a spawn: no such program in [PATH], an error, or a child. *)
Inductive Spawned := NotInPath | SpawnError | Spawn (child : nat).

(** [uuid] is the one that is drawn. *)
Definition spawn_cloudflared (sys : Spawned) (uuid : string) (m : TunnelManager) : TunnelManager * result NetError string :=
  let h := tc_hostname (tm_config m) in
  if negb (bool_decide (h = "")) && negb (is_valid_hostname h) then (m, Err (ETunnel "invalid hostname"))
  else
    let args := ["tunnel"; "--no-autoupdate"; "run"] ++ (if bool_decide (h = "") then [] else ["--hostname"; h]) in
    match sys with
    | NotInPath =>
        if allow_simulation (tm_config m) then (m, Ok ("sim-" +:+ uuid))
        else (m, Err (ETunnel "cloudflared binary not found in PATH"))
    | SpawnError => (m, Err (ETunnel "Failed to spawn cloudflared"))
    | Spawn c => (set_process (Some c) (born c args m), Ok ("cf-" +:+ uuid))
    end.

Definition is_available (m : TunnelManager) : bool := match tm_state m with TActive _ _ => true | _ => false end.

(** [e.to_string()]. *)
Definition error_text (e : NetError) : string := match e with ETunnel msg => msg | _ => "" end.

Definition start (now : N) (sys : Spawned) (uuid : string) (m : TunnelManager) : TunnelManager * result NetError string :=
  match tm_state m with
  | TActive _ _ | TStarting => (m, Err (ETunnel "Tunnel already active or starting"))
  | _ =>
      match spawn_cloudflared sys uuid (set_state TStarting m) with
      | (m, Err e) => (set_state (TError (error_text e)) m, Err e)
      | (m, Ok id) => (set_supervisor (Some (Looking 0)) (set_state (TActive id 0) (set_started (Some now) m)), Ok id)
      end
  end.

(** Aborting the supervisor drops the child it holds, which does not end the process. *)
Definition stop (m : TunnelManager) : TunnelManager :=
  let m := set_supervisor None m in
  let m := match process m with Some c => dead c m | None => m end in
  set_health None (set_started None (set_state TIdle (set_process None m))).

(** ** The supervisor *)
Definition restart_delay (c : TunnelConfig) (failures : N) : N :=
  N.min (sat_mul (restart_base_ms c) (2 ^ N.min failures 20)) (restart_max_ms c).

(** It takes the child; without one it is done. *)
Definition supervise_take (m : TunnelManager) : TunnelManager :=
  match supervisor m with
  | Some (Looking f) =>
      match process m with
      | Some c => set_supervisor (Some (Waiting f c)) (set_process None m)
      | None => set_supervisor (Some Finished) m
      end
  | _ => m
  end.

(** The child exits, or waiting for it fails. *)
Definition supervise_exit (waited : bool) (m : TunnelManager) : TunnelManager :=
  match supervisor m with
  | Some (Waiting f c) =>
      if negb waited then set_supervisor (Some Finished) (set_state (TError "wait failed") m)
      else
        let m := dead c m in
        if negb (auto_restart (tm_config m)) then set_supervisor (Some Finished) (set_state (TError "exited with") m)
        else
          let f := N.min (f + 1) u32_max in
          set_supervisor (Some (Sleeping f (restart_delay (tm_config m) f))) m
  | _ => m
  end.

(** The delay is over.  After a failed restart there is no child: the supervisor is done. *)
Definition supervise_wake (now : N) (sys : Spawned) (uuid : string) (m : TunnelManager) : TunnelManager :=
  match supervisor m with
  | Some (Sleeping f _) =>
      match spawn_cloudflared sys uuid m with
      | (m, Ok id) => set_supervisor (Some (Looking f)) (set_state (TActive id 0) (set_started (Some now) m))
      | (m, Err e) => set_supervisor (Some Finished) (set_state (TError (error_text e)) m)
      end
  | _ => m
  end.

(** ** Queries *)
Definition state (now : N) (m : TunnelManager) : TunnelState :=
  match tm_state m with
  | TActive id _ => TActive id (match started_at m with Some t => (now - t) / 1000 | None => 0 end)%N
  | other => other
  end.

Definition health_check (now : N) (m : TunnelManager) : TunnelManager * TunnelHealth :=
  let reachable := is_available m in
  let h := mk_TunnelHealth reachable (if reachable then Some 0%N else None) now in
  (set_health (Some h) m, h).

(** ** Runs *)
Inductive op :=
| OpStart (now : N) (sys : Spawned) (uuid : string)
| OpStop
| OpTake
| OpExit (waited : bool)
| OpWake (now : N) (sys : Spawned) (uuid : string)
| OpHealth (now : N).

Definition step (m : TunnelManager) (o : op) : TunnelManager :=
  match o with
  | OpStart now sys uuid => (start now sys uuid m).1
  | OpStop => stop m
  | OpTake => supervise_take m
  | OpExit waited => supervise_exit waited m
  | OpWake now sys uuid => supervise_wake now sys uuid m
  | OpHealth now => (health_check now m).1
  end.
Definition run (c : TunnelConfig) (ops : list op) : TunnelManager := foldl step (new_tunnel c) ops.

(** ** What is launched *)

(** A name made of labels that cannot be taken for an option. *)
Definition hostname_ok (s : string) : Prop :=
  let l := as_bytes s in
  length l ≤ 253 ∧ Forall (λ b, is_alphanumeric b = true ∨ b = dot ∨ b = hyphen) l ∧
  (∃ b, list.head l = Some b ∧ is_alphanumeric b = true) ∧ (∃ b, last l = Some b ∧ is_alphanumeric b = true) ∧
  ∀ i, ¬ (l !! i = Some dot ∧ l !! S i = Some dot).

Lemma contains_dots_spec l : contains_dots l = true ↔ ∃ i, l !! i = Some dot ∧ l !! S i = Some dot.
Proof.
  induction l as [|a l IH]; [split; [done|by intros (i & [=] & _)]|].
  destruct l as [|b l]; [split; [done|by intros (i & _ & [=])]|].
  change (contains_dots (a :: b :: l)) with (bool_decide (a = dot ∧ b = dot) || contains_dots (b :: l)).
  rw orb_true_iff bool_decide_eq_true IH. split.
  - intros [[-> ->]|(i & Hi)]; [by exists 0|by exists (S i)].
  - intros ([|i] & H1 & H2); [left; by injection H1 as ->; injection H2 as ->|right; by exists i].
Qed.

Lemma is_valid_hostname_spec s : is_valid_hostname s = true ↔ hostname_ok s.
Proof.
  unfold is_valid_hostname, hostname_ok. set (l := as_bytes s).
  assert (Hex : existsb (λ b, negb (is_alphanumeric b || bool_decide (b = dot) || bool_decide (b = hyphen))) l = false ↔
    Forall (λ b, is_alphanumeric b = true ∨ b = dot ∨ b = hyphen) l).
  { clearbody l. induction l as [|b l IH]; [by split|]. cbn [existsb]. rw orb_false_iff IH Forall_cons negb_false_iff.
    rw !orb_true_iff !bool_decide_eq_true. tauto. }
  assert (Hdots : contains_dots l = false ↔ ∀ i, ¬ (l !! i = Some dot ∧ l !! S i = Some dot)).
  { rw -not_true_iff_false contains_dots_spec. naive_solver. }
  rw -Hdots -Hex. destruct (decide (l = [])) as [->|Hne]; [split; [done|by intros (_ & _ & (? & [=] & _) & _)]|].
  rw bool_decide_false; [done|]. cbn [orb]. destruct (Nat.ltb_spec 253 (length l)); [split; [done|lia]|].
  destruct (existsb _ l); [split; [done|by intros (_ & ? & _)]|].
  destruct (list.head l) as [h|] eqn:Hh; [|split; [done|by intros (_ & _ & (? & [=] & _) & _)]].
  destruct (last l) as [t|] eqn:Ht; [|rw orb_true_r; split; [done|by intros (_ & _ & _ & (? & [=] & _) & _)]].
  destruct (is_alphanumeric h) eqn:Eh, (is_alphanumeric t) eqn:Et; cbn [negb orb]; rw ?negb_true_iff; try (split; [done|]);
    try naive_solver congruence.
Qed.

Definition arguments_ok (args : list string) : Prop :=
  args = ["tunnel"; "--no-autoupdate"; "run"] ∨ ∃ h, args = ["tunnel"; "--no-autoupdate"; "run"; "--hostname"; h] ∧ hostname_ok h.

Lemma spawn_launched sys uuid m : Forall arguments_ok (launched m) → Forall arguments_ok (launched (spawn_cloudflared sys uuid m).1).
Proof.
  intros Hl. unfold spawn_cloudflared. set (h := tc_hostname (tm_config m)). case_bool_decide as Hh; cbn [negb andb].
  - destruct sys as [| |c]; [by case_match|done|]. cbn. apply Forall_app. split; [done|]. constructor; [by left|constructor].
  - destruct (is_valid_hostname h) eqn:Hv; cbn [negb]; [|done]. destruct sys as [| |c]; [by case_match|done|]. cbn.
    apply Forall_app. split; [done|]. constructor; [|constructor]. right. exists h. split; [done|by apply is_valid_hostname_spec].
Qed.

(** Every command line that is ever used is the fixed one, or that with the configured name when it is a host name: letters,
    digits, dots and hyphens, with a letter or digit at both ends, so that it is not taken for an option. *)
Theorem launched_arguments_safe c ops : Forall arguments_ok (launched (run c ops)).
Proof.
  induction ops as [|o ops IH] using rev_ind; [constructor|]. unfold run in *. rw foldl_app. cbn [foldl].
  set (m := foldl step (new_tunnel c) ops) in *. destruct o as [now sys uuid| | |waited|now sys uuid|now]; cbn [step].
  - unfold start. pose proof (spawn_launched sys uuid (set_state TStarting m) IH) as Hs.
    destruct (spawn_cloudflared sys uuid (set_state TStarting m)) as [m' [id|e]]; by destruct (tm_state m).
  - unfold stop. cbn. by destruct (process m).
  - unfold supervise_take. destruct (supervisor m) as [[]|]; try done. by destruct (process m).
  - unfold supervise_exit. destruct (supervisor m) as [[]|]; try done. destruct waited; [|done]. cbn. by destruct (auto_restart _).
  - unfold supervise_wake. pose proof (spawn_launched sys uuid m IH) as Hs.
    destruct (spawn_cloudflared sys uuid m) as [m' [id|e]]; by destruct (supervisor m) as [[]|].
  - done.
Qed.

(** The delay doubles with every failure, up to the limit, and never exceeds it. *)
Theorem restart_delay_bounds c f :
  (restart_delay c f ≤ restart_max_ms c)%N ∧ (restart_delay c f ≤ restart_delay c (f + 1))%N ∧
  ((f ≤ 20)%N → (restart_base_ms c * 2 ^ f ≤ u64_max)%N → restart_delay c f = N.min (restart_base_ms c * 2 ^ f) (restart_max_ms c)).
Proof.
  unfold restart_delay, sat_mul. split_and!.
  - lia.
  - assert (Hp : (2 ^ N.min f 20 ≤ 2 ^ N.min (f + 1) 20)%N) by (apply N.pow_le_mono_r; lia).
    assert (Hm : (restart_base_ms c * 2 ^ N.min f 20 ≤ restart_base_ms c * 2 ^ N.min (f + 1) 20)%N) by by apply N.mul_le_mono_l. lia.
  - intros Hf Hu. rw (N.min_l f 20 Hf). lia.
Qed.

(** ** Processes *)

(** The processes the manager or its supervisor has a handle of. *)
Definition held (m : TunnelManager) : list nat :=
  option_list (process m) ++ match supervisor m with Some (Waiting _ c) => [c] | _ => [] end.

(** The states of a run in which nobody stops the tunnel: no process; one that was just started; one the supervisor waits for;
    none, and the supervisor about to start it again. *)
Inductive supervised (m : TunnelManager) : Prop :=
| sup_idle : process m = None → running m = [] → supervisor m = None ∨ supervisor m = Some Finished ∨ (∃ f, supervisor m = Some (Looking f)) →
    supervised m
| sup_fresh c f : process m = Some c → running m = [c] → supervisor m = Some (Looking f) → is_available m = true → supervised m
| sup_waiting c f : process m = None → running m = [c] → supervisor m = Some (Waiting f c) → is_available m = true → supervised m
| sup_sleeping f d : process m = None → running m = [] → supervisor m = Some (Sleeping f d) → is_available m = true → supervised m.

Lemma supervised_held m : supervised m → running m = held m ∧ length (held m) ≤ 1.
Proof.
  unfold held. intros [Hp Hr Hs|c f Hp Hr Hs _|c f Hp Hr Hs _|f d Hp Hr Hs _]; rw Hp Hr; try rw Hs; cbn; try (split; [done|lia]).
  destruct Hs as [->|[->|[f ->]]]; (split; [done|cbn; lia]).
Qed.

(** Spawning changes nothing but the process. *)
Lemma spawn_cases sys uuid m :
  let '(m', r) := spawn_cloudflared sys uuid m in
  (∃ c args, m' = set_process (Some c) (born c args m) ∧ is_ok r = true) ∨ m' = m.
Proof.
  unfold spawn_cloudflared. destruct (_ && _); [by right|]. destruct sys as [| |c]; [destruct (allow_simulation _); by right|by right|]. left. by eexists _, _.
Qed.

Lemma start_supervised now sys uuid m : supervised m → supervised (start now sys uuid m).1.
Proof.
  intros Hm. unfold start. destruct (is_available m) eqn:Ha.
  { unfold is_available in Ha. by destruct (tm_state m). }
  destruct Hm as [Hp Hr Hs|c f _ _ _ Ha'|c f _ _ _ Ha'|f d _ _ _ Ha']; [|congruence..].
  pose proof (spawn_cases sys uuid (set_state TStarting m)) as Hc.
  assert (Hm : supervised m) by by apply sup_idle.
  destruct (spawn_cloudflared sys uuid (set_state TStarting m)) as [m' r].
  assert (Hnew : supervised (match r with
    | Ok id => (set_supervisor (Some (Looking 0)) (set_state (TActive id 0) (set_started (Some now) m')), Ok id)
    | Err e => (set_state (TError (error_text e)) m', Err e) end).1).
  { destruct Hc as [(c & args & -> & Hok)| ->]; destruct r as [id|e]; cbn [fst].
    - by apply (sup_fresh _ c 0); cbn; rw ?Hr.
    - done.
    - apply sup_idle; cbn; [done..|]. right. right. by exists 0%N.
    - by apply sup_idle. }
  destruct (tm_state m); destruct r; done.
Qed.

Lemma step_supervised m o : o ≠ OpStop → o ≠ OpExit false → supervised m → supervised (step m o).
Proof.
  intros Hstop Hexit Hm. destruct o as [now sys uuid| | |waited|now sys uuid|now]; cbn [step].
  - by apply start_supervised.
  - done.
  - unfold supervise_take. destruct Hm as [Hp Hr Hs|c f Hp Hr Hs Ha|c f Hp Hr Hs Ha|f d Hp Hr Hs Ha]; try rw Hs.
    + destruct Hs as [Hs|[Hs|[f Hs]]]; rw Hs; [by apply sup_idle; auto..|]. rw Hp. apply sup_idle; cbn; auto.
    + rw Hp. by apply (sup_waiting _ c f).
    + by apply (sup_waiting _ c f).
    + by apply (sup_sleeping _ f d).
  - destruct waited; [|done]. unfold supervise_exit.
    destruct Hm as [Hp Hr Hs|c f Hp Hr Hs Ha|c f Hp Hr Hs Ha|f d Hp Hr Hs Ha]; try rw Hs.
    + destruct Hs as [Hs|[Hs|[f Hs]]]; rw Hs; apply sup_idle; auto. right. right. by exists f.
    + by apply (sup_fresh _ c f).
    + assert (Hd : running (dead c m) = []) by (cbn; rw Hr filter_cons_False; [naive_solver|done]).
      cbn [negb]. destruct (auto_restart _); cbn [negb].
      * by eapply sup_sleeping; [exact Hp|exact Hd|reflexivity|exact Ha].
      * apply sup_idle; [exact Hp|exact Hd|]. right. by left.
    + by apply (sup_sleeping _ f d).
  - unfold supervise_wake. destruct Hm as [Hp Hr Hs|c f Hp Hr Hs Ha|c f Hp Hr Hs Ha|f d Hp Hr Hs Ha]; try rw Hs.
    + destruct Hs as [Hs|[Hs|[f Hs]]]; rw Hs; apply sup_idle; auto. right. right. by exists f.
    + by apply (sup_fresh _ c f).
    + by apply (sup_waiting _ c f).
    + pose proof (spawn_cases sys uuid m) as Hc. destruct (spawn_cloudflared sys uuid m) as [m' r].
      destruct Hc as [(c & args & -> & Hok)| ->]; destruct r as [id|e]; try done.
      * by apply (sup_fresh _ c f); cbn; rw ?Hr.
      * apply sup_idle; [exact Hp|exact Hr|]. right. right. by exists f.
      * apply sup_idle; [exact Hp|exact Hr|]. right. by left.
  - destruct Hm as [Hp Hr Hs|c f Hp Hr Hs Ha|c f Hp Hr Hs Ha|f d Hp Hr Hs Ha];
      [by apply sup_idle|by apply (sup_fresh _ c f)|by apply (sup_waiting _ c f)|by apply (sup_sleeping _ f d)].
Qed.

(** As long as nobody stops the tunnel and waiting works, there is at most one process, and the manager or its supervisor holds
    it. *)
Theorem one_process_held c ops :
  Forall (λ o, o ≠ OpStop ∧ o ≠ OpExit false) ops →
  running (run c ops) = held (run c ops) ∧ length (running (run c ops)) ≤ 1.
Proof.
  intros Hops. enough (Hs : supervised (run c ops)).
  { destruct (supervised_held _ Hs) as [-> ?]. done. }
  induction ops as [|o ops IH] using rev_ind; [by apply sup_idle; auto|].
  apply Forall_app in Hops as [Hops [[Ho1 Ho2] _]%Forall_cons]. unfold run in *. rw foldl_app. cbn [foldl].
  apply step_supervised; auto.
Qed.

(** [stop] ends a process only while the supervisor has not taken it: afterwards nothing refers to the process, the tunnel counts
    as idle, and another start runs a second one beside it. *)
Theorem stop_abandons_process m f c now c' uuid :
  supervisor m = Some (Waiting f c) → process m = None → c ∈ running m →
  tc_hostname (tm_config m) = "" ∨ is_valid_hostname (tc_hostname (tm_config m)) = true →
  let m1 := stop m in
  let m2 := (start now (Spawn c') uuid m1).1 in
  tm_state m1 = TIdle ∧ held m1 = [] ∧ c ∈ running m1 ∧ is_available m2 = true ∧ held m2 = [c'] ∧ c ∈ running m2 ∧ c' ∈ running m2.
Proof.
  intros Hs Hp Hc Hh m1 m2. subst m2. unfold m1, stop. cbn. rw Hp. cbn. split_and!; try done;
    unfold start, spawn_cloudflared; cbn; (destruct Hh as [->|Hv]; [rewrite bool_decide_true //=|rewrite Hv andb_false_r //=]).
  - by right.
  - by right.
  - by left.
  - by left.
Qed.

(** When a process ends, the supervisor waits no longer than the configured limit and starts it again; meanwhile the tunnel still
    counts as available.  A restart that fails is not tried again. *)
Theorem crash_is_followed_by_one_restart m f c now sys uuid :
  supervisor m = Some (Waiting f c) → auto_restart (tm_config m) = true →
  let m1 := supervise_exit true m in
  let m2 := supervise_wake now sys uuid m1 in
  (∃ f' d, supervisor m1 = Some (Sleeping f' d) ∧ (d ≤ restart_max_ms (tm_config m))%N) ∧ tm_state m1 = tm_state m ∧ c ∉ running m1 ∧
  match (spawn_cloudflared sys uuid m1).2 with
  | Ok id => tm_state m2 = TActive id 0 ∧ ∀ c', sys = Spawn c' → process m2 = Some c' ∧ c' ∈ running m2
  | Err e => is_available m2 = false ∧ supervisor m2 = Some Finished
  end.
Proof.
  intros Hs Ha m1 m2. unfold m1, supervise_exit. rw Hs. cbn [negb]. unfold dead at 1. cbn [tm_config]. rw Ha. cbn [negb].
  split_and!.
  - eexists _, _. split; [done|]. apply N.le_min_r.
  - done.
  - cbn. rw list_elem_of_filter. naive_solver.
  - assert (E : supervisor m1 = Some (Sleeping (N.min (f + 1) u32_max) (restart_delay (tm_config m) (N.min (f + 1) u32_max)))).
    { unfold m1, supervise_exit. rw Hs. cbn. by rw Ha. }
    assert (E1 : m1 = set_supervisor (Some (Sleeping (N.min (f + 1) u32_max) (restart_delay (tm_config m) (N.min (f + 1) u32_max)))) (dead c m)).
    { unfold m1, supervise_exit. rw Hs. cbn. by rw Ha. }
    rw -E1. unfold m2, supervise_wake. rw E. pose proof (spawn_cases sys uuid m1) as Hc.
    destruct (spawn_cloudflared sys uuid m1) as [m' [id|e]] eqn:Hsp; cbn [snd]; [|done]. split; [done|]. intros c' ->.
    unfold spawn_cloudflared in Hsp. destruct (_ && _); [done|]. injection Hsp as <- _. cbn. split; [done|by left].
Qed.

(** ** Witnesses *)
Module TunnelWitness.
Definition config : TunnelConfig := mk_TunnelConfig "tunnel.example.com" false true 1000 60000.
Definition ops : list op := [OpStart 0 (Spawn 1) "u"; OpTake; OpExit true; OpWake 9 (Spawn 2) "v"; OpTake].
Definition waiting : TunnelManager := run config ops.
End TunnelWitness.

Lemma one_process_held_witness :
  running TunnelWitness.waiting = [2] ∧ length (running TunnelWitness.waiting) ≤ 1.
Proof.
  destruct (one_process_held TunnelWitness.config TunnelWitness.ops) as [Hr Hl].
  - repeat constructor; discriminate.
  - split; [exact Hr|exact Hl].
Defined.

Lemma stop_abandons_process_witness :
  held (stop TunnelWitness.waiting) = [] ∧ 2 ∈ running (stop TunnelWitness.waiting).
Proof.
  destruct (stop_abandons_process TunnelWitness.waiting 1 2 5 3 "w") as (_ & Hh & Hr & _).
  - reflexivity.
  - reflexivity.
  - vm_compute. left.
  - right. vm_compute. reflexivity.
  - split; [exact Hh|exact Hr].
Defined.

Lemma crash_is_followed_by_one_restart_witness :
  tm_state (supervise_wake 9 SpawnError "w" (supervise_exit true TunnelWitness.waiting)) = TError "Failed to spawn cloudflared" ∧
  supervisor (supervise_wake 9 SpawnError "w" (supervise_exit true TunnelWitness.waiting)) = Some Finished.
Proof.
  destruct (crash_is_followed_by_one_restart TunnelWitness.waiting 1 2 9 SpawnError "w") as (_ & _ & _ & Hr).
  - reflexivity.
  - reflexivity.
  - split; [vm_compute; reflexivity|]. vm_compute in Hr. destruct Hr as [_ Hr]. vm_compute. exact Hr.
Defined.
