(* ===== verification/Quic.v ===== *)
(** * QUIC sessions

    [synergos-net/src/quic/]: the signed Hello by which a client names itself, the check of
    a server's certificate against the peer that was dialled, and the table of connections.

    The QUIC and TLS stacks are not part of the program.  What a dial or an incoming
    handshake came to is an argument ([Dial], [Incoming]), and the parser of certificates is
    the parameter [X509]; the check the TLS stack calls back is a definition.  A connection
    is its stable number, a stream the bytes it carries. *)

From S2P Require Import Prelude Crypto Types Identity Content Invite.

(** ** Hello *)
Definition HELLO_STREAM_MAGIC : bytes := as_bytes "HLO1".

Record Hello := mk_Hello { he_peer_id : PeerId; he_public_key : bytes; ts_ms : N }.

Definition hello_signing_bytes (h : Hello) : bytes :=
  as_bytes (he_peer_id h) ++ [x00] ++ he_public_key h ++ le_bytes 8 (ts_ms h).

Record SignedHello := mk_SignedHello { sh_hello : Hello; sh_signature : bytes }.

Global Instance Hello_eq_dec : EqDecision Hello.
Proof. solve_decision. Defined.
Global Instance SignedHello_eq_dec : EqDecision SignedHello.
Proof. solve_decision. Defined.

Section hello.
Context `{Blake3, Hex, Ed25519, !Codec SignedHello}.

Definition new_hello (now_ms : N) (i : Identity) : SignedHello :=
  let hello := mk_Hello (Identity.peer_id i) (public_key_bytes i) now_ms in
  mk_SignedHello hello (sign i (hello_signing_bytes hello)).

Definition verify_hello (s : SignedHello) : result NetError PeerId :=
  let h := sh_hello s in
  if negb (length (he_public_key h) =? 32) then Err (EIdentity "hello public_key length != 32")
  else if negb (length (sh_signature s) =? 64) then Err (EIdentity "hello signature length != 64")
  else
    let derived := peer_id_from_public_bytes (he_public_key h) in
    if negb (bool_decide (derived = he_peer_id h)) then Err (EIdentity "hello peer_id does not match public_key")
    else
      match verify (he_public_key h) (hello_signing_bytes h) (sh_signature s) with
      | Err _ => Err (EIdentity "hello signature invalid")
      | Ok _ => Ok derived
      end.

(** The stream the client writes, unless QUIC fails at a stage of it. *)
Definition send_hello (fails : option string) (now_ms : N) (i : Identity) : result NetError bytes :=
  payload ← ok_or (to_vec (new_hello now_ms i)) (ESerialization "hello encode");
  match fails with
  | Some stage => Err (EQuic stage)
  | None => Ok (HELLO_STREAM_MAGIC ++ be_bytes 4 (len payload) ++ payload)
  end.

(** The first stream of an accepted connection. *)
Inductive FirstStream := TimedOut | NoStream | Stream (b : bytes).

Definition read_hello (b : bytes) : result NetError PeerId :=
  if length b <? 4 then Err (EQuic "hello magic")
  else if negb (bool_decide (take 4 b = HELLO_STREAM_MAGIC)) then Err (EIdentity "unexpected first-stream magic")
  else
    let b := drop 4 b in
    if length b <? 4 then Err (EQuic "hello len")
    else
      let n := of_be_bytes (take 4 b) in
      let b := drop 4 b in
      if (4096 <? n)%N then Err (EIdentity "hello too large")
      else if (len b <? n)%N then Err (EQuic "hello body")
      else
        signed ← ok_or (from_slice (A := SignedHello) (take (N.to_nat n) b)) (ESerialization "hello decode");
        verify_hello signed.

Definition recv_hello (s : FirstStream) : result NetError PeerId :=
  match s with
  | TimedOut => Err (EIdentity "hello timed out")
  | NoStream => Err (EQuic "hello accept_bi")
  | Stream b => read_hello b
  end.
End hello.

(** ** The certificate of the server *)

(** [X509Certificate::from_der]: the identifier of the key's algorithm, when its numbers fit, and the key. *)
Class X509 := x509_spki : bytes → option (option (list N) * bytes).

Definition OID_ED25519 : list N := [1; 3; 101; 112]%N.

Inductive PinError := NoEd25519Key | BadKeyLength (n : nat) | IdentityMismatch (expected got : string) | PinPanicked.

Section pinning.
Context `{Blake3, Hex, X509}.

Definition extract_ed25519_spki (cert : bytes) : option bytes :=
  '(oid, key) ← x509_spki cert;
  oid ← oid;
  if bool_decide (oid = OID_ED25519) then Some key else None.

Definition check_peer_binding (expected : PeerId) (cert : bytes) : result PinError bytes :=
  pubkey ← ok_or (extract_ed25519_spki cert) NoEd25519Key;
  if negb (length pubkey =? 32) then Err (BadKeyLength (length pubkey))
  else
    let derived := peer_id_from_public_bytes pubkey in
    if bool_decide (derived = expected) then Ok pubkey
    else
      match short expected, short derived with
      | Some a, Some b => Err (IdentityMismatch a b)
      | _, _ => Err PinPanicked
      end.

Definition verify_server_cert (expected : PeerId) (cert : bytes) : result PinError () :=
  _ ← check_peer_binding expected cert; Ok ().
End pinning.

(** ** The table of connections *)
Inductive QuicConnectionState := QConnecting | QConnected | QClosing | QClosed.

Record QuicConnection := mk_QuicConnection {
  qc_peer_id : PeerId;
  qc_remote_addr : SocketAddr;
  active_streams : N;
  qc_state : QuicConnectionState;
  qc_rtt_ms : N;
  connection : option nat;
}.

Record AcceptedConnection := mk_AcceptedConnection {
  ac_peer_id : PeerId;
  ac_remote_addr : SocketAddr;
  ac_connection : nat;
}.

(** [closed] lists the connections this side closed, with the reason it gave. *)
Record QuicManager := mk_QuicManager {
  qm_identity : Identity;
  connections : gmap PeerId QuicConnection;
  endpoint : bool;
  qm_local_addr : option SocketAddr;
  bandwidth_estimates : gmap PeerId N;
  qm_outbound_tx : list AcceptedConnection;
  closed : list (nat * string);
}.

Definition new_quic (i : Identity) : QuicManager := mk_QuicManager i ∅ false None ∅ [] [].

Definition set_connections x (m : QuicManager) : QuicManager :=
  mk_QuicManager (qm_identity m) x (endpoint m) (qm_local_addr m) (bandwidth_estimates m) (qm_outbound_tx m) (closed m).
Definition set_endpoint b a (m : QuicManager) : QuicManager :=
  mk_QuicManager (qm_identity m) (connections m) b a (bandwidth_estimates m) (qm_outbound_tx m) (closed m).
Definition set_bandwidth x (m : QuicManager) : QuicManager :=
  mk_QuicManager (qm_identity m) (connections m) (endpoint m) (qm_local_addr m) x (qm_outbound_tx m) (closed m).
Definition notify_outbound a (m : QuicManager) : QuicManager :=
  mk_QuicManager (qm_identity m) (connections m) (endpoint m) (qm_local_addr m) (bandwidth_estimates m) (qm_outbound_tx m ++ [a])
    (closed m).
Definition close_connection (c : nat) (reason : string) (m : QuicManager) : QuicManager :=
  mk_QuicManager (qm_identity m) (connections m) (endpoint m) (qm_local_addr m) (bandwidth_estimates m) (qm_outbound_tx m)
    (closed m ++ [(c, reason)]).

Definition KEEP_ALIVE_DIVISOR : N := 3.
Definition KEEP_ALIVE_MIN_MS : N := 1000.
Definition keep_alive_interval_for (idle_timeout_ms : N) : option N :=
  if (idle_timeout_ms =? 0)%N then None
  else
    let ms := N.max (idle_timeout_ms / KEEP_ALIVE_DIVISOR) KEEP_ALIVE_MIN_MS in
    if (idle_timeout_ms <=? ms)%N then None else Some ms.

(** [build_transport]: the idle timeout and the keep-alive interval of a connection.  QUIC carries a timeout below [2 ^ 62]. *)
Definition build_transport (idle_timeout_ms : N) : option N * option N :=
  (if (idle_timeout_ms =? 0)%N then None else Some (if (idle_timeout_ms <? 2 ^ 62)%N then idle_timeout_ms else 30000)%N,
   keep_alive_interval_for idle_timeout_ms).

(** One connection per peer: the one that is replaced is closed. *)
Definition store_connection (p : PeerId) (c : QuicConnection) (m : QuicManager) : QuicManager :=
  let previous := connections m !! p in
  let m := set_connections (<[p := c]> (connections m)) m in
  match previous ≫= connection with
  | Some old => close_connection old "superseded connection" m
  | None => m
  end.

(** What a dial came to: the client configuration was refused, the dial failed at once, the handshake failed (the message names
    the issuer, or not), or the server presented a certificate and the TLS stack found that the handshake was signed with its
    key, or not; then the number of the connection, its round trip time and the stage at which the Hello failed. *)
Inductive Dial :=
| ClientConfigError
| ConnectError
| ConnectionFailed (untrusted : bool)
| Presented (cert : bytes) (transcript_signed : bool) (conn : nat) (rtt : N) (hello_fails : option string).

(** What came in: the endpoint was closed, the handshake failed, or a connection with its first stream. *)
Inductive Incoming :=
| EndpointClosed
| HandshakeFailed
| Established (conn : nat) (remote : SocketAddr) (rtt : N) (first : FirstStream).

Section manager.
Context `{Blake3, Hex, Ed25519, X509, !Codec SignedHello}.

Definition bind (addr : result NetError SocketAddr) (m : QuicManager) : QuicManager * result NetError SocketAddr :=
  match addr with
  | Ok a => (set_endpoint true (Some a) m, Ok a)
  | Err e => (m, Err e)
  end.

Definition connect (d : Dial) (now_ms : N) (expected : PeerId) (addr : SocketAddr) (m : QuicManager) :
    QuicManager * result NetError () :=
  if negb (endpoint m) then (m, Err (EQuic "Endpoint not initialized"))
  else
    match d with
    | ClientConfigError => (m, Err (EQuic "QUIC client crypto"))
    | ConnectError => (m, Err (EQuic "Connect error"))
    | ConnectionFailed true => (m, Err (EIdentity "peer auth failed"))
    | ConnectionFailed false => (m, Err (EQuic "Connection failed"))
    | Presented cert transcript_signed conn rtt hello_fails =>
        match verify_server_cert expected cert with
        | Err PinPanicked => (m, Err Panicked)
        | Err _ => (m, Err (EIdentity "peer auth failed"))
        | Ok _ =>
            if negb transcript_signed then (m, Err (EQuic "Connection failed"))
            else
              match send_hello hello_fails now_ms (qm_identity m) with
              | Err _ => (close_connection conn "hello failed" m, Err (EIdentity "hello send failed"))
              | Ok _ =>
                  let c := mk_QuicConnection expected addr 0 QConnected rtt (Some conn) in
                  (notify_outbound (mk_AcceptedConnection expected addr conn) (store_connection expected c m), Ok ())
              end
        end
    end.

Definition accept (inc : Incoming) (m : QuicManager) : QuicManager * result NetError (option AcceptedConnection) :=
  if negb (endpoint m) then (m, Ok None)
  else
    match inc with
    | EndpointClosed => (m, Ok None)
    | HandshakeFailed => (m, Err (EQuic "Incoming handshake failed"))
    | Established conn remote rtt first =>
        match recv_hello first with
        | Err e => (close_connection conn "hello rejected" m, Err e)
        | Ok p =>
            let c := mk_QuicConnection p remote 0 QConnected rtt (Some conn) in
            (store_connection p c m, Ok (Some (mk_AcceptedConnection p remote conn)))
        end
    end.
End manager.

(** Only the entry of that very connection is removed. *)
Definition remove_closed (p : PeerId) (stable_id : nat) (m : QuicManager) : QuicManager * bool :=
  match connections m !! p ≫= connection with
  | Some c =>
      if c =? stable_id then
        (set_bandwidth (delete p (bandwidth_estimates m)) (set_connections (delete p (connections m)) m), true)
      else (m, false)
  | None => (m, false)
  end.

Definition disconnect (p : PeerId) (reason : string) (m : QuicManager) : QuicManager :=
  let m := match connections m !! p ≫= connection with Some c => close_connection c reason m | None => m end in
  set_bandwidth (delete p (bandwidth_estimates m)) (set_connections (delete p (connections m)) m).

Definition update_connection (f : QuicConnection → QuicConnection) (p : PeerId) (m : QuicManager) : QuicManager :=
  set_connections (alter f p (connections m)) m.

(** A [u32] that wraps around in a release build. *)
Definition more_streams (c : QuicConnection) : QuicConnection :=
  mk_QuicConnection (qc_peer_id c) (qc_remote_addr c) ((active_streams c + 1) mod 2 ^ 32)%N (qc_state c) (qc_rtt_ms c) (connection c).
Definition with_rtt (rtt : N) (c : QuicConnection) : QuicConnection :=
  mk_QuicConnection (qc_peer_id c) (qc_remote_addr c) (active_streams c) (qc_state c) rtt (connection c).

(** The connection on which the stream is opened; [opens] is the answer of QUIC. *)
Definition open_stream (opens : bool) (p : PeerId) (m : QuicManager) : QuicManager * result NetError nat :=
  match connections m !! p with
  | None => (m, Err (EPeerNotFound p))
  | Some c =>
      match connection c with
      | None => (m, Err (EQuic "Connection not established"))
      | Some conn =>
          if opens then (update_connection more_streams p m, Ok conn) else (m, Err (EQuic "Failed to open stream"))
      end
  end.

(** [fails] is the stage after opening at which QUIC fails. *)
Definition send_control (opens : bool) (fails : option string) (p : PeerId) (m : QuicManager) : QuicManager * result NetError () :=
  match open_stream opens p m with
  | (m, Err e) => (m, Err e)
  | (m, Ok _) => match fails with Some stage => (m, Err (EQuic stage)) | None => (m, Ok ()) end
  end.

Definition get_connection (m : QuicManager) (p : PeerId) : option QuicConnection := connections m !! p.
Definition raw_connection (m : QuicManager) (p : PeerId) : option nat := connections m !! p ≫= connection.
Definition list_connections `{!MapIter PeerId QuicConnection} (m : QuicManager) : list QuicConnection :=
  (map_iter (connections m)).*2.

Definition update_rtt (p : PeerId) (rtt_ms : N) (m : QuicManager) : QuicManager := update_connection (with_rtt rtt_ms) p m.
Definition update_bandwidth_estimate (p : PeerId) (bps : N) (m : QuicManager) : QuicManager :=
  set_bandwidth (<[p := bps]> (bandwidth_estimates m)) m.
Definition get_bandwidth_estimate (m : QuicManager) (p : PeerId) : N := default 0%N (bandwidth_estimates m !! p).

(** The pings of [probe_rtt], each with what QUIC answers and the time it took. *)
Fixpoint ping_all (pings : list (bool * option string * N)) (rtts : list N) (p : PeerId) (m : QuicManager) :
    QuicManager * result NetError (list N) :=
  match pings with
  | [] => (m, Ok rtts)
  | (opens, fails, elapsed) :: pings =>
      match send_control opens fails p m with
      | (m, Err e) => (m, Err e)
      | (m, Ok _) => ping_all pings (rtts ++ [elapsed]) p m
      end
  end.

Definition probe_rtt (pings : list (bool * option string * N)) (p : PeerId) (m : QuicManager) : QuicManager * result NetError N :=
  match ping_all pings [] p m with
  | (m, Err e) => (m, Err e)
  | (m, Ok rtts) =>
      match isort N.leb rtts !! (length rtts / 2) with
      | None => (m, Err Panicked)
      | Some median => (update_rtt p median m, Ok median)
      end
  end.

Definition shutdown_quic `{!MapIter PeerId QuicConnection} (m : QuicManager) : QuicManager :=
  set_endpoint false (qm_local_addr m) (foldl (λ m p, disconnect p "shutdown" m) m (map_iter (connections m)).*1).

(** ** Hello: who is recognised *)
Section hello_facts.
Context `{Blake3, Hex, Ed25519, !Codec SignedHello}.

(** What a peer has to have sent to be recognised as [p]. *)
Definition signed_as (p : PeerId) (b : bytes) : Prop :=
  ∃ s rest, b = HELLO_STREAM_MAGIC ++ rest ∧ from_slice (A := SignedHello) (take (N.to_nat (of_be_bytes (take 4 rest))) (drop 4 rest)) = Some s ∧
    he_peer_id (sh_hello s) = p ∧ length (he_public_key (sh_hello s)) = 32 ∧
    peer_id_from_public_bytes (he_public_key (sh_hello s)) = p ∧
    ed_verify (he_public_key (sh_hello s)) (hello_signing_bytes (sh_hello s)) (sh_signature s) = true.

Lemma read_hello_signed b p : read_hello b = Ok p → signed_as p b.
Proof.
  unfold read_hello, ok_or, verify_hello, verify. intros Hr. inv_result. bool_to_prop.
  exists s, (drop 4 b). split_and!; try done; try congruence.
  rewrite -{1}(take_drop 4 b). congruence.
Qed.

Lemma recv_hello_signed first p : recv_hello first = Ok p → ∃ b, first = Stream b ∧ signed_as p b.
Proof. destruct first as [| |b]; cbn; try done. intros Hr. exists b. split; [done|by apply read_hello_signed]. Qed.

Lemma hello_recognised `{!Ed25519Laws, !CodecLaws SignedHello} secret now b :
  length secret = 32 → send_hello None now (identity_of_secret secret) = Ok b → (len b ≤ 4104)%N →
  read_hello b = Ok (Identity.peer_id (identity_of_secret secret)).
Proof.
  intros Hlen. unfold send_hello. destruct (to_vec _) as [w|] eqn:Hw; [|done]. cbn [ok_or mbind result_bind]. intros Hs Hb.
  assert (b = HELLO_STREAM_MAGIC ++ be_bytes 4 (len w) ++ w) as -> by congruence. clear Hs.
  unfold read_hello. unfold len in *. rw !length_app length_be_bytes. change (length HELLO_STREAM_MAGIC) with 4.
  rw !length_app length_be_bytes in Hb. change (length HELLO_STREAM_MAGIC) with 4 in Hb.
  change (take 4 (HELLO_STREAM_MAGIC ++ ?x)) with HELLO_STREAM_MAGIC. change (drop 4 (HELLO_STREAM_MAGIC ++ ?x)) with x.
  rw bool_decide_true; [done|]. cbn [negb Nat.ltb Nat.leb Nat.add].
  rw take_app_length'; [by rw length_be_bytes|]. rw drop_app_length'; [by rw length_be_bytes|].
  rw of_be_bytes_be_bytes; [change (256 ^ N.of_nat 4)%N with 4294967296%N; lia|].
  rw (proj2 (N.ltb_ge _ _)); [lia|]. rw N.ltb_irrefl Nat2N.id firstn_all (from_slice_to_vec _ _ Hw). cbn.
  unfold verify_hello, new_hello. cbn [sh_hello he_public_key sh_signature he_peer_id public_key_bytes identity_of_secret verifying].
  rw (ed_public_length _ Hlen). cbn [Nat.eqb negb]. unfold sign. rw ed_sign_length. cbn [Nat.eqb negb].
  rw bool_decide_true; [done|]. cbn [negb]. unfold verify. cbn [signing]. by rw (ed_verify_sign _ _ Hlen).
Qed.
End hello_facts.

(** ** The operations of a run *)
Inductive op :=
| OpBind (addr : result NetError SocketAddr)
| OpConnect (d : Dial) (now_ms : N) (expected : PeerId) (addr : SocketAddr)
| OpAccept (inc : Incoming)
| OpRemoveClosed (p : PeerId) (stable_id : nat)
| OpDisconnect (p : PeerId) (reason : string)
| OpOpenStream (opens : bool) (p : PeerId)
| OpProbe (pings : list (bool * option string * N)) (p : PeerId)
| OpBandwidth (p : PeerId) (bps : N)
| OpShutdown.

(** The manager with the connections it took into its table and those it was told are closed. *)
Record Trace := mk_Trace { tr_manager : QuicManager; stored : list (PeerId * nat); gone : list nat }.

Section run.
Context `{Blake3, Hex, Ed25519, X509, !Codec SignedHello, !MapIter PeerId QuicConnection}.

Definition step (t : Trace) (o : op) : Trace :=
  let m := tr_manager t in
  match o with
  | OpBind addr => mk_Trace (bind addr m).1 (stored t) (gone t)
  | OpConnect d now expected addr =>
      match connect d now expected addr m, d with
      | (m, Ok _), Presented _ _ conn _ _ => mk_Trace m (stored t ++ [(expected, conn)]) (gone t)
      | (m, _), _ => mk_Trace m (stored t) (gone t)
      end
  | OpAccept inc =>
      match accept inc m with
      | (m, Ok (Some ac)) => mk_Trace m (stored t ++ [(ac_peer_id ac, ac_connection ac)]) (gone t)
      | (m, _) => mk_Trace m (stored t) (gone t)
      end
  | OpRemoveClosed p id => mk_Trace (remove_closed p id m).1 (stored t) (gone t ++ [id])
  | OpDisconnect p reason => mk_Trace (disconnect p reason m) (stored t) (gone t)
  | OpOpenStream opens p => mk_Trace (open_stream opens p m).1 (stored t) (gone t)
  | OpProbe pings p => mk_Trace (probe_rtt pings p m).1 (stored t) (gone t)
  | OpBandwidth p bps => mk_Trace (update_bandwidth_estimate p bps m) (stored t) (gone t)
  | OpShutdown => mk_Trace (shutdown_quic m) (stored t) (gone t)
  end.

Definition run (i : Identity) (ops : list op) : Trace := foldl step (mk_Trace (new_quic i) [] []) ops.

(** The number QUIC gave to the connection of an operation; numbers are not used twice. *)
Definition numbers (o : op) : list nat :=
  match o with
  | OpConnect (Presented _ _ conn _ _) _ _ _ => [conn]
  | OpAccept (Established conn _ _ _) => [conn]
  | _ => []
  end.

(** The operation proved that the connection [id] is the peer [p]'s: the dialled server holds the key of a certificate that
    gives [p], or the client signed a Hello as [p]. *)
Definition authenticates (o : op) (p : PeerId) (id : nat) : Prop :=
  match o with
  | OpConnect (Presented cert signed conn _ _) _ expected _ =>
      conn = id ∧ expected = p ∧ signed = true ∧
      ∃ pk, x509_spki cert = Some (Some OID_ED25519, pk) ∧ length pk = 32 ∧ peer_id_from_public_bytes pk = p
  | OpAccept (Established conn _ _ first) => conn = id ∧ ∃ b, first = Stream b ∧ signed_as p b
  | _ => False
  end.

Definition sound_entry (p : PeerId) (c : QuicConnection) : Prop := qc_peer_id c = p ∧ qc_state c = QConnected ∧ is_Some (connection c).

Record table_inv (used : list nat) (t : Trace) : Prop := {
  ti_entry : ∀ p c, connections (tr_manager t) !! p = Some c → sound_entry p c;
  ti_stored : ∀ p id, raw_connection (tr_manager t) p = Some id → (p, id) ∈ stored t;
  ti_kept : ∀ p id, (p, id) ∈ stored t →
    raw_connection (tr_manager t) p = Some id ∨ id ∈ (closed (tr_manager t)).*1 ∨ id ∈ gone t;
  ti_open : ∀ p id, raw_connection (tr_manager t) p = Some id → id ∉ (closed (tr_manager t)).*1;
  ti_unique : NoDup (stored t).*2;
  ti_used : ∀ id, id ∈ (stored t).*2 ∨ id ∈ (closed (tr_manager t)).*1 → id ∈ used;
}.

Lemma NoDup_key_inj {A B} (f : A → B) l x y : NoDup (f <$> l) → x ∈ l → y ∈ l → f x = f y → x = y.
Proof.
  intros Hnd (i & Hi)%list_elem_of_lookup_1 (j & Hj)%list_elem_of_lookup_1 Hf.
  assert (i = j) as ->; [|congruence]. eapply (NoDup_lookup _ _ _ (f x) Hnd); rw list_lookup_fmap; [by rw Hi|by rw Hj Hf].
Qed.

(** The table and what was closed are all the invariant looks at. *)
Lemma table_inv_same used t m' :
  connections m' = connections (tr_manager t) → closed m' = closed (tr_manager t) → table_inv used t →
  table_inv used (mk_Trace m' (stored t) (gone t)).
Proof. intros E1 E2 [H1' H2' H3' H4' H5' H6']. split; cbn; unfold raw_connection in *; rw ?E1 ?E2; done. Qed.

Lemma table_inv_more used used' t : used ⊆ used' → table_inv used t → table_inv used' t.
Proof. intros Hu [? ? ? ? ? H6']. split; try done. intros id Hid. by apply Hu, H6'. Qed.

Lemma close_fresh used t id reason :
  id ∉ used → table_inv used t →
  table_inv (used ++ [id]) (mk_Trace (close_connection id reason (tr_manager t)) (stored t) (gone t)).
Proof.
  intros Hid [H1' H2' H3' H4' H5' H6']. split; cbn; [done|done| | |done|].
  - intros p i Hi. rw fmap_app elem_of_app. destruct (H3' p i Hi) as [?|[?|?]]; auto.
  - intros p i Hr. rw fmap_app elem_of_app. cbn. intros [Hc|Hc%list_elem_of_singleton]; [by eapply H4'|subst i].
    apply Hid, H6'. left. apply list_elem_of_fmap. exists (p, id). split; [done|by apply H2'].
  - intros i. rw fmap_app !elem_of_app. cbn. intros [Hi|[Hi|Hi]]; [left; auto..|by right].
Qed.

Lemma raw_insert p c (m : QuicManager) q :
  raw_connection (set_connections (<[p := c]> (connections m)) m) q = if decide (p = q) then connection c else raw_connection m q.
Proof.
  unfold raw_connection. cbn. destruct (decide (p = q)) as [->|Hne]; [by rw lookup_insert_eq|by rw lookup_insert_ne].
Qed.

Lemma store_fresh used t p c id :
  id ∉ used → qc_peer_id c = p → qc_state c = QConnected → connection c = Some id → table_inv used t →
  table_inv (used ++ [id]) (mk_Trace (store_connection p c (tr_manager t)) (stored t ++ [(p, id)]) (gone t)).
Proof.
  intros Hid Hp Hst Hc [H1' H2' H3' H4' H5' H6'].
  assert (Hnew : id ∉ (stored t).*2) by (intros Hx; apply Hid, H6'; by left).
  assert (Hncl : id ∉ (closed (tr_manager t)).*1) by (intros Hx; apply Hid, H6'; by right).
  set (m := tr_manager t) in *.
  assert (Hcl : ∃ cl, closed (store_connection p c m) = closed m ++ cl ∧ cl.*1 = option_list (raw_connection m p)).
  { unfold store_connection, raw_connection. destruct (connections m !! p ≫= connection) as [old|]; cbn.
    - by exists [(old, "superseded connection")].
    - exists []. by rw app_nil_r. }
  destruct Hcl as (cl & Ecl & Ecl1).
  assert (Hconn : connections (store_connection p c m) = <[p := c]> (connections m)).
  { unfold store_connection. by destruct (_ ≫= connection). }
  assert (Hraw : ∀ q, raw_connection (store_connection p c m) q = if decide (p = q) then Some id else raw_connection m q).
  { intros q. unfold raw_connection. rw Hconn. destruct (decide (p = q)) as [->|?]; [by rw lookup_insert_eq|by rw lookup_insert_ne]. }
  assert (Hold : ∀ i, i ∈ cl.*1 → raw_connection m p = Some i).
  { intros i. rw Ecl1. destruct (raw_connection m p); cbn; [by intros ->%list_elem_of_singleton|by intros ?%elem_of_nil]. }
  split; cbn [tr_manager stored gone].
  - intros q x. rw Hconn. intros [[<- <-]|[_ Hx]]%lookup_insert_Some; [|by apply H1']. by split_and!; [..|exists id].
  - intros q i. rw Hraw elem_of_app list_elem_of_singleton. destruct (decide (p = q)) as [->|?]; [intros [= ->]; by right|left; auto].
  - intros q i. rw Ecl fmap_app !elem_of_app list_elem_of_singleton Hraw. intros [Hi|[= -> ->]]; [|left; by rw decide_True].
    destruct (H3' q i Hi) as [Hr|[?|?]]; auto. destruct (decide (p = q)) as [->|?]; [|auto].
    right. left. right. rw Ecl1 Hr. by left.
  - intros q i. rw Hraw Ecl fmap_app elem_of_app. destruct (decide (p = q)) as [->|Hne].
    + intros [= <-] [Hx|Hx%Hold]; [done|]. by apply Hnew, list_elem_of_fmap; exists (q, id); split; [|apply H2'].
    + intros Hr [Hx|Hx%Hold]; [by eapply H4'|]. apply Hne. apply H2' in Hr, Hx.
      enough ((p, i) = (q, i)) by congruence. by eapply (NoDup_key_inj snd).
  - rw fmap_app. apply NoDup_app. split_and!; [done| |apply NoDup_singleton]. intros i Hi ->%list_elem_of_singleton. done.
  - intros i. rw Ecl !fmap_app !elem_of_app. cbn. intros [[?|?]|[?|Hx%Hold]]; [left; auto|by right|left; auto|].
    left. apply H6'. left. apply list_elem_of_fmap. exists (p, i). split; [done|by apply H2'].
Qed.

Lemma raw_delete p (m : QuicManager) q :
  (delete p (connections m) !! q ≫= connection) = if decide (p = q) then None else raw_connection m q.
Proof. unfold raw_connection. destruct (decide (p = q)) as [->|?]; [by rw lookup_delete_eq|by rw lookup_delete_ne]. Qed.

Lemma disconnect_inv used t p reason :
  table_inv used t → table_inv used (mk_Trace (disconnect p reason (tr_manager t)) (stored t) (gone t)).
Proof.
  intros [H1' H2' H3' H4' H5' H6']. set (m := tr_manager t) in *.
  assert (Hconn : connections (disconnect p reason m) = delete p (connections m)).
  { unfold disconnect. by destruct (_ ≫= connection). }
  assert (Hcl : closed (disconnect p reason m) = closed m ++ ((λ c, (c, reason)) <$> option_list (raw_connection m p))).
  { unfold disconnect, raw_connection. destruct (connections m !! p ≫= connection); cbn; by rw ?app_nil_r. }
  assert (Hin : ∀ i, i ∈ (closed (disconnect p reason m)).*1 ↔ i ∈ (closed m).*1 ∨ raw_connection m p = Some i).
  { intros i. rw Hcl fmap_app elem_of_app -list_fmap_compose. f_equiv. destruct (raw_connection m p); cbn.
    - rw list_elem_of_singleton. naive_solver.
    - rw elem_of_nil. naive_solver. }
  split; cbn [tr_manager stored gone]; [| | | |done|].
  - intros q c. rw Hconn. intros [_ Hx]%lookup_delete_Some. by apply H1'.
  - intros q i. unfold raw_connection. rw Hconn raw_delete. destruct (decide (p = q)); [done|apply H2'].
  - intros q i Hi. rw Hin. unfold raw_connection at 1. rw Hconn raw_delete. destruct (H3' q i Hi) as [?|[?|?]]; auto.
    destruct (decide (p = q)) as [->|?]; auto.
  - intros q i. unfold raw_connection at 1. rw Hconn raw_delete Hin. destruct (decide (p = q)) as [|Hne]; [done|].
    intros Hr [?|Hr']; [by eapply H4'|]. apply Hne. apply H2' in Hr, Hr'. enough ((p, i) = (q, i)) by congruence.
    by eapply (NoDup_key_inj snd).
  - intros i. rw Hin. intros [?|[?|Hr%H2']]; [apply H6'; auto..|]. apply H6'. left. apply list_elem_of_fmap. by exists (p, i).
Qed.

Lemma remove_closed_inv used t p id :
  table_inv used t → table_inv used (mk_Trace (remove_closed p id (tr_manager t)).1 (stored t) (gone t ++ [id])).
Proof.
  intros [H1' H2' H3' H4' H5' H6']. set (m := tr_manager t) in *. unfold remove_closed. fold (raw_connection m p).
  assert (Hmore : ∀ q i, (q, i) ∈ stored t → raw_connection m q = Some i ∨ i ∈ (closed m).*1 ∨ i ∈ gone t ++ [id]).
  { intros q i Hi. rw elem_of_app. destruct (H3' q i Hi) as [?|[?|?]]; auto. }
  destruct (raw_connection m p) as [c|] eqn:Hc; [|by split]. destruct (Nat.eqb_spec c id) as [->|]; [|by split].
  split; cbn [tr_manager stored gone fst]; [| | | |done|done].
  - intros q x. cbn. intros [_ Hx]%lookup_delete_Some. by apply H1'.
  - intros q i. unfold raw_connection. cbn. rw raw_delete. destruct (decide (p = q)); [done|apply H2'].
  - intros q i Hi. unfold raw_connection at 1. cbn. rw raw_delete. destruct (Hmore q i Hi) as [Hr|[?|?]]; auto.
    destruct (decide (p = q)) as [->|?]; [|auto]. right. right. rw elem_of_app. right. rw Hc in Hr. injection Hr as ->. by left.
  - intros q i. unfold raw_connection at 1. cbn. rw raw_delete. destruct (decide (p = q)); [done|apply H4'].
Qed.

(** Streams and measurements leave the connection of an entry alone. *)
Lemma update_connection_inv used t p f :
  (∀ c, qc_peer_id (f c) = qc_peer_id c ∧ qc_state (f c) = qc_state c ∧ connection (f c) = connection c) → table_inv used t →
  table_inv used (mk_Trace (update_connection f p (tr_manager t)) (stored t) (gone t)).
Proof.
  intros Hf [H1' H2' H3' H4' H5' H6']. set (m := tr_manager t) in *.
  assert (Hraw : ∀ q, raw_connection (update_connection f p m) q = raw_connection m q).
  { intros q. unfold raw_connection. cbn. destruct (decide (p = q)) as [->|?]; [|by rw lookup_alter_ne]. rw lookup_alter_eq.
    destruct (connections m !! q) as [c|]; [|done]. cbn. apply Hf. }
  split; cbn [tr_manager stored gone]; try (intros q i; rw Hraw); [| |apply H3'|apply H4'|done|done].
  - intros q c. cbn. intros Hc. destruct (decide (p = q)) as [->|?]; [|rw lookup_alter_ne in Hc; [done|by apply H1']].
    rw lookup_alter_eq in Hc. destruct (connections m !! q) as [c0|] eqn:E; [|done]. injection Hc as <-.
    destruct (Hf c0) as (E1 & E2 & E3). destruct (H1' q c0 E) as (? & ? & ?). split_and!; congruence.
  - apply H2'.
Qed.

Lemma open_stream_inv used t b p :
  table_inv used t → table_inv used (mk_Trace (open_stream b p (tr_manager t)).1 (stored t) (gone t)).
Proof.
  intros Hi. assert (Hid : table_inv used (mk_Trace (tr_manager t) (stored t) (gone t))) by by apply table_inv_same.
  unfold open_stream. destruct (_ !! p) as [c|]; [|done]. destruct (connection c); [|done]. destruct b; [|done].
  by apply update_connection_inv.
Qed.

Lemma ping_all_inv used pings : ∀ rtts p t, table_inv used t →
  table_inv used (mk_Trace (ping_all pings rtts p (tr_manager t)).1 (stored t) (gone t)).
Proof.
  induction pings as [|[[b f] e] pings IH]; intros rtts p t Hi; cbn [ping_all]; [by apply table_inv_same|].
  pose proof (open_stream_inv used t b p Hi) as Ho. unfold send_control. destruct (open_stream b p (tr_manager t)) as [m [c|]]; [|done].
  destruct f; [done|]. apply (IH _ p (mk_Trace m (stored t) (gone t))), Ho.
Qed.

Lemma shutdown_inv used ps : ∀ t, table_inv used t →
  table_inv used (mk_Trace (foldl (λ m p, disconnect p "shutdown" m) (tr_manager t) ps) (stored t) (gone t)).
Proof.
  induction ps as [|p ps IH]; intros t Hi; cbn [foldl]; [by apply table_inv_same|].
  apply (IH (mk_Trace (disconnect p "shutdown" (tr_manager t)) (stored t) (gone t))), disconnect_inv, Hi.
Qed.

(** What a successful dial establishes. *)
Lemma connect_Ok d now p addr m m' :
  connect d now p addr m = (m', Ok ()) →
  ∃ cert conn rtt, d = Presented cert true conn rtt None ∧ authenticates (OpConnect d now p addr) p conn ∧
    m' = notify_outbound (mk_AcceptedConnection p addr conn)
           (store_connection p (mk_QuicConnection p addr 0 QConnected rtt (Some conn)) m).
Proof.
  unfold connect, verify_server_cert, check_peer_binding, extract_ed25519_spki. destruct (endpoint m); [|done]. cbn [negb].
  destruct d as [| |[]|cert sg conn rtt hf]; try done. destruct (x509_spki cert) as [[oid pk]|] eqn:Hx; [|done].
  destruct oid as [oid|]; [|done]. cbn [mbind option_bind]. case_bool_decide as Ho; [|done]. subst oid. cbn [ok_or mbind result_bind].
  destruct (length pk =? 32) eqn:Hl; [|done]. cbn [negb]. case_bool_decide as Hp; [|by repeat (case_match; try done)].
  cbn [mbind result_bind]. destruct sg; [|done]. cbn [negb]. unfold send_hello. destruct (to_vec _); [|done]. destruct hf; [done|].
  cbn. intros [= <-]. exists cert, conn, rtt. bool_to_prop. split; [done|]. split; [|done]. split_and!; try done. by exists pk.
Qed.

Lemma accept_Ok inc m m' ac :
  accept inc m = (m', Ok (Some ac)) →
  ∃ conn remote rtt b, inc = Established conn remote rtt (Stream b) ∧ ac = mk_AcceptedConnection (ac_peer_id ac) remote conn ∧
    signed_as (ac_peer_id ac) b ∧
    m' = store_connection (ac_peer_id ac) (mk_QuicConnection (ac_peer_id ac) remote 0 QConnected rtt (Some conn)) m.
Proof.
  unfold accept. destruct (endpoint m); [|done]. cbn [negb]. destruct inc as [| |conn remote rtt first]; [done..|].
  destruct (recv_hello first) as [p|] eqn:Hr; [|done]. intros [= <- <-]. cbn. apply recv_hello_signed in Hr as (b & -> & Hs).
  by exists conn, remote, rtt, b.
Qed.

(** A failed attempt takes nothing into the table; at most it closes its own connection. *)
Lemma connect_failed d now p addr m m' e :
  connect d now p addr m = (m', Err e) → m' = m ∨ ∃ conn reason, numbers (OpConnect d now p addr) = [conn] ∧ m' = close_connection conn reason m.
Proof.
  unfold connect. destruct (negb _); [intros [= <- <-]; by left|]. destruct d as [| |[]|cert sg conn rtt hf]; try (intros [= <- <-]; by left).
  destruct (verify_server_cert p cert) as [|[]]; try (intros [= <- <-]; by left). destruct (negb sg); [intros [= <- <-]; by left|].
  destruct (send_hello _ _ _); [done|]. intros [= <- <-]. right. by exists conn, "hello failed".
Qed.

Lemma accept_failed inc m m' r :
  accept inc m = (m', r) → (∀ ac, r ≠ Ok (Some ac)) →
  m' = m ∨ ∃ conn reason, numbers (OpAccept inc) = [conn] ∧ m' = close_connection conn reason m.
Proof.
  unfold accept. destruct (negb _); [intros [= <- <-]; by left|]. destruct inc as [| |conn remote rtt first]; try (intros [= <- <-]; by left).
  destruct (recv_hello first) as [p|e]; intros [= <- <-] Hne; [by destruct (Hne _ eq_refl)|]. right. by exists conn, "hello rejected".
Qed.

Lemma failed_inv used t (l : list nat) m' :
  (∀ id, id ∈ l → id ∉ used) → m' = tr_manager t ∨ (∃ conn reason, l = [conn] ∧ m' = close_connection conn reason (tr_manager t)) →
  table_inv used t → table_inv (used ++ l) (mk_Trace m' (stored t) (gone t)).
Proof.
  intros Hl [->|(conn & reason & -> & ->)] Hi.
  - apply (table_inv_more used); [set_solver|by apply table_inv_same].
  - apply close_fresh; [apply Hl; by left|done].
Qed.

Lemma quic_step_inv used t o : (∀ id, id ∈ numbers o → id ∉ used) → table_inv used t → table_inv (used ++ numbers o) (step t o).
Proof.
  intros Hn Hi.
  assert (Hu : ∀ t', table_inv used t' → table_inv (used ++ numbers o) t') by (intros t'; apply table_inv_more; set_solver).
  destruct o as [addr|d now p addr|inc|p id|p reason|b p|pings p|p bps|]; cbn [step].
  - apply Hu. by destruct addr; apply table_inv_same.
  - destruct (connect d now p addr (tr_manager t)) as [m' [[]|e]] eqn:Hc.
    + apply connect_Ok in Hc as (cert & conn & rtt & -> & _ & ->).
      apply (table_inv_same _ (mk_Trace (store_connection p (mk_QuicConnection p addr 0 QConnected rtt (Some conn))
        (tr_manager t)) (stored t ++ [(p, conn)]) (gone t))); try done.
      apply store_fresh; try done. apply Hn. by left.
    + apply connect_failed in Hc. pose proof (failed_inv used t _ m' Hn Hc Hi) as Hf. by destruct d.
  - destruct (accept inc (tr_manager t)) as [m' r] eqn:Hc.
    destruct r as [[ac|]|e]; [|apply failed_inv; [done|by eapply accept_failed|done]..].
    apply accept_Ok in Hc as (conn & remote & rtt & b & -> & Eac & _ & ->). rw Eac. cbn [ac_peer_id ac_connection].
    apply store_fresh; try done. apply Hn. by left.
  - apply Hu. by apply remove_closed_inv.
  - apply Hu. by apply disconnect_inv.
  - apply Hu. by apply open_stream_inv.
  - apply Hu. unfold probe_rtt. pose proof (ping_all_inv used pings [] p t Hi) as Hp.
    destruct (ping_all pings [] p (tr_manager t)) as [m' [rtts|e]]; [|done]. destruct (_ !! _); [|done].
    by apply (update_connection_inv _ (mk_Trace m' (stored t) (gone t))).
  - apply Hu. by apply table_inv_same.
  - apply Hu. apply (table_inv_same _ (mk_Trace (foldl (λ m p, disconnect p "shutdown" m) (tr_manager t)
      (map_iter (connections (tr_manager t))).*1) (stored t) (gone t))); [done..|].
    by apply shutdown_inv.
Qed.

Lemma run_inv i ops : NoDup (ops ≫= numbers) → table_inv (ops ≫= numbers) (run i ops).
Proof.
  induction ops as [|o ops IH] using rev_ind; intros Hnd.
  - split; cbn; unfold raw_connection; cbn; try (intros *; rw lookup_empty); try done; try apply NoDup_nil; try set_solver.
  - rw bind_app in Hnd |- *. change ([o] ≫= numbers) with (numbers o ++ []) in Hnd |- *. rw app_nil_r in Hnd |- *. apply NoDup_app in Hnd as (Hnd & Hd & _).
    unfold run. rw foldl_app. cbn [foldl]. apply quic_step_inv; [|by apply IH]. intros id Hid Hx. by apply (Hd id).
Qed.

Lemma step_stored t o p id : (p, id) ∈ stored (step t o) → (p, id) ∈ stored t ∨ authenticates o p id.
Proof.
  destruct o as [addr|d now q addr|inc| | | | | |]; cbn [step]; try by left.
  - destruct (connect d now q addr (tr_manager t)) as [m' [[]|e]] eqn:Hc; [|destruct d; by left].
    apply connect_Ok in Hc as (cert & conn & rtt & -> & Ha & _). cbn [stored]. rw elem_of_app list_elem_of_singleton.
    intros [?|[= -> ->]]; [by left|by right].
  - destruct (accept inc (tr_manager t)) as [m' [[ac|]|e]] eqn:Hc; [|by left..].
    apply accept_Ok in Hc as (conn & remote & rtt & b & -> & Eac & Hs & _). cbn [stored]. rw elem_of_app list_elem_of_singleton Eac.
    intros [?|[= -> ->]]; [by left|right]. split; [done|]. by exists b.
Qed.

(** C23: The table of connections, after any operations.  Each entry is an established connection, under the peer it belongs to, and
    some operation proved that this peer is at the other end; no two peers share a connection, and none of the table has been
    closed from here.  A connection that was taken into the table is still in it, was closed from here, or was reported as
    closed: none is forgotten. *)
Theorem connections_authenticated i ops :
  NoDup (ops ≫= numbers) →
  let t := run i ops in
  (∀ p c, connections (tr_manager t) !! p = Some c →
     qc_peer_id c = p ∧ qc_state c = QConnected ∧
     ∃ id, connection c = Some id ∧ id ∉ (closed (tr_manager t)).*1 ∧ ∃ o, o ∈ ops ∧ authenticates o p id) ∧
  (∀ p q id, raw_connection (tr_manager t) p = Some id → raw_connection (tr_manager t) q = Some id → p = q) ∧
  (∀ p id, (p, id) ∈ stored t → raw_connection (tr_manager t) p = Some id ∨ id ∈ (closed (tr_manager t)).*1 ∨ id ∈ gone t).
Proof.
  intros Hnd t. pose proof (run_inv i ops Hnd) as [H1' H2' H3' H4' H5' _]. fold t in H1', H2', H3', H4', H5'.
  assert (Hauth : ∀ p id, (p, id) ∈ stored t → ∃ o, o ∈ ops ∧ authenticates o p id).
  { intros p id. unfold t. clear. induction ops as [|o ops IH] using rev_ind; [by intros ?%elem_of_nil|].
    unfold run. rw foldl_app. cbn [foldl]. intros [Hs|Ha]%step_stored.
    - destruct (IH Hs) as (o' & Ho & Ha). exists o'. split; [|done]. rw elem_of_app. by left.
    - exists o. split; [|done]. rw elem_of_app. right. by left. }
  split_and!; [| |done].
  - intros p c Hc. destruct (H1' p c Hc) as (? & ? & id & Hid). split_and!; [done|done|].
    assert (Hraw : raw_connection (tr_manager t) p = Some id) by (unfold raw_connection; by rw Hc).
    exists id. split_and!; [done|by eapply H4'|]. by apply Hauth, H2'.
  - intros p q id Hp%H2' Hq%H2'. enough ((p, id) = (q, id)) by congruence. by eapply (NoDup_key_inj snd).
Qed.
End run.

Section recognition.
Context `{Blake3, Hex, Ed25519, X509, !Codec SignedHello}.

Lemma raw_stored p c m : raw_connection (store_connection p c m) p = connection c.
Proof. unfold store_connection, raw_connection. destruct (connections m !! p ≫= connection); cbn; by rw lookup_insert_eq. Qed.

Lemma superseded_closed p c m old : raw_connection m p = Some old → old ∈ (closed (store_connection p c m)).*1.
Proof.
  intros Hold. unfold store_connection. fold (raw_connection m p). rw Hold. cbn. rw fmap_app elem_of_app. right. by left.
Qed.

(** Both ends learn who the other is.  A client dials the node it expects, whose certificate shows the node's key; the Hello it
    then writes makes the server take the connection as the client's.  A connection to that peer that was there before is
    closed on either side. *)
Theorem mutual_recognition `{!Ed25519Laws, !CodecLaws SignedHello} a b mA mB cert c1 rtt1 now addr h c2 remote rtt2 :
  length a = 32 → length b = 32 →
  qm_identity mA = identity_of_secret a → qm_identity mB = identity_of_secret b → endpoint mA = true → endpoint mB = true →
  x509_spki cert = Some (Some OID_ED25519, verifying (qm_identity mB)) →
  send_hello None now (qm_identity mA) = Ok h → (len h ≤ 4104)%N →
  let pA := Identity.peer_id (qm_identity mA) in
  let pB := Identity.peer_id (qm_identity mB) in
  let A := connect (Presented cert true c1 rtt1 None) now pB addr mA in
  let B := accept (Established c2 remote rtt2 (Stream h)) mB in
  A.2 = Ok () ∧ B.2 = Ok (Some (mk_AcceptedConnection pA remote c2)) ∧
  raw_connection A.1 pB = Some c1 ∧ raw_connection B.1 pA = Some c2 ∧
  (∀ old, raw_connection mA pB = Some old → old ∈ (closed A.1).*1) ∧
  (∀ old, raw_connection mB pA = Some old → old ∈ (closed B.1).*1).
Proof.
  intros Ha Hb EA EB HeA HeB Hx Hh Hlen pA pB A B. subst A B. unfold connect, accept. rw HeA HeB. cbn [negb].
  unfold verify_server_cert, check_peer_binding, extract_ed25519_spki. rw Hx. cbn [mbind option_bind].
  rw bool_decide_true; [done|]. cbn [ok_or mbind result_bind]. unfold pA, pB. rw EB. cbn [verifying identity_of_secret].
  rw (ed_public_length _ Hb). cbn [Nat.eqb negb]. rw bool_decide_true; [done|]. cbn [mbind result_bind]. rw Hh. cbn [recv_hello].
  rw EA in Hh. rw (hello_recognised a now h Ha Hh Hlen) EA.
  split_and!; try done; [apply raw_stored..| |]; intros old; apply superseded_closed.
Qed.

(** The Hello proves who signed it, not who sends it: a node that received one can present it to a third node, at any time and
    over any connection, and is taken for its signer. *)
Theorem hello_can_be_replayed m m' inc ac m2 conn remote rtt :
  accept inc m = (m', Ok (Some ac)) → endpoint m2 = true →
  ∃ b m2', accept (Established conn remote rtt (Stream b)) m2 =
      (m2', Ok (Some (mk_AcceptedConnection (ac_peer_id ac) remote conn))) ∧
    (∃ c r t, inc = Established c r t (Stream b)) ∧ raw_connection m2' (ac_peer_id ac) = Some conn.
Proof.
  unfold accept. destruct (endpoint m); [|done]. cbn [negb]. destruct inc as [| |c r t first]; [done..|].
  destruct (recv_hello first) as [p|] eqn:Hr; [|done]. intros [= <- <-] ->. cbn [negb]. destruct first as [| |b]; [done..|].
  cbn in Hr. exists b. cbn. rw Hr. eexists. split_and!; [done|by exists c, r, t|apply raw_stored].
Qed.

(** Pings are sent exactly when there is room for one before the connection would be idle, and then well within the time. *)
Theorem keep_alive_within_timeout t :
  match keep_alive_interval_for t with
  | None => (t ≤ KEEP_ALIVE_MIN_MS)%N
  | Some ms => (KEEP_ALIVE_MIN_MS ≤ ms < t)%N ∧ ((3 * KEEP_ALIVE_MIN_MS ≤ t)%N → (3 * ms ≤ t)%N)
  end.
Proof.
  unfold keep_alive_interval_for, KEEP_ALIVE_DIVISOR, KEEP_ALIVE_MIN_MS.
  pose proof (N.Div0.mul_div_le t 3) as Hd.
  destruct (t =? 0)%N eqn:E0; [bool_to_prop; lia|]. destruct (t <=? N.max (t / 3) 1000)%N eqn:E; bool_to_prop; lia.
Qed.
End recognition.

(** ** Witnesses *)
Module QuicWitness.
#[export] Existing Instances Toy.toy_blake3 Toy.toy_hex Toy.toy_ed25519 Toy.toy_ed25519_laws.
#[export] Instance conn_iter : MapIter PeerId QuicConnection := toy_iter.

Definition a : bytes := replicate 32 x01.
Definition b : bytes := replicate 32 x02.
Definition ia : Identity := identity_of_secret a.
Definition ib : Identity := identity_of_secret b.
(** A certificate is the key it shows. *)
#[export] Instance x509 : X509 := λ cert, Some (Some OID_ED25519, cert).
#[export] Instance hello_codec : Codec SignedHello := Toy.table_codec [new_hello 5 ia].
#[export] Instance hello_codec_laws : CodecLaws SignedHello := Toy.table_codec_laws [new_hello 5 ia].
Definition here : SocketAddr := mk_SocketAddr (replicate 16 x00) 4433.
Definition there : SocketAddr := mk_SocketAddr (replicate 16 x01) 4433.
Definition hello : bytes := match send_hello None 5 ia with Ok b => b | Err _ => [] end.
Definition up (i : Identity) : QuicManager := (bind (Ok here) (new_quic i)).1.

(** [b] accepts [a] twice, refuses a stream that is no Hello, and loses the second connection. *)
Definition ops : list op :=
  [OpBind (Ok here); OpAccept (Established 0 there 3 (Stream hello)); OpAccept (Established 1 there 3 (Stream [x00]));
   OpAccept (Established 2 there 3 (Stream hello)); OpOpenStream true (Identity.peer_id ia);
   OpRemoveClosed (Identity.peer_id ia) 0].
End QuicWitness.
Import (hints) QuicWitness.

Lemma connections_authenticated_witness :
  raw_connection (tr_manager (run QuicWitness.ib QuicWitness.ops)) (Identity.peer_id QuicWitness.ia) = Some 2 ∧
  (closed (tr_manager (run QuicWitness.ib QuicWitness.ops))).*1 = [1; 0] ∧
  ∃ o, o ∈ QuicWitness.ops ∧ authenticates o (Identity.peer_id QuicWitness.ia) 2.
Proof.
  split; [vm_compute; reflexivity|]. split; [vm_compute; reflexivity|].
  destruct (connections_authenticated QuicWitness.ib QuicWitness.ops) as (He & _ & _).
  - apply (bool_decide_eq_true_1 (NoDup (QuicWitness.ops ≫= numbers))). vm_compute. reflexivity.
  - destruct (He (Identity.peer_id QuicWitness.ia) (mk_QuicConnection (Identity.peer_id QuicWitness.ia) QuicWitness.there 1 QConnected 3 (Some 2)))
      as (_ & _ & id & Hid & _ & o & Ho & Ha); [vm_compute; reflexivity|].
    injection Hid as <-. exists o. split; [exact Ho|exact Ha].
Defined.

Lemma mutual_recognition_witness :
  raw_connection (accept (Established 9 QuicWitness.there 3 (Stream QuicWitness.hello)) (QuicWitness.up QuicWitness.ib)).1
    (Identity.peer_id QuicWitness.ia) = Some 9.
Proof.
  destruct (mutual_recognition QuicWitness.a QuicWitness.b (QuicWitness.up QuicWitness.ia) (QuicWitness.up QuicWitness.ib)
    (verifying QuicWitness.ib) 7 3 5 QuicWitness.there QuicWitness.hello 9 QuicWitness.there 3) as (_ & _ & _ & Hb & _);
    [reflexivity..|vm_compute; discriminate|exact Hb].
Defined.

Lemma hello_can_be_replayed_witness :
  ∃ b m2', accept (Established 4 QuicWitness.here 1 (Stream b)) (QuicWitness.up QuicWitness.ia) =
    (m2', Ok (Some (mk_AcceptedConnection (Identity.peer_id QuicWitness.ia) QuicWitness.here 4))).
Proof.
  destruct (hello_can_be_replayed (QuicWitness.up QuicWitness.ib) (accept (Established 9 QuicWitness.there 3 (Stream QuicWitness.hello)) (QuicWitness.up QuicWitness.ib)).1
    (Established 9 QuicWitness.there 3 (Stream QuicWitness.hello))
    (mk_AcceptedConnection (Identity.peer_id QuicWitness.ia) QuicWitness.there 9) (QuicWitness.up QuicWitness.ia) 4 QuicWitness.here 1)
    as (b & m2' & Hr & _).
  - vm_compute. reflexivity.
  - reflexivity.
  - exists b, m2'. exact Hr.
Defined.
