(* ===== verification/Conduit.v ===== *)
(** * Connections over the best route

    [synergos-net/src/conduit/mod.rs]: the peers a node manages, the detection and the choice
    of a route to each, and the change to a better one.  QUIC, the tunnel and the probes are
    the models of those components.

    [show] prints an error; the dials of one attempt are a function from the position of the
    route to what came of it ([Quic.Dial]); the addresses that were probed are collected in
    [probed]. *)

From S2P Require Import Tunnel.
From S2P Require Import Prelude Crypto Types Identity Content Invite Mesh Quic.

Record TunnelProbeResult := mk_TunnelProbeResult { tp_available : bool; tp_rtt_ms : option N }.

Record DetectionResult := mk_DetectionResult {
  dt_ipv6 : ProbeResult;
  dt_tunnel : TunnelProbeResult;
  recommended : RouteKind;
}.

Record ManagedPeer := mk_ManagedPeer {
  mp_peer_id : PeerId;
  mp_display_name : string;
  mp_routes : list Route;
  active_route : option RouteKind;
  mp_state : ConnectionState;
  mp_last_seen : N;
  last_detection : option DetectionResult;
}.

Record Conduit := mk_Conduit {
  peers : gmap PeerId ManagedPeer;
  cd_quic : QuicManager;
  cd_tunnel : TunnelManager;
  force_relay_only : bool;
  probed : list SocketAddrV6;
}.

Definition with_relay_only (q : QuicManager) (t : TunnelManager) (relay_only : bool) : Conduit := mk_Conduit ∅ q t relay_only [].

Definition set_peers x (c : Conduit) : Conduit := mk_Conduit x (cd_quic c) (cd_tunnel c) (force_relay_only c) (probed c).
Definition set_quic x (c : Conduit) : Conduit := mk_Conduit (peers c) x (cd_tunnel c) (force_relay_only c) (probed c).
Definition set_tunnel x (c : Conduit) : Conduit := mk_Conduit (peers c) (cd_quic c) x (force_relay_only c) (probed c).
Definition add_probed l (c : Conduit) : Conduit := mk_Conduit (peers c) (cd_quic c) (cd_tunnel c) (force_relay_only c) (probed c ++ l).
Definition update_peer (f : ManagedPeer → ManagedPeer) (p : PeerId) (c : Conduit) : Conduit := set_peers (alter f p (peers c)) c.

Definition in_state st (p : ManagedPeer) : ManagedPeer :=
  mk_ManagedPeer (mp_peer_id p) (mp_display_name p) (mp_routes p) (active_route p) st (mp_last_seen p) (last_detection p).
Definition on_route r st (p : ManagedPeer) : ManagedPeer :=
  mk_ManagedPeer (mp_peer_id p) (mp_display_name p) (mp_routes p) r st (mp_last_seen p) (last_detection p).
Definition seen_at t (p : ManagedPeer) : ManagedPeer :=
  mk_ManagedPeer (mp_peer_id p) (mp_display_name p) (mp_routes p) (active_route p) (mp_state p) t (last_detection p).
Definition detected d (p : ManagedPeer) : ManagedPeer :=
  mk_ManagedPeer (mp_peer_id p) (mp_display_name p) (mp_routes p) (active_route p) (mp_state p) (mp_last_seen p) (Some d).

Definition route_priority (k : RouteKind) : N := match k with KDirect => 3 | KTunnel => 2 | KRelay => 1 end.

(** The answers of the network to one operation. *)
Record Outside := mk_Outside { o_now : N; o_udp : SocketAddrV6 → UdpProbe; o_dial : nat → Dial; o_dial_again : nat → Dial }.

Section conduit.
Context `{Blake3, Hex, Ed25519, X509, !Codec SignedHello}.
Variable show : NetError → string.

(** ** Routes *)

(** The first direct route that was advertised. *)
Definition probe_ipv6_route (o : Outside) (routes : list Route) : ProbeResult * list SocketAddrV6 :=
  match omap (λ r, match r with Direct addr _ => Some addr | _ => None end) routes with
  | addr :: _ => probe_ipv6 (o_udp o) addr
  | [] => (mk_ProbeResult false None (Some "No direct route available") None, [])
  end.

Definition detect_route (o : Outside) (routes : list Route) (c : Conduit) : Conduit * DetectionResult :=
  if force_relay_only c then
    (c, mk_DetectionResult (mk_ProbeResult false None (Some "force_relay_only enabled") None) (mk_TunnelProbeResult false None) KRelay)
  else
    let '(ipv6, contacted) := probe_ipv6_route o routes in
    let '(t, h) := Tunnel.health_check (o_now o) (cd_tunnel c) in
    let tunnel := mk_TunnelProbeResult (Tunnel.th_reachable h) (Tunnel.th_rtt_ms h) in
    (add_probed contacted (set_tunnel t c),
     mk_DetectionResult ipv6 tunnel
       (if pr_reachable ipv6 then KDirect else if tp_available tunnel then KTunnel else KRelay)).

(** The direct routes in turn, until a dial succeeds; [i] is the position of the route. *)
Fixpoint try_direct (now : N) (dial : nat → Dial) (p : PeerId) (i : nat) (routes : list Route) (q : QuicManager) : QuicManager * bool :=
  match routes with
  | [] => (q, false)
  | Direct addr _ :: routes =>
      match connect (dial i) now p (mk_SocketAddr (sa_ip addr) (Types.sa_port addr)) q with
      | (q, Ok _) => (q, true)
      | (q, Err _) => try_direct now dial p (S i) routes q
      end
  | _ :: routes => try_direct now dial p (S i) routes q
  end.

Definition is_tunnel (r : Route) : bool := match r with Tunnel _ _ => true | _ => false end.
Definition is_relay (r : Route) : bool := match r with Relay _ _ => true | _ => false end.

Definition try_connect_routes (now : N) (dial : nat → Dial) (p : PeerId) (routes : list Route) (c : Conduit) :
    Conduit * result NetError RouteKind :=
  if force_relay_only c then
    (c, if existsb is_relay routes then Ok KRelay else Err (EQuic "force_relay_only enabled but no Route::Relay advertised by peer"))
  else
    let '(q, direct) := try_direct now dial p 0 routes (cd_quic c) in
    let c := set_quic q c in
    if direct then (c, Ok KDirect)
    else if existsb is_tunnel routes && Tunnel.is_available (cd_tunnel c) then (c, Ok KTunnel)
    else if existsb is_relay routes then (c, Ok KRelay)
    else (c, Err (EQuic "All connection routes failed")).

(** ** Operations *)
Definition register_peer (o : Outside) (e : PeerEndpoint) (c : Conduit) : Conduit * result NetError RouteKind :=
  let p := ep_peer_id e in
  let managed := mk_ManagedPeer p (ep_display_name e) (ep_routes e) None CsDiscovered (o_now o) None in
  let '(c, detection) := detect_route o (ep_routes e) (set_peers (<[p := managed]> (peers c)) c) in
  (update_peer (detected detection) p c, Ok (recommended detection)).

Definition connect_peer (o : Outside) (p : PeerId) (c : Conduit) : Conduit * result NetError RouteKind :=
  match peers c !! p with
  | None => (c, Err (EPeerNotFound p))
  | Some entry =>
      match try_connect_routes (o_now o) (o_dial o) p (mp_routes entry) (update_peer (in_state CsConnecting) p c) with
      | (c, Ok k) => (update_peer (seen_at (o_now o) ∘ on_route (Some k) (CsConnected 0 k)) p c, Ok k)
      | (c, Err e) => (update_peer (in_state (CsDisconnected (show e))) p c, Err e)
      end
  end.

Definition disconnect_peer (p : PeerId) (reason : string) (c : Conduit) : Conduit :=
  update_peer (on_route None (CsDisconnected reason)) p (set_quic (disconnect p reason (cd_quic c)) c).

Definition unregister_peer (p : PeerId) (c : Conduit) : Conduit := set_peers (delete p (peers c)) c.

Definition try_migrate_route (o : Outside) (p : PeerId) (c : Conduit) : Conduit * result NetError (option RouteKind) :=
  match peers c !! p with
  | None => (c, Err (EPeerNotFound p))
  | Some peer =>
      match active_route peer with
      | None => (c, Ok None)
      | Some current =>
          let '(c, detection) := detect_route o (mp_routes peer) c in
          if (route_priority current <? route_priority (recommended detection))%N then
            let c := set_quic (disconnect p "route migration" (cd_quic c)) c in
            match try_connect_routes (o_now o) (o_dial o) p (mp_routes peer) c with
            | (c, Ok k) => (update_peer (detected detection ∘ on_route (Some k) (CsConnected 0 k)) p c, Ok (Some k))
            | (c, Err _) => ((try_connect_routes (o_now o) (o_dial_again o) p (mp_routes peer) c).1, Ok None)
            end
          else (update_peer (detected detection) p c, Ok None)
      end
  end.

Record PeerConnectionStatus := mk_PeerConnectionStatus {
  cs_peer_id : PeerId;
  cs_display_name : string;
  cs_route : RouteKind;
  cs_rtt_ms : N;
  cs_bandwidth_bps : N;
  cs_last_seen : N;
}.

Definition connected_peers `{!MapIter PeerId ManagedPeer} (c : Conduit) : list PeerConnectionStatus :=
  omap (λ p, match mp_state p with
             | CsConnected rtt k => Some (mk_PeerConnectionStatus (mp_peer_id p) (mp_display_name p) k rtt
                 (get_bandwidth_estimate (cd_quic c) (mp_peer_id p)) (mp_last_seen p))
             | _ => None
             end) (map_iter (peers c)).*2.

Definition get_peer_state (c : Conduit) (p : PeerId) : option ConnectionState := mp_state <$> peers c !! p.

Definition shutdown_conduit `{!MapIter PeerId ManagedPeer} (c : Conduit) : Conduit :=
  set_peers ∅ (foldl (λ c p, disconnect_peer p "shutdown" c) c (map_iter (peers c)).*1).
End conduit.

(** ** Which route is taken *)
Section choice.
Context `{Blake3, Hex, Ed25519, X509, !Codec SignedHello}.

(** The dial reaches the peer: the server shows a certificate with its key, has signed the handshake with it, and the Hello goes
    out. *)
Definition dial_works (now : N) (p : PeerId) (q : QuicManager) (d : Dial) : bool :=
  endpoint q &&
  match d with
  | Presented cert signed _ _ fails => is_ok (verify_server_cert p cert) && signed && is_ok (send_hello fails now (qm_identity q))
  | _ => false
  end.

Lemma connect_works d now p addr q : is_ok (connect d now p addr q).2 = dial_works now p q d.
Proof.
  unfold connect, dial_works. destruct (endpoint q); [|done]. cbn [negb andb]. destruct d as [| |[]|cert sg conn rtt hf]; try done.
  destruct (verify_server_cert p cert) as [[]|[]]; try done. destruct sg; [|done]. cbn. by destruct (send_hello _ _ _).
Qed.

(** A failed dial may close its own connection, no more. *)
Lemma connect_err_frame d now p addr q q' e :
  connect d now p addr q = (q', Err e) →
  endpoint q' = endpoint q ∧ qm_identity q' = qm_identity q ∧ connections q' = connections q ∧ qm_outbound_tx q' = qm_outbound_tx q.
Proof. intros [->|(conn & reason & _ & ->)]%connect_failed; done. Qed.

(** The first direct route that reaches the peer. *)
Definition reached_at (now : N) (dial : nat → Dial) (p : PeerId) (q : QuicManager) (i : nat) (routes : list Route) (j : nat) : Prop :=
  (∃ addr fqdn, routes !! j = Some (Direct addr fqdn)) ∧ dial_works now p q (dial (i + j)) = true.

Lemma dial_works_same now p q q' d :
  endpoint q' = endpoint q → qm_identity q' = qm_identity q → dial_works now p q' d = dial_works now p q d.
Proof. unfold dial_works. by intros -> ->. Qed.

Lemma try_direct_spec now dial p routes : ∀ i q q' b,
  try_direct now dial p i routes q = (q', b) →
  endpoint q' = endpoint q ∧ qm_identity q' = qm_identity q ∧
  if b then ∃ j conn, reached_at now dial p q i routes j ∧ (∀ k, k < j → ¬ reached_at now dial p q i routes k) ∧
    authenticates (OpConnect (dial (i + j)) now p (mk_SocketAddr [] 0)) p conn ∧ raw_connection q' p = Some conn
  else (∀ j, ¬ reached_at now dial p q i routes j) ∧ connections q' = connections q ∧ qm_outbound_tx q' = qm_outbound_tx q.
Proof.
  induction routes as [|r routes IH]; intros i q q' b Hrun; cbn [try_direct] in Hrun.
  { injection Hrun as <- <-. split_and!; try done. by intros j [(? & ? & [=]) _]. }
  assert (Hskip : ∀ q1, (match r with Direct _ _ => dial_works now p q (dial i) = false | _ => True end) →
    endpoint q1 = endpoint q → qm_identity q1 = qm_identity q → connections q1 = connections q → qm_outbound_tx q1 = qm_outbound_tx q →
    try_direct now dial p (S i) routes q1 = (q', b) →
    endpoint q' = endpoint q ∧ qm_identity q' = qm_identity q ∧
    if b then ∃ j conn, reached_at now dial p q i (r :: routes) j ∧ (∀ k, k < j → ¬ reached_at now dial p q i (r :: routes) k) ∧
      authenticates (OpConnect (dial (i + j)) now p (mk_SocketAddr [] 0)) p conn ∧ raw_connection q' p = Some conn
    else (∀ j, ¬ reached_at now dial p q i (r :: routes) j) ∧ connections q' = connections q ∧ qm_outbound_tx q' = qm_outbound_tx q).
  { intros q1 Hr E1 E2 E3 E4 Hq1. destruct (IH _ _ _ _ Hq1) as (F1 & F2 & F3). split_and!; [congruence..|].
    assert (Hz : ¬ reached_at now dial p q i (r :: routes) 0).
    { intros [(addr & f & [= ->]) Hw]. rw Nat.add_0_r in Hw. congruence. }
    assert (HS : ∀ j, reached_at now dial p q i (r :: routes) (S j) ↔ reached_at now dial p q1 (S i) routes j).
    { intros j. unfold reached_at. cbn [lookup list_lookup]. rw (dial_works_same now p q q1) // Nat.add_succ_r. done. }
    destruct b.
    - destruct F3 as (j & conn & Hj & Hlt & Ha & Hraw). exists (S j), conn. rw HS. split_and!; [done| | |done].
      + intros [|k] Hk; [done|]. rw HS. apply Hlt. lia.
      + by rw Nat.add_succ_r.
    - destruct F3 as (Hno & E & E'). split_and!; [|congruence..]. intros [|j]; [done|]. rw HS. apply Hno. }
  destruct r as [addr fqdn|?? |??]; [|by apply (Hskip q)..].
  pose proof (connect_works (dial i) now p (mk_SocketAddr (sa_ip addr) (Types.sa_port addr)) q) as Hw.
  destruct (connect _ _ _ _ q) as [q1 [[]|e]] eqn:Hc; cbn [snd is_ok] in Hw.
  - injection Hrun as <- <-. pose proof (connect_Ok _ _ _ _ _ _ Hc) as (cert & conn & rtt & Ed & Ha & ->).
    assert (Hf : ∀ a c m, endpoint (notify_outbound a (store_connection p c m)) = endpoint m ∧
      qm_identity (notify_outbound a (store_connection p c m)) = qm_identity m).
    { intros a c m. unfold store_connection. by destruct (_ ≫= connection). }
    split; [apply Hf|]. split; [apply Hf|]. exists 0, conn. rw Nat.add_0_r. split_and!.
    + split; [by eexists _, _|]. by rw Nat.add_0_r.
    + lia.
    + rw Ed in Ha. by rw Ed.
    + apply (raw_stored p (mk_QuicConnection p _ 0 QConnected rtt (Some conn))).
  - apply connect_err_frame in Hc as (E1 & E2 & E3 & E4). by apply (Hskip q1).
Qed.

(** The choice, as the documentation gives it: the direct route when one reaches the peer, else the tunnel when the peer has one
    and ours is up, else the relay when the peer has one; in relay-only mode nothing but the relay.  Over a direct route the
    connection in the table is the one of the first route that worked, and its other end proved to be the peer. *)
Theorem route_choice_exact now dial p routes c c' r :
  try_connect_routes now dial p routes c = (c', r) →
  let direct j := force_relay_only c = false ∧ reached_at now dial p (cd_quic c) 0 routes j in
  let tunnel := force_relay_only c = false ∧ Exists (λ x, is_tunnel x = true) routes ∧ Tunnel.is_available (cd_tunnel c) = true in
  let relay := Exists (λ x, is_relay x = true) routes in
  (r = Ok KDirect ↔ ∃ j, direct j) ∧
  (r = Ok KTunnel ↔ (∀ j, ¬ direct j) ∧ tunnel) ∧
  (r = Ok KRelay ↔ (∀ j, ¬ direct j) ∧ ¬ tunnel ∧ relay) ∧
  (is_ok r = false ↔ (∀ j, ¬ direct j) ∧ ¬ tunnel ∧ ¬ relay) ∧
  (r = Ok KDirect → ∃ j conn, direct j ∧ authenticates (OpConnect (dial j) now p (mk_SocketAddr [] 0)) p conn ∧
     raw_connection (cd_quic c') p = Some conn).
Proof.
  intros Hrun direct tunnel relay. unfold try_connect_routes in Hrun.
  assert (Htn : existsb is_tunnel routes = true ↔ Exists (λ x, is_tunnel x = true) routes).
  { rw existsb_exists List.Exists_exists. done. }
  assert (Hrl : existsb is_relay routes = true ↔ relay).
  { unfold relay. rw existsb_exists List.Exists_exists. done. }
  unfold tunnel, direct. destruct (force_relay_only c).
  { injection Hrun as <- <-. destruct (existsb is_relay routes); naive_solver. }
  destruct (try_direct now dial p 0 routes (cd_quic c)) as [q' b] eqn:Hd. apply try_direct_spec in Hd as (_ & _ & Hd). cbn [Nat.add] in Hd.
  destruct b.
  { injection Hrun as <- <-. destruct Hd as (j & conn & Hj & _ & Ha & Hraw). split_and!; [split; [intros _; by exists j|done]|naive_solver..|].
    intros _. by exists j, conn. }
  destruct Hd as (Hno & _). cbn [cd_tunnel set_quic] in Hrun.
  destruct (existsb is_tunnel routes), (Tunnel.is_available (cd_tunnel c)); cbn [andb] in Hrun; try injection Hrun as <- <-;
    try (destruct (existsb is_relay routes); injection Hrun as <- <-); naive_solver.
Qed.
End choice.

(** ** Runs *)
Inductive conduit_op :=
| OpRegister (o : Outside) (e : PeerEndpoint)
| OpConnectPeer (o : Outside) (p : PeerId)
| OpDisconnectPeer (p : PeerId) (reason : string)
| OpUnregister (p : PeerId)
| OpMigrate (o : Outside) (p : PeerId)
| OpShutdownAll.

Section runs.
Context `{Blake3, Hex, Ed25519, X509, !Codec SignedHello, !MapIter PeerId ManagedPeer}.
Variable show : NetError → string.

Definition conduit_step (c : Conduit) (o : conduit_op) : Conduit :=
  match o with
  | OpRegister o e => (register_peer o e c).1
  | OpConnectPeer o p => (connect_peer show o p c).1
  | OpDisconnectPeer p reason => disconnect_peer p reason c
  | OpUnregister p => unregister_peer p c
  | OpMigrate o p => (try_migrate_route o p c).1
  | OpShutdownAll => shutdown_conduit c
  end.
Definition conduit_run (c : Conduit) (ops : list conduit_op) : Conduit := foldl conduit_step c ops.

(** An entry says that it is connected only over the route it is on. *)
Definition entry_ok (c : Conduit) (p : PeerId) (m : ManagedPeer) : Prop :=
  mp_peer_id m = p ∧ (∀ rtt k, mp_state m = CsConnected rtt k → active_route m = Some k) ∧
  (force_relay_only c = true → active_route m = None ∨ active_route m = Some KRelay).

(** The network is left alone. *)
Definition quiet (q0 : QuicManager) (t0 : TunnelManager) (c : Conduit) : Prop :=
  force_relay_only c = true →
  probed c = [] ∧ cd_tunnel c = t0 ∧ connections (cd_quic c) ⊆ connections q0 ∧ qm_outbound_tx (cd_quic c) = qm_outbound_tx q0.

Definition conduit_inv q0 t0 (c : Conduit) : Prop := map_Forall (entry_ok c) (peers c) ∧ quiet q0 t0 c.

Lemma inv_same q0 t0 c c' :
  peers c' = peers c → force_relay_only c' = force_relay_only c → (force_relay_only c = true → probed c' = probed c ∧ cd_tunnel c' = cd_tunnel c ∧
    connections (cd_quic c') ⊆ connections (cd_quic c) ∧ qm_outbound_tx (cd_quic c') = qm_outbound_tx (cd_quic c)) →
  conduit_inv q0 t0 c → conduit_inv q0 t0 c'.
Proof.
  intros Ep Ef Hq [He Hs]. split.
  - rw Ep. intros p m Hm. destruct (He p m Hm) as (? & ? & ?). unfold entry_ok. by rw Ef.
  - intros Hf. rw Ef in Hf. destruct (Hq Hf) as (-> & -> & Hc & ->). destruct (Hs Hf) as (? & ? & ? & ?). split_and!; [done|done|by etrans|done].
Qed.

Lemma conduit_update_inv q0 t0 f p c :
  (∀ m, entry_ok c p m → entry_ok c p (f m)) → conduit_inv q0 t0 c → conduit_inv q0 t0 (update_peer f p c).
Proof.
  intros Hf [He Hs]. split; [|done]. intros q m. cbn. destruct (decide (p = q)) as [->|Hne]; [|rw lookup_alter_ne //; apply He].
  rw lookup_alter_eq. intros (m0 & Hm & ->)%fmap_Some. by apply Hf, He.
Qed.

Lemma detect_inv q0 t0 o routes c : conduit_inv q0 t0 c →
  conduit_inv q0 t0 (detect_route o routes c).1 ∧ force_relay_only (detect_route o routes c).1 = force_relay_only c ∧
  (force_relay_only c = true → recommended (detect_route o routes c).2 = KRelay) ∧ peers (detect_route o routes c).1 = peers c.
Proof.
  intros Hi. unfold detect_route. destruct (force_relay_only c) eqn:Hf; [done|]. destruct (probe_ipv6_route _ _) as [pr l]. cbn.
  split_and!; try done. apply (inv_same _ _ c); try done. by rw Hf.
Qed.

Lemma try_connect_inv q0 t0 now dial p routes c : conduit_inv q0 t0 c →
  let '(c', r) := try_connect_routes now dial p routes c in
  conduit_inv q0 t0 c' ∧ force_relay_only c' = force_relay_only c ∧ peers c' = peers c ∧
  ∀ k, r = Ok k → force_relay_only c = true → k = KRelay.
Proof.
  intros Hi. unfold try_connect_routes. destruct (force_relay_only c) eqn:Hf; [split_and!; try done; by case_match; intros k [= <-]|].
  destruct (try_direct _ _ _ _ _ _) as [q b]. assert (Hq : conduit_inv q0 t0 (set_quic q c)) by (apply (inv_same _ _ c); try done; by rw Hf).
  destruct b; [done|]. destruct (_ && _); [done|]. by destruct (existsb _ _).
Qed.

Lemma entry_connected c k p m : (force_relay_only c = true → k = KRelay) → entry_ok c p m → entry_ok c p (on_route (Some k) (CsConnected 0 k) m).
Proof. intros Hk (? & _ & _). split_and!; [done|by intros rtt k' [= _ <-]|]. intros Hf. right. cbn. by rw (Hk Hf). Qed.

Lemma disconnect_peer_inv q0 t0 p reason c : conduit_inv q0 t0 c → conduit_inv q0 t0 (disconnect_peer p reason c).
Proof.
  intros Hi. unfold disconnect_peer. apply conduit_update_inv.
  - intros m (? & _ & _). split_and!; [done|done|]. intros _. by left.
  - apply (inv_same _ _ c); try done. intros _. split_and!; try done.
    + unfold disconnect. cbn. destruct (_ ≫= connection); cbn; apply delete_subseteq.
    + unfold disconnect. cbn. by destruct (_ ≫= connection).
Qed.

Lemma migrate_inv q0 t0 o p c : conduit_inv q0 t0 c → conduit_inv q0 t0 (try_migrate_route o p c).1.
Proof.
  intros Hi. unfold try_migrate_route. destruct (peers c !! p) as [peer|] eqn:Hp; [|done]. destruct (active_route peer) as [cur|]; [|done].
  destruct (detect_inv q0 t0 o (mp_routes peer) c Hi) as (Hi1 & Hf1 & Hk & _).
  destruct (detect_route o (mp_routes peer) c) as [c1 d]. cbn [fst snd] in *.
  destruct (_ <? _)%N; cbn [fst]; [|apply conduit_update_inv; [|done]; by intros m (? & ? & ?)].
  assert (Hi2 : conduit_inv q0 t0 (set_quic (disconnect p "route migration" (cd_quic c1)) c1)).
  { apply (inv_same _ _ c1); try done. intros _. split_and!; try done.
    - unfold disconnect. cbn. destruct (_ ≫= connection); cbn; apply delete_subseteq.
    - unfold disconnect. cbn. by destruct (_ ≫= connection). }
  pose proof (try_connect_inv q0 t0 (o_now o) (o_dial o) p (mp_routes peer) _ Hi2) as Hc.
  destruct (try_connect_routes _ _ _ _ _) as [c2 [k|e]]; destruct Hc as (Hi3 & Hf3 & _ & Hk3); cbn [fst].
  - apply conduit_update_inv; [|done]. intros m Hm. apply (entry_connected _ k) in Hm; [|rw Hf3; by apply Hk3].
    destruct Hm as (? & ? & ?). by split_and!.
  - pose proof (try_connect_inv q0 t0 (o_now o) (o_dial_again o) p (mp_routes peer) _ Hi3) as Hc.
    by destruct (try_connect_routes _ _ _ _ c2) as [c3 r]; destruct Hc.
Qed.

Lemma conduit_step_inv q0 t0 c o : conduit_inv q0 t0 c → conduit_inv q0 t0 (conduit_step c o).
Proof.
  intros Hi. destruct o as [o e|o p|p reason|p|o p|]; cbn [conduit_step].
  - unfold register_peer. set (c1 := set_peers _ c).
    assert (Hi1 : conduit_inv q0 t0 c1).
    { split; [|exact (proj2 Hi)]. apply map_Forall_insert_2; [|exact (proj1 Hi)]. split_and!; [done|done|by left]. }
    destruct (detect_inv q0 t0 o (ep_routes e) c1 Hi1) as (Hi2 & _). destruct (detect_route _ _ _) as [c2 d]. cbn [fst] in *.
    apply conduit_update_inv; [|done]. by intros m (? & ? & ?).
  - unfold connect_peer. destruct (peers c !! p) as [entry|]; [|done].
    assert (Hi1 : conduit_inv q0 t0 (update_peer (in_state CsConnecting) p c)).
    { apply conduit_update_inv; [|done]. by intros m (? & _ & ?). }
    pose proof (try_connect_inv q0 t0 (o_now o) (o_dial o) p (mp_routes entry) _ Hi1) as Hc.
    destruct (try_connect_routes _ _ _ _ _) as [c2 [k|e]]; destruct Hc as (Hi3 & Hf3 & _ & Hk3); cbn [fst]; apply conduit_update_inv; try done.
    + intros m Hm. apply (entry_connected _ k) in Hm; [|rw Hf3; by apply Hk3]. destruct Hm as (? & ? & ?). by split_and!.
    + by intros m (? & _ & ?).
  - by apply disconnect_peer_inv.
  - split; [|exact (proj2 Hi)]. by apply map_Forall_delete, Hi.
  - by apply migrate_inv.
  - unfold shutdown_conduit. assert (Hf : ∀ l c, conduit_inv q0 t0 c → conduit_inv q0 t0 (foldl (λ c p, disconnect_peer p "shutdown" c) c l)).
    { induction l as [|p l IH]; intros c0 Hc0; [done|]. by apply IH, disconnect_peer_inv. }
    split; [apply map_Forall_empty|exact (proj2 (Hf _ _ Hi))].
Qed.

Lemma conduit_run_inv q t relay_only ops : conduit_inv q t (conduit_run (with_relay_only q t relay_only) ops).
Proof.
  induction ops as [|o ops IH] using rev_ind; [split; [apply map_Forall_empty|by intros _]|].
  unfold conduit_run in *. rw foldl_app. by apply conduit_step_inv.
Qed.

Lemma run_relay_only q t relay_only ops : force_relay_only (conduit_run (with_relay_only q t relay_only) ops) = relay_only.
Proof.
  induction ops as [|o ops IH] using rev_ind; [done|]. unfold conduit_run in *. rw foldl_app. cbn [foldl].
  set (c := foldl _ _ _) in *. rw -IH. pose proof (conduit_run_inv q t relay_only ops) as Hi. fold c in Hi.
  assert (Hd : ∀ o r c, force_relay_only (detect_route o r c).1 = force_relay_only c).
  { intros o' r c'. unfold detect_route. destruct (force_relay_only c') eqn:E; [done|]. by destruct (probe_ipv6_route _ _). }
  assert (Ht : ∀ n d p r c, force_relay_only (try_connect_routes n d p r c).1 = force_relay_only c).
  { intros n d p r c'. unfold try_connect_routes. destruct (force_relay_only c') eqn:E; [done|]. destruct (try_direct _ _ _ _ _ _) as [? []]; [done|].
    destruct (_ && _); [done|]. by destruct (existsb _ _). }
  destruct o as [o e|o p|p reason|p|o p|]; cbn [conduit_step]; try done.
  - unfold register_peer. pose proof (Hd o (ep_routes e) (set_peers (<[ep_peer_id e := mk_ManagedPeer (ep_peer_id e) (ep_display_name e) (ep_routes e) None CsDiscovered (o_now o) None]> (peers c)) c)) as E.
    by destruct (detect_route _ _ _).
  - unfold connect_peer. destruct (peers c !! p) as [m|]; [|done].
    pose proof (Ht (o_now o) (o_dial o) p (mp_routes m) (update_peer (in_state CsConnecting) p c)) as E. by destruct (try_connect_routes _ _ _ _ _) as [? []].
  - unfold try_migrate_route. destruct (peers c !! p) as [m|]; [|done]. destruct (active_route m); [|done]. pose proof (Hd o (mp_routes m) c) as E.
    destruct (detect_route _ _ _) as [c1 d]. cbn [fst] in E. destruct (_ <? _)%N; [|done].
    pose proof (Ht (o_now o) (o_dial o) p (mp_routes m) (set_quic (disconnect p "route migration" (cd_quic c1)) c1)) as E2.
    destruct (try_connect_routes _ _ _ _ _) as [c2 [k|e]]; cbn in *; [congruence|]. rw Ht. congruence.
  - unfold shutdown_conduit. cbn. assert (Hf : ∀ l c, force_relay_only (foldl (λ c p, disconnect_peer p "shutdown" c) c l) = force_relay_only c).
    { induction l as [|p l IHl]; intros c0; [done|]. cbn [foldl]. by rw IHl. }
    apply Hf.
Qed.

(** In relay-only mode the conduit never touches the network by itself, whatever is asked of it: it sends no probe, does not look
    at the tunnel, dials nobody, and a peer it counts as connected is so over a relay. *)
Theorem relay_only_never_dials q t ops :
  let c := conduit_run (with_relay_only q t true) ops in
  probed c = [] ∧ cd_tunnel c = t ∧ connections (cd_quic c) ⊆ connections q ∧ qm_outbound_tx (cd_quic c) = qm_outbound_tx q ∧
  ∀ p rtt k, get_peer_state c p = Some (CsConnected rtt k) → k = KRelay.
Proof.
  intros c. pose proof (conduit_run_inv q t true ops) as [He Hq]. pose proof (run_relay_only q t true ops) as Hf. fold c in He, Hq, Hf.
  destruct (Hq Hf) as (? & ? & ? & ?). split_and!; try done. intros p rtt k. unfold get_peer_state.
  destruct (peers c !! p) as [m|] eqn:Hm; [|done]. intros [= Hst]. destruct (He p m Hm) as (_ & Hr & Hrel). specialize (Hr _ _ Hst).
  destruct (Hrel Hf) as [E|E]; congruence.
Qed.

(** What a failed migration leaves: the old connection is closed, no route works, and the peer is still shown as connected over
    its old route. *)
Theorem failed_migration_hides_disconnect o p peer current k0 c :
  peers c !! p = Some peer → active_route peer = Some current → mp_state peer = CsConnected k0 current →
  let c1 := (detect_route o (mp_routes peer) c).1 in
  let d := (detect_route o (mp_routes peer) c).2 in
  (route_priority current < route_priority (recommended d))%N →
  let c2 := set_quic (disconnect p "route migration" (cd_quic c1)) c1 in
  let A := try_connect_routes (o_now o) (o_dial o) p (mp_routes peer) c2 in
  is_ok A.2 = false → is_ok (try_connect_routes (o_now o) (o_dial_again o) p (mp_routes peer) A.1).2 = false →
  let M := try_migrate_route o p c in
  M.2 = Ok None ∧ get_peer_state M.1 p = Some (CsConnected k0 current) ∧ raw_connection (cd_quic M.1) p = None.
Proof.
  intros Hp Hr Hst c1 d Hlt c2 A HA HB M.
  assert (Hdp : peers c1 = peers c).
  { unfold c1, detect_route. destruct (force_relay_only c); [done|]. by destruct (probe_ipv6_route _ _). }
  assert (Hkeep : ∀ n dl rs x, is_ok (try_connect_routes n dl p rs x).2 = false →
    peers (try_connect_routes n dl p rs x).1 = peers x ∧ connections (cd_quic (try_connect_routes n dl p rs x).1) = connections (cd_quic x)).
  { intros n dl rs x. unfold try_connect_routes. destruct (force_relay_only x); [done|].
    destruct (try_direct n dl p 0 rs (cd_quic x)) as [q b] eqn:Hd. apply try_direct_spec in Hd as (_ & _ & Hd). destruct b; [done|].
    destruct Hd as (_ & Hc & _). destruct (_ && _); [done|]. destruct (existsb _ _); [done|]. done. }
  destruct (Hkeep _ _ _ _ HA) as [E1 E2]. fold A in E1, E2. destruct (Hkeep _ _ _ _ HB) as [E3 E4].
  assert (HM : M = ((try_connect_routes (o_now o) (o_dial_again o) p (mp_routes peer) A.1).1, Ok None)).
  { unfold M, try_migrate_route. rw Hp Hr. unfold A, c2, c1, d in *. destruct (detect_route o (mp_routes peer) c) as [c1' d']. cbn [fst snd] in *.
    rw (proj2 (N.ltb_lt _ _) Hlt). by destruct (try_connect_routes (o_now o) (o_dial o) p (mp_routes peer) _) as [c3 [k|e]]. }
  rw HM. cbn [fst snd]. split; [done|]. unfold get_peer_state, raw_connection. rw E3 E4 E1 E2. unfold c2. cbn. rw Hdp Hp.
  split; [by rw -Hst|]. unfold disconnect. cbn. destruct (connections (cd_quic c1) !! p ≫= connection); cbn; by rw lookup_delete_eq.
Qed.
End runs.

(** ** Witnesses *)
Module ConduitWitness.
Import (hints) QuicWitness.
Definition v6 : SocketAddrV6 := mk_SocketAddrV6 ([x20; x01] ++ replicate 14 x01) 4433.
Definition routes : list Route := [Direct v6 None; Relay "wss://r" "room"].
Definition b : PeerId := Identity.peer_id QuicWitness.ib.
Definition tunnel0 : TunnelManager := Tunnel.new_tunnel (Tunnel.mk_TunnelConfig "" false true 1000 60000).
Definition c0 : Conduit := with_relay_only (QuicWitness.up QuicWitness.ia) tunnel0 false.
Definition dials (_ : nat) : Dial := Presented (verifying QuicWitness.ib) true 7 3 None.
(** The peer is on the relay, a probe gets out, and no dial succeeds. *)
Definition outside : Outside := mk_Outside 5 (λ _, UdpSent 1) (λ _, ConnectError) (λ _, ConnectError).
Definition peer : ManagedPeer := mk_ManagedPeer b "B" [Direct v6 None] (Some KRelay) (CsConnected 0 KRelay) 0 None.
Definition c1 : Conduit := set_peers {[b := peer]} c0.
End ConduitWitness.
Import (hints) QuicWitness ConduitWitness.

Lemma route_choice_exact_witness :
  ∃ j conn, authenticates (OpConnect (ConduitWitness.dials j) 5 ConduitWitness.b (mk_SocketAddr [] 0)) ConduitWitness.b conn ∧
    raw_connection (cd_quic (try_connect_routes 5 ConduitWitness.dials ConduitWitness.b ConduitWitness.routes ConduitWitness.c0).1)
      ConduitWitness.b = Some conn.
Proof.
  destruct (route_choice_exact 5 ConduitWitness.dials ConduitWitness.b ConduitWitness.routes ConduitWitness.c0
    (try_connect_routes 5 ConduitWitness.dials ConduitWitness.b ConduitWitness.routes ConduitWitness.c0).1
    (Ok KDirect)) as (_ & _ & _ & _ & Hd).
  - vm_compute. reflexivity.
  - destruct (Hd eq_refl) as (j & conn & _ & Ha & Hr). exists j, conn. split; [exact Ha|exact Hr].
Defined.

Lemma failed_migration_hides_disconnect_witness :
  get_peer_state (try_migrate_route ConduitWitness.outside ConduitWitness.b ConduitWitness.c1).1 ConduitWitness.b =
    Some (CsConnected 0 KRelay).
Proof.
  destruct (failed_migration_hides_disconnect ConduitWitness.outside ConduitWitness.b ConduitWitness.peer KRelay 0 ConduitWitness.c1)
    as (_ & Hs & _).
  - reflexivity.
  - reflexivity.
  - reflexivity.
  - vm_compute. reflexivity.
  - vm_compute. reflexivity.
  - vm_compute. reflexivity.
  - exact Hs.
Defined.
