(* ===== verification/IpcServer.v ===== *)
(** * The IPC server

    [synergos-core/src/ipc_server.rs]: the session of a client ([handle_client_generic]), the
    relay of events and [dispatch_command], with one definition per command.  The services it
    calls are the models of those components.

    The components share one gossip node, so [Services] holds it once: a computation of a
    component gets it and gives it back.  The texts of error values are the parameter [Texts],
    QUIC streams the parameter [Streams]; the clock and identifiers a command draws are a
    [Draws]. *)

From Stdlib Require Import Strings.Ascii.
From S2P Require Import Prelude Crypto Types Identity Ledger Routing Dht Gossip Content Catalog Transfer Fs FsPlain Manifest Glob.
From S2P Require Import Project Retention HistoryIndex Tags Rotation HistoryStore StoreInv StoreOps StoreGc StoreProps Hooks Exchange.
From S2P Require Import Incoming Checkout Conflict Presence Publish IpcProtocol Invite.

(** ** The services *)
Record CatalogLimits := mk_CatalogLimits { cl_chunk_max_files : nat; cl_chain_max_depth : nat }.

(** The settings of [NetConfig] the server reads. *)
Record ServerNetConfig := mk_ServerNetConfig {
  nc_advertise : AdvertiseConfig;
  nc_catalog : CatalogLimits;
  nc_max_concurrent_streams : N;
}.

Record ServerConfig := mk_ServerConfig {
  sc_pid : N;
  sc_started_at : N;
  sc_net : option ServerNetConfig;
  sc_identity : option Identity;
  sc_history : HistoryConfig;
  sc_hooks : HooksConfig;
}.

Record Services {Remote : Type} := mk_Services {
  sv_pub : Publisher;
  sv_remote : Remote;
  sv_presence : PresenceService;
  sv_conflicts : ConflictManager;
  sv_catalogs : gmap string CatalogManager;
  sv_gossip : option GossipNode;
  sv_shutdown : bool;
  sv_net : list NetAction;
  sv_streams : list (PeerId * bytes);
}.
Arguments Services : clear implicits.
Arguments mk_Services {_}.

(** [Display] and [Debug] of values. *)
Class Texts := {
  show_project : ProjectError → string;
  show_io : IoError → string;
  show_sharing : FileSharingError → string;
  show_publish : PublishError → string;
  show_registry : NodeRegistryError → string;
  show_join : JoinError → string;
  show_bootstrap : BootstrapError → string;
  show_invite : InviteTokenError → string;
  show_conflict : ConflictError → string;
  show_validate : ValidateError → string;
  show_skip : SkipReason → string;
  show_addr : SocketAddr → string;
  debug_string : string → string;
  debug_route : option Route → string;
}.

Inductive StreamStage := OpenBi | WriteMagic | WritePayload | FinishStream.
Class Streams := {
  raw_connection : PeerId → bool;
  (** The error of a stage, if it fails. *)
  stream_error : PeerId → StreamStage → option string;
}.

(** What one command draws from the clock and from [uuid]. *)
Record Draws := mk_Draws {
  (** Seconds since the epoch, and milliseconds. *)
  dr_now : N;
  dr_clock : N;
  dr_id : string;
  dr_uuid1 : string;
  dr_uuid2 : string;
  dr_us : nat → string;
  dr_vus : vkey → string;
  dr_vus3 : vkey → string * string * string;
  dr_ids : string → TransferId;
  dr_files : nat → Fresh;
}.

(** *** Derived [Debug] *)
Definition debug_peer_state (s : PeerState) : string :=
  match s with
  | Discovered => "Discovered" | Connecting => "Connecting" | Connected => "Connected" | PIdle => "Idle"
  | PAway => "Away" | Disconnected => "Disconnected"
  end.
Definition debug_transfer_state `{Texts} (s : TransferState) : string :=
  match s with
  | TQueued => "Queued" | TRunning => "Running" | TPaused => "Paused" | TCompleted => "Completed"
  | TFailed why => "Failed(" +:+ debug_string why +:+ ")" | TCancelled => "Cancelled"
  end.
Definition debug_resolution (r : ConflictResolution) : string :=
  match r with KeepLocal => "KeepLocal" | AcceptRemote => "AcceptRemote" | ManualMerge => "ManualMerge" end.
Definition debug_kind (k : RouteKind) : string :=
  match k with KDirect => "Direct" | KTunnel => "Tunnel" | KRelay => "Relay" end.
Definition source_str (s : HookSource) : string := match s with Daemon => "daemon" | ProjectFile => "project" end.

(** [Path::display] of an absolute path. *)
Definition display_path (p : path) : string := "/" +:+ String.concat "/" p.

(** ** Listings of the project manager *)
Definition list_projects `{!MapIter string ManagedProject} (m : ProjectManager) : list ProjectInfo :=
  (λ p, mk_ProjectInfo (mp_project_id p) (display_name (settings p)) (display_path (root_path p))
          (length (connected_peer_ids p)) 0) <$> (map_iter (projects m)).*2.

Definition get_project (m : ProjectManager) (project_id : string) : result ProjectError ProjectDetail :=
  match projects m !! project_id with
  | Some p =>
      Ok (mk_ProjectDetail (mp_project_id p) (display_name (settings p)) (description (settings p))
            (display_path (root_path p)) (mode_as_str (sync_mode (settings p))) (max_peers (settings p))
            (length (connected_peer_ids p)) 0 (created_at p) (connected_peer_ids p))
  | None => Err PNotFound
  end.

Definition project_count (m : ProjectManager) : nat := size (projects m).

(** [matches!(t.state, Running | Queued)], [Running], and a peer that counts as connected. *)
Definition is_active (t : ActiveTransfer) : bool :=
  match at_state t with TRunning | TQueued => true | _ => false end.
Definition is_running (t : ActiveTransfer) : bool := match at_state t with TRunning => true | _ => false end.
Definition is_online (n : RegisteredNode) : bool := match rn_state n with Connected | PIdle => true | _ => false end.
Definition count_if {A} (f : A → bool) (l : list A) : nat := length (filter (λ x, f x = true) l).

(** ** Computations of the server

    A computation stops early with the response of a [return], or by a panic. *)
Inductive Stop := Return (r : IpcResponse) | Panic.

Section server.
Context {Remote : Type}.
Abbreviation SIO A := (ST (Services Remote) Stop A).

Definition set_pub p (s : Services Remote) : Services Remote :=
  mk_Services p (sv_remote s) (sv_presence s) (sv_conflicts s) (sv_catalogs s) (sv_gossip s) (sv_shutdown s)
    (sv_net s) (sv_streams s).
Definition set_remote r (s : Services Remote) : Services Remote :=
  mk_Services (sv_pub s) r (sv_presence s) (sv_conflicts s) (sv_catalogs s) (sv_gossip s) (sv_shutdown s)
    (sv_net s) (sv_streams s).
Definition set_presence p (s : Services Remote) : Services Remote :=
  mk_Services (sv_pub s) (sv_remote s) p (sv_conflicts s) (sv_catalogs s) (sv_gossip s) (sv_shutdown s)
    (sv_net s) (sv_streams s).
Definition set_conflicts c (s : Services Remote) : Services Remote :=
  mk_Services (sv_pub s) (sv_remote s) (sv_presence s) c (sv_catalogs s) (sv_gossip s) (sv_shutdown s)
    (sv_net s) (sv_streams s).
Definition set_catalogs c (s : Services Remote) : Services Remote :=
  mk_Services (sv_pub s) (sv_remote s) (sv_presence s) (sv_conflicts s) c (sv_gossip s) (sv_shutdown s)
    (sv_net s) (sv_streams s).
Definition set_shared_gossip g (s : Services Remote) : Services Remote :=
  mk_Services (sv_pub s) (sv_remote s) (sv_presence s) (sv_conflicts s) (sv_catalogs s) g (sv_shutdown s)
    (sv_net s) (sv_streams s).
Definition set_net l (s : Services Remote) : Services Remote :=
  mk_Services (sv_pub s) (sv_remote s) (sv_presence s) (sv_conflicts s) (sv_catalogs s) (sv_gossip s) (sv_shutdown s)
    l (sv_streams s).
Definition set_streams l (s : Services Remote) : Services Remote :=
  mk_Services (sv_pub s) (sv_remote s) (sv_presence s) (sv_conflicts s) (sv_catalogs s) (sv_gossip s) (sv_shutdown s)
    (sv_net s) l.
Definition set_shutdown (s : Services Remote) : Services Remote :=
  mk_Services (sv_pub s) (sv_remote s) (sv_presence s) (sv_conflicts s) (sv_catalogs s) (sv_gossip s) true
    (sv_net s) (sv_streams s).

Definition set_node (n : Node) (p : Publisher) : Publisher := mk_Publisher n (pb_started p) (pb_spawned p).
Definition sv_node (s : Services Remote) : Node := pb_node (sv_pub s).
Definition sv_pm (s : Services Remote) : ProjectManager := npm (sv_node s).
Definition sv_ex (s : Services Remote) : Exchange := nd_ex (sv_node s).

(** The publisher with the shared gossip node in its exchange. *)
Definition lend_ex (s : Services Remote) : Publisher :=
  let n := sv_node s in
  set_node (mk_Node (set_gossip (sv_gossip s) (nd_ex n)) (nd_st n) (sent n)) (sv_pub s).
Definition return_ex (p : Publisher) (s : Services Remote) : Services Remote :=
  set_shared_gossip (ex_gossip (nd_ex (pb_node p))) (set_pub p s).

(** Publishing, and any other computation of the exchange and the files. *)
Definition on_publisher {A} (f : PublishError → IpcResponse) (m : PIO A) : SIO A := λ s,
  let '(r, p) := m (lend_ex s) in (map_err (Return ∘ f) r, return_ex p s).
Definition on_srv_node {E A} (f : E → IpcResponse) (m : ST Node E A) : SIO A := λ s,
  let '(r, n) := m (pb_node (lend_ex s)) in (map_err (Return ∘ f) r, return_ex (set_node n (sv_pub s)) s).
Definition on_srv_files {A} (f : IoError → IpcResponse) (m : IO A) : SIO A := on_srv_node f (on_files m).

(** A computation that also uses the backend of rotations. *)
Definition on_srv_remote {A} (f : IoError → IpcResponse) (m : ST (Node * Remote) IoError A) : SIO A := λ s,
  let '(r, (n, remote)) := m (pb_node (lend_ex s), sv_remote s) in
  (map_err (Return ∘ f) r, set_remote remote (return_ex (set_node n (sv_pub s)) s)).
Definition on_store {A} (m : ST (RWorld Remote) IoError A) : ST (Node * Remote) IoError A := λ '(n, remote),
  let st := nd_st n in
  let '(r, w) := m (mk_RWorld (world st) remote) in
  (r, (mk_Node (nd_ex n) (mk_State (pm st) (rw_world w) (state_cell st)) (sent n), rw_remote w)).

(** The project manager, with the shared gossip node. *)
Definition on_manager {A} (f : ProjectError → IpcResponse) (m : ST State ProjectError A) : SIO A := λ s,
  let n := sv_node s in
  let st := nd_st n in
  let '(r, st') := m (mk_State (Project.set_gossip (sv_gossip s) (pm st)) (world st) (state_cell st)) in
  (map_err (Return ∘ f) r, set_shared_gossip (gossip (pm st')) (set_pub (set_node (mk_Node (nd_ex n) st' (sent n)) (sv_pub s)) s)).

(** The hook runner. *)
Definition on_runner {A} (f : IoError → IpcResponse) (m : HIO A) : SIO A := λ s,
  let n := sv_node s in
  let st := nd_st n in
  let '(r, h) := m (mk_HookWorld (world st) (pb_started (sv_pub s))) in
  (map_err (Return ∘ f) r, set_pub (mk_Publisher (mk_Node (nd_ex n) (mk_State (pm st) (hw_world h) (state_cell st)) (sent n))
                           (started h) (pb_spawned (sv_pub s))) s).

Definition on_presence {E A} (f : E → IpcResponse) (g : PresenceService → PresenceService * result E A) : SIO A := λ s,
  let '(p, r) := g (set_ps_gossip (sv_gossip s) (sv_presence s)) in
  (map_err (Return ∘ f) r, set_shared_gossip (ps_gossip p) (set_presence p s)).

(** [fs::canonicalize] and the like resolve a relative path at the working directory. *)
Definition path_at (cwd : path) (s : string) : path := if is_absolute s then components s else cwd ++ components s.
Definition requested_path (s : string) : RequestedPath :=
  if is_absolute s then AbsolutePath (components s) else RelativePath (components s).

Definition fail {A} (code : N) (message : string) : SIO A := throw (Return (RError code message)).

(** ** The commands *)
Context `{Blake3, Crc32, Hex, Ed25519, HeapPick, TomlHooks, Shell, !MapIter MessageId N, !MapIter NodeId PeerRecord,
  !Codec ProjectManifest, !Codec VersionState, !Codec HistoryIndex, !Codec ObjectMeta, !Codec Tag, !Codec RootCatalog,
  DirOrder, !Codec PersistedState, !MapIter string ManagedProject, !MapIter TransferId ActiveTransfer,
  !MapIter PeerId RegisteredNode, !MapIter PeerId string, !MapIter FileId ConflictInfo, Network, Base64,
  !Codec InvitePayload, Texts, Streams}.
Context (s3 : string → string → string → RotationBackend Remote) (gdrive : string → string → RotationBackend Remote).
Context (cwd : path) (sc : ServerConfig).

Definition cmd_status : SIO IpcResponse :=
  s ← gets id;
  mret (RStatus (mk_DaemonStatus (sc_pid sc) (sc_started_at sc) (project_count (sv_pm s))
    (count_if is_online (list_nodes (sv_presence s) None)) (count_if is_active (list_transfers (sv_ex s) None)))).

Definition ensure_catalog_manager (now : N) (project_id : string) (s : Services Remote) : Services Remote :=
  match sv_catalogs s !! project_id with
  | Some _ => s
  | None =>
      let '(chunk_max, chain_max) :=
        match sc_net sc with
        | Some c => (cl_chunk_max_files (nc_catalog c), cl_chain_max_depth (nc_catalog c))
        | None => (128, 32)
        end in
      set_catalogs (<[project_id := Catalog.new_manager project_id chunk_max chain_max now]> (sv_catalogs s)) s
  end.

Definition cmd_project_open (d : Draws) (project_id root_path : string) (name : option string) : SIO IpcResponse :=
  _ ← on_manager (λ e, RError 1 (show_project e)) (open_project (dr_now d) (dr_uuid1 d) project_id (path_at cwd root_path) name);
  _ ← modify (ensure_catalog_manager (dr_clock d) project_id);
  mret ROk.

Definition cmd_project_close (project_id : string) : SIO IpcResponse :=
  _ ← on_manager (λ e, RError 1 (show_project e)) (close_project project_id);
  _ ← modify (λ s, set_catalogs (delete project_id (sv_catalogs s)) s);
  mret ROk.

Definition with_active (n : nat) (p : ProjectInfo) : ProjectInfo :=
  mk_ProjectInfo (pi_project_id p) (pi_display_name p) (pi_root_path p) (pi_peer_count p) n.

Definition cmd_project_list : SIO IpcResponse :=
  s ← gets id;
  let transfers := list_transfers (sv_ex s) None in
  mret (RProjectList ((λ p, with_active
    (count_if (λ t, bool_decide (at_project_id t = pi_project_id p) && is_active t) transfers) p) <$>
    list_projects (sv_pm s))).

Definition detail_with_active (n : nat) (p : ProjectDetail) : ProjectDetail :=
  mk_ProjectDetail (pd_project_id p) (pd_display_name p) (pd_description p) (pd_root_path p) (pd_sync_mode p)
    (pd_max_peers p) (pd_peer_count p) n (pd_created_at p) (pd_connected_peer_ids p).

Definition cmd_project_get (project_id : string) : SIO IpcResponse :=
  s ← gets id;
  match get_project (sv_pm s) project_id with
  | Ok detail => mret (RProjectDetail (detail_with_active (count_if is_active (list_transfers (sv_ex s) (Some project_id))) detail))
  | Err e => mret (RError 1 (show_project e))
  end.

Definition cmd_project_update (project_id : string) (patch : ProjectSettingsPatch) : SIO IpcResponse :=
  _ ← on_manager (λ e, RError 1 (show_project e)) (update_project project_id patch);
  mret ROk.

(** A token with the address of this node if there is one and the node has an identity. *)
Definition cmd_project_create_invite (d : Draws) (project_id : string) (expires_in_secs : option N)
    (explicit_url : option string) : SIO IpcResponse :=
  m ← gets sv_pm;
  match project_root m project_id with
  | None => fail 1 ("project not found: " +:+ project_id)
  | Some _ =>
      let advertised := resolve_advertised_peer_info_url show_addr explicit_url (nc_advertise <$> sc_net sc) in
      _ ← match advertised with
          | Some url => match validate_bootstrap_url url with Ok _ => mret () | Err e => fail 1 (show_bootstrap e) end
          | None => mret ()
          end;
      match advertised, sc_identity sc with
      | Some url, Some i =>
          expires ← match expires_in_secs with
                    | None => mret None
                    | Some secs => if (u64_max <? dr_now d + secs)%N then fail 1 "invite expiration is too large"
                                   else mret (Some (dr_now d + secs)%N)
                    end;
          let name := pi_display_name <$> List.find (λ p, bool_decide (pi_project_id p = project_id)) (list_projects m) in
          match issue i project_id name url expires (dr_uuid1 d) with
          | Some (t, _) => mret (RInviteToken t expires)
          | None => throw Panic
          end
      | _, _ =>
          invite ← on_manager (λ e, RError 1 (show_project e)) (create_invite (dr_now d) (dr_uuid1 d) project_id expires_in_secs);
          mret (RInviteToken (token invite) (expires_at invite))
      end
  end.

(** [bootstrap_and_register], on the shared presence service and network. *)
Definition join_peer (d : Draws) (project_id url : string) (expected : option PeerId) (f : JoinError → IpcResponse) :
    SIO BootstrapResult := λ s,
  let '(p, r, log) := bootstrap_and_register debug_route (dr_clock d) project_id url expected
                        (set_ps_gossip (sv_gossip s) (sv_presence s)) (sv_net s) in
  (map_err (Return ∘ f) r, set_net log (set_shared_gossip (ps_gossip p) (set_presence p s))).

Definition legacy_hint : string :=
  " (a token without the `syn1.` prefix only works on the daemon that issued it; ask the host to run `project invite --url ...`)".

(** Step 1 of a join: the project is opened unless it is open. *)
Definition open_for_join (d : Draws) (p : InvitePayload) (root_path : string) : SIO () :=
  m ← gets sv_pm;
  match project_root m (ip_project_id p) with
  | Some _ => mret ()
  | None =>
      let no_root := RError 1 "join root must be an existing directory" in
      root ← on_srv_files (λ _, no_root) (canonicalize (path_at cwd root_path));
      dir ← on_srv_files (λ _, no_root) (is_dir root);
      if negb dir then throw (Return no_root)
      else
        _ ← on_manager (λ e, RError 1 ("open project " +:+ ip_project_id p +:+ ": " +:+ show_project e))
              (open_project (dr_now d) (dr_uuid1 d) (ip_project_id p) root (ip_display_name p));
        modify (ensure_catalog_manager (dr_clock d) (ip_project_id p))
  end.

Definition unreachable_host (p : InvitePayload) (e : JoinError) : IpcResponse :=
  RError 2 ("project " +:+ ip_project_id p +:+ " opened locally but could not reach host at " +:+ peer_info_url p +:+ ": "
    +:+ show_join e +:+ ". Retry with `peer add-url " +:+ ip_project_id p +:+ " " +:+ peer_info_url p
    +:+ "` once the host is reachable").

Definition cmd_project_join (d : Draws) (invite_token root_path : string) : SIO IpcResponse :=
  if negb (is_self_contained invite_token) then
    _ ← on_manager (λ e, RError 1 (show_project e +:+ legacy_hint))
          (join_project (dr_now d) (dr_uuid1 d) invite_token (path_at cwd root_path));
    mret ROk
  else
    match Invite.decode invite_token (dr_now d) with
    | Err e => fail 1 (show_invite e)
    | Ok payload =>
        match validate_bootstrap_url (peer_info_url payload) with
        | Err e => fail 1 (show_bootstrap e)
        | Ok _ =>
            _ ← open_for_join d payload root_path;
            _ ← join_peer d (ip_project_id payload) (peer_info_url payload) (Some (host_peer_id payload))
                  (unreachable_host payload);
            mret ROk
        end
    end.

(** *** Peers *)
Definition peer_info (n : RegisteredNode) : PeerInfo :=
  mk_PeerInfo (rn_peer_id n) (rn_display_name n) (debug_route (list.head (rn_endpoints n))) (default 0%N (rn_rtt_ms n))
    (bandwidth_bps n) (debug_peer_state (rn_state n)) (rn_synergos_version n).

Definition cmd_peer_list (project_id : string) : SIO IpcResponse :=
  s ← gets id;
  mret (RPeerList (peer_info <$> list_nodes (sv_presence s) (Some project_id))).

Definition cmd_peer_connect (d : Draws) (project_id peer : string) : SIO IpcResponse :=
  _ ← on_presence (λ e, RError 2 (show_registry e))
        (register_node debug_route (dr_clock d) (mk_NodeRegistration peer peer [] [project_id] ""));
  _ ← ignore (on_presence (λ e, RError 2 (show_registry e)) (update_node_state (dr_clock d) peer Connected));
  mret ROk.

Definition cmd_peer_disconnect (peer : string) : SIO IpcResponse :=
  _ ← on_presence (λ e, RError 2 (show_registry e)) (unregister_node peer);
  mret ROk.

Definition cmd_peer_add_by_url (d : Draws) (project_id url : string) : SIO IpcResponse :=
  m ← gets sv_pm;
  match project_root m project_id with
  | None => fail 3 ("unknown project: " +:+ project_id)
  | Some _ => _ ← join_peer d project_id url None (λ e, RError 2 (show_join e)); mret ROk
  end.

(** *** Transfers *)
Definition cmd_transfer_request (d : Draws) (project_id file peer : string) : SIO IpcResponse :=
  _ ← on_srv_node (λ e, RError 3 (show_io e))
        (on_exchange (fetch_file (dr_clock d) (dr_id d) (mk_FetchRequest project_id file (Some peer) Interactive 0)));
  mret ROk.

Definition transfer_info (t : ActiveTransfer) : TransferInfo :=
  mk_TransferInfo (at_transfer_id t) (at_file_name t) (at_file_size t) (at_bytes_transferred t) (at_speed_bps t)
    (match at_direction t with Send => "upload" | Receive => "download" end) (at_peer_id t)
    (debug_transfer_state (at_state t)).

Definition cmd_transfer_list (project_id : option string) : SIO IpcResponse :=
  s ← gets id;
  mret (RTransferList (transfer_info <$> list_transfers (sv_ex s) project_id)).

Definition cmd_transfer_cancel (id : string) : SIO IpcResponse :=
  _ ← on_srv_node (λ e, RError 3 (show_sharing e))
        (λ n, let '(e, r) := cancel_transfer id (nd_ex n) in (r, mk_Node e (nd_st n) (sent n)));
  mret ROk.

Definition cmd_publish_update (d : Draws) (project_id : string) (paths : list string) : SIO IpcResponse :=
  _ ← on_publisher (λ e, RError 3 (show_publish e))
        (publish_update (sc_hooks sc) (sc_history sc) (dr_clock d) (dr_id d) (dr_files d) project_id
           (requested_path <$> paths));
  mret ROk.

(** *** The network *)
(** [u64] and [u32] sums of a release build wrap. *)
Definition sum_wrapping (bits : N) (l : list N) : N := (foldr N.add 0 l mod 2 ^ bits)%N.

Definition avg_latency (l : list RegisteredNode) : N :=
  let rtts := omap rn_rtt_ms l in
  let count := N.of_nat (length rtts) in
  if (count =? 0)%N then 0%N else (sum_wrapping 32 rtts / count)%N.

Definition primary_route (l : list RegisteredNode) : string :=
  match (n ← list.head l; list.head (rn_endpoints n)) with
  | Some r => debug_kind (route_kind r)
  | None => "none"
  end.

Definition cmd_network_status : SIO IpcResponse :=
  s ← gets id;
  let connected := filter (λ n, is_online n = true) (list_nodes (sv_presence s) None) in
  let running := filter (λ t, is_running t = true) (list_transfers (sv_ex s) None) in
  mret (RNetworkStatus (mk_NetworkStatusInfo (primary_route connected) (sum_wrapping 64 (bandwidth_bps <$> connected))
    (sum_wrapping 64 (at_speed_bps <$> running)) (N.of_nat (length connected) mod 65536)
    (match sc_net sc with Some c => N.min (nc_max_concurrent_streams c) 65535 | None => 0 end)
    (avg_latency connected))).

(** *** Checkout and restoration *)
Definition cmd_project_checkout (d : Draws) (project_id : string) (manifest_path : option string) : SIO IpcResponse :=
  report ← on_srv_node (λ e, RError 3 ("checkout failed: " +:+ show_io e))
             (checkout_project (dr_clock d) (dr_ids d) (dr_uuid1 d) (dr_uuid2 d) project_id (path_at cwd <$> manifest_path));
  mret (RCheckoutReport (mk_CheckoutReportDto (requested report) (up_to_date report) (extra report))).

Definition cmd_project_restore (d : Draws) (project_id rel : string) (v : N) : SIO IpcResponse :=
  _ ← on_srv_remote (λ e, RError 3 ("restore failed: " +:+ show_io e))
        (restore_file s3 gdrive cwd (dr_clock d) (dr_id d) (dr_us d 7) (dr_uuid1 d) (dr_uuid2 d) (dr_us d) (sc_history sc)
           project_id rel v);
  mret ROk.

(** *** The history store *)

(** [let Some(root) = project_root(..) else { return .. }], and [covers]. *)
Definition open_root (project_id : string) : SIO path :=
  m ← gets sv_pm;
  match project_root m project_id with
  | Some root => mret root
  | None => fail 2 ("project not open: " +:+ project_id)
  end.
Definition covered_root (project_id : string) : SIO path :=
  root ← open_root project_id;
  if negb (config_covers (sc_history sc) project_id) then fail 4 "this node is not a history node for the project"
  else mret root.

Definition version_dto (v : StoredVersion) : HistoryVersionDto :=
  mk_HistoryVersionDto (sv_rel v) (sv_version v) (sv_hash v) (sv_size v) (sv_crc v) (sv_stored_at v) (sv_publisher v)
    (sv_source v).

Definition cmd_history_list (d : Draws) (project_id : string) (rel : option string) : SIO IpcResponse :=
  root ← open_root project_id;
  items ← on_srv_files (λ e, RError 3 ("history list failed: " +:+ show_io e))
            (list_versions (dr_us d 0) (sc_history sc) root project_id rel);
  mret (RHistoryList (version_dto <$> items)).

(** The versions of a manifest. *)
Definition manifest_pins (l : list (string * ManifestEntry)) : list vkey := (λ '(rel, e), (rel, version e)) <$> l.

Definition keep_manifest (project_id p : string) : SIO (list vkey) :=
  m ← on_srv_files (λ e, RError 3 ("keep manifest " +:+ p +:+ " unreadable: " +:+ show_io e))
        (manifest_load_from_file (path_at cwd p) project_id);
  mret (manifest_pins (btree_iter (files m))).

(** The versions of the current manifest and of the files given. *)
Definition kept_versions (project_id : string) (keep_manifests : list string) : SIO (list vkey) :=
  m ← gets sv_pm;
  more ← collect (keep_manifest project_id) keep_manifests;
  mret (manifest_pins (manifest_entries m project_id) ++ mjoin more).

Definition cmd_history_gc (d : Draws) (project_id : string) (do_purge : bool) (keep_manifests : list string) :
    SIO IpcResponse :=
  root ← covered_root project_id;
  keep ← (if do_purge then mret [] else kept_versions project_id keep_manifests);
  report ← on_srv_files (λ e, RError 3 ("history gc failed: " +:+ show_io e))
             (gc (dr_us d) (dr_vus d) (dr_clock d) (sc_history sc) root project_id keep do_purge);
  mret (RHistoryGcReport (mk_HistoryGcReportDto (removed_versions report) (N.to_nat (removed_objects report))
    (bytes_freed report))).

Definition cmd_history_rotate (d : Draws) (project_id : string) (dry_run : bool) (keep_manifests : list string) :
    SIO IpcResponse :=
  root ← covered_root project_id;
  keep ← kept_versions project_id keep_manifests;
  report ← on_srv_remote (λ e, RError 3 ("history rotate failed: " +:+ show_io e))
             (on_store (rotate_store s3 gdrive cwd (dr_us d) (dr_vus3 d) (dr_clock d) (sc_history sc) root project_id keep
                dry_run));
  mret (RHistoryRotationReport (mk_HistoryRotationReportDto (rep_offloaded report) (bytes_offloaded report)
    (candidates report) ((λ x, (skip_rel x, skip_version x, show_skip (reason x))) <$> skipped report))).

Definition cmd_history_offloaded (d : Draws) (project_id : string) (rel : option string) : SIO IpcResponse :=
  root ← covered_root project_id;
  items ← on_srv_files (λ e, RError 3 ("history offloaded failed: " +:+ show_io e))
            (list_offloaded_versions (dr_us d 0) (sc_history sc) root project_id rel);
  mret (RHistoryOffloaded ((λ v, mk_HistoryOffloadedDto (ov_rel v) (ov_version v) (ov_size v) (ov_backend v) (ov_key v)) <$>
    items)).

Definition cmd_history_fetch (d : Draws) (project_id rel : string) (v : N) : SIO IpcResponse :=
  root ← covered_root project_id;
  _ ← on_srv_remote (λ e, RError 3 ("history fetch failed: " +:+ show_io e))
        (on_store (fetch_offloaded s3 gdrive cwd (dr_us d) (sc_history sc) root project_id rel v));
  mret ROk.

(** *** Tags *)

(** [into_iter().collect()] into a map: the last of equal keys stays. *)
Definition collect_map (l : list vkey) : gmap string N := foldl (λ m '(rel, v), <[rel := v]> m) ∅ l.

Definition tag_dto (t : Tag) : TagDto := mk_TagDto (tag_name t) (tag_created_at t) (btree_iter (pins t)).

Definition tag_versions (project_id : string) (manifest_path : option string) (given : list vkey) : SIO (list vkey) :=
  if negb (bool_decide (given = [])) then mret given
  else
    match manifest_path with
    | Some p =>
        m ← on_srv_files (λ e, RError 3 ("manifest " +:+ p +:+ " unreadable: " +:+ show_io e))
              (manifest_load_from_file (path_at cwd p) project_id);
        mret (manifest_pins (btree_iter (files m)))
    | None => m ← gets sv_pm; mret (manifest_pins (manifest_entries m project_id))
    end.

Definition cmd_tag_add (d : Draws) (project_id name : string) (manifest_path : option string) (given : list vkey) :
    SIO IpcResponse :=
  root ← covered_root project_id;
  resolved ← tag_versions project_id manifest_path given;
  if bool_decide (collect_map resolved = ∅) then fail 3 "nothing to pin: manifest has no entries"
  else
    tag ← on_srv_files (λ e, RError 3 ("tag add failed: " +:+ show_io e))
            (tag_add (dr_us d 0) (dr_clock d) (sc_history sc) root project_id name (collect_map resolved));
    mret (RTag (tag_dto tag)).

Definition cmd_tag_ls (project_id : string) : SIO IpcResponse :=
  root ← open_root project_id;
  items ← on_srv_files (λ e, RError 3 ("tag ls failed: " +:+ show_io e)) (store_tag_list (sc_history sc) root project_id);
  mret (RTagList ((λ t, mk_TagSummaryDto (Tags.ts_name t) (Tags.ts_created_at t) (pin_count t)) <$> items)).

Definition cmd_tag_show (project_id name : string) : SIO IpcResponse :=
  root ← open_root project_id;
  t ← on_srv_files (λ e, RError 3 ("tag show failed: " +:+ show_io e)) (tag_show (sc_history sc) root project_id name);
  match t with
  | Some t => mret (RTag (tag_dto t))
  | None => fail 2 ("tag not found: " +:+ name)
  end.

Definition cmd_tag_rm (project_id name : string) : SIO IpcResponse :=
  root ← open_root project_id;
  removed ← on_srv_files (λ e, RError 3 ("tag rm failed: " +:+ show_io e))
              (store_tag_remove (sc_history sc) root project_id name);
  if removed : bool then mret ROk else fail 2 ("tag not found: " +:+ name).

(** *** Hooks *)
Definition hook_info (h : EffectiveHook) : HookInfoDto :=
  mk_HookInfoDto (source_str (eff_source h)) (hook_event (def h)) (command (def h)) (match_ (def h)) (timeout_sec (def h))
    (disabled_by_opt_in h).

Definition cmd_hooks_list (project_id : string) : SIO IpcResponse :=
  root ← open_root project_id;
  l ← on_runner (λ e, RError 3 ("hooks list failed: " +:+ show_io e)) (effective_hooks (sc_hooks sc) root);
  mret (RHooksList (hook_info <$> l)).

Definition parse_event (event : string) : option HookEvent :=
  if bool_decide (event = "pre-publish") then Some PrePublish
  else if bool_decide (event = "post-publish") then Some PostPublish
  else if bool_decide (event = "post-receive") then Some PostReceive
  else None.

Definition hook_result (o : HookOutcome) : HookRunResultDto :=
  let '(status, exit_code, detail) :=
    match out_status o with
    | Success => ("success", None, None)
    | Failed exit_code => ("failed", exit_code, None)
    | TimedOut => ("timed_out", None, None)
    | SpawnError e => ("spawn_error", None, Some e)
    end in
  mk_HookRunResultDto (source_str (out_source o)) (out_command o) status exit_code detail.

Definition cmd_hooks_run (project_id event rel : string) : SIO IpcResponse :=
  root ← open_root project_id;
  match parse_event event with
  | None => fail 1 ("unknown hook event: " +:+ event)
  | Some ev =>
      l ← on_runner (λ e, RError 3 ("hooks run failed: " +:+ show_io e)) (run_manual (sc_hooks sc) root ev project_id rel);
      mret (RHooksRunReport (hook_result <$> l))
  end.

(** *** Conflicts *)
Definition conflict_dto (c : ConflictInfo) : ConflictInfoDto :=
  mk_ConflictInfoDto (cf_file_id c) (cf_file_path c) (cf_project_id c) (local_version c) (local_author c)
    (remote_version c) (remote_author c) (detected_at c)
    (match cf_state c with CActive => "active" | CResolved r => "resolved:" +:+ debug_resolution r end).

Definition cmd_conflict_list (project_id : option string) : SIO IpcResponse :=
  s ← gets id;
  mret (RConflictList (conflict_dto <$> list_conflicts (sv_conflicts s) project_id)).

Definition parse_resolution (r : string) : option ConflictResolution :=
  if bool_decide (r = "keep_local") then Some KeepLocal
  else if bool_decide (r = "accept_remote") then Some AcceptRemote
  else if bool_decide (r = "manual_merge") then Some ManualMerge
  else None.

Definition cmd_conflict_resolve (file resolution : string) : SIO IpcResponse :=
  match parse_resolution resolution with
  | None => fail 4 ("invalid resolution: " +:+ resolution)
  | Some r => λ s,
      let '(c, res) := resolve_conflict file r (sv_conflicts s) in
      (match res with Ok _ => Ok ROk | Err e => Err (Return (RError 4 (show_conflict e))) end, set_conflicts c s)
  end.

(** *** Streams to a peer *)
Definition stage (p : PeerId) (st : StreamStage) (label : string) : SIO () :=
  match stream_error p st with
  | Some e => fail 5 (label +:+ ": " +:+ e)
  | None => mret ()
  end.
Definition record_sent (p : PeerId) (b : bytes) : SIO () := modify (λ s, set_streams (sv_streams s ++ [(p, b)]) s).

Definition cmd_peer_send_stream (peer : string) (magic payload : bytes) : SIO IpcResponse :=
  if negb (raw_connection peer) then fail 5 ("peer " +:+ peer +:+ " not connected")
  else
    _ ← stage peer OpenBi "open_bi";
    _ ← stage peer WriteMagic "write magic";
    _ ← record_sent peer magic;
    _ ← stage peer WritePayload "write payload";
    _ ← record_sent peer payload;
    _ ← stage peer FinishStream "finish";
    mret ROk.

(** ** Dispatch *)
Definition handler (d : Draws) (c : IpcCommand) : SIO IpcResponse :=
  match c with
  | CmdPing => mret RPong
  | CmdShutdown => _ ← modify set_shutdown; mret ROk
  | CmdStatus => cmd_status
  | CmdProjectOpen pid root name => cmd_project_open d pid root name
  | CmdProjectClose pid => cmd_project_close pid
  | CmdProjectList => cmd_project_list
  | CmdProjectGet pid => cmd_project_get pid
  | CmdProjectUpdate pid name desc mode peers => cmd_project_update pid (mk_ProjectSettingsPatch name desc mode peers)
  | CmdProjectCreateInvite pid expires url => cmd_project_create_invite d pid expires url
  | CmdProjectJoin t root => cmd_project_join d t root
  | CmdPeerList pid => cmd_peer_list pid
  | CmdPeerConnect pid peer => cmd_peer_connect d pid peer
  | CmdPeerDisconnect peer => cmd_peer_disconnect peer
  | CmdPeerAddByUrl pid url => cmd_peer_add_by_url d pid url
  | CmdTransferRequest pid file peer => cmd_transfer_request d pid file peer
  | CmdTransferList pid => cmd_transfer_list pid
  | CmdTransferCancel id => cmd_transfer_cancel id
  | CmdPublishUpdate pid paths => cmd_publish_update d pid paths
  | CmdProjectCheckout pid m => cmd_project_checkout d pid m
  | CmdProjectRestore pid rel v => cmd_project_restore d pid rel v
  | CmdHistoryList pid rel => cmd_history_list d pid rel
  | CmdHistoryGc pid p keep => cmd_history_gc d pid p keep
  | CmdHistoryRotate pid dry keep => cmd_history_rotate d pid dry keep
  | CmdHistoryOffloaded pid rel => cmd_history_offloaded d pid rel
  | CmdHistoryFetch pid rel v => cmd_history_fetch d pid rel v
  | CmdHooksList pid => cmd_hooks_list pid
  | CmdHooksRun pid event rel => cmd_hooks_run pid event rel
  | CmdTagAdd pid name m given => cmd_tag_add d pid name m given
  | CmdTagLs pid => cmd_tag_ls pid
  | CmdTagShow pid name => cmd_tag_show pid name
  | CmdTagRm pid name => cmd_tag_rm pid name
  | CmdConflictList pid => cmd_conflict_list pid
  | CmdConflictResolve file r => cmd_conflict_resolve file r
  | CmdNetworkStatus => cmd_network_status
  | CmdConfigUpdate _ _ _ | CmdSubscribe _ | CmdUnsubscribe _ => mret ROk
  | CmdPeerSendStream peer magic payload => cmd_peer_send_stream peer magic payload
  end.

(** The response, [None] for a panic. *)
Definition dispatch_command (d : Draws) (c : IpcCommand) (s : Services Remote) : option IpcResponse * Services Remote :=
  let '(r, s) := handler d c s in
  (match r with Ok x => Some x | Err (Return x) => Some x | Err Panic => None end, s).

End server.

(** ** The relay of events *)
Inductive BusEvent :=
| BusPresence (e : PresenceEvent)
| BusTransfer (e : TransferEvent)
| BusConflict (e : ConflictDetectedEvent)
| BusNetwork (active_connections total_bandwidth_bps used_bandwidth_bps avg_latency_ms : N)
| BusStream (peer_id : string) (magic payload : bytes).

Definition bus_category (e : BusEvent) : EventCategory :=
  match e with
  | BusPresence _ => CatPeer | BusTransfer _ => CatTransfer | BusConflict _ => CatConflict | BusNetwork _ _ _ _ => CatNetwork
  | BusStream _ _ _ => CatPeerStream
  end.
Definition bus_project (e : BusEvent) : option string :=
  match e with
  | BusPresence (PeerConnectedEvent p _ _ _ _) => Some p
  | BusPresence (PeerDisconnectedEvent p _ _) => Some p
  | BusConflict c => Some (cd_project_id c)
  | _ => None
  end.
Definition ipc_event (e : BusEvent) : IpcEvent :=
  match e with
  | BusPresence (PeerConnectedEvent p peer name route rtt) => EvPeerConnected p peer name route rtt
  | BusPresence (PeerDisconnectedEvent p peer why) => EvPeerDisconnected p peer why
  | BusTransfer (TransferProgressEvent id name n total speed) => EvTransferProgress id "" name n total speed
  | BusTransfer (TransferCompletedEvent id name p) => EvTransferCompleted id "" name p
  | BusConflict c => EvConflictDetected (cd_project_id c) (cd_file_id c) (cd_file_path c) (cd_involved_peers c)
  | BusNetwork a t u l => EvNetworkStatusUpdated a t u l
  | BusStream peer magic payload => EvPeerStreamReceived peer magic payload
  end.

(** [Some n] is a write that fails after [n] bytes. *)
Definition write_frame `{!Codec ServerMessage} (w : option nat) (m : ServerMessage) (out : bytes) : bytes * result IpcError () :=
  match write_message m with
  | Err e => (out, Err e)
  | Ok b => match w with None => (out ++ b, Ok ()) | Some n => (out ++ take n b, Err IpcIo) end
  end.

(** What the channels yield, [None] for a receiver that lagged behind; the flag says whether the relay still runs. *)
Fixpoint relay_events `{!Codec ServerMessage} (filters : list EventFilter) (ws : nat → option nat) (i : nat)
    (events : list (option BusEvent)) (out : bytes) : bytes * bool :=
  match events with
  | [] => (out, true)
  | None :: events => relay_events filters ws i events out
  | Some e :: events =>
      match filter_events filters (bus_category e) (bus_project e) (ipc_event e) with
      | None => relay_events filters ws i events out
      | Some ev =>
          match write_frame (ws i) (SEvent ev) out with
          | (out, Ok _) => relay_events filters ws (S i) events out
          | (out, Err _) => (out, false)
          end
      end
  end.

(** ** The session of a client

    The answers and the relay write to the same socket, one frame at a time.  [RelayRun] is what
    becomes of the relay in a round of the session, from the answer before to the one of this
    round: the events its channels yield, how its writes go, and, for a round in which it is
    aborted, the frame it was writing and how many bytes of it had been written. *)
Record RelayRun := mk_RelayRun {
  rr_events : list (option BusEvent);
  rr_writes : nat → option nat;
  rr_torn : option (BusEvent * nat);
}.

(** [ss_out] holds the bytes written to the socket, [ss_relay] the filters of the relay that runs. *)
Record Session {Remote : Type} := mk_Session {
  ss_services : Services Remote;
  ss_relay : option (list EventFilter);
  ss_out : bytes;
}.
Arguments Session : clear implicits.
Arguments mk_Session {_}.

(** How a session ends: the client disconnected, an error was returned, or the task panicked. *)
Inductive SessionEnd := Ended (r : result IpcError ()) | Crashed.

Section session.
Context {Remote : Type}.
Context `{Blake3, Crc32, Hex, Ed25519, HeapPick, TomlHooks, Shell, !MapIter MessageId N, !MapIter NodeId PeerRecord,
  !Codec ProjectManifest, !Codec VersionState, !Codec HistoryIndex, !Codec ObjectMeta, !Codec Tag, !Codec RootCatalog,
  DirOrder, !Codec PersistedState, !MapIter string ManagedProject, !MapIter TransferId ActiveTransfer,
  !MapIter PeerId RegisteredNode, !MapIter PeerId string, !MapIter FileId ConflictInfo, Network, Base64,
  !Codec InvitePayload, Texts, Streams}.
Context (s3 : string → string → string → RotationBackend Remote) (gdrive : string → string → RotationBackend Remote).
Context (cwd : path) (sc : ServerConfig).
Context `{!Codec IpcCommand, !Codec ServerMessage}.

Definition send_server_message (w : option nat) (m : ServerMessage) (ss : Session Remote) : Session Remote * result IpcError () :=
  let '(out, r) := write_frame w m (ss_out ss) in (mk_Session (ss_services ss) (ss_relay ss) out, r).

Definition set_relay (f : option (list EventFilter)) (ss : Session Remote) : Session Remote :=
  mk_Session (ss_services ss) f (ss_out ss).

(** The task of the relay; it is over when it cannot write. *)
Definition run_relay (run : RelayRun) (ss : Session Remote) : Session Remote :=
  match ss_relay ss with
  | None => ss
  | Some filters =>
      let '(out, running) := relay_events filters (rr_writes run) 0 (rr_events run) (ss_out ss) in
      mk_Session (ss_services ss) (if running : bool then Some filters else None) out
  end.

(** [abort]: a frame that is being written stays as it is. *)
Definition abort_relay (run : RelayRun) (ss : Session Remote) : Session Remote :=
  match ss_relay ss with
  | None => ss
  | Some filters =>
      let part :=
        match rr_torn run with
        | Some (e, n) =>
            match filter_events filters (bus_category e) (bus_project e) (ipc_event e) with
            | Some ev => match write_message (SEvent ev) with Ok b => take n b | Err _ => [] end
            | None => []
            end
        | None => []
        end in
      mk_Session (ss_services ss) None (ss_out ss ++ part)
  end.

(** One round of the loop; [None] continues. *)
Definition reply (w : option nat) (r : IpcResponse) (ss : Session Remote) : Session Remote * option SessionEnd :=
  let '(ss, res) := send_server_message w (SResponse r) ss in
  (ss, match res with Ok _ => None | Err e => Some (Ended (Err e)) end).

Definition serve (d : Draws) (w : option nat) (run : RelayRun) (c : IpcCommand) (ss : Session Remote) :
    Session Remote * option SessionEnd :=
  let ss := run_relay run ss in
  match validate c with
  | Err reason => reply w (RError 400 ("invalid command: " +:+ show_validate reason)) ss
  | Ok _ =>
      match c with
      | CmdSubscribe events =>
          match reply w (RSubscribed (dr_id d)) (abort_relay run ss) with
          | (ss, None) => (set_relay (Some (if bool_decide (events = []) then [FilterAll] else events)) ss, None)
          | x => x
          end
      | CmdUnsubscribe _ => reply w ROk (abort_relay run ss)
      | _ =>
          let '(r, s) := dispatch_command s3 gdrive cwd sc d c (ss_services ss) in
          let ss := mk_Session s (ss_relay ss) (ss_out ss) in
          match r with Some r => reply w r ss | None => (ss, Some Crashed) end
      end
  end.

(** Round [i] draws [ds i], its write goes as [ws i] says, its read is cut up as [ks i] says and
    its relay runs as [rr i] says. *)
Fixpoint handle_client_generic (fuel : nat) (ks : nat → list nat) (ds : nat → Draws) (ws : nat → option nat) (rr : nat → RelayRun)
    (i : nat) (input : bytes) (ss : Session Remote) : Session Remote * SessionEnd :=
  match fuel with
  | O => (ss, Crashed)
  | S fuel =>
      match read_message (A:=IpcCommand) (ks i) input with
      | Err ConnectionClosed => (abort_relay (rr i) (run_relay (rr i) ss), Ended (Ok ()))
      | Err e => (abort_relay (rr i) (run_relay (rr i) ss), Ended (Err e))
      | Ok (c, input) =>
          match serve (ds i) (ws i) (rr i) c ss with
          | (ss, None) => handle_client_generic fuel ks ds ws rr (S i) input ss
          | (ss, Some e) => (ss, e)
          end
      end
  end.

(** Every frame has at least four bytes, so that the length of the input bounds the rounds. *)
Definition session (ks : nat → list nat) (ds : nat → Draws) (ws : nat → option nat) (rr : nat → RelayRun) (input : bytes)
    (s : Services Remote) : Session Remote * SessionEnd :=
  handle_client_generic (S (length input)) ks ds ws rr 0 input (mk_Session s None []).
End session.

(** ** Accepting clients *)

(** [verify_peer_uid]: an unknown uid is let through. *)
Definition verify_peer_uid (peer_uid : option N) (self_uid : N) : bool :=
  match peer_uid with None => true | Some u => bool_decide (u = self_uid) end.

(** The pause after the next failed [accept], in milliseconds. *)
Definition next_backoff (backoff_ms : N) : N := N.min 1000 (N.max 10 (backoff_ms * 2)).

Inductive AcceptEvent := Accepted (stream : nat) (peer_uid : option N) | AcceptError.

(** [IpcServer::run] until the shutdown signal: the streams served and the pauses made. *)
Fixpoint accept_loop (self_uid backoff_ms : N) (events : list AcceptEvent) : list nat * list N :=
  match events with
  | [] => ([], [])
  | Accepted stream uid :: events =>
      let '(served, pauses) := accept_loop self_uid 0 events in
      (if verify_peer_uid uid self_uid then stream :: served else served, pauses)
  | AcceptError :: events =>
      let b := next_backoff backoff_ms in
      let '(served, pauses) := accept_loop self_uid b events in (served, b :: pauses)
  end.

(** The relay sends, in their order, exactly the events that one of the filters lets through, each in a frame of its own,
    until the first write that fails. *)
Theorem relay_exact `{!Codec ServerMessage} filters ws events i out out' running :
  relay_events filters ws i events out = (out', running) →
  let wanted := omap (λ o, e ← o; filter_events filters (bus_category e) (bus_project e) (ipc_event e)) events in
  (∀ e, e ∈ wanted → ∃ b, Some b ∈ events ∧ e = ipc_event b ∧
     existsb (λ f, filter_event_one f (bus_category b) (bus_project b)) filters = true) ∧
  if running then ∃ fs, Forall2 (λ e f, write_message (SEvent e) = Ok f) wanted fs ∧ out' = out ++ mjoin fs
  else ∃ sent fs e rest part, wanted = sent ++ e :: rest ∧ Forall2 (λ e f, write_message (SEvent e) = Ok f) sent fs ∧
    out' = out ++ mjoin fs ++ part ∧ ∀ f, write_message (SEvent e) = Ok f → part `prefix_of` f.
Proof.
  cbv zeta. intros Hrun. split.
  { intros e (o & Ho & He)%list_elem_of_omap. destruct o as [b|]; [|done]. cbn in He. unfold filter_events in He.
    destruct (existsb _ _) eqn:Ex; [|done]. injection He as <-. by exists b. }
  revert i out Hrun. induction events as [|[b|] events IH]; intros i out; cbn [relay_events].
  - intros [= <- <-]. exists []. by rw app_nil_r.
  - cbn. destruct (filter_events _ _ _ _) as [e|]; [|apply IH]. unfold write_frame.
    destruct (write_message (SEvent e)) as [f|er] eqn:Ef; cycle 1.
    { intros [= <- <-]. eexists [], [], e, _, []. split; [reflexivity|]. split; [done|].
      split; [by rewrite /= app_nil_r|]. intros f' _. apply prefix_nil. }
    destruct (ws i) as [n|] eqn:Ew.
    { intros [= <- <-]. eexists [], [], e, _, (take n f). split; [reflexivity|]. split; [done|]. split; [done|].
      intros f'. rw Ef. intros [= <-]. apply prefix_take. }
    intros Hrun. specialize (IH _ _ Hrun). destruct running.
    + destruct IH as (fs & Hfs & ->). exists (f :: fs). split; [by constructor|]. by rw -app_assoc.
    + destruct IH as (sent & fs & e' & rest & part & E & Hfs & -> & Hp). exists (e :: sent), (f :: fs), e', rest, part.
      split; [cbn; f_equal; exact E|]. split; [by constructor|]. split; [by rw -!app_assoc|done].
  - apply IH.
Qed.

(** ** Sessions *)
Section sessions.
Context {Remote : Type}.
Context `{Blake3, Crc32, Hex, Ed25519, HeapPick, TomlHooks, Shell, !MapIter MessageId N, !MapIter NodeId PeerRecord,
  !Codec ProjectManifest, !Codec VersionState, !Codec HistoryIndex, !Codec ObjectMeta, !Codec Tag, !Codec RootCatalog,
  DirOrder, !Codec PersistedState, !MapIter string ManagedProject, !MapIter TransferId ActiveTransfer,
  !MapIter PeerId RegisteredNode, !MapIter PeerId string, !MapIter FileId ConflictInfo, Network, Base64,
  !Codec InvitePayload, Texts, Streams, !Codec IpcCommand, !Codec ServerMessage}.
Context (s3 : string → string → string → RotationBackend Remote) (gdrive : string → string → RotationBackend Remote).
Context (cwd : path) (sc : ServerConfig).

(** What a command is answered, and the services after it. *)
Definition answer (d : Draws) (c : IpcCommand) (s : Services Remote) : option IpcResponse * Services Remote :=
  match validate c with
  | Err reason => (Some (RError 400 ("invalid command: " +:+ show_validate reason)), s)
  | Ok _ =>
      match c with
      | CmdSubscribe _ => (Some (RSubscribed (dr_id d)), s)
      | CmdUnsubscribe _ => (Some ROk, s)
      | _ => dispatch_command s3 gdrive cwd sc d c s
      end
  end.






















(** ** What the client reads *)







Lemma sends_receives ms : sends (OpReceive <$> ms) = [].
Proof. by induction ms. Qed.



(** ** What leaves the services alone *)
Definition is_query (c : IpcCommand) : bool :=
  match c with
  | CmdPing | CmdStatus | CmdProjectList | CmdProjectGet _ | CmdPeerList _ | CmdTransferList _ | CmdConflictList _
  | CmdNetworkStatus | CmdConfigUpdate _ _ _ | CmdSubscribe _ | CmdUnsubscribe _ => true
  | _ => false
  end.

(** The project that must be open for a command. *)
Definition needs_project (c : IpcCommand) : option string :=
  match c with
  | CmdProjectCreateInvite p _ _ | CmdPeerAddByUrl p _ | CmdHistoryList p _ | CmdHistoryGc p _ _ | CmdHistoryRotate p _ _
  | CmdHistoryOffloaded p _ | CmdHistoryFetch p _ _ | CmdHooksList p | CmdHooksRun p _ _ | CmdTagAdd p _ _ _ | CmdTagLs p
  | CmdTagShow p _ | CmdTagRm p _ => Some p
  | _ => None
  end.
(** The project whose history this node must keep for a command. *)
Definition needs_history (c : IpcCommand) : option string :=
  match c with
  | CmdHistoryGc p _ _ | CmdHistoryRotate p _ _ | CmdHistoryOffloaded p _ | CmdHistoryFetch p _ _ | CmdTagAdd p _ _ _ => Some p
  | _ => None
  end.
Definition is_error (r : option IpcResponse) : bool := match r with Some (RError _ _) => true | _ => false end.

(** A command is refused without a trace unless it validates, its project is open and, where it works on the history
    store, this node keeps the history of the project; and a query leaves everything as it was. *)
Theorem refused_commands_change_nothing d c s :
  (is_ok (validate c) = false ∨
   (∃ p, needs_project c = Some p ∧ project_root (sv_pm s) p = None) ∨
   (∃ p, needs_history c = Some p ∧ config_covers (sc_history sc) p = false) →
   (answer d c s).2 = s ∧ is_error (answer d c s).1 = true) ∧
  (is_query c = true → (answer d c s).2 = s).
Proof.
  unfold answer. destruct (validate c) as [u|e].
  2:{ by split. }
  split.
  - intros [?|[(p & Hp & Hr)|(p & Hp & Hh)]]; [done| |].
    + destruct c; try done; injection Hp as ->; unfold dispatch_command; cbn [handler];
        by rewrite /cmd_project_create_invite /cmd_peer_add_by_url /cmd_history_list /cmd_history_gc /cmd_history_rotate
          /cmd_history_offloaded /cmd_history_fetch /cmd_hooks_list /cmd_hooks_run /cmd_tag_add /cmd_tag_ls /cmd_tag_show
          /cmd_tag_rm /covered_root /open_root /mbind /ST_bind /gets Hr.
    + destruct c; try done; injection Hp as ->; unfold dispatch_command; cbn [handler];
        rewrite /cmd_history_gc /cmd_history_rotate /cmd_history_offloaded /cmd_history_fetch /cmd_tag_add /covered_root
          /open_root /mbind /ST_bind /gets; by destruct (project_root _ _); rewrite /= ?Hh.
  - intros Hq. destruct c; try done. unfold dispatch_command. cbn [handler]. unfold cmd_project_get, mbind, ST_bind, gets.
    by destruct (get_project _ _).
Qed.

(** ** Joining a project *)
Lemma open_project_opens now uuid pid root name st u st' :
  open_project now uuid pid root name st = (Ok u, st') → is_Some (projects (pm st') !! pid).
Proof.
  unfold open_project. destruct (invalid_project_id pid); [done|]. intros Hrun. st_bind Hrun.
  destruct (projects a !! pid); [done|]. st_bind Hrun. destruct a0 as [[[croot man] vs] changed]. st_bind Hrun.
  st_bind Hrun. match goal with E : with_pm _ _ = _ |- _ => injection E as _ <- end.
  apply ignore_save_state_inv in Hrun as (-> & _). cbn. rw lookup_insert_eq. by eexists.
Qed.

(** Opening the project contacts nobody, the project is open when it succeeds, and a failure is an error. *)
Lemma wp_open_for_join d p root (s : Services Remote) :
  wp (open_for_join cwd sc d p root) (λ r (s' : Services Remote), sv_net s' = sv_net s ∧ r ≠ Err (Return ROk) ∧
    (r = Ok () → is_Some (project_root (sv_pm s') (ip_project_id p)))) s.
Proof.
  unfold open_for_join. wp_step. wp_step. destruct (project_root (sv_pm s) (ip_project_id p)) eqn:Er; [by wp_step|].
  assert (Hfiles : ∀ A n t (m : IO A) (s0 : Services Remote), wp (on_srv_files (λ _, RError n t) m)
    (λ r s', sv_net s' = sv_net s0 ∧ r ≠ Err (Return ROk)) s0).
  { intros A n t m s0. unfold wp, on_srv_files, on_srv_node. by destruct (on_files m _) as [[]]. }
  wp_step. eapply wp_mono; [apply Hfiles|]. intros [croot|e] s1 [E1 F1]; [|split_and!; [done|congruence|done]].
  wp_step. eapply wp_mono; [apply Hfiles|]. intros [dir|e] s2 [E2 F2]; [|split_and!; [congruence|congruence|done]].
  destruct dir; cbn [negb]; [|wp_step; split_and!; [congruence|done|done]].
  wp_step. unfold wp, on_manager. destruct (open_project _ _ _ _ _ _) as [[u|e] st'] eqn:Eo; cbn [map_err].
  2:{ cbn. split_and!; [congruence|done|done]. }
  apply open_project_opens in Eo. cbn. unfold ensure_catalog_manager. unfold sv_pm, npm, sv_node, project_root.
  case_match; [|destruct (sc_net sc)]; cbn; (split_and!; [congruence|done|]); intros _; by apply fmap_is_Some.
Qed.

(** Reaching the peer: the network sees the bootstrap with the peer expected. *)
Lemma join_peer_acts d pid url host f (s : Services Remote) x s' :
  join_peer d pid url (Some host) f s = (x, s') →
  ∃ acts, sv_net s' = sv_net s ++ acts ∧ (∀ q a, DidConnect q a ∈ acts → q = host) ∧ sv_pub s' = sv_pub s ∧
    (∀ e, x = Err e → ∃ je, e = Return (f je)) ∧
    (∀ b, x = Ok b → reconnect_urls (sv_presence s') !! host = Some url ∧
       ∃ a, DidConnect host a ∈ acts ∧ quic_connect host a = true).
Proof.
  unfold join_peer, bootstrap_and_register. destruct (bootstrap_from_url_expected url (Some host) (sv_net s)) as [r log] eqn:Eb.
  destruct (bootstrap_acts _ _ _ _ _ Eb) as (asked & peer & tried & -> & Hasked & Hexp & _ & Hok).
  assert (Hconn : ∀ q a, DidConnect q a ∈ asked ++ (DidConnect peer <$> tried) → q = host).
  { intros q a [Hin|Hin]%elem_of_app; [by destruct (Hasked _ _ Hin)|]. apply list_elem_of_fmap in Hin as (a' & [= -> ->] & Hin).
    apply Hexp; [|done]. by intros ->; apply elem_of_nil in Hin. }
  destruct r as [b|e]; [|intros [= <- <-]; eexists; split_and!; try done; intros ? [= <-]; by eexists].
  destruct (Hok b eq_refl) as (Hp & Hhost & a & Hlast & Hq). specialize (Hhost host eq_refl). subst peer.
  destruct (register_or_merge _ _ _ _) as [ps [n|e]]; intros [= <- <-]; eexists; (split; [reflexivity|]); (split; [exact Hconn|]);
    (split; [done|]); (split; [intros ? [=]|]).
  2: subst; by eexists.
  2: done.
  intros b' [= <-]. split.
  - cbn. unfold remember_reconnect_url. cbn. rw Hhost. by rw lookup_insert_eq.
  - exists a. rw Hhost in Hlast, Hq |- *. split; [|done]. apply elem_of_app. right. apply list_elem_of_fmap. exists a. split; [done|].
    apply last_Some in Hlast as [l ->]. set_solver.
Qed.

(** C24: The join of a self-contained token: the network is touched only for a token that verifies, is in date and names a
    proper address, after the project was opened, and the only peer connected to is the host that signed the token; with
    any other such token nothing changes; and after a success the host is reached and will be dialled again. *)
Theorem join_contacts_only_named_host d t root s r s' :
  is_self_contained t = true → dispatch_command s3 gdrive cwd sc d (CmdProjectJoin t root) s = (r, s') →
  match Invite.decode t (dr_now d) with
  | Ok p =>
      ∃ acts, sv_net s' = sv_net s ++ acts ∧ (∀ q a, DidConnect q a ∈ acts → q = host_peer_id p) ∧
        (acts ≠ [] → is_ok (validate_bootstrap_url (peer_info_url p)) = true ∧
           is_Some (project_root (sv_pm s') (ip_project_id p))) ∧
        (is_ok (validate_bootstrap_url (peer_info_url p)) = false → s' = s ∧ is_error r = true) ∧
        (r = Some ROk → is_Some (project_root (sv_pm s') (ip_project_id p)) ∧
           reconnect_urls (sv_presence s') !! host_peer_id p = Some (peer_info_url p) ∧
           ∃ a, DidConnect (host_peer_id p) a ∈ acts ∧ quic_connect (host_peer_id p) a = true)
  | Err _ => s' = s ∧ is_error r = true
  end.
Proof.
  intros Ht. unfold dispatch_command. cbn [handler]. unfold cmd_project_join. rw Ht. cbn [negb].
  destruct (Invite.decode t (dr_now d)) as [p|e]; [|by intros [= <- <-]].
  destruct (validate_bootstrap_url (peer_info_url p)) as [u|e] eqn:Eu.
  2:{ intros [= <- <-]. exists []. rw app_nil_r. split_and!; try done. intros q a []%elem_of_nil. }
  pose proof (wp_open_for_join d p root s) as Ho. unfold wp in Ho. unfold mbind at 1, ST_bind at 1.
  destruct (open_for_join _ _ _ _ _ _) as [[[]|st] s1]; destruct Ho as (En & Hnot & Hopen); cycle 1.
  { intros [= <- <-]. exists []. rw app_nil_r. split_and!; try done. 1: intros q a []%elem_of_nil.
    destruct st; [|done]. intros [= ->]. by destruct Hnot. }
  specialize (Hopen eq_refl). unfold mbind, ST_bind. destruct (join_peer _ _ _ _ _ _) as [x s2] eqn:Ej.
  destruct (join_peer_acts _ _ _ _ _ _ _ _ Ej) as (acts & Ea & Hq & Epub & Herr & Hok).
  assert (Hroot : is_Some (project_root (sv_pm s2) (ip_project_id p))).
  { unfold sv_pm, sv_node in *. by rw Epub. }
  destruct x as [b|st]; intros [= <- <-]; exists acts; rw Ea En; split_and!; try done.
  - intros _. split; [done|]. by apply (Hok b).
  - by destruct (Herr st eq_refl) as [je ->].
Qed.

(** A join with a token of this daemon opens the project and gives it no catalog, unlike every other way to open one. *)
Theorem legacy_join_without_catalog d t root s :
  is_self_contained t = false →
  sv_catalogs (dispatch_command s3 gdrive cwd sc d (CmdProjectJoin t root) s).2 = sv_catalogs s.
Proof.
  intros Ht. unfold dispatch_command. cbn [handler]. unfold cmd_project_join. rw Ht. cbn [negb].
  unfold on_manager, mbind, ST_bind. by destruct (join_project _ _ _ _ _) as [[] ?].
Qed.

(** The relay of a session that ends because an answer cannot be written is not stopped. *)
Theorem failed_answer_leaves_relay d n run ss b :
  write_message (SResponse RPong) = Ok b →
  (serve s3 gdrive cwd sc d (Some n) run CmdPing ss).2 = Some (Ended (Err IpcIo)) ∧
  ss_relay (serve s3 gdrive cwd sc d (Some n) run CmdPing ss).1 = ss_relay (run_relay run ss).
Proof. intros Hb. unfold serve, reply, send_server_message, write_frame. cbn. by rw Hb. Qed.

(** ** Collecting old versions *)
Definition sdisk (s : Services Remote) : Fs := ndisk (sv_node s).

(** The versions a manifest file at [p] keeps. *)
Definition file_pins (d : Fs) (pid p : string) : list vkey :=
  match read_at d (path_at cwd p) with
  | Ok b => match manifest_from_bytes b pid with Ok m => manifest_pins (btree_iter (files m)) | Err _ => [] end
  | Err _ => []
  end.

(** The current manifest of the project and the manifests named in the command. *)
Definition asked_to_keep (s : Services Remote) (pid : string) (keep_manifests : list string) : list vkey :=
  manifest_pins (manifest_entries (sv_pm s) pid) ++ (keep_manifests ≫= file_pins (sdisk s) pid).

Lemma wp_srv_files {A} f (m : IO A) (Q : result Stop A → Services Remote → Prop) s :
  wp m (λ r w, ∀ s', world (nd_st (sv_node s')) = w → sv_pm s' = sv_pm s → Q (map_err (Return ∘ f) r) s')
    (world (nd_st (sv_node s))) → wp (on_srv_files f m) Q s.
Proof.
  unfold wp, on_srv_files, on_srv_node, on_files, on_projects, lift_io. cbn. destruct (m _) as [r w]. intros HQ. by apply HQ.
Qed.

Lemma wp_keep_manifest pid p s :
  wp (keep_manifest cwd pid p) (λ r s', sdisk s' = sdisk s ∧ sv_pm s' = sv_pm s ∧
    ∀ l, r = Ok l → l = file_pins (sdisk s) pid p) s.
Proof.
  unfold keep_manifest. wp_step. apply wp_srv_files. unfold manifest_load_from_file. wp_step. apply wp_query.
  intros r w Hw Hr. destruct r as [b|e]; cbn; [|intros s' Es Ep; split_and!; [by rewrite /sdisk /ndisk Es Hw|done|done]].
  destruct Hr as [Hr|?]; [|done]. unfold file_pins, sdisk, ndisk. rw -Hr.
  destruct (manifest_from_bytes b pid) as [m|e] eqn:Em; intros s' Es Ep; cbn; unfold sdisk, ndisk; rw Es Hw; split_and!; try done.
  by intros l [= <-].
Qed.

Lemma wp_kept_versions pid keep s :
  wp (kept_versions cwd pid keep) (λ r s', sdisk s' = sdisk s ∧ sv_pm s' = sv_pm s ∧
    ∀ l, r = Ok l → l = asked_to_keep s pid keep) s.
Proof.
  unfold kept_versions. wp_step. wp_step. wp_step.
  apply (wp_collect _ (λ rest done_ s', sdisk s' = sdisk s ∧ sv_pm s' = sv_pm s ∧
    keep ≫= file_pins (sdisk s) pid = mjoin done_ ++ (rest ≫= file_pins (sdisk s) pid))).
  - done.
  - intros p rest done_ s1 (Ed & Ep & Ek). eapply wp_mono; [apply wp_keep_manifest|].
    intros [l|e] s2 (Ed2 & Ep2 & El); [|split_and!; [congruence|congruence|done]].
    specialize (El l eq_refl). split_and!; [congruence|congruence|]. rw Ek. cbn. rw join_app -app_assoc /= app_nil_r.
    by rw El Ed.
  - intros done_ s1 (Ed & Ep & Ek). wp_step. split_and!; [done|done|]. intros l [= <-]. unfold asked_to_keep. cbn in Ek.
    rw app_nil_r in Ek. by rw Ek.
Qed.

(** C19: A collection asked for without [purge] never removes a version of the project's current manifest, of a manifest named in
    the command, or one that a tag pins: its entry stays in the index and its object on the disk, however far the
    collection came and whether or not it was refused. *)
Theorem gc_command_spares `{!Blake3Laws, !HexLaws, !CodecLaws HistoryIndex, !DirOrderLaws} d pid root keep s r s' ix rel v e :
  let S := store_path pid (sc_history sc) root in
  project_root (sv_pm s) pid = Some root → store_inv S pid (sdisk s) (sdisk s) → holds_index S pid (sdisk s) ix →
  index_get ix rel v = Some e → (rel, v) ∈ asked_to_keep s pid keep ∨ pinned S pid (sdisk s) (rel, v) →
  dispatch_command s3 gdrive cwd sc d (CmdHistoryGc pid false keep) s = (r, s') →
  ∃ ix', holds_index S pid (sdisk s') ix' ∧ index_get ix' rel v = Some e ∧
    sdisk s' !! object_path S (ie_hash e) = sdisk s !! object_path S (ie_hash e).
Proof.
  intros S Hroot Hi Hx He Hkeep Hrun.
  assert (Hw : wp (cmd_history_gc cwd sc d pid false keep) (λ _ s', ∃ ix', holds_index S pid (sdisk s') ix' ∧
    index_get ix' rel v = Some e ∧ sdisk s' !! object_path S (ie_hash e) = sdisk s !! object_path S (ie_hash e)) s).
  2:{ unfold dispatch_command in Hrun. cbn [handler] in Hrun. unfold wp in Hw.
      destruct (cmd_history_gc _ _ _ _ _ _ _). by injection Hrun as _ <-. }
  assert (Hsame : ∀ s1, sdisk s1 = sdisk s → ∃ ix', holds_index S pid (sdisk s1) ix' ∧ index_get ix' rel v = Some e ∧
    sdisk s1 !! object_path S (ie_hash e) = sdisk s !! object_path S (ie_hash e)).
  { intros s1 E1. rw E1. by exists ix. }
  unfold cmd_history_gc, covered_root, open_root. wp_step. wp_step. wp_step. wp_step. rw Hroot. wp_step.
  destruct (config_covers _ _); cbn [negb]; [|by apply Hsame]. repeat wp_step.
  eapply wp_mono; [apply wp_kept_versions|]. intros [l|er] s1 (Ed & Ep & El); [|by apply Hsame].
  specialize (El l eq_refl). wp_step. apply wp_srv_files. fold (sdisk s1) in *.
  assert (E1 : disk (world (nd_st (sv_node s1))) = sdisk s) by exact Ed.
  apply wp_intro. intros r1 w1 Hgc s2 E2 _.
  assert (Hfin : ∃ ix', holds_index S pid (sdisk s2) ix' ∧ index_get ix' rel v = Some e ∧
    sdisk s2 !! object_path S (ie_hash e) = sdisk s !! object_path S (ie_hash e)).
  { unfold sdisk at 1 2, ndisk. rewrite E2 -E1. eapply gc_keeps_protected; [..|exact Hgc]; rewrite ?E1 ?El //. }
  destruct r1; exact Hfin.
Qed.
End sessions.

(** ** Events and clients *)

(** Only clients of the user who runs the daemon are served, unless the system cannot tell whose they are, and no pause
    after a failed [accept] is longer than a second. *)
Theorem accept_loop_exact self_uid backoff events :
  let '(served, pauses) := accept_loop self_uid backoff events in
  served = omap (λ ev, match ev with Accepted st uid => if verify_peer_uid uid self_uid then Some st else None
                                | AcceptError => None end) events ∧
  Forall (λ b, (10 ≤ b ≤ 1000)%N) pauses ∧ length pauses = count_if (λ ev, match ev with AcceptError => true | _ => false end) events.
Proof.
  revert backoff. induction events as [|[st uid|] events IH]; intros backoff; cbn [accept_loop]; [done|..].
  - specialize (IH 0%N). destruct (accept_loop _ _ _) as [served pauses]. destruct IH as (-> & Hp & Hl). cbn.
    split_and!; [by destruct (verify_peer_uid _ _)|done|done].
  - set (b := next_backoff backoff). specialize (IH b). destruct (accept_loop _ _ _) as [served pauses].
    destruct IH as (-> & Hp & Hl). cbn. split_and!; [done| |by rw Hl]. constructor; [|done]. unfold b, next_backoff. lia.
Qed.

(** ** Witnesses: a daemon with one project, and one that joins another *)
Module ServerWitness.
Import (hints) CheckoutWitness PublishWitness InviteWitness.
#[export] Existing Instances Toy.toy_blake3_laws Toy.toy_hex_laws StoreWitness.index_codec_laws StoreWitness.dir_order_laws
  ProjectWitness.persisted_codec.
#[export] Instance texts : Texts := {|
  show_project _ := "e"; show_io _ := "e"; show_sharing _ := "e"; show_publish _ := "e"; show_registry _ := "e";
  show_join _ := "e"; show_bootstrap _ := "e"; show_invite _ := "e"; show_conflict _ := "e"; show_validate _ := "e";
  show_skip _ := "e"; show_addr _ := "a"; debug_string s := s; debug_route _ := "r";
|}.
#[export] Instance streams : Streams := {| raw_connection _ := true; stream_error _ _ := None |}.
#[export] Instance iter {K A} `{Countable K} : MapIter K A := map_to_list.

Definition no_s3 (_ _ _ : string) : RotationBackend () := StoreWitness.bk.
Definition no_gdrive (_ _ : string) : RotationBackend () := StoreWitness.bk.
Definition draws (now : N) : Draws :=
  mk_Draws now now "id" "u1" "u2" StoreWitness.us (λ _, "v") StoreWitness.vus (λ _, "t") PublishWitness.frs.
Definition server (n : Node) : Services () :=
  mk_Services (mk_Publisher n [] []) () (with_network_and_mode None None false) new_conflicts ∅ None false [] [].
Definition config (h : HistoryConfig) : ServerConfig := mk_ServerConfig 1 2 None None h (mk_HooksConfig false []).

(** A subscription, a ping, a command that does not validate and a second subscription; an event comes before each answer. *)
Definition commands : list IpcCommand := [CmdSubscribe []; CmdPing; CmdProjectGet ""; CmdSubscribe []].
Definition answers : list IpcResponse := [RSubscribed "id"; RPong; RError 400 "invalid command: e"; RSubscribed "id"].
Definition event : BusEvent := BusPresence (PeerDisconnectedEvent "p" "q" "r").
Definition messages : list ServerMessage :=
  [SResponse RPong; SEvent (ipc_event event); SResponse (RError 400 "invalid command: e"); SResponse (RSubscribed "id")].
Definition calm (i : nat) : RelayRun := mk_RelayRun [Some event] (λ _, None) None.
(** The second subscription aborts the relay after two bytes of a frame. *)
Definition torn (i : nat) : RelayRun := mk_RelayRun [Some event] (λ _, None) (Some (event, 2)).
#[export] Instance command_codec : Codec IpcCommand := Toy.table_codec commands.
#[export] Instance command_laws : CodecLaws IpcCommand := Toy.table_codec_laws commands.
#[export] Instance message_codec : Codec ServerMessage := Toy.table_codec messages.
#[export] Instance message_laws : CodecLaws ServerMessage := Toy.table_codec_laws messages.

(** The store with two versions of [a.txt], of which the manifest names the first. *)
Definition gc_config : ServerConfig := config StoreWitness.c1.
Definition gc_manager : ProjectManager :=
  set_manifests {["p" := mk_ProjectManifest 1 "p" {["a.txt" := mk_ManifestEntry 1 3 0 1 "me"]}]} CheckoutWitness.pm1.
Definition gc_server : Services () :=
  server (mk_Node CheckoutWitness.e0 (mk_State gc_manager StoreWitness.w1 None) []).
Definition collected := dispatch_command no_s3 no_gdrive [] gc_config (draws 900000000001) (CmdHistoryGc "p" false []) gc_server.

(** A peer at the address of the token that is the host. *)
Definition host_net : Network := {|
  url_parse := @url_parse InviteWitness.net; addr_parse := @addr_parse InviteWitness.net;
  parse_peer_info _ := Some (mk_RemotePeerInfo (Identity.peer_id InviteWitness.host) (Some "[::]:7") 2 "0.1");
  http_get := @http_get InviteWitness.net; lookup_host := @lookup_host InviteWitness.net;
  quic_connect := @quic_connect InviteWitness.net;
|}.
Definition join_server : Services () :=
  server (mk_Node CheckoutWitness.e0 (mk_State (Project.new_manager None false) (mk_World {[["work"] := Dir]} []) None) []).
Definition joined :=
  dispatch_command (H7 := host_net) no_s3 no_gdrive [] (config StoreWitness.c) (draws 50) (CmdProjectJoin InviteWitness.token "/work")
    join_server.
End ServerWitness.
Import (hints) CheckoutWitness PublishWitness InviteWitness ServerWitness.

Module SessionWitness.
Definition client : IpcClient := client_run (OpSend <$> ServerWitness.commands) connected_client.
Definition ran (ws : nat → option nat) (rr : nat → RelayRun) : Session () * SessionEnd :=
  session ServerWitness.no_s3 ServerWitness.no_gdrive [] (ServerWitness.config StoreWitness.c) (λ _, []) (λ _, ServerWitness.draws 5)
    ws rr (wire client) (ServerWitness.server CheckoutWitness.n1).
Definition read (out : bytes) : list (nat * IpcResponse) := answered (reader_task (S (length out)) [1] out client).

End SessionWitness.


(** A relay that is aborted in the middle of a frame: the client never gets the answer to the command that aborted it,
    although it was written. *)
Example torn_frame_loses_answers :
  (SessionWitness.ran (λ _, None) ServerWitness.torn).2 = Ended (Ok ()) ∧
  SessionWitness.read (ss_out (SessionWitness.ran (λ _, None) ServerWitness.torn).1) = zip [0; 1; 2] (take 3 ServerWitness.answers).
Proof. split; vm_compute; reflexivity. Qed.

(** A session whose third answer cannot be written ends there. *)
Example failed_write_ends_session :
  (SessionWitness.ran (λ i, if i =? 2 then Some 3 else None) ServerWitness.calm).2 = Ended (Err IpcIo) ∧
  SessionWitness.read (ss_out (SessionWitness.ran (λ i, if i =? 2 then Some 3 else None) ServerWitness.calm).1) =
    zip [0; 1] (take 2 ServerWitness.answers).
Proof. split; vm_compute; reflexivity. Qed.

(** Without the manifest the limit of one version would remove version 1. *)
Lemma gc_command_spares_witness :
  apply_retention StoreWitness.ix2 StoreWitness.c1 [] 900000000001 = [("a.txt", 1%N)] ∧
  ∃ ix', holds_index (store_path "p" StoreWitness.c1 ["proj"]) "p" (sdisk ServerWitness.collected.2) ix' ∧
    index_get ix' "a.txt" 1 = Some StoreWitness.e1.
Proof.
  split; [vm_compute; reflexivity|].
  destruct (gc_command_spares ServerWitness.no_s3 ServerWitness.no_gdrive [] ServerWitness.gc_config
    (ServerWitness.draws 900000000001) "p" ["proj"] [] ServerWitness.gc_server ServerWitness.collected.1
    ServerWitness.collected.2 StoreWitness.ix2 "a.txt" 1 StoreWitness.e1) as (ix' & Hix & He & _).
  - vm_compute. reflexivity.
  - exact StoreWitness.inv1.
  - left. split; [eexists; split; vm_compute; reflexivity|]. split; vm_compute; reflexivity.
  - vm_compute. reflexivity.
  - left. vm_compute. left.
  - apply surjective_pairing.
  - exists ix'. split; [exact Hix|exact He].
Defined.

Lemma join_contacts_only_named_host_witness :
  ServerWitness.joined.1 = Some ROk ∧
  ∃ acts, sv_net ServerWitness.joined.2 = [] ++ acts ∧ (∀ q a, DidConnect q a ∈ acts → q = Identity.peer_id InviteWitness.host) ∧
    ∃ a, DidConnect (Identity.peer_id InviteWitness.host) a ∈ acts.
Proof.
  assert (Hr : ServerWitness.joined.1 = Some ROk) by (vm_compute; reflexivity).
  split; [exact Hr|].
  pose proof (join_contacts_only_named_host (H7 := ServerWitness.host_net) ServerWitness.no_s3 ServerWitness.no_gdrive []
    (ServerWitness.config StoreWitness.c) (ServerWitness.draws 50) InviteWitness.token "/work" ServerWitness.join_server
    ServerWitness.joined.1 ServerWitness.joined.2 eq_refl (surjective_pairing _)) as Hj.
  assert (Hd : Invite.decode InviteWitness.token (dr_now (ServerWitness.draws 50)) = Ok InviteWitness.payload) by (vm_compute; reflexivity).
  rewrite Hd in Hj. destruct Hj as (acts & Hn & Hq & _ & _ & Hok). exists acts. split; [exact Hn|]. split; [exact Hq|].
  destruct (Hok Hr) as (_ & _ & a & Ha & _). exists a. exact Ha.
Defined.

(** A relay for one project, and a client that reads two frames. *)
Lemma relay_exact_witness :
  let events := [Some ServerWitness.event; None; Some (BusPresence (PeerDisconnectedEvent "other" "q" "r"))] in
  ∃ fs, (relay_events [FilterProject "p"] (λ _, None) 0 events []).1 = [] ++ mjoin fs ∧ length fs = 1.
Proof.
  intros events.
  pose proof (relay_exact [FilterProject "p"] (λ _, None) events 0 [] (relay_events [FilterProject "p"] (λ _, None) 0 events []).1 true) as Hr.
  destruct Hr as [_ (fs & Hf & E)]; [vm_compute; reflexivity|]. exists fs. split; [exact E|].
  apply Forall2_length in Hf. rewrite -Hf. vm_compute. reflexivity.
Defined.
