(* ===== verification/Daemon.v ===== *)
(** * The daemon's tasks

    [synergos-core/src/daemon.rs] and [catalog_sync.rs]: the dispatch of the streams a peer
    opens, the fan-out of gossip, the subscriber that turns announcements into transfers,
    conflicts and catalog checks, the synchronisation of a catalog, and the rotation timer.
    The tasks of a connection and the periodic cleanup are in [Links].
    The components are those of [IpcServer.Services].

    A task is modelled by what one of its rounds does.  Rounds of different tasks run in any
    order; a handler that is spawned for a stream or an event runs as one step.  Streams are
    the bytes they carry; the connection a catalog is fetched over is a function from the bytes
    sent to the bytes received. *)

From Stdlib Require Import Strings.Ascii.
From S2P Require Import Prelude Crypto Types Identity Ledger Routing Dht Gossip Content Bitswap Catalog Transfer Fs Manifest Glob.
From S2P Require Import Project Retention HistoryIndex Tags Rotation HistoryStore StoreInv StoreOps StoreGc StoreProps Hooks Exchange.
From S2P Require Import Incoming Checkout Conflict Presence Publish IpcProtocol Invite IpcServer.

Record CatalogSyncNeededEvent := mk_CatalogSyncNeededEvent {
  sn_project_id : string;
  sn_remote_root_crc : N;
  sn_remote_update_count : N;
  sn_changed_chunks : list string;
  sn_catalog_cid : option Cid;
  sn_publisher : option string;
}.

Inductive SyncError := NoCatalogCid | NoPublisher | FetchFailed (e : NetError) | CatalogNotFound | StoreFailed (e : NetError)
| MissingAfterFetch | NotACatalog.

Record CatalogSyncCompletedEvent := mk_CatalogSyncCompletedEvent {
  sy_project_id : string;
  sy_remote_root_crc : N;
  sy_remote_update_count : N;
  fetched_blocks : N;
  sy_error : option SyncError;
}.

(** The services and what the tasks hand to each other: requests for [fetch_file] that were spawned, catalogs to
    synchronise, synchronisations done, and streams with an extension magic. *)
Record Daemon {Remote : Type} := mk_Daemon {
  dm_services : Services Remote;
  dm_pulls : list FetchRequest;
  dm_needed : list CatalogSyncNeededEvent;
  dm_completed : list CatalogSyncCompletedEvent;
  dm_extension : list BusEvent;
}.
Arguments Daemon : clear implicits.
Arguments mk_Daemon {_}.

(** [str::strip_prefix]. *)
Definition strip_prefix (pre s : string) : option string :=
  if String.prefix pre s then Some (String.substring (String.length pre) (String.length s - String.length pre) s) else None.

Definition MAX_EXTENSION_PAYLOAD : nat := 1024 * 1024.
Global Opaque MAX_EXTENSION_PAYLOAD.

Section daemon.
Context {Remote : Type}.

Definition set_services s (dm : Daemon Remote) : Daemon Remote :=
  mk_Daemon s (dm_pulls dm) (dm_needed dm) (dm_completed dm) (dm_extension dm).
Definition add_pull r (dm : Daemon Remote) : Daemon Remote :=
  mk_Daemon (dm_services dm) (dm_pulls dm ++ [r]) (dm_needed dm) (dm_completed dm) (dm_extension dm).
Definition add_needed e (dm : Daemon Remote) : Daemon Remote :=
  mk_Daemon (dm_services dm) (dm_pulls dm) (dm_needed dm ++ [e]) (dm_completed dm) (dm_extension dm).
Definition add_completed e (dm : Daemon Remote) : Daemon Remote :=
  mk_Daemon (dm_services dm) (dm_pulls dm) (dm_needed dm) (dm_completed dm ++ [e]) (dm_extension dm).
Definition add_extension e (dm : Daemon Remote) : Daemon Remote :=
  mk_Daemon (dm_services dm) (dm_pulls dm) (dm_needed dm) (dm_completed dm) (dm_extension dm ++ [e]).

(** The exchange with the shared gossip node, and back. *)
Definition update_exchange (f : Exchange → Exchange) (s : Services Remote) : Services Remote :=
  let p := lend_ex s in
  let n := pb_node p in
  return_ex (set_node (mk_Node (f (nd_ex n)) (nd_st n) (sent n)) p) s.
Definition update_presence (f : PresenceService → PresenceService) (s : Services Remote) : Services Remote :=
  let p := f (set_ps_gossip (sv_gossip s) (sv_presence s)) in set_shared_gossip (ps_gossip p) (set_presence p s).
Definition update_manager (f : ProjectManager → ProjectManager) (s : Services Remote) : Services Remote :=
  let n := sv_node s in
  let st := nd_st n in
  let m := f (Project.set_gossip (sv_gossip s) (pm st)) in
  set_shared_gossip (gossip m) (set_pub (set_node (mk_Node (nd_ex n) (mk_State m (world st) (state_cell st)) (sent n)) (sv_pub s)) s).

Context `{Blake3, Crc32, Hex, Ed25519, HeapPick, !MapIter MessageId N, !MapIter NodeId PeerRecord, !Codec ProjectManifest,
  !Codec VersionState, !Codec HistoryIndex, !Codec ObjectMeta, !Codec Tag, DirOrder, !MapIter string ManagedProject,
  !Codec GossipWireMessage, !Codec BitswapRequest, !Codec BitswapResponse, !Codec RootCatalog, BatchOrder,
  !MapIter TopicId (list PeerId), !Codec FrameKind}.
Context (req_codec : Codec DhtRequest) (resp_codec : Codec DhtResponse).
Context (temp_dir : path) (sc : ServerConfig).

(** ** Streams of a peer

    One stream that the peer [sender] opened: the daemon after its handler, and what is written back. *)
Definition dispatch_stream (d : Draws) (sender : PeerId) (stream : bytes) (dm : Daemon Remote) : Daemon Remote * bytes :=
  if bool_decide (length stream < 4) then (dm, [])
  else
    let magic := take 4 stream in
    let rest := drop 4 stream in
    let s := dm_services dm in
    if bool_decide (magic = DHT_STREAM_MAGIC) then
      match ps_dht (sv_presence s) with
      | None => (dm, [])
      | Some n =>
          match handle_dht_stream req_codec resp_codec (dr_clock d) n rest with
          | Ok (n, out) => (set_services (set_presence (set_dht (Some n) (sv_presence s)) s) dm, out)
          | Err _ => (dm, [])
          end
      end
    else if bool_decide (magic = TRANSFER_STREAM_MAGIC) then
      let '(_, n) := handle_incoming_transfer (dr_clock d) (dr_id d) (dr_uuid1 d) (dr_uuid2 d) (dr_us d) temp_dir
                       (sc_history sc) rest sender (pb_node (lend_ex s)) in
      (set_services (return_ex (set_node n (sv_pub s)) s) dm, [])
    else if bool_decide (magic = GOSSIP_STREAM_MAGIC) then
      match sv_gossip s with
      | None => (dm, [])
      | Some g => (set_services (set_shared_gossip (Some (handle_gossip_stream (dr_clock d) rest g).1) s) dm, [])
      end
    else if bool_decide (magic = BITSWAP_STREAM_MAGIC) then
      match content_store (sv_ex s) with
      | None => (dm, [])
      | Some st => (dm, (handle_bitswap_stream st rest).1)
      end
    else if bool_decide (MAX_EXTENSION_PAYLOAD < length rest) then (dm, [])
    else (add_extension (BusStream sender magic rest) dm, []).

(** The streams of a connection, in the order their handlers run, with what is written to each. *)
Fixpoint dispatch_peer_streams (d : nat → Draws) (sender : PeerId) (streams : list bytes) (dm : Daemon Remote) :
    Daemon Remote * list bytes :=
  match streams with
  | [] => (dm, [])
  | stream :: streams =>
      let '(dm, out) := dispatch_stream (d 0) sender stream dm in
      let '(dm, outs) := dispatch_peer_streams (d ∘ S) sender streams dm in (dm, out :: outs)
  end.

(** ** Gossip *)

(** To whom an outgoing message goes: without a mesh, to every peer that is connected. *)
Definition fanout_targets (connected : list PeerId) (o : OutboundGossip) : list PeerId :=
  if bool_decide (out_peers o = []) then connected else out_peers o.

(** The streams opened for it: the message is written when the stream opens and it fits. *)
Definition gossip_fanout (opens : PeerId → bool) (connected : list PeerId) (o : OutboundGossip) : list (PeerId * bytes) :=
  omap (λ p,
    if opens p then
      match send_gossip (mk_GossipWireMessage (out_topic o) (out_signed o)) with Ok b => Some (p, b) | Err _ => None end
    else None) (fanout_targets connected o).

(** The offer is worth a fetch. *)
Definition auto_pull_eligible (s : Services Remote) (sender : PeerId) (project_id : string) (file_id : FileId) (version : N) :
    bool :=
  negb (bool_decide (sender = local_peer_id (sv_ex s))) && negb (has_shared_file (sv_ex s) project_id file_id version) &&
  bool_decide (is_Some (project_root (sv_pm s) project_id)).

Definition on_file_offer (d : Draws) (project_id : string) (sender : PeerId) (file_id : FileId) (version size crc : N)
    (dm : Daemon Remote) : Daemon Remote :=
  if (version =? 0)%N || (version =? u64_max)%N then dm
  else
    let dm := set_services (update_exchange (handle_file_offer (dr_clock d) sender file_id version size crc) (dm_services dm)) dm in
    let s := dm_services dm in
    let local := shared_file_record (sv_ex s) project_id file_id in
    if match local with
       | Some r => (sf_version r =? version)%N && (negb (sf_file_size r =? size)%N || negb (sf_crc r =? crc)%N)
       | None => false
       end
    then
      set_services (set_conflicts (record_version_conflict (dr_clock d) project_id file_id version (local_peer_id (sv_ex s))
        version sender (sv_conflicts s)).1 s) dm
    else if auto_pull_eligible s sender project_id file_id version then
      add_pull (mk_FetchRequest project_id file_id (Some sender) Interactive version) dm
    else dm.

Definition on_catalog_update (project_id : string) (root_crc update_count : N) (updated_chunks : list ChunkId)
    (catalog_cid : option Cid) (publisher : PeerId) (dm : Daemon Remote) : Daemon Remote :=
  let local_match :=
    match sv_catalogs (dm_services dm) !! project_id with
    | Some cm => (catalog_crc (root cm) =? root_crc)%N && (Catalog.update_count (root cm) =? update_count)%N
    | None => true
    end in
  if local_match then dm
  else
    add_needed (mk_CatalogSyncNeededEvent project_id root_crc update_count updated_chunks catalog_cid
      (if bool_decide (publisher = "") then None else Some publisher)) dm.

(** One message that the node delivered. *)
Definition on_gossip (d : Draws) (topic : TopicId) (m : GossipMessage) (dm : Daemon Remote) : Daemon Remote :=
  match m with
  | FileWant requester file_id version =>
      match strip_prefix "project/" topic with
      | Some project_id =>
          set_services (update_exchange (handle_file_want project_id requester file_id version) (dm_services dm)) dm
      | None => dm
      end
  | FileOffer sender file_id version size crc _ =>
      match strip_prefix "project/" topic with
      | Some project_id => on_file_offer d project_id sender file_id version size crc dm
      | None => dm
      end
  | PeerStatus _ status _ _ =>
      set_services (update_presence (handle_peer_status (dr_clock d) status) (dm_services dm)) dm
  | ConflictAlert file_id nodes versions =>
      let s := dm_services dm in
      set_services (set_conflicts (handle_conflict_alert (dr_clock d) file_id nodes versions (sv_conflicts s)) s) dm
  | CatalogUpdate project_id crc count chunks cid publisher => on_catalog_update project_id crc count chunks cid publisher dm
  end.

(** [spawn_gossip_subscriber] over the messages it receives. *)
Fixpoint gossip_subscriber (d : nat → Draws) (l : list (TopicId * GossipMessage)) (dm : Daemon Remote) : Daemon Remote :=
  match l with
  | [] => dm
  | (topic, m) :: l => gossip_subscriber (d ∘ S) l (on_gossip (d 0) topic m dm)
  end.

(** The first request that was spawned runs. *)
Definition run_pull (d : Draws) (dm : Daemon Remote) : Daemon Remote :=
  match dm_pulls dm with
  | [] => dm
  | r :: rest =>
      mk_Daemon (update_exchange (fetch_file (dr_clock d) (dr_id d) r) (dm_services dm)) rest (dm_needed dm) (dm_completed dm)
        (dm_extension dm)
  end.

(** [spawn_gossip_heartbeat]: the interval, and a tick. *)
Definition heartbeat_interval (interval_ms : N) : N := N.min 60000 (N.max 100 interval_ms).
Definition heartbeat_tick (dm : Daemon Remote) : Daemon Remote :=
  let s := dm_services dm in set_services (set_shared_gossip (heartbeat <$> sv_gossip s) s) dm.

(** ** Catalogs *)
Definition sync_completed (e : CatalogSyncNeededEvent) (n : N) (err : option SyncError) : CatalogSyncCompletedEvent :=
  mk_CatalogSyncCompletedEvent (sn_project_id e) (sn_remote_root_crc e) (sn_remote_update_count e) n err.

Definition fetch_root_catalog (peer : bytes → bytes) (cid : Cid) (st : MemoryContentStore) :
    MemoryContentStore * result SyncError N :=
  if has cid st then (st, Ok 0%N)
  else
    match fetch_blocks peer [cid] st with
    | (st, Err e) => (st, Err (FetchFailed e))
    | (st, Ok outcomes) =>
        let got := count_if (λ x : Cid * FetchOutcome, match x.2 with Fetched => true | _ => false end) outcomes in
        if bool_decide (got = 0) then (st, Err CatalogNotFound)
        else
          match get cid st with
          | Err e => (st, Err (StoreFailed e))
          | Ok None => (st, Err MissingAfterFetch)
          | Ok (Some b) =>
              match from_slice (A := RootCatalog) (Content.data b) with
              | Some _ => (st, Ok (N.of_nat got))
              | None => (st, Err NotACatalog)
              end
          end
    end.

(** The store after one event, and the event it ends with. *)
Definition process_sync_event (connect : PeerId → bytes → bytes) (e : CatalogSyncNeededEvent) (st : MemoryContentStore) :
    MemoryContentStore * CatalogSyncCompletedEvent :=
  match sn_catalog_cid e with
  | None => (st, sync_completed e 0 (Some NoCatalogCid))
  | Some cid =>
      match sn_publisher e with
      | None => (st, sync_completed e 0 (Some NoPublisher))
      | Some p =>
          if bool_decide (p = "") then (st, sync_completed e 0 (Some NoPublisher))
          else
            match fetch_root_catalog (connect p) cid st with
            | (st, Ok n) => (st, sync_completed e n None)
            | (st, Err err) => (st, sync_completed e 0 (Some err))
            end
      end
  end.

(** [CatalogSyncService]: the first event that was emitted is processed. *)
Definition run_sync (connect : PeerId → bytes → bytes) (dm : Daemon Remote) : Daemon Remote :=
  match dm_needed dm, content_store (sv_ex (dm_services dm)) with
  | e :: rest, Some st =>
      let '(st, done_) := process_sync_event connect e st in
      mk_Daemon (update_exchange (set_store (Some st)) (dm_services dm)) (dm_pulls dm) rest (dm_completed dm ++ [done_])
        (dm_extension dm)
  | _, _ => dm
  end.

(** ** Periodic tasks *)
(** [spawn_rotation_timer]: the interval in seconds, if the timer runs. *)
Definition rotation_interval (c : HistoryConfig) : option N :=
  if negb (rotation_enabled (rotation c)) || (interval_hours (rotation c) =? 0)%N then None
  else Some (N.max 60 (N.min u64_max (interval_hours (rotation c) * 3600))).

Section timer.
Context (s3 : string → string → string → RotationBackend Remote) (gdrive : string → string → RotationBackend Remote).
Context (cwd : path).

Definition rotate_project (d : Draws) (project_id : string) : ST (Services Remote) Stop () :=
  m ← gets sv_pm;
  match project_root m project_id with
  | None => mret ()
  | Some root =>
      ignore (on_srv_remote (λ _, ROk) (on_store (rotate_store s3 gdrive cwd (dr_us d) (dr_vus3 d) (dr_clock d) (sc_history sc)
        root project_id (manifest_pins (manifest_entries m project_id)) false)))
  end.

(** A tick: a project that fails does not keep the others from their turn. *)
Definition rotation_tick (d : nat → Draws) : ST (Services Remote) Stop () :=
  ids ← gets (λ s, filter (λ id, config_covers (sc_history sc) id = true) (pi_project_id <$> list_projects (sv_pm s)));
  for_each (λ '(i, id), rotate_project (d i) id) (imap pair ids).
End timer.

(** ** What announcements do *)

(** What the effects depend on, which no announcement changes. *)
Record same_view (s s' : Services Remote) : Prop := {
  vw_shared : shared_files (sv_ex s') = shared_files (sv_ex s);
  vw_local : local_peer_id (sv_ex s') = local_peer_id (sv_ex s);
  vw_quic : quic_attached (sv_ex s') = quic_attached (sv_ex s);
  vw_history : history_attached (sv_ex s') = history_attached (sv_ex s);
  vw_node : nd_st (sv_node s') = nd_st (sv_node s);
  vw_catalogs : sv_catalogs s' = sv_catalogs s;
}.

#[export] Instance same_view_po : PreOrder same_view.
Proof. split; [by split|]. intros x y z [] []. split; congruence. Qed.

(** The request an offer leads to: the project is open, the version is a version and newer than the one shared, and the offer is
    another peer's. *)
Definition pull_for (s : Services Remote) (x : TopicId * GossipMessage) : option FetchRequest :=
  match x.2 with
  | FileOffer sender f v _ _ _ =>
      p ← strip_prefix "project/" x.1;
      if negb (v =? 0)%N && negb (v =? u64_max)%N && negb (bool_decide (sender = local_peer_id (sv_ex s))) &&
         match shared_files (sv_ex s) !! (p, f) with Some r => (sf_version r <? v)%N | None => true end &&
         bool_decide (is_Some (project_root (sv_pm s) p))
      then Some (mk_FetchRequest p f (Some sender) Interactive v)
      else None
  | _ => None
  end.

(** The transmission a want leads to. *)
Definition task_for (s : Services Remote) (x : TopicId * GossipMessage) : option Task :=
  match x.2 with
  | FileWant q f v =>
      p ← strip_prefix "project/" x.1;
      if bool_decide (q = local_peer_id (sv_ex s)) || negb (quic_attached (sv_ex s)) then None
      else
        match shared_files (sv_ex s) !! (p, f) with
        | Some r =>
            if (v =? 0)%N || (v =? sf_version r)%N then
              Some (TaskShareAndSend (mk_ShareRequest (sf_project_id r) f (sf_file_path r) (sf_file_size r) (sf_crc r)
                Interactive (Some q) (sf_version r)))
            else if history_attached (sv_ex s) then Some (TaskServeFromHistory p q f v) else None
        | None => if history_attached (sv_ex s) && negb (v =? 0)%N then Some (TaskServeFromHistory p q f v) else None
        end
  | _ => None
  end.

(** The catalog of an open project that is not the one announced. *)
Definition drift_for (s : Services Remote) (x : TopicId * GossipMessage) : option CatalogSyncNeededEvent :=
  match x.2 with
  | CatalogUpdate p crc count chunks cid publisher =>
      cm ← sv_catalogs s !! p;
      if (catalog_crc (root cm) =? crc)%N && (Catalog.update_count (root cm) =? count)%N then None
      else Some (mk_CatalogSyncNeededEvent p crc count chunks cid (if bool_decide (publisher = "") then None else Some publisher))
  | _ => None
  end.

(** An offer of the version that is shared, with another content. *)
Definition contradicts (s : Services Remote) (x : TopicId * GossipMessage) (f : FileId) : Prop :=
  ∃ p sender v size crc h r, strip_prefix "project/" x.1 = Some p ∧ x.2 = FileOffer sender f v size crc h ∧
    v ≠ 0%N ∧ v ≠ u64_max ∧ shared_files (sv_ex s) !! (p, f) = Some r ∧ sf_version r = v ∧ (sf_file_size r ≠ size ∨ sf_crc r ≠ crc).

Record effects (l : list (TopicId * GossipMessage)) (dm dm' : Daemon Remote) : Prop := {
  ef_view : same_view (dm_services dm) (dm_services dm');
  ef_pulls : dm_pulls dm' = dm_pulls dm ++ omap (pull_for (dm_services dm)) l;
  ef_tasks : tasks (sv_ex (dm_services dm')) = tasks (sv_ex (dm_services dm)) ++ omap (task_for (dm_services dm)) l;
  ef_needed : dm_needed dm' = dm_needed dm ++ omap (drift_for (dm_services dm)) l;
  ef_kept : ∀ f, is_Some (conflicts (sv_conflicts (dm_services dm)) !! f) → is_Some (conflicts (sv_conflicts (dm_services dm')) !! f);
  ef_conflicts : ∀ x f, x ∈ l → contradicts (dm_services dm) x f → is_Some (conflicts (sv_conflicts (dm_services dm')) !! f);
}.

Lemma same_view_exchange f s :
  (∀ e, shared_files (f e) = shared_files e ∧ local_peer_id (f e) = local_peer_id e ∧ quic_attached (f e) = quic_attached e ∧
     history_attached (f e) = history_attached e) → same_view s (update_exchange f s).
Proof. intros Hf. destruct (Hf (set_gossip (sv_gossip s) (sv_ex s))) as (E1 & E2 & E3 & E4). by split. Qed.

Lemma same_view_funs s s' x :
  same_view s s' → pull_for s' x = pull_for s x ∧ task_for s' x = task_for s x ∧ drift_for s' x = drift_for s x ∧
    ∀ f, contradicts s' x f ↔ contradicts s x f.
Proof.
  intros [E1 E2 E3 E4 E5 E6]. unfold pull_for, task_for, drift_for, contradicts, sv_pm, npm. by rw E1 E2 E3 E4 E5 E6.
Qed.

Lemma effects_cons x l dm dm1 dm2 : effects [x] dm dm1 → effects l dm1 dm2 → effects (x :: l) dm dm2.
Proof.
  intros [V1 P1 T1 N1 K1 C1] [V2 P2 T2 N2 K2 C2].
  assert (Ho : ∀ {A} (g g' : TopicId * GossipMessage → option A), (∀ x, g x = g' x) → omap g l = omap g' l).
  { intros A g g' Hg. apply list_omap_ext, Forall_Forall2_diag, Forall_true, Hg. }
  split.
  - by etrans.
  - rw P2 P1 -app_assoc (Ho _ _ (pull_for (dm_services dm))); [intros y; by apply same_view_funs|]. by rw -omap_app.
  - rw T2 T1 -app_assoc (Ho _ _ (task_for (dm_services dm))); [intros y; by apply same_view_funs|]. by rw -omap_app.
  - rw N2 N1 -app_assoc (Ho _ _ (drift_for (dm_services dm))); [intros y; by apply same_view_funs|]. by rw -omap_app.
  - auto.
  - intros y f [->|Hy]%elem_of_cons Hc; [apply K2, (C1 x); [by left|done]|]. apply (C2 y); [done|].
    destruct (same_view_funs _ _ y V1) as (_ & _ & _ & Hf). by apply Hf.
Qed.

(** An effect on nothing but the view. *)
Lemma effects_view x dm s' :
  same_view (dm_services dm) s' → tasks (sv_ex s') = tasks (sv_ex (dm_services dm)) →
  (∀ f, is_Some (conflicts (sv_conflicts (dm_services dm)) !! f) → is_Some (conflicts (sv_conflicts s') !! f)) →
  pull_for (dm_services dm) x = None → task_for (dm_services dm) x = None → drift_for (dm_services dm) x = None →
  (∀ f, contradicts (dm_services dm) x f → is_Some (conflicts (sv_conflicts s') !! f)) →
  effects [x] dm (set_services s' dm).
Proof.
  intros V T K P Tk N C. split; cbn; rw ?P ?Tk ?N; rw ?app_nil_r; try done. intros y f ->%list_elem_of_singleton. apply C.
Qed.

Lemma handle_file_offer_frame now sender f v size crc e :
  let e' := handle_file_offer now sender f v size crc e in
  shared_files e' = shared_files e ∧ local_peer_id e' = local_peer_id e ∧ quic_attached e' = quic_attached e ∧
  history_attached e' = history_attached e ∧ tasks e' = tasks e.
Proof. unfold handle_file_offer. by case_bool_decide. Qed.

Lemma want_frame p q f v e :
  let e' := handle_file_want p q f v e in
  shared_files e' = shared_files e ∧ local_peer_id e' = local_peer_id e ∧ quic_attached e' = quic_attached e ∧
  history_attached e' = history_attached e.
Proof.
  unfold handle_file_want, serve_from_history. case_bool_decide; [done|]. destruct (quic_attached e) eqn:E; [|done]. cbn [negb].
  destruct (history_attached e) eqn:Eh; cbn [negb]; repeat (case_match; try done).
Qed.

Lemma want_tasks p topic q f v (s : Services Remote) :
  strip_prefix "project/" topic = Some p →
  tasks (sv_ex (update_exchange (handle_file_want p q f v) s)) =
    tasks (sv_ex s) ++ option_list (task_for s (topic, FileWant q f v)).
Proof.
  intros Hp. unfold task_for. cbn. rw Hp. cbn. unfold handle_file_want, serve_from_history.
  change (shared_files (set_gossip (sv_gossip s) (nd_ex (sv_node s)))) with (shared_files (sv_ex s)).
  change (local_peer_id (set_gossip (sv_gossip s) (nd_ex (sv_node s)))) with (local_peer_id (sv_ex s)).
  change (quic_attached (set_gossip (sv_gossip s) (nd_ex (sv_node s)))) with (quic_attached (sv_ex s)).
  change (history_attached (set_gossip (sv_gossip s) (nd_ex (sv_node s)))) with (history_attached (sv_ex s)).
  case_bool_decide; cbn [orb]; [by rw app_nil_r|]. destruct (quic_attached _); cbn [negb]; [|by rw app_nil_r].
  destruct (shared_files (sv_ex s) !! (p, f)) as [r|].
  - destruct (v =? 0)%N eqn:E0; cbn [negb andb orb]; [done|].
    destruct (v =? sf_version r)%N; cbn [negb]; [done|]. destruct (history_attached _); cbn; [done|by rw app_nil_r].
  - destruct (history_attached _); cbn [negb andb]; [|by rw app_nil_r]. destruct (v =? 0)%N; cbn; [by rw app_nil_r|done].
Qed.

Lemma record_here now p f v me v' q m : is_Some (conflicts (record_version_conflict now p f v me v' q m).1 !! f).
Proof. unfold record_version_conflict. destruct (conflicts m !! f) eqn:E; cbn; [by rw E|by rw lookup_insert_eq]. Qed.

Lemma record_keeps now p f v me v' q m f' :
  is_Some (conflicts m !! f') → is_Some (conflicts (record_version_conflict now p f v me v' q m).1 !! f').
Proof.
  intros Hf. destruct (decide (f' = f)) as [->|Hne]; [apply record_here|]. unfold record_version_conflict.
  destruct (conflicts m !! f); cbn; [done|by rw lookup_insert_ne].
Qed.

Lemma offer_effects d topic p sender f v size crc h dm :
  strip_prefix "project/" topic = Some p →
  effects [(topic, FileOffer sender f v size crc h)] dm (on_file_offer d p sender f v size crc dm).
Proof.
  intros Hp. unfold on_file_offer. destruct ((v =? 0)%N || (v =? u64_max)%N) eqn:Hv.
  { replace dm with (set_services (dm_services dm) dm) at 2 by by destruct dm. apply effects_view; try done.
    - unfold pull_for. cbn. rw Hp. cbn. by destruct (v =? 0)%N, (v =? u64_max)%N.
    - intros f' (p' & sd & v' & sz & c & h' & r & _ & [= <- <- <- <- <- <-] & H0' & Hm & _). apply orb_true_iff in Hv as [E%N.eqb_eq|E%N.eqb_eq]; done. }
  assert (Hv' : negb (v =? 0)%N && negb (v =? u64_max)%N = true) by by destruct (v =? 0)%N, (v =? u64_max)%N.
  set (s := dm_services dm) in *. set (s1 := update_exchange _ s). cbn [dm_services set_services].
  destruct (handle_file_offer_frame (dr_clock d) sender f v size crc (set_gossip (sv_gossip s) (sv_ex s))) as (E1 & E2 & E3 & E4 & E5).
  assert (V : same_view s s1) by by split.
  assert (T : tasks (sv_ex s1) = tasks (sv_ex s)) by exact E5.
  unfold shared_file_record, auto_pull_eligible, has_shared_file. rw (vw_shared _ _ V) (vw_local _ _ V).
  assert (Hroot : project_root (sv_pm s1) p = project_root (sv_pm s) p).
  { unfold sv_pm, npm. by rw (vw_node _ _ V). }
  rw Hroot. unfold sv_ex in E1, E2, E3, E4, E5.
  set (conf := match shared_files (sv_ex s) !! (p, f) with Some _ => _ | None => false end).
  destruct conf eqn:Hc.
  - subst conf. destruct (shared_files (sv_ex s) !! (p, f)) as [r|] eqn:Er; [|done].
    apply andb_true_iff in Hc as [Hver Hdiff]. bool_to_prop.
    apply (effects_view _ dm (set_conflicts _ s1)); try done.
    + intros f' Hf'. by apply record_keeps.
    + unfold pull_for. cbn. rw Hp. cbn. fold s. rw Er Hver N.ltb_irrefl. by rw andb_false_r.
    + intros f' (p' & sd & v' & sz & c & h' & r' & Hp' & [= <- <- <- <- <- <-] & _). apply record_here.
  - assert (Hno : ∀ f', ¬ contradicts s (topic, FileOffer sender f v size crc h) f').
    { intros f' (p' & sd & v' & sz & c & h' & r & Hp' & [= <- <- <- <- <- <-] & _ & _ & Hs & Hver & Hdiff). cbn in Hp'.
      assert (p' = p) as -> by congruence. subst conf. rw Hs Hver N.eqb_refl in Hc. cbn in Hc. apply orb_false_iff in Hc as [H1' H2'].
      apply negb_false_iff, N.eqb_eq in H1', H2'. naive_solver. }
    set (pull := _ && _ && _).
    assert (Hpull : pull_for s (topic, FileOffer sender f v size crc h) =
      if pull then Some (mk_FetchRequest p f (Some sender) Interactive v) else None).
    { unfold pull_for, pull. cbn. rw Hp. cbn. rw Hv'. cbn.
      destruct (shared_files (sv_ex s) !! (p, f)) as [r|]; cbn; [|done]. by rw N.ltb_antisym. }
    destruct pull.
    + split; [done| |by rewrite /= app_nil_r|by rewrite /= app_nil_r|done|].
      * change (omap (pull_for (dm_services dm)) [(topic, FileOffer sender f v size crc h)]) with
          (option_list (pull_for s (topic, FileOffer sender f v size crc h))). by rw Hpull.
      * intros x f' ->%list_elem_of_singleton Hx. by apply Hno in Hx.
    + apply effects_view; try done. intros f' Hx. by apply Hno in Hx.
Qed.

Lemma alert_keeps now f nodes vs m f' :
  is_Some (conflicts m !! f') → is_Some (conflicts (handle_conflict_alert now f nodes vs m) !! f').
Proof.
  intros Hf. unfold handle_conflict_alert. repeat (case_match; try done); cbn;
    (destruct (decide (f' = f)) as [->|?]; [by rw lookup_insert_eq|by rw lookup_insert_ne]).
Qed.

Lemma gossip_effects d topic m dm : effects [(topic, m)] dm (on_gossip d topic m dm).
Proof.
  assert (Hid : ∀ x, pull_for (dm_services dm) x = None → task_for (dm_services dm) x = None →
    drift_for (dm_services dm) x = None → (∀ f, ¬ contradicts (dm_services dm) x f) → effects [x] dm dm).
  { intros x Hp Ht Hn Hc. replace dm with (set_services (dm_services dm) dm) at 2 by by destruct dm.
    apply effects_view; try done. intros f Hf. by apply Hc in Hf. }
  assert (Hno : ∀ f', (∀ a b c e g h, m ≠ FileOffer a b c e g h) → ¬ contradicts (dm_services dm) (topic, m) f').
  { intros f' Hm (? & ? & ? & ? & ? & ? & ? & _ & E & _). by eapply Hm. }
  destruct m as [peer status origin hops|p crc count chunks cid pub|q f v|sender f v size crc h|f nodes vs]; cbn [on_gossip].
  - apply effects_view; try done. intros f Hf. by apply Hno in Hf.
  - set (x := (topic, CatalogUpdate p crc count chunks cid pub)).
    assert (Hrun : on_catalog_update p crc count chunks cid pub dm =
      match drift_for (dm_services dm) x with Some e => add_needed e dm | None => dm end).
    { unfold on_catalog_update, x, drift_for. cbn. destruct (sv_catalogs _ !! p); cbn; [|done]. by destruct (_ && _). }
    rw Hrun. destruct (drift_for (dm_services dm) x) as [e|] eqn:Ed; [|by apply Hid; try done; intros f; apply Hno].
    split; [done|by rewrite /= app_nil_r|by rewrite /= app_nil_r| |done|].
    + change (omap (drift_for (dm_services dm)) [x]) with (option_list (drift_for (dm_services dm) x)). by rw Ed.
    + intros y f ->%list_elem_of_singleton Hf. by apply Hno in Hf.
  - destruct (strip_prefix "project/" topic) as [p|] eqn:Hp.
    2:{ apply Hid; [done| |done|]. 1: by rewrite /task_for /= Hp. intros f'. by apply Hno. }
    split; cbn; rw ?app_nil_r; try done.
    + apply same_view_exchange. intros e. apply want_frame.
    + by rw (want_tasks p topic).
    + intros y f' ->%list_elem_of_singleton Hf. by apply Hno in Hf.
  - destruct (strip_prefix "project/" topic) as [p|] eqn:Hp; [by apply offer_effects|].
    apply Hid; [by rewrite /pull_for /= Hp|done|done|]. intros f' (p' & ? & ? & ? & ? & ? & ? & Hp' & _). cbn in Hp'. congruence.
  - apply effects_view; try done.
    + intros f'. apply alert_keeps.
    + intros f' Hf. by apply Hno in Hf.
Qed.

Lemma subscriber_effects d l dm : effects l dm (gossip_subscriber d l dm).
Proof.
  revert d dm. induction l as [|[topic m] l IH]; intros d dm; cbn [gossip_subscriber].
  - split; cbn; rw ?app_nil_r; try done. intros x f []%elem_of_nil.
  - eapply effects_cons; [apply gossip_effects|apply IH].
Qed.

(** The subscriber does with announcements exactly this: a request is spawned for every offer, and only for an offer, by another
    peer of a newer version in an open project; a transmission for every want of a file that is shared at the version wanted
    or may be in the history; a synchronisation for every catalog that differs; and an offer that contradicts a shared file
    is recorded as a conflict.  The files shared, the projects, the disk and the catalogs stay as they are. *)
Theorem announcements_exact d l dm : effects l dm (gossip_subscriber d l dm).
Proof. apply subscriber_effects. Qed.

(** ** From an offer to the transmission *)
Lemma strip_topic p : strip_prefix "project/" (topic_project p) = Some p.
Proof.
  unfold strip_prefix, topic_project. rw prefix_app. f_equal.
  change (String.length ("project/" +:+ p)) with (8 + String.length p). replace (8 + String.length p - String.length "project/")
    with (String.length p) by (cbn; lia). cbn [String.length].
  change (String.substring 8 (String.length p) ("project/" +:+ p)) with (String.substring 0 (String.length p) p).
  induction p as [|c p IH]; [done|]. cbn. by rw IH.
Qed.

(** A message that one node signed, on its way through the fan-out of that node to the dispatcher of another. *)
Lemma gossip_hop `{!Ed25519Laws, !CodecLaws GossipWireMessage} secret topic msg ps opens connected q b d sender dm g :
  length secret = 32 → check_sender (Identity.peer_id (identity_of_secret secret)) msg = Ok () →
  sv_gossip (dm_services dm) = Some g → seen (message_cache g) !! message_id topic msg = None →
  (q, b) ∈ gossip_fanout opens connected (mk_OutboundGossip topic (sign_gossip msg (identity_of_secret secret)) ps) →
  ∃ c, (dispatch_stream d sender b dm).1 =
    set_services (set_shared_gossip (Some (send_tx (topic, msg) (with_cache c g))) (dm_services dm)) dm.
Proof.
  intros Hlen Hs Hg Hseen Hin. unfold gossip_fanout in Hin. apply list_elem_of_omap in Hin as (q' & _ & Hin).
  destruct (opens q'); [|done]. destruct (send_gossip _) as [b'|] eqn:Hb; [|done]. injection Hin as -> ->.
  destruct (gossip_wire_roundtrip (dr_clock d) _ _ g Hb) as [Hmagic Hrun]. cbn [wire_topic wire_signed out_topic out_signed] in Hrun.
  unfold dispatch_stream. rw bool_decide_false.
  { intros Hl. apply (f_equal length) in Hmagic. rw length_take in Hmagic. change (length GOSSIP_STREAM_MAGIC) with 4 in Hmagic. lia. }
  rw Hmagic. rw bool_decide_false; [done|]. rw bool_decide_false; [done|]. rw bool_decide_true; [done|].
  rw Hg Hrun. unfold on_signed_message_received, verify_envelope.
  assert (Hv : verify_gossip (sign_gossip msg (identity_of_secret secret)) = Ok ()).
  { apply verify_gossip_Ok. cbn. split_and!; [by apply ed_public_length|apply ed_sign_length|exact Hs|by apply ed_verify_sign]. }
  rw Hv. unfold deliver, check_and_insert. rw Hseen. by eexists.
Qed.

Lemma publish_new now topic msg i g :
  identity g = Some i → seen (message_cache g) !! message_id topic msg = None →
  outbound_tx (publish now topic msg g).1 = outbound_tx g ++ [mk_OutboundGossip topic (sign_gossip msg i) (mesh_peers g topic)].
Proof. intros Hi Hs. unfold publish, check_and_insert. rw Hs. unfold envelope. cbn. by rw Hi. Qed.

Lemma fetch_file_gossip now id r e :
  ex_gossip (fetch_file now id r e) =
    (λ g, (publish now (topic_project (fr_project_id r)) (FileWant (local_peer_id e) (fr_file_id r) (fr_version r)) g).1) <$>
      ex_gossip e.
Proof.
  unfold fetch_file. destruct (register_want _ _) as [l act]. unfold broadcast_want, gossip_publish.
  destruct act; cbn; by destruct (ex_gossip e) as [g|] eqn:E; cbn; rw ?E.
Qed.

Lemma file_offer_gossip d p sender f v size crc dm :
  sv_gossip (dm_services (on_file_offer d p sender f v size crc dm)) = sv_gossip (dm_services dm).
Proof.
  unfold on_file_offer. destruct (_ || _); [done|].
  assert (Hex : sv_gossip (update_exchange (handle_file_offer (dr_clock d) sender f v size crc) (dm_services dm)) =
    sv_gossip (dm_services dm)) by (cbn; unfold handle_file_offer; by case_bool_decide).
  cbv zeta. repeat (case_match; try exact Hex).
Qed.

(** The daemon of the node with this key. *)
Definition runs_as (secret : bytes) (dm : Daemon Remote) (g : GossipNode) : Prop :=
  length secret = 32 ∧ local_peer_id (sv_ex (dm_services dm)) = Identity.peer_id (identity_of_secret secret) ∧
  sv_gossip (dm_services dm) = Some g ∧ identity g = Some (identity_of_secret secret).

Definition offer_of (secret : bytes) (f : FileId) (r : SharedFileRecord) (h : Blake3Hash) : GossipMessage :=
  FileOffer (Identity.peer_id (identity_of_secret secret)) f (sf_version r) (sf_file_size r) (sf_crc r) h.
Definition want_of (secret : bytes) (f : FileId) (r : SharedFileRecord) : GossipMessage :=
  FileWant (Identity.peer_id (identity_of_secret secret)) f (sf_version r).

Lemma want_reaches `{!Ed25519Laws, !CodecLaws GossipWireMessage} a b dm g pid f r ps opens connected x d d' :
  runs_as a dm g → length b = 32 → Identity.peer_id (identity_of_secret a) ≠ Identity.peer_id (identity_of_secret b) →
  shared_files (sv_ex (dm_services dm)) !! (pid, f) = Some r → quic_attached (sv_ex (dm_services dm)) = true →
  let topic := topic_project pid in let want := want_of b f r in
  seen (message_cache g) !! message_id topic want = None →
  (Identity.peer_id (identity_of_secret a), x) ∈
    gossip_fanout opens connected (mk_OutboundGossip topic (sign_gossip want (identity_of_secret b)) ps) →
  let dm1 := (dispatch_stream d (Identity.peer_id (identity_of_secret b)) x dm).1 in
  tasks (sv_ex (dm_services (gossip_subscriber d' [(topic, want)] dm1))) =
    tasks (sv_ex (dm_services dm)) ++ [TaskShareAndSend (mk_ShareRequest (sf_project_id r) f (sf_file_path r) (sf_file_size r)
      (sf_crc r) Interactive (Some (Identity.peer_id (identity_of_secret b))) (sf_version r))].
Proof.
  intros (_ & Hme & Hg & _) Hb Hne Hr Hq topic want Hseen Hx dm1.
  destruct (gossip_hop b topic want ps opens connected (Identity.peer_id (identity_of_secret a)) x d (Identity.peer_id (identity_of_secret b)) dm g) as [c Hhop]; try done.
  { cbn. by rw bool_decide_true. }
  rw (ef_tasks _ _ _ (subscriber_effects d' [(topic, want)] dm1)). subst dm1. rw Hhop. cbn [dm_services set_services].
  cbn [omap list_omap]. unfold task_for, want, want_of. cbn [fst snd]. unfold topic. rw strip_topic. cbn [mbind option_bind].
  change (sv_ex (set_shared_gossip _ (dm_services dm))) with (sv_ex (dm_services dm)).
  rw Hme Hq Hr N.eqb_refl orb_true_r. rw bool_decide_false; [congruence|]. done.
Qed.

(** C40: From an offer to the transmission: node [a] announces a file it shares.  When the announcement goes out to node [b], which
    has the project open and no version as new, [b] asks for the file; and when the want comes back, [a] starts to send [b]
    the file at that version.  Each message has to be new to the node it reaches. *)
Theorem announced_file_is_sent `{!Ed25519Laws, !CodecLaws GossipWireMessage} a b dmA gA dmB gB pid f r h psA opens connected x
    d1 d2 d3 d4 d5 :
  runs_as a dmA gA → runs_as b dmB gB → Identity.peer_id (identity_of_secret a) ≠ Identity.peer_id (identity_of_secret b) →
  shared_files (sv_ex (dm_services dmA)) !! (pid, f) = Some r → quic_attached (sv_ex (dm_services dmA)) = true →
  (0 < sf_version r < u64_max)%N →
  is_Some (project_root (sv_pm (dm_services dmB)) pid) →
  (∀ r', shared_files (sv_ex (dm_services dmB)) !! (pid, f) = Some r' → (sf_version r' < sf_version r)%N) → dm_pulls dmB = [] →
  let topic := topic_project pid in let offer := offer_of a f r h in let want := want_of b f r in
  seen (message_cache gB) !! message_id topic offer = None →
  (Identity.peer_id (identity_of_secret b), x) ∈
    gossip_fanout opens connected (mk_OutboundGossip topic (sign_gossip offer (identity_of_secret a)) psA) →
  let dmB1 := (dispatch_stream d1 (Identity.peer_id (identity_of_secret a)) x dmB).1 in
  let dmB2 := gossip_subscriber d2 [(topic, offer)] dmB1 in
  ∃ g1 g2, sv_gossip (dm_services dmB1) = Some g1 ∧ tx g1 = tx gB ++ [(topic, offer)] ∧
    sv_gossip (dm_services dmB2) = Some g2 ∧ dm_pulls dmB2 = [mk_FetchRequest pid f
      (Some (Identity.peer_id (identity_of_secret a))) Interactive (sf_version r)] ∧
    (seen (message_cache g2) !! message_id topic want = None →
     let o := mk_OutboundGossip topic (sign_gossip want (identity_of_secret b)) (mesh_peers g2 topic) in
     ∃ g3, sv_gossip (dm_services (run_pull d3 dmB2)) = Some g3 ∧ outbound_tx g3 = outbound_tx g2 ++ [o] ∧
       ∀ opens' connected' y, seen (message_cache gA) !! message_id topic want = None →
         (Identity.peer_id (identity_of_secret a), y) ∈ gossip_fanout opens' connected' o →
         let dmA1 := (dispatch_stream d4 (Identity.peer_id (identity_of_secret b)) y dmA).1 in
         tasks (sv_ex (dm_services (gossip_subscriber d5 [(topic, want)] dmA1))) =
           tasks (sv_ex (dm_services dmA)) ++ [TaskShareAndSend (mk_ShareRequest (sf_project_id r) f (sf_file_path r)
             (sf_file_size r) (sf_crc r) Interactive (Some (Identity.peer_id (identity_of_secret b))) (sf_version r))]).
Proof.
  intros HA HB Hne Hr Hq Hv Hopen Hold Hpulls topic offer want Hseen Hx dmB1 dmB2.
  pose proof HA as (HlenA & HmeA & HgA & HiA). pose proof HB as (HlenB & HmeB & HgB & HiB).
  destruct (gossip_hop a topic offer psA opens connected (Identity.peer_id (identity_of_secret b)) x d1 (Identity.peer_id (identity_of_secret a)) dmB gB) as [c Hhop]; try done.
  { cbn. by rw bool_decide_true. }
  pose proof (subscriber_effects d2 [(topic, offer)] dmB1) as [V P _ _ _ _]. fold dmB2 in V, P.
  assert (Hpull : dm_pulls dmB2 = [mk_FetchRequest pid f (Some (Identity.peer_id (identity_of_secret a))) Interactive (sf_version r)]).
  { rw P. unfold dmB1. rw Hhop. cbn [dm_pulls set_services dm_services omap list_omap]. rw Hpulls. unfold pull_for, offer, offer_of.
    cbn [fst snd]. unfold topic. rw strip_topic. cbn [mbind option_bind].
    change (sv_ex (set_shared_gossip _ (dm_services dmB))) with (sv_ex (dm_services dmB)).
    change (sv_pm (set_shared_gossip _ (dm_services dmB))) with (sv_pm (dm_services dmB)).
    rw (proj2 (N.eqb_neq _ _)); [lia|]. rw (proj2 (N.eqb_neq _ _)); [lia|]. rw HmeB bool_decide_false; [congruence|].
    rw bool_decide_true; [done|]. destruct (shared_files (sv_ex (dm_services dmB)) !! (pid, f)) as [r'|] eqn:Er; [|done].
    rw (proj2 (N.ltb_lt _ _)); [by apply Hold|done]. }
  assert (Hg2 : sv_gossip (dm_services dmB2) = Some (send_tx (topic, offer) (with_cache c gB))).
  { unfold dmB2, dmB1. rw Hhop. cbn [gossip_subscriber on_gossip]. unfold offer, offer_of, topic. cbn [on_gossip].
    rw strip_topic. by rw file_offer_gossip. }
  exists (send_tx (topic, offer) (with_cache c gB)), (send_tx (topic, offer) (with_cache c gB)).
  split_and!; [by unfold dmB1; rw Hhop|done|done|done|].
  intros Hnew o. set (g2 := send_tx _ _) in *. set (r0 := mk_FetchRequest _ _ _ _ _) in *.
  assert (Hlocal : local_peer_id (sv_ex (dm_services dmB2)) = Identity.peer_id (identity_of_secret b)).
  { rw (vw_local _ _ V). unfold dmB1. by rw Hhop. }
  exists (publish (dr_clock d3) topic want g2).1.
  split; [|split].
  - unfold run_pull. rw Hpull. cbn [dm_services]. change (sv_gossip (update_exchange ?f ?s)) with (ex_gossip (f (set_gossip (sv_gossip s) (sv_ex s)))).
    rw fetch_file_gossip. cbn [ex_gossip set_gossip fmap option_fmap option_map]. rw Hg2. cbn.
    change (local_peer_id (set_gossip _ _)) with (local_peer_id (sv_ex (dm_services dmB2))). by rw Hlocal.
  - by apply publish_new.
  - intros opens' connected' y HseenA Hy. by apply (want_reaches a b dmA gA pid f r (mesh_peers g2 topic) opens' connected' y d4 d5).
Qed.

(** ** Catalogs *)
Lemma has_not_pending (c : Cid) (st : MemoryContentStore) :
  has c st = false → filter (λ c, has c st = false) [c] = [c] ∧ filter (λ c, has c st = true) [c] = [].
Proof. intros Hc. by rewrite !filter_cons !filter_nil !Hc. Qed.

Lemma dispatch_bitswap d q x dm st :
  content_store (sv_ex (dm_services dm)) = Some st →
  dispatch_stream d q (BITSWAP_STREAM_MAGIC ++ x) dm = (dm, (handle_bitswap_stream st x).1).
Proof.
  intros Hst. unfold dispatch_stream. rw bool_decide_false; [rw length_app; cbn; lia|].
  change (take 4 (BITSWAP_STREAM_MAGIC ++ x)) with BITSWAP_STREAM_MAGIC. change (drop 4 (BITSWAP_STREAM_MAGIC ++ x)) with x.
  do 3 (rw bool_decide_false; [done|]). rw bool_decide_true; [done|]. by rw Hst.
Qed.

(** The root catalog that a store holds under this identifier. *)
Definition holds_catalog (st : MemoryContentStore) (c : Cid) (rc : RootCatalog) : Prop :=
  ∃ b, get c st = Ok (Some b) ∧ cid_for (Content.data b) = c ∧ from_slice (A := RootCatalog) (Content.data b) = Some rc.

Lemma fetch_root_sound `{!BatchOrderLaws} peer c st st' r :
  store_ok st → fetch_root_catalog peer c st = (st', r) →
  store_ok st' ∧ (∀ x, readable x st → readable x st') ∧
  ∀ n, r = Ok n → (has c st = true ∧ st' = st ∧ n = 0%N) ∨ (n = 1%N ∧ ∃ rc, holds_catalog st' c rc).
Proof.
  intros Hok. unfold fetch_root_catalog. destruct (has c st) eqn:Hc; [intros [= <- <-]; split_and!; [done|done|]; intros n [= <-]; by left|].
  destruct (fetch_blocks peer [c] st) as [st1 ro] eqn:Hf.
  destruct (fetch_blocks_spec peer [c] st st1 ro Hok Hf) as (Hok1 & Hgrow & Hr).
  destruct ro as [os|e]; [|by intros [= <- <-]]. destruct Hr as [Hp Ho].
  assert (∃ o, os = [(c, o)]) as [o ->].
  { destruct os as [|[c1 o1] [|? ?]]; [by apply Permutation_length in Hp| |by apply Permutation_length in Hp].
    apply Permutation_singleton_r in Hp. cbn in Hp. exists o1. congruence. }
  destruct o; cbn [count_if fst snd]; [|rw bool_decide_true; [done|]; by intros [= <- <-]].
  rw bool_decide_false; [done|].
  destruct (get c st1) as [[b|]|] eqn:Hg; [|by intros [= <- <-]..].
  destruct (from_slice (Content.data b)) as [rc|] eqn:Hd; [|by intros [= <- <-]].
  intros [= <- <-]. split_and!; [done|done|]. intros n [= <-]. right. split; [done|]. exists rc, b. split_and!; [done| |done].
  destruct (get_valid c st1 b Hok1 Hg) as [Hcid Hv]. unfold block_verify in Hv. bool_to_prop. congruence.
Qed.

(** A synchronisation ends with one event about the catalog that was asked for.  It is reported as done only when the publisher
    was named and the store already had the identifier, or now holds, under it, bytes that hash to it and are a root catalog;
    whatever the publisher answers, the store stays sound and loses nothing. *)
Theorem catalog_sync_sound `{!BatchOrderLaws} connect dm e rest st :
  dm_needed dm = e :: rest → content_store (sv_ex (dm_services dm)) = Some st → store_ok st →
  ∃ st' ev, run_sync connect dm = mk_Daemon (update_exchange (set_store (Some st')) (dm_services dm)) (dm_pulls dm) rest
      (dm_completed dm ++ [ev]) (dm_extension dm) ∧
    store_ok st' ∧ (∀ c, readable c st → readable c st') ∧
    sy_project_id ev = sn_project_id e ∧ sy_remote_root_crc ev = sn_remote_root_crc e ∧
    sy_remote_update_count ev = sn_remote_update_count e ∧
    (sy_error ev = None → ∃ c p, sn_catalog_cid e = Some c ∧ sn_publisher e = Some p ∧ p ≠ "" ∧
       ((has c st = true ∧ st' = st ∧ fetched_blocks ev = 0%N) ∨ (fetched_blocks ev = 1%N ∧ ∃ rc, holds_catalog st' c rc))).
Proof.
  intros Hn Hs Hok. unfold run_sync. rw Hn Hs. destruct (process_sync_event connect e st) as [st' ev] eqn:Hp.
  exists st', ev. split; [done|]. revert Hp. unfold process_sync_event.
  destruct (sn_catalog_cid e) as [c|]; [|by intros [= <- <-]]. destruct (sn_publisher e) as [p|]; [|by intros [= <- <-]].
  case_bool_decide as Hne; [by intros [= <- <-]|].
  destruct (fetch_root_catalog (connect p) c st) as [st1 r] eqn:Hf.
  destruct (fetch_root_sound _ _ _ _ _ Hok Hf) as (Hok1 & Hg & Hr).
  destruct r as [n|err]; intros [= <- <-]; split_and!; try done. intros _. exists c, p. split_and!; [done|done|done|]. by apply Hr.
Qed.

(** The other way round: a catalog that the publisher's daemon holds is fetched, when the request and the answer fit in a
    frame. *)
Theorem catalog_sync_complete `{!BatchOrderLaws, !CodecLaws BitswapRequest, !CodecLaws BitswapResponse} dm e rest st dmP stP c p
    rc b body frame d q :
  dm_needed dm = e :: rest → content_store (sv_ex (dm_services dm)) = Some st → store_ok st →
  sn_catalog_cid e = Some c → sn_publisher e = Some p → p ≠ "" →
  content_store (sv_ex (dm_services dmP)) = Some stP → store_ok stP → get c stP = Ok (Some b) →
  from_slice (A := RootCatalog) (Content.data b) = Some rc →
  to_vec (Want c) = Some body → (len body ≤ MAX_BITSWAP_FRAME)%N → Bitswap.framed (RBlock c (Content.data b)) frame →
  let connect := λ _ sent, (dispatch_stream d q sent dmP).2 in
  ∃ st' n, run_sync connect dm = mk_Daemon (update_exchange (set_store (Some st')) (dm_services dm)) (dm_pulls dm) rest
      (dm_completed dm ++ [sync_completed e n None]) (dm_extension dm) ∧ (has c st = false → holds_catalog st' c rc).
Proof.
  intros Hn Hs Hok Hc Hp Hne HsP HokP Hget Hrc Hbody Hlen Hframe connect.
  destruct (get_valid c stP b HokP Hget) as [Hcid Hv].
  unfold run_sync. rw Hn Hs. unfold process_sync_event. rw Hc Hp bool_decide_false; [done|]. unfold fetch_root_catalog.
  destruct (has c st) eqn:Hhas; [by eexists _, _|].
  assert (Hreq : request_many (connect p) [c] false = Ok [RBlock c (Content.data b)]).
  { rw -(bitswap_answers_in_order stP [c] false body [RBlock c (Content.data b)] [frame]) //.
    - constructor; [|done]. unfold Bitswap.answer. rw Hget. cbn. by rw Hcid.
    - by constructor.
    - unfold request_many, connect. change (request_of [c] false) with (Want c). rw Hbody. cbn [ok_or mbind result_bind].
      by rw (dispatch_bitswap _ _ _ _ stP HsP). }
  destruct (has_not_pending c st Hhas) as [F1 F2].
  assert (Hfb : fetch_blocks (connect p) [c] st = ((put (mk_Block c (Content.data b)) st).1, Ok [(c, Fetched)])).
  { unfold fetch_blocks. rw F1 F2. change (Prelude.chunks SESSION_WANTLIST_CHUNK [c]) with [[c]].
    assert (batch_order [[c]] = [[c]]) as -> by by apply Permutation_singleton_r, batch_order_perm. cbn [fetch_batches]. unfold fetch_batch. rw Hreq. cbn [length negb Nat.eqb].
    cbn [store_responses]. rw bool_decide_true; [done|]. cbn [negb]. replace (mk_Block c (Content.data b)) with b by (by destruct b; cbn in *; subst).
    rw Hv. cbn [negb]. destruct (put b st) as [st1 r1] eqn:Eput. pose proof (put_accepts b st Hv) as Ha. rw Eput in Ha. cbn in Ha. by subst r1. }
  rw Hfb. change (count_if _ [(c, Fetched)]) with 1. rw bool_decide_false; [done|].
  replace (mk_Block c (Content.data b)) with b by (by destruct b; cbn in *; subst).
  pose proof (get_put b st Hok Hv) as Hgp. rw Hcid in Hgp. rw Hgp Hrc. eexists _, _. split; [done|]. intros _. exists b.
  split_and!; [done| |done]. unfold block_verify in Hv. bool_to_prop. congruence.
Qed.
End daemon.

(** ** Witnesses *)
Module DaemonWitness.
Import (hints) CheckoutWitness ServerWitness.
#[export] Existing Instances Toy.toy_ed25519_laws.

(** Node [a] shares version 2 of [f]; node [b] has the project open and no such file. *)
Definition a : bytes := replicate 32 x01.
Definition b : bytes := replicate 32 x02.
Definition record : SharedFileRecord := mk_SharedFileRecord "p" ["proj"; "f"] 5 7 2.
Definition node_of (secret : bytes) : GossipNode :=
  mk_GossipNode ∅ ∅ (mk_MessageCache ∅ 10) [] [] 12 (Some (identity_of_secret secret)) true.
Definition exchange_of (secret : bytes) : Exchange :=
  with_network (Identity.peer_id (identity_of_secret secret)) None true false (Some (mk_MemoryContentStore ∅)).
Definition daemon_of (secret : bytes) (e : Exchange) : Daemon () :=
  mk_Daemon (set_shared_gossip (Some (node_of secret)) (ServerWitness.server (mk_Node e (mk_State CheckoutWitness.pm1 (mk_World ∅ []) None) [])))
    [] [] [] [].
Definition dmA : Daemon () := daemon_of a (set_shared {[("p", "f") := record]} (exchange_of a)).
Definition dmB : Daemon () := daemon_of b (exchange_of b).
Definition topic : TopicId := topic_project "p".
Definition offer : GossipMessage := offer_of a "f" record zero_hash.
Definition want : GossipMessage := want_of b "f" record.
Definition wire (secret : bytes) (m : GossipMessage) : GossipWireMessage :=
  mk_GossipWireMessage topic (sign_gossip m (identity_of_secret secret)).
#[export] Instance signed_eq_dec : EqDecision SignedGossipMessage.
Proof. solve_decision. Defined.
#[export] Instance wire_eq_dec : EqDecision GossipWireMessage.
Proof. solve_decision. Defined.
#[export] Instance wire_codec : Codec GossipWireMessage := Toy.table_codec [wire a offer; wire b want].
#[export] Instance wire_codec_laws : CodecLaws GossipWireMessage := Toy.table_codec_laws [wire a offer; wire b want].
Definition stream (w : GossipWireMessage) : bytes := match send_gossip w with Ok b => b | Err _ => [] end.
Definition draws : Draws := ServerWitness.draws 5.
Definition sc : ServerConfig := ServerWitness.config StoreWitness.c.
#[export] Existing Instances Bitswap.Witness.req_codec Bitswap.Witness.resp_codec Bitswap.Witness.bsw_req_codec_laws
  Bitswap.Witness.bsw_resp_codec_laws Bitswap.Witness.order Bitswap.Witness.order_laws Transfer.Witness.frame_codec.

(** [behind] has to fetch the catalog that [publisher] holds. *)
Definition catalog : RootCatalog := mk_RootCatalog "p" 1 [] 0 0.
#[export] Instance root_codec : Codec RootCatalog := {| to_vec _ := Some [x01]; from_slice _ := Some catalog |}.
Definition catalog_cid : Cid := cid_for [x01].
Definition filled : MemoryContentStore := mk_MemoryContentStore {[catalog_cid := [x01]]}.
Definition needed : CatalogSyncNeededEvent := mk_CatalogSyncNeededEvent "p" 0 1 [] (Some catalog_cid) (Some "q").
Definition behind : Daemon () := add_needed needed dmB.
Definition publisher : Daemon () := daemon_of a (set_store (Some filled) (exchange_of a)).
Definition published (_ : PeerId) (sent : bytes) : bytes :=
  (dispatch_stream Dht.Witness.req_codec Dht.Witness.resp_codec [] sc draws "b" sent publisher).2.
End DaemonWitness.
Import (hints) CheckoutWitness PublishWitness InviteWitness ServerWitness DaemonWitness.

(** [b] hears the offer and asks, and [a] starts to send. *)
Lemma announced_file_is_sent_witness :
  ∃ dm : Daemon (), tasks (sv_ex (dm_services dm)) =
    [TaskShareAndSend (mk_ShareRequest "p" "f" ["proj"; "f"] 5 7 Interactive
       (Some (Identity.peer_id (identity_of_secret DaemonWitness.b))) 2)].
Proof.
  destruct (announced_file_is_sent Dht.Witness.req_codec Dht.Witness.resp_codec [] DaemonWitness.sc DaemonWitness.a
    DaemonWitness.b DaemonWitness.dmA (DaemonWitness.node_of DaemonWitness.a) DaemonWitness.dmB
    (DaemonWitness.node_of DaemonWitness.b) "p" "f" DaemonWitness.record zero_hash [] (λ _, true)
    [Identity.peer_id (identity_of_secret DaemonWitness.b)]
    (DaemonWitness.stream (DaemonWitness.wire DaemonWitness.a DaemonWitness.offer))
    DaemonWitness.draws (λ _, DaemonWitness.draws) DaemonWitness.draws DaemonWitness.draws (λ _, DaemonWitness.draws))
    as (g1 & g2 & _ & _ & Hg2 & _ & Hsend).
  - split; [reflexivity|]. split; [reflexivity|]. split; reflexivity.
  - split; [reflexivity|]. split; [reflexivity|]. split; reflexivity.
  - vm_compute. discriminate.
  - reflexivity.
  - reflexivity.
  - split; vm_compute; reflexivity.
  - eexists. vm_compute. reflexivity.
  - intros r'. vm_compute. discriminate.
  - reflexivity.
  - reflexivity.
  - vm_compute. left.
  - destruct Hsend as (g3 & _ & _ & Hsend).
    { assert (Hn : (λ g, seen (message_cache g) !! message_id DaemonWitness.topic DaemonWitness.want) <$> Some g2 = Some None).
      { rewrite -Hg2. vm_compute. reflexivity. }
      injection Hn as Hn. exact Hn. }
    eexists. apply (Hsend (λ _, true) [Identity.peer_id (identity_of_secret DaemonWitness.a)]
      (DaemonWitness.stream (DaemonWitness.wire DaemonWitness.b DaemonWitness.want))).
    + reflexivity.
    + assert (Hm : (λ g, mesh_peers g DaemonWitness.topic) <$> Some g2 = Some []).
      { rewrite -Hg2. vm_compute. reflexivity. }
      injection Hm as Hm. unfold gossip_fanout, fanout_targets. cbn [out_peers].
      change (topic_project "p") with DaemonWitness.topic. rewrite Hm. vm_compute. left.
Defined.

(** A store without the catalog, and a publisher that has it. *)
Lemma catalog_sync_sound_witness :
  ∃ ev st' rc, dm_completed (run_sync DaemonWitness.published DaemonWitness.behind) = [ev] ∧ sy_error ev = None ∧
    holds_catalog st' DaemonWitness.catalog_cid rc.
Proof.
  destruct (catalog_sync_sound DaemonWitness.published DaemonWitness.behind DaemonWitness.needed [] (mk_MemoryContentStore ∅))
    as (st' & ev & Hrun & _ & _ & _ & _ & _ & Hev).
  - reflexivity.
  - reflexivity.
  - apply map_Forall_empty.
  - assert (He : sy_error <$> [ev] = [None]).
    { change [ev] with (dm_completed DaemonWitness.behind ++ [ev]).
      apply (f_equal dm_completed) in Hrun. cbn [dm_completed] in Hrun. rewrite -Hrun. vm_compute. reflexivity. }
    injection He as He. destruct (Hev He) as (c & p & Hc & _ & _ & [(Hh & _)|(_ & rc & Hrc)]); injection Hc as <-.
    + exfalso. vm_compute in Hh. discriminate.
    + exists ev, st', rc. rewrite Hrun. split; [reflexivity|]. split; [exact He|exact Hrc].
Defined.

Lemma catalog_sync_complete_witness :
  ∃ st' n, dm_completed (run_sync DaemonWitness.published DaemonWitness.behind) = [sync_completed DaemonWitness.needed n None] ∧
    holds_catalog st' DaemonWitness.catalog_cid DaemonWitness.catalog.
Proof.
  destruct (catalog_sync_complete Dht.Witness.req_codec Dht.Witness.resp_codec [] DaemonWitness.sc DaemonWitness.behind
    DaemonWitness.needed [] (mk_MemoryContentStore ∅) DaemonWitness.publisher DaemonWitness.filled DaemonWitness.catalog_cid "q"
    DaemonWitness.catalog (new_block [x01]) (Bitswap.Witness.enc_request (Want DaemonWitness.catalog_cid))
    (Bitswap.Witness.enc_response (RBlock DaemonWitness.catalog_cid [x01])) DaemonWitness.draws "b") as (st' & n & Hrun & Hst).
  - reflexivity.
  - reflexivity.
  - apply map_Forall_empty.
  - reflexivity.
  - reflexivity.
  - discriminate.
  - reflexivity.
  - apply map_Forall_singleton. reflexivity.
  - vm_compute. reflexivity.
  - reflexivity.
  - vm_compute. reflexivity.
  - vm_compute. discriminate.
  - split; vm_compute; [reflexivity|discriminate].
  - exists st', n. unfold DaemonWitness.published. rewrite Hrun. split; [reflexivity|]. apply Hst. reflexivity.
Defined.
