(* ===== verification/Links.v ===== *)
(** * The connections of the daemon

    [synergos-core/src/peer_link.rs] and the parts of [daemon.rs] that work on connections:
    the accept loop, the task that runs for every connection and keeps the presence of the
    peer in step with it, reconnection, and the periodic cleanup.

    A [Host] is the daemon with its network handles.  [ho_links] are the tasks of
    connections that run, each with the mark whether it has started; [ho_heard] is the number
    of the notifications of dialled connections that were received or passed over.  The channel
    of the notifications keeps the last [OUTBOUND_NOTIFY_CAPACITY] of those that were sent
    ([qm_outbound_tx] lists all): a receiver that has fallen further behind is told how many it
    missed and goes on with the oldest one kept.  The steps of the tasks interleave in any
    order. *)

From S2P Require Import Tunnel Mesh Quic Conduit.
From S2P Require Import Prelude Crypto Types Identity Ledger Routing Dht Gossip Content Bitswap Catalog Transfer Fs Manifest Glob.
From S2P Require Import Project Retention HistoryIndex Tags Rotation HistoryStore StoreInv StoreOps StoreGc StoreProps Hooks Exchange.
From S2P Require Import Incoming Checkout Conflict Presence Publish IpcProtocol Invite IpcServer Daemon.
Import Quic (QuicManager, QuicConnection, AcceptedConnection, ac_peer_id, ac_connection, raw_connection, SignedHello, X509, Dial,
  qm_outbound_tx, connections).

Record NetworkHandles := mk_NetworkHandles { nh_mesh : Mesh.Mesh; nh_conduit : Conduit.Conduit }.

Record Host {Remote : Type} := mk_Host {
  ho_daemon : Daemon Remote;
  ho_net : NetworkHandles;
  ho_links : list (AcceptedConnection * bool);
  ho_heard : nat;
}.
Arguments Host : clear implicits.
Arguments mk_Host {_}.

Definition OUTBOUND_NOTIFY_CAPACITY : nat := 256.

(** What a receiver of the notifications gets. *)
Inductive Received := Notified (ac : AcceptedConnection) | Lagged (n : nat).

Section links.
Context {Remote : Type}.

Definition quic (h : Host Remote) : QuicManager := Conduit.cd_quic (nh_conduit (ho_net h)).
Definition set_host_quic q (h : Host Remote) : Host Remote :=
  mk_Host (ho_daemon h) (mk_NetworkHandles (nh_mesh (ho_net h)) (Conduit.set_quic q (nh_conduit (ho_net h)))) (ho_links h) (ho_heard h).
Definition set_links l (h : Host Remote) : Host Remote := mk_Host (ho_daemon h) (ho_net h) l (ho_heard h).
Definition set_daemon d (h : Host Remote) : Host Remote := mk_Host d (ho_net h) (ho_links h) (ho_heard h).
Definition update_host_presence (f : PresenceService → PresenceService) (h : Host Remote) : Host Remote :=
  set_daemon (set_services (update_presence f (dm_services (ho_daemon h))) (ho_daemon h)) h.
Definition presence_of (h : Host Remote) : PresenceService := sv_presence (dm_services (ho_daemon h)).

Context `{Blake3, Crc32, Hex, Ed25519, HeapPick, !MapIter MessageId N, !MapIter NodeId PeerRecord, !Codec ProjectManifest,
  !Codec VersionState, !Codec HistoryIndex, !Codec ObjectMeta, !Codec Tag, DirOrder, !MapIter string ManagedProject,
  !Codec GossipWireMessage, !Codec BitswapRequest, !Codec BitswapResponse, !Codec RootCatalog, BatchOrder,
  !MapIter TopicId (list PeerId), !Codec FrameKind, X509, !Codec SignedHello, !MapIter PeerId QuicConnection}.

Definition open_project_ids (s : Services Remote) : list string := pi_project_id <$> list_projects (sv_pm s).

(** ** The task of a connection *)

(** It starts: the peer is present in every project that is open. *)
Definition link_opened (now : N) (ac : AcceptedConnection) (h : Host Remote) : Host Remote :=
  update_host_presence (λ p, (observe_connected now (ac_peer_id ac) (open_project_ids (dm_services (ho_daemon h))) p).1) h.

(** The streams have ended, for this reason.  Only the task of the connection in the table reports that the peer is gone. *)
Definition link_closed (reason : option string) (ac : AcceptedConnection) (h : Host Remote) : Host Remote :=
  let reason := String.string_of_list_byte (sanitize_close_reason (default "stream loop ended" reason)) in
  let '(q, removed) := Quic.remove_closed (ac_peer_id ac) (ac_connection ac) (quic h) in
  let h := set_host_quic q h in
  if removed then update_host_presence (observe_disconnected (ac_peer_id ac) reason) h else h.

(** [spawn_peer_connection]: from start to end, with the streams the peer opened. *)
Definition peer_connection (req_codec : Codec DhtRequest) (resp_codec : Codec DhtResponse) (temp_dir : path) (sc : ServerConfig)
    (d : nat → Draws) (now : N) (streams : list bytes) (reason : option string) (ac : AcceptedConnection) (h : Host Remote) :
    Host Remote * list bytes :=
  let h := link_opened now ac h in
  let '(dm, outs) := dispatch_peer_streams req_codec resp_codec temp_dir sc d (ac_peer_id ac) streams (ho_daemon h) in
  (link_closed reason ac (set_daemon dm h), outs).

(** [spawn_quic_accept_loop]: a round; a connection that is accepted gets a task. *)
Definition accept_round (inc : Quic.Incoming) (h : Host Remote) : Host Remote :=
  match Quic.accept inc (quic h) with
  | (q, Ok (Some ac)) => set_links (ho_links h ++ [(ac, false)]) (set_host_quic q h)
  | (q, _) => set_host_quic q h
  end.

(** The notifications that were not received yet: those the channel no longer keeps, because
    as many as it holds were sent after them, and those it still has. *)
Definition waiting (h : Host Remote) : list AcceptedConnection := drop (ho_heard h) (qm_outbound_tx (quic h)).
Definition lag (h : Host Remote) : nat := length (waiting h) - OUTBOUND_NOTIFY_CAPACITY.
Definition overtaken (h : Host Remote) : list AcceptedConnection := take (lag h) (waiting h).
Definition held (h : Host Remote) : list AcceptedConnection := drop (lag h) (waiting h).

(** [recv] on the channel of the notifications; [None] while none is there. *)
Definition recv_outbound (h : Host Remote) : option Received :=
  if bool_decide (lag h = 0) then Notified <$> head (waiting h) else Some (Lagged (lag h)).

(** [spawn_outbound_dispatch]: a connection that was dialled gets a task as well, but those
    whose notifications were missed get none. *)
Definition outbound_round (h : Host Remote) : Host Remote :=
  match recv_outbound h with
  | Some (Notified ac) => mk_Host (ho_daemon h) (ho_net h) (ho_links h ++ [(ac, false)]) (S (ho_heard h))
  | Some (Lagged n) => mk_Host (ho_daemon h) (ho_net h) (ho_links h) (ho_heard h + n)
  | None => h
  end.

(** A dial, as bootstrap, reconnection and the conduit make it. *)
Definition dial (d : Dial) (now : N) (expected : PeerId) (addr : SocketAddr) (h : Host Remote) : Host Remote :=
  set_host_quic (Quic.connect d now expected addr (quic h)).1 h.

(** [spawn_reconnect_loop]: the peers of a round. *)
Definition reconnect_round `{!MapIter PeerId string} (h : Host Remote) : list (PeerId * string) :=
  reconnect_candidates (λ p, bool_decide (is_Some (Quic.get_connection (quic h) p))) (presence_of h).

(** ** The periodic cleanup *)
Definition note_connection (now : N) (q : QuicManager) (p : PresenceService) (c : QuicConnection) : PresenceService :=
  let p := update_rtt now (Quic.qc_peer_id c) (Quic.qc_rtt_ms c) p in
  let bw := Quic.get_bandwidth_estimate q (Quic.qc_peer_id c) in
  if (0 <? bw)%N then update_bandwidth (Quic.qc_peer_id c) bw p else p.

(** A round; [outside] is what the network answers to the migration of each peer. *)
Definition periodic_cleanup (d : Draws) (outside : PeerId → Conduit.Outside) (h : Host Remote) : Host Remote :=
  let s := dm_services (ho_daemon h) in
  let s := set_conflicts (cleanup_expired_notifications (dr_clock d) (24 * 60 * 60 * 1000) (cleanup_resolved (sv_conflicts s))) s in
  let s := update_manager (λ m, (gc_expired_invites (dr_now d) m).1) s in
  let s := update_exchange (λ e, (gc_finished_transfers e).1) s in
  let s := update_presence (λ p, set_dht (gc_expired (dr_clock d) <$> ps_dht p) p) s in
  let mesh := Mesh.cleanup_expired_sessions (dr_clock d) (nh_mesh (ho_net h)) in
  let s := update_presence (λ p, foldl (note_connection (dr_clock d) (quic h)) p (Quic.list_connections (quic h))) s in
  let c := foldl (λ c p, (Conduit.try_migrate_route (outside p) p c).1) (nh_conduit (ho_net h))
             (Quic.qc_peer_id <$> Quic.list_connections (quic h)) in
  mk_Host (set_services s (ho_daemon h)) (mk_NetworkHandles mesh c) (ho_links h) (ho_heard h).

(** ** Runs *)
Inductive link_op :=
| LAccept (inc : Quic.Incoming)
| LDial (d : Dial) (now : N) (expected : PeerId) (addr : SocketAddr)
| LOutbound
| LOpen (i : nat) (now : N)
| LClose (i : nat) (reason : option string).

Definition link_step (h : Host Remote) (o : link_op) : Host Remote :=
  match o with
  | LAccept inc => accept_round inc h
  | LDial d now expected addr => dial d now expected addr h
  | LOutbound => outbound_round h
  | LOpen i now =>
      match ho_links h !! i with
      | Some (ac, false) => link_opened now ac (set_links (<[i := (ac, true)]> (ho_links h)) h)
      | _ => h
      end
  | LClose i reason =>
      match ho_links h !! i with
      | Some (ac, true) => link_closed reason ac (set_links (delete i (ho_links h)) h)
      | _ => h
      end
  end.

(** The connections that a step may set up, and those of them that were dialled. *)
Definition dialled_number (o : link_op) : list nat :=
  match o with LDial (Quic.Presented _ _ conn _ _) _ _ _ => [conn] | _ => [] end.
Definition link_numbers (o : link_op) : list nat :=
  match o with
  | LAccept (Quic.Established conn _ _ _) => [conn]
  | _ => dialled_number o
  end.

Definition key (ac : AcceptedConnection) : PeerId * nat := (ac_peer_id ac, ac_connection ac).
(** The tasks that run or are about to be spawned. *)
Definition tasks_of (h : Host Remote) : list (PeerId * nat) := (key <$> (ho_links h).*1) ++ (key <$> held h).

Record links_inv (used dialled : list nat) (lost : PeerId * nat → Prop) (h : Host Remote) : Prop := {
  li_served : ∀ p id, raw_connection (quic h) p = Some id → (p, id) ∈ tasks_of h ∨ lost (p, id);
  li_present : ∀ p id ac, raw_connection (quic h) p = Some id → (ac, true) ∈ ho_links h → key ac = (p, id) →
    connected (presence_of h) p = true;
  li_used : ∀ p id, (p, id) ∈ tasks_of h → id ∈ used;
  li_heard : ho_heard h ≤ length (qm_outbound_tx (quic h));
  li_dialled : ∀ x, x ∈ key <$> waiting h → x.2 ∈ dialled;
}.

Lemma waiting_split h : waiting h = overtaken h ++ held h.
Proof. unfold overtaken, held. by rw take_drop. Qed.

Lemma raw_store p c (m : QuicManager) q :
  raw_connection (Quic.store_connection p c m) q = if decide (p = q) then Quic.connection c else raw_connection m q.
Proof.
  unfold Quic.store_connection, raw_connection. destruct (Quic.connections m !! p ≫= Quic.connection); cbn;
    (destruct (decide (p = q)) as [->|?]; [by rw lookup_insert_eq|by rw lookup_insert_ne]).
Qed.

Lemma links_more used l dialled k (lost lost' : _ → Prop) h :
  (∀ x, lost x → lost' x) → links_inv used dialled lost h → links_inv (used ++ l) (dialled ++ k) lost' h.
Proof.
  intros Hl [H1' H2' H3' H4' H5']. split; [| |intros p id Hin; rw elem_of_app; left; by eapply H3'|done|].
  - intros p id [?|?]%H1'; auto.
  - done.
  - intros x Hx. rw elem_of_app. auto.
Qed.

(** A table that is the same serves and shows the same peers. *)
Lemma links_same_table used dialled lost h q' :
  (∀ p, raw_connection q' p = raw_connection (quic h) p) → qm_outbound_tx q' = qm_outbound_tx (quic h) → links_inv used dialled lost h →
  links_inv used dialled lost (set_host_quic q' h).
Proof.
  intros Hr Ho [H1' H2' H3' H4' H5'].
  assert (Ew : waiting (set_host_quic q' h) = waiting h) by (unfold waiting; cbn; by rw Ho).
  assert (Et : tasks_of (set_host_quic q' h) = tasks_of h) by (unfold tasks_of, held, lag; by rw Ew).
  split; rw ?Et ?Ew; change (quic (set_host_quic q' h)) with q'; [|intros p id ac; rw Hr; apply H2'|done|by rw Ho|done].
  intros p id. rw Hr. apply H1'.
Qed.

Lemma failed_table (q q' : QuicManager) :
  q' = q ∨ (∃ conn reason, q' = Quic.close_connection conn reason q) →
  (∀ p, raw_connection q' p = raw_connection q p) ∧ qm_outbound_tx q' = qm_outbound_tx q.
Proof. by intros [->|(? & ? & ->)]. Qed.

(** A new connection of [p], with a task that has not started. *)
Lemma links_new used dialled dialled' (lost lost' : _ → Prop) h h' p id :
  id ∉ used → ho_links h' = ho_links h ∨ (∃ ac, key ac = (p, id) ∧ ho_links h' = ho_links h ++ [(ac, false)]) →
  (∀ q, raw_connection (quic h') q = if decide (p = q) then Some id else raw_connection (quic h) q) →
  (p, id) ∈ tasks_of h' → (∀ x, x ∈ tasks_of h → x ∈ tasks_of h' ∨ lost' x) → (∀ x, lost x → lost' x) →
  (∀ x, x ∈ tasks_of h' → x ∈ tasks_of h ∨ x = (p, id)) → presence_of h' = presence_of h →
  ho_heard h' ≤ length (qm_outbound_tx (quic h')) → (∀ x, x ∈ key <$> waiting h' → x.2 ∈ dialled') →
  links_inv used dialled lost h → links_inv (used ++ [id]) dialled' lost' h'.
Proof.
  intros Hid Hl Hraw Hnew Hkeep Hlost Ht Hp Hh Hdl [H1' H2' H3' H4' _].
  assert (Hold : ∀ ac, (ac, true) ∈ ho_links h' → (ac, true) ∈ ho_links h).
  { intros ac. destruct Hl as [->|(ac' & _ & ->)]; [done|]. rw elem_of_app. by intros [?|?%list_elem_of_singleton]. }
  assert (Hin : ∀ ac, (ac, true) ∈ ho_links h → key ac ∈ tasks_of h).
  { intros ac Hac. unfold tasks_of. rw elem_of_app. left. apply list_elem_of_fmap. exists ac. split; [done|].
    apply list_elem_of_fmap. by exists (ac, true). }
  split; [| | |done|done].
  - intros q i. rw Hraw. destruct (decide (p = q)) as [->|?]; [intros [= <-]; by left|]. intros [?|?]%H1'; auto.
  - intros q i ac. rw Hraw Hp. destruct (decide (p = q)) as [->|?]; [|intros Hr Hac; apply (H2' q i ac Hr); auto].
    intros [= <-] Hac%Hold%Hin Hk. rw Hk in Hac. by apply H3' in Hac.
  - intros q i Hx. rw elem_of_app list_elem_of_singleton. destruct (Ht _ Hx) as [?|[= -> ->]]; [left; by eapply H3'|by right].
Qed.

Lemma accept_links used dialled (lost : _ → Prop) h inc :
  (∀ id, id ∈ link_numbers (LAccept inc) → id ∉ used) → links_inv used dialled lost h →
  links_inv (used ++ link_numbers (LAccept inc)) (dialled ++ []) lost (accept_round inc h).
Proof.
  intros Hn Hi. unfold accept_round. destruct (Quic.accept inc (quic h)) as [q' r] eqn:Hc.
  assert (Hfail : (∀ ac, r ≠ Ok (Some ac)) → links_inv (used ++ link_numbers (LAccept inc)) (dialled ++ []) lost (set_host_quic q' h)).
  { intros Hne. eapply links_more; [done|]. apply Quic.accept_failed in Hc; [|done].
    destruct (failed_table (quic h) q') as [E1 E2]; [naive_solver|]. by apply links_same_table. }
  destruct r as [[ac|]|e]; [|by apply Hfail..].
  apply Quic.accept_Ok in Hc as (conn & remote & rtt & b & -> & Eac & _ & ->). cbn [link_numbers].
  set (p := ac_peer_id ac) in *. assert (Hout : ∀ c, qm_outbound_tx (Quic.store_connection p c (quic h)) = qm_outbound_tx (quic h)).
  { intros c. unfold Quic.store_connection. by destruct (_ ≫= Quic.connection). }
  set (h' := set_links _ _). assert (Etx : qm_outbound_tx (quic h') = qm_outbound_tx (quic h)) by exact (Hout _).
  assert (Ew : waiting h' = waiting h) by (unfold waiting; by rw Etx).
  assert (Et : ∀ x, x ∈ tasks_of h' ↔ x ∈ tasks_of h ∨ x = (p, conn)).
  { intros x. unfold tasks_of, held, lag. rw Ew. change (ho_links h') with (ho_links h ++ [(ac, false)]).
    rw !fmap_app !elem_of_app. cbn [fmap list_fmap]. rw list_elem_of_singleton. rw Eac. unfold key. cbn. fold p. tauto. }
  apply (links_new used dialled _ lost lost h _ p conn); [apply Hn; by left| | |apply Et; by right| |done|intros x; apply Et|done| |rw Ew app_nil_r; apply Hi|done].
  - right. exists ac. split; [by rw Eac|done].
  - intros q. change (quic (set_links _ (set_host_quic ?q h))) with q. apply raw_store.
  - intros x Hx. left. apply Et. by left.
  - rw Etx. by destruct Hi.
Qed.

(** One more notification: each that was kept still is, or is overtaken now. *)
Lemma held_snoc (h h' : Host Remote) ac :
  waiting h' = waiting h ++ [ac] →
  ac ∈ held h' ∧ (∀ x, x ∈ held h → x ∈ held h' ∨ x ∈ overtaken h') ∧ (∀ x, x ∈ held h' → x ∈ held h ∨ x = ac).
Proof.
  intros E. assert (Hlag : lag h ≤ lag h' ∧ lag h' ≤ length (waiting h)).
  { unfold lag. rw E length_app. cbn [length]. unfold OUTBOUND_NOTIFY_CAPACITY. lia. }
  assert (Eh : held h' = drop (lag h') (waiting h) ++ [ac]) by (unfold held; rw E drop_app_le //; apply Hlag).
  split_and!.
  - rw Eh elem_of_app. right. by left.
  - intros x Hx. apply or_comm, elem_of_app. rw -waiting_split E elem_of_app. left.
    rw waiting_split elem_of_app. by right.
  - intros x. rw Eh elem_of_app list_elem_of_singleton. intros [Hx|?]; [left|by right]. unfold held.
    replace (lag h') with (lag h + (lag h' - lag h)) in Hx by lia. rw -drop_drop in Hx.
    rw -(take_drop (lag h' - lag h) (drop (lag h) _)) elem_of_app. by right.
Qed.

Lemma dial_links used dialled (lost lost' : _ → Prop) h d now p addr :
  (∀ id, id ∈ link_numbers (LDial d now p addr) → id ∉ used) → (∀ x, lost x → lost' x) →
  (∀ x, x ∈ key <$> overtaken (dial d now p addr h) → lost' x) → links_inv used dialled lost h →
  links_inv (used ++ link_numbers (LDial d now p addr)) (dialled ++ dialled_number (LDial d now p addr)) lost' (dial d now p addr h).
Proof.
  intros Hn Hlost Hov Hi. unfold dial in *. destruct (Quic.connect d now p addr (quic h)) as [q' [[]|e]] eqn:Hc; cbn [fst] in *.
  2: { eapply links_more; [done|]. apply Quic.connect_failed in Hc. destruct (failed_table (quic h) q') as [E1 E2]; [naive_solver|].
       by apply links_same_table. }
  apply Quic.connect_Ok in Hc as (cert & conn & rtt & -> & _ & ->). cbn [link_numbers dialled_number]. set (c := Quic.mk_QuicConnection p addr 0 _ rtt _) in *.
  assert (Hout : qm_outbound_tx (Quic.store_connection p c (quic h)) = qm_outbound_tx (quic h)).
  { unfold Quic.store_connection. by destruct (_ ≫= Quic.connection). }
  set (h' := set_host_quic _ h) in *. set (ac := Quic.mk_AcceptedConnection p addr conn).
  assert (Etx : qm_outbound_tx (quic h') = qm_outbound_tx (quic h) ++ [ac]) by (by rw -Hout).
  assert (Ew : waiting h' = waiting h ++ [ac]).
  { unfold waiting. rw Etx drop_app_le //. apply Hi. }
  destruct (held_snoc _ _ _ Ew) as (Hac & Hk & Hb).
  assert (Hf : ∀ l x, x ∈ key <$> l ↔ ∃ y, x = key y ∧ y ∈ l) by (intros; apply list_elem_of_fmap).
  apply (links_new used dialled _ lost lost' h _ p conn); [apply Hn; by left|by left| | | |done| |done| | |done].
  - intros q. apply (raw_store p c).
  - unfold tasks_of. rw elem_of_app. right. apply Hf. by exists ac.
  - intros x. unfold tasks_of. change (ho_links h') with (ho_links h). rw !elem_of_app !Hf.
    intros [?|(y & -> & [Hy|Hy]%Hk)]; [left; by left|left; right; by exists y|right; apply Hov, Hf; by exists y].
  - intros x. unfold tasks_of. change (ho_links h') with (ho_links h). rw !elem_of_app !Hf.
    intros [?|(y & -> & [Hy| ->]%Hb)]; [left; by left|left; right; by exists y|by right].
  - rw Etx length_app. change (ho_heard h') with (ho_heard h). destruct Hi. cbn. lia.
  - intros x. rw Ew fmap_app !elem_of_app. intros [Hx|Hx]; [left; by eapply li_dialled|right].
    apply list_elem_of_singleton in Hx as ->. by left.
Qed.

Lemma outbound_links used dialled (lost : _ → Prop) h : links_inv used dialled lost h → links_inv used dialled lost (outbound_round h).
Proof.
  intros Hi. unfold outbound_round, recv_outbound. case_bool_decide as Hlag.
  - destruct (waiting h) as [|ac l] eqn:Ew; [done|]. cbn [head fmap option_fmap option_map].
    set (h' := mk_Host _ _ _ _). assert (Ew' : waiting h' = l).
    { unfold waiting in *. change (quic h') with (quic h). cbn [ho_heard h']. rw -Nat.add_1_r -drop_drop Ew. done. }
    assert (Eh : held h = ac :: l) by (unfold held; by rw Hlag Ew).
    assert (Eh' : held h' = l).
    { unfold held, lag. rw Ew'. unfold lag in Hlag. rw Ew in Hlag. cbn [length] in Hlag.
      replace (length l - OUTBOUND_NOTIFY_CAPACITY) with 0 by lia. done. }
    assert (Et : ∀ x, x ∈ tasks_of h' ↔ x ∈ tasks_of h).
    { intros x. unfold tasks_of. rw Eh Eh'. cbn [ho_links h']. rw !fmap_app !elem_of_app. cbn [fmap list_fmap fst].
      rw !elem_of_cons elem_of_nil. tauto. }
    destruct Hi as [H1' H2' H3' H4' H5']. split; change (quic h') with (quic h).
    + intros p id Hr. rw Et. auto.
    + intros p id ac' Hr. cbn [ho_links h']. rw elem_of_app. intros [?|?%list_elem_of_singleton]; [by eapply H2'|done].
    + intros p id Hx%Et. by eapply H3'.
    + cbn [ho_heard h']. assert (Hlen : length (waiting h) = S (length l)) by by rw Ew. unfold waiting in Hlen. rw length_drop in Hlen. lia.
    + intros x. rw Ew'. intros Hx. apply H5'. rw Ew. by right.
  - set (h' := mk_Host _ _ _ _). assert (Ew' : waiting h' = held h).
    { unfold held, waiting. change (quic h') with (quic h). cbn [ho_heard h']. by rw drop_drop. }
    assert (Hle : lag h ≤ length (waiting h)) by (unfold lag; lia).
    assert (Et : tasks_of h' = tasks_of h).
    { unfold tasks_of. f_equal. f_equal. unfold held at 1. unfold lag. rw Ew'. unfold held. rw length_drop.
      unfold lag. replace (_ - _ - _) with 0 by lia. done. }
    destruct Hi as [H1' H2' H3' H4' H5']. split; rw ?Et; change (quic h') with (quic h); [done..| |].
    + cbn [ho_heard h']. unfold waiting in Hle. rw length_drop in Hle. lia.
    + intros x. rw Ew'. intros Hx. apply H5'. rw waiting_split fmap_app elem_of_app. by right.
Qed.

Lemma presence_updated f (h : Host Remote) :
  presence_of (update_host_presence f h) = f (set_ps_gossip (sv_gossip (dm_services (ho_daemon h))) (presence_of h)).
Proof. done. Qed.

Lemma observe_connected_shows now p l s q :
  connected (observe_connected now p l s).1 q = if bool_decide (q = p) then true else connected s q.
Proof.
  assert (Hset : ∀ n, rn_state n = Connected →
    connected (set_nodes (<[p := n]> (nodes s)) s) q = if bool_decide (q = p) then true else connected s q).
  { intros n Hn. rw (connected_insert s _ p _ q eq_refl). by rw (bool_decide_true (rn_state n = Connected)). }
  unfold observe_connected. destruct (nodes s !! p) as [n|]; cbn [fst]; [|by apply Hset]. destruct (negb _); by apply Hset.
Qed.

Lemma observe_disconnected_shows p why s q : q ≠ p → connected (observe_disconnected p why s) q = connected s q.
Proof.
  intros Hq. unfold observe_disconnected. destruct (nodes s !! p) as [n|] eqn:E; [|done]. case_bool_decide; [done|].
  rw connected_emit (connected_insert s _ p _ q eq_refl). by rw bool_decide_false.
Qed.

Lemma open_links used dialled (lost : _ → Prop) h i now :
  links_inv used dialled lost h → links_inv used dialled lost (link_step h (LOpen i now)).
Proof.
  intros Hi. cbn [link_step]. destruct (ho_links h !! i) as [[ac []]|] eqn:Hl; [done| |done].
  destruct Hi as [H1' H2' H3' H4' H5']. set (h' := link_opened _ _ _).
  assert (Ek : key <$> (ho_links h').*1 = key <$> (ho_links h).*1).
  { change (ho_links h') with (<[i := (ac, true)]> (ho_links h)). rw list_fmap_insert. cbn [fst]. f_equal. apply list_insert_id.
    rw list_lookup_fmap. by rw Hl. }
  assert (Et : tasks_of h' = tasks_of h).
  { unfold tasks_of. rw Ek. done. }
  split; rw ?Et; change (quic h') with (quic h); change (ho_heard h') with (ho_heard h); [done| |done..].
  intros p id ac' Hr Hac Hk. unfold h', link_opened. rw presence_updated observe_connected_shows.
  case_bool_decide as Hp; [done|]. change (presence_of (set_links _ h)) with (presence_of h).
  assert (Hold : (ac', true) ∈ ho_links h).
  { change (ho_links h') with (<[i := (ac, true)]> (ho_links h)) in Hac. apply list_elem_of_lookup in Hac as [j Hj].
    destruct (decide (i = j)) as [->|Hne].
    - rw list_lookup_insert_eq in Hj; [by eapply lookup_lt_Some|]. injection Hj as <-. by destruct Hp; injection Hk as <-.
    - rw list_lookup_insert_ne // in Hj. by eapply list_elem_of_lookup_2. }
  exact (H2' p id ac' Hr Hold Hk).
Qed.

Lemma close_links used dialled (lost : _ → Prop) h i reason :
  links_inv used dialled lost h → links_inv used dialled lost (link_step h (LClose i reason)).
Proof.
  intros Hi. cbn [link_step]. destruct (ho_links h !! i) as [[ac []]|] eqn:Hl; [|done..].
  destruct Hi as [H1' H2' H3' H4' H5']. unfold link_closed. set (h0 := set_links _ h). change (quic h0) with (quic h).
  assert (Hlinks : ho_links h ≡ₚ (ac, true) :: ho_links h0) by by apply delete_Permutation.
  assert (Ht : ∀ x, x ∈ tasks_of h ↔ x = key ac ∨ x ∈ tasks_of h0).
  { intros x. unfold tasks_of. change (held h0) with (held h). rw Hlinks !elem_of_app. cbn [fmap list_fmap fst].
    rw elem_of_cons. tauto. }
  assert (Hac : ∀ x, x ∈ ho_links h0 → x ∈ ho_links h) by (intros x Hx; rw Hlinks; by right).
  set (p := ac_peer_id ac) in *. set (id := ac_connection ac) in *.
  assert (Hother : raw_connection (quic h) p ≠ Some id → links_inv used dialled lost (set_host_quic (quic h) h0)).
  { intros Hne. split; change (quic (set_host_quic (quic h) h0)) with (quic h); change (tasks_of (set_host_quic (quic h) h0)) with (tasks_of h0).
    - intros q j Hr. destruct (H1' q j Hr) as [[E|?]%Ht|?]; [|by left|by right]. change (key ac) with (p, id) in E. by injection E as -> ->.
    - intros q j ac' Hr Hin Hk. exact (H2' q j ac' Hr (Hac _ Hin) Hk).
    - intros q j Hin. eapply H3', Ht. by right.
    - exact H4'.
    - exact H5'. }
  unfold Quic.remove_closed. fold (raw_connection (quic h) p). destruct (raw_connection (quic h) p) as [c|] eqn:Hraw.
  1: destruct (Nat.eqb_spec c id) as [->|Hne].
  - set (q' := Quic.set_bandwidth _ _). set (h' := update_host_presence _ _). change (quic h') with q' in *.
    assert (Hq' : ∀ q, raw_connection q' q = if decide (p = q) then None else raw_connection (quic h) q).
    { intros q. unfold raw_connection. cbn. destruct (decide (p = q)) as [->|?]; [by rw lookup_delete_eq|by rw lookup_delete_ne]. }
    assert (Et : tasks_of h' = tasks_of h0) by done.
    split; rw ?Et; change (quic h') with q'.
    + intros q j. rw Hq'. destruct (decide (p = q)) as [|Hne]; [done|]. intros Hr. destruct (H1' q j Hr) as [[E|?]%Ht|?]; [|by left|by right].
      by injection E as ->.
    + intros q j ac' . rw Hq'. destruct (decide (p = q)) as [|Hne]; [done|]. intros Hr Hin Hk. unfold h'. rw presence_updated observe_disconnected_shows; [done|].
      exact (H2' q j ac' Hr (Hac _ Hin) Hk).
    + intros q j Hin. eapply H3', Ht. by right.
    + exact H4'.
    + exact H5'.
  - apply Hother. congruence.
  - by apply Hother.
Qed.

(** A number belongs to one step. *)
Lemma accepted_not_dialled ops inc o id :
  NoDup (ops ≫= link_numbers) → LAccept inc ∈ ops → id ∈ link_numbers (LAccept inc) → o ∈ ops → id ∉ dialled_number o.
Proof.
  intros Hnd Hin Hid Ho Hd. assert (Hne : LAccept inc ≠ o) by (intros <-; by apply elem_of_nil in Hd).
  assert (Hid' : id ∈ link_numbers o) by (destruct o; [by apply elem_of_nil in Hd|done..]).
  apply list_elem_of_split in Hin as (l1 & l2 & ->). rw bind_app bind_cons in Hnd.
  apply NoDup_app in Hnd as (_ & H1' & Hnd). apply NoDup_app in Hnd as (_ & H2' & _).
  apply elem_of_app in Ho as [Ho|[E|Ho]%elem_of_cons]; [|by destruct Hne|].
  - apply (H1' id); [by apply list_elem_of_bind; exists o|]. rw elem_of_app. by left.
  - apply (H2' id Hid). apply list_elem_of_bind. by exists o.
Qed.

(** The notification of the connection was overtaken at some moment of the run. *)
Definition missed (h : Host Remote) (ops : list link_op) (x : PeerId * nat) : Prop :=
  ∃ ops1 ops2, ops = ops1 ++ ops2 ∧ x ∈ key <$> overtaken (foldl link_step h ops1).

Lemma missed_more h ops o x : missed h ops x → missed h (ops ++ [o]) x.
Proof. intros (ops1 & ops2 & -> & Hx). exists ops1, (ops2 ++ [o]). by rw app_assoc. Qed.

Lemma run_links h ops :
  connections (quic h) = ∅ → ho_links h = [] → ho_heard h = length (qm_outbound_tx (quic h)) → NoDup (ops ≫= link_numbers) →
  links_inv (ops ≫= link_numbers) (ops ≫= dialled_number) (missed h ops) (foldl link_step h ops).
Proof.
  intros Hc Hl Hh Hnd. induction ops as [|o ops IH] using rev_ind.
  { cbn. assert (Ew : waiting h = []) by (unfold waiting; by rw Hh drop_all).
    split; unfold raw_connection, tasks_of, held; rw ?Hc ?Hl ?Ew ?Hh ?drop_nil; cbn; try lia.
    - intros p id. by rw lookup_empty.
    - intros p id ac _ []%elem_of_nil.
    - intros p id []%elem_of_nil.
    - intros x []%elem_of_nil. }
  assert (Ebind : ∀ f : link_op → list nat, (ops ++ [o]) ≫= f = (ops ≫= f) ++ f o) by (intros f; by rw bind_app /= app_nil_r).
  rw !Ebind in Hnd |- *. apply NoDup_app in Hnd as (Hnd & Hd & _). rw foldl_app. cbn [foldl]. specialize (IH Hnd).
  assert (Hov : ∀ x, x ∈ key <$> overtaken (link_step (foldl link_step h ops) o) → missed h (ops ++ [o]) x).
  { intros x Hx. exists (ops ++ [o]), []. by rw app_nil_r foldl_app. }
  set (h1 := foldl link_step h ops) in *.
  assert (Hn : ∀ id, id ∈ link_numbers o → id ∉ ops ≫= link_numbers) by (intros id Ha Hb; by apply (Hd id)).
  pose proof (missed_more h ops o) as Hmore.
  assert (IH' : links_inv (ops ≫= link_numbers) (ops ≫= dialled_number) (missed h (ops ++ [o])) h1).
  { pose proof (links_more _ [] _ [] _ _ _ Hmore IH) as IH'. by rw !app_nil_r in IH'. }
  destruct o as [inc|d now p addr| |i now|i reason].
  - by apply accept_links.
  - by eapply dial_links.
  - by eapply links_more, outbound_links.
  - by eapply links_more, open_links.
  - by eapply links_more, close_links.
Qed.

(** C14: Every connection of the table that was accepted has a task that serves the streams its peer opens.  So has every one
    that was dialled, or it is about to get one, unless its notification was overtaken, that is, two hundred and fifty-six
    others were sent before the dispatcher had read it; if the dispatcher never falls that far behind, no connection is
    missed.  As soon as a task has started, the peer is shown as connected, whatever becomes of older connections to the same
    peer in the meantime. *)
Theorem connections_served h ops :
  connections (quic h) = ∅ → ho_links h = [] → ho_heard h = length (qm_outbound_tx (quic h)) → NoDup (ops ≫= link_numbers) →
  let h' := foldl link_step h ops in
  (∀ p id, raw_connection (quic h') p = Some id → (p, id) ∈ tasks_of h' ∨ id ∈ ops ≫= dialled_number ∧ missed h ops (p, id)) ∧
  (∀ p id inc, raw_connection (quic h') p = Some id → LAccept inc ∈ ops → id ∈ link_numbers (LAccept inc) → (p, id) ∈ tasks_of h') ∧
  ((∀ ops1 ops2, ops = ops1 ++ ops2 → length (waiting (foldl link_step h ops1)) ≤ OUTBOUND_NOTIFY_CAPACITY) →
     ∀ p id, raw_connection (quic h') p = Some id → (p, id) ∈ tasks_of h') ∧
  (∀ p id ac, raw_connection (quic h') p = Some id → (ac, true) ∈ ho_links h' → key ac = (p, id) →
     connected (presence_of h') p = true).
Proof.
  intros Hc Hl Hh Hnd h'. pose proof (run_links h ops Hc Hl Hh Hnd) as Hi.
  assert (Hmd : ∀ x, missed h ops x → x.2 ∈ ops ≫= dialled_number).
  { intros x (ops1 & ops2 & -> & Hx). rw bind_app in Hnd. apply NoDup_app in Hnd as (Hnd & _ & _). rw bind_app elem_of_app. left.
    apply (li_dialled _ _ _ _ (run_links h ops1 Hc Hl Hh Hnd)). rw waiting_split fmap_app elem_of_app. by left. }
  split_and!.
  - intros p id [?|Hm]%(li_served _ _ _ _ Hi); [by left|]. right. split; [by apply (Hmd (p, id))|done].
  - intros p id inc Hr Hin Hid. destruct (li_served _ _ _ _ Hi p id Hr) as [?|Hm%Hmd]; [done|]. exfalso.
    apply list_elem_of_bind in Hm as (o & Ho & Hino). cbn in Ho. by apply (accepted_not_dialled ops inc o id).
  - intros Hprompt p id [?|(ops1 & ops2 & E & Hx)]%(li_served _ _ _ _ Hi); [done|]. exfalso. unfold overtaken, lag in Hx.
    specialize (Hprompt ops1 ops2 E). revert Hx. replace (_ - _) with 0 by lia. by intros []%elem_of_nil.
  - apply Hi.
Qed.

(** The end of a connection: that of the one in the table removes the peer from it and shows the peer as disconnected; that of an
    older one changes nothing. *)
Theorem link_end_exact h ac reason :
  let p := ac_peer_id ac in
  let h' := link_closed reason ac h in
  if decide (raw_connection (quic h) p = Some (ac_connection ac)) then
    raw_connection (quic h') p = None ∧ connected (presence_of h') p = false
  else connections (quic h') = connections (quic h) ∧ presence_of h' = presence_of h.
Proof.
  intros p h'. unfold h', link_closed, Quic.remove_closed. fold p. fold (raw_connection (quic h) p).
  destruct (raw_connection (quic h) p) as [c|] eqn:Hr; [|by case_decide].
  destruct (Nat.eqb_spec c (ac_connection ac)) as [->|Hne]; [|case_decide; [congruence|done]]. case_decide; [|done]. split.
  - unfold raw_connection. cbn. by rw lookup_delete_eq.
  - rw presence_updated. unfold observe_disconnected, connected. cbn [nodes set_ps_gossip].
    change (presence_of (set_host_quic _ h)) with (presence_of h). destruct (nodes (presence_of h) !! p) as [n|] eqn:En; [|cbn; by rw En].
    case_bool_decide as Hd; cbn; [rw En Hd; by rw bool_decide_false|]. rw lookup_insert_eq. by rw bool_decide_false.
Qed.
End links.

(** ** Witnesses *)
Module LinksWitness.
Import (hints) CheckoutWitness ServerWitness DaemonWitness Quic.QuicWitness.
(** [a] connects twice; the task of the first connection ends after the second one was accepted. *)
Definition host : Host () :=
  mk_Host DaemonWitness.dmB
    (mk_NetworkHandles Mesh.new_mesh (Conduit.with_relay_only (Quic.QuicWitness.up Quic.QuicWitness.ib)
       (Tunnel.new_tunnel (Tunnel.mk_TunnelConfig "" false true 0 0)) false)) [] 0.
Definition hello_from_a (n : nat) : Quic.Incoming := Quic.Established n Quic.QuicWitness.there 3 (Quic.Stream Quic.QuicWitness.hello).
Definition ops : list link_op := [LAccept (hello_from_a 1); LOpen 0 5; LAccept (hello_from_a 2); LOpen 1 6; LClose 0 None].

(** Two hundred and fifty-eight notifications at once: the first two are missed, the third is served next. *)
Definition conn (n : nat) : AcceptedConnection := Quic.mk_AcceptedConnection "a" Quic.QuicWitness.there n.
Definition busy : Host () := set_host_quic (foldl (λ q n, Quic.notify_outbound (conn n) q) (quic host) (seq 0 258)) host.
Example lagging :
  (ho_links (outbound_round busy), ho_heard (outbound_round busy), ho_links (outbound_round (outbound_round busy))) =
  ([], 2, [(conn 2, false)]).
Proof. vm_compute. reflexivity. Qed.
End LinksWitness.
Import (hints) CheckoutWitness ServerWitness DaemonWitness Quic.QuicWitness.

Lemma connections_served_witness :
  let a := Identity.peer_id Quic.QuicWitness.ia in
  raw_connection (quic (foldl link_step LinksWitness.host LinksWitness.ops)) a = Some 2 ∧
  (a, 2) ∈ tasks_of (foldl link_step LinksWitness.host LinksWitness.ops) ∧
  connected (presence_of (foldl link_step LinksWitness.host LinksWitness.ops)) a = true.
Proof.
  intros a. assert (Hr : raw_connection (quic (foldl link_step LinksWitness.host LinksWitness.ops)) a = Some 2) by (vm_compute; reflexivity).
  split; [exact Hr|].
  destruct (connections_served LinksWitness.host LinksWitness.ops) as (_ & Ha & _ & Hp).
  - reflexivity.
  - reflexivity.
  - reflexivity.
  - apply (bool_decide_eq_true_1 (NoDup (LinksWitness.ops ≫= link_numbers))). vm_compute. reflexivity.
  - split.
    + apply (Ha a 2 (LinksWitness.hello_from_a 2) Hr); [|by left].
      do 2 (apply elem_of_cons; right). apply elem_of_cons. by left.
    + apply (Hp a 2 (Quic.mk_AcceptedConnection a Quic.QuicWitness.there 2) Hr); [vm_compute; left|reflexivity].
Defined.
