(* ===== verification/Relay.v ===== *)
(** * The relay: server and client

    [synergos-relay/src/server.rs] and [synergos-net/src/relay/mod.rs].  Clients that cannot
    reach each other join a room of the server, which hands every binary frame of a member to
    the other members.

    Every connection of the server has a task for its reads, a bounded channel and a task that
    writes what is in the channel; all of them share the rooms.  The steps of the tasks
    interleave: a run is a list of steps.  A join is two steps, since the code compares the
    number of rooms with the limit before it takes the entry of the room; the other accesses to
    the rooms hold the entry they work on.  A connection is named by its position in the list of
    connections, which is also the name of its channel. *)

From S2P Require Import Prelude Crypto Types.

(** ** The rooms *)
Record RelayConfig := mk_RelayConfig {
  listen_addr : string;
  max_rooms : nat;
  max_clients_per_room : nat;
  idle_timeout_secs : N;
}.
Definition default_max_rooms : nat := 4096.
Definition default_max_clients_per_room : nat := 64.
Definition default_idle_timeout_secs : N := 300.
Definition RelayConfig_default : RelayConfig :=
  mk_RelayConfig "0.0.0.0:8080" default_max_rooms default_max_clients_per_room default_idle_timeout_secs.

(** [tx] is the channel of the connection with this number. *)
Record ClientSender := mk_ClientSender { cs_id : N; cs_tx : nat }.
Global Instance ClientSender_eq_dec : EqDecision ClientSender.
Proof. solve_decision. Defined.

Record Rooms := mk_Rooms { cfg : RelayConfig; rooms : gmap string (list ClientSender); next_id : N }.
Definition Rooms_new (c : RelayConfig) : Rooms := mk_Rooms c ∅ 1.
Definition set_rooms m (r : Rooms) : Rooms := mk_Rooms (cfg r) m (next_id r).

(** [fetch_add] wraps around. *)
Definition alloc_id (r : Rooms) : Rooms * N := (mk_Rooms (cfg r) (rooms r) (wrapping_add (next_id r) 1), next_id r).

Inductive JoinError := MaxRooms (n : nat) | RoomFull (room_id : string) (n : nat).
Global Instance JoinError_eq_dec : EqDecision JoinError.
Proof. solve_decision. Defined.

Definition join_check (room_id : string) (r : Rooms) : result JoinError () :=
  if (max_rooms (cfg r) <=? size (rooms r)) && bool_decide (rooms r !! room_id = None) then Err (MaxRooms (max_rooms (cfg r)))
  else Ok ().

(** The entry of the room exists from here on, whether the client finds a place in it or not. *)
Definition join_insert (room_id : string) (sender : ClientSender) (r : Rooms) : Rooms * result JoinError () :=
  let entry := default [] (rooms r !! room_id) in
  if max_clients_per_room (cfg r) <=? length entry then (set_rooms (<[room_id := entry]> (rooms r)) r, Err (RoomFull room_id (length entry)))
  else (set_rooms (<[room_id := entry ++ [sender]]> (rooms r)) r, Ok ()).

Definition join (room_id : string) (sender : ClientSender) (r : Rooms) : Rooms * result JoinError () :=
  match join_check room_id r with
  | Ok _ => join_insert room_id sender r
  | Err e => (r, Err e)
  end.

Definition leave (room_id : string) (client_id : N) (r : Rooms) : Rooms :=
  let m := alter (filter (λ c, cs_id c ≠ client_id)) room_id (rooms r) in
  set_rooms (filter (λ kv, kv.2 ≠ []) m) r.

(** ** Connections *)
Inductive ClientControl {Value : Type} := CJoin (room_id : string) (peer_id : option Value) | CLeave.
Arguments ClientControl : clear implicits.

Inductive Message :=
| Text (txt : bytes)
| Binary (b : bytes)
| MClose
| MOther.

(** What the stream of a socket yields. *)
Inductive Read := RMessage (m : Message) | RError | REnd.

(** [mpsc::channel(64)]: [ch_open] says that its receiver, the writer task, is there. *)
Definition CHANNEL_CAPACITY : nat := 64.
Record Channel := mk_Channel { ch_queue : list bytes; ch_open : bool }.
Definition try_send (b : bytes) (c : Channel) : Channel :=
  if ch_open c && (length (ch_queue c) <? CHANNEL_CAPACITY) then mk_Channel (ch_queue c ++ [b]) true else c.

(** Reading frames; between the two halves of a join; behind the loop, waiting for the writer; returned with the error of
    a read. *)
Inductive Phase := Serving | Joining (room_id : string) | Draining | Failed.

Record Connection := mk_Connection {
  cn_id : N;
  current_room : option string;
  cn_phase : Phase;
  cn_chan : Channel;
  cn_sent : list bytes;
}.
Definition set_current_room o (c : Connection) := mk_Connection (cn_id c) o (cn_phase c) (cn_chan c) (cn_sent c).
Definition set_phase p (c : Connection) := mk_Connection (cn_id c) (current_room c) p (cn_chan c) (cn_sent c).
Definition set_chan ch (c : Connection) := mk_Connection (cn_id c) (current_room c) (cn_phase c) ch (cn_sent c).

Record Relay := mk_Relay { rl_rooms : Rooms; rl_conns : list Connection }.
Definition update_conn (f : Connection → Connection) (k : nat) (s : Relay) : Relay := mk_Relay (rl_rooms s) (alter f k (rl_conns s)).
Definition with_rooms r (s : Relay) : Relay := mk_Relay r (rl_conns s).

(** [broadcast]: to every member but the sender; a channel that is full or closed drops the frame. *)
Definition broadcast (room_id : string) (from_id : N) (payload : bytes) (s : Relay) : Relay :=
  match rooms (rl_rooms s) !! room_id with
  | Some entry =>
      foldl (λ s client,
        if negb (cs_id client =? from_id)%N then update_conn (λ c, set_chan (try_send payload (cn_chan c)) c) (cs_tx client) s else s)
        s entry
  | None => s
  end.

(** The loop is left: the place in the room is given back, and the connection waits for its writer. *)
Definition leave_loop (k : nat) (c : Connection) (s : Relay) : Relay :=
  let s := match current_room c with
           | Some room => with_rooms (leave room (cn_id c) (rl_rooms s)) s
           | None => s
           end in
  update_conn (λ c, set_phase Draining (set_current_room None c)) k s.

Section server.
Context {Value : Type} `{!Codec (ClientControl Value)}.

(** [handle_connection]: the handshake was made. *)
Definition open_connection (s : Relay) : Relay :=
  let '(r, id) := alloc_id (rl_rooms s) in
  mk_Relay r (rl_conns s ++ [mk_Connection id None Serving (mk_Channel [] true) []]).

(** [handle_connection]: one turn of the loop over the frames of the socket. *)
Definition handle_read (rd : Read) (k : nat) (c : Connection) (s : Relay) : Relay :=
  match rd with
  | REnd => leave_loop k c s
  | RError => update_conn (set_phase Failed) k s
  | RMessage (Text txt) =>
      match from_slice txt with
      | None => s
      | Some (CJoin room_id _) =>
          match current_room c with
          | Some _ => s
          | None =>
              match join_check room_id (rl_rooms s) with
              | Err _ => leave_loop k c s
              | Ok _ => update_conn (set_phase (Joining room_id)) k s
              end
          end
      | Some CLeave =>
          match current_room c with
          | Some room => update_conn (set_current_room None) k (with_rooms (leave room (cn_id c) (rl_rooms s)) s)
          | None => s
          end
      end
  | RMessage (Binary b) =>
      match current_room c with
      | Some room => broadcast room (cn_id c) b s
      | None => s
      end
  | RMessage MClose => leave_loop k c s
  | RMessage MOther => s
  end.

(** The second half of a join. *)
Definition finish_join (room_id : string) (k : nat) (c : Connection) (s : Relay) : Relay :=
  let '(r, res) := join_insert room_id (mk_ClientSender (cn_id c) k) (rl_rooms s) in
  let s := with_rooms r s in
  match res with
  | Ok _ => update_conn (λ c, set_phase Serving (set_current_room (Some room_id) c)) k s
  | Err _ => leave_loop k c s
  end.

(** The writer task: a frame is written, or writing fails and the task ends. *)
Definition write_next (ok : bool) (c : Connection) : Connection :=
  match ch_queue (cn_chan c) with
  | b :: q =>
      if negb (ch_open (cn_chan c)) then c
      else if ok then mk_Connection (cn_id c) (current_room c) (cn_phase c) (mk_Channel q true) (cn_sent c ++ [b])
      else set_chan (mk_Channel [] false) c
  | [] => c
  end.

(** Somebody can still put a frame into the channel of connection [k]: the task itself or a room. *)
Definition has_sender (k : nat) (c : Connection) (r : Rooms) : bool :=
  match cn_phase c with Serving | Joining _ => true | _ => false end ||
  bool_decide (map_Exists (λ _ l, k ∈ cs_tx <$> l) (rooms r)).

(** The writer task ends when its channel is empty and nobody can send. *)
Definition writer_ends (k : nat) (s : Relay) (c : Connection) : Connection :=
  match ch_queue (cn_chan c) with
  | [] => if has_sender k c (rl_rooms s) then c else set_chan (mk_Channel [] false) c
  | _ => c
  end.

Inductive relay_op :=
| OAccept (handshake : bool)
| ORead (k : nat) (rd : Read)
| OInsert (k : nat)
| OWrite (k : nat) (ok : bool)
| OWriterEnd (k : nat).

Definition relay_step (s : Relay) (o : relay_op) : Relay :=
  match o with
  | OAccept true => open_connection s
  | OAccept false => s
  | ORead k rd =>
      match rl_conns s !! k with
      | Some c => match cn_phase c with Serving => handle_read rd k c s | _ => s end
      | None => s
      end
  | OInsert k =>
      match rl_conns s !! k with
      | Some c => match cn_phase c with Joining room_id => finish_join room_id k c s | _ => s end
      | None => s
      end
  | OWrite k ok => update_conn (write_next ok) k s
  | OWriterEnd k => update_conn (writer_ends k s) k s
  end.
Definition relay_run (c : RelayConfig) (ops : list relay_op) : Relay := foldl relay_step (mk_Relay (Rooms_new c) []) ops.
End server.

(** ** The client's session

    [RelaySession]: two queues, a task that writes and one that reads.  [None] is a call that waits. *)
Record RelayData := mk_RelayData { from_peer_id : PeerId; rd_payload : bytes }.
Global Instance RelayData_eq_dec : EqDecision RelayData.
Proof. solve_decision. Defined.
Inductive RelayControl := RJoin (room_id : string) (peer_id : PeerId) | RLeave.

(** [se_held] says that the session itself is still there: it owns the sender of one queue and the receiver of the other. *)
Record RelaySession := mk_RelaySession {
  send_q : list RelayData;
  recv_q : list RelayData;
  se_writer : bool;
  se_reader : bool;
  se_held : bool;
}.

Section client.
Context `{!Codec RelayControl, !Codec RelayData}.

(** The session, and the text frame that was sent. *)
Definition relay_connect (dialled sent : bool) (room_id : string) (local_peer : PeerId) : result NetError (RelaySession * bytes) :=
  if negb dialled then Err (EQuic "relay connect")
  else
    text ← ok_or (to_vec (RJoin room_id local_peer)) (ESerialization "relay join");
    if negb sent then Err (EQuic "relay join send")
    else Ok (mk_RelaySession [] [] true true true, text).

Definition session_send (d : RelayData) (s : RelaySession) : option (RelaySession * result NetError ()) :=
  if negb (se_writer s) then Some (s, Err (EQuic "relay send queue"))
  else if CHANNEL_CAPACITY <=? length (send_q s) then None
  else Some (mk_RelaySession (send_q s ++ [d]) (recv_q s) (se_writer s) (se_reader s) (se_held s), Ok ()).

(** The writer task: one turn, with the frame it wrote. *)
Definition writer_turn (ok : bool) (s : RelaySession) : option (RelaySession * option bytes) :=
  let next q w := mk_RelaySession q (recv_q s) w (se_reader s) (se_held s) in
  if negb (se_writer s) then None
  else
    match send_q s with
    | [] => if se_held s then None else Some (next [] false, None)
    | d :: q =>
        match to_vec d with
        | None => Some (next q true, None)
        | Some b => if ok then Some (next q true, Some b) else Some (next [] false, None)
        end
    end.

(** The reader task: one turn. *)
Definition reader_turn (rd : Read) (s : RelaySession) : option RelaySession :=
  let next q r := mk_RelaySession (send_q s) q (se_writer s) r (se_held s) in
  if negb (se_reader s) then None
  else
    match rd with
    | RMessage (Binary b) =>
        match from_slice b with
        | Some d =>
            if negb (se_held s) then Some (next (recv_q s) false)
            else if CHANNEL_CAPACITY <=? length (recv_q s) then None
            else Some (next (recv_q s ++ [d]) true)
        | None => Some s
        end
    | RMessage MClose | RError | REnd => Some (next (recv_q s) false)
    | RMessage _ => Some s
    end.

(** [recv] after its timeout at the latest. *)
Definition session_recv (s : RelaySession) : RelaySession * result NetError RelayData :=
  match recv_q s with
  | d :: q => (mk_RelaySession (send_q s) q (se_writer s) (se_reader s) (se_held s), Ok d)
  | [] => (s, Err (EQuic (if se_reader s then "relay recv timeout" else "relay recv closed")))
  end.

(** Dropping the session stops the task that waits for the other two, and not these. *)
Definition session_drop (s : RelaySession) : RelaySession := mk_RelaySession (send_q s) [] (se_writer s) (se_reader s) false.
End client.

(** ** Who is in which room *)
Definition members (room_id : string) (r : Rooms) : list ClientSender := default [] (rooms r !! room_id).

(** Everything but the frames in the channels: the rooms list exactly the connections that are in a room, once each, and keep
    to the limit of clients. *)
Record relay_inv (s : Relay) : Prop := {
  ri_next : next_id (rl_rooms s) = wrap64 (Z.of_nat (S (length (rl_conns s))));
  ri_ids : ∀ k c, rl_conns s !! k = Some c → cn_id c = wrap64 (Z.of_nat (S k));
  ri_member : ∀ room m, m ∈ members room (rl_rooms s) ↔
    ∃ c, rl_conns s !! cs_tx m = Some c ∧ cs_id m = cn_id c ∧ current_room c = Some room;
  ri_nodup : ∀ room, NoDup (members room (rl_rooms s));
  ri_full : ∀ room, length (members room (rl_rooms s)) ≤ max_clients_per_room (cfg (rl_rooms s));
  ri_used : ∀ room, 0 < max_clients_per_room (cfg (rl_rooms s)) → rooms (rl_rooms s) !! room ≠ Some [];
  ri_phase : ∀ k c, rl_conns s !! k = Some c → match cn_phase c with Joining _ | Draining => current_room c = None | _ => True end;
}.

Definition room_enough (s : Relay) : Prop := (Z.of_nat (length (rl_conns s)) < 18446744073709551616)%Z.

Lemma wrap64_inj a b : (a < 18446744073709551616)%Z → (b < 18446744073709551616)%Z → (0 ≤ a)%Z → (0 ≤ b)%Z →
  wrap64 (a + 1) = wrap64 (b + 1) → a = b.
Proof.
  unfold wrap64. intros ???? H%(f_equal Z.of_N). rw !Z2N.id in H; try (apply Z.mod_pos_bound; lia).
  destruct (decide (a + 1 = 18446744073709551616)%Z) as [Ea|]; destruct (decide (b + 1 = 18446744073709551616)%Z) as [Eb|];
    rw ?Ea ?Eb ?Z_mod_same_full in H; rw ?Z.mod_small in H; lia.
Qed.

Lemma next_succ n : wrapping_add (wrap64 (Z.of_nat n)) 1 = wrap64 (Z.of_nat (S n)).
Proof.
  unfold wrapping_add, wrap64. f_equal. rw Z2N.id; [apply Z.mod_pos_bound; lia|]. rw Zplus_mod_idemp_l. f_equal. lia.
Qed.

Lemma ids_differ s k j c d :
  relay_inv s → room_enough s → rl_conns s !! k = Some c → rl_conns s !! j = Some d → cn_id c = cn_id d → k = j.
Proof.
  intros Hi Hn Hk Hj E. rw (ri_ids s Hi k c Hk) (ri_ids s Hi j d Hj) in E.
  apply lookup_lt_Some in Hk, Hj. unfold room_enough in Hn. rw !Nat2Z.inj_succ -!Z.add_1_r in E. apply wrap64_inj in E; lia.
Qed.

Lemma members_leave room id room' r :
  members room' (leave room id r) = if decide (room' = room) then filter (λ c, cs_id c ≠ id) (members room r) else members room' r.
Proof.
  unfold members, leave. cbn. rw map_lookup_filter.
  destruct (decide (room' = room)) as [->|Hne]; [rw lookup_alter_eq|rw lookup_alter_ne //];
    destruct (rooms r !! _) as [l|]; cbn; try done; case_guard as Hg; cbn; try done;
    apply dec_stable in Hg; by rw ?Hg.
Qed.

Lemma leave_used room id r room' : rooms (leave room id r) !! room' ≠ Some [].
Proof. unfold leave. cbn. rw map_lookup_filter. intros (? & _ & H)%bind_Some. case_guard; naive_solver. Qed.

(** The connection keeps its place. *)
Lemma inv_local s k f :
  (∀ c, rl_conns s !! k = Some c → cn_id (f c) = cn_id c ∧ current_room (f c) = current_room c ∧
    match cn_phase (f c) with Joining _ | Draining => current_room c = None | _ => True end) →
  relay_inv s → relay_inv (update_conn f k s).
Proof.
  intros Hf [H1 H2 H3 H4 H5 H6 H7].
  assert (Hl : ∀ j c', alter f k (rl_conns s) !! j = Some c' → ∃ c, rl_conns s !! j = Some c ∧ cn_id c' = cn_id c ∧
    current_room c' = current_room c ∧ match cn_phase c' with Joining _ | Draining => current_room c' = None | _ => True end).
  { intros j c'. rw list_lookup_alter. case_decide as E; [subst j; intros (c & Hc & ->)%fmap_Some|intros Hc].
    - exists c. destruct (Hf c Hc) as (? & E & ?). by rw E.
    - exists c'. split_and!; try done. by apply H7 in Hc. }
  split; cbn; try done.
  - by rw length_alter.
  - intros j c' (c & Hc & -> & _)%Hl. by apply H2.
  - intros room m. rw H3. split.
    + intros (c & Hc & E1 & E2). rw list_lookup_alter. case_decide as Hk; subst; [rw Hc; cbn|eauto].
      destruct (Hf c Hc) as (Ei & Er & _). exists (f c). by rw Ei Er.
    + intros (c' & (c & Hc & E1 & E2 & _)%Hl & E3 & E4). exists c. by rw -E1 -E2.
  - intros j c' (c & _ & _ & _ & Hp)%Hl. done.
Qed.

(** It changes its place, from the room it was in to [o]. *)
Lemma inv_move s k c f r o :
  rl_conns s !! k = Some c → cn_id (f c) = cn_id c → current_room (f c) = o →
  match cn_phase (f c) with Joining _ | Draining => o = None | _ => True end →
  cfg r = cfg (rl_rooms s) → next_id r = next_id (rl_rooms s) →
  (∀ room m, m ∈ members room r ↔ (m ∈ members room (rl_rooms s) ∧ cs_tx m ≠ k) ∨ (o = Some room ∧ m = mk_ClientSender (cn_id c) k)) →
  (∀ room, NoDup (members room r)) → (∀ room, length (members room r) ≤ max_clients_per_room (cfg r)) →
  (∀ room, 0 < max_clients_per_room (cfg r) → rooms r !! room ≠ Some []) →
  relay_inv s → relay_inv (update_conn f k (with_rooms r s)).
Proof.
  intros Hk Eid Er Hp Ec En Hm Hnd Hfull Hused [H1 H2 H3 H4 H5 H6 H7].
  assert (Hl : ∀ j, alter f k (rl_conns s) !! j = if decide (k = j) then Some (f c) else rl_conns s !! j).
  { intros j. rw list_lookup_alter. case_decide as E; [subst; by rw Hk|done]. }
  split; cbn; try done.
  - by rw length_alter En.
  - intros j d. rw Hl. case_decide as E; [|apply H2]. intros [= <-]. subst j. rw Eid. by apply H2.
  - intros room m. rw Hm Hl H3. case_decide as E.
    + split; [intros [[_ ?]|[-> ->]]; [congruence|eauto]|]. intros (d & [= <-] & E1 & E2). right. destruct m as [i t]. cbn in *.
      split; congruence.
    + split; [intros [[? _]|[-> ->]]; [done|by cbn in E]|]. intros ?. left. split; [done|congruence].
  - intros j d. rw Hl. case_decide; [|apply H7]. intros [= <-]. by rw Er.
Qed.

Lemma inv_with_rooms s r :
  (∀ room, members room r = members room (rl_rooms s)) → cfg r = cfg (rl_rooms s) → next_id r = next_id (rl_rooms s) →
  (∀ room, 0 < max_clients_per_room (cfg r) → rooms r !! room ≠ Some []) → relay_inv s → relay_inv (with_rooms r s).
Proof.
  intros Hr Ec En Hu [H1 H2 H3 H4 H5 H6 H7]. split; cbn; try done; rw ?Ec ?En; try done; intros room; rw Hr; auto.
Qed.

Lemma inv_leave s k c f :
  rl_conns s !! k = Some c → room_enough s → cn_id (f c) = cn_id c → current_room (f c) = None →
  relay_inv s →
  relay_inv (update_conn f k (match current_room c with Some room => with_rooms (leave room (cn_id c) (rl_rooms s)) s | None => s end)).
Proof.
  intros Hk Hn Eid Er Hi. assert (Hme : ∀ room m, m ∈ members room (rl_rooms s) → cs_tx m = k ↔ cs_id m = cn_id c).
  { intros room m (d & Hd & -> & _)%(ri_member s Hi). split; [intros E; subst k; congruence|]. by apply (ids_differ s _ _ d c). }
  assert (Hp : match cn_phase (f c) with Joining _ | Draining => @None string = None | _ => True end) by by destruct (cn_phase (f c)).
  destruct (current_room c) as [room|] eqn:Hroom.
  - apply (inv_move s k c f _ None); try done.
    + intros room' m. rw members_leave. case_decide as E; subst.
      * rw list_elem_of_filter. split; [intros [H1 H2]; left; split; [done|]; by rw (Hme room)|].
        intros [[H1 H2]|[? _]]; [|done]. by rw -(Hme room).
      * split; [|by intros [[??]|[??]]]. intros Hin. left. split; [done|]. intros Hx.
        apply (ri_member s Hi) in Hin as (d & Hd & _ & Hr). subst k. simplify_eq.
    + intros room'. rw members_leave. case_decide; [apply NoDup_filter|]; apply (ri_nodup s Hi).
    + intros room'. rw members_leave. pose proof (ri_full s Hi room'). case_decide; [|done]. subst.
      etrans; [apply length_filter|done].
    + intros room' _. apply leave_used.
  - change (update_conn f k s) with (update_conn f k (with_rooms (rl_rooms s) s)). apply (inv_move s k c f _ None); try done; try by apply Hi.
    intros room m. split; [|by intros [[??]|[??]]]. intros Hin. left. split; [done|]. intros Hx.
    apply (ri_member s Hi) in Hin as (d & Hd & _ & Hr). subst k. simplify_eq.
Qed.

Lemma inv_broadcast s room id b : relay_inv s → relay_inv (broadcast room id b s).
Proof.
  intros Hi. unfold broadcast. destruct (rooms (rl_rooms s) !! room) as [l|]; [|done]. clear room.
  revert s Hi. induction l as [|m l IH]; intros s Hi; cbn [foldl]; [done|]. apply IH. destruct (negb _); [|done].
  apply inv_local; [|done]. intros c Hc. split_and!; try done. by apply (ri_phase s Hi) in Hc.
Qed.

Lemma inv_leave_loop s k c : rl_conns s !! k = Some c → room_enough s → relay_inv s → relay_inv (leave_loop k c s).
Proof. intros Hk Hn Hi. unfold leave_loop. by apply inv_leave. Qed.

Lemma inv_finish_join s k c room :
  rl_conns s !! k = Some c → cn_phase c = Joining room → room_enough s → relay_inv s → relay_inv (finish_join room k c s).
Proof.
  intros Hk Hp Hn Hi. pose proof (ri_phase s Hi k c Hk) as Hnone. rw Hp in Hnone. unfold finish_join, join_insert.
  fold (members room (rl_rooms s)). destruct (Nat.leb_spec (max_clients_per_room (cfg (rl_rooms s))) (length (members room (rl_rooms s)))) as [Hle|Hlt].
  - apply inv_leave_loop; [done|done|]. apply inv_with_rooms; try done; cbn.
    + intros room'. unfold members. cbn. destruct (decide (room' = room)) as [->|?]; [by rw lookup_insert_eq|by rw lookup_insert_ne].
    + intros room' H0'. destruct (decide (room' = room)) as [->|?]; [|rw lookup_insert_ne //; by apply (ri_used s Hi)].
      rw lookup_insert_eq. intros [= E]. rw E in Hle. cbn in Hle. lia.
  - set (r := set_rooms _ _).
    assert (Hmem : ∀ room', members room' r = members room' (rl_rooms s) ++ if decide (room' = room) then [mk_ClientSender (cn_id c) k] else []).
    { intros room'. unfold members, r. cbn. case_decide as E; [subst; by rw lookup_insert_eq|rw lookup_insert_ne // app_nil_r //]. }
    assert (Hfresh : ∀ room' m, m ∈ members room' (rl_rooms s) → cs_tx m ≠ k).
    { intros room' m (d & Hd & _ & Hr)%(ri_member s Hi) E. subst k. simplify_eq. }
    apply (inv_move s k c _ r (Some room)); try done.
    + intros room' m. rw Hmem elem_of_app. split.
      * intros [?|Hx]; [left; split; [done|by eapply Hfresh]|]. case_decide; [|by apply elem_of_nil in Hx].
        apply list_elem_of_singleton in Hx. subst. by right.
      * intros [[? _]|[[= ->] ->]]; [by left|]. right. rw decide_True //. by left.
    + intros room'. rw Hmem. apply NoDup_app. split_and!; [apply (ri_nodup s Hi)| |case_decide; [apply NoDup_singleton|constructor]].
      intros m Hm Hx. case_decide; [|by apply elem_of_nil in Hx]. apply list_elem_of_singleton in Hx. subst m. by apply (Hfresh _ _ Hm).
    + intros room'. rw Hmem length_app. change (cfg r) with (cfg (rl_rooms s)). pose proof (ri_full s Hi room').
      case_decide as E; [rw E in H |- *|]; cbn; lia.
    + intros room' H0'. unfold r. cbn. destruct (decide (room' = room)) as [->|?]; [rw lookup_insert_eq|rw lookup_insert_ne //; by apply (ri_used s Hi)].
      intros [= E]. by destruct (members room (rl_rooms s)).
Qed.

Section runs.
Context {Value : Type} `{!Codec (ClientControl Value)}.

Lemma inv_read s k c rd :
  rl_conns s !! k = Some c → room_enough s → relay_inv s → relay_inv (handle_read rd k c s).
Proof.
  intros Hk Hn Hi. assert (Hset : ∀ p, (match p with Joining _ | Draining => current_room c = None | _ => True end) →
    relay_inv (update_conn (set_phase p) k s)).
  { intros p Hp. apply inv_local; [|done]. intros d Hd. by simplify_eq. }
  destruct rd as [[txt|b| |]| |]; cbn [handle_read]; try done; try (by apply inv_leave_loop); [|by destruct (current_room c); [apply inv_broadcast|]|by apply Hset].
  destruct (from_slice txt) as [[room v|]|]; [| |done].
  - destruct (current_room c) eqn:Hr; [done|]. destruct (join_check _ _); [|by apply inv_leave_loop]. apply Hset. done.
  - pose proof (inv_leave s k c (set_current_room None) Hk Hn) as Hl. destruct (current_room c) eqn:Hr; [|done]. by apply Hl.
Qed.

Lemma inv_open s : relay_inv s → relay_inv (open_connection s).
Proof.
  intros [H1 H2 H3 H4 H5 H6 H7]. split; cbn; try done.
  - rw length_app Nat.add_1_r H1. apply next_succ.
  - intros k c [[_ Hk]|[-> <-]]%lookup_snoc_Some; [by apply H2|exact H1].
  - intros room m. change (members room _) with (members room (rl_rooms s)). rw H3. split.
    + intros (c & Hc & ?). exists c. split; [by apply lookup_app_l_Some|done].
    + intros (c & Hc & E1 & E2). apply lookup_snoc_Some in Hc as [[_ Hc]|[_ <-]]; [eauto|done].
  - intros k c [[_ Hk]|[_ <-]]%lookup_snoc_Some; [by eapply H7|done].
Qed.

Lemma inv_step s o : room_enough s → relay_inv s → relay_inv (relay_step s o).
Proof.
  intros Hn Hi. destruct o as [[]|k rd|k|k ok|k]; cbn [relay_step]; try done.
  - by apply inv_open.
  - destruct (rl_conns s !! k) as [c|] eqn:Hk; [|done]. destruct (cn_phase c); try done. by apply inv_read.
  - destruct (rl_conns s !! k) as [c|] eqn:Hk; [|done]. destruct (cn_phase c) eqn:Hp; try done. by apply inv_finish_join.
  - apply inv_local; [|done]. intros c Hk. pose proof (ri_phase s Hi k c Hk). unfold write_next.
    destruct (ch_queue _); [done|]. by destruct (negb _), ok.
  - apply inv_local; [|done]. intros c Hk. pose proof (ri_phase s Hi k c Hk). unfold writer_ends.
    destruct (ch_queue _); [|done]. by destruct (has_sender _ _ _).
Qed.

(** Steps other than an accept keep the number of connections; all of them keep the configuration. *)
Definition shape (s : Relay) : nat * RelayConfig := (length (rl_conns s), cfg (rl_rooms s)).

Lemma leave_loop_shape k c s : shape (leave_loop k c s) = shape s.
Proof. unfold leave_loop, shape. destruct (current_room c); cbn; by rw length_alter. Qed.

Lemma update_shape f k s : shape (update_conn f k s) = shape s.
Proof. unfold shape. cbn. by rw length_alter. Qed.

Lemma broadcast_shape room id b s : shape (broadcast room id b s) = shape s.
Proof.
  unfold broadcast. destruct (rooms _ !! _) as [l|]; [|done]. generalize s. induction l as [|m l IH]; intros s0; cbn [foldl]; [done|].
  rw IH. destruct (negb _); [apply update_shape|done].
Qed.

Lemma step_shape s o :
  shape (relay_step s o) = (length (rl_conns s) + match o with OAccept true => 1 | _ => 0 end, cfg (rl_rooms s)).
Proof.
  assert (Hs : shape s = (length (rl_conns s) + 0, cfg (rl_rooms s))) by (unfold shape; f_equal; lia).
  destruct o as [[]|k rd|k|k ok|k]; cbn [relay_step]; rw ?update_shape; try done;
    [unfold shape; cbn; by rw length_app|..];
    (destruct (rl_conns s !! k) as [c|]; [|done]); (destruct (cn_phase c) as [|room| |]; try done).
  - destruct rd as [[txt|b| |]| |]; cbn [handle_read]; rw ?leave_loop_shape ?update_shape; try done.
    + destruct (from_slice txt) as [[room v|]|]; [| |done]; (destruct (current_room c); [|]); try done.
      * destruct (join_check _ _); by rw ?leave_loop_shape ?update_shape.
      * rw update_shape. done.
    + destruct (current_room c); [|done]. by rw broadcast_shape.
  - unfold finish_join. destruct (join_insert _ _ _) as [r res] eqn:Hj.
    assert (Ec : cfg r = cfg (rl_rooms s)). { revert Hj. unfold join_insert. destruct (_ <=? _); by intros [= <- <-]. }
    destruct res; rw ?leave_loop_shape ?update_shape; unfold shape; cbn; rw Ec; f_equal; lia.
Qed.

Lemma foldl_conns c ops more : relay_run c (ops ++ more) = foldl relay_step (relay_run c ops) more.
Proof. unfold relay_run. by rw foldl_app. Qed.

Lemma run_conns c ops : length (rl_conns (relay_run c ops)) ≤ length ops.
Proof.
  induction ops as [|o ops IH] using rev_ind; [done|]. rw foldl_conns length_app. cbn [foldl length].
  pose proof (f_equal fst (step_shape (relay_run c ops) o)) as E. cbn in E. rw E. destruct o as [[]|?|?|?|?]; lia.
Qed.

Lemma run_cfg c ops : cfg (rl_rooms (relay_run c ops)) = c.
Proof. induction ops as [|o ops IH] using rev_ind; [done|]. rw foldl_conns. cbn [foldl]. rw -{2}IH. exact (f_equal snd (step_shape (relay_run c ops) o)). Qed.

Definition few (ops : list relay_op) : Prop := (Z.of_nat (length ops) < 18446744073709551616)%Z.

Lemma few_app ops more : few (ops ++ more) → few ops.
Proof. unfold few. rw length_app. lia. Qed.

Lemma run_enough c ops : few ops → room_enough (relay_run c ops).
Proof. unfold few, room_enough. pose proof (run_conns c ops). lia. Qed.

Lemma run_relay_inv c ops : few ops → relay_inv (relay_run c ops).
Proof.
  induction ops as [|o ops IH] using rev_ind.
  - intros _. split; try done; cbn.
    + intros room m. unfold members. cbn. rw lookup_empty. split; [by intros ?%elem_of_nil|naive_solver].
    + intros room. unfold members. cbn. rw lookup_empty. constructor.
    + intros room. unfold members. cbn. rw lookup_empty. cbn. lia.
  - intros Hf. rw foldl_conns. cbn [foldl]. assert (few ops) by by eapply few_app. apply inv_step; [by apply run_enough|by apply IH].
Qed.

(** ** What a frame does *)
Definition in_room (room : string) (c : Connection) : bool := bool_decide (current_room c = Some room).
Definition offer (b : bytes) (c : Connection) : Connection := set_chan (try_send b (cn_chan c)) c.

Lemma foldl_offer id b l s j :
  NoDup (cs_tx <$> l) →
  rl_conns (foldl (λ s client, if negb (cs_id client =? id)%N then
    update_conn (λ c, set_chan (try_send b (cn_chan c)) c) (cs_tx client) s else s) s l) !! j =
  if decide (j ∈ cs_tx <$> filter (λ m, cs_id m ≠ id) l) then offer b <$> rl_conns s !! j else rl_conns s !! j.
Proof.
  revert s. induction l as [|m l IH]; intros s; cbn [fmap list_fmap foldl]; [done|]. rw NoDup_cons. intros [Hn Hl].
  rw IH //. rw filter_cons. destruct (N.eqb_spec (cs_id m) id) as [E|E]; cbn [negb].
  { rw (decide_False (P := cs_id m ≠ id)); [|done]. naive_solver. }
  rw (decide_True (P := cs_id m ≠ id)) //. cbn [fmap list_fmap update_conn rl_conns].
  assert (Hsub : j ∈ cs_tx <$> filter (λ m, cs_id m ≠ id) l → j ∈ cs_tx <$> l).
  { intros (x & -> & [_ Hx]%list_elem_of_filter)%list_elem_of_fmap. apply list_elem_of_fmap. eauto. }
  rw list_lookup_alter. destruct (decide (cs_tx m = j)) as [<-|Hne].
  - rw (decide_False (P := cs_tx m ∈ _ <$> filter _ l)); [intros ?; by apply Hn, Hsub|]. rw decide_True; [by left|done].
  - destruct (decide (j ∈ cs_tx <$> filter _ l)) as [Hx|Hx].
    + rw decide_True; [by right|done].
    + rw decide_False; [|done]. rw elem_of_cons. intros [?|?]; [congruence|done].
Qed.

Lemma members_tx_nodup s room : relay_inv s → NoDup (cs_tx <$> members room (rl_rooms s)).
Proof.
  intros Hi. apply NoDup_fmap_2_strong; [|apply (ri_nodup s Hi)]. intros [i t] [i' t'] H1 H2 E. cbn in E. subst t'.
  apply (ri_member s Hi) in H1 as (c & Hc & E1 & _), H2 as (c' & Hc' & E2 & _). cbn in *. congruence.
Qed.

(** A frame of connection [i] reaches the other members of its room and nobody else. *)
Lemma broadcast_conns s i c room b j :
  relay_inv s → room_enough s → rl_conns s !! i = Some c → current_room c = Some room →
  rl_conns (broadcast room (cn_id c) b s) !! j =
    (λ d, if negb (j =? i) && in_room room d then offer b d else d) <$> rl_conns s !! j.
Proof.
  intros Hi Hn Hc Hr. unfold broadcast.
  assert (Hl : rooms (rl_rooms s) !! room = Some (members room (rl_rooms s))).
  { unfold members. destruct (rooms (rl_rooms s) !! room) eqn:E; [done|]. exfalso.
    assert (Hx : mk_ClientSender (cn_id c) i ∈ members room (rl_rooms s)) by (apply (ri_member s Hi); by exists c).
    unfold members in Hx. rw E in Hx. by apply elem_of_nil in Hx. }
  rw Hl foldl_offer; [by apply members_tx_nodup|]. destruct (rl_conns s !! j) as [d|] eqn:Hd; [|by case_decide]. cbn [fmap option_fmap option_map].
  assert (Hiff : j ∈ cs_tx <$> filter (λ m, cs_id m ≠ cn_id c) (members room (rl_rooms s)) ↔ j ≠ i ∧ current_room d = Some room).
  { rw list_elem_of_fmap. split.
    - intros (m & -> & [Hne Hm]%list_elem_of_filter). apply (ri_member s Hi) in Hm as (d' & Hd' & E & Hroom). simplify_eq.
      split; [|done]. intros E'. rw E' in Hd. congruence.
    - intros [Hne Hroom]. exists (mk_ClientSender (cn_id d) j). split; [done|]. apply list_elem_of_filter. cbn. split.
      + intros E. by apply Hne, (ids_differ s j i d c).
      + apply (ri_member s Hi). by exists d. }
  unfold in_room. destruct (decide (j ∈ _)) as [Hx|Hx]; rw Hiff in Hx.
  - destruct Hx as [Hne Hroom]. by rw (bool_decide_true _ Hroom) (proj2 (Nat.eqb_neq _ _) Hne).
  - destruct (Nat.eqb_spec j i) as [->|Hne]; [done|]. cbn. by rw bool_decide_false; [tauto|].
Qed.

(** A binary frame from a member of a room is handed to every other member of that room, unchanged and in the order of
    arrival, unless the channel of that member is full or closed; no other connection gets anything, and nobody's place in a
    room changes.  A frame from a client that is in no room goes nowhere. *)
Theorem relay_frame_exact c ops i ci b :
  few ops → let s := relay_run c ops in let s' := relay_step s (ORead i (RMessage (Binary b))) in
  rl_conns s !! i = Some ci → cn_phase ci = Serving →
  rl_rooms s' = rl_rooms s ∧
  ∀ j cj, rl_conns s !! j = Some cj →
    rl_conns s' !! j = Some
      (if bool_decide (j ≠ i ∧ is_Some (current_room ci) ∧ current_room cj = current_room ci) &&
          ch_open (cn_chan cj) && (length (ch_queue (cn_chan cj)) <? CHANNEL_CAPACITY)
       then set_chan (mk_Channel (ch_queue (cn_chan cj) ++ [b]) true) cj else cj).
Proof.
  intros Hf s s' Hc Hp. assert (Hi : relay_inv s) by by apply run_relay_inv. assert (Hn : room_enough s) by by apply run_enough.
  subst s'. cbn [relay_step]. rw Hc Hp. cbn [handle_read]. destruct (current_room ci) as [room|] eqn:Hr.
  2: { split; [done|]. intros j cj Hj. rw bool_decide_false; [|done]. by intros (_ & [? ?] & _). }
  split.
  { unfold broadcast. destruct (rooms _ !! _) as [l|]; [|done]. clear. generalize s. induction l as [|m l IH]; intros s0; cbn [foldl]; [done|].
    rw IH. by destruct (negb _). }
  intros j cj Hj. rw (broadcast_conns s i ci room b j) // Hj. cbn [fmap option_fmap option_map]. f_equal. unfold in_room, offer, try_send.
  destruct (Nat.eqb_spec j i) as [->|Hne]; cbn [negb andb]; [rw (bool_decide_false (_ ∧ _)); [naive_solver|done]|].
  rw (bool_decide_ext (j ≠ i ∧ _) (current_room cj = Some room)); [naive_solver|]. case_bool_decide; [|done]. cbn [andb].
  destruct (ch_open _ && _); [done|]. by destruct cj.
Qed.

(** ** What a client is sent *)
Definition received (c : Connection) : list bytes := cn_sent c ++ ch_queue (cn_chan c).

(** What a step offers to connection [k]: the binary frame of another connection in the same room. *)
Definition offered (k : nat) (s : Relay) (o : relay_op) : list bytes :=
  match o with
  | ORead i (RMessage (Binary b)) =>
      match rl_conns s !! i, rl_conns s !! k with
      | Some ci, Some ck =>
          match cn_phase ci, current_room ci with
          | Serving, Some room => if negb (k =? i) && in_room room ck then [b] else []
          | _, _ => []
          end
      | _, _ => []
      end
  | _ => []
  end.
Fixpoint offers (k : nat) (s : Relay) (ops : list relay_op) : list bytes :=
  match ops with
  | [] => []
  | o :: ops => offered k s o ++ offers k (relay_step s o) ops
  end.

Lemma offers_app k s ops more : offers k s (ops ++ more) = offers k s ops ++ offers k (foldl relay_step s ops) more.
Proof. revert s. induction ops as [|o ops IH]; intros s; cbn; [done|]. by rw IH app_assoc. Qed.

(** The connection [k] and what it received after a change that offers it [l]. *)
Definition grows (k : nat) (l : list bytes) (s s' : Relay) : Prop :=
  ∀ c', rl_conns s' !! k = Some c' →
    match rl_conns s !! k with
    | Some c => received c' `sublist_of` received c ++ l ∧ cn_id c' = cn_id c ∧
        (cn_phase c = Failed → cn_phase c' = Failed ∧ current_room c' = current_room c)
    | None => received c' = []
    end.

Lemma grows_none k s : grows k [] s s.
Proof. intros c ->. by rw app_nil_r. Qed.

Lemma grows_rooms k l r s s' : grows k l (with_rooms r s) s' → grows k l s s'.
Proof. done. Qed.

Lemma grows_update k f j s :
  (∀ c, rl_conns s !! j = Some c → received (f c) `sublist_of` received c ∧ cn_id (f c) = cn_id c ∧
    (cn_phase c = Failed → cn_phase (f c) = Failed ∧ current_room (f c) = current_room c)) →
  grows k [] s (update_conn f j s).
Proof.
  intros Hf c'. cbn. rw list_lookup_alter. case_decide as E; [subst j|by intros ->; rw app_nil_r].
  destruct (rl_conns s !! k) as [c|]; [|done]. intros [= <-]. rw app_nil_r. by apply Hf.
Qed.

Lemma grows_serving k f j c s :
  rl_conns s !! j = Some c → cn_phase c ≠ Failed → received (f c) = received c → cn_id (f c) = cn_id c →
  grows k [] s (update_conn f j s).
Proof. intros Hc Hp Hr Hi. apply grows_update. intros d Hd. simplify_eq. by rw Hr. Qed.

Lemma grows_leave_loop k j c s : rl_conns s !! j = Some c → cn_phase c ≠ Failed → grows k [] s (leave_loop j c s).
Proof.
  intros Hc Hp. unfold leave_loop. destruct (current_room c); [eapply grows_rooms|]; by apply (grows_serving k _ j c).
Qed.

Lemma step_grows k s o : relay_inv s → room_enough s → grows k (offered k s o) s (relay_step s o).
Proof.
  intros Hi Hn. destruct o as [[]|i rd|i|i ok|i]; cbn [relay_step]; try apply grows_none.
  - intros c'. cbn. intros [[_ ->]|[-> <-]]%lookup_snoc_Some; [by rw app_nil_r|]. by rw (lookup_ge_None_2 (rl_conns s)).
  - destruct (rl_conns s !! i) as [c|] eqn:Hc.
    2: { assert (offered k s (ORead i rd) = []) as ->; [|apply grows_none]. cbn. rw Hc. by destruct rd as [[]| |]. }
    destruct (cn_phase c) eqn:Hp; [|assert (offered k s (ORead i rd) = []) as ->; [|apply grows_none]; cbn; rw Hc Hp;
      destruct rd as [[]| |]; try done; by destruct (rl_conns s !! k)..].
    destruct rd as [[txt|b| |]| |]; cbn [handle_read offered]; try (apply grows_leave_loop; [done|by rw Hp]); try apply grows_none.
    + destruct (from_slice txt) as [[room v|]|]; [| |apply grows_none].
      * destruct (current_room c); [apply grows_none|].
        destruct (join_check _ _); [|apply grows_leave_loop; [done|by rw Hp]]. apply (grows_serving k _ i c); by rw ?Hp.
      * destruct (current_room c); [|apply grows_none]. eapply grows_rooms. apply (grows_serving k _ i c); by rw ?Hp.
    + rw Hc Hp. destruct (current_room c) as [room|] eqn:Hr; [|by destruct (rl_conns s !! k) eqn:?; [|by intros c' ?; simplify_eq]; apply grows_none].
      intros c'. rw (broadcast_conns s i c room b k) //. destruct (rl_conns s !! k) as [d|]; [|done]. intros [= <-].
      destruct (negb (k =? i) && in_room room d); [|by rw app_nil_r]. split; [|done]. unfold offer, try_send, received.
      destruct (ch_open _ && _); cbn; [by rw app_assoc|by apply sublist_inserts_r].
    + apply (grows_serving k _ i c); by rw ?Hp.
  - destruct (rl_conns s !! i) as [c|] eqn:Hc; [|apply grows_none]. destruct (cn_phase c) as [|room| |] eqn:Hp; try apply grows_none.
    unfold finish_join. destruct (join_insert _ _ _) as [r []]; eapply grows_rooms;
      [apply (grows_serving k _ i c)|apply grows_leave_loop]; by rw ?Hp.
  - apply grows_update. intros c _. unfold write_next, received. destruct (ch_queue (cn_chan c)) as [|b q] eqn:Hq; [by rw Hq|].
    destruct (negb _); [by rw Hq|]. destruct ok; cbn; [by rw -app_assoc|]. rw app_nil_r. split; [by apply sublist_inserts_r|done].
  - apply grows_update. intros c _. unfold writer_ends, received. destruct (ch_queue (cn_chan c)) eqn:Hq; [|by rw Hq].
    destruct (has_sender _ _ _); cbn; by rw ?Hq.
Qed.

Lemma run_grows c ops o k : few (ops ++ [o]) → grows k (offered k (relay_run c ops) o) (relay_run c ops) (relay_run c (ops ++ [o])).
Proof.
  intros Hf. assert (few ops) by by eapply few_app. rw foldl_conns. cbn [foldl].
  apply step_grows; [by apply run_relay_inv|by apply run_enough].
Qed.

(** What a client has been sent, or will be, is part of what the other members of its room sent while it was one of them:
    nothing from another room or from itself, nothing made up, nothing twice and nothing out of order. *)
Theorem relay_stream_sound c ops k ck :
  few ops → rl_conns (relay_run c ops) !! k = Some ck → received ck `sublist_of` offers k (mk_Relay (Rooms_new c) []) ops.
Proof.
  revert ck. induction ops as [|o ops IH] using rev_ind; [done|]. intros ck Hf Hk. assert (few ops) by by eapply few_app.
  pose proof (run_grows c ops o k Hf ck Hk) as Hg. rw offers_app. cbn [offers]. fold (relay_run c ops). rw app_nil_r.
  destruct (rl_conns (relay_run c ops) !! k) as [c0|].
  - destruct Hg as [Hg _]. etrans; [exact Hg|]. apply sublist_app; [by apply IH|done].
  - rw Hg. apply sublist_nil_l.
Qed.

(** ** Connections that break *)
Lemma failed_stays c ops more k ck :
  few (ops ++ more) → rl_conns (relay_run c ops) !! k = Some ck → cn_phase ck = Failed →
  ∃ ck', rl_conns (relay_run c (ops ++ more)) !! k = Some ck' ∧ cn_phase ck' = Failed ∧ current_room ck' = current_room ck ∧
    cn_id ck' = cn_id ck.
Proof.
  intros Hf Hk Hp. induction more as [|o more IH] using rev_ind; [rw app_nil_r; eauto|].
  rw app_assoc in Hf |- *. destruct IH as (c1 & Hc1 & Hp1 & Hr1 & Hi1); [by eapply few_app|].
  assert (Hlen : length (rl_conns (relay_run c (ops ++ more))) ≤ length (rl_conns (relay_run c ((ops ++ more) ++ [o])))).
  { rw (foldl_conns c (ops ++ more) [o]). cbn [foldl]. pose proof (f_equal fst (step_shape (relay_run c (ops ++ more)) o)) as E.
    cbn in E. rw E. lia. }
  destruct (lookup_lt_is_Some_2 (rl_conns (relay_run c ((ops ++ more) ++ [o]))) k) as [c2 Hc2].
  { apply lookup_lt_Some in Hc1. lia. }
  pose proof (run_grows c (ops ++ more) o k Hf c2 Hc2) as Hg. rw Hc1 in Hg. destruct Hg as (_ & Ei & Hfl).
  destruct (Hfl Hp1) as [Hp2 Hr2]. exists c2. split_and!; congruence.
Qed.

(** A connection that ends with an error instead of a close frame keeps its place: it is a member of its room for ever, and
    a room all of whose places are taken by such connections refuses every later client, although nobody is there. *)
Theorem broken_connections_keep_places c ops more room :
  few (ops ++ more) →
  (∀ m, m ∈ members room (rl_rooms (relay_run c ops)) → ∃ ck, rl_conns (relay_run c ops) !! cs_tx m = Some ck ∧ cn_phase ck = Failed) →
  (∀ m, m ∈ members room (rl_rooms (relay_run c ops)) → m ∈ members room (rl_rooms (relay_run c (ops ++ more)))) ∧
  (length (members room (rl_rooms (relay_run c ops))) = max_clients_per_room c →
   ∀ sender, (join_insert room sender (rl_rooms (relay_run c (ops ++ more)))).2 = Err (RoomFull room (max_clients_per_room c))).
Proof.
  intros Hf Hall. assert (Hi : relay_inv (relay_run c ops)) by (eapply run_relay_inv, few_app, Hf).
  assert (Hi' : relay_inv (relay_run c (ops ++ more))) by by apply run_relay_inv.
  assert (Hsub : ∀ m, m ∈ members room (rl_rooms (relay_run c ops)) → m ∈ members room (rl_rooms (relay_run c (ops ++ more)))).
  { intros m Hm. destruct (Hall m Hm) as (ck & Hk & Hp). apply (ri_member _ Hi) in Hm as (ck' & Hk' & Eid & Hr). rw Hk in Hk'. injection Hk' as <-.
    destruct (failed_stays c ops more (cs_tx m) ck Hf Hk Hp) as (ck' & Hk' & _ & Hr' & Eid').
    apply (ri_member _ Hi'). exists ck'. split_and!; congruence. }
  split; [done|]. intros Hlen sender.
  assert (Hle : length (members room (rl_rooms (relay_run c ops))) ≤ length (members room (rl_rooms (relay_run c (ops ++ more))))).
  { apply submseteq_length, NoDup_submseteq; [apply (ri_nodup _ Hi)|done]. }
  pose proof (ri_full _ Hi' room) as Hfull. rw run_cfg in Hfull. unfold join_insert. fold (members room (rl_rooms (relay_run c (ops ++ more)))).
  rw run_cfg. destruct (Nat.leb_spec (max_clients_per_room c) (length (members room (rl_rooms (relay_run c (ops ++ more)))))); [|lia].
  cbn. do 2 f_equal. lia.
Qed.

(** ** From one client to the other *)

(** Data that one client sends through the relay is what the other client of the room receives: the sender's task writes one
    frame, the server hands it on, and the reader's task puts the same value at the end of the queue that [recv] empties. *)
Theorem relay_end_to_end `{!Codec RelayData, !CodecLaws RelayData} c ops i j ci cj d rest b q sa sb :
  few ops → rl_conns (relay_run c ops) !! i = Some ci → rl_conns (relay_run c ops) !! j = Some cj → i ≠ j →
  cn_phase ci = Serving → is_Some (current_room ci) → current_room cj = current_room ci → cn_chan cj = mk_Channel q true →
  length q < CHANNEL_CAPACITY → to_vec d = Some b →
  sa = mk_RelaySession (d :: rest) (recv_q sa) true (se_reader sa) (se_held sa) →
  se_reader sb = true → se_held sb = true → length (recv_q sb) < CHANNEL_CAPACITY →
  let s' := foldl relay_step (relay_run c ops) (ORead i (RMessage (Binary b)) :: replicate (S (length q)) (OWrite j true)) in
  (∃ sa', writer_turn true sa = Some (sa', Some b) ∧ send_q sa' = rest) ∧
  (∃ cj', rl_conns s' !! j = Some cj' ∧ cn_sent cj' = cn_sent cj ++ q ++ [b] ∧ ch_queue (cn_chan cj') = []) ∧
  (∃ sb', reader_turn (RMessage (Binary b)) sb = Some sb' ∧ recv_q sb' = recv_q sb ++ [d]).
Proof.
  intros Hf Hi Hj Hne Hp [room Hr] Hrj Hch Hq Hb Ha Hrd Hh Hrq s'. split_and!.
  - rw Ha. cbn. rw Hb. eauto.
  - assert (Hinv : relay_inv (relay_run c ops)) by by apply run_relay_inv. subst s'. cbn [foldl]. set (s1 := relay_step (relay_run c ops) _).
    assert (H1 : rl_conns s1 !! j = Some (set_chan (mk_Channel (q ++ [b]) true) cj)).
    { subst s1. cbn [relay_step]. rw Hi Hp. cbn [handle_read]. rw Hr (broadcast_conns _ i ci room b j) //; [by apply run_enough|].
      rw Hj. cbn [fmap option_fmap option_map]. unfold in_room, offer, try_send. rw Hrj Hr bool_decide_true // Hch.
      rw (proj2 (Nat.eqb_neq j i)) //. cbn [ch_open ch_queue andb negb]. by rw (proj2 (Nat.ltb_lt _ _) Hq). }
    replace (S (length q)) with (length (q ++ [b])) by (rw length_app; cbn; lia). clearbody s1. revert s1 H1.
    rw -[set_chan _ cj]/(mk_Connection (cn_id cj) (current_room cj) (cn_phase cj) (mk_Channel (q ++ [b]) true) (cn_sent cj)).
    generalize (cn_sent cj) (q ++ [b]). intros l l'. revert l. induction l' as [|x l' IH]; intros l s1 H1; cbn [length replicate foldl].
    + eexists. split; [exact H1|]. cbn. by rw app_nil_r.
    + destruct (IH (l ++ [x]) (relay_step s1 (OWrite j true))) as (cj' & H2 & H3 & H4).
      { cbn. by rw list_lookup_alter_eq H1. }
      exists cj'. by rw H3 -app_assoc.
  - unfold reader_turn. rw Hrd (from_slice_to_vec d b Hb) Hh. cbn [negb]. rw (proj2 (Nat.leb_gt _ _) Hrq). eauto.
Qed.
End runs.

(** ** The limit of rooms *)

(** A join that runs without interruption keeps the limit. *)
Lemma join_keeps_limit room sender r : size (rooms r) ≤ max_rooms (cfg r) → size (rooms (join room sender r).1) ≤ max_rooms (cfg r).
Proof.
  intros Hs. unfold join, join_check. destruct (_ && _) eqn:E; [done|]. cbn. unfold join_insert.
  assert (Hm : ∀ l, size (<[room := l]> (rooms r)) ≤ max_rooms (cfg r)).
  { intros l. destruct (rooms r !! room) eqn:Hr; [rw map_size_insert_Some //; by eexists|]. rw map_size_insert_None //.
    rw bool_decide_true // andb_true_r in E. bool_to_prop. lia. }
  destruct (max_clients_per_room _ <=? _); apply Hm.
Qed.

Module RelayWitness.
Definition control_codec : Codec (ClientControl ()) := {|
  to_vec _ := None;
  from_slice b :=
    match b with
    | [x00] => Some (CJoin "a" None)
    | [x01] => Some (CJoin "b" None)
    | [x02] => Some CLeave
    | _ => None
    end;
|}.
#[local] Existing Instance control_codec.

(** Two joins at the same time exceed the limit of rooms. *)
Lemma room_limit_races :
  size (rooms (rl_rooms (relay_run (mk_RelayConfig "" 1 64 300)
    [OAccept true; OAccept true; ORead 0 (RMessage (Text [x00])); ORead 1 (RMessage (Text [x01])); OInsert 0; OInsert 1]))) = 2.
Proof. reflexivity. Qed.

Definition two_members : list relay_op :=
  [OAccept true; OAccept true; ORead 0 (RMessage (Text [x00])); OInsert 0; ORead 1 (RMessage (Text [x00])); OInsert 1].

Lemma relay_frame_exact_witness :
  rl_conns (relay_run RelayConfig_default (two_members ++ [ORead 0 (RMessage (Binary [x07]))])) !! 1 =
    Some (mk_Connection 2 (Some "a") Serving (mk_Channel [[x07]] true) []).
Proof.
  rw (foldl_conns RelayConfig_default two_members). cbn [foldl].
  destruct (relay_frame_exact RelayConfig_default two_members 0 (mk_Connection 1 (Some "a") Serving (mk_Channel [] true) []) [x07])
    as [_ H]; [unfold few; cbn; lia|reflexivity|reflexivity|].
  rw (H 1 (mk_Connection 2 (Some "a") Serving (mk_Channel [] true) [])); reflexivity.
Defined.

Definition data : RelayData := mk_RelayData "p" [x05].
#[local] Instance data_codec : Codec RelayData := Toy.table_codec [data].
#[local] Instance data_codec_laws : CodecLaws RelayData := Toy.table_codec_laws [data].
Definition sender_session : RelaySession := mk_RelaySession [data] [] true true true.
Definition idle_session : RelaySession := mk_RelaySession [] [] true true true.

Lemma relay_end_to_end_witness :
  ∃ sb, reader_turn (RMessage (Binary [x00])) idle_session = Some sb ∧ (session_recv sb).2 = Ok data.
Proof.
  destruct (relay_end_to_end RelayConfig_default two_members 0 1 (mk_Connection 1 (Some "a") Serving (mk_Channel [] true) [])
    (mk_Connection 2 (Some "a") Serving (mk_Channel [] true) []) data [] [x00] [] sender_session idle_session)
    as (_ & _ & sb & H1 & H2); try reflexivity; try (by unfold few; cbn; lia); try (by unfold CHANNEL_CAPACITY; cbn; lia).
  - by eexists.
  - exists sb. split; [exact H1|]. unfold session_recv. by rw H2.
Defined.

(** The only member of room "a" breaks, and the room stays full. *)
Definition broken_member : list relay_op := [OAccept true; ORead 0 (RMessage (Text [x00])); OInsert 0; ORead 0 RError].

Lemma broken_connections_keep_places_witness :
  (join_insert "a" (mk_ClientSender 2 1) (rl_rooms (relay_run (mk_RelayConfig "" 8 1 300)
    (broken_member ++ [OAccept true; ORead 1 (RMessage (Text [x00]))])))).2 = Err (RoomFull "a" 1).
Proof.
  apply (broken_connections_keep_places (mk_RelayConfig "" 8 1 300) broken_member [OAccept true; ORead 1 (RMessage (Text [x00]))] "a");
    [unfold few; cbn; lia| |reflexivity].
  intros m Hm. change (members "a" _) with [mk_ClientSender 1 0] in Hm. apply list_elem_of_singleton in Hm as ->.
  exists (mk_Connection 1 (Some "a") Failed (mk_Channel [] true) []). split; reflexivity.
Defined.
End RelayWitness.
