(* ===== verification/Registry.v ===== *)
(** * The registry of the control server

    [synergos-control/src/store]: organisations and nodes, kept in memory and in one JSON file
    that every change replaces as a whole.  A change builds the next snapshot, writes it to
    disk and only then makes it the state in memory; a lock is held throughout, so that an
    operation is one step. *)

From Stdlib Require Import Strings.Ascii.
From S2P Require Import Prelude Crypto Fs FsPlain Manifest HistoryIndex.

(** ** Errors *)
Inductive ControlError :=
| CConfig (msg : string)
| CStore (op : string) (e : option IoError)
| CNotFound (what : string)
| CConflict (msg : string)
| CInvalidRequest (msg : string)
| CCloudflare (msg : string)
| CUnauthorized.

Definition status (e : ControlError) : N :=
  match e with
  | CConfig _ | CStore _ _ => 500
  | CNotFound _ => 404
  | CConflict _ => 409
  | CInvalidRequest _ => 400
  | CCloudflare _ => 502
  | CUnauthorized => 401
  end.

(** [into_response]: the message of an internal error is not told. *)
Definition client_message (e : ControlError) : string :=
  match e with
  | CConfig _ | CStore _ _ => "internal error"
  | CCloudflare _ => "upstream service error"
  | CNotFound m => "not found: " +:+ m
  | CConflict m => "conflict: " +:+ m
  | CInvalidRequest m => "invalid request: " +:+ m
  | CUnauthorized => "unauthorized"
  end.

(** ** Data *)
Record Org := mk_Org {
  org_id : string;
  org_name : string;
  org_members : list string;
  org_created_at_ms : N;
}.

Inductive NodeKind := MeshNode | ClientDevice.

Record Node := mk_Node {
  nd_id : string;
  nd_org_id : string;
  nd_display_name : string;
  nd_owner_email : string;
  nd_kind : NodeKind;
  cf_connector_id : option string;
  synergos_peer_id : option string;
  mesh_ip : option string;
  reported_mesh_ip : option string;
  node_key_hash : option string;
  last_heartbeat_ms : option N;
  synergos_version : option string;
  nd_created_at_ms : N;
  nd_updated_at_ms : N;
}.

Record RegistrySnapshot := mk_RegistrySnapshot { orgs : list Org; nodes : list Node }.
Definition empty_registry : RegistrySnapshot := mk_RegistrySnapshot [] [].

Global Instance Org_eq_dec : EqDecision Org.
Proof. solve_decision. Defined.
Global Instance NodeKind_eq_dec : EqDecision NodeKind.
Proof. solve_decision. Defined.
Global Instance Node_eq_dec : EqDecision Node.
Proof. solve_decision. Defined.
Global Instance RegistrySnapshot_eq_dec : EqDecision RegistrySnapshot.
Proof. solve_decision. Defined.

(** [to_ascii_lowercase] and [eq_ignore_ascii_case]. *)
Definition lower_ascii (c : ascii) : ascii :=
  let n := N_of_ascii c in if (65 <=? n)%N && (n <=? 90)%N then ascii_of_N (n + 32) else c.
Definition to_ascii_lowercase (s : string) : string := map_char lower_ascii s.
Definition eq_ignore_ascii_case (a b : string) : bool := bool_decide (to_ascii_lowercase a = to_ascii_lowercase b).

Definition is_member (o : Org) (email : string) : bool := existsb (λ m, eq_ignore_ascii_case m email) (org_members o).

Definition in_org (n : Node) (o : option string) : bool :=
  match o with Some org => bool_decide (nd_org_id n = org) | None => true end.

(** ** The file *)
Record JsonStore := mk_JsonStore { js_path : path; js_world : World; js_state : RegistrySnapshot }.

Abbreviation RegM A := (ST JsonStore ControlError A).

(** [with_extension]: what follows the last dot of the file name is replaced; a leading dot does not count. *)
Fixpoint last_dot (s : string) : option nat :=
  match s with
  | EmptyString => None
  | String c s' =>
      match last_dot s' with
      | Some n => Some (S n)
      | None => if Ascii.eqb c "." then Some 0 else None
      end
  end.
Definition file_stem (name : string) : string :=
  match last_dot name with
  | Some (S n) => String.substring 0 (S n) name
  | _ => name
  end.
Definition with_extension (p : path) (ext : string) : path :=
  match last p with
  | Some name => parent p ++ [file_stem name +:+ "." +:+ ext]
  | None => p
  end.

(** [OpenOptions::create_new]. *)
Definition create_new_at (d : Fs) (p : path) : result IoError Fs :=
  '(q, o) ← locate d p;
  match o with
  | None => Ok (<[q := File []]> d)
  | Some _ => Err AlreadyExists
  end.
Definition create_new (p : path) : IO () := update (λ d, create_new_at d p).
(** [set_permissions] and [sync_all] leave the tree as it is, and may fail. *)
Definition set_permissions : IO () := query (λ _, Ok ()).
Definition sync_all : IO () := query (λ _, Ok ()).

Definition store_err {A} (op : string) (m : IO A) : ST World ControlError A := λ w,
  let '(r, w) := m w in (map_err (λ e, CStore op (Some e)) r, w).

Section store.
Context `{!Codec RegistrySnapshot}.

Definition write_snapshot (tmp p : path) (json : bytes) : ST World ControlError () :=
  _ ← store_err "create" (create_new tmp);
  _ ← store_err "secure" set_permissions;
  _ ← store_err "write" (write tmp json);
  _ ← store_err "sync" sync_all;
  store_err "rename" (rename tmp p).

Definition persist (p : path) (uuid : string) (snapshot : RegistrySnapshot) : ST World ControlError () :=
  json ← lift_result (ok_or (to_vec snapshot) (CStore "serialize" None));
  let tmp := with_extension p (uuid +:+ ".tmp") in
  r ← try_ (write_snapshot tmp p json);
  match r with
  | Ok _ => mret ()
  | Err e => _ ← ignore (store_err "remove" (remove_file tmp)); throw e
  end.

Definition open (p : path) : ST World ControlError JsonStore :=
  e ← try_ (store_err "exists" (metadata p));
  state ← (if is_ok e then
             raw ← store_err "read" (read p);
             lift_result (ok_or (from_slice raw) (CStore "parse" None))
           else mret empty_registry);
  gets (λ w, mk_JsonStore p w state).

(** [self.persist(&next)?; *state = next]. *)
Definition commit (uuid : string) (next : RegistrySnapshot) : RegM () := λ s,
  let '(r, w) := persist (js_path s) uuid next (js_world s) in
  match r with
  | Ok _ => (Ok (), mk_JsonStore (js_path s) w next)
  | Err e => (Err e, mk_JsonStore (js_path s) w (js_state s))
  end.

Definition snapshot : RegM RegistrySnapshot := gets js_state.

Definition find_org (r : RegistrySnapshot) (id : string) : option Org := find_first (λ o, bool_decide (org_id o = id)) (orgs r).

(** ** Organisations *)
Definition insert_org (uuid : string) (o : Org) : RegM Org :=
  st ← snapshot;
  if existsb (λ x, bool_decide (org_id x = org_id o)) (orgs st) then throw (CConflict ("org " +:+ org_id o +:+ " already exists"))
  else
    _ ← commit uuid (mk_RegistrySnapshot (orgs st ++ [o]) (nodes st));
    mret o.

Definition update_org (uuid : string) (o : Org) : RegM Org :=
  st ← snapshot;
  match find_first (λ n, bool_decide (nd_org_id n = org_id o) && negb (is_member o (nd_owner_email n))) (nodes st) with
  | Some n => throw (CConflict ("member " +:+ nd_owner_email n +:+ " still owns node " +:+ nd_id n +:+ "; transfer or remove the node first"))
  | None =>
      match find_org st (org_id o) with
      | None => throw (CNotFound ("org " +:+ org_id o))
      | Some _ =>
          _ ← commit uuid (mk_RegistrySnapshot (update_first (λ x, bool_decide (org_id x = org_id o)) (λ _, o) (orgs st)) (nodes st));
          mret o
      end
  end.

Definition get_org (id : string) : RegM Org :=
  st ← snapshot; lift_result (ok_or (find_org st id) (CNotFound ("org " +:+ id))).

(** ** Nodes *)
Definition insert_node (uuid : string) (n : Node) : RegM Node :=
  st ← snapshot;
  o ← lift_result (ok_or (find_org st (nd_org_id n)) (CNotFound ("org " +:+ nd_org_id n)));
  if negb (is_member o (nd_owner_email n)) then
    throw (CConflict ("owner " +:+ nd_owner_email n +:+ " is no longer a member of org " +:+ nd_org_id n))
  else if existsb (λ x, bool_decide (nd_id x = nd_id n)) (nodes st) then throw (CConflict ("node " +:+ nd_id n +:+ " already exists"))
  else
    _ ← commit uuid (mk_RegistrySnapshot (orgs st) (nodes st ++ [n]));
    mret n.

Definition try_mutate_node (uuid : string) (org : option string) (node_id : string) (mutate : Node → result ControlError Node) :
    RegM Node :=
  st ← snapshot;
  let here n := bool_decide (nd_id n = node_id) && in_org n org in
  slot ← lift_result (ok_or (find_first here (nodes st)) (CNotFound ("node " +:+ node_id)));
  updated ← lift_result (mutate slot);
  o ← lift_result (ok_or (find_org st (nd_org_id updated)) (CNotFound ("org " +:+ nd_org_id updated)));
  if negb (is_member o (nd_owner_email updated)) then
    throw (CConflict ("owner " +:+ nd_owner_email updated +:+ " is not a member of org " +:+ nd_org_id updated))
  else
    _ ← commit uuid (mk_RegistrySnapshot (orgs st) (update_first here (λ _, updated) (nodes st)));
    mret updated.

Definition mutate_node (uuid : string) (org : option string) (node_id : string) (mutate : Node → Node) : RegM Node :=
  try_mutate_node uuid org node_id (λ n, Ok (mutate n)).

Definition list_nodes (org : string) : RegM (list Node) := st ← snapshot; mret (filter (λ n, nd_org_id n = org) (nodes st)).

Definition get_node (org node_id : string) : RegM Node :=
  st ← snapshot;
  lift_result (ok_or (find_first (λ n, bool_decide (nd_org_id n = org) && bool_decide (nd_id n = node_id)) (nodes st))
    (CNotFound ("node " +:+ node_id))).

Definition remove_node (uuid org node_id : string) : RegM Node :=
  st ← snapshot;
  idx ← lift_result (ok_or (position (λ n, bool_decide (nd_org_id n = org) && bool_decide (nd_id n = node_id)) (nodes st))
    (CNotFound ("node " +:+ node_id)));
  removed ← lift_result (ok_or (nodes st !! idx) (CNotFound ("node " +:+ node_id)));
  _ ← commit uuid (mk_RegistrySnapshot (orgs st) (delete idx (nodes st)));
  mret removed.
End store.

(** ** The disk under a change *)
Section disk.
Context `{!Codec RegistrySnapshot}.
Context (dir : path) (name : string).
Implicit Types (d : Fs) (w : World).

Definition tmp_name (uuid : string) : string := file_stem name +:+ "." +:+ uuid +:+ ".tmp".

(** The directory of the file is no link and holds none. *)
Record dir_ok d : Prop := {
  do_tree : tree_wf d;
  do_name : name ≠ "..";
  do_plain : plain d dir;
  do_links : ∀ c t, d !! (dir ++ [c]) ≠ Some (Symlink t);
}.

Lemma dir_entry_plain d c : dir_ok d → c ≠ ".." → plain d (dir ++ [c]).
Proof.
  intros [Ht Hn Hp Hl] Hc. split; [by apply normal_snoc; [apply Hp|]|]. intros n t.
  destruct (decide (n ≤ length dir)) as [Hle|Hgt].
  - rw take_app_le //. apply Hp.
  - rw take_ge; [rw length_app; cbn; lia|]. apply Hl.
Qed.

Lemma string_length_append s t : String.length (s +:+ t) = String.length s + String.length t.
Proof. induction s as [|c s IH]; [done|]. cbn. by rw -IH. Qed.

Lemma tmp_name_ne uuid : tmp_name uuid ≠ "..".
Proof. intros E%(f_equal String.length). unfold tmp_name in E. rw !string_length_append in E. cbn in E. lia. Qed.

Lemma with_extension_tmp uuid : with_extension (dir ++ [name]) (uuid +:+ ".tmp") = dir ++ [tmp_name uuid].
Proof. unfold with_extension. by rw last_snoc parent_snoc. Qed.

Lemma dir_ok_edit d c o : dir_ok d → is_content o → d !! (dir ++ [c]) ≠ Some Dir → (node_at d dir = Some Dir ∨ o = None) →
  dir_ok (edit d (dir ++ [c]) o).
Proof.
  intros [Ht Hn Hp Hl] Ho Hold Hd. split; [apply tree_wf_edit; try done; destruct Hd as [?| ->]; [done|by intros [? ?]]|done|by apply plain_edit|].
  intros c' t. rw lookup_partial_alter. case_decide; [|apply Hl]. intros Hx. by destruct (Ho _ Hx).
Qed.

Lemma wp_store_err {A} op (m : IO A) (Q : result ControlError A → World → Prop) w :
  wp m (λ r, Q (map_err (λ e, CStore op (Some e)) r)) w → wp (store_err op m) Q w.
Proof. unfold wp, store_err. by destruct (m w) as [[]]. Qed.

Lemma wp_create_new p c (Q : result IoError () → World → Prop) w :
  plain (disk w) (p ++ [c]) → (∀ e w', disk w' = disk w → Q (Err e) w') →
  (∀ w', disk w !! (p ++ [c]) = None → node_at (disk w) p = Some Dir → disk w' = edit (disk w) (p ++ [c]) (Some (File [])) → Q (Ok ()) w') →
  wp (create_new (p ++ [c])) Q w.
Proof.
  intros Hp H1 H2. apply wp_update; [done|]. intros w' Hw. unfold create_new_at in Hw.
  destruct (locate (disk w) (p ++ [c])) as [[q o]|] eqn:E; [|done]. apply locate_plain in E as (-> & -> & Hd); [|done].
  cbn [mbind result_bind] in Hw. destruct (disk w !! (p ++ [c])) eqn:Eo; [done|]. injection Hw as Hw. by apply H2.
Qed.

Lemma wp_touch op (Q : result ControlError () → World → Prop) w :
  (∀ r w', disk w' = disk w → Q r w') → wp (store_err op (query (λ _, Ok ()))) Q w.
Proof. intros H. apply wp_store_err, wp_query. intros r w' E _. by apply H. Qed.

(** What a change may have done when it fails: the temporary file is written or gone, and all else is as before. *)
Definition untouched uuid d d' : Prop :=
  dir_ok d' ∧ ∀ q, q ≠ dir ++ [tmp_name uuid] → d' !! q = d !! q.

Lemma wp_write_snapshot uuid json w :
  dir_ok (disk w) → tmp_name uuid ≠ name →
  wp (write_snapshot (dir ++ [tmp_name uuid]) (dir ++ [name]) json)
    (λ r w', match r with
     | Ok _ => dir_ok (disk w') ∧ disk w' !! (dir ++ [name]) = Some (File json) ∧
         ∀ q, q ≠ dir ++ [tmp_name uuid] → q ≠ dir ++ [name] → disk w' !! q = disk w !! q
     | Err _ => untouched uuid (disk w) (disk w')
     end) w.
Proof.
  intros Hok Hne. set (tmp := dir ++ [tmp_name uuid]). pose proof (tmp_name_ne uuid) as Hdots.
  assert (Hself : untouched uuid (disk w) (disk w)) by by split. unfold write_snapshot.
  wp_step. apply wp_store_err, wp_create_new; [by apply dir_entry_plain|intros e w1 ->; exact Hself|].
  intros w1 Hnone Hdir E1. set (d1 := disk w1) in *.
  assert (Hd1 : dir_ok d1). { rw E1. apply dir_ok_edit; [done|apply is_content_file|by rw Hnone|by left]. }
  assert (Hk1 : ∀ q, q ≠ tmp → d1 !! q = disk w !! q) by (intros q Hq; rw E1 lookup_partial_alter_ne //; congruence).
  assert (Hdir1 : node_at d1 dir = Some Dir). { rw E1 node_at_edit_ne //. apply snoc_ne_self. }
  cbn [map_err]. wp_step. apply wp_touch. intros r w2 E2. destruct r as [[]|e]; [|by rw E2].
  wp_step. apply wp_store_err. fold d1 in E2. apply wp_write_plain; [rw E2; by apply dir_entry_plain|intros e w3 ->; by rw E2|].
  intros b r w3 E3 Hold _ Hr. rw E2 in E3, Hold.
  assert (Hd3 : dir_ok (disk w3)). { rw E3. apply dir_ok_edit; try done; [apply is_content_file|by left]. }
  assert (Hk3 : ∀ q, q ≠ tmp → disk w3 !! q = disk w !! q).
  { intros q Hq. rw E3 lookup_partial_alter_ne; [by intros <-; apply Hq|by apply Hk1]. }
  destruct r as [[]|e]; [|by split]. specialize (Hr eq_refl). subst b. cbn [map_err].
  wp_step. apply wp_touch. intros r w4 E4. destruct r as [[]|e]; [|by rw E4].
  apply wp_store_err, wp_rename_plain; [rw E4; by apply dir_entry_plain|rw E4; apply dir_entry_plain; [done|apply Hok]|intros e w5 ->; by rw E4|].
  intros b w5 Hb Hold' Hdir' E5. rw E4 in Hb, Hold', Hdir', E5. rw E3 lookup_partial_alter_eq in Hb. injection Hb as <-. cbn [map_err].
  assert (Hd5 : dir_ok (disk w5)).
  { rw E5. apply dir_ok_edit; [|apply is_content_file| |left; rw node_at_edit_ne //; apply snoc_ne_self].
    - apply dir_ok_edit; [done|apply is_content_none| |by right]. rw E3 lookup_partial_alter_eq //.
    - rw lookup_partial_alter_ne //. intros Ex%app_inj_tail. naive_solver. }
  split_and!; [done|by rw E5 lookup_partial_alter_eq|]. intros q Hq Hq'. rw E5 !lookup_partial_alter_ne; [by intros <-; apply Hq'|by intros <-; apply Hq|by apply Hk3].
Qed.

Lemma wp_persist uuid snap w :
  dir_ok (disk w) → tmp_name uuid ≠ name →
  wp (persist (dir ++ [name]) uuid snap)
    (λ r w', match r with
     | Ok _ => ∃ json, to_vec snap = Some json ∧ dir_ok (disk w') ∧ disk w' !! (dir ++ [name]) = Some (File json) ∧
         ∀ q, q ≠ dir ++ [tmp_name uuid] → q ≠ dir ++ [name] → disk w' !! q = disk w !! q
     | Err _ => untouched uuid (disk w) (disk w')
     end) w.
Proof.
  intros Hok Hne. unfold persist. wp_step. wp_step. destruct (to_vec snap) as [json|] eqn:Hj; cbn [ok_or]; [|by split].
  rw with_extension_tmp. set (tmp := dir ++ [tmp_name uuid]). wp_step. wp_step.
  eapply (wp_mono _ (λ r w', match r with
    | Ok _ => dir_ok (disk w') ∧ disk w' !! (dir ++ [name]) = Some (File json) ∧
        ∀ q, q ≠ tmp → q ≠ dir ++ [name] → disk w' !! q = disk w !! q
    | Err _ => untouched uuid (disk w) (disk w') end)); [by apply wp_write_snapshot|].
  intros [[]|e] w1.
  - intros (H1 & H2 & H3). wp_step. by exists json.
  - intros [Hok1 Hk]. wp_step. wp_step. apply wp_store_err, wp_remove_plain; [by apply dir_entry_plain; [|apply tmp_name_ne]| |].
    + intros e' w2 E. wp_step. unfold untouched. by rw E.
    + intros w2 E Hd. wp_step. unfold untouched. rw E. split; [apply dir_ok_edit; [done|apply is_content_none|done|by right]|].
      intros q Hq. rw lookup_partial_alter_ne; [by intros <-; apply Hq|by apply Hk].
Qed.
End disk.

(** ** What the registry keeps *)

(** Identifiers are unique, and every node belongs to an organisation that has its owner as a member. *)
Record registry_ok (r : RegistrySnapshot) : Prop := {
  ro_orgs : NoDup (org_id <$> orgs r);
  ro_nodes : NoDup (nd_id <$> nodes r);
  ro_owner : ∀ n, n ∈ nodes r → ∃ o, find_org r (nd_org_id n) = Some o ∧ is_member o (nd_owner_email n) = true;
}.

Lemma existsb_false_fmap {A} (f : A → string) l x : existsb (λ y, bool_decide (f y = f x)) l = false → f x ∉ f <$> l.
Proof.
  intros H (y & E & Hy)%list_elem_of_fmap. apply not_true_iff_false in H. apply H, existsb_exists. exists y.
  split; [by apply list_elem_of_In|]. by apply bool_decide_eq_true_2.
Qed.

(** Replacing the first match by something with the same key keeps the keys. *)
Lemma update_first_keys {A K} (key : A → K) p x l :
  (∀ y, y ∈ l → p y = true → key y = key x) → key <$> update_first p (λ _, x) l = key <$> l.
Proof.
  induction l as [|y l IH]; intros Hk; [done|]. cbn [update_first]. destruct (p y) eqn:E; cbn.
  - f_equal. symmetry. apply Hk; [by left|done].
  - f_equal. apply IH. intros z Hz. apply Hk. by right.
Qed.

Lemma update_first_find {A K} `{EqDecision K} (key : A → K) x l k :
  (∃ y, find_first (λ y, bool_decide (key y = key x)) l = Some y) →
  find_first (λ y, bool_decide (key y = k)) (update_first (λ y, bool_decide (key y = key x)) (λ _, x) l) =
  if decide (k = key x) then Some x else find_first (λ y, bool_decide (key y = k)) l.
Proof.
  induction l as [|y l IH]; intros [z Hz]; [done|]. cbn [find_first update_first] in *. case_bool_decide as E; cbn [find_first].
  - case_decide as Ek; [subst k; by rw bool_decide_eq_true_2|]. rw !bool_decide_eq_false_2; congruence.
  - case_decide as Ek.
    + subst k. rw (bool_decide_eq_false_2 _ E). apply IH. eauto.
    + rw IH; [eauto|done].
Qed.

Lemma ok_insert_org r o :
  existsb (λ x, bool_decide (org_id x = org_id o)) (orgs r) = false → registry_ok r →
  registry_ok (mk_RegistrySnapshot (orgs r ++ [o]) (nodes r)).
Proof.
  intros Hf%existsb_false_fmap [H1 H2 H3]. split; cbn; [|done|].
  - rw fmap_app. apply NoDup_app. split_and!; [done| |apply NoDup_singleton]. intros x Hx ->%list_elem_of_singleton. done.
  - intros n (o' & Ho & Hm)%H3. exists o'. split; [|done]. unfold find_org in *. cbn.
    clear -Ho. induction (orgs r) as [|x l IH]; cbn in *; [done|]. by destruct (bool_decide _); [|apply IH].
Qed.

Lemma ok_update_org r o :
  find_first (λ n, bool_decide (nd_org_id n = org_id o) && negb (is_member o (nd_owner_email n))) (nodes r) = None →
  is_Some (find_org r (org_id o)) → registry_ok r →
  registry_ok (mk_RegistrySnapshot (update_first (λ x, bool_decide (org_id x = org_id o)) (λ _, o) (orgs r)) (nodes r)).
Proof.
  intros Hn Ho [H1 H2 H3]. split; cbn; [|done|].
  - rw update_first_keys //. intros y _ E. by apply bool_decide_eq_true_1 in E.
  - intros n Hin. destruct (H3 n Hin) as (o' & Ho' & Hm). unfold find_org in *. cbn.
    rw (update_first_find org_id o (orgs r)); [by destruct Ho; eauto|]. case_decide as E; [|by exists o'].
    exists o. split; [done|]. rw find_first_None in Hn. apply Hn in Hin. rw bool_decide_eq_true_2 // in Hin. cbn in Hin.
    by apply negb_false_iff in Hin.
Qed.

Lemma ok_insert_node r n o :
  find_org r (nd_org_id n) = Some o → is_member o (nd_owner_email n) = true →
  existsb (λ x, bool_decide (nd_id x = nd_id n)) (nodes r) = false → registry_ok r →
  registry_ok (mk_RegistrySnapshot (orgs r) (nodes r ++ [n])).
Proof.
  intros Ho Hm Hf%existsb_false_fmap [H1 H2 H3]. split; cbn; [done| |].
  - rw fmap_app. apply NoDup_app. split_and!; [done| |apply NoDup_singleton]. intros x Hx ->%list_elem_of_singleton. done.
  - intros n' [Hin|E%list_elem_of_singleton]%elem_of_app; [by apply H3|]. subst n'. by exists o.
Qed.

Lemma ok_mutate r here slot updated o :
  find_first here (nodes r) = Some slot → (∀ n, n ∈ nodes r → here n = true → nd_id n = nd_id updated) →
  find_org r (nd_org_id updated) = Some o → is_member o (nd_owner_email updated) = true → registry_ok r →
  registry_ok (mk_RegistrySnapshot (orgs r) (update_first here (λ _, updated) (nodes r))).
Proof.
  intros Hs Hid Ho Hm [H1 H2 H3]. split; cbn; [done|by rw update_first_keys|].
  intros n [Hin|(y & _ & _ & ->)]%elem_of_update_first; [by apply H3|by exists o].
Qed.

Lemma ok_remove r idx : registry_ok r → registry_ok (mk_RegistrySnapshot (orgs r) (delete idx (nodes r))).
Proof.
  intros [H1 H2 H3]. assert (Hsub : delete idx (nodes r) `sublist_of` nodes r) by apply sublist_delete. split; cbn; [done| |].
  - eapply sublist_NoDup; [exact H2|by apply fmap_sublist].
  - intros n Hn. apply H3. eapply elem_of_submseteq; [exact Hn|]. by apply sublist_submseteq.
Qed.

(** ** Every operation, whatever fails *)
Section durable.
Context `{!Codec RegistrySnapshot, !CodecLaws RegistrySnapshot}.
Context (dir : path) (name : string).

(** What the file says is what is in memory. *)
Definition agrees (s : JsonStore) : Prop :=
  match disk (js_world s) !! (dir ++ [name]) with
  | Some (File b) => from_slice b = Some (js_state s)
  | None => js_state s = empty_registry
  | Some _ => False
  end.

Record store_inv (s : JsonStore) : Prop := {
  si_path : js_path s = dir ++ [name];
  si_dir : dir_ok dir name (disk (js_world s));
  si_agrees : agrees s;
  si_ok : registry_ok (js_state s);
}.

(** An operation that keeps the invariant, and when it fails leaves the registry and its file as they were. *)
Definition all_or_nothing {A} (m : RegM A) : Prop := ∀ s, store_inv s →
  wp m (λ r s', store_inv s' ∧
    match r with
    | Ok _ => True
    | Err _ => js_state s' = js_state s ∧ disk (js_world s') !! (dir ++ [name]) = disk (js_world s) !! (dir ++ [name])
    end) s.

Lemma safe_commit uuid next s :
  tmp_name name uuid ≠ name → registry_ok next → store_inv s →
  wp (commit uuid next) (λ r s', store_inv s' ∧
    match r with
    | Ok _ => js_state s' = next
    | Err _ => js_state s' = js_state s ∧ disk (js_world s') !! (dir ++ [name]) = disk (js_world s) !! (dir ++ [name])
    end) s.
Proof.
  intros Hne Hok [Hp Hd Ha Hr]. unfold wp, commit. rw Hp.
  pose proof (wp_persist dir name uuid next (js_world s) Hd Hne) as Hw. unfold wp in Hw.
  destruct (persist (dir ++ [name]) uuid next (js_world s)) as [[[]|e] w'].
  - destruct Hw as (json & Hj & Hd' & Hf & _). split; [|done]. split; cbn; try done. unfold agrees. cbn. rw Hf.
    by apply from_slice_to_vec.
  - destruct Hw as [Hd' Hk]. assert (Hf : disk w' !! (dir ++ [name]) = disk (js_world s) !! (dir ++ [name])).
    { apply Hk. intros [_ E]%app_inj_tail. congruence. }
    split; [|done]. split; cbn; try done. unfold agrees in *. cbn. by rw Hf.
Qed.

Lemma safe_pure {A} (r : result ControlError A) : all_or_nothing (lift_result r).
Proof. intros s Hs. unfold wp, lift_result. by destruct r. Qed.

Lemma safe_commit_ret {A} uuid next (a : A) s :
  tmp_name name uuid ≠ name → registry_ok next → store_inv s →
  wp (_ ← commit uuid next; mret a) (λ r s', store_inv s' ∧
    match r with
    | Ok _ => True
    | Err _ => js_state s' = js_state s ∧ disk (js_world s') !! (dir ++ [name]) = disk (js_world s) !! (dir ++ [name])
    end) s.
Proof.
  intros Hne Hok Hs. wp_step. eapply wp_mono; [by apply safe_commit|]. intros [[]|e] s' [Hs' He]; [by wp_step|done].
Qed.

Context (fresh_names : ∀ uuid, tmp_name name uuid ≠ name).

Lemma safe_insert_org uuid o : all_or_nothing (insert_org uuid o).
Proof.
  intros s Hs. unfold insert_org. wp_step. unfold snapshot. wp_step. cbn beta.
  destruct (existsb _ _) eqn:E; [by wp_step|]. apply safe_commit_ret; [done| |done]. apply ok_insert_org; [done|apply Hs].
Qed.

Lemma safe_update_org uuid o : all_or_nothing (update_org uuid o).
Proof.
  intros s Hs. unfold update_org. wp_step. unfold snapshot. wp_step. cbn beta.
  destruct (find_first _ (nodes _)) eqn:E; [by wp_step|]. destruct (find_org _ _) eqn:Eo; [|by wp_step].
  apply safe_commit_ret; [done| |done]. apply ok_update_org; [done|by rw Eo|apply Hs].
Qed.

Lemma safe_insert_node uuid n : all_or_nothing (insert_node uuid n).
Proof.
  intros s Hs. unfold insert_node. wp_step. unfold snapshot. wp_step. cbn beta. wp_step. wp_step.
  destruct (find_org _ _) as [o|] eqn:Eo; [|done]. cbn [ok_or]. destruct (is_member _ _) eqn:Em; cbn [negb]; [|by wp_step].
  destruct (existsb _ _) eqn:E; [by wp_step|]. apply safe_commit_ret; [done| |done]. eapply ok_insert_node; [done..|apply Hs].
Qed.

Lemma safe_try_mutate uuid org node_id f :
  (∀ n n', f n = Ok n' → nd_id n' = nd_id n) → all_or_nothing (try_mutate_node uuid org node_id f).
Proof.
  intros Hf s Hs. unfold try_mutate_node. wp_step. unfold snapshot. wp_step. cbn beta. wp_step. wp_step.
  destruct (find_first _ _) as [slot|] eqn:Es; [|done]. cbn [ok_or]. wp_step. wp_step.
  destruct (f slot) as [updated|e] eqn:Ef; [|done]. wp_step. wp_step. destruct (find_org _ _) as [o|] eqn:Eo; [|done]. cbn [ok_or].
  destruct (is_member _ _) eqn:Em; cbn [negb]; [|by wp_step]. apply safe_commit_ret; [done| |done].
  eapply ok_mutate; [done| |done|done|apply Hs]. intros n Hn Hh. apply find_first_Some in Es as [_ Es]. bool_to_prop.
  rw (Hf _ _ Ef). congruence.
Qed.

Lemma safe_remove_node uuid org node_id : all_or_nothing (remove_node uuid org node_id).
Proof.
  intros s Hs. unfold remove_node. wp_step. unfold snapshot. wp_step. cbn beta. wp_step. wp_step.
  destruct (position _ _) as [i|]; [|done]. cbn [ok_or]. wp_step. wp_step. destruct (nodes _ !! i); [|done]. cbn [ok_or].
  apply safe_commit_ret; [done| |done]. apply ok_remove, Hs.
Qed.

(** After a restart without faults the registry is the one that was in memory. *)
Lemma reopen s : store_inv s →
  (open (dir ++ [name]) (mk_World (disk (js_world s)) [])).1 =
    Ok (mk_JsonStore (dir ++ [name]) (mk_World (disk (js_world s)) []) (js_state s)).
Proof.
  intros [Hp Hd Ha Hr]. set (d := disk (js_world s)) in *.
  assert (Hpl : plain d (dir ++ [name])) by (apply dir_entry_plain with name; [done|apply Hd]).
  unfold open, agrees in *. fold d in Ha. destruct (d !! (dir ++ [name])) as [[b| |t]|] eqn:Ed; try done.
  - assert (Hm : read_at d (dir ++ [name]) = Ok b) by (apply read_file; [apply Hd|done|done]).
    assert (Hmeta : is_ok (metadata_at d (dir ++ [name])) = true). { unfold read_at in Hm. by destruct (metadata_at d (dir ++ [name])). }
    erewrite bind_ok; [|apply try_eq; unfold store_err, metadata; by rw query_fine].
    destruct (metadata_at d (dir ++ [name])) as [n|]; [|done]. cbn [is_ok map_err].
    erewrite bind_ok; [done|]. erewrite bind_ok; [|unfold store_err, read; by rw query_fine Hm]. cbn [map_err]. by rw Ha.
  - assert (Hmeta : is_ok (metadata_at d (dir ++ [name])) = false).
    { unfold metadata_at. destruct (canonicalize_at d (dir ++ [name])) as [q|] eqn:E; [|done]. cbn.
      apply canonicalize_plain in E as [-> [n Hn]]; [|done]. rw node_at_snoc Ed in Hn. done. }
    erewrite bind_ok; [|apply try_eq; unfold store_err, metadata; by rw query_fine].
    destruct (metadata_at d (dir ++ [name])) as [n|]; [done|]. cbn. by rw Ha.
Qed.
End durable.
