(* ===== verification/Cloudflare.v ===== *)
(** * The Cloudflare side of the control server

    [synergos-control/src/cloudflare], [reconcile.rs] and [api/reconcile_api.rs]: the client of
    the Cloudflare API, the comparison of its answers with the registry and the removal of what
    is not registered.

    Cloudflare itself is a parameter: what it answers to a request may depend on all requests
    before it.  The requests that were sent are part of the state.  The texts of error messages
    are abbreviated. *)

From Stdlib Require Import Strings.Ascii.
From stdpp Require Import pretty.
From S2P Require Import Prelude Crypto Fs Manifest Glob Invite Registry.

(** ** Addresses *)

(** [str::parse::<Ipv4Addr>]: four decimal numbers of at most three digits, without leading zeros. *)
Definition digit_of (c : ascii) : option N :=
  let n := N_of_ascii c in if (48 <=? n)%N && (n <=? 57)%N then Some (n - 48)%N else None.
Fixpoint parse_digits (s : string) (acc : N) : option N :=
  match s with
  | EmptyString => Some acc
  | String c s' => d ← digit_of c; parse_digits s' (10 * acc + d)%N
  end.
Definition parse_octet (s : string) : option N :=
  if (String.length s =? 0)%nat || (3 <? String.length s)%nat then None
  else if (1 <? String.length s)%nat && starts_with_char "0" s then None
  else n ← parse_digits s 0; if (n <=? 255)%N then Some n else None.
Definition parse_ipv4 (s : string) : option (list N) :=
  match split_on "." s with
  | [a; b; c; d] => a ← parse_octet a; b ← parse_octet b; c ← parse_octet c; d ← parse_octet d; Some [a; b; c; d]
  | _ => None
  end.
Definition ipv4_to_string (l : list N) : string :=
  match l with
  | [a; b; c; d] => pretty a +:+ "." +:+ pretty b +:+ "." +:+ pretty c +:+ "." +:+ pretty d
  | _ => ""
  end.

Definition normalize_mesh_ip (value : string) : result ControlError string :=
  match parse_ipv4 value with
  | Some ([a; b; _; _] as ip) =>
      if negb (a =? 100)%N || negb ((96 <=? b)%N && (b <=? 111)%N) then
        Err (CInvalidRequest "mesh_ip must be in Cloudflare Mesh range 100.96.0.0/12")
      else Ok (ipv4_to_string ip)
  | _ => Err (CInvalidRequest "mesh_ip must be an IPv4 address")
  end.

(** ** The client *)
Inductive Method := GET | POST | DELETE.
Record HttpRequest := mk_HttpRequest {
  rq_method : Method;
  rq_url : string;
  rq_bearer : string;
  rq_query : list (string * string);
  (** The ["name"] of a JSON body, which is all that is ever sent. *)
  rq_name : option string;
}.
Record HttpResponse := mk_HttpResponse { rs_status : N; rs_body : bytes }.

(** The answer to a request, after the requests before it; [None] if there is none. *)
Class Upstream := upstream : list HttpRequest → HttpRequest → option HttpResponse.

Record ApiError := mk_ApiError { ae_code : Z; ae_message : string }.
Record Envelope (T : Type) := mk_Envelope { en_success : bool; en_errors : list ApiError; en_result : option T }.
Arguments mk_Envelope {T}.
Arguments en_success {T}.
Arguments en_errors {T}.
Arguments en_result {T}.

Record MeshConnector := mk_MeshConnector {
  mc_id : string;
  mc_name : string;
  mc_status : option string;
  mc_created_at : option string;
  mc_deleted_at : option string;
}.
Record DeviceRegistration := mk_DeviceRegistration {
  dr_id : string;
  dr_name : option string;
  dr_user_email : option string;
  dr_virtual_ipv4 : option string;
  dr_last_seen_at : option string;
  dr_revoked_at : option string;
}.
Record TokenStatus := mk_TokenStatus { ts_id : option string; ts_status : string; ts_expires_on : option string }.
Record RawUser := mk_RawUser { ru_email : option string }.
Record RawRegistration := mk_RawRegistration {
  rr_id : string;
  rr_name : option string;
  rr_user : option RawUser;
  rr_virtual_ipv4 : option string;
  rr_last_seen_at : option string;
  rr_revoked_at : option string;
}.

Record CloudflareClient := mk_CloudflareClient { cf_api_base : string; cf_account_id : string; cf_api_token : string }.

Definition is_ascii_alphanumeric (b : byte) : bool :=
  let x := Byte.to_N b in ((48 <=? x) && (x <=? 57) || (65 <=? x) && (x <=? 90) || (97 <=? x) && (x <=? 122))%N.

Definition validate_path_segment (label value : string) : result ControlError () :=
  ensure (negb (bool_decide (value = "")) &&
          forallb (λ b, is_ascii_alphanumeric b || byte_eqb b x2d || byte_eqb b x5f) (as_bytes value))
    (CConfig (label +:+ " contains characters that are unsafe in an API path")).

(** The host of an IPv6 URL is in brackets, which [parse::<IpAddr>] refuses: only IPv4 loopback addresses pass. *)
Definition loopback_host (h : string) : bool :=
  eq_ignore_ascii_case h "localhost" || match parse_ipv4 h with Some (127%N :: _) => true | _ => false end.

Definition validate_api_base (parse : string → option Url) (api_base : string) : result ControlError () :=
  url ← ok_or (parse api_base) (CConfig "invalid cloudflare.api_base");
  if negb (bool_decide (username url = "")) || bool_decide (is_Some (password url)) then
    Err (CConfig "cloudflare.api_base must not contain user credentials")
  else if bool_decide (is_Some (query url)) || bool_decide (is_Some (fragment url)) then
    Err (CConfig "cloudflare.api_base must not contain a query or fragment")
  else if bool_decide (scheme url = "https") then Ok ()
  else if bool_decide (scheme url = "http") && match host_str url with Some h => loopback_host h | None => false end then Ok ()
  else Err (CConfig "cloudflare.api_base must use HTTPS").

Definition client_new (parse : string → option Url) (api_base account_id api_token : string) : result ControlError CloudflareClient :=
  _ ← validate_api_base parse api_base;
  _ ← validate_path_segment "account_id" account_id;
  Ok (mk_CloudflareClient (trim_end_slash api_base) account_id api_token).

Definition url_of (c : CloudflareClient) (p : string) : string := cf_api_base c +:+ "/accounts/" +:+ cf_account_id c +:+ "/" +:+ p.

(** The server's state: the registry and the requests that were sent. *)
Record Ctl := mk_Ctl { ct_store : JsonStore; ct_sent : list HttpRequest }.
Abbreviation CtlM A := (ST Ctl ControlError A).

Definition in_store {A} (m : RegM A) : CtlM A := λ s, let '(r, st) := m (ct_store s) in (r, mk_Ctl st (ct_sent s)).

Section client.
Context `{Upstream}.

Definition send_request (rq : HttpRequest) : CtlM (option HttpResponse) := λ s,
  (Ok (upstream (ct_sent s) rq), mk_Ctl (ct_store s) (ct_sent s ++ [rq])).

Definition open_envelope {T} `{!Codec (Envelope T)} (p : string) (rs : HttpResponse) : result ControlError (option T) :=
  env ← ok_or (from_slice (rs_body rs)) (CCloudflare (p +:+ ": invalid response"));
  if negb (en_success env) then Err (CCloudflare (p +:+ " failed")) else Ok (en_result env).

Definition call_optional {T} `{!Codec (Envelope T)} (c : CloudflareClient) (m : Method) (p : string) (q : list (string * string))
    (body : option string) (not_found_is_success : bool) : CtlM (option T) :=
  resp ← send_request (mk_HttpRequest m (url_of c p) (cf_api_token c) q body);
  match resp with
  | None => throw (CCloudflare (p +:+ ": no answer"))
  | Some rs => if not_found_is_success && (rs_status rs =? 404)%N then mret None else lift_result (open_envelope p rs)
  end.

Definition call {T} `{!Codec (Envelope T)} (c : CloudflareClient) (m : Method) (p : string) (body : option string) : CtlM T :=
  r ← call_optional c m p [] body false; lift_result (ok_or r (CCloudflare (p +:+ ": success but empty result"))).

Definition verify_token `{!Codec (Envelope TokenStatus)} (c : CloudflareClient) : CtlM TokenStatus :=
  let p := "user/tokens/verify" in
  resp ← send_request (mk_HttpRequest GET (cf_api_base c +:+ "/" +:+ p) (cf_api_token c) [] None);
  match resp with
  | None => throw (CCloudflare (p +:+ ": no answer"))
  | Some rs => r ← lift_result (open_envelope p rs); lift_result (ok_or r (CCloudflare (p +:+ ": success but empty result")))
  end.

Definition create_mesh_connector `{!Codec (Envelope MeshConnector)} (c : CloudflareClient) (name : string) : CtlM MeshConnector :=
  call c POST "warp_connector" (Some name).

Definition LIST_CONNECTORS : string := "warp_connector?is_deleted=false&per_page=1000".
Definition list_mesh_connectors `{!Codec (Envelope (list MeshConnector))} (c : CloudflareClient) : CtlM (list MeshConnector) :=
  call c GET LIST_CONNECTORS None.

Definition mesh_connector_token `{!Codec (Envelope string)} (c : CloudflareClient) (connector_id : string) : CtlM string :=
  _ ← lift_result (validate_path_segment "connector_id" connector_id);
  call c GET ("warp_connector/" +:+ connector_id +:+ "/token") None.

Definition connector_path (connector_id : string) : string := "warp_connector/" +:+ connector_id.
Definition delete_mesh_connector `{!Codec (Envelope MeshConnector)} (c : CloudflareClient) (connector_id : string) : CtlM () :=
  _ ← lift_result (validate_path_segment "connector_id" connector_id);
  _ ← (call_optional c DELETE (connector_path connector_id) [] None true : CtlM (option MeshConnector));
  mret ().

Definition registration_of (r : RawRegistration) : DeviceRegistration :=
  mk_DeviceRegistration (rr_id r) (rr_name r) (u ← rr_user r; ru_email u) (rr_virtual_ipv4 r) (rr_last_seen_at r) (rr_revoked_at r).
Definition LIST_REGISTRATIONS : string := "devices/registrations?per_page=1000".
Definition list_device_registrations `{!Codec (Envelope (list RawRegistration))} (c : CloudflareClient) : CtlM (list DeviceRegistration) :=
  raw ← (call c GET LIST_REGISTRATIONS None : CtlM (list RawRegistration)); mret (registration_of <$> raw).

Definition REVOKE_PATH : string := "devices/registrations/revoke".
Definition revoke_device_registrations `{!Codec (Envelope ())} (c : CloudflareClient) (ids : list string) : CtlM () :=
  if bool_decide (ids = []) then mret ()
  else _ ← (call_optional c POST REVOKE_PATH ((λ id, ("id", id)) <$> ids) None false : CtlM (option ())); mret ().
End client.

(** ** Reconciliation *)
Record NodeRef := mk_NodeRef { nr_node_id : string; nr_org_id : string; nr_display_name : string; nr_owner_email : string }.
Definition node_ref (n : Node) : NodeRef := mk_NodeRef (nd_id n) (nd_org_id n) (nd_display_name n) (nd_owner_email n).
Record ConnectorMatch := mk_ConnectorMatch { cm_connector : MeshConnector; cm_node : NodeRef }.
Record MeshIpMismatch := mk_MeshIpMismatch { mm_node : NodeRef; mm_reported : option string; mm_expected : option string }.
Record DeviceMatch := mk_DeviceMatch { dm_registration : DeviceRegistration; dm_org_ids : list string }.
Record ReconcileReport := mk_ReconcileReport {
  generated_at_ms : N;
  known_connectors : list ConnectorMatch;
  dark_connectors : list MeshConnector;
  missing_connectors : list NodeRef;
  known_devices : list DeviceMatch;
  dark_devices : list DeviceRegistration;
  mesh_ip_mismatches : list MeshIpMismatch;
  actions : list string;
}.

Definition owner_of (nodes : list Node) (c : MeshConnector) : option Node :=
  find_first (λ n, bool_decide (cf_connector_id n = Some (mc_id c))) nodes.
Definition mismatch_of (n : Node) : list MeshIpMismatch :=
  match reported_mesh_ip n, mesh_ip n with
  | Some r, Some e => if bool_decide (r = e) then [] else [mk_MeshIpMismatch (node_ref n) (Some r) (Some e)]
  | _, _ => []
  end.

(** The loop over the connectors, with the three lists it fills. *)
Fixpoint match_connectors (nodes : list Node) (l : list MeshConnector) (known : list ConnectorMatch) (dark : list MeshConnector)
    (mismatches : list MeshIpMismatch) : list ConnectorMatch * list MeshConnector * list MeshIpMismatch :=
  match l with
  | [] => (known, dark, mismatches)
  | c :: l =>
      match owner_of nodes c with
      | Some n => match_connectors nodes l (known ++ [mk_ConnectorMatch c (node_ref n)]) dark (mismatches ++ mismatch_of n)
      | None => match_connectors nodes l known (dark ++ [c]) mismatches
      end
  end.

Definition is_missing (connectors : list MeshConnector) (n : Node) : bool :=
  bool_decide (nd_kind n = MeshNode) &&
  match cf_connector_id n with Some id => negb (existsb (λ c, bool_decide (mc_id c = id)) connectors) | None => false end.

Definition owner_org_ids (orgs : list Org) (r : DeviceRegistration) : list string :=
  match dr_user_email r with
  | Some email => org_id <$> filter (λ o, is_member o email = true) orgs
  | None => []
  end.

Fixpoint match_devices (orgs : list Org) (l : list DeviceRegistration) (known : list DeviceMatch) (dark : list DeviceRegistration) :
    list DeviceMatch * list DeviceRegistration :=
  match l with
  | [] => (known, dark)
  | r :: l =>
      if bool_decide (is_Some (dr_revoked_at r)) then match_devices orgs l known dark
      else if bool_decide (owner_org_ids orgs r = []) then match_devices orgs l known (dark ++ [r])
      else match_devices orgs l (known ++ [mk_DeviceMatch r (owner_org_ids orgs r)]) dark
  end.

Definition classify (orgs : list Org) (nodes : list Node) (connectors : list MeshConnector) (registrations : list DeviceRegistration)
    (now_ms : N) : ReconcileReport :=
  let '(known, dark, mismatches) := match_connectors nodes connectors [] [] [] in
  let '(known_d, dark_d) := match_devices orgs registrations [] [] in
  mk_ReconcileReport now_ms known dark (node_ref <$> filter (λ n, is_missing connectors n = true) nodes) known_d dark_d mismatches [].

Definition add_action (a : string) (r : ReconcileReport) : ReconcileReport :=
  mk_ReconcileReport (generated_at_ms r) (known_connectors r) (dark_connectors r) (missing_connectors r) (known_devices r)
    (dark_devices r) (mesh_ip_mismatches r) (actions r ++ [a]).

Section reconcile.
Context `{Upstream, !Codec (Envelope MeshConnector), !Codec (Envelope (list MeshConnector)), !Codec (Envelope (list RawRegistration)),
  !Codec (Envelope ())}.

Definition revoke_devices (c : CloudflareClient) (report : ReconcileReport) : CtlM ReconcileReport :=
  let ids := dr_id <$> dark_devices report in
  if bool_decide (ids = []) then mret report
  else
    r ← try_ (revoke_device_registrations c ids);
    mret (add_action ((if is_ok r then "revoked " else "FAILED to revoke ") +:+ pretty (length ids) +:+ " dark device(s)") report).

Fixpoint delete_dark (c : CloudflareClient) (l : list MeshConnector) (report : ReconcileReport) : CtlM ReconcileReport :=
  match l with
  | [] => mret report
  | k :: l =>
      r ← try_ (delete_mesh_connector c (mc_id k));
      delete_dark c l (add_action ((if is_ok r then "deleted dark connector " else "FAILED to delete dark connector ") +:+ mc_id k) report)
  end.

Definition revoke_dark_participants (c : CloudflareClient) (report : ReconcileReport) : CtlM ReconcileReport :=
  report ← revoke_devices c report; delete_dark c (dark_connectors report) report.

Definition reconcile_with (c : CloudflareClient) (now : N) (revoke_dark : bool) : CtlM ReconcileReport :=
  snap ← in_store snapshot;
  connectors ← list_mesh_connectors c;
  registrations ← list_device_registrations c;
  let report := classify (orgs snap) (nodes snap) connectors registrations now in
  if revoke_dark then revoke_dark_participants c report else mret report.
End reconcile.

(** ** Addresses, printed and parsed *)
Definition all_digits : list ascii := ["0"; "1"; "2"; "3"; "4"; "5"; "6"; "7"; "8"; "9"]%char.
Definition longer (l : list string) : list string := s ← l; (λ c, String c s) <$> all_digits.
Definition short_numbers : list string := longer [""] ++ longer (longer [""]) ++ longer (longer (longer [""])).

Lemma elem_of_longer c s l : c ∈ all_digits → s ∈ l → String c s ∈ longer l.
Proof. intros Hc Hs. apply list_elem_of_bind. exists s. split; [|done]. apply list_elem_of_fmap. by exists c. Qed.

Lemma digit_of_all c d : digit_of c = Some d → c ∈ all_digits.
Proof.
  unfold digit_of. destruct (_ && _) eqn:E; [|done]. intros _. apply andb_true_iff in E as [E1%N.leb_le E2%N.leb_le].
  assert (Hc := ascii_N_embedding c). set (n := N_of_ascii c) in *. clearbody n. subst c.
  assert (n = 48 ∨ n = 49 ∨ n = 50 ∨ n = 51 ∨ n = 52 ∨ n = 53 ∨ n = 54 ∨ n = 55 ∨ n = 56 ∨ n = 57)%N as Hn by lia.
  destruct_or! Hn; subst n; apply (bool_decide_eq_true_1 _); reflexivity.
Qed.

Lemma parse_octet_print s n : parse_octet s = Some n → pretty n = s.
Proof.
  assert (Hall : Forall (λ s, match parse_octet s with Some n => bool_decide (pretty n = s) | None => true end = true) short_numbers).
  { apply (bool_decide_eq_true_1 _). vm_compute. reflexivity. }
  intros Hp. rw Forall_forall in Hall. specialize (Hall s). rw Hp in Hall. apply (bool_decide_eq_true_1 _), Hall. clear Hall.
  unfold parse_octet in Hp. destruct (_ || _) eqn:El; [done|]. destruct (_ && _); [done|]. bool_to_prop.
  assert (Hd : ∀ s acc n, parse_digits s acc = Some n → ∀ c s', s = String c s' → c ∈ all_digits ∧ ∃ acc, is_Some (parse_digits s' acc)).
  { intros s0 acc m Hs c s' ->. cbn in Hs. destruct (digit_of c) eqn:Ec; [|done]. cbn in Hs. split; [by eapply digit_of_all|by eexists; eexists]. }
  apply bind_Some in Hp as (m & Hm & _). unfold short_numbers.
  assert (He : "" ∈ [""]) by by left.
  destruct s as [|c1 s]; [done|]. destruct (Hd _ _ _ Hm _ _ eq_refl) as (Hc1 & a1 & m1 & Hm1).
  destruct s as [|c2 s]; [apply elem_of_app; left; by apply elem_of_longer|]. destruct (Hd _ _ _ Hm1 _ _ eq_refl) as (Hc2 & a2 & m2 & Hm2).
  destruct s as [|c3 s]; [apply elem_of_app; right; apply elem_of_app; left; by repeat apply elem_of_longer|].
  destruct (Hd _ _ _ Hm2 _ _ eq_refl) as (Hc3 & _).
  destruct s as [|c4 s]; [apply elem_of_app; right; apply elem_of_app; right; by repeat apply elem_of_longer|].
  cbn [String.length] in *. lia.
Qed.

Lemma split_on_cons_sep c s seg rest : split_on c s = seg :: rest → rest ≠ [] → ∃ s', s = seg +:+ String c s' ∧ split_on c s' = rest.
Proof.
  revert seg. induction s as [|x s IH]; intros seg; cbn [split_on]; [by intros [= <- <-]|]. case_bool_decide as E.
  - intros [= <- <-] _. exists s. by subst x.
  - destruct (split_on c s) as [|y ys] eqn:Es; [by intros [= <- <-]|]. intros [= <- <-] Hr.
    destruct (IH y eq_refl Hr) as (s' & -> & Hs'). by exists s'.
Qed.

Lemma split_on_last c s seg : split_on c s = [seg] → s = seg.
Proof.
  revert seg. induction s as [|x s IH]; intros seg; cbn [split_on]; [by intros [= <-]|]. case_bool_decide as E.
  - intros [= <- H]. by destruct (split_on_nonempty c s).
  - destruct (split_on c s) as [|y ys] eqn:Es; [by destruct (split_on_nonempty c s)|]. intros [= <- ->]. by rw (IH y).
Qed.

Lemma parse_ipv4_print s ip : parse_ipv4 s = Some ip → ipv4_to_string ip = s.
Proof.
  unfold parse_ipv4. destruct (split_on "." s) as [|a [|b [|c [|d [|]]]]] eqn:E; try done.
  intros (na & Ha & (nb & Hb & (nc & Hc & (nd & Hd & [= <-])%bind_Some)%bind_Some)%bind_Some)%bind_Some.
  apply split_on_cons_sep in E as (s1 & -> & E); [|done]. apply split_on_cons_sep in E as (s2 & -> & E); [|done].
  apply split_on_cons_sep in E as (s3 & -> & E); [|done]. apply split_on_last in E as ->. cbn [ipv4_to_string].
  by rw (parse_octet_print _ _ Ha) (parse_octet_print _ _ Hb) (parse_octet_print _ _ Hc) (parse_octet_print _ _ Hd).
Qed.

(** The addresses accepted are those of 100.96.0.0/12, and they are kept as they were written. *)
Lemma normalize_mesh_ip_exact value ip :
  normalize_mesh_ip value = Ok ip ↔
  ip = value ∧ ∃ b c d, parse_ipv4 value = Some [100; b; c; d]%N ∧ (96 ≤ b ≤ 111)%N.
Proof.
  unfold normalize_mesh_ip. destruct (parse_ipv4 value) as [l|] eqn:E; [|naive_solver].
  assert (Hl := parse_ipv4_print _ _ E). destruct l as [|a [|b [|c [|d [|]]]]]; try naive_solver.
  destruct (negb (a =? 100)%N || negb ((96 <=? b)%N && (b <=? 111)%N)) eqn:Hc.
  - split; [done|]. intros (-> & b' & c' & d' & [= -> -> -> ->] & Hb). cbn in Hc. apply negb_true_iff, andb_false_iff in Hc as [Hc|Hc]; bool_to_prop; lia.
  - bool_to_prop. subst a. rw Hl. split; [intros [= <-]; naive_solver|naive_solver].
Qed.

(** ** What the client sends *)
Section sent.
Context `{Upstream}.

Lemma call_optional_sent {T} `{!Codec (Envelope T)} c m p q b nf s :
  ((call_optional c m p q b nf : CtlM (option T)) s).2 =
  mk_Ctl (ct_store s) (ct_sent s ++ [mk_HttpRequest m (url_of c p) (cf_api_token c) q b]).
Proof.
  unfold call_optional, mbind, ST_bind, send_request. destruct (upstream _ _) as [rs|]; [|done]. by destruct (nf && _).
Qed.

(** The answer to a request, opened. *)
Definition answer (T : Type) `{!Codec (Envelope T)} (before : list HttpRequest) (rq : HttpRequest) (a : T) : Prop :=
  ∃ rs env, upstream before rq = Some rs ∧ from_slice (rs_body rs) = Some env ∧ en_success env = true ∧ en_result env = Some a.

Lemma call_inv {T} `{!Codec (Envelope T)} c m p b s r s' :
  (call c m p b : CtlM T) s = (r, s') →
  let rq := mk_HttpRequest m (url_of c p) (cf_api_token c) [] b in
  s' = mk_Ctl (ct_store s) (ct_sent s ++ [rq]) ∧ ∀ a, r = Ok a → answer T (ct_sent s) rq a.
Proof.
  unfold call, call_optional, mbind, ST_bind, send_request. cbn [andb]. set (rq := mk_HttpRequest _ _ _ _ _).
  destruct (upstream (ct_sent s) rq) as [rs|] eqn:E; [|by intros [= <- <-]]. unfold lift_result, open_envelope.
  destruct (from_slice (rs_body rs)) as [env|] eqn:Ef; cbn; [|by intros [= <- <-]].
  destruct (en_success env) eqn:Es; cbn; [|by intros [= <- <-]]. destruct (en_result env) as [a|] eqn:Er; cbn; intros [= <- <-]; [|done].
  split; [done|]. intros a' [= <-]. by exists rs, env.
Qed.

Lemma call_answer {T} `{!Codec (Envelope T)} c m p b s a :
  let rq := mk_HttpRequest m (url_of c p) (cf_api_token c) [] b in
  answer T (ct_sent s) rq a → ((call c m p b : CtlM T) s).1 = Ok a.
Proof.
  intros rq (rs & env & E & Ef & Es & Er). unfold call, call_optional, mbind, ST_bind, send_request. cbn [andb]. fold rq. rw E.
  unfold lift_result, open_envelope. by rw Ef; cbn; rw Es Er.
Qed.

Lemma delete_sent `{!Codec (Envelope MeshConnector)} c id s :
  let rq := mk_HttpRequest DELETE (url_of c (connector_path id)) (cf_api_token c) [] None in
  (delete_mesh_connector c id s).2 = mk_Ctl (ct_store s) (ct_sent s ++ if is_ok (validate_path_segment "connector_id" id) then [rq] else []).
Proof.
  intros rq. unfold delete_mesh_connector. unfold mbind at 1, ST_bind. unfold lift_result at 1.
  destruct (validate_path_segment _ _) as [[]|e]; cbn [is_ok]; [|by destruct s; cbn; rw app_nil_r].
  unfold mbind at 1, ST_bind. pose proof (call_optional_sent (T := MeshConnector) c DELETE (connector_path id) [] None true s) as E.
  destruct (call_optional _ _ _ _ _ _ s) as [[o|e] s']; cbn in E; by rw E.
Qed.

Lemma revoke_sent `{!Codec (Envelope ())} c ids s : ids ≠ [] →
  (revoke_device_registrations c ids s).2 = mk_Ctl (ct_store s)
    (ct_sent s ++ [mk_HttpRequest POST (url_of c REVOKE_PATH) (cf_api_token c) ((λ id, ("id", id)) <$> ids) None]).
Proof.
  intros Hne. unfold revoke_device_registrations. rw bool_decide_eq_false_2 //. unfold mbind at 1, ST_bind.
  pose proof (call_optional_sent (T := ()) c POST REVOKE_PATH ((λ id, ("id", id)) <$> ids) None false s) as E.
  destruct (call_optional _ _ _ _ _ _ s) as [[o|e] s']; cbn in E; by rw E.
Qed.
End sent.

(** ** The report *)
Definition registered (nodes : list Node) (id : string) : Prop := ∃ n, n ∈ nodes ∧ cf_connector_id n = Some id.
Definition unowned (orgs : list Org) (r : DeviceRegistration) : Prop :=
  dr_revoked_at r = None ∧ ∀ email o, dr_user_email r = Some email → o ∈ orgs → is_member o email = false.

Lemma owner_of_Some nodes c n : owner_of nodes c = Some n → n ∈ nodes ∧ cf_connector_id n = Some (mc_id c).
Proof. intros [? E]%find_first_Some. by apply bool_decide_eq_true_1 in E. Qed.

Lemma owner_of_None nodes c : owner_of nodes c = None ↔ ¬ registered nodes (mc_id c).
Proof.
  unfold owner_of. rw find_first_None. split.
  - intros Hn (n & Hin & E). specialize (Hn n Hin). by rw bool_decide_eq_true_2 in Hn.
  - intros Hn n Hin. apply bool_decide_eq_false_2. intros E. apply Hn. by exists n.
Qed.

Lemma match_connectors_spec nodes l known dark mm :
  let '(known', dark', mm') := match_connectors nodes l known dark mm in
  cm_connector <$> known' = (cm_connector <$> known) ++ filter (λ c, owner_of nodes c ≠ None) l ∧
  dark' = dark ++ filter (λ c, owner_of nodes c = None) l ∧
  (∀ m, m ∈ known' → m ∈ known ∨ ∃ n, n ∈ nodes ∧ cm_node m = node_ref n ∧ cf_connector_id n = Some (mc_id (cm_connector m))).
Proof.
  revert known dark mm. induction l as [|c l IH]; intros known dark mm; cbn [match_connectors].
  { rw !app_nil_r. naive_solver. }
  rw !filter_cons. destruct (owner_of nodes c) as [n|] eqn:E.
  - specialize (IH (known ++ [mk_ConnectorMatch c (node_ref n)]) dark (mm ++ mismatch_of n)).
    destruct (match_connectors _ _ _ _ _) as [[known' dark'] mm']. destruct IH as (H1 & H2 & H3). rw H1 fmap_app -app_assoc. cbn.
    split_and!; [done|done|]. intros m [[?|Hm%list_elem_of_singleton]%elem_of_app|?]%H3; [by left| |by right].
    right. exists n. subst m. apply owner_of_Some in E as [? ?]. done.
  - specialize (IH known (dark ++ [c]) mm). destruct (match_connectors _ _ _ _ _) as [[known' dark'] mm'].
    destruct IH as (H1 & H2 & H3). rw H1 H2 -app_assoc. done.
Qed.

Lemma owner_org_ids_nil orgs r : owner_org_ids orgs r = [] ↔ ∀ email o, dr_user_email r = Some email → o ∈ orgs → is_member o email = false.
Proof.
  unfold owner_org_ids. destruct (dr_user_email r) as [email|]; [|naive_solver]. split.
  - intros Hf%fmap_nil_inv e o [= <-] Ho. destruct (is_member o email) eqn:E; [|done]. exfalso. apply (elem_of_nil (A := Org) o). rw -Hf.
    by apply list_elem_of_filter.
  - intros Hf. rw (elem_of_nil_inv (filter _ orgs)); [|done]. intros o [Hm Ho]%list_elem_of_filter. by rw (Hf email o) in Hm.
Qed.

Lemma match_devices_spec orgs l known dark :
  let '(known', dark') := match_devices orgs l known dark in
  dm_registration <$> known' = (dm_registration <$> known) ++ filter (λ r, dr_revoked_at r = None ∧ owner_org_ids orgs r ≠ []) l ∧
  dark' = dark ++ filter (λ r, dr_revoked_at r = None ∧ owner_org_ids orgs r = []) l ∧
  (∀ m, m ∈ known' → m ∈ known ∨ dm_org_ids m = owner_org_ids orgs (dm_registration m)).
Proof.
  revert known dark. induction l as [|r l IH]; intros known dark; cbn [match_devices].
  { rw !app_nil_r. naive_solver. }
  rw !filter_cons. destruct (dr_revoked_at r) as [t|] eqn:Er.
  { rw bool_decide_eq_true_2; [by eexists|]. do 2 case_decide; try (by destruct_and?). apply IH. }
  rw bool_decide_eq_false_2; [by intros [? ?]|]. case_bool_decide as Eo.
  - rw (decide_False (P := _ ∧ _ ≠ [])); [naive_solver|]. rw decide_True //. specialize (IH known (dark ++ [r])).
    destruct (match_devices _ _ _ _) as [known' dark']. destruct IH as (H1 & H2 & H3). rw H1 H2 -app_assoc. done.
  - rw (decide_True (P := _ ∧ _ ≠ [])) // (decide_False (P := _ ∧ _ = [])); [naive_solver|].
    specialize (IH (known ++ [mk_DeviceMatch r (owner_org_ids orgs r)]) dark). destruct (match_devices _ _ _ _) as [known' dark'].
    destruct IH as (H1 & H2 & H3). rw H1 fmap_app -app_assoc. split_and!; [done|done|].
    intros m [[?|Hm%list_elem_of_singleton]%elem_of_app|?]%H3; [by left|right; by subst m|by right].
Qed.

(** The report is exact: every connector is either that of a registered node or dark, every registration that was not revoked
    is either that of a member or dark, the nodes called missing are the mesh nodes whose connector is not listed, and nothing
    is listed twice or out of order. *)
Theorem classify_exact os ns cs rs now :
  let r := classify os ns cs rs now in
  cm_connector <$> known_connectors r = filter (λ c, owner_of ns c ≠ None) cs ∧
  dark_connectors r = filter (λ c, owner_of ns c = None) cs ∧
  (∀ c, c ∈ dark_connectors r ↔ c ∈ cs ∧ ¬ registered ns (mc_id c)) ∧
  (∀ m, m ∈ known_connectors r → ∃ n, n ∈ ns ∧ cm_node m = node_ref n ∧ cf_connector_id n = Some (mc_id (cm_connector m))) ∧
  (∀ d, d ∈ dark_devices r ↔ d ∈ rs ∧ unowned os d) ∧
  (∀ d, d ∈ rs → dr_revoked_at d = None → d ∈ dark_devices r ∨ ∃ m, m ∈ known_devices r ∧ dm_registration m = d) ∧
  (∀ n, n ∈ missing_connectors r ↔ ∃ nd, nd ∈ ns ∧ n = node_ref nd ∧ nd_kind nd = MeshNode ∧
     ∃ id, cf_connector_id nd = Some id ∧ ∀ c, c ∈ cs → mc_id c ≠ id).
Proof.
  unfold classify. pose proof (match_connectors_spec ns cs [] [] []) as Hc. pose proof (match_devices_spec os rs [] []) as Hd.
  destruct (match_connectors _ _ _ _ _) as [[known dark] mm]. destruct (match_devices _ _ _ _) as [kd dd]. cbn in *.
  destruct Hc as (H1 & H2 & H3), Hd as (H4 & H5 & H6). split_and!; try done.
  - intros c. rw H2 list_elem_of_filter owner_of_None. tauto.
  - intros m Hm. by destruct (H3 m Hm) as [?%elem_of_nil|?].
  - intros d. rw H5 list_elem_of_filter owner_org_ids_nil. unfold unowned. tauto.
  - intros d Hd Hr. destruct (decide (owner_org_ids os d = [])) as [E|E].
    + left. rw H5. by apply list_elem_of_filter.
    + right. assert (Hx : d ∈ dm_registration <$> kd) by (rw H4; by apply list_elem_of_filter).
      apply list_elem_of_fmap in Hx as (m & -> & Hm). by exists m.
  - intros n. rw list_elem_of_fmap. unfold is_missing. split.
    + intros (nd & -> & [[Hk Hi]%andb_true_iff Hin]%list_elem_of_filter). apply bool_decide_eq_true_1 in Hk. exists nd. split_and!; try done.
      destruct (cf_connector_id nd) as [id|]; [|done]. exists id. split; [done|]. intros c Hcs E. apply negb_true_iff, not_true_iff_false in Hi.
      apply Hi, existsb_exists. exists c. split; [by apply list_elem_of_In|by apply bool_decide_eq_true_2].
    + intros (nd & Hin & -> & Hk & id & Hid & Hno). exists nd. split; [done|]. apply list_elem_of_filter. split; [|done]. rw Hid.
      rw bool_decide_eq_true_2 //. cbn. apply negb_true_iff, not_true_iff_false. intros (c & Hc & E)%existsb_exists.
      apply list_elem_of_In in Hc. apply bool_decide_eq_true_1 in E. by apply (Hno c).
Qed.

Lemma classify_dark os ns cs rs now :
  let r := classify os ns cs rs now in
  (∀ c, c ∈ dark_connectors r → ¬ registered ns (mc_id c)) ∧ (∀ d, d ∈ dark_devices r → d ∈ rs ∧ unowned os d).
Proof.
  unfold classify. pose proof (match_connectors_spec ns cs [] [] []) as Hc. pose proof (match_devices_spec os rs [] []) as Hd.
  destruct (match_connectors _ _ _ _ _) as [[known dark] mm]. destruct (match_devices _ _ _ _) as [kd dd]. cbn in *.
  destruct Hc as (_ & -> & _), Hd as (_ & -> & _). split.
  - by intros c [?%owner_of_None _]%list_elem_of_filter.
  - intros d [[? Ho] ?]%list_elem_of_filter. split; [done|]. split; [done|]. by apply owner_org_ids_nil.
Qed.

Section removal.
Context `{Upstream, !Codec (Envelope MeshConnector), !Codec (Envelope (list MeshConnector)), !Codec (Envelope (list RawRegistration)),
  !Codec (Envelope ())}.

(** From [s] to [s'] the registry stays as it is, and only such requests are sent. *)
Definition only_sends (P : HttpRequest → Prop) (s s' : Ctl) : Prop :=
  ct_store s' = ct_store s ∧ ∃ l, ct_sent s' = ct_sent s ++ l ∧ Forall P l.

Lemma only_sends_none P s : only_sends P s s.
Proof. split; [done|]. exists []. by rw app_nil_r. Qed.

Lemma only_sends_one (P : HttpRequest → Prop) s rq : P rq → only_sends P s (mk_Ctl (ct_store s) (ct_sent s ++ [rq])).
Proof. intros Hp. split; [done|]. exists [rq]. by split; [|apply Forall_singleton]. Qed.

Lemma only_sends_trans P s1 s2 s3 : only_sends P s1 s2 → only_sends P s2 s3 → only_sends P s1 s3.
Proof.
  intros [E1 (l1 & E1' & H1)] [E2 (l2 & E2' & H2)]. split; [congruence|]. exists (l1 ++ l2). rw E2' E1' app_assoc.
  split; [done|by apply Forall_app].
Qed.

Lemma only_sends_mono (P Q : HttpRequest → Prop) s s' : (∀ rq, P rq → Q rq) → only_sends P s s' → only_sends Q s s'.
Proof. intros HPQ [E (l & E' & Hl)]. split; [done|]. exists l. split; [done|]. by eapply Forall_impl. Qed.

Definition delete_request (c : CloudflareClient) (id : string) : HttpRequest :=
  mk_HttpRequest DELETE (url_of c (connector_path id)) (cf_api_token c) [] None.
Definition revoke_request (c : CloudflareClient) (ids : list string) : HttpRequest :=
  mk_HttpRequest POST (url_of c REVOKE_PATH) (cf_api_token c) ((λ id, ("id", id)) <$> ids) None.
Definition get_request (c : CloudflareClient) (p : string) : HttpRequest :=
  mk_HttpRequest GET (url_of c p) (cf_api_token c) [] None.

Lemma delete_dark_sends c l report s :
  only_sends (λ rq, ∃ k, k ∈ l ∧ rq = delete_request c (mc_id k)) s (delete_dark c l report s).2.
Proof.
  revert report s. induction l as [|k l IH]; intros report s; cbn [delete_dark]; [apply only_sends_none|].
  unfold mbind at 1, ST_bind, try_. pose proof (delete_sent c (mc_id k) s) as E. destruct (delete_mesh_connector c (mc_id k) s) as [r s1].
  cbn in E. subst s1. eapply only_sends_trans; [|eapply only_sends_mono, IH].
  - destruct (is_ok _); [|rw app_nil_r; destruct s; apply only_sends_none]. apply only_sends_one. exists k. by split; [left|].
  - intros rq (k' & Hk & ->). exists k'. by split; [right|].
Qed.

Lemma revoke_dark_sends c report s :
  only_sends (λ rq, (∃ k, k ∈ dark_connectors report ∧ rq = delete_request c (mc_id k)) ∨ rq = revoke_request c (dr_id <$> dark_devices report))
    s (revoke_dark_participants c report s).2.
Proof.
  assert (Hrest : ∀ s1 report' l, l = dark_connectors report → only_sends (λ rq, (∃ k, k ∈ dark_connectors report ∧
    rq = delete_request c (mc_id k)) ∨ rq = revoke_request c (dr_id <$> dark_devices report)) s1 (delete_dark c l report' s1).2).
  { intros s1 report' l ->. eapply only_sends_mono, delete_dark_sends. naive_solver. }
  unfold revoke_dark_participants, revoke_devices. case_bool_decide as E; [by apply Hrest|].
  unfold mbind at 1, ST_bind. unfold mbind at 1, ST_bind, try_. pose proof (revoke_sent c (dr_id <$> dark_devices report) s E) as Es.
  destruct (revoke_device_registrations _ _ s) as [r s1]. cbn in Es |- *. eapply only_sends_trans; [|by apply Hrest].
  subst s1. apply only_sends_one. by right.
Qed.

(** C35: Reconciling changes nothing in the registry.  Unless the removal is asked for it only reads from Cloudflare; if it is, it
    deletes only connectors that no registered node has, and revokes only registrations that Cloudflare listed, that are not
    revoked already and whose user is a member of no organisation. *)
Theorem reconcile_spares_registered c now revoke_dark s :
  let reg := js_state (ct_store s) in
  only_sends (λ rq,
    rq = get_request c LIST_CONNECTORS ∨ rq = get_request c LIST_REGISTRATIONS ∨
    (revoke_dark = true ∧ ∃ id, rq = delete_request c id ∧ ¬ registered (nodes reg) id) ∨
    (revoke_dark = true ∧ ∃ raw ids, rq = revoke_request c ids ∧
       answer (list RawRegistration) (ct_sent s ++ [get_request c LIST_CONNECTORS]) (get_request c LIST_REGISTRATIONS) raw ∧
       ∀ id, id ∈ ids → ∃ x, x ∈ raw ∧ rr_id x = id ∧ unowned (orgs reg) (registration_of x))) s (reconcile_with c now revoke_dark s).2.
Proof.
  destruct (reconcile_with _ _ _ _) as [r s'] eqn:H1. cbn [snd]. revert H1.
  unfold reconcile_with. unfold mbind at 1, ST_bind, in_store, snapshot, gets. destruct s as [st sent]. cbn [ct_store ct_sent].
  intros H1. set (P := λ rq, _). set (s := mk_Ctl st sent) in *.
  unfold mbind at 1, ST_bind in H1. destruct (list_mesh_connectors c s) as [rc s1] eqn:Ec. unfold list_mesh_connectors in Ec.
  apply call_inv in Ec as [E1 _].
  assert (Hs1 : only_sends P s s1) by (rw E1; apply only_sends_one; by left).
  destruct rc as [cs|e]; [|by injection H1 as <- <-].
  unfold mbind at 1, ST_bind in H1. destruct (list_device_registrations c s1) as [rr s2] eqn:Er.
  unfold list_device_registrations, mbind, ST_bind in Er. destruct (call c GET LIST_REGISTRATIONS None s1) as [raw s2'] eqn:Eraw.
  apply call_inv in Eraw as [E2 Hans]. assert (s2' = s2) as -> by by destruct raw; injection Er as _ <-.
  assert (Hs2 : only_sends P s s2). { eapply only_sends_trans; [exact Hs1|]. rw E2. apply only_sends_one. by right; left. }
  destruct rr as [rs|e]; [|by injection H1 as <- <-]. destruct raw as [raw|e]; [|done]. injection Er as <-.
  specialize (Hans raw eq_refl). rw E1 in Hans. destruct revoke_dark; [|by injection H1 as <- <-].
  set (report := classify _ _ _ _ _) in H1. pose proof (revoke_dark_sends c report s2) as Hrev. rw H1 in Hrev. cbn [snd] in Hrev.
  eapply only_sends_trans; [exact Hs2|]. eapply only_sends_mono; [|exact Hrev].
  destruct (classify_dark (orgs (js_state st)) (nodes (js_state st)) cs (registration_of <$> raw) now) as [Hdc Hdd]. fold report in Hdc, Hdd.
  intros rq [(k & Hk & ->)| ->]; right; right; [left|right]; split; try done.
  - exists (mc_id k). split; [done|by apply Hdc].
  - exists raw, (dr_id <$> dark_devices report). split_and!; [done|exact Hans|]. intros id (d & -> & Hd)%list_elem_of_fmap.
    apply Hdd in Hd as [(x & -> & Hx)%list_elem_of_fmap Hu]. by exists x.
Qed.
End removal.
