(* ===== verification/Control.v ===== *)
(** * The control server

    [synergos-control/src/api] and [auth.rs]: the handlers of the HTTP API on the registry and
    the Cloudflare client, and who may call them.

    A handler is a sequence of operations on the store and of requests to Cloudflare; each of
    these is one step, and requests of other clients may run in between.  Theorems about what the
    registry keeps are therefore about steps, and the registration of a node is two definitions,
    before and after its last operation on the store.  Clocks and random identifiers are
    arguments.  JSON decoding, routing by path and the limit on bodies are those of the HTTP
    framework. *)

From Stdlib Require Import Strings.Ascii.
From S2P Require Import Prelude Crypto Fs FsPlain Manifest Glob Invite Registry Cloudflare.

(** ** Who asks *)
Fixpoint xor_diff (a b : bytes) (diff : N) : N :=
  match a, b with
  | x :: a, y :: b => xor_diff a b (N.lor diff (N.lxor (Byte.to_N x) (Byte.to_N y)))
  | _, _ => diff
  end.
Definition constant_time_eq (a b : bytes) : bool :=
  if negb (length a =? length b) then false else (xor_diff a b 0 =? 0)%N.

(** The [Authorization] header, if it is text, without ["Bearer "]. *)
Definition bearer (header : option string) : option string :=
  h ← header;
  if String.prefix "Bearer " h then Some (String.substring 7 (String.length h - 7) h) else None.

Definition require_admin_token (expected : string) (header : option string) : result ControlError () :=
  provided ← ok_or (bearer header) CUnauthorized;
  ensure (constant_time_eq (as_bytes provided) (as_bytes expected)) CUnauthorized.

(** ** Requests *)
Record CreateOrgRequest := mk_CreateOrgRequest { co_id : string; co_name : string; co_members : list string }.
Record UpdateOrgRequest := mk_UpdateOrgRequest { uo_name : option string; uo_members : option (list string) }.
Record RegisterNodeRequest := mk_RegisterNodeRequest {
  rn_display_name : string;
  rn_owner_email : string;
  rn_kind : NodeKind;
  rn_synergos_peer_id : option string;
}.
Record PatchNodeRequest := mk_PatchNodeRequest {
  pn_display_name : option string;
  pn_owner_email : option string;
  pn_synergos_peer_id : option string;
  pn_mesh_ip : option string;
}.
Record HeartbeatRequest := mk_HeartbeatRequest {
  hb_node_id : string;
  hb_peer_id : string;
  hb_mesh_ip : option string;
  hb_synergos_version : option string;
}.

(** A node without the hash of its key. *)
Record NodeView := mk_NodeView {
  nv_id : string;
  nv_org_id : string;
  nv_display_name : string;
  nv_owner_email : string;
  nv_kind : NodeKind;
  nv_cf_connector_id : option string;
  nv_synergos_peer_id : option string;
  nv_mesh_ip : option string;
  nv_reported_mesh_ip : option string;
  nv_last_heartbeat_ms : option N;
  nv_synergos_version : option string;
  nv_created_at_ms : N;
  nv_updated_at_ms : N;
}.
Definition node_view (n : Node) : NodeView :=
  mk_NodeView (nd_id n) (nd_org_id n) (nd_display_name n) (nd_owner_email n) (nd_kind n) (cf_connector_id n) (synergos_peer_id n)
    (mesh_ip n) (reported_mesh_ip n) (last_heartbeat_ms n) (synergos_version n) (nd_created_at_ms n) (nd_updated_at_ms n).

Record RegisterNodeResponse := mk_RegisterNodeResponse {
  rs_node : NodeView;
  rs_connector_token : option string;
  rs_node_key : string;
  rs_enroll_hint : option string;
}.
Record TokenCheckResponse := mk_TokenCheckResponse {
  tc_token_status : string;
  tc_expires_on : option string;
  tc_account_id : string;
  tc_mesh_node_count : nat;
}.
Record ConnectorTokenEntry := mk_ConnectorTokenEntry {
  te_node_id : string;
  te_display_name : string;
  te_connector_token : option string;
  te_enroll_command : option string;
  te_skipped_reason : option string;
}.
Record ConnectorTokensResponse := mk_ConnectorTokensResponse { ct_org_id : string; ct_issued : nat; ct_entries : list ConnectorTokenEntry }.

(** The clock and the identifiers a handler draws. *)
Record Draw := mk_Draw { dw_now : N; dw_node_id : string; dw_key : string * string; dw_tmp : string }.

Record AppState := mk_AppState {
  app_cloudflare : CloudflareClient;
  app_cf_api_base : string;
  app_cf_account_id : string;
  app_parse_url : string → option Url;
  app_ui_dist : option path;
}.

(** ** Organisations *)
Definition is_slug_byte (b : byte) : bool :=
  let x := Byte.to_N b in ((97 <=? x) && (x <=? 122) || (48 <=? x) && (x <=? 57) || (x =? 45))%N.
Definition validate_slug (id : string) : result ControlError () :=
  ensure (negb (bool_decide (id = "")) && (String.length id <=? 64)%nat && forallb is_slug_byte (as_bytes id))
    (CInvalidRequest "org id must be a lowercase slug ([a-z0-9-], max 64 chars)").

Definition normalize_email (s : string) : string := to_ascii_lowercase (trim_text s).
Fixpoint normalize_members_loop (members out : list string) : result ControlError (list string) :=
  match members with
  | [] => Ok out
  | m :: rest =>
      let m := normalize_email m in
      if bool_decide (m = "") || negb (contains_char "@" m) then Err (CInvalidRequest ("member must be an email address: " +:+ m))
      else normalize_members_loop rest (if contains m out then out else out ++ [m])
  end.
Definition normalize_members (members : list string) : result ControlError (list string) := normalize_members_loop members [].

Section handlers.
Context `{Blake3, Hex, Upstream, !Codec RegistrySnapshot, !Codec (Envelope MeshConnector), !Codec (Envelope (list MeshConnector)),
  !Codec (Envelope (list RawRegistration)), !Codec (Envelope ()), !Codec (Envelope string), !Codec (Envelope TokenStatus)}.

Definition create_org (d : Draw) (req : CreateOrgRequest) : CtlM Org :=
  _ ← lift_result (validate_slug (co_id req));
  members ← lift_result (normalize_members (co_members req));
  in_store (insert_org (dw_tmp d) (mk_Org (co_id req) (co_name req) members (dw_now d))).

Definition list_orgs : CtlM (list Org) := st ← in_store snapshot; mret (orgs st).

Definition api_get_org (id : string) : CtlM Org := in_store (get_org id).

Definition patch_org (req : UpdateOrgRequest) (o : Org) : result ControlError Org :=
  let o := mk_Org (org_id o) (default (org_name o) (uo_name req)) (org_members o) (org_created_at_ms o) in
  match uo_members req with
  | Some members => members ← normalize_members members; Ok (mk_Org (org_id o) (org_name o) members (org_created_at_ms o))
  | None => Ok o
  end.

(** The organisation is read in one step and written in another. *)
Definition api_update_org (d : Draw) (id : string) (req : UpdateOrgRequest) : CtlM Org :=
  o ← in_store (get_org id);
  o ← lift_result (patch_org req o);
  in_store (update_org (dw_tmp d) o).

(** ** Nodes *)
Definition generate_node_key (d : Draw) : string := (dw_key d).1 +:+ (dw_key d).2.
Definition hash_node_key (key : string) : string := hex_encode (blake3 (as_bytes key)).

Definition cleanup_connector (app : AppState) (connector_id : string) : CtlM () :=
  ignore (delete_mesh_connector (app_cloudflare app) connector_id).

(** [register_node] up to the registry's write: the node, and the connector's token. *)
Definition prepare_node (app : AppState) (d : Draw) (org : string) (req : RegisterNodeRequest) : CtlM (Node * option string) :=
  o ← in_store (get_org org);
  let owner := normalize_email (rn_owner_email req) in
  if negb (contains_char "@" owner) then throw (CInvalidRequest "owner_email must be an email address")
  else if negb (contains owner (org_members o)) then throw (CInvalidRequest ("owner " +:+ owner +:+ " is not a member of org " +:+ org +:+ "; add them to org members first"))
  else
    let node connector := mk_Node (dw_node_id d) org (rn_display_name req) owner (rn_kind req) connector (rn_synergos_peer_id req)
      None None (Some (hash_node_key (generate_node_key d))) None None (dw_now d) (dw_now d) in
    match rn_kind req with
    | ClientDevice => mret (node None, None)
    | MeshNode =>
        let cf_name := "syn-" +:+ org +:+ "-" +:+ String.substring 0 8 (dw_node_id d) in
        connector ← create_mesh_connector (app_cloudflare app) cf_name;
        token ← try_ (mesh_connector_token (app_cloudflare app) (mc_id connector));
        match token with
        | Ok token => mret (node (Some (mc_id connector)), Some token)
        | Err e => _ ← cleanup_connector app (mc_id connector); throw e
        end
    end.

Definition enroll_hint (k : NodeKind) : option string :=
  match k with
  | MeshNode => Some "run on the node: sudo warp-cli connector new <connector_token> && sudo warp-cli connect"
  | ClientDevice => Some "enroll via Cloudflare One Client with the org team name; reconcile matches the device by owner_email"
  end.

Definition finish_registration (app : AppState) (d : Draw) (n : Node) (token : option string) : CtlM RegisterNodeResponse :=
  r ← try_ (in_store (insert_node (dw_tmp d) n));
  match r with
  | Ok n => mret (mk_RegisterNodeResponse (node_view n) token (generate_node_key d) (enroll_hint (nd_kind n)))
  | Err e =>
      _ ← match cf_connector_id n with Some id => cleanup_connector app id | None => mret () end;
      throw e
  end.

Definition register_node (app : AppState) (d : Draw) (org : string) (req : RegisterNodeRequest) : CtlM RegisterNodeResponse :=
  '(n, token) ← prepare_node app d org req; finish_registration app d n token.

Definition api_list_nodes (org : string) : CtlM (list NodeView) :=
  _ ← in_store (get_org org);
  l ← in_store (list_nodes org);
  mret (node_view <$> l).

Definition api_get_node (org node_id : string) : CtlM NodeView := n ← in_store (get_node org node_id); mret (node_view n).

Definition patched (d : Draw) (req : PatchNodeRequest) (owner ip : option string) (n : Node) : Node :=
  mk_Node (nd_id n) (nd_org_id n) (default (nd_display_name n) (pn_display_name req)) (default (nd_owner_email n) owner) (nd_kind n)
    (cf_connector_id n) (match pn_synergos_peer_id req with Some p => Some p | None => synergos_peer_id n end)
    (match ip with Some i => Some i | None => mesh_ip n end) (reported_mesh_ip n) (node_key_hash n) (last_heartbeat_ms n)
    (synergos_version n) (nd_created_at_ms n) (dw_now d).

(** [Option::map(f).transpose()?]. *)
Definition map_transpose {A B} (f : A → result ControlError B) (o : option A) : result ControlError (option B) :=
  match o with Some a => b ← f a; Ok (Some b) | None => Ok None end.

Definition patch_node (d : Draw) (org node_id : string) (req : PatchNodeRequest) : CtlM NodeView :=
  _ ← in_store (get_node org node_id);
  owner ← match pn_owner_email req with
          | Some e =>
              let e := normalize_email e in
              o ← in_store (get_org org);
              if negb (contains e (org_members o)) then throw (CInvalidRequest ("owner " +:+ e +:+ " is not a member of org " +:+ org))
              else mret (Some e)
          | None => mret None
          end;
  ip ← lift_result (map_transpose normalize_mesh_ip (pn_mesh_ip req));
  n ← in_store (mutate_node (dw_tmp d) (Some org) node_id (patched d req owner ip));
  mret (node_view n).

Definition api_remove_node (app : AppState) (d : Draw) (org node_id : string) : CtlM NodeView :=
  n ← in_store (get_node org node_id);
  _ ← match cf_connector_id n with Some id => delete_mesh_connector (app_cloudflare app) id | None => mret () end;
  n ← in_store (remove_node (dw_tmp d) org node_id);
  mret (node_view n).

Definition reissue_connector_token (app : AppState) (org node_id : string) : CtlM string :=
  n ← in_store (get_node org node_id);
  id ← lift_result (ok_or (cf_connector_id n) (CInvalidRequest "node has no mesh connector"));
  mesh_connector_token (app_cloudflare app) id.

Definition rekeyed (d : Draw) (n : Node) : Node :=
  mk_Node (nd_id n) (nd_org_id n) (nd_display_name n) (nd_owner_email n) (nd_kind n) (cf_connector_id n) (synergos_peer_id n) (mesh_ip n)
    (reported_mesh_ip n) (Some (hash_node_key (generate_node_key d))) (last_heartbeat_ms n) (synergos_version n) (nd_created_at_ms n) (dw_now d).
Definition reissue_node_key (d : Draw) (org node_id : string) : CtlM string :=
  _ ← in_store (mutate_node (dw_tmp d) (Some org) node_id (rekeyed d));
  mret (generate_node_key d).

(** ** Heartbeats *)
Definition reported (d : Draw) (req : HeartbeatRequest) (ip : option string) (n : Node) : Node :=
  mk_Node (nd_id n) (nd_org_id n) (nd_display_name n) (nd_owner_email n) (nd_kind n) (cf_connector_id n) (Some (hb_peer_id req)) (mesh_ip n)
    ip (node_key_hash n) (Some (dw_now d)) (hb_synergos_version req) (nd_created_at_ms n) (dw_now d).

Definition apply_heartbeat (d : Draw) (provided_hash : string) (req : HeartbeatRequest) (n : Node) : result ControlError Node :=
  expected ← ok_or (node_key_hash n) CUnauthorized;
  if negb (constant_time_eq (as_bytes provided_hash) (as_bytes expected)) then Err CUnauthorized
  else if bool_decide (hb_peer_id req = "") || (256 <? String.length (hb_peer_id req))%nat || has_control (as_bytes (hb_peer_id req)) then
    Err (CInvalidRequest "peer_id must be 1..=256 printable characters")
  else if match hb_synergos_version req with
          | Some v => (128 <? String.length v)%nat || has_control (as_bytes v)
          | None => false
          end
  then Err (CInvalidRequest "synergos_version must be at most 128 printable characters")
  else ip ← map_transpose normalize_mesh_ip (hb_mesh_ip req); Ok (reported d req ip n).

Definition receive_heartbeat (d : Draw) (header : option string) (req : HeartbeatRequest) : CtlM () :=
  key ← lift_result (ok_or (bearer header) CUnauthorized);
  r ← try_ (in_store (try_mutate_node (dw_tmp d) None (hb_node_id req) (apply_heartbeat d (hash_node_key key) req)));
  match r with
  | Err (CNotFound _) => throw CUnauthorized
  | Err e => throw e
  | Ok _ => mret ()
  end.

(** ** Setting up the mesh with a token of the request *)
Definition is_ascii_graphic (b : byte) : bool := let x := Byte.to_N b in ((33 <=? x) && (x <=? 126))%N.
Definition validate_request_token (t : string) : result ControlError () :=
  if bool_decide (t = "") || (512 <? String.length t)%nat then Err (CInvalidRequest "api_token must be 1..=512 bytes")
  else ensure (forallb is_ascii_graphic (as_bytes t))
         (CInvalidRequest "api_token contains characters that are not allowed in an HTTP header").
Definition request_scoped_cloudflare (app : AppState) (t : string) : result ControlError CloudflareClient :=
  _ ← validate_request_token t; client_new (app_parse_url app) (app_cf_api_base app) (app_cf_account_id app) t.

Definition check_token (app : AppState) (t : string) : CtlM TokenCheckResponse :=
  c ← lift_result (request_scoped_cloudflare app t);
  status ← verify_token c;
  if negb (bool_decide (ts_status status = "active")) then throw (CInvalidRequest "cloudflare api token is not active")
  else
    connectors ← list_mesh_connectors c;
    mret (mk_TokenCheckResponse (ts_status status) (ts_expires_on status) (app_cf_account_id app) (length connectors)).

Definition run_reconcile (app : AppState) (d : Draw) (revoke_dark : bool) : CtlM ReconcileReport :=
  reconcile_with (app_cloudflare app) (dw_now d) revoke_dark.
Definition reconcile_with_token (app : AppState) (d : Draw) (t : string) (revoke_dark : bool) : CtlM ReconcileReport :=
  c ← lift_result (request_scoped_cloudflare app t); reconcile_with c (dw_now d) revoke_dark.

Definition skipped_entry (n : Node) (reason : string) : ConnectorTokenEntry :=
  mk_ConnectorTokenEntry (nd_id n) (nd_display_name n) None None (Some reason).
Definition issued_entry (n : Node) (token : string) : ConnectorTokenEntry :=
  mk_ConnectorTokenEntry (nd_id n) (nd_display_name n) (Some token)
    (Some ("sudo warp-cli connector new " +:+ token +:+ " && sudo warp-cli connect")) None.
Fixpoint token_entries (c : CloudflareClient) (l : list Node) (entries : list ConnectorTokenEntry) (issued : nat) :
    CtlM (list ConnectorTokenEntry * nat) :=
  match l with
  | [] => mret (entries, issued)
  | n :: l =>
      match nd_kind n, cf_connector_id n with
      | MeshNode, Some id =>
          r ← try_ (mesh_connector_token c id);
          match r with
          | Ok t => token_entries c l (entries ++ [issued_entry n t]) (S issued)
          | Err _ => token_entries c l (entries ++ [skipped_entry n "Cloudflare からトークンを取得できません"]) issued
          end
      | MeshNode, None =>
          token_entries c l (entries ++ [skipped_entry n "Cloudflare connector が未作成 (ノードを登録し直してください)"]) issued
      | ClientDevice, _ =>
          token_entries c l (entries ++ [skipped_entry n "client device は Cloudflare One Client でエンロールするため登録トークンは不要"]) issued
      end
  end.
Definition issue_connector_tokens (app : AppState) (t org : string) : CtlM ConnectorTokensResponse :=
  c ← lift_result (request_scoped_cloudflare app t);
  _ ← in_store (get_org org);
  l ← in_store (list_nodes org);
  '(entries, issued) ← token_entries c l [] 0;
  mret (mk_ConnectorTokensResponse org issued entries).

(** ** The router *)
Inductive ApiRequest :=
| QCreateOrg (req : CreateOrgRequest)
| QListOrgs
| QGetOrg (id : string)
| QUpdateOrg (id : string) (req : UpdateOrgRequest)
| QRegisterNode (org : string) (req : RegisterNodeRequest)
| QListNodes (org : string)
| QGetNode (org node_id : string)
| QPatchNode (org node_id : string) (req : PatchNodeRequest)
| QRemoveNode (org node_id : string)
| QConnectorToken (org node_id : string)
| QNodeKey (org node_id : string)
| QReconcile (revoke_dark : bool)
| QMeshContext
| QTokenCheck (t : string)
| QMeshReconcile (t : string) (revoke_dark : bool)
| QConnectorTokens (t org : string)
| QHeartbeat (req : HeartbeatRequest)
| QHealth.

Inductive ApiResponse :=
| AOrg (o : Org)
| AOrgs (l : list Org)
| ARegistered (r : RegisterNodeResponse)
| ANode (n : NodeView)
| ANodes (l : list NodeView)
| AToken (t : string)
| AReport (r : ReconcileReport)
| AContext (account_id api_base : string)
| ATokenCheck (r : TokenCheckResponse)
| ATokens (r : ConnectorTokensResponse)
| AOk.

Definition is_admin (q : ApiRequest) : bool := match q with QHeartbeat _ | QHealth => false | _ => true end.

Definition handle (app : AppState) (d : Draw) (header : option string) (q : ApiRequest) : CtlM ApiResponse :=
  match q with
  | QCreateOrg req => r ← create_org d req; mret (AOrg r)
  | QListOrgs => r ← list_orgs; mret (AOrgs r)
  | QGetOrg id => r ← api_get_org id; mret (AOrg r)
  | QUpdateOrg id req => r ← api_update_org d id req; mret (AOrg r)
  | QRegisterNode org req => r ← register_node app d org req; mret (ARegistered r)
  | QListNodes org => r ← api_list_nodes org; mret (ANodes r)
  | QGetNode org n => r ← api_get_node org n; mret (ANode r)
  | QPatchNode org n req => r ← patch_node d org n req; mret (ANode r)
  | QRemoveNode org n => r ← api_remove_node app d org n; mret (ANode r)
  | QConnectorToken org n => r ← reissue_connector_token app org n; mret (AToken r)
  | QNodeKey org n => r ← reissue_node_key d org n; mret (AToken r)
  | QReconcile b => r ← run_reconcile app d b; mret (AReport r)
  | QMeshContext => mret (AContext (app_cf_account_id app) (app_cf_api_base app))
  | QTokenCheck t => r ← check_token app t; mret (ATokenCheck r)
  | QMeshReconcile t b => r ← reconcile_with_token app d t b; mret (AReport r)
  | QConnectorTokens t org => r ← issue_connector_tokens app t org; mret (ATokens r)
  | QHeartbeat req => _ ← receive_heartbeat d header req; mret AOk
  | QHealth => mret AOk
  end.

(** [build_router]: everything but heartbeats and the health check is behind the administrator's token. *)
Definition serve (app : AppState) (admin_token : string) (d : Draw) (header : option string) (q : ApiRequest) : CtlM ApiResponse :=
  _ ← lift_result (if is_admin q then require_admin_token admin_token header else Ok ());
  handle app d header q.
End handlers.

(** ** Comparing secrets *)
Lemma xor_diff_zero a b d : length a = length b → xor_diff a b d = 0%N ↔ d = 0%N ∧ a = b.
Proof.
  revert b d. induction a as [|x a IH]; intros [|y b] d Hl; cbn [xor_diff]; try done; [naive_solver|].
  injection Hl as Hl. rw IH // N.lor_eq_0_iff N.lxor_eq_0_iff. split; [intros [[-> ->%byte_to_N_inj] ->]; done|].
  intros [-> [= -> ->]]. done.
Qed.

Lemma constant_time_eq_eq a b : constant_time_eq a b = bool_decide (a = b).
Proof.
  unfold constant_time_eq. destruct (Nat.eqb_spec (length a) (length b)) as [E|E]; cbn [negb].
  - apply eq_true_iff_eq. rw N.eqb_eq bool_decide_eq_true xor_diff_zero //. naive_solver.
  - symmetry. apply bool_decide_eq_false_2. congruence.
Qed.

Lemma same_secret s t : constant_time_eq (as_bytes s) (as_bytes t) = true → s = t.
Proof. rw constant_time_eq_eq. by intros ?%bool_decide_eq_true_1%as_bytes_inj. Qed.

(** ** What requests do to the registry *)
Section keeps.
Context `{Blake3, Hex, Upstream, !Codec RegistrySnapshot, !CodecLaws RegistrySnapshot, !Codec (Envelope MeshConnector),
  !Codec (Envelope (list MeshConnector)), !Codec (Envelope (list RawRegistration)), !Codec (Envelope ()), !Codec (Envelope string),
  !Codec (Envelope TokenStatus)}.
Context (dir : path) (name : string).

(** The store keeps its invariant. *)
Definition keeps {A} (m : CtlM A) : Prop := ∀ s, store_inv dir name (ct_store s) → wp m (λ _ s', store_inv dir name (ct_store s')) s.

Lemma reg_keeps_bind {A B} (m : CtlM A) (f : A → CtlM B) : keeps m → (∀ a, keeps (f a)) → keeps (m ≫= f).
Proof. intros Hm Hf s Hs. wp_step. eapply wp_mono; [by apply Hm|]. intros [a|e] s' Hs'; [by apply Hf|done]. Qed.
Lemma reg_keeps_ret {A} (a : A) : keeps (mret a).
Proof. by intros s Hs. Qed.
Lemma reg_keeps_throw {A} e : keeps (throw e : CtlM A).
Proof. by intros s Hs. Qed.
Lemma keeps_lift {A} (r : result ControlError A) : keeps (lift_result r).
Proof. by intros s Hs. Qed.
Lemma keeps_try {A} (m : CtlM A) : keeps m → keeps (try_ m).
Proof. intros Hm s Hs. wp_step. by apply Hm. Qed.
Lemma reg_keeps_ignore {A} (m : CtlM A) : keeps m → keeps (ignore m).
Proof. intros Hm s Hs. wp_step. by apply Hm. Qed.
Lemma keeps_send rq : keeps (send_request rq).
Proof. by intros s Hs. Qed.
Lemma keeps_in_store {A} (m : RegM A) : all_or_nothing dir name m → keeps (in_store m).
Proof.
  intros Hm s Hs. specialize (Hm _ Hs). unfold wp, in_store in *. destruct (m (ct_store s)) as [r st]. by destruct Hm.
Qed.
Lemma keeps_pure {A} (m : RegM A) : (∀ st, (m st).2 = st) → keeps (in_store m).
Proof. intros Hm s Hs. unfold wp, in_store. specialize (Hm (ct_store s)). destruct (m (ct_store s)) as [r st]. cbn in *. by subst st. Qed.
End keeps.

#[export] Hint Resolve reg_keeps_ret reg_keeps_throw keeps_lift keeps_send : synergos.

(** Follows the structure of a handler. *)
Ltac keeps_tac :=
  repeat match goal with
  | |- keeps _ _ (_ ≫= _) => apply reg_keeps_bind; [|intros ?]
  | |- keeps _ _ (try_ _) => apply keeps_try
  | |- keeps _ _ (ignore _) => apply reg_keeps_ignore
  | |- keeps _ _ (in_store (get_org _)) => by apply keeps_pure
  | |- keeps _ _ (in_store (get_node _ _)) => by apply keeps_pure
  | |- keeps _ _ (in_store (list_nodes _)) => by apply keeps_pure
  | |- keeps _ _ (in_store snapshot) => by apply keeps_pure
  | |- keeps _ _ (match ?x with _ => _ end) => destruct x
  | |- keeps _ _ _ => by auto with synergos
  end.

Section requests.
Context `{Blake3, Hex, Upstream, !Codec RegistrySnapshot, !CodecLaws RegistrySnapshot, !Codec (Envelope MeshConnector),
  !Codec (Envelope (list MeshConnector)), !Codec (Envelope (list RawRegistration)), !Codec (Envelope ()), !Codec (Envelope string),
  !Codec (Envelope TokenStatus)}.
Context (dir : path) (name : string) (fresh_names : ∀ uuid, tmp_name name uuid ≠ name).
Local Notation keeps := (keeps dir name).

Lemma keeps_call_optional {T} `{!Codec (Envelope T)} c m p q b nf : keeps (call_optional c m p q b nf : CtlM (option T)).
Proof. unfold call_optional. keeps_tac. Qed.
Lemma keeps_call {T} `{!Codec (Envelope T)} c m p b : keeps (call c m p b : CtlM T).
Proof. unfold call. apply reg_keeps_bind; [apply keeps_call_optional|]. intros a. keeps_tac. Qed.
Lemma keeps_delete_connector c id : keeps (delete_mesh_connector c id).
Proof. unfold delete_mesh_connector. apply reg_keeps_bind; [keeps_tac|intros _]. apply reg_keeps_bind; [apply keeps_call_optional|intros _]. keeps_tac. Qed.
Lemma keeps_connector_token c id : keeps (mesh_connector_token c id).
Proof. unfold mesh_connector_token. apply reg_keeps_bind; [keeps_tac|intros _; apply keeps_call]. Qed.
Lemma keeps_list_connectors c : keeps (list_mesh_connectors c).
Proof. apply keeps_call. Qed.

Hint Resolve keeps_call_optional keeps_call keeps_delete_connector keeps_connector_token keeps_list_connectors : synergos.

Lemma keeps_delete_dark c l report : keeps (delete_dark c l report).
Proof. revert report. induction l as [|k l IH]; intros report; cbn [delete_dark]; [keeps_tac|]. apply reg_keeps_bind; [keeps_tac|intros r]. apply IH. Qed.

Lemma keeps_reconcile c now b : keeps (reconcile_with c now b).
Proof.
  unfold reconcile_with, list_device_registrations, revoke_dark_participants, revoke_devices, revoke_device_registrations.
  keeps_tac; apply keeps_delete_dark.
Qed.

Lemma keeps_token_entries c l entries n : keeps (token_entries c l entries n).
Proof.
  revert entries n. induction l as [|k l IH]; intros entries n; cbn [token_entries]; [keeps_tac|]. keeps_tac; apply IH.
Qed.

Hint Resolve keeps_reconcile keeps_token_entries : synergos.

Lemma apply_heartbeat_id d h req n n' : apply_heartbeat d h req n = Ok n' → nd_id n' = nd_id n.
Proof.
  unfold apply_heartbeat. destruct (node_key_hash n); [|done]. cbn [ok_or mbind result_bind].
  destruct (negb _); [done|]. destruct (_ || _ || _); [done|]. destruct (hb_synergos_version req) as [v|]; [destruct (_ || _); [done|]|];
    (destruct (map_transpose _ _); [|done]); by intros [= <-].
Qed.

Lemma keeps_handle app d header q : keeps (handle app d header q).
Proof.
  assert (Ho : ∀ u o, keeps (in_store (insert_org u o))) by (intros; by apply keeps_in_store, safe_insert_org).
  assert (Hu : ∀ u o, keeps (in_store (update_org u o))) by (intros; by apply keeps_in_store, safe_update_org).
  assert (Hn : ∀ u n, keeps (in_store (insert_node u n))) by (intros; by apply keeps_in_store, safe_insert_node).
  assert (Hr : ∀ u o n, keeps (in_store (remove_node u o n))) by (intros; by apply keeps_in_store, safe_remove_node).
  assert (Hh : ∀ h req, keeps (in_store (try_mutate_node (dw_tmp d) None (hb_node_id req) (apply_heartbeat d h req)))).
  { intros. apply keeps_in_store, safe_try_mutate; [done|]. intros n n'. apply apply_heartbeat_id. }
  assert (Hm : ∀ o n f, (∀ x, nd_id (f x) = nd_id x) → keeps (in_store (mutate_node (dw_tmp d) o n f))).
  { intros o n f Hf. apply keeps_in_store, safe_try_mutate; [done|]. intros x x' [= <-]. apply Hf. }
  destruct q; cbn [handle]; unfold create_org, list_orgs, api_get_org, api_update_org, register_node, prepare_node, finish_registration,
    cleanup_connector, api_list_nodes, api_get_node, patch_node, api_remove_node, reissue_connector_token, reissue_node_key, run_reconcile,
    check_token, reconcile_with_token, issue_connector_tokens, receive_heartbeat, verify_token, create_mesh_connector;
    keeps_tac; by apply Hm.
Qed.

(** ** The registry in operation *)

(** A request, with what fails while it runs, or a restart of the server. *)
Inductive event :=
| Request (faults : list (option nat)) (d : Draw) (header : option string) (q : ApiRequest)
| Restart.

Definition with_disk (w : World) (s : Ctl) : Ctl := mk_Ctl (mk_JsonStore (js_path (ct_store s)) w (js_state (ct_store s))) (ct_sent s).
Definition disk_of (s : Ctl) : Fs := disk (js_world (ct_store s)).

Definition event_step (app : AppState) (admin_token : string) (s : Ctl) (e : event) : Ctl :=
  match e with
  | Request faults d header q => (serve app admin_token d header q (with_disk (mk_World (disk_of s) faults) s)).2
  | Restart =>
      match (open (js_path (ct_store s)) (mk_World (disk_of s) [])).1 with
      | Ok st => mk_Ctl st (ct_sent s)
      | Err _ => s
      end
  end.

Lemma inv_with_disk f s : store_inv dir name (ct_store s) → store_inv dir name (ct_store (with_disk (mk_World (disk_of s) f) s)).
Proof. by intros [? ? ? ?]. Qed.

Lemma event_inv app tok s e : store_inv dir name (ct_store s) → store_inv dir name (ct_store (event_step app tok s e)).
Proof.
  intros Hs. destruct e as [f d header q|]; cbn [event_step].
  - assert (Hk : keeps (serve app tok d header q)) by (unfold serve; apply reg_keeps_bind; [keeps_tac|intros _; apply keeps_handle]).
    specialize (Hk _ (inv_with_disk f s Hs)). unfold wp in Hk. by destruct (serve _ _ _ _ _ _).
  - pose proof (si_path _ _ _ Hs) as Hp. rw Hp (reopen dir name (ct_store s) Hs). destruct Hs. by split.
Qed.

(** C33: Whatever clients ask, whatever fails on the disk while they are served and however often the server is restarted: names of
    organisations and of nodes stay unique, every node belongs to an organisation that has its owner as a member, and a restart
    finds the registry as it was in memory. *)
Theorem registry_survives app tok s events :
  store_inv dir name (ct_store s) →
  let s' := foldl (event_step app tok) s events in
  registry_ok (js_state (ct_store s')) ∧
  (open (dir ++ [name]) (mk_World (disk_of s') [])).1 =
    Ok (mk_JsonStore (dir ++ [name]) (mk_World (disk_of s') []) (js_state (ct_store s'))).
Proof.
  intros Hs s'. assert (Hs' : store_inv dir name (ct_store s')).
  { subst s'. revert s Hs. induction events as [|e events IH]; intros s Hs; [done|]. cbn [foldl]. by apply IH, event_inv. }
  split; [apply Hs'|by apply reopen].
Qed.
End requests.

Section authorised.
Context `{Blake3, Hex, Upstream, !Codec RegistrySnapshot, !Codec (Envelope MeshConnector),
  !Codec (Envelope (list MeshConnector)), !Codec (Envelope (list RawRegistration)), !Codec (Envelope ()), !Codec (Envelope string),
  !Codec (Envelope TokenStatus)}.

Lemma commit_inv uuid next st r st' : commit uuid next st = (r, st') → js_state st' = match r with Ok _ => next | Err _ => js_state st end.
Proof. unfold commit. destruct (persist _ _ _ _) as [[[]|e] w]; by intros [= <- <-]. Qed.

Lemma try_mutate_inv uuid org id f st r st' :
  try_mutate_node uuid org id f st = (r, st') →
  js_state st' = js_state st ∨
  ∃ slot updated, slot ∈ nodes (js_state st) ∧ nd_id slot = id ∧ in_org slot org = true ∧ f slot = Ok updated ∧
    js_state st' = mk_RegistrySnapshot (orgs (js_state st))
      (update_first (λ n, bool_decide (nd_id n = id) && in_org n org) (λ _, updated) (nodes (js_state st))).
Proof.
  unfold try_mutate_node. unfold mbind at 1, ST_bind, snapshot, gets. set (here := λ n, bool_decide (nd_id n = id) && in_org n org).
  unfold mbind at 1, ST_bind, lift_result. destruct (find_first here _) as [slot|] eqn:Es; cbn [ok_or]; [|intros [= <- <-]; by left].
  unfold mbind at 1, ST_bind. destruct (f slot) as [updated|e] eqn:Ef; [|intros [= <- <-]; by left].
  unfold mbind at 1, ST_bind. destruct (find_org _ _) as [o|]; cbn [ok_or]; [|intros [= <- <-]; by left].
  destruct (negb _); [intros [= <- <-]; by left|]. unfold mbind at 1, ST_bind.
  destruct (commit uuid _ st) as [rc st1] eqn:Ec. apply commit_inv in Ec. destruct rc as [[]|e]; intros [= <- <-]; [right|by left].
  apply find_first_Some in Es as [Hin Hh]. unfold here in Hh. apply andb_true_iff in Hh as [Hi Ho]. apply bool_decide_eq_true_1 in Hi.
  by exists slot, updated.
Qed.

Lemma apply_heartbeat_Ok d h req n n' :
  apply_heartbeat d h req n = Ok n' → node_key_hash n = Some h ∧ ∃ ip, n' = reported d req ip n ∧ map_transpose normalize_mesh_ip (hb_mesh_ip req) = Ok ip.
Proof.
  unfold apply_heartbeat. destruct (node_key_hash n) as [k|]; [|done]. cbn [ok_or mbind result_bind].
  destruct (constant_time_eq _ _) eqn:E; [|done]. apply same_secret in E as <-. cbn [negb].
  destruct (_ || _ || _); [done|]. destruct (hb_synergos_version req) as [v|]; [destruct (_ || _); [done|]|];
    (destruct (map_transpose _ _) as [ip|]; [|done]); intros [= <-]; eauto.
Qed.

(** C31: Without the administrator's token nothing reaches Cloudflare, and the registry changes in one way only: a heartbeat that
    shows the key issued to a node last sets what that node reports of itself.  The address the administrator expects, the
    owner, the organisation and the key stay as they are. *)
Theorem control_authorised app tok d header q s r s' :
  bearer header ≠ Some tok → serve app tok d header q s = (r, s') →
  let reg := js_state (ct_store s) in
  ct_sent s' = ct_sent s ∧
  (js_state (ct_store s') = reg ∨
   ∃ req key n ip, q = QHeartbeat req ∧ bearer header = Some key ∧ n ∈ nodes reg ∧ nd_id n = hb_node_id req ∧
     node_key_hash n = Some (hash_node_key key) ∧
     js_state (ct_store s') = mk_RegistrySnapshot (orgs reg)
       (update_first (λ x, bool_decide (nd_id x = hb_node_id req)) (λ _, reported d req ip n) (nodes reg)) ∧
     nd_owner_email (reported d req ip n) = nd_owner_email n ∧ nd_org_id (reported d req ip n) = nd_org_id n ∧
     mesh_ip (reported d req ip n) = mesh_ip n ∧ node_key_hash (reported d req ip n) = node_key_hash n ∧
     cf_connector_id (reported d req ip n) = cf_connector_id n).
Proof.
  intros Ht. unfold serve. unfold mbind at 1, ST_bind, lift_result at 1. destruct (is_admin q) eqn:Ea.
  { unfold require_admin_token. destruct (bearer header) as [t|] eqn:Eb; cbn [ok_or mbind result_bind]; [|intros [= <- <-]; auto].
    destruct (constant_time_eq _ _) eqn:E; [apply same_secret in E; congruence|]. intros [= <- <-]; auto. }
  destruct q; try done; cbn [handle]; [|intros [= <- <-]; auto].
  unfold mbind at 1, ST_bind, receive_heartbeat. unfold mbind at 1, ST_bind, lift_result.
  destruct (bearer header) as [key|] eqn:Eb; cbn [ok_or]; [|intros [= <- <-]; auto].
  unfold mbind at 1, ST_bind, try_, in_store. destruct (try_mutate_node _ _ _ _ _) as [rm st'] eqn:Em.
  intros E. assert (s' = mk_Ctl st' (ct_sent s)) as ->. { destruct rm as [n|[]]; by injection E as _ <-. }
  split; [done|]. apply try_mutate_inv in Em as [Em|(slot & upd & Hin & Hid & _ & Hap & Hst)]; [by left|right].
  apply apply_heartbeat_Ok in Hap as (Hk & ip & -> & _). exists req, key, slot, ip. split_and!; try done. cbn. rw Hst. f_equal.
  clear. induction (nodes (js_state (ct_store s))) as [|x l IH]; [done|]. cbn. rw andb_true_r. by destruct (bool_decide _); [|rw IH].
Qed.

(** ** Registration *)
Definition create_request (c : CloudflareClient) (org node_id : string) : HttpRequest :=
  mk_HttpRequest POST (url_of c "warp_connector") (cf_api_token c) [] (Some ("syn-" +:+ org +:+ "-" +:+ String.substring 0 8 node_id)).

Lemma get_org_pure org st : (get_org org st).2 = st.
Proof. done. Qed.

Lemma token_sent c id s r s' : mesh_connector_token c id s = (r, s') → ct_store s' = ct_store s ∧ ∃ l, ct_sent s' = ct_sent s ++ l.
Proof.
  unfold mesh_connector_token. unfold mbind at 1, ST_bind, lift_result. destruct (validate_path_segment _ _) as [[]|e].
  - intros [-> _]%call_inv. split; [done|by eexists].
  - intros [= <- <-]. split; [done|]. exists []. by rw app_nil_r.
Qed.

Lemma cleanup_sent app id s : is_ok (validate_path_segment "connector_id" id) = true →
  (cleanup_connector app id s).2 = mk_Ctl (ct_store s) (ct_sent s ++ [delete_request (app_cloudflare app) id]).
Proof.
  intros Hv. unfold cleanup_connector, ignore. pose proof (delete_sent (app_cloudflare app) id s) as E.
  destruct (delete_mesh_connector _ _ _) as [r s']. cbn in E |- *. by rw Hv in E.
Qed.

Lemma cleanup_store app id s : ct_store (cleanup_connector app id s).2 = ct_store s.
Proof.
  unfold cleanup_connector, ignore. pose proof (delete_sent (app_cloudflare app) id s) as E.
  destruct (delete_mesh_connector _ _ _) as [r s']. cbn in E |- *. by rw E.
Qed.

Lemma cleanup_grows app id s : ∃ l, ct_sent (cleanup_connector app id s).2 = ct_sent s ++ l.
Proof.
  unfold cleanup_connector, ignore. pose proof (delete_sent (app_cloudflare app) id s) as E.
  destruct (delete_mesh_connector _ _ _) as [r s']. cbn in E |- *. rw E. by eexists.
Qed.

Lemma answer_fun {T} `{!Codec (Envelope T)} before rq (a b : T) : answer T before rq a → answer T before rq b → a = b.
Proof. intros (? & ? & ? & ? & ? & ?) (? & ? & ? & ? & ? & ?). congruence. Qed.

Lemma insert_node_inv uuid n st r st' :
  insert_node uuid n st = (r, st') →
  match r with
  | Ok n' => n' = n ∧ js_state st' = mk_RegistrySnapshot (orgs (js_state st)) (nodes (js_state st) ++ [n])
  | Err _ => js_state st' = js_state st
  end.
Proof.
  unfold insert_node. unfold mbind at 1, ST_bind, snapshot, gets. unfold mbind at 1, ST_bind, lift_result.
  destruct (find_org _ _) as [o|]; cbn [ok_or]; [|by intros [= <- <-]]. destruct (negb _); [by intros [= <- <-]|].
  destruct (existsb _ _); [by intros [= <- <-]|]. unfold mbind at 1, ST_bind. destruct (commit _ _ st) as [rc st1] eqn:Ec.
  apply commit_inv in Ec. destruct rc as [[]|e]; by intros [= <- <-].
Qed.

(** What is known of the node and its connector before the registry's write. *)
Lemma prepare_node_inv app d org req s r s' :
  prepare_node app d org req s = (r, s') →
  ct_store s' = ct_store s ∧
  match r with
  | Ok (n, token) => node_key_hash n = Some (hash_node_key (generate_node_key d)) ∧ nd_org_id n = org ∧
      match cf_connector_id n with
      | None => rn_kind req = ClientDevice ∧ s' = s
      | Some id => ∃ k rest, id = mc_id k ∧ answer MeshConnector (ct_sent s) (create_request (app_cloudflare app) org (dw_node_id d)) k ∧
          ct_sent s' = ct_sent s ++ create_request (app_cloudflare app) org (dw_node_id d) :: rest
      end
  | Err _ => s' = s ∨ ∃ rest, ct_sent s' = ct_sent s ++ create_request (app_cloudflare app) org (dw_node_id d) :: rest ∧
      ∀ k, answer MeshConnector (ct_sent s) (create_request (app_cloudflare app) org (dw_node_id d)) k →
        is_ok (validate_path_segment "connector_id" (mc_id k)) = true → delete_request (app_cloudflare app) (mc_id k) ∈ rest
  end.
Proof.
  unfold prepare_node. unfold mbind at 1, ST_bind, in_store. destruct (get_org org (ct_store s)) as [ro st] eqn:Eo.
  assert (st = ct_store s) as -> by (apply (f_equal snd) in Eo; rw get_org_pure in Eo; by cbn in Eo).
  assert (Hs : mk_Ctl (ct_store s) (ct_sent s) = s) by by destruct s. rw Hs.
  destruct ro as [o|e]; [|intros [= <- <-]; auto].
  destruct (negb (contains_char _ _)); [intros [= <- <-]; auto|]. destruct (negb (contains _ _)); [intros [= <- <-]; auto|].
  destruct (rn_kind req) eqn:Ek; [|intros [= <- <-]; by cbn].
  set (rq := create_request _ _ _). unfold mbind at 1, ST_bind. destruct (create_mesh_connector _ _ s) as [rk s1] eqn:Ec.
  pose proof Ec as Ec'. apply call_inv in Ec' as [E1 Ha]. fold rq in E1, Ha. destruct rk as [k|e].
  2: { intros [= <- <-]. subst s1. split; [done|]. right. exists []. split; [done|]. intros k Hk%call_answer _.
       apply (f_equal fst) in Ec. unfold create_mesh_connector in Ec. by rw Hk in Ec. }
  specialize (Ha k eq_refl). unfold mbind at 1, ST_bind, try_. destruct (mesh_connector_token _ _ s1) as [rt s2] eqn:Et.
  apply token_sent in Et as [E2 (l & E2')]. subst s1. cbn in E2, E2'. destruct rt as [tok|e].
  { intros [= <- <-]. split; [done|]. cbn. split_and!; try done. exists k, l. by rw E2' -app_assoc. }
  unfold mbind at 1, ST_bind. pose proof (cleanup_store app (mc_id k) s2) as Hc. pose proof (cleanup_sent app (mc_id k) s2) as Hd.
  pose proof (cleanup_grows app (mc_id k) s2) as [l' Hg].
  destruct (cleanup_connector _ _ s2) as [rc s3] eqn:Ecl. assert (rc = Ok ()) as ->. { apply (f_equal fst) in Ecl. cbn in Ecl. unfold cleanup_connector, ignore in Ecl. by destruct (delete_mesh_connector _ _ _). }
  intros [= <- <-]. cbn in Hc, Hg. split; [congruence|]. right. exists (l ++ l'). cbn. split; [by rw Hg E2' -!app_assoc|].
  intros k' Hk' Hv. assert (k' = k) as -> by by eapply answer_fun. specialize (Hd Hv). cbn in Hd. rw Hd in Hg. cbn in Hg.
  apply app_inv_head in Hg as <-. apply elem_of_app. right. by apply list_elem_of_singleton.
Qed.

(** C34: A registration takes place as a whole or not at all.  Accepted, it adds exactly one node to the registry, whose stored hash
    is that of the key handed out, and a mesh node's connector is the one Cloudflare has just created.  Refused, at whatever
    step, it leaves the registry as it was, and a connector Cloudflare has created for it is asked to be deleted. *)
Theorem registration_all_or_nothing app d org req s :
  let rq := create_request (app_cloudflare app) org (dw_node_id d) in
  let reg := js_state (ct_store s) in
  let '(r, s') := register_node app d org req s in
  match r with
  | Ok resp => ∃ n, js_state (ct_store s') = mk_RegistrySnapshot (orgs reg) (nodes reg ++ [n]) ∧ rs_node resp = node_view n ∧
      node_key_hash n = Some (hash_node_key (rs_node_key resp)) ∧ nd_org_id n = org ∧
      match cf_connector_id n with
      | None => rn_kind req = ClientDevice ∧ ct_sent s' = ct_sent s
      | Some id => ∃ k, id = mc_id k ∧ answer MeshConnector (ct_sent s) rq k
      end
  | Err _ => js_state (ct_store s') = reg ∧
      (ct_sent s' = ct_sent s ∨ ∃ rest, ct_sent s' = ct_sent s ++ rq :: rest ∧
        ∀ k, answer MeshConnector (ct_sent s) rq k → is_ok (validate_path_segment "connector_id" (mc_id k)) = true →
          delete_request (app_cloudflare app) (mc_id k) ∈ rest)
  end.
Proof.
  intros rq reg. unfold register_node. unfold mbind at 1, ST_bind. destruct (prepare_node _ _ _ _ s) as [rp s1] eqn:Ep.
  apply prepare_node_inv in Ep as [E1 Hp]. fold rq in Hp. destruct rp as [[n tok]|e].
  2: { rw E1. split; [done|]. destruct Hp as [-> |Hp]; auto. }
  destruct Hp as (Hk & Ho & Hc). unfold finish_registration. unfold mbind at 1, ST_bind, try_, in_store.
  destruct (insert_node _ _ _) as [ri st'] eqn:Ei. apply insert_node_inv in Ei. rw E1 in Ei. fold reg in Ei. destruct ri as [n'|e].
  { destruct Ei as [-> Ei]. exists n. split_and!; try done. destruct (cf_connector_id n) as [id|]; [|by destruct Hc as [? ->]].
    destruct Hc as (k & _ & ? & ? & _). by exists k. }
  unfold mbind at 1, ST_bind. destruct (cf_connector_id n) as [id|]; cbn; [|destruct Hc as [_ ->]; auto].
  destruct Hc as (k & rest & -> & Hk' & Es). set (s2 := mk_Ctl st' (ct_sent s1)).
  pose proof (cleanup_store app (mc_id k) s2) as Hst. pose proof (cleanup_sent app (mc_id k) s2) as Hd.
  destruct (cleanup_grows app (mc_id k) s2) as [l Hg].
  destruct (cleanup_connector _ _ s2) as [rc s3] eqn:Ecl. assert (rc = Ok ()) as ->.
  { apply (f_equal fst) in Ecl. unfold cleanup_connector, ignore in Ecl. by destruct (delete_mesh_connector _ _ _). }
  cbn in Hst, Hd, Hg. split; [by cbn; rw Hst|]. right. exists (rest ++ l). cbn. split; [by rw Hg Es -app_assoc|].
  intros k' Ha Hv. assert (k' = k) as -> by by eapply answer_fun. rw (Hd Hv) in Hg. cbn in Hg. apply app_inv_head in Hg as <-.
  apply elem_of_app. right. by apply list_elem_of_singleton.
Qed.
End authorised.

(** ** Examples *)
Module ControlWitness.
#[local] Existing Instance Toy.toy_blake3.
#[local] Existing Instance Toy.toy_hex.
#[local] Instance silent : Upstream := λ _ _, None.
#[local] Instance no_envelopes {T} : Codec (Envelope T) := {| to_vec _ := None; from_slice _ := None |}.

Definition org1 : Org := mk_Org "studio" "Studio" ["a@x.org"] 5.
Definition draw : Draw := mk_Draw 5 "0123456789" ("k1", "k2") "u1".
Definition node1 : Node :=
  mk_Node "0123456789" "studio" "laptop" "a@x.org" ClientDevice None None None None (Some (hash_node_key "k1k2")) None None 5 5.
Definition beat : HeartbeatRequest := mk_HeartbeatRequest "0123456789" "peer" (Some "100.96.0.7") None.
Definition node2 : Node := reported draw beat (Some "100.96.0.7") node1.
Definition snapshots : list RegistrySnapshot :=
  [empty_registry; mk_RegistrySnapshot [org1] []; mk_RegistrySnapshot [org1] [node1]; mk_RegistrySnapshot [org1] [node2]].
#[local] Instance snapshot_codec : Codec RegistrySnapshot := Toy.table_codec snapshots.
#[local] Instance snapshot_laws : CodecLaws RegistrySnapshot := Toy.table_codec_laws snapshots.

Definition app : AppState := mk_AppState (mk_CloudflareClient "https://api" "acct" "cf") "https://api" "acct" (λ _, None) None.
Definition disk0 : Fs := {[["srv"] := Dir]}.
Definition start : Ctl := mk_Ctl (mk_JsonStore ["srv"; "registry.json"] (mk_World disk0 []) empty_registry) [].
Definition admin : option string := Some "Bearer secret".
Definition register : ApiRequest := QRegisterNode "studio" (mk_RegisterNodeRequest "laptop" " A@x.org" ClientDevice None).
Definition events : list event :=
  [Request [] draw admin (QCreateOrg (mk_CreateOrgRequest "studio" "Studio" ["A@x.org "; "a@X.org"]));
   Request [None; None; Some 3] draw admin register; Request [] (mk_Draw 5 "0123456789" ("k1", "k2") "u2") admin register; Restart;
   Request [] (mk_Draw 5 "0123456789" ("k1", "k2") "u3") (Some "Bearer k1k2") (QHeartbeat beat)].

Lemma names_fresh uuid : tmp_name "registry.json" uuid ≠ "registry.json".
Proof.
  unfold tmp_name. change (file_stem "registry.json") with "registry". intros E.
  assert (E' : uuid +:+ ".tmp" = "json") by (by injection E). apply (f_equal String.length) in E' as El.
  rw string_length_append in El. destruct uuid; [done|cbn in El; lia].
Qed.

Lemma start_inv : store_inv ["srv"] "registry.json" (ct_store start).
Proof.
  split; [done| |done|].
  - split; [|done| |]; cbn; unfold disk0.
    + intros q c n [[= Hq] _]%lookup_singleton_Some. by destruct q as [|? [|]].
    + split; [by intros ?%list_elem_of_singleton|]. by intros n t [_ ?]%lookup_singleton_Some.
    + by intros c t [_ ?]%lookup_singleton_Some.
  - split; cbn; [constructor|constructor|]. by intros n Hn%elem_of_nil.
Qed.

Definition final : Ctl := foldl (event_step app "secret") start events.

(** The organisation and the node are registered although the second write fails once, the server restarts, and the node's
    heartbeat sets its address. *)
Lemma registry_survives_witness :
  js_state (ct_store final) = mk_RegistrySnapshot [org1] [node2] ∧ registry_ok (js_state (ct_store final)) ∧
  (open ["srv"; "registry.json"] (mk_World (disk_of final) [])).1 =
    Ok (mk_JsonStore ["srv"; "registry.json"] (mk_World (disk_of final) []) (js_state (ct_store final))).
Proof. split; [by vm_compute|]. exact (registry_survives ["srv"] "registry.json" names_fresh app "secret" start events start_inv). Defined.

Definition started : Ctl := foldl (event_step app "secret") start (take 4 events).
Definition beating : result ControlError ApiResponse * Ctl := serve app "secret" (mk_Draw 5 "0123456789" ("k1", "k2") "u3") (Some "Bearer k1k2") (QHeartbeat beat) started.

Lemma control_authorised_witness :
  beating.1 = Ok AOk ∧ js_state (ct_store beating.2) = mk_RegistrySnapshot [org1] [node2] ∧ ct_sent beating.2 = ct_sent started.
Proof.
  split_and!; [by vm_compute|by vm_compute|].
  apply (control_authorised app "secret" (mk_Draw 5 "0123456789" ("k1", "k2") "u3") (Some "Bearer k1k2") (QHeartbeat beat) started beating.1 beating.2).
  - by vm_compute.
  - unfold beating. by destruct (serve _ _ _ _ _ _).
Defined.
End ControlWitness.

(** ** Requests that overlap *)
Module ControlRaces.
Import ControlWitness.
#[local] Existing Instance Toy.toy_blake3.
#[local] Existing Instance Toy.toy_hex.
#[local] Existing Instance snapshot_codec.

Definition connector1 : MeshConnector := mk_MeshConnector "c1" "syn-studio-01234567" None None None.
#[local] Instance connector_codec : Codec (Envelope MeshConnector) :=
  {| to_vec _ := None; from_slice b := match b with [x01] => Some (mk_Envelope true [] (Some connector1)) | _ => None end |}.
#[local] Instance connectors_codec : Codec (Envelope (list MeshConnector)) :=
  {| to_vec _ := None; from_slice b := match b with [x02] => Some (mk_Envelope true [] (Some [connector1])) | _ => None end |}.
#[local] Instance registrations_codec : Codec (Envelope (list RawRegistration)) :=
  {| to_vec _ := None; from_slice b := match b with [x03] => Some (mk_Envelope true [] (Some [])) | _ => None end |}.
#[local] Instance token_codec : Codec (Envelope string) :=
  {| to_vec _ := None; from_slice b := match b with [x04] => Some (mk_Envelope true [] (Some "token")) | _ => None end |}.
#[local] Instance unit_codec : Codec (Envelope ()) := {| to_vec _ := None; from_slice _ := None |}.
#[local] Instance cloudflare : Upstream := λ _ rq,
  match rq_method rq with
  | POST | DELETE => Some (mk_HttpResponse 200 [x01])
  | GET =>
      Some (mk_HttpResponse 200
        (if bool_decide (rq_url rq = url_of (app_cloudflare app) LIST_CONNECTORS) then [x02]
         else if bool_decide (rq_url rq = url_of (app_cloudflare app) LIST_REGISTRATIONS) then [x03] else [x04]))
  end.

Definition with_org : Ctl := mk_Ctl (mk_JsonStore ["srv"; "registry.json"] (mk_World disk0 []) (mk_RegistrySnapshot [org1] [])) [].
Definition mesh_request : RegisterNodeRequest := mk_RegisterNodeRequest "server" "a@x.org" MeshNode None.
Definition mesh_node : Node :=
  mk_Node "0123456789" "studio" "server" "a@x.org" MeshNode (Some "c1") None None None (Some (hash_node_key "k1k2")) None None 5 5.
#[local] Instance mesh_snapshot_codec : Codec RegistrySnapshot := Toy.table_codec [mk_RegistrySnapshot [org1] [mesh_node]].

(** A reconciliation that removes unknown connectors, while a registration is between creating its connector and writing the
    node, deletes the connector; the registration then succeeds with it. *)
Example reconcile_deletes_unfinished_registration :
  ∃ n token s1 s2 r s3 resp,
    prepare_node app draw "studio" mesh_request with_org = (Ok (n, token), s1) ∧ cf_connector_id n = Some "c1" ∧
    run_reconcile app draw true s1 = (Ok r, s2) ∧ delete_request (app_cloudflare app) "c1" ∈ ct_sent s2 ∧
    finish_registration app draw n token s2 = (Ok resp, s3) ∧ nodes (js_state (ct_store s3)) = [n] ∧
    rs_connector_token resp = Some "token".
Proof.
  do 7 eexists. split; [by vm_compute|]. split; [by vm_compute|]. split; [by vm_compute|]. split; [|split; [by vm_compute|split_and!; by vm_compute]].
  vm_compute. repeat first [left|right].
Qed.

(** Of two updates of an organisation that overlap, the second writes back what it read before the first. *)
Example org_update_lost :
  let read := mk_Org "studio" "Studio" ["a@x.org"] 5 in
  ∃ first second, patch_org (mk_UpdateOrgRequest (Some "New name") None) read = Ok first ∧
    patch_org (mk_UpdateOrgRequest None (Some ["a@x.org"; "b@x.org"])) read = Ok second ∧
    org_name first = "New name" ∧ org_members second = ["a@x.org"; "b@x.org"] ∧
    ∀ st, find_org st "studio" = Some first → nodes st = [] →
      find_org (mk_RegistrySnapshot (update_first (λ x, bool_decide (org_id x = org_id second)) (λ _, second) (orgs st)) []) "studio" = Some second ∧
      org_name second = "Studio".
Proof.
  eexists _, _. split; [done|]. split; [done|]. split; [done|]. split; [done|]. intros [os ns] Hf _. split; [|done].
  unfold find_org in *. cbn in *. induction os as [|x os IH]; [done|]. cbn in Hf |- *.
  destruct (bool_decide (org_id x = "studio")) eqn:E; [done|]. cbn. rw E. by apply IH.
Qed.
End ControlRaces.
