(* ===== verification/AdminUi.v ===== *)
(** * The files of the administration pages

    [synergos-control/src/api/ui.rs]: requests below [/ui/] are answered with files of one
    directory, without a token.  A request is joined to the directory part by part, the result
    is resolved through its links, and the file is read only if what it resolved to is still
    below the directory. *)

From Stdlib Require Import Strings.Ascii.
From S2P Require Import Prelude Crypto Fs FsPlain Manifest Registry Cloudflare Control.

Inductive AssetReadError := Missing | Unsafe.

(** The parts of a request; [None] for one that is not a plain name. *)
Definition is_normal_segment (s : string) : bool := negb (bool_decide (s = "..")).
Fixpoint join_segments (resolved : path) (l : list string) : option path :=
  match l with
  | [] => Some resolved
  | s :: l =>
      if bool_decide (s = "") || bool_decide (s = ".") then join_segments resolved l
      else if is_normal_segment s then join_segments (resolved ++ [s]) l
      else None
  end.
Definition safe_join (dist : path) (request_path : string) : option path :=
  if starts_with_char "/" request_path then None
  else
    resolved ← join_segments dist (split_on "/" request_path);
    Some (if bool_decide (resolved = dist) then resolved ++ ["index.html"] else resolved).

Definition missing {A} (m : IO A) : ST World AssetReadError A := λ w,
  let '(r, w) := m w in (map_err (λ _, Missing) r, w).

(** [is_file]: any error counts as no. *)
Definition is_file (p : path) : IO bool :=
  r ← try_ (metadata p); mret (match r with Ok (File _) => true | _ => false end).

Definition read_contained_file (dist : path) (request_path : string) : ST World AssetReadError (path * bytes) :=
  target ← lift_result (ok_or (safe_join dist request_path) Unsafe);
  canonical_dist ← missing (canonicalize dist);
  canonical_target ← missing (canonicalize target);
  if negb (path_starts_with canonical_dist canonical_target) then throw Unsafe
  else
    f ← missing (is_file canonical_target);
    if negb f then throw Missing
    else
      b ← missing (read canonical_target);
      mret (canonical_target, b).

(** [Path::extension]: of the last part that is a name. *)
Definition last_name (l : list string) : option string :=
  match last (filter (λ s, s ≠ "" ∧ s ≠ ".") l) with
  | Some s => if bool_decide (s = "..") then None else Some s
  | None => None
  end.
Definition extension (l : list string) : option string :=
  name ← last_name l;
  match last_dot name with
  | Some (S n) => Some (String.substring (S (S n)) (String.length name - S (S n)) name)
  | _ => None
  end.

Definition mime_for (p : path) : string :=
  match to_ascii_lowercase <$> extension p with
  | Some "html" => "text/html; charset=utf-8"
  | Some "js" | Some "mjs" => "text/javascript; charset=utf-8"
  | Some "wasm" => "application/wasm"
  | Some "css" => "text/css; charset=utf-8"
  | Some "json" | Some "map" => "application/json; charset=utf-8"
  | Some "svg" => "image/svg+xml"
  | Some "png" => "image/png"
  | Some "jpg" | Some "jpeg" => "image/jpeg"
  | Some "ico" => "image/x-icon"
  | Some "woff2" => "font/woff2"
  | Some "txt" => "text/plain; charset=utf-8"
  | _ => "application/octet-stream"
  end.

Inductive UiResponse :=
| UiFile (content_type : string) (body : bytes)
| UiNotFound
| UiNotConfigured
| UiNotBuilt
| UiRedirect (to : string).

Definition file_response (p : path) (b : bytes) : UiResponse := UiFile (mime_for p) b.

(** Nothing here fails but with an answer. *)
Definition serve_relative (app : AppState) (request_path : string) (w : World) : UiResponse * World :=
  match app_ui_dist app with
  | None => (UiNotConfigured, w)
  | Some dist =>
      let '(r, w) := read_contained_file dist request_path w in
      match r with
      | Ok (target, b) => (file_response target b, w)
      | Err Unsafe => (UiNotFound, w)
      | Err Missing =>
          if bool_decide (is_Some (extension (split_on "/" request_path))) then (UiNotFound, w)
          else
            let '(r, w) := read_contained_file dist "index.html" w in
            match r with
            | Ok (index, b) => (file_response index b, w)
            | Err _ => (UiNotBuilt, w)
            end
      end
  end.

Definition redirect_to_ui : UiResponse := UiRedirect "/ui/".
Definition serve_index (app : AppState) : World → UiResponse * World := serve_relative app "index.html".
Definition serve_asset (app : AppState) (request_path : string) : World → UiResponse * World := serve_relative app request_path.

(** ** What can be read *)
Lemma join_segments_below dist l p : join_segments dist l = Some p → ∃ local, p = dist ++ local ∧ ".." ∉ local.
Proof.
  revert dist. induction l as [|s l IH]; intros dist; cbn [join_segments].
  { intros [= <-]. exists []. rw app_nil_r. split; [done|apply not_elem_of_nil]. }
  destruct (_ || _); [apply IH|]. unfold is_normal_segment. case_bool_decide as E; [done|]. cbn [negb].
  intros (local & -> & Hl)%IH. exists (s :: local). rw -app_assoc. split; [done|]. rw not_elem_of_cons. auto.
Qed.

Lemma safe_join_below dist q p : safe_join dist q = Some p → ∃ local, p = dist ++ local ∧ ".." ∉ local ∧ local ≠ [].
Proof.
  unfold safe_join. destruct (starts_with_char _ _); [done|]. intros (r & (local & -> & Hl)%join_segments_below & E)%bind_Some.
  injection E as <-. case_bool_decide as E.
  - exists (local ++ ["index.html"]). rw app_assoc. split; [done|]. split; [|by destruct local].
    rw not_elem_of_app list_elem_of_singleton. by split.
  - exists local. split_and!; try done. intros ->. by rw app_nil_r in E.
Qed.

(** A file below the directory, as the links lead, at a path without links. *)
Definition contained (d : Fs) (dist : path) (p : path) (b : bytes) : Prop :=
  ∃ croot, canonicalize_at d dist = Ok croot ∧ croot `prefix_of` p ∧ real_dir d (parent p) ∧ node_at d p = Some (File b).

Lemma path_starts_with_prefix base p : path_starts_with base p = true → base `prefix_of` p.
Proof. unfold path_starts_with. rw bool_decide_eq_true. intros E. exists (drop (length base) p). by rw -{1}E take_drop. Qed.

Lemma missing_query {A} (op : Fs → result IoError A) w r w' : missing (query op) w = (r, w') →
  disk w' = disk w ∧ ∀ a, r = Ok a → op (disk w) = Ok a.
Proof.
  unfold missing, query, effect, next_fault. destruct w as [d [|[k|] fs]]; cbn; destruct (op d) as [a|e]; cbn; intros [= <- <-]; naive_solver.
Qed.

Lemma missing_is_file p w r w' : missing (is_file p) w = (r, w') → disk w' = disk w.
Proof.
  unfold missing, is_file, mbind, ST_bind, try_, metadata, query, effect, next_fault.
  destruct w as [d [|[k|] fs]]; cbn; destruct (metadata_at d p) as [a|e]; cbn; by intros [= <- <-].
Qed.

Lemma read_physical d p b :
  normal p ∧ real_dir d (parent p) ∧ (node_at d p = Some Dir ∨ ∃ b, node_at d p = Some (File b)) → read_at d p = Ok b →
  node_at d p = Some (File b).
Proof.
  intros (Hn & Hr & Ht). destruct p as [|c p _] using rev_ind; [by destruct Ht as [Ht|[? Ht]]; cbn in *|].
  rw parent_snoc in Hr. assert (Hc : c ≠ "..") by (intros ->; apply Hn; set_solver). rw node_at_snoc in Ht |- *.
  rw read_entry //; [by apply (normal_take _ (length p)) in Hn; rw take_app_length in Hn| |].
  - intros t E. rw E in Ht. naive_solver.
  - destruct Ht as [Ht|[b' Ht]]; rw Ht; [done|]. by intros [= ->].
Qed.

Lemma read_contained dist q w r w' : read_contained_file dist q w = (r, w') →
  disk w' = disk w ∧ ∀ p b, r = Ok (p, b) → contained (disk w) dist p b.
Proof.
  unfold read_contained_file. unfold mbind at 1, ST_bind, lift_result. destruct (safe_join dist q) as [t|]; cbn [ok_or]; [|by intros [= <- <-]].
  unfold mbind at 1, ST_bind. destruct (missing (canonicalize dist) w) as [rd w1] eqn:E1. apply missing_query in E1 as [D1 E1].
  destruct rd as [croot|e]; [|by intros [= <- <-]]. specialize (E1 croot eq_refl).
  unfold mbind at 1, ST_bind. destruct (missing (canonicalize t) w1) as [rt w2] eqn:E2. apply missing_query in E2 as [D2 E2].
  destruct rt as [p|e]; [|intros [= <- <-]; by rw D2]. specialize (E2 p eq_refl). rw D1 in E2 D2.
  destruct (path_starts_with croot p) eqn:Ep; [|by intros [= <- <-]]. cbn [negb]. apply path_starts_with_prefix in Ep.
  unfold mbind at 1, ST_bind. destruct (missing (is_file p) w2) as [rf w3] eqn:E3. apply missing_is_file in E3.
  destruct rf as [f|e]; [|intros [= <- <-]; by rw E3]. destruct f; cbn [negb]; [|intros [= <- <-]; by rw E3].
  unfold mbind at 1, ST_bind. destruct (missing (read p) w3) as [rb w4] eqn:E4. apply missing_query in E4 as [D4 E4].
  destruct rb as [b|e]; intros [= <- <-]; (split; [congruence|]); [|done]. intros p' b' [= <- <-].
  specialize (E4 b eq_refl). rw E3 D2 in E4. exists croot. split_and!; try done.
  - by destruct (canonicalize_physical _ _ _ E2) as (_ & ? & _).
  - eapply read_physical; [by eapply canonicalize_physical|exact E4].
Qed.

(** Whatever path is asked for and whatever fails: nothing is changed, and what is sent back is the content of a file that lies
    below the configured directory after every link is followed, with the type its name there has. *)
Theorem ui_confined app q w :
  let '(r, w') := serve_asset app q w in
  disk w' = disk w ∧
  match r with
  | UiFile t b => ∃ dist p, app_ui_dist app = Some dist ∧ contained (disk w) dist p b ∧ t = mime_for p
  | _ => True
  end.
Proof.
  unfold serve_asset, serve_relative. destruct (app_ui_dist app) as [dist|]; [|done].
  destruct (read_contained_file dist q w) as [r w1] eqn:E1. apply read_contained in E1 as [D1 E1].
  destruct r as [[p b]|[]]; [|destruct (bool_decide _); [by rw D1|]|by rw D1].
  { split; [done|]. exists dist, p. split_and!; try done. by apply E1. }
  destruct (read_contained_file dist "index.html" w1) as [r w2] eqn:E2. apply read_contained in E2 as [D2 E2]. rw D1 in D2 E2.
  destruct r as [[p b]|e]; (split; [done|]); [|done]. exists dist, p. split_and!; try done. by apply E2.
Qed.

Lemma join_names dist l : (∀ s, s ∈ l → s ≠ "" ∧ s ≠ "." ∧ s ≠ "..") → join_segments dist l = Some (dist ++ l).
Proof.
  revert dist. induction l as [|s l IH]; intros dist Hl; cbn [join_segments]; [by rw app_nil_r|].
  destruct (Hl s) as (H1 & H2 & H3); [by left|]. unfold is_normal_segment. rw !bool_decide_eq_false_2 //. cbn [orb negb].
  rw IH; [|by rw -app_assoc]. intros x Hx. apply Hl. by right.
Qed.

Lemma canonicalize_file d p b : normal p → real_dir d (parent p) → node_at d p = Some (File b) → p ≠ [] → canonicalize_at d p = Ok p.
Proof.
  intros Hn Hr Hf Hne. destruct p as [|c p _] using rev_ind; [done|]. rw parent_snoc in Hr. rw node_at_snoc in Hf.
  rw canonicalize_entry //; [by apply (normal_take _ (length p)) in Hn; rw take_app_length in Hn|intros ->; apply Hn; set_solver| |].
  - intros t E. by rw E in Hf.
  - by rw Hf.
Qed.

(** A file that lies below the directory without a link in between is served. *)
Lemma file_served app dist q b d :
  app_ui_dist app = Some dist → starts_with_char "/" q = false → (∀ s, s ∈ split_on "/" q → s ≠ "" ∧ s ≠ "." ∧ s ≠ "..") →
  normal dist → real_dir d dist → real_dir d (parent (dist ++ split_on "/" q)) → node_at d (dist ++ split_on "/" q) = Some (File b) →
  split_on "/" q ≠ [] →
  (serve_asset app q (mk_World d [])).1 = UiFile (mime_for (dist ++ split_on "/" q)) b.
Proof.
  intros Ha Hs Hl Hn Hd Hr Hf Hne. unfold serve_asset, serve_relative. rw Ha. set (p := dist ++ split_on "/" q) in *.
  assert (Hj : safe_join dist q = Some p).
  { unfold safe_join. rw Hs (join_names _ _ Hl). cbn. fold p. rw bool_decide_eq_false_2 //. intros E.
    apply Hne. apply (app_inv_head dist). by rw app_nil_r. }
  assert (Hnp : normal p). { intros [?|Hin]%elem_of_app; [done|]. by destruct (Hl _ Hin) as (_ & _ & ?). }
  assert (Hc : canonicalize_at d p = Ok p). { apply (canonicalize_file d p b); try done. unfold p. by destruct dist. }
  assert (Hm : metadata_at d p = Ok (File b)) by (unfold metadata_at; rw Hc; cbn; by rw Hf).
  assert (Hrd : read_at d p = Ok b) by (unfold read_at; by rw Hm).
  assert (Hp : path_starts_with dist p = true) by (unfold path_starts_with, p; rw take_app_length; by apply bool_decide_eq_true_2).
  unfold read_contained_file, is_file, mbind, ST_bind, lift_result, missing, canonicalize, metadata, read, query, effect, next_fault, try_.
  rw Hj. cbn. rw canonicalize_real_dir //. cbn. rw Hc. cbn. rw Hp. cbn. rw Hm. cbn. rw Hrd. done.
Qed.

(** ** Examples *)
Module UiWitness.
Definition tree : Fs := {[ ["ui"] := Dir; ["ui"; "index.html"] := File [x49]; ["ui"; "app"] := Dir; ["ui"; "app"; "a.JS"] := File [x4a];
  ["ui"; "out"] := Symlink ["etc"]; ["ui"; "in"] := Symlink ["ui"; "app"]; ["etc"] := Dir; ["etc"; "shadow.txt"] := File [x53] ]}.
Definition ui_app : AppState := mk_AppState (mk_CloudflareClient "" "" "") "" "" (λ _, None) (Some ["ui"]).
Definition ask (q : string) : UiResponse := (serve_asset ui_app q (mk_World tree [])).1.

Example ui_answers :
  ask "app/a.JS" = UiFile "text/javascript; charset=utf-8" [x4a] ∧ ask "in/a.JS" = UiFile "text/javascript; charset=utf-8" [x4a] ∧
  ask "some/page" = UiFile "text/html; charset=utf-8" [x49] ∧ ask "app/b.js" = UiNotFound ∧ ask "out/shadow.txt" = UiNotFound ∧
  ask "app/../../etc/shadow.txt" = UiNotFound ∧ ask "/etc/shadow.txt" = UiNotFound ∧ ask "./" = UiFile "text/html; charset=utf-8" [x49].
Proof. by vm_compute. Qed.
End UiWitness.
