(* ===== verification/Custody.v ===== *)
(** * Custody of objects

    [synergos-custody]: objects are admitted by a server, uploaded and downloaded by its clients
    with signed, expiring addresses, certified with signed receipts, and reclaimed.  Everything is
    kept in one directory, which belongs to the store alone and holds regular files only: it is a
    map from names to contents.  A file is written under a name of its own and then linked to
    where it belongs, if nothing is there.

    Each disk access may fail, by an entry of a list of faults; if everything fails from some
    access on, that is a process that was killed there.  Requests on one object exclude each other
    by a lock per key, so a request is one step; the keys that other requests hold at the time are
    an argument, and a lock that is not free counts as not obtained within its ten seconds.  SHA-256, HMAC, [chrono],
    [uuid], [url] and the quoting of JSON strings are parameters; the clock and random names are
    arguments. *)

From Stdlib Require Import Strings.Ascii.
From stdpp Require Import pretty.
From S2P Require Import Prelude Crypto Fs Manifest Glob Registry Cloudflare Control.

Class Sha256 := sha256 : bytes → bytes.
Class Sha256Laws `{Sha256} : Prop := sha256_length : ∀ m, length (sha256 m) = 32.
Class Hmac := hmac : bytes → bytes → bytes.
Class HmacLaws `{Hmac} : Prop := hmac_length : ∀ k m, length (hmac k m) = 32.
(** Instants are nanoseconds since 1970. *)
Class Chrono := {
  parse_from_rfc3339 : string → option Z;
  to_rfc3339_millis : Z → string;
}.
Class UuidText := is_uuid : string → bool.
(** [Url]: the address, a path and query pairs. *)
Class UrlText := with_path_and_query : string → string → list (string * string) → string.
(** [serde_json::to_string] of a string: it ends where its text ends. *)
Class JsonText := json_string : string → string.
Class JsonTextLaws `{JsonText} : Prop := json_string_delimited : ∀ a b x y, json_string a +:+ x = json_string b +:+ y → a = b ∧ x = y.
(** What [HeaderValue::from_str] admits. *)
Class HeaderText := is_header_value : string → bool.

(** ** Errors *)
Inductive CustodyError := CuInvalid | CuDenied | CuNotFound | CuConflict | CuPrecondition | CuUnavailable.
Definition custody_status (e : CustodyError) : N * string :=
  match e with
  | CuInvalid => (400%N, "invalid_custody_request")
  | CuDenied => (403%N, "custody_access_denied")
  | CuNotFound => (404%N, "custody_object_not_found")
  | CuConflict => (409%N, "custody_operation_conflict")
  | CuPrecondition => (412%N, "custody_object_exists")
  | CuUnavailable => (503%N, "custody_unavailable")
  end.

(** ** The contract *)
Definition is_hex_lower (b : byte) : bool := let x := Byte.to_N b in ((48 <=? x) && (x <=? 57) || (97 <=? x) && (x <=? 102))%N.
Definition hex_digest (value : string) : bool := (String.length value =? 64)%nat && forallb is_hex_lower (as_bytes value).

Record Admission := mk_Admission {
  operation_id : string;
  opaque_object_id : string;
  content_hash : string;
  byte_length : N;
  ad_expires_at : string;
  content_type : string;
}.
Global Instance Admission_eq_dec : EqDecision Admission.
Proof. solve_decision. Defined.

Record DownloadRequest := mk_DownloadRequest { dl_object_id : string; dl_expires_in : N; dl_name : string }.
Record Capability := mk_Capability { cap_expires : Z; cap_signature : string; cap_name : string }.

Definition contains_line_break (s : string) : bool := existsb (λ b, byte_eqb b x0d || byte_eqb b x0a) (as_bytes s).
Definition DAY_AND_MINUTE : Z := 86460000000000.

Section contract.
Context `{Chrono, UuidText}.
Definition validate (a : Admission) (max_size : N) (now : Z) : result CustodyError () :=
  expires ← ok_or (parse_from_rfc3339 (ad_expires_at a)) CuInvalid;
  if negb (is_uuid (operation_id a)) || bool_decide (opaque_object_id a = "") || (2000 <? String.length (opaque_object_id a))%nat ||
     negb (String.prefix "sha256:" (content_hash a)) ||
     negb (hex_digest (String.substring 7 (String.length (content_hash a) - 7) (content_hash a))) ||
     (max_size <? byte_length a)%N || bool_decide (content_type a = "") || (200 <? String.length (content_type a))%nat ||
     contains_line_break (content_type a) || (expires <=? now)%Z || (now + DAY_AND_MINUTE <? expires)%Z
  then Err CuInvalid
  else Ok ().
Definition expired (a : Admission) (now : Z) : bool :=
  match parse_from_rfc3339 (ad_expires_at a) with Some expires => (expires <=? now)%Z | None => true end.
End contract.

(** ** Signatures *)
Definition hex_char (n : N) : ascii := ascii_of_N (if n <? 10 then 48 + n else 87 + n)%N.
(** [{:x}] of a digest. *)
Fixpoint lower_hex (m : bytes) : string :=
  match m with
  | [] => ""
  | b :: m => String (hex_char (Byte.to_N b / 16)) (String (hex_char (Byte.to_N b mod 16)) (lower_hex m))
  end.
Definition hex_value (c : ascii) : N := let n := N_of_ascii c in if (n <=? 57)%N then (n - 48)%N else (n - 87)%N.
(** The pairs of digits of a checked text. *)
Fixpoint of_hex (s : string) : bytes :=
  match s with
  | String a (String b s) => byte_of_N (16 * hex_value a + hex_value b) :: of_hex s
  | _ => []
  end.

Inductive Value :=
| VNull
| VBool (b : bool)
| VNum (z : Z)
| VStr (s : string)
| VArr (l : list Value)
| VObj (l : list (string * Value)).

Definition join_with (sep : string) (l : list string) : string :=
  match l with
  | [] => ""
  | s :: l => foldl (λ acc x, acc +:+ sep +:+ x) s l
  end.

Section signature.
Context `{Sha256, Hmac, JsonText}.
Definition object_key (id : string) : string := lower_hex (sha256 (as_bytes id)).

Fixpoint canonical (v : Value) : string :=
  match v with
  | VArr l => "[" +:+ join_with "," (canonical <$> l) +:+ "]"
  | VObj l =>
      let pairs := (λ kv : string * Value, (kv.1, canonical kv.2)) <$> l in
      "{" +:+ join_with "," ((λ kv, json_string kv.1 +:+ ":" +:+ kv.2) <$> isort (λ x y, string_leb x.1 y.1) pairs) +:+ "}"
  | VNull => "null"
  | VBool b => if b then "true" else "false"
  | VNum z => pretty z
  | VStr s => json_string s
  end.

Definition sign (secret value : string) : string := lower_hex (hmac (as_bytes secret) (as_bytes value)).
Definition verify_signature (secret value signature : string) : bool :=
  if negb (hex_digest signature) then false
  else bool_decide (hmac (as_bytes secret) (as_bytes value) = of_hex signature).
Definition capability_message (method key : string) (expires : Z) (name : string) : string :=
  canonical (VObj [("method", VStr method); ("key", VStr key); ("expires", VNum expires); ("name", VStr name)]).
End signature.

(** ** The directory *)
Abbreviation Files := (gmap string bytes).
Record Custody := mk_Custody { cu_files : Files; cu_faults : list (option nat); cu_locks : gset string }.

Abbreviation FileM A := (ST Custody IoError A).
Abbreviation CustodyM A := (ST Custody CustodyError A).

Definition with_files (d : Files) (s : Custody) : Custody := mk_Custody d (cu_faults s) (cu_locks s).
Definition with_locks (l : gset string) (s : Custody) : Custody := mk_Custody (cu_files s) (cu_faults s) l.

(** One access; [partial k] is what a failure leaves. *)
Definition access {A} (partial : nat → Files → Files) (op : Files → result IoError (A * Files)) : FileM A := λ s,
  let '(f, rest) := match cu_faults s with f :: rest => (f, rest) | [] => (None, []) end in
  match f with
  | Some k => (Err OtherIo, mk_Custody (partial k (cu_files s)) rest (cu_locks s))
  | None =>
      match op (cu_files s) with
      | Ok (a, d) => (Ok a, mk_Custody d rest (cu_locks s))
      | Err e => (Err e, mk_Custody (cu_files s) rest (cu_locks s))
      end
  end.
Definition looking {A} (op : Files → result IoError A) : FileM A := access (λ _ d, d) (λ d, a ← op d; Ok (a, d)).
Definition changing (op : Files → result IoError Files) : FileM () := access (λ _ d, d) (λ d, d' ← op d; Ok ((), d')).

Definition f_exists (name : string) : FileM bool := looking (λ d, Ok (bool_decide (is_Some (d !! name)))).
Definition f_read (name : string) : FileM bytes := looking (λ d, ok_or (d !! name) NotFound).
Definition f_len (name : string) : FileM N := looking (λ d, b ← ok_or (d !! name) NotFound; Ok (N.of_nat (length b))).
Definition f_create_new (name : string) : FileM () :=
  changing (λ d, match d !! name with None => Ok (<[name := []]> d) | Some _ => Err AlreadyExists end).
(** [write_all] at the end of an open file: a failure leaves a part of it. *)
Definition f_append (name : string) (b : bytes) : FileM () :=
  access (λ k d, alter (λ c, c ++ take k b) name d) (λ d, Ok ((), alter (λ c, c ++ b) name d)).
(** [flush] and [sync_all], of a file or of the directory. *)
Definition f_sync : FileM () := looking (λ _, Ok ()).
(** [hard_link]: nothing is written under either name afterwards. *)
Definition f_link (source destination : string) : FileM () :=
  changing (λ d, b ← ok_or (d !! source) NotFound;
                 match d !! destination with None => Ok (<[destination := b]> d) | Some _ => Err AlreadyExists end).
Definition f_remove (name : string) : FileM () :=
  changing (λ d, match d !! name with Some _ => Ok (delete name d) | None => Err NotFound end).

(** [From<io::Error>]: of errors that [?] passes on. *)
Definition io {A} (m : FileM A) : CustodyM A := λ s, let '(r, s) := m s in (map_err (λ _, CuUnavailable) r, s).

(** The outcome, for a [match] on the kind of the error. *)
Definition attempt {A} (m : FileM A) : CustodyM (result IoError A) := λ s, let '(r, s) := m s in (Ok r, s).

(** ** Durable files *)
(** A file that is removed at the end, however the computation ends. *)
Definition with_partial {E A} (part : string) (m : ST Custody E A) : ST Custody E A := λ s,
  let '(r, s) := m s in let '(_, s) := f_remove part s in (r, s).

Definition publish_sync (source destination : string) : FileM () := _ ← f_link source destination; f_sync.
Definition write_new (part name : string) (b : bytes) : FileM () :=
  with_partial part (
    _ ← f_create_new part;
    _ ← f_append part b;
    _ ← f_sync;
    _ ← f_sync;
    publish_sync part name).

(** [str::strip_suffix]. *)
Fixpoint strip_suffix (suffix s : string) : option string :=
  if bool_decide (s = suffix) then Some ""
  else match s with
       | String c s' => String c <$> strip_suffix suffix s'
       | EmptyString => None
       end.
Definition part_name (uuid : string) : string := uuid +:+ ".part".
Definition path_of (key suffix : string) : string := key +:+ "." +:+ suffix.

(** ** Locks *)
Definition lock (key : string) : CustodyM () := λ s,
  if bool_decide (key ∈ cu_locks s) then (Err CuUnavailable, s) else (Ok (), with_locks ({[key]} ∪ cu_locks s) s).
Definition unlock (key : string) (s : Custody) : Custody := with_locks (cu_locks s ∖ {[key]}) s.
(** The guard is dropped at the end, however the computation ends. *)
Definition guarded {A} (key : string) (m : CustodyM A) : CustodyM A := λ s, let '(r, s) := m s in (r, unlock key s).
Definition with_lock {A} (key : string) (m : CustodyM A) : CustodyM A := _ ← lock key; guarded key m.

(** ** The store *)
(** What a request's body delivers. *)
Inductive BodyItem := Chunk (b : bytes) | BodyError | Stalled.

(** The clock when a request begins, goes on and ends, and the random names it draws. *)
Record Clock := mk_Clock { ck_start : Z; ck_then : Z; ck_end : Z; ck_uuid : string; ck_uuid2 : string }.

Section store.
Context `{Sha256, Hmac, JsonText, Chrono, UuidText, !Codec Admission}.

Definition remove_parts (l : list string) : FileM () :=
  for_each (λ name, match strip_suffix ".part" name with
                    | Some stem => if is_uuid stem then f_remove name else mret ()
                    | None => mret ()
                    end) l.

(** [Store::open] after the directory exists; [order] is the order of its entries. *)
Definition open_store (order : list string) (lock_free : bool) (u1 u2 : string) : FileM () :=
  _ ← changing (λ d, Ok (match d !! "custody.lock" with None => <["custody.lock" := []]> d | Some _ => d end));
  if negb lock_free then throw OtherIo
  else
    _ ← remove_parts order;
    with_partial (part_name u1) (write_new (part_name u2) (part_name u1) (as_bytes "custody publication probe")).

Definition admission (key : string) : CustodyM Admission :=
  reclaimed ← io (f_exists (path_of key "reclaimed"));
  if (reclaimed : bool) then throw CuConflict
  else
    r ← attempt (f_read (path_of key "json"));
    match r with
    | Ok b => lift_result (ok_or (from_slice b) CuUnavailable)
    | Err NotFound => throw CuNotFound
    | Err _ => throw CuUnavailable
    end.

Definition record_operation (u : string) (operation_path : string) (input : Admission) : CustodyM () :=
  r ← attempt (f_read operation_path);
  match r with
  | Ok b =>
      previous ← lift_result (ok_or (from_slice b) CuUnavailable);
      if bool_decide (previous = input) then mret () else throw CuConflict
  | Err NotFound =>
      b ← lift_result (ok_or (to_vec input) CuInvalid);
      io (write_new (part_name u) operation_path b)
  | Err _ => throw CuUnavailable
  end.

Definition record_admission (u key : string) (input : Admission) : CustodyM string :=
  r ← try_ (admission key);
  match r with
  | Ok previous => if bool_decide (previous = input) then mret key else throw CuConflict
  | Err CuNotFound =>
      b ← lift_result (ok_or (to_vec input) CuInvalid);
      _ ← io (write_new (part_name u) (path_of key "json") b);
      mret key
  | Err e => throw e
  end.

Definition admit_object (c : Clock) (input : Admission) : CustodyM string :=
  let operation_key := object_key ("operation:" +:+ operation_id input) in
  let key := object_key (opaque_object_id input) in
  with_lock operation_key (
    with_lock key (
      _ ← record_operation (ck_uuid c) (path_of operation_key "operation") input;
      record_admission (ck_uuid2 c) key input)).

Definition present (key : string) (input : Admission) : CustodyM bool :=
  r ← attempt (f_len (path_of key "data"));
  match r with
  | Ok n => if (n =? byte_length input)%N then mret true else throw CuConflict
  | Err NotFound => mret false
  | Err _ => throw CuUnavailable
  end.

(** The length and the digest that an admission announces. *)
Definition agrees_with (b : bytes) (input : Admission) : bool :=
  (N.of_nat (length b) =? byte_length input)%N && bool_decide ("sha256:" +:+ lower_hex (sha256 b) = content_hash input).

(** The blocks of the file are read in one access. *)
Definition verify_file (key : string) (input : Admission) : CustodyM bool :=
  p ← present key input;
  if negb (p : bool) then mret false
  else
    _ ← io (f_len (path_of key "data"));
    b ← io (f_read (path_of key "data"));
    if negb (agrees_with b input) then throw CuConflict
    else
      _ ← io f_sync;
      mret true.

(** The loop over the body: what was received, and is in the file. *)
Fixpoint receive (part : string) (input : Admission) (body : list BodyItem) (got : bytes) : CustodyM bytes :=
  match body with
  | [] => mret got
  | Chunk b :: body =>
      let length := (N.of_nat (length got) + N.of_nat (length b))%N in
      if (u64_max <? length)%N || (byte_length input <? length)%N then throw CuInvalid
      else
        _ ← io (f_append part b);
        receive part input body (got ++ b)
  | BodyError :: _ => throw CuInvalid
  | Stalled :: _ => throw CuUnavailable
  end.

Definition put (c : Clock) (key : string) (input : Admission) (body : list BodyItem) : CustodyM () :=
  if expired input (ck_then c) then throw CuConflict
  else
    p ← present key input;
    if (p : bool) then throw CuPrecondition
    else
      let part := part_name (ck_uuid c) in
      with_partial part (
        _ ← io (f_create_new part);
        got ← receive part input body [];
        if negb (agrees_with got input) || expired input (ck_end c) then throw CuConflict
        else
          _ ← io f_sync;
          _ ← io f_sync;
          io (publish_sync part (path_of key "data"))).

Definition reclaim (c : Clock) (key : string) : CustodyM () :=
  with_lock key (
    t ← io (f_exists (path_of key "reclaimed"));
    _ ← (if (t : bool) then mret () else io (write_new (part_name (ck_uuid c)) (path_of key "reclaimed") (as_bytes "cancelled" ++ [x0a])));
    r ← attempt (f_remove (path_of key "data"));
    match r with
    | Ok _ | Err NotFound => mret ()
    | Err _ => throw CuUnavailable
    end).
End store.

(** ** Handlers *)
Record Config := mk_Config {
  cu_public_url : string;
  cu_node_id : string;
  cu_token : string;
  cu_receipt_secret : string;
  cu_max_object_bytes : N;
  cu_client_origins : list string;
}.

Record PutHeaders := mk_PutHeaders { h_if_none_match : option string; h_content_sha256 : option string; h_content_type : option string }.

Inductive CustodyRequest :=
| CuHealth
| CuAdmit (input : Admission)
| CuVerify (id : string)
| CuHead (id : string)
| CuDownload (input : DownloadRequest)
| CuReclaim (id : string)
| CuPutBytes (key : string) (cap : Capability) (headers : PutHeaders) (body : list BodyItem)
| CuGetBytes (key : string) (cap : Capability)
| CuOptions.

Inductive CustodyResponse :=
| CuReady (node_id : string)
| CuUpload (url : string) (headers : list (string * string))
| CuReceipt (receipt : Value) (signature : string)
| CuNull
| CuObject (length : N) (hash type : string)
| CuDownloadUrl (url : string)
| CuReclaimed
| CuCreated
| CuContent (length : string) (disposition : string) (body : bytes)
| CuNoContent.

Definition NANOS_PER_MILLI : Z := 1000000.
Definition timestamp_millis (t : Z) : Z := (t / NANOS_PER_MILLI)%Z.

Section handlers.
Context `{Sha256, Hmac, JsonText, Chrono, UuidText, UrlText, HeaderText, !Codec Admission}.

Definition authenticate (cfg : Config) (header : option string) : result CustodyError () :=
  let expected := sign (cu_receipt_secret cfg) (cu_token cfg) in
  ensure (match bearer header with Some v => verify_signature (cu_receipt_secret cfg) v expected | None => false end) CuDenied.

(** [cors]: the check; its headers are left out. *)
Definition cors (cfg : Config) (origin : option string) : result CustodyError () :=
  match origin with
  | Some o => ensure (bool_decide (o ∈ cu_client_origins cfg)) CuDenied
  | None => Ok ()
  end.

Definition capability_for (cfg : Config) (method key : string) (expires : Z) (name : string) : Capability :=
  mk_Capability expires (sign (cu_receipt_secret cfg) (capability_message method key expires name)) name.
Definition capability_url (cfg : Config) (method key : string) (expires : Z) (name : string) : string :=
  let cap := capability_for cfg method key expires name in
  with_path_and_query (cu_public_url cfg) ("/v1/custody/transfer/" +:+ key)
    [("expires", pretty (cap_expires cap)); ("signature", cap_signature cap); ("name", cap_name cap)].

Definition check_capability (cfg : Config) (now : Z) (method key : string) (cap : Capability) : result CustodyError () :=
  ensure (hex_digest key && (timestamp_millis now <? cap_expires cap)%Z &&
          verify_signature (cu_receipt_secret cfg) (capability_message method key (cap_expires cap) (cap_name cap)) (cap_signature cap))
    CuDenied.

Definition handle_admit (cfg : Config) (c : Clock) (input : Admission) : CustodyM CustodyResponse :=
  _ ← lift_result (validate input (cu_max_object_bytes cfg) (ck_start c));
  key ← admit_object c input;
  deadline ← lift_result (ok_or (parse_from_rfc3339 (ad_expires_at input)) CuInvalid);
  let expires := Z.min (timestamp_millis deadline) (timestamp_millis (ck_end c) + 900000) in
  mret (CuUpload (capability_url cfg "PUT" key expires "")
    [("Content-Type", content_type input); ("If-None-Match", "*"); ("X-Content-SHA256", content_hash input)]).

Definition receipt_of (cfg : Config) (a : Admission) (expires : Z) : Value :=
  VObj [("operationId", VStr (operation_id a)); ("opaqueObjectId", VStr (opaque_object_id a));
    ("verifiedDigests", VArr [VObj [("algorithm", VStr "sha256");
      ("value", VStr (String.substring 7 (String.length (content_hash a) - 7) (content_hash a)))]]);
    ("byteLength", VNum (Z.of_N (byte_length a))); ("durability", VStr "durable"); ("locations", VArr [VStr (cu_node_id cfg)]);
    ("expiresAt", VStr (to_rfc3339_millis expires))].

Definition handle_verify (cfg : Config) (c : Clock) (id : string) : CustodyM CustodyResponse :=
  let key := object_key id in
  with_lock key (
    a ← admission key;
    if expired a (ck_start c) then throw CuConflict
    else
      ok ← verify_file key a;
      if negb (ok : bool) then throw CuNotFound
      else
        deadline ← lift_result (ok_or (parse_from_rfc3339 (ad_expires_at a)) CuUnavailable);
        let receipt := receipt_of cfg a (Z.min deadline (ck_end c + 300000000000)) in
        mret (CuReceipt receipt (sign (cu_receipt_secret cfg) (canonical receipt)))).

Definition handle_head (id : string) : CustodyM CustodyResponse :=
  let key := object_key id in
  with_lock key (
    r ← try_ (admission key);
    match r with
    | Ok a =>
        p ← present key a;
        mret (if (p : bool) then CuObject (byte_length a) (content_hash a) (content_type a) else CuNull)
    | Err CuNotFound => mret CuNull
    | Err e => throw e
    end).

Definition is_name_byte (b : byte) : bool :=
  is_ascii_alphanumeric b || byte_eqb b x2e || byte_eqb b x5f || byte_eqb b x2d.

Definition handle_download (cfg : Config) (c : Clock) (input : DownloadRequest) : CustodyM CustodyResponse :=
  if negb ((1 <=? dl_expires_in input)%N && (dl_expires_in input <=? 900)%N) || bool_decide (dl_name input = "") ||
     (100 <? String.length (dl_name input))%nat || negb (forallb is_name_byte (as_bytes (dl_name input)))
  then throw CuInvalid
  else
    let key := object_key (dl_object_id input) in
    with_lock key (
      a ← admission key;
      p ← present key a;
      if negb (p : bool) then throw CuNotFound
      else mret (CuDownloadUrl (capability_url cfg "GET" key (timestamp_millis (ck_end c) + Z.of_N (dl_expires_in input) * 1000) (dl_name input)))).

Definition handle_put (cfg : Config) (c : Clock) (key : string) (cap : Capability) (h : PutHeaders) (body : list BodyItem) :
    CustodyM CustodyResponse :=
  _ ← lift_result (check_capability cfg (ck_start c) "PUT" key cap);
  with_lock key (
    a ← admission key;
    if negb (bool_decide (h_if_none_match h = Some "*")) || negb (bool_decide (h_content_sha256 h = Some (content_hash a))) ||
       negb (bool_decide (h_content_type h = Some (content_type a)))
    then throw CuInvalid
    else
      _ ← put c key a body;
      mret CuCreated).

Definition disposition_of (name : string) : string :=
  "attachment; filename=" +:+ String "034" EmptyString +:+ name +:+ String "034" EmptyString.

(** The content is that of the file when it is opened: nothing changes a published file. *)
Definition handle_get (cfg : Config) (c : Clock) (key : string) (cap : Capability) : CustodyM CustodyResponse :=
  _ ← lift_result (check_capability cfg (ck_start c) "GET" key cap);
  with_lock key (
    a ← admission key;
    p ← present key a;
    if negb (p : bool) then throw CuNotFound
    else
      b ← io (f_read (path_of key "data"));
      if negb (is_header_value (pretty (byte_length a))) then throw CuUnavailable
      else if negb (is_header_value (disposition_of (cap_name cap))) then throw CuInvalid
      else mret (CuContent (pretty (byte_length a)) (disposition_of (cap_name cap)) b)).

(** [router]. *)
Definition custody_serve (cfg : Config) (c : Clock) (header origin : option string) (q : CustodyRequest) : CustodyM CustodyResponse :=
  match q with
  | CuPutBytes key cap h body => _ ← lift_result (cors cfg origin); handle_put cfg c key cap h body
  | CuGetBytes key cap => _ ← lift_result (cors cfg origin); handle_get cfg c key cap
  | CuOptions => _ ← lift_result (cors cfg origin); mret CuNoContent
  | _ =>
      _ ← lift_result (authenticate cfg header);
      match q with
      | CuHealth => mret (CuReady (cu_node_id cfg))
      | CuAdmit input => handle_admit cfg c input
      | CuVerify id => handle_verify cfg c id
      | CuHead id => handle_head id
      | CuDownload input => handle_download cfg c input
      | CuReclaim id => _ ← reclaim c (object_key id); mret CuReclaimed
      | _ => throw CuDenied
      end
  end.
End handlers.

(** A request at a time when other requests hold some locks, with what fails meanwhile; or the end of the process and a new
    start. *)
Inductive custody_event :=
| CuRequest (faults : list (option nat)) (others : gset string) (c : Clock) (header origin : option string) (q : CustodyRequest)
| CuStart (faults : list (option nat)) (order : list string) (lock_free : bool) (u1 u2 : string).

Definition custody_step `{Sha256, Hmac, JsonText, Chrono, UuidText, UrlText, HeaderText, !Codec Admission} (cfg : Config) (d : Files)
    (e : custody_event) : Files :=
  match e with
  | CuRequest faults others c header origin q => cu_files (custody_serve cfg c header origin q (mk_Custody d faults others)).2
  | CuStart faults order lock_free u1 u2 => cu_files (open_store order lock_free u1 u2 (mk_Custody d faults ∅)).2
  end.
