(* ===== verification/CustodyProps.v ===== *)
(** * Custody of objects: what holds

    The files of [Custody.v] as time passes: what every access, operation, handler and start of the
    process leaves in place ([good]), what the answers mean, and who gets one. *)

From Stdlib Require Import Strings.Ascii.
From stdpp Require Import pretty.
From S2P Require Import Prelude Crypto Fs Manifest Glob Registry Cloudflare Control Custody.

(** ** Names *)
Lemma append_inj a b s t : String.length s = String.length t → a +:+ s = b +:+ t → a = b ∧ s = t.
Proof.
  intros Hl. revert b. induction a as [|x a IH]; intros [|y b] E; [done| | |].
  - apply (f_equal String.length) in E. rw !string_length_append in E. cbn in E. lia.
  - apply (f_equal String.length) in E. rw !string_length_append in E. cbn in E. lia.
  - injection E as -> E. by destruct (IH _ E) as [-> ->].
Qed.

Lemma append_inv_l a s t : a +:+ s = a +:+ t → s = t.
Proof. induction a as [|x a IH]; [done|]. intros E. injection E as E. by apply IH. Qed.

(** The last five characters tell the kinds of names apart. *)
Lemma ending_ne a b s t : String.length s = String.length t → s ≠ t → a +:+ s ≠ b +:+ t.
Proof. intros Hl Hne E. by destruct (append_inj _ _ _ _ Hl E). Qed.

Lemma path_of_inj k k' s : path_of k s = path_of k' s → k = k'.
Proof. intros E. by destruct (append_inj _ _ _ _ eq_refl E). Qed.

Definition non_part (n : string) : Prop := ∀ u, n ≠ part_name u.

Lemma append_assoc (a b c : string) : a +:+ (b +:+ c) = (a +:+ b) +:+ c.
Proof. induction a as [|x a IH]; [done|]. change (String x (a +:+ (b +:+ c)) = String x ((a +:+ b) +:+ c)). by rw IH. Qed.
Lemma path_reclaimed k : path_of k "reclaimed" = (k +:+ ".recl") +:+ "aimed".
Proof. unfold path_of. by rw -append_assoc. Qed.
Lemma path_operation k : path_of k "operation" = (k +:+ ".oper") +:+ "ation".
Proof. unfold path_of. by rw -append_assoc. Qed.

Ltac name_tac := rw ?path_reclaimed ?path_operation; unfold path_of, part_name; apply ending_ne; [reflexivity|discriminate].

Lemma data_non_part k : non_part (path_of k "data").
Proof. intros u. name_tac. Qed.
Lemma json_non_part k : non_part (path_of k "json").
Proof. intros u. name_tac. Qed.
Lemma operation_non_part k : non_part (path_of k "operation").
Proof. intros u. name_tac. Qed.
Lemma reclaimed_non_part k : non_part (path_of k "reclaimed").
Proof. intros u. name_tac. Qed.

Lemma data_json k k' : path_of k "data" ≠ path_of k' "json".
Proof. name_tac. Qed.
Lemma data_operation k k' : path_of k "data" ≠ path_of k' "operation".
Proof. name_tac. Qed.
Lemma data_reclaimed k k' : path_of k "data" ≠ path_of k' "reclaimed".
Proof. name_tac. Qed.
Lemma json_operation k k' : path_of k "json" ≠ path_of k' "operation".
Proof. name_tac. Qed.
Lemma json_reclaimed k k' : path_of k "json" ≠ path_of k' "reclaimed".
Proof. name_tac. Qed.
Lemma operation_reclaimed k k' : path_of k "operation" ≠ path_of k' "reclaimed".
Proof. name_tac. Qed.

#[export] Hint Resolve data_non_part json_non_part operation_non_part reclaimed_non_part data_json data_operation data_reclaimed json_operation
  json_reclaimed operation_reclaimed not_eq_sym : custody.

(** ** What an access can do *)
Section accesses.
Context {A : Type}.
Implicit Types (s : Custody) (d : Files).

Lemma wp_looking (op : Files → result IoError A) (Q : result IoError A → Custody → Prop) s :
  (∀ r s', cu_files s' = cu_files s → (∀ a, r = Ok a → op (cu_files s) = Ok a) → (∀ e, r = Err e → e = OtherIo ∨ op (cu_files s) = Err e) →
    Q r s') → wp (looking op) Q s.
Proof.
  intros HQ. unfold wp, looking, access. destruct s as [d [|[k|] fs] l]; cbn in *; try (destruct (op d) eqn:E; cbn; apply HQ; naive_solver).
Qed.

Lemma wp_io_error (m : FileM A) (Q : result CustodyError A → Custody → Prop) s :
  wp m (λ r, Q (map_err (λ _, CuUnavailable) r)) s → wp (io m) Q s.
Proof. unfold wp, io. by destruct (m s). Qed.
Lemma wp_attempt (m : FileM A) (Q : result CustodyError (result IoError A) → Custody → Prop) s :
  wp m (λ r, Q (Ok r)) s → wp (attempt m) Q s.
Proof. unfold wp, attempt. by destruct (m s). Qed.
Lemma wp_guarded key (m : CustodyM A) (Q : result CustodyError A → Custody → Prop) s :
  wp m (λ r s', Q r (unlock key s')) s → wp (guarded key m) Q s.
Proof. unfold wp, guarded. by destruct (m s). Qed.
End accesses.

Lemma wp_changing_why (op : Files → result IoError Files) (Q : result IoError () → Custody → Prop) s :
  (∀ e s', cu_files s' = cu_files s → e = OtherIo ∨ op (cu_files s) = Err e → Q (Err e) s') →
  (∀ d s', op (cu_files s) = Ok d → cu_files s' = d → Q (Ok ()) s') → wp (changing op) Q s.
Proof.
  intros HE HQ. unfold wp, changing, access. destruct s as [d [|[k|] fs] l]; cbn in *; try (by apply HE; auto);
    (destruct (op d) eqn:E; cbn; [by eapply HQ|by apply HE; auto]).
Qed.
Lemma wp_changing (op : Files → result IoError Files) (Q : result IoError () → Custody → Prop) s :
  (∀ e s', cu_files s' = cu_files s → Q (Err e) s') → (∀ d s', op (cu_files s) = Ok d → cu_files s' = d → Q (Ok ()) s') →
  wp (changing op) Q s.
Proof. intros HE HQ. apply wp_changing_why; auto. Qed.

(** Everything but the files being written. *)
Definition same_files (d d' : Files) : Prop := ∀ n, non_part n → d' !! n = d !! n.
#[export] Instance same_files_po : PreOrder same_files.
Proof. split; [done|]. intros d1 d2 d3 H1 H2 n Hn. by rw H2 // H1. Qed.

Lemma same_files_part d d' u : (∀ n, n ≠ part_name u → d' !! n = d !! n) → same_files d d'.
Proof. intros H n Hn. by apply H. Qed.

Lemma same_files_delete d u : same_files d (delete (part_name u) d).
Proof. apply (same_files_part _ _ u). intros n Hn. by rw lookup_delete_ne. Qed.

Lemma wp_with_partial {E A} u (m : ST Custody E A) (Q : result E A → Custody → Prop) s :
  wp m (λ r s1, ∀ s2, same_files (cu_files s1) (cu_files s2) → Q r s2) s → wp (with_partial (part_name u) m) Q s.
Proof.
  unfold wp, with_partial. destruct (m s) as [r s1]. intros HQ.
  pose proof (wp_changing (λ d, match d !! part_name u with Some _ => Ok (delete (part_name u) d) | None => Err NotFound end)
    (λ _ s2, same_files (cu_files s1) (cu_files s2)) s1) as Hr. unfold f_remove. unfold wp in Hr. destruct (changing _ s1) as [r' s2].
  apply HQ, Hr; [by intros e s' ->|]. intros d s'. destruct (_ !! _); [|done]. intros [= <-] ->. apply same_files_delete.
Qed.

Lemma wp_sync (Q : result IoError () → Custody → Prop) s : (∀ r s', cu_files s' = cu_files s → Q r s') → wp f_sync Q s.
Proof. intros HQ. apply wp_looking. auto. Qed.

(** The file being written holds [b]. *)
Definition writing (u : string) (b : bytes) (d d1 : Files) : Prop := same_files d d1 ∧ d1 !! part_name u = Some b.

Lemma wp_create u (Q : result IoError () → Custody → Prop) s :
  (∀ e s', cu_files s' = cu_files s → Q (Err e) s') → (∀ s', writing u [] (cu_files s) (cu_files s') → Q (Ok ()) s') →
  wp (f_create_new (part_name u)) Q s.
Proof.
  intros HE HQ. apply wp_changing; [done|]. intros d s'. destruct (_ !! _) eqn:E; [done|]. intros [= <-] Hd. apply HQ.
  split; rw Hd; [|by rw lookup_insert_eq]. apply (same_files_part _ _ u). intros n Hn. by rw lookup_insert_ne.
Qed.

Lemma wp_append u b c d (Q : result IoError () → Custody → Prop) s :
  writing u c d (cu_files s) → (∀ e s', same_files d (cu_files s') → Q (Err e) s') →
  (∀ s', writing u (c ++ b) d (cu_files s') → Q (Ok ()) s') → wp (f_append (part_name u) b) Q s.
Proof.
  intros [Hs Hc] HE HQ. assert (Ha : ∀ b', writing u (c ++ b') d (alter (λ c, c ++ b') (part_name u) (cu_files s))).
  { intros b'. split; [etransitivity; [exact Hs|]|by rw lookup_alter_eq Hc]. apply (same_files_part _ _ u). intros n Hn. by rw lookup_alter_ne. }
  unfold wp, f_append, access. destruct s as [d1 [|[k|] fs] l]; cbn in *; [by apply HQ, Ha|by eapply HE, Ha|by apply HQ, Ha].
Qed.

(** A name that held nothing now holds [b], or nothing happened. *)
Definition wrote (name : string) (b : bytes) (d d' : Files) {E} (r : result E ()) : Prop :=
  ((∃ e, r = Err e) ∧ same_files d d') ∨ (d !! name = None ∧ same_files (<[name := b]> d) d').

Lemma wrote_then name b d d1 d2 {E} (r : result E ()) : wrote name b d d1 r → same_files d1 d2 → wrote name b d d2 r.
Proof. intros [[Hr Hs]|[Hn Hs]] H2; [left|right]; (split; [done|by etransitivity]). Qed.

Lemma wp_publish_file u name b d (Q : result IoError () → Custody → Prop) s :
  non_part name → writing u b d (cu_files s) → (∀ r s', wrote name b d (cu_files s') r → Q r s') →
  wp (publish_sync (part_name u) name) Q s.
Proof.
  intros Hn [Hs Hb] HQ. unfold publish_sync. wp_step. apply wp_changing.
  - intros e s' E. apply HQ. left. split; [by eexists|by rw E].
  - intros d2 s'. rw Hb. cbn. destruct (_ !! name) eqn:E; [done|]. intros [= <-] E2. apply wp_sync. intros r s2 E3. apply HQ. right.
    rw E3 E2. rw Hs // in E. split; [done|]. intros n Hp. destruct (decide (n = name)) as [-> |Hne]; [by rw !lookup_insert_eq|].
    rw !lookup_insert_ne //. by apply Hs.
Qed.

Lemma wp_write_new u name b (Q : result IoError () → Custody → Prop) s :
  non_part name → (∀ r s', wrote name b (cu_files s) (cu_files s') r → Q r s') → wp (write_new (part_name u) name b) Q s.
Proof.
  intros Hn HQ. unfold write_new. apply wp_with_partial. set (d := cu_files s) in *.
  eapply (wp_mono _ (λ r s1, wrote name b d (cu_files s1) r)); [|intros r s1 H1 s2 H2; apply HQ; by eapply wrote_then].
  assert (Hfail : ∀ e s', same_files d (cu_files s') → wrote name b d (cu_files s') (Err e : result IoError ())) by (left; eauto).
  wp_step. apply wp_create; [intros e s' E; apply Hfail; by rw E|]. intros s1 H1.
  wp_step. eapply wp_append; [exact H1|done|]. intros s2 H2. cbn in H2.
  wp_step. apply wp_sync. intros [[]|e] s3 E3; [|apply Hfail; rw E3; apply H2].
  wp_step. apply wp_sync. intros [[]|e] s4 E4; [|apply Hfail; rw E4 E3; apply H2].
  eapply wp_publish_file; [done| |done]. by rw E4 E3.
Qed.

(** ** Digits *)
Definition is_hex_ascii (c : ascii) : bool := let n := N_of_ascii c in ((48 <=? n) && (n <=? 57) || (97 <=? n) && (n <=? 102))%N.
Definition all_ascii : list ascii := ascii_of_nat <$> seq 0 256.

Lemma all_ascii_in c : c ∈ all_ascii.
Proof.
  unfold all_ascii. apply list_elem_of_fmap. exists (nat_of_ascii c). split; [by rw ascii_nat_embedding|].
  apply elem_of_seq. pose proof (nat_ascii_bounded c). lia.
Qed.

Lemma ascii_forall (P : ascii → bool) : forallb P all_ascii = true → ∀ c, P c = true.
Proof. rw forallb_forall. intros HP c. apply HP, list_elem_of_In, all_ascii_in. Qed.

Lemma hex_char_value c : is_hex_ascii c = true → hex_char (hex_value c) = c ∧ (hex_value c < 16)%N.
Proof.
  intros Hc. pose proof (ascii_forall (λ c, negb (is_hex_ascii c) || (Ascii.eqb (hex_char (hex_value c)) c && (hex_value c <? 16)%N)) eq_refl c) as HP.
  cbn in HP. rw Hc in HP. cbn [negb orb] in HP. apply andb_true_iff in HP as [E L]. by apply Ascii.eqb_eq in E; apply N.ltb_lt in L.
Qed.

Lemma is_hex_lower_ascii c : is_hex_lower (byte_of_ascii c) = is_hex_ascii c.
Proof.
  apply Bool.eqb_prop. revert c. apply (ascii_forall (λ c, Bool.eqb (is_hex_lower (byte_of_ascii c)) (is_hex_ascii c))). by vm_compute.
Qed.

Lemma string_pairs (P : string → Prop) :
  P "" → (∀ a, P (String a "")) → (∀ a b s, P s → P (String a (String b s))) → ∀ s, P s.
Proof. intros P0 P1 P2. fix IH 1. intros [|a [|b s]]; [done|apply P1|]. apply P2, IH. Qed.

Lemma lower_of_hex s : Nat.Even (String.length s) → forallb is_hex_lower (as_bytes s) = true → lower_hex (of_hex s) = s.
Proof.
  induction s as [|a|a b s IH] using string_pairs; [done|by intros [x Hx]; cbn in Hx; lia|]. intros [x Hx] Hs. cbn in Hx.
  change (as_bytes (String a (String b s))) with (byte_of_ascii a :: byte_of_ascii b :: as_bytes s) in Hs. cbn [forallb] in Hs.
  rw !is_hex_lower_ascii in Hs. apply andb_true_iff in Hs as [[Ha La]%hex_char_value Hs]. apply andb_true_iff in Hs as [[Hb Lb]%hex_char_value Hs].
  cbn [of_hex lower_hex]. rw byte_of_N_to_N N.mod_small; [lia|]. rw (N.mul_comm 16) N.div_add_l // N.div_small // N.add_0_r.
  rw N.add_comm N.Div0.mod_add N.mod_small // Ha Hb IH //. exists (x - 1). lia.
Qed.

Lemma hex_char_digit n : (n < 16)%N → is_hex_ascii (hex_char n) = true ∧ hex_value (hex_char n) = n.
Proof.
  intros Hn. assert (Hall : forallb (λ k, is_hex_ascii (hex_char (N.of_nat k)) && (hex_value (hex_char (N.of_nat k)) =? N.of_nat k)%N) (seq 0 16) = true)
    by by vm_compute. rw forallb_forall in Hall. specialize (Hall (N.to_nat n)). rw N2Nat.id in Hall.
  assert (Hin : In (N.to_nat n) (seq 0 16)) by (apply in_seq; lia). apply Hall, andb_true_iff in Hin as [? ?%N.eqb_eq]. done.
Qed.

Lemma lower_hex_digest m : length m = 32 → hex_digest (lower_hex m) = true.
Proof.
  intros Hm. assert (Hl : String.length (lower_hex m) = 2 * length m ∧ forallb is_hex_lower (as_bytes (lower_hex m)) = true).
  { clear Hm. induction m as [|x m [IHl IHf]]; [done|]. cbn [lower_hex]. split; [cbn; lia|].
    match goal with |- context[as_bytes (String ?a (String ?b ?s))] => change (as_bytes (String a (String b s))) with (byte_of_ascii a :: byte_of_ascii b :: as_bytes s) end.
    cbn [forallb]. rw !is_hex_lower_ascii IHf. pose proof (byte_to_N_lt x). pose proof (hex_char_digit (Byte.to_N x / 16)) as [-> _]; [by apply N.Div0.div_lt_upper_bound|].
    pose proof (hex_char_digit (Byte.to_N x mod 16)) as [-> _]; [by apply N.mod_lt|]. done. }
  destruct Hl as [Hl Hf]. unfold hex_digest. by rw Hl Hm Hf.
Qed.

Lemma of_lower_hex m : of_hex (lower_hex m) = m.
Proof.
  induction m as [|x m IH]; [done|]. cbn [lower_hex of_hex]. pose proof (byte_to_N_lt x).
  pose proof (hex_char_digit (Byte.to_N x / 16)) as [_ ->]; [by apply N.Div0.div_lt_upper_bound|].
  pose proof (hex_char_digit (Byte.to_N x mod 16)) as [_ ->]; [by apply N.mod_lt|]. rw IH. f_equal. apply byte_to_N_inj.
  rw -N.div_mod // byte_of_N_to_N N.mod_small //.
Qed.

Section signed.
Context `{Sha256, Hmac, JsonText, !HmacLaws}.
Lemma verify_sign secret v : verify_signature secret v (sign secret v) = true.
Proof.
  unfold verify_signature, sign. rw lower_hex_digest; [apply hmac_length|]. cbn [negb]. rw of_lower_hex. by apply bool_decide_eq_true_2.
Qed.
End signed.

Lemma verify_signature_eq `{Hmac} secret v sig : verify_signature secret v sig = true → sig = sign secret v.
Proof.
  unfold verify_signature, sign. destruct (hex_digest sig) eqn:E; [|done]. cbn [negb]. intros ->%bool_decide_eq_true.
  apply andb_true_iff in E as [El Ef]. apply Nat.eqb_eq in El. rw lower_of_hex //. exists 32. lia.
Qed.
(** ** What a capability signs *)
Definition no_comma (s : string) : Prop := contains_char "," s = false.

Lemma pretty_N_go_no_comma x : ∀ s, no_comma s → no_comma (pretty_N_go x s).
Proof.
  induction (N.lt_wf_0 x) as [x _ IH]. intros s Hs. destruct (decide (0 < x)%N) as [Hx|Hx].
  - rw pretty_N_go_step //. apply IH; [by apply N.div_lt|]. unfold no_comma in *. cbn [contains_char].
    assert (Hc : ∀ n, bool_decide (pretty_N_char n = ","%char) = false)
      by (intros n; apply bool_decide_eq_false_2; unfold pretty_N_char; by repeat case_match).
    by rw Hc.
  - assert (x = 0%N) as -> by lia. by rw pretty_N_go_0.
Qed.
Lemma pretty_Z_no_comma (z : Z) : no_comma (pretty z).
Proof.
  assert (Hn : ∀ n : N, no_comma (pretty n)) by (intros n; unfold pretty, pretty_N; destruct (decide _); [done|by apply pretty_N_go_no_comma]).
  destruct z as [|p|p]; [done|apply (Hn (N.pos p))|]. apply (Hn (N.pos p)).
Qed.

Lemma before_comma a b x y : no_comma a → no_comma b → a +:+ String "," x = b +:+ String "," y → a = b ∧ x = y.
Proof.
  unfold no_comma. revert b. induction a as [|c a IH]; intros [|c' b] Ha Hb E; cbn [contains_char] in *.
  - by injection E as E.
  - change (String "," x = String c' (b +:+ String "," y)) in E. injection E as <- E. done.
  - change (String c (a +:+ String "," x) = String "," y) in E. injection E as -> E. done.
  - change (String c (a +:+ String "," x) = String c' (b +:+ String "," y)) in E. injection E as -> E. apply orb_false_iff in Ha as [_ Ha].
    apply orb_false_iff in Hb as [_ Hb]. by destruct (IH b Ha Hb E) as [-> ->].
Qed.

Section message.
Context `{Sha256, Hmac, JsonText, !JsonTextLaws}.

Lemma capability_message_text method key expires name :
  capability_message method key expires name =
    "{" +:+ json_string "expires" +:+ ":" +:+ pretty expires +:+ "," +:+ json_string "key" +:+ ":" +:+ json_string key +:+ "," +:+
    json_string "method" +:+ ":" +:+ json_string method +:+ "," +:+ json_string "name" +:+ ":" +:+ json_string name +:+ "}".
Proof.
  unfold capability_message. cbn [canonical fmap list_fmap fst snd].
  change (isort _ _) with [("expires", pretty expires); ("key", json_string key); ("method", json_string method); ("name", json_string name)].
  cbn [fmap list_fmap fst snd join_with foldl]. by rw -!append_assoc.
Qed.

Lemma capability_message_inj m k e n m' k' e' n' :
  capability_message m k e n = capability_message m' k' e' n' → m = m' ∧ k = k' ∧ e = e' ∧ n = n'.
Proof.
  rw !capability_message_text. intros E. do 3 apply append_inv_l in E.
  apply before_comma in E as [Ee E]; [|apply pretty_Z_no_comma|apply pretty_Z_no_comma].
  do 2 apply append_inv_l in E. apply json_string_delimited in E as [Ek E].
  do 3 apply append_inv_l in E. apply json_string_delimited in E as [Em E].
  do 3 apply append_inv_l in E. apply json_string_delimited in E as [En _]. split_and!; try done. by apply (inj pretty).
Qed.
End message.

(** ** The invariant *)
Section invariant.
Context `{Sha256, Hmac, JsonText, Chrono, UuidText, UrlText, HeaderText, !Codec Admission, !CodecLaws Admission}.

Definition operation_key (id : string) : string := object_key ("operation:" +:+ id).
(** The admission recorded for an object, and for an operation. *)
Definition admitted (d : Files) (key : string) (a : Admission) : Prop := ∃ b, d !! path_of key "json" = Some b ∧ from_slice b = Some a.
Definition operated (d : Files) (key : string) (a : Admission) : Prop := ∃ b, d !! path_of key "operation" = Some b ∧ from_slice b = Some a.
Definition reclaimed (d : Files) (key : string) : Prop := is_Some (d !! path_of key "reclaimed").

Record custody_inv (d : Files) : Prop := {
  ci_operation : ∀ k b, d !! path_of k "operation" = Some b → ∃ a, from_slice b = Some a ∧ k = operation_key (operation_id a);
  ci_admission : ∀ k b, d !! path_of k "json" = Some b →
    ∃ a, from_slice b = Some a ∧ k = object_key (opaque_object_id a) ∧ operated d (operation_key (operation_id a)) a;
  ci_data : ∀ k b, d !! path_of k "data" = Some b → ∃ a, admitted d k a ∧ agrees_with b a = true;
}.

(** What time does to the files: records stay as they are; an object stays as it is or is gone, with a record of that, for good. *)
Record evolves (d d' : Files) : Prop := {
  ev_operation : ∀ k b, d !! path_of k "operation" = Some b → d' !! path_of k "operation" = Some b;
  ev_admission : ∀ k b, d !! path_of k "json" = Some b → d' !! path_of k "json" = Some b;
  ev_reclaimed : ∀ k, reclaimed d k → reclaimed d' k;
  ev_data : ∀ k b, d !! path_of k "data" = Some b → d' !! path_of k "data" = Some b ∨ (d' !! path_of k "data" = None ∧ reclaimed d' k);
  ev_gone : ∀ k, reclaimed d k → d !! path_of k "data" = None → d' !! path_of k "data" = None;
}.

Global Instance evolves_po : PreOrder evolves.
Proof.
  split.
  - intros d. split; auto.
  - intros d1 d2 d3 [O1 A1 R1 D1 G1] [O2 A2 R2 D2 G2]. split; auto.
    intros k b Hb. destruct (D1 k b Hb) as [E|[E Hr]]; [by apply D2|]. right. split; [by apply G2|by apply R2].
Qed.

Definition good (d d' : Files) : Prop := custody_inv d → custody_inv d' ∧ evolves d d'.
Global Instance good_po : PreOrder good.
Proof.
  split; [by intros d|]. intros d1 d2 d3 G1 G2 Hd. destruct (G1 Hd) as [Hd2 E1]. destruct (G2 Hd2) as [Hd3 E2]. split; [done|].
  by etransitivity.
Qed.

Lemma same_good d d' : same_files d d' → good d d'.
Proof.
  intros Hs [Ho Ha Hd]. assert (E : ∀ k, d' !! path_of k "operation" = d !! path_of k "operation") by (intros; apply Hs; auto with custody).
  assert (Ej : ∀ k, d' !! path_of k "json" = d !! path_of k "json") by (intros; apply Hs; auto with custody).
  assert (Ed : ∀ k, d' !! path_of k "data" = d !! path_of k "data") by (intros; apply Hs; auto with custody).
  assert (Er : ∀ k, d' !! path_of k "reclaimed" = d !! path_of k "reclaimed") by (intros; apply Hs; auto with custody).
  split; split; unfold reclaimed; intros k; rw ?E ?Ej ?Ed ?Er; auto.
  - intros b (a & Hb & Hk & b' & Hb' & Hf)%Ha. exists a. split_and!; try done. exists b'. by rw E.
  - intros b (a & (b' & Hb' & Hf) & Hg)%Hd. exists a. split; [|done]. exists b'. by rw Ej.
Qed.

(** One name that held nothing. *)
Section added.
Context (d : Files) (k : string) (b : bytes).

Lemma lookup_other m n : m ≠ n → (<[m := b]> d : Files) !! n = d !! n.
Proof. apply lookup_insert_ne. Qed.

Lemma insert_keeps m n c : d !! m = None → d !! n = Some c → (<[m := b]> d : Files) !! n = Some c.
Proof. intros Hm Hn. rw lookup_insert_ne //. congruence. Qed.

Lemma insert_inv kind k' c : (<[path_of k kind := b]> d : Files) !! path_of k' kind = Some c → (k' = k ∧ c = b) ∨ d !! path_of k' kind = Some c.
Proof. destruct (decide (k' = k)) as [-> |Hne]; [rw lookup_insert_eq; intros [= <-]; auto|]. rw lookup_insert_ne; [intros ?%path_of_inj; congruence|auto]. Qed.

(** Nothing is lost when a record is added. *)
Lemma add_evolves m : d !! m = None → (∀ k', m = path_of k' "data" → ¬ reclaimed d k') → evolves d (<[m := b]> d).
Proof.
  intros Hm Hdata. split; try (intros k' c; by apply insert_keeps).
  - intros k' [c Hc]. exists c. by apply insert_keeps.
  - intros k' c Hc. left. by apply insert_keeps.
  - intros k' Hr Hn. rw lookup_insert_ne //. intros ->. by eapply Hdata.
Qed.

Lemma add_operation a : d !! path_of k "operation" = None → from_slice b = Some a → k = operation_key (operation_id a) →
  good d (<[path_of k "operation" := b]> d).
Proof.
  intros Hn Hb Hk [Ho Ha Hd]. split; [|apply add_evolves; [done|]; intros k' E; by destruct (data_operation k' k)]. split; intros k' c.
  - intros [[-> ->]|?]%insert_inv; eauto.
  - rw lookup_other; [auto with custody|]. intros (a' & ? & ? & c2 & ? & ?)%Ha. exists a'. split_and!; try done. exists c2. split; [by apply insert_keeps|done].
  - rw lookup_other; [auto with custody|]. intros (a' & (c2 & ? & ?) & ?)%Hd. exists a'. split; [|done]. exists c2. split; [by apply insert_keeps|done].
Qed.

Lemma add_admission a : d !! path_of k "json" = None → from_slice b = Some a → k = object_key (opaque_object_id a) →
  operated d (operation_key (operation_id a)) a → good d (<[path_of k "json" := b]> d).
Proof.
  intros Hn Hb Hk Hop [Ho Ha Hd]. split; [|apply add_evolves; [done|]; intros k' E; by destruct (data_json k' k)].
  assert (Hops : ∀ k' a', operated d k' a' → operated (<[path_of k "json" := b]> d) k' a') by (intros k' a' (c & ? & ?); exists c; split; [by apply insert_keeps|done]).
  split; intros k' c.
  - rw lookup_other; [auto with custody|]. apply Ho.
  - intros [[-> ->]|(a' & ? & ? & ?)%Ha]%insert_inv; [exists a|exists a']; auto.
  - rw lookup_other; [auto with custody|]. intros (a' & (c2 & ? & ?) & ?)%Hd. exists a'. split; [|done]. exists c2. split; [by apply insert_keeps|done].
Qed.

Lemma add_data a : d !! path_of k "data" = None → admitted d k a → agrees_with b a = true → ¬ reclaimed d k →
  good d (<[path_of k "data" := b]> d).
Proof.
  intros Hn Hadm Hag Hr [Ho Ha Hd]. split; [|apply add_evolves; [done|]; by intros k' ->%path_of_inj].
  assert (Hadms : ∀ k' a', admitted d k' a' → admitted (<[path_of k "data" := b]> d) k' a') by (intros k' a' (c & ? & ?); exists c; split; [by apply insert_keeps|done]).
  split; intros k' c.
  - rw lookup_other; [auto with custody|]. apply Ho.
  - rw lookup_other; [auto with custody|]. intros (a' & ? & ? & c2 & ? & ?)%Ha. exists a'. split_and!; try done. exists c2. split; [by apply insert_keeps|done].
  - intros [[-> ->]|(a' & ? & ?)%Hd]%insert_inv; [exists a|exists a']; auto.
Qed.

Lemma add_reclaimed : d !! path_of k "reclaimed" = None → good d (<[path_of k "reclaimed" := b]> d).
Proof.
  intros Hn [Ho Ha Hd]. split; [|apply add_evolves; [done|]; intros k' E; by destruct (data_reclaimed k' k)]. split; intros k' c.
  - rw lookup_other; [auto with custody|]. apply Ho.
  - rw lookup_other; [auto with custody|]. intros (a' & ? & ? & c2 & ? & ?)%Ha. exists a'. split_and!; try done. exists c2. split; [by apply insert_keeps|done].
  - rw lookup_other; [auto with custody|]. intros (a' & (c2 & ? & ?) & ?)%Hd. exists a'. split; [|done]. exists c2. split; [by apply insert_keeps|done].
Qed.

Lemma remove_data : reclaimed d k → good d (delete (path_of k "data") d).
Proof.
  intros Hr [Ho Ha Hd]. assert (Hne : ∀ n, path_of k "data" ≠ n → (delete (path_of k "data") d : Files) !! n = d !! n) by (intros; by rw lookup_delete_ne).
  split; split; intros k'.
  - intros c. rw Hne; [auto with custody|]. apply Ho.
  - intros c. rw Hne; [auto with custody|]. intros (a' & ? & ? & c2 & ? & ?)%Ha. exists a'. split_and!; try done. exists c2. rw Hne; auto with custody.
  - intros c. destruct (decide (k' = k)) as [-> |Hk]; [by rw lookup_delete_eq|]. rw Hne; [by intros ?%path_of_inj|].
    intros (a' & (c2 & ? & ?) & ?)%Hd. exists a'. split; [|done]. exists c2. rw Hne; auto with custody.
  - intros c. rw Hne; auto with custody.
  - intros c. rw Hne; auto with custody.
  - unfold reclaimed. rw Hne; auto with custody.
  - intros c Hc. destruct (decide (k' = k)) as [-> |Hk]; [right; rw lookup_delete_eq|left; rw Hne; [by intros ?%path_of_inj|done]].
    split; [done|]. unfold reclaimed in *. rw Hne; auto with custody.
  - intros _ Hn. destruct (decide (k' = k)) as [-> |Hk]; [by rw lookup_delete_eq|]. rw Hne; [by intros ?%path_of_inj|done].
Qed.
End added.

(** ** What the operations do *)
Lemma wp_exists name (Q : result IoError bool → Custody → Prop) s :
  (∀ r s', cu_files s' = cu_files s → (∀ b, r = Ok b → b = bool_decide (is_Some (cu_files s !! name))) → Q r s') → wp (f_exists name) Q s.
Proof. intros HQ. apply wp_looking. intros r s' E Hok _. apply HQ; [done|]. by intros b [= ->]%Hok. Qed.

Lemma wp_read name (Q : result IoError bytes → Custody → Prop) s :
  (∀ r s', cu_files s' = cu_files s → (∀ b, r = Ok b → cu_files s !! name = Some b) → (r = Err NotFound → cu_files s !! name = None) → Q r s') →
  wp (f_read name) Q s.
Proof.
  intros HQ. apply wp_looking. intros r s' E Hok He. apply HQ; [done| |].
  - intros b Hb%Hok. by destruct (cu_files s !! name); simplify_eq/=.
  - intros [?|Hn]%He; [done|]. by destruct (cu_files s !! name).
Qed.

Lemma wp_admission key (Q : result CustodyError Admission → Custody → Prop) s :
  (∀ r s', cu_files s' = cu_files s → (∀ a, r = Ok a → admitted (cu_files s) key a ∧ ¬ reclaimed (cu_files s) key) → Q r s') →
  wp (admission key) Q s.
Proof.
  intros HQ. unfold admission. wp_step. apply wp_io_error, wp_exists. intros [x|e] s1 E1 Hx; cbn [map_err]; [|by apply HQ].
  destruct x; [by apply wp_throw, HQ|]. specialize (Hx _ eq_refl). symmetry in Hx. apply bool_decide_eq_false in Hx.
  wp_step. apply wp_attempt, wp_read. rw E1. intros [b|e] s2 E2 Hb _.
  - apply wp_lift, HQ; [congruence|]. intros a Ha. split; [|done]. exists b. split; [by apply Hb|]. by destruct (from_slice b); simplify_eq/=.
  - destruct e; apply wp_throw, HQ; congruence.
Qed.

Lemma wp_present key a (Q : result CustodyError bool → Custody → Prop) s :
  (∀ r s', cu_files s' = cu_files s → (r = Ok true → ∃ b, cu_files s !! path_of key "data" = Some b) → Q r s') → wp (present key a) Q s.
Proof.
  intros HQ. unfold present. wp_step. apply wp_attempt, wp_looking. intros [n|e] s1 E1 Hn _.
  - specialize (Hn n eq_refl). destruct (_ =? _)%N; [apply wp_ret|apply wp_throw]; (apply HQ; [done|]); [|done]. intros _.
    destruct (cu_files s !! _) as [b|]; [by exists b|done].
  - destruct e; first [apply wp_ret|apply wp_throw]; by apply HQ.
Qed.

Lemma wrote_good {E} name b d d' (r : result E ()) : wrote name b d d' r → (d !! name = None → good d (<[name := b]> d)) → good d d'.
Proof. intros [[_ Hs]|[Hn Hs]] Hg; [by apply same_good|]. etransitivity; [by apply Hg|by apply same_good]. Qed.

Lemma wrote_ok {E} name b d d' (r : result E ()) : wrote name b d d' r → non_part name → r = Ok () → d' !! name = Some b.
Proof. intros [[[e ->] _]|[_ Hs]] Hn Hr; [done|]. rw (Hs _ Hn). apply lookup_insert_eq. Qed.

Lemma wp_record_operation u id input (Q : result CustodyError () → Custody → Prop) s :
  operation_id input = id →
  (∀ r s', good (cu_files s) (cu_files s') → (r = Ok () → operated (cu_files s') (operation_key id) input) → Q r s') →
  wp (record_operation u (path_of (operation_key id) "operation") input) Q s.
Proof.
  intros Hid HQ. unfold record_operation. wp_step. apply wp_attempt, wp_read. intros [b|e] s1 E1 Hb _.
  - wp_step. apply wp_lift. destruct (from_slice b) as [a|] eqn:Ea; cbn [ok_or]; [|apply HQ; [by rw E1|done]].
    case_bool_decide as Ei; [apply wp_ret|apply wp_throw]; (apply HQ; [by rw E1|]); [|done]. intros _. subst a. exists b. rw E1. auto.
  - destruct e; try (apply wp_throw, HQ; [by rw E1|done]). wp_step. apply wp_lift.
    destruct (to_vec input) as [b|] eqn:Et; cbn [ok_or]; [|apply HQ; [by rw E1|done]]. apply from_slice_to_vec in Et.
    apply wp_io_error, wp_write_new; [auto with custody|]. rw E1. intros r s2 Hw. apply HQ.
    + eapply wrote_good; [exact Hw|]. intros Hn. eapply add_operation; [done|exact Et|by rw Hid].
    + intros Hr. exists b. split; [|done]. eapply wrote_ok; [exact Hw|auto with custody|]. by destruct r as [[]|].
Qed.

Lemma wp_record_admission u input (Q : result CustodyError string → Custody → Prop) s :
  operated (cu_files s) (operation_key (operation_id input)) input →
  (∀ r s', good (cu_files s) (cu_files s') → (∀ k, r = Ok k → k = object_key (opaque_object_id input) ∧ admitted (cu_files s') k input) → Q r s') →
  wp (record_admission u (object_key (opaque_object_id input)) input) Q s.
Proof.
  intros Hop HQ. unfold record_admission. wp_step. wp_step. apply wp_admission. intros [a|e] s1 E1 Ha.
  - destruct (Ha a eq_refl) as [Had _]. case_bool_decide as Ei; [apply wp_ret|apply wp_throw]; (apply HQ; [by rw E1|]); [|done].
    intros k [= <-]. subst a. by rw E1.
  - destruct e; try (apply wp_throw, HQ; [by rw E1|done]). wp_step. apply wp_lift.
    destruct (to_vec input) as [b|] eqn:Et; cbn [ok_or]; [|apply HQ; [by rw E1|done]]. apply from_slice_to_vec in Et.
    wp_step. apply wp_io_error, wp_write_new; [auto with custody|]. rw E1. intros r s2 Hw.
    assert (Hg : good (cu_files s) (cu_files s2)). { eapply wrote_good; [exact Hw|]. intros Hn. by eapply add_admission. }
    destruct r as [[]|e]; cbn [map_err]; [apply wp_ret|]; (apply HQ; [done|]); [|done]. intros k [= <-]. split; [done|].
    exists b. split; [|done]. eapply wrote_ok; [exact Hw|auto with custody|done].
Qed.

Lemma wp_with_lock {A} key (m : CustodyM A) (Q : result CustodyError A → Custody → Prop) s :
  Q (Err CuUnavailable) s → (∀ s', cu_files s' = cu_files s → wp m (λ r s1, ∀ s2, cu_files s2 = cu_files s1 → Q r s2) s') → wp (with_lock key m) Q s.
Proof.
  intros HE HQ. unfold with_lock. wp_step. unfold wp at 1, lock. case_bool_decide; [done|]. apply wp_guarded.
  eapply wp_mono; [by apply HQ|]. intros r s1 H'. by apply H'.
Qed.

Lemma wp_admit c input (Q : result CustodyError string → Custody → Prop) s :
  (∀ r s', good (cu_files s) (cu_files s') → (∀ k, r = Ok k → k = object_key (opaque_object_id input) ∧ admitted (cu_files s') k input) → Q r s') →
  wp (admit_object c input) Q s.
Proof.
  intros HQ. unfold admit_object. apply wp_with_lock; [by apply HQ|]. intros s1 E1. apply wp_with_lock; [intros s2 E2; apply HQ; [by rw E2 E1|done]|].
  intros s2 E2. wp_step. apply wp_record_operation; [done|]. rw E2 E1. intros [[]|e] s3 G3 Hop.
  - apply wp_record_admission; [by apply Hop|]. intros r s4 G4 Hk s5 E5 s6 E6. apply HQ; rw E6 E5; [by etransitivity|done].
  - intros s4 E4 s5 E5. apply HQ; [by rw E5 E4|done].
Qed.

Lemma wp_receive u input d body got (Q : result CustodyError bytes → Custody → Prop) s :
  writing u got d (cu_files s) → (∀ e s', same_files d (cu_files s') → Q (Err e) s') → (∀ b s', writing u b d (cu_files s') → Q (Ok b) s') →
  wp (receive (part_name u) input body got) Q s.
Proof.
  intros Hw HE HQ. revert got s Hw. induction body as [|[b| |] body IH]; intros got s Hw; cbn [receive]; try (apply wp_throw, HE, Hw).
  { by apply wp_ret, HQ. }
  destruct (_ || _); [apply wp_throw, HE, Hw|]. wp_step. apply wp_io_error. eapply wp_append; [exact Hw|by intros; apply HE|]. intros s' Hw'. by apply IH.
Qed.

Lemma wp_put c key a body (Q : result CustodyError () → Custody → Prop) s :
  admitted (cu_files s) key a → ¬ reclaimed (cu_files s) key →
  (∀ r s', good (cu_files s) (cu_files s') →
    (r = Ok () → ∃ b, cu_files s !! path_of key "data" = None ∧ cu_files s' !! path_of key "data" = Some b ∧ agrees_with b a = true ∧
      (reclaimed (cu_files s') key → reclaimed (cu_files s) key)) → Q r s') →
  wp (put c key a body) Q s.
Proof.
  intros Ha Hr HQ. unfold put. destruct (expired a (ck_then c)); [by apply wp_throw, HQ|]. wp_step. apply wp_present.
  intros [p|e] s1 E1 _; [|apply HQ; [by rw E1|done]]. destruct p; [apply wp_throw, HQ; [by rw E1|done]|]. apply wp_with_partial.
  set (d := cu_files s) in *. set (u := ck_uuid c).
  apply (wp_mono _ (λ r s2, (same_files d (cu_files s2) ∧ ∃ e, r = Err e) ∨
    ∃ b, wrote (path_of key "data") b d (cu_files s2) r ∧ agrees_with b a = true)).
  2: { intros r s2 Hp s3 Hs3. apply HQ.
       - destruct Hp as [[Hs _]|(b & Hw & Hag)]; [by apply same_good; etransitivity|].
         eapply wrote_good; [by eapply wrote_then|]. intros Hn. by eapply add_data.
       - intros ->. destruct Hp as [[_ [? ?]]|(b & Hw & Hag)]; [done|]. exists b. pose proof (wrote_then _ _ _ _ _ _ Hw Hs3) as Hw3.
         split_and!; [by destruct Hw as [[[? ?] _]|[? _]]|eapply wrote_ok; [exact Hw3|auto with custody|done]|done|].
         destruct Hw3 as [[[? ?] _]|[_ Hs']]; [done|]. unfold reclaimed. rw (Hs' _ (reclaimed_non_part key)) lookup_insert_ne; auto with custody. }
  wp_step. apply wp_io_error, wp_create; [intros e s2 E2; left; rw E2 E1; split; [done|by eexists]|]. rw E1. intros s2 W2. cbn [map_err].
  wp_step. eapply wp_receive; [exact W2|intros e s3 Hs3; left; split; [done|by eexists]|]. intros b s3 W3. cbn [map_err].
  destruct (agrees_with b a) eqn:Eag; cbn [negb orb]; [|apply wp_throw; left; split; [apply W3|by eexists]].
  destruct (expired a (ck_end c)); [apply wp_throw; left; split; [apply W3|by eexists]|].
  wp_step. apply wp_io_error, wp_sync. intros [[]|e] s4 E4; [|left; rw E4; split; [apply W3|by eexists]]. cbn [map_err].
  wp_step. apply wp_io_error, wp_sync. intros [[]|e] s5 E5; [|left; rw E5 E4; split; [apply W3|by eexists]]. cbn [map_err].
  apply wp_io_error. eapply wp_publish_file; [auto with custody|rw E5 E4; exact W3|]. intros r s6 Hw. right. exists b. split; [|done].
  destruct Hw as [[[e ->] Hs]|Hw]; [left; split; [by eexists|done]|by right].
Qed.

Lemma wp_reclaim c key (Q : result CustodyError () → Custody → Prop) s :
  (∀ r s', good (cu_files s) (cu_files s') →
    (r = Ok () → reclaimed (cu_files s') key ∧ cu_files s' !! path_of key "data" = None) → Q r s') →
  wp (reclaim c key) Q s.
Proof.
  intros HQ. unfold reclaim. apply wp_with_lock; [by apply HQ|]. intros s1 E1. wp_step. apply wp_io_error, wp_exists.
  intros [t|e] s2 E2 Ht; cbn [map_err]; [|intros s3 E3; apply HQ; [by rw E3 E2 E1|done]]. specialize (Ht t eq_refl). rw E1 in Ht.
  wp_step. set (d := cu_files s) in *.
  apply (wp_mono _ (λ r s3, good d (cu_files s3) ∧ (r = Ok () → reclaimed (cu_files s3) key))).
  - destruct t; [apply wp_ret; rw E2 E1; split; [done|]; intros _; symmetry in Ht; by apply bool_decide_eq_true in Ht|].
    apply wp_io_error, wp_write_new; [auto with custody|]. rw E2 E1. intros r s3 Hw. split; [eapply wrote_good; [exact Hw|]; apply add_reclaimed|].
    intros Hr. eexists. eapply wrote_ok; [exact Hw|auto with custody|by destruct r as [[]|]].
  - intros [[]|e] s3 [G3 Hr3]; [|intros s4 E4; apply HQ; [by rw E4|done]]. specialize (Hr3 eq_refl). wp_step. apply wp_attempt, wp_changing_why.
    + intros e s4 E4 He. destruct e; try (apply wp_throw; intros s5 E5; apply HQ; [by rw E5 E4|done]).
      destruct He as [|He]; [done|]. destruct (cu_files s3 !! _) eqn:Edata; [done|]. apply wp_ret. intros s5 E5. apply HQ; rw E5 E4; done.
    + intros d4 s4 Hd E4. destruct (cu_files s3 !! _) eqn:Edata; [|done]. injection Hd as <-. apply wp_ret. intros s5 E5.
      assert (Gd : good (cu_files s3) (delete (path_of key "data") (cu_files s3))) by by apply remove_data.
      apply HQ; rw E5 E4; [by etransitivity|]. intros _. split; [|by rw lookup_delete_eq]. unfold reclaimed. rw lookup_delete_ne; auto with custody.
Qed.

Lemma wp_verify_file key a (Q : result CustodyError bool → Custody → Prop) s :
  (∀ r s', cu_files s' = cu_files s → (r = Ok true → ∃ b, cu_files s !! path_of key "data" = Some b ∧ agrees_with b a = true) → Q r s') →
  wp (verify_file key a) Q s.
Proof.
  intros HQ. unfold verify_file. wp_step. apply wp_present. intros [p|e] s1 E1 _; [|by apply HQ].
  destruct p; cbn [negb]; [|by apply wp_ret, HQ]. wp_step. apply wp_io_error, wp_looking. intros [n|e] s2 E2 _ _; cbn [map_err]; [|apply HQ; [congruence|done]].
  wp_step. apply wp_io_error, wp_read. rw E2 E1. intros [b|e] s3 E3 Hb _; cbn [map_err]; [|by apply HQ].
  destruct (agrees_with b a) eqn:Ea; cbn [negb]; [|by apply wp_throw, HQ]. wp_step. apply wp_io_error, wp_sync.
  intros [[]|e] s4 E4; cbn [map_err]; [apply wp_ret|]; (apply HQ; [congruence|]); [|done]. intros _. exists b. split; [by apply Hb|done].
Qed.

(** A step that does no harm. *)
Definition harmless {A} (m : CustodyM A) : Prop := ∀ s, wp m (λ _ s', good (cu_files s) (cu_files s')) s.

Lemma harmless_locked {A} key (m : CustodyM A) : harmless m → harmless (with_lock key m).
Proof.
  intros Hm s. apply wp_with_lock; [done|]. intros s1 E1. eapply wp_mono; [apply Hm|]. cbn. intros r s2 G s3 ->. by rw -E1.
Qed.
Lemma harmless_admission {A} key (f : Admission → CustodyM A) :
  (∀ a s, admitted (cu_files s) key a → ¬ reclaimed (cu_files s) key → wp (f a) (λ _ s', good (cu_files s) (cu_files s')) s) →
  harmless (a ← admission key; f a).
Proof.
  intros Hf s. wp_step. apply wp_admission. intros [a|e] s1 E1 Ha; [|by rw E1]. destruct (Ha a eq_refl) as [Had Hr]. rw -E1 in Had Hr |- *. by apply Hf.
Qed.

Lemma harmless_verify cfg c id : harmless (handle_verify cfg c id).
Proof.
  apply harmless_locked, harmless_admission. intros a s _ _. destruct (expired _ _); [by apply wp_throw|]. wp_step. apply wp_verify_file.
  intros [ok|e] s1 E1 _; [|by rw E1]. destruct ok; cbn [negb]; [|apply wp_throw; by rw E1]. wp_step. apply wp_lift.
  destruct (parse_from_rfc3339 _); cbn [ok_or]; [apply wp_ret|]; by rw E1.
Qed.

Lemma harmless_present {A} key a (f : bool → CustodyM A) :
  (∀ p s, wp (f p) (λ _ s', cu_files s' = cu_files s) s) → ∀ s, wp (p ← present key a; f p) (λ _ s', cu_files s' = cu_files s) s.
Proof. intros Hf s. wp_step. apply wp_present. intros [p|e] s1 E1 _; [|done]. eapply wp_mono; [apply Hf|]. intros r s2 E2. congruence. Qed.

Lemma harmless_same {A} (m : CustodyM A) s : wp m (λ _ s', cu_files s' = cu_files s) s → wp m (λ _ s', good (cu_files s) (cu_files s')) s.
Proof. intros Hm. eapply wp_mono; [exact Hm|]. by intros r s' ->. Qed.

Lemma harmless_head id : harmless (handle_head id).
Proof.
  apply harmless_locked. intros s. apply harmless_same. wp_step. wp_step. apply wp_admission. intros [a|e] s1 E1 _.
  - rw -E1. apply harmless_present. intros p s2. by apply wp_ret.
  - destruct e; first [by apply wp_throw|by apply wp_ret].
Qed.

Lemma harmless_download cfg c input : harmless (handle_download cfg c input).
Proof.
  unfold handle_download. destruct (_ || _ || _ || _); [by intros s; apply wp_throw|]. apply harmless_locked, harmless_admission.
  intros a s _ _. apply harmless_same, harmless_present. intros p s2. destruct p; [by apply wp_ret|by apply wp_throw].
Qed.

Lemma harmless_put cfg c key cap h body : harmless (handle_put cfg c key cap h body).
Proof.
  intros s. unfold handle_put. wp_step. apply wp_lift. destruct (check_capability _ _ _ _ _) as [[]|]; [|done]. apply harmless_locked, harmless_admission.
  intros a s1 Ha Hr. destruct (_ || _); [by apply wp_throw|]. wp_step. apply wp_put; [done|done|]. intros [[]|e] s2 G _; [by apply wp_ret|done].
Qed.

Lemma harmless_get cfg c key cap : harmless (handle_get cfg c key cap).
Proof.
  intros s. unfold handle_get. wp_step. apply wp_lift. destruct (check_capability _ _ _ _ _) as [[]|]; [|done]. apply harmless_locked, harmless_admission.
  intros a s1 _ _. apply harmless_same, harmless_present. intros p s2. destruct p; cbn [negb]; [|by apply wp_throw].
  wp_step. apply wp_io_error, wp_read. intros [b|e] s3 E3 _ _; cbn [map_err]; [|done].
  destruct (negb _); [by apply wp_throw|]. destruct (negb _); [by apply wp_throw|by apply wp_ret].
Qed.

Lemma serve_good cfg c header origin q : harmless (custody_serve cfg c header origin q).
Proof.
  intros s. destruct q; cbn [custody_serve]; wp_step; apply wp_lift; try (destruct (cors _ _) as [[]|]; [|done]); try (destruct (authenticate _ _) as [[]|]; [|done]);
    try (by apply wp_ret).
  - unfold handle_admit. wp_step. apply wp_lift. destruct (validate _ _ _); [|done]. wp_step. apply wp_admit. intros [k|e] s1 G _; [|done].
    wp_step. apply wp_lift. destruct (parse_from_rfc3339 _); [by apply wp_ret|done].
  - apply harmless_verify.
  - apply harmless_head.
  - apply harmless_download.
  - wp_step. apply wp_reclaim. intros [[]|e] s1 G _; [by apply wp_ret|done].
  - apply harmless_put.
  - apply harmless_get.
Qed.

Lemma strip_suffix_Some suffix name stem : strip_suffix suffix name = Some stem → name = stem +:+ suffix.
Proof.
  revert stem. induction name as [|c name IH]; intros stem; cbn [strip_suffix]; case_bool_decide as E; [by intros [= <-]; subst suffix|done| |].
  - intros [= <-]. by subst suffix.
  - intros (t & Ht & ->)%fmap_Some. by rw (IH t Ht).
Qed.

Lemma wp_remove_parts l (Q : result IoError () → Custody → Prop) s :
  (∀ r s', same_files (cu_files s) (cu_files s') → Q r s') → wp (remove_parts l) Q s.
Proof.
  intros HQ. unfold remove_parts. apply (wp_for_each _ (λ _ s', same_files (cu_files s) (cu_files s'))); [done| |intros; by apply HQ].
  intros name l' s1 Hs1. destruct (strip_suffix ".part" name) as [u|] eqn:Eu; [|by apply wp_ret]. apply strip_suffix_Some in Eu as ->.
  destruct (is_uuid u); [|by apply wp_ret]. apply wp_changing; [intros e s2 E; apply HQ; by rw E|]. intros d s2. destruct (_ !! _); [|done].
  intros [= <-] E. rw E. etransitivity; [exact Hs1|apply same_files_delete].
Qed.

Lemma lock_file_good d : good d (match d !! "custody.lock" with None => <["custody.lock" := []]> d | Some _ => d end).
Proof.
  destruct (d !! "custody.lock") eqn:E; [done|]. assert (Hne : ∀ k kind, (kind = "json" ∨ kind = "data" ∨ kind = "operation" ∨ kind = "reclaimed") →
    "custody.lock" ≠ path_of k kind).
  { change "custody.lock" with ("custody" +:+ ".lock"). intros k kind [-> |[-> |[-> | ->]]]; name_tac. }
  assert (El : ∀ k kind, (kind = "json" ∨ kind = "data" ∨ kind = "operation" ∨ kind = "reclaimed") →
    (<["custody.lock" := []]> d : Files) !! path_of k kind = d !! path_of k kind) by (intros; rw lookup_insert_ne; auto).
  intros [Ho Ha Hd]. split; split; unfold reclaimed; intros k; rw ?El; auto.
  - intros b (a & Hb & Hk & b' & Hb' & Hf)%Ha. exists a. split_and!; try done. exists b'. rw El; auto.
  - intros b (a & (b' & Hb' & Hf) & Hg)%Hd. exists a. split; [|done]. exists b'. rw El; auto.
Qed.

Lemma write_part_good u v b s : wp (write_new (part_name u) (part_name v) b) (λ _ s', same_files (cu_files s) (cu_files s')) s.
Proof.
  unfold write_new. apply wp_with_partial. eapply (wp_mono _ (λ r s1, same_files (cu_files s) (cu_files s1))); [|intros; by etransitivity].
  wp_step. apply wp_create; [by intros e s1 ->|]. intros s1 W1. wp_step. eapply wp_append; [exact W1|done|]. intros s2 W2.
  wp_step. apply wp_sync. intros [[]|e] s3 E3; [|rw E3; apply W2]. wp_step. apply wp_sync. intros [[]|e] s4 E4; [|rw E4 E3; apply W2].
  unfold publish_sync. wp_step. apply wp_changing; [intros e s5 E5; rw E5 E4 E3; apply W2|]. intros d5 s5. rw E4 E3. destruct W2 as [S2 L2]. rw L2. cbn.
  destruct (cu_files s2 !! part_name v) as [x|]; [by intros|]. intros [= <-] E5. apply wp_sync. intros r s6 E6. rw E6 E5. etransitivity; [exact S2|].
  intros n Hn. by rw lookup_insert_ne.
Qed.

Lemma open_good order lock_free u1 u2 s : wp (open_store order lock_free u1 u2) (λ _ s', good (cu_files s) (cu_files s')) s.
Proof.
  unfold open_store. wp_step. apply wp_changing; [by intros e s1 ->|]. intros d1 s1 [= <-] E1. pose proof (lock_file_good (cu_files s)) as G1. rw -E1 in G1.
  destruct lock_free; cbn [negb]; [|by apply wp_throw]. wp_step. apply wp_remove_parts. intros [[]|e] s2 S2; [|etransitivity; [exact G1|by apply same_good]].
  apply wp_with_partial. eapply wp_mono; [apply write_part_good|]. intros r s3 G3 s4 S4. etransitivity; [exact G1|].
  etransitivity; [apply same_good, S2|]. apply same_good. etransitivity; [exact G3|exact S4].
Qed.

Lemma step_good cfg d e : good d (custody_step cfg d e).
Proof.
  destruct e as [f o c header origin q|f order b u1 u2]; cbn [custody_step].
  - pose proof (serve_good cfg c header origin q (mk_Custody d f o)) as Hg. unfold wp in Hg. by destruct (custody_serve _ _ _ _ _ _).
  - pose proof (open_good order b u1 u2 (mk_Custody d f ∅)) as Hg. unfold wp in Hg. by destruct (open_store _ _ _ _ _).
Qed.

Lemma steps_good cfg d es : good d (foldl (custody_step cfg) d es).
Proof. revert d. induction es as [|e es IH]; intros d; [done|]. cbn [foldl]. etransitivity; [apply step_good|apply IH]. Qed.

Lemma custody_inv_empty : custody_inv ∅.
Proof. split; intros k b; by rw lookup_empty. Qed.

(** C26: Over any requests, with whatever fails or is cut off at any access to the disk, and any starts of the process: an object
    that was taken into custody stays byte for byte as it is until it is reclaimed and never comes back after that, its content
    has the length and the digest of the admission, an admission stays as it is, and an operation admits one object. *)
Theorem custody_keeps_objects cfg d es :
  custody_inv d →
  let d' := foldl (custody_step cfg) d es in
  (∀ k b, d !! path_of k "data" = Some b →
     d' !! path_of k "data" = Some b ∨ (d' !! path_of k "data" = None ∧ reclaimed d' k)) ∧
  (∀ k, reclaimed d k → d !! path_of k "data" = None → d' !! path_of k "data" = None) ∧
  (∀ k b, d' !! path_of k "data" = Some b → ∃ a, admitted d' k a ∧ k = object_key (opaque_object_id a) ∧
     N.of_nat (length b) = byte_length a ∧ content_hash a = "sha256:" +:+ lower_hex (sha256 b)) ∧
  (∀ k a, admitted d k a → admitted d' k a) ∧
  (∀ k1 k2 a1 a2, admitted d' k1 a1 → admitted d' k2 a2 → operation_id a1 = operation_id a2 → a1 = a2).
Proof.
  intros Hd d'. destruct (steps_good cfg d es Hd) as [[Ho Ha Hda] [E1 E2 E3 E4 E5]]. fold d' in Ho, Ha, Hda, E1, E2, E3, E4, E5.
  split_and!; [done|done| | |].
  - intros k b (a & Had & Hag)%Hda. exists a. split; [done|]. destruct Had as (ba & Hj & Hf). destruct (Ha k ba Hj) as (a' & Hf' & Hk & _).
    simplify_eq. apply andb_true_iff in Hag as [Hl Hh]. apply N.eqb_eq in Hl. by apply bool_decide_eq_true in Hh.
  - intros k a (b & Hb & Hf). exists b. auto.
  - intros k1 k2 a1 a2 (b1 & Hb1 & Hf1) (b2 & Hb2 & Hf2) Hid. destruct (Ha _ _ Hb1) as (x1 & G1 & _ & c1 & Hc1 & Hx1).
    destruct (Ha _ _ Hb2) as (x2 & G2 & _ & c2 & Hc2 & Hx2). assert (x1 = a1) as -> by congruence. assert (x2 = a2) as -> by congruence.
    rw Hid in Hc1. congruence.
Qed.

(** ** What is answered *)
(** The content that was admitted under a key is there, and not reclaimed. *)
Definition in_custody (d : Files) (key : string) (a : Admission) (b : bytes) : Prop :=
  admitted d key a ∧ ¬ reclaimed d key ∧ d !! path_of key "data" = Some b ∧ N.of_nat (length b) = byte_length a ∧
  content_hash a = "sha256:" +:+ lower_hex (sha256 b).

Lemma agrees_in_custody d key a b :
  admitted d key a → ¬ reclaimed d key → d !! path_of key "data" = Some b → agrees_with b a = true → in_custody d key a b.
Proof. intros Ha Hr Hb [Hl%N.eqb_eq Hh%bool_decide_eq_true]%andb_true_iff. by split_and!. Qed.

Lemma inv_in_custody d key a b : custody_inv d → admitted d key a → ¬ reclaimed d key → d !! path_of key "data" = Some b → in_custody d key a b.
Proof.
  intros Hd Ha Hr Hb. destruct (ci_data d Hd key b Hb) as (a' & (c' & Hc' & Hf') & Hag). apply agrees_in_custody; try done.
  destruct Ha as (c2 & Hc2 & Hf2). by assert (a' = a) as <- by congruence.
Qed.

Definition answered (cfg : Config) (c : Clock) (q : CustodyRequest) (d d' : Files) (r : result CustodyError CustodyResponse) : Prop :=
  match r with
  | Ok (CuReceipt v sig) => ∃ id a b deadline expires, q = CuVerify id ∧ in_custody d (object_key id) a b ∧
      parse_from_rfc3339 (ad_expires_at a) = Some deadline ∧ (ck_start c < deadline)%Z ∧ (expires ≤ deadline)%Z ∧
      v = receipt_of cfg a expires ∧ verify_signature (cu_receipt_secret cfg) (canonical v) sig = true
  | Ok (CuContent l _ b) => ∃ key cap a, q = CuGetBytes key cap ∧ in_custody d key a b ∧ l = pretty (N.of_nat (length b))
  | Ok CuCreated => ∃ key cap h body a b, q = CuPutBytes key cap h body ∧ d !! path_of key "data" = None ∧ in_custody d' key a b
  | Ok CuReclaimed => ∃ id, q = CuReclaim id ∧ reclaimed d' (object_key id) ∧ d' !! path_of (object_key id) "data" = None
  | _ => True
  end.

Lemma answered_verify `{!HmacLaws} cfg c id s :
  wp (handle_verify cfg c id) (λ r s', answered cfg c (CuVerify id) (cu_files s) (cu_files s') r) s.
Proof.
  unfold handle_verify. apply wp_with_lock; [done|]. intros s1 E1. wp_step. apply wp_admission. rw E1. intros [a|e] s2 E2 Ha; [|done].
  destruct (Ha a eq_refl) as [Had Hr]. unfold expired. destruct (parse_from_rfc3339 (ad_expires_at a)) as [deadline|] eqn:Ep; [|by apply wp_throw].
  destruct (Z.leb_spec deadline (ck_start c)); [by apply wp_throw|]. wp_step. apply wp_verify_file. rw E2. intros [ok|e] s3 E3 Hok; [|done].
  destruct ok; cbn [negb]; [|by apply wp_throw]. destruct (Hok eq_refl) as (b & Hb & Hag). wp_step. apply wp_lift. cbn [ok_or]. apply wp_ret.
  intros s4 _. exists id, a, b, deadline, (Z.min deadline (ck_end c + 300000000000)). split_and!; try done; [by apply agrees_in_custody|lia|apply verify_sign].
Qed.

Lemma answered_get cfg c key cap s :
  custody_inv (cu_files s) → wp (handle_get cfg c key cap) (λ r s', answered cfg c (CuGetBytes key cap) (cu_files s) (cu_files s') r) s.
Proof.
  intros Hd. unfold handle_get. wp_step. apply wp_lift. destruct (check_capability _ _ _ _ _) as [[]|]; [|done]. apply wp_with_lock; [done|].
  intros s1 E1. wp_step. apply wp_admission. rw E1. intros [a|e] s2 E2 Ha; [|done]. destruct (Ha a eq_refl) as [Had Hr].
  wp_step. apply wp_present. rw E2. intros [p|e] s3 E3 _; [|done]. destruct p; cbn [negb]; [|by apply wp_throw].
  wp_step. apply wp_io_error, wp_read. rw E3. intros [b|e] s4 E4 Hb _; cbn [map_err]; [|done]. specialize (Hb b eq_refl).
  destruct (negb _); [by apply wp_throw|]. destruct (negb _); [by apply wp_throw|]. apply wp_ret. intros s5 _. exists key, cap, a.
  assert (Hin : in_custody (cu_files s) key a b) by by apply inv_in_custody. split_and!; try done. f_equal. symmetry. apply Hin.
Qed.

Lemma answered_put cfg c key cap h body s :
  wp (handle_put cfg c key cap h body) (λ r s', custody_inv (cu_files s) → answered cfg c (CuPutBytes key cap h body) (cu_files s) (cu_files s') r) s.
Proof.
  unfold handle_put. wp_step. apply wp_lift. destruct (check_capability _ _ _ _ _) as [[]|]; [|done]. apply wp_with_lock; [done|].
  intros s1 E1. wp_step. apply wp_admission. rw E1. intros [a|e] s2 E2 Ha; [|done]. destruct (Ha a eq_refl) as [Had Hr].
  destruct (_ || _); [by apply wp_throw|]. rw -E2 in Had Hr. wp_step. apply wp_put; [done|done|]. rw E2. intros [[]|e] s3 G Hok; [|done].
  destruct (Hok eq_refl) as (b & Hn & Hb & Hag & Hrec). apply wp_ret. intros s4 E4 Hd. destruct (G Hd) as [Hd' [_ EA _ _ _]].
  exists key, cap, h, body, a, b. rw E4. split_and!; try done. apply agrees_in_custody; try done; [|rw E2 in Hr Hrec; auto].
  destruct Had as (ba & Hj & Hf). exists ba. split; [|done]. apply EA. by rw -E2.
Qed.

(** C27: What is answered is so.  A receipt is signed, names an object that was read back with the length and the digest of its
    admission, and expires with it; the bytes of a download are those admitted; after an upload was accepted its content is in
    custody, where nothing was before; and after a reclamation the object is gone. *)
Theorem custody_answers_true `{!HmacLaws} cfg c header origin q s :
  custody_inv (cu_files s) →
  let '(r, s') := custody_serve cfg c header origin q s in answered cfg c q (cu_files s) (cu_files s') r.
Proof.
  intros Hd. assert (Hw : wp (custody_serve cfg c header origin q) (λ r s', answered cfg c q (cu_files s) (cu_files s') r) s).
  { destruct q; cbn [custody_serve]; wp_step; apply wp_lift; try (destruct (cors _ _) as [[]|]; [|done]); try (destruct (authenticate _ _) as [[]|]; [|done]);
      try (by apply wp_ret).
    - unfold handle_admit. wp_step. apply wp_lift. destruct (validate _ _ _); [|done]. wp_step. apply wp_admit. intros [k|e] s1 _ _; [|done].
      wp_step. apply wp_lift. by destruct (parse_from_rfc3339 _).
    - apply answered_verify.
    - unfold handle_head. apply wp_with_lock; [done|]. intros s1 _. wp_step. wp_step. apply wp_admission. intros [a|e] s2 _ _.
      + wp_step. apply wp_present. intros [p|e] s3 _ _; [|done]. apply wp_ret. by destruct p.
      + by destruct e.
    - unfold handle_download. destruct (_ || _ || _ || _); [by apply wp_throw|]. apply wp_with_lock; [done|]. intros s1 _.
      wp_step. apply wp_admission. intros [a|e] s2 _ _; [|done]. wp_step. apply wp_present. intros [p|e] s3 _ _; [|done]. by destruct p.
    - wp_step. apply wp_reclaim. intros [[]|e] s1 _ Hok; [|done]. apply wp_ret. exists id. split; [done|]. by apply Hok.
    - eapply wp_mono; [apply answered_put|]. auto.
    - by apply answered_get. }
  unfold wp in Hw. by destruct (custody_serve _ _ _ _ _ _).
Qed.

(** What passing a check means, and failing it. *)
Lemma ensure_result b : ensure b CuDenied = if b then Ok () else Err CuDenied.
Proof. by destruct b. Qed.

Lemma cors_result cfg origin :
  cors cfg origin = Err CuDenied ∨ (cors cfg origin = Ok () ∧ ∀ o, origin = Some o → o ∈ cu_client_origins cfg).
Proof.
  unfold cors. destruct origin as [o|]; [|by right]. case_bool_decide; [right|by left]. split; [done|]. by intros ? [= <-].
Qed.

Lemma authenticate_result cfg header :
  authenticate cfg header = Err CuDenied ∨ (authenticate cfg header = Ok () ∧ ∃ v, bearer header = Some v ∧
    hmac (as_bytes (cu_receipt_secret cfg)) (as_bytes v) = hmac (as_bytes (cu_receipt_secret cfg)) (as_bytes (cu_token cfg))).
Proof.
  unfold authenticate. rw ensure_result. destruct (bearer header) as [v|]; [|by left]. destruct (verify_signature _ _ _) eqn:Ev; [right|by left].
  split; [done|]. exists v. split; [done|]. apply verify_signature_eq, (f_equal of_hex) in Ev. unfold sign in Ev. by rw !of_lower_hex in Ev.
Qed.

Lemma check_capability_result cfg now m k cap :
  check_capability cfg now m k cap = Err CuDenied ∨ (check_capability cfg now m k cap = Ok () ∧
    cap_signature cap = sign (cu_receipt_secret cfg) (capability_message m k (cap_expires cap) (cap_name cap)) ∧ (timestamp_millis now < cap_expires cap)%Z).
Proof.
  unfold check_capability. rw ensure_result. destruct (hex_digest k); [|by left].
  destruct (Z.ltb_spec (timestamp_millis now) (cap_expires cap)); [|by left]. cbn [andb].
  destruct (verify_signature _ _ _) eqn:Ev; [right|by left]. by apply verify_signature_eq in Ev.
Qed.

(** C28: Who may: the server that shows a token of the same HMAC; for the transfer of bytes, who shows a capability that the custody
    has signed for this method, this object, this name and this time (no other capability has the same text), has not expired,
    and comes from an allowed origin.  Anyone else is refused, and nothing is done. *)
Theorem custody_authorised `{!JsonTextLaws} cfg c header origin q s :
  let '(r, s') := custody_serve cfg c header origin q s in
  let allowed method key cap :=
    cap_signature cap = sign (cu_receipt_secret cfg) (capability_message method key (cap_expires cap) (cap_name cap)) ∧
    (∀ m k e n, capability_message m k e n = capability_message method key (cap_expires cap) (cap_name cap) →
      m = method ∧ k = key ∧ e = cap_expires cap ∧ n = cap_name cap) ∧
    (timestamp_millis (ck_start c) < cap_expires cap)%Z in
  let from_client := ∀ o, origin = Some o → o ∈ cu_client_origins cfg in
  (r = Err CuDenied ∧ s' = s) ∨
  match q with
  | CuPutBytes key cap _ _ => from_client ∧ allowed "PUT" key cap
  | CuGetBytes key cap => from_client ∧ allowed "GET" key cap
  | CuOptions => from_client ∧ s' = s
  | _ => ∃ v, bearer header = Some v ∧ hmac (as_bytes (cu_receipt_secret cfg)) (as_bytes v) = hmac (as_bytes (cu_receipt_secret cfg)) (as_bytes (cu_token cfg))
  end.
Proof.
  cbn zeta. destruct (custody_serve _ _ _ _ _ _) as [r s'] eqn:E. revert E.
  destruct q; cbn [custody_serve]; unfold mbind at 1, ST_bind, lift_result;
    try (destruct (authenticate_result cfg header) as [-> |[-> Hv]]; [intros [= <- <-]; auto|by right]);
    (destruct (cors_result cfg origin) as [-> |[-> Ho]]; [intros [= <- <-]; auto|]).
  - unfold handle_put, mbind at 1, ST_bind, lift_result. destruct (check_capability_result cfg (ck_start c) "PUT" key cap) as [-> |[_ [Hs He]]];
      [intros [= <- <-]; auto|]. intros _. right. split_and!; try done. intros *. apply capability_message_inj.
  - unfold handle_get, mbind at 1, ST_bind, lift_result. destruct (check_capability_result cfg (ck_start c) "GET" key cap) as [-> |[_ [Hs He]]];
      [intros [= <- <-]; auto|]. intros _. right. split_and!; try done. intros *. apply capability_message_inj.
  - intros [= <- <-]. auto.
Qed.

(** An object named after its operation: the two locks are one, and the second is never obtained. *)
Lemma admit_waits_for_itself c input s :
  opaque_object_id input = "operation:" +:+ operation_id input → (admit_object c input s).1 = Err CuUnavailable ∧ cu_files (admit_object c input s).2 = cu_files s.
Proof.
  intros Hid. unfold admit_object. rw Hid. unfold with_lock, mbind, ST_bind, lock. case_bool_decide; [done|].
  unfold guarded. cbn. rw bool_decide_eq_true_2; [set_solver|done].
Qed.
End invariant.

(** ** Examples *)
Module CustodyWitness.
#[local] Instance toy_sha : Sha256 := Toy.toy_blake3.
#[local] Instance toy_hmac : Hmac := λ k m, Toy.toy_blake3 (k ++ m).
#[local] Instance toy_hmac_laws : HmacLaws.
Proof. intros k m. apply Toy.toy_blake3_laws. Qed.
Definition quote : JsonText := fix quote s := match s with EmptyString => "." | String c s => String "c" (String c (quote s)) end.
#[local] Existing Instance quote.
#[local] Instance quote_laws : JsonTextLaws.
Proof.
  intros a. induction a as [|x a IH]; intros [|y b] u v E; [by injection E| | |]; try by injection E.
  injection E as -> E. by destruct (IH _ _ _ E) as [-> ->].
Qed.
#[local] Instance toy_chrono : Chrono := {|
  parse_from_rfc3339 s := if bool_decide (s = "later") then Some 60000000000%Z else None;
  to_rfc3339_millis t := pretty t;
|}.
#[local] Instance toy_uuid : UuidText := λ _, true.
#[local] Instance toy_url : UrlText := λ base p q, base +:+ p +:+ join_with "&" ((λ kv, kv.1 +:+ "=" +:+ kv.2) <$> q).
#[local] Instance toy_header : HeaderText := λ _, true.

Definition content : bytes := as_bytes "content".
Definition a1 : Admission := mk_Admission "op" "uploads/1" ("sha256:" +:+ lower_hex (sha256 content)) 7 "later" "text/plain".
#[local] Instance admission_codec : Codec Admission := Toy.table_codec [a1].
#[local] Instance admission_laws : CodecLaws Admission := Toy.table_codec_laws [a1].

Definition cfg : Config := mk_Config "https://c.example" "node" "token" "secret" 1000 ["https://app.example"].
Definition at_time (t : Z) (u v : string) : Clock := mk_Clock t t t u v.
Definition key1 : string := object_key "uploads/1".
Definition upload : CustodyRequest :=
  CuPutBytes key1 (capability_for cfg "PUT" key1 100 "") (mk_PutHeaders (Some "*") (Some (content_hash a1)) (Some "text/plain"))
    [Chunk (take 3 content); Chunk (drop 3 content)].
Definition client : option string := Some "https://app.example".
Definition server : option string := Some "Bearer token".
Definition admission_request : custody_event := CuRequest [] ∅ (at_time 0 "u1" "u2") server None (CuAdmit a1).
Definition upload_request (faults : list (option nat)) (u : string) : custody_event := CuRequest faults ∅ (at_time 10 u "") None client upload.

(** An upload that is cut off while its content is written, a new start, and an upload. *)
Definition history : list custody_event :=
  [CuStart [] [] true "s1" "s2"; admission_request; upload_request [None; None; None; None; Some 2; Some 0] "u3";
   CuStart [] ["u3.part"] true "s3" "s4"; upload_request [] "u5"].
Definition files_after (es : list custody_event) : Files := foldl (custody_step cfg) ∅ es.

Lemma custody_keeps_objects_witness :
  let d := files_after history in
  let d' := foldl (custody_step cfg) d [CuRequest [] ∅ (at_time 20 "u6" "") server None (CuReclaim "uploads/1"); upload_request [] "u7"] in
  d !! path_of key1 "data" = Some content ∧ d' !! path_of key1 "data" = None ∧ reclaimed d' key1.
Proof.
  assert (Hinv : custody_inv (files_after history)) by exact (proj1 (steps_good cfg ∅ history custody_inv_empty)).
  assert (Hd : files_after history !! path_of key1 "data" = Some content) by by vm_compute.
  split; [exact Hd|].
  destruct (custody_keeps_objects cfg (files_after history)
    [CuRequest [] ∅ (at_time 20 "u6" "") server None (CuReclaim "uploads/1"); upload_request [] "u7"] Hinv) as [Hkeep _].
  destruct (Hkeep key1 content Hd) as [Hx|Hx]; [|exact Hx]. exfalso. revert Hx. vm_compute. discriminate.
Defined.

Definition certify : result CustodyError CustodyResponse * Custody :=
  custody_serve cfg (at_time 20 "" "") server None (CuVerify "uploads/1") (mk_Custody (files_after history) [] ∅).

Lemma custody_answers_true_witness :
  ∃ receipt signature b, certify.1 = Ok (CuReceipt receipt signature) ∧ files_after history !! path_of key1 "data" = Some b ∧
    lower_hex (sha256 b) = lower_hex (sha256 content).
Proof.
  assert (Hinv : custody_inv (files_after history)) by exact (proj1 (steps_good cfg ∅ history custody_inv_empty)).
  pose proof (custody_answers_true cfg (at_time 20 "" "") server None (CuVerify "uploads/1") (mk_Custody (files_after history) [] ∅) Hinv) as Ht.
  fold certify in Ht. destruct certify as [r s'] eqn:E. assert (Hr : r = certify.1) by by rw E. vm_compute in Hr. subst r.
  destruct Ht as (id & a & b & deadline & expires & [= <-] & (Had & _ & Hb & _ & Hh) & _). eexists _, _, b. split; [done|]. split; [exact Hb|].
  assert (Hc : files_after history !! path_of key1 "data" = Some content) by by vm_compute. change (object_key "uploads/1") with key1 in Hb.
  cbn [cu_files] in Hb. rewrite Hb in Hc. by injection Hc as ->.
Defined.

Lemma custody_authorised_witness :
  let forged := CuGetBytes key1 (capability_for cfg "PUT" key1 100 "") in
  let s := mk_Custody (files_after history) [] ∅ in
  custody_serve cfg (at_time 20 "" "") None client forged s = (Err CuDenied, s).
Proof.
  intros forged s. pose proof (custody_authorised cfg (at_time 20 "" "") None client forged s) as Ha.
  destruct (custody_serve _ _ _ _ _ _) as [r s']. destruct Ha as [[-> ->]|Ha]; [done|]. exfalso. destruct Ha as (_ & Hs & _).
  revert Hs. vm_compute. discriminate.
Defined.

(** The directory could not be synchronised: the upload is answered with an error, and certified afterwards. *)
Example certified_without_directory_sync :
  let s := mk_Custody (files_after [admission_request]) (replicate 9 None ++ [Some 0]) ∅ in
  let '(r, s') := custody_serve cfg (at_time 10 "u3" "") None client upload s in
  r = Err CuUnavailable ∧
  ∃ receipt signature, (custody_serve cfg (at_time 20 "" "") server None (CuVerify "uploads/1") (mk_Custody (cu_files s') [] ∅)).1 = Ok (CuReceipt receipt signature).
Proof. vm_compute. split; [done|]. eexists _, _. reflexivity. Qed.
End CustodyWitness.
