(* ===== verification/ContentHttp.v ===== *)
(** * Content over HTTP

    [synergos-core/src/content_http]: a file as a chunk list and blocks, described by a manifest,
    fetched from and stored at block servers with capability URLs.  Blocks are kept in a cache on
    disk; a file is put together from the cache and published under a name that was free.

    The cache and the directory of the destination are maps from names to entries; each access may
    fail.  Servers are a function of the requests so far.  Blocks that are transferred at the same time
    have their own cache entries: the tasks run one after another, in an order that is not known,
    and those that are cut off by an error are runs whose accesses fail from some point on.  gzip,
    URLs, header syntax, TLS and certificates are third-party code. *)

From Stdlib Require Import Strings.Ascii.
From S2P Require Import Prelude Crypto Types Content Fs Glob Invite Registry Cloudflare Custody.

Definition MAX_BLOCK_BYTES : N := 16777216.
Definition MAX_CHUNKS : N := 131072.

Inductive HError :=
| HMsg (msg : string)
| HIo (e : IoError)
| HTransport (transient : bool)
| HStatus (status : N).

Definition strip_cid (cid : string) : string :=
  if String.prefix "blake3-" cid then String.substring 7 (String.length cid - 7) cid else "".
Definition validate_cid (cid : string) : result HError () := ensure (hex_digest (strip_cid cid)) (HMsg "invalid block CID").

(** ** Manifests *)
Inductive Encoding := Identity | Gzip.
Global Instance Encoding_eq_dec : EqDecision Encoding.
Proof. solve_decision. Defined.

Record BlockDescription := mk_BlockDescription {
  bd_cid : string;
  decoded_bytes : N;
  wire_bytes : N;
  wire_sha256 : string;
  bd_encoding : Encoding;
}.
Record HttpManifest := mk_HttpManifest { hm_version : N; hm_root : string; file_bytes : N; hm_blocks : list BlockDescription }.
Record TransferGrant := mk_TransferGrant {
  gr_cid : string;
  get_url : string;
  put_url : option string;
  get_headers : list (string * string);
  put_headers : list (string * string);
}.
Record TransferPlan := mk_TransferPlan { tp_manifest : HttpManifest; tp_grants : list TransferGrant }.

Fixpoint validate_blocks (l : list BlockDescription) (seen : list string) : result HError (list string) :=
  match l with
  | [] => Ok seen
  | b :: l =>
      _ ← validate_cid (bd_cid b);
      _ ← ensure (negb (bool_decide (bd_cid b ∈ seen))) (HMsg "duplicate block description");
      _ ← ensure ((decoded_bytes b <=? MAX_BLOCK_BYTES)%N && (wire_bytes b <=? MAX_BLOCK_BYTES)%N) (HMsg "block exceeds limit");
      _ ← ensure (hex_digest (wire_sha256 b)) (HMsg "invalid wire digest");
      validate_blocks l (bd_cid b :: seen)
  end.

Definition validate_manifest (m : HttpManifest) (expected_root : string) : result HError () :=
  _ ← validate_cid expected_root;
  _ ← ensure ((hm_version m =? 1)%N && bool_decide (hm_root m = expected_root)) (HMsg "unexpected manifest version or root");
  _ ← ensure (negb (bool_decide (hm_blocks m = [])) && (N.of_nat (length (hm_blocks m)) <=? MAX_CHUNKS + 1)%N) (HMsg "invalid block count");
  seen ← validate_blocks (hm_blocks m) [];
  ensure (bool_decide (hm_root m ∈ seen)) (HMsg "root description missing").

(** ** Encodings *)
(** [GzEncoder] with a fixed header, and [GzDecoder] of which at most so many bytes are read. *)
Class GzipCodec := { gzip : bytes → result HError bytes; gunzip : bytes → N → result HError bytes }.

(** [Read::take]. *)
Definition take_bytes (n : N) (b : bytes) : bytes := if (N.of_nat (length b) <=? n)%N then b else take (N.to_nat n) b.

Section codec.
Context `{GzipCodec}.
Definition encode (b : bytes) (e : Encoding) : result HError bytes :=
  _ ← ensure (N.of_nat (length b) <=? MAX_BLOCK_BYTES)%N (HMsg "block too large");
  match e with Identity => Ok b | Gzip => gzip b end.
Definition choose (b : bytes) : result HError (Encoding * bytes) :=
  compressed ← encode b Gzip;
  if (N.of_nat (length compressed) <? sat_mul (N.of_nat (length b)) 9 / 10)%N then Ok (Gzip, compressed) else Ok (Identity, b).
Definition decode (b : bytes) (e : Encoding) (expected : N) : result HError bytes :=
  _ ← ensure (expected <=? MAX_BLOCK_BYTES)%N (HMsg "decoded block too large");
  decoded ← match e with Identity => Ok b | Gzip => gunzip b (expected + 1)%N end;
  _ ← ensure (N.of_nat (length decoded) =? expected)%N (HMsg "decoded block size mismatch");
  Ok decoded.
End codec.

(** ** URLs and headers *)
Class UrlParser := {
  parse_url_text : string → option Url;
  origin_of : Url → string;
}.
Class HeaderSyntax := { is_header_name : string → bool; is_header_text : string → bool }.

Definition drop_brackets (l : list ascii) : list ascii :=
  (fix go l := match l with c :: l' => if Ascii.eqb c "[" || Ascii.eqb c "]" then go l' else l | [] => [] end) l.
(** [trim_matches(['[', ']'])]. *)
Definition trim_brackets (s : string) : string :=
  String.string_of_list_ascii (reverse (drop_brackets (reverse (drop_brackets (String.list_ascii_of_string s))))).
(** The host of a parsed URL is in its canonical form, in which the IPv6 loopback address is [::1]. *)
Definition is_loopback_host (h : string) : bool :=
  bool_decide (h = "localhost") ||
  match parse_ipv4 (trim_brackets h) with Some (127%N :: _) => true | _ => bool_decide (trim_brackets h = "::1") end.

Definition forbidden_headers : list string :=
  ["host"; "content-length"; "transfer-encoding"; "connection"; "proxy-authorization"; "range"; "accept-encoding"].

Section urls.
Context `{UrlParser, HeaderSyntax}.
Definition parse_url (value : string) : result HError Url :=
  u ← ok_or (parse_url_text value) (HMsg "invalid transfer URL");
  _ ← ensure (bool_decide (username u = "") && bool_decide (password u = None) && bool_decide (fragment u = None))
        (HMsg "URL userinfo/fragment is forbidden");
  let loopback := match host_str u with Some h => is_loopback_host h | None => false end in
  _ ← ensure (bool_decide (scheme u = "https") || (bool_decide (scheme u = "http") && loopback)) (HMsg "HTTPS required outside loopback");
  Ok u.

Fixpoint check_headers (l : list (string * string)) : result HError () :=
  match l with
  | [] => Ok ()
  | (k, v) :: l =>
      if bool_decide (to_ascii_lowercase k ∈ forbidden_headers) then Err (HMsg "forbidden capability header")
      else
        _ ← ensure (String.length v <=? 8192)%nat (HMsg "capability header too long");
        _ ← ensure (is_header_name k) (HMsg "invalid capability header name");
        _ ← ensure (is_header_text v) (HMsg "invalid capability header value");
        check_headers l
  end.
Definition request_headers (l : list (string * string)) : result HError (list (string * string)) :=
  _ ← ensure (length l <=? 16)%nat (HMsg "too many capability headers");
  _ ← check_headers l;
  Ok l.

Fixpoint parse_origins (l : list string) : result HError (list string) :=
  match l with
  | [] => Ok []
  | s :: l =>
      u ← parse_url s;
      _ ← ensure (bool_decide (url_path u = "/") && bool_decide (query u = None)) (HMsg "allowlist entries must be origins");
      os ← parse_origins l;
      Ok (origin_of u :: os)
  end.
(** [HttpClient::new]: what is kept of it are the origins; [ca] is the outcome of reading the certificates. *)
Definition new_client (origins : list string) (ca : result HError ()) : result HError (list string) :=
  _ ← ensure (negb (bool_decide (origins = []))) (HMsg "at least one explicitly allowed origin is required");
  os ← parse_origins origins;
  _ ← ca;
  Ok os.
Definition validate_url (origins : list string) (value : string) (headers : list (string * string)) : result HError () :=
  u ← parse_url value;
  _ ← ensure (bool_decide (origin_of u ∈ origins)) (HMsg "transfer origin is not allowed");
  _ ← request_headers headers;
  Ok ().
End urls.

(** ** The world *)
Inductive Entry := Regular (b : bytes) | Irregular.

Inductive BlockRequest :=
| GetBlock (url : string) (headers : list (string * string))
| PutBlock (url : string) (headers : list (string * string)) (body : bytes).

(** Pieces of a body; [inr] is an error while it is read. *)
Inductive BlockAnswer :=
| NoAnswer (transient : bool)
| Answer (status : N) (content_length : option N) (body : list (bytes + bool)).

Class BlockServer := block_server : list BlockRequest → BlockRequest → BlockAnswer.

Record Net := mk_Net {
  hn_cache : gmap string Entry;
  hn_out : gmap string Entry;
  hn_faults : list (option nat);
  hn_sent : list BlockRequest;
}.
Abbreviation HttpM A := (ST Net HError A).

Definition with_cache (c : gmap string Entry) (s : Net) : Net := mk_Net c (hn_out s) (hn_faults s) (hn_sent s).
Definition with_out (o : gmap string Entry) (s : Net) : Net := mk_Net (hn_cache s) o (hn_faults s) (hn_sent s).

(** One access to the disk; [partial k] is what a failure leaves. *)
Definition disk_access {A} (partial : nat → Net → Net) (op : Net → result IoError (A * Net)) : ST Net IoError A := λ s,
  let '(f, rest) := match hn_faults s with f :: rest => (f, rest) | [] => (None, []) end in
  let s := mk_Net (hn_cache s) (hn_out s) rest (hn_sent s) in
  match f with
  | Some k => (Err OtherIo, partial k s)
  | None => match op s with Ok (a, s') => (Ok a, s') | Err e => (Err e, s) end
  end.
Definition disk_look {A} (op : Net → result IoError A) : ST Net IoError A := disk_access (λ _ s, s) (λ s, a ← op s; Ok (a, s)).
Definition disk_change (op : Net → result IoError Net) : ST Net IoError () := disk_access (λ _ s, s) (λ s, s' ← op s; Ok ((), s')).

Definition of_io {A} (m : ST Net IoError A) : HttpM A := λ s, let '(r, s) := m s in (map_err HIo r, s).
Definition outcome {A} (m : ST Net IoError A) : HttpM (result IoError A) := λ s, let '(r, s) := m s in (Ok r, s).

(** Files of a directory that is reached through [get] and [set]. *)
Record Dir := mk_Dir { dir_get : Net → gmap string Entry; dir_set : gmap string Entry → Net → Net }.
Definition cache_dir : Dir := mk_Dir hn_cache with_cache.
Definition out_dir : Dir := mk_Dir hn_out with_out.

Definition d_metadata (D : Dir) (name : string) : ST Net IoError Entry := disk_look (λ s, ok_or (dir_get D s !! name) NotFound).
Definition d_read (D : Dir) (name : string) : ST Net IoError bytes :=
  disk_look (λ s, match dir_get D s !! name with Some (Regular b) => Ok b | Some Irregular => Err OtherIo | None => Err NotFound end).
Definition d_create_new (D : Dir) (name : string) : ST Net IoError () :=
  disk_change (λ s, match dir_get D s !! name with None => Ok (dir_set D (<[name := Regular []]> (dir_get D s)) s) | Some _ => Err AlreadyExists end).
Definition append_to (b : bytes) (e : Entry) : Entry := match e with Regular c => Regular (c ++ b) | Irregular => Irregular end.
Definition d_append (D : Dir) (name : string) (b : bytes) : ST Net IoError () :=
  disk_access (λ k s, dir_set D (alter (append_to (take k b)) name (dir_get D s)) s)
    (λ s, Ok ((), dir_set D (alter (append_to b) name (dir_get D s)) s)).
Definition d_sync : ST Net IoError () := disk_look (λ _, Ok ()).
Definition d_remove (D : Dir) (name : string) : ST Net IoError () :=
  disk_change (λ s, match dir_get D s !! name with
                    | Some (Regular _) => Ok (dir_set D (delete name (dir_get D s)) s)
                    | Some Irregular => Err OtherIo
                    | None => Err NotFound
                    end).
Definition d_rename (D : Dir) (a b : string) : ST Net IoError () :=
  disk_change (λ s, e ← ok_or (dir_get D s !! a) NotFound; Ok (dir_set D (<[b := e]> (delete a (dir_get D s))) s)).
Definition d_hard_link (D : Dir) (a b : string) : ST Net IoError () :=
  disk_change (λ s, e ← ok_or (dir_get D s !! a) NotFound;
                    match dir_get D s !! b with None => Ok (dir_set D (<[b := e]> (dir_get D s)) s) | Some _ => Err AlreadyExists end).

(** [TemporaryFile]: removed however the computation ends. *)
Definition with_temporary {A} (D : Dir) (name : string) (m : HttpM A) : HttpM A := λ s,
  let '(r, s) := m s in let '(_, s) := d_remove D name s in (r, s).

(** ** The cache *)
Section cache.
Context `{Blake3, Hex}.

Definition load (cid : string) : HttpM (option Block) :=
  _ ← lift_result (validate_cid cid);
  m ← outcome (d_metadata cache_dir cid);
  match m with
  | Err NotFound => mret None
  | Err e => throw (HIo e)
  | Ok Irregular => throw (HMsg "cache entry is not a regular file")
  | Ok (Regular meta) =>
      if (MAX_BLOCK_BYTES <? N.of_nat (length meta))%N then mret None
      else
        b ← of_io (d_read cache_dir cid);
        let block := mk_Block cid (take_bytes (MAX_BLOCK_BYTES + 1) b) in
        if (MAX_BLOCK_BYTES <? N.of_nat (length (data block)))%N || negb (block_verify block) then mret None else mret (Some block)
  end.

Definition temp_name (uuid : string) : string := "." +:+ uuid +:+ ".part".

Definition save (uuid : string) (block : Block) : HttpM () :=
  _ ← lift_result (validate_cid (cid block));
  _ ← lift_result (ensure ((N.of_nat (length (data block)) <=? MAX_BLOCK_BYTES)%N && block_verify block) (HMsg "invalid cache block"));
  present ← load (cid block);
  match present with
  | Some _ => mret ()
  | None =>
      let temp := temp_name uuid in
      with_temporary cache_dir temp (
        _ ← of_io (d_create_new cache_dir temp);
        _ ← of_io (d_append cache_dir temp (data block));
        _ ← of_io d_sync;
        r ← outcome (d_remove cache_dir (cid block));
        match r with
        | Ok _ | Err NotFound => of_io (d_rename cache_dir temp (cid block))
        | Err e => throw (HIo e)
        end)
  end.
End cache.

(** ** Requests *)
Section requests.
Context `{UrlParser, HeaderSyntax, BlockServer}.

Definition send_block_request (rq : BlockRequest) : HttpM BlockAnswer := λ s,
  (Ok (block_server (hn_sent s) rq), mk_Net (hn_cache s) (hn_out s) (hn_faults s) (hn_sent s ++ [rq])).

Fixpoint read_body (size : N) (body : list (bytes + bool)) (got : bytes) : result HError bytes :=
  match body with
  | [] => Ok got
  | inr transient :: _ => Err (HTransport transient)
  | inl chunk :: body =>
      _ ← ensure (N.of_nat (length chunk) <=? size - N.of_nat (length got))%N (HMsg "wire response exceeds declared length");
      read_body size body (got ++ chunk)
  end.

Definition http_get (origins : list string) (url : string) (headers : list (string * string)) (size : N) : HttpM (option bytes) :=
  _ ← lift_result (validate_url origins url headers);
  _ ← lift_result (ensure (size <=? MAX_BLOCK_BYTES)%N (HMsg "wire block too large"));
  h ← lift_result (request_headers headers);
  answer ← send_block_request (GetBlock url h);
  match answer with
  | NoAnswer transient => throw (HTransport transient)
  | Answer status content_length body =>
      if (status =? 404)%N then mret None
      else if negb (status =? 200)%N then throw (HStatus status)
      else
        _ ← lift_result (match content_length with Some n => ensure (n =? size)%N (HMsg "wire length mismatch") | None => Ok () end);
        b ← lift_result (read_body size body []);
        _ ← lift_result (ensure (N.of_nat (length b) =? size)%N (HMsg "incomplete wire block"));
        mret (Some b)
  end.

Definition http_put (origins : list string) (url : string) (headers : list (string * string)) (b : bytes) : HttpM () :=
  _ ← lift_result (validate_url origins url headers);
  h ← lift_result (request_headers headers);
  answer ← send_block_request (PutBlock url h b);
  match answer with
  | NoAnswer transient => throw (HTransport transient)
  | Answer status _ _ =>
      if negb ((200 <=? status)%N && (status <=? 299)%N) && negb (status =? 412)%N then throw (HStatus status) else mret ()
  end.
End requests.

(** ** Transfer *)
Record TransferOptions := mk_TransferOptions { op_origins : list string; op_ca : result HError (); op_concurrency : nat; op_retries : nat }.
Record TransferReport := mk_TransferReport { transferred_blocks : nat; reused_blocks : nat; rp_wire_bytes : N }.
Definition empty_report : TransferReport := mk_TransferReport 0 0 0.
Record HttpSession := mk_HttpSession { se_origins : list string; se_grants : gmap string TransferGrant; se_retries : nat }.

(** The order in which transfers that run at the same time end, and those that are cut off by an error. *)
Class Completion := {
  completion : list BlockDescription → list BlockDescription;
  cut_off : list BlockDescription → list BlockDescription;
}.
Class CompletionLaws `{Completion} : Prop := {
  completion_perm : ∀ l, completion l ≡ₚ l;
  cut_off_subset : ∀ l b, b ∈ cut_off l → b ∈ l;
}.

Section transfer.
Context `{Blake3, Hex, Sha256, GzipCodec, UrlParser, HeaderSyntax, BlockServer, Completion, !Codec ChunkDag}.

Definition wire_digest (b : bytes) : string := lower_hex (sha256 b).

Fixpoint collect_grants (origins : list string) (cids : list string) (l : list TransferGrant) (grants : gmap string TransferGrant) :
    result HError (gmap string TransferGrant) :=
  match l with
  | [] => Ok grants
  | g :: l =>
      _ ← validate_cid (gr_cid g);
      _ ← validate_url origins (get_url g) (get_headers g);
      _ ← match put_url g with Some url => validate_url origins url (put_headers g) | None => Ok () end;
      _ ← ensure (bool_decide (gr_cid g ∈ cids)) (HMsg "grant outside manifest");
      _ ← ensure (bool_decide (grants !! gr_cid g = None)) (HMsg "duplicate grant");
      collect_grants origins cids l (<[gr_cid g := g]> grants)
  end.

Definition new_session (plan : TransferPlan) (root : string) (options : TransferOptions) : result HError HttpSession :=
  _ ← validate_manifest (tp_manifest plan) root;
  _ ← ensure ((1 <=? op_concurrency options)%nat && (op_concurrency options <=? 16)%nat && (op_retries options <=? 5)%nat)
        (HMsg "invalid transfer concurrency/retries");
  _ ← ensure (length (tp_grants plan) <=? length (hm_blocks (tp_manifest plan)))%nat (HMsg "too many grants");
  origins ← new_client (op_origins options) (op_ca options);
  grants ← collect_grants origins (bd_cid <$> hm_blocks (tp_manifest plan)) (tp_grants plan) ∅;
  Ok (mk_HttpSession origins grants (op_retries options)).

Definition fetch (se : HttpSession) (desc : BlockDescription) (grant : TransferGrant) : HttpM (option Block) :=
  wire ← http_get (se_origins se) (get_url grant) (get_headers grant) (wire_bytes desc);
  match wire with
  | None => mret None
  | Some wire =>
      _ ← lift_result (ensure (bool_decide (wire_digest wire = wire_sha256 desc)) (HMsg "wire digest mismatch"));
      b ← lift_result (decode wire (bd_encoding desc) (decoded_bytes desc));
      let block := mk_Block (bd_cid desc) b in
      _ ← lift_result (ensure (block_verify block) (HMsg "decoded block CID mismatch"));
      mret (Some block)
  end.

Definition upload_block (se : HttpSession) (desc : BlockDescription) (grant : TransferGrant) : HttpM (bool * N) :=
  cached ← load (bd_cid desc);
  block ← lift_result (ok_or cached (HMsg "upload cache block missing"));
  _ ← lift_result (ensure (N.of_nat (length (data block)) =? decoded_bytes desc)%N (HMsg "upload block size mismatch"));
  wire ← lift_result (encode (data block) (bd_encoding desc));
  _ ← lift_result (ensure ((N.of_nat (length wire) =? wire_bytes desc)%N && bool_decide (wire_digest wire = wire_sha256 desc))
        (HMsg "prepared wire encoding changed"));
  url ← lift_result (ok_or (put_url grant) (HMsg "upload capability missing"));
  _ ← http_put (se_origins se) url (put_headers grant) wire;
  back ← fetch se desc grant;
  _ ← lift_result (ok_or back (HMsg "uploaded block is not readable"));
  mret (true, (2 * wire_bytes desc)%N).

Definition transfer_block (se : HttpSession) (uuid : string) (desc : BlockDescription) (upload : bool) : HttpM (bool * N) :=
  grant ← lift_result (ok_or (se_grants se !! bd_cid desc) (HMsg "missing block capability; renew the transfer plan"));
  fetched ← fetch se desc grant;
  match fetched with
  | Some block =>
      _ ← (if upload then mret () else save uuid block);
      mret (negb upload, wire_bytes desc)
  | None => if upload then upload_block se desc grant else throw (HMsg "remote block is missing")
  end.

Definition one (se : HttpSession) (uuid : string) (desc : BlockDescription) (upload : bool) : HttpM (bool * N) :=
  if upload then transfer_block se uuid desc upload
  else
    cached ← load (bd_cid desc);
    match cached with
    | Some _ => mret (false, 0%N)
    | None => transfer_block se uuid desc upload
    end.

Definition is_transient (e : HError) : bool :=
  match e with
  | HTransport transient => transient
  | HStatus s => bool_decide (s ∈ [408; 429; 500; 502; 503; 504]%N)
  | _ => false
  end.

(** The loop over the attempts; the last one returns. *)
Fixpoint retry_loop (se : HttpSession) (uuid : string) (desc : BlockDescription) (upload : bool) (tries : nat) : HttpM (bool * N) :=
  r ← try_ (one se uuid desc upload);
  match r with
  | Ok v => mret v
  | Err e =>
      match tries with
      | O => throw e
      | S tries => if negb (is_transient e) then throw e else retry_loop se uuid desc upload tries
      end
  end.
Definition retry_one (se : HttpSession) (uuid : string) (desc : BlockDescription) (upload : bool) : HttpM (bool * N) :=
  retry_loop se uuid desc upload (se_retries se).

Definition account (report : TransferReport) (v : bool * N) : TransferReport :=
  if v.1 then mk_TransferReport (S (transferred_blocks report)) (reused_blocks report) (rp_wire_bytes report + v.2)
  else mk_TransferReport (transferred_blocks report) (S (reused_blocks report)) (rp_wire_bytes report + v.2).

(** Temporary names are those of the block and of the transfer. *)
Definition block_uuid (uuid : string) (desc : BlockDescription) : string := uuid +:+ "-" +:+ bd_cid desc.

Fixpoint cut_off_tasks (se : HttpSession) (uuid : string) (l : list BlockDescription) (upload : bool) : HttpM () :=
  match l with
  | [] => mret ()
  | b :: l => _ ← ignore (retry_one se (block_uuid uuid b) b upload); cut_off_tasks se uuid l upload
  end.

Fixpoint run_tasks (se : HttpSession) (uuid : string) (l : list BlockDescription) (upload : bool) (report : TransferReport) :
    HttpM TransferReport :=
  match l with
  | [] => mret report
  | b :: l =>
      r ← try_ (retry_one se (block_uuid uuid b) b upload);
      match r with
      | Ok v => run_tasks se uuid l upload (account report v)
      | Err e => _ ← cut_off_tasks se uuid (cut_off l) upload; throw e
      end
  end.
Definition parallel (se : HttpSession) (uuid : string) (l : list BlockDescription) (upload : bool) (report : TransferReport) : HttpM TransferReport :=
  run_tasks se uuid (completion l) upload report.

(** ** Assembly *)
Fixpoint check_chunks (root : string) (descriptions : list BlockDescription) (l : list string) (used : list string) (size : N) :
    result HError (list string * N) :=
  match l with
  | [] => Ok (used, size)
  | c :: l =>
      _ ← validate_cid c;
      _ ← ensure (negb (bool_decide (c = root))) (HMsg "recursive root is forbidden");
      b ← ok_or (find_first (λ b, bool_decide (bd_cid b = c)) descriptions) (HMsg "DAG block description missing");
      _ ← ensure (0 <? decoded_bytes b)%N (HMsg "empty data chunk");
      _ ← ensure (size + decoded_bytes b <=? u64_max)%N (HMsg "DAG size overflow");
      check_chunks root descriptions l (if bool_decide (c ∈ used) then used else used ++ [c]) (size + decoded_bytes b)%N
  end.

Definition validated_dag (m : HttpManifest) : HttpM ChunkDag :=
  loaded ← load (hm_root m);
  root ← lift_result (ok_or loaded (HMsg "verified root missing"));
  dag ← lift_result (ok_or (from_slice (data root)) (HMsg "invalid ChunkDag root"));
  _ ← lift_result (ensure ((N.of_nat (length (dag_chunks dag)) <=? MAX_CHUNKS)%N && (total_size dag =? file_bytes m)%N) (HMsg "DAG size/count mismatch"));
  '(used, size) ← lift_result (check_chunks (hm_root m) (hm_blocks m) (dag_chunks dag) [hm_root m] 0);
  _ ← lift_result (ensure ((size =? total_size dag)%N && (length used =? length (hm_blocks m))%nat) (HMsg "manifest is not the exact DAG closure"));
  mret dag.

Fixpoint write_blocks (temp : string) (l : list string) (written : N) : HttpM N :=
  match l with
  | [] => mret written
  | c :: l =>
      loaded ← load c;
      block ← lift_result (ok_or loaded (HMsg "verified data chunk missing"));
      _ ← of_io (d_append out_dir temp (data block));
      _ ← lift_result (ensure (written + N.of_nat (length (data block)) <=? u64_max)%N (HMsg "output size overflow"));
      write_blocks temp l (written + N.of_nat (length (data block)))%N
  end.

Definition check_destination (destination : string) : HttpM () :=
  m ← outcome (d_metadata out_dir destination);
  match m with
  | Err NotFound => mret ()
  | _ => throw (HMsg "destination already exists or cannot be inspected")
  end.

Definition out_temp (uuid : string) : string := ".synergos-" +:+ uuid +:+ ".part".

Definition assemble (uuid : string) (dag : ChunkDag) (destination : string) : HttpM () :=
  _ ← check_destination destination;
  _ ← of_io (disk_look (λ _, Ok ()) : ST Net IoError ());
  let temp := out_temp uuid in
  with_temporary out_dir temp (
    _ ← of_io (d_create_new out_dir temp);
    written ← write_blocks temp (dag_chunks dag) 0;
    _ ← lift_result (ensure (written =? total_size dag)%N (HMsg "assembled size mismatch"));
    _ ← of_io d_sync;
    of_io (d_hard_link out_dir temp destination)).

Definition children (m : HttpManifest) (root : string) : list BlockDescription := filter (λ b, bd_cid b ≠ root) (hm_blocks m).
Definition root_of (m : HttpManifest) (root : string) : result HError BlockDescription :=
  ok_or (find_first (λ b, bool_decide (bd_cid b = root)) (hm_blocks m)) (HMsg "root missing").

Definition pull (uuid : string) (plan : TransferPlan) (expected_root destination : string) (options : TransferOptions) : HttpM TransferReport :=
  _ ← check_destination destination;
  se ← lift_result (new_session plan expected_root options);
  root ← lift_result (root_of (tp_manifest plan) expected_root);
  v ← retry_one se (block_uuid uuid root) root false;
  dag ← validated_dag (tp_manifest plan);
  report ← parallel se uuid (children (tp_manifest plan) expected_root) false (account empty_report v);
  _ ← assemble uuid dag destination;
  mret report.

Fixpoint check_uploadable (se : HttpSession) (l : list BlockDescription) : HttpM () :=
  match l with
  | [] => mret ()
  | b :: l =>
      _ ← lift_result (ensure (match se_grants se !! bd_cid b with Some g => bool_decide (is_Some (put_url g)) | None => false end)
            (HMsg "upload requires read and write capabilities for every block"));
      loaded ← load (bd_cid b);
      _ ← lift_result (ok_or loaded (HMsg "upload cache is incomplete"));
      check_uploadable se l
  end.

Definition push (uuid : string) (plan : TransferPlan) (expected_root : string) (options : TransferOptions) : HttpM TransferReport :=
  se ← lift_result (new_session plan expected_root options);
  _ ← validated_dag (tp_manifest plan);
  _ ← check_uploadable se (hm_blocks (tp_manifest plan));
  root ← lift_result (root_of (tp_manifest plan) expected_root);
  report ← parallel se uuid (children (tp_manifest plan) expected_root) true empty_report;
  v ← retry_one se (block_uuid uuid root) root true;
  mret (account report v).

(** ** Preparation *)
(** What is known of the source before and after, and what the reads deliver. *)
Record Source := mk_Source {
  so_is_file : bool;
  so_len : N;
  so_modified : Z;
  so_content : bytes;
  so_len_after : N;
  so_modified_after : Z;
}.

Definition describe (block : Block) (encoding : Encoding) (wire : bytes) : BlockDescription :=
  mk_BlockDescription (cid block) (N.of_nat (length (data block))) (N.of_nat (length wire)) (wire_digest wire) encoding.

Fixpoint prepare_loop (uuid : string) (l : list bytes) (cids : list string) (descriptions : gmap string BlockDescription) (total : N) :
    HttpM (list string * gmap string BlockDescription * N) :=
  match l with
  | [] => mret (cids, descriptions, total)
  | b :: l =>
      _ ← of_io (disk_look (λ _, Ok ()) : ST Net IoError ());
      _ ← lift_result (ensure (N.of_nat (length cids) <? MAX_CHUNKS)%N (HMsg "input grew beyond chunk limit"));
      let block := new_block b in
      let next descriptions := prepare_loop uuid l (cids ++ [cid block]) descriptions (total + N.of_nat (length b))%N in
      match descriptions !! cid block with
      | Some _ => next descriptions
      | None =>
          '(encoding, wire) ← lift_result (choose (data block));
          _ ← save (uuid +:+ cid block) block;
          next (<[cid block := describe block encoding wire]> descriptions)
      end
  end.

(** [BTreeMap::into_values]. *)
Definition values_in_order (m : gmap string BlockDescription) : list BlockDescription :=
  snd <$> isort (λ x y, string_leb x.1 y.1) (map_to_list m).

Definition prepare (uuid : string) (source : Source) (chunk_bytes : N) : HttpM HttpManifest :=
  _ ← lift_result (ensure ((65536 <=? chunk_bytes)%N && (chunk_bytes <=? 8388608)%N) (HMsg "chunk size must be 64 KiB to 8 MiB"));
  _ ← of_io (disk_look (λ _, Ok ()) : ST Net IoError ());
  _ ← lift_result (ensure (so_is_file source && (so_len source <=? chunk_bytes * MAX_CHUNKS)%N)
        (HMsg "input exceeds chunk-count limit or is not a regular file"));
  '(cids, descriptions, total) ← prepare_loop uuid (chunks (N.to_nat chunk_bytes) (so_content source)) [] ∅ 0;
  _ ← of_io (disk_look (λ _, Ok ()) : ST Net IoError ());
  _ ← lift_result (ensure ((so_len source =? so_len_after source)%N && (so_modified source =? so_modified_after source)%Z && (total =? so_len source)%N)
        (HMsg "source changed while preparing; retry from a stable file"));
  root_bytes ← lift_result (ok_or (to_vec (mk_ChunkDag total cids)) (HMsg "encode"));
  let root_block := new_block root_bytes in
  _ ← lift_result (ensure (N.of_nat (length root_bytes) <=? MAX_BLOCK_BYTES)%N (HMsg "root block too large"));
  let descriptions := <[cid root_block := describe root_block Identity root_bytes]> descriptions in
  _ ← save (uuid +:+ cid root_block) root_block;
  let m := mk_HttpManifest 1 (cid root_block) total (values_in_order descriptions) in
  _ ← lift_result (validate_manifest m (hm_root m));
  mret m.
End transfer.

(** ** What an access can do *)
(** The same but for the faults and the cache. *)
Definition same_but_cache (s s' : Net) : Prop := hn_out s' = hn_out s ∧ hn_sent s' = hn_sent s.
(** The same but for the faults. *)
Definition same_net (s s' : Net) : Prop := hn_cache s' = hn_cache s ∧ hn_out s' = hn_out s ∧ hn_sent s' = hn_sent s.
#[export] Instance same_but_cache_po : PreOrder same_but_cache.
Proof. split; [by intros s|]. intros s1 s2 s3 [A1 B1] [A2 B2]. by rw /same_but_cache A2 B2. Qed.
#[export] Instance same_net_po : PreOrder same_net.
Proof. split; [by intros s|]. intros s1 s2 s3 (A1 & B1 & C1) (A2 & B2 & C2). by rw /same_net A2 B2 C2. Qed.
Lemma same_net_cache s s' : same_net s s' → same_but_cache s s'.
Proof. by intros (_ & ? & ?). Qed.
#[export] Hint Resolve same_net_cache : content_http.

Section accesses.
Context {A : Type}.

Lemma wp_look (op : Net → result IoError A) (Q : result IoError A → Net → Prop) s :
  (∀ r s', same_net s s' → (∀ a, r = Ok a → ∃ s0, same_net s s0 ∧ op s0 = Ok a) →
    (r = Err NotFound → ∃ s0, same_net s s0 ∧ op s0 = Err NotFound) → Q r s') → wp (disk_look op) Q s.
Proof.
  intros HQ. unfold wp, disk_look, disk_access. destruct s as [c o [|[k|] fs] l]; cbn; [| |];
    try (destruct (op _) as [a|e] eqn:E; cbn; apply HQ; [done| | |done| |]; intros *; intros [= <-] || intros [= ->]; by eexists; split; [|exact E]).
  by apply HQ.
Qed.

Lemma wp_of_io (m : ST Net IoError A) (Q : result HError A → Net → Prop) s : wp m (λ r, Q (map_err HIo r)) s → wp (of_io m) Q s.
Proof. unfold wp, of_io. by destruct (m s). Qed.
Lemma wp_outcome (m : ST Net IoError A) (Q : result HError (result IoError A) → Net → Prop) s : wp m (λ r, Q (Ok r)) s → wp (outcome m) Q s.
Proof. unfold wp, outcome. by destruct (m s). Qed.
End accesses.

Lemma wp_change (op : Net → result IoError Net) (Q : result IoError () → Net → Prop) s :
  (∀ e s', same_net s s' → Q (Err e) s') → (∀ s0 s', same_net s s0 → op s0 = Ok s' → Q (Ok ()) s') → wp (disk_change op) Q s.
Proof.
  intros HE HQ. unfold wp, disk_change, disk_access. destruct s as [c o [|[k|] fs] l]; cbn; try (by apply HE);
    (destruct (op _) as [s'|e] eqn:E; cbn; [eapply HQ; [|exact E]; done|by apply HE]).
Qed.

(** *** The cache *)
Section caching.
Context `{Blake3, Hex}.

Lemma wp_cache_load c (Q : result HError (option Block) → Net → Prop) s :
  (∀ r s', same_net s s' → (∀ b, r = Ok (Some b) → cid b = c ∧ block_verify b = true) → Q r s') → wp (load c) Q s.
Proof.
  intros HQ. unfold load. wp_step. apply wp_lift. destruct (validate_cid c); [|by apply HQ]. wp_step. apply wp_outcome, wp_look.
  intros [[meta|]|e] s1 S1 _ _.
  - destruct (_ <? _)%N; [by apply wp_ret, HQ|]. wp_step. apply wp_of_io, wp_look. intros [b|e] s2 S2 _ _; cbn [map_err]; [|apply HQ; [by etransitivity|done]].
    destruct (_ <? _)%N; cbn [orb]; [apply wp_ret, HQ; [by etransitivity|done]|].
    destruct (block_verify _) eqn:Ev; cbn [negb]; apply wp_ret, HQ; try (by etransitivity); [|done]. by intros x [= <-].
  - by apply wp_throw, HQ.
  - destruct e; first [by apply wp_ret, HQ|by apply wp_throw, HQ].
Qed.

(** Whatever it does, it is in the cache. *)
Definition in_cache {A} (m : HttpM A) : Prop := ∀ s, wp m (λ _ s', same_but_cache s s') s.

Lemma in_cache_bind {A B} (m : HttpM A) (f : A → HttpM B) : in_cache m → (∀ a, in_cache (f a)) → in_cache (m ≫= f).
Proof.
  intros Hm Hf s. wp_step. eapply wp_mono; [apply Hm|]. intros [a|e] s1 S1; [|done]. eapply wp_mono; [apply Hf|]. intros r s2 S2. by etransitivity.
Qed.
Lemma in_cache_lift {A} (r : result HError A) : in_cache (lift_result r).
Proof. by intros s. Qed.
Lemma in_cache_load c : in_cache (load c).
Proof. intros s. apply wp_cache_load. intros r s' S _. by apply same_net_cache. Qed.
Lemma in_cache_change (op : Net → result IoError Net) : (∀ s s', op s = Ok s' → same_but_cache s s') → in_cache (of_io (disk_change op)).
Proof.
  intros Hop s. apply wp_of_io, wp_change; [intros e s' S; by apply same_net_cache|]. intros s0 s' S E.
  etransitivity; [by apply same_net_cache|by apply Hop].
Qed.

Lemma cache_remove name s : wp (d_remove cache_dir name) (λ _ s', same_but_cache s s') s.
Proof.
  apply wp_change; [intros e s' S; by apply same_net_cache|]. intros s0 s' S E. etransitivity; [by apply same_net_cache|].
  cbn in E. destruct (hn_cache s0 !! name) as [[]|]; by simplify_eq/=.
Qed.

Lemma in_cache_save u b : in_cache (save u b).
Proof.
  unfold save. apply in_cache_bind; [apply in_cache_lift|intros _]. apply in_cache_bind; [apply in_cache_lift|intros _].
  apply in_cache_bind; [apply in_cache_load|]. intros [x|]; [by intros s; apply wp_ret|]. intros s. unfold wp, with_temporary.
  match goal with |- context[let '(r, s) := ?m s in _] => assert (Hm : in_cache m) end.
  - apply in_cache_bind; [|intros _; apply in_cache_bind; [|intros _; apply in_cache_bind; [|intros _; apply in_cache_bind]]].
    + apply in_cache_change. intros s1 s2 E. cbn in E. by destruct (hn_cache s1 !! _); simplify_eq/=.
    + intros s1. apply wp_of_io. unfold wp, d_append, disk_access. by destruct s1 as [c o [|[k|] fs] l].
    + intros s1. apply wp_of_io, wp_look. intros r s2 S2 _ _. by apply same_net_cache.
    + intros s1. apply wp_outcome. apply cache_remove.
    + assert (Hr : in_cache (of_io (d_rename cache_dir (temp_name u) (cid b)))).
      { apply in_cache_change. intros s1 s2 E. cbn in E. by destruct (hn_cache s1 !! _); simplify_eq/=. }
      intros [[]|e]; [exact Hr|]. destruct e; try exact Hr; by intros s1; apply wp_throw.
  - specialize (Hm s). unfold wp in Hm. destruct (_ ≫= _) as [r s1]. pose proof (cache_remove (temp_name u) s1) as Hd. unfold wp in Hd.
    destruct (d_remove _ _ _) as [r' s2]. by etransitivity.
Qed.
End caching.

(** *** Requests *)
Section quietness.
Context `{BlockServer}.

(** Nothing but the cache changes, and such requests are sent. *)
Definition quiet (P : BlockRequest → Prop) (s s' : Net) : Prop := hn_out s' = hn_out s ∧ ∃ l, hn_sent s' = hn_sent s ++ l ∧ Forall P l.
Global Instance quiet_po P : PreOrder (quiet P).
Proof.
  split; [by intros s; split; [|exists []; rw app_nil_r]|]. intros s1 s2 s3 [O1 (l1 & L1 & F1)] [O2 (l2 & L2 & F2)]. split; [congruence|].
  exists (l1 ++ l2). rw L2 L1 -app_assoc. split; [done|by apply Forall_app].
Qed.
Lemma cache_quiet P s s' : same_but_cache s s' → quiet P s s'.
Proof. intros [O L]. split; [done|]. exists []. by rw L app_nil_r. Qed.

Definition quietly (P : BlockRequest → Prop) {A} (m : HttpM A) : Prop := ∀ s, wp m (λ _ s', quiet P s s') s.

Section combinators.
Context (P : BlockRequest → Prop).
Lemma quietly_bind {A B} (m : HttpM A) (f : A → HttpM B) : quietly P m → (∀ a, quietly P (f a)) → quietly P (m ≫= f).
Proof.
  intros Hm Hf s. wp_step. eapply wp_mono; [apply Hm|]. intros [a|e] s1 S1; [|done]. eapply wp_mono; [apply Hf|]. intros r s2 S2. by etransitivity.
Qed.
Lemma quietly_ret {A} (a : A) : quietly P (mret a : HttpM A).
Proof. intros s. by apply wp_ret. Qed.
Lemma quietly_throw {A} e : quietly P (throw e : HttpM A).
Proof. intros s. by apply wp_throw. Qed.
Lemma quietly_lift {A} (r : result HError A) : quietly P (lift_result r).
Proof. intros s. by apply wp_lift. Qed.
Lemma quietly_lift_bind {A B} (r : result HError A) (f : A → HttpM B) : (∀ a, r = Ok a → quietly P (f a)) → quietly P (lift_result r ≫= f).
Proof. intros Hf s. wp_step. apply wp_lift. destruct r as [a|e]; [by apply Hf|done]. Qed.
Lemma quietly_try {A} (m : HttpM A) : quietly P m → quietly P (try_ m).
Proof. intros Hm s. apply wp_try. apply Hm. Qed.
Lemma quietly_ignore {A} (m : HttpM A) : quietly P m → quietly P (ignore m).
Proof. intros Hm s. apply wp_ignore. apply Hm. Qed.
Lemma quietly_cache {A} (m : HttpM A) : in_cache m → quietly P m.
Proof. intros Hm s. eapply wp_mono; [apply Hm|]. intros r s'. apply cache_quiet. Qed.
Lemma quietly_send rq : P rq → quietly P (send_block_request rq).
Proof. intros Hp s. split; [done|]. exists [rq]. by split; [|apply Forall_singleton]. Qed.
End combinators.
End quietness.

#[export] Hint Resolve quietly_ret quietly_throw quietly_lift quietly_cache in_cache_load in_cache_save : content_http.

Ltac quiet_tac :=
  repeat match goal with
  | |- quietly _ (lift_result _ ≫= _) => apply quietly_lift_bind; intros ? ?
  | |- quietly _ (_ ≫= _) => apply quietly_bind; [|intros ?]
  | |- quietly _ (try_ _) => apply quietly_try
  | |- quietly _ (ignore _) => apply quietly_ignore
  | |- quietly _ (match ?x with _ => _ end) => destruct x eqn:?
  | |- quietly _ _ => by auto with content_http
  end.

(** The check that comes next, passed. *)
Ltac pass_check := match goal with |- (ensure ?c _ ≫= _) = _ → _ => destruct c eqn:?; cbn [ensure]; cbn; [|done]
  | |- match ensure ?c _ with _ => _ end = _ → _ => destruct c eqn:?; cbn [ensure]; cbn; [|done] end.

Section sending.
Context `{Blake3, Hex, Sha256, GzipCodec, UrlParser, HeaderSyntax, BlockServer, Completion, !Codec ChunkDag}.

Definition safe_url (origins : list string) (url : string) : Prop := ∃ u, parse_url url = Ok u ∧ origin_of u ∈ origins.
Lemma validate_url_safe origins url h x : validate_url origins url h = Ok x → safe_url origins url.
Proof.
  unfold validate_url. destruct (parse_url url) as [u|] eqn:E; [|done]. cbn. unfold ensure at 1. case_bool_decide; [|done]. intros _. by exists u.
Qed.

(** What a session may send. *)
Definition granted (se : HttpSession) (upload : bool) (rq : BlockRequest) : Prop :=
  match rq with
  | GetBlock url h => safe_url (se_origins se) url ∧ ∃ c g, se_grants se !! c = Some g ∧ url = get_url g ∧ h = get_headers g
  | PutBlock url h b => upload = true ∧ safe_url (se_origins se) url ∧ ∃ c g, se_grants se !! c = Some g ∧ put_url g = Some url ∧ h = put_headers g
  end.

Lemma request_headers_same h h' : request_headers h = Ok h' → h' = h.
Proof. unfold request_headers. destruct (ensure _ _); [|done]. cbn. destruct (check_headers h); [|done]. by intros [= <-]. Qed.

Lemma quietly_fetch se upload desc c g : se_grants se !! c = Some g → quietly (granted se upload) (fetch se desc g).
Proof.
  intros Hg. unfold fetch, http_get. quiet_tac. apply quietly_send. split; [by eapply validate_url_safe|].
  exists c, g. split_and!; try done. by eapply request_headers_same.
Qed.

Lemma quietly_one se u desc upload : quietly (granted se upload) (one se u desc upload).
Proof.
  assert (Ht : quietly (granted se upload) (transfer_block se u desc upload)).
  { unfold transfer_block. apply quietly_lift_bind. intros g Hg. destruct (se_grants se !! bd_cid desc) as [g'|] eqn:E; [|done]. injection Hg as ->.
    apply quietly_bind; [by eapply quietly_fetch|]. intros [b|]; [quiet_tac|]. destruct upload; [|quiet_tac].
    unfold upload_block, http_put. quiet_tac; [|by eapply quietly_fetch]. apply quietly_send. split; [done|]. split; [by eapply validate_url_safe|].
    exists (bd_cid desc), g. split_and!; try done; [|by eapply request_headers_same]. by destruct (put_url g); simplify_eq/=. }
  unfold one. destruct upload; [done|]. quiet_tac.
Qed.

Lemma quietly_retry se u desc upload : quietly (granted se upload) (retry_one se u desc upload).
Proof.
  unfold retry_one. induction (se_retries se) as [|n IH]; cbn [retry_loop]; (apply quietly_bind; [apply quietly_try, quietly_one|intros ?]); quiet_tac.
Qed.
Hint Resolve quietly_retry : content_http.

Lemma quietly_cut_off se u l upload : quietly (granted se upload) (cut_off_tasks se u l upload).
Proof. induction l as [|b l IH]; cbn [cut_off_tasks]; quiet_tac. Qed.
Hint Resolve quietly_cut_off : content_http.

Lemma quietly_tasks se u l upload report : quietly (granted se upload) (run_tasks se u l upload report).
Proof. revert report. induction l as [|b l IH]; intros report; cbn [run_tasks]; quiet_tac. Qed.

Lemma quietly_dag se upload m : quietly (granted se upload) (validated_dag m).
Proof. unfold validated_dag. quiet_tac. Qed.

Lemma quietly_uploadable P se l : quietly P (check_uploadable se l).
Proof. induction l as [|b l IH]; cbn [check_uploadable]; quiet_tac. Qed.

(** A session holds grants of its plan, and origins that were asked for. *)
Lemma collect_grants_from origins cids l gs gs' (P : TransferGrant → Prop) :
  collect_grants origins cids l gs = Ok gs' → (∀ g, g ∈ l → P g) → (∀ c g, gs !! c = Some g → P g) → ∀ c g, gs' !! c = Some g → P g.
Proof.
  revert gs. induction l as [|g l IH]; intros gs; cbn [collect_grants]; [by intros [= ->]|].
  destruct (validate_cid _); [|done]. cbn. destruct (validate_url origins (get_url g) _); [|done]. cbn.
  generalize (match put_url g with Some url => validate_url origins url (put_headers g) | None => Ok () end). intros [[]|]; [|done]. cbn.
  destruct (bool_decide (gr_cid g ∈ cids)); cbn; [|done]. destruct (bool_decide (gs !! gr_cid g = None)); cbn; [|done].
  intros Hc Hl Hg. eapply IH; [exact Hc|by intros x Hx; apply Hl; right|]. intros c x [[_ <-]|[_ Hx]]%lookup_insert_Some; [apply Hl; by left|by eapply Hg].
Qed.

Lemma parse_origins_from l os o : parse_origins l = Ok os → o ∈ os → ∃ t u, t ∈ l ∧ parse_url t = Ok u ∧ origin_of u = o.
Proof.
  revert os. induction l as [|t l IH]; intros os; cbn [parse_origins]; [by intros [= <-] ?%elem_of_nil|].
  destruct (parse_url t) as [u|] eqn:Eu; [|done]. cbn. pass_check. destruct (parse_origins l) as [os'|]; [|done]. cbn.
  intros [= <-] [->|Ho]%elem_of_cons; [exists t, u; split_and!; [by left|done|done]|].
  destruct (IH _ eq_refl Ho) as (t' & u' & ? & ? & ?). exists t', u'. split_and!; [by right|done|done].
Qed.

Lemma new_session_from plan root opts se :
  new_session plan root opts = Ok se →
  validate_manifest (tp_manifest plan) root = Ok () ∧ (∀ c g, se_grants se !! c = Some g → g ∈ tp_grants plan) ∧
  (∀ o, o ∈ se_origins se → ∃ t u, t ∈ op_origins opts ∧ parse_url t = Ok u ∧ origin_of u = o).
Proof.
  unfold new_session. destruct (validate_manifest _ _) as [[]|]; [|done]. cbn. pass_check. pass_check.
  unfold new_client. destruct (bool_decide (op_origins opts = [])); cbn; [done|]. destruct (parse_origins _) as [os|] eqn:Eo; [|done]. cbn. destruct (op_ca opts); [|done]. cbn.
  destruct (collect_grants _ _ _ _) as [gs|] eqn:Eg; [|done]. intros [= <-]. cbn. split_and!; [done| |intros o Ho; by eapply parse_origins_from].
  intros c g. eapply (collect_grants_from _ _ _ _ _ (λ g, g ∈ tp_grants plan)); [exact Eg|done|]. by intros c' g' ?%lookup_empty_Some.
Qed.
End sending.

(** ** The assembled file *)
Section assembled.
Context `{Blake3, Hex, Sha256, GzipCodec, UrlParser, HeaderSyntax, BlockServer, Completion, !Codec ChunkDag}.

(** Only the temporary file differs, and holds [b]. *)
Definition only_temp (temp : string) (o o' : gmap string Entry) : Prop := ∀ n, n ≠ temp → o' !! n = o !! n.
Definition assembling (temp : string) (b : bytes) (o o' : gmap string Entry) : Prop := only_temp temp o o' ∧ o' !! temp = Some (Regular b).

Lemma wp_out_append temp b c o (Q : result IoError () → Net → Prop) s :
  assembling temp c o (hn_out s) → (∀ e s', only_temp temp o (hn_out s') → hn_sent s' = hn_sent s → Q (Err e) s') →
  (∀ s', assembling temp (c ++ b) o (hn_out s') → hn_sent s' = hn_sent s → Q (Ok ()) s') → wp (d_append out_dir temp b) Q s.
Proof.
  intros [Ho Hc] HE HQ. assert (Ha : ∀ b', assembling temp (c ++ b') o (alter (append_to b') temp (hn_out s))).
  { intros b'. split; [|by rw lookup_alter_eq Hc]. intros n Hn. rw lookup_alter_ne //. by apply Ho. }
  unfold wp, d_append, disk_access. destruct s as [ca out [|[k|] fs] l]; cbn in *; [by apply HQ; [apply Ha|]|by apply HE; [apply Ha|]|by apply HQ; [apply Ha|]].
Qed.

Lemma wp_write_blocks temp l o (Q : result HError N → Net → Prop) : ∀ written got s,
  assembling temp got o (hn_out s) → (∀ e s', only_temp temp o (hn_out s') → hn_sent s' = hn_sent s → Q (Err e) s') →
  (∀ parts s', Forall2 (λ c b, cid_for b = c) l parts → assembling temp (got ++ mjoin parts) o (hn_out s') → hn_sent s' = hn_sent s →
    Q (Ok (written + N.of_nat (length (mjoin parts)))%N) s') →
  wp (write_blocks temp l written) Q s.
Proof.
  induction l as [|c l IH]; intros written got s Ha HE HQ; cbn [write_blocks].
  { apply wp_ret. specialize (HQ [] s). cbn in HQ. rw N.add_0_r in HQ. apply HQ; [constructor|by rw app_nil_r|done]. }
  wp_step. apply wp_cache_load. intros [[b|]|e] s1 (_ & O1 & L1) Hb; [|wp_step; apply wp_lift; apply HE; [rw O1; apply Ha|done]|apply HE; [rw O1; apply Ha|done]].
  wp_step. apply wp_lift. cbn [ok_or]. destruct (Hb b eq_refl) as [Hcid Hv]. wp_step. apply wp_of_io. eapply wp_out_append; [rw O1; exact Ha| |].
  { intros e s2 O2 L2. apply HE; [done|congruence]. }
  intros s2 A2 L2. cbn [map_err]. wp_step. apply wp_lift. destruct (ensure _ _) as [[]|e]; [|apply HE; [apply A2|congruence]].
  eapply IH; [exact A2|intros e s3 O3 L3; apply HE; [done|congruence]|]. intros parts s3 F3 A3 L3.
  specialize (HQ (data b :: parts) s3). cbn in HQ. rw length_app Nat2N.inj_add N.add_assoc in HQ. apply HQ; [|by rw app_assoc|congruence].
  constructor; [|done]. unfold block_verify in Hv. apply bool_decide_eq_true in Hv. congruence.
Qed.

(** The file that an identifier stands for. *)
Definition content_of (root : string) (content : bytes) : Prop :=
  ∃ root_bytes dag parts, cid_for root_bytes = root ∧ from_slice root_bytes = Some dag ∧
    Forall2 (λ c b, cid_for b = c) (dag_chunks dag) parts ∧ content = mjoin parts ∧ N.of_nat (length content) = total_size dag.

Lemma wp_assemble u dag dest (Q : result HError () → Net → Prop) s :
  dest ≠ out_temp u →
  (∀ r s', hn_sent s' = hn_sent s → (∀ n, n ≠ dest → n ≠ out_temp u → hn_out s' !! n = hn_out s !! n) →
    match r with
    | Ok _ => hn_out s !! dest = None ∧ ∃ parts, Forall2 (λ c b, cid_for b = c) (dag_chunks dag) parts ∧
        N.of_nat (length (mjoin parts)) = total_size dag ∧ hn_out s' !! dest = Some (Regular (mjoin parts))
    | Err _ => hn_out s' !! dest = hn_out s !! dest
    end → Q r s') → wp (assemble u dag dest) Q s.
Proof.
  intros Hne HQ. unfold assemble, check_destination. wp_step. wp_step. apply wp_outcome, wp_look. intros [e|e] s1 (_ & O1 & L1) _ Hn;
    [apply wp_throw, HQ; [done|by rw O1|by rw O1]|]. destruct e; try (apply wp_throw, HQ; [done|by rw O1|by rw O1]). apply wp_ret.
  assert (Hfree : hn_out s !! dest = None). { destruct (Hn eq_refl) as (s0 & (_ & E0 & _) & Hs0). cbn in Hs0. rw E0 in Hs0. by destruct (hn_out s !! dest). }
  wp_step. apply wp_of_io, wp_look. intros [x|e] s2 (_ & O2 & L2) _ _; cbn [map_err]; [|apply HQ; [congruence|by rw O2 O1|by rw O2 O1]].
  set (temp := out_temp u). set (o := hn_out s).
  assert (Hw : ∀ m : HttpM (), wp m (λ r s', hn_sent s' = hn_sent s ∧ match r with
     | Ok _ => ∃ parts, Forall2 (λ c b, cid_for b = c) (dag_chunks dag) parts ∧ N.of_nat (length (mjoin parts)) = total_size dag ∧
        only_temp temp (<[dest := Regular (mjoin parts)]> o) (hn_out s')
     | Err _ => only_temp temp o (hn_out s') end) s2 → wp (with_temporary out_dir temp m) Q s2).
  { intros m Hm. unfold wp, with_temporary in *. destruct (m s2) as [r s3]. destruct Hm as [L3 Hr].
    assert (Hd : wp (d_remove out_dir temp) (λ _ s4, hn_sent s4 = hn_sent s3 ∧ only_temp temp (hn_out s3) (hn_out s4)) s3).
    { apply wp_change; [by intros e s4 (_ & -> & ->)|]. intros s0 s4 (_ & E0 & L0) E4. cbn in E4. destruct (hn_out s0 !! temp) as [[]|]; simplify_eq/=.
      split; [done|]. intros n Hn'. rw lookup_delete_ne // E0 //. }
    unfold wp in Hd. destruct (d_remove _ _ s3) as [r' s4]. destruct Hd as [L4 D4]. apply HQ; [congruence| |].
    - intros n Hd Ht. rw D4 //. destruct r; [destruct Hr as (parts & _ & _ & Hr); rw Hr // lookup_insert_ne //|by rw Hr].
    - destruct r; [|rw D4 //; by apply Hr]. destruct Hr as (parts & F & Hl & Hr). split; [done|]. exists parts. split_and!; try done.
      rw D4 // Hr // lookup_insert_eq //. }
  apply Hw. wp_step. apply wp_of_io, wp_change. { intros e s3 (_ & O3 & L3). cbn. rw L3 L2 L1 /only_temp O3 O2 O1. by split. }
  intros s0 s3 (_ & O0 & L0) E3. cbn in E3. destruct (hn_out s0 !! temp) as [|]; [done|]. injection E3 as <-. cbn [map_err].
  wp_step. eapply (wp_write_blocks temp _ o _ 0 []).
  { cbn. split; [|by rw lookup_insert_eq]. intros n Hn'. rw lookup_insert_ne // O0 O2 O1 //. }
  { intros e s4 O4 L4. cbn in L4. split; [congruence|done]. }
  intros parts s4 F4 [O4 T4] L4. cbn in L4. wp_step. apply wp_lift. unfold ensure at 1. destruct (N.eqb_spec (0 + N.of_nat (length (mjoin parts))) (total_size dag)) as [El|];
    [|split; [congruence|done]]. wp_step. apply wp_of_io, wp_look. intros [x'|e] s5 (_ & O5 & L5) _ _; cbn [map_err]; [|rw O5; split; [congruence|done]].
  apply wp_of_io, wp_change; [intros e s6 (_ & O6 & L6); cbn; rw O6 O5; split; [congruence|done]|]. intros s5' s6 (_ & O5' & L5') E6. cbn in E6.
  rw O5' O5 T4 in E6. cbn in E6. rw O4 // Hfree in E6. injection E6 as <-. cbn. split; [congruence|]. exists parts. split_and!; [done|lia|].
  intros n Hn'. destruct (decide (n = dest)) as [-> |Hnd]; [by rw !lookup_insert_eq|]. rw !lookup_insert_ne //. by apply O4.
Qed.
End assembled.

(** ** The theorems *)
Section theorems.
Context `{Blake3, Hex, Sha256, GzipCodec, UrlParser, HeaderSyntax, BlockServer, Completion, !Codec ChunkDag}.

(** An address that the options allow: a valid one, of the origin of one of theirs. *)
Definition allowed_url (opts : TransferOptions) (url : string) : Prop :=
  ∃ u t v, parse_url url = Ok u ∧ t ∈ op_origins opts ∧ parse_url t = Ok v ∧ origin_of u = origin_of v.
(** What a plan entitles to. *)
Definition entitled (plan : TransferPlan) (opts : TransferOptions) (upload : bool) (rq : BlockRequest) : Prop :=
  match rq with
  | GetBlock url h => allowed_url opts url ∧ ∃ g, g ∈ tp_grants plan ∧ url = get_url g ∧ h = get_headers g
  | PutBlock url h _ => upload = true ∧ allowed_url opts url ∧ ∃ g, g ∈ tp_grants plan ∧ put_url g = Some url ∧ h = put_headers g
  end.

Lemma granted_entitled plan root opts se upload rq : new_session plan root opts = Ok se → granted se upload rq → entitled plan opts upload rq.
Proof.
  intros (_ & Hg & Ho)%new_session_from.
  assert (Hsafe : ∀ url, safe_url (se_origins se) url → allowed_url opts url).
  { intros url (u & Hu & (t & v & ? & ? & Hv)%Ho). by exists u, t, v. }
  destruct rq as [url h|url h b]; cbn; [intros [Hs (c & g & ?%Hg & ? & ?)]; split; [by apply Hsafe|eauto]|].
  intros [Hu [Hs (c & g & ?%Hg & ? & ?)]]. split_and!; [done|by apply Hsafe|eauto].
Qed.

Lemma quiet_mono (P Q : BlockRequest → Prop) s s' : (∀ rq, P rq → Q rq) → quiet P s s' → quiet Q s s'.
Proof. intros Hpq [O (l & L & F)]. split; [done|]. exists l. split; [done|]. by eapply Forall_impl. Qed.

Lemma wp_validated_dag m (Q : result HError ChunkDag → Net → Prop) s :
  (∀ r s', same_but_cache s s' → (∀ dag, r = Ok dag → ∃ b, cid_for b = hm_root m ∧ from_slice b = Some dag) → Q r s') → wp (validated_dag m) Q s.
Proof.
  intros HQ. unfold validated_dag. wp_step. apply wp_cache_load. intros [o|e] s1 S1 Hb; [|apply HQ; [by apply same_net_cache|done]].
  apply same_net_cache in S1. wp_step. apply wp_lift. destruct o as [b|]; cbn [ok_or]; [|by apply HQ]. destruct (Hb b eq_refl) as [Hcid Hv].
  wp_step. apply wp_lift. destruct (from_slice (data b)) as [dag|] eqn:Ed; cbn [ok_or]; [|by apply HQ].
  wp_step. apply wp_lift. destruct (ensure _ _) as [[]|e]; [|by apply HQ]. wp_step. apply wp_lift. destruct (check_chunks _ _ _ _ _) as [[used size]|e]; [|by apply HQ].
  wp_step. apply wp_lift. destruct (ensure _ _) as [[]|e]; [|by apply HQ]. apply wp_ret, HQ; [done|]. intros d [= <-]. exists (data b).
  split; [|done]. unfold block_verify in Hv. apply bool_decide_eq_true in Hv. congruence.
Qed.

Lemma valid_root m root : validate_manifest m root = Ok () → hm_root m = root.
Proof.
  unfold validate_manifest. destruct (validate_cid root); [|done]. cbn. destruct (bool_decide (hm_root m = root)) eqn:E; [by apply bool_decide_eq_true in E|].
  rw andb_false_r. by cbn.
Qed.

(** C29: Whatever the block servers answer, whatever is in the cache and whatever fails: a pull that succeeds has published, under a name
    that was free, exactly the file that the expected root stands for; one that fails has published nothing; nothing else in the
    directory changes but for the temporary file; and all that was sent are reads that the plan and the allowed origins entitle to. *)
Theorem pull_exact uuid plan root dest opts s :
  dest ≠ out_temp uuid →
  let '(r, s') := pull uuid plan root dest opts s in
  match r with
  | Ok _ => hn_out s !! dest = None ∧ ∃ content, content_of root content ∧ hn_out s' !! dest = Some (Regular content)
  | Err _ => hn_out s' !! dest = hn_out s !! dest
  end ∧
  (∀ n, n ≠ dest → n ≠ out_temp uuid → hn_out s' !! n = hn_out s !! n) ∧
  ∃ sent, hn_sent s' = hn_sent s ++ sent ∧ Forall (entitled plan opts false) sent.
Proof.
  intros Hne. set (good := λ (r : result HError TransferReport) s', match r with
    | Ok _ => hn_out s !! dest = None ∧ ∃ content, content_of root content ∧ hn_out s' !! dest = Some (Regular content)
    | Err _ => hn_out s' !! dest = hn_out s !! dest end ∧ (∀ n, n ≠ dest → n ≠ out_temp uuid → hn_out s' !! n = hn_out s !! n) ∧
    ∃ sent, hn_sent s' = hn_sent s ++ sent ∧ Forall (entitled plan opts false) sent).
  assert (Hfail : ∀ e s', quiet (entitled plan opts false) s s' → good (Err e) s').
  { intros e s' [O (l & L & F)]. split_and!; [by rw O|by intros; rw O|by exists l]. }
  assert (Hw : wp (pull uuid plan root dest opts) good s).
  2: { unfold wp in Hw. by destruct (pull _ _ _ _ _ _). }
  unfold pull, check_destination. wp_step. wp_step. apply wp_outcome, wp_look. intros x s1 S1%same_net_cache%(cache_quiet (entitled plan opts false)) _ _.
  destruct x as [e|e]; [by apply wp_throw, Hfail|]. destruct e; try by apply wp_throw, Hfail. apply wp_ret.
  wp_step. apply wp_lift. destruct (new_session plan root opts) as [se|e] eqn:Ese; [|by apply Hfail].
  pose proof (new_session_from _ _ _ _ Ese) as [Hm%valid_root _].
  assert (Hq : ∀ sa sb, quiet (granted se false) sa sb → quiet (entitled plan opts false) sa sb) by (intros sa sb; apply quiet_mono; intros rq; by eapply granted_entitled).
  wp_step. apply wp_lift. destruct (root_of _ _) as [rd|e]; [|by apply Hfail]. wp_step. eapply wp_mono; [apply quietly_retry|].
  intros v s2 S2%Hq. assert (Q2 : quiet (entitled plan opts false) s s2) by by etransitivity. destruct v as [v|e]; [|by apply Hfail].
  wp_step. apply wp_validated_dag. intros r3 s3 S3%(cache_quiet (entitled plan opts false)) Hdag.
  assert (Q3 : quiet (entitled plan opts false) s s3) by by etransitivity. destruct r3 as [dag|e]; [|by apply Hfail].
  destruct (Hdag dag eq_refl) as (rb & Hrb & Hfs). rw Hm in Hrb. wp_step. eapply wp_mono; [apply quietly_tasks|]. intros r4 s4 S4%Hq.
  assert (Q4 : quiet (entitled plan opts false) s s4) by by etransitivity. destruct r4 as [rep|e]; [|by apply Hfail].
  wp_step. apply wp_assemble; [done|]. destruct Q4 as [O4 (l & L4 & F4)]. intros [[]|e] s5 L5 Hother Hr.
  - apply wp_ret. rw O4 in Hr Hother. destruct Hr as (Hfree & parts & Hp & Hl & Hd). split_and!; [done| |done|exists l; by rw L5].
    exists (mjoin parts). split; [by exists rb, dag, parts|done].
  - rw O4 in Hr Hother. split_and!; [done|done|exists l; by rw L5].
Qed.
End theorems.

Section publishing.
Context `{Blake3, Hex, Sha256, GzipCodec, UrlParser, HeaderSyntax, BlockServer, Completion, !Codec ChunkDag}.

(** *** Preparation *)
Lemma prepare_loop_exact u l : ∀ cids ds total s r s',
  prepare_loop u l cids ds total s = (r, s') →
  match r with
  | Ok (cids', _, total') => cids' = cids ++ (cid_for <$> l) ∧ total' = (total + N.of_nat (length (mjoin l)))%N
  | Err _ => True
  end.
Proof.
  induction l as [|b l IH]; intros cids ds total s r s'; cbn [prepare_loop].
  { intros [= <- <-]. cbn. by rw app_nil_r N.add_0_r. }
  intros E. assert (Hnext : ∀ ds s1, prepare_loop u l (cids ++ [cid_for b]) ds (total + N.of_nat (length b)) s1 = (r, s') →
    match r with
    | Ok (cids', _, total') => cids' = cids ++ (cid_for <$> b :: l) ∧ total' = (total + N.of_nat (length (mjoin (b :: l))))%N
    | Err _ => True
    end).
  { intros ds1 s1 E1%IH. destruct r as [[[c' d'] t']|]; [|done]. destruct E1 as [-> ->]. change (mjoin (b :: l)) with (b ++ mjoin l). rw -app_assoc length_app. split; [done|lia]. }
  apply bind_inv in E as [(? & s1 & _ & E)|(? & _ & ->)]; [|done]. apply bind_inv in E as [(? & s2 & _ & E)|(? & _ & ->)]; [|done].
  destruct (ds !! cid (new_block b)); [by eapply Hnext|]. apply bind_inv in E as [([e w] & s3 & _ & E)|(? & _ & ->)]; [|done].
  apply bind_inv in E as [(? & s4 & _ & E)|(? & _ & ->)]; [|done]. by eapply Hnext.
Qed.

Lemma mjoin_chunks {A} n (l : list A) : 0 < n → mjoin (chunks n l) = l.
Proof.
  intros Hn. unfold chunks. assert (Hf : ∀ f (l : list A), length l ≤ f → mjoin (chunks_fuel f n l) = l); [|by apply Hf].
  intros f. induction f as [|f IH]; intros [|x k] Hl; cbn [chunks_fuel]; try done; [cbn in Hl; lia|].
  cbn [mjoin list_join]. rw IH; [rw length_drop; cbn in Hl |- *; lia|apply take_drop].
Qed.

(** A prepared manifest stands for the source, and validates. *)
Lemma prepare_exact `{!CodecLaws ChunkDag} u source n s m s' :
  prepare u source n s = (Ok m, s') →
  content_of (hm_root m) (so_content source) ∧ file_bytes m = N.of_nat (length (so_content source)) ∧ so_len source = file_bytes m ∧
  validate_manifest m (hm_root m) = Ok ().
Proof.
  unfold prepare. intros E. apply bind_inv in E as [(? & s1 & E1 & E)|(? & _ & ?)]; [|done].
  apply bind_inv in E as [(? & s2 & _ & E)|(? & _ & ?)]; [|done]. apply bind_inv in E as [(? & s3 & _ & E)|(? & _ & ?)]; [|done].
  apply bind_inv in E as [([[cids ds] total] & s4 & El & E)|(? & _ & ?)]; [|done]. apply prepare_loop_exact in El as [-> ->].
  apply bind_inv in E as [(? & s5 & _ & E)|(? & _ & ?)]; [|done]. apply bind_inv in E as [(? & s6 & Es & E)|(? & _ & ?)]; [|done].
  apply bind_inv in E as [(rb & s7 & Er & E)|(? & _ & ?)]; [|done]. apply bind_inv in E as [(? & s8 & _ & E)|(? & _ & ?)]; [|done].
  apply bind_inv in E as [(? & s9 & _ & E)|(? & _ & ?)]; [|done]. apply bind_inv in E as [(vd & s10 & Ev & E)|(? & _ & ?)]; [|done].
  injection E as <- _. cbn. assert (Hn : 0 < N.to_nat n).
  { unfold lift_result, ensure in E1. destruct (N.leb_spec 65536 n); [lia|done]. }
  rw mjoin_chunks // in Er Es |- *. split_and!.
  - unfold lift_result in Er. destruct (to_vec _) as [rb'|] eqn:Et; [|done]. injection Er as <- <-. apply from_slice_to_vec in Et.
    eexists rb', _, (chunks (N.to_nat n) (so_content source)). split_and!; [done|exact Et| |by rw mjoin_chunks|done].
    cbn. clear. induction (chunks _ _); cbn; by constructor.
  - done.
  - unfold lift_result, ensure in Es. apply (f_equal fst) in Es. cbn [fst] in Es. destruct (N.eqb_spec (0 + N.of_nat (length (so_content source))) (so_len source)) as [El|];
      [by rw -El|by rw andb_false_r in Es].
  - unfold lift_result in Ev. injection Ev as Ev _. cbn [hm_root] in Ev. by destruct vd.
Qed.

(** *** Uploads *)
(** The answer to a read is the block described. *)
Definition serves (answer : BlockAnswer) (b : BlockDescription) : Prop :=
  ∃ len body wire content, answer = Answer 200 len body ∧ read_body (wire_bytes b) body [] = Ok wire ∧ wire_digest wire = wire_sha256 b ∧
    decode wire (bd_encoding b) (decoded_bytes b) = Ok content ∧ cid_for content = bd_cid b.
(** Among the requests sent is a read, entitled to by a grant, that was answered with the block. *)
Definition read_back (gs : list TransferGrant) (b : BlockDescription) (sent : list BlockRequest) : Prop :=
  ∃ g before, g ∈ gs ∧ gr_cid g = bd_cid b ∧ before ++ [GetBlock (get_url g) (get_headers g)] `prefix_of` sent ∧
    serves (block_server before (GetBlock (get_url g) (get_headers g))) b.

Lemma read_back_later gs b sent sent' : read_back gs b sent → sent `prefix_of` sent' → read_back gs b sent'.
Proof. intros (g & before & ? & ? & ? & ?) Hp. exists g, before. split_and!; try done. by etransitivity. Qed.

(** Requests with grants for one block. *)
Definition about (gs : list TransferGrant) (c : string) (rq : BlockRequest) : Prop :=
  ∃ g, g ∈ gs ∧ gr_cid g = c ∧
    match rq with GetBlock url h => url = get_url g ∧ h = get_headers g | PutBlock url h _ => put_url g = Some url ∧ h = put_headers g end.

Section session.
Context (gs : list TransferGrant) (se : HttpSession).
Context (Hgs : ∀ c g, se_grants se !! c = Some g → g ∈ gs ∧ gr_cid g = c).

(** Only such requests are sent, and what succeeds leaves the block readable. *)
Definition delivers {A} (b : BlockDescription) (done : A → Prop) (m : HttpM A) : Prop :=
  ∀ s, wp m (λ r s', quiet (about gs (bd_cid b)) s s' ∧ match r with Ok a => done a → read_back gs b (hn_sent s') | Err _ => True end) s.

Lemma quiet_prefix P s s' : quiet P s s' → hn_sent s `prefix_of` hn_sent s'.
Proof. intros [_ (l & -> & _)]. by exists l. Qed.

Lemma delivers_quietly {A} b (m : HttpM A) : quietly (about gs (bd_cid b)) m → delivers b (λ _, False) m.
Proof. intros Hm s. eapply wp_mono; [apply Hm|]. intros [a|e] s' Q; by split. Qed.

Lemma delivers_bind {A B} b (done : B → Prop) (m : HttpM A) (f : A → HttpM B) :
  quietly (about gs (bd_cid b)) m → (∀ a, delivers b done (f a)) → delivers b done (m ≫= f).
Proof.
  intros Hm Hf s. wp_step. eapply wp_mono; [apply Hm|]. intros [a|e] s1 Q1; [|done]. eapply wp_mono; [apply Hf|]. intros r s2 [Q2 Hr].
  split; [by etransitivity|done].
Qed.

Lemma delivers_done {A B} b (done : A → Prop) (ok : B → Prop) (m : HttpM A) (f : A → HttpM B) :
  delivers b done m → (∀ a, quietly (about gs (bd_cid b)) (f a)) → (∀ a s r s', f a s = (Ok r, s') → ok r → done a) → delivers b ok (m ≫= f).
Proof.
  intros Hm Hf Hd s. wp_step. eapply wp_mono; [apply Hm|]. intros [a|e] s1 [Q1 Hr]; [|done]. specialize (Hf a s1). specialize (Hd a s1).
  unfold wp in *. destruct (f a s1) as [r s2]. split; [by etransitivity|]. destruct r as [x|e]; [|done]. intros Hx.
  eapply read_back_later; [by eapply Hr, Hd|by eapply quiet_prefix].
Qed.

Lemma fetch_about b g : se_grants se !! bd_cid b = Some g → quietly (about gs (bd_cid b)) (fetch se b g).
Proof.
  intros [Hg Hc]%Hgs. unfold fetch, http_get. quiet_tac. apply quietly_send. exists g. split_and!; try done. by eapply request_headers_same.
Qed.

Lemma fetch_delivers b g : se_grants se !! bd_cid b = Some g → delivers b is_Some (fetch se b g).
Proof.
  intros Hg s. apply wp_and; [by apply fetch_about|]. apply Hgs in Hg as [Hg Hc].
  unfold fetch, http_get. wp_step. wp_step. apply wp_lift. destruct (validate_url _ _ _); [|done]. wp_step. apply wp_lift. destruct (ensure _ _); [|done].
  wp_step. apply wp_lift. destruct (request_headers _) as [h|] eqn:Eh; [|done]. apply request_headers_same in Eh as ->.
  wp_step. unfold wp at 1, send_block_request. set (rq := GetBlock (get_url g) (get_headers g)).
  destruct (block_server (hn_sent s) rq) as [tr|st cl body] eqn:Ea; [by apply wp_throw|].
  destruct (st =? 404)%N; [by apply wp_ret, wp_ret; intros [? ?]|]. destruct (N.eqb_spec st 200) as [->|]; cbn [negb]; [|by apply wp_throw].
  wp_step. apply wp_lift. match goal with |- match ?x with _ => _ end => destruct x; [|done] end.
  wp_step. apply wp_lift. destruct (read_body _ _ _) as [wire|] eqn:Er; [|done]. wp_step. apply wp_lift. destruct (ensure _ _); [|done]. apply wp_ret.
  wp_step. apply wp_lift. unfold ensure at 1. case_bool_decide as Ed; [|done]. wp_step. apply wp_lift. destruct (decode _ _ _) as [c|] eqn:Edec; [|done].
  wp_step. apply wp_lift. unfold ensure. destruct (block_verify _) eqn:Ev; [|done]. apply wp_ret. intros _. cbn.
  exists g, (hn_sent s). split_and!; try done. fold rq. rw Ea. exists cl, body, wire, c. split_and!; try done. by apply bool_decide_eq_true in Ev.
Qed.

Lemma put_about b g url wire : se_grants se !! bd_cid b = Some g → put_url g = Some url → quietly (about gs (bd_cid b)) (http_put (se_origins se) url (put_headers g) wire).
Proof.
  intros [Hg Hc]%Hgs Hu. unfold http_put. quiet_tac. apply quietly_send. exists g. split_and!; try done. by eapply request_headers_same.
Qed.

Lemma upload_delivers b g : se_grants se !! bd_cid b = Some g → delivers b (λ _, True) (upload_block se b g).
Proof.
  intros Hg. unfold upload_block. do 5 (apply delivers_bind; [quiet_tac|intros ?]). intros s. wp_step. apply wp_lift.
  destruct (put_url g) as [url|] eqn:Eu; cbn [ok_or]; [|done]. revert s. apply delivers_bind; [by apply put_about|intros _].
  eapply delivers_done; [by apply fetch_delivers|intros ?; quiet_tac|]. intros [blk|] s r s'; [done|]. intros E. by injection E.
Qed.

Lemma one_delivers b u : delivers b (λ _, True) (one se u b true).
Proof.
  unfold one, transfer_block. intros s. wp_step. apply wp_lift. destruct (se_grants se !! bd_cid b) as [g|] eqn:Eg; cbn [ok_or]; [|done].
  wp_step. eapply wp_mono; [by apply fetch_delivers|]. intros [[blk|]|e] s1 [Q1 Hr].
  - wp_step. apply wp_ret, wp_ret. split; [done|]. intros _. by apply Hr.
  - eapply wp_mono; [by apply upload_delivers|]. intros r s2 [Q2 Hr2]. split; [by etransitivity|done].
  - done.
Qed.

Lemma retry_delivers b u : delivers b (λ _, True) (retry_one se u b true).
Proof.
  unfold retry_one. induction (se_retries se) as [|n IH]; intros s; cbn [retry_loop]; wp_step; wp_step; (eapply wp_mono; [apply one_delivers|]);
    intros [v|e] s1 [Q1 Hr]; try (by apply wp_ret); [by apply wp_throw|]. destruct (negb _); [by apply wp_throw|].
  eapply wp_mono; [apply IH|]. intros r s2 [Q2 Hr2]. split; [by etransitivity|done].
Qed.

Definition about_one (l : list BlockDescription) (rq : BlockRequest) : Prop := ∃ b, b ∈ l ∧ about gs (bd_cid b) rq.

Lemma cut_off_about u l l' : (∀ b, b ∈ l → b ∈ l') → quietly (about_one l') (cut_off_tasks se u l true).
Proof.
  induction l as [|b l IH]; intros Hl; cbn [cut_off_tasks]; [quiet_tac|]. apply quietly_bind; [|intros _; apply IH; intros; apply Hl; by right].
  apply quietly_ignore. intros s. eapply wp_mono; [apply retry_delivers|]. intros r s' [Q _]. eapply quiet_mono; [|exact Q]. intros rq Hrq. exists b.
  split; [apply Hl; by left|done].
Qed.

Lemma tasks_deliver `{!CompletionLaws} u l l' report s : (∀ b, b ∈ l → b ∈ l') →
  wp (run_tasks se u l true report) (λ r s', quiet (about_one l') s s' ∧ match r with Ok _ => Forall (λ b, read_back gs b (hn_sent s')) l | Err _ => True end) s.
Proof.
  revert report s. induction l as [|b l IH]; intros report s Hl; cbn [run_tasks]; [by apply wp_ret|].
  assert (Hb : ∀ s s', quiet (about gs (bd_cid b)) s s' → quiet (about_one l') s s').
  { intros s0 s1. apply quiet_mono. intros rq Hrq. exists b. split; [apply Hl; by left|done]. }
  wp_step. wp_step. eapply wp_mono; [apply retry_delivers|]. intros [v|e] s1 [Q1%Hb Hr].
  - eapply wp_mono; [apply IH; intros; apply Hl; by right|]. intros r s2 [Q2 Hr2]. split; [by etransitivity|]. destruct r as [x|e]; [|done].
    constructor; [|done]. eapply read_back_later; [by apply Hr|by eapply quiet_prefix].
  - wp_step. eapply wp_mono; [apply (cut_off_about u _ l'); intros x Hx%cut_off_subset; apply Hl; by right|]. intros [x|e'] s2 Q2; [apply wp_throw|]; (split; [by etransitivity|done]).
Qed.
End session.

Lemma collect_grants_keys origins cids l gs gs' : collect_grants origins cids l gs = Ok gs' →
  (∀ c g, gs !! c = Some g → gr_cid g = c) → ∀ c g, gs' !! c = Some g → gr_cid g = c.
Proof.
  revert gs. induction l as [|g l IH]; intros gs; cbn [collect_grants]; [by intros [= ->]|].
  destruct (validate_cid _); [|done]. cbn. destruct (validate_url origins (get_url g) _); [|done]. cbn.
  generalize (match put_url g with Some url => validate_url origins url (put_headers g) | None => Ok () end). intros [[]|]; [|done]. cbn.
  destruct (bool_decide (gr_cid g ∈ cids)); cbn; [|done]. destruct (bool_decide (gs !! gr_cid g = None)); cbn; [|done].
  intros Hc Hg. eapply IH; [exact Hc|]. by intros c x [[<- <-]|[_ Hx]]%lookup_insert_Some; [|apply Hg].
Qed.

Lemma session_grants plan root opts se : new_session plan root opts = Ok se →
  ∀ c g, se_grants se !! c = Some g → g ∈ tp_grants plan ∧ gr_cid g = c.
Proof.
  intros Hs c g Hg. split; [by eapply new_session_from in Hs as (_ & Hs & _); eapply Hs|]. revert Hs.
  unfold new_session. destruct (validate_manifest _ _) as [[]|]; [|done]. cbn. pass_check. pass_check.
  unfold new_client. destruct (bool_decide (op_origins opts = [])); cbn; [done|]. destruct (parse_origins _) as [os|]; [|done]. cbn.
  destruct (op_ca opts); [|done]. cbn. destruct (collect_grants _ _ _ _) as [gs|] eqn:Eg; [|done]. intros [= <-]. cbn in Hg.
  by eapply collect_grants_keys; [exact Eg|intros ? ? ?%lookup_empty_Some|].
Qed.

(** C30: The root is uploaded last.  Until every other block of the manifest was read back from where its grant points, with the
    length, digest and identifier described, nothing is sent with the grant of the root; and an upload that succeeds has read
    back the root as well. *)
Theorem push_publishes_root_last `{!CompletionLaws} uuid plan root opts s :
  let '(r, s') := push uuid plan root opts s in
  let gs := tp_grants plan in
  let others := children (tp_manifest plan) root in
  ∃ before after, hn_sent s' = hn_sent s ++ before ++ after ∧
    Forall (λ rq, ∃ b, b ∈ others ∧ about gs (bd_cid b) rq) before ∧ Forall (about gs root) after ∧
    (after ≠ [] → Forall (λ b, read_back gs b (hn_sent s ++ before)) others) ∧
    (is_ok r = true → ∀ b, b ∈ hm_blocks (tp_manifest plan) → bd_cid b ≠ root → read_back gs b (hn_sent s')) ∧
    (is_ok r = true → ∃ b, b ∈ hm_blocks (tp_manifest plan) ∧ bd_cid b = root ∧ read_back gs b (hn_sent s')).
Proof.
  cbn zeta. set (gs := tp_grants plan). set (others := children (tp_manifest plan) root).
  set (good := λ (r : result HError TransferReport) s', ∃ before after, hn_sent s' = hn_sent s ++ before ++ after ∧
    Forall (about_one gs others) before ∧ Forall (about gs root) after ∧ (after ≠ [] → Forall (λ b, read_back gs b (hn_sent s ++ before)) others) ∧
    (is_ok r = true → ∀ b, b ∈ hm_blocks (tp_manifest plan) → bd_cid b ≠ root → read_back gs b (hn_sent s')) ∧
    (is_ok r = true → ∃ b, b ∈ hm_blocks (tp_manifest plan) ∧ bd_cid b = root ∧ read_back gs b (hn_sent s'))).
  assert (Hfail : ∀ e s', quiet (about_one gs others) s s' → good (Err e) s').
  { intros e s' [O (l & L & F)]. exists l, []. rw app_nil_r. by split_and!. }
  assert (Hw : wp (push uuid plan root opts) good s); [|unfold wp in Hw; by destruct (push _ _ _ _ _)].
  unfold push. wp_step. apply wp_lift. destruct (new_session plan root opts) as [se|e] eqn:Ese; [|by apply Hfail].
  pose proof (session_grants _ _ _ _ Ese) as Hgs. fold gs in Hgs. wp_step. apply wp_validated_dag. intros rd s1 S1%(cache_quiet (about_one gs others)) _.
  destruct rd as [dag|e]; [|by apply Hfail]. wp_step. eapply wp_mono; [apply (quietly_uploadable (about_one gs others))|]. intros ru s2 S2.
  assert (Q2 : quiet (about_one gs others) s s2) by by etransitivity. destruct ru as [[]|e]; [|by apply Hfail].
  wp_step. apply wp_lift. unfold root_of. destruct (find_first _ _) as [rd|] eqn:Erd; cbn [ok_or]; [|by apply Hfail].
  apply find_first_Some in Erd as [Hrd Hroot%bool_decide_eq_true]. wp_step. unfold parallel.
  assert (Hperm : ∀ b, b ∈ completion others ↔ b ∈ others).
  { intros b. rw !list_elem_of_In. split; apply Permutation_in; [apply completion_perm|symmetry; apply completion_perm]. }
  eapply wp_mono; [apply (tasks_deliver gs se Hgs uuid _ others); intros b; apply Hperm|]. intros rt s3 [Q3 Hr3].
  assert (Q4 : quiet (about_one gs others) s s3) by by etransitivity. destruct rt as [rep|e]; [|by apply Hfail].
  assert (Hall : ∀ b, b ∈ others → read_back gs b (hn_sent s3)) by (intros b Hb%Hperm; rewrite Forall_forall in Hr3; auto).
  wp_step. eapply wp_mono; [apply (retry_delivers gs se Hgs)|]. intros rv s4 [[O5 (l & L5 & F5)] Hr5]. rw Hroot in F5.
  destruct Q4 as [O4 (l4 & L4 & F4)]. assert (Hothers : ∀ b, b ∈ hm_blocks (tp_manifest plan) → bd_cid b ≠ root → read_back gs b (hn_sent s4)).
  { intros b Hb Hne. eapply read_back_later; [|by exists l]. apply Hall. by apply list_elem_of_filter. }
  assert (Hg : ∀ r : result HError TransferReport, (is_ok r = true → read_back gs rd (hn_sent s4)) → good r s4).
  { intros r Hr. exists l4, l. split; [by rw L5 L4 -app_assoc|]. split; [done|]. split; [done|].
    split; [intros _; rw -L4; by apply Forall_forall|]. split; [intros _; apply Hothers|]. intros Hok. exists rd. auto. }
  destruct rv as [v|e]; [apply wp_ret|]; (apply Hg); [|done]. intros _. by apply Hr5.
Qed.
End publishing.

(** ** Examples *)
Module ContentHttpWitness.
#[local] Existing Instance Toy.toy_blake3.
#[local] Existing Instance Toy.toy_hex.
#[local] Instance toy_sha : Sha256 := Toy.toy_blake3.
#[local] Instance toy_gzip : GzipCodec := {| gzip b := Ok b; gunzip b n := Ok (take_bytes n b) |}.
#[local] Instance toy_urls : UrlParser := {|
  parse_url_text s := if String.prefix "https://h/" s then Some (mk_Url "https" (Some "h") "" None "/" None None) else None;
  origin_of u := scheme u +:+ "://" +:+ default "" (host_str u);
|}.
#[local] Instance toy_syntax : HeaderSyntax := {| is_header_name _ := true; is_header_text _ := true |}.
#[local] Instance in_order : Completion := {| completion l := l; cut_off l := l |}.
#[local] Instance in_order_laws : CompletionLaws.
Proof. by split. Qed.

(** A server that keeps what it is given. *)
#[local] Instance keeper : BlockServer := λ sent rq,
  match rq with
  | PutBlock _ _ _ => Answer 200 None []
  | GetBlock url _ =>
      match find_first (λ r, match r with PutBlock u _ _ => bool_decide (u = url) | _ => false end) sent with
      | Some (PutBlock _ _ b) => Answer 200 None [inl b]
      | _ => Answer 404 None []
      end
  end.

Definition content : bytes := as_bytes "content".
Definition dag : ChunkDag := mk_ChunkDag 7 [cid_for content].
#[local] Instance dag_codec : Codec ChunkDag := Toy.table_codec [dag].
Definition root : string := cid_for [x00].
Definition grant_of (b : BlockDescription) : TransferGrant :=
  mk_TransferGrant (bd_cid b) ("https://h/" +:+ bd_cid b) (Some ("https://h/" +:+ bd_cid b)) [] [("if-none-match", "*")].
Definition manifest : HttpManifest :=
  mk_HttpManifest 1 root 7 [describe (new_block [x00]) Identity [x00]; describe (new_block content) Identity content].
Definition plan : TransferPlan := mk_TransferPlan manifest (grant_of <$> hm_blocks manifest).
Definition options : TransferOptions := mk_TransferOptions ["https://h/"] (Ok ()) 2 1.
Definition prepared : result HError HttpManifest * Net :=
  prepare "u" (mk_Source true 7 1 content 7 1) 65536 (mk_Net ∅ ∅ [] []).
Definition pushed : result HError TransferReport * Net := push "u" plan root options prepared.2.
(** Another node, with an empty cache. *)
Definition other : Net := mk_Net ∅ ∅ [] (hn_sent pushed.2).
Definition pulled : result HError TransferReport * Net := pull "v" plan root "file" options other.

Example prepared_manifest : match prepared.1 with Ok m => hm_root m = root ∧ hm_blocks m ≡ₚ hm_blocks manifest | Err _ => False end.
Proof. vm_compute. split; [done|]. first [reflexivity|apply Permutation_swap]. Qed.

Lemma pull_exact_witness :
  pulled.1 = Ok (mk_TransferReport 2 0 8) ∧ hn_out pulled.2 !! "file" = Some (Regular content) ∧
  ∃ c, content_of root c ∧ hn_out pulled.2 !! "file" = Some (Regular c).
Proof.
  split; [by vm_compute|]. split; [by vm_compute|].
  assert (Hne : "file" ≠ out_temp "v") by discriminate.
  pose proof (pull_exact "v" plan root "file" options other Hne) as Hp. fold pulled in Hp. destruct pulled as [r s'] eqn:E.
  assert (Hr : is_ok pulled.1 = true) by by vm_compute. rewrite E in Hr. destruct r as [rep|e]; [|discriminate Hr].
  destruct Hp as [[_ Hc] _]. exact Hc.
Defined.

Lemma push_publishes_root_last_witness :
  is_ok pushed.1 = true ∧ ∃ b, b ∈ hm_blocks manifest ∧ bd_cid b = root ∧ read_back (tp_grants plan) b (hn_sent pushed.2).
Proof.
  assert (Hr : is_ok pushed.1 = true) by by vm_compute. split; [exact Hr|].
  pose proof (push_publishes_root_last "u" plan root options prepared.2) as Hp. fold pushed in Hp. destruct pushed as [r s'].
  destruct Hp as (before & after & _ & _ & _ & _ & _ & Hroot). exact (Hroot Hr).
Defined.
End ContentHttpWitness.
