(* ===== verification/Advertise.v ===== *)
(** * What a node finds out and says about itself

    [synergos-net/src/promotion.rs] and [mesh_ip.rs]: the addresses of the node that can be reached
    and the choice between a full node and one behind the relay.
    [synergos-core/src/peer_info_server.rs]: the endpoint that [/peer-info] answers.
    [synergos-core/src/control_heartbeat.rs]: the reports to the control server, down to their
    acceptance by [Control].

    The interfaces of the machine, the gateway, the echo services and the search for the binary of
    [cloudflared] answer as they like.  Writing and reading an IPv6 address are arguments. *)

From Stdlib Require Import Strings.Ascii.
From stdpp Require Import pretty.
From S2P Require Import Prelude Crypto Fs Manifest Glob Invite Registry Cloudflare Control.

(** ** Addresses

    An IPv4 address is its four octets, an IPv6 address its eight segments. *)
Inductive IpAddr := V4 (octets : list N) | V6 (segments : list N).

Class IpText := { show_v6 : list N → string; parse_v6 : string → option (list N) }.

Definition is_mesh_ipv4 (octets : list N) : bool :=
  match octets with
  | a :: b :: _ => (a =? 100)%N && ((96 <=? b)%N && (b <=? 111)%N)
  | _ => false
  end.

(** [get_if_addrs] may fail. *)
Definition detect_mesh_ipv4 (interfaces : option (list IpAddr)) : option (list N) :=
  l ← interfaces;
  head (omap (λ i, match i with V4 v4 => if is_mesh_ipv4 v4 then Some v4 else None | V6 _ => None end) l).

Definition segment (i : nat) (segments : list N) : N := default 0%N (segments !! i).

(** [Ipv4Addr::is_loopback]. *)
Definition v4_loopback (octets : list N) : bool := match octets with a :: _ => (a =? 127)%N | [] => false end.

(** [Ipv6Addr::is_unspecified], [is_loopback] and [is_multicast]. *)
Definition v6_unspecified (s : list N) : bool := bool_decide (s = replicate 8 0%N).
Definition v6_loopback (s : list N) : bool := bool_decide (s = replicate 7 0%N ++ [1%N]).
Definition v6_multicast (s : list N) : bool := (N.land (segment 0 s) 0xff00 =? 0xff00)%N.

Definition is_global_ipv6 (s : list N) : bool :=
  if v6_loopback s || v6_unspecified s || v6_multicast s then false
  else if (N.land (segment 0 s) 0xffc0 =? 0xfe80)%N then false
  else if (N.land (segment 0 s) 0xfe00 =? 0xfc00)%N then false
  else if (segment 0 s =? 0x2001)%N && (segment 1 s =? 0x0db8)%N then false
  else (N.land (segment 0 s) 0xe000 =? 0x2000)%N.

(** ** The capabilities of the node *)
Record UpnpInfo := mk_UpnpInfo { external_ip : string; gateway_url : string }.

Record NetCapabilities := mk_NetCapabilities {
  has_ipv6_global : bool;
  ipv6_addresses : list string;
  upnp : option UpnpInfo;
  tunnel_available : bool;
  relay_configured : bool;
}.
Inductive PromotionMode := FullNode | RelayOnly.
Global Instance PromotionMode_eq_dec : EqDecision PromotionMode.
Proof. solve_decision. Defined.

Definition probe_ipv6_global (interfaces : option (list IpAddr)) : list (list N) :=
  match interfaces with
  | Some l => omap (λ i, match i with V6 v6 => if is_global_ipv6 v6 then Some v6 else None | V4 _ => None end) l
  | None => []
  end.

(** The gateway found, by its URL, and the address it answers. *)
Definition probe_upnp (gateway : option string) (external : option string) : option UpnpInfo :=
  url ← gateway; ip ← external; Some (mk_UpnpInfo ip url).

Definition probe_cloudflared (token_configured found : bool) : bool := if negb token_configured then false else found.

(** A probe whose time runs out is [None]. *)
Definition detect `{IpText} (ipv6 : option (list (list N))) (gateway : option (option UpnpInfo)) (tunnel : option bool)
    (relay_endpoint_configured : bool) : NetCapabilities :=
  let ipv6 := default [] ipv6 in
  mk_NetCapabilities (negb (bool_decide (ipv6 = []))) (show_v6 <$> ipv6) (default None gateway) (default false tunnel)
    relay_endpoint_configured.

Definition recommended_mode (c : NetCapabilities) : PromotionMode :=
  if has_ipv6_global c || bool_decide (is_Some (upnp c)) || tunnel_available c then FullNode else RelayOnly.

(** The mode that [Daemon::new] starts in; [caps] is what [detect] answers. *)
Definition effective_relay_only (force_relay_only auto_promote : bool) (caps : NetCapabilities) : bool :=
  if force_relay_only then true
  else if auto_promote then match recommended_mode caps with FullNode => false | RelayOnly => true end
  else false.

(** ** [/peer-info] *)

(** What a GET of an echo service comes to. *)
Inductive EchoAnswer := SendFailed | BadStatus | BodyFailed | Body (text : string).

Definition IPV6_ENDPOINTS : list string := ["https://ipv6.icanhazip.com"; "https://api6.ipify.org"; "https://v6.ident.me"].
Definition IPV4_ENDPOINTS : list string := ["https://ipv4.icanhazip.com"; "https://api4.ipify.org"; "https://v4.ident.me"].

(** The first address and the services asked; [client] says whether the client could be built. *)
Fixpoint ask_services {T} (parse : string → option T) (answer : string → EchoAnswer) (endpoints : list string) :
    option T * list string :=
  match endpoints with
  | [] => (None, [])
  | url :: rest =>
      match (match answer url with Body body => parse (trim_text body) | SendFailed | BadStatus | BodyFailed => None end) with
      | Some addr => (Some addr, [url])
      | None => let '(r, asked) := ask_services parse answer rest in (r, url :: asked)
      end
  end.
Definition discover_public_addr_via_https {T} (parse : string → option T) (client : bool) (answer : string → EchoAnswer)
    (endpoints : list string) : option T * list string :=
  if negb client then (None, []) else ask_services parse answer endpoints.

(** The clients of the two searches may or may not be built. *)
Record Surroundings := mk_Surroundings {
  client_v6 : bool;
  client_v4 : bool;
  echo : string → EchoAnswer;
  interfaces : option (list IpAddr);
}.

Section peer_info.
Context `{IpText}.

Definition auto_advertise_addr (w : Surroundings) : option IpAddr * list string :=
  match discover_public_addr_via_https parse_v6 (client_v6 w) (echo w) IPV6_ENDPOINTS with
  | (Some v6, asked) => (Some (V6 v6), asked)
  | (None, asked) =>
      match discover_public_addr_via_https parse_ipv4 (client_v4 w) (echo w) IPV4_ENDPOINTS with
      | (Some v4, asked') => (Some (V4 v4), asked ++ asked')
      | (None, asked') => (V6 <$> head (probe_ipv6_global (interfaces w)), asked ++ asked')
      end
  end.

Definition format_addr (ip : IpAddr) (port : N) : string :=
  match ip with
  | V6 v6 => "[" +:+ show_v6 v6 +:+ "]:" +:+ pretty port
  | V4 v4 => ipv4_to_string v4 +:+ ":" +:+ pretty port
  end.

(** The address the QUIC endpoint is bound to: its port and its text. *)
Record BoundAddr := mk_BoundAddr { ba_port : N; ba_text : string }.

Record PeerInfoState := mk_PeerInfoState {
  pi_peer_id : string;
  pi_local_addr : option BoundAddr;
  pi_server_name : string;
  advertised_addr : option string;
}.
Record PeerInfoResponse := mk_PeerInfoResponse {
  pr_peer_id : string;
  pr_quic_endpoint : option string;
  pr_protocol_version : N;
  pr_server_name : string;
  pr_synergos_version : string;
}.

Definition endpoint_of (w : Surroundings) (s : PeerInfoState) : option string * list string :=
  let automatic :=
    let '(found, asked) := auto_advertise_addr w in
    (match found, pi_local_addr s with
     | Some ip, Some la => Some (format_addr ip (ba_port la))
     | _, local => ba_text <$> local
     end, asked) in
  match advertised_addr s with
  | Some literal => if negb (bool_decide (literal = "auto")) then (Some literal, []) else automatic
  | None => automatic
  end.

Definition handle_peer_info (version : string) (w : Surroundings) (s : PeerInfoState) : PeerInfoResponse :=
  mk_PeerInfoResponse (pi_peer_id s) (endpoint_of w s).1 PEER_INFO_PROTOCOL_VERSION (pi_server_name s) version.
End peer_info.

(** ** Reports to the control server *)
Record ControlReportConfig := mk_ControlReportConfig {
  heartbeat_url : string;
  report_node_id : string;
  node_key_env : string;
  interval_secs : N;
}.
Record HeartbeatReporter := mk_HeartbeatReporter {
  hr_config : ControlReportConfig;
  hr_node_key : string;
  hr_peer_id : string;
}.
Inductive ReportError := NoNodeId | NoNodeKey | ZeroInterval | InvalidUrl | UrlScheme | UrlCredentials | PlaintextTarget.

Definition without_brackets (s : string) : string :=
  let fix go (l : list ascii) :=
    match l with c :: l' => if Ascii.eqb c "[" || Ascii.eqb c "]" then go l' else l | [] => [] end in
  String.string_of_list_ascii (reverse (go (reverse (go (String.list_ascii_of_string s))))).

Section reports.
Context `{IpText} (parse_url : string → option Url) (env : string → option string).

(** [str::parse::<IpAddr>]. *)
Definition parse_ip (s : string) : option IpAddr :=
  match parse_ipv4 s with Some v4 => Some (V4 v4) | None => V6 <$> parse_v6 s end.

Definition is_trusted_plaintext_host (url : Url) : bool :=
  match host_str url with
  | None => false
  | Some host =>
      if eq_ignore_ascii_case host "localhost" then true
      else
        match parse_ip (without_brackets host) with
        | Some (V4 ip) => v4_loopback ip || is_mesh_ipv4 ip
        | Some (V6 ip) => v6_loopback ip
        | None => false
        end
  end.

Definition from_config (config : ControlReportConfig) (peer_id : string) : result ReportError (option HeartbeatReporter) :=
  if is_blank_text (heartbeat_url config) then Ok None
  else
    _ ← ensure (negb (is_blank_text (report_node_id config))) NoNodeId;
    node_key ← ok_or (not_blank (env (node_key_env config))) NoNodeKey;
    _ ← ensure (negb (interval_secs config =? 0)%N) ZeroInterval;
    url ← ok_or (parse_url (heartbeat_url config)) InvalidUrl;
    _ ← ensure (bool_decide (scheme url = "http") || bool_decide (scheme url = "https")) UrlScheme;
    _ ← ensure (bool_decide (username url = "") && negb (bool_decide (is_Some (password url)))) UrlCredentials;
    _ ← ensure (negb (bool_decide (scheme url = "http") && negb (is_trusted_plaintext_host url))) PlaintextTarget;
    Ok (Some (mk_HeartbeatReporter config node_key peer_id)).

(** What the builder of the HTTP client is told. *)
Record ClientSettings := mk_ClientSettings { cs_timeout_secs : N; cs_follow_redirects : bool; cs_use_proxy : bool }.
Definition heartbeat_client : ClientSettings := mk_ClientSettings 10 false false.

(** A POST with its bearer token and its body, and the client that sends it. *)
Record HeartbeatPost := mk_HeartbeatPost {
  hp_client : ClientSettings;
  hp_url : string;
  hp_bearer : string;
  hp_body : HeartbeatRequest;
}.

Definition send_once (client : ClientSettings) (version : string) (r : HeartbeatReporter) (interfaces : option (list IpAddr)) : HeartbeatPost :=
  mk_HeartbeatPost client (heartbeat_url (hr_config r)) (hr_node_key r)
    (mk_HeartbeatRequest (report_node_id (hr_config r)) (hr_peer_id r)
       (ipv4_to_string <$> detect_mesh_ipv4 interfaces) (Some version)).

(** What the task waits for: a tick, with the interfaces at that time, or the end. *)
Inductive Wake := Tick (interfaces : option (list IpAddr)) | Shutdown.

Fixpoint report_loop (client : ClientSettings) (version : string) (r : HeartbeatReporter) (l : list Wake) : list HeartbeatPost :=
  match l with
  | [] => []
  | Tick interfaces :: l => send_once client version r interfaces :: report_loop client version r l
  | Shutdown :: _ => []
  end.
(** [build] tells whether a client with these settings can be built. *)
Definition spawn_reporter (build : ClientSettings → bool) (version : string) (r : HeartbeatReporter) (l : list Wake) : list HeartbeatPost :=
  if negb (build heartbeat_client) then [] else report_loop heartbeat_client version r l.
End reports.

(** ** Masks

    A mask of high bits cuts out the quotient. *)
Lemma land_high_mask a n k : N.land a (N.shiftl (N.ones n) k) = (a / 2 ^ k mod 2 ^ n * 2 ^ k)%N.
Proof.
  rw -N.land_ones -N.shiftl_mul_pow2 -N.shiftr_div_pow2. apply N.bits_inj. intros i. rw N.land_spec.
  destruct (N.lt_ge_cases i k) as [Hi|Hi].
  - by rewrite !(N.shiftl_spec_low _ _ _ Hi) andb_false_r.
  - rewrite !(N.shiftl_spec_high' _ _ _ Hi) N.land_spec N.shiftr_spec'. by replace (i - k + k)%N with i by lia.
Qed.

Definition is_segment (x : N) : Prop := (x < 65536)%N.

Lemma masked x n k v : (x < 2 ^ (k + n))%N → (N.land x (N.shiftl (N.ones n) k) =? v * 2 ^ k)%N = true ↔ (x / 2 ^ k = v)%N.
Proof.
  intros Hx. rw land_high_mask N.eqb_eq N.mod_small.
  - apply N.Div0.div_lt_upper_bound. by rw -N.pow_add_r.
  - rw N.mul_cancel_r //. lia.
Qed.

(** The global addresses are the global unicast block 2000::/3 without the documentation block 2001:db8::/32: the other exclusions
    follow. *)
Theorem is_global_ipv6_exact s :
  length s = 8 → Forall is_segment s →
  is_global_ipv6 s = true ↔ (0x2000 ≤ segment 0 s < 0x4000)%N ∧ ¬ (segment 0 s = 0x2001 ∧ segment 1 s = 0x0db8)%N.
Proof.
  intros Hlen Hall. destruct s as [|x s]; [done|]. apply Forall_cons in Hall as [Hx _].
  unfold is_global_ipv6, v6_loopback, v6_unspecified, v6_multicast.
  change (segment 0 (x :: s)) with x. set (y := segment 1 (x :: s)). unfold is_segment in Hx.
  pose proof (masked x 8 8 0xff) as H1. pose proof (masked x 10 6 0x3fa) as H2. pose proof (masked x 7 9 0x7e) as H3.
  pose proof (masked x 3 13 1) as H4. cbn in H1, H2, H3, H4.
  change (N.shiftl (N.ones 8) 8) with 0xff00%N in H1. specialize (H1 Hx). specialize (H2 Hx). specialize (H3 Hx). specialize (H4 Hx).
  assert (Hz : bool_decide (x :: s = replicate 7 0%N ++ [1%N]) || bool_decide (x :: s = replicate 8 0%N) = true → x = 0%N).
  { rw orb_true_iff !bool_decide_eq_true. cbn. naive_solver. }
  destruct (_ || _) eqn:E; [specialize (Hz eq_refl)|clear Hz]; cbn [orb].
  - split; [done|]. lia.
  - assert (Hq : (x / 8192 = 1 ↔ 0x2000 ≤ x < 0x4000)%N) by (zify; Z.to_euclidean_division_equations; lia).
    rw -Hq. clear Hq. destruct (N.land x 65280 =? 65280)%N eqn:E1.
    { apply H1 in E1. split; [done|]. zify; Z.to_euclidean_division_equations; lia. }
    destruct (N.land x 65472 =? 65152)%N eqn:E2.
    { apply H2 in E2. split; [done|]. zify; Z.to_euclidean_division_equations; lia. }
    destruct (N.land x 65024 =? 64512)%N eqn:E3.
    { apply H3 in E3. split; [done|]. zify; Z.to_euclidean_division_equations; lia. }
    destruct ((x =? 8193)%N && (y =? 3512)%N) eqn:E4; [bool_to_prop; naive_solver|]. rw H4.
    apply andb_false_iff in E4. rewrite !N.eqb_neq in E4. naive_solver.
Qed.

(** The addresses of the mesh are those that share the first twelve bits with 100.96.0.0. *)
Theorem is_mesh_ipv4_exact a b c d :
  (a < 256)%N → (b < 256)%N → (c < 256)%N → (d < 256)%N →
  is_mesh_ipv4 [a; b; c; d] = true ↔
    ((a * 2 ^ 24 + b * 2 ^ 16 + c * 2 ^ 8 + d) / 2 ^ 20 = (100 * 2 ^ 24 + 96 * 2 ^ 16) / 2 ^ 20)%N.
Proof.
  intros. unfold is_mesh_ipv4. rw !andb_true_iff N.eqb_eq !N.leb_le. cbn [N.pow]. 
  change ((100 * 2 ^ 24 + 96 * 2 ^ 16) / 2 ^ 20)%N with 1606%N.
  change (2 ^ 24)%N with 16777216%N. change (2 ^ 16)%N with 65536%N. change (2 ^ 8)%N with 256%N. change (2 ^ 20)%N with 1048576%N.
  zify. Z.to_euclidean_division_equations. lia.
Qed.

(** ** The mode of the node *)

(** A node that is not told otherwise goes behind the relay exactly when no probe found a way in within its time. *)
Theorem relay_only_exact `{IpText} force auto ipv6 gateway tunnel relay :
  effective_relay_only force auto (detect ipv6 gateway tunnel relay) = true ↔
  force = true ∨ (auto = true ∧ (ipv6 = None ∨ ipv6 = Some []) ∧ (gateway = None ∨ gateway = Some None) ∧
    (tunnel = None ∨ tunnel = Some false)).
Proof.
  unfold effective_relay_only, recommended_mode, detect. destruct force; [naive_solver|]. destruct auto; [|naive_solver].
  cbn [has_ipv6_global upnp tunnel_available]. destruct ipv6 as [[|]|], gateway as [[|]|], tunnel as [[]|]; cbn; naive_solver.
Qed.

(** ** The endpoint *)
Lemma ask_services_spec {T} (parse : string → option T) answer l r asked :
  ask_services parse answer l = (r, asked) →
  asked `prefix_of` l ∧
  match r with
  | Some a => ∃ before url body, asked = before ++ [url] ∧ answer url = Body body ∧ parse (trim_text body) = Some a ∧
      ∀ u b, u ∈ before → answer u = Body b → parse (trim_text b) = None
  | None => asked = l ∧ ∀ u b, u ∈ l → answer u = Body b → parse (trim_text b) = None
  end.
Proof.
  revert r asked. induction l as [|url l IH]; intros r asked; cbn [ask_services].
  { intros [= <- <-]. split; [done|]. split; [done|]. by intros u b ?%elem_of_nil. }
  destruct (match answer url with Body body => parse (trim_text body) | _ => None end) as [a|] eqn:Ea.
  - intros [= <- <-]. split; [by apply prefix_cons, prefix_nil|]. destruct (answer url) as [| | |body] eqn:Eb; try done.
    exists [], url, body. split_and!; [done..|]. by intros u b ?%elem_of_nil.
  - destruct (ask_services parse answer l) as [r' asked'] eqn:E. intros [= <- <-].
    destruct (IH _ _ eq_refl) as [Hp Hr]. split; [by apply prefix_cons|].
    assert (Hu : ∀ b, answer url = Body b → parse (trim_text b) = None) by (intros b Hb; by rw Hb in Ea).
    destruct r' as [a|].
    + destruct Hr as (before & u & body & -> & ? & ? & Hb). exists (url :: before), u, body. split_and!; [done..|].
      intros v b [->|Hv]%elem_of_cons; [by apply Hu|by apply Hb].
    + destruct Hr as [-> Hr]. split; [done|]. intros v b [->|Hv]%elem_of_cons; [by apply Hu|by apply Hr].
Qed.

(** What [/peer-info] answers: an endpoint that is set goes out as it is, and nothing is asked; otherwise, an address that was found
    with the port that is bound, failing that the bound address; and no endpoint exactly as long as nothing is bound. *)
Theorem endpoint_exact `{IpText} w s :
  (∀ literal, advertised_addr s = Some literal → literal ≠ "auto" → endpoint_of w s = (Some literal, [])) ∧
  (advertised_addr s = None ∨ advertised_addr s = Some "auto" →
    ((endpoint_of w s).1 = None ↔ pi_local_addr s = None) ∧
    ∀ la, pi_local_addr s = Some la →
      (endpoint_of w s).1 = Some (match (auto_advertise_addr w).1 with Some ip => format_addr ip (ba_port la) | None => ba_text la end)).
Proof.
  split.
  - intros l Hl Hn. unfold endpoint_of. rw Hl. by rw bool_decide_eq_false_2.
  - intros Ha. unfold endpoint_of. destruct (auto_advertise_addr w) as [found asked]. cbn [fst].
    destruct Ha as [-> | ->]; [|rw bool_decide_eq_true_2 //]; cbn [negb]; destruct found, (pi_local_addr s); naive_solver.
Qed.

(** The address found is the first answer that is one: IPv6 before IPv4, and a global address of the machine's own when no service
    answers with one. *)
Theorem advertised_address_found `{IpText} w ip asked :
  auto_advertise_addr w = (Some ip, asked) →
  match ip with
  | V6 v6 => (∃ url body, url ∈ IPV6_ENDPOINTS ∧ echo w url = Body body ∧ parse_v6 (trim_text body) = Some v6) ∨
      is_global_ipv6 v6 = true ∧ ∃ l, interfaces w = Some l ∧ V6 v6 ∈ l
  | V4 v4 => (∃ url body, url ∈ IPV4_ENDPOINTS ∧ echo w url = Body body ∧ parse_ipv4 (trim_text body) = Some v4) ∧
      (client_v6 w = true → ∀ url body, url ∈ IPV6_ENDPOINTS → echo w url = Body body → parse_v6 (trim_text body) = None)
  end.
Proof.
  assert (Hask : ∀ T (parse : string → option T) client l r asked,
    discover_public_addr_via_https parse client (echo w) l = (r, asked) →
    match r with
    | Some a => ∃ url body, url ∈ l ∧ echo w url = Body body ∧ parse (trim_text body) = Some a
    | None => client = true → ∀ u b, u ∈ l → echo w u = Body b → parse (trim_text b) = None
    end).
  { intros T parse [] l r asked'; unfold discover_public_addr_via_https; cbn [negb]; [|by intros [= <- <-]].
    intros [Hp Hr]%ask_services_spec. destruct r as [a|]; [|naive_solver].
    destruct Hr as (before & url & body & -> & ? & ? & _). exists url, body. split_and!; [|done..].
    destruct Hp as [l' ->]. set_solver. }
  unfold auto_advertise_addr. destruct (discover_public_addr_via_https parse_v6 _ _ _) as [r6 a6] eqn:E6. apply Hask in E6.
  destruct r6 as [v6|]; [intros [= <- <-]; by left|].
  destruct (discover_public_addr_via_https parse_ipv4 _ _ _) as [r4 a4] eqn:E4. apply Hask in E4.
  destruct r4 as [v4|]; [by intros [= <- <-]|]. intros [= Hh <-]. unfold probe_ipv6_global in Hh.
  destruct (interfaces w) as [l|]; [|done]. destruct (head _) as [v6|] eqn:Eh; [|done]. injection Hh as <-. right.
  apply head_Some_elem_of, list_elem_of_omap in Eh as (i & Hi & Ei). destruct i as [|v6']; [done|].
  destruct (is_global_ipv6 v6') eqn:Eg; [|done]. injection Ei as <-. split; [done|]. by exists l.
Qed.

(** ** Reports *)
Section report_claims.
Context `{IpText} (parse_url : string → option Url) (env : string → option string).

Lemma ensure_bind {E A} (c : bool) (e : E) (k : () → result E A) x : (ensure c e ≫= k) = Ok x ↔ c = true ∧ k () = Ok x.
Proof. destruct c; cbn; naive_solver. Qed.
Lemma ok_or_bind {E A B} (o : option A) (e : E) (k : A → result E B) x : (ok_or o e ≫= k) = Ok x ↔ ∃ a, o = Some a ∧ k a = Ok x.
Proof.
  destruct o as [a|]; cbn; [|by split; [|intros (? & ? & _)]].
  split; [intros Hk; by exists a|by intros (? & [= <-] & ?)].
Qed.
Lemma not_blank_some o u : not_blank o = Some u ↔ o = Some u ∧ is_blank_text u = false.
Proof.
  unfold not_blank. destruct o as [v|]; cbn; [|by split; [|intros [? _]]]. destruct (is_blank_text v) eqn:Ev.
  - split; [done|]. intros [[= <-] ?]. congruence.
  - by split; [intros [= <-]|intros [[= <-] _]].
Qed.

(** The hosts to which a report may go in plain text. *)
Definition local_or_mesh (url : Url) : Prop :=
  ∃ h, host_str url = Some h ∧
    (to_ascii_lowercase h = "localhost" ∨
     (∃ b c d, parse_ipv4 (without_brackets h) = Some [127; b; c; d]%N) ∨
     (∃ b c d, parse_ipv4 (without_brackets h) = Some [100; b; c; d]%N ∧ (96 ≤ b ≤ 111)%N) ∨
     parse_ipv4 (without_brackets h) = None ∧ parse_v6 (without_brackets h) = Some (replicate 7 0%N ++ [1%N])).

Lemma parse_ipv4_four s l : parse_ipv4 s = Some l → ∃ a b c d, l = [a; b; c; d].
Proof.
  unfold parse_ipv4. destruct (split_on "." s) as [|a [|b [|c [|d [|]]]]]; try done.
  intros (na & _ & (nb & _ & (nc & _ & (nd & _ & [= <-])%bind_Some)%bind_Some)%bind_Some)%bind_Some. naive_solver.
Qed.

Lemma trusted_exact url : is_trusted_plaintext_host url = true ↔ local_or_mesh url.
Proof.
  unfold is_trusted_plaintext_host, local_or_mesh. destruct (host_str url) as [h|]; [|naive_solver].
  unfold eq_ignore_ascii_case. change (to_ascii_lowercase "localhost") with "localhost".
  destruct (decide (to_ascii_lowercase h = "localhost")) as [El|El]; [rw (bool_decide_eq_true_2 _ El); naive_solver|].
  rw (bool_decide_eq_false_2 _ El).
  unfold parse_ip. destruct (parse_ipv4 (without_brackets h)) as [l|] eqn:E4.
  - destruct (parse_ipv4_four _ _ E4) as (a & b & c & d & ->). unfold v4_loopback, is_mesh_ipv4.
    rw orb_true_iff !andb_true_iff !N.eqb_eq !N.leb_le. split.
    + intros [->|(-> & ?)]; exists h; (split; [done|]); [right; left|right; right; left]; naive_solver.
    + intros (h' & [= <-] & Hc). rw E4 in Hc. naive_solver.
  - destruct (parse_v6 (without_brackets h)) as [v6|] eqn:E6; cbn.
    + unfold v6_loopback. rw bool_decide_eq_true. split; [intros ->; naive_solver|].
      intros (h' & [= <-] & Hc). rw E4 E6 in Hc. naive_solver.
    + split; [done|]. intros (h' & [= <-] & Hc). rw E4 E6 in Hc. naive_solver.
Qed.

(** The settings are accepted exactly when they are complete and the address is safe to report to. *)
Theorem from_config_exact c p r :
  from_config parse_url env c p = Ok (Some r) ↔
  is_blank_text (heartbeat_url c) = false ∧ is_blank_text (report_node_id c) = false ∧ interval_secs c ≠ 0%N ∧
  ∃ key url, env (node_key_env c) = Some key ∧ is_blank_text key = false ∧ parse_url (heartbeat_url c) = Some url ∧
    (scheme url = "https" ∨ scheme url = "http" ∧ local_or_mesh url) ∧ username url = "" ∧ password url = None ∧
    r = mk_HeartbeatReporter c key p.
Proof.
  unfold from_config. destruct (is_blank_text (heartbeat_url c)); [naive_solver|]. rw ensure_bind ok_or_bind.
  pose proof trusted_exact as Ht. split.
  - intros (Hn & key & Hk & Hrest). apply ensure_bind in Hrest as [Hi Hrest]. apply ok_or_bind in Hrest as (url & Hu & Hrest).
    apply ensure_bind in Hrest as [Hs Hrest]. apply ensure_bind in Hrest as [Hc Hrest]. apply ensure_bind in Hrest as [Hp [= <-]].
    apply not_blank_some in Hk as [Hk Hb]. apply negb_true_iff, N.eqb_neq in Hi. apply negb_true_iff in Hn.
    apply andb_true_iff in Hc as [Hname Hpw]. apply bool_decide_eq_true in Hname. apply negb_true_iff, bool_decide_eq_false, eq_None_not_Some in Hpw.
    split_and!; [done..|]. exists key, url. split_and!; try done.
    apply orb_true_iff in Hs as [Hs|Hs]; apply bool_decide_eq_true in Hs; [right|by left]. split; [done|].
    rw (bool_decide_eq_true_2 _ Hs) in Hp. cbn in Hp. apply Ht. by destruct (is_trusted_plaintext_host url).
  - intros (_ & Hn & Hi & key & url & Hk & Hb & Hu & Hs & Hname & Hpw & ->). split; [by rw Hn|]. exists key.
    split; [by apply not_blank_some|]. apply ensure_bind. split; [by apply negb_true_iff, N.eqb_neq|]. apply ok_or_bind. exists url.
    split; [done|]. apply ensure_bind. split; [apply orb_true_iff; rw !bool_decide_eq_true; tauto|]. apply ensure_bind.
    split; [by rw Hname Hpw|]. apply ensure_bind. split; [|done]. destruct Hs as [Hs|[Hs Hl]].
    + by rw Hs.
    + apply Ht in Hl. by rw Hl andb_false_r.
Qed.

(** Reporting is off exactly when no address is set: incomplete settings are an error, never silence. *)
Theorem reports_off_exact c p : from_config parse_url env c p = Ok None ↔ is_blank_text (heartbeat_url c) = true.
Proof.
  unfold from_config. destruct (is_blank_text (heartbeat_url c)); [done|]. split; [|done]. intros Hx.
  apply ensure_bind in Hx as [_ Hx]. apply ok_or_bind in Hx as (key & _ & Hx). apply ensure_bind in Hx as [_ Hx].
  apply ok_or_bind in Hx as (url & _ & Hx). do 3 apply ensure_bind in Hx as [_ Hx]. done.
Qed.
End report_claims.

(** ** What is reported, and to whom *)
Lemma report_loop_posts client version r l x : x ∈ report_loop client version r l → ∃ i, Tick i ∈ l ∧ x = send_once client version r i.
Proof.
  induction l as [|[i|] l IH]; cbn [report_loop]; [by intros ?%elem_of_nil| |by intros ?%elem_of_nil].
  intros [->|Hx]%elem_of_cons; [exists i; by split; [left|]|]. destruct (IH Hx) as (j & Hj & ->). exists j. by split; [right|].
Qed.

(** Printing an address and reading it back. *)
Lemma octets_print :
  forallb (λ n, bool_decide (parse_octet (pretty n) = Some n) && negb (contains_char "." (pretty n))) (N.of_nat <$> seq 0 256) = true.
Proof. vm_compute. reflexivity. Qed.
Lemma parse_octet_pretty n : (n < 256)%N → parse_octet (pretty n) = Some n ∧ contains_char "." (pretty n) = false.
Proof.
  intros Hn. pose proof octets_print as Ho. rewrite forallb_forall in Ho.
  assert (Hin : In n (N.of_nat <$> seq 0 256)).
  { apply list_elem_of_In, list_elem_of_fmap. exists (N.to_nat n). split; [lia|]. apply elem_of_seq. lia. }
  specialize (Ho _ Hin). by apply andb_true_iff in Ho as [?%bool_decide_eq_true ?%negb_true_iff].
Qed.
Lemma parse_print_ipv4 a b c d :
  (a < 256)%N → (b < 256)%N → (c < 256)%N → (d < 256)%N → parse_ipv4 (ipv4_to_string [a; b; c; d]) = Some [a; b; c; d].
Proof.
  intros [Ha Ha']%parse_octet_pretty [Hb Hb']%parse_octet_pretty [Hc Hc']%parse_octet_pretty [Hd Hd']%parse_octet_pretty.
  unfold parse_ipv4, ipv4_to_string.
  change (pretty a +:+ "." +:+ pretty b +:+ "." +:+ pretty c +:+ "." +:+ pretty d) with
    (pretty a +:+ String.String "." (pretty b +:+ String.String "." (pretty c +:+ String.String "." (pretty d)))).
  rewrite !split_on_app_sep // split_on_single // Ha Hb Hc Hd. done.
Qed.

(** An interface of the machine has an address of four octets, or of eight segments. *)
Definition wf_ip (i : IpAddr) : Prop :=
  match i with
  | V4 l => length l = 4 ∧ Forall (λ x, (x < 256)%N) l
  | V6 l => length l = 8 ∧ Forall is_segment l
  end.

Lemma detect_mesh_inv l ip : Forall wf_ip l → detect_mesh_ipv4 (Some l) = Some ip →
  V4 ip ∈ l ∧ ∃ b c d, ip = [100; b; c; d]%N ∧ (96 ≤ b ≤ 111)%N ∧ (c < 256)%N ∧ (d < 256)%N.
Proof.
  intros Hwf. cbn. intros (i & Hi & Ei)%head_Some_elem_of%list_elem_of_omap. rewrite Forall_forall in Hwf. specialize (Hwf _ Hi).
  destruct i as [v4|]; [|done]. destruct (is_mesh_ipv4 v4) eqn:Em; [|done]. injection Ei as <-. split; [done|].
  destruct Hwf as [Hl Hall]. destruct v4 as [|a [|b [|c [|d [|]]]]]; try done.
  apply Forall_cons in Hall as [_ Hall]. apply Forall_cons in Hall as [_ Hall].
  apply Forall_cons in Hall as [Hc Hall]. apply Forall_cons in Hall as [Hd _].
  cbn in Em. rewrite !andb_true_iff !N.eqb_eq !N.leb_le in Em. destruct Em as [-> Hb]. by exists b, c, d.
Qed.

(** C32: The node key leaves the node only in reports to the configured address, which is an HTTPS address or, in plain text, one on this
    machine or in the mesh, by a client that follows no redirection and uses no proxy; a report says which node it is about and no other address than the node's own in the mesh; and none is sent
    after the end of the daemon. *)
Theorem reports_confined `{IpText} parse_url env c p r build version l x :
  from_config parse_url env c p = Ok (Some r) → x ∈ spawn_reporter build version r l →
  ∃ key url i before after, env (node_key_env c) = Some key ∧ parse_url (heartbeat_url c) = Some url ∧
    (scheme url = "https" ∨ scheme url = "http" ∧ local_or_mesh url) ∧ username url = "" ∧ password url = None ∧
    l = before ++ Tick i :: after ∧ Shutdown ∉ before ∧
    x = mk_HeartbeatPost (mk_ClientSettings 10 false false) (heartbeat_url c) key
      (mk_HeartbeatRequest (report_node_id c) p (ipv4_to_string <$> detect_mesh_ipv4 i) (Some version)).
Proof.
  intros (_ & _ & _ & key & url & Hk & _ & Hu & Hs & Hn & Hp & ->)%from_config_exact Hx. unfold spawn_reporter in Hx.
  destruct (build _); cbn [negb] in Hx; [|by apply elem_of_nil in Hx].
  assert (Hl : ∃ i before after, l = before ++ Tick i :: after ∧ Shutdown ∉ before ∧ x = send_once heartbeat_client version (mk_HeartbeatReporter c key p) i).
  { clear -Hx. induction l as [|[i|] l IH]; cbn [report_loop] in Hx; [by apply elem_of_nil in Hx| |by apply elem_of_nil in Hx].
    apply elem_of_cons in Hx as [->|Hx].
    - exists i, [], l. split_and!; [done| |done]. by apply not_elem_of_nil.
    - destruct (IH Hx) as (j & before & after & -> & Hb & ->). exists j, (Tick i :: before), after. split_and!; [done| |done].
      rewrite not_elem_of_cons. by split. }
  destruct Hl as (i & before & after & Hl & Hb & ->). exists key, url, i, before, after. done.
Qed.

(** From end to end: a report of a node that is registered with the hash of this key is taken in, and what the control server then
    knows is what the node reported. *)
Theorem report_is_accepted `{Blake3, Hex} client version r interfaces d n :
  Forall wf_ip (default [] interfaces) →
  node_key_hash n = Some (hash_node_key (hr_node_key r)) →
  hr_peer_id r ≠ "" → String.length (hr_peer_id r) ≤ 256 → has_control (as_bytes (hr_peer_id r)) = false →
  String.length version ≤ 128 → has_control (as_bytes version) = false →
  let x := send_once client version r interfaces in
  ∃ n', apply_heartbeat d (hash_node_key (hp_bearer x)) (hp_body x) n = Ok n' ∧
    synergos_peer_id n' = Some (hr_peer_id r) ∧ synergos_version n' = Some version ∧
    reported_mesh_ip n' = ipv4_to_string <$> detect_mesh_ipv4 interfaces ∧
    last_heartbeat_ms n' = Some (dw_now d) ∧ mesh_ip n' = mesh_ip n ∧ nd_id n' = nd_id n.
Proof.
  intros Hwf Hh Hne Hlen Hc Hvl Hvc x. unfold apply_heartbeat. rewrite Hh. cbn [ok_or mbind result_bind].
  assert (Heq : constant_time_eq (as_bytes (hash_node_key (hp_bearer x))) (as_bytes (hash_node_key (hr_node_key r))) = true)
    by by rewrite constant_time_eq_eq bool_decide_eq_true_2.
  rewrite Heq. cbn [negb hp_body x send_once hb_peer_id hb_synergos_version hb_mesh_ip].
  rewrite (bool_decide_eq_false_2 (hr_peer_id r = "")) // Hc (proj2 (Nat.ltb_ge _ _) Hlen) (proj2 (Nat.ltb_ge _ _) Hvl) Hvc. cbn [orb].
  destruct (detect_mesh_ipv4 interfaces) as [ip|] eqn:Ed; [|eexists; split; [reflexivity|by split_and!]].
  destruct interfaces as [l|]; [|done]. destruct (detect_mesh_inv l ip Hwf Ed) as (_ & b & c & e & -> & Hb & ? & ?).
  assert (Hn : normalize_mesh_ip (ipv4_to_string [100; b; c; e]%N) = Ok (ipv4_to_string [100; b; c; e]%N)).
  { apply normalize_mesh_ip_exact. split; [done|]. exists b, c, e. split; [apply parse_print_ipv4; lia|done]. }
  cbn [fmap option_fmap option_map map_transpose]. rewrite Hn. eexists. split; [reflexivity|by split_and!].
Qed.

(** ** A node in the mesh *)
Module AdvertiseWitness.
#[export] Existing Instances Toy.toy_blake3 Toy.toy_hex.
#[export] Instance text : IpText := {|
  show_v6 := λ s, if bool_decide (s = [0x2606; 0x4700; 0; 0; 0; 0; 0; 0x1111]%N) then "2606:4700::1111" else "::";
  parse_v6 := λ s, if bool_decide (s = "2606:4700::1111") then Some [0x2606; 0x4700; 0; 0; 0; 0; 0; 0x1111]%N
                   else if bool_decide (s = "::1") then Some (replicate 7 0%N ++ [1%N]) else None;
|}.
Definition url (s h : string) : Url := mk_Url s (Some h) "" None "/v1/heartbeat" None None.
Definition parse (s : string) : option Url :=
  if bool_decide (s = "http://100.96.0.10:4250/v1/heartbeat") then Some (url "http" "100.96.0.10")
  else if bool_decide (s = "http://[::1]:4250/v1/heartbeat") then Some (url "http" "[::1]")
  else if bool_decide (s = "http://10.0.0.5:4250/v1/heartbeat") then Some (url "http" "10.0.0.5") else None.
Definition env (s : string) : option string := if bool_decide (s = "KEY") then Some "secret" else None.
Definition config (u : string) : ControlReportConfig := mk_ControlReportConfig u "n1" "KEY" 60.
Definition c : ControlReportConfig := config "http://100.96.0.10:4250/v1/heartbeat".
Definition r : HeartbeatReporter := mk_HeartbeatReporter c "secret" "peer".
Definition ifs : option (list IpAddr) := Some [V4 [192; 168; 0; 2]%N; V6 [0xfe80; 0; 0; 0; 0; 0; 0; 1]%N; V4 [100; 96; 0; 7]%N].
Definition wakes : list Wake := [Tick ifs; Shutdown; Tick ifs].
Definition post : HeartbeatPost := mk_HeartbeatPost heartbeat_client "http://100.96.0.10:4250/v1/heartbeat" "secret"
  (mk_HeartbeatRequest "n1" "peer" (Some "100.96.0.7") (Some "1.0")).

Example reports_sent : from_config parse env c "peer" = Ok (Some r) ∧ spawn_reporter (λ _, true) "1.0" r wakes = [post].
Proof. split; vm_compute; reflexivity. Qed.
(** IPv6 loopback is admitted, another private address is not. *)
Example hosts_checked :
  is_ok (from_config parse env (config "http://[::1]:4250/v1/heartbeat") "peer") = true ∧
  from_config parse env (config "http://10.0.0.5:4250/v1/heartbeat") "peer" = Err PlaintextTarget.
Proof. split; vm_compute; reflexivity. Qed.

Definition answers (s : string) : EchoAnswer :=
  if bool_decide (s = "https://api6.ipify.org") then Body "2606:4700::1111" else BadStatus.
(** The services answer with an IPv6 address while the node listens on an IPv4 address: the endpoint that goes out is one at which
    nothing listens. *)
Example endpoint_of_other_family :
  endpoint_of (mk_Surroundings true true answers None)
    (mk_PeerInfoState "peer" (Some (mk_BoundAddr 7777 "0.0.0.0:7777")) "node" None) =
  (Some "[2606:4700::1111]:7777", ["https://ipv6.icanhazip.com"; "https://api6.ipify.org"]).
Proof. vm_compute. reflexivity. Qed.

Definition node : Node := mk_Node "n1" "o" "name" "me@x" MeshNode (Some "c") None (Some "100.96.0.7") None
  (Some (hash_node_key "secret")) None None 1 1.
Definition draw : Draw := mk_Draw 9 "id" ("a", "b") "t".
End AdvertiseWitness.
Import (hints) AdvertiseWitness.

Lemma is_global_ipv6_exact_witness : is_global_ipv6 [0x2606; 0x4700; 0; 0; 0; 0; 0; 1]%N = true ∧ is_global_ipv6 [0x2001; 0xdb8; 0; 0; 0; 0; 0; 1]%N = false.
Proof.
  split; [|reflexivity]. apply (is_global_ipv6_exact [0x2606; 0x4700; 0; 0; 0; 0; 0; 1]%N); [reflexivity| |].
  - repeat constructor; reflexivity.
  - split; [split; [discriminate|reflexivity]|]. intros [? _]. discriminate.
Defined.

Lemma reports_confined_witness :
  ∃ key url, AdvertiseWitness.env "KEY" = Some key ∧ AdvertiseWitness.parse (heartbeat_url AdvertiseWitness.c) = Some url ∧
    (scheme url = "https" ∨ scheme url = "http" ∧ local_or_mesh url) ∧ hp_bearer AdvertiseWitness.post = key.
Proof.
  destruct (reports_confined AdvertiseWitness.parse AdvertiseWitness.env AdvertiseWitness.c "peer" AdvertiseWitness.r (λ _, true) "1.0"
    AdvertiseWitness.wakes AdvertiseWitness.post) as (key & url & i & b & a & Hk & Hu & Hs & _ & _ & _ & _ & ->).
  - vm_compute. reflexivity.
  - vm_compute. left.
  - exists key, url. split; [exact Hk|]. split; [exact Hu|]. split; [exact Hs|reflexivity].
Defined.

Lemma report_is_accepted_witness :
  ∃ n', apply_heartbeat AdvertiseWitness.draw (hash_node_key "secret") (hp_body AdvertiseWitness.post) AdvertiseWitness.node = Ok n' ∧
    reported_mesh_ip n' = Some "100.96.0.7".
Proof.
  destruct (report_is_accepted heartbeat_client "1.0" AdvertiseWitness.r AdvertiseWitness.ifs AdvertiseWitness.draw AdvertiseWitness.node)
    as (n' & Hn & _ & _ & Hip & _).
  - repeat constructor; vm_compute; reflexivity.
  - reflexivity.
  - discriminate.
  - vm_compute. repeat constructor.
  - vm_compute. reflexivity.
  - vm_compute. repeat constructor.
  - vm_compute. reflexivity.
  - exists n'. split; [exact Hn|exact Hip].
Defined.
